(* ===== verification/_CoqProject ===== *)
-Q . S2P
Prelude.v
Util.v
Intset.v
Listpack.v
Crc.v
SipHash.v
Adlist.v
Sds.v
SdsText.v
Dict.v
DictScan.v
HttpConn.v
ThreadPool.v
Server.v
Reply.v
Query.v
Resp.v
Replication.v
Lzf.v
Rdb.v
Bitops.v
Zskiplist.v
ZskiplistSpec.v
Zset.v
Ziplist.v
ZiplistSpec.v
Quicklist.v
QuicklistNodes.v
QuicklistSpec.v
QuicklistEdit.v
QuicklistRefine.v
Hll.v
HllDense.v
HllSparse.v
HllSet.v
HllSpec.v
HllRefine.v
Lessons.v
