(* ===== verification/Prelude.v ===== *)
(** * A verification of the WebServer repository

    The repository is a course on Linux server programming.  Its own program is the web server of
    [code/webserver]: an epoll loop ([main.cpp]), an HTTP connection with its request parser
    ([http_conn.cpp]) and a thread pool ([threadpool.h], [locker.h]).  Beside it stand small
    lesson programs ([code/lesson...]) and the sources of redis 5.0.10
    ([code/lesson1.10/redis-5.0.10/src]), the server the course builds and studies.

    ** How the parts interact

    Web server: [main] accepts descriptors, reads requests into the connection of the descriptor,
    hands the connection to the pool and closes it on errors; a worker takes it from the queue and
    runs [process], which parses the buffer and re-arms the one-shot epoll registration.

    Redis: bytes from a socket go to the query buffer of a client (an sds string), are parsed into
    commands (inline or RESP), executed, and the replies are queued and written back.  Keys live in
    hash tables hashed with SipHash; small sets of integers are intsets, streams are made of
    listpacks, reply queues are adlists, cluster slots come from CRC16 and dump files end with
    CRC64.

    ** Files

    - Prelude: machine integers, bounds-checked buffers, little-endian words, tactics, hints.
    - Util: [util.c] number/string conversion; [decimal] is the specification used elsewhere.
    - Intset: [intset.c], bytes of a sorted array in three widths.
    - Listpack: [listpack.c], the packed sequence of strings and integers.
    - Crc: [crc16.c], [crc64.c] and [keyHashSlot] of [cluster.c]; SipHash: [siphash.c].
    - Adlist: [adlist.c], doubly linked lists in a heap with dangling pointers visible.
    - Sds: [sds.c], [sds.h], the allocation with its five header layouts; the classes [StringLib]
      and [StringLaws] are what it promises; SdsText: quoting, splitting, joining and number
      formatting, verified from those laws only.
    - Dict: [dict.c], [dict.h], chained tables with incremental rehashing; DictScan: [dictScan].
    - HttpConn: [http_conn.cpp]; ThreadPool: [threadpool.h] as an interleaving of the statements
      that touch shared state; Server: [main.cpp], composing connections and pool over a model of
      the kernel's descriptors and epoll registrations.
    - Reply: the output half of a redis client in [networking.c] (reply functions, static buffer,
      block list, deferred lengths, output limits, [writeToClient]).
    - Query: the input half ([readQueryFromClient], both parsers, the command loop, replication
      offsets); command execution is a parameter constrained by the class [CommandLaws].
    - Resp: the printer of [aof.c] against the parser.
    - Replication: [replication.c], the circular backlog, the propagation of commands to replicas
      and partial resynchronisation, on top of the reply queues and the printer.
    - Lzf: [lzf_c.c], [lzf_d.c]; Rdb: the strings, lengths, times and types of [rdb.c].
    - Bitops: [bitops.c], counting and searching bits, and integer fields with their overflow rules.
    - Zskiplist: the skip list of [t_zset.c] in a heap, with its invariant; ZskiplistSpec: its
      operations refine a sorted list of keys; Zset: the skip list and a dictionary together, the
      sorted set of redis, a client of Dict and Zskiplist.
    - Ziplist: [ziplist.c], the operations on the bytes of a ziplist and the lemmas about one entry;
      ZiplistSpec: the layout of whole ziplists, the cascade of stored lengths and the theorems.
    - Quicklist: [quicklist.c], the doubly linked list of ziplists, compressed with LZF, a client of
      Ziplist and Lzf; QuicklistNodes: the chain of nodes; QuicklistSpec: the operations on one
      node; QuicklistEdit: merging, splitting, ranges; QuicklistRefine: the theorems.
    - Hll: [hyperloglog.c], hashing, both representations and the commands, a client of Sds; HllDense:
      packed registers as digits in base 64; HllSparse: opcodes as run-length encoding; HllSet: setting
      a register, conversion; HllSpec: elements, merging, commands; HllRefine: the theorems.
    - Lessons: sorting, summation, [ls -l] mode string, file count and copy of the lessons.

    Definitions keep the names of the source.  State is a record passed explicitly; a C pointer
    into a buffer is an offset; [None] is undefined behaviour or a failed assertion, so a theorem
    concluding [Some _] excludes both.  Fresh memory is a parameter where the code may read it before
    writing it, and otherwise filled with a byte ([junk]) that is not zero, so that a terminator or
    field left out shows.  Results of system calls (bytes received or accepted by a
    socket, results of [accept] and [epoll_wait]) are arguments and universally quantified.  The
    host is little endian with 64-bit longs, as in the repository's build.

    ** What the theorems show

    - Refinement: intsets implement finite sets of integers, listpacks sequences of elements, adlists
      sequences of values, sds strings byte strings, dictionaries finite maps in every phase of
      rehashing, skip lists sorted lists of (score, element) keys for every choice of levels,
      dictionary plus skip list a map from elements to scores with ranks, ziplists and
      quicklists that are not compressed lists of strings through any sequence of edits; PFADD,
      PFMERGE and PFCOUNT act on arrays of registers, in either representation and with the cached
      cardinality never stale.
    - Typing: the type of a ziplist entry is determined by the string it stores.
    - Equivalence: table-driven CRCs are polynomial remainders and bit-serial CRCs; the unrolled
      siphash is SipHash-1-2; word-parallel bit counting and searching agree with the bit string; a HyperLogLog depends only
      on the set of elements added or merged.
    - Round trips: decimal conversion, listpack elements, sds quoting, RESP commands through any
      segmentation of the stream, LZF, compressed quicklist nodes, string objects through the dump file, bit fields.
    - Protocols: dictScan returns every key that stays while the table is resized between calls, and
      terminates; the reply queue is a FIFO stream; a master's stream is forwarded exactly; backlog
      and replicas see one stream, and a replica that resynchronises continues it without loss or
      repetition.
    - Concurrency: the pool keeps mutual exclusion, order and accounting in every interleaving and
      makes progress until it is destroyed; the server tracks its connections in every reachable state.
    - Errors: [process_read] on a fresh connection never recognises a request; a refused request
      orphans its connection; the destructor of the pool does not wait for the workers, which go on
      to use what it destroyed; listpack sizes wrap at 2^32, and such an element is copied past the end; decompression is safe on damaged input,
      but loading a damaged compressed string can expose uninitialised memory; 64-bit signed bit
      fields shift by 64; merging with an empty second ziplist loses the tail;
      some ranges of a quicklist are deleted short of their end with the counters lowered by their
      whole length, inserting at an entry found from the tail of a full node loses elements, and with
      compression the tail can be left compressed, which the next push takes for a ziplist; a long string that poses as a sparse
      HyperLogLog makes PFCOUNT write outside its array.

    ** Bounds and fuel

    Loops that are not structural take fuel.  Each is called with a bound that the theorems show to
    be enough: the length of the text left (parsers, [input_loop]), the number of digits of a 64-bit
    number ([ll2string_loop], [count_digits], 20), the interval searched ([intsetSearch]), the
    number of empty buckets or of remaining cursors (Dict, DictScan), the length of the input
    (Lzf), the number of nodes in the heap (skip lists, quicklists), the length of the block (ziplists, whose
    entries take two bytes at least), the length of the string (HyperLogLogs).  [process_read_loop] has a fuel argument of its caller's
    choice, and its theorem holds for every positive one.  Sizes are limited where the code's integers are: the hypotheses on
    lengths (below 2^32 for intsets, listpacks, ziplists and LZF, below 2^63 for strings saved
    uncompressed, [sds_limit] for strings, [reply_limit] for
    the bytes of a reply queue) are those limits.

    ** Plan

    Next: the ziplist encoding of sorted sets, glob matching, then the commands of bitops.c and the
    object level of rdb.c.

    ** Not modelled

    Redis command implementations (argument parsing and replies around the structures), server cron, replication handshakes and cluster state machines,
    scripting, modules and the command line tools: they are large and mostly glue over the structures verified
    here.  Sorted sets in the ziplist encoding.  The floating-point estimator
    of [hllCount] is a parameter, and PFSELFTEST is left out.  Floating point replies, AddReplyFromClient and copyClientOutputBuffer of networking.c,
    the printf-like sds functions, dictionary iterators and random sampling.  Logging, memory
    statistics and the installation of event handlers are not part of any state.  Lesson programs
    that only demonstrate a system call have no logic to verify. *)

From Stdlib Require Export ZArith Lia Bool.
From stdpp Require Export base numbers list option.

#[global] Open Scope Z_scope.
#[global] Set Default Proof Using "Type".

(** * Machine integers

    A [w]-bit unsigned integer is a [Z] in [[0, 2^w)], a signed one a [Z] in
    [[-2^(w-1), 2^(w-1))]; [uwrap] and [swrap] are the conversions C performs on assignment. *)

Definition uwrap (w : Z) (z : Z) : Z := z mod 2 ^ w.
Definition swrap (w : Z) (z : Z) : Z := (z + 2 ^ (w - 1)) mod 2 ^ w - 2 ^ (w - 1).

Abbreviation u8 := (uwrap 8).
Abbreviation u16 := (uwrap 16).
Abbreviation u32 := (uwrap 32).
Abbreviation u64 := (uwrap 64).
Abbreviation s8 := (swrap 8).
Abbreviation s16 := (swrap 16).
Abbreviation s32 := (swrap 32).
Abbreviation s64 := (swrap 64).

Definition urange (w z : Z) : Prop := 0 <= z < 2 ^ w.
Definition srange (w z : Z) : Prop := - 2 ^ (w - 1) <= z < 2 ^ (w - 1).

Definition INT16_MIN : Z := - 2 ^ 15.
Definition INT16_MAX : Z := 2 ^ 15 - 1.
Definition INT32_MIN : Z := - 2 ^ 31.
Definition INT32_MAX : Z := 2 ^ 31 - 1.
Definition INT64_MIN : Z := - 2 ^ 63.
Definition INT64_MAX : Z := 2 ^ 63 - 1.
Definition UINT64_MAX : Z := 2 ^ 64 - 1.

Create HintDb cint.

Lemma uwrap_small w z : urange w z -> uwrap w z = z.
Proof. unfold urange, uwrap. intros. by apply Z.mod_small. Qed.

Lemma uwrap_range w z : 0 <= w -> urange w (uwrap w z).
Proof. intros. apply Z.mod_pos_bound. lia. Qed.

Lemma swrap_small w z : srange w z -> 0 < w -> swrap w z = z.
Proof.
  unfold srange, swrap. intros H Hw.
  assert (2 ^ w = 2 * 2 ^ (w - 1)) by (rewrite <- Z.pow_succ_r by lia; f_equal; lia).
  rewrite Z.mod_small by lia. lia.
Qed.

Lemma swrap_range w z : 0 < w -> srange w (swrap w z).
Proof.
  unfold srange, swrap. intros Hw.
  assert (2 ^ w = 2 * 2 ^ (w - 1)) by (rewrite <- Z.pow_succ_r by lia; f_equal; lia).
  assert (0 < 2 ^ (w - 1)) by lia.
  pose proof (Z.mod_pos_bound (z + 2 ^ (w - 1)) (2 ^ w)). lia.
Qed.

(** Converting to unsigned and back is the identity on the signed range. *)
Lemma swrap_uwrap w z : 0 < w -> swrap w (uwrap w z) = swrap w z.
Proof.
  intros. unfold swrap, uwrap. by rewrite Zplus_mod_idemp_l.
Qed.

#[export] Hint Resolve uwrap_small uwrap_range swrap_small swrap_range : cint.

(** * Boolean tests of the code as propositions *)

(** [zb] turns the boolean comparisons in the context and the goal into propositions on [Z]. *)
Ltac zb :=
  repeat match goal with
  | H : (_ && _)%bool = true |- _ => apply andb_true_iff in H; destruct H
  | H : (_ || _)%bool = false |- _ => apply orb_false_iff in H; destruct H
  | H : negb _ = true |- _ => apply negb_true_iff in H
  | H : negb _ = false |- _ => apply negb_false_iff in H
  | H : (_ <? _) = true |- _ => apply Z.ltb_lt in H
  | H : (_ <? _) = false |- _ => apply Z.ltb_ge in H
  | H : (_ <=? _) = true |- _ => apply Z.leb_le in H
  | H : (_ <=? _) = false |- _ => apply Z.leb_gt in H
  | H : (_ =? _) = true |- _ => apply Z.eqb_eq in H
  | H : (_ =? _) = false |- _ => apply Z.eqb_neq in H
  | H : (_ >? _) = _ |- _ => rewrite Z.gtb_ltb in H
  | H : (_ >=? _) = _ |- _ => rewrite Z.geb_leb in H
  end.

(** Case split on the comparisons of the goal, innermost scrutinee first. *)
Ltac zcase :=
  match goal with
  | |- context [?a <? ?b] => destruct (Z.ltb_spec a b)
  | |- context [?a <=? ?b] => destruct (Z.leb_spec a b)
  | |- context [?a =? ?b] => destruct (Z.eqb_spec a b)
  | |- context [?a >? ?b] => rewrite (Z.gtb_ltb a b)
  | |- context [?a >=? ?b] => rewrite (Z.geb_leb a b)
  end.

(** Decide one comparison that linear arithmetic settles. *)
Ltac zdec :=
  match goal with
  | |- context [?a <? ?b] =>
      first [ rewrite (proj2 (Z.ltb_lt a b)) by lia | rewrite (proj2 (Z.ltb_ge a b)) by lia ]
  | |- context [?a <=? ?b] =>
      first [ rewrite (proj2 (Z.leb_le a b)) by lia | rewrite (proj2 (Z.leb_gt a b)) by lia ]
  | |- context [?a =? ?b] =>
      first [ rewrite (proj2 (Z.eqb_eq a b)) by lia | rewrite (proj2 (Z.eqb_neq a b)) by lia ]
  | |- context [?a >? ?b] => rewrite (Z.gtb_ltb a b)
  | |- context [?a >=? ?b] => rewrite (Z.geb_leb a b)
  end.

(** Linear arithmetic with division and remainder by constants. *)
Ltac dlia := Z.div_mod_to_equations; lia.

(** * Byte buffers

    A buffer is a [list Z] of bytes.  Every access of the code is bounds checked here: a read or
    write outside the buffer is [None], so a theorem that concludes [Some _] also shows that the
    code stays inside its allocation. *)

Abbreviation byte := Z (only parsing).
Abbreviation bytes := (list Z).

Definition byte_ok (b : Z) : Prop := 0 <= b < 256.
Definition bytes_ok (bs : bytes) : Prop := Forall byte_ok bs.

Definition zlen {A} (l : list A) : Z := Z.of_nat (length l).

(** Element [i] of an array. *)
Definition zget {A} (l : list A) (i : Z) : option A :=
  if 0 <=? i then l !! Z.to_nat i else None.

(** [n] elements from offset [i] (the source operand of memcpy). *)
Definition zsub {A} (l : list A) (i n : Z) : option (list A) :=
  if (0 <=? i) && (0 <=? n) && (i + n <=? zlen l)
  then Some (take (Z.to_nat n) (drop (Z.to_nat i) l)) else None.

(** Store [src] at offset [i] (the destination operand of memcpy). *)
Definition zput {A} (l : list A) (i : Z) (src : list A) : option (list A) :=
  if (0 <=? i) && (i + zlen src <=? zlen l)
  then Some (take (Z.to_nat i) l ++ src ++ drop (Z.to_nat (i + zlen src)) l) else None.

(** [memmove(l+dst, l+src, n)]. *)
Definition zmove {A} (l : list A) (dst src n : Z) : option (list A) :=
  s ← zsub l src n; zput l dst s.

(** The content of fresh memory is indeterminate in C.  It is written here with a byte that no code
    stores by design, not with zeros, so that a terminator or a field the code forgets shows. *)
Definition junk : Z := 170.

(** [realloc(l, n)]: keeps the common prefix; no theorem depends on the value of the bytes gained. *)
Definition zresize (l : bytes) (n : Z) : bytes :=
  take (Z.to_nat n) l ++ replicate (Z.to_nat n - length l) junk.

Lemma zlen_app {A} (l k : list A) : zlen (l ++ k) = zlen l + zlen k.
Proof. unfold zlen. rewrite length_app. lia. Qed.

Lemma zlen_cons {A} (x : A) l : zlen (x :: l) = 1 + zlen l.
Proof. unfold zlen. simpl. lia. Qed.

Lemma zlen_nil {A} : zlen (@nil A) = 0.
Proof. done. Qed.

Lemma zlen_nonneg {A} (l : list A) : 0 <= zlen l.
Proof. unfold zlen. lia. Qed.

Lemma to_nat_zlen {A} (l : list A) : Z.to_nat (zlen l) = length l.
Proof. unfold zlen. lia. Qed.

Lemma zlen_replicate {A} n (x : A) : zlen (replicate n x) = Z.of_nat n.
Proof. unfold zlen. by rewrite length_replicate. Qed.

Lemma zlen_0_nil {A} (l : list A) : zlen l = 0 -> l = [].
Proof. destruct l; [done|]. rewrite zlen_cons. pose proof (zlen_nonneg l). lia. Qed.

Lemma zlen_1_inv {A} (l : list A) : zlen l = 1 -> exists x, l = [x].
Proof.
  destruct l as [|x [|y l]]; rewrite ?zlen_cons, ?zlen_nil; try lia; [by exists x|].
  pose proof (zlen_nonneg l). lia.
Qed.

(** Split off the last element. *)
Lemma zlen_snoc_inv {A} (l : list A) : 0 < zlen l -> exists k x, l = k ++ [x] /\ zlen k = zlen l - 1.
Proof.
  destruct l as [|a l] using rev_ind; [unfold zlen; simpl; lia|]. intros _. exists l, a.
  split; [done|]. rewrite zlen_app, zlen_cons, zlen_nil. lia.
Qed.

Create Rewrite HintDb zlen.
#[export] Hint Rewrite @zlen_app @zlen_cons @zlen_nil @zlen_replicate : zlen.

(** Linear arithmetic over lengths of concatenations. *)
Ltac zlia :=
  autorewrite with zlen in *;
  repeat match goal with
  | |- context [zlen ?l] =>
      lazymatch goal with
      | _ : 0 <= zlen l |- _ => fail
      | _ => pose proof (zlen_nonneg l)
      end
  | _ : context [zlen ?l] |- _ =>
      lazymatch goal with
      | _ : 0 <= zlen l |- _ => fail
      | _ => pose proof (zlen_nonneg l)
      end
  end; lia.

(** The three buffer operations on a buffer given as a concatenation. *)
Lemma zget_app {A} (pre : list A) x post i : i = zlen pre -> zget (pre ++ x :: post) i = Some x.
Proof.
  intros ->. unfold zget. pose proof (zlen_nonneg pre). zdec.
  rewrite to_nat_zlen. by rewrite list_lookup_middle.
Qed.

Lemma zget_Some {A} (l : list A) i x : zget l i = Some x <-> 0 <= i /\ l !! Z.to_nat i = Some x.
Proof. unfold zget. destruct (Z.leb_spec 0 i); naive_solver lia. Qed.

Lemma zget_in_range {A} (l : list A) i : 0 <= i < zlen l -> is_Some (zget l i).
Proof.
  intros H. unfold zget. zdec. apply lookup_lt_is_Some. unfold zlen in H. lia.
Qed.

Lemma zget_range {A} (l : list A) i x : zget l i = Some x -> 0 <= i < zlen l.
Proof.
  rewrite zget_Some. intros [? H]. apply lookup_lt_Some in H. unfold zlen. lia.
Qed.

Lemma zget_None {A} (l : list A) i : zlen l <= i -> zget l i = None.
Proof.
  intros. destruct (zget l i) eqn:E; [|done]. apply zget_range in E. lia.
Qed.

Lemma zget_app_l {A} (l k : list A) i : i < zlen l -> zget (l ++ k) i = zget l i.
Proof.
  intros. unfold zget. destruct (Z.leb_spec 0 i); [|done].
  rewrite lookup_app_l; [done|]. unfold zlen in *. lia.
Qed.

Lemma zget_app_r {A} (l k : list A) i : zlen l <= i -> zget (l ++ k) i = zget k (i - zlen l).
Proof.
  intros. pose proof (zlen_nonneg l). unfold zget. repeat zdec.
  rewrite lookup_app_r by (unfold zlen in *; lia). f_equal. unfold zlen. lia.
Qed.

Lemma zget_cons {A} (x : A) l i : zget (x :: l) i = if i =? 0 then Some x else zget l (i - 1).
Proof.
  destruct (Z.eqb_spec i 0) as [->|]; [done|]. unfold zget.
  destruct (Z.leb_spec 0 i); [|by zdec]. zdec.
  replace (Z.to_nat i) with (S (Z.to_nat (i - 1))) by lia. done.
Qed.

Lemma zsub_app {A} (pre mid post : list A) i n :
  i = zlen pre -> n = zlen mid -> zsub (pre ++ mid ++ post) i n = Some mid.
Proof.
  intros -> ->. unfold zsub.
  pose proof (zlen_nonneg pre). pose proof (zlen_nonneg mid). pose proof (zlen_nonneg post).
  rewrite !zlen_app. repeat zdec. simpl.
  by rewrite !to_nat_zlen, drop_app_length, take_app_length.
Qed.

Lemma zput_app {A} (pre mid post src : list A) i :
  i = zlen pre -> zlen src = zlen mid -> zput (pre ++ mid ++ post) i src = Some (pre ++ src ++ post).
Proof.
  intros -> E. unfold zput.
  pose proof (zlen_nonneg pre). pose proof (zlen_nonneg mid). pose proof (zlen_nonneg post).
  rewrite !zlen_app, E. repeat zdec. simpl.
  rewrite to_nat_zlen, take_app_length. do 3 f_equal.
  rewrite app_assoc. replace (Z.to_nat (zlen pre + zlen mid)) with (length (pre ++ mid)).
  - by rewrite drop_app_length.
  - unfold zlen. rewrite length_app. lia.
Qed.

(** The same at the start of a buffer. *)
Lemma zsub_app0 {A} (mid post : list A) n : n = zlen mid -> zsub (mid ++ post) 0 n = Some mid.
Proof. intros. by apply (zsub_app []). Qed.

Lemma zput_app0 {A} (mid post src : list A) :
  zlen src = zlen mid -> zput (mid ++ post) 0 src = Some (src ++ post).
Proof. intros. by apply (zput_app []). Qed.

Lemma zput_len {A} (l src l' : list A) i : zput l i src = Some l' -> zlen l' = zlen l.
Proof.
  unfold zput. intros H. case_match; [|done]. simplify_eq. zb.
  unfold zlen in *. rewrite !length_app, length_take, length_drop. lia.
Qed.

Lemma zsub_len {A} (l s : list A) i n : zsub l i n = Some s -> zlen s = n.
Proof.
  unfold zsub. intros H. case_match; [|done]. simplify_eq. zb.
  unfold zlen in *. rewrite length_take, length_drop. lia.
Qed.

Lemma zsub_in_range {A} (l : list A) i n : 0 <= i -> 0 <= n -> i + n <= zlen l ->
  zsub l i n = Some (take (Z.to_nat n) (drop (Z.to_nat i) l)).
Proof. intros. unfold zsub. rewrite !(proj2 (Z.leb_le _ _)) by lia. done. Qed.

Lemma zresize_grow l n : zlen l <= n -> exists pad, zresize l n = l ++ pad /\ zlen pad = n - zlen l.
Proof.
  intros H. unfold zresize. eexists. split.
  - rewrite take_ge; [done|]. unfold zlen in H. lia.
  - rewrite zlen_replicate. unfold zlen in *. lia.
Qed.

Lemma zresize_shrink l k n : n = zlen l -> zresize (l ++ k) n = l.
Proof.
  intros ->. unfold zresize. rewrite to_nat_zlen, take_app_length.
  rewrite length_app. replace (length l - (length l + length k))%nat with 0%nat by lia.
  by rewrite app_nil_r.
Qed.

Lemma zsplit3 {A} (l : list A) i n :
  0 <= i -> 0 <= n -> i + n <= zlen l ->
  exists pre mid post, l = pre ++ mid ++ post /\ zlen pre = i /\ zlen mid = n.
Proof.
  intros. exists (take (Z.to_nat i) l), (take (Z.to_nat n) (drop (Z.to_nat i) l)),
    (drop (Z.to_nat n) (drop (Z.to_nat i) l)).
  rewrite !take_drop. split; [done|].
  unfold zlen in *. rewrite !length_take, !length_drop. lia.
Qed.

(** * Little-endian integers *)

Fixpoint le_bytes (n : nat) (z : Z) : bytes :=
  match n with
  | O => []
  | S n => z mod 256 :: le_bytes n (z / 256)
  end.

Fixpoint le_value (bs : bytes) : Z :=
  match bs with
  | [] => 0
  | b :: bs => b + 256 * le_value bs
  end.

Lemma zlen_le_bytes n z : zlen (le_bytes n z) = Z.of_nat n.
Proof. revert z. induction n; intros; simpl le_bytes; zlia || (rewrite zlen_cons, IHn; lia). Qed.

#[export] Hint Rewrite zlen_le_bytes : zlen.

Lemma le_bytes_ok n z : bytes_ok (le_bytes n z).
Proof.
  revert z. induction n; intros z; simpl; constructor; [|done..|apply IHn].
  apply Z.mod_pos_bound. lia.
Qed.

Lemma le_value_bytes n z : le_value (le_bytes n z) = z mod 2 ^ (8 * Z.of_nat n).
Proof.
  revert z. induction n as [|n IH]; intros z; simpl le_bytes; simpl le_value.
  - by rewrite Z.mod_1_r.
  - rewrite IH. replace (8 * Z.of_nat (S n)) with (8 + 8 * Z.of_nat n) by lia.
    rewrite Z.pow_add_r by lia. change (2 ^ 8) with 256.
    rewrite Z.rem_mul_r by lia. lia.
Qed.

Lemma le_value_range bs : bytes_ok bs -> 0 <= le_value bs < 2 ^ (8 * zlen bs).
Proof.
  induction 1 as [|b bs [Hb Hb'] ? IH]; [vm_compute; split; congruence|].
  rewrite zlen_cons. simpl le_value. pose proof (zlen_nonneg bs).
  replace (8 * (1 + zlen bs)) with (8 + 8 * zlen bs) by lia.
  rewrite Z.pow_add_r by lia. change (2 ^ 8) with 256. lia.
Qed.

Lemma le_bytes_value bs n : bytes_ok bs -> length bs = n -> le_bytes n (le_value bs) = bs.
Proof.
  intros Hok <-. induction Hok as [|b bs Hb ? IH]; [done|].
  simpl. unfold byte_ok in Hb. f_equal.
  - rewrite Z.mul_comm, Z.mod_add by lia. apply Z.mod_small. lia.
  - replace ((b + 256 * le_value bs) / 256) with (le_value bs); [done|].
    rewrite Z.mul_comm, Z.div_add by lia. rewrite Z.div_small; lia.
Qed.

Lemma le_bytes_mod n z m : (8 * Z.of_nat n <= m) -> le_bytes n (z mod 2 ^ m) = le_bytes n z.
Proof.
  revert z m. induction n as [|n IH]; intros z m Hm; [done|]. simpl.
  assert (E : 2 ^ m = 256 * 2 ^ (m - 8)).
  { change 256 with (2 ^ 8). rewrite <- Z.pow_add_r by lia. f_equal. lia. }
  f_equal.
  - rewrite E, Z.rem_mul_r by lia. rewrite Z.mul_comm, Z.mod_add by lia. apply Z.mod_mod. lia.
  - rewrite <- (IH (z / 256) (m - 8)) by lia. f_equal.
    rewrite E, Z.rem_mul_r by lia.
    rewrite Z.mul_comm, Z.div_add by lia. rewrite Z.div_small; [lia|].
    apply Z.mod_pos_bound. lia.
Qed.

Lemma le_value_app a b : le_value (a ++ b) = le_value a + 2 ^ (8 * zlen a) * le_value b.
Proof.
  induction a as [|x a IH]; [change (2 ^ (8 * zlen [])) with 1; cbn [app le_value]; lia|].
  cbn [app le_value]. pose proof (zlen_nonneg a).
  rewrite IH, zlen_cons. replace (8 * (1 + zlen a)) with (8 + 8 * zlen a) by lia.
  rewrite Z.pow_add_r by lia. lia.
Qed.

(** * Bits and bytes *)

(** A byte placed above the bits of [x]. *)
Lemma lor_above x b m : 0 <= m -> 0 <= x < 2 ^ m -> Z.lor x (Z.shiftl b m) = x + b * 2 ^ m.
Proof.
  intros Hm Hx. rewrite <- Z.shiftl_mul_pow2 by lia. symmetry. apply Z.add_nocarry_lor.
  apply Z.bits_inj'. intros n Hn. rewrite Z.land_spec, Z.bits_0.
  destruct (Z.lt_ge_cases n m).
  - rewrite Z.shiftl_spec_low by lia. apply andb_false_r.
  - rewrite <- (Z.mod_small x (2 ^ m)) by done. by rewrite Z.mod_pow2_bits_high by lia.
Qed.

(** A boolean test of all 256 bytes holds of each of them. *)
Lemma byte_forall (P : Z -> bool) :
  forallb P (map Z.of_nat (seq 0 256)) = true -> forall b, byte_ok b -> P b = true.
Proof.
  intros H b [Hb Hb']. rewrite forallb_forall in H. apply H, in_map_iff.
  exists (Z.to_nat b). split; [lia|]. apply in_seq. lia.
Qed.

(** The same for a range of bytes. *)
Lemma byte_range_forall lo hi (P : Z -> bool) :
  forallb (fun b => negb ((lo <=? b) && (b <=? hi)) || P b) (map Z.of_nat (seq 0 256)) = true ->
  0 <= lo -> hi <= 255 -> forall b, lo <= b <= hi -> P b = true.
Proof.
  intros H Hlo Hhi b Hb. pose proof (byte_forall _ H b) as E. cbv beta in E.
  rewrite (proj2 (Z.leb_le lo b)), (proj2 (Z.leb_le b hi)) in E by lia.
  apply E. unfold byte_ok. lia.
Qed.

(** * Monadic notation for fallible code is stdpp's [x ← m; k] on [option]. *)

Lemma bind_Some_inv {A B} (m : option A) (k : A -> option B) b :
  (m ≫= k) = Some b -> exists a, m = Some a /\ k a = Some b.
Proof. destruct m; naive_solver. Qed.

(** Simplify a chain of binds whose heads are known. *)
Ltac obind := repeat (match goal with
  | H : ?m = Some _ |- context [?m ≫= _] => rewrite H
  end; cbn [mbind option_bind]).
