(* ===== verification/Util.v ===== *)
(** Integer/string conversions of [redis-5.0.10/src/util.c]: [digits10], [sdigits10], [ll2string],
    [string2ll] and [string2l].  A C string argument is the list of its bytes ([slen] is the
    length of the list); a destination buffer is a byte list written through bounds-checked
    stores. *)

From Stdlib Require Import Ascii String.
From S2P Require Import Prelude.

#[local] Open Scope Z_scope.
#[local] Open Scope list_scope.

(** ** Characters *)

(** Bytes of a string literal. *)
Fixpoint str (s : string) : bytes :=
  match s with
  | EmptyString => []
  | String c s => Z.of_nat (nat_of_ascii c) :: str s
  end.

Definition ch_0 : Z := 48.
Definition ch_1 : Z := 49.
Definition ch_9 : Z := 57.
Definition ch_minus : Z := 45.

Definition isdigit (c : Z) : bool := (48 <=? c) && (c <=? 57).
Definition tolower (c : Z) : Z := if (65 <=? c) && (c <=? 90) then c + 32 else c.
Definition toupper (c : Z) : Z := if (97 <=? c) && (c <=? 122) then c - 32 else c.

(** ** The C code *)

(** [digits10] calls itself on [v / 10^12]; two levels are enough for 64 bits. *)
Fixpoint digits10_rec (fuel : nat) (v : Z) : Z :=
  if v <? 10 then 1
  else if v <? 100 then 2
  else if v <? 1000 then 3
  else if v <? 1000000000000 then
    if v <? 100000000 then
      if v <? 1000000 then
        if v <? 10000 then 4
        else 5 + Z.b2z (v >=? 100000)
      else 7 + Z.b2z (v >=? 10000000)
    else if v <? 10000000000 then 9 + Z.b2z (v >=? 1000000000)
    else 11 + Z.b2z (v >=? 100000000000)
  else
    match fuel with
    | O => 0
    | S fuel => u32 (12 + digits10_rec fuel (v / 1000000000000))
    end.

Definition digits10 (v : Z) : Z := digits10_rec 1 v.

Definition sdigits10 (v : Z) : Z :=
  if v <? 0 then
    let uv := if negb (v =? INT64_MIN) then u64 (- v) else u64 (INT64_MAX + 1) in
    u32 (digits10 uv + 1)
  else digits10 v.

(** The two-digit table of [ll2string]. *)
Definition digits_table : bytes :=
  str "0001020304050607080910111213141516171819" ++
  str "2021222324252627282930313233343536373839" ++
  str "4041424344454647484950515253545556575859" ++
  str "6061626364656667686970717273747576777879" ++
  str "8081828384858687888990919293949596979899".

(** [dst[next] = digits[i + 1]; dst[next - 1] = digits[i]]. *)
Definition put_digits (dst : bytes) (next i : Z) : option bytes :=
  d1 ← zget digits_table (i + 1);
  dst ← zput dst next [d1];
  d0 ← zget digits_table i;
  zput dst (next - 1) [d0].

(** The [while (value >= 100)] loop: the buffer, the remaining value and the write index. *)
Fixpoint ll2string_loop (fuel : nat) (dst : bytes) (value next : Z) : option (bytes * Z * Z) :=
  match fuel with
  | O => None
  | S fuel =>
      if value >=? 100 then
        let i := (value mod 100) * 2 in
        let value := value / 100 in
        dst ← put_digits dst next i;
        ll2string_loop fuel dst value (u32 (next - 2))
      else Some (dst, value, next)
  end.

(** Returns the buffer and the C result. *)
Definition ll2string (dst : bytes) (dstlen svalue : Z) : option (bytes * Z) :=
  let '(value, negative) :=
    if svalue <? 0 then
      (if negb (svalue =? INT64_MIN) then u64 (- svalue) else u64 (INT64_MAX + 1), 1)
    else (svalue, 0) in
  let length := u32 (digits10 value + negative) in
  if length >=? dstlen then Some (dst, 0)
  else
    let next := length in
    dst ← zput dst next [0];
    let next := u32 (next - 1) in
    r ← ll2string_loop 20 dst value next;
    let '(dst, value, next) := r in
    dst ← (if value <? 10 then zput dst next [u8 (48 + u32 value)]
           else put_digits dst next (u32 value * 2));
    dst ← (if negb (negative =? 0) then zput dst 0 [ch_minus] else Some dst);
    Some (dst, length).

(** The loop over the digits after the first one: the value and the unread rest, or the return
    on overflow. *)
Fixpoint string2ll_digits (p : bytes) (v : Z) : option (Z * bytes) :=
  match p with
  | c :: p' =>
      if (ch_0 <=? c) && (c <=? ch_9) then
        if v >? UINT64_MAX / 10 then None
        else
          let v := u64 (v * 10) in
          if v >? UINT64_MAX - (c - ch_0) then None
          else string2ll_digits p' (u64 (v + (c - ch_0)))
      else Some (v, p)
  | [] => Some (v, [])
  end.

(** [None] is the C result 0, [Some v] is 1 with [*value = v]. *)
Definition string2ll (s : bytes) : option Z :=
  match s with
  | [] => None
  | c :: rest =>
      if (match rest with [] => true | _ => false end) && (c =? ch_0) then Some 0
      else
        let '(negative, p) := if c =? ch_minus then (true, rest) else (false, s) in
        match p with
        | [] => None
        | d :: p =>
            if (ch_1 <=? d) && (d <=? ch_9) then
              r ← string2ll_digits p (d - ch_0);
              let '(v, p) := r in
              match p with
              | _ :: _ => None
              | [] =>
                  if negative : bool then
                    if v >? u64 (- (INT64_MIN + 1)) + 1 then None else Some (s64 (u64 (- v)))
                  else if v >? INT64_MAX then None else Some v
              end
            else None
        end
  end.

(** [LONG_MIN], [LONG_MAX] of a 64-bit [long]. *)
Definition string2l (s : bytes) : option Z :=
  v ← string2ll s;
  if (v <? INT64_MIN) || (v >? INT64_MAX) then None else Some v.

(** ** Specification: the decimal representation *)

Fixpoint udec (fuel : nat) (v : Z) : bytes :=
  if v <? 10 then [48 + v]
  else match fuel with
       | O => []
       | S fuel => udec fuel (v / 10) ++ [48 + v mod 10]
       end.

(** Decimal digits of a non-negative number below 10^21. *)
Abbreviation dec := (udec 20).

Definition decimal (v : Z) : bytes := if v <? 0 then ch_minus :: dec (- v) else dec v.

Lemma udec_S f v : udec (S f) v = if v <? 10 then [48 + v] else udec f (v / 10) ++ [48 + v mod 10].
Proof. reflexivity. Qed.

Lemma udec_O v : udec 0 v = if v <? 10 then [48 + v] else [].
Proof. reflexivity. Qed.

#[global] Arguments udec : simpl never.

Lemma udec_fuel f g v : 0 <= v < 10 ^ Z.of_nat (S f) -> v < 10 ^ Z.of_nat (S g) -> udec f v = udec g v.
Proof.
  revert g v. induction f as [|f IH]; intros [|g] v Hf Hg; rewrite ?udec_S, ?udec_O;
    destruct (Z.ltb_spec v 10); try done.
  - change (10 ^ Z.of_nat 1) with 10 in Hf. lia.
  - change (10 ^ Z.of_nat 1) with 10 in Hg. lia.
  - f_equal. assert (E : forall n, 10 ^ Z.of_nat (S (S n)) = 10 * 10 ^ Z.of_nat (S n))
      by (intros n; rewrite Nat2Z.inj_succ, Z.pow_succ_r by lia; done).
    rewrite E in Hf, Hg.
    apply IH; [split; [apply Z.div_pos; lia|]|]; apply Z.div_lt_upper_bound; lia.
Qed.

Lemma pow10_20 : 2 ^ 64 < 10 ^ Z.of_nat 20.
Proof. vm_compute. reflexivity. Qed.

Lemma dec_small v : v < 10 -> dec v = [48 + v].
Proof. intros. rewrite udec_S. by zdec. Qed.

Lemma dec_step v : 10 <= v < 10 ^ 21 -> dec v = dec (v / 10) ++ [48 + v mod 10].
Proof.
  intros H. rewrite udec_S. zdec.
  assert (v / 10 < 10 ^ 20) by (apply Z.div_lt_upper_bound; [lia|]; change (10 * 10 ^ 20) with (10 ^ 21); lia).
  assert (0 <= v / 10) by (apply Z.div_pos; lia).
  rewrite (udec_fuel 19 20); [reflexivity| |change (Z.of_nat 21) with 21; lia].
  change (Z.of_nat 20) with 20. lia.
Qed.

Lemma dec_step2 v : 100 <= v < 10 ^ 21 ->
  dec v = dec (v / 100) ++ [48 + (v mod 100) / 10; 48 + (v mod 100) mod 10].
Proof.
  intros H. rewrite dec_step by lia. rewrite (dec_step (v / 10)).
  - rewrite <- app_assoc. simpl. rewrite Z.div_div by lia.
    replace ((v / 10) mod 10) with ((v mod 100) / 10) by dlia.
    by replace ((v mod 100) mod 10) with (v mod 10) by dlia.
  - split; [dlia|]. apply Z.div_lt_upper_bound; lia.
Qed.

Lemma zlen_dec d v : 0 < d -> 10 ^ (d - 1) <= v < 10 ^ d -> d <= 21 -> zlen (dec v) = d.
Proof.
  intros Hd. replace d with (Z.of_nat (S (Z.to_nat (d - 1)))) by lia.
  generalize (Z.to_nat (d - 1)). clear d Hd. intros n. revert v.
  induction n as [|n IH]; intros v Hv Hn.
  - change (10 ^ (Z.of_nat 1 - 1)) with 1 in Hv. change (10 ^ Z.of_nat 1) with 10 in Hv.
    by rewrite dec_small by lia.
  - replace (Z.of_nat (S (S n)) - 1) with (Z.of_nat (S n)) in Hv by lia.
    rewrite (Nat2Z.inj_succ (S n)), Z.pow_succ_r in Hv by lia.
    assert (E : 10 ^ Z.of_nat (S n) = 10 * 10 ^ (Z.of_nat (S n) - 1))
      by (rewrite <- Z.pow_succ_r by lia; f_equal; lia).
    assert (0 < 10 ^ (Z.of_nat (S n) - 1)) by (apply Z.pow_pos_nonneg; lia).
    rewrite dec_step, zlen_app, IH; [zlia| | |].
    + split; [apply Z.div_le_lower_bound; lia|apply Z.div_lt_upper_bound; lia].
    + lia.
    + split; [lia|]. eapply Z.lt_le_trans; [apply Hv|].
      rewrite <- Z.pow_succ_r by lia. apply Z.pow_le_mono_r; lia.
Qed.

(** [digits10] is the number of decimal digits, for every 64-bit value. *)
Lemma digits10_bounds v : 0 <= v < 2 ^ 64 ->
  1 <= digits10 v <= 20 /\ (v < 10 /\ digits10 v = 1 \/ 10 ^ (digits10 v - 1) <= v < 10 ^ digits10 v).
Proof.
  intros Hv. unfold digits10.
  assert (Hsmall : forall f w, 0 <= w < 1000000000000 ->
    1 <= digits10_rec f w <= 12 /\
    (w < 10 /\ digits10_rec f w = 1 \/ 10 ^ (digits10_rec f w - 1) <= w < 10 ^ digits10_rec f w)).
  { intros f w Hw. destruct f; cbn [digits10_rec]; repeat zcase;
      cbn [Z.b2z]; try lia; simpl; lia. }
  destruct (Z.ltb_spec v 1000000000000) as [|Hbig].
  { destruct (Hsmall 1%nat v) as [? ?]; [lia|]. split; [lia|done]. }
  cbn [digits10_rec]. do 4 zdec.
  assert (0 < v / 1000000000000 < 1000000000000).
  { split; [apply Z.div_str_pos; lia|apply Z.div_lt_upper_bound; lia]. }
  destruct (Hsmall 0%nat (v / 1000000000000)) as [Hd Hb]; [lia|].
  set (w := v / 1000000000000) in *.
  change (if w <? 10 then 1 else _) with (digits10_rec 0 w). set (d := digits10_rec 0 w) in *.
  rewrite uwrap_small by (unfold urange; lia).
  assert (Hw : w < 18446745) by (apply Z.div_lt_upper_bound; lia).
  assert (Hd8 : d <= 8).
  { destruct Hb as [[_ ->]|[Hb _]]; [lia|]. destruct (Z.le_gt_cases d 8); [done|].
    assert (10 ^ 8 <= 10 ^ (d - 1)) by (apply Z.pow_le_mono_r; lia). lia. }
  split; [lia|]. right.
  assert (Hw' : 10 ^ (d - 1) <= w < 10 ^ d).
  { destruct Hb as [[Hs ->]|Hb]; [|done]. change (10 ^ (1 - 1)) with 1. change (10 ^ 1) with 10. lia. }
  replace (12 + d - 1) with (12 + (d - 1)) by lia. rewrite !Z.pow_add_r by lia.
  change (10 ^ 12) with 1000000000000. unfold w in *.
  pose proof (Z.div_mod v 1000000000000). pose proof (Z.mod_pos_bound v 1000000000000). lia.
Qed.

Lemma digits10_dec v : 0 <= v < 2 ^ 64 -> digits10 v = zlen (dec v).
Proof.
  intros Hv. destruct (digits10_bounds v Hv) as [Hr [[Hs ->]|Hb]].
  - by rewrite dec_small by lia.
  - symmetry. apply zlen_dec; lia.
Qed.

Lemma dec_le20 v : 0 <= v < 2 ^ 64 -> zlen (dec v) <= 20.
Proof. intros Hv. rewrite <- digits10_dec by done. destruct (digits10_bounds _ Hv) as [? _]. lia. Qed.

Lemma decimal_le20 v : srange 64 v -> zlen (decimal v) <= 20.
Proof.
  unfold srange, decimal. change (2 ^ (64 - 1)) with (2 ^ 63). intros Hv.
  destruct (Z.ltb_spec v 0); [|apply dec_le20; lia].
  assert (Hr : 0 <= - v < 2 ^ 64) by lia. rewrite zlen_cons, <- digits10_dec by done.
  destruct (digits10_bounds _ Hr) as [Hd [[_ ->]|Hb]]; [lia|].
  assert (digits10 (- v) <> 20); [|lia]. intros E. rewrite E in Hb.
  change (10 ^ (20 - 1)) with 10000000000000000000 in Hb. lia.
Qed.

(** ** [ll2string] writes the decimal representation *)

Lemma digits_table_ok k : 0 <= k < 100 ->
  zget digits_table (k * 2) = Some (48 + k / 10) /\ zget digits_table (k * 2 + 1) = Some (48 + k mod 10).
Proof.
  intros Hk.
  assert (Hall : forallb (fun n : nat => let k := Z.of_nat n in
    bool_decide (zget digits_table (k * 2) = Some (48 + k / 10)) &&
    bool_decide (zget digits_table (k * 2 + 1) = Some (48 + k mod 10))) (seq 0 100) = true)
    by (vm_compute; reflexivity).
  rewrite forallb_forall in Hall. specialize (Hall (Z.to_nat k)).
  cbv zeta in Hall. rewrite Z2Nat.id in Hall by lia.
  apply andb_true_iff in Hall as [H1 H2]; [|apply in_seq; lia].
  by apply bool_decide_eq_true in H1, H2.
Qed.

Lemma dec_nonempty v : 0 <= v < 2 ^ 64 -> 0 < zlen (dec v).
Proof. intros Hv. rewrite <- digits10_dec by done. destruct (digits10_bounds v Hv) as [? _]. lia. Qed.

(** Store one byte inside a buffer split at that byte. *)
Lemma zput1 (pre : bytes) x y post i : i = zlen pre ->
  zput (pre ++ x :: post) i [y] = Some (pre ++ y :: post).
Proof. intros ->. by apply (zput_app pre [x] post [y]). Qed.


Lemma put_digits_spec pre a b post k next :
  0 <= k < 100 -> next = zlen pre + 1 ->
  put_digits (pre ++ a :: b :: post) next (k * 2)
  = Some (pre ++ (48 + k / 10) :: (48 + k mod 10) :: post).
Proof.
  intros Hk ->. unfold put_digits. destruct (digits_table_ok k Hk) as [E0 E1]. rewrite E1, E0.
  cbn [mbind option_bind].
  replace (pre ++ a :: b :: post) with ((pre ++ [a]) ++ b :: post) by (by rewrite <- app_assoc).
  rewrite zput1 by zlia. cbn [mbind option_bind]. rewrite <- app_assoc. simpl.
  apply zput1. lia.
Qed.

Lemma ll2string_loop_S fuel dst value next : ll2string_loop (S fuel) dst value next =
  if value >=? 100 then
    dst ← put_digits dst next (value mod 100 * 2); ll2string_loop fuel dst (value / 100) (u32 (next - 2))
  else Some (dst, value, next).
Proof. reflexivity. Qed.

(** The loop fills the hole of the buffer from its end with the trailing digit pairs. *)
Lemma ll2string_loop_spec pre : forall fuel hole post value next,
  0 <= value < 10 ^ (2 * Z.of_nat fuel + 2) -> value < 2 ^ 64 -> zlen hole = zlen (dec value) ->
  next = zlen pre + zlen hole - 1 -> zlen pre <= 2 ->
  exists hole' v' tail, ll2string_loop (S fuel) (pre ++ hole ++ post) value next
    = Some (pre ++ hole' ++ tail ++ post, v', zlen pre + zlen hole' - 1) /\
    0 <= v' < 100 /\ zlen hole' = zlen (dec v') /\ dec value = dec v' ++ tail.
Proof.
  induction fuel as [|fuel IH]; intros hole post value next Hv H64 Hh -> Hp;
    rewrite ll2string_loop_S, Z.geb_leb; destruct (Z.leb_spec 100 value) as [Hbig|Hsmall];
    try (exists hole, value, []; rewrite (app_nil_r (dec value)); repeat split; done || lia).
  rewrite (dec_step2 value) in * by lia. rewrite zlen_app, !zlen_cons, zlen_nil in Hh.
  assert (Hd : 0 <= value / 100 < 2 ^ 64) by (split; [apply Z.div_pos|apply Z.div_lt_upper_bound]; lia).
  pose proof (dec_nonempty _ Hd). pose proof (zlen_nonneg pre).
  assert (Hd20 : zlen (dec (value / 100)) <= 20)
    by (rewrite <- digits10_dec by done; destruct (digits10_bounds _ Hd) as [? _]; lia).
  destruct (zlen_snoc_inv hole) as (h1 & b & -> & E1); [lia|].
  destruct (zlen_snoc_inv h1) as (h2 & a & -> & E2); [lia|].
  rewrite !zlen_app, !zlen_cons, zlen_nil in *.
  replace (pre ++ ((h2 ++ [a]) ++ [b]) ++ post) with ((pre ++ h2) ++ a :: b :: post)
    by (by rewrite <- !app_assoc).
  assert (Hk : 0 <= value mod 100 < 100) by (apply Z.mod_pos_bound; lia).
  rewrite put_digits_spec by (done || (rewrite zlen_app; lia)). cbn [mbind option_bind].
  rewrite <- app_assoc.
  rewrite uwrap_small by (unfold urange; lia).
  destruct (IH h2 (48 + value mod 100 / 10 :: 48 + (value mod 100) mod 10 :: post) (value / 100)
    (zlen pre + (zlen h2 + (1 + 0) + (1 + 0)) - 1 - 2)) as (hole' & v' & tail & -> & Hv' & Hz & Hdec); try lia.
  { split; [lia|]. apply Z.div_lt_upper_bound; [lia|]. eapply Z.lt_le_trans; [apply Hv|].
    replace (2 * Z.of_nat (S fuel) + 2) with (2 + (2 * Z.of_nat fuel + 2)) by lia.
    rewrite (Z.pow_add_r _ 2) by lia. done. }
  exists hole', v', (tail ++ [48 + value mod 100 / 10; 48 + (value mod 100) mod 10]).
  rewrite Hdec, <- !app_assoc. done.
Qed.

(** The last one or two digits. *)
Lemma ll2string_last pre hole post v :
  0 <= v < 100 -> zlen hole = zlen (dec v) -> 
  (if v <? 10 then zput (pre ++ hole ++ post) (zlen pre + zlen hole - 1) [u8 (48 + u32 v)]
   else put_digits (pre ++ hole ++ post) (zlen pre + zlen hole - 1) (u32 v * 2))
  = Some (pre ++ dec v ++ post).
Proof.
  intros Hv Hh. rewrite (uwrap_small 32 v) by (unfold urange; lia).
  destruct (Z.ltb_spec v 10) as [Hs|Hb].
  - rewrite dec_small in * by lia. apply (zlen_1_inv hole) in Hh as (x & ->).
    rewrite uwrap_small by (unfold urange; lia). simpl. apply zput1. rewrite zlen_cons, zlen_nil. lia.
  - rewrite dec_step in * by lia. rewrite dec_small in * by dlia.
    rewrite zlen_app, !zlen_cons, zlen_nil in Hh.
    destruct hole as [|x [|y [|z hole]]]; rewrite ?zlen_cons, ?zlen_nil in Hh; try lia;
      [|pose proof (zlen_nonneg hole); lia].
    simpl. rewrite put_digits_spec; [done|lia|]. rewrite !zlen_cons, zlen_nil. lia.
Qed.

(** Magnitude and sign computed at the start of [ll2string]. *)
Lemma ll2string_magnitude v : srange 64 v -> v < 0 ->
  (if negb (v =? INT64_MIN) then u64 (- v) else u64 (INT64_MAX + 1)) = - v /\ 0 <= - v < 2 ^ 64.
Proof.
  unfold srange, INT64_MIN, INT64_MAX. change (2 ^ (64 - 1)) with (2 ^ 63). intros H Hn.
  destruct (Z.eqb_spec v (- 2 ^ 63)) as [->|]; (split; [|lia]).
  - by vm_compute.
  - simpl. apply uwrap_small. unfold urange. lia.
Qed.

Lemma ll2string_spec dst dstlen v : srange 64 v -> dstlen <= zlen dst ->
  if zlen (decimal v) <? dstlen
  then (exists rest, ll2string dst dstlen v = Some (decimal v ++ 0 :: rest, zlen (decimal v)) /\
         zlen (decimal v ++ 0 :: rest) = zlen dst)
  else ll2string dst dstlen v = Some (dst, 0).
Proof.
  intros Hv Hd.
  (* magnitude, sign and the sign's bytes *)
  assert (exists value (sgn : bytes), 0 <= value < 2 ^ 64 /\ decimal v = sgn ++ dec value /\
    (sgn = [] \/ sgn = [ch_minus]) /\
    (if v <? 0 then (if negb (v =? INT64_MIN) then u64 (- v) else u64 (INT64_MAX + 1), 1) else (v, 0))
    = (value, zlen sgn)) as (value & sgn & Hval & Hdec & Hsgn & Epair).
  { unfold decimal. destruct (Z.ltb_spec v 0).
    - destruct (ll2string_magnitude v Hv) as [-> ?]; [done|]. exists (- v), [ch_minus]. auto.
    - exists v, []. unfold srange in Hv. change (2 ^ (64 - 1)) with (2 ^ 63) in Hv. repeat split; auto; lia. }
  unfold ll2string. rewrite Epair. rewrite digits10_dec, Hdec, zlen_app by done.
  pose proof (dec_nonempty _ Hval) as Hne.
  assert (Hd20 : zlen (dec value) <= 20)
    by (rewrite <- digits10_dec by done; destruct (digits10_bounds _ Hval) as [? _]; lia).
  assert (Hs1 : zlen sgn <= 1) by (destruct Hsgn as [->| ->]; done). pose proof (zlen_nonneg sgn).
  rewrite (uwrap_small 32) by (unfold urange; lia). rewrite Z.geb_leb.
  rewrite (Z.add_comm (zlen sgn)). set (n := zlen (dec value) + zlen sgn) in *.
  destruct (Z.ltb_spec n dstlen), (Z.leb_spec dstlen n); try lia; [|done].
  destruct (zsplit3 dst n 1) as (body & one & rest & -> & Hb & (o & ->)%zlen_1_inv); [lia..|].
  change ([o] ++ rest) with (o :: rest). rewrite zput1 by lia. cbn [mbind option_bind].
  destruct (zsplit3 body 0 (zlen sgn)) as (p0 & s0 & hole & -> & E0 & Es); [lia..|].
  apply zlen_0_nil in E0 as ->. rewrite app_nil_l in *. rewrite zlen_app in Hb.
  rewrite (uwrap_small 32) by (unfold urange; lia). rewrite <- app_assoc.
  destruct (ll2string_loop_spec s0 19 hole (0 :: rest) value (n - 1)) as (hole' & v' & tail & -> & Hv' & Hz & Hdv);
    [change (2 * Z.of_nat 19 + 2) with 40; lia|lia..|].
  cbn [mbind option_bind].
  rewrite ll2string_last by done. cbn [mbind option_bind].
  exists rest. rewrite Hdv, <- !app_assoc.
  assert (Hsz : zlen s0 = zlen sgn) by done.
  destruct Hsgn as [-> | ->]; simpl.
  - apply zlen_0_nil in Hsz as ->. simpl. split; [done|].
    assert (zlen (dec value) = zlen (dec v' ++ tail)) by congruence. unfold n in *. zlia.
  - apply (zlen_1_inv s0) in Hsz as (c & ->).
    pose proof (zput1 [] c ch_minus (dec v' ++ tail ++ 0 :: rest) 0 eq_refl) as Hput. simpl in *.
    rewrite Hput. cbn [mbind option_bind]. split; [done|].
    assert (zlen (dec value) = zlen (dec v' ++ tail)) by congruence. unfold n in *. zlia.
Qed.

(** ** [string2ll] accepts exactly the decimal representations *)

Definition digit (c : Z) : Prop := 48 <= c <= 57.

(** Value of a digit string, most significant digit first. *)
Definition dval (v : Z) (p : bytes) : Z := fold_left (fun v c => v * 10 + (c - 48)) p v.

Lemma dval_snoc v p c : dval v (p ++ [c]) = dval v p * 10 + (c - 48).
Proof. unfold dval. by rewrite fold_left_app. Qed.

Lemma dval_mono p : forall v, 0 <= v -> Forall digit p -> v <= dval v p.
Proof.
  induction p as [|c p IH]; intros v Hv Hf; [done|]. inversion Hf; subst. unfold digit in *.
  unfold dval in *. simpl. specialize (IH (v * 10 + (c - 48))). lia || (etrans; [|apply IH]; [lia|lia|done]).
Qed.

(** The digits of a positive number followed by more digits. *)
Lemma dec_dval v p : 0 < v < 2 ^ 64 -> Forall digit p -> dval v p < 2 ^ 64 -> dec (dval v p) = dec v ++ p.
Proof.
  intros Hv. induction p as [|c p IH] using rev_ind; intros Hf Hlt; [by rewrite app_nil_r|].
  apply Forall_app in Hf as [Hf Hc]. inversion Hc as [|? ? Hd]; subst. unfold digit in Hd.
  rewrite dval_snoc in *. pose proof (dval_mono p v ltac:(lia) Hf).
  rewrite dec_step by lia.
  replace ((dval v p * 10 + (c - 48)) / 10) with (dval v p) by dlia.
  replace ((dval v p * 10 + (c - 48)) mod 10) with (c - 48) by dlia.
  rewrite IH by (done || lia). rewrite <- app_assoc. do 3 f_equal. lia.
Qed.

(** The digits of [v]: the first is not zero, and they evaluate to [v]. *)
Lemma dec_digits v : 0 < v < 2 ^ 64 -> exists d p, dec v = d :: p /\ 49 <= d <= 57 /\ Forall digit p /\
  dval (d - 48) p = v.
Proof.
  intros Hv. remember (Z.to_nat v) as n eqn:En. revert v Hv En.
  induction (lt_wf n) as [n _ IH]. intros v Hv En.
  destruct (Z.ltb_spec v 10).
  - exists (48 + v), []. rewrite dec_small by lia. unfold dval. simpl. repeat split; auto; lia.
  - assert (0 < v / 10 < 2 ^ 64) by (split; [apply Z.div_str_pos|apply Z.div_lt_upper_bound]; lia).
    destruct (IH (Z.to_nat (v / 10))) with (v := v / 10) as (d & p & E & Hd & Hf & Hval); try done.
    { subst n. apply Z2Nat.inj_lt; [lia|lia|]. apply Z.div_lt; lia. }
    exists d, (p ++ [48 + v mod 10]). rewrite dec_step, E by lia. repeat split; try lia.
    + apply Forall_app. split; [done|]. constructor; [|constructor]. unfold digit. dlia.
    + rewrite dval_snoc, Hval. dlia.
Qed.

(** The digit loop succeeds exactly when all characters are digits and the value fits 64 bits. *)
Lemma string2ll_digits_spec p : forall v w, 0 <= v < 2 ^ 64 ->
  string2ll_digits p v = Some (w, []) <-> Forall digit p /\ w = dval v p /\ w < 2 ^ 64.
Proof.
  induction p as [|c p IH]; intros v w Hv; cbn [string2ll_digits]; unfold ch_0, ch_9.
  { unfold dval; simpl. split; [intros [= <-]; split; [constructor|lia]|intros (_ & -> & _); done]. }
  destruct (Z.leb_spec 48 c) as [H1|H1], (Z.leb_spec c 57) as [H2|H2]; cbn [andb];
    try (split; [done|intros (Hf & _); inversion Hf; subst; unfold digit in *; lia]).
  assert (Ed : dval v (c :: p) = dval (v * 10 + (c - 48)) p) by done.
  unfold UINT64_MAX. rewrite Z.gtb_ltb. change ((2 ^ 64 - 1) / 10) with 1844674407370955161.
  assert (Hmono : Forall digit (c :: p) -> v * 10 + (c - 48) <= dval v (c :: p)).
  { intros Hf. inversion Hf; subst. rewrite Ed. apply dval_mono; [lia|done]. }
  destruct (Z.ltb_spec 1844674407370955161 v).
  { split; [done|]. intros (Hf & -> & Hlt). specialize (Hmono Hf). lia. }
  rewrite (uwrap_small 64 (v * 10)) by (unfold urange; lia). rewrite Z.gtb_ltb.
  destruct (Z.ltb_spec (2 ^ 64 - 1 - (c - 48)) (v * 10)).
  { split; [done|]. intros (Hf & -> & Hlt). specialize (Hmono Hf). lia. }
  rewrite uwrap_small by (unfold urange; lia). rewrite IH by lia. rewrite Ed.
  split; intros (Hf & ? & ?); (split; [|done]).
  - constructor; [unfold digit; lia|done].
  - by inversion Hf.
Qed.

(** A decimal string is parsed back. *)
Lemma string2ll_decimal v : srange 64 v -> string2ll (decimal v) = Some v.
Proof.
  unfold srange. change (2 ^ (64 - 1)) with (2 ^ 63). intros Hv. unfold decimal.
  destruct (Z.ltb_spec v 0).
  - destruct (dec_digits (- v)) as (d & p & E & Hd & Hf & Hval); [lia|]. rewrite E.
    cbn [string2ll]. unfold ch_minus, ch_0, ch_1, ch_9. rewrite (Z.eqb_refl 45), andb_false_r. repeat zdec. cbn [andb].
    rewrite (proj2 (string2ll_digits_spec p (d - 48) (- v) ltac:(lia))) by (rewrite Hval; split; [done|lia]).
    cbn [mbind option_bind]. unfold INT64_MIN. rewrite (uwrap_small 64 (- (- 2 ^ 63 + 1))) by (unfold urange; lia).
    zdec. zdec. f_equal. rewrite swrap_uwrap by lia. rewrite swrap_small; [lia| |lia].
    unfold srange. change (2 ^ (64 - 1)) with (2 ^ 63). lia.
  - destruct (Z.eqb_spec v 0) as [->|]; [done|].
    destruct (dec_digits v) as (d & p & E & Hd & Hf & Hval); [lia|]. rewrite E.
    cbn [string2ll]. unfold ch_minus, ch_0, ch_1, ch_9.
    rewrite (proj2 (Z.eqb_neq d 48)), andb_false_r by lia. repeat zdec. cbn [andb].
    rewrite (proj2 (string2ll_digits_spec p (d - 48) v ltac:(lia))) by (rewrite Hval; split; [done|lia]).
    cbn [mbind option_bind]. unfold INT64_MAX. zdec. by zdec.
Qed.

(** A digit string with a non-zero first digit is the decimal representation of its value. *)
Lemma dec_of_digits d p : 49 <= d <= 57 -> Forall digit p -> dval (d - 48) p < 2 ^ 64 ->
  dec (dval (d - 48) p) = d :: p /\ 0 < dval (d - 48) p.
Proof.
  intros Hd Hf Hlt. rewrite dec_dval by (done || lia). rewrite dec_small by lia.
  pose proof (dval_mono p (d - 48) ltac:(lia) Hf). split; [|lia]. simpl. f_equal. lia.
Qed.

(** Whatever is accepted is the decimal representation of the value. *)
Lemma string2ll_sound s v : string2ll s = Some v -> srange 64 v /\ s = decimal v.
Proof.
  unfold srange. change (2 ^ (64 - 1)) with (2 ^ 63).
  destruct s as [|c rest]; [done|]. cbn [string2ll].
  destruct ((match rest with [] => true | _ => false end) && (c =? ch_0)) eqn:E0.
  { apply andb_true_iff in E0 as [E1 E2]. destruct rest; [|done]. zb. intros [= <-].
    unfold ch_0 in E2. subst. split; [lia|done]. }
  set (np := if c =? ch_minus then (true, rest) else (false, c :: rest)).
  destruct np as [neg p] eqn:Enp. destruct p as [|d p]; [done|].
  unfold ch_0, ch_1, ch_9.
  destruct (Z.leb_spec 49 d), (Z.leb_spec d 57); cbn [andb]; try done.
  intros Hres. apply bind_Some_inv in Hres as ([w q] & Hd & Hres). destruct q; [|done].
  apply (string2ll_digits_spec p (d - 48) w) in Hd as (Hf & -> & Hlt); [|lia].
  destruct (dec_of_digits d p) as [Edec Hpos]; [lia|done|done|].
  set (w := dval (d - 48) p) in *.
  unfold np in Enp. destruct (Z.eqb_spec c ch_minus) as [->|]; simplify_eq.
  - unfold INT64_MIN in Hres. rewrite (uwrap_small 64 (- (- 2 ^ 63 + 1))) in Hres by (unfold urange; lia).
    destruct (_ >? _) eqn:Eo; [done|]. zb. simplify_eq.
    rewrite swrap_uwrap, swrap_small by (try lia; unfold srange; change (2 ^ (64 - 1)) with (2 ^ 63); lia).
    split; [lia|]. unfold decimal. zdec. rewrite Z.opp_involutive, Edec. done.
  - unfold INT64_MAX in Hres. destruct (_ >? _) eqn:Eo; [done|]. zb. simplify_eq.
    split; [lia|]. unfold decimal. zdec. done.
Qed.

(** [ll2string] writes exactly the NUL-terminated decimal representation of the number and
    returns its length, and writes nothing and returns 0 exactly when the buffer is too small;
    no store falls outside the first [dstlen] bytes. *)
Theorem ll2string_correct dst v : srange 64 v ->
  if zlen (decimal v) <? zlen dst
  then (exists rest, ll2string dst (zlen dst) v = Some (decimal v ++ 0 :: rest, zlen (decimal v)) /\
         zlen (decimal v ++ 0 :: rest) = zlen dst)
  else ll2string dst (zlen dst) v = Some (dst, 0).
Proof. intros Hv. by apply ll2string_spec. Qed.

Lemma ll2string_correct_witness :
  exists rest, ll2string (replicate 21 7) 21 (-123456) = Some (str "-123456" ++ 0 :: rest, 7).
Proof.
  pose proof (ll2string_correct (replicate 21 7) (-123456)) as H.
  destruct H as (rest & H & _); [vm_compute; split; congruence|].
  exists rest. exact H.
Defined.

(** [string2ll] accepts a byte string exactly when it is the canonical decimal representation
    of a 64-bit signed integer, and then yields that integer; so converting a number with
    [ll2string] and parsing it back is the identity, and so is parsing and printing. *)
Theorem string2ll_iff_decimal s v : string2ll s = Some v <-> srange 64 v /\ s = decimal v.
Proof.
  split; [apply string2ll_sound|]. intros [Hv ->]. by apply string2ll_decimal.
Qed.

(** [digits10] and [sdigits10] count the characters of the decimal representation, for every
    unsigned (signed) 64-bit value, so the length [ll2string] checks is the one it writes. *)
Lemma digits10_counts v :
  (urange 64 v -> digits10 v = zlen (decimal v)) /\ (srange 64 v -> sdigits10 v = zlen (decimal v)).
Proof.
  assert (Hu : urange 64 v -> digits10 v = zlen (decimal v)).
  { unfold urange, decimal. intros Hv. rewrite digits10_dec by done. by zdec. }
  split; [done|]. intros Hv. unfold sdigits10. destruct (Z.ltb_spec v 0).
  - destruct (ll2string_magnitude v Hv) as [E Hr]; [done|]. cbv zeta. rewrite E.
    pose proof (digits10_bounds _ Hr) as [? _]. rewrite uwrap_small by (unfold urange; lia).
    rewrite digits10_dec by done. unfold decimal. zdec. rewrite zlen_cons. lia.
  - apply Hu. unfold srange, urange in *. change (2 ^ (64 - 1)) with (2 ^ 63) in Hv. lia.
Qed.

(** On a platform with a 64-bit [long], [string2l] is [string2ll]. *)
Lemma string2l_eq s : string2l s = string2ll s.
Proof.
  unfold string2l. destruct (string2ll s) as [v|] eqn:E; [|done]. cbn [mbind option_bind].
  apply string2ll_sound in E as [Hv _]. unfold srange in Hv. change (2 ^ (64 - 1)) with (2 ^ 63) in Hv.
  unfold INT64_MIN, INT64_MAX. rewrite Z.gtb_ltb. by repeat zdec.
Qed.
