(* ===== verification/Intset.v ===== *)
(** Integer sets of [redis-5.0.10/src/intset.c]: a sorted array of distinct integers stored with
    the smallest of three widths, as a header of two 32-bit fields and a byte buffer.  The model
    keeps the bytes (little endian host, where the [memrev*ifbe]/[intrev*ifbe] macros are empty);
    [repr] relates them to the sorted list of the elements and every operation is shown to
    implement the corresponding operation on that list. *)

From Stdlib Require Import Sorted.
From stdpp Require Import gmap sets.
From S2P Require Import Prelude.

#[local] Open Scope Z_scope.

(** ** The C code *)

Definition INTSET_ENC_INT16 : Z := 2.
Definition INTSET_ENC_INT32 : Z := 4.
Definition INTSET_ENC_INT64 : Z := 8.

Record intset := mkIntset {
  is_encoding : Z;
  is_length : Z;
  is_contents : bytes;
}.

(** [sizeof(intset)]: the two 32-bit header fields. *)
Definition sizeof_intset : Z := 8.

Definition _intsetValueEncoding (v : Z) : Z :=
  if (v <? INT32_MIN) || (v >? INT32_MAX) then INTSET_ENC_INT64
  else if (v <? INT16_MIN) || (v >? INT16_MAX) then INTSET_ENC_INT32
  else INTSET_ENC_INT16.

(** The element at index [pos] of an array of [int(8w)_t]. *)
Definition load_int (c : bytes) (pos w : Z) : option Z :=
  b ← zsub c (pos * w) w; Some (swrap (8 * w) (le_value b)).

Definition store_int (c : bytes) (pos w value : Z) : option bytes :=
  zput c (pos * w) (le_bytes (Z.to_nat w) value).

Definition _intsetGetEncoded (si : intset) (pos enc : Z) : option Z :=
  if enc =? INTSET_ENC_INT64 then load_int (is_contents si) pos 8
  else if enc =? INTSET_ENC_INT32 then load_int (is_contents si) pos 4
  else load_int (is_contents si) pos 2.

Definition _intsetGet (si : intset) (pos : Z) : option Z :=
  _intsetGetEncoded si pos (is_encoding si).

Definition set_contents (si : intset) (c : bytes) : intset :=
  mkIntset (is_encoding si) (is_length si) c.

Definition _intsetSet (si : intset) (pos value : Z) : option intset :=
  let encoding := is_encoding si in
  set_contents si <$>
    (if encoding =? INTSET_ENC_INT64 then store_int (is_contents si) pos 8 value
     else if encoding =? INTSET_ENC_INT32 then store_int (is_contents si) pos 4 value
     else store_int (is_contents si) pos 2 value).

Definition intsetNew : intset := mkIntset INTSET_ENC_INT16 0 [].

Definition intsetResize (si : intset) (len : Z) : intset :=
  let size := u32 (len * is_encoding si) in
  set_contents si (zresize (is_contents si) size).

(** The [while (max >= min)] loop of [intsetSearch]: the final [min], [mid] and [cur]. *)
Fixpoint search_loop (fuel : nat) (si : intset) (value min max mid cur : Z)
    : option (Z * Z * Z) :=
  match fuel with
  | O => None
  | S fuel =>
      if max >=? min then
        let mid := s32 (Z.shiftr (u32 (u32 min + u32 max)) 1) in
        cur ← _intsetGet si mid;
        if value >? cur then search_loop fuel si value (s32 (mid + 1)) max mid cur
        else if value <? cur then search_loop fuel si value min (s32 (mid - 1)) mid cur
        else Some (min, mid, cur)
      else Some (min, mid, cur)
  end.

(** Returns the C result and [*pos]. *)
Definition intsetSearch (si : intset) (value : Z) : option (bool * Z) :=
  let max := s32 (u32 (is_length si - 1)) in
  if is_length si =? 0 then Some (false, 0)
  else
    last ← _intsetGet si max;
    if value >? last then Some (false, is_length si)
    else
      first ← _intsetGet si 0;
      if value <? first then Some (false, 0)
      else
        r ← search_loop (S (Z.to_nat (is_length si))) si value 0 max (-1) (-1);
        let '(min, mid, cur) := r in
        if value =? cur then Some (true, u32 mid) else Some (false, u32 min).

(** [while (length--) _intsetSet(is, length+prepend, _intsetGetEncoded(is, length, curenc))]. *)
Fixpoint upgrade_loop (length : nat) (si : intset) (prepend curenc : Z) : option intset :=
  match length with
  | O => Some si
  | S length =>
      v ← _intsetGetEncoded si (Z.of_nat length) curenc;
      si ← _intsetSet si (Z.of_nat length + prepend) v;
      upgrade_loop length si prepend curenc
  end.

Definition incr_length (si : intset) : intset :=
  mkIntset (is_encoding si) (u32 (is_length si + 1)) (is_contents si).

Definition intsetUpgradeAndAdd (si : intset) (value : Z) : option intset :=
  let curenc := u8 (is_encoding si) in
  let newenc := _intsetValueEncoding value in
  let length := s32 (is_length si) in
  let prepend := if value <? 0 then 1 else 0 in
  let si := mkIntset newenc (is_length si) (is_contents si) in
  let si := intsetResize si (u32 (is_length si + 1)) in
  si ← upgrade_loop (Z.to_nat length) si prepend curenc;
  si ← (if prepend =? 0 then _intsetSet si (s32 (is_length si)) value else _intsetSet si 0 value);
  Some (incr_length si).

Definition intsetMoveTail (si : intset) (from to : Z) : option intset :=
  let bytes := u32 (is_length si - from) in
  let encoding := is_encoding si in
  let w := if encoding =? INTSET_ENC_INT64 then 8
           else if encoding =? INTSET_ENC_INT32 then 4 else 2 in
  set_contents si <$> zmove (is_contents si) (to * w) (from * w) (u32 (bytes * w)).

(** Returns the set and [*success]. *)
Definition intsetAdd (si : intset) (value : Z) : option (intset * bool) :=
  let valenc := _intsetValueEncoding value in
  if valenc >? is_encoding si then
    si ← intsetUpgradeAndAdd si value; Some (si, true)
  else
    r ← intsetSearch si value;
    let '(found, pos) := r in
    if found : bool then Some (si, false)
    else
      let si := intsetResize si (u32 (is_length si + 1)) in
      si ← (if pos <? is_length si then intsetMoveTail si pos (u32 (pos + 1)) else Some si);
      si ← _intsetSet si (s32 pos) value;
      Some (incr_length si, true).

Definition intsetRemove (si : intset) (value : Z) : option (intset * bool) :=
  let valenc := _intsetValueEncoding value in
  if valenc <=? is_encoding si then
    r ← intsetSearch si value;
    let '(found, pos) := r in
    if found : bool then
      let len := is_length si in
      si ← (if pos <? u32 (len - 1) then intsetMoveTail si (u32 (pos + 1)) pos else Some si);
      let si := intsetResize si (u32 (len - 1)) in
      Some (mkIntset (is_encoding si) (u32 (len - 1)) (is_contents si), true)
    else Some (si, false)
  else Some (si, false).

Definition intsetFind (si : intset) (value : Z) : option bool :=
  let valenc := _intsetValueEncoding value in
  if valenc <=? is_encoding si then fst <$> intsetSearch si value else Some false.

(** [intsetRandom] with the value [r] of [rand()]; a division by zero is [None]. *)
Definition intsetRandom (r : Z) (si : intset) : option Z :=
  if is_length si =? 0 then None else _intsetGet si (s32 (u32 r mod is_length si)).

Definition intsetGet (si : intset) (pos : Z) : option (option Z) :=
  if pos <? is_length si then v ← _intsetGet si (s32 pos); Some (Some v) else Some None.

Definition intsetLen (si : intset) : Z := is_length si.

Definition intsetBlobLen (si : intset) : Z :=
  u64 (sizeof_intset + u32 (is_length si * is_encoding si)).

(** ** Representation: the sorted list stored in the buffer *)

Definition enc_ok (e : Z) : Prop := e = 2 \/ e = 4 \/ e = 8.

Definition pack (w : Z) (l : list Z) : bytes := concat (map (le_bytes (Z.to_nat w)) l).

(** Largest number of elements considered: the byte size of the buffer then fits the 32-bit
    [size] computed by [intsetResize]. *)
Definition INTSET_MAX_LEN : Z := 2 ^ 28.

Record repr (si : intset) (l : list Z) : Prop := mkRepr {
  repr_enc : enc_ok (is_encoding si);
  repr_len : is_length si = zlen l;
  repr_fit : Forall (srange (8 * is_encoding si)) l;
  repr_bytes : is_contents si = pack (is_encoding si) l;
  repr_sorted : StronglySorted Z.lt l;
  repr_bound : zlen l < INTSET_MAX_LEN;
}.

(** Specification of insertion and removal on sorted lists. *)
Fixpoint sinsert (v : Z) (l : list Z) : list Z :=
  match l with
  | [] => [v]
  | x :: r => if v <? x then v :: l else if v =? x then l else x :: sinsert v r
  end.

Definition sremove (v : Z) (l : list Z) : list Z := List.filter (fun x => negb (x =? v)) l.

Definition member (v : Z) (l : list Z) : bool := existsb (Z.eqb v) l.

(** [v] splits [l] into the smaller elements and the others. *)
Definition split_at (v : Z) (l lo hi : list Z) : Prop :=
l = lo ++ hi /\ Forall (fun x => x < v) lo /\ Forall (fun x => v <= x) hi.

Section Pack.
Variable w : Z.
Hypothesis Hw : enc_ok w.

Lemma zlen_pack l : zlen (pack w l) = w * zlen l.
Proof using Hw.
  induction l as [|x l IH]; unfold pack in *; simpl; [zlia|].
  rewrite !zlen_app, zlen_cons, IH, zlen_le_bytes. destruct Hw as [->|[->| ->]]; lia.
Qed.

Lemma pack_app l k : pack w (l ++ k) = pack w l ++ pack w k.
Proof. unfold pack. by rewrite map_app, concat_app. Qed.

Lemma pack_cons x l : pack w (x :: l) = le_bytes (Z.to_nat w) x ++ pack w l.
Proof. done. Qed.

Lemma load_int_mid pre x post pos :
  zlen pre = pos * w -> srange (8 * w) x ->
  load_int (pre ++ le_bytes (Z.to_nat w) x ++ post) pos w = Some x.
Proof using Hw.
  intros Hp Hx. unfold load_int.
  assert (Hn : Z.of_nat (Z.to_nat w) = w) by (destruct Hw as [->|[->| ->]]; done).
  rewrite zsub_app; [|done|by rewrite zlen_le_bytes]. simpl.
  rewrite le_value_bytes, Hn. f_equal.
  change (?z mod 2 ^ (8 * w)) with (uwrap (8 * w) z).
  assert (0 < 8 * w) by (destruct Hw as [->|[->| ->]]; lia).
  rewrite swrap_uwrap by done. by apply swrap_small.
Qed.

Lemma load_int_pack l pos x :
  zget l pos = Some x -> srange (8 * w) x -> load_int (pack w l) pos w = Some x.
Proof using Hw.
  intros Hg Hx. apply zget_Some in Hg as [Hpos Hl].
  rewrite <- (take_drop_middle _ _ _ Hl), pack_app, pack_cons.
  apply load_int_mid; [|done]. rewrite zlen_pack.
  apply lookup_lt_Some in Hl.
  replace (zlen (take (Z.to_nat pos) l)) with pos by (unfold zlen; rewrite length_take; lia). lia.
Qed.

Lemma store_int_mid pre old post pos value :
  zlen pre = pos * w -> zlen old = w ->
  store_int (pre ++ old ++ post) pos w value
  = Some (pre ++ le_bytes (Z.to_nat w) value ++ post).
Proof using Hw.
  intros Hp Ho. unfold store_int. apply zput_app; [done|].
  rewrite zlen_le_bytes. destruct Hw as [->|[->| ->]]; lia.
Qed.
End Pack.

Lemma getEncoded_load si pos e : enc_ok e -> _intsetGetEncoded si pos e = load_int (is_contents si) pos e.
Proof. by intros [->|[->| ->]]. Qed.

Lemma set_store si pos v : enc_ok (is_encoding si) ->
  _intsetSet si pos v = set_contents si <$> store_int (is_contents si) pos (is_encoding si) v.
Proof. unfold _intsetSet. by intros [->|[->| ->]]. Qed.

Lemma get_repr si l pos x : repr si l -> zget l pos = Some x -> _intsetGet si pos = Some x.
Proof.
  intros [He _ Hf Hb _ _] Hg. unfold _intsetGet. rewrite getEncoded_load, Hb by done.
  apply load_int_pack; [done..|].
  eapply (Forall_lookup_1 _ _ _ _ Hf). by apply zget_Some in Hg as [_ ?].
Qed.

(** ** Binary search *)

Lemma sorted_lookup_lt l i j x y :
  StronglySorted Z.lt l -> zget l i = Some x -> zget l j = Some y -> i < j -> x < y.
Proof.
  intros Hs. revert i j. induction Hs as [|a l Hs IH Ha]; intros i j Hi Hj Hij; [apply zget_range in Hi; zlia|].
  pose proof (zget_range _ _ _ Hi). rewrite zget_cons in Hi, Hj.
  destruct (Z.eqb_spec i 0) as [->|], (Z.eqb_spec j 0) as [->|]; try lia; simplify_eq.
  - apply zget_Some in Hj as [_ Hj]. by eapply (Forall_lookup_1 _ _ _ _ Ha).
  - apply (IH (i - 1) (j - 1)); try done. lia.
Qed.

(** [l] has [pos] elements, then [v] or something larger: what a search position means. *)
Definition search_pos (v : Z) (l : list Z) (pos : Z) : Prop :=
  0 <= pos <= zlen l /\
  (forall i x, zget l i = Some x -> i < pos -> x < v) /\
  (forall i x, zget l i = Some x -> pos <= i -> v <= x).

Lemma search_pos_split v l pos : search_pos v l pos -> exists lo hi, split_at v l lo hi /\ zlen lo = pos.
Proof.
  intros (Hr & Hlo & Hhi). exists (take (Z.to_nat pos) l), (drop (Z.to_nat pos) l).
  unfold split_at. rewrite take_drop.
  split; [split; [done|split]|unfold zlen in *; rewrite length_take; lia].
  - apply Forall_lookup_2. intros i x Hx. apply lookup_take_Some in Hx as [Hx Hi].
    apply (Hlo (Z.of_nat i)); [|lia]. apply zget_Some. rewrite Nat2Z.id. split; [lia|done].
  - apply Forall_lookup_2. intros i x Hx. rewrite lookup_drop in Hx.
    apply (Hhi (Z.of_nat (Z.to_nat pos + i))); [|lia]. apply zget_Some. rewrite Nat2Z.id. split; [lia|done].
Qed.

Lemma midpoint mn mx : 0 <= mn -> mn <= mx -> mx < 2 ^ 30 ->
  s32 (Z.shiftr (u32 (u32 mn + u32 mx)) 1) = (mn + mx) / 2 /\ mn <= (mn + mx) / 2 <= mx.
Proof.
  intros. rewrite (uwrap_small 32 mn), (uwrap_small 32 mx), uwrap_small by (unfold urange; lia).
  assert (mn <= (mn + mx) / 2 <= mx) by dlia.
  rewrite Z.shiftr_div_pow2 by lia. change (2 ^ 1) with 2. split; [|done].
  rewrite swrap_small; [done| |lia]. unfold srange. lia.
Qed.

Lemma search_loop_spec si l v fuel : forall mn mx mid cur,
  repr si l -> 0 <= mn -> mn <= mx + 1 -> mx < zlen l -> (Z.to_nat (mx - mn + 1) < fuel)%nat ->
  (forall i x, zget l i = Some x -> i < mn -> x < v) ->
  (forall i x, zget l i = Some x -> mx < i -> v < x) ->
  (mn <= mx \/ (zget l mid = Some cur /\ cur <> v)) ->
  exists mn' mid' cur', search_loop fuel si v mn mx mid cur = Some (mn', mid', cur') /\
    zget l mid' = Some cur' /\
    (cur' = v \/ (cur' <> v /\ search_pos v l mn' /\ forall x, In x l -> x <> v)).
Proof.
  induction fuel as [|fuel IH]; intros mn mx mid cur Hr H0 Hle Hmx Hf Hlo Hhi Hcur; [lia|].
  pose proof (repr_bound _ _ Hr) as Hb. unfold INTSET_MAX_LEN in Hb.
  simpl search_loop. rewrite Z.geb_leb. destruct (Z.leb_spec mn mx) as [Hm|Hm].
  - destruct (midpoint mn mx) as [Emid Hmid]; [lia..|]. rewrite Emid.
    set (m := (mn + mx) / 2) in *.
    destruct (zget_in_range l m) as [c Hc]; [lia|].
    rewrite (get_repr _ _ _ _ Hr Hc). cbn [mbind option_bind].
    rewrite Z.gtb_ltb. destruct (Z.ltb_spec c v) as [Hlt|Hge].
    + rewrite (swrap_small 32) by (unfold srange; lia).
      apply IH; auto; try lia.
      intros i x Hx Hi. destruct (decide (i = m)) as [->|]; [naive_solver|].
      pose proof (sorted_lookup_lt _ _ _ _ _ (repr_sorted _ _ Hr) Hx Hc). lia.
      right. split; [done|lia].
    + destruct (Z.ltb_spec v c) as [Hlt|Hge'].
      * rewrite (swrap_small 32) by (unfold srange; lia).
        apply IH; auto; try lia.
        intros i x Hx Hi. destruct (decide (i = m)) as [->|]; [naive_solver|].
        pose proof (sorted_lookup_lt _ _ _ _ _ (repr_sorted _ _ Hr) Hc Hx). lia.
        right. split; [done|lia].
      * eexists _, _, _. split; [done|]. split; [done|]. left. lia.
  - destruct Hcur as [?|[Hg Hne]]; [lia|].
    eexists _, _, _. split; [done|]. split; [done|]. right. split; [done|].
    assert (mn = mx + 1) as -> by lia. split; [split; [lia|split]|].
    + done.
    + intros i x Hx Hi. specialize (Hhi i x Hx). lia.
    + intros x Hx%list_elem_of_In. apply list_elem_of_lookup in Hx as [i Hi].
      assert (Hz : zget l (Z.of_nat i) = Some x) by (apply zget_Some; rewrite Nat2Z.id; split; [lia|done]).
      destruct (Z.le_gt_cases (Z.of_nat i) mx).
      * specialize (Hlo _ _ Hz). lia.
      * specialize (Hhi _ _ Hz). lia.
Qed.

Lemma member_In v l : member v l = true <-> In v l.
Proof.
  unfold member. rewrite existsb_exists. split.
  - intros (x & Hx & ->%Z.eqb_eq). done.
  - intros H. exists v. split; [done|apply Z.eqb_refl].
Qed.

Lemma member_false v l : member v l = false <-> ~ In v l.
Proof. rewrite <- member_In. destruct (member v l); naive_solver. Qed.

Lemma zget_In (l : list Z) i x : zget l i = Some x -> In x l.
Proof. rewrite zget_Some. intros [_ H]. apply list_elem_of_In. by eapply list_elem_of_lookup_2. Qed.

Lemma search_pos_found v l pos : StronglySorted Z.lt l -> zget l pos = Some v -> search_pos v l pos.
Proof.
  intros Hs Hg. pose proof (zget_range _ _ _ Hg). split; [lia|split].
  - intros i x Hx Hi. by apply (sorted_lookup_lt l i pos).
  - intros i x Hx Hi. destruct (decide (i = pos)) as [->|]; [naive_solver lia|].
    assert (v < x) by (apply (sorted_lookup_lt l pos i); try done; lia). lia.
Qed.

Lemma sorted_last_max l v last : StronglySorted Z.lt l -> zget l (zlen l - 1) = Some last -> last < v ->
  search_pos v l (zlen l) /\ ~ In v l.
Proof.
  intros Hs Hg Hlt.
  assert (Hall : forall i x, zget l i = Some x -> x < v).
  { intros i x Hx. pose proof (zget_range _ _ _ Hx).
    destruct (decide (i = zlen l - 1)) as [->|]; [naive_solver lia|].
    assert (x < last) by (apply (sorted_lookup_lt l i (zlen l - 1)); try done; lia). lia. }
  pose proof (zlen_nonneg l). split; [split; [lia|split]|].
  - naive_solver.
  - intros i x Hx. apply zget_range in Hx. lia.
  - intros [i Hi]%list_elem_of_In%list_elem_of_lookup.
    assert (v < v); [|lia]. apply (Hall (Z.of_nat i)). apply zget_Some.
    rewrite Nat2Z.id. split; [lia|done].
Qed.

Lemma sorted_first_min l v first : StronglySorted Z.lt l -> zget l 0 = Some first -> v < first ->
  search_pos v l 0 /\ ~ In v l.
Proof.
  intros Hs Hg Hlt.
  assert (Hall : forall i x, zget l i = Some x -> v < x).
  { intros i x Hx. pose proof (zget_range _ _ _ Hx).
    destruct (decide (i = 0)) as [->|]; [naive_solver lia|].
    assert (first < x) by (apply (sorted_lookup_lt l 0 i); try done; lia). lia. }
  pose proof (zlen_nonneg l). split; [split; [lia|split]|].
  - intros i x Hx. apply zget_range in Hx. lia.
  - intros i x Hx ?. specialize (Hall _ _ Hx). lia.
  - intros [i Hi]%list_elem_of_In%list_elem_of_lookup.
    assert (v < v); [|lia]. apply (Hall (Z.of_nat i)). apply zget_Some.
    rewrite Nat2Z.id. split; [lia|done].
Qed.

(** [intsetSearch] always terminates, stays inside the buffer, reports membership and returns the
    position of the value or the position where it belongs. *)
Lemma intsetSearch_repr si l v : repr si l ->
  exists pos, intsetSearch si v = Some (member v l, pos) /\ search_pos v l pos.
Proof.
  intros Hr. pose proof (repr_bound _ _ Hr) as Hb. unfold INTSET_MAX_LEN in Hb.
  pose proof (zlen_nonneg l). unfold intsetSearch. rewrite (repr_len _ _ Hr).
  destruct (Z.eqb_spec (zlen l) 0) as [E|].
  { apply zlen_0_nil in E as ->. exists 0. split; [done|]. split; [zlia|].
    split; intros i x Hx; apply zget_range in Hx; zlia. }
  rewrite (uwrap_small 32 (zlen l - 1)), (swrap_small 32) by (unfold urange, srange; lia).
  destruct (zget_in_range l (zlen l - 1)) as [last Hlast]; [lia|].
  destruct (zget_in_range l 0) as [first Hfirst]; [lia|].
  rewrite (get_repr _ _ _ _ Hr Hlast). cbn [mbind option_bind]. rewrite Z.gtb_ltb.
  destruct (Z.ltb_spec last v) as [Hlt|Hge].
  { destruct (sorted_last_max l v last (repr_sorted _ _ Hr) Hlast Hlt) as [Hp Hn%member_false].
    exists (zlen l). by rewrite Hn. }
  rewrite (get_repr _ _ _ _ Hr Hfirst). cbn [mbind option_bind].
  destruct (Z.ltb_spec v first) as [Hlt|Hge'].
  { destruct (sorted_first_min l v first (repr_sorted _ _ Hr) Hfirst Hlt) as [Hp Hn%member_false].
    exists 0. by rewrite Hn. }
  destruct (search_loop_spec si l v (S (Z.to_nat (zlen l))) 0 (zlen l - 1) (-1) (-1))
    as (mn & mid & cur & -> & Hg & Hres); auto; try lia.
  { intros i x Hx. apply zget_range in Hx. lia. }
  { intros i x Hx. apply zget_range in Hx. lia. }
  cbn [mbind option_bind]. pose proof (zget_range _ _ _ Hg).
  destruct Hres as [->|(Hne & Hp & Hall)].
  - rewrite Z.eqb_refl. exists mid. rewrite (uwrap_small 32) by (unfold urange; lia).
    rewrite (proj2 (member_In v l) (zget_In _ _ _ Hg)). split; [done|].
    by apply search_pos_found; [apply (repr_sorted _ _ Hr)|].
  - zdec. exists mn. destruct Hp as [Hr' Hp']. rewrite (uwrap_small 32) by (unfold urange; lia).
    rewrite (proj2 (member_false v l)) by (intros Hin; by apply (Hall v)). done.
Qed.

(** ** Lists: insertion and removal at the split *)

Lemma sinsert_split v l lo hi : split_at v l lo hi -> ~ In v l -> sinsert v l = lo ++ v :: hi.
Proof.
  intros (-> & Hlo & Hhi) Hn. induction lo as [|x lo IH]; simpl.
  - destruct hi as [|y hi]; [done|]. simpl. inversion Hhi; subst.
    assert (y <> v) by (intros ->; apply Hn; by left). by zdec.
  - inversion Hlo; subst. repeat zdec. f_equal. apply IH; [done|].
    intros ?. apply Hn. by right.
Qed.

Lemma sinsert_member v l lo hi : split_at v l lo hi -> In v l -> StronglySorted Z.lt l -> sinsert v l = l.
Proof.
  intros (-> & Hlo & Hhi) Hin Hs. induction lo as [|x lo IH]; simpl.
  - destruct hi as [|y hi]; [done|]. simpl in *. inversion Hs as [|?? ? Hf]; inversion Hhi; subst.
    destruct Hin as [->|Hin]; [by repeat zdec|].
    rewrite List.Forall_forall in Hf. specialize (Hf v Hin). lia.
  - inversion Hlo; inversion Hs; subst. repeat zdec. f_equal. apply IH; [done| |done].
    destruct Hin as [->|]; [lia|done].
Qed.

Lemma sorted_app_inv (lo hi : list Z) : StronglySorted Z.lt (lo ++ hi) ->
  StronglySorted Z.lt lo /\ StronglySorted Z.lt hi /\ forall x y, In x lo -> In y hi -> x < y.
Proof.
  induction lo as [|a lo IH]; simpl; intros Hs; [split; [constructor|naive_solver]|].
  inversion Hs as [|?? Hs' Hf]; subst. destruct (IH Hs') as (H1 & H2 & H3).
  apply Forall_app in Hf as [Hf1 Hf2]. split; [by constructor|split; [done|]].
  intros x y [<-|Hx] Hy; [|auto]. rewrite List.Forall_forall in Hf2. auto.
Qed.

Lemma sorted_app (lo hi : list Z) : StronglySorted Z.lt lo -> StronglySorted Z.lt hi ->
  (forall x y, In x lo -> In y hi -> x < y) -> StronglySorted Z.lt (lo ++ hi).
Proof.
  induction 1 as [|a lo Hs IH Hf]; simpl; intros Hh Hx; [done|]. constructor.
  - apply IH; auto.
  - apply Forall_app. split; [done|]. rewrite List.Forall_forall. auto.
Qed.

Lemma sorted_insert v l lo hi : split_at v l lo hi -> ~ In v l -> StronglySorted Z.lt l ->
  StronglySorted Z.lt (lo ++ v :: hi).
Proof.
  intros (-> & Hlo & Hhi) Hn Hs. apply sorted_app_inv in Hs as (H1 & H2 & H3).
  rewrite List.Forall_forall in Hlo, Hhi.
  assert (Hhi' : forall y, In y hi -> v < y).
  { intros y Hy. specialize (Hhi y Hy). assert (y <> v); [|lia].
    intros ->. apply Hn, in_or_app. by right. }
  apply sorted_app; [done| |].
  - constructor; [done|]. rewrite List.Forall_forall. auto.
  - intros x y Hx [<-|Hy]; auto.
Qed.

Lemma sremove_split v l lo hi : split_at v l lo hi -> In v l -> StronglySorted Z.lt l ->
  exists hi', hi = v :: hi' /\ sremove v l = lo ++ hi'.
Proof.
  intros (-> & Hlo & Hhi) Hin Hs. apply sorted_app_inv in Hs as (H1 & H2 & H3).
  destruct hi as [|y hi].
  { rewrite app_nil_r in Hin. rewrite List.Forall_forall in Hlo. specialize (Hlo v Hin). lia. }
  inversion H2 as [|?? Hs Hf]; subst. inversion Hhi as [|?? Hvy Hhi']; subst.
  rewrite List.Forall_forall in Hf, Hlo, Hhi'.
  assert (y = v) as ->.
  { apply in_app_or in Hin as [Hin|[->|Hin]]; [specialize (Hlo v Hin); lia|done|].
    specialize (Hf v Hin). lia. }
  exists hi. split; [done|]. unfold sremove. rewrite filter_app. simpl. rewrite Z.eqb_refl. simpl.
  assert (Hid : forall k : list Z, (forall x, In x k -> x <> v) -> List.filter (fun x => negb (x =? v)) k = k).
  { induction k as [|a k IHk]; intros Hk; [done|]. simpl. rewrite (proj2 (Z.eqb_neq a v)).
    - simpl. f_equal. apply IHk. intros x Hx. apply Hk. by right.
    - apply Hk. by left. }
  f_equal; apply Hid; intros x Hx ->; [specialize (Hlo v Hx)|specialize (Hf v Hx)]; lia.
Qed.

Lemma sremove_absent v l : ~ In v l -> sremove v l = l.
Proof.
  unfold sremove. induction l as [|x l IH]; intros Hn; [done|]. simpl.
  rewrite (proj2 (Z.eqb_neq x v)) by (intros ->; apply Hn; by left). simpl.
  f_equal. apply IH. intros ?. apply Hn. by right.
Qed.

(** ** Widths *)

Lemma valueEncoding_ok v : enc_ok (_intsetValueEncoding v).
Proof. unfold _intsetValueEncoding, enc_ok. repeat case_match; auto. Qed.

(** The chosen width is the least of the three that holds the value. *)
Lemma valueEncoding_fits v w : enc_ok w -> srange 64 v -> (_intsetValueEncoding v <= w <-> srange (8 * w) v).
Proof.
  unfold _intsetValueEncoding, srange, INTSET_ENC_INT64, INTSET_ENC_INT32, INTSET_ENC_INT16,
    INT32_MIN, INT32_MAX, INT16_MIN, INT16_MAX.
  intros [->|[->| ->]] Hv; cbn -[Z.pow Z.le Z.lt] in *; change (2 ^ (64 - 1)) with (2 ^ 63) in *;
  change (2 ^ (8 * 2 - 1)) with (2 ^ 15); change (2 ^ (8 * 4 - 1)) with (2 ^ 31);
  change (2 ^ (8 * 8 - 1)) with (2 ^ 63);
  destruct ((v <? - 2 ^ 31) || (v >? 2 ^ 31 - 1)) eqn:E1;
  [apply orb_true_iff in E1 as [?|?]| |apply orb_true_iff in E1 as [?|?]| |apply orb_true_iff in E1 as [?|?]| ];
  try destruct ((v <? - 2 ^ 15) || (v >? 2 ^ 15 - 1)) eqn:E2;
  try (apply orb_true_iff in E2 as [?|?]); zb; lia.
Qed.

Lemma srange_mono w w' v : enc_ok w -> enc_ok w' -> w <= w' -> srange (8 * w) v -> srange (8 * w') v.
Proof.
  unfold srange, enc_ok. intros [->|[->| ->]] [->|[->| ->]] ?; try lia; cbn -[Z.pow]; lia.
Qed.

Lemma enc_pos w : enc_ok w -> 0 < w <= 8.
Proof. unfold enc_ok. lia. Qed.

Lemma resize_size w n : enc_ok w -> 0 <= n <= INTSET_MAX_LEN -> u32 (u32 n * w) = n * w.
Proof.
  unfold INTSET_MAX_LEN. intros Hw Hn. rewrite (uwrap_small 32 n) by (unfold urange; lia).
  apply uwrap_small. unfold urange. destruct Hw as [->|[->| ->]]; lia.
Qed.

(** Moving the tail one slot up in a buffer that has one spare slot opens a slot at [pos]. *)
Lemma moveTail_up si lo hi pad :
  enc_ok (is_encoding si) -> is_length si = zlen (lo ++ hi) -> zlen (lo ++ hi) < INTSET_MAX_LEN ->
  is_contents si = pack (is_encoding si) (lo ++ hi) ++ pad -> zlen pad = is_encoding si ->
  exists slot, zlen slot = is_encoding si /\
    intsetMoveTail si (zlen lo) (u32 (zlen lo + 1))
    = Some (set_contents si (pack (is_encoding si) lo ++ slot ++ pack (is_encoding si) hi)).
Proof.
  unfold INTSET_MAX_LEN. intros Hw Hl Hb Hc Hp. unfold intsetMoveTail. rewrite Hl, Hc.
  set (w := is_encoding si) in *. pose proof (enc_pos w Hw).
  assert (Ew : (if w =? INTSET_ENC_INT64 then 8 else if w =? INTSET_ENC_INT32 then 4 else 2) = w)
    by (by destruct Hw as [->|[->| ->]]).
  rewrite Ew. rewrite zlen_app in *. pose proof (zlen_nonneg lo). pose proof (zlen_nonneg hi).
  rewrite (uwrap_small 32 (zlen lo + 1)), (uwrap_small 32 (_ - _)) by (unfold urange; lia).
  replace (zlen lo + zlen hi - zlen lo) with (zlen hi) by lia.
  rewrite (uwrap_small 32) by (unfold urange; destruct Hw as [->|[->| ->]]; lia).
  rewrite pack_app, <- app_assoc. unfold zmove.
  rewrite zsub_app by (rewrite zlen_pack by done; lia). cbn [mbind option_bind].
  destruct (zsplit3 (pack w hi ++ pad) 0 w) as (p0 & slot & post & E & E0 & E1);
    [lia..|rewrite zlen_app; zlia|].
  apply zlen_0_nil in E0 as ->. simpl in E. exists slot. split; [done|].
  assert (Hlen : zlen (pack w hi ++ pad) = zlen (slot ++ post)) by congruence.
  rewrite !zlen_app in Hlen.
  rewrite E, (app_assoc (pack w lo) slot post), <- (app_nil_r ((pack w lo ++ slot) ++ post)), <- app_assoc.
  rewrite zput_app; [by rewrite app_nil_r, <- app_assoc| |lia].
  rewrite zlen_app, zlen_pack by done. lia.
Qed.

(** Moving the tail one slot down overwrites the slot at [pos]. *)
Lemma moveTail_down si lo x hi :
  enc_ok (is_encoding si) -> is_length si = zlen (lo ++ x :: hi) ->
  zlen (lo ++ x :: hi) < INTSET_MAX_LEN ->
  is_contents si = pack (is_encoding si) (lo ++ x :: hi) ->
  exists junk, intsetMoveTail si (u32 (zlen lo + 1)) (zlen lo)
    = Some (set_contents si (pack (is_encoding si) (lo ++ hi) ++ junk)).
Proof.
  unfold INTSET_MAX_LEN. intros Hw Hl Hb Hc. unfold intsetMoveTail. rewrite Hl, Hc.
  set (w := is_encoding si) in *. pose proof (enc_pos w Hw).
  assert (Ew : (if w =? INTSET_ENC_INT64 then 8 else if w =? INTSET_ENC_INT32 then 4 else 2) = w)
    by (by destruct Hw as [->|[->| ->]]).
  rewrite Ew. rewrite zlen_app, zlen_cons in *. pose proof (zlen_nonneg lo). pose proof (zlen_nonneg hi).
  rewrite (uwrap_small 32 (zlen lo + 1)), (uwrap_small 32 (_ - _)) by (unfold urange; lia).
  replace (zlen lo + (1 + zlen hi) - (zlen lo + 1)) with (zlen hi) by lia.
  rewrite (uwrap_small 32) by (unfold urange; destruct Hw as [->|[->| ->]]; lia).
  rewrite pack_app, pack_cons. unfold zmove.
  assert (Hx : zlen (le_bytes (Z.to_nat w) x) = w) by (rewrite zlen_le_bytes; lia).
  set (e := le_bytes (Z.to_nat w) x) in *.
  replace (pack w lo ++ e ++ pack w hi) with ((pack w lo ++ e) ++ pack w hi ++ [])
    by (by rewrite app_nil_r, <- app_assoc).
  rewrite zsub_app by (rewrite ?zlen_app, ?zlen_pack by done; lia). cbn [mbind option_bind].
  rewrite app_nil_r, <- app_assoc.
  destruct (zsplit3 (e ++ pack w hi) 0 (zlen (pack w hi))) as (p0 & old & post & E & E0 & E1);
    [pose proof (zlen_nonneg (pack w hi)); lia..|rewrite zlen_app; lia|].
  apply zlen_0_nil in E0 as ->. simpl in E. exists post.
  rewrite E, zput_app; [|rewrite zlen_pack by done; lia|lia].
  by rewrite pack_app, <- app_assoc.
Qed.

(** Storing [v] into the open slot gives the packed list with [v] in its place. *)
Lemma set_slot si lo slot hi v :
  enc_ok (is_encoding si) -> zlen slot = is_encoding si -> zlen lo < INTSET_MAX_LEN ->
  is_contents si = pack (is_encoding si) lo ++ slot ++ pack (is_encoding si) hi ->
  _intsetSet si (s32 (zlen lo)) v = Some (set_contents si (pack (is_encoding si) (lo ++ v :: hi))).
Proof.
  unfold INTSET_MAX_LEN. intros Hw Hs Hb Hc. pose proof (zlen_nonneg lo).
  rewrite swrap_small by (unfold srange; lia).
  rewrite set_store, Hc by done. rewrite store_int_mid; [|done| |done].
  - simpl. by rewrite pack_app, pack_cons.
  - rewrite zlen_pack by done. lia.
Qed.

(** ** Upgrading the width *)

(** The loop rewrites the elements back to front: the [k] elements not yet converted keep their
    old width at the front, the converted ones sit at their final offset. *)
Lemma upgrade_loop_spec cur new l prepend post :
  enc_ok cur -> enc_ok new -> cur <= new -> Forall (srange (8 * cur)) l ->
  prepend = 0 \/ prepend = 1 -> zlen post = new * (1 - prepend) ->
  forall k si mid, (k <= length l)%nat -> is_encoding si = new ->
  is_contents si = pack cur (take k l) ++ mid ++ pack new (drop k l) ++ post ->
  zlen (pack cur (take k l) ++ mid) = new * (Z.of_nat k + prepend) ->
  exists slot, upgrade_loop k si prepend cur
    = Some (mkIntset new (is_length si) (slot ++ pack new l ++ post)) /\ zlen slot = new * prepend.
Proof.
  intros Hc Hn Hle Hf Hp Hpost. induction k as [|k IH]; intros si mid Hk He Hcont Hlen.
  - change (take 0 l) with (@nil Z) in *. change (pack cur []) with (@nil Z) in *.
    rewrite app_nil_l in *. rewrite drop_0 in Hcont. exists mid.
    split; [|lia]. destruct si; simpl in *; by subst.
  - destruct (lookup_lt_is_Some_2 l k) as [x Hx]; [lia|].
    rewrite (take_S_r _ _ _ Hx), pack_app in Hcont, Hlen.
    assert (Hxr : srange (8 * cur) x) by (eapply (Forall_lookup_1 _ _ _ _ Hf Hx)).
    pose proof (enc_pos _ Hc). pose proof (enc_pos _ Hn).
    assert (Htk : zlen (take k l) = Z.of_nat k) by (unfold zlen; rewrite length_take; lia).
    assert (Hpk : zlen (pack cur (take k l)) = cur * Z.of_nat k) by (by rewrite zlen_pack, Htk).
    set (a := pack cur (take k l)) in *. set (b := pack new (drop (S k) l) ++ post) in *.
    assert (Hpx : pack cur [x] = le_bytes (Z.to_nat cur) x) by (unfold pack; simpl; by rewrite app_nil_r).
    rewrite Hpx in Hcont, Hlen. simpl upgrade_loop.
    rewrite getEncoded_load, Hcont by done. rewrite <- app_assoc.
    rewrite load_int_mid; [|done|rewrite Hpk; lia|done]. cbn [mbind option_bind].
    rewrite set_store, Hcont, He by (by rewrite He).
    (* the target slot is the last [new] bytes before [b] *)
    rewrite !zlen_app, zlen_le_bytes in Hlen.
    destruct (zsplit3 (le_bytes (Z.to_nat cur) x ++ mid) (new * (Z.of_nat k + prepend) - cur * Z.of_nat k) new)
      as (m1 & old & m2 & Em & E1 & E2); [nia|lia|rewrite zlen_app, zlen_le_bytes; nia|].
    assert (m2 = []) as ->.
    { apply zlen_0_nil. assert (Hz : zlen (le_bytes (Z.to_nat cur) x ++ mid) = zlen (m1 ++ old ++ m2)) by congruence.
      rewrite !zlen_app, zlen_le_bytes in Hz. lia. }
    replace ((a ++ le_bytes (Z.to_nat cur) x) ++ mid ++ b) with ((a ++ m1) ++ old ++ b).
    2:{ rewrite <- !app_assoc. f_equal. rewrite app_assoc, app_nil_r in Em.
        rewrite !app_assoc. by rewrite Em, <- app_assoc. }
    rewrite store_int_mid; [|done|rewrite zlen_app; lia|done]. cbn [fmap option_fmap option_map mbind option_bind].
    destruct (IH (set_contents si ((a ++ m1) ++ le_bytes (Z.to_nat new) x ++ b)) m1) as (slot & Hs & Hz);
      [lia|done| | |].
    + simpl. rewrite (drop_S _ _ _ Hx), pack_cons. unfold b. by rewrite <- !app_assoc.
    + rewrite zlen_app. lia.
    + exists slot. by rewrite Hs.
Qed.

(** A value that needs a wider encoding lies outside the range of every element. *)
Lemma wider_outside w l v : enc_ok w -> srange 64 v -> w < _intsetValueEncoding v ->
  Forall (srange (8 * w)) l ->
  if v <? 0 then split_at v l [] l /\ ~ In v l else split_at v l l [] /\ ~ In v l.
Proof.
  intros Hw Hv Hlt Hf.
  assert (Hnv : ~ srange (8 * w) v) by (rewrite <- valueEncoding_fits by done; lia).
  rewrite List.Forall_forall in Hf. unfold split_at.
  assert (0 < 2 ^ (8 * w - 1)) by (destruct Hw as [->|[->| ->]]; lia).
  assert (Hni : ~ In v l) by (intros Hi; auto).
  destruct (Z.ltb_spec v 0); (split; [split; [by rewrite ?app_nil_r|split]|done]);
    rewrite List.Forall_forall; try done;
    intros x Hx; specialize (Hf x Hx); unfold srange in *; lia.
Qed.

(** Bumping the length of a buffer that holds the packed insertion gives the new set. *)
Lemma repr_inserted si l v lo hi :
  split_at v l lo hi -> ~ In v l -> StronglySorted Z.lt l -> zlen l + 1 < INTSET_MAX_LEN ->
  enc_ok (is_encoding si) -> Forall (srange (8 * is_encoding si)) l -> srange (8 * is_encoding si) v ->
  is_length si = zlen l -> is_contents si = pack (is_encoding si) (lo ++ v :: hi) ->
  repr (incr_length si) (sinsert v l).
Proof.
  intros Hsp Hni Hs Hb He Hf Hv Hl Hc. pose proof (zlen_nonneg l).
  pose proof (sorted_insert _ _ _ _ Hsp Hni Hs) as Hs'. rewrite (sinsert_split _ _ _ _ Hsp Hni).
  destruct Hsp as (-> & _ & _). unfold INTSET_MAX_LEN in *.
  apply Forall_app in Hf as [? ?]. rewrite zlen_app in *.
  split; cbn; try done.
  - rewrite Hl, zlen_app, zlen_cons, (uwrap_small 32) by (unfold urange; lia). lia.
  - by apply Forall_app_2; [|constructor].
  - rewrite zlen_app, zlen_cons. unfold INTSET_MAX_LEN. lia.
Qed.

(** The grown buffer before the loop: the old elements, the gap and, when appending, the slot
    after it. *)
Lemma upgrade_layout cur new l p :
  enc_ok cur -> enc_ok new -> cur <= new -> p = 0 \/ p = 1 ->
  exists mid post, zresize (pack cur l) ((zlen l + 1) * new) = pack cur l ++ mid ++ post /\
    zlen (pack cur l ++ mid) = new * (zlen l + p) /\ zlen post = new * (1 - p).
Proof.
  intros Hc Hn Hle Hp. pose proof (enc_pos _ Hc). pose proof (enc_pos _ Hn). pose proof (zlen_nonneg l).
  destruct (zresize_grow (pack cur l) ((zlen l + 1) * new)) as (pad & -> & Hpad);
    [rewrite zlen_pack by done; nia|]. rewrite zlen_pack in Hpad by done.
  destruct (zsplit3 pad 0 ((new - cur) * zlen l + new * p)) as (p0 & mid & post & E & E0 & E1); [nia..|].
  apply zlen_0_nil in E0 as ->. simpl in E. subst pad.
  exists mid, post. rewrite zlen_app in Hpad. rewrite zlen_app, zlen_pack by done.
  split; [done|]. split; nia.
Qed.

Lemma intsetUpgradeAndAdd_repr si l v :
  repr si l -> srange 64 v -> is_encoding si < _intsetValueEncoding v -> zlen l + 1 < INTSET_MAX_LEN ->
  exists si', intsetUpgradeAndAdd si v = Some si' /\ repr si' (sinsert v l).
Proof.
  intros Hr Hv Hlt Hb. pose proof (wider_outside _ _ _ (repr_enc _ _ Hr) Hv Hlt (repr_fit _ _ Hr)) as Hout.
  destruct Hr as [He Hl Hf Hc Hs _]. unfold INTSET_MAX_LEN in Hb.
  set (cur := is_encoding si) in *. set (new := _intsetValueEncoding v) in *.
  assert (Hn : enc_ok new) by apply valueEncoding_ok.
  assert (Hfit : srange (8 * new) v) by (by apply valueEncoding_fits).
  assert (Hf' : Forall (srange (8 * new)) l).
  { eapply Forall_impl; [|exact Hf]. intros ?. apply srange_mono; try done. lia. }
  pose proof (enc_pos _ He). pose proof (enc_pos _ Hn). pose proof (zlen_nonneg l).
  unfold intsetUpgradeAndAdd. fold cur new. rewrite Hl, Hc.
  rewrite (uwrap_small 8 cur) by (unfold urange; lia).
  rewrite (swrap_small 32 (zlen l)) by (unfold srange; lia).
  unfold intsetResize. cbn [is_encoding is_length is_contents set_contents].
  rewrite resize_size by (done || unfold INTSET_MAX_LEN; lia).
  set (p := if v <? 0 then 1 else 0) in *.
  assert (Hp : p = 0 \/ p = 1) by (unfold p; destruct (v <? 0); auto).
  destruct (upgrade_layout cur new l p) as (mid & post & -> & Hmid & Hpost); [done|done|lia|done|].
  destruct (upgrade_loop_spec cur new l p post He Hn ltac:(lia) Hf Hp Hpost (Z.to_nat (zlen l))
    (set_contents (mkIntset new (zlen l) (pack cur l)) (pack cur l ++ mid ++ post)) mid)
    as (slot & -> & Hslot).
  { by rewrite to_nat_zlen. }
  { done. }
  { rewrite to_nat_zlen, take_ge, drop_ge by lia. done. }
  { rewrite to_nat_zlen, take_ge by lia. exact Hmid. }
  cbn [mbind option_bind is_length set_contents]. unfold p in *. clear p Hp.
  destruct (Z.ltb_spec v 0) as [Hneg|Hpos]; cbn [Z.eqb]; destruct Hout as [Hsp Hni].
  - assert (post = []) as -> by (apply zlen_0_nil; lia). change 0 with (s32 (zlen (@nil Z))).
    rewrite (set_slot _ [] slot l) by (cbn; rewrite ?app_nil_r; done || lia).
    eexists. split; [done|]. by apply (repr_inserted _ _ _ [] l).
  - assert (slot = []) as -> by (apply zlen_0_nil; lia).
    rewrite (set_slot _ l post []) by (cbn; unfold INTSET_MAX_LEN; rewrite ?app_nil_r; done || lia).
    eexists. split; [done|]. by apply (repr_inserted _ _ _ l []).
Qed.

(** ** The operations implement the sorted-list specification *)

Lemma intsetNew_repr : repr intsetNew [].
Proof.
  split; try done; unfold enc_ok, INTSET_ENC_INT16; cbn; auto; try constructor.
Qed.

Lemma sinsert_In v l x : In x (sinsert v l) <-> x = v \/ In x l.
Proof.
  induction l as [|y l IH]; simpl; [naive_solver|].
  destruct (Z.ltb_spec v y); [simpl; naive_solver|].
  destruct (Z.eqb_spec v y) as [->|]; simpl; naive_solver.
Qed.

Lemma sremove_In v l x : In x (sremove v l) <-> x <> v /\ In x l.
Proof.
  unfold sremove. rewrite filter_In, negb_true_iff, Z.eqb_neq. naive_solver.
Qed.

Lemma intsetAdd_repr si l v : repr si l -> srange 64 v -> zlen l + 1 < INTSET_MAX_LEN ->
  exists si', intsetAdd si v = Some (si', negb (member v l)) /\ repr si' (sinsert v l).
Proof.
  intros Hr Hv Hb. unfold intsetAdd. rewrite Z.gtb_ltb.
  destruct (Z.ltb_spec (is_encoding si) (_intsetValueEncoding v)) as [Hlt|Hge].
  { destruct (intsetUpgradeAndAdd_repr _ _ _ Hr Hv Hlt Hb) as (si' & -> & Hr'). exists si'.
    pose proof (wider_outside _ _ _ (repr_enc _ _ Hr) Hv Hlt (repr_fit _ _ Hr)) as Hout.
    rewrite (proj2 (member_false v l)); [done|]. destruct (v <? 0); apply Hout. }
  apply valueEncoding_fits in Hge; [|apply Hr|done].
  destruct (intsetSearch_repr _ _ v Hr) as (pos & -> & Hpos). cbn [mbind option_bind].
  destruct (search_pos_split _ _ _ Hpos) as (lo & hi & Hsp & <-).
  destruct Hr as [He Hl Hf Hc Hs _].
  destruct (member v l) eqn:Em.
  { apply member_In in Em. exists si. rewrite (sinsert_member _ _ _ _ Hsp Em Hs). split; [done|].
    split; try done. lia. }
  apply member_false in Em. set (w := is_encoding si) in *.
  assert (Hlb : zlen l = zlen lo + zlen hi) by (destruct Hsp as (-> & _); by rewrite zlen_app).
  pose proof (zlen_nonneg lo). pose proof (zlen_nonneg hi).
  unfold intsetResize. fold w. rewrite Hl, resize_size, Hc by (done || lia).
  pose proof (enc_pos _ He).
  destruct (zresize_grow (pack w l) ((zlen l + 1) * w)) as (pad & -> & Hpad);
    [rewrite zlen_pack by done; lia|]. rewrite zlen_pack in Hpad by done.
  set (si1 := set_contents si (pack w l ++ pad)).
  assert (Hmv : exists slot, zlen slot = w /\
    (if zlen lo <? is_length si1 then intsetMoveTail si1 (zlen lo) (u32 (zlen lo + 1)) else Some si1)
    = Some (set_contents si (pack w lo ++ slot ++ pack w hi))).
  { destruct Hsp as (-> & _ & _). change (is_length si1) with (is_length si). rewrite Hl.
    destruct (Z.ltb_spec (zlen lo) (zlen (lo ++ hi))).
    - destruct (moveTail_up si1 lo hi pad) as (slot & Hz & ->); try done; [lia| |]; [|by exists slot].
      change (is_encoding si1) with w. lia.
    - assert (hi = []) as -> by (apply zlen_0_nil; lia). exists pad. split; [lia|].
      unfold si1. by rewrite !app_nil_r. }
  destruct Hmv as (slot & Hz & ->). cbn [mbind option_bind].
  rewrite (set_slot _ lo slot hi) by (done || (cbn; lia)). cbn [mbind option_bind].
  eexists. split; [done|]. by apply (repr_inserted _ _ _ lo hi).
Qed.

Lemma intsetRemove_repr si l v : repr si l -> srange 64 v ->
  exists si', intsetRemove si v = Some (si', member v l) /\ repr si' (sremove v l).
Proof.
  intros Hr Hv. unfold intsetRemove.
  destruct (Z.leb_spec (_intsetValueEncoding v) (is_encoding si)) as [Hle|Hgt].
  2:{ exists si. pose proof (wider_outside _ _ _ (repr_enc _ _ Hr) Hv Hgt (repr_fit _ _ Hr)) as Hout.
      assert (Hni : ~ In v l) by (destruct (v <? 0); apply Hout).
      rewrite (sremove_absent _ _ Hni). by rewrite (proj2 (member_false v l) Hni). }
  destruct (intsetSearch_repr _ _ v Hr) as (pos & -> & Hpos). cbn [mbind option_bind].
  destruct (member v l) eqn:Em.
  2:{ exists si. apply member_false in Em. by rewrite (sremove_absent _ _ Em). }
  apply member_In in Em. destruct (search_pos_split _ _ _ Hpos) as (lo & hi & Hsp & <-).
  destruct Hr as [He Hl Hf Hc Hs Hb].
  destruct (sremove_split _ _ _ _ Hsp Em Hs) as (hi' & -> & Erem).
  destruct Hsp as (-> & _ & _). set (w := is_encoding si) in *.
  rewrite zlen_app, zlen_cons in Hb, Hl. pose proof (zlen_nonneg lo). pose proof (zlen_nonneg hi').
  unfold INTSET_MAX_LEN in Hb. rewrite Hl.
  replace (zlen lo + (1 + zlen hi') - 1) with (zlen lo + zlen hi') by lia.
  rewrite (uwrap_small 32 (zlen lo + zlen hi')) by (unfold urange; lia).
  assert (Hmv : exists junk,
    (if zlen lo <? zlen lo + zlen hi' then intsetMoveTail si (u32 (zlen lo + 1)) (zlen lo) else Some si)
    = Some (set_contents si (pack w (lo ++ hi') ++ junk))).
  { destruct (Z.ltb_spec (zlen lo) (zlen lo + zlen hi')).
    - apply (moveTail_down si lo v hi'); try done; rewrite zlen_app, zlen_cons; unfold INTSET_MAX_LEN; lia.
    - assert (hi' = []) as -> by (apply zlen_0_nil; lia). exists (le_bytes (Z.to_nat w) v).
      rewrite pack_app, pack_cons in Hc. unfold pack in Hc at 2. simpl in Hc.
      rewrite app_nil_r in *. rewrite <- Hc. by destruct si. }
  destruct Hmv as (junk & ->). cbn [mbind option_bind]. eexists. split; [done|]. rewrite Erem.
  assert (Hlen : u32 ((zlen lo + zlen hi') * w) = zlen (pack w (lo ++ hi'))).
  { rewrite zlen_pack, zlen_app by done. rewrite uwrap_small; [lia|].
    unfold urange. destruct He as [->|[->| ->]]; lia. }
  apply sorted_app_inv in Hs as (Hs1 & Hs2 & Hs3). inversion Hs2; subst.
  apply Forall_app in Hf as [Hf1 Hf2]. inversion Hf2; subst.
  split; cbn; fold w; try done.
  - by rewrite zlen_app.
  - by apply Forall_app_2.
  - rewrite Hlen. by apply zresize_shrink.
  - apply sorted_app; try done. intros x y Hx Hy. apply Hs3; [done|by right].
  - rewrite zlen_app. unfold INTSET_MAX_LEN. lia.
Qed.

Lemma intsetFind_repr si l v : repr si l -> srange 64 v -> intsetFind si v = Some (member v l).
Proof.
  intros Hr Hv. unfold intsetFind.
  destruct (Z.leb_spec (_intsetValueEncoding v) (is_encoding si)) as [Hle|Hgt].
  - by destruct (intsetSearch_repr _ _ v Hr) as (pos & -> & _).
  - pose proof (wider_outside _ _ _ (repr_enc _ _ Hr) Hv Hgt (repr_fit _ _ Hr)) as Hout.
    rewrite (proj2 (member_false v l)); [done|]. destruct (v <? 0); apply Hout.
Qed.

(** ** Refinement: an intset is a finite set of 64-bit integers *)

Inductive iop := IAdd (v : Z) | IRemove (v : Z) | IFind (v : Z).

Definition iop_value (o : iop) : Z := match o with IAdd v | IRemove v | IFind v => v end.

(** One call, with the value it reports. *)
Definition iop_exec (o : iop) (si : intset) : option (intset * bool) :=
  match o with
  | IAdd v => intsetAdd si v
  | IRemove v => intsetRemove si v
  | IFind v => b ← intsetFind si v; Some (si, b)
  end.

Definition iop_spec (o : iop) (s : gset Z) : gset Z * bool :=
  match o with
  | IAdd v => ({[v]} ∪ s, bool_decide (v ∉ s))
  | IRemove v => (s ∖ {[v]}, bool_decide (v ∈ s))
  | IFind v => (s, bool_decide (v ∈ s))
  end.

Fixpoint iop_run (os : list iop) (si : intset) : option (intset * list bool) :=
  match os with
  | [] => Some (si, [])
  | o :: os =>
      r ← iop_exec o si;
      r' ← iop_run os r.1;
      Some (r'.1, r.2 :: r'.2)
  end.

Fixpoint iop_run_spec (os : list iop) (s : gset Z) : gset Z * list bool :=
  match os with
  | [] => (s, [])
  | o :: os =>
      let r := iop_spec o s in
      let r' := iop_run_spec os r.1 in
      (r'.1, r.2 :: r'.2)
  end.

Lemma member_decide v l (s : gset Z) : s = list_to_set l -> member v l = bool_decide (v ∈ s).
Proof.
  intros ->. destruct (member v l) eqn:E; symmetry.
  - apply bool_decide_eq_true. apply elem_of_list_to_set, list_elem_of_In. by apply member_In.
  - apply bool_decide_eq_false. rewrite elem_of_list_to_set, list_elem_of_In. by apply member_false.
Qed.

Lemma zlen_sremove v l : zlen (sremove v l) <= zlen l.
Proof.
  unfold sremove, zlen. induction l as [|x l IH]; simpl; [lia|]. destruct (negb (x =? v)); simpl; lia.
Qed.

Lemma zlen_sinsert v l : zlen (sinsert v l) <= zlen l + 1.
Proof.
  induction l as [|x l IH]; simpl; [zlia|]. repeat case_match; autorewrite with zlen in *; lia.
Qed.

(** One operation is simulated, and at most one element is gained. *)
Lemma iop_exec_sim o si l : repr si l -> srange 64 (iop_value o) -> zlen l + 1 < INTSET_MAX_LEN ->
  exists si' l', iop_exec o si = Some (si', (iop_spec o (list_to_set l)).2) /\ repr si' l' /\
    list_to_set l' = (iop_spec o (list_to_set l)).1 /\ zlen l' <= zlen l + 1.
Proof.
  intros Hr Hv Hb. destruct o as [v|v|v]; simpl in *.
  - destruct (intsetAdd_repr _ _ _ Hr Hv Hb) as (si' & -> & Hr'). exists si', (sinsert v l).
    rewrite (member_decide v l (list_to_set l) eq_refl), bool_decide_not.
    split; [done|]. split; [done|]. split; [|apply zlen_sinsert].
    apply set_eq. intros x. rewrite elem_of_union, !elem_of_list_to_set, !list_elem_of_In, sinsert_In.
    set_solver.
  - destruct (intsetRemove_repr _ _ _ Hr Hv) as (si' & -> & Hr'). exists si', (sremove v l).
    rewrite (member_decide v l (list_to_set l) eq_refl).
    split; [done|]. split; [done|]. split; [|pose proof (zlen_sremove v l); lia].
    apply set_eq. intros x. rewrite elem_of_difference, !elem_of_list_to_set, !list_elem_of_In, sremove_In.
    set_solver.
  - rewrite (intsetFind_repr _ _ _ Hr Hv). simpl. exists si, l.
    rewrite (member_decide v l (list_to_set l) eq_refl). repeat (split; [done|]). lia.
Qed.

Lemma iop_run_sim os : forall si l, repr si l -> Forall (fun o => srange 64 (iop_value o)) os ->
  zlen l + zlen os < INTSET_MAX_LEN ->
  exists si' l', iop_run os si = Some (si', (iop_run_spec os (list_to_set l)).2) /\ repr si' l' /\
    list_to_set l' = (iop_run_spec os (list_to_set l)).1.
Proof.
  induction os as [|o os IH]; intros si l Hr Hf Hb; simpl; [by exists si, l|].
  inversion Hf as [|?? Ho Hf']; subst. rewrite zlen_cons in Hb. pose proof (zlen_nonneg os).
  destruct (iop_exec_sim o si l Hr Ho) as (si1 & l1 & -> & Hr1 & Hs1 & Hz1); [lia|].
  cbn [mbind option_bind fst snd]. rewrite <- Hs1.
  destruct (IH si1 l1 Hr1 Hf') as (si2 & l2 & -> & Hr2 & Hs2); [lia|].
  exists si2, l2. done.
Qed.

(** C30. Refinement: starting from [intsetNew], any sequence of fewer than 2^28 insertions,
    removals and lookups of 64-bit values runs to completion without leaving its buffer, reports
    exactly what the same operations on a mathematical finite set report, and leaves a sorted,
    duplicate-free packed array holding that set. *)
Theorem intset_refines_set os :
  Forall (fun o => srange 64 (iop_value o)) os -> zlen os < INTSET_MAX_LEN ->
  exists si l, iop_run os intsetNew = Some (si, (iop_run_spec os ∅).2) /\
    repr si l /\ list_to_set l = (iop_run_spec os ∅).1.
Proof. intros Hf Hb. by apply (iop_run_sim os intsetNew [] intsetNew_repr Hf). Qed.

Definition iop_demo : list iop :=
  [IAdd 5; IAdd (-70000); IAdd 5; IAdd 3000000000; IFind (-70000); IRemove 5; IFind 5].

Lemma intset_refines_set_witness :
  exists si l, iop_run iop_demo intsetNew = Some (si, [true; true; false; true; true; true; false]) /\
    repr si l /\ list_to_set l = (iop_run_spec iop_demo ∅).1.
Proof.
  assert (E : (iop_run_spec iop_demo ∅).2 = [true; true; false; true; true; true; false])
    by (vm_compute; reflexivity).
  rewrite <- E. apply intset_refines_set.
  - unfold iop_demo, srange. repeat constructor; simpl; lia.
  - vm_compute. reflexivity.
Defined.

(** [intsetSearch] on a well-formed set terminates within its loop bound and returns whether
    the value is present together with the index before which all elements are smaller and from
    which no element is. *)
Theorem intsetSearch_correct si l v : repr si l ->
  exists lo hi, intsetSearch si v = Some (member v l, zlen lo) /\ l = lo ++ hi /\
    Forall (fun x => x < v) lo /\ Forall (fun x => v <= x) hi.
Proof.
  intros Hr. destruct (intsetSearch_repr si l v Hr) as (pos & -> & Hp).
  destruct (search_pos_split _ _ _ Hp) as (lo & hi & (-> & H1 & H2) & <-). by exists lo, hi.
Qed.

Definition intset_demo : intset := mkIntset 2 3 [1; 0; 4; 0; 9; 0].

Lemma intset_demo_repr : repr intset_demo [1; 4; 9].
Proof.
  split; try done; unfold enc_ok; cbn; auto; repeat constructor; unfold srange; cbn; lia.
Qed.

Lemma intsetSearch_correct_witness :
  exists lo hi, intsetSearch intset_demo 5 = Some (false, zlen lo) /\ [1; 4; 9] = lo ++ hi /\
    Forall (fun x => x < 5) lo /\ Forall (fun x => 5 <= x) hi.
Proof. apply (intsetSearch_correct intset_demo [1; 4; 9] 5 intset_demo_repr). Defined.

(** Adding a value too wide for the current encoding converts every element: the new buffer
    is the packed array, at the width the value needs, of the old elements and the value, which
    is first or last. *)
Theorem intset_upgrade_correct si l v :
  repr si l -> srange 64 v -> is_encoding si < _intsetValueEncoding v -> zlen l + 1 < INTSET_MAX_LEN ->
  exists si', intsetAdd si v = Some (si', true) /\ is_encoding si' = _intsetValueEncoding v /\
    is_contents si' = pack (_intsetValueEncoding v) (if v <? 0 then v :: l else l ++ [v]).
Proof.
  intros Hr Hv Hlt Hb. pose proof (wider_outside _ _ _ (repr_enc _ _ Hr) Hv Hlt (repr_fit _ _ Hr)) as Hout.
  destruct (intsetAdd_repr _ _ _ Hr Hv Hb) as (si' & E & Hr'). exists si'.
  assert (Hm : member v l = false) by (apply member_false; destruct (v <? 0); apply Hout).
  rewrite Hm in E. split; [done|].
  assert (He : is_encoding si' = _intsetValueEncoding v).
  { unfold intsetAdd in E. rewrite Z.gtb_ltb, (proj2 (Z.ltb_lt _ _)) in E by lia.
    apply bind_Some_inv in E as (x & E & [= <-]). unfold intsetUpgradeAndAdd in E.
    apply bind_Some_inv in E as (y & Eloop & E). apply bind_Some_inv in E as (z & Eset & [= <-]).
    simpl. assert (Hset : forall a p b c, _intsetSet a p b = Some c -> is_encoding c = is_encoding a).
    { intros a p b c. unfold _intsetSet. intros H. repeat case_match; apply fmap_Some in H as (? & _ & ->); done. }
    assert (Hup : forall n a p b c, upgrade_loop n a p b = Some c -> is_encoding c = is_encoding a).
    { induction n as [|n IH]; intros a p b c Hc; simpl in Hc; [by simplify_eq|].
      apply bind_Some_inv in Hc as (? & _ & Hc). apply bind_Some_inv in Hc as (d & Hd & Hc).
      rewrite (IH _ _ _ _ Hc). by eapply Hset. }
    apply Hup in Eloop. destruct (_ =? 0); apply Hset in Eset; by rewrite Eset, Eloop. }
  split; [done|]. rewrite (repr_bytes _ _ Hr'), He. f_equal.
  destruct (v <? 0); destruct Hout as [Hsp Hni]; by rewrite (sinsert_split _ _ _ _ Hsp Hni).
Qed.

Lemma intset_upgrade_correct_witness :
  exists si', intsetAdd intset_demo (-40000) = Some (si', true) /\ is_encoding si' = 4 /\
    is_contents si' = pack 4 [-40000; 1; 4; 9].
Proof.
  apply (intset_upgrade_correct intset_demo [1; 4; 9] (-40000) intset_demo_repr);
    vm_compute; try split; congruence.
Defined.

(** Positional access: [intsetGet] returns the element of that rank and fails exactly past
    the end, [intsetRandom] returns a member whatever [rand()] yields, and [intsetBlobLen] is the
    size of the header and the buffer. *)
Theorem intset_access_correct si l : repr si l ->
  (forall pos, 0 <= pos < 2 ^ 31 -> intsetGet si pos = Some (zget l pos)) /\
  (forall r, l <> [] -> exists x, intsetRandom r si = Some x /\ In x l) /\
  intsetBlobLen si = sizeof_intset + zlen (is_contents si) /\ intsetLen si = zlen l.
Proof.
  intros Hr. pose proof (repr_bound _ _ Hr) as Hb. unfold INTSET_MAX_LEN in Hb.
  pose proof (zlen_nonneg l). unfold intsetGet, intsetRandom, intsetBlobLen, intsetLen.
  rewrite (repr_len _ _ Hr). split; [|split; [|split; [|done]]].
  - intros pos Hp. destruct (Z.ltb_spec pos (zlen l)).
    + rewrite swrap_small by (unfold srange; lia).
      destruct (zget_in_range l pos) as [x Hx]; [lia|]. by rewrite (get_repr _ _ _ _ Hr Hx), Hx.
    + by rewrite zget_None by lia.
  - intros r Hne. destruct (Z.eqb_spec (zlen l) 0) as [E|]; [by apply zlen_0_nil in E|].
    assert (0 <= u32 r mod zlen l < zlen l) by (apply Z.mod_pos_bound; lia).
    rewrite swrap_small by (unfold srange; lia).
    destruct (zget_in_range l (u32 r mod zlen l)) as [x Hx]; [lia|].
    exists x. by rewrite (get_repr _ _ _ _ Hr Hx); split; [|eapply zget_In].
  - rewrite (repr_bytes _ _ Hr), zlen_pack by apply Hr. pose proof (repr_enc _ _ Hr) as He.
    unfold sizeof_intset.
    rewrite (uwrap_small 32), (uwrap_small 64) by (unfold urange; destruct He as [->|[->| ->]]; lia). lia.
Qed.

Lemma intset_access_correct_witness :
  (forall pos, 0 <= pos < 2 ^ 31 -> intsetGet intset_demo pos = Some (zget [1; 4; 9] pos)) /\
  (forall r, [1; 4; 9] <> [] -> exists x, intsetRandom r intset_demo = Some x /\ In x [1; 4; 9]) /\
  intsetBlobLen intset_demo = sizeof_intset + zlen (is_contents intset_demo) /\
  intsetLen intset_demo = zlen [1; 4; 9].
Proof. apply (intset_access_correct intset_demo [1; 4; 9] intset_demo_repr). Defined.
