(* ===== verification/Listpack.v ===== *)
(** Listpacks (listpack.c): a sequence of byte strings packed into one allocation.

    A listpack is a buffer: a 4-byte total length, a 2-byte element count (65535 when unknown),
    the entries and a final byte 255.  An entry is an encoded element (an integer in one of six
    sizes, or a string in one of three) followed by its length written so that it can be read
    backwards.  Pointers into the listpack are offsets; every access is bounds checked.  [zrealloc]
    never returns NULL (it aborts the process), so the only NULL result of [lpInsert] is the size
    limit. *)

From Stdlib Require Import String.
From S2P Require Import Prelude Util.
#[local] Open Scope list_scope.
#[local] Open Scope Z_scope.

(** * The code *)

Definition LP_HDR_SIZE : Z := 6.
Definition LP_HDR_NUMELE_UNKNOWN : Z := 65535.
Definition LP_ENCODING_INT : Z := 0.
Definition LP_ENCODING_STRING : Z := 1.
Definition LP_EOF : Z := 0xFF.
Definition LP_INTBUF_SIZE : Z := 21.
Definition LP_BEFORE : Z := 0.
Definition LP_AFTER : Z := 1.
Definition LP_REPLACE : Z := 2.
Definition UINT32_MAX : Z := 2 ^ 32 - 1.

Definition LP_ENCODING_IS_7BIT_UINT (b : Z) : bool := Z.land b 0x80 =? 0.
Definition LP_ENCODING_IS_6BIT_STR (b : Z) : bool := Z.land b 0xC0 =? 0x80.
Definition LP_ENCODING_IS_13BIT_INT (b : Z) : bool := Z.land b 0xE0 =? 0xC0.
Definition LP_ENCODING_IS_12BIT_STR (b : Z) : bool := Z.land b 0xF0 =? 0xE0.
Definition LP_ENCODING_IS_16BIT_INT (b : Z) : bool := Z.land b 0xFF =? 0xF1.
Definition LP_ENCODING_IS_24BIT_INT (b : Z) : bool := Z.land b 0xFF =? 0xF2.
Definition LP_ENCODING_IS_32BIT_INT (b : Z) : bool := Z.land b 0xFF =? 0xF3.
Definition LP_ENCODING_IS_64BIT_INT (b : Z) : bool := Z.land b 0xFF =? 0xF4.
Definition LP_ENCODING_IS_32BIT_STR (b : Z) : bool := Z.land b 0xFF =? 0xF0.

(** [p[0] | p[1]<<8 | ...]: the [n] bytes at offset [i], low byte first. *)
Fixpoint lp_load (lp : bytes) (i : Z) (n : nat) (acc shift : Z) : option Z :=
  match n with
  | O => Some acc
  | S n => b ← zget lp i; lp_load lp (i + 1) n (Z.lor acc (Z.shiftl b shift)) (shift + 8)
  end.

(** [v&0xff, (v>>8)&0xff, ...]. *)
Fixpoint lp_store (v : Z) (n : nat) (shift : Z) : bytes :=
  match n with
  | O => []
  | S n => Z.land (Z.shiftr v shift) 0xff :: lp_store v n (shift + 8)
  end.

Definition LP_ENCODING_6BIT_STR_LEN (lp : bytes) (p : Z) : option Z :=
  b ← zget lp p; Some (Z.land b 0x3F).
Definition LP_ENCODING_12BIT_STR_LEN (lp : bytes) (p : Z) : option Z :=
  b ← zget lp p; c ← zget lp (p + 1); Some (Z.lor (Z.shiftl (Z.land b 0xF) 8) c).
Definition LP_ENCODING_32BIT_STR_LEN (lp : bytes) (p : Z) : option Z := lp_load lp (p + 1) 4 0 0.

Definition lpGetTotalBytes (lp : bytes) : option Z := lp_load lp 0 4 0 0.
Definition lpGetNumElements (lp : bytes) : option Z := lp_load lp 4 2 0 0.
Definition lpSetTotalBytes (lp : bytes) (v : Z) : option bytes := zput lp 0 (lp_store v 4 0).
Definition lpSetNumElements (lp : bytes) (v : Z) : option bytes := zput lp 4 (lp_store v 2 0).

(** The body of util.c's [string2ll]; the loop over the digits is shared with it. *)
Definition lpStringToInt64 (s : bytes) : option Z :=
  match s with
  | [] => None
  | c :: rest =>
      let slen1 := match rest with [] => true | _ => false end in
      if slen1 && (c =? ch_0) then Some 0
      else
        let '(negative, p) := if c =? ch_minus then (true, rest) else (false, s) in
        match p with
        | [] => None
        | d :: p =>
            if (ch_1 <=? d) && (d <=? ch_9) then
              r ← string2ll_digits p (d - ch_0);
              let '(v, p) := r in
              match p with
              | _ :: _ => None
              | [] =>
                  if negative : bool then
                    if v >? u64 (- (INT64_MIN + 1)) + 1 then None else Some (s64 (u64 (- v)))
                  else if v >? INT64_MAX then None else Some v
              end
            else if (d =? ch_0) && slen1 then Some 0
            else None
        end
  end.

Definition lpNew : option bytes :=
  lp ← lpSetTotalBytes (replicate 7 junk) (LP_HDR_SIZE + 1);
  lp ← lpSetNumElements lp 0;
  zput lp LP_HDR_SIZE [LP_EOF].

(** The encoding type, the bytes stored in [intenc] and [*enclen].  [size] is a [uint32_t], so
    the sums of the string case wrap. *)
Definition lpEncodeGetType (ele : bytes) : Z * bytes * Z :=
  let size := zlen ele in
  match lpStringToInt64 ele with
  | Some v =>
      let '(intenc, enclen) :=
        if (v >=? 0) && (v <=? 127) then ([u8 v], 1)
        else if (v >=? -4096) && (v <=? 4095) then
          let v := if v <? 0 then Z.shiftl 1 13 + v else v in
          ([u8 (Z.lor (Z.shiftr v 8) 0xC0); Z.land v 0xff], 2)
        else if (v >=? -32768) && (v <=? 32767) then
          let v := if v <? 0 then Z.shiftl 1 16 + v else v in
          ([0xF1; Z.land v 0xff; u8 (Z.shiftr v 8)], 3)
        else if (v >=? -8388608) && (v <=? 8388607) then
          let v := if v <? 0 then Z.shiftl 1 24 + v else v in
          ([0xF2; Z.land v 0xff; Z.land (Z.shiftr v 8) 0xff; u8 (Z.shiftr v 16)], 4)
        else if (v >=? -2147483648) && (v <=? 2147483647) then
          let v := if v <? 0 then Z.shiftl 1 32 + v else v in
          ([0xF3; Z.land v 0xff; Z.land (Z.shiftr v 8) 0xff; Z.land (Z.shiftr v 16) 0xff;
            u8 (Z.shiftr v 24)], 5)
        else
          let uv := u64 v in
          (0xF4 :: lp_store uv 7 0 ++ [u8 (Z.shiftr uv 56)], 9) in
      (LP_ENCODING_INT, intenc, enclen)
  | None =>
      (LP_ENCODING_STRING, [],
       if size <? 64 then u32 (1 + size) else if size <? 4096 then u32 (2 + size) else u32 (5 + size))
  end.

(** The number of bytes and the bytes stored when [buf] is not NULL. *)
Definition lpEncodeBacklen (l : Z) : Z * bytes :=
  let cont x := Z.lor (Z.land x 127) 128 in
  if l <=? 127 then (1, [u8 l])
  else if l <? 16383 then (2, [u8 (Z.shiftr l 7); cont l])
  else if l <? 2097151 then (3, [u8 (Z.shiftr l 14); cont (Z.shiftr l 7); cont l])
  else if l <? 268435455 then
    (4, [u8 (Z.shiftr l 21); cont (Z.shiftr l 14); cont (Z.shiftr l 7); cont l])
  else
    (5, [u8 (Z.shiftr l 28); cont (Z.shiftr l 21); cont (Z.shiftr l 14); cont (Z.shiftr l 7); cont l]).

(** The do-while loop leaves with [shift > 28] after at most five bytes. *)
Fixpoint lpDecodeBacklen_loop (fuel : nat) (lp : bytes) (p val shift : Z) : option Z :=
  match fuel with
  | O => None
  | S fuel =>
      b ← zget lp p;
      let val := Z.lor val (u64 (Z.shiftl (Z.land b 127) shift)) in
      if Z.land b 128 =? 0 then Some val
      else
        let shift := shift + 7 in
        if shift >? 28 then Some UINT64_MAX
        else lpDecodeBacklen_loop fuel lp (p - 1) val shift
  end.

Definition lpDecodeBacklen (lp : bytes) (p : Z) : option Z := lpDecodeBacklen_loop 5 lp p 0 0.

Definition lpEncodeString (lp : bytes) (dst : Z) (s : bytes) : option bytes :=
  let len := zlen s in
  if len <? 64 then
    lp ← zput lp dst [u8 (Z.lor len 0x80)];
    zput lp (dst + 1) s
  else if len <? 4096 then
    lp ← zput lp dst [u8 (Z.lor (Z.shiftr len 8) 0xE0); Z.land len 0xff];
    zput lp (dst + 2) s
  else
    lp ← zput lp dst (0xF0 :: lp_store len 4 0);
    zput lp (dst + 5) s.

Definition lpCurrentEncodedSize (lp : bytes) (p : Z) : option Z :=
  b ← zget lp p;
  if LP_ENCODING_IS_7BIT_UINT b then Some 1
  else if LP_ENCODING_IS_6BIT_STR b then n ← LP_ENCODING_6BIT_STR_LEN lp p; Some (u32 (1 + n))
  else if LP_ENCODING_IS_13BIT_INT b then Some 2
  else if LP_ENCODING_IS_16BIT_INT b then Some 3
  else if LP_ENCODING_IS_24BIT_INT b then Some 4
  else if LP_ENCODING_IS_32BIT_INT b then Some 5
  else if LP_ENCODING_IS_64BIT_INT b then Some 9
  else if LP_ENCODING_IS_12BIT_STR b then n ← LP_ENCODING_12BIT_STR_LEN lp p; Some (u32 (2 + n))
  else if LP_ENCODING_IS_32BIT_STR b then n ← LP_ENCODING_32BIT_STR_LEN lp p; Some (u32 (5 + n))
  else if b =? LP_EOF then Some 1
  else Some 0.

Definition lpSkip (lp : bytes) (p : Z) : option Z :=
  entrylen ← lpCurrentEncodedSize lp p;
  Some (p + (entrylen + fst (lpEncodeBacklen entrylen))).

(** Pointer results: [Some None] is NULL. *)
Definition lpNext (lp : bytes) (p : Z) : option (option Z) :=
  p ← lpSkip lp p;
  b ← zget lp p;
  Some (if b =? LP_EOF then None else Some p).

Definition lpPrev (lp : bytes) (p : Z) : option (option Z) :=
  if p =? LP_HDR_SIZE then Some None else
  let p := p - 1 in
  prevlen ← lpDecodeBacklen lp p;
  let prevlen := u64 (prevlen + fst (lpEncodeBacklen prevlen)) in
  Some (Some (p - prevlen + 1)).

Definition lpFirst (lp : bytes) : option (option Z) :=
  b ← zget lp LP_HDR_SIZE;
  Some (if b =? LP_EOF then None else Some LP_HDR_SIZE).

Definition lpLast (lp : bytes) : option (option Z) :=
  n ← lpGetTotalBytes lp;
  lpPrev lp (n - 1).

(** [while(p) { count++; p = lpNext(lp,p); }]: every element takes at least two bytes. *)
Fixpoint lpLength_loop (fuel : nat) (lp : bytes) (p : option Z) (count : Z) : option Z :=
  match p with
  | None => Some count
  | Some p =>
      match fuel with
      | O => None
      | S fuel => q ← lpNext lp p; lpLength_loop fuel lp q (u32 (count + 1))
      end
  end.

(** The listpack (whose header may be updated) and the count. *)
Definition lpLength (lp : bytes) : option (bytes * Z) :=
  numele ← lpGetNumElements lp;
  if negb (numele =? LP_HDR_NUMELE_UNKNOWN) then Some (lp, numele) else
  p ← lpFirst lp;
  count ← lpLength_loop (length lp) lp p 0;
  lp ← (if count <? LP_HDR_NUMELE_UNKNOWN then lpSetNumElements lp count else Some lp);
  Some (lp, count).

(** What [lpGet] hands back: a pointer into the listpack with a length, the text written to
    [intbuf], or NULL with the integer in [*count]. *)
Inductive lpval : Type :=
  | LpPtr (p count : Z)
  | LpBuf (text : bytes) (count : Z)
  | LpInt (count : Z).

(** The part of [lpGet] after the integer was loaded. *)
Definition lpGet_int (intbuf : bool) (uval negstart negmax : Z) : lpval :=
  let val := if uval >=? negstart then s64 (- s64 (u64 (negmax - uval)) - 1) else s64 uval in
  if intbuf then LpBuf (take (Z.to_nat (LP_INTBUF_SIZE - 1)) (decimal val)) (zlen (decimal val))
  else LpInt val.

Definition lpGet (lp : bytes) (p : Z) (intbuf : bool) : option lpval :=
  b ← zget lp p;
  if LP_ENCODING_IS_7BIT_UINT b then Some (lpGet_int intbuf (Z.land b 0x7f) UINT64_MAX 0)
  else if LP_ENCODING_IS_6BIT_STR b then n ← LP_ENCODING_6BIT_STR_LEN lp p; Some (LpPtr (p + 1) n)
  else if LP_ENCODING_IS_13BIT_INT b then
    c ← zget lp (p + 1);
    Some (lpGet_int intbuf (Z.lor (Z.shiftl (Z.land b 0x1f) 8) c) (Z.shiftl 1 12) 8191)
  else if LP_ENCODING_IS_16BIT_INT b then
    u ← lp_load lp (p + 1) 2 0 0; Some (lpGet_int intbuf u (Z.shiftl 1 15) 65535)
  else if LP_ENCODING_IS_24BIT_INT b then
    u ← lp_load lp (p + 1) 3 0 0; Some (lpGet_int intbuf u (Z.shiftl 1 23) (Z.shiftr UINT32_MAX 8))
  else if LP_ENCODING_IS_32BIT_INT b then
    u ← lp_load lp (p + 1) 4 0 0; Some (lpGet_int intbuf u (Z.shiftl 1 31) UINT32_MAX)
  else if LP_ENCODING_IS_64BIT_INT b then
    u ← lp_load lp (p + 1) 8 0 0; Some (lpGet_int intbuf u (Z.shiftl 1 63) UINT64_MAX)
  else if LP_ENCODING_IS_12BIT_STR b then n ← LP_ENCODING_12BIT_STR_LEN lp p; Some (LpPtr (p + 2) n)
  else if LP_ENCODING_IS_32BIT_STR b then n ← LP_ENCODING_32BIT_STR_LEN lp p; Some (LpPtr (p + 5) n)
  else Some (lpGet_int intbuf (12345678900000000 + b) UINT64_MAX 0).

(** NULL, or the new listpack and [*newp]. *)
Inductive lpret : Type :=
  | LpNULL
  | LpOK (lp : bytes) (newp : option Z).

(** [ele = None] is a NULL element (deletion). *)
Definition lpInsert (lp : bytes) (ele : option bytes) (p where_ : Z) : option lpret :=
  let where_ := match ele with None => LP_REPLACE | Some _ => where_ end in
  '(p, where_) ← (if where_ =? LP_AFTER then p ← lpSkip lp p; Some (p, LP_BEFORE) else Some (p, where_));
  let poff := p in
  let '(enctype, intenc, enclen) :=
    match ele with Some e => lpEncodeGetType e | None => (-1, [], 0) end in
  let '(backlen_size, backlen) :=
    match ele with Some _ => lpEncodeBacklen enclen | None => (0, []) end in
  old_listpack_bytes ← lpGetTotalBytes lp;
  replaced_len ← (if where_ =? LP_REPLACE then
                    r ← lpCurrentEncodedSize lp p; Some (u32 (r + fst (lpEncodeBacklen r)))
                  else Some 0);
  let new_listpack_bytes := u64 (old_listpack_bytes + enclen + backlen_size - replaced_len) in
  if new_listpack_bytes >? UINT32_MAX then Some LpNULL else
  let dst := poff in
  let lp := if new_listpack_bytes >? old_listpack_bytes then zresize lp new_listpack_bytes else lp in
  lp ← (if where_ =? LP_BEFORE then
          zmove lp (dst + enclen + backlen_size) dst (old_listpack_bytes - poff)
        else
          let lendiff := s64 (u64 (enclen + backlen_size - replaced_len)) in
          zmove lp (dst + replaced_len + lendiff) (dst + replaced_len)
                (old_listpack_bytes - poff - replaced_len));
  let lp := if new_listpack_bytes <? old_listpack_bytes then zresize lp new_listpack_bytes else lp in
  newp ← match ele with
         | Some _ => Some (Some dst)
         | None => d ← zget lp dst; Some (if d =? LP_EOF then None else Some dst)
         end;
  lp ← match ele with
       | Some e =>
           lp ← (if enctype =? LP_ENCODING_INT then zput lp dst (take (Z.to_nat enclen) intenc)
                 else lpEncodeString lp dst e);
           zput lp (dst + enclen) (take (Z.to_nat backlen_size) backlen)
       | None => Some lp
       end;
  lp ← (if negb (where_ =? LP_REPLACE) || (match ele with None => true | _ => false end) then
          num_elements ← lpGetNumElements lp;
          if negb (num_elements =? LP_HDR_NUMELE_UNKNOWN) then
            lpSetNumElements lp (match ele with
                                 | Some _ => u32 (num_elements + 1)
                                 | None => u32 (num_elements - 1)
                                 end)
          else Some lp
        else Some lp);
  lp ← lpSetTotalBytes lp new_listpack_bytes;
  Some (LpOK lp newp).

Definition lpAppend (lp ele : bytes) : option lpret :=
  listpack_bytes ← lpGetTotalBytes lp;
  lpInsert lp (Some ele) (listpack_bytes - 1) LP_BEFORE.

Definition lpDelete (lp : bytes) (p : Z) : option lpret := lpInsert lp None p LP_REPLACE.

Definition lpBytes (lp : bytes) : option Z := lpGetTotalBytes lp.

(** [while (index > 0 && ele) { ele = lpNext(lp,ele); index--; }], [n] the index. *)
Fixpoint seek_forward (n : nat) (lp : bytes) (ele : option Z) : option (option Z) :=
  match n, ele with
  | S n, Some p => q ← lpNext lp p; seek_forward n lp q
  | _, _ => Some ele
  end.

(** [while (index < -1 && ele) { ele = lpPrev(lp,ele); index++; }], [n = -1 - index]. *)
Fixpoint seek_backward (n : nat) (lp : bytes) (ele : option Z) : option (option Z) :=
  match n, ele with
  | S n, Some p => q ← lpPrev lp p; seek_backward n lp q
  | _, _ => Some ele
  end.

Definition lpSeek (lp : bytes) (index : Z) : option (option Z) :=
  numele ← lpGetNumElements lp;
  let start forward index :=
    if forward : bool then
      ele ← lpFirst lp; seek_forward (Z.to_nat index) lp ele
    else
      ele ← lpLast lp; seek_backward (Z.to_nat (-1 - index)) lp ele in
  if negb (numele =? LP_HDR_NUMELE_UNKNOWN) then
    let index := if index <? 0 then numele + index else index in
    if index <? 0 then Some None
    else if index >=? numele then Some None
    else if index >? numele / 2 then start false (index - numele)
    else start true index
  else start (negb (index <? 0)) index.

(** * Abstraction: a listpack represents a list of byte strings *)

Definition lp_int_enc (v : Z) : bytes :=
  if (0 <=? v) && (v <=? 127) then [v]
  else if (-4096 <=? v) && (v <=? 4095) then [0xC0 + (v mod 8192) / 256; v mod 256]
  else if (-32768 <=? v) && (v <=? 32767) then 0xF1 :: le_bytes 2 v
  else if (-8388608 <=? v) && (v <=? 8388607) then 0xF2 :: le_bytes 3 v
  else if (-2147483648 <=? v) && (v <=? 2147483647) then 0xF3 :: le_bytes 4 v
  else 0xF4 :: le_bytes 8 v.

Definition lp_str_enc (s : bytes) : bytes :=
  if zlen s <? 64 then 0x80 + zlen s :: s
  else if zlen s <? 4096 then 0xE0 + zlen s / 256 :: zlen s mod 256 :: s
  else 0xF0 :: le_bytes 4 (zlen s) ++ s.

Definition lp_enc (e : bytes) : bytes :=
  match string2ll e with Some v => lp_int_enc v | None => lp_str_enc e end.

Definition lp_entry (e : bytes) : bytes := lp_enc e ++ snd (lpEncodeBacklen (zlen (lp_enc e))).

Definition lp_body (es : list bytes) : bytes := concat (map lp_entry es).

(** Elements a listpack can hold: [size] fits the 32-bit arithmetic of the encoder. *)
Definition ele_ok (e : bytes) : Prop := bytes_ok e /\ zlen e < 2 ^ 32 - 5.

Definition lp_buf (total num : Z) (rest : bytes) : bytes :=
  le_bytes 4 total ++ le_bytes 2 num ++ rest.

Definition num_ok (num : Z) (es : list bytes) : Prop :=
  (num = zlen es /\ zlen es < 65535) \/ num = 65535.

Definition lp_rep (lp : bytes) (es : list bytes) : Prop :=
  exists num, lp = lp_buf (zlen lp) num (lp_body es ++ [255]) /\ zlen lp < 2 ^ 32 /\
    num_ok num es /\ Forall ele_ok es.

(** The offset of element [i]. *)
Definition lp_off (es : list bytes) (i : nat) : Z := 6 + zlen (lp_body (take i es)).

Example lp_ex1 : exists lp, lpNew = Some lp /\ 
  exists lp1, lpAppend lp (str "hello") = Some (LpOK lp1 (Some 6)) /\
  exists lp2, lpAppend lp1 (str "-1000") = Some (LpOK lp2 (Some 13)) /\
  exists lp3, lpInsert lp2 (Some (str "70000")) 6 LP_AFTER = Some (LpOK lp3 (Some 13)) /\
  lpGet lp3 13 true = Some (LpBuf (str "70000") 5) /\ lpSeek lp3 (-1) = Some (Some 18) /\
  lpGet lp3 18 false = Some (LpInt (-1000)) /\
  lpLength lp3 = Some (lp3, 3) /\ lpDelete lp3 18 <> None /\
  lp3 = lp_buf (zlen lp3) 3 (lp_body [str "hello"; str "70000"; str "-1000"] ++ [255]).
Proof. repeat (eexists; split; [vm_compute; reflexivity|]). repeat split; vm_compute; congruence. Qed.

(** * Loads and stores *)

Lemma lp_load_spec bs : forall pre post i acc shift,
  i = zlen pre -> bytes_ok bs -> 0 <= shift -> 0 <= acc < 2 ^ shift ->
  lp_load (pre ++ bs ++ post) i (length bs) acc shift = Some (acc + le_value bs * 2 ^ shift).
Proof.
  induction bs as [|b bs IH]; intros pre post i acc shift -> Hok Hs Hacc.
  { simpl. f_equal. lia. }
  apply list.Forall_cons in Hok as [Hb Hok]. unfold byte_ok in Hb.
  cbn [length lp_load app]. rewrite zget_app by done. cbn [mbind option_bind].
  rewrite lor_above by lia.
  assert (E8 : 2 ^ (shift + 8) = 256 * 2 ^ shift) by (rewrite Z.pow_add_r by lia; lia).
  change (pre ++ b :: bs ++ post) with (pre ++ [b] ++ bs ++ post). rewrite app_assoc.
  rewrite IH; [|zlia|done|lia|].
  - f_equal. rewrite E8. cbn [le_value]. lia.
  - rewrite E8. nia.
Qed.

Lemma lp_load0 pre bs post i n : i = zlen pre -> bytes_ok bs -> length bs = n ->
  lp_load (pre ++ bs ++ post) i n 0 0 = Some (le_value bs).
Proof.
  intros Hi Hok <-. rewrite lp_load_spec by (done || lia). f_equal. lia.
Qed.

Lemma land_ff v : Z.land v 0xff = v mod 256.
Proof. change 0xff with (Z.ones 8). by rewrite Z.land_ones by lia. Qed.

Lemma lp_store_spec n : forall v shift, 0 <= shift -> lp_store v n shift = le_bytes n (v / 2 ^ shift).
Proof.
  induction n as [|n IH]; intros v shift Hs; [done|]. cbn [lp_store le_bytes].
  rewrite land_ff, Z.shiftr_div_pow2, IH by lia. f_equal. f_equal.
  rewrite Z.pow_add_r, <- Z.div_div by lia. done.
Qed.

Lemma lp_store0 n v : lp_store v n 0 = le_bytes n v.
Proof. rewrite lp_store_spec by lia. by rewrite Z.div_1_r. Qed.

Lemma lpStringToInt64_eq s : lpStringToInt64 s = string2ll s.
Proof.
  destruct s as [|c rest]; [done|]. cbn [lpStringToInt64 string2ll].
  destruct rest as [|r rest]; cbn [andb].
  - destruct (c =? ch_0) eqn:E0; [done|]. destruct (c =? ch_minus) eqn:Em; [done|].
    rewrite E0. cbn [andb]. done.
  - destruct (c =? ch_minus); rewrite andb_false_r; case_match; done.
Qed.

(** * Encoding *)

(** What the first byte of an entry says. *)
Lemma lead_7bit b : 0 <= b <= 127 -> LP_ENCODING_IS_7BIT_UINT b && (Z.land b 0x7f =? b) = true.
Proof. revert b. apply byte_range_forall; [vm_compute; reflexivity|lia..]. Qed.

Lemma lead_6bit b : 0x80 <= b <= 0xBF ->
  negb (LP_ENCODING_IS_7BIT_UINT b) && LP_ENCODING_IS_6BIT_STR b && (Z.land b 0x3F =? b - 0x80) = true.
Proof. revert b. apply byte_range_forall; [vm_compute; reflexivity|lia..]. Qed.

Lemma lead_13bit b : 0xC0 <= b <= 0xDF ->
  negb (LP_ENCODING_IS_7BIT_UINT b) && negb (LP_ENCODING_IS_6BIT_STR b) &&
  LP_ENCODING_IS_13BIT_INT b && (Z.land b 0x1f =? b - 0xC0) = true.
Proof. revert b. apply byte_range_forall; [vm_compute; reflexivity|lia..]. Qed.

Lemma lead_12bit b : 0xE0 <= b <= 0xEF ->
  negb (LP_ENCODING_IS_7BIT_UINT b) && negb (LP_ENCODING_IS_6BIT_STR b) &&
  negb (LP_ENCODING_IS_13BIT_INT b) && negb (LP_ENCODING_IS_16BIT_INT b) &&
  negb (LP_ENCODING_IS_24BIT_INT b) && negb (LP_ENCODING_IS_32BIT_INT b) &&
  negb (LP_ENCODING_IS_64BIT_INT b) && LP_ENCODING_IS_12BIT_STR b && (Z.land b 0xF =? b - 0xE0) = true.
Proof. revert b. apply byte_range_forall; [vm_compute; reflexivity|lia..]. Qed.

Lemma lor_mark x m : 0 <= x -> (m = 0x80 /\ x < 64) \/ (m = 0xC0 /\ x < 32) \/ (m = 0xE0 /\ x < 16) ->
  u8 (Z.lor x m) = m + x.
Proof.
  intros Hx H. apply Z.eqb_eq.
  destruct H as [[-> H]|[[-> H]|[-> H]]].
  - apply (byte_range_forall 0 63 (fun x => u8 (Z.lor x 0x80) =? 0x80 + x)); [vm_compute; reflexivity|lia..].
  - apply (byte_range_forall 0 31 (fun x => u8 (Z.lor x 0xC0) =? 0xC0 + x)); [vm_compute; reflexivity|lia..].
  - apply (byte_range_forall 0 15 (fun x => u8 (Z.lor x 0xE0) =? 0xE0 + x)); [vm_compute; reflexivity|lia..].
Qed.

(** Adding [2 ^ w] to a negative number does not change its low bytes. *)
Lemma le_bytes_wrap n v : 0 <= 8 * Z.of_nat n ->
  le_bytes n (if v <? 0 then 2 ^ (8 * Z.of_nat n) + v else v) = le_bytes n v.
Proof.
  intros. destruct (v <? 0); [|done].
  rewrite <- (le_bytes_mod n (_ + v) (8 * Z.of_nat n)), <- (le_bytes_mod n v (8 * Z.of_nat n)) by lia.
  f_equal. rewrite <- (Z.mul_1_l (2 ^ _)) at 1. rewrite Z.add_comm, Z.mod_add by lia. done.
Qed.

Lemma u8_shiftr v n : 0 <= n -> u8 (Z.shiftr v n) = (v / 2 ^ n) mod 256.
Proof. intros. unfold uwrap. by rewrite Z.shiftr_div_pow2 by lia. Qed.

Lemma zlen_lp_int_enc v : 1 <= zlen (lp_int_enc v) <= 9.
Proof. unfold lp_int_enc. repeat case_match; autorewrite with zlen; lia. Qed.

Lemma div_256_256 v : v / 256 / 256 = v / 65536.
Proof. by rewrite Z.div_div by lia. Qed.

(** The integer encodings. *)
Lemma int_enc_code v : srange 64 v ->
  (if (v >=? 0) && (v <=? 127) then ([u8 v], 1)
   else if (v >=? -4096) && (v <=? 4095) then
     let v := if v <? 0 then Z.shiftl 1 13 + v else v in
     ([u8 (Z.lor (Z.shiftr v 8) 0xC0); Z.land v 0xff], 2)
   else if (v >=? -32768) && (v <=? 32767) then
     let v := if v <? 0 then Z.shiftl 1 16 + v else v in
     ([0xF1; Z.land v 0xff; u8 (Z.shiftr v 8)], 3)
   else if (v >=? -8388608) && (v <=? 8388607) then
     let v := if v <? 0 then Z.shiftl 1 24 + v else v in
     ([0xF2; Z.land v 0xff; Z.land (Z.shiftr v 8) 0xff; u8 (Z.shiftr v 16)], 4)
   else if (v >=? -2147483648) && (v <=? 2147483647) then
     let v := if v <? 0 then Z.shiftl 1 32 + v else v in
     ([0xF3; Z.land v 0xff; Z.land (Z.shiftr v 8) 0xff; Z.land (Z.shiftr v 16) 0xff;
       u8 (Z.shiftr v 24)], 5)
   else
     let uv := u64 v in
     (0xF4 :: lp_store uv 7 0 ++ [u8 (Z.shiftr uv 56)], 9)) = (lp_int_enc v, zlen (lp_int_enc v)).
Proof.
  intros Hv. unfold lp_int_enc. rewrite !Z.geb_leb.
  destruct ((0 <=? v) && (v <=? 127)) eqn:E1; zb.
  { rewrite uwrap_small by (unfold urange; lia). done. }
  destruct ((-4096 <=? v) && (v <=? 4095)) eqn:E2; zb.
  { cbv zeta. f_equal. rewrite land_ff.
    assert (Em : (if v <? 0 then 1 ≪ 13 + v else v) = v mod 8192).
    { change (1 ≪ 13) with 8192. destruct (Z.ltb_spec v 0); dlia. }
    rewrite Em, Z.shiftr_div_pow2, lor_mark by (lia || (change (2 ^ 8) with 256; dlia)).
    do 2 f_equal. dlia. }
  destruct ((-32768 <=? v) && (v <=? 32767)) eqn:E3; zb.
  { cbv zeta. change (1 ≪ 16) with (2 ^ (8 * Z.of_nat 2)). rewrite <- (le_bytes_wrap 2 v) by lia.
    cbn [le_bytes]. rewrite u8_shiftr, land_ff by lia. done. }
  destruct ((-8388608 <=? v) && (v <=? 8388607)) eqn:E4; zb.
  { cbv zeta. change (1 ≪ 24) with (2 ^ (8 * Z.of_nat 3)). rewrite <- (le_bytes_wrap 3 v) by lia.
    cbn [le_bytes]. rewrite u8_shiftr, !land_ff, Z.shiftr_div_pow2, div_256_256 by lia. done. }
  destruct ((-2147483648 <=? v) && (v <=? 2147483647)) eqn:E5; zb.
  { cbv zeta. change (1 ≪ 32) with (2 ^ (8 * Z.of_nat 4)). rewrite <- (le_bytes_wrap 4 v) by lia.
    cbn [le_bytes]. rewrite u8_shiftr, !land_ff, !Z.shiftr_div_pow2, div_256_256 by lia.
    rewrite Z.div_div by lia. done. }
  cbv zeta. rewrite lp_store0, u8_shiftr by lia.
  replace (le_bytes 7 (u64 v) ++ [(u64 v / 2 ^ 56) mod 256]) with (le_bytes 8 (u64 v)).
  { unfold uwrap. rewrite le_bytes_mod by lia. done. }
  cbn [le_bytes app]. rewrite !Z.div_div by lia. done.
Qed.

Lemma zlen_lp_str_enc s : zlen (lp_str_enc s) =
  if zlen s <? 64 then 1 + zlen s else if zlen s <? 4096 then 2 + zlen s else 5 + zlen s.
Proof. unfold lp_str_enc. repeat case_match; autorewrite with zlen; lia. Qed.

Lemma encode_type_spec e : zlen e < 2 ^ 32 - 5 -> exists ty intenc,
  lpEncodeGetType e = (ty, intenc, zlen (lp_enc e)) /\
  ((ty = LP_ENCODING_INT /\ intenc = lp_enc e) \/
   (ty = LP_ENCODING_STRING /\ lp_enc e = lp_str_enc e)).
Proof.
  intros Hlen. unfold lpEncodeGetType, lp_enc. rewrite lpStringToInt64_eq.
  destruct (string2ll e) as [v|] eqn:E.
  - apply string2ll_sound in E as [Hv _]. rewrite int_enc_code by done. eauto 10.
  - do 2 eexists. split; [|by right]. f_equal. rewrite zlen_lp_str_enc.
    pose proof (zlen_nonneg e). repeat case_match; rewrite uwrap_small; (done || unfold urange; lia).
Qed.

Lemma encode_string_spec pre hole post e : zlen e < 2 ^ 32 -> zlen hole = zlen (lp_str_enc e) ->
  lpEncodeString (pre ++ hole ++ post) (zlen pre) e = Some (pre ++ lp_str_enc e ++ post).
Proof.
  intros Hlen Hh. rewrite zlen_lp_str_enc in Hh. pose proof (zlen_nonneg e).
  assert (W : forall a b, lpEncodeString (pre ++ hole ++ post) (zlen pre) e =
      (lp ← zput (pre ++ hole ++ post) (zlen pre) a; zput lp (zlen pre + b) e) ->
      b = zlen a -> zlen a + zlen e = zlen hole ->
      lpEncodeString (pre ++ hole ++ post) (zlen pre) e = Some (pre ++ (a ++ e) ++ post)).
  { intros a b -> -> Ha. destruct (zsplit3 hole 0 (zlen a)) as (z & h1 & h2 & Eh & Hz & Hh1); [zlia..|].
    apply zlen_0_nil in Hz as ->. simpl in Eh. subst hole. rewrite <- !app_assoc.
    rewrite zput_app by done. cbn [mbind option_bind]. rewrite !(app_assoc pre a).
    rewrite zput_app by zlia. done. }
  unfold lp_str_enc. destruct (Z.ltb_spec (zlen e) 64).
  { apply (W [_] 1); [|done|zlia]. unfold lpEncodeString. zdec. rewrite lor_mark by lia. done. }
  destruct (Z.ltb_spec (zlen e) 4096).
  { apply (W [_; _] 2); [|done|zlia]. unfold lpEncodeString. repeat zdec.
    rewrite Z.shiftr_div_pow2, lor_mark, land_ff by (lia || (change (2 ^ 8) with 256; dlia)). done. }
  apply (W (0xF0 :: le_bytes 4 (zlen e)) 5); [|zlia|zlia].
  unfold lpEncodeString. repeat zdec. rewrite lp_store0. done.
Qed.

(** * The back length *)

Lemma backlen_size l : fst (lpEncodeBacklen l) = zlen (snd (lpEncodeBacklen l)) /\
  1 <= zlen (snd (lpEncodeBacklen l)) <= 5.
Proof. unfold lpEncodeBacklen. cbv zeta. repeat case_match; simpl; unfold zlen; simpl; lia. Qed.

Lemma zget_mid {A} (pre bs post : list A) k : 0 <= k < zlen bs ->
  zget (pre ++ bs ++ post) (zlen pre + k) = bs !! Z.to_nat k.
Proof.
  intros Hk. rewrite zget_app_r by lia. replace (zlen pre + k - zlen pre) with k by lia.
  rewrite zget_app_l by lia. unfold zget. by zdec.
Qed.

Lemma cont_byte x :
  Z.land (Z.lor (Z.land x 127) 128) 127 = x mod 128 /\ (Z.land (Z.lor (Z.land x 127) 128) 128 =? 0) = false.
Proof.
  change 127 with (Z.ones 7) at 1 3. rewrite Z.land_ones by lia. change (2 ^ 7) with 128.
  assert (H : (Z.land (Z.lor (x mod 128) 128) 127 =? x mod 128) &&
    negb (Z.land (Z.lor (x mod 128) 128) 128 =? 0) = true).
  { apply (byte_range_forall 0 127 (fun y => (Z.land (Z.lor y 128) 127 =? y) && negb (Z.land (Z.lor y 128) 128 =? 0)));
      [vm_compute; reflexivity|lia|lia|dlia]. }
  apply andb_true_iff in H as [H1%Z.eqb_eq H2%negb_true_iff]. done.
Qed.

Lemma last_byte x : 0 <= x <= 127 -> Z.land (u8 x) 127 = x /\ (Z.land (u8 x) 128 =? 0) = true.
Proof.
  intros Hx. assert (H : (Z.land (u8 x) 127 =? x) && (Z.land (u8 x) 128 =? 0) = true).
  { revert x Hx. apply byte_range_forall; [vm_compute; reflexivity|lia..]. }
  zb. split; [done|by apply Z.eqb_eq].
Qed.

(** One step of the backward decoder over a continuation byte, and its last step. *)
Lemma decode_cont fuel lp p x val shift :
  zget lp p = Some (Z.lor (Z.land x 127) 128) -> 0 <= shift <= 21 -> 0 <= val < 2 ^ shift ->
  lpDecodeBacklen_loop (S fuel) lp p val shift =
    lpDecodeBacklen_loop fuel lp (p - 1) (val + x mod 128 * 2 ^ shift) (shift + 7).
Proof.
  intros Hg Hs Hv. cbn [lpDecodeBacklen_loop]. rewrite Hg. cbn [mbind option_bind].
  destruct (cont_byte x) as [-> ->]. rewrite Z.gtb_ltb. zdec.
  assert (0 <= x mod 128 < 128) by dlia.
  assert (2 ^ shift <= 2 ^ 21) by (apply Z.pow_le_mono_r; lia).
  rewrite uwrap_small by (unfold urange; rewrite Z.shiftl_mul_pow2 by lia; nia).
  by rewrite lor_above by lia.
Qed.

Lemma decode_last fuel lp p x val shift :
  zget lp p = Some (u8 x) -> 0 <= x <= 127 -> 0 <= shift <= 28 -> 0 <= val < 2 ^ shift ->
  lpDecodeBacklen_loop (S fuel) lp p val shift = Some (val + x * 2 ^ shift).
Proof.
  intros Hg Hx Hs Hv. cbn [lpDecodeBacklen_loop]. rewrite Hg. cbn [mbind option_bind].
  destruct (last_byte x Hx) as [-> ->].
  assert (2 ^ shift <= 2 ^ 28) by (apply Z.pow_le_mono_r; lia).
  rewrite uwrap_small by (unfold urange; rewrite Z.shiftl_mul_pow2 by lia; nia).
  by rewrite lor_above by lia.
Qed.

(** Solve [zget (pre ++ [..] ++ post) i = Some _] where [i] is [zlen pre] plus the literal [k]. *)
Ltac zat k :=
  match goal with |- zget (?pre ++ _ ++ _) ?i = _ => replace i with (zlen pre + k) by (unfold zlen; cbn [length]; lia) end;
  rewrite zget_mid by (unfold zlen; simpl; lia); reflexivity.

Lemma decode_backlen pre post l : 0 <= l < 2 ^ 35 ->
  lpDecodeBacklen (pre ++ snd (lpEncodeBacklen l) ++ post)
    (zlen pre + zlen (snd (lpEncodeBacklen l)) - 1) = Some l.
Proof.
  intros Hl. unfold lpEncodeBacklen, lpDecodeBacklen. cbv zeta.
  destruct (Z.leb_spec l 127); cbn [snd].
  { erewrite decode_last; [|zat 0|lia..]. f_equal. lia. }
  destruct (Z.ltb_spec l 16383); cbn [snd].
  { erewrite decode_cont; [|zat 1|lia..].
    erewrite decode_last; [|zat 0|rewrite ?Z.shiftr_div_pow2 by lia; dlia..].
    f_equal. rewrite Z.shiftr_div_pow2 by lia. dlia. }
  destruct (Z.ltb_spec l 2097151); cbn [snd].
  { erewrite decode_cont; [|zat 2|lia..].
    erewrite decode_cont; [|zat 1|rewrite ?Z.shiftr_div_pow2 by lia; dlia..].
    erewrite decode_last; [|zat 0|rewrite ?Z.shiftr_div_pow2 by lia; dlia..].
    f_equal. rewrite !Z.shiftr_div_pow2 by lia. dlia. }
  destruct (Z.ltb_spec l 268435455); cbn [snd].
  { erewrite decode_cont; [|zat 3|lia..].
    do 2 (erewrite decode_cont; [|first [zat 2|zat 1]|rewrite ?Z.shiftr_div_pow2 by lia; dlia..]).
    erewrite decode_last; [|zat 0|rewrite ?Z.shiftr_div_pow2 by lia; dlia..].
    f_equal. rewrite !Z.shiftr_div_pow2 by lia. dlia. }
  erewrite decode_cont; [|zat 4|lia..].
  do 3 (erewrite decode_cont; [|first [zat 3|zat 2|zat 1]|rewrite ?Z.shiftr_div_pow2 by lia; dlia..]).
  erewrite decode_last; [|zat 0|rewrite ?Z.shiftr_div_pow2 by lia; dlia..].
  f_equal. rewrite !Z.shiftr_div_pow2 by lia. dlia.
Qed.

(** * Decoding an element *)

Lemma zlen_decimal v : srange 64 v -> zlen (decimal v) <= 20.
Proof.
  unfold srange. change (2 ^ (64 - 1)) with (2 ^ 63). intros Hv. unfold decimal.
  assert (Hd : forall u, 0 <= u <= 2 ^ 63 -> zlen (dec u) <= 19).
  { intros u Hu. pose proof (digits10_bounds u ltac:(lia)) as [_ Hb]. rewrite <- digits10_dec by lia.
    destruct Hb as [[_ ->]|[Hb _]]; [lia|].
    destruct (Z.le_gt_cases (digits10 u) 19) as [|Hgt]; [done|].
    assert (10 ^ 19 <= 10 ^ (digits10 u - 1)) by (apply Z.pow_le_mono_r; lia). lia. }
  destruct (Z.ltb_spec v 0).
  - rewrite zlen_cons. pose proof (Hd (- v)). lia.
  - pose proof (Hd v). lia.
Qed.

Lemma decimal_fits v : srange 64 v -> take (Z.to_nat (LP_INTBUF_SIZE - 1)) (decimal v) = decimal v.
Proof.
  intros Hv. pose proof (zlen_decimal v Hv) as H. apply take_ge. unfold zlen, LP_INTBUF_SIZE in *. lia.
Qed.

Lemma srange_64 w v : 1 <= w <= 64 -> srange w v -> srange 64 v.
Proof.
  unfold srange. intros Hw Hv. assert (2 ^ (w - 1) <= 2 ^ (64 - 1)) by (apply Z.pow_le_mono_r; lia). lia.
Qed.

(** The integer result of [lpGet], with or without a text buffer. *)
Definition lp_int_result (intbuf : bool) (v : Z) : lpval :=
  if intbuf then LpBuf (decimal v) (zlen (decimal v)) else LpInt v.

Lemma lpGet_int_spec ib w v : 1 <= w <= 64 -> srange w v ->
  lpGet_int ib (v mod 2 ^ w) (2 ^ (w - 1)) (2 ^ w - 1) = lp_int_result ib v.
Proof.
  intros Hw Hv. pose proof (srange_64 w v Hw Hv) as Hv64.
  cut ((if v mod 2 ^ w >=? 2 ^ (w - 1) then s64 (- s64 (u64 (2 ^ w - 1 - v mod 2 ^ w)) - 1)
       else s64 (v mod 2 ^ w)) = v).
  { intros E. unfold lpGet_int, lp_int_result. cbv zeta. rewrite E. by rewrite decimal_fits. }
  unfold srange in Hv. rewrite Z.geb_leb.
  assert (E2 : 2 ^ w = 2 * 2 ^ (w - 1)) by (rewrite <- Z.pow_succ_r by lia; f_equal; lia).
  assert (E64 : 2 ^ (64 - 1) = 2 ^ 63) by done.
  assert (2 ^ (w - 1) <= 2 ^ 63) by (apply Z.pow_le_mono_r; lia).
  destruct (Z.ltb_spec v 0) as [Hn|Hp].
  - assert (Em : v mod 2 ^ w = v + 2 ^ w).
    { rewrite <- (Z.mul_1_l (2 ^ w)) at 2. rewrite <- (Z.mod_add v 1) by lia. apply Z.mod_small. lia. }
    rewrite Em. zdec. replace (2 ^ w - 1 - (v + 2 ^ w)) with (- v - 1) by lia.
    rewrite uwrap_small by (unfold urange; lia).
    rewrite (swrap_small 64 (- v - 1)) by (unfold srange; rewrite ?E64; lia).
    rewrite swrap_small by (unfold srange; rewrite ?E64; lia). lia.
  - rewrite Z.mod_small by lia. zdec. rewrite swrap_small by (unfold srange; rewrite ?E64; lia). done.
Qed.

(** The element a result of [lpGet] denotes. *)
Definition lp_deref (lp : bytes) (r : lpval) : option bytes :=
  match r with
  | LpPtr p n => zsub lp p n
  | LpBuf text n => zsub text 0 n
  | LpInt v => Some (decimal v)
  end.

Lemma zget_head {A} (pre : list A) x bs post : zget (pre ++ (x :: bs) ++ post) (zlen pre) = Some x.
Proof. cbn [app]. by rewrite zget_app. Qed.

(** The element follows its lead byte(s). *)
Lemma load_after pre x bs post n : bytes_ok bs -> length bs = n ->
  lp_load (pre ++ (x :: bs) ++ post) (zlen pre + 1) n 0 0 = Some (le_value bs).
Proof.
  intros Hok Hn. change ((x :: bs) ++ post) with ([x] ++ bs ++ post). rewrite app_assoc.
  apply lp_load0; [zlia|done|done].
Qed.

Lemma load_int pre x n v post :
  lp_load (pre ++ (x :: le_bytes n v) ++ post) (zlen pre + 1) n 0 0 = Some (v mod 2 ^ (8 * Z.of_nat n)).
Proof.
  rewrite load_after; [by rewrite le_value_bytes|apply le_bytes_ok|].
  pose proof (zlen_le_bytes n v). unfold zlen in *. lia.
Qed.

(** Dispatch on a literal lead byte. *)
Ltac lead_test f b := let r := eval vm_compute in (f b) in change (f b) with r.
Ltac lead_const b :=
  lead_test LP_ENCODING_IS_7BIT_UINT b; lead_test LP_ENCODING_IS_6BIT_STR b;
  lead_test LP_ENCODING_IS_13BIT_INT b; lead_test LP_ENCODING_IS_16BIT_INT b;
  lead_test LP_ENCODING_IS_24BIT_INT b; lead_test LP_ENCODING_IS_32BIT_INT b;
  lead_test LP_ENCODING_IS_64BIT_INT b; lead_test LP_ENCODING_IS_12BIT_STR b;
  lead_test LP_ENCODING_IS_32BIT_STR b; cbv iota.

(** Dispatch on a lead byte through a fact of the tables above. *)
Ltac lead_by H := zb; repeat match goal with
  | H : _ = true |- _ => rewrite H; clear H
  | H : _ = false |- _ => rewrite H; clear H
  end.

(** An integer in [n] bytes after the lead byte [x]. *)
Ltac decode_wide x n w :=
  rewrite zget_head; cbn [mbind option_bind]; lead_const x; split; [done|];
  rewrite load_int; cbn [mbind option_bind]; f_equal;
  match goal with |- lpGet_int ?ib (?v mod _) _ _ = _ => apply (lpGet_int_spec ib w v); [lia|] end;
  unfold srange; let m := eval vm_compute in (2 ^ (w - 1)) in change (2 ^ (w - 1)) with m; lia.

(** Size and value of an integer entry. *)
Lemma decode_int pre v post ib : srange 64 v ->
  lpCurrentEncodedSize (pre ++ lp_int_enc v ++ post) (zlen pre) = Some (zlen (lp_int_enc v)) /\
  lpGet (pre ++ lp_int_enc v ++ post) (zlen pre) ib = Some (lp_int_result ib v).
Proof.
  intros Hv. unfold lp_int_enc, lpCurrentEncodedSize, lpGet.
  destruct ((0 <=? v) && (v <=? 127)) eqn:E1; zb.
  { rewrite zget_head. cbn [mbind option_bind].
    pose proof (lead_7bit v ltac:(lia)) as [-> E%Z.eqb_eq]%andb_true_iff. split; [done|].
    rewrite E. f_equal. unfold lpGet_int, lp_int_result. cbv zeta. rewrite Z.geb_leb.
    unfold UINT64_MAX. zdec. rewrite swrap_small by (done || lia). by rewrite decimal_fits. }
  clear E1. destruct ((-4096 <=? v) && (v <=? 4095)) eqn:E2; zb.
  { rewrite zget_head. cbn [mbind option_bind].
    pose proof (lead_13bit (192 + v mod 8192 / 256) ltac:(dlia)) as Hl. lead_by Hl.
    split; [done|]. rewrite zget_mid by (unfold zlen; simpl; lia).
    change ([_; _] !! _) with (Some (v mod 256)). cbn [mbind option_bind]. f_equal.
    rewrite <- (lpGet_int_spec ib 13 v) by (lia || (unfold srange; change (2 ^ (13 - 1)) with 4096; lia)).
    f_equal. match goal with H : Z.land _ 31 = _ |- _ => rewrite H end.
    rewrite Z.lor_comm, lor_above by (change (2 ^ 8) with 256; dlia).
    change (2 ^ 13) with 8192. change (2 ^ 8) with 256. dlia. }
  clear E2. destruct ((-32768 <=? v) && (v <=? 32767)) eqn:E3; zb; [decode_wide 0xF1 2%nat 16|].
  clear E3. destruct ((-8388608 <=? v) && (v <=? 8388607)) eqn:E4; zb; [decode_wide 0xF2 3%nat 24|].
  clear E4. destruct ((-2147483648 <=? v) && (v <=? 2147483647)) eqn:E5; zb; [decode_wide 0xF3 4%nat 32|].
  unfold srange in Hv. change (2 ^ (64 - 1)) with 9223372036854775808 in Hv. decode_wide 0xF4 8%nat 64.
Qed.

(** Size and value of a string entry. *)
Lemma decode_str pre s post ib : zlen s < 2 ^ 32 - 5 ->
  lpCurrentEncodedSize (pre ++ lp_str_enc s ++ post) (zlen pre) = Some (zlen (lp_str_enc s)) /\
  lpGet (pre ++ lp_str_enc s ++ post) (zlen pre) ib =
    Some (LpPtr (zlen pre + (zlen (lp_str_enc s) - zlen s)) (zlen s)).
Proof.
  intros Hs. rewrite zlen_lp_str_enc. unfold lp_str_enc, lpCurrentEncodedSize, lpGet.
  pose proof (zlen_nonneg s).
  destruct (Z.ltb_spec (zlen s) 64).
  { rewrite zget_head. cbn [mbind option_bind]. unfold LP_ENCODING_6BIT_STR_LEN. rewrite zget_head.
    cbn [mbind option_bind]. pose proof (lead_6bit (128 + zlen s) ltac:(lia)) as H'. lead_by H'.
    match goal with H : Z.land _ 63 = _ |- _ => rewrite H end.
    rewrite uwrap_small by (unfold urange; lia). split; repeat f_equal; lia. }
  destruct (Z.ltb_spec (zlen s) 4096).
  { rewrite zget_head. cbn [mbind option_bind]. unfold LP_ENCODING_12BIT_STR_LEN. rewrite zget_head.
    rewrite zget_mid by zlia. change ((_ :: _ :: _) !! _) with (Some (zlen s mod 256)).
    cbn [mbind option_bind]. pose proof (lead_12bit (224 + zlen s / 256) ltac:(dlia)) as H'. lead_by H'.
    match goal with H : Z.land _ 15 = _ |- _ => rewrite H end.
    rewrite Z.lor_comm, lor_above by (change (2 ^ 8) with 256; dlia). change (2 ^ 8) with 256.
    rewrite uwrap_small by (unfold urange; dlia). split; repeat f_equal; dlia. }
  unfold LP_ENCODING_32BIT_STR_LEN. rewrite zget_head. cbn [mbind option_bind].
  lead_const 0xF0. change ((240 :: le_bytes 4 (zlen s) ++ s) ++ post)
    with ((240 :: le_bytes 4 (zlen s) ++ s) ++ post).
  replace ((240 :: le_bytes 4 (zlen s) ++ s) ++ post) with ((240 :: le_bytes 4 (zlen s)) ++ (s ++ post))
    by (cbn [app]; by rewrite <- app_assoc).
  rewrite load_int. cbn [mbind option_bind].
  rewrite Z.mod_small by (change (2 ^ (8 * Z.of_nat 4)) with (2 ^ 32); lia).
  rewrite uwrap_small by (unfold urange; lia). split; repeat f_equal; lia.
Qed.

(** Size and value of an entry. *)
Lemma decode_entry pre e post : zlen e < 2 ^ 32 - 5 ->
  lpCurrentEncodedSize (pre ++ lp_enc e ++ post) (zlen pre) = Some (zlen (lp_enc e)) /\
  (forall ib, exists r, lpGet (pre ++ lp_enc e ++ post) (zlen pre) ib = Some r /\
     lp_deref (pre ++ lp_enc e ++ post) r = Some e) /\
  (forall v, lpGet (pre ++ lp_enc e ++ post) (zlen pre) false = Some (LpInt v) <-> string2ll e = Some v).
Proof.
  intros He. unfold lp_enc. destruct (string2ll e) as [v|] eqn:E.
  - apply string2ll_sound in E as [Hv ->]. split_and!.
    + by apply (decode_int pre v post true).
    + intros ib. eexists. split; [by apply decode_int|]. destruct ib; [|done].
      cbn [lp_int_result lp_deref]. rewrite <- (app_nil_r (decimal v)) at 1.
      by apply (zsub_app [] (decimal v) []).
    + intros u. rewrite (proj2 (decode_int pre v post false Hv)). cbn [lp_int_result]. naive_solver.
  - split_and!.
    + by apply (decode_str pre e post true).
    + intros ib. eexists. split; [by apply decode_str|]. cbn [lp_deref].
      unfold lp_str_enc. repeat case_match.
      * change (pre ++ (_ :: e) ++ post) with (pre ++ [128 + zlen e] ++ e ++ post).
        rewrite app_assoc. apply zsub_app; [zlia|done].
      * change (pre ++ (?a :: ?b :: e) ++ post) with (pre ++ [224 + zlen e / 256; zlen e mod 256] ++ e ++ post).
        rewrite app_assoc. apply zsub_app; [zlia|done].
      * change (240 :: le_bytes 4 (zlen e) ++ e) with ((240 :: le_bytes 4 (zlen e)) ++ e).
        rewrite <- app_assoc, app_assoc. apply zsub_app; [zlia|done].
    + intros u. rewrite (proj2 (decode_str pre e post false He)). done.
Qed.

(** * Entries and navigation *)

Definition lp_back (e : bytes) : bytes := snd (lpEncodeBacklen (zlen (lp_enc e))).

Lemma lp_body_cons e es : lp_body (e :: es) = lp_enc e ++ lp_back e ++ lp_body es.
Proof. unfold lp_body, lp_entry, lp_back. simpl. by rewrite <- app_assoc. Qed.

Lemma lp_body_app es1 es2 : lp_body (es1 ++ es2) = lp_body es1 ++ lp_body es2.
Proof. unfold lp_body. by rewrite map_app, concat_app. Qed.

Lemma zlen_lp_enc e : 1 <= zlen (lp_enc e) <= zlen e + 9.
Proof.
  unfold lp_enc. pose proof (zlen_nonneg e). destruct (string2ll e) as [v|].
  - pose proof (zlen_lp_int_enc v). lia.
  - rewrite zlen_lp_str_enc. repeat case_match; lia.
Qed.

Lemma zlen_lp_back e : 1 <= zlen (lp_back e) <= 5 /\ fst (lpEncodeBacklen (zlen (lp_enc e))) = zlen (lp_back e).
Proof. unfold lp_back. pose proof (backlen_size (zlen (lp_enc e))). lia. Qed.

(** No entry starts with the end marker. *)
Lemma lp_enc_head e : exists b r, lp_enc e = b :: r /\ (b =? LP_EOF) = false.
Proof.
  unfold LP_EOF, lp_enc, lp_int_enc, lp_str_enc. pose proof (zlen_nonneg e).
  repeat case_match; zb; (do 2 eexists; split; [reflexivity|apply Z.eqb_neq; dlia]).
Qed.

(** The offset just after the entries [es]. *)
Definition lp_at (es : list bytes) : Z := 6 + zlen (lp_body es).

Lemma lp_at_snoc es e : lp_at (es ++ [e]) = lp_at es + zlen (lp_enc e) + zlen (lp_back e).
Proof. unfold lp_at. rewrite lp_body_app, lp_body_cons. cbn. zlia. Qed.

Section Navigation.
Context (h : bytes) (Hh : zlen h = 6).
#[local] Set Default Proof Using "All".

Definition lp_view (es : list bytes) : bytes := h ++ lp_body es ++ [255].

Lemma view_split es1 e es2 : lp_view (es1 ++ e :: es2) =
  (h ++ lp_body es1) ++ lp_enc e ++ (lp_back e ++ lp_body es2 ++ [255]).
Proof. unfold lp_view. rewrite lp_body_app, lp_body_cons. by rewrite <- !app_assoc. Qed.

Lemma zlen_prefix es1 : zlen (h ++ lp_body es1) = lp_at es1.
Proof. unfold lp_at. zlia. Qed.

Lemma view_eof es1 es2 : exists b, zget (lp_view (es1 ++ es2)) (lp_at es1) = Some b /\
  (b =? LP_EOF) = match es2 with [] => true | _ => false end.
Proof.
  destruct es2 as [|e es2].
  - exists 255. split; [|done]. rewrite app_nil_r. unfold lp_view. rewrite app_assoc.
    apply zget_app. by rewrite zlen_prefix.
  - destruct (lp_enc_head e) as (b & r & E & Hb). exists b. split; [|done].
    rewrite view_split, E. cbn [app]. apply zget_app. by rewrite zlen_prefix.
Qed.

Lemma view_size es1 e es2 : ele_ok e ->
  lpCurrentEncodedSize (lp_view (es1 ++ e :: es2)) (lp_at es1) = Some (zlen (lp_enc e)).
Proof.
  intros [_ He]. rewrite view_split, <- zlen_prefix. by apply decode_entry.
Qed.

Lemma view_skip es1 e es2 : ele_ok e ->
  lpSkip (lp_view (es1 ++ e :: es2)) (lp_at es1) = Some (lp_at (es1 ++ [e])).
Proof.
  intros He. unfold lpSkip. rewrite view_size by done. cbn [mbind option_bind].
  rewrite (proj2 (zlen_lp_back e)), lp_at_snoc. f_equal. lia.
Qed.

(** The pointer to the first of [es2], the pointer to the last of [es1]. *)
Definition lp_fst (es1 es2 : list bytes) : option Z :=
  match es2 with [] => None | _ => Some (lp_at es1) end.
Definition lp_lst (es1 : list bytes) : option Z :=
  match es1 with [] => None | _ => Some (lp_at (removelast es1)) end.

Lemma view_next es1 e es2 : ele_ok e ->
  lpNext (lp_view (es1 ++ e :: es2)) (lp_at es1) = Some (lp_fst (es1 ++ [e]) es2).
Proof.
  intros He. unfold lpNext. rewrite view_skip by done. cbn [mbind option_bind].
  destruct (view_eof (es1 ++ [e]) es2) as (b & E & Hb). rewrite <- app_assoc in E.
  cbn [app] in E. rewrite E. cbn [mbind option_bind]. rewrite Hb. by destruct es2.
Qed.

Lemma view_prev es1 es2 : Forall ele_ok es1 ->
  lpPrev (lp_view (es1 ++ es2)) (lp_at es1) = Some (lp_lst es1).
Proof.
  intros Hok. destruct es1 as [|e es1 _] using rev_ind; [done|].
  apply Forall_app in Hok as [_ [[_ He] _]%list.Forall_cons].
  pose proof (zlen_lp_enc e). pose proof (zlen_lp_back e) as [? Eb]. pose proof (zlen_nonneg (lp_body es1)).
  unfold lpPrev, lp_lst, LP_HDR_SIZE. rewrite lp_at_snoc. unfold lp_at at 1. zdec.
  assert (Hd : lpDecodeBacklen (lp_view ((es1 ++ [e]) ++ es2)) (lp_at es1 + zlen (lp_enc e) + zlen (lp_back e) - 1)
     = Some (zlen (lp_enc e))).
  { rewrite <- app_assoc. cbn [app]. rewrite view_split. rewrite app_assoc.
    replace (lp_at es1 + zlen (lp_enc e)) with (zlen ((h ++ lp_body es1) ++ lp_enc e))
      by (rewrite zlen_app, zlen_prefix; lia).
    apply decode_backlen. lia. }
  rewrite Hd. cbn [mbind option_bind]. rewrite Eb, uwrap_small by (unfold urange; lia).
  rewrite removelast_last. destruct (es1 ++ [e]) eqn:E'; [by apply app_eq_nil in E' as [_ ?]|].
  do 2 f_equal. lia.
Qed.

Lemma view_first es : lpFirst (lp_view es) = Some (lp_fst [] es).
Proof.
  unfold lpFirst. destruct (view_eof [] es) as (b & E & Hb). change (lp_at []) with LP_HDR_SIZE in E.
  simpl app in E. rewrite E. cbn [mbind option_bind]. rewrite Hb. by destruct es.
Qed.

Lemma view_length es2 : forall es1 fuel count, Forall ele_ok es2 -> (length es2 <= fuel)%nat ->
  0 <= count -> count + zlen es2 < 2 ^ 32 ->
  lpLength_loop fuel (lp_view (es1 ++ es2)) (lp_fst es1 es2) count = Some (count + zlen es2).
Proof.
  induction es2 as [|e es2 IH]; intros es1 fuel count Hok Hf Hc Hlt.
  { rewrite zlen_nil, Z.add_0_r. by destruct fuel. }
  apply list.Forall_cons in Hok as [He Hok]. destruct fuel as [|fuel]; [simpl in Hf; lia|].
  cbn [lp_fst lpLength_loop]. rewrite view_next by done. cbn [mbind option_bind].
  rewrite zlen_cons in Hlt |- *. pose proof (zlen_nonneg es2).
  rewrite uwrap_small by (unfold urange; lia).
  pose proof (IH (es1 ++ [e]) fuel (count + 1)) as H'. rewrite <- app_assoc in H'. cbn [app] in H'.
  rewrite H'; [f_equal; lia|done|simpl in Hf; lia|lia|lia].
Qed.

Lemma view_forward n : forall es1 es2, Forall ele_ok es2 ->
  seek_forward n (lp_view (es1 ++ es2)) (lp_fst es1 es2) =
    Some (lp_fst (es1 ++ take n es2) (drop n es2)).
Proof.
  induction n as [|n IH]; intros es1 es2 Hok; [by rewrite take_0, drop_0, app_nil_r|].
  destruct es2 as [|e es2]; [done|]. apply list.Forall_cons in Hok as [He Hok].
  cbn [lp_fst seek_forward take drop]. rewrite view_next by done. cbn [mbind option_bind].
  pose proof (IH (es1 ++ [e]) es2 Hok) as H'. rewrite <- !app_assoc in H'. exact H'.
Qed.

Lemma view_backward n : forall es1 es2, Forall ele_ok es1 ->
  seek_backward n (lp_view (es1 ++ es2)) (lp_lst es1) = Some (lp_lst (take (length es1 - n) es1)).
Proof.
  induction n as [|n IH]; intros es1 es2 Hok.
  { rewrite Nat.sub_0_r, take_ge by lia. done. }
  destruct es1 as [|e es1 _] using rev_ind; [done|].
  apply Forall_app in Hok as [Hok _].
  assert (El : lp_lst (es1 ++ [e]) = Some (lp_at es1)).
  { unfold lp_lst. rewrite removelast_last. by destruct es1. }
  rewrite El. cbn [seek_backward]. rewrite <- app_assoc. cbn [app].
  rewrite (view_prev es1 (e :: es2)) by done. cbn [mbind option_bind].
  rewrite (IH es1 (e :: es2)) by done. rewrite length_app. cbn [length].
  replace (length es1 + 1 - S n)%nat with (length es1 - n)%nat by lia.
  by rewrite take_app_le by lia.
Qed.
End Navigation.

(** * Insertion, replacement and deletion *)

(** Moving the tail [B] of [P ++ O ++ B] so that [n] bytes lie between [P] and [B]. *)
Lemma shift_tail P O B n old new : 0 <= n -> old = zlen P + zlen O + zlen B -> new = zlen P + n + zlen B ->
  exists X J,
    zmove (if new >? old then zresize (P ++ O ++ B) new else P ++ O ++ B) (zlen P + n) (zlen P + zlen O) (zlen B)
      = Some (P ++ X ++ B ++ J) /\ zlen X = n /\
    (if new <? old then zresize (P ++ X ++ B ++ J) new else P ++ X ++ B ++ J) = P ++ X ++ B.
Proof.
  intros Hn Ho Hw. pose proof (zlen_nonneg P). pose proof (zlen_nonneg O). pose proof (zlen_nonneg B).
  assert (exists pad, (if new >? old then zresize (P ++ O ++ B) new else P ++ O ++ B) = P ++ O ++ B ++ pad /\
     zlen O + zlen B + zlen pad = Z.max (zlen O) n + zlen B) as (pad & E & Hpad).
  { rewrite Z.gtb_ltb. destruct (Z.ltb_spec old new).
    - destruct (zresize_grow (P ++ O ++ B) new) as (pad & E & Hp); [zlia|]. exists pad.
      rewrite E, <- !app_assoc. split; [done|zlia].
    - exists []. rewrite app_nil_r. split; [done|zlia]. }
  rewrite E. unfold zmove. rewrite (app_assoc P O), zsub_app by (zlia || done). cbn [mbind option_bind].
  destruct (zsplit3 (O ++ B ++ pad) n (zlen B)) as (X & M & J & E2 & HX & HM); [lia..|zlia|].
  exists X, J. rewrite <- app_assoc. rewrite E2. rewrite (app_assoc P X), zput_app by zlia.
  assert (HJ : zlen (O ++ B ++ pad) = zlen (X ++ M ++ J)) by by rewrite E2. autorewrite with zlen in HJ.
  split_and!; [by rewrite <- app_assoc|done|].
  destruct (Z.ltb_spec new old).
  - rewrite !app_assoc. apply zresize_shrink. zlia.
  - assert (J = []) as -> by (apply zlen_0_nil; zlia). by rewrite app_nil_r.
Qed.

(** The header fields. *)
Lemma zlen_hdr t num : zlen (le_bytes 4 t ++ le_bytes 2 num) = 6.
Proof. zlia. Qed.

Lemma lp_buf_hdr t num rest : lp_buf t num rest = (le_bytes 4 t ++ le_bytes 2 num) ++ rest.
Proof. unfold lp_buf. by rewrite <- app_assoc. Qed.

Lemma length_le_bytes n z : length (le_bytes n z) = n.
Proof. pose proof (zlen_le_bytes n z). unfold zlen in *. lia. Qed.

Lemma get_total t num rest : urange 32 t -> lpGetTotalBytes (lp_buf t num rest) = Some t.
Proof.
  intros Ht. unfold lpGetTotalBytes, lp_buf.
  etransitivity; [apply (lp_load0 []); [done|apply le_bytes_ok|apply length_le_bytes]|].
  rewrite le_value_bytes. f_equal. by apply Z.mod_small.
Qed.

Lemma get_num t num rest : urange 16 num -> lpGetNumElements (lp_buf t num rest) = Some num.
Proof.
  intros Ht. unfold lpGetNumElements, lp_buf.
  rewrite (lp_load0 (le_bytes 4 t) (le_bytes 2 num)); [|done|apply le_bytes_ok|apply length_le_bytes].
  rewrite le_value_bytes. f_equal. by apply Z.mod_small.
Qed.

Lemma set_total t t' num rest : lpSetTotalBytes (lp_buf t num rest) t' = Some (lp_buf t' num rest).
Proof.
  unfold lpSetTotalBytes, lp_buf. rewrite lp_store0.
  by apply (zput_app [] (le_bytes 4 t) (le_bytes 2 num ++ rest) (le_bytes 4 t')).
Qed.

Lemma set_num t num num' rest : lpSetNumElements (lp_buf t num rest) num' = Some (lp_buf t num' rest).
Proof.
  unfold lpSetNumElements, lp_buf. rewrite lp_store0.
  by apply (zput_app (le_bytes 4 t) (le_bytes 2 num) rest (le_bytes 2 num')).
Qed.

Lemma num_ok_range num es : num_ok num es -> urange 16 num.
Proof. unfold num_ok, urange. pose proof (zlen_nonneg es). change (2 ^ 16) with 65536. lia. Qed.

(** Writing an element and its back length into the room made for them. *)
Lemma write_entry P X B e ty intenc : zlen e < 2 ^ 32 - 5 ->
  lpEncodeGetType e = (ty, intenc, zlen (lp_enc e)) ->
  ((ty = LP_ENCODING_INT /\ intenc = lp_enc e) \/ (ty = LP_ENCODING_STRING /\ lp_enc e = lp_str_enc e)) ->
  zlen X = zlen (lp_enc e) + zlen (lp_back e) ->
  (lp ← (if ty =? LP_ENCODING_INT then zput (P ++ X ++ B) (zlen P) (take (Z.to_nat (zlen (lp_enc e))) intenc)
         else lpEncodeString (P ++ X ++ B) (zlen P) e);
   zput lp (zlen P + zlen (lp_enc e)) (take (Z.to_nat (zlen (lp_back e))) (lp_back e)))
  = Some (P ++ (lp_enc e ++ lp_back e) ++ B).
Proof.
  intros He _ Hty HX.
  destruct (zsplit3 X 0 (zlen (lp_enc e))) as (z & X1 & X2 & E & Hz & HX1); [zlia..|].
  apply zlen_0_nil in Hz as ->. cbn [app] in E. subst X. rewrite <- (app_assoc X1).
  assert (W : (if ty =? LP_ENCODING_INT then zput (P ++ X1 ++ X2 ++ B) (zlen P) (take (Z.to_nat (zlen (lp_enc e))) intenc)
         else lpEncodeString (P ++ X1 ++ X2 ++ B) (zlen P) e) = Some (P ++ lp_enc e ++ X2 ++ B)).
  { destruct Hty as [[-> ->]|[-> Es]].
    - rewrite Z.eqb_refl, to_nat_zlen, firstn_all. by apply zput_app.
    - change (LP_ENCODING_STRING =? LP_ENCODING_INT) with false. cbv iota. rewrite Es in HX1 |- *.
      apply encode_string_spec; [lia|done]. }
  rewrite W. cbn [mbind option_bind]. rewrite to_nat_zlen, firstn_all, app_assoc.
  rewrite zput_app by zlia. by rewrite <- !app_assoc.
Qed.

(** Where [lpInsert] works: before an element (nothing replaced) or on one. *)
Definition where_mid (w : Z) (mid : list bytes) : Prop :=
  (w = LP_BEFORE /\ mid = []) \/ (w = LP_REPLACE /\ exists o, mid = [o] /\ ele_ok o).

Lemma zlen_lp_buf t num rest : zlen (lp_buf t num rest) = 6 + zlen rest.
Proof. unfold lp_buf. zlia. Qed.

Lemma buf_split t num es1 mid es2 : lp_buf t num (lp_body (es1 ++ mid ++ es2) ++ [255]) =
  ((le_bytes 4 t ++ le_bytes 2 num) ++ lp_body es1) ++ lp_body mid ++ (lp_body es2 ++ [255]).
Proof. rewrite lp_buf_hdr, !lp_body_app, <- !app_assoc. done. Qed.

Lemma replaced_len w mid t num es1 es2 :
  where_mid w mid -> zlen (lp_body mid) < 2 ^ 32 -> (w =? LP_AFTER) = false /\
  (if w =? LP_REPLACE then
     r ← lpCurrentEncodedSize (lp_buf t num (lp_body (es1 ++ mid ++ es2) ++ [255])) (lp_at es1);
     Some (u32 (r + fst (lpEncodeBacklen r)))
   else Some 0) = Some (zlen (lp_body mid)).
Proof.
  intros [[-> ->]|[-> (o & -> & Ho)]] Hlt; [done|]. split; [done|]. rewrite Z.eqb_refl.
  rewrite lp_buf_hdr. cbn [app]. pose proof (view_size _ (zlen_hdr t num) es1 o es2 Ho) as E.
  unfold lp_view in E. rewrite E. cbn [mbind option_bind].
  destruct (zlen_lp_back o) as [? ->]. pose proof (zlen_lp_enc o). rewrite lp_body_cons in *.
  change (lp_body []) with (@nil Z) in *. rewrite app_nil_r in *. rewrite zlen_app in *. f_equal.
  apply uwrap_small. unfold urange. lia.
Qed.

Lemma s64_diff a b : 0 <= a < 2 ^ 40 -> 0 <= b < 2 ^ 40 -> s64 (u64 (a - b)) = a - b.
Proof.
  intros. rewrite swrap_uwrap by lia. apply swrap_small; [|lia]. unfold srange.
  change (2 ^ (64 - 1)) with (2 ^ 63). lia.
Qed.

(** The element count after the operation. *)
Definition num_after (num d : Z) : Z := if num =? LP_HDR_NUMELE_UNKNOWN then num else num + d.

(** The two forms of the move: both leave the room for the new entry. *)
Lemma move_forms w mid (L : bytes) P n T en bl :
  where_mid w mid -> en + bl = n -> 0 <= n < 2 ^ 40 -> zlen (lp_body mid) < 2 ^ 32 ->
  (if w =? LP_BEFORE then zmove L (P + en + bl) P (T - P)
   else
     let lendiff := s64 (u64 (en + bl - zlen (lp_body mid))) in
     zmove L (P + zlen (lp_body mid) + lendiff) (P + zlen (lp_body mid)) (T - P - zlen (lp_body mid)))
  = zmove L (P + n) (P + zlen (lp_body mid)) (T - P - zlen (lp_body mid)).
Proof.
  intros Hw <- Hn Hlt. cbv zeta. pose proof (zlen_nonneg (lp_body mid)).
  destruct Hw as [[-> ->]|[-> _]].
  - rewrite Z.eqb_refl. change (zlen (lp_body [])) with 0. f_equal; lia.
  - change (LP_REPLACE =? LP_BEFORE) with false. cbv iota. rewrite s64_diff by lia. f_equal; lia.
Qed.

Lemma insert_spec w mid es1 es2 e T num :
  where_mid w mid -> ele_ok e -> num_ok num (es1 ++ mid ++ es2) ->
  T = lp_at (es1 ++ mid ++ es2) + 1 -> T < 2 ^ 32 ->
  let T' := T + zlen (lp_body [e]) - zlen (lp_body mid) in
  lpInsert (lp_buf T num (lp_body (es1 ++ mid ++ es2) ++ [255])) (Some e) (lp_at es1) w =
    Some (if T' >? UINT32_MAX then LpNULL
          else LpOK (lp_buf T' (if w =? LP_BEFORE then num_after num 1 else num)
                      (lp_body (es1 ++ e :: es2) ++ [255])) (Some (lp_at es1))).
Proof.
  intros Hw He Hnum HT HT32 T'.
  pose proof (zlen_nonneg (lp_body es1)). pose proof (zlen_nonneg (lp_body mid)).
  pose proof (zlen_nonneg (lp_body es2)).
  assert (HTT : T = 6 + zlen (lp_body es1) + zlen (lp_body mid) + zlen (lp_body es2) + 1).
  { subst T. unfold lp_at. rewrite !lp_body_app. zlia. }
  assert (Hlt : zlen (lp_body mid) < 2 ^ 32) by lia.
  destruct (replaced_len w mid T num es1 es2 Hw Hlt) as [Ea Er].
  destruct (encode_type_spec e (proj2 He)) as (ty & intenc & Et & Hty).
  pose proof (zlen_lp_enc e). pose proof (zlen_lp_back e) as [? Eb]. pose proof (proj2 He).
  assert (Ebody : lp_body [e] = lp_enc e ++ lp_back e) by (unfold lp_body; simpl; by rewrite app_nil_r).
  assert (Hn : zlen (lp_body [e]) = zlen (lp_enc e) + zlen (lp_back e)) by (rewrite Ebody; zlia).
  unfold lpInsert. rewrite Ea. cbn [mbind option_bind]. rewrite Et.
  rewrite (surjective_pairing (lpEncodeBacklen (zlen (lp_enc e)))), Eb. fold (lp_back e).
  rewrite get_total by (unfold urange; lia). cbn [mbind option_bind]. rewrite Er. cbn [mbind option_bind].
  replace (T + zlen (lp_enc e) + zlen (lp_back e) - zlen (lp_body mid)) with T' by lia.
  rewrite (uwrap_small 64 T') by (unfold urange; lia).
  destruct (T' >? UINT32_MAX) eqn:Enull; [done|].
  rewrite (move_forms w mid _ _ (zlen (lp_body [e]))) by (done || lia).
  set (P := (le_bytes 4 T ++ le_bytes 2 num) ++ lp_body es1).
  assert (HP : zlen P = lp_at es1) by (apply zlen_prefix, zlen_hdr).
  rewrite buf_split. fold P. rewrite <- HP.
  replace (T - zlen P - zlen (lp_body mid)) with (zlen (lp_body es2 ++ [255])) by (rewrite HP; unfold lp_at; zlia).
  destruct (shift_tail P (lp_body mid) (lp_body es2 ++ [255]) (zlen (lp_body [e])) T T') as (X & J & Em & HX & Es);
    [lia|rewrite HP; unfold lp_at; zlia|rewrite HP; unfold lp_at; zlia|].
  rewrite Em. cbn [mbind option_bind]. rewrite Es.
  rewrite (write_entry P X _ e ty intenc) by (done || lia). cbn [mbind option_bind].
  rewrite <- Ebody, HP. unfold P. rewrite <- buf_split. cbn [app].
  assert (Hrest : forall lp', lp' = lp_buf T (if w =? LP_BEFORE then num_after num 1 else num)
     (lp_body (es1 ++ e :: es2) ++ [255]) -> 
     (lp ← Some lp'; lp ← lpSetTotalBytes lp T'; Some (LpOK lp (Some (lp_at es1)))) =
     Some (LpOK (lp_buf T' (if w =? LP_BEFORE then num_after num 1 else num)
       (lp_body (es1 ++ e :: es2) ++ [255])) (Some (lp_at es1)))).
  { intros lp' ->. cbn [mbind option_bind]. by rewrite set_total. }
  rewrite <- (Hrest _ eq_refl). f_equal.
  destruct Hw as [[-> ->]|[-> _]]; [|done].
  change (negb (LP_BEFORE =? LP_REPLACE) || false) with true. cbv iota.
  pose proof (num_ok_range _ _ Hnum) as Hr. rewrite get_num by done. cbn [mbind option_bind].
  change (LP_BEFORE =? LP_BEFORE) with true. unfold num_after. cbv iota.
  destruct (num =? LP_HDR_NUMELE_UNKNOWN) eqn:En; cbn [negb]; [done|].
  rewrite set_num. unfold urange in Hr. change (2 ^ 16) with 65536 in Hr.
  rewrite uwrap_small by (unfold urange; lia). done.
Qed.

Lemma delete_spec es1 o es2 T num w :
  ele_ok o -> num_ok num (es1 ++ o :: es2) -> T = lp_at (es1 ++ o :: es2) + 1 -> T < 2 ^ 32 ->
  lpInsert (lp_buf T num (lp_body (es1 ++ o :: es2) ++ [255])) None (lp_at es1) w =
    Some (LpOK (lp_buf (T - zlen (lp_body [o])) (num_after num (-1)) (lp_body (es1 ++ es2) ++ [255]))
               (lp_fst es1 es2)).
Proof.
  intros Ho Hnum HT HT32. set (T' := T - zlen (lp_body [o])).
  change (es1 ++ o :: es2) with (es1 ++ [o] ++ es2) in *.
  pose proof (zlen_nonneg (lp_body es1)). pose proof (zlen_nonneg (lp_body [o])).
  pose proof (zlen_nonneg (lp_body es2)).
  assert (HTT : T = 6 + zlen (lp_body es1) + zlen (lp_body [o]) + zlen (lp_body es2) + 1).
  { subst T. unfold lp_at. rewrite !lp_body_app. zlia. }
  assert (Hw : where_mid LP_REPLACE [o]) by (right; eauto).
  assert (Hlt : zlen (lp_body [o]) < 2 ^ 32) by lia.
  destruct (replaced_len LP_REPLACE [o] T num es1 es2 Hw Hlt) as [_ Er].
  unfold lpInsert. cbv zeta. change (LP_REPLACE =? LP_AFTER) with false. cbv iota. cbn [mbind option_bind].
  rewrite get_total by (unfold urange; lia). cbn [mbind option_bind]. rewrite Er. cbn [mbind option_bind].
  replace (T + 0 + 0 - zlen (lp_body [o])) with T' by lia.
  rewrite (uwrap_small 64 T') by (unfold urange; lia).
  assert (E0 : (T' >? UINT32_MAX) = false) by (rewrite Z.gtb_ltb; apply Z.ltb_ge; unfold UINT32_MAX; lia).
  rewrite E0. rewrite (move_forms LP_REPLACE [o] _ _ 0 T 0 0) by (done || lia).
  set (P := (le_bytes 4 T ++ le_bytes 2 num) ++ lp_body es1).
  assert (HP : zlen P = lp_at es1) by (apply zlen_prefix, zlen_hdr).
  rewrite buf_split. fold P. rewrite <- HP.
  replace (T - zlen P - zlen (lp_body [o])) with (zlen (lp_body es2 ++ [255])) by (rewrite HP; unfold lp_at; zlia).
  destruct (shift_tail P (lp_body [o]) (lp_body es2 ++ [255]) 0 T T') as (X & J & Em & HX & Es);
    [lia|rewrite HP; unfold lp_at; zlia|rewrite HP; unfold lp_at; zlia|].
  rewrite Em. cbn [mbind option_bind]. rewrite Es. apply zlen_0_nil in HX as ->. cbn [app].
  assert (EV : P ++ lp_body es2 ++ [255] = lp_view (le_bytes 4 T ++ le_bytes 2 num) (es1 ++ es2)).
  { unfold lp_view, P. by rewrite lp_body_app, <- !app_assoc. }
  rewrite EV. destruct (view_eof _ (zlen_hdr T num) es1 es2) as (b & Eg & Eb).
  rewrite HP, Eg. cbn [mbind option_bind]. rewrite Eb. unfold lp_view. rewrite <- lp_buf_hdr.
  change (negb (LP_REPLACE =? LP_REPLACE) || true) with true. cbv iota.
  pose proof (num_ok_range _ _ Hnum) as Hr. rewrite get_num by done. cbn [mbind option_bind].
  replace (if match es2 with [] => true | _ :: _ => false end then None else Some (lp_at es1))
    with (lp_fst es1 es2) by by destruct es2.
  unfold num_after. destruct (Z.eqb_spec num LP_HDR_NUMELE_UNKNOWN) as [En|En]; cbn [negb mbind option_bind].
  { by rewrite set_total. }
  rewrite set_num. cbn [mbind option_bind]. rewrite set_total. cbn [mbind option_bind].
  destruct Hnum as [[-> Hnum]|Hnum]; [|done]. unfold urange in Hr. change (2 ^ 16) with 65536 in Hr.
  assert (1 <= zlen (es1 ++ [o] ++ es2)) by zlia.
  rewrite uwrap_small by (unfold urange; lia). done.
Qed.

(** * The abstraction is preserved *)

Lemma rep_intro T num es : T = lp_at es + 1 -> T < 2 ^ 32 -> num_ok num es -> Forall ele_ok es ->
  lp_rep (lp_buf T num (lp_body es ++ [255])) es.
Proof.
  intros HT Hlt Hn Hok. exists num. rewrite zlen_lp_buf, zlen_app.
  replace (6 + (zlen (lp_body es) + zlen [255])) with T by (subst T; unfold lp_at; zlia). done.
Qed.

Lemma rep_elim lp es : lp_rep lp es -> exists num,
  lp = lp_buf (zlen lp) num (lp_body es ++ [255]) /\ zlen lp = lp_at es + 1 /\ zlen lp < 2 ^ 32 /\
  num_ok num es /\ Forall ele_ok es.
Proof.
  intros (num & E & Hlt & Hn & Hok). exists num. split_and!; try done.
  rewrite E at 1. rewrite zlen_lp_buf. unfold lp_at. zlia.
Qed.

Lemma num_after_insert num es1 e es2 : num_ok num (es1 ++ es2) -> num_ok (num_after num 1) (es1 ++ e :: es2).
Proof.
  unfold num_ok, num_after, LP_HDR_NUMELE_UNKNOWN. intros H. zcase; [by right|].
  destruct H as [[-> H]|]; [|done]. autorewrite with zlen in *. lia.
Qed.

Lemma num_after_delete num es1 o es2 : num_ok num (es1 ++ o :: es2) -> num_ok (num_after num (-1)) (es1 ++ es2).
Proof.
  unfold num_ok, num_after, LP_HDR_NUMELE_UNKNOWN. intros H. zcase; [by right|].
  destruct H as [[-> H]|]; [|done]. autorewrite with zlen in *. lia.
Qed.

(** Outcome of an insertion or replacement that adds [d] bytes: NULL exactly when the listpack
    would exceed 2^32 - 1 bytes. *)
Definition lp_outcome (lp : bytes) (d : Z) (r : option lpret) (es' : list bytes) (newp : Z) : Prop :=
  if zlen lp + d <=? UINT32_MAX
  then exists lp', r = Some (LpOK lp' (Some newp)) /\ lp_rep lp' es' /\ zlen lp' = zlen lp + d
  else r = Some LpNULL.

Lemma insert_outcome lp es1 mid es2 e w :
  lp_rep lp (es1 ++ mid ++ es2) -> where_mid w mid -> ele_ok e ->
  lp_outcome lp (zlen (lp_body [e]) - zlen (lp_body mid)) (lpInsert lp (Some e) (lp_at es1) w)
    (es1 ++ e :: es2) (lp_at es1).
Proof.
  intros (num & E & HT & Hlt & Hn & Hok)%rep_elim Hw He. unfold lp_outcome.
  pose proof (insert_spec w mid es1 es2 e (zlen lp) num Hw He Hn HT Hlt) as Hi. cbv zeta in Hi.
  rewrite <- E in Hi. rewrite Hi, Z.add_sub_assoc, Z.gtb_ltb. unfold UINT32_MAX.
  destruct (Z.leb_spec (zlen lp + zlen (lp_body [e]) - zlen (lp_body mid)) (2 ^ 32 - 1)); zdec; [|done].
  assert (HT' : zlen lp + zlen (lp_body [e]) - zlen (lp_body mid) = lp_at (es1 ++ e :: es2) + 1).
  { rewrite HT. change (e :: es2) with ([e] ++ es2). unfold lp_at. rewrite !lp_body_app. zlia. }
  eexists. split; [done|]. rewrite zlen_lp_buf, zlen_app, HT'. split; [|unfold lp_at; zlia].
  apply rep_intro; [done|lia| |].
  - destruct Hw as [[-> ->]|[-> (o & -> & _)]]; [by apply num_after_insert|].
    change (LP_REPLACE =? LP_BEFORE) with false. cbv iota.
    unfold num_ok in *. autorewrite with zlen in *. lia.
  - apply Forall_app in Hok as [H1 H2]. apply Forall_app in H2 as [_ H2].
    apply Forall_app. split; [done|]. by constructor.
Qed.

Lemma delete_outcome lp es1 o es2 w : lp_rep lp (es1 ++ o :: es2) ->
  exists lp', lpInsert lp None (lp_at es1) w = Some (LpOK lp' (lp_fst es1 es2)) /\ lp_rep lp' (es1 ++ es2).
Proof.
  intros (num & E & HT & Hlt & Hn & Hok)%rep_elim.
  apply Forall_app in Hok as [H1 [Ho H2]%list.Forall_cons].
  pose proof (delete_spec es1 o es2 (zlen lp) num w Ho Hn HT Hlt) as Hd. rewrite <- E in Hd.
  eexists. split; [exact Hd|]. pose proof (zlen_nonneg (lp_body [o])).
  apply rep_intro; [|lia|by eapply num_after_delete|by apply Forall_app].
  rewrite HT. change (o :: es2) with ([o] ++ es2). unfold lp_at. rewrite !lp_body_app. zlia.
Qed.

Lemma insert_after lp es1 o es2 e : lp_rep lp (es1 ++ o :: es2) ->
  lpInsert lp (Some e) (lp_at es1) LP_AFTER = lpInsert lp (Some e) (lp_at (es1 ++ [o])) LP_BEFORE.
Proof.
  intros (num & E & HT & Hlt & Hn & Hok)%rep_elim.
  apply Forall_app in Hok as [H1 [Ho H2]%list.Forall_cons].
  assert (Es : lpSkip lp (lp_at es1) = Some (lp_at (es1 ++ [o]))).
  { rewrite E, lp_buf_hdr. apply (view_skip _ (zlen_hdr _ _)). done. }
  unfold lpInsert. rewrite Z.eqb_refl, Es. done.
Qed.

Lemma lp_off_split es i e : es !! i = Some e ->
  es = take i es ++ e :: drop (S i) es /\ lp_off es i = lp_at (take i es).
Proof. intros H. by rewrite take_drop_middle. Qed.

Lemma lpNew_rep : exists lp, lpNew = Some lp /\ lp_rep lp [].
Proof.
  eexists. split; [vm_compute; reflexivity|]. exists 0. split_and!; [done|done|by left|constructor].
Qed.

Lemma zlen_elements lp es : lp_rep lp es -> zlen es < 2 ^ 32 /\ (length es <= length lp)%nat.
Proof.
  intros (num & E & HT & Hlt & _)%rep_elim.
  assert (zlen es <= zlen (lp_body es)).
  { clear. induction es as [|e es IH]; [done|]. rewrite lp_body_cons. autorewrite with zlen.
    pose proof (zlen_lp_enc e). pose proof (zlen_lp_back e). lia. }
  unfold lp_at in HT. unfold zlen in *. lia.
Qed.

(** The element an index denotes: negative indexes count from the end. *)
Definition seek_index (n index : Z) : option nat :=
  let i := if index <? 0 then n + index else index in
  if (0 <=? i) && (i <? n) then Some (Z.to_nat i) else None.

Lemma rep_view lp es : lp_rep lp es -> exists h num, zlen h = 6 /\ lp = lp_view h es /\
  lpGetNumElements lp = Some num /\ num_ok num es /\ lpGetTotalBytes lp = Some (lp_at es + 1) /\
  Forall ele_ok es.
Proof.
  intros (num & E & HT & Hlt & Hn & Hok)%rep_elim.
  exists (le_bytes 4 (zlen lp) ++ le_bytes 2 num), num. pose proof (zlen_nonneg lp).
  split_and!; [apply zlen_hdr|by rewrite E at 1; rewrite lp_buf_hdr| |done| |done].
  - rewrite E. apply get_num. by eapply num_ok_range.
  - rewrite E, <- HT. apply get_total. unfold urange. lia.
Qed.

Lemma last_spec lp es : lp_rep lp es -> lpLast lp = Some (lp_lst es).
Proof.
  intros (h & num & Hh & E & _ & _ & Ht & Hok)%rep_view. unfold lpLast. rewrite Ht.
  cbn [mbind option_bind]. rewrite Z.add_simpl_r, E.
  pose proof (view_prev h Hh es [] Hok) as Hp. by rewrite app_nil_r in Hp.
Qed.

Lemma lp_lst_take es k : (k < length es)%nat -> lp_lst (take (S k) es) = Some (lp_off es k).
Proof.
  intros Hk. destruct (lookup_lt_is_Some_2 es k Hk) as [e He].
  rewrite (take_S_r es k e He). unfold lp_lst. rewrite removelast_last.
  destruct (take k es ++ [e]) eqn:E; [by apply app_eq_nil in E as [_ ?]|done].
Qed.

Lemma lp_fst_drop es k : lp_fst (take k es) (drop k es) = if (k <? length es)%nat then Some (lp_off es k) else None.
Proof.
  destruct (Nat.ltb_spec k (length es)).
  - destruct (lookup_lt_is_Some_2 es k) as [e He]; [done|]. by rewrite (drop_S es e k He).
  - by rewrite drop_ge by lia.
Qed.

Lemma seek_fwd lp es i : lp_rep lp es -> 0 <= i ->
  (ele ← lpFirst lp; seek_forward (Z.to_nat i) lp ele) =
    Some (if i <? zlen es then Some (lp_off es (Z.to_nat i)) else None).
Proof.
  intros (h & num & Hh & -> & _ & _ & _ & Hok)%rep_view Hi.
  rewrite view_first by done. cbn [mbind option_bind].
  etransitivity; [apply (view_forward h Hh (Z.to_nat i) [] es Hok)|]. cbn [app].
  rewrite lp_fst_drop. f_equal.
  unfold zlen. destruct (Nat.ltb_spec (Z.to_nat i) (length es)); zdec; done.
Qed.

Lemma seek_bwd lp es k : lp_rep lp es -> 0 <= k ->
  (ele ← lpLast lp; seek_backward (Z.to_nat k) lp ele) =
    Some (if k <? zlen es then Some (lp_off es (Z.to_nat (zlen es - 1 - k))) else None).
Proof.
  intros Hr Hk. rewrite (last_spec lp es Hr). cbn [mbind option_bind].
  apply rep_view in Hr as (h & num & Hh & -> & _ & _ & _ & Hok).
  pose proof (view_backward h Hh (Z.to_nat k) es [] Hok) as E. rewrite app_nil_r in E. rewrite E. f_equal.
  unfold zlen. destruct (Z.ltb_spec k (Z.of_nat (length es))).
  - replace (length es - Z.to_nat k)%nat with (S (Z.to_nat (Z.of_nat (length es) - 1 - k))) by lia.
    rewrite lp_lst_take by lia. done.
  - by replace (length es - Z.to_nat k)%nat with 0%nat by lia.
Qed.

Lemma seek_spec lp es index : lp_rep lp es ->
  lpSeek lp index = Some (lp_off es <$> seek_index (zlen es) index).
Proof.
  intros Hr. pose proof (rep_view lp es Hr) as (h & num & _ & _ & Hnum & Hn & _).
  unfold lpSeek, seek_index. rewrite Hnum. cbn [mbind option_bind]. cbv zeta.
  pose proof (zlen_nonneg es).
  destruct (Z.eqb_spec num LP_HDR_NUMELE_UNKNOWN) as [_|Hne]; cbn [negb].
  - destruct (Z.ltb_spec index 0); cbn [negb].
    + rewrite (seek_bwd lp es) by (done || lia). f_equal.
      destruct (Z.ltb_spec (-1 - index) (zlen es)); repeat zdec; cbn [andb]; [|done].
      simpl. do 2 f_equal. lia.
    + rewrite (seek_fwd lp es) by done. f_equal. zdec. cbn [andb]. by case_match.
  - destruct Hn as [[-> Hlt]|?]; [|done].
    set (i := if index <? 0 then zlen es + index else index).
    destruct (Z.ltb_spec i 0); [by repeat zdec|]. rewrite Z.geb_leb, Z.gtb_ltb.
    destruct (Z.leb_spec (zlen es) i); [by repeat zdec|]. repeat zdec. cbn [andb].
    destruct (Z.ltb_spec (zlen es / 2) i).
    + rewrite (seek_bwd lp es) by (done || lia). zdec. simpl. do 3 f_equal. lia.
    + rewrite (seek_fwd lp es) by done. by zdec.
Qed.

Lemma length_spec lp es : lp_rep lp es ->
  exists lp', lpLength lp = Some (lp', zlen es) /\ lp_rep lp' es.
Proof.
  intros Hr. pose proof (zlen_elements _ _ Hr) as [Hlt Hf].
  pose proof (rep_view lp es Hr) as (h & num & Hh & E & Hnum & Hn & _ & Hok).
  unfold lpLength. rewrite Hnum. cbn [mbind option_bind].
  destruct (Z.eqb_spec num LP_HDR_NUMELE_UNKNOWN) as [->|Hne]; cbn [negb].
  - assert (Ef : lpFirst lp = Some (lp_fst [] es)) by (rewrite E; by apply view_first).
    pose proof (view_length h Hh es [] (length lp) 0 Hok Hf ltac:(lia) ltac:(lia)) as El.
    cbn [app] in El. rewrite <- E in El. rewrite Ef. cbn [mbind option_bind].
    rewrite El. cbn [mbind option_bind]. rewrite Z.add_0_l.
    unfold LP_HDR_NUMELE_UNKNOWN. destruct (Z.ltb_spec (zlen es) 65535); [|by exists lp].
    apply rep_elim in Hr as (num' & E' & HT & Hlt' & _). rewrite E', set_num. cbn [mbind option_bind].
    eexists. split; [done|]. apply rep_intro; [done|done|by left|done].
  - destruct Hn as [[-> _]|?]; [|done]. by exists lp.
Qed.

(** * Theorems *)

(** The encoded length of a string of at least 2^32 - 5 bytes wraps around in the 32-bit sum
    [5+size]: [lpEncodeGetType] then reports fewer than 5 bytes for an element whose encoding takes
    more than 2^32 - 1, so the room [lpInsert] makes for it is too small. *)
Theorem lpEncodeGetType_wraps e : 2 ^ 32 - 5 <= zlen e < 2 ^ 32 -> string2ll e = None ->
  exists enclen, lpEncodeGetType e = (LP_ENCODING_STRING, [], enclen) /\
    enclen = zlen e + 5 - 2 ^ 32 /\ enclen < 5 /\ zlen (lp_enc e) = enclen + 2 ^ 32.
Proof.
  intros Hlen Hs. unfold lpEncodeGetType, lp_enc. rewrite lpStringToInt64_eq, Hs, zlen_lp_str_enc.
  repeat zdec. eexists. split; [done|].
  assert (E : u32 (5 + zlen e) = zlen e + 5 - 2 ^ 32).
  { unfold uwrap. symmetry. apply (Zmod_unique _ _ 1); lia. }
  rewrite E. lia.
Qed.

Lemma lpEncodeGetType_wraps_witness :
  exists enclen, lpEncodeGetType (replicate (Z.to_nat (2 ^ 32 - 4)) 97) = (LP_ENCODING_STRING, [], enclen) /\
    enclen = 1.
Proof.
  destruct (lpEncodeGetType_wraps (replicate (Z.to_nat (2 ^ 32 - 4)) 97)) as (n & E & Hn & _).
  - rewrite zlen_replicate. lia.
  - replace (Z.to_nat (2 ^ 32 - 4)) with (S (Z.to_nat (2 ^ 32 - 5))) by lia.
    cbn [replicate string2ll]. change (97 =? ch_0) with false. rewrite andb_false_r. reflexivity.
  - exists n. split; [exact E|]. rewrite Hn, zlen_replicate. lia.
Defined.

Lemma zput_over {A} (l src : list A) i : zlen l < i + zlen src -> zput l i src = None.
Proof. intros H. unfold zput. by rewrite (proj2 (Z.leb_gt _ _) H), andb_false_r. Qed.

(** Such a string is copied past the end of the buffer, unless there is no room even for its
    wrapped length. *)
Lemma append_overrun lp es e : lp_rep lp es -> 2 ^ 32 - 5 <= zlen e < 2 ^ 32 -> string2ll e = None ->
  zlen lp + 5 < 2 ^ 32 -> lpAppend lp e = None.
Proof.
  intros Hr He Hs Hlp. pose proof Hr as (num & E & HT & _)%rep_elim. apply rep_view in Hr as (h & num' & _ & _ & _ & _ & Ht & _).
  rewrite <- HT in Ht. assert (7 <= zlen lp) by (rewrite HT; unfold lp_at; zlia).
  destruct (lpEncodeGetType_wraps e He Hs) as (n & Et & Hn & Hn5 & _).
  unfold lpAppend, lpInsert. rewrite Ht. cbn [mbind option_bind]. change (LP_BEFORE =? LP_AFTER) with false. cbv iota.
  cbn [mbind option_bind]. rewrite Et.
  assert (Eb : lpEncodeBacklen n = (1, [n])).
  { unfold lpEncodeBacklen. rewrite (proj2 (Z.leb_le n 127)) by lia. do 3 f_equal. apply uwrap_small. unfold urange. lia. }
  rewrite Eb. cbn [mbind option_bind]. change (LP_BEFORE =? LP_REPLACE) with false. change (LP_BEFORE =? LP_BEFORE) with true. cbv iota.
  cbn [mbind option_bind]. cbv zeta. rewrite uwrap_small, Z.sub_0_r by (unfold urange; lia). unfold UINT32_MAX.
  rewrite !Z.gtb_ltb, (proj2 (Z.ltb_ge (2 ^ 32 - 1) _)), (proj2 (Z.ltb_lt (zlen lp) _)) by lia.
  destruct (zresize_grow lp (zlen lp + n + 1)) as (pad & -> & Hpad); [lia|].
  destruct (zmove _ _ _ _) as [lp1|] eqn:Em; [|done]. cbn [mbind option_bind].
  assert (Hl1 : zlen lp1 = zlen lp + n + 1).
  { unfold zmove in Em. destruct (zsub _ _ _); [|done]. cbn [mbind option_bind] in Em. apply zput_len in Em. rewrite Em, zlen_app. lia. }
  rewrite (proj2 (Z.ltb_ge _ _)) by lia. change (LP_ENCODING_STRING =? LP_ENCODING_INT) with false. cbv iota.
  unfold lpEncodeString. cbv zeta. rewrite !(proj2 (Z.ltb_ge (zlen e) _)) by lia.
  destruct (zput lp1 _ _) as [lp2|] eqn:E2; [|done]. cbn [mbind option_bind]. apply zput_len in E2.
  rewrite zput_over; [done|]. rewrite E2, Hl1. lia.
Qed.

(** C11. Every operation that changes a listpack implements the list operation it stands for, and
    keeps the listpack well formed: [lpNew] makes the empty list; [lpAppend], on every listpack,
    the empty one included, [lpInsert] before, after or on element [i], and [lpDelete] give exactly
    the list with the element appended, inserted, replaced or removed, with [*newp] at the new (or
    next) element; an insertion that would exceed 2^32 - 1 bytes returns NULL and nothing else
    does; no access leaves the buffer.  This is for elements shorter than 2^32 - 5 bytes.  For a
    longer one, the text of no integer, the 32-bit sum of its encoded length wraps and appending
    it writes past the end of the buffer. *)
Theorem listpack_refines_list lp es e : lp_rep lp es ->
  (exists lp0, lpNew = Some lp0 /\ lp_rep lp0 []) /\
  (ele_ok e ->
   lp_outcome lp (zlen (lp_entry e)) (lpAppend lp e) (es ++ [e]) (lp_off es (length es))) /\
  (forall i o, es !! i = Some o -> ele_ok e ->
   lp_outcome lp (zlen (lp_entry e)) (lpInsert lp (Some e) (lp_off es i) LP_BEFORE)
     (take i es ++ e :: drop i es) (lp_off es i) /\
   lp_outcome lp (zlen (lp_entry e)) (lpInsert lp (Some e) (lp_off es i) LP_AFTER)
     (take (S i) es ++ e :: drop (S i) es) (lp_off es (S i)) /\
   lp_outcome lp (zlen (lp_entry e) - zlen (lp_entry o)) (lpInsert lp (Some e) (lp_off es i) LP_REPLACE)
     (<[i := e]> es) (lp_off es i)) /\
  (forall i o, es !! i = Some o ->
   exists lp', lpDelete lp (lp_off es i) =
       Some (LpOK lp' (if (S i =? length es)%nat then None else Some (lp_off es i))) /\
     lp_rep lp' (delete i es)) /\
  (2 ^ 32 - 5 <= zlen e < 2 ^ 32 -> string2ll e = None -> zlen lp + 5 < 2 ^ 32 -> lpAppend lp e = None).
Proof.
  intros Hr.
  assert (Eb : forall x, lp_body [x] = lp_entry x) by (intros; unfold lp_body; simpl; by rewrite app_nil_r).
  assert (Hb : ele_ok e -> forall es1 es2, es = es1 ++ es2 -> lp_outcome lp (zlen (lp_entry e))
    (lpInsert lp (Some e) (lp_at es1) LP_BEFORE) (es1 ++ e :: es2) (lp_at es1)).
  { intros He es1 es2 ->. pose proof (insert_outcome lp es1 [] es2 e LP_BEFORE Hr) as H.
    rewrite Eb in H. change (zlen (lp_body [])) with 0 in H. rewrite Z.sub_0_r in H.
    apply H; [by left|done]. }
  split_and!.
  - apply lpNew_rep.
  - intros He. unfold lpAppend. apply rep_view in Hr as (h & num & _ & _ & _ & _ & Ht & _). rewrite Ht.
    cbn [mbind option_bind]. rewrite Z.add_simpl_r. unfold lp_off. rewrite firstn_all.
    apply (Hb He es []). by rewrite app_nil_r.
  - intros i o Hi He. pose proof (lp_off_split es i o Hi) as [Es Eo].
    assert (Ho : ele_ok o).
    { apply rep_elim in Hr as (_ & _ & _ & _ & _ & Hok). by eapply list.Forall_lookup_1 in Hok. }
    split_and!.
    + rewrite Eo. apply Hb; [done|]. by rewrite take_drop.
    + rewrite Es in Hr. rewrite Eo, (insert_after lp _ o _ e Hr). unfold lp_off.
      rewrite (take_S_r es i o Hi). apply Hb; [done|]. rewrite <- app_assoc. done.
    + rewrite Eo, insert_take_drop by (by eapply lookup_lt_Some). rewrite <- !Eb.
      apply (insert_outcome lp _ [o]); [by rewrite Es in Hr|right; eauto|done].
  - intros i o Hi. pose proof (lp_off_split es i o Hi) as [Es Eo].
    rewrite Es in Hr. destruct (delete_outcome lp _ _ _ LP_REPLACE Hr) as (lp' & E & H').
    exists lp'. rewrite delete_take_drop. split; [|done]. unfold lpDelete. rewrite Eo, E. do 2 f_equal.
    apply lookup_lt_Some in Hi.
    destruct (Nat.eqb_spec (S i) (length es)); [by rewrite drop_ge by lia|].
    destruct (drop (S i) es) eqn:Ed; [|done]. apply (f_equal length) in Ed. rewrite length_drop in Ed.
    simpl in Ed. lia.
  - intros He Hs Hl. by apply (append_overrun lp es).
Qed.

(** A three-element listpack for the witnesses. *)
Definition lp_sample_elements : list bytes := [str "hello"; str "70000"; str "-1000"].
Definition lp_sample : bytes := lp_buf 22 3 (lp_body lp_sample_elements ++ [255]).

Lemma lp_sample_rep : lp_rep lp_sample lp_sample_elements.
Proof.
  apply rep_intro; [vm_compute; reflexivity|lia|by left|].
  repeat constructor; vm_compute; congruence.
Qed.

Lemma listpack_refines_list_witness :
  (exists lp', lpDelete lp_sample (lp_off lp_sample_elements 1) =
      Some (LpOK lp' (Some (lp_off lp_sample_elements 1))) /\ lp_rep lp' [str "hello"; str "-1000"]) /\
  (exists lp0 lp', lpNew = Some lp0 /\ lpAppend lp0 (str "x") = Some (LpOK lp' (Some 6)) /\ lp_rep lp' [str "x"]).
Proof.
  destruct (listpack_refines_list lp_sample lp_sample_elements (str "x") lp_sample_rep) as ((lp0 & E0 & H0) & _ & _ & Hd & _).
  split; [exact (Hd 1%nat (str "70000") eq_refl)|].
  destruct (listpack_refines_list lp0 [] (str "x") H0) as (_ & Ha & _).
  assert (Ho : lp_outcome lp0 (zlen (lp_entry (str "x"))) (lpAppend lp0 (str "x")) ([] ++ [str "x"]) (lp_off [] 0)).
  { apply Ha. split; [repeat constructor; lia|vm_compute; reflexivity]. }
  assert (Ez : zlen lp0 = 7) by (vm_compute in E0; by injection E0 as <-).
  unfold lp_outcome in Ho. rewrite Ez in Ho. destruct Ho as (lp' & E & Hr & _). exists lp0, lp'. split_and!; done.
Defined.

(** Reading an element back gives the byte string that was stored: for every element of a
    well-formed listpack, [lpGet] at its offset, with or without a text buffer, returns a value
    that denotes exactly that string, and it is an integer exactly when the string is the decimal
    representation of one. *)
Theorem lpGet_roundtrip lp es i e intbuf : lp_rep lp es -> es !! i = Some e ->
  (exists r, lpGet lp (lp_off es i) intbuf = Some r /\ lp_deref lp r = Some e) /\
  (forall v, lpGet lp (lp_off es i) false = Some (LpInt v) <-> srange 64 v /\ e = decimal v).
Proof.
  intros Hr Hi. pose proof (lp_off_split es i e Hi) as [Es Eo].
  pose proof (rep_view lp es Hr) as (h & num & Hh & E & _ & _ & _ & Hok).
  pose proof (list.Forall_lookup_1 _ _ _ _ Hok Hi) as [_ He].
  rewrite Es, view_split in E by done. rewrite Eo, <- (zlen_prefix h Hh), E.
  destruct (decode_entry (h ++ lp_body (take i es)) e (lp_back e ++ lp_body (drop (S i) es) ++ [255]) He)
    as (_ & Hg & Hv).
  split; [apply Hg|]. intros v. rewrite Hv. split; [apply string2ll_sound|].
  intros [? ->]. by apply string2ll_decimal.
Qed.

Lemma lpGet_roundtrip_witness :
  exists r, lpGet lp_sample (lp_off lp_sample_elements 2) true = Some r /\
    lp_deref lp_sample r = Some (str "-1000").
Proof. apply (lpGet_roundtrip lp_sample lp_sample_elements 2 _ true lp_sample_rep eq_refl). Defined.

(** The navigation functions visit exactly the elements: [lpFirst], [lpLast], [lpNext] and
    [lpPrev] move between adjacent elements and return NULL at the ends (the back lengths lead
    exactly one entry to the left); [lpSeek] finds the element of any index, from either end and
    whether or not the count is cached; [lpLength] returns the number of elements even when the
    16-bit header field cannot hold it. *)
Theorem listpack_navigation lp es i e : lp_rep lp es -> es !! i = Some e ->
  lpFirst lp = Some (Some (lp_off es 0)) /\
  lpLast lp = Some (Some (lp_off es (length es - 1))) /\
  lpNext lp (lp_off es i) = Some (if (S i <? length es)%nat then Some (lp_off es (S i)) else None) /\
  lpPrev lp (lp_off es i) = Some (match i with O => None | S j => Some (lp_off es j) end) /\
  (forall index, lpSeek lp index = Some (lp_off es <$> seek_index (zlen es) index)) /\
  (exists lp', lpLength lp = Some (lp', zlen es) /\ lp_rep lp' es).
Proof.
  intros Hr Hi. pose proof (lp_off_split es i e Hi) as [Es Eo]. pose proof (lookup_lt_Some _ _ _ Hi) as Hlt.
  pose proof (rep_view lp es Hr) as (h & num & Hh & E & _ & _ & _ & Hok).
  pose proof (list.Forall_lookup_1 _ _ _ _ Hok Hi) as He.
  assert (Ht : Forall ele_ok (take i es)) by by apply Forall_take.
  split_and!.
  - rewrite E, view_first by done. by destruct es.
  - rewrite (last_spec lp es Hr). rewrite <- (firstn_all es) at 1.
    replace (length es) with (S (length es - 1)) at 1 by lia. rewrite lp_lst_take by lia. done.
  - rewrite Eo, E. rewrite Es at 1. rewrite view_next by done.
    rewrite <- (take_S_r es i e Hi). by rewrite lp_fst_drop.
  - rewrite Eo, E. rewrite <- (take_drop i es) at 1. rewrite view_prev by done. f_equal.
    destruct i; [done|]. by rewrite lp_lst_take by lia.
  - intros. by apply seek_spec.
  - by apply length_spec.
Qed.

Lemma listpack_navigation_witness :
  lpSeek lp_sample (-1) = Some (Some (lp_off lp_sample_elements 2)) /\
  lpPrev lp_sample (lp_off lp_sample_elements 1) = Some (Some (lp_off lp_sample_elements 0)).
Proof.
  pose proof (listpack_navigation lp_sample lp_sample_elements 1 _ lp_sample_rep eq_refl)
    as (_ & _ & _ & Hp & Hs & _).
  split; [exact (Hs (-1))|exact Hp].
Defined.

