(* ===== verification/Crc.v ===== *)
(** CRC16 (crc16.c), CRC64 (crc64.c) and the cluster's key hash slot (cluster.c, [keyHashSlot]).

    A (pointer, length) argument pair is the list of the bytes it covers.  The table-driven loops
    are translated with their tables; the theorems compare them with the polynomial arithmetic
    they implement, which is defined here without tables ([pmul], [crc64_bit]). *)

From S2P Require Import Prelude Util.
#[local] Open Scope Z_scope.

(** * The code *)

Definition crc16tab : list Z :=
  [0x0000; 0x1021; 0x2042; 0x3063; 0x4084; 0x50a5; 0x60c6; 0x70e7;
   0x8108; 0x9129; 0xa14a; 0xb16b; 0xc18c; 0xd1ad; 0xe1ce; 0xf1ef;
   0x1231; 0x0210; 0x3273; 0x2252; 0x52b5; 0x4294; 0x72f7; 0x62d6;
   0x9339; 0x8318; 0xb37b; 0xa35a; 0xd3bd; 0xc39c; 0xf3ff; 0xe3de;
   0x2462; 0x3443; 0x0420; 0x1401; 0x64e6; 0x74c7; 0x44a4; 0x5485;
   0xa56a; 0xb54b; 0x8528; 0x9509; 0xe5ee; 0xf5cf; 0xc5ac; 0xd58d;
   0x3653; 0x2672; 0x1611; 0x0630; 0x76d7; 0x66f6; 0x5695; 0x46b4;
   0xb75b; 0xa77a; 0x9719; 0x8738; 0xf7df; 0xe7fe; 0xd79d; 0xc7bc;
   0x48c4; 0x58e5; 0x6886; 0x78a7; 0x0840; 0x1861; 0x2802; 0x3823;
   0xc9cc; 0xd9ed; 0xe98e; 0xf9af; 0x8948; 0x9969; 0xa90a; 0xb92b;
   0x5af5; 0x4ad4; 0x7ab7; 0x6a96; 0x1a71; 0x0a50; 0x3a33; 0x2a12;
   0xdbfd; 0xcbdc; 0xfbbf; 0xeb9e; 0x9b79; 0x8b58; 0xbb3b; 0xab1a;
   0x6ca6; 0x7c87; 0x4ce4; 0x5cc5; 0x2c22; 0x3c03; 0x0c60; 0x1c41;
   0xedae; 0xfd8f; 0xcdec; 0xddcd; 0xad2a; 0xbd0b; 0x8d68; 0x9d49;
   0x7e97; 0x6eb6; 0x5ed5; 0x4ef4; 0x3e13; 0x2e32; 0x1e51; 0x0e70;
   0xff9f; 0xefbe; 0xdfdd; 0xcffc; 0xbf1b; 0xaf3a; 0x9f59; 0x8f78;
   0x9188; 0x81a9; 0xb1ca; 0xa1eb; 0xd10c; 0xc12d; 0xf14e; 0xe16f;
   0x1080; 0x00a1; 0x30c2; 0x20e3; 0x5004; 0x4025; 0x7046; 0x6067;
   0x83b9; 0x9398; 0xa3fb; 0xb3da; 0xc33d; 0xd31c; 0xe37f; 0xf35e;
   0x02b1; 0x1290; 0x22f3; 0x32d2; 0x4235; 0x5214; 0x6277; 0x7256;
   0xb5ea; 0xa5cb; 0x95a8; 0x8589; 0xf56e; 0xe54f; 0xd52c; 0xc50d;
   0x34e2; 0x24c3; 0x14a0; 0x0481; 0x7466; 0x6447; 0x5424; 0x4405;
   0xa7db; 0xb7fa; 0x8799; 0x97b8; 0xe75f; 0xf77e; 0xc71d; 0xd73c;
   0x26d3; 0x36f2; 0x0691; 0x16b0; 0x6657; 0x7676; 0x4615; 0x5634;
   0xd94c; 0xc96d; 0xf90e; 0xe92f; 0x99c8; 0x89e9; 0xb98a; 0xa9ab;
   0x5844; 0x4865; 0x7806; 0x6827; 0x18c0; 0x08e1; 0x3882; 0x28a3;
   0xcb7d; 0xdb5c; 0xeb3f; 0xfb1e; 0x8bf9; 0x9bd8; 0xabbb; 0xbb9a;
   0x4a75; 0x5a54; 0x6a37; 0x7a16; 0x0af1; 0x1ad0; 0x2ab3; 0x3a92;
   0xfd2e; 0xed0f; 0xdd6c; 0xcd4d; 0xbdaa; 0xad8b; 0x9de8; 0x8dc9;
   0x7c26; 0x6c07; 0x5c64; 0x4c45; 0x3ca2; 0x2c83; 0x1ce0; 0x0cc1;
   0xef1f; 0xff3e; 0xcf5d; 0xdf7c; 0xaf9b; 0xbfba; 0x8fd9; 0x9ff8;
   0x6e17; 0x7e36; 0x4e55; 0x5e74; 0x2e93; 0x3eb2; 0x0ed1; 0x1ef0].

Definition crc64_tab : list Z :=
  [0x0000000000000000; 0x7ad870c830358979; 0xf5b0e190606b12f2; 0x8f689158505e9b8b;
   0xc038e5739841b68f; 0xbae095bba8743ff6; 0x358804e3f82aa47d; 0x4f50742bc81f2d04;
   0xab28ecb46814fe75; 0xd1f09c7c5821770c; 0x5e980d24087fec87; 0x24407dec384a65fe;
   0x6b1009c7f05548fa; 0x11c8790fc060c183; 0x9ea0e857903e5a08; 0xe478989fa00bd371;
   0x7d08ff3b88be6f81; 0x07d08ff3b88be6f8; 0x88b81eabe8d57d73; 0xf2606e63d8e0f40a;
   0xbd301a4810ffd90e; 0xc7e86a8020ca5077; 0x4880fbd87094cbfc; 0x32588b1040a14285;
   0xd620138fe0aa91f4; 0xacf86347d09f188d; 0x2390f21f80c18306; 0x594882d7b0f40a7f;
   0x1618f6fc78eb277b; 0x6cc0863448deae02; 0xe3a8176c18803589; 0x997067a428b5bcf0;
   0xfa11fe77117cdf02; 0x80c98ebf2149567b; 0x0fa11fe77117cdf0; 0x75796f2f41224489;
   0x3a291b04893d698d; 0x40f16bccb908e0f4; 0xcf99fa94e9567b7f; 0xb5418a5cd963f206;
   0x513912c379682177; 0x2be1620b495da80e; 0xa489f35319033385; 0xde51839b2936bafc;
   0x9101f7b0e12997f8; 0xebd98778d11c1e81; 0x64b116208142850a; 0x1e6966e8b1770c73;
   0x8719014c99c2b083; 0xfdc17184a9f739fa; 0x72a9e0dcf9a9a271; 0x08719014c99c2b08;
   0x4721e43f0183060c; 0x3df994f731b68f75; 0xb29105af61e814fe; 0xc849756751dd9d87;
   0x2c31edf8f1d64ef6; 0x56e99d30c1e3c78f; 0xd9810c6891bd5c04; 0xa3597ca0a188d57d;
   0xec09088b6997f879; 0x96d1784359a27100; 0x19b9e91b09fcea8b; 0x636199d339c963f2;
   0xdf7adabd7a6e2d6f; 0xa5a2aa754a5ba416; 0x2aca3b2d1a053f9d; 0x50124be52a30b6e4;
   0x1f423fcee22f9be0; 0x659a4f06d21a1299; 0xeaf2de5e82448912; 0x902aae96b271006b;
   0x74523609127ad31a; 0x0e8a46c1224f5a63; 0x81e2d7997211c1e8; 0xfb3aa75142244891;
   0xb46ad37a8a3b6595; 0xceb2a3b2ba0eecec; 0x41da32eaea507767; 0x3b024222da65fe1e;
   0xa2722586f2d042ee; 0xd8aa554ec2e5cb97; 0x57c2c41692bb501c; 0x2d1ab4dea28ed965;
   0x624ac0f56a91f461; 0x1892b03d5aa47d18; 0x97fa21650afae693; 0xed2251ad3acf6fea;
   0x095ac9329ac4bc9b; 0x7382b9faaaf135e2; 0xfcea28a2faafae69; 0x8632586aca9a2710;
   0xc9622c4102850a14; 0xb3ba5c8932b0836d; 0x3cd2cdd162ee18e6; 0x460abd1952db919f;
   0x256b24ca6b12f26d; 0x5fb354025b277b14; 0xd0dbc55a0b79e09f; 0xaa03b5923b4c69e6;
   0xe553c1b9f35344e2; 0x9f8bb171c366cd9b; 0x10e3202993385610; 0x6a3b50e1a30ddf69;
   0x8e43c87e03060c18; 0xf49bb8b633338561; 0x7bf329ee636d1eea; 0x012b592653589793;
   0x4e7b2d0d9b47ba97; 0x34a35dc5ab7233ee; 0xbbcbcc9dfb2ca865; 0xc113bc55cb19211c;
   0x5863dbf1e3ac9dec; 0x22bbab39d3991495; 0xadd33a6183c78f1e; 0xd70b4aa9b3f20667;
   0x985b3e827bed2b63; 0xe2834e4a4bd8a21a; 0x6debdf121b863991; 0x1733afda2bb3b0e8;
   0xf34b37458bb86399; 0x8993478dbb8deae0; 0x06fbd6d5ebd3716b; 0x7c23a61ddbe6f812;
   0x3373d23613f9d516; 0x49aba2fe23cc5c6f; 0xc6c333a67392c7e4; 0xbc1b436e43a74e9d;
   0x95ac9329ac4bc9b5; 0xef74e3e19c7e40cc; 0x601c72b9cc20db47; 0x1ac40271fc15523e;
   0x5594765a340a7f3a; 0x2f4c0692043ff643; 0xa02497ca54616dc8; 0xdafce7026454e4b1;
   0x3e847f9dc45f37c0; 0x445c0f55f46abeb9; 0xcb349e0da4342532; 0xb1eceec59401ac4b;
   0xfebc9aee5c1e814f; 0x8464ea266c2b0836; 0x0b0c7b7e3c7593bd; 0x71d40bb60c401ac4;
   0xe8a46c1224f5a634; 0x927c1cda14c02f4d; 0x1d148d82449eb4c6; 0x67ccfd4a74ab3dbf;
   0x289c8961bcb410bb; 0x5244f9a98c8199c2; 0xdd2c68f1dcdf0249; 0xa7f41839ecea8b30;
   0x438c80a64ce15841; 0x3954f06e7cd4d138; 0xb63c61362c8a4ab3; 0xcce411fe1cbfc3ca;
   0x83b465d5d4a0eece; 0xf96c151de49567b7; 0x76048445b4cbfc3c; 0x0cdcf48d84fe7545;
   0x6fbd6d5ebd3716b7; 0x15651d968d029fce; 0x9a0d8ccedd5c0445; 0xe0d5fc06ed698d3c;
   0xaf85882d2576a038; 0xd55df8e515432941; 0x5a3569bd451db2ca; 0x20ed197575283bb3;
   0xc49581ead523e8c2; 0xbe4df122e51661bb; 0x3125607ab548fa30; 0x4bfd10b2857d7349;
   0x04ad64994d625e4d; 0x7e7514517d57d734; 0xf11d85092d094cbf; 0x8bc5f5c11d3cc5c6;
   0x12b5926535897936; 0x686de2ad05bcf04f; 0xe70573f555e26bc4; 0x9ddd033d65d7e2bd;
   0xd28d7716adc8cfb9; 0xa85507de9dfd46c0; 0x273d9686cda3dd4b; 0x5de5e64efd965432;
   0xb99d7ed15d9d8743; 0xc3450e196da80e3a; 0x4c2d9f413df695b1; 0x36f5ef890dc31cc8;
   0x79a59ba2c5dc31cc; 0x037deb6af5e9b8b5; 0x8c157a32a5b7233e; 0xf6cd0afa9582aa47;
   0x4ad64994d625e4da; 0x300e395ce6106da3; 0xbf66a804b64ef628; 0xc5bed8cc867b7f51;
   0x8aeeace74e645255; 0xf036dc2f7e51db2c; 0x7f5e4d772e0f40a7; 0x05863dbf1e3ac9de;
   0xe1fea520be311aaf; 0x9b26d5e88e0493d6; 0x144e44b0de5a085d; 0x6e963478ee6f8124;
   0x21c640532670ac20; 0x5b1e309b16452559; 0xd476a1c3461bbed2; 0xaeaed10b762e37ab;
   0x37deb6af5e9b8b5b; 0x4d06c6676eae0222; 0xc26e573f3ef099a9; 0xb8b627f70ec510d0;
   0xf7e653dcc6da3dd4; 0x8d3e2314f6efb4ad; 0x0256b24ca6b12f26; 0x788ec2849684a65f;
   0x9cf65a1b368f752e; 0xe62e2ad306bafc57; 0x6946bb8b56e467dc; 0x139ecb4366d1eea5;
   0x5ccebf68aecec3a1; 0x2616cfa09efb4ad8; 0xa97e5ef8cea5d153; 0xd3a62e30fe90582a;
   0xb0c7b7e3c7593bd8; 0xca1fc72bf76cb2a1; 0x45775673a732292a; 0x3faf26bb9707a053;
   0x70ff52905f188d57; 0x0a2722586f2d042e; 0x854fb3003f739fa5; 0xff97c3c80f4616dc;
   0x1bef5b57af4dc5ad; 0x61372b9f9f784cd4; 0xee5fbac7cf26d75f; 0x9487ca0fff135e26;
   0xdbd7be24370c7322; 0xa10fceec0739fa5b; 0x2e675fb4576761d0; 0x54bf2f7c6752e8a9;
   0xcdcf48d84fe75459; 0xb71738107fd2dd20; 0x387fa9482f8c46ab; 0x42a7d9801fb9cfd2;
   0x0df7adabd7a6e2d6; 0x772fdd63e7936baf; 0xf8474c3bb7cdf024; 0x829f3cf387f8795d;
   0x66e7a46c27f3aa2c; 0x1c3fd4a417c62355; 0x935745fc4798b8de; 0xe98f353477ad31a7;
   0xa6df411fbfb21ca3; 0xdc0731d78f8795da; 0x536fa08fdfd90e51; 0x29b7d047efec8728].

(** One iteration of the loop of [crc16]. *)
Definition crc16_step (crc b : Z) : Z :=
  u16 (Z.lxor (Z.shiftl crc 8)
              (nth (Z.to_nat (Z.land (Z.lxor (Z.shiftr crc 8) b) 0x00FF)) crc16tab 0)).

Definition crc16 (buf : bytes) : Z := fold_left crc16_step buf 0.

(** One iteration of the loop of [crc64]. *)
Definition crc64_step (crc b : Z) : Z :=
  Z.lxor (nth (Z.to_nat (Z.lxor (u8 crc) b)) crc64_tab 0) (Z.shiftr crc 8).

Definition crc64 (crc : Z) (s : bytes) : Z := fold_left crc64_step s crc.

(** The loops [for (s = ...; s < keylen; s++) if (key[s] == c) break;] from index [i]. *)
Fixpoint scan_for (c : Z) (key : bytes) (i : Z) : Z :=
  match key with
  | [] => i
  | k :: key => if k =? c then i else scan_for c key (i + 1)
  end.

Definition ch_lbrace : Z := 123.
Definition ch_rbrace : Z := 125.

Definition keyHashSlot (key : bytes) : Z :=
  let keylen := zlen key in
  let s := scan_for ch_lbrace key 0 in
  if s =? keylen then Z.land (crc16 key) 0x3FFF else
  let e := scan_for ch_rbrace (drop (Z.to_nat (s + 1)) key) (s + 1) in
  if (e =? keylen) || (e =? s + 1) then Z.land (crc16 key) 0x3FFF else
  Z.land (crc16 (take (Z.to_nat (e - s - 1)) (drop (Z.to_nat (s + 1)) key))) 0x3FFF.

(** * Polynomials over GF(2)

    A polynomial is the integer whose bits are its coefficients: addition is [Z.lxor],
    multiplication by x is [Z.shiftl _ 1].  [pmul g] holds of the multiples of [g]. *)

Inductive pmul (g : Z) : Z -> Prop :=
  | pmul_0 : pmul g 0
  | pmul_add a i : 0 <= i -> pmul g a -> pmul g (Z.lxor a (Z.shiftl g i)).

(** A byte string as one integer, first byte most significant. *)
Definition be_value (bs : bytes) : Z := fold_left (fun a b => a * 256 + b) bs 0.

(** The generator x^16 + x^12 + x^5 + 1 of CRC16/XMODEM. *)
Definition crc16_poly : Z := 0x11021.

(** CRC64 "Jones", reflected: shift the register right by one bit and add the reflected
    generator 0xad93d23594c935a9 when a one is shifted out. *)
Definition crc64_poly : Z := 0x95ac9329ac4bc9b5.

Definition crc64_bit (c : Z) : Z :=
  Z.lxor (Z.shiftr c 1) (if Z.odd c then crc64_poly else 0).

Definition crc64_bitwise (crc : Z) (s : bytes) : Z :=
  fold_left (fun c b => Nat.iter 8 crc64_bit (Z.lxor c b)) s crc.

(** The part of a key that selects its slot, as the cluster specification words it. *)
Inductive hash_tag : bytes -> bytes -> Prop :=
  | tag_braces pre tag post :
      ch_lbrace ∉ pre -> ch_rbrace ∉ tag -> tag <> [] ->
      hash_tag (pre ++ ch_lbrace :: tag ++ ch_rbrace :: post) tag
  | tag_no_open key : ch_lbrace ∉ key -> hash_tag key key
  | tag_no_close pre rest :
      ch_lbrace ∉ pre -> ch_rbrace ∉ rest ->
      hash_tag (pre ++ ch_lbrace :: rest) (pre ++ ch_lbrace :: rest)
  | tag_empty pre post :
      ch_lbrace ∉ pre ->
      hash_tag (pre ++ ch_lbrace :: ch_rbrace :: post) (pre ++ ch_lbrace :: ch_rbrace :: post).

(** * Exclusive or on bounded integers *)

Ltac zxor :=
  apply Z.bits_inj'; intros ? ?; rewrite ?Z.lxor_spec, ?Z.bits_0;
  repeat match goal with |- context [Z.testbit ?a ?b] => destruct (Z.testbit a b) end; reflexivity.

Lemma uwrap_lxor w a b : 0 <= w -> uwrap w (Z.lxor a b) = Z.lxor (uwrap w a) (uwrap w b).
Proof.
  intros Hw. unfold uwrap. apply Z.bits_inj'. intros n Hn. rewrite Z.lxor_spec.
  destruct (Z.lt_ge_cases n w).
  - by rewrite !Z.mod_pow2_bits_low, Z.lxor_spec by lia.
  - by rewrite !Z.mod_pow2_bits_high by lia.
Qed.

Lemma lxor_range w a b : 0 <= w -> urange w a -> urange w b -> urange w (Z.lxor a b).
Proof.
  intros Hw Ha Hb. rewrite <- (uwrap_small w a Ha), <- (uwrap_small w b Hb), <- uwrap_lxor by done.
  by apply uwrap_range.
Qed.

Lemma land_ones_uwrap w a : 0 <= w -> Z.land a (Z.ones w) = uwrap w a.
Proof. intros. by apply Z.land_ones. Qed.

(** A word is its high part plus its low byte. *)
Lemma split_low8 c : c = Z.lxor (Z.shiftl (Z.shiftr c 8) 8) (u8 c).
Proof.
  apply Z.bits_inj'. intros n Hn. unfold uwrap. rewrite Z.lxor_spec.
  destruct (Z.lt_ge_cases n 8).
  - by rewrite Z.shiftl_spec_low, Z.mod_pow2_bits_low, xorb_false_l by lia.
  - rewrite Z.shiftl_spec, Z.shiftr_spec, Z.mod_pow2_bits_high, xorb_false_r by lia. f_equal. lia.
Qed.

(** * CRC64 *)

Lemma crc64_bit_lxor a b : crc64_bit (Z.lxor a b) = Z.lxor (crc64_bit a) (crc64_bit b).
Proof.
  unfold crc64_bit. rewrite Z.shiftr_lxor, <- !Z.bit0_odd, Z.lxor_spec.
  destruct (Z.testbit a 0), (Z.testbit b 0); simpl xorb; zxor.
Qed.

Lemma crc64_bits_lxor n a b :
  Nat.iter n crc64_bit (Z.lxor a b) = Z.lxor (Nat.iter n crc64_bit a) (Nat.iter n crc64_bit b).
Proof. induction n as [|n IH]; [done|]. simpl. by rewrite IH, crc64_bit_lxor. Qed.

(** Eight zero bits are shifted out without feedback. *)
Lemma crc64_bits_shift n h : Nat.iter n crc64_bit (Z.shiftl h (Z.of_nat n)) = h.
Proof.
  induction n as [|n IH]; [by rewrite Z.shiftl_0_r|].
  rewrite Nat.iter_succ_r. replace (crc64_bit (Z.shiftl h (Z.of_nat (S n)))) with (Z.shiftl h (Z.of_nat n)).
  { done. }
  unfold crc64_bit. rewrite <- Z.bit0_odd, Z.shiftl_spec_low by lia.
  rewrite Z.lxor_0_r, Z.shiftr_shiftl_l by lia. f_equal. lia.
Qed.

Lemma crc64_tab_bits b : byte_ok b -> Nat.iter 8 crc64_bit b = nth (Z.to_nat b) crc64_tab 0.
Proof.
  intros. apply Z.eqb_eq. revert b H. apply byte_forall. vm_compute. reflexivity.
Qed.

Lemma crc64_step_bits c b : byte_ok b -> crc64_step c b = Nat.iter 8 crc64_bit (Z.lxor c b).
Proof.
  intros Hb. unfold crc64_step.
  assert (byte_ok (Z.lxor (u8 c) b)) by (apply (lxor_range 8); [lia|apply uwrap_range; lia|done]).
  pose proof (crc64_bits_shift 8 (Z.shiftr c 8)) as Es. change (Z.of_nat 8) with 8 in Es.
  rewrite <- crc64_tab_bits by done. rewrite <- Es at 1. rewrite <- crc64_bits_lxor. f_equal.
  rewrite (split_low8 c) at 3. zxor.
Qed.

Lemma crc64_tab_range b : byte_ok b -> urange 64 (nth (Z.to_nat b) crc64_tab 0).
Proof.
  intros H. cut ((0 <=? nth (Z.to_nat b) crc64_tab 0) && (nth (Z.to_nat b) crc64_tab 0 <? 2 ^ 64) = true).
  { intros. zb. unfold urange. lia. }
  revert b H. apply byte_forall. vm_compute. reflexivity.
Qed.

(** Only entry 0 of the table has a zero top byte. *)
Lemma crc64_tab_top b : byte_ok b -> nth (Z.to_nat b) crc64_tab 0 < 2 ^ 56 -> b = 0.
Proof.
  intros H Hlt. cut ((b =? 0) || (2 ^ 56 <=? nth (Z.to_nat b) crc64_tab 0) = true).
  { intros [?|?]%orb_true_iff; zb; lia. }
  clear Hlt. revert b H. apply byte_forall. vm_compute. reflexivity.
Qed.

Lemma shiftr8_range c : urange 64 c -> urange 56 (Z.shiftr c 8).
Proof.
  unfold urange. intros. rewrite Z.shiftr_div_pow2 by lia. change (2 ^ 8) with 256.
  change (2 ^ 56) with 72057594037927936. change (2 ^ 64) with 18446744073709551616 in *. dlia.
Qed.

Lemma crc64_step_range c b : urange 64 c -> byte_ok b -> urange 64 (crc64_step c b).
Proof.
  intros Hc Hb. unfold crc64_step. apply lxor_range; [lia| |].
  - apply crc64_tab_range, (lxor_range 8); [lia|apply uwrap_range; lia|done].
  - apply shiftr8_range in Hc. unfold urange in *. lia.
Qed.

(** The register can be recovered: a difference between two registers survives every step. *)
Lemma crc64_step_zero d : urange 64 d -> crc64_step d 0 = 0 -> d = 0.
Proof.
  unfold crc64_step. rewrite Z.lxor_0_r. intros Hd E. apply Z.lxor_eq in E.
  pose proof (shiftr8_range d Hd) as Hr.
  assert (H8 : byte_ok (u8 d)) by (apply (uwrap_range 8); lia).
  assert (u8 d = 0) as E0 by (apply crc64_tab_top; [done|]; unfold urange in Hr; lia).
  rewrite E0 in E. change (nth (Z.to_nat 0) crc64_tab 0) with 0 in E.
  rewrite (split_low8 d), E0, <- E. done.
Qed.

Lemma crc64_step_lxor c d b : byte_ok b ->
  Z.lxor (crc64_step c b) (crc64_step d b) = crc64_step (Z.lxor c d) 0.
Proof.
  intros. rewrite !crc64_step_bits by (done || (split; lia)). rewrite <- crc64_bits_lxor.
  f_equal. zxor.
Qed.

Lemma crc64_inj_state s c d :
  urange 64 c -> urange 64 d -> bytes_ok s -> crc64 c s = crc64 d s -> c = d.
Proof.
  unfold crc64. revert c d. induction s as [|b s IH]; intros c d Hc Hd Hs E; [done|].
  apply list.Forall_cons in Hs as [Hb Hs]. simpl in E.
  apply IH in E; [|by apply crc64_step_range..|done].
  apply Z.lxor_eq, crc64_step_zero; [by apply lxor_range|].
  rewrite <- (crc64_step_lxor c d b) by done. rewrite E. apply Z.lxor_nilpotent.
Qed.

Lemma crc64_range c s : urange 64 c -> bytes_ok s -> urange 64 (crc64 c s).
Proof.
  unfold crc64. revert c. induction s as [|b s IH]; intros c Hc Hs; [done|].
  apply list.Forall_cons in Hs as [Hb Hs]. simpl. apply IH; [by apply crc64_step_range|done].
Qed.

Lemma crc64_step_inj_byte c a b :
  urange 64 c -> byte_ok a -> byte_ok b -> crc64_step c a = crc64_step c b -> a = b.
Proof.
  intros Hc Ha Hb. rewrite !crc64_step_bits by done. intros E.
  assert (Hab : byte_ok (Z.lxor a b)) by (apply (lxor_range 8); [lia|done..]).
  apply Z.lxor_eq, crc64_step_zero; [unfold byte_ok in Hab; unfold urange; lia|].
  rewrite crc64_step_bits by (split; lia). rewrite Z.lxor_0_r.
  replace (Z.lxor a b) with (Z.lxor (Z.lxor c a) (Z.lxor c b)) by zxor.
  rewrite crc64_bits_lxor, E. apply Z.lxor_nilpotent.
Qed.

(** * CRC16 *)

Definition crc16_bit (c : Z) : Z :=
  Z.lxor (Z.shiftl c 1) (if Z.testbit c 15 then crc16_poly else 0).

Lemma crc16_bit_lxor a b : crc16_bit (Z.lxor a b) = Z.lxor (crc16_bit a) (crc16_bit b).
Proof.
  unfold crc16_bit. rewrite Z.shiftl_lxor, Z.lxor_spec.
  destruct (Z.testbit a 15), (Z.testbit b 15); simpl xorb; zxor.
Qed.

Lemma crc16_bits_lxor n a b :
  Nat.iter n crc16_bit (Z.lxor a b) = Z.lxor (Nat.iter n crc16_bit a) (Nat.iter n crc16_bit b).
Proof. induction n as [|n IH]; [done|]. simpl. by rewrite IH, crc16_bit_lxor. Qed.

Lemma crc16_tab_bits b : byte_ok b ->
  nth (Z.to_nat b) crc16tab 0 = Nat.iter 8 crc16_bit (Z.shiftl b 8) /\
  urange 16 (nth (Z.to_nat b) crc16tab 0).
Proof.
  intros H. cut ((nth (Z.to_nat b) crc16tab 0 =? Nat.iter 8 crc16_bit (Z.shiftl b 8)) &&
    ((0 <=? nth (Z.to_nat b) crc16tab 0) && (nth (Z.to_nat b) crc16tab 0 <? 2 ^ 16)) = true).
  { intros. zb. unfold urange. lia. }
  revert b H. apply byte_forall. vm_compute. reflexivity.
Qed.

Lemma crc16_low_bits b : byte_ok b -> Nat.iter 8 crc16_bit b = Z.shiftl b 8.
Proof. intros. apply Z.eqb_eq. revert b H. apply byte_forall. vm_compute. reflexivity. Qed.

Lemma crc16_step_bits c b : urange 16 c -> byte_ok b ->
  crc16_step c b = Nat.iter 8 crc16_bit (Z.lxor c (Z.shiftl b 8)) /\ urange 16 (crc16_step c b).
Proof.
  intros Hc Hb. unfold crc16_step. change 0x00FF with (Z.ones 8). rewrite land_ones_uwrap by lia.
  assert (Hh : byte_ok (Z.shiftr c 8)).
  { rewrite Z.shiftr_div_pow2 by lia. unfold byte_ok, urange in *.
    change (2 ^ 16) with 65536 in Hc. change (2 ^ 8) with 256. dlia. }
  assert (Hi : byte_ok (Z.lxor (Z.shiftr c 8) b)) by (apply (lxor_range 8); [lia|done..]).
  rewrite (uwrap_small 8) by apply Hi.
  pose proof (crc16_tab_bits _ Hi) as [-> Hr].
  split; [|apply uwrap_range; lia].
  assert (Hl : byte_ok (u8 c)) by (apply (uwrap_range 8); lia).
  rewrite uwrap_lxor, (uwrap_small 16 (Nat.iter _ _ _)) by (lia || done).
  replace (u16 (Z.shiftl c 8)) with (Z.shiftl (u8 c) 8).
  2:{ unfold uwrap. rewrite !Z.shiftl_mul_pow2 by lia. change (2 ^ 16) with (2 ^ 8 * 2 ^ 8).
      rewrite Z.mul_mod_distr_r by lia. done. }
  rewrite <- crc16_low_bits by done. rewrite <- crc16_bits_lxor. f_equal.
  rewrite (split_low8 c) at 3. rewrite Z.shiftl_lxor. zxor.
Qed.

(** Closure of the multiples of [g]. *)
Lemma pmul_lxor g a b : pmul g a -> pmul g b -> pmul g (Z.lxor a b).
Proof.
  intros Ha Hb. induction Hb as [|b i ? _ IH]; [by rewrite Z.lxor_0_r|].
  rewrite <- Z.lxor_assoc. by constructor.
Qed.

Lemma pmul_shiftl g a n : 0 <= n -> pmul g a -> pmul g (Z.shiftl a n).
Proof.
  intros Hn. induction 1 as [|a i ? _ IH]; [rewrite Z.shiftl_0_l; constructor|].
  rewrite Z.shiftl_lxor, Z.shiftl_shiftl by lia. constructor; [lia|done].
Qed.

Lemma pmul_self g : pmul g g.
Proof.
  pose proof (pmul_add g 0 0 ltac:(lia) (pmul_0 g)) as H. by rewrite Z.shiftl_0_r, Z.lxor_0_l in H.
Qed.

(** A step of the register is multiplication by x modulo the generator. *)
Lemma crc16_bits_cong n c :
  pmul crc16_poly (Z.lxor (Z.shiftl c (Z.of_nat n)) (Nat.iter n crc16_bit c)).
Proof.
  induction n as [|n IH].
  { simpl. rewrite Z.shiftl_0_r, Z.lxor_nilpotent. constructor. }
  simpl Nat.iter. set (d := Nat.iter n crc16_bit c) in *.
  assert (E : Z.lxor (Z.shiftl c (Z.of_nat (S n))) (crc16_bit d) =
    Z.lxor (Z.shiftl (Z.lxor (Z.shiftl c (Z.of_nat n)) d) 1) (if Z.testbit d 15 then crc16_poly else 0)).
  { unfold crc16_bit. rewrite Z.shiftl_lxor, Z.shiftl_shiftl by lia.
    replace (Z.of_nat (S n)) with (Z.of_nat n + 1) by lia. zxor. }
  rewrite E. apply pmul_lxor; [apply pmul_shiftl; [lia|done]|].
  destruct (Z.testbit d 15); [apply pmul_self|constructor].
Qed.

Lemma be_value_snoc bs b : be_value (bs ++ [b]) = be_value bs * 256 + b.
Proof. unfold be_value. by rewrite fold_left_app. Qed.

(** Appending a byte to the message is a shift and an exclusive or. *)
Lemma be_snoc_lxor v b : byte_ok b -> v * 256 + b = Z.lxor (Z.shiftl v 8) b.
Proof.
  intros Hb. rewrite (split_low8 (v * 256 + b)). unfold uwrap.
  rewrite Z.shiftr_div_pow2 by lia. change (2 ^ 8) with 256. unfold byte_ok in Hb.
  rewrite Z.div_add_l, Z.div_small, Z.add_0_r by lia. f_equal.
  rewrite Z.add_comm, Z.mod_add, Z.mod_small by lia. done.
Qed.

Lemma crc16_snoc buf b : crc16 (buf ++ [b]) = crc16_step (crc16 buf) b.
Proof. unfold crc16. by rewrite fold_left_app. Qed.

Lemma crc16_cong buf : bytes_ok buf ->
  urange 16 (crc16 buf) /\ pmul crc16_poly (Z.lxor (Z.shiftl (be_value buf) 16) (crc16 buf)).
Proof.
  induction buf as [|b buf IH] using rev_ind; intros Hok.
  { split; [done|]. vm_compute (Z.lxor _ _). constructor. }
  apply Forall_app in Hok as [Hok Hb]. apply list.Forall_cons in Hb as [Hb _].
  destruct (IH Hok) as [Hr Hm]. rewrite crc16_snoc, be_value_snoc.
  pose proof (crc16_step_bits _ _ Hr Hb) as [E ?]. split; [done|]. rewrite E, be_snoc_lxor by done.
  pose proof (crc16_bits_cong 8 (Z.lxor (crc16 buf) (Z.shiftl b 8))) as Hc.
  pose proof (pmul_shiftl _ _ 8 ltac:(lia) Hm) as Hm8.
  pose proof (pmul_lxor _ _ _ Hc Hm8) as H'. clear -H'.
  match type of H' with pmul _ ?x => match goal with |- pmul _ ?y => replace y with x; [exact H'|] end end.
  rewrite !Z.shiftl_lxor, !Z.shiftl_shiftl by lia. change (Z.of_nat 8) with 8. 
  change (8 + 8) with 16. change (16 + 8) with (8 + 16). zxor.
Qed.

(** * The hash slot *)

Lemma scan_for_spec c pre rest i :
  c ∉ pre -> (rest = [] \/ exists r, rest = c :: r) -> scan_for c (pre ++ rest) i = i + zlen pre.
Proof.
  intros Hp Hr. revert i. induction pre as [|x pre IH]; intros i.
  - destruct Hr as [->|[r ->]]; simpl; [|rewrite Z.eqb_refl]; rewrite zlen_nil; lia.
  - apply not_elem_of_cons in Hp as [Hx Hp]. simpl. zcase; [congruence|].
    rewrite IH by done. rewrite zlen_cons. lia.
Qed.

Lemma scan_for_nil c key i : c ∉ key -> scan_for c key i = i + zlen key.
Proof. intros. rewrite <- (app_nil_r key) at 1. apply scan_for_spec; auto. Qed.

Lemma drop_pre_cons {A} (pre : list A) x rest : drop (Z.to_nat (zlen pre + 1)) (pre ++ x :: rest) = rest.
Proof.
  replace (Z.to_nat (zlen pre + 1)) with (length (pre ++ [x])).
  - change (x :: rest) with ([x] ++ rest). by rewrite app_assoc, drop_app_length.
  - rewrite length_app. unfold zlen. simpl. lia.
Qed.

Lemma land_14 z : Z.land z 0x3FFF = z mod 16384.
Proof. change 0x3FFF with (Z.ones 14). by rewrite Z.land_ones by lia. Qed.

Lemma keyHashSlot_tag key tag : hash_tag key tag -> keyHashSlot key = crc16 tag mod 16384.
Proof.
  intros H. unfold keyHashSlot. rewrite <- land_14. destruct H as [pre tag post Hp Ht Hne|key Hk|pre rest Hp Hr|pre post Hp].
  - rewrite (scan_for_spec _ pre) by eauto. rewrite Z.add_0_l, drop_pre_cons.
    rewrite (scan_for_spec _ tag) by eauto.
    assert (0 < zlen tag) by (destruct tag; [done|rewrite zlen_cons; pose proof (zlen_nonneg tag); lia]).
    pose proof (zlen_nonneg pre). pose proof (zlen_nonneg post).
    autorewrite with zlen. repeat zdec. simpl orb. cbv iota.
    replace (zlen pre + 1 + zlen tag - zlen pre - 1) with (zlen tag) by lia.
    by rewrite to_nat_zlen, take_app_length.
  - rewrite scan_for_nil by done. by rewrite Z.add_0_l, Z.eqb_refl.
  - rewrite (scan_for_spec _ pre) by eauto. rewrite Z.add_0_l, drop_pre_cons.
    rewrite scan_for_nil by done. autorewrite with zlen. pose proof (zlen_nonneg rest).
    repeat zdec. simpl orb. done.
  - rewrite (scan_for_spec _ pre) by eauto. rewrite Z.add_0_l, drop_pre_cons.
    rewrite (scan_for_spec ch_rbrace [] (ch_rbrace :: post)) by (eauto using not_elem_of_nil).
    rewrite zlen_nil, Z.add_0_r, Z.eqb_refl, orb_true_r. case_match; done.
Qed.

(** Every key has a tag. *)
Lemma split_first (c : Z) (l : bytes) : c ∉ l \/ exists pre post, l = pre ++ c :: post /\ c ∉ pre.
Proof.
  induction l as [|x l IH]; [left; apply not_elem_of_nil|].
  destruct (decide (x = c)) as [->|Hne].
  - right. exists [], l. split; [done|apply not_elem_of_nil].
  - destruct IH as [?|(pre & post & -> & ?)].
    + left. by apply not_elem_of_cons.
    + right. exists (x :: pre), post. split; [done|by apply not_elem_of_cons].
Qed.

Lemma hash_tag_total key : exists tag, hash_tag key tag.
Proof.
  destruct (split_first ch_lbrace key) as [|(pre & rest & -> & Hp)]; [eexists; by constructor 2|].
  destruct (split_first ch_rbrace rest) as [|(tag & post & -> & Ht)]; [eexists; by constructor 3|].
  destruct (decide (tag = [])) as [->|]; [eexists; by constructor 4|eexists; by constructor 1].
Qed.

(** * Theorems *)

(** [crc16] computes CRC16/XMODEM: the 16-bit result is the remainder, over GF(2), of the
    message (read as one big-endian number) times x^16 divided by x^16 + x^12 + x^5 + 1. *)
Theorem crc16_is_remainder buf : bytes_ok buf ->
  0 <= crc16 buf < 2 ^ 16 /\
  pmul crc16_poly (Z.lxor (Z.shiftl (be_value buf) 16) (crc16 buf)).
Proof. apply crc16_cong. Qed.

Lemma crc16_is_remainder_witness :
  crc16 [49; 50; 51; 52; 53; 54; 55; 56; 57] = 0x31C3 /\
  0 <= crc16 [49; 50; 51; 52; 53; 54; 55; 56; 57] < 2 ^ 16 /\
  pmul crc16_poly (Z.lxor (Z.shiftl (be_value [49; 50; 51; 52; 53; 54; 55; 56; 57]) 16)
                          (crc16 [49; 50; 51; 52; 53; 54; 55; 56; 57])).
Proof.
  split; [vm_compute; reflexivity|]. apply crc16_is_remainder.
  repeat constructor; lia.
Defined.

(** The table-driven [crc64] is the bit-serial CRC-64/Jones register; checksumming a stream
    in pieces gives the checksum of the whole; and replacing any one byte of a message, wherever
    it stands, changes its checksum. *)
Theorem crc64_correct crc s t a b : urange 64 crc -> bytes_ok s -> bytes_ok t -> byte_ok a -> byte_ok b ->
  crc64 crc s = crc64_bitwise crc s /\
  crc64 crc (s ++ t) = crc64 (crc64 crc s) t /\
  urange 64 (crc64 crc s) /\
  (crc64 crc (s ++ a :: t) = crc64 crc (s ++ b :: t) -> a = b).
Proof.
  intros Hc Hs Ht Ha Hb. split_and!.
  - unfold crc64, crc64_bitwise. clear -Hs. revert crc.
    induction Hs as [|x s Hx _ IH]; intros crc; [done|]. cbn [fold_left]. by rewrite IH, crc64_step_bits.
  - unfold crc64. apply fold_left_app.
  - by apply crc64_range.
  - unfold crc64. rewrite !fold_left_app. cbn [fold_left]. intros E.
    pose proof (crc64_range _ _ Hc Hs) as Hr. unfold crc64 in Hr.
    apply (crc64_inj_state t) in E; [|by apply crc64_step_range..|done].
    by apply crc64_step_inj_byte in E.
Qed.

Lemma crc64_correct_witness :
  crc64 0 [49; 50; 51; 52; 53; 54; 55; 56; 57] = 0xe9c6d914c4b8d9ca /\
  (crc64 0 ([49] ++ 50 :: [51]) = crc64 0 ([49] ++ 52 :: [51]) -> 50 = 52).
Proof.
  split; [vm_compute; reflexivity|].
  eapply (crc64_correct 0 [49] [51] 50 52); repeat constructor; lia.
Defined.

(** The slot of a key is a function of its hash tag alone: it is CRC16 of the tag modulo
    16384, where the tag is the text between the first opening brace and the next closing brace
    when both exist and the text is not empty, and the whole key otherwise.  Every key has such a
    tag, so every key has a slot below 16384 and keys with equal tags share a slot. *)
Theorem keyHashSlot_correct key key' tag :
  (exists t, hash_tag key t /\ keyHashSlot key = crc16 t mod 16384) /\
  0 <= keyHashSlot key < 16384 /\
  (hash_tag key tag -> hash_tag key' tag -> keyHashSlot key = keyHashSlot key').
Proof.
  destruct (hash_tag_total key) as [t Ht].
  pose proof (keyHashSlot_tag _ _ Ht) as E. split_and!.
  - by exists t.
  - rewrite E. apply Z.mod_pos_bound. lia.
  - rewrite E. apply Z.mod_pos_bound. lia.
  - intros H H'. by rewrite (keyHashSlot_tag _ _ H), (keyHashSlot_tag _ _ H').
Qed.

Lemma keyHashSlot_correct_witness :
  keyHashSlot [123; 117; 125; 97] = keyHashSlot [123; 117; 125; 98; 99].
Proof.
  apply (proj2 (keyHashSlot_correct [123; 117; 125; 97] [123; 117; 125; 98; 99] [117])).
  - apply (tag_braces [] [117] [97]); [apply not_elem_of_nil| |done].
    apply not_elem_of_cons. split; [done|apply not_elem_of_nil].
  - apply (tag_braces [] [117] [98; 99]); [apply not_elem_of_nil| |done].
    apply not_elem_of_cons. split; [done|apply not_elem_of_nil].
Defined.
