(* ===== verification/SipHash.v ===== *)
(** SipHash 1-2 (siphash.c): the hash function of the key space and its case-insensitive variant.

    The x86-64 configuration of the source is modelled ([UNALIGNED_LE_CPU] defined): 64-bit words
    are loaded with one little-endian access.  Loads are bounds checked ([None] outside the
    buffer).  The specification [SipHash c d] is the published definition: pad the message to
    64-bit words, the last one holding the length, absorb each word with [c] rounds and finish
    with [d] rounds. *)

From S2P Require Import Prelude Util.
#[local] Open Scope Z_scope.

(** * The code *)

Definition siptlw (c : Z) : Z := if (65 <=? c) && (c <=? 90) then c + (97 - 65) else c.

Definition ROTL (x b : Z) : Z := Z.lor (u64 (Z.shiftl x b)) (Z.shiftr x (64 - b)).

(** [*((uint64_t* )(p))] at offset [i] of the buffer. *)
Definition U8TO64_LE (p : bytes) (i : Z) : option Z :=
  w ← zsub p i 8; Some (le_value w).

Definition U8TO64_LE_NOCASE (p : bytes) (i : Z) : option Z :=
  match zsub p i 8 with
  | Some [p0; p1; p2; p3; p4; p5; p6; p7] =>
      Some (Z.lor (Z.lor (Z.lor (Z.lor (Z.lor (Z.lor (Z.lor
        (siptlw p0) (Z.shiftl (siptlw p1) 8)) (Z.shiftl (siptlw p2) 16))
        (Z.shiftl (siptlw p3) 24)) (Z.shiftl (siptlw p4) 32)) (Z.shiftl (siptlw p5) 40))
        (Z.shiftl (siptlw p6) 48)) (Z.shiftl (siptlw p7) 56))
  | _ => None
  end.

Record sip := Sip { v0 : Z; v1 : Z; v2 : Z; v3 : Z }.

Definition SIPROUND (s : sip) : sip :=
  let '(Sip v0 v1 v2 v3) := s in
  let v0 := u64 (v0 + v1) in
  let v1 := ROTL v1 13 in
  let v1 := Z.lxor v1 v0 in
  let v0 := ROTL v0 32 in
  let v2 := u64 (v2 + v3) in
  let v3 := ROTL v3 16 in
  let v3 := Z.lxor v3 v2 in
  let v0 := u64 (v0 + v3) in
  let v3 := ROTL v3 21 in
  let v3 := Z.lxor v3 v0 in
  let v2 := u64 (v2 + v1) in
  let v1 := ROTL v1 17 in
  let v1 := Z.lxor v1 v2 in
  let v2 := ROTL v2 32 in
  Sip v0 v1 v2 v3.

(** [for (; in != end; in += 8) { m = load(in); v3 ^= m; SIPROUND; v0 ^= m; }], [in] and [end] as
    offsets.  Each iteration advances by 8, so [zlen buf] iterations are more than enough. *)
Fixpoint sip_loop (load : bytes -> Z -> option Z) (fuel : nat) (buf : bytes) (i e : Z) (s : sip)
    : option (Z * sip) :=
  if i =? e then Some (i, s) else
  match fuel with
  | O => None
  | S fuel =>
      m ← load buf i;
      let '(Sip v0 v1 v2 v3) := s in
      let '(Sip v0 v1 v2 v3) := SIPROUND (Sip v0 v1 v2 (Z.lxor v3 m)) in
      sip_loop load fuel buf (i + 8) e (Sip (Z.lxor v0 m) v1 v2 v3)
  end.

(** The [switch (left)] with its fall-through cases; [cv] is applied to each byte read. *)
Fixpoint sip_tail (cv : Z -> Z) (left : nat) (buf : bytes) (i b : Z) : option Z :=
  match left with
  | O => Some b
  | S l =>
      x ← zget buf (i + Z.of_nat l);
      sip_tail cv l buf i (Z.lor b (Z.shiftl (cv x) (8 * Z.of_nat l)))
  end.

Definition siphash (buf k : bytes) : option Z :=
  let inlen := zlen buf in
  k0 ← U8TO64_LE k 0;
  k1 ← U8TO64_LE k 8;
  let e := inlen - inlen mod 8 in
  let left := Z.land inlen 7 in
  let b := u64 (Z.shiftl inlen 56) in
  let v3 := Z.lxor 0x7465646279746573 k1 in
  let v2 := Z.lxor 0x6c7967656e657261 k0 in
  let v1 := Z.lxor 0x646f72616e646f6d k1 in
  let v0 := Z.lxor 0x736f6d6570736575 k0 in
  '(i, s) ← sip_loop U8TO64_LE (length buf) buf 0 e (Sip v0 v1 v2 v3);
  b ← sip_tail id (Z.to_nat left) buf i b;
  let '(Sip v0 v1 v2 v3) := s in
  let '(Sip v0 v1 v2 v3) := SIPROUND (Sip v0 v1 v2 (Z.lxor v3 b)) in
  let s := Sip (Z.lxor v0 b) v1 (Z.lxor v2 0xff) v3 in
  let '(Sip v0 v1 v2 v3) := SIPROUND (SIPROUND s) in
  Some (Z.lxor (Z.lxor (Z.lxor v0 v1) v2) v3).

Definition siphash_nocase (buf k : bytes) : option Z :=
  let inlen := zlen buf in
  k0 ← U8TO64_LE k 0;
  k1 ← U8TO64_LE k 8;
  let e := inlen - inlen mod 8 in
  let left := Z.land inlen 7 in
  let b := u64 (Z.shiftl inlen 56) in
  let v3 := Z.lxor 0x7465646279746573 k1 in
  let v2 := Z.lxor 0x6c7967656e657261 k0 in
  let v1 := Z.lxor 0x646f72616e646f6d k1 in
  let v0 := Z.lxor 0x736f6d6570736575 k0 in
  '(i, s) ← sip_loop U8TO64_LE_NOCASE (length buf) buf 0 e (Sip v0 v1 v2 v3);
  b ← sip_tail siptlw (Z.to_nat left) buf i b;
  let '(Sip v0 v1 v2 v3) := s in
  let '(Sip v0 v1 v2 v3) := SIPROUND (Sip v0 v1 v2 (Z.lxor v3 b)) in
  let s := Sip (Z.lxor v0 b) v1 (Z.lxor v2 0xff) v3 in
  let '(Sip v0 v1 v2 v3) := SIPROUND (SIPROUND s) in
  Some (Z.lxor (Z.lxor (Z.lxor v0 v1) v2) v3).

(** * The specification *)

(** The 64-bit words of a padded message. *)
Fixpoint sip_words (n : nat) (msg : bytes) : list Z :=
  match n with
  | O => []
  | S n => le_value (take 8 msg) :: sip_words n (drop 8 msg)
  end.

(** Zeros up to one byte short of a multiple of 8, then the length modulo 256. *)
Definition sip_pad (msg : bytes) : bytes :=
  msg ++ replicate (7 - length msg mod 8) 0 ++ [zlen msg mod 256].

Definition sip_absorb (c : nat) (s : sip) (m : Z) : sip :=
  let s := Nat.iter c SIPROUND (Sip (v0 s) (v1 s) (v2 s) (Z.lxor (v3 s) m)) in
  Sip (Z.lxor (v0 s) m) (v1 s) (v2 s) (v3 s).

Definition SipHash (c d : nat) (k0 k1 : Z) (msg : bytes) : Z :=
  let s := Sip (Z.lxor 0x736f6d6570736575 k0) (Z.lxor 0x646f72616e646f6d k1)
               (Z.lxor 0x6c7967656e657261 k0) (Z.lxor 0x7465646279746573 k1) in
  let s := fold_left (sip_absorb c) (sip_words (length msg / 8 + 1) (sip_pad msg)) s in
  let s := Nat.iter d SIPROUND (Sip (v0 s) (v1 s) (Z.lxor (v2 s) 0xff) (v3 s)) in
  Z.lxor (Z.lxor (Z.lxor (v0 s) (v1 s)) (v2 s)) (v3 s).

(** The specification reproduces published SipHash-2-4 vectors (the first and the ninth of the
    table in siphash.c). *)
Example SipHash_2_4_vectors :
  le_bytes 8 (SipHash 2 4 (le_value (map Z.of_nat (seq 0 8))) (le_value (map Z.of_nat (seq 8 8))) [])
    = [0x31; 0x0e; 0x0e; 0xdd; 0x47; 0xdb; 0x6f; 0x72] /\
  le_bytes 8 (SipHash 2 4 (le_value (map Z.of_nat (seq 0 8))) (le_value (map Z.of_nat (seq 8 8)))
                (map Z.of_nat (seq 0 8)))
    = [0x62; 0x24; 0x93; 0x9a; 0x79; 0xf5; 0xf5; 0x93].
Proof. split; vm_compute; reflexivity. Qed.

(** * Words and the bitwise or of shifted bytes *)

Lemma siptlw_ok c : byte_ok c -> byte_ok (siptlw c).
Proof. unfold siptlw, byte_ok. intros. case_match; zb; lia. Qed.

(** A byte placed below the bits of a multiple of [2 ^ n]. *)
Lemma lor_below q n b m : byte_ok b -> 0 <= m -> m + 8 <= n ->
  Z.lor (q * 2 ^ n) (Z.shiftl b m) = q * 2 ^ n + b * 2 ^ m.
Proof.
  intros Hb Hm Hn. rewrite <- !Z.shiftl_mul_pow2 by lia. symmetry. apply Z.add_nocarry_lor.
  apply Z.bits_inj'. intros j Hj. rewrite Z.land_spec, Z.bits_0, (Z.shiftl_spec _ m) by lia.
  destruct (Z.lt_ge_cases j n).
  - by rewrite Z.shiftl_spec_low by lia.
  - rewrite <- (Z.mod_small b (2 ^ 8)) by done. rewrite (Z.mod_pow2_bits_high b 8) by lia.
    apply andb_false_r.
Qed.

Lemma le_value_zeros n : le_value (replicate n 0) = 0.
Proof. induction n; simpl; lia. Qed.

(** The descending chain of ors assembles the last block. *)
Lemma sip_tail_value cv pre l buf i q :
  length pre = Z.to_nat i -> 0 <= i -> bytes_ok (map cv l) -> (length l <= 7)%nat ->
  sip_tail cv (length l) (pre ++ l ++ buf) i (q * 2 ^ 56) =
    Some (q * 2 ^ 56 + le_value (map cv l)).
Proof.
  intros Hpre Hi Hok Hl.
  cut (forall l' q m, bytes_ok (map cv l) -> 8 * zlen l <= m ->
    sip_tail cv (length l) (pre ++ l ++ l') i (q * 2 ^ m) = Some (q * 2 ^ m + le_value (map cv l))).
  { intros H. rewrite H; [done|done|]. unfold zlen. lia. }
  clear -Hpre Hi. induction l as [|x l IH] using rev_ind; intros l' q m Hok Hm.
  { simpl. f_equal. lia. }
  rewrite length_app. replace (length l + length [x])%nat with (S (length l)) by (simpl; lia).
  cbn [sip_tail]. rewrite <- app_assoc. rewrite app_assoc.
  rewrite (zget_app (pre ++ l) x l') by (unfold zlen; rewrite length_app; lia).
  cbn [mbind option_bind].
  rewrite map_app in Hok. apply Forall_app in Hok as [Hok Hx]. apply list.Forall_cons in Hx as [Hx _].
  autorewrite with zlen in Hm.
  rewrite lor_below by (done || (unfold zlen in *; lia)).
  replace (q * 2 ^ m + cv x * 2 ^ (8 * Z.of_nat (length l)))
    with ((q * 2 ^ (m - 8 * zlen l) + cv x) * 2 ^ (8 * zlen l)).
  2:{ unfold zlen in *. rewrite Z.mul_add_distr_r, <- Z.mul_assoc, <- Z.pow_add_r by lia.
      do 3 f_equal. lia. }
  rewrite <- app_assoc. simpl app. rewrite IH by (done || lia). f_equal.
  rewrite map_app, le_value_app. simpl le_value.
  replace (zlen (map cv l)) with (zlen l) by (unfold zlen; by rewrite length_map).
  rewrite Z.mul_add_distr_r, <- Z.mul_assoc, <- Z.pow_add_r by (unfold zlen in *; lia).
  replace (m - 8 * zlen l + 8 * zlen l) with m by lia. lia.
Qed.

Lemma list_8_inv {A} (l : list A) : length l = 8%nat ->
  exists a b c d e f g h, l = [a; b; c; d; e; f; g; h].
Proof.
  intros H. do 8 (destruct l as [|? l]; [discriminate H|]). destruct l; [|discriminate H].
  by repeat eexists.
Qed.

Lemma zsub_map {A B} (f : A -> B) l i n : zsub (map f l) i n = map f <$> zsub l i n.
Proof.
  unfold zsub, zlen. rewrite length_map. case_match; [|done]. simpl.
  by rewrite skipn_map, firstn_map.
Qed.

Lemma zget_map {A B} (f : A -> B) l i : zget (map f l) i = f <$> zget l i.
Proof. unfold zget. case_match; [|done]. apply list_lookup_fmap. Qed.

Lemma zsub_ok l i n w : bytes_ok l -> zsub l i n = Some w -> bytes_ok w.
Proof.
  unfold zsub. intros H E. case_match; [|done]. simplify_eq. by apply Forall_take, Forall_drop.
Qed.

Lemma map_siptlw_ok l : bytes_ok l -> bytes_ok (map siptlw l).
Proof. induction 1; simpl; constructor; [by apply siptlw_ok|done]. Qed.

(** The case-folding load reads the case-folded buffer. *)
Lemma load_nocase buf i : bytes_ok buf -> U8TO64_LE_NOCASE buf i = U8TO64_LE (map siptlw buf) i.
Proof.
  intros Hok. unfold U8TO64_LE_NOCASE, U8TO64_LE. rewrite zsub_map.
  destruct (zsub buf i 8) as [w|] eqn:E; [|done].
  pose proof (zsub_len _ _ _ _ E) as Hl. apply zsub_ok in E; [|done].
  destruct (list_8_inv w) as (p0 & p1 & p2 & p3 & p4 & p5 & p6 & p7 & ->); [unfold zlen in Hl; lia|].
  apply map_siptlw_ok in E. simpl map in E.
  repeat (apply list.Forall_cons in E as [? E]). clear E. unfold byte_ok in *.
  cbn [map fmap option_fmap option_map mbind option_bind le_value]. f_equal.
  rewrite (lor_above _ _ 8), (lor_above _ _ 16), (lor_above _ _ 24), (lor_above _ _ 32),
    (lor_above _ _ 40), (lor_above _ _ 48), (lor_above _ _ 56) by lia. lia.
Qed.

Lemma sip_loop_nocase fuel buf i e s : bytes_ok buf ->
  sip_loop U8TO64_LE_NOCASE fuel buf i e s = sip_loop U8TO64_LE fuel (map siptlw buf) i e s.
Proof.
  intros Hok. revert i s. induction fuel as [|fuel IH]; intros i s; [done|].
  simpl. rewrite load_nocase by done. destruct (i =? e); [done|].
  destruct (U8TO64_LE _ _); [|done]. simpl. destruct s; simpl. apply IH.
Qed.

Lemma sip_tail_nocase n buf i b : sip_tail siptlw n buf i b = sip_tail id n (map siptlw buf) i b.
Proof.
  revert b. induction n as [|n IH]; intros b; [done|]. simpl. rewrite zget_map.
  destruct (zget buf _); [|done]. simpl. apply IH.
Qed.

Lemma siphash_nocase_map buf k : bytes_ok buf -> siphash_nocase buf k = siphash (map siptlw buf) k.
Proof.
  intros Hok. unfold siphash_nocase, siphash, zlen. rewrite length_map.
  destruct (U8TO64_LE k 0); [|done]. destruct (U8TO64_LE k 8); [|done]. cbn [mbind option_bind].
  rewrite sip_loop_nocase by done.
  destruct (sip_loop _ _ _ _ _ _) as [[i s]|]; [|done]. cbn [mbind option_bind].
  by rewrite sip_tail_nocase.
Qed.

(** The main loop absorbs the whole words of the message. *)
Lemma sip_loop_words n fuel pre body post s :
  length body = (8 * n)%nat -> (n <= fuel)%nat ->
  sip_loop U8TO64_LE fuel (pre ++ body ++ post) (zlen pre) (zlen pre + zlen body) s =
    Some (zlen pre + zlen body, fold_left (sip_absorb 1) (sip_words n body) s).
Proof.
  revert fuel pre body s. induction n as [|n IH]; intros fuel pre body s Hb Hf.
  { destruct body; [|done]. rewrite zlen_nil, Z.add_0_r. destruct fuel; simpl; by rewrite Z.eqb_refl. }
  destruct fuel as [|fuel]; [lia|].
  rewrite <- (take_drop 8 body). set (w := take 8 body). set (r := drop 8 body).
  assert (Hw : zlen w = 8) by (unfold zlen, w; rewrite length_take; lia).
  assert (Hr : length r = (8 * n)%nat) by (unfold r; rewrite length_drop; lia).
  cbn [sip_loop]. rewrite zlen_app, Hw. pose proof (zlen_nonneg r). zdec.
  rewrite <- (app_assoc w r post).
  assert (El : U8TO64_LE (pre ++ w ++ r ++ post) (zlen pre) = Some (le_value w)).
  { unfold U8TO64_LE. by rewrite zsub_app by done. }
  rewrite El. cbn [mbind option_bind].
  destruct s as [a0 a1 a2 a3].
  destruct (SIPROUND (Sip a0 a1 a2 (Z.lxor a3 (le_value w)))) as [b0 b1 b2 b3] eqn:E.
  replace (zlen pre + 8) with (zlen (pre ++ w)) by (rewrite zlen_app; lia).
  rewrite (app_assoc pre w). replace (zlen pre + (8 + zlen r)) with (zlen (pre ++ w) + zlen r) by (rewrite zlen_app; lia).
  rewrite IH by (done || lia). cbn [sip_words fold_left].
  rewrite take_app_le, drop_app_le by (unfold zlen in Hw; lia).
  rewrite take_ge, (drop_ge w) by (unfold zlen in Hw; lia). simpl app.
  do 3 f_equal. unfold sip_absorb. cbn [v0 v1 v2 v3 Nat.iter Nat.iter nat_rect]. rewrite E. done.
Qed.

Lemma sip_words_snoc n body blk : length body = (8 * n)%nat -> length blk = 8%nat ->
  sip_words (n + 1) (body ++ blk) = sip_words n body ++ [le_value blk].
Proof.
  revert body. induction n as [|n IH]; intros body Hb Hk.
  { destruct body; [|done]. simpl. by rewrite take_ge by lia. }
  cbn [Nat.add sip_words app]. rewrite take_app_le, drop_app_le by lia.
  rewrite IH by (rewrite ?length_drop; lia). done.
Qed.

(** A message is whole words followed by fewer than 8 bytes. *)
Lemma sip_split (msg : bytes) : exists body tail,
  msg = body ++ tail /\ length body = (8 * (length msg / 8))%nat /\ length tail = (length msg mod 8)%nat.
Proof.
  exists (take (8 * (length msg / 8)) msg), (drop (8 * (length msg / 8)) msg).
  rewrite take_drop. pose proof (Nat.div_mod_eq (length msg) 8).
  rewrite length_take, length_drop. split_and!; [done|lia|lia].
Qed.

Lemma sip_pad_words body tail : length body = (8 * (length (body ++ tail) / 8))%nat ->
  length tail = (length (body ++ tail) mod 8)%nat ->
  sip_words (length (body ++ tail) / 8 + 1) (sip_pad (body ++ tail)) =
    sip_words (length (body ++ tail) / 8) body ++
      [zlen (body ++ tail) mod 256 * 2 ^ 56 + le_value tail].
Proof.
  intros Hb Ht. unfold sip_pad. rewrite <- Ht. set (n := (length (body ++ tail) / 8)%nat) in *.
  assert (Hlt : (length tail < 8)%nat) by (rewrite Ht; apply Nat.mod_upper_bound; lia).
  rewrite <- app_assoc, sip_words_snoc by (rewrite ?length_app, ?length_replicate; simpl; lia).
  do 2 f_equal. rewrite !le_value_app, le_value_zeros, Z.add_0_l. cbn [le_value].
  rewrite zlen_replicate, Z.mul_0_r, Z.add_0_r, Z.mul_assoc, <- Z.pow_add_r by (unfold zlen; lia).
  replace (8 * zlen tail + 8 * Z.of_nat (7 - length tail)) with 56 by (unfold zlen; lia). lia.
Qed.

Lemma siphash_spec buf k : bytes_ok buf -> zlen k = 16 ->
  siphash buf k = Some (SipHash 1 2 (le_value (take 8 k)) (le_value (drop 8 k)) buf).
Proof.
  intros Hok Hk. unfold siphash.
  assert (E0 : U8TO64_LE k 0 = Some (le_value (take 8 k))).
  { unfold U8TO64_LE, zsub. by rewrite Hk. }
  assert (E1 : U8TO64_LE k 8 = Some (le_value (drop 8 k))).
  { unfold U8TO64_LE, zsub. rewrite Hk. simpl. rewrite take_ge; [done|]. rewrite length_drop.
    unfold zlen in Hk. lia. }
  rewrite E0, E1. cbn [mbind option_bind].
  destruct (sip_split buf) as (body & tail & E & Hb & Ht).
  pose proof (Nat.div_mod_eq (length buf) 8).
  assert (Hlt : (length tail < 8)%nat) by (rewrite Ht; apply Nat.mod_upper_bound; lia).
  assert (El : forall s, sip_loop U8TO64_LE (length buf) buf 0 (zlen body) s =
    Some (zlen body, fold_left (sip_absorb 1) (sip_words (length buf / 8) body) s)).
  { intros s. rewrite E at 2. apply (sip_loop_words (length buf / 8) _ []); lia. }
  assert (Et : sip_tail id (length tail) buf (zlen body) (zlen buf mod 256 * 2 ^ 56) =
    Some (zlen buf mod 256 * 2 ^ 56 + le_value tail)).
  { rewrite E at 1. rewrite <- (app_nil_r (body ++ tail)), <- app_assoc, sip_tail_value.
    - by rewrite map_id.
    - unfold zlen. lia.
    - apply zlen_nonneg.
    - rewrite map_id. rewrite E in Hok. by apply Forall_app in Hok as [_ ?].
    - lia. }
  replace (zlen buf - zlen buf mod 8) with (zlen body).
  2:{ unfold zlen. rewrite Hb, Nat2Z.inj_mul, Nat2Z.inj_div. clear. dlia. }
  rewrite El. cbn [mbind option_bind]. change 7 with (Z.ones 3). rewrite Z.land_ones by lia.
  replace (Z.to_nat (zlen buf mod 2 ^ 3)) with (length tail).
  2:{ rewrite Ht. unfold zlen. change (2 ^ 3) with (Z.of_nat 8). rewrite <- Nat2Z.inj_mod. lia. }
  replace (u64 (zlen buf ≪ 56)) with (zlen buf mod 256 * 2 ^ 56).
  2:{ unfold uwrap. rewrite Z.shiftl_mul_pow2 by lia. change (2 ^ 64) with (256 * 2 ^ 56).
      by rewrite Z.mul_mod_distr_r by lia. }
  rewrite Et. clear El Et.
  cbn [mbind option_bind]. unfold SipHash.
  rewrite E in Hb, Ht |- *. rewrite sip_pad_words by done.
  rewrite fold_left_app. cbn [fold_left].
  set (s := fold_left _ _ _). destruct s as [a0 a1 a2 a3]. unfold sip_absorb. cbn [v0 v1 v2 v3].
  cbn [Nat.iter nat_rect]. destruct (SIPROUND (Sip a0 _ _ _)) as [b0 b1 b2 b3]. cbn [v0 v1 v2 v3].
  destruct (SIPROUND (SIPROUND _)). done.
Qed.

(** * Theorems *)

(** C36. With a 16-byte key, [siphash] stays inside the message and key buffers, terminates and
    returns SipHash-1-2 of the message: the word loads, the length byte and the fall-through
    switch over the last bytes compute the padding of the published definition. *)
Theorem siphash_is_SipHash_1_2 buf k : bytes_ok buf -> zlen k = 16 ->
  siphash buf k = Some (SipHash 1 2 (le_value (take 8 k)) (le_value (drop 8 k)) buf).
Proof. apply siphash_spec. Qed.

Lemma siphash_is_SipHash_1_2_witness :
  siphash (map Z.of_nat (seq 0 11)) (map Z.of_nat (seq 0 16)) =
  Some (SipHash 1 2 (le_value (take 8 (map Z.of_nat (seq 0 16))))
     (le_value (drop 8 (map Z.of_nat (seq 0 16)))) (map Z.of_nat (seq 0 11))).
Proof. apply siphash_is_SipHash_1_2; [repeat constructor; done|done]. Defined.

(** [siphash_nocase] is [siphash] of the lower-cased message, so two byte strings that differ
    only in the case of ASCII letters hash to the same value under the same key. *)
Theorem siphash_nocase_correct buf buf' k : bytes_ok buf -> bytes_ok buf' -> zlen k = 16 ->
  siphash_nocase buf k = siphash (map siptlw buf) k /\
  is_Some (siphash_nocase buf k) /\
  (map siptlw buf = map siptlw buf' -> siphash_nocase buf k = siphash_nocase buf' k).
Proof.
  intros H H' Hk. rewrite !siphash_nocase_map by done. split_and!; [done| |by intros ->].
  rewrite siphash_spec by (done || by apply map_siptlw_ok). done.
Qed.

Lemma siphash_nocase_correct_witness :
  siphash_nocase [72; 101; 108; 108; 111] (replicate 16 1) =
  siphash_nocase [104; 69; 76; 108; 79] (replicate 16 1).
Proof.
  apply (siphash_nocase_correct [72; 101; 108; 108; 111] [104; 69; 76; 108; 79] (replicate 16 1));
    [repeat constructor; done..|done|done].
Defined.
