(* ===== verification/Adlist.v ===== *)
(** Generic doubly linked lists (adlist.c, adlist.h).

    Nodes live in a shared heap ([gmap] from addresses to nodes), so that sharing and dangling
    pointers are visible: a dereference of NULL or of a freed node is [None].  The [list] header
    and iterators are records passed by value.  Node values are opaque ([Z]); the [dup] and [match]
    methods are functions and calls of the [free] method are recorded in a log.  [zmalloc] returns
    an address not in use (it aborts instead of returning NULL). *)

From stdpp Require Import gmap.
From S2P Require Import Prelude.
#[local] Open Scope Z_scope.

(** * The code *)

Abbreviation loc := positive (only parsing).
Abbreviation ptr := (option positive).

Record listNode := Node { prev : ptr; next : ptr; value : Z }.

Inductive direction := AL_START_HEAD | AL_START_TAIL.

Record listIter := Iter { iter_next : ptr; iter_direction : direction }.

Record alist := Alist {
  head : ptr;
  tail : ptr;
  dup : option (Z -> option Z);
  free : bool;
  match_ : option (Z -> Z -> bool);
  len : Z;
}.

Abbreviation heap := (gmap positive listNode).

(** Dereference, and assignments through a pointer. *)
Definition deref (h : heap) (p : ptr) : option listNode := a ← p; h !! a.
Definition set_prev (h : heap) (p q : ptr) : option heap :=
  a ← p; n ← h !! a; Some (<[a := Node q (next n) (value n)]> h).
Definition set_next (h : heap) (p q : ptr) : option heap :=
  a ← p; n ← h !! a; Some (<[a := Node (prev n) q (value n)]> h).
Definition zfree (h : heap) (p : ptr) : option heap := a ← p; n ← h !! a; Some (delete a h).
Definition zmalloc (h : heap) (n : listNode) : heap * positive :=
  let a := fresh (dom h) in (<[a := n]> h, a).

Definition set_ends (l : alist) (hd tl : ptr) (n : Z) : alist :=
  Alist hd tl (dup l) (free l) (match_ l) n.

Definition listCreate : alist := Alist None None None false None 0.

Definition call_free (l : alist) (v : Z) (log : list Z) : list Z :=
  if free l then log ++ [v] else log.

(** [while(len--) { next = current->next; free...; current = next; }] *)
Fixpoint listEmpty_loop (len : nat) (h : heap) (l : alist) (current : ptr) (log : list Z)
    : option (heap * list Z) :=
  match len with
  | O => Some (h, log)
  | S len =>
      n ← deref h current;
      let log := call_free l (value n) log in
      h ← zfree h current;
      listEmpty_loop len h l (next n) log
  end.

Definition listEmpty (h : heap) (l : alist) (log : list Z) : option (heap * alist * list Z) :=
  '(h, log) ← listEmpty_loop (Z.to_nat (len l)) h l (head l) log;
  Some (h, set_ends l None None 0, log).

Definition listAddNodeHead (h : heap) (l : alist) (v : Z) : option (heap * alist) :=
  if len l =? 0 then
    let '(h, a) := zmalloc h (Node None None v) in
    Some (h, set_ends l (Some a) (Some a) (u64 (len l + 1)))
  else
    let '(h, a) := zmalloc h (Node None (head l) v) in
    h ← set_prev h (head l) (Some a);
    Some (h, set_ends l (Some a) (tail l) (u64 (len l + 1))).

Definition listAddNodeTail (h : heap) (l : alist) (v : Z) : option (heap * alist) :=
  if len l =? 0 then
    let '(h, a) := zmalloc h (Node None None v) in
    Some (h, set_ends l (Some a) (Some a) (u64 (len l + 1)))
  else
    let '(h, a) := zmalloc h (Node (tail l) None v) in
    h ← set_next h (tail l) (Some a);
    Some (h, set_ends l (head l) (Some a) (u64 (len l + 1))).

Definition listInsertNode (h : heap) (l : alist) (old_node : positive) (v : Z) (after : bool)
    : option (heap * alist) :=
  old ← h !! old_node;
  let '(pv, nx) := if after then (Some old_node, next old) else (prev old, Some old_node) in
  let '(h, a) := zmalloc h (Node pv nx v) in
  let tl := if after && bool_decide (tail l = Some old_node) then Some a else tail l in
  let hd := if negb after && bool_decide (head l = Some old_node) then Some a else head l in
  h ← match pv with Some _ => set_next h pv (Some a) | None => Some h end;
  h ← match nx with Some _ => set_prev h nx (Some a) | None => Some h end;
  Some (h, set_ends l hd tl (u64 (len l + 1))).

Definition listDelNode (h : heap) (l : alist) (node : positive) (log : list Z)
    : option (heap * alist * list Z) :=
  n ← h !! node;
  '(h, hd) ← match prev n with
             | Some _ => h ← set_next h (prev n) (next n); Some (h, head l)
             | None => Some (h, next n)
             end;
  n ← h !! node;
  '(h, tl) ← match next n with
             | Some _ => h ← set_prev h (next n) (prev n); Some (h, tail l)
             | None => Some (h, prev n)
             end;
  n ← h !! node;
  let log := call_free l (value n) log in
  h ← zfree h (Some node);
  Some (h, set_ends l hd tl (u64 (len l - 1)), log).

Definition listGetIterator (l : alist) (d : direction) : listIter :=
  match d with AL_START_HEAD => Iter (head l) d | AL_START_TAIL => Iter (tail l) d end.

Definition listRewind (l : alist) : listIter := Iter (head l) AL_START_HEAD.
Definition listRewindTail (l : alist) : listIter := Iter (tail l) AL_START_TAIL.

(** The node returned and the iterator after the call. *)
Definition listNext (h : heap) (it : listIter) : option (ptr * listIter) :=
  match iter_next it with
  | None => Some (None, it)
  | Some a =>
      n ← h !! a;
      Some (Some a, Iter (match iter_direction it with AL_START_HEAD => next n | AL_START_TAIL => prev n end)
                         (iter_direction it))
  end.

(** The loop of [listDup]; the boolean result is false when [dup] failed.  The fuel is the length
    of the original. *)
Fixpoint listDup_loop (fuel : nat) (h : heap) (copy : alist) (it : listIter) (log : list Z)
    : option (heap * option alist * list Z) :=
  '(node, it) ← listNext h it;
  match node with
  | None => Some (h, Some copy, log)
  | Some a =>
      match fuel with
      | O => None
      | S fuel =>
          n ← h !! a;
          match (match dup copy with Some d => d (value n) | None => Some (value n) end) with
          | None => '(h, _, log) ← listEmpty h copy log; Some (h, None, log)
          | Some v =>
              '(h, copy) ← listAddNodeTail h copy v;
              listDup_loop fuel h copy it log
          end
      end
  end.

Definition listDup (h : heap) (orig : alist) (log : list Z) : option (heap * option alist * list Z) :=
  let copy := Alist None None (dup orig) (free orig) (match_ orig) 0 in
  listDup_loop (Z.to_nat (len orig)) h copy (listRewind orig) log.

Fixpoint listSearchKey_loop (fuel : nat) (h : heap) (l : alist) (key : Z) (it : listIter) : option ptr :=
  '(node, it) ← listNext h it;
  match node with
  | None => Some None
  | Some a =>
      match fuel with
      | O => None
      | S fuel =>
          n ← h !! a;
          if (match match_ l with Some m => m (value n) key | None => key =? value n end)
          then Some (Some a)
          else listSearchKey_loop fuel h l key it
      end
  end.

Definition listSearchKey (h : heap) (l : alist) (key : Z) : option ptr :=
  listSearchKey_loop (Z.to_nat (len l)) h l key (listRewind l).

(** [while(index-- && n) n = n->prev] (or [next]), [index] counting down. *)
Fixpoint walk (d : direction) (index : nat) (h : heap) (n : ptr) : option ptr :=
  match index, n with
  | S index, Some a =>
      x ← h !! a;
      walk d index h (match d with AL_START_HEAD => next x | AL_START_TAIL => prev x end)
  | _, _ => Some n
  end.

Definition listIndex (h : heap) (l : alist) (index : Z) : option ptr :=
  if index <? 0 then walk AL_START_TAIL (Z.to_nat (- index - 1)) h (tail l)
  else walk AL_START_HEAD (Z.to_nat index) h (head l).

Definition listRotateTailToHead (h : heap) (l : alist) : option (heap * alist) :=
  if len l <=? 1 then Some (h, l) else
  let t := tail l in
  n ← deref h t;
  let tl := prev n in
  h ← set_next h tl None;
  h ← set_prev h (head l) t;
  h ← set_prev h t None;
  h ← set_next h t (head l);
  Some (h, set_ends l t tl (len l)).

Definition listRotateHeadToTail (h : heap) (l : alist) : option (heap * alist) :=
  if len l <=? 1 then Some (h, l) else
  let hd := head l in
  n ← deref h hd;
  let hd' := next n in
  h ← set_prev h hd' None;
  h ← set_next h (tail l) hd;
  h ← set_next h hd None;
  h ← set_prev h hd (tail l);
  Some (h, set_ends l hd' hd (len l)).

Definition listJoin (h : heap) (l o : alist) : option (heap * alist * alist) :=
  h ← match head o with Some _ => set_prev h (head o) (tail l) | None => Some h end;
  '(h, hd) ← match tail l with
             | Some _ => h ← set_next h (tail l) (head o); Some (h, head l)
             | None => Some (h, head o)
             end;
  let tl := match tail o with Some _ => tail o | None => tail l end in
  Some (h, set_ends l hd tl (u64 (len l + len o)), set_ends o None None 0).

(** * Abstraction *)

(** A list is the sequence of its nodes' addresses and values. *)
Abbreviation cells := (list (positive * Z)).

Definition locs (xs : cells) : list positive := xs.*1.
Definition vals (xs : cells) : list Z := xs.*2.

Definition first (xs : cells) (nx : ptr) : ptr := match xs with [] => nx | (a, _) :: _ => Some a end.
Fixpoint final (xs : cells) (pv : ptr) : ptr :=
  match xs with [] => pv | (a, _) :: xs => final xs (Some a) end.

(** [xs] is laid out in [h] between the neighbours [pv] and [nx]. *)
Fixpoint seg (h : heap) (pv : ptr) (xs : cells) (nx : ptr) : Prop :=
  match xs with
  | [] => True
  | (a, v) :: xs => h !! a = Some (Node pv (first xs nx) v) /\ seg h (Some a) xs nx
  end.

Record is_list (h : heap) (l : alist) (xs : cells) : Prop := mkIsList {
  il_seg : seg h None xs None;
  il_head : head l = first xs None;
  il_tail : tail l = final xs None;
  il_len : len l = zlen xs;
  il_nodup : NoDup (locs xs);
}.

(** Nothing outside [fp] differs. *)
Definition same_outside (fp : list positive) (h h' : heap) : Prop :=
  forall a, a ∉ fp -> h' !! a = h !! a.

(** * Segments *)

Lemma first_app xs ys nx : first (xs ++ ys) nx = first xs (first ys nx).
Proof. by destruct xs as [|[]]. Qed.

Lemma final_app xs ys pv : final (xs ++ ys) pv = final ys (final xs pv).
Proof. revert pv. induction xs as [|[a v] xs IH]; intros pv; [done|]. apply IH. Qed.

Lemma locs_app xs ys : locs (xs ++ ys) = locs xs ++ locs ys.
Proof. apply fmap_app. Qed.

Lemma seg_app h xs ys : forall pv nx,
  seg h pv (xs ++ ys) nx <-> seg h pv xs (first ys nx) /\ seg h (final xs pv) ys nx.
Proof.
  induction xs as [|[a v] xs IH]; intros pv nx; simpl; [tauto|]. rewrite IH, first_app. tauto.
Qed.

(** Changes outside the segment do not matter. *)
Lemma seg_frame h h' xs : forall pv nx,
  (forall a, a ∈ locs xs -> h' !! a = h !! a) -> seg h pv xs nx -> seg h' pv xs nx.
Proof.
  induction xs as [|[a v] xs IH]; intros pv nx He; simpl; [done|]. intros [Ha Hs]. split.
  - rewrite He; [done|]. simpl. by left.
  - apply IH; [|done]. intros b Hb. apply He. simpl. by right.
Qed.

Lemma seg_in h xs a : forall pv nx, seg h pv xs nx -> a ∈ locs xs -> is_Some (h !! a).
Proof.
  induction xs as [|[b v] xs IH]; intros pv nx Hs Ha; simpl in *; [by apply elem_of_nil in Ha|].
  destruct Hs as [Hb Hs]. apply elem_of_cons in Ha as [->|Ha]; [by eexists|]. by eapply IH.
Qed.

Lemma fresh_not_in h xs pv nx : seg h pv xs nx -> fresh (dom h) ∉ locs xs.
Proof.
  intros Hs Hin. apply (seg_in _ _ _ _ _ Hs) in Hin. apply elem_of_dom in Hin.
  by apply is_fresh in Hin.
Qed.

Lemma fresh_new (h : heap) : h !! fresh (dom h) = None.
Proof. apply not_elem_of_dom, is_fresh. Qed.

Lemma seg_insert h xs pv nx a n : a ∉ locs xs -> seg h pv xs nx -> seg (<[a := n]> h) pv xs nx.
Proof.
  intros Ha. apply seg_frame. intros b Hb. apply lookup_insert_ne. by intros ->.
Qed.

Lemma seg_delete h xs pv nx a : a ∉ locs xs -> seg h pv xs nx -> seg (delete a h) pv xs nx.
Proof.
  intros Ha. apply seg_frame. intros b Hb. apply lookup_delete_ne. by intros ->.
Qed.

(** Re-linking the ends of a segment. *)
Lemma set_prev_first h pv xs nx q : xs <> [] -> NoDup (locs xs) -> seg h pv xs nx ->
  exists h', set_prev h (first xs None) q = Some h' /\ seg h' q xs nx /\ same_outside (locs xs) h h'.
Proof.
  destruct xs as [|[a v] xs]; [done|]. intros _ [Ha Hnd]%list.NoDup_cons [Hl Hs].
  unfold set_prev. cbn [first mbind option_bind]. rewrite Hl. cbn [mbind option_bind].
  eexists. split; [done|]. split.
  - simpl. rewrite lookup_insert_eq. split; [done|]. by apply seg_insert.
  - intros b Hb. apply lookup_insert_ne. intros ->. apply Hb. by left.
Qed.

Lemma set_next_final h pv xs nx q : xs <> [] -> NoDup (locs xs) -> seg h pv xs nx ->
  exists h', set_next h (final xs None) q = Some h' /\ seg h' pv xs q /\ same_outside (locs xs) h h'.
Proof.
  destruct xs as [|[a v] xs _] using rev_ind; [done|]. intros _ Hnd Hs.
  rewrite locs_app in Hnd. apply list.NoDup_app in Hnd as (Hnd & Hdis & _).
  rewrite final_app. unfold set_next. cbn [final mbind option_bind].
  apply seg_app in Hs as [Hs [Hl _]]. rewrite Hl. cbn [mbind option_bind].
  eexists. split; [done|]. split.
  - apply seg_app. split.
    + apply seg_insert; [|done]. intros Hin. apply (Hdis a Hin). by left.
    + simpl. by rewrite lookup_insert_eq.
  - intros b Hb. apply lookup_insert_ne. intros ->. apply Hb. rewrite locs_app. apply elem_of_app. right. by left.
Qed.

Lemma final_nonempty xs pv pv' : xs <> [] -> final xs pv = final xs pv'.
Proof. destruct xs as [|[]]; done. Qed.

Lemma final_None xs : final xs None = None -> xs = [].
Proof.
  destruct xs as [|[a v] xs _] using rev_ind; [done|]. by rewrite final_app.
Qed.

Lemma first_None xs : first xs None = None -> xs = [].
Proof. by destruct xs as [|[]]. Qed.

Lemma same_outside_refl fp h : same_outside fp h h.
Proof. by intros a _. Qed.

Lemma same_outside_trans fp h1 h2 h3 : same_outside fp h1 h2 -> same_outside fp h2 h3 -> same_outside fp h1 h3.
Proof. intros H1 H2 a Ha. by rewrite H2, H1. Qed.

Lemma same_outside_mono fp fp' h h' : fp ⊆ fp' -> same_outside fp h h' -> same_outside fp' h h'.
Proof. intros Hs H a Ha. apply H. set_solver. Qed.

Lemma same_outside_insert fp h a n : a ∈ fp -> same_outside fp h (<[a := n]> h).
Proof. intros Ha b Hb. apply lookup_insert_ne. by intros ->. Qed.

Lemma same_outside_delete fp h a : a ∈ fp -> same_outside fp h (delete a h).
Proof. intros Ha b Hb. apply lookup_delete_ne. by intros ->. Qed.

(** A segment disjoint from what changed. *)
Lemma seg_same_outside fp h h' pv xs nx :
  (forall a, a ∈ locs xs -> a ∉ fp) -> same_outside fp h h' -> seg h pv xs nx -> seg h' pv xs nx.
Proof. intros Hd Hsame. apply seg_frame. intros a Ha. apply Hsame. by apply Hd. Qed.

(** * Insertion at the ends *)

Lemma is_list_len0 h l xs : is_list h l xs -> (len l =? 0) = bool_decide (xs = []).
Proof.
  intros [_ _ _ -> _]. destruct xs as [|x xs]; [done|].
  rewrite bool_decide_eq_false_2 by done. rewrite zlen_cons. pose proof (zlen_nonneg xs). by zdec.
Qed.

Lemma addHead_spec h l xs v : is_list h l xs -> zlen xs < 2 ^ 64 - 1 ->
  exists h' l' a, listAddNodeHead h l v = Some (h', l') /\ is_list h' l' ((a, v) :: xs) /\
    h !! a = None /\ same_outside (a :: locs xs) h h'.
Proof.
  intros Hl Hlt. pose proof (is_list_len0 _ _ _ Hl) as E0. destruct Hl as [Hs Hh Ht Hn Hnd].
  unfold listAddNodeHead. rewrite E0. pose proof (zlen_nonneg xs).
  assert (El : u64 (len l + 1) = zlen xs + 1) by (rewrite Hn; apply uwrap_small; unfold urange; lia).
  rewrite El. destruct (bool_decide_reflect (xs = [])) as [->|Hne]; cbn [zmalloc].
  - exists (<[fresh (dom h) := Node None None v]> h). do 2 eexists. split; [done|].
    split_and!; [|apply fresh_new|apply same_outside_insert; set_solver].
    split; cbn; [by rewrite lookup_insert_eq|done|done|done|]. apply NoDup_singleton.
  - set (a := fresh (dom h)). set (h1 := <[a := _]> h).
    pose proof (fresh_not_in _ _ _ _ Hs) as Hfr. fold a in Hfr.
    assert (Hs1 : seg h1 None xs None) by by apply seg_insert.
    destruct (set_prev_first h1 None xs None (Some a) Hne Hnd Hs1) as (h2 & E2 & Hs2 & Hsame).
    rewrite Hh, E2. cbn [mbind option_bind]. do 3 eexists. split; [done|].
    split_and!; [|apply fresh_new|].
    + split; cbn [head tail len set_ends]; [|done| | |].
      * simpl. split; [|done]. rewrite Hsame by done. unfold h1. by rewrite lookup_insert_eq, Hh.
      * rewrite Ht. simpl. by apply final_nonempty.
      * rewrite zlen_cons. lia.
      * by constructor.
    + apply (same_outside_trans _ _ h1); [apply same_outside_insert; set_solver|].
      eapply same_outside_mono; [|exact Hsame]. set_solver.
Qed.

Lemma addTail_spec h l xs v : is_list h l xs -> zlen xs < 2 ^ 64 - 1 ->
  exists h' l' a, listAddNodeTail h l v = Some (h', l') /\ is_list h' l' (xs ++ [(a, v)]) /\
    h !! a = None /\ same_outside (a :: locs xs) h h'.
Proof.
  intros Hl Hlt. pose proof (is_list_len0 _ _ _ Hl) as E0. destruct Hl as [Hs Hh Ht Hn Hnd].
  unfold listAddNodeTail. rewrite E0. pose proof (zlen_nonneg xs).
  assert (El : u64 (len l + 1) = zlen xs + 1) by (rewrite Hn; apply uwrap_small; unfold urange; lia).
  rewrite El. destruct (bool_decide_reflect (xs = [])) as [->|Hne]; cbn [zmalloc].
  - exists (<[fresh (dom h) := Node None None v]> h). do 2 eexists. split; [done|].
    split_and!; [|apply fresh_new|apply same_outside_insert; set_solver].
    split; cbn; [by rewrite lookup_insert_eq|done|done|done|]. apply NoDup_singleton.
  - set (a := fresh (dom h)). set (h1 := <[a := _]> h).
    pose proof (fresh_not_in _ _ _ _ Hs) as Hfr. fold a in Hfr.
    assert (Hs1 : seg h1 None xs None) by by apply seg_insert.
    destruct (set_next_final h1 None xs None (Some a) Hne Hnd Hs1) as (h2 & E2 & Hs2 & Hsame).
    rewrite Ht, E2. cbn [mbind option_bind]. do 3 eexists. split; [done|].
    split_and!; [|apply fresh_new|].
    + split; cbn [head tail len set_ends].
      * apply seg_app. split; [done|]. simpl. split; [|done]. rewrite Hsame by done.
        unfold h1. by rewrite lookup_insert_eq, Ht.
      * rewrite Hh, first_app. by destruct xs as [|[]].
      * by rewrite final_app.
      * rewrite zlen_app, zlen_cons, zlen_nil. lia.
      * rewrite locs_app. apply list.NoDup_app. split; [done|]. split; [|apply NoDup_singleton].
        intros b Hb ->%list_elem_of_singleton. done.
    + apply (same_outside_trans _ _ h1); [apply same_outside_insert; set_solver|].
      eapply same_outside_mono; [|exact Hsame]. set_solver.
Qed.

(** * Linking and unlinking *)

(** Re-link the right end of a segment that may be empty, and the left end. *)
Lemma relink_left h ys nx q : NoDup (locs ys) -> seg h None ys nx ->
  exists h', (match final ys None with Some _ => set_next h (final ys None) q | None => Some h end) = Some h' /\
    seg h' None ys q /\ same_outside (locs ys) h h'.
Proof.
  intros Hnd Hs. destruct (final ys None) as [b|] eqn:E.
  - rewrite <- E. apply (set_next_final h None ys nx q); [by intros ->|done..].
  - apply final_None in E as ->. exists h. split; [done|]. split; [done|apply same_outside_refl].
Qed.

Lemma relink_right h pv ys q : NoDup (locs ys) -> seg h pv ys None ->
  exists h', (match first ys None with Some _ => set_prev h (first ys None) q | None => Some h end) = Some h' /\
    seg h' q ys None /\ same_outside (locs ys) h h'.
Proof.
  intros Hnd Hs. destruct (first ys None) as [b|] eqn:E.
  - rewrite <- E. apply (set_prev_first h pv ys None q); [by intros ->|done..].
  - apply first_None in E as ->. exists h. split; [done|]. split; [done|apply same_outside_refl].
Qed.

Lemma NoDup_locs_app xs ys : NoDup (locs (xs ++ ys)) <->
  NoDup (locs xs) /\ NoDup (locs ys) /\ (forall a, a ∈ locs xs -> a ∉ locs ys).
Proof. rewrite locs_app, list.NoDup_app. tauto. Qed.

(** Hooking a node between two segments. *)
Lemma link_spec h ys1 ys2 b v : NoDup (locs (ys1 ++ ys2)) -> b ∉ locs (ys1 ++ ys2) ->
  seg h None (ys1 ++ ys2) None -> h !! b = Some (Node (final ys1 None) (first ys2 None) v) ->
  exists h1 h2,
    (match final ys1 None with Some _ => set_next h (final ys1 None) (Some b) | None => Some h end) = Some h1 /\
    (match first ys2 None with Some _ => set_prev h1 (first ys2 None) (Some b) | None => Some h1 end) = Some h2 /\
    seg h2 None (ys1 ++ (b, v) :: ys2) None /\ same_outside (locs (ys1 ++ ys2)) h h2.
Proof.
  intros (Hn1 & Hn2 & Hd)%NoDup_locs_app Hb (Hs1 & Hs2)%seg_app Hl.
  rewrite locs_app, not_elem_of_app in Hb. destruct Hb as [Hb1 Hb2].
  destruct (relink_left h ys1 _ (Some b) Hn1 Hs1) as (h1 & E1 & Hs1' & So1).
  assert (Hs2' : seg h1 (final ys1 None) ys2 None).
  { eapply seg_same_outside; [|exact So1|done]. intros a Ha Ha'. by apply (Hd a). }
  destruct (relink_right h1 _ ys2 (Some b) Hn2 Hs2') as (h2 & E2 & Hs2'' & So2).
  exists h1, h2. split; [done|]. split; [done|]. split.
  - apply seg_app. split.
    + eapply seg_same_outside; [|exact So2|]; [done|]. done.
    + simpl. rewrite So2, So1 by done. done.
  - rewrite locs_app. eapply same_outside_trans; (eapply same_outside_mono; [|eassumption]); set_solver.
Qed.

(** The first node of a duplicate-free list is only at the front. *)
Lemma head_is xs1 a w xs2 : NoDup (locs (xs1 ++ (a, w) :: xs2)) ->
  bool_decide (first (xs1 ++ (a, w) :: xs2) None = Some a) = bool_decide (xs1 = []).
Proof.
  intros (_ & _ & Hd)%NoDup_locs_app. destruct xs1 as [|[b u] xs1]; simpl.
  - by rewrite !bool_decide_eq_true_2.
  - rewrite !bool_decide_eq_false_2; [done..|]. intros [= ->]. apply (Hd a); [by left|by left].
Qed.

Lemma tail_is xs1 a w xs2 : NoDup (locs (xs1 ++ (a, w) :: xs2)) ->
  bool_decide (final (xs1 ++ (a, w) :: xs2) None = Some a) = bool_decide (xs2 = []).
Proof.
  intros Hnd. rewrite final_app. simpl. destruct xs2 as [|[b u] xs2 _] using rev_ind.
  - by rewrite !bool_decide_eq_true_2.
  - rewrite final_app. simpl.
    rewrite !bool_decide_eq_false_2; [done|by destruct xs2|].
    intros [= ->]. apply NoDup_locs_app in Hnd as (_ & Hnd & _). simpl in Hnd.
    apply list.NoDup_cons in Hnd as [Hnd _]. apply Hnd. rewrite locs_app. apply elem_of_app. right. by left.
Qed.

(** Insertion next to a node: [ys1] and [ys2] are the nodes before and after the new one. *)
Lemma insert_node_spec h l xs1 a w xs2 v after ys1 ys2 :
  is_list h l (xs1 ++ (a, w) :: xs2) -> zlen (xs1 ++ (a, w) :: xs2) < 2 ^ 64 - 1 ->
  (ys1, ys2) = (if after : bool then (xs1 ++ [(a, w)], xs2) else (xs1, (a, w) :: xs2)) ->
  exists h' l' b, listInsertNode h l a v after = Some (h', l') /\
    is_list h' l' (ys1 ++ (b, v) :: ys2) /\ h !! b = None /\
    same_outside (b :: locs (xs1 ++ (a, w) :: xs2)) h h'.
Proof.
  intros [Hs Hh Ht Hn Hnd] Hlt Hy. set (xs := xs1 ++ (a, w) :: xs2) in *.
  assert (Exs : xs = ys1 ++ ys2).
  { unfold xs. destruct after; injection Hy as -> ->; [by rewrite <- app_assoc|done]. }
  pose proof (proj1 (seg_app _ _ _ _ _) Hs) as [_ [Ha _]].
  unfold listInsertNode. rewrite Ha. cbn [mbind option_bind prev next].
  assert (Epn : (if after then (Some a, first xs2 None) else (final xs1 None, Some a)) =
     (final ys1 None, first ys2 None)).
  { destruct after; injection Hy as -> ->; [|done]. by rewrite final_app. }
  rewrite Epn. cbn [zmalloc]. set (b := fresh (dom h)). set (h0 := <[b := _]> h).
  pose proof (fresh_not_in _ _ _ _ Hs) as Hfr. fold b in Hfr.
  assert (Hs0 : seg h0 None (ys1 ++ ys2) None) by (rewrite <- Exs; by apply seg_insert).
  destruct (link_spec h0 ys1 ys2 b v) as (h1 & h2 & E1 & E2 & Hs2 & So); [by rewrite <- Exs..|done| |].
  { unfold h0. by rewrite lookup_insert_eq. }
  rewrite E1. cbn [mbind option_bind]. rewrite E2. cbn [mbind option_bind].
  do 3 eexists. split; [done|]. split_and!; [|apply fresh_new|].
  - assert (Hzl : zlen (ys1 ++ (b, v) :: ys2) = zlen xs + 1) by (rewrite Exs; zlia).
    split; cbn [head tail len set_ends]; [done| | | |].
    + rewrite Hh. unfold xs at 1. rewrite head_is by done. destruct after; injection Hy as -> ->; cbn [andb negb].
      * unfold xs. by destruct xs1 as [|[]].
      * unfold xs. by destruct xs1 as [|[]].
    + rewrite Ht. unfold xs at 1. rewrite tail_is by done. rewrite final_app.
      destruct after; injection Hy as -> ->; cbn [andb negb]; unfold xs; rewrite !final_app; simpl.
      * destruct xs2 as [|[c u] xs2]; [by rewrite bool_decide_eq_true_2|by rewrite bool_decide_eq_false_2].
      * done.
    + rewrite Hn. etransitivity; [|symmetry; exact Hzl].
      apply uwrap_small. unfold urange. pose proof (zlen_nonneg xs). lia.
    + rewrite Exs in Hnd, Hfr. apply NoDup_locs_app in Hnd as (Hn1 & Hn2 & Hd).
      rewrite locs_app, not_elem_of_app in Hfr. apply NoDup_locs_app. split; [done|].
      split; [simpl; apply list.NoDup_cons; tauto|].
      intros c Hc. simpl. rewrite not_elem_of_cons. split; [intros ->; by destruct Hfr|by apply Hd].
  - apply (same_outside_trans _ _ h0); [apply same_outside_insert; set_solver|].
    rewrite <- Exs in So. eapply same_outside_mono; [|exact So]. intros c Hc. by right.
Qed.

Lemma set_ends_len (l : alist) hd tl n : len (set_ends l hd tl n) = n.
Proof. done. Qed.

(** Removing a node. *)
Lemma del_node_spec h l xs1 a w xs2 log : is_list h l (xs1 ++ (a, w) :: xs2) ->
  zlen (xs1 ++ (a, w) :: xs2) < 2 ^ 64 ->
  exists h' l', listDelNode h l a log = Some (h', l', call_free l w log) /\
    is_list h' l' (xs1 ++ xs2) /\ h' !! a = None /\
    same_outside (locs (xs1 ++ (a, w) :: xs2)) h h' /\ free l' = free l.
Proof.
  intros [Hs Hh Ht Hn Hnd] Hlt.
  pose proof (proj1 (seg_app _ _ _ _ _) Hs) as [Hs1 [Ha Hs2]].
  apply NoDup_locs_app in Hnd as (Hn1 & [Hna Hn2]%list.NoDup_cons & Hd).
  assert (Ha1 : a ∉ locs xs1) by (intros Hin; apply (Hd a Hin); by left).
  assert (Hd12 : forall b, b ∈ locs xs1 -> b ∉ locs xs2) by (intros b Hb Hb2; apply (Hd b Hb); by right).
  unfold listDelNode. rewrite Ha. cbn [mbind option_bind prev next].
  destruct (relink_left h xs1 _ (first xs2 None) Hn1 Hs1) as (h1 & E1 & Hs1' & So1).
  assert (EA : (match final xs1 None with
     | Some _ => h0 ← set_next h (final xs1 None) (first xs2 None); Some (h0, head l)
     | None => Some (h, first xs2 None) end) =
     Some (h1, first (xs1 ++ xs2) None)).
  { rewrite first_app. destruct (final xs1 None) eqn:Ef.
    - rewrite E1. cbn [mbind option_bind]. rewrite Hh. by destruct xs1 as [|[]].
    - apply final_None in Ef as ->. by injection E1 as ->. }
  rewrite EA. cbn [mbind option_bind]. rewrite So1 by done. rewrite Ha. cbn [mbind option_bind prev next].
  assert (Hs2' : seg h1 (Some a) xs2 None).
  { eapply seg_same_outside; [|exact So1|done]. intros b Hb Hb'. by apply (Hd12 b). }
  destruct (relink_right h1 (Some a) xs2 (final xs1 None) Hn2 Hs2') as (h2 & E2 & Hs2'' & So2).
  assert (EB : (match first xs2 None with
     | Some _ => h0 ← set_prev h1 (first xs2 None) (final xs1 None); Some (h0, tail l)
     | None => Some (h1, final xs1 None) end) =
     Some (h2, final (xs1 ++ xs2) None)).
  { rewrite final_app. destruct (first xs2 None) eqn:Ef.
    - rewrite E2. cbn [mbind option_bind]. rewrite Ht, final_app. by destruct xs2 as [|[]].
    - apply first_None in Ef as ->. by injection E2 as ->. }
  rewrite EB. cbn [mbind option_bind]. rewrite So2, So1 by done. rewrite Ha. cbn [mbind option_bind value].
  unfold zfree. cbn [mbind option_bind]. rewrite So2, So1 by done. rewrite Ha. cbn [mbind option_bind].
  do 2 eexists. split; [done|]. split_and!; [|apply lookup_delete_eq| |done].
  - split; cbn [head tail set_ends]; [|done|done| |].
    + apply seg_delete; [by rewrite locs_app, not_elem_of_app|]. apply seg_app. split; [|done].
      eapply seg_same_outside; [|exact So2|done]. done.
    + rewrite set_ends_len, Hn. autorewrite with zlen in *. pose proof (zlen_nonneg xs1). pose proof (zlen_nonneg xs2).
      rewrite uwrap_small by (unfold urange; lia). lia.
    + apply NoDup_locs_app. done.
  - rewrite locs_app. change (locs ((a, w) :: xs2)) with (a :: locs xs2).
    apply (same_outside_trans _ _ h1); [eapply same_outside_mono; [|exact So1]; set_solver|].
    apply (same_outside_trans _ _ h2); [eapply same_outside_mono; [|exact So2]; set_solver|].
    apply same_outside_delete. set_solver.
Qed.

(** Emptying the list frees exactly its nodes. *)
Lemma empty_loop_spec l xs : forall h pv log, seg h pv xs None -> NoDup (locs xs) ->
  exists h', listEmpty_loop (length xs) h l (first xs None) log =
      Some (h', log ++ (if free l then vals xs else [])) /\
    (forall a, a ∈ locs xs -> h' !! a = None) /\ same_outside (locs xs) h h'.
Proof.
  induction xs as [|[a v] xs IH]; intros h pv log Hs Hnd.
  { exists h. simpl. split; [by destruct (free l); rewrite app_nil_r|].
    split; [intros a Ha; by apply elem_of_nil in Ha|apply same_outside_refl]. }
  destruct Hs as [Ha Hs]. apply list.NoDup_cons in Hnd as [Hni Hnd].
  cbn [length first listEmpty_loop]. unfold deref, zfree. cbn [mbind option_bind].
  rewrite Ha. cbn [mbind option_bind value next].
  destruct (IH (delete a h) (Some a) (call_free l v log)) as (h' & E & Hnone & So);
    [by apply seg_delete|done|].
  exists h'. rewrite E. split_and!.
  - do 2 f_equal. unfold call_free. destruct (free l); [|done]. by rewrite <- app_assoc.
  - intros b. change (locs ((a, v) :: xs)) with (a :: locs xs). intros [->|Hb]%elem_of_cons; [|by apply Hnone].
    rewrite So by done. apply lookup_delete_eq.
  - change (locs ((a, v) :: xs)) with (a :: locs xs).
    apply (same_outside_trans _ _ (delete a h)); [apply same_outside_delete; by left|].
    eapply same_outside_mono; [|exact So]. set_solver.
Qed.

Lemma empty_spec h l xs log : is_list h l xs ->
  exists h' l', listEmpty h l log = Some (h', l', log ++ (if free l then vals xs else [])) /\
    is_list h' l' [] /\ (forall a, a ∈ locs xs -> h' !! a = None) /\ same_outside (locs xs) h h'.
Proof.
  intros [Hs Hh Ht Hn Hnd]. unfold listEmpty. rewrite Hh, Hn, to_nat_zlen.
  destruct (empty_loop_spec l xs h None log Hs Hnd) as (h' & E & Hnone & So). rewrite E.
  cbn [mbind option_bind]. do 2 eexists. split; [done|]. split_and!; [|done|done].
  split; cbn; [done|done|done|done|]. apply NoDup_nil_2.
Qed.

(** * Rotation and concatenation *)

Lemma rotate_tail_spec h l ys a v : is_list h l (ys ++ [(a, v)]) ->
  exists h' l', listRotateTailToHead h l = Some (h', l') /\ is_list h' l' ((a, v) :: ys) /\
    same_outside (locs (ys ++ [(a, v)])) h h'.
Proof.
  intros Hl. pose proof Hl as [Hs Hh Ht Hn Hnd]. unfold listRotateTailToHead. rewrite Hn.
  destruct (decide (ys = [])) as [->|Hne].
  { exists h, l. split; [done|]. split; [done|apply same_outside_refl]. }
  assert (0 < zlen ys) by (destruct ys; [done|rewrite zlen_cons; pose proof (zlen_nonneg ys); lia]).
  rewrite zlen_app, zlen_cons, zlen_nil. zdec.
  apply seg_app in Hs as [Hs [Ha _]]. apply NoDup_locs_app in Hnd as (Hny & _ & Hd).
  assert (Hay : a ∉ locs ys) by (intros Hin; apply (Hd a Hin); by left).
  rewrite Ht, final_app. cbn [final]. unfold deref at 1. cbn [mbind option_bind]. rewrite Ha.
  cbn [mbind option_bind prev].
  destruct (set_next_final h None ys _ None Hne Hny Hs) as (h1 & E1 & Hs1 & So1).
  rewrite E1. cbn [mbind option_bind]. rewrite Hh, first_app.
  destruct (set_prev_first h1 None ys None (Some a) Hne Hny Hs1) as (h2 & E2 & Hs2 & So2).
  assert (Ef : first ys (Some a) = first ys None) by by destruct ys as [|[]].
  cbn [first]. rewrite Ef, E2. cbn [mbind option_bind]. unfold set_prev, set_next. cbn [mbind option_bind].
  rewrite So2, So1 by done. rewrite Ha. cbn [mbind option_bind value next].
  rewrite lookup_insert_eq. cbn [mbind option_bind value prev]. rewrite insert_insert_eq.
  do 2 eexists. split; [done|]. split.
  - split; cbn [head tail len set_ends]; [|done| | |].
    + simpl. rewrite lookup_insert_eq. split; [done|]. by apply seg_insert.
    + simpl. by apply final_nonempty.
    + zlia.
    + simpl. by apply list.NoDup_cons.
  - rewrite locs_app. change (locs [(a, v)]) with [a].
    apply (same_outside_trans _ _ h1); [eapply same_outside_mono; [|exact So1]; set_solver|].
    apply (same_outside_trans _ _ h2); [eapply same_outside_mono; [|exact So2]; set_solver|].
    apply same_outside_insert. set_solver.
Qed.

Lemma rotate_head_spec h l ys a v : is_list h l ((a, v) :: ys) ->
  exists h' l', listRotateHeadToTail h l = Some (h', l') /\ is_list h' l' (ys ++ [(a, v)]) /\
    same_outside (locs ((a, v) :: ys)) h h'.
Proof.
  intros Hl. pose proof Hl as [Hs Hh Ht Hn Hnd]. unfold listRotateHeadToTail. rewrite Hn.
  destruct (decide (ys = [])) as [->|Hne].
  { exists h, l. split; [done|]. split; [done|apply same_outside_refl]. }
  assert (0 < zlen ys) by (destruct ys; [done|rewrite zlen_cons; pose proof (zlen_nonneg ys); lia]).
  rewrite zlen_cons. zdec. destruct Hs as [Ha Hs]. apply list.NoDup_cons in Hnd as [Hay Hny].
  change (a ∉ locs ys) in Hay. change (NoDup (locs ys)) in Hny.
  rewrite Hh. cbn [first]. unfold deref at 1. cbn [mbind option_bind]. rewrite Ha. cbn [mbind option_bind next].
  destruct (set_prev_first h (Some a) ys None None Hne Hny Hs) as (h1 & E1 & Hs1 & So1).
  rewrite E1. cbn [mbind option_bind]. rewrite Ht. cbn [final].
  rewrite (final_nonempty ys (Some a) None Hne).
  destruct (set_next_final h1 None ys None (Some a) Hne Hny Hs1) as (h2 & E2 & Hs2 & So2).
  rewrite E2. cbn [mbind option_bind]. unfold set_prev, set_next. cbn [mbind option_bind].
  rewrite So2, So1 by done. rewrite Ha. cbn [mbind option_bind value next prev].
  rewrite lookup_insert_eq. cbn [mbind option_bind value next]. rewrite insert_insert_eq.
  do 2 eexists. split; [done|]. split.
  - split; cbn [head tail len set_ends].
    + apply seg_app. split; [by apply seg_insert|]. simpl. by rewrite lookup_insert_eq.
    + rewrite first_app. by destruct ys as [|[]].
    + by rewrite final_app.
    + rewrite zlen_app, zlen_cons, zlen_nil. lia.
    + apply NoDup_locs_app. split; [done|]. split; [apply NoDup_singleton|].
      intros b Hb ->%list_elem_of_singleton. done.
  - change (locs ((a, v) :: ys)) with (a :: locs ys).
    apply (same_outside_trans _ _ h1); [eapply same_outside_mono; [|exact So1]; set_solver|].
    apply (same_outside_trans _ _ h2); [eapply same_outside_mono; [|exact So2]; set_solver|].
    apply same_outside_insert. set_solver.
Qed.

Lemma join_spec h l o xs ys : is_list h l xs -> is_list h o ys ->
  (forall a, a ∈ locs xs -> a ∉ locs ys) -> zlen (xs ++ ys) < 2 ^ 64 ->
  exists h' l' o', listJoin h l o = Some (h', l', o') /\ is_list h' l' (xs ++ ys) /\ is_list h' o' [] /\
    same_outside (locs (xs ++ ys)) h h'.
Proof.
  intros [Hs Hh Ht Hn Hnd] [Hso Hho Hto Hno Hndo] Hd Hlt. unfold listJoin. rewrite Hho, Ht.
  destruct (relink_right h None ys (final xs None) Hndo Hso) as (h1 & E1 & Hy1 & So1).
  rewrite E1. cbn [mbind option_bind].
  assert (Hs1 : seg h1 None xs None).
  { eapply seg_same_outside; [|exact So1|done]. done. }
  destruct (relink_left h1 xs None (first ys None) Hnd Hs1) as (h2 & E2 & Hx2 & So2).
  assert (EA : (match final xs None with
     | Some _ => h0 ← set_next h1 (final xs None) (first ys None); Some (h0, head l)
     | None => Some (h1, first ys None) end) = Some (h2, first (xs ++ ys) None)).
  { rewrite first_app. destruct (final xs None) eqn:Ef.
    - rewrite E2. cbn [mbind option_bind]. rewrite Hh. by destruct xs as [|[]].
    - apply final_None in Ef as ->. by injection E2 as ->. }
  rewrite EA. cbn [mbind option_bind]. do 3 eexists. split; [done|]. split_and!.
  - split; cbn [head tail len set_ends]; [|done| | |].
    + apply seg_app. split; [done|]. eapply seg_same_outside; [|exact So2|done].
      intros a Ha Ha'. by apply (Hd a).
    + rewrite Hto, final_app. destruct (final ys None) eqn:Ef.
      * rewrite <- Ef. apply final_nonempty. by intros ->.
      * by apply final_None in Ef as ->.
    + rewrite Hn, Hno, <- zlen_app. apply uwrap_small. unfold urange.
      pose proof (zlen_nonneg (xs ++ ys)). lia.
    + apply NoDup_locs_app. done.
  - split; cbn; [done|done|done|done|]. apply NoDup_nil_2.
  - rewrite locs_app.
    apply (same_outside_trans _ _ h1); [eapply same_outside_mono; [|exact So1]; set_solver|].
    eapply same_outside_mono; [|exact So2]; set_solver.
Qed.

(** * Traversal *)

(** Everything an iterator returns. *)
Fixpoint visit (fuel : nat) (h : heap) (it : listIter) : option (list positive) :=
  '(p, it) ← listNext h it;
  match p with
  | None => Some []
  | Some a => match fuel with O => None | S fuel => r ← visit fuel h it; Some (a :: r) end
  end.

Lemma next_head h pv a v xs nx : seg h pv ((a, v) :: xs) nx ->
  listNext h (Iter (Some a) AL_START_HEAD) = Some (Some a, Iter (first xs nx) AL_START_HEAD).
Proof. intros [Ha _]. unfold listNext. cbn [iter_next iter_direction]. by rewrite Ha. Qed.

Lemma visit_head h xs : forall pv, seg h pv xs None ->
  visit (length xs) h (Iter (first xs None) AL_START_HEAD) = Some (locs xs).
Proof.
  induction xs as [|[a v] xs IH]; intros pv Hs; [done|].
  cbn [length first visit]. rewrite (next_head _ _ _ _ _ _ Hs). cbn [mbind option_bind].
  destruct Hs as [_ Hs]. rewrite (IH _ Hs). done.
Qed.

Lemma visit_tail h xs : forall nx, seg h None xs nx ->
  visit (length xs) h (Iter (final xs None) AL_START_TAIL) = Some (rev (locs xs)).
Proof.
  induction xs as [|[a v] xs IH] using rev_ind; intros nx Hs; [done|].
  rewrite length_app, final_app. cbn [length final]. rewrite Nat.add_1_r. cbn [visit].
  apply seg_app in Hs as [Hs [Ha _]]. unfold listNext at 1. cbn [iter_next iter_direction].
  rewrite Ha. cbn [mbind option_bind prev]. rewrite (IH _ Hs). cbn [mbind option_bind].
  by rewrite locs_app, rev_app_distr.
Qed.

(** The documented use of iterators: deleting the node just returned while iterating. *)
Fixpoint sweep (p : Z -> bool) (fuel : nat) (h : heap) (l : alist) (it : listIter) (log : list Z)
    : option (heap * alist * list Z) :=
  '(node, it) ← listNext h it;
  match node with
  | None => Some (h, l, log)
  | Some a =>
      match fuel with
      | O => None
      | S fuel =>
          n ← h !! a;
          if p (value n) then '(h, l, log) ← listDelNode h l a log; sweep p fuel h l it log
          else sweep p fuel h l it log
      end
  end.

Definition keep (p : Z -> bool) (xs : cells) : cells := List.filter (fun x => negb (p x.2)) xs.
Definition gone (p : Z -> bool) (xs : cells) : list Z := vals (List.filter (fun x => p x.2) xs).

Lemma sweep_spec p xs2 : forall h l xs1 log, is_list h l (xs1 ++ xs2) -> zlen (xs1 ++ xs2) < 2 ^ 64 ->
  exists h' l', sweep p (length xs2) h l (Iter (first xs2 None) AL_START_HEAD) log =
      Some (h', l', log ++ (if free l then gone p xs2 else [])) /\ is_list h' l' (xs1 ++ keep p xs2).
Proof.
  induction xs2 as [|[a v] xs2 IH]; intros h l xs1 log Hl Hlt.
  { exists h, l. simpl. split; [by destruct (free l); rewrite app_nil_r|done]. }
  pose proof (il_seg _ _ _ Hl) as Hs. apply seg_app in Hs as [_ Hs].
  cbn [length first sweep]. rewrite (next_head _ _ _ _ _ _ Hs). cbn [mbind option_bind].
  destruct Hs as [Ha _]. rewrite Ha. cbn [mbind option_bind value].
  destruct (p v) eqn:Ep.
  - destruct (del_node_spec h l xs1 a v xs2 log Hl Hlt) as (h1 & l1 & E & Hl1 & _ & _ & Ef).
    rewrite E. cbn [mbind option_bind].
    destruct (IH h1 l1 xs1 (call_free l v log) Hl1) as (h' & l' & E' & Hl').
    { autorewrite with zlen in *. lia. }
    exists h', l'. rewrite E', Ef. unfold keep, gone in *. cbn [List.filter snd]. rewrite Ep. cbn [negb].
    split; [|done]. do 2 f_equal. unfold call_free. destruct (free l); [|done]. by rewrite <- app_assoc.
  - change (xs1 ++ (a, v) :: xs2) with (xs1 ++ [(a, v)] ++ xs2) in Hl, Hlt.
    rewrite app_assoc in Hl, Hlt.
    destruct (IH h l (xs1 ++ [(a, v)]) log Hl Hlt) as (h' & l' & E' & Hl').
    exists h', l'. rewrite E'. unfold keep, gone in *. cbn [List.filter snd]. rewrite Ep. cbn [negb].
    split; [done|]. by rewrite <- app_assoc in Hl'.
Qed.

Lemma search_spec h l key xs : forall pv, seg h pv xs None ->
  listSearchKey_loop (length xs) h l key (Iter (first xs None) AL_START_HEAD) =
    Some (fst <$> List.find (fun x => match match_ l with Some m => m x.2 key | None => key =? x.2 end) xs).
Proof.
  induction xs as [|[a v] xs IH]; intros pv Hs; [done|].
  cbn [length first listSearchKey_loop]. rewrite (next_head _ _ _ _ _ _ Hs). cbn [mbind option_bind].
  destruct Hs as [Ha Hs]. rewrite Ha. cbn [mbind option_bind value List.find snd].
  destruct (match match_ l with Some m => m v key | None => key =? v end); [done|]. apply (IH _ Hs).
Qed.

Lemma walk_head h n : forall pv xs, seg h pv xs None ->
  walk AL_START_HEAD n h (first xs None) = Some (fst <$> xs !! n).
Proof.
  induction n as [|n IH]; intros pv xs Hs; [by destruct xs as [|[]]|].
  destruct xs as [|[a v] xs]; [done|]. destruct Hs as [Ha Hs]. cbn [first walk]. rewrite Ha.
  cbn [mbind option_bind next]. apply (IH _ _ Hs).
Qed.

Lemma walk_tail h n : forall nx xs, seg h None xs nx ->
  walk AL_START_TAIL n h (final xs None) = Some (fst <$> (rev xs) !! n).
Proof.
  induction n as [|n IH]; intros nx xs Hs; (destruct xs as [|[a v] xs _] using rev_ind; [done|]);
    rewrite final_app, rev_app_distr; [done|].
  apply seg_app in Hs as [Hs [Ha _]]. cbn [final walk]. rewrite Ha.
  cbn [mbind option_bind prev]. apply (IH _ _ Hs).
Qed.

(** The element an index denotes. *)
Definition index_of (xs : cells) (index : Z) : option (positive * Z) :=
  if index <? 0 then zget (rev xs) (- index - 1) else zget xs index.

Lemma listIndex_spec h l xs index : is_list h l xs ->
  listIndex h l index = Some (fst <$> index_of xs index).
Proof.
  intros [Hs Hh Ht _ _]. unfold listIndex, index_of. rewrite Hh, Ht.
  destruct (Z.ltb_spec index 0); unfold zget; zdec.
  - by apply (walk_tail _ _ None).
  - by apply (walk_head _ _ None).
Qed.

(** * Duplication *)

Definition dup_values (d : option (Z -> option Z)) (vs : list Z) : option (list Z) :=
  mapM (match d with Some f => f | None => Some end) vs.

Lemma heap_restore (h0 h h' : heap) ys :
  (forall a, a ∈ locs ys -> h0 !! a = None) -> same_outside (locs ys) h0 h ->
  (forall a, a ∈ locs ys -> h' !! a = None) -> same_outside (locs ys) h h' -> h' = h0.
Proof.
  intros H0 S1 H1 S2. apply map_eq. intros a. destruct (decide (a ∈ locs ys)).
  - by rewrite H0, H1.
  - by rewrite S2, S1.
Qed.

(** [ys] is the copy made so far, [xs] what is left of the original, [h0] the initial heap. *)
Lemma dup_loop_spec (h0 : heap) xs : forall h copy ys pv log,
  is_list h copy ys -> (forall a, a ∈ locs ys -> h0 !! a = None) -> same_outside (locs ys) h0 h ->
  seg h0 pv xs None -> zlen ys + zlen xs < 2 ^ 64 ->
  match dup_values (dup copy) (vals xs) with
  | Some vs => exists h' copy' zs,
      listDup_loop (length xs) h copy (Iter (first xs None) AL_START_HEAD) log = Some (h', Some copy', log) /\
      is_list h' copy' zs /\ vals zs = vals ys ++ vs /\
      (forall a, a ∈ locs zs -> h0 !! a = None) /\ same_outside (locs zs) h0 h'
  | None => exists log',
      listDup_loop (length xs) h copy (Iter (first xs None) AL_START_HEAD) log = Some (h0, None, log')
  end.
Proof.
  induction xs as [|[a v] xs IH]; intros h copy ys pv log Hl Hfr So Hs Hlt.
  { exists h, copy, ys. split; [done|]. split_and!; [done|by rewrite app_nil_r|done|done]. }
  assert (Hs' : seg h pv ((a, v) :: xs) None).
  { eapply seg_same_outside; [|exact So|done]. intros b Hb Hb'.
    apply (seg_in _ _ _ _ _ Hs) in Hb as [? Hb]. by rewrite Hfr in Hb. }
  destruct Hs as [_ Hs]. rewrite zlen_cons in Hlt. pose proof (zlen_nonneg xs).
  cbn [length first listDup_loop]. rewrite (next_head _ _ _ _ _ _ Hs'). cbn [mbind option_bind].
  destruct Hs' as [Ha' _]. rewrite Ha'. cbn [mbind option_bind value].
  unfold dup_values in *. change (vals ((a, v) :: xs)) with (v :: vals xs). cbn [mapM].
  assert (Ev : (match dup copy with Some f => f v | None => Some v end) =
    (match dup copy with Some f => f | None => Some end) v) by by destruct (dup copy).
  rewrite Ev. destruct ((match dup copy with Some f => f | None => Some end) v) as [w|] eqn:Ew; cbn [mbind option_bind].
  - destruct (addTail_spec h copy ys w Hl ltac:(lia)) as (h1 & copy1 & b & E & Hl1 & Hb & So1).
    assert (Ed : dup copy1 = dup copy).
    { unfold listAddNodeTail in E. destruct (len copy =? 0); cbn [zmalloc] in E; [by simplify_eq|].
      apply bind_Some_inv in E as (? & _ & E). by simplify_eq. }
    rewrite E. cbn [mbind option_bind].
    pose proof (IH h1 copy1 (ys ++ [(b, w)]) (Some a) log Hl1) as IH'. rewrite Ed in IH'.
    assert (Hb0 : h0 !! b = None).
    { destruct (decide (b ∈ locs ys)) as [Hin|Hni]; [by apply Hfr|]. by rewrite <- So. }
    assert (Hfr1 : forall c, c ∈ locs (ys ++ [(b, w)]) -> h0 !! c = None).
    { intros c. rewrite locs_app. intros [Hc|Hc]%elem_of_app; [by apply Hfr|]. by apply list_elem_of_singleton in Hc as ->. }
    assert (So2 : same_outside (locs (ys ++ [(b, w)])) h0 h1).
    { intros c Hc. rewrite locs_app, not_elem_of_app in Hc. destruct Hc as [Hc1 Hc2].
      rewrite So1; [by apply So|]. apply not_elem_of_cons. split; [|done]. intros ->. apply Hc2. by left. }
    assert (Hlt1 : zlen (ys ++ [(b, w)]) + zlen xs < 2 ^ 64) by (autorewrite with zlen; lia).
    specialize (IH' Hfr1 So2 Hs Hlt1).
    destruct (mapM _ (vals xs)) as [vs|]; cbn [mbind option_bind]; [|exact IH'].
    destruct IH' as (h' & copy' & zs & E' & Hl' & Hv & Hfz & Sz). exists h', copy', zs.
    split; [done|]. split_and!; [done| |done|done].
    rewrite Hv. unfold vals. rewrite fmap_app, <- app_assoc. done.
  - destruct (empty_spec h copy ys log Hl) as (h1 & l1 & E & _ & Hnone & So1). rewrite E.
    cbn [mbind option_bind]. eexists. do 3 f_equal. f_equal. by eapply heap_restore.
Qed.

Lemma dup_spec h l xs log : is_list h l xs -> zlen xs < 2 ^ 64 ->
  match dup_values (dup l) (vals xs) with
  | Some vs => exists h' copy zs, listDup h l log = Some (h', Some copy, log) /\
      is_list h' copy zs /\ vals zs = vs /\ is_list h' l xs /\ (forall a, a ∈ locs zs -> h !! a = None)
  | None => exists log', listDup h l log = Some (h, None, log')
  end.
Proof.
  intros Hl Hlt. pose proof Hl as [Hs Hh Ht Hn Hnd]. unfold listDup. rewrite Hn, to_nat_zlen.
  unfold listRewind. rewrite Hh.
  set (copy0 := Alist None None (dup l) (free l) (match_ l) 0).
  assert (Hl0 : is_list h copy0 []) by (split; [done..|apply NoDup_nil_2]).
  pose proof (dup_loop_spec h xs h copy0 [] None log Hl0) as H. cbn [dup copy0] in H.
  specialize (H ltac:(by intros a Ha%elem_of_nil) (same_outside_refl _ _) Hs ltac:(rewrite zlen_nil; lia)).
  destruct (dup_values (dup l) (vals xs)) as [vs|]; [|exact H].
  destruct H as (h' & copy' & zs & E & Hl' & Hv & Hfz & Sz). exists h', copy', zs.
  split_and!; try done. split; [|done..]. eapply seg_same_outside; [|exact Sz|done].
  intros a Ha Ha'. apply (seg_in _ _ _ _ _ Hs) in Ha as [? Ha]. by rewrite Hfz in Ha.
Qed.

(** * Theorems *)

(** C33. The operations that change a list implement the sequence operations, on every list, the
    empty one included: creating gives the empty sequence; adding at the head or tail, inserting
    before or after a node, deleting a node, rotating either way and emptying give exactly the
    expected sequence of nodes with consistent links in both directions, end pointers and count;
    new nodes are fresh, freed nodes leave the heap, every node outside the list is untouched, and
    no NULL or freed pointer is followed. *)
Theorem adlist_refines_sequence h l xs v log :
  is_list h l xs -> zlen xs < 2 ^ 64 - 1 ->
  is_list h listCreate [] /\
  (exists h' l' b, listAddNodeHead h l v = Some (h', l') /\ is_list h' l' ((b, v) :: xs) /\
     h !! b = None /\ same_outside (b :: locs xs) h h') /\
  (exists h' l' b, listAddNodeTail h l v = Some (h', l') /\ is_list h' l' (xs ++ [(b, v)]) /\
     h !! b = None /\ same_outside (b :: locs xs) h h') /\
  (forall xs1 a w xs2, xs = xs1 ++ (a, w) :: xs2 ->
     (exists h' l' b, listInsertNode h l a v true = Some (h', l') /\
        is_list h' l' (xs1 ++ (a, w) :: (b, v) :: xs2) /\ h !! b = None /\ same_outside (b :: locs xs) h h') /\
     (exists h' l' b, listInsertNode h l a v false = Some (h', l') /\
        is_list h' l' (xs1 ++ (b, v) :: (a, w) :: xs2) /\ h !! b = None /\ same_outside (b :: locs xs) h h') /\
     (exists h' l', listDelNode h l a log = Some (h', l', call_free l w log) /\
        is_list h' l' (xs1 ++ xs2) /\ h' !! a = None /\ same_outside (locs xs) h h')) /\
  (forall ys a w, xs = ys ++ [(a, w)] -> exists h' l',
     listRotateTailToHead h l = Some (h', l') /\ is_list h' l' ((a, w) :: ys) /\ same_outside (locs xs) h h') /\
  (forall ys a w, xs = (a, w) :: ys -> exists h' l',
     listRotateHeadToTail h l = Some (h', l') /\ is_list h' l' (ys ++ [(a, w)]) /\ same_outside (locs xs) h h') /\
  (xs = [] -> listRotateTailToHead h l = Some (h, l) /\ listRotateHeadToTail h l = Some (h, l)) /\
  (exists h' l', listEmpty h l log = Some (h', l', log ++ (if free l then vals xs else [])) /\
     is_list h' l' [] /\ (forall b, b ∈ locs xs -> h' !! b = None) /\ same_outside (locs xs) h h').
Proof.
  intros Hl Hlt. split_and!.
  - split; try done. apply NoDup_nil_2.
  - by apply addHead_spec.
  - by apply addTail_spec.
  - intros xs1 a w xs2 ->. split_and!.
    + destruct (insert_node_spec h l xs1 a w xs2 v true _ _ Hl Hlt eq_refl) as (h' & l' & b & E & Hl' & H).
      rewrite <- app_assoc in Hl'. by exists h', l', b.
    + apply (insert_node_spec h l xs1 a w xs2 v false _ _ Hl Hlt eq_refl).
    + destruct (del_node_spec h l xs1 a w xs2 log Hl ltac:(lia)) as (h' & l' & E & Hl' & Ha & So & _).
      by exists h', l'.
  - intros ys a w ->. by apply rotate_tail_spec.
  - intros ys a w ->. by apply rotate_head_spec.
  - intros ->. unfold listRotateTailToHead, listRotateHeadToTail. by rewrite (il_len _ _ _ Hl).
  - by apply empty_spec.
Qed.

(** A two-node list. *)
Definition sample_heap : heap :=
  {[ 1%positive := Node None (Some 2%positive) 10; 2%positive := Node (Some 1%positive) None 20 ]}.
Definition sample_list : alist := Alist (Some 1%positive) (Some 2%positive) None true None 2.

Lemma sample_is_list : is_list sample_heap sample_list [(1%positive, 10); (2%positive, 20)].
Proof.
  split; [by vm_compute|done|done|done|]. apply (bool_decide_unpack _). by vm_compute.
Qed.

Lemma adlist_refines_sequence_witness :
  (exists h' l', listDelNode sample_heap sample_list 2 [] = Some (h', l', [20]) /\
     is_list h' l' [(1%positive, 10)] /\ h' !! 2%positive = None) /\
  (exists h' l' b, listAddNodeTail ∅ listCreate 5 = Some (h', l') /\ is_list h' l' [(b, 5)]).
Proof.
  pose proof (adlist_refines_sequence sample_heap sample_list _ 0 [] sample_is_list eq_refl) as (_ & _ & _ & Hnode & _).
  destruct (Hnode [(1%positive, 10)] 2%positive 20 [] eq_refl) as (_ & _ & (h' & l' & E & Hl & Hn & _)).
  split; [exists h', l'; split; [exact E|]; split; [exact Hl|exact Hn]|].
  assert (He : is_list ∅ listCreate []) by (split; try done; apply NoDup_nil_2).
  pose proof (adlist_refines_sequence ∅ listCreate [] 5 [] He eq_refl) as (_ & _ & (h2 & l2 & b & E2 & Hl2 & _) & _).
  exists h2, l2, b. split; [exact E2|exact Hl2].
Defined.

(** Iterators return every node exactly once, in order from either end; deleting the node
    just returned does not disturb the iteration, so sweeping a list with a predicate leaves
    exactly the other nodes and frees exactly the deleted values; [listSearchKey] returns the first
    match and [listIndex] the node of any index from either end, NULL when there is none. *)
Theorem adlist_traversal h l xs p key index log : is_list h l xs -> zlen xs < 2 ^ 64 ->
  visit (length xs) h (listRewind l) = Some (locs xs) /\
  visit (length xs) h (listRewindTail l) = Some (rev (locs xs)) /\
  (exists h' l', sweep p (length xs) h l (listRewind l) log =
      Some (h', l', log ++ (if free l then gone p xs else [])) /\ is_list h' l' (keep p xs)) /\
  listSearchKey h l key =
    Some (fst <$> List.find (fun x => match match_ l with Some m => m x.2 key | None => key =? x.2 end) xs) /\
  listIndex h l index = Some (fst <$> index_of xs index).
Proof.
  intros Hl Hlt. pose proof Hl as [Hs Hh Ht Hn Hnd]. unfold listRewind, listRewindTail. rewrite Hh, Ht.
  split_and!.
  - by eapply visit_head.
  - by eapply visit_tail.
  - apply (sweep_spec p xs h l []); done.
  - unfold listSearchKey, listRewind. rewrite Hn, to_nat_zlen, Hh. by eapply search_spec.
  - by apply listIndex_spec.
Qed.

Lemma adlist_traversal_witness :
  exists h' l', sweep (Z.eqb 10) 2 sample_heap sample_list (listRewind sample_list) [] = Some (h', l', [10]) /\
    is_list h' l' [(2%positive, 20)].
Proof.
  pose proof (adlist_traversal sample_heap sample_list _ (Z.eqb 10) 0 0 [] sample_is_list eq_refl)
    as (_ & _ & (h' & l' & E & Hl) & _).
  exists h', l'. split; [exact E|exact Hl].
Defined.

(** [listJoin] of two disjoint lists is their concatenation and leaves the other list empty.
    [listDup] copies the list into fresh nodes with the duplicated values and leaves the original
    intact; when a duplication fails it returns NULL with the heap exactly as it was (the partial
    copy is released). *)
Theorem adlist_join_dup h l o xs ys log : is_list h l xs -> is_list h o ys ->
  (forall a, a ∈ locs xs -> a ∉ locs ys) -> zlen (xs ++ ys) < 2 ^ 64 ->
  (exists h' l' o', listJoin h l o = Some (h', l', o') /\ is_list h' l' (xs ++ ys) /\ is_list h' o' [] /\
     same_outside (locs (xs ++ ys)) h h') /\
  match dup_values (dup l) (vals xs) with
  | Some vs => exists h' copy zs, listDup h l log = Some (h', Some copy, log) /\
      is_list h' copy zs /\ vals zs = vs /\ is_list h' l xs /\ (forall a, a ∈ locs zs -> h !! a = None)
  | None => exists log', listDup h l log = Some (h, None, log')
  end.
Proof.
  intros Hl Ho Hd Hlt. split; [by apply join_spec|]. apply dup_spec; [done|].
  rewrite zlen_app in Hlt. pose proof (zlen_nonneg ys). lia.
Qed.

Lemma adlist_join_dup_witness :
  exists h' copy zs, listDup sample_heap sample_list [] = Some (h', Some copy, []) /\
    is_list h' copy zs /\ vals zs = [10; 20].
Proof.
  destruct (adlist_join_dup sample_heap sample_list listCreate _ [] [] sample_is_list) as [_ H].
  - split; [done..|apply NoDup_nil_2].
  - intros a _. apply not_elem_of_nil.
  - reflexivity.
  - destruct H as (h' & copy & zs & E & Hl & Hv & _). exists h', copy, zs. done.
Defined.
