(* ===== verification/Sds.v ===== *)
(** Dynamic strings (sds.c, sds.h), at the level of the allocation.

    An [sds] points into its allocation just after a header whose last byte says how wide the
    length fields are.  The model keeps the whole allocation as a byte buffer and the offset of
    the string in it; header fields are loaded and stored little-endian at their width, so the
    truncations of the code are those of the model.  [None] is an access outside the allocation
    or a failed [assert].  Memory obtained from the allocator is filled with [junk], a byte that is
    not zero, except where the code clears it; no theorem depends on that value.  [s_malloc] and [s_realloc] abort instead of returning NULL. *)

From S2P Require Import Prelude Util.
#[local] Open Scope Z_scope.

(** * The code: headers *)

Definition SDS_TYPE_5 : Z := 0.
Definition SDS_TYPE_8 : Z := 1.
Definition SDS_TYPE_16 : Z := 2.
Definition SDS_TYPE_32 : Z := 3.
Definition SDS_TYPE_64 : Z := 4.
Definition SDS_TYPE_MASK : Z := 7.
Definition SDS_TYPE_BITS : Z := 3.
Definition SDS_MAX_PREALLOC : Z := 1024 * 1024.

Record sds := Sds { sh : bytes; off : Z }.

(** [s[-1]]. *)
Definition sds_flags (s : sds) : option Z := zget (sh s) (off s - 1).

Definition SDS_TYPE_5_LEN (f : Z) : Z := Z.shiftr f SDS_TYPE_BITS.

Definition sdsHdrSize (type : Z) : Z :=
  match Z.land type SDS_TYPE_MASK with
  | 0 => 1 | 1 => 3 | 2 => 5 | 3 => 9 | 4 => 17 | _ => 0
  end.

(** Fields of [struct sdshdrT] with [w]-byte integers: [len], then [alloc], then the flags. *)
Definition load_field (s : sds) (pos w : Z) : option Z :=
  b ← zsub (sh s) pos w; Some (le_value b).
Definition store_field (s : sds) (pos w v : Z) : option sds :=
  b ← zput (sh s) pos (le_bytes (Z.to_nat w) v); Some (Sds b (off s)).

Definition hdr_len (w : Z) (s : sds) : option Z := load_field s (off s - (2 * w + 1)) w.
Definition hdr_alloc (w : Z) (s : sds) : option Z := load_field s (off s - (w + 1)) w.
Definition set_hdr_len (w : Z) (s : sds) (v : Z) : option sds := store_field s (off s - (2 * w + 1)) w v.
Definition set_hdr_alloc (w : Z) (s : sds) (v : Z) : option sds := store_field s (off s - (w + 1)) w v.

Definition sdslen (s : sds) : option Z :=
  flags ← sds_flags s;
  match Z.land flags SDS_TYPE_MASK with
  | 0 => Some (SDS_TYPE_5_LEN flags)
  | 1 => hdr_len 1 s | 2 => hdr_len 2 s | 3 => hdr_len 4 s | 4 => hdr_len 8 s
  | _ => Some 0
  end.

Definition hdr_avail (w : Z) (s : sds) : option Z :=
  a ← hdr_alloc w s; l ← hdr_len w s; Some (u64 (a - l)).

Definition sdsavail (s : sds) : option Z :=
  flags ← sds_flags s;
  match Z.land flags SDS_TYPE_MASK with
  | 0 => Some 0
  | 1 => hdr_avail 1 s | 2 => hdr_avail 2 s | 3 => hdr_avail 4 s | 4 => hdr_avail 8 s
  | _ => Some 0
  end.

Definition sdssetlen (s : sds) (newlen : Z) : option sds :=
  flags ← sds_flags s;
  match Z.land flags SDS_TYPE_MASK with
  | 0 => store_field s (off s - 1) 1 (Z.lor SDS_TYPE_5 (Z.shiftl newlen SDS_TYPE_BITS))
  | 1 => set_hdr_len 1 s newlen | 2 => set_hdr_len 2 s newlen
  | 3 => set_hdr_len 4 s newlen | 4 => set_hdr_len 8 s newlen
  | _ => Some s
  end.

Definition hdr_inclen (w : Z) (s : sds) (inc : Z) : option sds := l ← hdr_len w s; set_hdr_len w s (l + inc).

Definition sdsinclen (s : sds) (inc : Z) : option sds :=
  flags ← sds_flags s;
  match Z.land flags SDS_TYPE_MASK with
  | 0 =>
      let newlen := u8 (SDS_TYPE_5_LEN flags + inc) in
      store_field s (off s - 1) 1 (Z.lor SDS_TYPE_5 (Z.shiftl newlen SDS_TYPE_BITS))
  | 1 => hdr_inclen 1 s inc | 2 => hdr_inclen 2 s inc
  | 3 => hdr_inclen 4 s inc | 4 => hdr_inclen 8 s inc
  | _ => Some s
  end.

Definition sdsalloc (s : sds) : option Z :=
  flags ← sds_flags s;
  match Z.land flags SDS_TYPE_MASK with
  | 0 => Some (SDS_TYPE_5_LEN flags)
  | 1 => hdr_alloc 1 s | 2 => hdr_alloc 2 s | 3 => hdr_alloc 4 s | 4 => hdr_alloc 8 s
  | _ => Some 0
  end.

Definition sdssetalloc (s : sds) (newlen : Z) : option sds :=
  flags ← sds_flags s;
  match Z.land flags SDS_TYPE_MASK with
  | 0 => Some s
  | 1 => set_hdr_alloc 1 s newlen | 2 => set_hdr_alloc 2 s newlen
  | 3 => set_hdr_alloc 4 s newlen | 4 => set_hdr_alloc 8 s newlen
  | _ => Some s
  end.

Definition sdsReqType (string_size : Z) : Z :=
  if string_size <? Z.shiftl 1 5 then SDS_TYPE_5
  else if string_size <? Z.shiftl 1 8 then SDS_TYPE_8
  else if string_size <? Z.shiftl 1 16 then SDS_TYPE_16
  else if string_size <? Z.shiftl 1 32 then SDS_TYPE_32
  else SDS_TYPE_64.

(** Bytes [i..] of the string, [s[i]], and stores there. *)
Definition s_sub (s : sds) (i n : Z) : option bytes := zsub (sh s) (off s + i) n.
Definition s_put (s : sds) (i : Z) (b : bytes) : option sds :=
  b ← zput (sh s) (off s + i) b; Some (Sds b (off s)).
Definition set_flags (s : sds) (type : Z) : option sds := store_field s (off s - 1) 1 type.
Definition zeros (n : Z) : bytes := replicate (Z.to_nat n) 0.
(** [n] bytes of fresh memory filled with [x]. *)
Definition raw (x n : Z) : bytes := replicate (Z.to_nat n) x.

(** * The code: creation, growth and concatenation *)

(** [init = None] is NULL: the memory is cleared.  [SDS_NOINIT] has no caller here. *)
Definition sdsnewlen (init : option bytes) (initlen : Z) : option sds :=
  let type := sdsReqType initlen in
  let type := if (type =? SDS_TYPE_5) && (initlen =? 0) then SDS_TYPE_8 else type in
  let hdrlen := sdsHdrSize type in
  let s := Sds (raw (match init with None => 0 | Some _ => junk end) (hdrlen + initlen + 1)) hdrlen in
  let fill w := s ← set_hdr_len w s initlen; s ← set_hdr_alloc w s initlen; set_flags s type in
  s ← match type with
      | 0 => set_flags s (Z.lor type (Z.shiftl initlen SDS_TYPE_BITS))
      | 1 => fill 1 | 2 => fill 2 | 3 => fill 4 | 4 => fill 8
      | _ => Some s
      end;
  s ← match init with
      | Some b => if negb (initlen =? 0) then s_put s 0 (take (Z.to_nat initlen) b) else Some s
      | None => Some s
      end;
  s_put s initlen [0].

Definition sdsempty : option sds := sdsnewlen (Some []) 0.
Definition sdsdup (s : sds) : option sds := n ← sdslen s; b ← s_sub s 0 n; sdsnewlen (Some b) n.
(** [sdsnew] of a C string, [b] its bytes up to the NUL. *)
Definition sdsnew (b : option bytes) : option sds :=
  sdsnewlen b (match b with Some b => zlen b | None => 0 end).

Definition sdsclear (s : sds) : option sds := s ← sdssetlen s 0; s_put s 0 [0].

(** [strlen] of the string. *)
Fixpoint strlen_at (fuel : nat) (s : sds) (i : Z) : option Z :=
  match fuel with
  | O => None
  | S fuel => b ← zget (sh s) (off s + i); if b =? 0 then Some i else strlen_at fuel s (i + 1)
  end.
Definition sdsupdatelen (s : sds) : option sds :=
  reallen ← strlen_at (S (length (sh s))) s 0; sdssetlen s reallen.

Definition sdsMakeRoomFor (s : sds) (addlen : Z) : option sds :=
  avail ← sdsavail s;
  flags ← sds_flags s;
  let oldtype := Z.land flags SDS_TYPE_MASK in
  if avail >=? addlen then Some s else
  len ← sdslen s;
  let newlen := u64 (len + addlen) in
  let newlen := if newlen <? SDS_MAX_PREALLOC then u64 (newlen * 2) else u64 (newlen + SDS_MAX_PREALLOC) in
  let type := sdsReqType newlen in
  let type := if type =? SDS_TYPE_5 then SDS_TYPE_8 else type in
  let hdrlen := sdsHdrSize type in
  s ← (if oldtype =? type then Some (Sds (zresize (sh s) (hdrlen + newlen + 1)) hdrlen)
       else
         b ← s_sub s 0 (len + 1);
         let s := Sds (raw junk (hdrlen + newlen + 1)) hdrlen in
         s ← s_put s 0 b;
         s ← set_flags s type;
         sdssetlen s len);
  sdssetalloc s newlen.

Definition sdsRemoveFreeSpace (s : sds) : option sds :=
  flags ← sds_flags s;
  let oldtype := Z.land flags SDS_TYPE_MASK in
  let oldhdrlen := sdsHdrSize oldtype in
  len ← sdslen s;
  avail ← sdsavail s;
  if avail =? 0 then Some s else
  let type := sdsReqType len in
  let hdrlen := sdsHdrSize type in
  s ← (if (oldtype =? type) || (type >? SDS_TYPE_8) then
         Some (Sds (zresize (sh s) (oldhdrlen + len + 1)) oldhdrlen)
       else
         b ← s_sub s 0 (len + 1);
         let s := Sds (raw junk (hdrlen + len + 1)) hdrlen in
         s ← s_put s 0 b;
         s ← set_flags s type;
         sdssetlen s len);
  sdssetalloc s len.

Definition sdsAllocSize (s : sds) : option Z :=
  alloc ← sdsalloc s; flags ← sds_flags s; Some (sdsHdrSize flags + alloc + 1).

(** [assert(b)]. *)
Definition assert_ (b : bool) : option unit := if b then Some tt else None.

(** The four wide cases of [sdsIncrLen]; [castp] and [castn] convert [incr] and [-incr]. *)
Definition hdr_incrlen (w : Z) (castp castn : Z -> Z) (s : sds) (incr : Z) : option (sds * Z) :=
  alloc ← hdr_alloc w s;
  len ← hdr_len w s;
  _ ← assert_ (((incr >=? 0) && (alloc - len >=? castp incr)) || ((incr <? 0) && (len >=? castn (- incr))));
  s ← set_hdr_len w s (len + incr);
  len ← hdr_len w s;
  Some (s, len).

Definition sdsIncrLen (s : sds) (incr : Z) : option sds :=
  flags ← sds_flags s;
  '(s, len) ← match Z.land flags SDS_TYPE_MASK with
              | 0 =>
                  let oldlen := SDS_TYPE_5_LEN flags in
                  _ ← assert_ (((incr >? 0) && (oldlen + incr <? 32)) ||
                               ((incr <? 0) && (oldlen >=? u32 (- incr))));
                  s ← set_flags s (Z.lor SDS_TYPE_5 (Z.shiftl (oldlen + incr) SDS_TYPE_BITS));
                  Some (s, oldlen + incr)
              | 1 => hdr_incrlen 1 id u32 s incr
              | 2 => hdr_incrlen 2 id u32 s incr
              | 3 => hdr_incrlen 4 u32 u32 s incr
              | 4 => hdr_incrlen 8 u64 u64 s incr
              | _ => Some (s, 0)
              end;
  s_put s len [0].

Definition sdsgrowzero (s : sds) (len : Z) : option sds :=
  curlen ← sdslen s;
  if len <=? curlen then Some s else
  s ← sdsMakeRoomFor s (len - curlen);
  s ← s_put s curlen (zeros (len - curlen + 1));
  sdssetlen s len.

Definition sdscatlen (s : sds) (t : bytes) : option sds :=
  let len := zlen t in
  curlen ← sdslen s;
  s ← sdsMakeRoomFor s len;
  s ← s_put s curlen t;
  s ← sdssetlen s (u64 (curlen + len));
  s_put s (u64 (curlen + len)) [0].

(** [sdscat] with the bytes of the C string, [sdscatsds] with the bytes of the other string. *)
Definition sdscat (s : sds) (t : bytes) : option sds := sdscatlen s t.
Definition sdscatsds (s t : sds) : option sds :=
  n ← sdslen t; b ← s_sub t 0 n; sdscatlen s b.

Definition sdscpylen (s : sds) (t : bytes) : option sds :=
  let len := zlen t in
  alloc ← sdsalloc s;
  s ← (if alloc <? len then l ← sdslen s; sdsMakeRoomFor s (len - l) else Some s);
  s ← s_put s 0 t;
  s ← s_put s len [0];
  sdssetlen s len.

Definition sdscpy (s : sds) (t : bytes) : option sds := sdscpylen s t.

(** * The code: editing in place *)

(** [while(sp <= end && strchr(cset, *sp)) sp++]: [strchr] finds the terminating NUL too.
    [sp] and [e] are indexes into the string. *)
Definition in_cset (cset : bytes) (c : Z) : bool := (c =? 0) || existsb (Z.eqb c) cset.

Fixpoint trim_left (fuel : nat) (cset : bytes) (s : sds) (sp e : Z) : option Z :=
  match fuel with
  | O => None
  | S fuel =>
      if sp <=? e then
        c ← zget (sh s) (off s + sp);
        if in_cset cset c then trim_left fuel cset s (sp + 1) e else Some sp
      else Some sp
  end.

(** [while(ep > sp && strchr(cset, *ep)) ep--]. *)
Fixpoint trim_right (fuel : nat) (cset : bytes) (s : sds) (sp ep : Z) : option Z :=
  match fuel with
  | O => None
  | S fuel =>
      if ep >? sp then
        c ← zget (sh s) (off s + ep);
        if in_cset cset c then trim_right fuel cset s sp (ep - 1) else Some ep
      else Some ep
  end.

Definition sdstrim (s : sds) (cset : bytes) : option sds :=
  n ← sdslen s;
  let e := n - 1 in
  sp ← trim_left (S (length (sh s))) cset s 0 e;
  ep ← trim_right (S (length (sh s))) cset s sp e;
  let len := if sp >? ep then 0 else (ep - sp) + 1 in
  s ← (if negb (sp =? 0) then b ← s_sub s sp len; s_put s 0 b else Some s);
  s ← s_put s len [0];
  sdssetlen s len.

Definition sdsrange (s : sds) (start e : Z) : option sds :=
  len ← sdslen s;
  if len =? 0 then Some s else
  let start := if start <? 0 then Z.max (s64 (u64 (len + start))) 0 else start in
  let e := if e <? 0 then Z.max (s64 (u64 (len + e))) 0 else e in
  let newlen := if start >? e then 0 else u64 (e - start + 1) in
  let '(start, newlen) :=
    if negb (newlen =? 0) then
      if start >=? len then (start, 0)
      else if e >=? len then
        let e := len - 1 in (start, if start >? e then 0 else u64 (e - start + 1))
      else (start, newlen)
    else (0, newlen) in
  s ← (if negb (start =? 0) && negb (newlen =? 0) then b ← s_sub s start newlen; s_put s 0 b else Some s);
  s ← s_put s newlen [0];
  sdssetlen s newlen.

(** [for (j = 0; j < len; j++) s[j] = f(s[j])]. *)
Fixpoint map_loop (n : nat) (f : Z -> Z) (s : sds) (j : Z) : option sds :=
  match n with
  | O => Some s
  | S n => c ← zget (sh s) (off s + j); s ← s_put s j [f c]; map_loop n f s (j + 1)
  end.

Definition sdstolower (s : sds) : option sds := n ← sdslen s; map_loop (Z.to_nat n) tolower s 0.
Definition sdstoupper (s : sds) : option sds := n ← sdslen s; map_loop (Z.to_nat n) toupper s 0.

(** The inner loop of [sdsmapchars]: the first character of [from] equal to [c] decides. *)
Fixpoint map_char (from to : bytes) (c : Z) : Z :=
  match from, to with
  | f :: from, t :: to => if c =? f then t else map_char from to c
  | _, _ => c
  end.

Definition sdsmapchars (s : sds) (from to : bytes) : option sds :=
  n ← sdslen s; map_loop (Z.to_nat n) (map_char from to) s 0.

(** [memcmp], as the sign of the first difference. *)
Fixpoint memcmp (a b : bytes) : Z :=
  match a, b with
  | x :: a, y :: b => if x =? y then memcmp a b else x - y
  | _, _ => 0
  end.

Definition sdscmp (s1 s2 : sds) : option Z :=
  l1 ← sdslen s1;
  l2 ← sdslen s2;
  let minlen := if l1 <? l2 then l1 else l2 in
  b1 ← s_sub s1 0 minlen;
  b2 ← s_sub s2 0 minlen;
  let cmp := memcmp b1 b2 in
  if cmp =? 0 then Some (if l1 >? l2 then 1 else if l1 <? l2 then -1 else 0) else Some cmp.

(** * Layout *)

Definition sds_w (t : Z) : Z := match t with 1 => 1 | 2 => 2 | 3 => 4 | _ => 8 end.

Definition sds_hdr (t len alloc : Z) : bytes :=
  if t =? 0 then [len * 8]
  else le_bytes (Z.to_nat (sds_w t)) len ++ le_bytes (Z.to_nat (sds_w t)) alloc ++ [t].

(** A string of type [t] whose header says [len] and whose bytes, free space and terminator
    included, are [body]. *)
Record lay (s : sds) (t len : Z) (body : bytes) : Prop := mkLay {
  lay_sh : sh s = sds_hdr t len (zlen body - 1) ++ body;
  lay_off : off s = sdsHdrSize t;
  lay_t : 0 <= t <= 4;
  lay_body : 0 <= len <= zlen body - 1;
  lay_5 : t = 0 -> len < 32;
  lay_fits : t <> 0 -> zlen body - 1 < 2 ^ (8 * sds_w t);
}.

(** The value of an [sds]: the bytes up to its length, which a NUL follows. *)
Definition is_sds (s : sds) (c : bytes) : Prop := exists t spare, lay s t (zlen c) (c ++ 0 :: spare).

Lemma type_cases t : 0 <= t <= 4 -> t = 0 \/ t = 1 \/ t = 2 \/ t = 3 \/ t = 4.
Proof. lia. Qed.

Ltac tcases H := destruct (type_cases _ H) as [->|[->|[->|[->| ->]]]].

Lemma zlen_sds_hdr t len alloc : 0 <= t <= 4 -> zlen (sds_hdr t len alloc) = sdsHdrSize t.
Proof. intros H. tcases H; done. Qed.

Lemma type5_flags len : 0 <= len < 32 -> Z.land (len * 8) 7 = 0 /\ Z.shiftr (len * 8) 3 = len.
Proof.
  intros. change 7 with (Z.ones 3). rewrite Z.land_ones, Z.shiftr_div_pow2 by lia.
  change (2 ^ 3) with 8. dlia.
Qed.

Lemma lay_flags s t len body : lay s t len body ->
  exists f, sds_flags s = Some f /\ Z.land f SDS_TYPE_MASK = t /\ (t = 0 -> SDS_TYPE_5_LEN f = len).
Proof.
  intros [Hs Ho Ht Hb H5 _]. unfold sds_flags. rewrite Hs, Ho. tcases Ht.
  - exists (len * 8). destruct (type5_flags len) as [E1 E2]; [lia|]. done.
  - exists 1. split; [|done]. unfold sds_hdr. cbn [Z.eqb sds_w]. rewrite <- !app_assoc, app_assoc.
    by apply zget_app.
  - exists 2. split; [|done]. unfold sds_hdr. cbn [Z.eqb sds_w]. rewrite <- !app_assoc, app_assoc.
    by apply zget_app.
  - exists 3. split; [|done]. unfold sds_hdr. cbn [Z.eqb sds_w]. rewrite <- !app_assoc, app_assoc.
    by apply zget_app.
  - exists 4. split; [|done]. unfold sds_hdr. cbn [Z.eqb sds_w]. rewrite <- !app_assoc, app_assoc.
    by apply zget_app.
Qed.

(** Field accesses of the wide types. *)
Lemma lay_fields s t len body : lay s t len body -> t <> 0 ->
  hdr_len (sds_w t) s = Some len /\ hdr_alloc (sds_w t) s = Some (zlen body - 1).
Proof.
  intros [Hs Ho Ht Hb _ Hf] Hne. specialize (Hf Hne).
  assert (Hw : 0 < sds_w t /\ off s = 2 * sds_w t + 1) by (rewrite Ho; tcases Ht; done).
  destruct Hw as [Hw Hoff]. unfold hdr_len, hdr_alloc, load_field. rewrite Hs, Hoff.
  unfold sds_hdr. rewrite (proj2 (Z.eqb_neq t 0)) by done.
  set (n := Z.to_nat (sds_w t)).
  assert (Hl : forall v, 0 <= v < 2 ^ (8 * sds_w t) -> le_value (le_bytes n v) = v).
  { intros v Hv. rewrite le_value_bytes. apply Z.mod_small. unfold n. rewrite Z2Nat.id by lia. done. }
  split.
  - rewrite <- !app_assoc.
    replace (2 * sds_w t + 1 - (2 * sds_w t + 1)) with 0 by lia.
    rewrite zsub_app0 by (rewrite zlen_le_bytes; unfold n; lia).
    cbn [mbind option_bind]. by rewrite Hl by lia.
  - rewrite <- !app_assoc.
    rewrite (zsub_app (le_bytes n len) (le_bytes n (zlen body - 1)))
      by (rewrite ?zlen_le_bytes; unfold n; lia).
    cbn [mbind option_bind]. by rewrite Hl by lia.
Qed.

Lemma lay_sdslen s t len body : lay s t len body -> sdslen s = Some len.
Proof.
  intros H. pose proof (lay_t _ _ _ _ H) as Ht. pose proof (lay_fields _ _ _ _ H) as Hf.
  destruct (lay_flags _ _ _ _ H) as (f & E & Em & E5). unfold sdslen. rewrite E. cbn [mbind option_bind].
  rewrite Em. tcases Ht; [by rewrite E5|..]; by apply Hf.
Qed.

Lemma lay_sdsalloc s t len body : lay s t len body ->
  sdsalloc s = Some (if t =? 0 then len else zlen body - 1).
Proof.
  intros H. pose proof (lay_t _ _ _ _ H) as Ht. pose proof (lay_fields _ _ _ _ H) as Hf.
  destruct (lay_flags _ _ _ _ H) as (f & E & Em & E5). unfold sdsalloc. rewrite E. cbn [mbind option_bind].
  rewrite Em. tcases Ht; [by rewrite E5|..]; by apply Hf.
Qed.

Lemma lay_sdsavail s t len body : lay s t len body ->
  sdsavail s = Some (if t =? 0 then 0 else zlen body - 1 - len).
Proof.
  intros H. pose proof (lay_fits _ _ _ _ H) as Hlt. pose proof (lay_t _ _ _ _ H) as Ht. pose proof (lay_fields _ _ _ _ H) as Hf.
  pose proof (lay_body _ _ _ _ H) as Hb.
  destruct (lay_flags _ _ _ _ H) as (f & E & Em & E5). unfold sdsavail. rewrite E. cbn [mbind option_bind].
  rewrite Em. clear E Em E5.
  assert (Ha : t <> 0 -> hdr_avail (sds_w t) s = Some (zlen body - 1 - len)).
  { intros Hne. unfold hdr_avail. destruct (Hf Hne) as [-> ->]. cbn [mbind option_bind].
    rewrite uwrap_small; [done|]. unfold urange. specialize (Hlt Hne).
    assert (2 ^ (8 * sds_w t) <= 2 ^ 64) by (apply Z.pow_le_mono_r; [lia|]; tcases Ht; done). lia. }
  tcases Ht; [done|..]; by apply Ha.
Qed.

(** Stores into the header, whatever it held before. *)
Section WideHeader.
Context (t g : Z) (Ht : 1 <= t <= 4) (L A body : bytes).
Context (HL : zlen L = sds_w t) (HA : zlen A = sds_w t).
#[local] Set Default Proof Using "All".

Let wide : sds := Sds ((L ++ A ++ [g]) ++ body) (sdsHdrSize t).
Let n := Z.to_nat (sds_w t).

Lemma wide_off : 0 < sds_w t /\ sdsHdrSize t = 2 * sds_w t + 1 /\ Z.land t SDS_TYPE_MASK = t.
Proof. assert (t = 1 \/ t = 2 \/ t = 3 \/ t = 4) as [->|[->|[->| ->]]] by lia; done. Qed.

Lemma wide_flags : sds_flags wide = Some g.
Proof.
  destruct wide_off as (? & Hs & _). unfold sds_flags, wide. cbn [sh off].
  rewrite <- !app_assoc, app_assoc. apply zget_app. rewrite Hs, zlen_app. lia.
Qed.

Lemma wide_set_hdr_len v : set_hdr_len (sds_w t) wide v =
  Some (Sds ((le_bytes n v ++ A ++ [g]) ++ body) (sdsHdrSize t)).
Proof.
  destruct wide_off as (? & Hs & _). unfold set_hdr_len, store_field, wide. cbn [sh off]. rewrite Hs.
  replace (2 * sds_w t + 1 - (2 * sds_w t + 1)) with 0 by lia.
  rewrite <- !app_assoc, zput_app0 by (rewrite zlen_le_bytes; lia). done.
Qed.

Lemma wide_set_hdr_alloc v : set_hdr_alloc (sds_w t) wide v =
  Some (Sds ((L ++ le_bytes n v ++ [g]) ++ body) (sdsHdrSize t)).
Proof.
  destruct wide_off as (? & Hs & _). unfold set_hdr_alloc, store_field, wide. cbn [sh off]. rewrite Hs.
  rewrite <- !app_assoc, zput_app by (rewrite ?zlen_le_bytes; lia). done.
Qed.

Lemma wide_setlen v : g = t -> sdssetlen wide v = Some (Sds ((le_bytes n v ++ A ++ [g]) ++ body) (sdsHdrSize t)).
Proof.
  intros Hg. pose proof (wide_set_hdr_len v) as E. unfold sdssetlen. rewrite wide_flags. cbn [mbind option_bind].
  assert (Em : Z.land g SDS_TYPE_MASK = t) by (rewrite Hg; apply wide_off).
  rewrite Em. revert E. clear -Ht.
  assert (t = 1 \/ t = 2 \/ t = 3 \/ t = 4) as H by lia. unfold wide, n.
  by destruct H as [->|[->|[->| ->]]].
Qed.

Lemma wide_setalloc v : g = t -> sdssetalloc wide v = Some (Sds ((L ++ le_bytes n v ++ [g]) ++ body) (sdsHdrSize t)).
Proof.
  intros Hg. pose proof (wide_set_hdr_alloc v) as E. unfold sdssetalloc. rewrite wide_flags. cbn [mbind option_bind].
  assert (Em : Z.land g SDS_TYPE_MASK = t) by (rewrite Hg; apply wide_off).
  rewrite Em. revert E. clear -Ht.
  assert (t = 1 \/ t = 2 \/ t = 3 \/ t = 4) as H by lia. unfold wide, n.
  by destruct H as [->|[->|[->| ->]]].
Qed.
Lemma wide_set_flags v : 0 <= v < 256 ->
  set_flags wide v = Some (Sds ((L ++ A ++ [v]) ++ body) (sdsHdrSize t)).
Proof.
  intros Hv. destruct wide_off as (? & Hs & _). unfold set_flags, store_field, wide. cbn [sh off].
  change (Z.to_nat 1) with 1%nat. cbn [le_bytes]. rewrite Z.mod_small by done.
  rewrite <- !app_assoc, !(app_assoc L A), zput_app; [done|rewrite Hs; zlia|done].
Qed.
End WideHeader.

Lemma t5_flag_byte n : 0 <= n < 32 -> le_bytes (Z.to_nat 1) (Z.lor SDS_TYPE_5 (Z.shiftl n SDS_TYPE_BITS)) = [n * 8].
Proof.
  intros. unfold SDS_TYPE_5, SDS_TYPE_BITS. rewrite Z.lor_0_l, Z.shiftl_mul_pow2 by lia.
  change (Z.to_nat 1) with 1%nat. cbn [le_bytes]. change (2 ^ 3) with 8. by rewrite Z.mod_small by lia.
Qed.

Lemma t5_store f body n : 0 <= n < 32 ->
  store_field (Sds ([f] ++ body) 1) (1 - 1) 1 (Z.lor SDS_TYPE_5 (Z.shiftl n SDS_TYPE_BITS)) =
    Some (Sds ([n * 8] ++ body) 1).
Proof.
  intros Hn. unfold store_field. cbn [sh off]. rewrite t5_flag_byte by done.
  change (1 - 1) with 0. by rewrite zput_app0.
Qed.

Lemma t5_setlen f body n : Z.land f SDS_TYPE_MASK = 0 -> 0 <= n < 32 ->
  sdssetlen (Sds ([f] ++ body) 1) n = Some (Sds ([n * 8] ++ body) 1).
Proof.
  intros Hf Hn. unfold sdssetlen, sds_flags. cbn [sh off]. change (zget ([f] ++ body) (1 - 1)) with (Some f).
  cbn [mbind option_bind]. rewrite Hf. by apply t5_store.
Qed.

(** A layout as a value. *)
Lemma lay_eq s t len body : lay s t len body ->
  s = Sds (sds_hdr t len (zlen body - 1) ++ body) (sdsHdrSize t).
Proof. intros [Hs Ho _ _ _ _]. destruct s. simpl in *. by subst. Qed.

Lemma lay_intro t len body : 0 <= t <= 4 -> 0 <= len <= zlen body - 1 -> (t = 0 -> len < 32) ->
  (t <> 0 -> zlen body - 1 < 2 ^ (8 * sds_w t)) ->
  lay (Sds (sds_hdr t len (zlen body - 1) ++ body) (sdsHdrSize t)) t len body.
Proof. intros. by split. Qed.

Lemma sds_hdr_wide t len alloc : 1 <= t <= 4 ->
  sds_hdr t len alloc = le_bytes (Z.to_nat (sds_w t)) len ++ le_bytes (Z.to_nat (sds_w t)) alloc ++ [t].
Proof. intros. unfold sds_hdr. by zdec. Qed.

Lemma zlen_le_w t v : 1 <= t <= 4 -> zlen (le_bytes (Z.to_nat (sds_w t)) v) = sds_w t.
Proof.
  intros. rewrite zlen_le_bytes. assert (t = 1 \/ t = 2 \/ t = 3 \/ t = 4) as [->|[->|[->| ->]]] by lia; done.
Qed.

Lemma lay_setlen s t len body n : lay s t len body -> 0 <= n <= zlen body - 1 -> (t = 0 -> n < 32) ->
  exists s', sdssetlen s n = Some s' /\ lay s' t n body.
Proof.
  intros H Hn H5. pose proof (lay_eq _ _ _ _ H) as ->. destruct H as [_ _ Ht Hb Hl5 Hf].
  destruct (decide (t = 0)) as [->|Hne].
  - eexists. split; [apply t5_setlen; [|lia]|].
    + apply type5_flags. lia.
    + apply (lay_intro 0); [lia..| |done]. lia.
  - rewrite sds_hdr_wide by lia. eexists. split; [apply wide_setlen; [lia|by apply zlen_le_w; lia..|done]|].
    rewrite <- sds_hdr_wide by lia. apply lay_intro; [lia|lia|done|done].
Qed.

(** Reading and writing the bytes of the string. *)
Lemma lay_sub s t len A M B : lay s t len (A ++ M ++ B) -> s_sub s (zlen A) (zlen M) = Some M.
Proof.
  intros H. pose proof (lay_eq _ _ _ _ H) as ->. unfold s_sub. cbn [sh off].
  rewrite app_assoc. apply zsub_app; [|done].
  rewrite zlen_app, zlen_sds_hdr by apply H. done.
Qed.

Lemma lay_get s t len body i : lay s t len body -> 0 <= i -> zget (sh s) (off s + i) = zget body i.
Proof.
  intros H Hi. pose proof (lay_eq _ _ _ _ H) as ->. cbn [sh off].
  rewrite zget_app_r; rewrite zlen_sds_hdr by apply H; [|lia]. f_equal. lia.
Qed.

Lemma lay_put s t len A M B b i : lay s t len (A ++ M ++ B) -> i = zlen A -> zlen b = zlen M ->
  exists s', s_put s i b = Some s' /\ lay s' t len (A ++ b ++ B).
Proof.
  intros H -> Hb. pose proof (lay_eq _ _ _ _ H) as ->. pose proof H as [_ _ Ht Hl H5 Hf].
  unfold s_put. cbn [sh off]. rewrite app_assoc.
  rewrite zput_app; [|rewrite zlen_app, zlen_sds_hdr by done; done|done]. cbn [mbind option_bind].
  eexists. split; [done|]. rewrite <- app_assoc.
  assert (E : zlen (A ++ M ++ B) = zlen (A ++ b ++ B)) by zlia. rewrite E in *.
  by apply lay_intro.
Qed.

(** * Creation and growth *)

Lemma req_type n : 0 <= n < 2 ^ 64 ->
  let t := sdsReqType n in 0 <= t <= 4 /\ (t = 0 -> n < 32) /\ (t <> 0 -> n < 2 ^ (8 * sds_w t)).
Proof.
  intros Hn. unfold sdsReqType. change (1 ≪ 5) with 32. change (1 ≪ 8) with 256.
  change (1 ≪ 16) with 65536. change (1 ≪ 32) with (2 ^ 32).
  repeat (zcase; [cbn; split_and!; (done || lia)|]). cbn. split_and!; (done || lia).
Qed.

(** A header type other than [SDS_TYPE_5] that can record a size of [n]. *)
Definition wide_type (n : Z) : Z := if sdsReqType n =? SDS_TYPE_5 then SDS_TYPE_8 else sdsReqType n.

Lemma wide_type_ok n : 0 <= n < 2 ^ 64 -> 1 <= wide_type n <= 4 /\ n < 2 ^ (8 * sds_w (wide_type n)).
Proof.
  intros Hn. destruct (req_type n Hn) as (Ht & H5 & Hw). unfold wide_type, SDS_TYPE_5, SDS_TYPE_8.
  destruct (Z.eqb_spec (sdsReqType n) 0) as [E|E].
  - specialize (H5 E). change (2 ^ (8 * sds_w 1)) with 256. lia.
  - specialize (Hw E). split; [lia|done].
Qed.

Lemma zeros_app a b : 0 <= a -> 0 <= b -> zeros (a + b) = zeros a ++ zeros b.
Proof. intros. unfold zeros. rewrite Z2Nat.inj_add by lia. apply replicate_add. Qed.

Lemma zlen_zeros a : 0 <= a -> zlen (zeros a) = a.
Proof. intros. unfold zeros. rewrite zlen_replicate. lia. Qed.

Lemma raw_app x a b : 0 <= a -> 0 <= b -> raw x (a + b) = raw x a ++ raw x b.
Proof. intros. unfold raw. rewrite Z2Nat.inj_add by lia. apply replicate_add. Qed.

Lemma zlen_raw x a : 0 <= a -> zlen (raw x a) = a.
Proof. intros. unfold raw. rewrite zlen_replicate. lia. Qed.

(** The allocation of a string of type [t]: the header, then [n + 1] bytes. *)
Lemma raw_wide x t n : 1 <= t <= 4 -> 0 <= n ->
  raw x (sdsHdrSize t + n + 1) = (raw x (sds_w t) ++ raw x (sds_w t) ++ [x]) ++ raw x (n + 1).
Proof.
  intros Ht Hn. rewrite <- Z.add_assoc, raw_app; [|by (assert (t = 1 \/ t = 2 \/ t = 3 \/ t = 4) as [->|[->|[->| ->]]] by lia)|lia].
  f_equal. by (assert (t = 1 \/ t = 2 \/ t = 3 \/ t = 4) as [->|[->|[->| ->]]] by lia).
Qed.

(** Filling in the header of a fresh allocation. *)
Lemma fresh_wide x t n body : 1 <= t <= 4 -> 0 <= n -> zlen body = n + 1 -> n < 2 ^ (8 * sds_w t) ->
  forall len, 0 <= len <= n ->
  let s := Sds ((raw x (sds_w t) ++ raw x (sds_w t) ++ [x]) ++ body) (sdsHdrSize t) in
  (s ← set_hdr_len (sds_w t) s len; s ← set_hdr_alloc (sds_w t) s n; set_flags s t) =
    Some (Sds (sds_hdr t len n ++ body) (sdsHdrSize t)) /\
  (s ← set_flags s t; s ← sdssetlen s len; sdssetalloc s n) =
    Some (Sds (sds_hdr t len n ++ body) (sdsHdrSize t)).
Proof.
  intros Ht Hn Hb Hf len Hlen s.
  assert (0 < sds_w t) by (assert (t = 1 \/ t = 2 \/ t = 3 \/ t = 4) as [->|[->|[->| ->]]] by lia; done).
  assert (Hz : zlen (raw x (sds_w t)) = sds_w t) by (apply zlen_raw; lia).
  pose proof (zlen_le_w t) as Hlw. rewrite sds_hdr_wide by done. split.
  - unfold s. rewrite wide_set_hdr_len by done. cbn [mbind option_bind].
    rewrite wide_set_hdr_alloc by auto. cbn [mbind option_bind].
    rewrite wide_set_flags by (auto || lia). done.
  - unfold s. rewrite wide_set_flags by (auto || lia). cbn [mbind option_bind].
    rewrite wide_setlen by auto. cbn [mbind option_bind]. by rewrite wide_setalloc by auto.
Qed.

Lemma sdsnewlen_spec b : zlen b < 2 ^ 64 - 32 ->
  exists s, sdsnewlen (Some b) (zlen b) = Some s /\ is_sds s b.
Proof.
  intros Hlt. pose proof (zlen_nonneg b). unfold sdsnewlen.
  set (t := if (sdsReqType (zlen b) =? SDS_TYPE_5) && (zlen b =? 0) then SDS_TYPE_8 else sdsReqType (zlen b)).
  destruct (req_type (zlen b) ltac:(lia)) as (Ht & H5 & Hw).
  assert (Hty : 0 <= t <= 4 /\ (t = 0 -> zlen b < 32) /\ (t <> 0 -> zlen b < 2 ^ (8 * sds_w t))).
  { unfold t. destruct (Z.eqb_spec (sdsReqType (zlen b)) SDS_TYPE_5), (Z.eqb_spec (zlen b) 0); cbn [andb];
      try done. change (2 ^ (8 * sds_w SDS_TYPE_8)) with 256. unfold SDS_TYPE_8. split_and!; lia. }
  clearbody t. destruct Hty as (Ht' & H5' & Hw'). clear Ht H5 Hw.
  assert (Hinit : exists s, (match t with
      | 0 => set_flags (Sds (raw junk (sdsHdrSize t + zlen b + 1)) (sdsHdrSize t)) (Z.lor t (Z.shiftl (zlen b) SDS_TYPE_BITS))
      | 1 => s ← set_hdr_len 1 (Sds (raw junk (sdsHdrSize t + zlen b + 1)) (sdsHdrSize t)) (zlen b); s ← set_hdr_alloc 1 s (zlen b); set_flags s t
      | 2 => s ← set_hdr_len 2 (Sds (raw junk (sdsHdrSize t + zlen b + 1)) (sdsHdrSize t)) (zlen b); s ← set_hdr_alloc 2 s (zlen b); set_flags s t
      | 3 => s ← set_hdr_len 4 (Sds (raw junk (sdsHdrSize t + zlen b + 1)) (sdsHdrSize t)) (zlen b); s ← set_hdr_alloc 4 s (zlen b); set_flags s t
      | 4 => s ← set_hdr_len 8 (Sds (raw junk (sdsHdrSize t + zlen b + 1)) (sdsHdrSize t)) (zlen b); s ← set_hdr_alloc 8 s (zlen b); set_flags s t
      | _ => Some (Sds (raw junk (sdsHdrSize t + zlen b + 1)) (sdsHdrSize t))
      end) = Some s /\ lay s t (zlen b) (raw junk (zlen b + 1))).
  { assert (Hz : zlen (raw junk (zlen b + 1)) = zlen b + 1) by (apply zlen_raw; lia).
    destruct (decide (t = 0)) as [->|Hne].
    - exists (Sds ([zlen b * 8] ++ raw junk (zlen b + 1)) 1). split.
      + change (sdsHdrSize 0) with 1. rewrite <- Z.add_assoc, raw_app by lia.
        apply (t5_store junk). lia.
      + apply (lay_intro 0); [lia|lia|done|done].
    - rewrite raw_wide by lia.
      destruct (fresh_wide junk t (zlen b) (raw junk (zlen b + 1)) ltac:(lia) ltac:(lia) Hz (Hw' Hne) (zlen b) ltac:(lia)) as [E _].
      eexists. split; [|apply lay_intro; [lia|lia|done|rewrite Hz, Z.add_simpl_r; by apply Hw']].
      rewrite Hz, Z.add_simpl_r, <- E.
      assert (t = 1 \/ t = 2 \/ t = 3 \/ t = 4) as [->|[->|[->| ->]]] by lia; done. }
  destruct Hinit as (s & E & Hlay). cbv zeta. rewrite E. cbn [mbind option_bind]. clear E.
  rewrite raw_app in Hlay by lia.
  assert (Hput : exists s', (if negb (zlen b =? 0) then s_put s 0 (take (Z.to_nat (zlen b)) b) else Some s) = Some s' /\
     lay s' t (zlen b) (b ++ raw junk 1)).
  { destruct (Z.eqb_spec (zlen b) 0) as [E0|E0]; cbn [negb].
    - apply zlen_0_nil in E0 as ->. by exists s.
    - rewrite to_nat_zlen, firstn_all.
      apply (lay_put s t (zlen b) [] (raw junk (zlen b)) (raw junk 1) b 0); [done|done|]. rewrite zlen_raw; lia. }
  destruct Hput as (s' & E & Hlay'). rewrite E. cbn [mbind option_bind].
  rewrite <- (app_nil_r (raw junk 1)) in Hlay'.
  destruct (lay_put s' t (zlen b) b (raw junk 1) [] [0] (zlen b) Hlay' eq_refl eq_refl) as (s'' & E' & Hlay'').
  exists s''. split; [done|]. by exists t, [].
Qed.

(** The size [sdsMakeRoomFor] allocates for a string that must hold [m] bytes. *)
Lemma prealloc_size m : 0 <= m < 2 ^ 62 ->
  let n := if u64 m <? SDS_MAX_PREALLOC then u64 (u64 m * 2) else u64 (u64 m + SDS_MAX_PREALLOC) in
  m <= n < 2 ^ 63.
Proof.
  intros Hm n. unfold n. rewrite (uwrap_small 64 m) by (unfold urange; lia). unfold SDS_MAX_PREALLOC.
  destruct (Z.ltb_spec m (1024 * 1024)); rewrite uwrap_small by (unfold urange; lia); lia.
Qed.

Lemma makeroom_spec s t c spare addlen :
  lay s t (zlen c) (c ++ spare) -> 0 <= addlen -> zlen c + addlen < 2 ^ 62 ->
  exists s' t' spare', sdsMakeRoomFor s addlen = Some s' /\ lay s' t' (zlen c) (c ++ spare') /\
    addlen < zlen spare' /\ take 1 spare' = take 1 spare /\ (t' = 0 -> addlen = 0).
Proof.
  intros H Ha Hlt. pose proof (lay_sdsavail _ _ _ _ H) as Eav. pose proof (lay_sdslen _ _ _ _ H) as Elen.
  destruct (lay_flags _ _ _ _ H) as (f & Ef & Em & _). pose proof (lay_body _ _ _ _ H) as Hb.
  pose proof (lay_t _ _ _ _ H) as Ht. rewrite zlen_app in Hb, Eav.
  unfold sdsMakeRoomFor. rewrite Eav, Ef. cbn [mbind option_bind]. rewrite Em, Elen, Z.geb_leb.
  destruct (Z.leb_spec addlen (if t =? 0 then 0 else zlen c + zlen spare - 1 - zlen c)) as [Hle|Hgt].
  { exists s, t, spare. split; [done|]. split_and!; [done| |done|]; destruct (Z.eqb_spec t 0); lia. }
  cbn [mbind option_bind]. pose proof (zlen_nonneg c).
  pose proof (prealloc_size (zlen c + addlen) ltac:(lia)) as Hn. cbv zeta in Hn |- *.
  set (n := if u64 (zlen c + addlen) <? SDS_MAX_PREALLOC then _ else _) in *. clearbody n.
  fold (wide_type n). destruct (wide_type_ok n ltac:(lia)) as [Hty Hfit].
  set (ty := wide_type n) in *. clearbody ty.
  assert (Hz : zlen (raw junk (sds_w ty)) = sds_w ty).
  { apply zlen_raw. assert (ty = 1 \/ ty = 2 \/ ty = 3 \/ ty = 4) as [->|[->|[->| ->]]] by lia; done. }
  assert (Hhs : zlen (raw junk (sds_w ty) ++ raw junk (sds_w ty) ++ [junk]) = sdsHdrSize ty).
  { rewrite !zlen_app, Hz. by (assert (ty = 1 \/ ty = 2 \/ ty = 3 \/ ty = 4) as [->|[->|[->| ->]]] by lia). }
  assert (Hfin : forall spare', zlen (c ++ spare') = n + 1 -> take 1 spare' = take 1 spare ->
    exists s' t' sp, Some (Sds (sds_hdr ty (zlen c) n ++ c ++ spare') (sdsHdrSize ty)) = Some s' /\
      lay s' t' (zlen c) (c ++ sp) /\ addlen < zlen sp /\ take 1 sp = take 1 spare /\ (t' = 0 -> addlen = 0)).
  { intros sp Hsp Htk. do 3 eexists. split; [done|]. replace n with (zlen (c ++ sp) - 1) by lia.
    split_and!; [apply (lay_intro ty); [lia|lia|lia|intros _; rewrite Hsp, Z.add_simpl_r; done]| |done|lia].
    rewrite zlen_app in Hsp. lia. }
  destruct (Z.eqb_spec t ty) as [->|Hne].
  - rewrite (proj2 (Z.eqb_neq ty 0)) in Hgt by lia.
    pose proof (lay_eq _ _ _ _ H) as ->. cbn [sh off].
    destruct (zresize_grow (sds_hdr ty (zlen c) (zlen (c ++ spare) - 1) ++ c ++ spare) (sdsHdrSize ty + n + 1))
      as (pad & Ep & Hpad); [rewrite !zlen_app, zlen_sds_hdr by lia; lia|].
    cbn [mbind option_bind]. rewrite Ep. rewrite zlen_app, zlen_sds_hdr in Hpad by lia.
    rewrite sds_hdr_wide by lia. rewrite <- (app_assoc _ _ pad).
    rewrite wide_setalloc by (done || by apply zlen_le_w). rewrite <- sds_hdr_wide by lia.
    rewrite <- app_assoc. apply Hfin; [rewrite !zlen_app in *; lia|].
    destruct spare; [change (zlen (@nil Z)) with 0 in Hb; lia|done].
  - destruct spare as [|x spare]; [change (zlen (@nil Z)) with 0 in Hb; lia|].
    replace (zlen c + 1) with (zlen (c ++ [x])) by zlia.
    change (c ++ x :: spare) with (c ++ [x] ++ spare) in H. rewrite app_assoc in H.
    pose proof (lay_sub s t (zlen c) [] (c ++ [x]) spare H) as Esub. change (zlen (@nil Z)) with 0 in Esub.
    rewrite Esub. cbn [mbind option_bind].
    rewrite raw_wide by lia. unfold s_put at 1. cbn [sh off]. rewrite Z.add_0_r.
    assert (Hz1 : raw junk (n + 1) = raw junk (zlen (c ++ [x])) ++ raw junk (n - zlen c)).
    { rewrite <- raw_app by zlia. f_equal. zlia. }
    rewrite Hz1. rewrite zput_app by (done || (rewrite zlen_raw; zlia)). cbn [mbind option_bind].
    rewrite wide_set_flags by (done || lia). cbn [mbind option_bind].
    rewrite wide_setlen by done. cbn [mbind option_bind].
    rewrite wide_setalloc by (done || by apply zlen_le_w). rewrite <- sds_hdr_wide by lia.
    rewrite <- (app_assoc c). apply Hfin; [|done].
    rewrite !zlen_app, zlen_raw by lia. rewrite zlen_cons, zlen_nil. lia.
Qed.

(** * Operations on values *)

Lemma is_sds_len s c : is_sds s c -> sdslen s = Some (zlen c).
Proof. intros (t & spare & H). by eapply lay_sdslen. Qed.

Lemma is_sds_bytes s c : is_sds s c -> s_sub s 0 (zlen c) = Some c.
Proof. intros (t & spare & H). by apply (lay_sub s t (zlen c) [] c (0 :: spare)). Qed.

(** Storing [b] over the start of the free space and making it part of the string. *)
Lemma store_tail s t len A b spare : lay s t len (A ++ spare) -> zlen b < zlen spare ->
  (t = 0 -> zlen A + zlen b < 32) -> zlen A + zlen b < 2 ^ 64 ->
  exists s1 s2 s3, s_put s (zlen A) b = Some s1 /\ sdssetlen s1 (zlen A + zlen b) = Some s2 /\
    s_put s2 (zlen A + zlen b) [0] = Some s3 /\ is_sds s3 (A ++ b).
Proof.
  intros H Hb H5 Hlt. pose proof (zlen_nonneg A) as Hge_A. pose proof (zlen_nonneg b) as Hge_b.
  destruct (zsplit3 spare (zlen b) 1) as (M & X & B & -> & HM & HX); [lia..|].
  destruct (zlen_1_inv X HX) as [x ->].
  destruct (lay_put s t len A M ([x] ++ B) b _ H eq_refl (eq_sym HM)) as (s1 & E1 & H1).
  destruct (lay_setlen s1 t len _ (zlen A + zlen b) H1) as (s2 & E2 & H2); [zlia|done|].
  rewrite (app_assoc A b) in H2. rewrite <- zlen_app in *.
  destruct (lay_put s2 t (zlen (A ++ b)) (A ++ b) [x] B [0] _ H2 eq_refl eq_refl) as (s3 & E3 & H3).
  exists s1, s2, s3. split_and!; try done. by exists t, B.
Qed.

Lemma sdscatlen_spec s c b : is_sds s c -> zlen c + zlen b < 2 ^ 62 ->
  exists s', sdscatlen s b = Some s' /\ is_sds s' (c ++ b).
Proof.
  intros (t & spare & H) Hlt. pose proof (zlen_nonneg c) as Hge_c. pose proof (zlen_nonneg b) as Hge_b.
  unfold sdscatlen. rewrite (lay_sdslen _ _ _ _ H). cbn [mbind option_bind].
  destruct (makeroom_spec s t c (0 :: spare) (zlen b) H) as (s' & t' & sp & E & H' & Hsp & _ & H5); [lia..|].
  rewrite E. cbn [mbind option_bind]. rewrite uwrap_small by (unfold urange; lia).
  destruct (store_tail s' t' (zlen c) c b sp H' Hsp) as (s1 & s2 & s3 & -> & E2 & E3 & H3); [|lia|].
  { intros E0. specialize (H5 E0). pose proof (lay_5 _ _ _ _ H' E0). lia. }
  cbn [mbind option_bind]. rewrite E2. cbn [mbind option_bind]. eauto.
Qed.

(** Replacing the content by something that fits in the allocation. *)
Lemma overwrite s t len body b : lay s t len body -> zlen b <= zlen body - 1 -> (t = 0 -> zlen b < 32) ->
  exists s1 s2 s3, s_put s 0 b = Some s1 /\ s_put s1 (zlen b) [0] = Some s2 /\
    sdssetlen s2 (zlen b) = Some s3 /\ is_sds s3 b.
Proof.
  intros H Hb H5. pose proof (zlen_nonneg b) as Hge_b.
  destruct (zsplit3 body (zlen b) 1) as (M & X & B & -> & HM & HX); [lia..|].
  destruct (zlen_1_inv X HX) as [x ->].
  destruct (lay_put s t len [] M ([x] ++ B) b 0 H eq_refl (eq_sym HM)) as (s1 & E1 & H1).
  destruct (lay_put s1 t len b [x] B [0] (zlen b) H1 eq_refl eq_refl) as (s2 & E2 & H2).
  destruct (lay_setlen s2 t len _ (zlen b) H2) as (s3 & E3 & H3); [zlia|done|].
  exists s1, s2, s3. split_and!; try done. by exists t, B.
Qed.

Lemma sdscpylen_spec s c b : is_sds s c -> zlen b < 2 ^ 62 -> zlen c < 2 ^ 62 ->
  exists s', sdscpylen s b = Some s' /\ is_sds s' b.
Proof.
  intros (t & spare & H) Hlt Hc. pose proof (zlen_nonneg c) as Hge_c. pose proof (zlen_nonneg b) as Hge_b.
  unfold sdscpylen. rewrite (lay_sdsalloc _ _ _ _ H). cbn [mbind option_bind].
  pose proof (lay_5 _ _ _ _ H) as H5. pose proof (lay_body _ _ _ _ H) as Hbody.
  assert (exists s1 t1 len body, (if (if t =? 0 then zlen c else zlen (c ++ 0 :: spare) - 1) <? zlen b
     then l ← sdslen s; sdsMakeRoomFor s (zlen b - l) else Some s) = Some s1 /\
     lay s1 t1 len body /\ zlen b <= zlen body - 1 /\ (t1 = 0 -> zlen b < 32))
    as (s1 & t1 & len & body & E & H1 & Hb & Hb5).
  { destruct (Z.ltb_spec (if t =? 0 then zlen c else zlen (c ++ 0 :: spare) - 1) (zlen b)) as [Hl|Hl].
    - rewrite (lay_sdslen _ _ _ _ H). cbn [mbind option_bind].
      assert (zlen c < zlen b) by (destruct (Z.eqb_spec t 0); lia).
      destruct (makeroom_spec s t c (0 :: spare) (zlen b - zlen c) H) as (s' & t' & sp & E & H' & Hsp & _ & H5'); [lia..|].
      do 4 eexists. split; [exact E|]. split; [exact H'|]. rewrite zlen_app. split; [lia|]. intros E0.
      specialize (H5' E0). lia.
    - do 4 eexists. split; [done|]. split; [exact H|]. destruct (Z.eqb_spec t 0) as [E0|E0].
      + specialize (H5 E0). split; [lia|]. lia.
      + split; [lia|done]. }
  rewrite E. cbn [mbind option_bind].
  destruct (overwrite s1 t1 len body b H1 Hb Hb5) as (s2 & s3 & s4 & E2 & E3 & E4 & H4).
  rewrite E2. cbn [mbind option_bind]. rewrite E3. cbn [mbind option_bind]. eauto.
Qed.

Lemma sdsgrowzero_spec s c n : is_sds s c -> 0 <= n < 2 ^ 62 -> zlen c < 2 ^ 62 ->
  exists s', sdsgrowzero s n = Some s' /\ is_sds s' (c ++ zeros (n - zlen c)).
Proof.
  intros Hs Hn Hc. pose proof Hs as (t & spare & H). pose proof (zlen_nonneg c) as Hge_c.
  unfold sdsgrowzero. rewrite (lay_sdslen _ _ _ _ H). cbn [mbind option_bind].
  destruct (Z.leb_spec n (zlen c)).
  { exists s. split; [done|]. unfold zeros. replace (Z.to_nat (n - zlen c)) with 0%nat by lia.
    by rewrite app_nil_r. }
  destruct (makeroom_spec s t c (0 :: spare) (n - zlen c) H) as (s' & t' & sp & E & H' & Hsp & _ & H5'); [lia..|].
  rewrite E. cbn [mbind option_bind].
  destruct (zsplit3 sp 0 (n - zlen c + 1)) as (z & M & B & -> & Hz & HM); [lia|lia|lia|].
  apply zlen_0_nil in Hz as ->. cbn [app] in *.
  destruct (lay_put s' t' (zlen c) c M B (zeros (n - zlen c + 1)) _ H' eq_refl) as (s1 & E1 & H1);
    [rewrite zlen_zeros; lia|].
  rewrite E1. cbn [mbind option_bind].
  destruct (lay_setlen s1 t' (zlen c) _ n H1) as (s2 & E2 & H2).
  { rewrite !zlen_app, zlen_zeros by lia. pose proof (zlen_nonneg B) as Hge_B. lia. }
  { intros E0. specialize (H5' E0). lia. }
  exists s2. split; [done|]. exists t', B.
  replace (zlen (c ++ zeros (n - zlen c))) with n by (rewrite zlen_app, zlen_zeros; lia).
  rewrite zeros_app in H2 by lia. rewrite <- !app_assoc in H2. by rewrite <- app_assoc.
Qed.

Lemma sdsclear_spec s c : is_sds s c -> exists s', sdsclear s = Some s' /\ is_sds s' [].
Proof.
  intros (t & spare & H). unfold sdsclear.
  destruct (lay_setlen s t _ _ 0 H) as (s1 & E1 & H1); [zlia|lia|]. rewrite E1. cbn [mbind option_bind].
  destruct (c ++ 0 :: spare) as [|x body] eqn:Ec; [by destruct c|].
  destruct (lay_put s1 t 0 [] [x] body [0] 0 H1 eq_refl eq_refl) as (s2 & E2 & H2).
  exists s2. split; [done|]. by exists t, body.
Qed.

Lemma sdsdup_spec s c : is_sds s c -> zlen c < 2 ^ 64 - 32 -> exists s', sdsdup s = Some s' /\ is_sds s' c.
Proof.
  intros H Hlt. unfold sdsdup. rewrite (is_sds_len _ _ H). cbn [mbind option_bind].
  rewrite (is_sds_bytes _ _ H). cbn [mbind option_bind]. by apply sdsnewlen_spec.
Qed.

Lemma sdsempty_spec : exists s, sdsempty = Some s /\ is_sds s [].
Proof. by apply (sdsnewlen_spec []). Qed.

(** Keeping the window [M] of the content; the move may be skipped when it has no effect. *)
Lemma window_spec s t A M B spare (move : bool) :
  lay s t (zlen (A ++ M ++ B)) ((A ++ M ++ B) ++ 0 :: spare) -> (move = false -> A = [] \/ M = []) ->
  exists s1 s2 s3,
    (if move then b ← s_sub s (zlen A) (zlen M); s_put s 0 b else Some s) = Some s1 /\
    s_put s1 (zlen M) [0] = Some s2 /\ sdssetlen s2 (zlen M) = Some s3 /\ is_sds s3 M.
Proof.
  intros H Hm. pose proof (lay_5 _ _ _ _ H) as H5.
  assert (H' : lay s t (zlen (A ++ M ++ B)) (A ++ M ++ (B ++ 0 :: spare))) by by rewrite <- !app_assoc in *.
  assert (exists s1 rest, (if move then b ← s_sub s (zlen A) (zlen M); s_put s 0 b else Some s) = Some s1 /\
     lay s1 t (zlen (A ++ M ++ B)) (M ++ rest) /\ zlen (M ++ rest) = zlen ((A ++ M ++ B) ++ 0 :: spare))
    as (s1 & rest & E1 & H1 & Hlen).
  { destruct move.
    - rewrite (lay_sub _ _ _ _ _ _ H'). cbn [mbind option_bind].
      destruct (zsplit3 (A ++ M ++ B ++ 0 :: spare) 0 (zlen M)) as (z & M' & R & E & Hz & HM'); [zlia..|].
      apply zlen_0_nil in Hz as ->. cbn [app] in E. rewrite E in H'.
      destruct (lay_put s t _ [] M' R M 0 H' eq_refl (eq_sym HM')) as (s1 & E1 & H1).
      exists s1, R. split; [done|]. split; [done|]. rewrite <- !app_assoc, E. zlia.
    - exists s. destruct (Hm eq_refl) as [->| ->].
      + exists (B ++ 0 :: spare). split; [done|]. split; [done|]. zlia.
      + exists (A ++ B ++ 0 :: spare). split; [done|]. split; [done|]. zlia. }
  rewrite zlen_app in Hlen. destruct rest as [|x rest].
  { exfalso. revert Hlen. rewrite !zlen_app, zlen_cons. change (zlen (@nil Z)) with 0.
    pose proof (zlen_nonneg A). pose proof (zlen_nonneg B). pose proof (zlen_nonneg spare). lia. }
  destruct (lay_put s1 t _ M [x] rest [0] (zlen M) H1 eq_refl eq_refl) as (s2 & E2 & H2).
  destruct (lay_setlen s2 t _ _ (zlen M) H2) as (s3 & E3 & H3); [zlia| |].
  { intros E0. specialize (H5 E0). autorewrite with zlen in H5.
    pose proof (zlen_nonneg A). pose proof (zlen_nonneg B). lia. }
  exists s1, s2, s3. split_and!; try done. by exists t, rest.
Qed.

(** ** Trimming *)

Fixpoint dropw (p : Z -> bool) (l : bytes) : bytes :=
  match l with [] => [] | x :: r => if p x then dropw p r else l end.

(** The content without the leading and trailing bytes that satisfy [p]. *)
Definition trimmed (p : Z -> bool) (l : bytes) : bytes := rev (dropw p (rev (dropw p l))).

Lemma dropw_suffix p l : exists A, l = A ++ dropw p l.
Proof.
  induction l as [|x l [A IH]]; [by exists []|]. simpl. destruct (p x); [|by exists []].
  exists (x :: A). simpl. by rewrite <- IH.
Qed.

Lemma dropw_head p l : dropw p l = [] \/ exists x r, dropw p l = x :: r /\ p x = false.
Proof.
  induction l as [|x l IH]; [by left|]. simpl. destruct (p x) eqn:E; [done|]. right. eauto.
Qed.

Lemma trim_left_spec s t len rest cset B : forall A fuel,
  lay s t len ((A ++ B) ++ rest) -> (length B < fuel)%nat ->
  trim_left fuel cset s (zlen A) (zlen (A ++ B) - 1) = Some (zlen (A ++ B) - zlen (dropw (in_cset cset) B)).
Proof.
  induction B as [|b B IH]; intros A fuel H Hf; (destruct fuel as [|fuel]; [simpl in Hf; lia|]); cbn [trim_left dropw].
  - rewrite app_nil_r. change (zlen (@nil Z)) with 0. zdec. f_equal. lia.
  - assert (zlen A <= zlen (A ++ b :: B) - 1) by (pose proof (zlen_nonneg B); zlia). zdec.
    rewrite (lay_get _ _ _ _ _ H) by apply zlen_nonneg.
    rewrite <- app_assoc. cbn [app]. rewrite zget_app by done. cbn [mbind option_bind].
    destruct (in_cset cset b).
    + change (A ++ b :: B) with (A ++ [b] ++ B) in *. rewrite app_assoc in *.
      rewrite <- (IH (A ++ [b]) fuel H) by (simpl in Hf; lia). f_equal. zlia.
    + f_equal. zlia.
Qed.

Lemma trim_right_spec s t len cset A b B rest : in_cset cset b = false ->
  forall tail fuel, lay s t len ((A ++ (b :: B) ++ tail) ++ rest) -> (length B < fuel)%nat ->
  trim_right fuel cset s (zlen A) (zlen A + zlen (b :: B) - 1) =
    Some (zlen A + zlen (rev (dropw (in_cset cset) (rev (b :: B)))) - 1).
Proof.
  intros Hb. induction B as [|x B IH] using rev_ind; intros tail fuel H Hf; (destruct fuel as [|fuel]; [lia|]);
    cbn [trim_right].
  - rewrite Z.gtb_ltb. change (zlen [b]) with 1. zdec. cbn [rev app dropw]. rewrite Hb. done.
  - rewrite length_app in Hf. cbn [length] in Hf. rewrite Z.gtb_ltb.
    assert (0 < zlen (B ++ [x])) by (pose proof (zlen_nonneg B); zlia).
    rewrite (zlen_cons b). zdec.
    rewrite (lay_get _ _ _ _ _ H) by (pose proof (zlen_nonneg A); lia).
    replace ((A ++ (b :: B ++ [x]) ++ tail) ++ rest) with ((A ++ b :: B) ++ x :: (tail ++ rest))
      by (rewrite <- !app_assoc; cbn [app]; by rewrite <- !app_assoc).
    rewrite zget_app by (autorewrite with zlen; lia). cbn [mbind option_bind].
    change (b :: B ++ [x]) with ((b :: B) ++ [x]). rewrite rev_app_distr.
    change (rev [x] ++ rev (b :: B)) with (x :: rev (b :: B)). cbn [dropw].
    destruct (in_cset cset x).
    + rewrite <- (IH ([x] ++ tail) fuel); [f_equal; rewrite zlen_cons; autorewrite with zlen; lia| |lia].
      rewrite <- !app_assoc in *. cbn [app] in *. by rewrite <- !app_assoc in *.
    + f_equal. change (x :: rev (b :: B)) with (rev [x] ++ rev (b :: B)).
      rewrite <- rev_app_distr, rev_involutive. rewrite !zlen_app, !zlen_cons. lia.
Qed.

Lemma sdstrim_spec s c cset : is_sds s c ->
  exists s', sdstrim s cset = Some s' /\ is_sds s' (trimmed (in_cset cset) c).
Proof.
  intros (t & spare & H). unfold sdstrim, trimmed. rewrite (lay_sdslen _ _ _ _ H). cbn [mbind option_bind].
  assert (Hfuel : (length c < S (length (sh s)))%nat).
  { rewrite (lay_sh _ _ _ _ H), !length_app. lia. }
  pose proof (trim_left_spec s t _ (0 :: spare) cset c [] _ H Hfuel) as El. cbn [app] in El.
  change (zlen (@nil Z)) with 0 in El. rewrite El. cbn [mbind option_bind].
  destruct (dropw_suffix (in_cset cset) c) as [A EA].
  destruct (dropw_head (in_cset cset) c) as [E0|(b & B & E0 & Hb)].
  - rewrite E0 in *. rewrite app_nil_r in EA. subst A. change (zlen (@nil Z)) with 0. rewrite Z.sub_0_r.
    cbn [rev dropw]. assert (Er : trim_right (S (length (sh s))) cset s (zlen c) (zlen c - 1) = Some (zlen c - 1)).
    { cbn [trim_right]. rewrite Z.gtb_ltb. by zdec. }
    rewrite Er. cbn [mbind option_bind]. rewrite Z.gtb_ltb. zdec.
    assert (H0 : lay s t (zlen (c ++ [] ++ [])) ((c ++ [] ++ []) ++ 0 :: spare)) by by rewrite !app_nil_r.
    destruct (window_spec s t c [] [] spare (negb (zlen c =? 0))) as (s1 & s2 & s3 & E1 & E2 & E3 & H3).
    { done. } { by right. }
    change (zlen (@nil Z)) with 0 in *. rewrite E1. cbn [mbind option_bind]. rewrite E2. cbn [mbind option_bind]. eauto.
  - rewrite E0 in *. set (M := rev (dropw (in_cset cset) (rev (b :: B)))).
    assert (EM : exists tail, b :: B = M ++ tail).
    { destruct (dropw_suffix (in_cset cset) (rev (b :: B))) as [tl Et]. exists (rev tl). unfold M.
      rewrite <- rev_app_distr, <- Et. by rewrite rev_involutive. }
    destruct EM as [tl EM].
    assert (Hfb : (length B < S (length (sh s)))%nat).
    { rewrite EA in Hfuel. rewrite length_app in Hfuel. cbn [length] in Hfuel. lia. }
    assert (HA : zlen c - zlen (b :: B) = zlen A) by (rewrite EA; zlia).
    assert (Hlay : lay s t (zlen c) ((A ++ (b :: B) ++ []) ++ 0 :: spare)) by by rewrite app_nil_r, <- EA.
    pose proof (trim_right_spec s t _ cset A b B _ Hb [] _ Hlay Hfb) as Er. fold M in Er.
    rewrite HA. replace (zlen c - 1) with (zlen A + zlen (b :: B) - 1) by lia. rewrite Er. cbn [mbind option_bind].
    assert (HM : 0 < zlen M).
    { destruct (dropw_head (in_cset cset) (rev (b :: B))) as [En|(y & r & En & _)].
      - exfalso. clear -En Hb. cbn [rev] in En. revert En. induction (rev B) as [|y l IH]; cbn [app dropw].
        + by rewrite Hb.
        + destruct (in_cset cset y); [done|]. done.
      - unfold M. rewrite En. cbn [rev]. pose proof (zlen_nonneg (rev r)). zlia. }
    rewrite Z.gtb_ltb. zdec. replace (zlen A + zlen M - 1 - zlen A + 1) with (zlen M) by lia.
    rewrite EA, EM in H.
    destruct (window_spec s t A M tl spare (negb (zlen A =? 0)) H) as (s1 & s2 & s3 & E1 & E2 & E3 & H3).
    { intros E. left. apply negb_false_iff, Z.eqb_eq in E. by apply zlen_0_nil. }
    rewrite E1. cbn [mbind option_bind]. rewrite E2. cbn [mbind option_bind]. eauto.
Qed.

(** ** Ranges *)

Definition range_index (n i : Z) : Z := if i <? 0 then Z.max (n + i) 0 else i.

(** The bytes with indexes from [start] to [e] inclusive, negative indexes counting from the end. *)
Definition range_of (c : bytes) (start e : Z) : bytes :=
  let n := zlen c in
  let st := range_index n start in
  let en := Z.min (range_index n e) (n - 1) in
  take (Z.to_nat (en - st + 1)) (drop (Z.to_nat st) c).

Lemma range_window s t c spare A M B start : is_sds s c -> c = A ++ M ++ B ->
  lay s t (zlen c) (c ++ 0 :: spare) -> (zlen M <> 0 -> start = zlen A) ->
  exists s', (s1 ← (if negb (start =? 0) && negb (zlen M =? 0) then b ← s_sub s start (zlen M); s_put s 0 b else Some s);
    s2 ← s_put s1 (zlen M) [0]; sdssetlen s2 (zlen M)) = Some s' /\ is_sds s' M.
Proof.
  intros _ -> H Hst.
  destruct (window_spec s t A M B spare (negb (start =? 0) && negb (zlen M =? 0)) H)
    as (s1 & s2 & s3 & E1 & E2 & E3 & H3).
  { intros E. apply andb_false_iff in E as [E|E]; apply negb_false_iff, Z.eqb_eq in E.
    - destruct (Z.eq_dec (zlen M) 0) as [E0|E0]; [right; by apply zlen_0_nil|].
      left. apply zlen_0_nil. by rewrite <- Hst.
    - right. by apply zlen_0_nil. }
  assert (E1' : (if negb (start =? 0) && negb (zlen M =? 0) then b ← s_sub s start (zlen M); s_put s 0 b else Some s) = Some s1).
  { rewrite <- E1. destruct (Z.eqb_spec (zlen M) 0) as [E0|E0]; [by rewrite andb_false_r|].
    by rewrite (Hst E0). }
  rewrite E1'. cbn [mbind option_bind]. rewrite E2. cbn [mbind option_bind]. eauto.
Qed.

Lemma take_drop_split {A} (c : list A) (i n : nat) :
  c = take i c ++ take n (drop i c) ++ drop n (drop i c).
Proof. by rewrite take_drop, take_drop. Qed.

Lemma sdsrange_spec s c start e : is_sds s c -> zlen c < 2 ^ 62 -> srange 64 start -> srange 64 e ->
  exists s', sdsrange s start e = Some s' /\ is_sds s' (range_of c start e).
Proof.
  unfold srange. change (2 ^ (64 - 1)) with (2 ^ 63). intros Hs Hlt Hst He. pose proof Hs as (t & spare & H).
  unfold sdsrange. rewrite (lay_sdslen _ _ _ _ H). cbn [mbind option_bind]. pose proof (zlen_nonneg c) as Hc0.
  destruct (Z.eqb_spec (zlen c) 0) as [E0|E0].
  { exists s. split; [done|]. apply zlen_0_nil in E0 as ->. unfold range_of. rewrite drop_nil, take_nil. done. }
  assert (Hix : forall i, - 2 ^ 63 <= i < 2 ^ 63 ->
    (if i <? 0 then Z.max (s64 (u64 (zlen c + i))) 0 else i) = range_index (zlen c) i).
  { intros i Hi. unfold range_index. destruct (Z.ltb_spec i 0); [|done]. rewrite swrap_uwrap, swrap_small; [done| |lia..].
    unfold srange. change (2 ^ (64 - 1)) with (2 ^ 63). lia. }
  rewrite !Hix by done. cbv zeta. unfold range_of. cbv zeta.
  set (st := range_index (zlen c) start). set (en := range_index (zlen c) e).
  assert (Hrst : 0 <= st < 2 ^ 63) by (unfold st, range_index; destruct (Z.ltb_spec start 0); lia).
  assert (Hren : 0 <= en < 2 ^ 63) by (unfold en, range_index; destruct (Z.ltb_spec e 0); lia).
  clearbody st en. clear Hix.
  set (M := take (Z.to_nat (Z.min en (zlen c - 1) - st + 1)) (drop (Z.to_nat st) c)).
  assert (HlenM : zlen M = Z.max 0 (Z.min (Z.min en (zlen c - 1) - st + 1) (zlen c - st))).
  { unfold M, zlen in *. rewrite length_take, length_drop. lia. }
  assert (Hspl : c = take (Z.to_nat st) c ++ M ++ drop (Z.to_nat (Z.min en (zlen c - 1) - st + 1)) (drop (Z.to_nat st) c))
    by apply take_drop_split.
  assert (HA : zlen M <> 0 -> st = zlen (take (Z.to_nat st) c)).
  { intros Hne. unfold zlen in *. rewrite length_take. lia. }
  clearbody M. rewrite !Z.gtb_ltb, !Z.geb_leb.
  assert (Hres : exists st', (zlen M <> 0 -> st' = zlen (take (Z.to_nat st) c)) /\
    (if negb ((if en <? st then 0 else u64 (en - st + 1)) =? 0)
     then if zlen c <=? st then (st, 0)
          else if zlen c <=? en then (st, if zlen c - 1 <? st then 0 else u64 (zlen c - 1 - st + 1))
          else (st, if en <? st then 0 else u64 (en - st + 1))
     else (0, if en <? st then 0 else u64 (en - st + 1))) = (st', zlen M)).
  { destruct (Z.ltb_spec en st).
    - exists 0. change (negb (0 =? 0)) with false. cbv iota. split; [intros Hne; exfalso; apply Hne; rewrite HlenM; lia|]. f_equal. rewrite HlenM. lia.
    - rewrite !uwrap_small by (unfold urange; lia). rewrite (proj2 (Z.eqb_neq (en - st + 1) 0)) by lia. cbn [negb].
      exists st. split; [done|]. destruct (Z.leb_spec (zlen c) st); [f_equal; rewrite HlenM; lia|].
      destruct (Z.leb_spec (zlen c) en); [|f_equal; rewrite HlenM; lia]. zdec.
      rewrite uwrap_small by (unfold urange; lia). f_equal. rewrite HlenM. lia. }
  destruct Hres as (st' & Hst' & ->). by eapply range_window.
Qed.

(** ** Character maps and comparison *)

Lemma map_loop_spec s t len f B : forall A M, lay s t len (A ++ M ++ B) ->
  exists s', map_loop (length M) f s (zlen A) = Some s' /\ lay s' t len (A ++ map f M ++ B).
Proof.
  intros A M. revert s A. induction M as [|x M IH]; intros s A H; [by exists s|].
  cbn [length map_loop]. rewrite (lay_get _ _ _ _ _ H) by apply zlen_nonneg. cbn [app].
  rewrite zget_app by done. cbn [mbind option_bind].
  destruct (lay_put s t len A [x] (M ++ B) [f x] (zlen A)) as (s1 & E1 & H1); [done..|].
  rewrite E1. cbn [mbind option_bind]. rewrite app_assoc in H1.
  destruct (IH s1 (A ++ [f x]) H1) as (s' & E' & H'). exists s'.
  replace (zlen A + 1) with (zlen (A ++ [f x])) by zlia. split; [done|].
  rewrite <- app_assoc in H'. exact H'.
Qed.

Lemma map_content s c f : is_sds s c ->
  exists s', (n ← sdslen s; map_loop (Z.to_nat n) f s 0) = Some s' /\ is_sds s' (map f c).
Proof.
  intros (t & spare & H). rewrite (lay_sdslen _ _ _ _ H). cbn [mbind option_bind]. rewrite to_nat_zlen.
  destruct (map_loop_spec s t _ f (0 :: spare) [] c H) as (s' & E & H'). exists s'. split; [done|].
  exists t, spare. unfold zlen in *. by rewrite length_map.
Qed.

(** Lexicographic order on byte strings. *)
Fixpoint lex (a b : bytes) : comparison :=
  match a, b with
  | [], [] => Eq
  | [], _ => Lt
  | _, [] => Gt
  | x :: a, y :: b => if x =? y then lex a b else x ?= y
  end.

Lemma lex_eq a b : lex a b = Eq <-> a = b.
Proof.
  revert b. induction a as [|x a IH]; intros [|y b]; simpl; [done..|].
  destruct (Z.eqb_spec x y) as [->|Hne].
  - rewrite IH. naive_solver.
  - rewrite Z.compare_eq_iff. naive_solver.
Qed.

Lemma memcmp_lex a b :
  let n := Nat.min (length a) (length b) in
  let m := memcmp (take n a) (take n b) in
  (m ?= 0) = (if m =? 0 then Eq else lex a b) /\
  (m = 0 -> lex a b = Nat.compare (length a) (length b)).
Proof.
  revert b. induction a as [|x a IH]; intros [|y b]; cbn; [done..|].
  destruct (Z.eqb_spec x y) as [->|Hne]; [apply IH|].
  rewrite (proj2 (Z.eqb_neq (x - y) 0)) by lia. split; [|lia].
  destruct (Z.compare_spec (x - y) 0), (Z.compare_spec x y); (done || lia).
Qed.

Lemma sdscmp_spec s1 s2 c1 c2 : is_sds s1 c1 -> is_sds s2 c2 ->
  exists r, sdscmp s1 s2 = Some r /\ (r ?= 0) = lex c1 c2.
Proof.
  intros H1 H2. unfold sdscmp. rewrite (is_sds_len _ _ H1), (is_sds_len _ _ H2). cbn [mbind option_bind].
  set (n := Nat.min (length c1) (length c2)).
  replace (if zlen c1 <? zlen c2 then zlen c1 else zlen c2) with (Z.of_nat n)
    by (unfold zlen, n; zcase; lia).
  assert (Hp : forall s c, is_sds s c -> (n <= length c)%nat -> s_sub s 0 (Z.of_nat n) = Some (take n c)).
  { intros s c (t & spare & H) Hn. rewrite <- (take_drop n c) in H at 2. rewrite <- app_assoc in H.
    replace (Z.of_nat n) with (zlen (take n c)) by (unfold zlen; rewrite length_take; lia).
    by apply (lay_sub s t (zlen c) [] (take n c) (drop n c ++ 0 :: spare)). }
  rewrite (Hp s1 c1), (Hp s2 c2) by (done || unfold n; lia). cbn [mbind option_bind].
  destruct (memcmp_lex c1 c2) as [Hm Hz]. fold n in Hm, Hz.
  destruct (Z.eqb_spec (memcmp (take n c1) (take n c2)) 0) as [E|E].
  - eexists. split; [done|]. rewrite (Hz E), Z.gtb_ltb. unfold zlen.
    destruct (Nat.compare_spec (length c1) (length c2)); repeat zdec; done.
  - eexists. split; [done|exact Hm].
Qed.

(** ** Releasing free space, and lengths set by the caller *)

Lemma removefree_spec s c : is_sds s c -> zlen c < 2 ^ 62 ->
  exists s', sdsRemoveFreeSpace s = Some s' /\ is_sds s' c /\ sdsavail s' = Some 0.
Proof.
  intros Hs Hlt. pose proof Hs as (t & spare & H). pose proof (zlen_nonneg c) as Hc0.
  pose proof (lay_sdsavail _ _ _ _ H) as Eav. destruct (lay_flags _ _ _ _ H) as (f & Ef & Em & _).
  pose proof (lay_t _ _ _ _ H) as Ht. pose proof (lay_body _ _ _ _ H) as Hb.
  unfold sdsRemoveFreeSpace. rewrite Ef. cbn [mbind option_bind]. rewrite Em, (lay_sdslen _ _ _ _ H), Eav.
  cbn [mbind option_bind].
  destruct (Z.eqb_spec (if t =? 0 then 0 else zlen (c ++ 0 :: spare) - 1 - zlen c) 0) as [E0|E0].
  { exists s. rewrite Eav, E0. done. }
  assert (Hne : t <> 0) by (intros ->; done). rewrite (proj2 (Z.eqb_neq t 0) Hne) in E0.
  destruct (req_type (zlen c) ltac:(lia)) as (Hty & H5 & Hw). set (ty := sdsReqType (zlen c)) in *.
  assert (Hzc : zlen (c ++ [0]) - 1 = zlen c) by zlia.
  assert (Hfin : forall t' s', lay s' t' (zlen c) (c ++ [0]) -> is_sds s' c /\ sdsavail s' = Some 0).
  { intros t' s' H'. split; [by exists t', []|]. rewrite (lay_sdsavail _ _ _ _ H'), Hzc, Z.sub_diag.
    by destruct (t' =? 0). }
  assert (Hmk : forall t', 1 <= t' <= 4 -> zlen c < 2 ^ (8 * sds_w t') ->
     lay (Sds (sds_hdr t' (zlen c) (zlen c) ++ c ++ [0]) (sdsHdrSize t')) t' (zlen c) (c ++ [0])).
  { intros t' Ht' Hf. pose proof (lay_intro t' (zlen c) (c ++ [0])) as Hl. rewrite Hzc in Hl.
    apply Hl; [lia|lia|lia|done]. }
  destruct ((t =? ty) || (ty >? SDS_TYPE_8)) eqn:Ecase.
  - pose proof (lay_fits _ _ _ _ H Hne) as Hfit. pose proof (lay_eq _ _ _ _ H) as ->. cbn [sh off mbind option_bind].
    replace (sds_hdr t (zlen c) (zlen (c ++ 0 :: spare) - 1) ++ c ++ 0 :: spare)
      with ((sds_hdr t (zlen c) (zlen (c ++ 0 :: spare) - 1) ++ c ++ [0]) ++ spare)
      by (rewrite <- !app_assoc; done).
    rewrite zresize_shrink by (rewrite !zlen_app, zlen_sds_hdr by done; change (zlen [0]) with 1; lia).
    rewrite sds_hdr_wide by lia. rewrite wide_setalloc by (lia || done || apply zlen_le_w; lia).
    rewrite <- sds_hdr_wide by lia. eexists. split; [done|]. apply (Hfin t), Hmk; [lia|].
    rewrite zlen_app in Hfit, Hb. lia.
  - apply orb_false_iff in Ecase as [_ Ety]. rewrite Z.gtb_ltb in Ety. apply Z.ltb_ge in Ety. unfold SDS_TYPE_8 in Ety.
    replace (zlen c + 1) with (zlen (c ++ [0])) by zlia.
    assert (H' : lay s t (zlen c) ([] ++ (c ++ [0]) ++ spare)) by (by rewrite <- app_assoc).
    pose proof (lay_sub s t (zlen c) [] (c ++ [0]) spare H') as Esub. change (zlen (@nil Z)) with 0 in Esub.
    rewrite Esub. cbn [mbind option_bind].
    assert (ty = 0 \/ ty = 1) as [Et|Et] by lia; rewrite Et in *.
    + assert (Ez : raw junk (sdsHdrSize 0 + zlen c + 1) = [junk] ++ raw junk (zlen (c ++ [0]))).
      { change (sdsHdrSize 0) with 1. rewrite <- Z.add_assoc, raw_app by lia. do 2 f_equal. zlia. }
      rewrite Ez. change (sdsHdrSize 0) with 1. unfold s_put. cbn [sh off]. change (1 + 0) with (zlen [junk]).
      rewrite <- (app_nil_r (raw _ _)), zput_app by (done || (rewrite zlen_raw; [done|zlia])). cbn [mbind option_bind].
      pose proof (t5_store junk ((c ++ [0]) ++ []) 0 ltac:(lia)) as E1. unfold set_flags. cbn [off].
      change (Z.lor SDS_TYPE_5 (Z.shiftl 0 SDS_TYPE_BITS)) with 0 in E1. rewrite E1. cbn [mbind option_bind].
      pose proof (t5_setlen (0 * 8) ((c ++ [0]) ++ []) (zlen c) eq_refl ltac:(specialize (H5 eq_refl); lia)) as E2.
      rewrite E2. cbn [mbind option_bind]. rewrite app_nil_r.
      assert (Hl : lay (Sds ([zlen c * 8] ++ c ++ [0]) 1) 0 (zlen c) (c ++ [0])).
      { pose proof (lay_intro 0 (zlen c) (c ++ [0])) as Hl. apply Hl; [lia|lia|done|done]. }
      eexists. split; [|by apply (Hfin 0)].
      unfold sdssetalloc. destruct (lay_flags _ _ _ _ Hl) as (f' & Ef' & Em' & _). rewrite Ef'. cbn [mbind option_bind].
      by rewrite Em'.
    + rewrite raw_wide by lia. unfold s_put. cbn [sh off]. rewrite Z.add_0_r.
      replace (raw junk (zlen c + 1)) with (raw junk (zlen (c ++ [0])) ++ []) by (rewrite app_nil_r; f_equal; zlia).
      rewrite zput_app by (done || (rewrite zlen_raw; [done|zlia])). cbn [mbind option_bind].
      rewrite wide_set_flags by (done || lia). cbn [mbind option_bind].
      rewrite wide_setlen by (done || lia). cbn [mbind option_bind].
      rewrite wide_setalloc by (done || lia || by apply zlen_le_w). rewrite <- sds_hdr_wide by lia.
      rewrite app_nil_r. eexists. split; [done|]. apply (Hfin 1), Hmk; [lia|]. by apply Hw.
Qed.

(** The protocol of [sdsMakeRoomFor] and [sdsIncrLen]: the caller makes room, writes [b] after the
    string and then announces how much was written. *)
Lemma incrlen_spec s t c b x B : lay s t (zlen c) (c ++ b ++ x :: B) -> t <> 0 -> zlen c + zlen b < 2 ^ 31 ->
  exists s', sdsIncrLen s (zlen b) = Some s' /\ is_sds s' (c ++ b).
Proof.
  intros H Hne Hlt. pose proof (lay_t _ _ _ _ H) as Ht. pose proof (zlen_nonneg b) as Hb0. pose proof (zlen_nonneg c) as Hc0.
  destruct (lay_flags _ _ _ _ H) as (f & Ef & Em & _). unfold sdsIncrLen. rewrite Ef. cbn [mbind option_bind]. rewrite Em.
  assert (Hi : forall cp cn, cp (zlen b) = zlen b -> exists s1, hdr_incrlen (sds_w t) cp cn s (zlen b) = Some (s1, zlen c + zlen b) /\
     lay s1 t (zlen c + zlen b) (c ++ b ++ x :: B)).
  { intros cp cn Hcp. unfold hdr_incrlen. destruct (lay_fields _ _ _ _ H Hne) as [El Ea]. rewrite Ea, El.
    cbn [mbind option_bind]. rewrite !Z.geb_leb, Hcp.
    assert (0 <= zlen b /\ zlen b <= zlen (c ++ b ++ x :: B) - 1 - zlen c) as [Hq1 Hq2] by zlia.
    repeat zdec. cbn [andb orb assert_ mbind option_bind].
    destruct (lay_setlen s t _ _ (zlen c + zlen b) H) as (s1 & E1 & H1); [zlia|done|].
    exists s1. split; [|done].
    assert (E1' : set_hdr_len (sds_w t) s (zlen c + zlen b) = Some s1).
    { rewrite <- E1. unfold sdssetlen. rewrite Ef. cbn [mbind option_bind]. rewrite Em. tcases Ht; done. }
    rewrite E1'. cbn [mbind option_bind]. by rewrite (proj1 (lay_fields _ _ _ _ H1 Hne)). }
  assert (Hu : u32 (zlen b) = zlen b /\ u64 (zlen b) = zlen b) by (split; apply uwrap_small; unfold urange; lia).
  assert (exists s1, (match t with
    | 0 => _ ← assert_ ((zlen b >? 0) && (SDS_TYPE_5_LEN f + zlen b <? 32) || (zlen b <? 0) && (SDS_TYPE_5_LEN f >=? u32 (- zlen b)));
           s0 ← set_flags s (Z.lor SDS_TYPE_5 (Z.shiftl (SDS_TYPE_5_LEN f + zlen b) SDS_TYPE_BITS));
           Some (s0, SDS_TYPE_5_LEN f + zlen b)
    | 1 => hdr_incrlen 1 id u32 s (zlen b) | 2 => hdr_incrlen 2 id u32 s (zlen b)
    | 3 => hdr_incrlen 4 u32 u32 s (zlen b) | 4 => hdr_incrlen 8 u64 u64 s (zlen b) | _ => Some (s, 0) end)
      = Some (s1, zlen c + zlen b) /\ lay s1 t (zlen c + zlen b) (c ++ b ++ x :: B)) as (s1 & E1 & H1).
  { destruct Hu. tcases Ht; [done|by apply Hi|by apply Hi|by apply Hi|by apply Hi]. }
  cbv zeta. rewrite E1. cbn [mbind option_bind]. rewrite (app_assoc c b) in H1. rewrite <- zlen_app in *.
  destruct (lay_put s1 t _ (c ++ b) [x] B [0] (zlen (c ++ b)) H1 eq_refl eq_refl) as (s2 & E2 & H2).
  exists s2. split; [done|]. by exists t, B.
Qed.

(** * The interface of the string library

    What the functions built on top of [sds] rely on: creation and concatenation, and what they
    mean for the content.  [limit] bounds the strings for which the library promises to work. *)

Class StringLib (S : Type) := {
  lib_newlen : bytes -> option S;
  lib_catlen : S -> bytes -> option S;
  lib_holds : S -> bytes -> Prop;
}.

Definition sds_limit : Z := 2 ^ 62.

Class StringLaws (S : Type) `{StringLib S} := {
  law_newlen b : zlen b < sds_limit -> exists s, lib_newlen b = Some s /\ lib_holds s b;
  law_catlen s c b : lib_holds s c -> zlen c + zlen b < sds_limit ->
    exists s', lib_catlen s b = Some s' /\ lib_holds s' (c ++ b);
}.

#[export] Instance sds_lib : StringLib sds := {
  lib_newlen b := sdsnewlen (Some b) (zlen b);
  lib_catlen := sdscatlen;
  lib_holds := is_sds;
}.

#[export] Instance sds_laws : StringLaws sds.
Proof.
  split; unfold sds_limit.
  - intros b Hb. apply sdsnewlen_spec. lia.
  - intros s c b Hs Hb. by apply sdscatlen_spec.
Qed.

(** * Theorems *)

(** C31. The functions that create and grow strings compute the byte-string operations: whatever
    the header type and free space, [sdsnewlen], [sdsdup], [sdscatlen], [sdscatsds], [sdscpylen],
    [sdsgrowzero], [sdsclear] and [sdsRemoveFreeSpace] succeed, stay inside their allocation and
    leave a NUL-terminated string with exactly the expected bytes and a header that records its
    length and allocation (total sizes below 2^62). *)
Theorem sds_growth_refines s c s2 b n : is_sds s c -> is_sds s2 b -> zlen c + zlen b < 2 ^ 62 ->
  0 <= n < 2 ^ 62 ->
  sdslen s = Some (zlen c) /\ s_sub s 0 (zlen c) = Some c /\
  (exists s', sdsnewlen (Some b) (zlen b) = Some s' /\ is_sds s' b) /\
  (exists s', sdsdup s = Some s' /\ is_sds s' c) /\
  (exists s', sdscatlen s b = Some s' /\ is_sds s' (c ++ b)) /\
  (exists s', sdscatsds s s2 = Some s' /\ is_sds s' (c ++ b)) /\
  (exists s', sdscpylen s b = Some s' /\ is_sds s' b) /\
  (exists s', sdsgrowzero s n = Some s' /\ is_sds s' (c ++ zeros (n - zlen c))) /\
  (exists s', sdsclear s = Some s' /\ is_sds s' []) /\
  (exists s', sdsRemoveFreeSpace s = Some s' /\ is_sds s' c /\ sdsavail s' = Some 0).
Proof.
  intros Hs Hs2 Hlt Hn. pose proof (zlen_nonneg c). pose proof (zlen_nonneg b). split_and!.
  - by apply is_sds_len.
  - by apply is_sds_bytes.
  - apply sdsnewlen_spec. lia.
  - apply sdsdup_spec; [done|lia].
  - by apply sdscatlen_spec.
  - unfold sdscatsds. rewrite (is_sds_len _ _ Hs2). cbn [mbind option_bind].
    rewrite (is_sds_bytes _ _ Hs2). cbn [mbind option_bind]. by apply sdscatlen_spec.
  - apply (sdscpylen_spec _ c); [done|lia|lia].
  - apply sdsgrowzero_spec; [done|lia|lia].
  - by eapply sdsclear_spec.
  - apply removefree_spec; [done|lia].
Qed.

(** A type-8 string holding three bytes with five to spare. *)
Definition sample_sds : sds := Sds [3; 8; 1; 65; 98; 32; 0; 0; 0; 0; 0; 0] 3.

Lemma sample_is_sds : is_sds sample_sds [65; 98; 32].
Proof. exists 1, [0; 0; 0; 0; 0]. split; vm_compute; (done || (split; congruence) || congruence). Qed.

Lemma sds_growth_refines_witness :
  exists s', sdscatlen sample_sds [65; 98; 32] = Some s' /\ is_sds s' [65; 98; 32; 65; 98; 32].
Proof.
  pose proof (sds_growth_refines sample_sds [65; 98; 32] sample_sds [65; 98; 32] 0 sample_is_sds sample_is_sds
    eq_refl ltac:(lia)) as (_ & _ & _ & _ & H & _).
  exact H.
Defined.

(** The functions that edit a string in place compute the byte-string operations: [sdstrim]
    removes the longest prefix and suffix of bytes of the set (the terminating NUL counts as a
    member, since [strchr] finds it), [sdsrange] keeps the bytes between two inclusive indexes for
    every pair of 64-bit indexes, the case and character maps apply bytewise, and the sign of
    [sdscmp] is the lexicographic order. *)
Theorem sds_edit_refines s c s2 c2 cset start e from to :
  is_sds s c -> is_sds s2 c2 -> zlen c < 2 ^ 62 -> srange 64 start -> srange 64 e ->
  (exists s', sdstrim s cset = Some s' /\ is_sds s' (trimmed (in_cset cset) c)) /\
  (exists s', sdsrange s start e = Some s' /\ is_sds s' (range_of c start e)) /\
  (exists s', sdstolower s = Some s' /\ is_sds s' (map tolower c)) /\
  (exists s', sdstoupper s = Some s' /\ is_sds s' (map toupper c)) /\
  (exists s', sdsmapchars s from to = Some s' /\ is_sds s' (map (map_char from to) c)) /\
  (exists r, sdscmp s s2 = Some r /\ (r ?= 0) = lex c c2 /\ (r = 0 <-> c = c2)).
Proof.
  intros Hs Hs2 Hlt Hst He. split_and!.
  - by apply sdstrim_spec.
  - by apply sdsrange_spec.
  - by apply map_content.
  - by apply map_content.
  - by apply map_content.
  - destruct (sdscmp_spec _ _ _ _ Hs Hs2) as (r & E & Hr). exists r. split_and!; [done|done|].
    rewrite <- lex_eq, <- Hr. symmetry. apply Z.compare_eq_iff.
Qed.

Lemma sds_edit_refines_witness :
  exists s', sdsrange sample_sds (-2) (-1) = Some s' /\ is_sds s' [98; 32].
Proof.
  destruct (sds_edit_refines sample_sds _ sample_sds _ [] (-2) (-1) [] [] sample_is_sds sample_is_sds)
    as (_ & H & _); [done|split; done|split; done|].
  exact H.
Defined.

(** The read protocol documented with [sdsIncrLen]: after [sdsMakeRoomFor] the caller may
    write up to the requested number of bytes after the string and then announce how many it
    wrote; the result is the string with exactly these bytes appended.  The room is really there:
    the writes stay inside the allocation. *)
Theorem sds_read_protocol s c n b : is_sds s c -> 0 < n -> zlen c + n < 2 ^ 31 -> zlen b <= n ->
  exists s1 s2 s3, sdsMakeRoomFor s n = Some s1 /\ s_put s1 (zlen c) b = Some s2 /\
    sdsIncrLen s2 (zlen b) = Some s3 /\ is_sds s3 (c ++ b) /\ is_sds s1 c.
Proof.
  intros (t & spare & H) Hn Hlt Hb. pose proof (zlen_nonneg b).
  destruct (makeroom_spec s t c (0 :: spare) n H) as (s1 & t1 & sp & E1 & H1 & Hsp & Htk & H5); [lia..|].
  destruct (zsplit3 sp (zlen b) 1) as (M & X & B & Esp & HM & HX); [lia..|].
  destruct (zlen_1_inv X HX) as [x ->].
  assert (Hs1 : is_sds s1 c) by (destruct sp as [|y sp]; [done|]; injection Htk as ->; by exists t1, sp).
  rewrite Esp in H1.
  destruct (lay_put s1 t1 (zlen c) c M ([x] ++ B) b (zlen c) H1 eq_refl (eq_sym HM)) as (s2 & E2 & H2).
  destruct (incrlen_spec s2 t1 c b x B H2) as (s3 & E3 & H3); [intros E0; specialize (H5 E0); lia|lia|].
  exists s1, s2, s3. done.
Qed.

Lemma sds_read_protocol_witness :
  exists s1 s2 s3, sdsMakeRoomFor sample_sds 300 = Some s1 /\ s_put s1 3 [66; 67] = Some s2 /\
    sdsIncrLen s2 2 = Some s3 /\ is_sds s3 [65; 98; 32; 66; 67] /\ is_sds s1 [65; 98; 32].
Proof.
  apply (sds_read_protocol sample_sds [65; 98; 32] 300 [66; 67] sample_is_sds); [lia|done|done].
Defined.
