(* ===== verification/SdsText.v ===== *)
(** Functions built on dynamic strings (the rest of sds.c): quoting ([sdscatrepr]) and its parser
    ([sdssplitargs]), splitting and joining, and number conversion.

    They are written against the interface [StringLib] of the string library and verified from its
    laws, so the theorems hold for the allocation-level implementation of Sds.v (instance
    [sds_laws]) and for any other that satisfies them.  A C string argument is the list of its
    bytes, the NUL excluded; reading one byte past the end gives that NUL. *)

From Stdlib Require Import String.
From S2P Require Import Prelude Util Sds.
#[local] Open Scope list_scope.
#[local] Open Scope Z_scope.

(** * Characters *)

Definition ch_bs : Z := 92.     (* backslash *)
Definition ch_dq : Z := 34.     (* double quote *)
Definition ch_sq : Z := 39.     (* single quote *)
Definition ch_x : Z := 120.

(** The C locale. *)
Definition isprint (c : Z) : bool := (32 <=? c) && (c <=? 126).
Definition isspace (c : Z) : bool := (c =? 32) || ((9 <=? c) && (c <=? 13)).

Definition is_hex_digit (c : Z) : bool :=
  ((48 <=? c) && (c <=? 57)) || ((97 <=? c) && (c <=? 102)) || ((65 <=? c) && (c <=? 70)).

Definition hex_digit_to_int (c : Z) : Z :=
  if (48 <=? c) && (c <=? 57) then c - 48
  else match c with
       | 97 | 65 => 10 | 98 | 66 => 11 | 99 | 67 => 12
       | 100 | 68 => 13 | 101 | 69 => 14 | 102 | 70 => 15
       | _ => 0
       end.

(** ["%02x"] of a byte. *)
Definition hex_char (n : Z) : Z := if n <? 10 then 48 + n else 97 + (n - 10).
Definition hex2 (b : Z) : bytes := [hex_char (b / 16); hex_char (b mod 16)].

(** The character an escape in double quotes stands for. *)
Definition unescape (c : Z) : Z :=
  match c with 110 => 10 | 114 => 13 | 116 => 9 | 98 => 8 | 97 => 7 | _ => c end.

(** The bytes one iteration of the loop of [sdscatrepr] appends. *)
Definition repr_char (c : Z) : bytes :=
  if (c =? ch_bs) || (c =? ch_dq) then [ch_bs; c]
  else match c with
       | 10 => str "\n" | 13 => str "\r" | 9 => str "\t" | 7 => str "\a" | 8 => str "\b"
       | _ => if isprint c then [c] else str "\x" ++ hex2 c
       end.

Section Text.
Context {S : Type} `{Hlib : StringLib S}.

(** * [sdscatrepr] *)

Fixpoint catrepr_loop (s : S) (p : bytes) : option S :=
  match p with
  | [] => Some s
  | c :: p => s ← lib_catlen s (repr_char c); catrepr_loop s p
  end.

Definition sdscatrepr (s : S) (p : bytes) : option S :=
  s ← lib_catlen s [ch_dq];
  s ← catrepr_loop s p;
  lib_catlen s [ch_dq].

(** * [sdssplitargs] *)

Inductive token := TokErr | TokDone (rest : bytes) (current : S).

(** [while(!done)]: [p] is what is left of the line. *)
Fixpoint token_loop (fuel : nat) (p : bytes) (inq insq : bool) (current : S) : option token :=
  match fuel with
  | O => None
  | Datatypes.S fuel =>
      let close rest :=
        match rest with
        | c :: _ => if isspace c then Some (TokDone rest current) else Some TokErr
        | [] => Some (TokDone rest current)
        end in
      let append b rest := current ← lib_catlen current b; token_loop fuel rest inq insq current in
      if inq then
        match p with
        | c0 :: c1 :: rest =>
            if (c0 =? ch_bs) && (c1 =? ch_x) &&
               match rest with h1 :: h2 :: _ => is_hex_digit h1 && is_hex_digit h2 | _ => false end
            then
              match rest with
              | h1 :: h2 :: rest => append [u8 (hex_digit_to_int h1 * 16 + hex_digit_to_int h2)] rest
              | _ => None
              end
            else if c0 =? ch_bs then
              append [unescape c1] rest
            else if c0 =? ch_dq then close (c1 :: rest)
            else append [c0] (c1 :: rest)
        | [c0] => if c0 =? ch_dq then close [] else append [c0] []
        | [] => Some TokErr
        end
      else if insq then
        match p with
        | c0 :: rest =>
            if (c0 =? ch_bs) && match rest with c1 :: _ => c1 =? ch_sq | [] => false end
            then append [ch_sq] (tail rest)
            else if c0 =? ch_sq then close rest
            else append [c0] rest
        | [] => Some TokErr
        end
      else
        match p with
        | [] => Some (TokDone [] current)
        | c :: rest =>
            if (c =? 32) || (c =? 10) || (c =? 13) || (c =? 9) then Some (TokDone rest current)
            else if c =? ch_dq then token_loop fuel rest true insq current
            else if c =? ch_sq then token_loop fuel rest inq true current
            else append [c] rest
        end
  end.

(** Skipping blanks: [while ( *p && isspace( *p)) p++]. *)
Fixpoint skip_blanks (p : bytes) : bytes :=
  match p with
  | c :: q => if isspace c then skip_blanks q else p
  | [] => []
  end.

(** The outer loop; [Some None] is the NULL result. *)
Fixpoint splitargs_loop (fuel : nat) (p : bytes) (vector : list S) : option (option (list S)) :=
  match fuel with
  | O => None
  | Datatypes.S fuel =>
      match skip_blanks p with
      | [] => Some (Some vector)
      | p =>
          current ← lib_newlen [];
          r ← token_loop (Datatypes.S (length p)) p false false current;
          match r with
          | TokErr => Some None
          | TokDone rest current => splitargs_loop fuel rest (vector ++ [current])
          end
      end
  end.

Definition sdssplitargs (line : bytes) : option (option (list S)) :=
  splitargs_loop (Datatypes.S (length line)) line [].

(** * Splitting and joining *)

(** The loop of [sdssplitlen]; [n] iterations remain at most. *)
Fixpoint split_loop (fuel : nat) (s sep : bytes) (j start : Z) (tokens : list S)
    : option (Z * list S) :=
  match fuel with
  | O => None
  | Datatypes.S fuel =>
      if j <? zlen s - (zlen sep - 1) then
        w ← zsub s j (zlen sep);
        if bool_decide (w = sep) then
          b ← zsub s start (j - start);
          t ← lib_newlen b;
          split_loop fuel s sep (j + zlen sep - 1 + 1) (j + zlen sep) (tokens ++ [t])
        else split_loop fuel s sep (j + 1) start tokens
      else Some (start, tokens)
  end.

(** [Some None] is NULL; otherwise the array, whose length is [*count]. *)
Definition sdssplitlen (s sep : bytes) : option (option (list S)) :=
  if zlen sep <? 1 then Some None
  else if zlen s =? 0 then Some (Some [])
  else
    '(start, tokens) ← split_loop (Datatypes.S (length s)) s sep 0 0 [];
    b ← zsub s start (zlen s - start);
    t ← lib_newlen b;
    Some (Some (tokens ++ [t])).

(** [for (j = 0; j < argc; j++)] over the remaining arguments. *)
Fixpoint join_loop (join : S) (argv : list bytes) (sep : bytes) : option S :=
  match argv with
  | [] => Some join
  | a :: rest =>
      join ← lib_catlen join a;
      join ← (match rest with [] => Some join | _ => lib_catlen join sep end);
      join_loop join rest sep
  end.

(** [sdsjoin] over C strings, [sdsjoinsds] over the contents of strings. *)
Definition sdsjoin (argv : list bytes) (sep : bytes) : option S :=
  join ← lib_newlen []; join_loop join argv sep.
Definition sdsjoinsds (argv : list bytes) (sep : bytes) : option S :=
  join ← lib_newlen []; join_loop join argv sep.
End Text.

(** * Number conversion *)

(** [do { *p++ = '0'+(v%10); v /= 10; } while(v)]: the buffer and [p]. *)
Fixpoint digits_loop (fuel : nat) (buf : bytes) (p v : Z) : option (bytes * Z) :=
  match fuel with
  | O => None
  | S fuel =>
      buf ← zput buf p [48 + v mod 10];
      let v := v / 10 in
      if v =? 0 then Some (buf, p + 1) else digits_loop fuel buf (p + 1) v
  end.

(** [while(s < p) { swap *s, *p; s++; p--; }]. *)
Fixpoint reverse_loop (fuel : nat) (buf : bytes) (s p : Z) : option bytes :=
  match fuel with
  | O => None
  | S fuel =>
      if s <? p then
        aux ← zget buf s;
        y ← zget buf p;
        buf ← zput buf s [y];
        buf ← zput buf p [aux];
        reverse_loop fuel buf (s + 1) (p - 1)
      else Some buf
  end.

(** The negation of [LLONG_MIN] is taken modulo 2^64, as compilers do. *)
Definition sdsll2str (buf : bytes) (value : Z) : option (bytes * Z) :=
  let v := if value <? 0 then u64 (- value) else value in
  '(buf, p) ← digits_loop 20 buf 0 v;
  '(buf, p) ← (if value <? 0 then buf ← zput buf p [ch_minus]; Some (buf, p + 1) else Some (buf, p));
  let l := p in
  buf ← zput buf p [0];
  buf ← reverse_loop (S (length buf)) buf 0 (p - 1);
  Some (buf, l).

Definition sdsull2str (buf : bytes) (v : Z) : option (bytes * Z) :=
  '(buf, p) ← digits_loop 20 buf 0 v;
  let l := p in
  buf ← zput buf p [0];
  buf ← reverse_loop (S (length buf)) buf 0 (p - 1);
  Some (buf, l).

Definition SDS_LLSTR_SIZE : Z := 21.

Definition sdsfromlonglong (value : Z) : option sds :=
  '(buf, len) ← sdsll2str (replicate 21 0) value;
  b ← zsub buf 0 len;
  sdsnewlen (Some b) len.

Example splitargs_ex : exists a b c,
  sdssplitargs (str "set " ++ [ch_dq] ++ str "k\x41\n" ++ [ch_dq] ++ str " 'it\'s'") = Some (Some [a; b; c]) /\
  s_sub a 0 3 = Some (str "set") /\ s_sub b 0 3 = Some [107; 65; 10] /\ s_sub c 0 4 = Some (str "it's").
Proof. do 3 eexists. split; [vm_compute; reflexivity|]. repeat split; vm_compute; reflexivity. Qed.
Example split_ex : exists a b, sdssplitlen (str "foo_-_bar") (str "_-_") = Some (Some [a; b]) /\
  s_sub a 0 3 = Some (str "foo") /\ s_sub b 0 3 = Some (str "bar").
Proof. do 2 eexists. split; [vm_compute; reflexivity|]. repeat split; vm_compute; reflexivity. Qed.
Example ll2str_ex : sdsll2str (replicate 21 7) (-9223372036854775808) =
  Some (str "-9223372036854775808" ++ [0], 20).
Proof. vm_compute. reflexivity. Qed.

(** * Quoting and parsing *)

Lemma repr_char_cases b : byte_ok b ->
  (exists e, repr_char b = [ch_bs; e] /\ e <> ch_x /\ unescape e = b) \/
  (repr_char b = [b] /\ b <> ch_bs /\ b <> ch_dq) \/
  (exists h l, repr_char b = [ch_bs; ch_x; h; l] /\ is_hex_digit h = true /\ is_hex_digit l = true /\
     u8 (hex_digit_to_int h * 16 + hex_digit_to_int l) = b).
Proof.
  intros Hb.
  pose proof (byte_forall (fun b => match repr_char b with
    | [c] => (c =? b) && negb (c =? ch_bs) && negb (c =? ch_dq)
    | [c; e] => (c =? ch_bs) && negb (e =? ch_x) && (unescape e =? b)
    | [c; x; h; l] => (c =? ch_bs) && (x =? ch_x) && is_hex_digit h && is_hex_digit l &&
        (u8 (hex_digit_to_int h * 16 + hex_digit_to_int l) =? b)
    | _ => false end) eq_refl b Hb) as T. cbv beta in T.
  destruct (repr_char b) as [|c [|e [|h [|l [|]]]]]; try done; zb; subst; eauto 10.
Qed.

(** What [sdscatrepr] appends for [p]. *)
Definition quoted (p : bytes) : bytes := ch_dq :: flat_map repr_char p ++ [ch_dq].

Lemma repr_char_ok b : byte_ok b -> Forall (fun c => 0 < c < 256) (repr_char b) /\ zlen (repr_char b) <= 4.
Proof.
  intros Hb.
  pose proof (byte_forall (fun b => forallb (fun c => (0 <? c) && (c <? 256)) (repr_char b) &&
    (zlen (repr_char b) <=? 4)) eq_refl b Hb) as T. cbv beta in T.
  apply andb_true_iff in T as [T1 T2]. zb. split; [|done].
  rewrite forallb_forall in T1. apply list.Forall_forall. intros x Hx.
  apply list_elem_of_In, T1 in Hx. zb. lia.
Qed.

Lemma repr_char_pos b : byte_ok b -> 1 <= zlen (repr_char b).
Proof. by intros [(e & -> & _)|[(-> & _)|(h & l & -> & _)]]%repr_char_cases. Qed.

Lemma quoted_ok p : bytes_ok p ->
  Forall (fun c => 0 < c < 256) (quoted p) /\ zlen p + 2 <= zlen (quoted p) <= 4 * zlen p + 2.
Proof.
  intros Hp. unfold quoted.
  assert (Forall (fun c => 0 < c < 256) (flat_map repr_char p) /\
    zlen p <= zlen (flat_map repr_char p) <= 4 * zlen p) as [Hf Hl].
  { induction Hp as [|b p Hb Hp [IHf IHl]]; [done|]. cbn [flat_map].
    destruct (repr_char_ok b Hb) as [? ?]. pose proof (repr_char_pos b Hb).
    split; [by apply Forall_app|zlia]. }
  split; [|zlia]. apply list.Forall_cons. split; [done|]. apply Forall_app. split; [done|].
  by repeat constructor.
Qed.

Section Quoting.
Context {S : Type} `{Hlaws : StringLaws S}.
#[local] Set Default Proof Using "All".

Lemma catrepr_loop_holds p : forall s c,
  lib_holds s c -> bytes_ok p -> zlen c + zlen (flat_map repr_char p) < sds_limit ->
  exists s', catrepr_loop s p = Some s' /\ lib_holds s' (c ++ flat_map repr_char p).
Proof.
  induction p as [|b p IH]; intros s c Hs Hp Hlim; [rewrite app_nil_r; eauto|].
  cbn [flat_map] in *. inversion Hp; subst. cbn [catrepr_loop].
  destruct (law_catlen s c (repr_char b)) as (s1 & -> & Hs1); [done|zlia|].
  cbn [mbind option_bind].
  destruct (IH s1 (c ++ repr_char b)) as (s' & -> & Hs'); [done..|zlia|].
  rewrite <- app_assoc in Hs'. eauto.
Qed.

Lemma sdscatrepr_holds s c p :
  lib_holds s c -> bytes_ok p -> zlen c + zlen (quoted p) < sds_limit ->
  exists s', sdscatrepr s p = Some s' /\ lib_holds s' (c ++ quoted p).
Proof.
  unfold quoted. intros Hs Hp Hlim. unfold sdscatrepr.
  destruct (law_catlen s c [ch_dq]) as (s1 & -> & Hs1); [done|zlia|]. cbn [mbind option_bind].
  destruct (catrepr_loop_holds p s1 (c ++ [ch_dq])) as (s2 & -> & Hs2); [done..|zlia|].
  cbn [mbind option_bind].
  destruct (law_catlen s2 _ [ch_dq] Hs2) as (s' & -> & Hs'); [zlia|].
  rewrite <- !app_assoc in Hs'. eauto.
Qed.

(** One byte of the quoted form inside the quotes. *)
Lemma token_loop_repr b fuel r rest cur : byte_ok b ->
  token_loop (Datatypes.S fuel) (repr_char b ++ r :: rest) true false cur =
  (cur ← lib_catlen cur [b]; token_loop fuel (r :: rest) true false cur).
Proof.
  intros Hb. destruct (repr_char_cases b Hb) as [(e & -> & He & <-)|[(-> & Hb1 & Hb2)|(h & l & -> & Hh & Hl & <-)]];
    cbn [app token_loop].
  - by rewrite (proj2 (Z.eqb_neq e ch_x)) by done.
  - by rewrite (proj2 (Z.eqb_neq b ch_bs)), (proj2 (Z.eqb_neq b ch_dq)) by done.
  - by rewrite Hh, Hl.
Qed.

Definition blank_or_end (rest : bytes) : Prop :=
  match rest with [] => True | c :: _ => isspace c = true end.

Lemma token_loop_quoted p : forall fuel rest cur c,
  lib_holds cur c -> bytes_ok p -> zlen c + zlen p < sds_limit -> blank_or_end rest ->
  (length p < fuel)%nat ->
  exists cur', token_loop fuel (flat_map repr_char p ++ ch_dq :: rest) true false cur =
    Some (TokDone rest cur') /\ lib_holds cur' (c ++ p).
Proof.
  induction p as [|b p IH]; intros fuel rest cur c Hc Hp Hlim Hrest Hf; (destruct fuel as [|fuel]; [lia|]).
  - exists cur. rewrite app_nil_r. split; [|done]. destruct rest as [|r rest]; [done|].
    cbn in Hrest. cbn [flat_map app token_loop]. by rewrite Hrest.
  - inversion Hp; subst. cbn [flat_map]. rewrite <- app_assoc.
    assert (exists r q, flat_map repr_char p ++ ch_dq :: rest = r :: q) as (r & q & E)
      by (destruct (flat_map repr_char p); cbn; eauto).
    rewrite E, token_loop_repr, <- E by done.
    destruct (law_catlen cur c [b]) as (cur1 & -> & Hc1); [done|zlia|]. cbn [mbind option_bind].
    destruct (IH fuel rest cur1 (c ++ [b])) as (cur' & -> & Hc'); [done..|zlia|done|simpl in Hf; lia|].
    rewrite <- app_assoc in Hc'. eauto.
Qed.

(** A line of quoted arguments. *)
Fixpoint quoted_line (args : list bytes) : bytes :=
  match args with
  | [] => []
  | [a] => quoted a
  | a :: args => quoted a ++ [32] ++ quoted_line args
  end.

Lemma splitargs_loop_quoted args : forall fuel p vec,
  Forall bytes_ok args -> Forall (fun a => zlen a < sds_limit) args ->
  skip_blanks p = quoted_line args -> (length args < fuel)%nat ->
  exists vec', splitargs_loop fuel p vec = Some (Some (vec ++ vec')) /\ Forall2 lib_holds vec' args.
Proof.
  induction args as [|a args IH]; intros fuel p vec Hok Hlim Hp Hf; (destruct fuel as [|fuel]; [lia|]);
    cbn [splitargs_loop]; rewrite Hp.
  - exists []. by rewrite app_nil_r.
  - apply list.Forall_cons in Hok as [Ha Hok]. apply list.Forall_cons in Hlim as [Hla Hlim].
    assert (exists rest, quoted_line (a :: args) = quoted a ++ rest /\ blank_or_end rest /\
      skip_blanks rest = quoted_line args) as (rest & E & Hrest & Hskip).
    { destruct args as [|a' args]; [exists []; by rewrite app_nil_r|].
      eexists. split; [done|]. split; [done|]. by destruct args. }
    rewrite E. unfold quoted. cbn [app]. rewrite <- app_assoc. cbn [app].
    destruct (law_newlen []) as (cur & -> & Hcur); [done|]. cbn [mbind option_bind].
    cbn [token_loop]. change (ch_dq =? 32) with false. change (ch_dq =? 10) with false.
    change (ch_dq =? 13) with false. change (ch_dq =? 9) with false.
    change (ch_dq =? ch_dq) with true. cbn [orb].
    destruct (token_loop_quoted a (length (ch_dq :: flat_map repr_char a ++ ch_dq :: rest)) rest cur [])
      as (cur' & -> & Hcur'); [done..| |].
    { destruct (quoted_ok a Ha) as [_ Hq]. unfold quoted in Hq. unfold zlen in Hq. simpl in *.
      rewrite length_app in *. simpl in *. lia. }
    cbn [mbind option_bind].
    destruct (IH fuel rest (vec ++ [cur'])) as (vec' & -> & Hv); [done..|simpl in Hf; lia|].
    exists (cur' :: vec'). rewrite <- app_assoc. split; [done|]. by constructor.
Qed.

(** ** The parser terminates on every line *)

Definition consumes (p : bytes) (r : token (S := S)) : Prop :=
  match r with TokErr => True | TokDone rest _ => (length rest <= pred (length p))%nat end.

Lemma token_loop_total fuel : forall p inq insq cur c,
  lib_holds cur c -> zlen c + zlen p < sds_limit -> (length p < fuel)%nat ->
  exists r, token_loop fuel p inq insq cur = Some r /\ consumes p r.
Proof.
  induction fuel as [|fuel IH]; intros p inq insq cur c Hc Hlim Hf; [lia|].
  assert (Happ : forall q b inq insq, (length q < length p)%nat ->
    exists r, (cur ← lib_catlen cur [b]; token_loop fuel q inq insq cur) = Some r /\ consumes p r).
  { intros q b inq' insq' Hq.
    destruct (law_catlen cur c [b]) as (cur1 & -> & Hc1); [done|unfold zlen in *; simpl; lia|].
    cbn [mbind option_bind].
    destruct (IH q inq' insq' cur1 (c ++ [b])) as (r & -> & Hr); [done|unfold zlen in *; rewrite length_app; simpl; lia|lia|].
    exists r. split; [done|]. destruct r; [done|]. simpl in *. lia. }
  assert (Hgo : forall q inq insq, (length q < length p)%nat ->
    exists r, token_loop fuel q inq insq cur = Some r /\ consumes p r).
  { intros q inq' insq' Hq.
    destruct (IH q inq' insq' cur c) as (r & -> & Hr); [done|unfold zlen in *; lia|lia|].
    exists r. split; [done|]. destruct r; [done|]. simpl in *. lia. }
  assert (Hclose : forall q, (length q < length p)%nat -> exists r,
    match q with
    | c :: _ => if isspace c then Some (TokDone q cur) else Some TokErr
    | [] => Some (TokDone q cur)
    end = Some r /\ consumes p r).
  { intros q Hq. destruct q as [|x q]; [|destruct (isspace x)]; eexists; (split; [done|]); simpl in *; done || lia. }
  cbn [token_loop]. destruct inq; [|destruct insq].
  - destruct p as [|c0 [|c1 rest]]; [by exists TokErr|..].
    + destruct (c0 =? ch_dq); [apply (Hclose [])|apply Happ]; simpl; lia.
    + destruct (_ && _ && _) eqn:E.
      * destruct rest as [|h1 [|h2 rest]]; [by rewrite !andb_false_r in E..|].
        apply Happ. simpl. lia.
      * destruct (c0 =? ch_bs); [apply Happ; simpl; lia|].
        destruct (c0 =? ch_dq); [apply (Hclose (c1 :: rest))|apply Happ]; simpl; lia.
  - destruct p as [|c0 rest]; [by exists TokErr|].
    destruct (_ && _); [apply Happ; destruct rest; simpl; lia|].
    destruct (c0 =? ch_sq); [apply Hclose|apply Happ]; simpl; lia.
  - destruct p as [|c0 rest]; [eexists; split; [done|]; simpl; lia|].
    destruct (_ || _ || _ || _); [eexists; split; [done|]; simpl; lia|].
    destruct (c0 =? ch_dq); [apply Hgo; simpl; lia|].
    destruct (c0 =? ch_sq); [apply Hgo|apply Happ]; simpl; lia.
Qed.

Lemma skip_blanks_length p : (length (skip_blanks p) <= length p)%nat.
Proof. induction p as [|c p IH]; [done|]. simpl. destruct (isspace c); simpl; lia. Qed.

Lemma splitargs_loop_total fuel : forall p vec,
  zlen p < sds_limit -> (length p < fuel)%nat -> is_Some (splitargs_loop fuel p vec).
Proof.
  induction fuel as [|fuel IH]; intros p vec Hlim Hf; [lia|]. cbn [splitargs_loop].
  pose proof (skip_blanks_length p) as Hs. destruct (skip_blanks p) as [|x q]; [by eexists|].
  destruct (law_newlen []) as (cur & -> & Hcur); [done|]. cbn [mbind option_bind].
  destruct (token_loop_total (Datatypes.S (length (x :: q))) (x :: q) false false cur []) as (r & -> & Hr);
    [done|unfold zlen in *; simpl in *; lia|lia|].
  cbn [mbind option_bind]. destruct r as [|rest cur']; [by eexists|]. simpl in *.
  apply IH; unfold zlen in *; simpl in *; lia.
Qed.
End Quoting.

Lemma quoted_line_ok args : Forall bytes_ok args ->
  Forall (fun c => 0 < c < 256) (quoted_line args) /\ (length args <= length (quoted_line args))%nat.
Proof.
  induction 1 as [|a args Ha Hargs [IH IHl]]; [by split; [constructor|]|].
  destruct (quoted_ok a Ha) as [? Hl]. destruct args as [|b args].
  - split; [done|]. unfold zlen in Hl. cbn [quoted_line length] in *. lia.
  - change (quoted_line (a :: b :: args)) with (quoted a ++ [32] ++ quoted_line (b :: args)).
    split; [apply Forall_app; split; [done|]; by apply Forall_app; split; [repeat constructor|]|].
    rewrite !length_app. unfold zlen in Hl. cbn [length] in *. lia.
Qed.

(** C32. Quoting and parsing are inverse: [sdscatrepr] appends the quoted form of any byte string
    (NULs, quotes, control and non-ASCII bytes included), a line of quoted arguments contains no
    NUL, so it is a C string, and [sdssplitargs] splits it back into strings that hold exactly the
    arguments; on any line at all [sdssplitargs] terminates without reading past its end. *)
Theorem splitargs_inverts_catrepr {S} `{StringLaws S} (args : list bytes) (line : bytes) :
  Forall bytes_ok args -> Forall (fun a => zlen (quoted a) < sds_limit) args -> zlen line < sds_limit ->
  (forall s c a, a ∈ args -> lib_holds s c -> zlen c + zlen (quoted a) < sds_limit ->
     exists s', sdscatrepr s a = Some s' /\ lib_holds s' (c ++ quoted a)) /\
  Forall (fun c => 0 < c < 256) (quoted_line args) /\
  (exists vec, sdssplitargs (quoted_line args) = Some (Some vec) /\ Forall2 lib_holds vec args) /\
  is_Some (sdssplitargs (S := S) line).
Proof.
  intros Hok Hlim Hline. split; [|split; [|split]].
  - intros s c a Ha Hs Hc. rewrite list.Forall_forall in Hok. by apply sdscatrepr_holds; [|apply Hok|].
  - by apply quoted_line_ok.
  - destruct (quoted_line_ok args Hok) as [_ Hl].
    unfold sdssplitargs.
    assert (Hskip : skip_blanks (quoted_line args) = quoted_line args) by (by destruct args as [|a [|]]).
    destruct (splitargs_loop_quoted args (Datatypes.S (length (quoted_line args))) (quoted_line args) [])
      as (vec & Hvec & Hh); [done| |done|lia|eauto].
    rewrite list.Forall_forall in *. intros a Ha. specialize (Hlim a Ha).
    destruct (quoted_ok a (Hok a Ha)) as [_ ?]. cbv beta in *. lia.
  - apply splitargs_loop_total; [done|lia].
Qed.

Lemma splitargs_inverts_catrepr_witness :
  exists vec, sdssplitargs (S := sds) (quoted_line [str "set"; [0; 255; 10; 34; 92; 65]]) = Some (Some vec) /\
    Forall2 lib_holds vec [str "set"; [0; 255; 10; 34; 92; 65]].
Proof.
  refine (proj1 (proj2 (proj2 (splitargs_inverts_catrepr (S := sds) [str "set"; [0; 255; 10; 34; 92; 65]] [] _ _ _)))).
  - repeat constructor; unfold byte_ok; lia.
  - repeat constructor.
  - reflexivity.
Defined.

(** * Splitting and joining *)

Fixpoint intercalate (sep : bytes) (ts : list bytes) : bytes :=
  match ts with
  | [] => []
  | [t] => t
  | t :: ts => t ++ sep ++ intercalate sep ts
  end.

Definition occurs_at (sep s : bytes) (k : Z) : Prop := zsub s k (zlen sep) = Some sep.

(** [ts] is [s] cut at the leftmost, non-overlapping occurrences of [sep]. *)
Inductive splits (sep : bytes) : bytes -> list bytes -> Prop :=
  | splits_last t : (forall k, ~ occurs_at sep t k) -> splits sep t [t]
  | splits_cut t rest ts :
      (forall k, k < zlen t -> ~ occurs_at sep (t ++ sep ++ rest) k) ->
      splits sep rest ts -> splits sep (t ++ sep ++ rest) (t :: ts).

Lemma splits_intercalate sep s ts : splits sep s ts -> intercalate sep ts = s /\ ts <> [].
Proof.
  induction 1 as [|t rest ts _ _ [IH IHn]]; [done|]. split; [|done].
  destruct ts as [|t' ts]; [done|]. cbn [intercalate] in *. by rewrite IH.
Qed.

Lemma occurs_at_range sep s k : occurs_at sep s k -> 0 <= k /\ k + zlen sep <= zlen s.
Proof. unfold occurs_at, zsub. intros H. case_match; [|done]. zb. lia. Qed.

Section Splitting.
Context {S : Type} `{Hlaws : StringLaws S}.
#[local] Set Default Proof Using "All".

Lemma split_loop_spec sep fuel : forall pre cur rest tokens,
  0 < zlen sep -> zlen (pre ++ cur ++ rest) < sds_limit ->
  (forall k, k < zlen cur -> ~ occurs_at sep (cur ++ rest) k) -> (length rest < fuel)%nat ->
  exists start toks ts last,
    split_loop fuel (pre ++ cur ++ rest) sep (zlen pre + zlen cur) (zlen pre) tokens = Some (start, tokens ++ toks) /\
    Forall2 lib_holds toks ts /\ splits sep (cur ++ rest) (ts ++ [last]) /\
    exists front, pre ++ cur ++ rest = front ++ last /\ zlen front = start.
Proof.
  induction fuel as [|fuel IH]; intros pre cur rest tokens Hsep Hlim Hno Hf; [lia|]. cbn [split_loop].
  set (s := pre ++ cur ++ rest) in *.
  assert (Hls : zlen s = zlen pre + zlen cur + zlen rest) by (unfold s; zlia).
  destruct (Z.ltb_spec (zlen pre + zlen cur) (zlen s - (zlen sep - 1))).
  - destruct (zsplit3 rest 0 (zlen sep)) as (r0 & w & rest' & Er & Hr0 & Hw); [lia..|].
    apply zlen_0_nil in Hr0. subst r0. cbn [app] in Er.
    assert (Ew : zsub s (zlen pre + zlen cur) (zlen sep) = Some w).
    { unfold s. rewrite Er, app_assoc. apply zsub_app; zlia. }
    rewrite Ew. cbn [mbind option_bind]. case_bool_decide as Heq.
    + subst w.
      assert (Eb : zsub s (zlen pre) (zlen pre + zlen cur - zlen pre) = Some cur)
        by (unfold s; apply zsub_app; zlia).
      rewrite Eb. cbn [mbind option_bind].
      destruct (law_newlen cur) as (t & -> & Ht); [zlia|]. cbn [mbind option_bind].
      destruct (IH (pre ++ cur ++ sep) [] rest' (tokens ++ [t])) as (start & toks & ts & last & E & Hf2 & Hsp & front & Ef & Hfl).
      { done. } { rewrite Er in *. unfold s in *. zlia. }
      { intros k Hk Hk2%occurs_at_range. rewrite zlen_nil in Hk. lia. }
      { rewrite Er, length_app in Hf. unfold zlen in Hsep. lia. }
      exists start, (t :: toks), (cur :: ts), last.
      assert (Es : s = (pre ++ cur ++ sep) ++ [] ++ rest') by (unfold s; rewrite Er; by rewrite <- !app_assoc).
      split; [|split; [by constructor|split]].
      * rewrite Es.
        replace (zlen pre + zlen cur + zlen sep - 1 + 1) with (zlen (pre ++ cur ++ sep) + zlen (@nil Z)) by zlia.
        replace (zlen pre + zlen cur + zlen sep) with (zlen (pre ++ cur ++ sep)) by zlia. by rewrite E, <- app_assoc.
      * rewrite Er in *. cbn [app]. by constructor.
      * exists front. by rewrite Es.
    + destruct rest as [|x rest'']; [change (zlen (@nil Z)) with 0 in *; lia|].
      destruct (IH pre (cur ++ [x]) rest'' tokens) as (start & toks & ts & last & E & Hf2 & Hsp & Hex).
      { done. } { unfold s in *. zlia. }
      { intros k Hk Ho. rewrite <- app_assoc in Ho. cbn [app] in Ho.
        destruct (Z.eq_dec k (zlen cur)) as [->|Hne]; [|apply (Hno k); [zlia|done]].
        unfold occurs_at in Ho. rewrite Er in Ho. rewrite zsub_app in Ho by (done || lia). congruence. }
      { simpl in Hf. lia. }
      rewrite <- !app_assoc in *. cbn [app] in *. fold s in E, Hex.
      exists start, toks, ts, last. split; [|done].
      replace (zlen pre + zlen cur + 1) with (zlen pre + zlen (cur ++ [x])) by zlia. done.
  - exists (zlen pre), [], [], (cur ++ rest). rewrite app_nil_r. split; [done|]. split; [constructor|].
    split; [|by exists pre]. apply splits_last. intros k Ho.
    destruct (Z.lt_ge_cases k (zlen cur)) as [Hk|Hk]; [by apply (Hno k)|].
    apply occurs_at_range in Ho. rewrite zlen_app in Ho. lia.
Qed.

Lemma sdssplitlen_spec s sep : 0 < zlen sep -> 0 < zlen s -> zlen s < sds_limit ->
  exists toks ts, sdssplitlen s sep = Some (Some toks) /\ Forall2 lib_holds toks ts /\ splits sep s ts.
Proof.
  intros Hsep Hs Hlim. unfold sdssplitlen. do 2 zdec.
  destruct (split_loop_spec sep (Datatypes.S (length s)) [] [] s []) as (start & toks & ts & last & E & Hf2 & Hsp & front & Ef & Hfl).
  { done. } { done. } { intros k Hk Hk2%occurs_at_range. rewrite zlen_nil in Hk. lia. } { lia. }
  cbn [app] in *. change (zlen [] + zlen []) with 0 in E. change (zlen []) with 0 in E. rewrite E.
  cbn [mbind option_bind].
  assert (El : zsub s start (zlen s - start) = Some last).
  { rewrite Ef at 1. rewrite <- (app_nil_r last) at 1. apply zsub_app; [done|].
    rewrite Ef. zlia. }
  rewrite El. cbn [mbind option_bind].
  destruct (law_newlen last) as (t & -> & Ht); [rewrite Ef in Hlim; zlia|]. cbn [mbind option_bind].
  exists (toks ++ [t]), (ts ++ [last]). split; [done|]. split; [|done].
  apply Forall2_app; [done|]. by repeat constructor.
Qed.

Lemma join_loop_holds argv sep : forall join c,
  lib_holds join c -> zlen c + zlen (intercalate sep argv) < sds_limit ->
  exists join', join_loop join argv sep = Some join' /\ lib_holds join' (c ++ intercalate sep argv).
Proof.
  induction argv as [|a argv IH]; intros join c Hc Hlim; [rewrite app_nil_r; eauto|].
  cbn [join_loop]. destruct argv as [|b argv].
  - destruct (law_catlen join c a) as (j1 & -> & Hj1); [done|done|]. cbn. eauto.
  - change (intercalate sep (a :: b :: argv)) with (a ++ sep ++ intercalate sep (b :: argv)) in *.
    destruct (law_catlen join c a) as (j1 & -> & Hj1); [done|zlia|]. cbn [mbind option_bind].
    destruct (law_catlen j1 _ sep Hj1) as (j2 & -> & Hj2); [zlia|]. cbn [mbind option_bind].
    destruct (IH j2 _ Hj2) as (j3 & -> & Hj3); [zlia|].
    rewrite <- !app_assoc in Hj3. eauto.
Qed.

Lemma sdsjoin_holds argv sep : zlen (intercalate sep argv) < sds_limit ->
  exists j, sdsjoin argv sep = Some j /\ lib_holds j (intercalate sep argv).
Proof.
  intros Hlim. unfold sdsjoin. destruct (law_newlen []) as (j & -> & Hj); [done|].
  cbn [mbind option_bind]. by apply (join_loop_holds argv sep j []).
Qed.
End Splitting.

(** [sdssplitlen] cuts a string at the leftmost non-overlapping occurrences of the separator
    (the last token contains none, no token runs past one), returns NULL for an empty separator
    and an empty array for an empty string; [sdsjoin]/[sdsjoinsds] build the interleaving of their
    arguments with the separator, so joining the tokens of a string gives that string back. *)
Theorem sdssplit_join {S} `{StringLaws S} (s sep : bytes) (argv : list bytes) :
  zlen s < sds_limit -> zlen (intercalate sep argv) < sds_limit ->
  (if zlen sep <? 1 then sdssplitlen s sep = Some None
   else if zlen s =? 0 then sdssplitlen s sep = Some (Some [])
   else exists toks ts, sdssplitlen s sep = Some (Some toks) /\ Forall2 lib_holds toks ts /\
     splits sep s ts /\
     exists j, sdsjoinsds ts sep = Some j /\ lib_holds j s) /\
  (exists j, sdsjoin argv sep = Some j /\ lib_holds j (intercalate sep argv)) /\
  (exists j, sdsjoinsds argv sep = Some j /\ lib_holds j (intercalate sep argv)).
Proof.
  intros Hs Hargv. split; [|by split; apply sdsjoin_holds].
  destruct (Z.ltb_spec (zlen sep) 1) as [Hsep|Hsep]; [unfold sdssplitlen; by zdec|].
  destruct (Z.eqb_spec (zlen s) 0) as [E|E]; [unfold sdssplitlen; by repeat zdec|].
  destruct (sdssplitlen_spec s sep) as (toks & ts & H1 & H2 & H3); [lia|zlia|done|].
  exists toks, ts. repeat (split; [done|]).
  destruct (splits_intercalate sep s ts H3) as [<- _]. by apply sdsjoin_holds.
Qed.

Lemma sdssplit_join_witness :
  exists toks ts, sdssplitlen (S := sds) (str "a--b---c") (str "--") = Some (Some toks) /\
    Forall2 lib_holds toks ts /\ splits (str "--") (str "a--b---c") ts /\
    exists j, sdsjoinsds (S := sds) ts (str "--") = Some j /\ lib_holds j (str "a--b---c").
Proof.
  exact (proj1 (sdssplit_join (S := sds) (str "a--b---c") (str "--") [] eq_refl eq_refl)).
Defined.

(** * Number conversion *)

Lemma digits_loop_spec fuel : forall pre hole post v,
  0 <= v < 2 ^ 64 -> zlen hole = zlen (dec v) -> zlen hole <= Z.of_nat fuel ->
  digits_loop fuel (pre ++ hole ++ post) (zlen pre) v =
    Some (pre ++ rev (dec v) ++ post, zlen pre + zlen (dec v)).
Proof.
  induction fuel as [|fuel IH]; intros pre hole post v Hv Hh Hf.
  { pose proof (dec_nonempty v Hv). lia. }
  pose proof (dec_nonempty v Hv). destruct hole as [|x hole]; [change (zlen (@nil Z)) with 0 in Hh; lia|].
  cbn [digits_loop app]. rewrite zput1 by done. cbn [mbind option_bind].
  destruct (Z.eqb_spec (v / 10) 0) as [E|E].
  - assert (v < 10) by dlia. rewrite dec_small in * by done. rewrite zlen_cons in Hh.
    change (zlen [48 + v]) with 1 in *. rewrite (zlen_0_nil hole) by lia.
    by rewrite Z.mod_small by lia.
  - assert (10 <= v) by dlia. assert (v < 10 ^ 21) by (change (10 ^ 21) with 1000000000000000000000; lia).
    rewrite (dec_step v) in * by lia.
    replace (pre ++ (48 + v mod 10) :: hole ++ post) with ((pre ++ [48 + v mod 10]) ++ hole ++ post)
      by (by rewrite <- app_assoc).
    replace (zlen pre + 1) with (zlen (pre ++ [48 + v mod 10])) by zlia.
    rewrite IH; [|split; [apply Z.div_pos; lia|dlia]|zlia|zlia].
    rewrite rev_app_distr. cbn [rev app]. rewrite <- app_assoc. do 2 f_equal. zlia.
Qed.

Lemma zget_zput1 {A} (pre : list A) x y post i : i = zlen pre ->
  zget (pre ++ x :: post) i = Some x /\ zput (pre ++ x :: post) i [y] = Some (pre ++ y :: post).
Proof. intros ->. split; [by apply zget_app|by apply (zput_app pre [x] post [y])]. Qed.

Lemma reverse_loop_spec fuel : forall pre mid post,
  (length mid < fuel)%nat ->
  reverse_loop fuel (pre ++ mid ++ post) (zlen pre) (zlen pre + zlen mid - 1) = Some (pre ++ rev mid ++ post).
Proof.
  induction fuel as [|fuel IH]; intros pre mid post Hf; [lia|]. cbn [reverse_loop].
  destruct mid as [|x mid]; [change (zlen (@nil Z)) with 0; zdec; done|].
  destruct (Z.ltb_spec (zlen pre) (zlen pre + zlen (x :: mid) - 1)) as [Hlt|Hge].
  - destruct (zlen_snoc_inv mid) as (m & y & -> & Hm); [zlia|].
    cbn [app]. rewrite <- app_assoc. cbn [app].
    destruct (zget_zput1 pre x y (m ++ y :: post) (zlen pre) eq_refl) as [-> _]. cbn [mbind option_bind].
    replace (pre ++ x :: m ++ y :: post) with ((pre ++ x :: m) ++ y :: post) by (by rewrite <- app_assoc).
    rewrite zget_app by zlia. cbn [mbind option_bind].
    rewrite <- app_assoc. cbn [app].
    destruct (zget_zput1 pre x y (m ++ y :: post) (zlen pre) eq_refl) as [_ ->]. cbn [mbind option_bind].
    replace (pre ++ y :: m ++ y :: post) with ((pre ++ y :: m) ++ y :: post) by (by rewrite <- app_assoc).
    rewrite (proj2 (zget_zput1 (pre ++ y :: m) y x post (zlen pre + zlen (x :: m ++ [y]) - 1) ltac:(zlia))).
    cbn [mbind option_bind].
    replace ((pre ++ y :: m) ++ x :: post) with ((pre ++ [y]) ++ m ++ (x :: post)) by (by rewrite <- !app_assoc).
    replace (zlen pre + 1) with (zlen (pre ++ [y])) by zlia.
    replace (zlen pre + zlen (x :: m ++ [y]) - 1 - 1) with (zlen (pre ++ [y]) + zlen m - 1) by zlia.
    rewrite IH by (simpl in Hf; rewrite length_app in Hf; simpl in Hf; lia).
    cbn [rev]. rewrite rev_app_distr. cbn [rev app]. by rewrite <- !app_assoc.
  - rewrite zlen_cons in Hge. pose proof (zlen_nonneg mid). by rewrite (zlen_0_nil mid) by lia.
Qed.

(** Both conversions end this way: terminate the reversed digits and turn them round. *)
Lemma finish_spec rs old post p : p = zlen rs ->
  (buf ← zput (rs ++ old :: post) p [0]; reverse_loop (S (length buf)) buf 0 (p - 1)) =
    Some (rev rs ++ 0 :: post).
Proof.
  intros ->. rewrite zput1 by done. cbn [mbind option_bind].
  pose proof (reverse_loop_spec (S (length (rs ++ 0 :: post))) [] rs (0 :: post)) as H.
  cbn [app] in H. change (zlen []) with 0 in H. apply H. rewrite length_app. lia.
Qed.

Lemma sdsull2str_spec buf v : urange 64 v -> zlen (dec v) < zlen buf ->
  exists rest, sdsull2str buf v = Some (dec v ++ 0 :: rest, zlen (dec v)) /\
    zlen (dec v ++ 0 :: rest) = zlen buf.
Proof.
  intros Hv Hb. unfold urange in Hv. pose proof (dec_le20 v Hv).
  destruct (zsplit3 buf 0 (zlen (dec v))) as (p0 & hole & post & -> & Hp0 & Hh); [lia|zlia|lia|].
  apply zlen_0_nil in Hp0. subst p0. cbn [app] in *.
  destruct post as [|old post]; [rewrite app_nil_r in Hb; lia|]. exists post.
  unfold sdsull2str. pose proof (digits_loop_spec 20 [] hole (old :: post) v Hv Hh ltac:(lia)) as E.
  cbn [app] in E. change (zlen []) with 0 in E. rewrite E. cbn [mbind option_bind]. split; [|zlia].
  pose proof (finish_spec (rev (dec v)) old post (0 + zlen (dec v))) as F.
  rewrite zput1 in * by (unfold zlen; rewrite length_rev; lia). cbn [mbind option_bind] in *.
  rewrite F by (unfold zlen; rewrite length_rev; lia). cbn [mbind option_bind].
  by rewrite rev_involutive.
Qed.

Lemma sdsll2str_spec buf v : srange 64 v -> zlen (decimal v) < zlen buf ->
  exists rest, sdsll2str buf v = Some (decimal v ++ 0 :: rest, zlen (decimal v)) /\
    zlen (decimal v ++ 0 :: rest) = zlen buf.
Proof.
  intros Hv Hb. unfold decimal in *. unfold srange in Hv. change (2 ^ (64 - 1)) with (2 ^ 63) in Hv.
  destruct (Z.ltb_spec v 0) as [Hneg|Hpos].
  - rewrite zlen_cons in Hb.
    destruct (zsplit3 buf 0 (zlen (dec (- v)))) as (p0 & hole & post & -> & Hp0 & Hh); [lia|zlia|lia|].
    apply zlen_0_nil in Hp0. subst p0. cbn [app] in *.
    destruct post as [|o1 [|o2 post]]; [zlia..|]. exists post.
    unfold sdsll2str. zdec. rewrite (uwrap_small 64 (- v)) by (unfold urange; lia).
    assert (Hr : 0 <= - v < 2 ^ 64) by lia. pose proof (dec_le20 (- v) Hr).
    pose proof (digits_loop_spec 20 [] hole (o1 :: o2 :: post) (- v) Hr Hh ltac:(lia)) as E.
    cbn [app] in E. change (zlen []) with 0 in E. rewrite E. cbn [mbind option_bind].
    assert (Hrl : zlen (rev (dec (- v))) = zlen (dec (- v))) by (unfold zlen; by rewrite length_rev).
    rewrite zput1 by lia. cbn [mbind option_bind].
    replace (rev (dec (- v)) ++ ch_minus :: o2 :: post)
      with ((rev (dec (- v)) ++ [ch_minus]) ++ o2 :: post) by (by rewrite <- app_assoc).
    pose proof (finish_spec (rev (dec (- v)) ++ [ch_minus]) o2 post (0 + zlen (dec (- v)) + 1) ltac:(zlia)) as F.
    rewrite zput1 in * by zlia. cbn [mbind option_bind] in *. rewrite F. cbn [mbind option_bind].
    rewrite rev_app_distr, rev_involutive. cbn [rev app]. split; [|zlia]. do 2 f_equal. zlia.
  - destruct (sdsull2str_spec buf v) as (rest & E & Hl); [unfold urange; lia|done|].
    exists rest. split; [|done]. unfold sdsll2str, sdsull2str in *. zdec.
    destruct (digits_loop 20 buf 0 v) as [[b p]|]; [|done]. done.
Qed.

(** In a buffer of [SDS_LLSTR_SIZE] bytes, [sdsll2str] and [sdsull2str] write the
    NUL-terminated decimal representation of every 64-bit value (the two extremes included) and
    return its length without a store outside the buffer; [sdsfromlonglong] is the string of that
    representation, which [string2ll] parses back. *)
Theorem sdsll2str_correct (buf : bytes) (v : Z) : SDS_LLSTR_SIZE <= zlen buf ->
  (srange 64 v ->
    (exists rest, sdsll2str buf v = Some (decimal v ++ 0 :: rest, zlen (decimal v)) /\
      zlen (decimal v ++ 0 :: rest) = zlen buf) /\
    (exists s, sdsfromlonglong v = Some s /\ is_sds s (decimal v)) /\
    string2ll (decimal v) = Some v) /\
  (urange 64 v ->
    exists rest, sdsull2str buf v = Some (dec v ++ 0 :: rest, zlen (dec v)) /\
      zlen (dec v ++ 0 :: rest) = zlen buf).
Proof.
  unfold SDS_LLSTR_SIZE. intros Hb. split.
  - intros Hv.
    assert (Hd : zlen (decimal v) <= 20) by (by apply decimal_le20).
    split; [|split; [|by apply string2ll_decimal]]; [apply sdsll2str_spec; [done|lia]|].
    unfold sdsfromlonglong.
    destruct (sdsll2str_spec (replicate 21 0) v) as (rest & -> & Hl); [done|rewrite zlen_replicate; lia|].
    cbn [mbind option_bind]. rewrite zsub_app0 by done. cbn [mbind option_bind].
    destruct (law_newlen (S := sds) (decimal v)) as (s & Hs & Hh); [|by exists s].
    unfold sds_limit. lia.
  - intros Hv. pose proof (dec_le20 v Hv). apply sdsull2str_spec; [done|lia].
Qed.

Lemma sdsll2str_correct_witness :
  (exists rest, sdsll2str (replicate 21 7) INT64_MIN = Some (str "-9223372036854775808" ++ 0 :: rest, 20)) /\
  (exists rest, sdsull2str (replicate 21 7) UINT64_MAX = Some (str "18446744073709551615" ++ 0 :: rest, 20)).
Proof.
  split.
  - destruct (proj1 (sdsll2str_correct (replicate 21 7) INT64_MIN ltac:(vm_compute; congruence))
      ltac:(vm_compute; split; congruence)) as [(rest & E & _) _]. exists rest. exact E.
  - destruct (proj2 (sdsll2str_correct (replicate 21 7) UINT64_MAX ltac:(vm_compute; congruence))
      ltac:(vm_compute; split; congruence)) as (rest & E & _). exists rest. exact E.
Defined.
