(* ===== verification/Dict.v ===== *)
(** Hash tables with chaining and incremental rehashing (dict.c, dict.h).

    A bucket is the list of the entries of its chain (the [next] links), an entry its key and
    value.  A pointer to an entry is the place of the entry: table, bucket, position in the chain;
    places are only used until the next operation on the dictionary.  [None] is an access outside
    a table, through a NULL table, or a failed assertion, so a theorem that concludes [Some _]
    excludes these.  The dictType callbacks are parameters; the values handed to the destructors
    are returned by the operations that call them. *)

From Stdlib Require Import String.
From stdpp Require Import gmap list_tactics.
From S2P Require Import Prelude Util SipHash.
#[local] Open Scope list_scope.
#[local] Open Scope Z_scope.

(** * Data *)

Definition DICT_OK : Z := 0.
Definition DICT_ERR : Z := 1.
Definition DICT_HT_INITIAL_SIZE : Z := 4.
Definition LONG_MAX : Z := 2 ^ 63 - 1.
Definition dict_force_resize_ratio : Z := 5.

(** [keyDup], [valDup] and [keyCompare] may be NULL. *)
Record dictType (K V : Type) := {
  hashFunction : K -> Z;
  keyDup : option (K -> K);
  valDup : option (V -> V);
  keyCompare : option (K -> K -> bool)
}.
#[global] Arguments hashFunction {K V} _ _.
#[global] Arguments keyDup {K V} _.
#[global] Arguments valDup {K V} _.
#[global] Arguments keyCompare {K V} _.

Abbreviation dictEntry K V := (K * V)%type (only parsing).

Record dictht (K V : Type) := Dictht {
  table : option (list (list (dictEntry K V)));
  size : Z;
  sizemask : Z;
  used : Z
}.
#[global] Arguments Dictht {K V} _ _ _ _.
#[global] Arguments table {K V} _.
#[global] Arguments size {K V} _.
#[global] Arguments sizemask {K V} _.
#[global] Arguments used {K V} _.

Record dict (K V : Type) := Dict {
  ht0 : dictht K V;
  ht1 : dictht K V;
  rehashidx : Z;
  iterators : Z
}.
#[global] Arguments Dict {K V} _ _ _ _.
#[global] Arguments ht0 {K V} _.
#[global] Arguments ht1 {K V} _.
#[global] Arguments rehashidx {K V} _.
#[global] Arguments iterators {K V} _.

(** The place of an entry. *)
Record place := Place { p_table : Z; p_index : Z; p_pos : nat }.

Section Dict.
Context {K V : Type} `{EqDecision K, Inhabited V} (ty : dictType K V).
#[local] Abbreviation entry := (dictEntry K V).
#[local] Abbreviation ht := (dictht K V).
#[local] Abbreviation dct := (dict K V).

(** * Accessors and macros *)

Definition dictHashKey (key : K) : Z := hashFunction ty key.
Definition dictCompareKeys (key1 key2 : K) : bool :=
  match keyCompare ty with Some f => f key1 key2 | None => bool_decide (key1 = key2) end.
Definition same_key (key key' : K) : bool := bool_decide (key = key') || dictCompareKeys key key'.
Definition key_stored (key : K) : K := match keyDup ty with Some f => f key | None => key end.
Definition val_stored (val : V) : V := match valDup ty with Some f => f val | None => val end.

Definition dictIsRehashing (d : dct) : bool := negb (rehashidx d =? -1).
Definition dictSize (d : dct) : Z := u64 (used (ht0 d) + used (ht1 d)).
Definition dictSlots (d : dct) : Z := u64 (size (ht0 d) + size (ht1 d)).

Definition get_ht (d : dct) (t : Z) : ht := if t =? 0 then ht0 d else ht1 d.
Definition set_ht (d : dct) (t : Z) (h : ht) : dct :=
  if t =? 0 then Dict h (ht1 d) (rehashidx d) (iterators d)
  else Dict (ht0 d) h (rehashidx d) (iterators d).

(** [ht->table[i]], read and written. *)
Definition get_bucket (h : ht) (i : Z) : option (list entry) := t ← table h; zget t i.
Definition set_bucket (h : ht) (i : Z) (b : list entry) : option ht :=
  t ← table h; t ← zput t i [b]; Some (Dictht (Some t) (size h) (sizemask h) (used h)).
Definition set_used (h : ht) (n : Z) : ht := Dictht (table h) (size h) (sizemask h) n.

(** * Creation and resizing *)

Definition _dictReset : ht := Dictht None 0 0 0.
Definition _dictInit : dct := Dict _dictReset _dictReset (-1) 0.
Definition dictCreate : dct := _dictInit.

Fixpoint next_power_loop (fuel : nat) (i sz : Z) : option Z :=
  match fuel with
  | O => None
  | S fuel => if i >=? sz then Some i else next_power_loop fuel (u64 (i * 2)) sz
  end.

Definition _dictNextPower (sz : Z) : option Z :=
  if sz >=? LONG_MAX then Some (u64 (LONG_MAX + 1)) else next_power_loop 64 DICT_HT_INITIAL_SIZE sz.

Definition dictExpand (d : dct) (sz : Z) : option (Z * dct) :=
  if dictIsRehashing d || (used (ht0 d) >? sz) then Some (DICT_ERR, d)
  else
    realsize ← _dictNextPower sz;
    if realsize =? size (ht0 d) then Some (DICT_ERR, d)
    else
      let n := Dictht (Some (replicate (Z.to_nat realsize) [])) realsize (u64 (realsize - 1)) 0 in
      match table (ht0 d) with
      | None => Some (DICT_OK, set_ht d 0 n)
      | Some _ => Some (DICT_OK, Dict (ht0 d) n 0 (iterators d))
      end.

(** [minimal] is an [int]. *)
Definition dictResize (dict_can_resize : bool) (d : dct) : option (Z * dct) :=
  if negb dict_can_resize || dictIsRehashing d then Some (DICT_ERR, d)
  else
    let minimal := s32 (used (ht0 d)) in
    let minimal := if minimal <? DICT_HT_INITIAL_SIZE then DICT_HT_INITIAL_SIZE else minimal in
    dictExpand d minimal.

(** * Incremental rehashing *)

(** [while(table[rehashidx] == NULL)]; the flag tells that the function returned 1. *)
Fixpoint skip_empty (fuel : nat) (d : dct) (empty_visits : Z) : option (bool * dct * Z) :=
  match fuel with
  | O => None
  | S fuel =>
      b ← get_bucket (ht0 d) (rehashidx d);
      match b with
      | [] =>
          let d := Dict (ht0 d) (ht1 d) (rehashidx d + 1) (iterators d) in
          let empty_visits := empty_visits - 1 in
          if empty_visits =? 0 then Some (true, d, empty_visits) else skip_empty fuel d empty_visits
      | _ => Some (false, d, empty_visits)
      end
  end.

(** [while(de)]: move the entries of a chain to [ht[1]]. *)
Fixpoint move_chain (d : dct) (de : list entry) : option dct :=
  match de with
  | [] => Some d
  | (k, v) :: nextde =>
      let h := Z.land (dictHashKey k) (sizemask (ht1 d)) in
      b ← get_bucket (ht1 d) h;
      h1 ← set_bucket (ht1 d) h ((k, v) :: b);
      move_chain (Dict (set_used (ht0 d) (u64 (used (ht0 d) - 1))) (set_used h1 (u64 (used h1 + 1)))
                    (rehashidx d) (iterators d)) nextde
  end.

(** The outer loop; [Some (Some 1, d)] when it returned from inside. *)
Fixpoint rehash_loop (fuel : nat) (d : dct) (n empty_visits : Z) : option (bool * dct) :=
  if (n =? 0) || (used (ht0 d) =? 0) then Some (false, d)
  else match fuel with
  | O => None
  | S fuel =>
      if size (ht0 d) >? u64 (rehashidx d) then
        '(ret, d, empty_visits) ← skip_empty (S (Z.to_nat (size (ht0 d)))) d empty_visits;
        if ret : bool then Some (true, d)
        else
          de ← get_bucket (ht0 d) (rehashidx d);
          d ← move_chain d de;
          h0 ← set_bucket (ht0 d) (rehashidx d) [];
          rehash_loop fuel (Dict h0 (ht1 d) (rehashidx d + 1) (iterators d)) (n - 1) empty_visits
      else None
  end.

Definition dictRehash (d : dct) (n : Z) : option (Z * dct) :=
  let empty_visits := s32 (n * 10) in
  if negb (dictIsRehashing d) then Some (0, d)
  else
    '(ret, d) ← rehash_loop (S (Z.to_nat (size (ht0 d)))) d n empty_visits;
    if ret : bool then Some (1, d)
    else if used (ht0 d) =? 0 then Some (0, Dict (ht1 d) _dictReset (-1) (iterators d))
    else Some (1, d).

(** The clock after each batch of 100 steps is an input: [clock] lists the successive answers to
    [timeInMilliseconds()-start > ms]; the loop also ends when the rehashing does. *)
Fixpoint dictRehashMilliseconds (d : dct) (clock : list bool) (rehashes : Z) : option (Z * dct) :=
  '(more, d) ← dictRehash d 100;
  if more =? 0 then Some (rehashes, d)
  else match clock with
       | [] => None
       | true :: _ => Some (rehashes + 100, d)
       | false :: clock => dictRehashMilliseconds d clock (rehashes + 100)
       end.

Definition _dictRehashStep (d : dct) : option dct :=
  if iterators d =? 0 then '(_, d) ← dictRehash d 1; Some d else Some d.

Definition rehash_if_needed (d : dct) : option dct :=
  if dictIsRehashing d then _dictRehashStep d else Some d.

(** * Searching a chain *)

Fixpoint find_chain (key : K) (b : list entry) (pos : nat) : option nat :=
  match b with
  | [] => None
  | (k, _) :: b => if same_key key k then Some pos else find_chain key b (S pos)
  end.

(** [for (table = 0; table <= 1; table++)] of the lookups: the place of the key. *)
Definition find_tables (d : dct) (key : K) (hash : Z) : option (option place) :=
  let idx0 := Z.land hash (sizemask (ht0 d)) in
  b0 ← get_bucket (ht0 d) idx0;
  match find_chain key b0 0 with
  | Some pos => Some (Some (Place 0 idx0 pos))
  | None =>
      if negb (dictIsRehashing d) then Some None
      else
        let idx1 := Z.land hash (sizemask (ht1 d)) in
        b1 ← get_bucket (ht1 d) idx1;
        match find_chain key b1 0 with
        | Some pos => Some (Some (Place 1 idx1 pos))
        | None => Some None
        end
  end.

(** The entry at a place. *)
Definition entry_at (d : dct) (p : place) : option entry :=
  b ← get_bucket (get_ht d (p_table p)) (p_index p); b !! p_pos p.

(** [entry->v.val = ...] *)
Definition dictSetVal (d : dct) (p : place) (val : V) : option dct :=
  let h := get_ht d (p_table p) in
  b ← get_bucket h (p_index p);
  '(k, _) ← b !! p_pos p;
  h ← set_bucket h (p_index p) (<[p_pos p := (k, val_stored val)]> b);
  Some (set_ht d (p_table p) h).

(** * Insertion *)

Definition _dictExpandIfNeeded (dict_can_resize : bool) (d : dct) : option (Z * dct) :=
  if dictIsRehashing d then Some (DICT_OK, d)
  else if size (ht0 d) =? 0 then dictExpand d DICT_HT_INITIAL_SIZE
  else if (used (ht0 d) >=? size (ht0 d)) &&
          (dict_can_resize || (used (ht0 d) / size (ht0 d) >? dict_force_resize_ratio))
  then dictExpand d (u64 (used (ht0 d) * 2))
  else Some (DICT_OK, d).

(** The index (or -1), and the existing entry. *)
Definition _dictKeyIndex (can_resize : bool) (d : dct) (key : K) (hash : Z)
    : option (Z * option place * dct) :=
  '(r, d) ← _dictExpandIfNeeded can_resize d;
  if r =? DICT_ERR then Some (-1, None, d)
  else
    e ← find_tables d key hash;
    match e with
    | Some p => Some (-1, Some p, d)
    | None =>
        Some (Z.land hash (sizemask (if dictIsRehashing d then ht1 d else ht0 d)), None, d)
    end.

(** The new entry (its value is indeterminate), or NULL and the existing entry. *)
Definition dictAddRaw (can_resize : bool) (d : dct) (key : K)
    : option (option place * option place * dct) :=
  d ← rehash_if_needed d;
  '(index, existing, d) ← _dictKeyIndex can_resize d key (dictHashKey key);
  if index =? -1 then Some (None, existing, d)
  else
    let t := if dictIsRehashing d then 1 else 0 in
    let h := get_ht d t in
    b ← get_bucket h index;
    h ← set_bucket h index ((key_stored key, inhabitant) :: b);
    Some (Some (Place t index 0), existing, set_ht d t (set_used h (u64 (used h + 1)))).

Definition dictAdd (can_resize : bool) (d : dct) (key : K) (val : V) : option (Z * dct) :=
  '(entry, _, d) ← dictAddRaw can_resize d key;
  match entry with
  | None => Some (DICT_ERR, d)
  | Some p => d ← dictSetVal d p val; Some (DICT_OK, d)
  end.

(** The result, and the value given to the destructor. *)
Definition dictReplace (can_resize : bool) (d : dct) (key : K) (val : V)
    : option (Z * option V * dct) :=
  '(entry, existing, d) ← dictAddRaw can_resize d key;
  match entry with
  | Some p => d ← dictSetVal d p val; Some (1, None, d)
  | None =>
      p ← existing;
      '(_, auxentry) ← entry_at d p;
      d ← dictSetVal d p val;
      Some (0, Some auxentry, d)
  end.

Definition dictAddOrFind (can_resize : bool) (d : dct) (key : K) : option (option place * dct) :=
  '(entry, existing, d) ← dictAddRaw can_resize d key;
  Some (match entry with Some p => Some p | None => existing end, d).

(** * Deletion *)

(** Unlink position [pos] of a chain. *)
Definition unlink_at {A} (pos : nat) (b : list A) : list A := take pos b ++ drop (S pos) b.

Definition unlink (d : dct) (p : place) : option (entry * dct) :=
  let h := get_ht d (p_table p) in
  b ← get_bucket h (p_index p);
  e ← b !! p_pos p;
  h ← set_bucket h (p_index p) (unlink_at (p_pos p) b);
  Some (e, set_ht d (p_table p) (set_used h (u64 (used h - 1)))).

(** The entry removed, and the entries freed. *)
Definition dictGenericDelete (d : dct) (key : K) (nofree : bool)
    : option (option entry * list entry * dct) :=
  if (used (ht0 d) =? 0) && (used (ht1 d) =? 0) then Some (None, [], d)
  else
    d ← rehash_if_needed d;
    e ← find_tables d key (dictHashKey key);
    match e with
    | Some p => '(he, d) ← unlink d p; Some (Some he, if nofree then [] else [he], d)
    | None => Some (None, [], d)
    end.

Definition dictDelete (d : dct) (key : K) : option (Z * list entry * dct) :=
  '(he, freed, d) ← dictGenericDelete d key false;
  Some (match he with Some _ => DICT_OK | None => DICT_ERR end, freed, d).

Definition dictUnlink (d : dct) (key : K) : option (option entry * list entry * dct) :=
  dictGenericDelete d key true.

Definition dictFreeUnlinkedEntry (he : option entry) : list entry :=
  match he with None => [] | Some he => [he] end.

(** [while(he)] of [_dictClear]. *)
Fixpoint clear_chain (b : list entry) (n : Z) (freed : list entry) : Z * list entry :=
  match b with
  | [] => (n, freed)
  | he :: b => clear_chain b (u64 (n - 1)) (freed ++ [he])
  end.

(** The loop over the buckets: entries freed so far and the calls of [callback] (bucket numbers). *)
Fixpoint clear_loop (fuel : nat) (h : ht) (callback : bool) (i : Z) (freed : list entry) (calls : list Z)
    : option (list entry * list Z) :=
  if (i <? size h) && (used h >? 0) then
    match fuel with
    | O => None
    | S fuel =>
        let calls := if callback && (Z.land i 65535 =? 0) then calls ++ [i] else calls in
        b ← get_bucket h i;
        let '(n, freed) := clear_chain b (used h) freed in
        clear_loop fuel (set_used h n) callback (i + 1) freed calls
    end
  else Some (freed, calls).

Definition _dictClear (h : ht) (callback : bool) : option (list entry * list Z * ht) :=
  '(freed, calls) ← clear_loop (Z.to_nat (size h)) h callback 0 [] [];
  Some (freed, calls, _dictReset).

Definition dictRelease (d : dct) : option (list entry) :=
  '(f0, _, _) ← _dictClear (ht0 d) false;
  '(f1, _, _) ← _dictClear (ht1 d) false;
  Some (f0 ++ f1).

Definition dictEmpty (d : dct) (callback : bool) : option (list entry * list Z * dct) :=
  '(f0, c0, h0) ← _dictClear (ht0 d) callback;
  '(f1, c1, h1) ← _dictClear (ht1 d) callback;
  Some (f0 ++ f1, c0 ++ c1, Dict h0 h1 (-1) 0).

(** * Lookup *)

Definition dictFind (d : dct) (key : K) : option (option place * dct) :=
  if dictSize d =? 0 then Some (None, d)
  else
    d ← rehash_if_needed d;
    e ← find_tables d key (dictHashKey key);
    Some (e, d).

Definition dictFetchValue (d : dct) (key : K) : option (option V * dct) :=
  '(he, d) ← dictFind d key;
  match he with
  | None => Some (None, d)
  | Some p => '(_, v) ← entry_at d p; Some (Some v, d)
  end.

(** * Specification: a finite map *)

Definition ht_entries (h : ht) : list entry :=
  match table h with Some t => concat t | None => [] end.
Definition entries (d : dct) : list entry := ht_entries (ht0 d) ++ ht_entries (ht1 d).

Definition in_bucket (h : ht) (i : Z) (e : entry) : Prop := dictHashKey (fst e) mod size h = i.

(** An allocated table: a power of two of buckets, [used] counts the entries, and every entry is
    in the bucket its hash selects. *)
Record ht_ok (h : ht) : Prop := {
  ok_table : exists t, table h = Some t /\ zlen t = size h;
  ok_size : exists k, 2 <= k <= 63 /\ size h = 2 ^ k;
  ok_mask : sizemask h = size h - 1;
  ok_used : used h = zlen (ht_entries h);
  ok_buckets : forall i b, get_bucket h i = Some b -> Forall (in_bucket h i) b
}.

Definition max_entries : Z := 2 ^ 60.

Record dict_ok (d : dct) : Prop := {
  ok_bound : zlen (entries d) <= max_entries;
  ok_phase : if dictIsRehashing d then
      ht_ok (ht0 d) /\ ht_ok (ht1 d) /\ 0 <= rehashidx d <= size (ht0 d) /\
      (forall i b, i < rehashidx d -> get_bucket (ht0 d) i = Some b -> b = [])
    else ht1 d = _dictReset /\ (ht0 d = _dictReset \/ ht_ok (ht0 d))
}.
End Dict.

Section Proofs.
Context {K V : Type} `{HeqK : EqDecision K, !Countable K, HinV : Inhabited V} (ty : dictType K V).
#[local] Abbreviation entry := (dictEntry K V).
#[local] Abbreviation ht := (dictht K V).
#[local] Abbreviation dct := (dict K V).

(** ** Tables *)

Lemma zget_split {A} (l : list A) i x : zget l i = Some x ->
  exists pre post, l = pre ++ x :: post /\ zlen pre = i.
Proof.
  intros E. pose proof (zget_range l i x E).
  destruct (zsplit3 l i 1) as (pre & mid & post & -> & Hp & Hm); [lia..|].
  apply zlen_1_inv in Hm as [y ->]. cbn [app] in E. rewrite zget_app in E by done.
  simplify_eq. eauto.
Qed.

Lemma zget_upd {A} (pre post : list A) x y j : j <> zlen pre ->
  zget (pre ++ y :: post) j = zget (pre ++ x :: post) j.
Proof.
  intros. destruct (Z.lt_ge_cases j (zlen pre)).
  - by rewrite !zget_app_l by done.
  - rewrite !zget_app_r, !zget_cons by done. by zdec.
Qed.

Lemma get_bucket_ok h i : ht_ok ty h -> 0 <= i < size h -> is_Some (get_bucket h i).
Proof.
  intros Hh Hi. destruct (ok_table _ h Hh) as (t & Ht & Hl). unfold get_bucket. rewrite Ht. cbn.
  apply zget_in_range. lia.
Qed.

Lemma get_bucket_range h i b : ht_ok ty h -> get_bucket h i = Some b -> 0 <= i < size h.
Proof.
  intros Hh. destruct (ok_table _ h Hh) as (t & Ht & Hl). unfold get_bucket. rewrite Ht. cbn.
  intros E%zget_range. lia.
Qed.

Lemma mask_index h x : ht_ok ty h -> Z.land x (sizemask h) = x mod size h /\ 0 <= x mod size h < size h.
Proof.
  intros Hh. destruct (ok_size _ h Hh) as (k & Hk & E). rewrite (ok_mask _ h Hh), E.
  replace (2 ^ k - 1) with (Z.ones k) by (rewrite Z.ones_equiv; lia).
  rewrite Z.land_ones by lia. split; [done|]. apply Z.mod_pos_bound. lia.
Qed.

(** An entry is in the bucket its hash selects. *)
Lemma entry_bucket h e : ht_ok ty h -> e ∈ ht_entries h ->
  exists b, get_bucket h (dictHashKey ty (fst e) mod size h) = Some b /\ e ∈ b.
Proof.
  intros Hh He. unfold ht_entries in He. destruct (ok_table _ h Hh) as (t & Et & El). rewrite Et in He.
  apply list_elem_of_In, in_concat in He as (b' & Hb'%list_elem_of_In & He%list_elem_of_In).
  apply list_elem_of_lookup in Hb' as (i & Hi).
  assert (Hgi : get_bucket h (Z.of_nat i) = Some b').
  { unfold get_bucket. rewrite Et. cbn. unfold zget. zdec. by rewrite Nat2Z.id. }
  pose proof (ok_buckets _ h Hh _ _ Hgi) as Hf. rewrite list.Forall_forall in Hf.
  specialize (Hf e He). unfold in_bucket in Hf. rewrite Hf. eauto.
Qed.

Lemma bucket_entries (h : ht) i b e : get_bucket h i = Some b -> e ∈ b -> e ∈ ht_entries h.
Proof.
  unfold get_bucket, ht_entries. destruct (table h) as [t|]; [|done]. cbn [mbind option_bind].
  intros (pre & post & -> & _)%zget_split He. apply list_elem_of_In, in_concat. exists b.
  split; [apply in_app_iff; right; by left|by apply list_elem_of_In].
Qed.

(** Replacing a bucket. *)
Lemma set_bucket_spec (h : ht) i b b' : get_bucket h i = Some b ->
  exists h' R, set_bucket h i b' = Some h' /\ ht_entries h ≡ₚ b ++ R /\ ht_entries h' ≡ₚ b' ++ R /\
    size h' = size h /\ sizemask h' = sizemask h /\ used h' = used h /\
    (exists t t', table h = Some t /\ table h' = Some t' /\ zlen t' = zlen t) /\
    get_bucket h' i = Some b' /\ (forall j, j <> i -> get_bucket h' j = get_bucket h j).
Proof.
  unfold get_bucket, set_bucket, ht_entries. destruct (table h) as [t|]; [|done]. cbn [mbind option_bind].
  intros (pre & post & -> & Hi)%zget_split.
  rewrite (zput_app pre [b] post [b']) by done. cbn [mbind option_bind app].
  eexists _, (concat pre ++ concat post). split; [done|]. cbn [table size sizemask used mbind option_bind].
  rewrite !concat_app. cbn [concat]. split; [solve_Permutation|]. split; [solve_Permutation|].
  do 3 (split; [done|]). split; [eexists _, _; do 2 (split; [done|]); zlia|].
  split; [by apply zget_app|]. intros j Hj. apply zget_upd. congruence.
Qed.

Lemma set_bucket_ok h i b b' n : ht_ok ty h -> get_bucket h i = Some b ->
  Forall (in_bucket ty h i) b' -> n = used h - zlen b + zlen b' ->
  exists h' R, set_bucket h i b' = Some h' /\ ht_ok ty (set_used h' n) /\
    ht_entries h ≡ₚ b ++ R /\ ht_entries h' ≡ₚ b' ++ R /\
    size h' = size h /\ sizemask h' = sizemask h /\ used h' = used h /\
    get_bucket h' i = Some b' /\ (forall j, j <> i -> get_bucket h' j = get_bucket h j).
Proof.
  intros Hh Hb Hf ->.
  destruct (set_bucket_spec h i b b' Hb) as (h' & R & E & P & P' & Es & Em & Eu & (t & t' & Et & Et' & El) & G & G').
  exists h', R. split; [done|]. split; [|done].
  destruct Hh as [(t0 & Et0 & El0) Hk Hm Hu Hbk]. split; cbn.
  - exists t'. split; [done|]. congruence.
  - by rewrite Es.
  - congruence.
  - rewrite Hu. unfold ht_entries in *. cbn [table]. unfold zlen. rewrite P, P', !length_app. lia.
  - intros j bj Hj. change (get_bucket h' j = Some bj) in Hj. unfold in_bucket, set_used. cbn [size]. rewrite Es.
    destruct (decide (j = i)) as [->|Hne]; [by rewrite G in Hj; simplify_eq|].
    rewrite G' in Hj by done. by apply Hbk.
Qed.

Lemma set_used_same (h : ht) n : n = used h -> set_used h n = h.
Proof. intros ->. by destruct h. Qed.

(** ** Rehashing *)

Lemma move_chain_spec de : forall d,
  ht_ok ty (ht1 d) -> zlen de + used (ht1 d) <= max_entries -> zlen de <= used (ht0 d) <= max_entries ->
  exists h1, move_chain ty d de =
      Some (Dict (set_used (ht0 d) (used (ht0 d) - zlen de)) h1 (rehashidx d) (iterators d)) /\
    ht_ok ty h1 /\ ht_entries h1 ≡ₚ de ++ ht_entries (ht1 d) /\ size h1 = size (ht1 d).
Proof.
  induction de as [|[k v] de IH]; intros [h0 h1 ri its] Hh Hb1 Hb0; cbn [ht0 ht1 rehashidx iterators] in *.
  { exists h1. split; [|done]. cbn [move_chain]. do 2 f_equal. change (zlen []) with 0.
    by rewrite set_used_same by lia. }
  cbn [move_chain ht0 ht1 rehashidx iterators].
  destruct (mask_index h1 (dictHashKey ty k) Hh) as [-> Hi].
  destruct (get_bucket_ok h1 _ Hh Hi) as [b Hb]. rewrite Hb. cbn [mbind option_bind].
  rewrite zlen_cons in *. pose proof (zlen_nonneg de). unfold max_entries in *.
  assert (Hu1 : 0 <= used h1) by (rewrite (ok_used _ _ Hh); apply zlen_nonneg).
  destruct (set_bucket_ok h1 _ b ((k, v) :: b) (used h1 + 1) Hh Hb)
    as (h1' & R & E & Hh' & P & P' & Es & Em & Eu & G & G').
  { constructor; [done|]. by apply (ok_buckets _ _ Hh). } { zlia. }
  rewrite E. cbn [mbind option_bind].
  rewrite (uwrap_small 64 (used h0 - 1)), (uwrap_small 64 (used h1' + 1)) by (unfold urange; lia).
  rewrite <- Eu in Hh'.
  destruct (IH (Dict (set_used h0 (used h0 - 1)) (set_used h1' (used h1' + 1)) ri its))
    as (h2 & -> & Hh2 & P2 & Es2); cbn [ht0 ht1 rehashidx iterators set_used used]; [done|lia..|].
  exists h2. split; [do 2 f_equal; unfold set_used; cbn; f_equal; lia|]. split; [done|].
  cbn [ht1] in P2. change (ht_entries (set_used h1' (used h1' + 1))) with (ht_entries h1') in P2.
  split; [|by rewrite Es2, <- Es]. rewrite P2, P', P. solve_Permutation.
Qed.

Lemma not_rehashing_entries (d : dct) : ht1 d = _dictReset -> entries d = ht_entries (ht0 d).
Proof. intros E. unfold entries. rewrite E. apply app_nil_r. Qed.

Lemma dictIsRehashing_true (d : dct) : 0 <= rehashidx d -> dictIsRehashing d = true.
Proof. intros. unfold dictIsRehashing. by zdec. Qed.

(** A table whose buckets are all empty holds nothing. *)
Lemma all_empty (h : ht) t : table h = Some t ->
  (forall i b, i < zlen t -> get_bucket h i = Some b -> b = []) -> ht_entries h = [].
Proof.
  unfold get_bucket, ht_entries. intros ->. cbn [mbind option_bind]. intros He.
  assert (Hall : Forall (fun b => b = []) t).
  { apply list.Forall_forall. intros b (i & Hi)%list_elem_of_lookup.
    apply (He (Z.of_nat i)); [apply lookup_lt_Some in Hi; unfold zlen; lia|].
    unfold zget. zdec. by rewrite Nat2Z.id. }
  clear He. induction Hall as [|b t -> _ IH]; [done|]. done.
Qed.

Lemma used_pos_idx (d : dct) : dict_ok ty d -> dictIsRehashing d = true -> used (ht0 d) <> 0 ->
  rehashidx d < size (ht0 d).
Proof.
  intros [_ Hp] Hr Hu. rewrite Hr in Hp. destruct Hp as (H0 & _ & Hi & He).
  destruct (Z.eq_dec (rehashidx d) (size (ht0 d))) as [E|]; [|lia]. exfalso. apply Hu.
  destruct (ok_table _ _ H0) as (t & Et & El). rewrite (ok_used _ _ H0), (all_empty _ t Et); [done|].
  intros i b Hib. apply He. lia.
Qed.

(** Advancing past an empty bucket. *)
Definition advance (d : dct) : dct := Dict (ht0 d) (ht1 d) (rehashidx d + 1) (iterators d).

Lemma advance_ok (d : dct) : dict_ok ty d -> dictIsRehashing d = true ->
  get_bucket (ht0 d) (rehashidx d) = Some [] -> dict_ok ty (advance d) /\ dictIsRehashing (advance d) = true.
Proof.
  intros [Hb Hp] Hr Hg. rewrite Hr in Hp. destruct Hp as (H0 & H1 & Hi & He).
  assert (Hr' : dictIsRehashing (advance d) = true) by (apply dictIsRehashing_true; cbn; lia).
  split; [|done]. apply get_bucket_range in Hg as Hg'; [|done]. split; [done|].
  rewrite Hr'. cbn. do 2 (split; [done|]). split; [lia|].
  intros i b Hib Hgi. destruct (decide (i = rehashidx d)) as [->|]; [congruence|].
    apply (He i b); [lia|done].
Qed.

Lemma skip_empty_spec fuel : forall d ev,
  dict_ok ty d -> dictIsRehashing d = true -> used (ht0 d) <> 0 ->
  size (ht0 d) - rehashidx d < Z.of_nat fuel ->
  exists ret d' ev', skip_empty fuel d ev = Some (ret, d', ev') /\
    dict_ok ty d' /\ dictIsRehashing d' = true /\
    ht0 d' = ht0 d /\ ht1 d' = ht1 d /\ iterators d' = iterators d /\
    (if ret : bool then rehashidx d < rehashidx d'
     else rehashidx d <= rehashidx d' /\
       exists e b, get_bucket (ht0 d') (rehashidx d') = Some (e :: b)).
Proof.
  induction fuel as [|fuel IH]; intros d ev Hd Hr Hu Hf.
  { pose proof (used_pos_idx d Hd Hr Hu). lia. }
  pose proof (used_pos_idx d Hd Hr Hu). cbn [skip_empty].
  destruct Hd as [Hb Hp]. pose proof Hp as Hp'. rewrite Hr in Hp'. destruct Hp' as (H0 & H1 & Hi & He).
  destruct (get_bucket_ok (ht0 d) (rehashidx d) H0 ltac:(lia)) as [b Eb]. rewrite Eb. cbn [mbind option_bind].
  destruct b as [|e b].
  - destruct (advance_ok d) as [Ha Har]; [done..|]. fold (advance d).
    destruct (ev - 1 =? 0); [exists true, (advance d), (ev - 1); repeat (split; [done|]); cbn; lia|].
    destruct (IH (advance d) (ev - 1)) as (ret & d' & ev' & E & Hok & Hr' & E0 & E1 & Ei & Hret);
      [done..|cbn; lia|].
    exists ret, d', ev'. split; [done|]. cbn in Hret. repeat (split; [done|]).
    destruct ret; [lia|]. destruct Hret. split; [lia|done].
  - exists false, d, ev. do 6 (split; [done|]). split; [lia|]. by exists e, b.
Qed.

(** Moving one bucket: the body of the loop after the empty buckets were skipped. *)
Definition move_bucket (d : dct) : option dct :=
  de ← get_bucket (ht0 d) (rehashidx d);
  d ← move_chain ty d de;
  h0 ← set_bucket (ht0 d) (rehashidx d) [];
  Some (Dict h0 (ht1 d) (rehashidx d + 1) (iterators d)).

Lemma move_bucket_ok d : dict_ok ty d -> dictIsRehashing d = true -> rehashidx d < size (ht0 d) ->
  exists d', move_bucket d = Some d' /\ dict_ok ty d' /\ entries d' ≡ₚ entries d /\
    rehashidx d' = rehashidx d + 1 /\ size (ht0 d') = size (ht0 d) /\ size (ht1 d') = size (ht1 d) /\
    iterators d' = iterators d.
Proof.
  intros [Hb Hp] Hr Hlt. rewrite Hr in Hp. destruct Hp as (H0 & H1 & Hi & He).
  unfold move_bucket. destruct (get_bucket_ok (ht0 d) (rehashidx d) H0 ltac:(lia)) as [de Ede].
  rewrite Ede. cbn [mbind option_bind].
  destruct (set_bucket_ok (ht0 d) (rehashidx d) de [] (used (ht0 d) - zlen de) H0 Ede)
    as (h0' & R & E & Hh0 & P & P' & Es & Em & Eu & G & G'); [constructor|change (zlen []) with 0; lia|].
  unfold max_entries in *. unfold entries in Hb. rewrite zlen_app in Hb.
  pose proof (ok_used _ _ H0). pose proof (ok_used _ _ H1).
  pose proof (zlen_nonneg (ht_entries (ht0 d))). pose proof (zlen_nonneg (ht_entries (ht1 d))).
  assert (zlen (ht_entries (ht0 d)) = zlen de + zlen R) by (unfold zlen; rewrite P, length_app; lia).
  pose proof (zlen_nonneg R). pose proof (zlen_nonneg de).
  destruct (move_chain_spec de d H1) as (h1' & -> & Hh1 & P1 & Es1); [unfold max_entries; lia..|].
  cbn [mbind option_bind ht0 ht1 rehashidx iterators].
  assert (E' : set_bucket (set_used (ht0 d) (used (ht0 d) - zlen de)) (rehashidx d) [] =
    Some (set_used h0' (used (ht0 d) - zlen de))).
  { revert E. unfold set_bucket, set_used. cbn [table]. destruct (table (ht0 d)) as [t|]; [|done].
    cbn [mbind option_bind]. destruct (zput t (rehashidx d) [[]]) as [t'|]; [|done].
    cbn [mbind option_bind]. intros [= <-]. done. }
  rewrite E'. cbn [mbind option_bind]. eexists. split; [done|].
  assert (HP : entries (Dict (set_used h0' (used (ht0 d) - zlen de)) h1' (rehashidx d + 1) (iterators d))
    ≡ₚ entries d).
  { unfold entries. cbn [ht0 ht1].
    change (ht_entries (set_used h0' (used (ht0 d) - zlen de))) with (ht_entries h0').
    rewrite P', P1, P. solve_Permutation. }
  split; [|by repeat split].
  split; [unfold zlen; rewrite HP; unfold entries, zlen in *; rewrite length_app; unfold max_entries; lia|].
  rewrite dictIsRehashing_true by (cbn; lia). cbn [ht0 ht1 rehashidx iterators].
  split; [done|]. split; [done|]. split; [cbn; lia|].
  intros i b Hib Hg. change (get_bucket h0' i = Some b) in Hg.
  destruct (decide (i = rehashidx d)) as [->|]; [congruence|].
  rewrite G' in Hg by done. apply (He i b); [lia|done].
Qed.

(** A batch of steps keeps the entries and either ends the rehashing or advances it. *)
Definition rehash_post (d d' : dct) (n : Z) : Prop :=
  dict_ok ty d' /\ entries d' ≡ₚ entries d /\ iterators d' = iterators d /\ dictIsRehashing d' = true /\
  size (ht0 d') = size (ht0 d) /\ size (ht1 d') = size (ht1 d) /\ rehashidx d <= rehashidx d'.

Lemma rehash_loop_ok fuel : forall d n ev,
  dict_ok ty d -> dictIsRehashing d = true -> size (ht0 d) - rehashidx d < Z.of_nat fuel ->
  exists ret d', rehash_loop ty fuel d n ev = Some (ret, d') /\ rehash_post d d' n /\
    (ret = true -> used (ht0 d') <> 0) /\
    (n <> 0 -> used (ht0 d') <> 0 -> rehashidx d < rehashidx d').
Proof.
  induction fuel as [|fuel IH]; intros d n ev Hd Hr Hf.
  { destruct Hd as [_ Hp]. rewrite Hr in Hp. lia. }
  cbn [rehash_loop]. destruct ((n =? 0) || (used (ht0 d) =? 0)) eqn:Estop.
  { exists false, d. split; [done|]. split; [unfold rehash_post; do 6 (split; [done|]); lia|]. split; [done|].
    apply orb_true_iff in Estop as [?|?]; zb; lia. }
  zb. pose proof (used_pos_idx d Hd Hr ltac:(done)) as Hidx.
  assert (Hri : 0 <= rehashidx d) by (destruct Hd as [_ Hp]; rewrite Hr in Hp; lia).
  assert (Hsz : size (ht0 d) < 2 ^ 64).
  { destruct Hd as [_ Hp]. rewrite Hr in Hp. destruct (ok_size _ _ (proj1 Hp)) as (k & Hk & ->).
    apply Z.pow_lt_mono_r; lia. }
  rewrite uwrap_small by (unfold urange; lia). zdec. zdec.
  destruct (skip_empty_spec (S (Z.to_nat (size (ht0 d)))) d ev) as
    (ret & d1 & ev1 & -> & Hd1 & Hr1 & E0 & E1 & Ei & Hret); [done..|lia|].
  cbn [mbind option_bind].
  assert (Hen : entries d1 = entries d) by (unfold entries; by rewrite E0, E1).
  destruct ret.
  { exists true, d1. split; [done|]. split; [|by rewrite E0]. unfold rehash_post.
    rewrite Hen, E0, E1. repeat (split; [done|]). lia. }
  destruct Hret as [Hle (e & b & Hg)].
  destruct (move_bucket_ok d1 Hd1 Hr1) as (d2 & Em & Hd2 & P2 & Er2 & Es0 & Es1 & Ei2).
  { assert (ht_ok ty (ht0 d1)) by (destruct Hd1 as [_ Hp]; rewrite Hr1 in Hp; apply Hp).
    apply get_bucket_range in Hg; [lia|done]. }
  unfold move_bucket in Em. rewrite Hg in Em |- *. cbn [mbind option_bind] in Em |- *.
  destruct (move_chain ty d1 (e :: b)) as [d1'|]; [|done]. cbn [mbind option_bind] in Em |- *.
  destruct (set_bucket (ht0 d1') (rehashidx d1') []) as [h0'|]; [|done]. cbn [mbind option_bind] in Em |- *.
  injection Em as Em. rewrite Em.
  assert (Hr2 : dictIsRehashing d2 = true) by (apply dictIsRehashing_true; lia).
  destruct (IH d2 (n - 1) ev1) as (ret & d3 & -> & (Hd3 & P3 & Ei3 & Hr3 & Es03 & Es13 & Hle3) & Hret3 & _);
    [done..|rewrite Es0, E0; lia|].
  exists ret, d3. split; [done|]. split; [|split; [done|lia]].
  split; [done|]. split; [by rewrite P3, P2, Hen|]. split; [congruence|].
  split; [done|]. split; [congruence|]. split; [congruence|lia].
Qed.

Lemma dictRehash_ok d n : dict_ok ty d ->
  exists r d', dictRehash ty d n = Some (r, d') /\ dict_ok ty d' /\ entries d' ≡ₚ entries d /\
    iterators d' = iterators d /\
    (r = if dictIsRehashing d' then 1 else 0) /\
    (dictIsRehashing d' = true -> dictIsRehashing d = true /\ size (ht0 d') = size (ht0 d) /\
       size (ht1 d') = size (ht1 d) /\ (n <> 0 -> rehashidx d < rehashidx d')) /\
    (dictIsRehashing d = true -> ht_ok ty (ht0 d') /\
       (dictIsRehashing d' = false -> size (ht0 d') = size (ht1 d))) /\
    (dictIsRehashing d = false -> d' = d).
Proof.
  intros Hd. unfold dictRehash. destruct (dictIsRehashing d) eqn:Hr; cbn [negb].
  2:{ exists 0, d. rewrite Hr. by repeat (split; [done|]). }
  destruct (rehash_loop_ok (S (Z.to_nat (size (ht0 d)))) d n (s32 (n * 10)))
    as (ret & d' & -> & (Hd' & P & Ei & Hr' & Es0 & Es1 & Hle) & Hret & Hprog); [done..| |].
  { destruct Hd as [_ Hp]. rewrite Hr in Hp. lia. }
  pose proof Hd' as [Hb' Hp']. rewrite Hr' in Hp'. destruct Hp' as (H0' & H1' & Hi' & He').
  cbn [mbind option_bind].
  assert (Hgo : used (ht0 d') <> 0 -> exists r d'', Some (1, d') = Some (r, d'') /\ dict_ok ty d'' /\
    entries d'' ≡ₚ entries d /\ iterators d'' = iterators d /\ r = (if dictIsRehashing d'' then 1 else 0) /\
    (dictIsRehashing d'' = true -> true = true /\ size (ht0 d'') = size (ht0 d) /\
       size (ht1 d'') = size (ht1 d) /\ (n <> 0 -> rehashidx d < rehashidx d'')) /\
    (true = true -> ht_ok ty (ht0 d'') /\ (dictIsRehashing d'' = false -> size (ht0 d'') = size (ht1 d))) /\
    (true = false -> d'' = d)).
  { intros Hu. exists 1, d'. rewrite Hr'. repeat (split; [done|]). split; [|done].
    intros _. repeat (split; [done|]). intros Hn. by apply Hprog. }
  destruct ret; [by apply Hgo, Hret|].
  destruct (Z.eqb_spec (used (ht0 d')) 0) as [Hz|Hz]; [|by apply Hgo].
  assert (E0 : ht_entries (ht0 d') = []) by (rewrite (ok_used _ _ H0') in Hz; by apply zlen_0_nil).
  eexists 0, _. split; [done|].
  assert (HP : entries (Dict (ht1 d') _dictReset (-1) (iterators d')) ≡ₚ entries d).
  { rewrite <- P. unfold entries. cbn [ht0 ht1]. by rewrite E0, app_nil_r. }
  split; [|split; [done|split; [done|split; [done|split; [done|split; [|done]]]]]].
  - split; [unfold zlen; rewrite HP, <- P; apply Hb'|]. cbn. split; [done|]. by right.
  - cbn. intros _. split; [done|]. intros _. done.
Qed.

Lemma rehash_if_needed_ok d : dict_ok ty d ->
  exists d', rehash_if_needed ty d = Some d' /\ dict_ok ty d' /\ entries d' ≡ₚ entries d /\
    iterators d' = iterators d /\ (ht_ok ty (ht0 d) -> ht_ok ty (ht0 d')) /\
    (dictIsRehashing d' = true -> dictIsRehashing d = true).
Proof.
  intros Hd. unfold rehash_if_needed. destruct (dictIsRehashing d) eqn:Hr; [|exists d; eauto 10].
  unfold _dictRehashStep. destruct (iterators d =? 0); [|exists d; eauto 10].
  destruct (dictRehash_ok d 1 Hd) as (r & d' & -> & Hd' & P & Ei & _ & _ & Hh & _). cbn [mbind option_bind].
  exists d'. repeat (split; [done|]). split; [|done]. intros _. by apply Hh.
Qed.

(** ** Resizing *)

Lemma next_power_loop_spec fuel : forall k sz, 2 <= k -> k + Z.of_nat fuel = 66 -> sz <= 2 ^ 63 ->
  (k = 2 \/ 2 ^ (k - 1) < sz) ->
  exists j, next_power_loop fuel (2 ^ k) sz = Some (2 ^ j) /\ k <= j <= 63 /\ sz <= 2 ^ j /\
    (j = 2 \/ 2 ^ (j - 1) < sz).
Proof.
  induction fuel as [|fuel IH]; intros k sz Hk Hf Hs Hmin.
  { destruct Hmin as [?|Hmin]; [lia|]. assert (2 ^ 63 <= 2 ^ (k - 1)) by (apply Z.pow_le_mono_r; lia). lia. }
  assert (k <= 63 \/ sz <= 2 ^ k).
  { destruct (Z.le_gt_cases k 63); [by left|]. right. etransitivity; [exact Hs|]. apply Z.pow_le_mono_r; lia. }
  cbn [next_power_loop]. rewrite Z.geb_leb. destruct (Z.leb_spec sz (2 ^ k)) as [Hle|Hgt].
  - exists k. split; [done|]. split; [|done]. split; [lia|]. destruct Hmin as [?|Hmin]; [lia|].
    destruct (Z.le_gt_cases k 63); [done|].
    assert (2 ^ 63 <= 2 ^ (k - 1)) by (apply Z.pow_le_mono_r; lia). lia.
  - assert (k < 63).
    { destruct (Z.lt_ge_cases k 63); [done|]. assert (2 ^ 63 <= 2 ^ k) by (apply Z.pow_le_mono_r; lia). lia. }
    assert (E : 2 ^ k * 2 = 2 ^ (k + 1)) by (rewrite Z.pow_add_r by lia; lia).
    rewrite E, uwrap_small; [|split; [lia|]; apply Z.pow_lt_mono_r; lia].
    destruct (IH (k + 1) sz) as (j & -> & Hj & Hj2 & Hj3); [lia..|right; by replace (k + 1 - 1) with k by lia|].
    exists j. repeat (split; [done || lia|]). done.
Qed.

Lemma dictNextPower_spec sz : 0 <= sz < 2 ^ 63 ->
  exists j, _dictNextPower sz = Some (2 ^ j) /\ 2 <= j <= 63 /\ sz <= 2 ^ j /\ (j = 2 \/ 2 ^ (j - 1) < sz).
Proof.
  intros Hs. unfold _dictNextPower, LONG_MAX. rewrite Z.geb_leb.
  destruct (Z.leb_spec (2 ^ 63 - 1) sz).
  - exists 63. change (2 ^ (63 - 1)) with 4611686018427387904. split; [|lia]. done.
  - change DICT_HT_INITIAL_SIZE with (2 ^ 2). apply next_power_loop_spec; lia.
Qed.

(** The freshly allocated table. *)
Definition fresh_ht (k : Z) : ht :=
  Dictht (Some (replicate (Z.to_nat (2 ^ k)) [])) (2 ^ k) (u64 (2 ^ k - 1)) 0.

Lemma fresh_ht_bucket k i b : get_bucket (fresh_ht k) i = Some b -> b = [].
Proof. cbn. intros [_ Hl]%zget_Some. by apply lookup_replicate in Hl as [-> _]. Qed.

Lemma fresh_ht_ok k : 2 <= k <= 63 -> ht_ok ty (fresh_ht k) /\ ht_entries (fresh_ht k) = [].
Proof.
  intros Hk. assert (E : ht_entries (fresh_ht k) = []).
  { eapply all_empty; [done|]. intros i b _. apply fresh_ht_bucket. }
  split; [|done]. split; cbn.
  - eexists. split; [done|]. rewrite zlen_replicate. lia.
  - by exists k.
  - apply uwrap_small. split; [lia|]. assert (2 ^ k <= 2 ^ 63) by (apply Z.pow_le_mono_r; lia). lia.
  - change (0 = zlen (ht_entries (fresh_ht k))). by rewrite E.
  - intros i b ->%fresh_ht_bucket. constructor.
Qed.

Lemma dictExpand_ok d sz : dict_ok ty d -> 0 <= sz < 2 ^ 63 ->
  exists r d', dictExpand d sz = Some (r, d') /\ dict_ok ty d' /\ entries d' = entries d /\
    iterators d' = iterators d /\
    ((r = DICT_ERR /\ d' = d /\ (dictIsRehashing d = true \/ sz < used (ht0 d) \/
       exists j, size (ht0 d) = 2 ^ j /\ sz <= 2 ^ j /\ (j = 2 \/ 2 ^ (j - 1) < sz))) \/
     (r = DICT_OK /\ dictIsRehashing d = false /\ ht_ok ty (ht0 d') /\
       exists j, sz <= 2 ^ j /\ (j = 2 \/ 2 ^ (j - 1) < sz) /\
       (if dictIsRehashing d' then ht_ok ty (ht0 d) /\ size (ht1 d') = 2 ^ j else size (ht0 d') = 2 ^ j))).
Proof.
  intros Hd Hs. unfold dictExpand. destruct (dictIsRehashing d) eqn:Hr; cbn [orb].
  { exists DICT_ERR, d. repeat (split; [done|]). left. by auto. }
  rewrite Z.gtb_ltb. destruct (Z.ltb_spec sz (used (ht0 d))).
  { exists DICT_ERR, d. repeat (split; [done|]). left. by auto. }
  destruct (dictNextPower_spec sz Hs) as (j & -> & Hj & Hj1 & Hj2). cbn [mbind option_bind].
  destruct (Z.eqb_spec (2 ^ j) (size (ht0 d))) as [E|E].
  { exists DICT_ERR, d. repeat (split; [done|]). left. split; [done|]. split; [done|]. right. right.
    by exists j. }
  fold (fresh_ht j). destruct (fresh_ht_ok j Hj) as [Hf Ef].
  destruct Hd as [Hb Hp]. rewrite Hr in Hp. destruct Hp as [E1 [E0|H0]].
  - assert (Et : table (ht0 d) = None) by (by rewrite E0). rewrite Et.
    eexists _, _. split; [done|].
    assert (Een : entries (set_ht d 0 (fresh_ht j)) = entries d).
    { unfold entries, set_ht. cbn [Z.eqb ht0 ht1]. by rewrite E1, Ef, E0. }
    split; [|split; [done|split; [done|]]].
    + split; [by rewrite Een|]. unfold set_ht, dictIsRehashing in *. cbn in *. rewrite Hr.
      split; [done|by right].
    + right. repeat (split; [done|]). exists j. split; [done|]. split; [done|].
      unfold set_ht, dictIsRehashing in *. cbn in *. by rewrite Hr.
  - destruct (ok_table _ _ H0) as (t & -> & Et). eexists _, _. split; [done|].
    assert (Een : entries (Dict (ht0 d) (fresh_ht j) 0 (iterators d)) = entries d).
    { unfold entries. cbn [ht0 ht1]. by rewrite E1, Ef. }
    split; [|split; [done|split; [done|]]].
    + split; [by rewrite Een|]. cbn. do 2 (split; [done|]). split.
      * destruct (ok_size _ _ H0) as (k & ? & ->). lia.
      * intros i b Hi Hg. apply get_bucket_range in Hg; [lia|done].
    + right. do 2 (split; [done|]). split; [done|]. exists j. by repeat (split; [done|]).
Qed.

Lemma dictExpandIfNeeded_ok can_resize d : dict_ok ty d ->
  exists d', _dictExpandIfNeeded can_resize d = Some (DICT_OK, d') /\ dict_ok ty d' /\
    entries d' = entries d /\ iterators d' = iterators d /\ ht_ok ty (ht0 d').
Proof.
  intros Hd. unfold _dictExpandIfNeeded. destruct (dictIsRehashing d) eqn:Hr.
  { exists d. repeat (split; [done|]). destruct Hd as [_ Hp]. rewrite Hr in Hp. apply Hp. }
  pose proof Hd as [Hb Hp]. rewrite Hr in Hp. destruct Hp as [E1 Hp].
  assert (Hgo : forall sz, 0 <= sz < 2 ^ 63 -> used (ht0 d) <= sz -> size (ht0 d) < sz ->
    exists d', dictExpand d sz = Some (DICT_OK, d') /\ dict_ok ty d' /\
      entries d' = entries d /\ iterators d' = iterators d /\ ht_ok ty (ht0 d')).
  { intros sz Hsz Hu Hlt. destruct (dictExpand_ok d sz Hd Hsz) as (r & d' & -> & Hd' & En & Ei & Hcase).
    exists d'. destruct Hcase as [(_ & _ & [?|[?|(j & ? & ? & _)]])|(-> & _ & Hh & _)]; [congruence|lia..|done]. }
  destruct Hp as [E0|H0].
  - rewrite E0. cbn [size _dictReset Z.eqb]. apply Hgo; rewrite ?E0; done.
  - destruct (ok_size _ _ H0) as (k & Hk & Ek).
    assert (0 < size (ht0 d)) by (rewrite Ek; lia). zdec. rewrite Z.geb_leb.
    destruct (Z.leb_spec (size (ht0 d)) (used (ht0 d))); cbn [andb]; [|by exists d].
    destruct (_ || _); [|by exists d].
    assert (used (ht0 d) <= max_entries).
    { rewrite (ok_used _ _ H0). rewrite not_rehashing_entries in Hb by done. done. }
    unfold max_entries in *. rewrite uwrap_small by (unfold urange; lia). apply Hgo; lia.
Qed.

(** ** Entries and places *)

(** The callbacks behave: [keyCompare] decides equality of keys and [keyDup] copies. *)
Class DictTypeOk : Prop := {
  compare_ok f a b : keyCompare ty = Some f -> f a b = true <-> a = b;
  keyDup_ok f k : keyDup ty = Some f -> f k = k
}.
Context `{Hty : DictTypeOk}.
#[local] Set Default Proof Using "All".

Lemma same_key_iff a b : same_key ty a b = true <-> a = b.
Proof.
  unfold same_key, dictCompareKeys. rewrite orb_true_iff, bool_decide_eq_true.
  destruct (keyCompare ty) as [f|] eqn:E; [rewrite (compare_ok f a b E)|rewrite bool_decide_eq_true]; tauto.
Qed.

Lemma key_stored_id k : key_stored ty k = k.
Proof. unfold key_stored. destruct (keyDup ty) as [f|] eqn:E; [by apply keyDup_ok|done]. Qed.

Lemma find_chain_spec key b : forall n,
  match find_chain ty key b n with
  | Some pos => exists v, (n <= pos)%nat /\ b !! (pos - n)%nat = Some (key, v)
  | None => key ∉ b.*1
  end.
Proof.
  induction b as [|[k v] b IH]; intros n; cbn [find_chain]; [apply not_elem_of_nil|].
  destruct (same_key ty key k) eqn:E.
  - apply same_key_iff in E as ->. exists v. split; [lia|]. by replace (n - n)%nat with 0%nat by lia.
  - assert (key <> k) by (intros ->; rewrite (proj2 (same_key_iff k k) eq_refl) in E; done).
    specialize (IH (S n)). destruct (find_chain ty key b (S n)) as [pos|].
    + destruct IH as (w & Hle & Hw). exists w. split; [lia|].
      replace (pos - n)%nat with (S (pos - S n)) by lia. done.
    + cbn. apply not_elem_of_cons. by split.
Qed.

(** The entries of a table with a given key are those of the bucket its hash selects. *)
Lemma key_bucket h key b : ht_ok ty h -> get_bucket h (dictHashKey ty key mod size h) = Some b ->
  key ∉ b.*1 -> key ∉ (ht_entries h).*1.
Proof.
  intros Hh Hg Hb (e & -> & He)%list_elem_of_fmap. apply Hb. apply list_elem_of_fmap. exists e. split; [done|].
  destruct (entry_bucket h e Hh He) as (b' & Hg' & He'). congruence.
Qed.

(** Valid tables of a dictionary. *)
Definition live (d : dct) (t : Z) : Prop := t = 0 \/ (t = 1 /\ dictIsRehashing d = true).

Lemma find_tables_spec d key : dict_ok ty d -> ht_ok ty (ht0 d) ->
  exists e, find_tables ty d key (dictHashKey ty key) = Some e /\
    match e with
    | Some p => live d (p_table p) /\ exists v, entry_at d p = Some (key, v)
    | None => key ∉ (entries d).*1
    end.
Proof.
  intros [_ Hp] H0. unfold find_tables.
  destruct (mask_index (ht0 d) (dictHashKey ty key) H0) as [-> Hi0].
  destruct (get_bucket_ok _ _ H0 Hi0) as [b0 Eb0]. rewrite Eb0. cbn [mbind option_bind].
  pose proof (find_chain_spec key b0 0) as F0. destruct (find_chain ty key b0 0) as [pos|].
  { destruct F0 as (v & _ & Hl). rewrite Nat.sub_0_r in Hl. eexists. split; [done|].
    split; [by left|]. exists v. unfold entry_at. cbn [p_table p_index p_pos get_ht Z.eqb].
    change (get_ht d 0) with (ht0 d). by rewrite Eb0. }
  pose proof (key_bucket _ _ _ H0 Eb0 F0) as N0.
  destruct (dictIsRehashing d) eqn:Hr; cbn [negb].
  - destruct Hp as (_ & H1 & _).
    destruct (mask_index (ht1 d) (dictHashKey ty key) H1) as [-> Hi1].
    destruct (get_bucket_ok _ _ H1 Hi1) as [b1 Eb1]. rewrite Eb1. cbn [mbind option_bind].
    pose proof (find_chain_spec key b1 0) as F1. destruct (find_chain ty key b1 0) as [pos|].
    + destruct F1 as (v & _ & Hl). rewrite Nat.sub_0_r in Hl. eexists. split; [done|].
      split; [by right|]. exists v. unfold entry_at. cbn [p_table p_index p_pos].
      change (get_ht d 1) with (ht1 d). by rewrite Eb1.
    + pose proof (key_bucket _ _ _ H1 Eb1 F1) as N1. exists None. split; [done|].
      unfold entries. rewrite fmap_app, elem_of_app. tauto.
  - destruct Hp as [E1 _]. exists None. split; [done|]. by rewrite not_rehashing_entries.
Qed.

(** Replacing a bucket of a live table. *)
Lemma put_bucket_ok d t i b b' n : dict_ok ty d -> ht_ok ty (ht0 d) -> live d t ->
  get_bucket (get_ht d t) i = Some b -> Forall (in_bucket ty (get_ht d t) i) b' ->
  n = used (get_ht d t) - zlen b + zlen b' ->
  zlen (entries d) - zlen b + zlen b' <= max_entries ->
  (t = 0 -> dictIsRehashing d = true -> i < rehashidx d -> b' = []) ->
  exists h' R, set_bucket (get_ht d t) i b' = Some h' /\ used h' = used (get_ht d t) /\
    dict_ok ty (set_ht d t (set_used h' n)) /\
    entries d ≡ₚ b ++ R /\ entries (set_ht d t (set_used h' n)) ≡ₚ b' ++ R /\
    get_bucket (get_ht (set_ht d t (set_used h' n)) t) i = Some b' /\
    ht_ok ty (ht0 (set_ht d t (set_used h' n))).
Proof.
  intros [Hb Hp] H0 Hl Hg Hf Hn Hmax Hidx.
  assert (Hht : ht_ok ty (get_ht d t)).
  { destruct Hl as [->|[-> Hr]]; [done|]. rewrite Hr in Hp. apply Hp. }
  destruct (set_bucket_ok _ i b b' n Hht Hg Hf Hn) as (h' & R & E & Hh' & P & P' & Es & Em & Eu & G & G').
  assert (exists Q, entries d ≡ₚ b ++ Q /\ entries (set_ht d t (set_used h' n)) ≡ₚ b' ++ Q) as (Q & PQ & PQ').
  { destruct Hl as [->|[-> _]].
    - exists (R ++ ht_entries (ht1 d)). unfold entries, set_ht. cbn [Z.eqb ht0 ht1].
      change (get_ht d 0) with (ht0 d) in P. change (ht_entries (set_used h' n)) with (ht_entries h').
      rewrite P, P'. split; solve_Permutation.
    - exists (R ++ ht_entries (ht0 d)). unfold entries, set_ht. cbn [Z.eqb ht0 ht1].
      change (get_ht d 1) with (ht1 d) in P. change (ht_entries (set_used h' n)) with (ht_entries h').
      rewrite P, P'. split; solve_Permutation. }
  exists h', Q. do 2 (split; [done|]).
  split; [|split; [done|split; [done|split; [by destruct Hl as [->|[-> _]]|by destruct Hl as [->|[-> _]]]]]].
  split.
  { unfold zlen in *. rewrite PQ', length_app. rewrite PQ, length_app in Hmax. lia. }
  destruct Hl as [->|[-> Hr]]; unfold set_ht, dictIsRehashing in *; cbn [Z.eqb ht0 ht1 rehashidx] in *.
  - change (get_ht d 0) with (ht0 d) in *. destruct (negb (rehashidx d =? -1)).
    + destruct Hp as (_ & H1 & Hi & He). do 2 (split; [done|]). cbn [size set_used]. rewrite Es.
      split; [done|]. intros j bj Hj Hgj. change (get_bucket h' j = Some bj) in Hgj.
      destruct (decide (j = i)) as [->|]; [|rewrite G' in Hgj by done; by apply (He j)].
      rewrite G in Hgj. simplify_eq. by apply Hidx.
    + destruct Hp as [E1 _]. split; [done|by right].
  - rewrite Hr in *. destruct Hp as (_ & H1 & Hi & He). done.
Qed.

Lemma bucket_member d t i b pos e : get_bucket (get_ht d t) i = Some b -> ht_ok ty (get_ht d t) ->
  b !! pos = Some e -> in_bucket ty (get_ht d t) i e.
Proof.
  intros Hg Hh Hl. pose proof (ok_buckets _ _ Hh _ _ Hg) as Hf.
  by rewrite list.Forall_lookup in Hf; eapply Hf.
Qed.

Lemma live_ok d t : dict_ok ty d -> ht_ok ty (ht0 d) -> live d t -> ht_ok ty (get_ht d t).
Proof. intros [_ Hp] H0 [->|[-> Hr]]; [done|]. rewrite Hr in Hp. apply Hp. Qed.

(** A bucket in front of the rehashing index is empty. *)
Lemma nonempty_ahead d i b x : dict_ok ty d -> get_bucket (get_ht d 0) i = Some b -> x ∈ b ->
  dictIsRehashing d = true -> i < rehashidx d -> False.
Proof.
  intros [_ Hp] Hg Hx Hr Hi. rewrite Hr in Hp. destruct Hp as (_ & _ & _ & He).
  rewrite (He i b Hi Hg) in Hx. by apply elem_of_nil in Hx.
Qed.

Lemma dictSetVal_ok d p val k v0 : dict_ok ty d -> ht_ok ty (ht0 d) -> live d (p_table p) ->
  entry_at d p = Some (k, v0) ->
  exists d' R, dictSetVal ty d p val = Some d' /\ dict_ok ty d' /\
    entries d ≡ₚ (k, v0) :: R /\ entries d' ≡ₚ (k, val_stored ty val) :: R.
Proof.
  intros Hd H0 Hl He. unfold entry_at in He. unfold dictSetVal.
  destruct p as [t i pos]; cbn [p_table p_index p_pos] in *.
  destruct (get_bucket (get_ht d t) i) as [b|] eqn:Hg; [|done]. cbn [mbind option_bind] in *.
  rewrite He. cbn [mbind option_bind].
  pose proof (live_ok d t Hd H0 Hl) as Hh.
  destruct (put_bucket_ok d t i b (<[pos := (k, val_stored ty val)]> b) (used (get_ht d t)))
    as (h' & R & -> & Eu & Hd' & P & P' & _ & _); try done.
  - apply Forall_insert; [by apply (ok_buckets _ _ Hh)|].
    pose proof (bucket_member d t i b pos (k, v0) Hg Hh He). done.
  - unfold zlen. rewrite length_insert. lia.
  - unfold zlen. rewrite length_insert. destruct Hd. unfold zlen in *. lia.
  - intros -> Hr Hi. exfalso. eapply nonempty_ahead; [done..|by eapply list_elem_of_lookup_2|done|done].
  - rewrite <- Eu, set_used_same in Hd', P' by done. cbn [mbind option_bind].
    eexists _, (take pos b ++ drop (S pos) b ++ R). split; [done|]. split; [done|].
    rewrite P, P'. split.
    + rewrite <- (take_drop_middle b pos (k, v0) He) at 1. solve_Permutation.
    + rewrite insert_take_drop by (by eapply lookup_lt_Some). solve_Permutation.
Qed.

Lemma unlink_ok d p k v0 : dict_ok ty d -> ht_ok ty (ht0 d) -> live d (p_table p) ->
  entry_at d p = Some (k, v0) ->
  exists d', unlink d p = Some ((k, v0), d') /\ dict_ok ty d' /\ entries d ≡ₚ (k, v0) :: entries d'.
Proof.
  intros Hd H0 Hl He. unfold entry_at in He. unfold unlink.
  destruct p as [t i pos]; cbn [p_table p_index p_pos] in *.
  destruct (get_bucket (get_ht d t) i) as [b|] eqn:Hg; [|done]. cbn [mbind option_bind] in *.
  rewrite He. cbn [mbind option_bind].
  pose proof (live_ok d t Hd H0 Hl) as Hh.
  pose proof (take_drop_middle b pos (k, v0) He) as Eb.
  assert (Hlb : zlen b = zlen (unlink_at pos b) + 1) by (rewrite <- Eb at 1; unfold unlink_at; zlia).
  destruct (put_bucket_ok d t i b (unlink_at pos b) (used (get_ht d t) - 1))
    as (h' & R & -> & Eu & Hd' & P & P' & _ & _); try done; try lia.
  - pose proof (ok_buckets _ _ Hh _ _ Hg) as Hf. unfold unlink_at. rewrite Forall_app.
    split; [by apply Forall_take|by apply Forall_drop].
  - destruct Hd. lia.
  - intros -> Hr Hi. exfalso. eapply nonempty_ahead; [done..|by eapply list_elem_of_lookup_2|done|done].
  - cbn [mbind option_bind].
    assert (Hu : 1 <= used (get_ht d t) < 2 ^ 64).
    { rewrite (ok_used _ _ Hh). destruct (set_bucket_spec _ i b b Hg) as (h2 & R2 & _ & P2 & _ & _).
      destruct Hd as [Hb _]. unfold max_entries in Hb.
      assert (zlen (ht_entries (get_ht d t)) <= zlen (entries d)).
      { unfold entries. destruct Hl as [->|[-> _]]; cbn [get_ht Z.eqb];
          [change (get_ht d 0) with (ht0 d)|change (get_ht d 1) with (ht1 d)]; zlia. }
      assert (1 <= zlen (ht_entries (get_ht d t))); [|lia].
      unfold zlen at 1. rewrite P2, length_app. unfold zlen in Hlb. lia. }
    rewrite Eu, uwrap_small by (unfold urange; lia). eexists. split; [done|]. split; [done|].
    rewrite P, P'. rewrite <- Eb at 1. unfold unlink_at. solve_Permutation.
Qed.

(** ** Refinement of finite maps *)

Definition represents (d : dct) (m : gmap K V) : Prop := dict_ok ty d /\ entries d ≡ₚ map_to_list m.

Lemma represents_key (d : dct) (m : gmap K V) k : entries d ≡ₚ map_to_list m -> k ∉ (entries d).*1 -> m !! k = None.
Proof.
  intros P Hk. destruct (m !! k) as [v|] eqn:E; [|done]. exfalso. apply Hk.
  apply list_elem_of_fmap. exists (k, v). split; [done|]. rewrite P. by apply elem_of_map_to_list.
Qed.

Lemma represents_cons k v R (m : gmap K V) : (k, v) :: R ≡ₚ map_to_list m -> m !! k = Some v /\ R ≡ₚ map_to_list (delete k m).
Proof.
  intros P. assert (Hm : m !! k = Some v) by (apply elem_of_map_to_list; rewrite <- P; by left).
  split; [done|]. rewrite <- (insert_delete_id m k v Hm), map_to_list_insert in P by apply lookup_delete_eq.
  by apply Permutation_cons_inv in P.
Qed.

Lemma represents_put k v R (m : gmap K V) : R ≡ₚ map_to_list (delete k m) -> (k, v) :: R ≡ₚ map_to_list (<[k := v]> m).
Proof.
  intros P. rewrite <- insert_delete_eq, map_to_list_insert by apply lookup_delete_eq. by rewrite P.
Qed.

Lemma find_represents d m key : represents d m -> ht_ok ty (ht0 d) ->
  exists e, find_tables ty d key (dictHashKey ty key) = Some e /\
    match e with
    | Some p => live d (p_table p) /\ exists v, entry_at d p = Some (key, v) /\ m !! key = Some v
    | None => m !! key = None
    end.
Proof.
  intros [Hd P] H0. destruct (find_tables_spec d key Hd H0) as (e & -> & He). exists e. split; [done|].
  destruct e as [p|]; [|by eapply represents_key].
  destruct He as [Hl (v & Hv)]. split; [done|]. exists v. split; [done|].
  destruct (dictSetVal_ok d p inhabitant key v) as (_ & R & _ & _ & P' & _); [done..|].
  rewrite P in P'. symmetry in P'. by apply represents_cons in P' as [? _].
Qed.

Lemma map_size_entries (d : dct) (m : gmap K V) : entries d ≡ₚ map_to_list m ->
  zlen (entries d) = Z.of_nat (map_size m).
Proof. intros P. unfold zlen. by rewrite P, length_map_to_list. Qed.

Lemma dictAddRaw_ok can_resize d m key : represents d m -> Z.of_nat (map_size m) < max_entries ->
  exists d', ht_ok ty (ht0 d') /\ dict_ok ty d' /\
    match m !! key with
    | Some v => exists p, dictAddRaw ty can_resize d key = Some (None, Some p, d') /\
        represents d' m /\ live d' (p_table p) /\ entry_at d' p = Some (key, v)
    | None => exists p, dictAddRaw ty can_resize d key = Some (Some p, None, d') /\
        entries d' ≡ₚ (key, inhabitant) :: map_to_list m /\ live d' (p_table p) /\
        entry_at d' p = Some (key, inhabitant)
    end.
Proof.
  intros [Hd P] Hsz. unfold dictAddRaw.
  destruct (rehash_if_needed_ok d Hd) as (d1 & -> & Hd1 & P1 & _). cbn [mbind option_bind].
  unfold _dictKeyIndex.
  destruct (dictExpandIfNeeded_ok can_resize d1 Hd1) as (d2 & -> & Hd2 & P2 & _ & H02).
  cbn [mbind option_bind]. change (DICT_OK =? DICT_ERR) with false. cbn match.
  assert (R2 : represents d2 m) by (split; [done|]; by rewrite P2, P1).
  destruct (find_represents d2 m key R2 H02) as (e & -> & He). cbn [mbind option_bind].
  destruct e as [p|].
  { destruct He as (Hl & v & Hv & Em). cbn [mbind option_bind Z.eqb]. exists d2.
    do 2 (split; [done|]). rewrite Em. by exists p. }
  cbn [mbind option_bind]. rewrite He.
  set (t := if dictIsRehashing d2 then 1 else 0).
  assert (Hl : live d2 t) by (unfold t, live; destruct (dictIsRehashing d2); auto).
  assert (Et : (if dictIsRehashing d2 then ht1 d2 else ht0 d2) = get_ht d2 t)
    by (unfold t; by destruct (dictIsRehashing d2)).
  rewrite Et. pose proof (live_ok d2 t Hd2 H02 Hl) as Hh.
  destruct (mask_index (get_ht d2 t) (dictHashKey ty key) Hh) as [-> Hi]. zdec.
  destruct (get_bucket_ok _ _ Hh Hi) as [b Hb]. rewrite Hb. cbn [mbind option_bind].
  rewrite key_stored_id.
  assert (Hn : zlen (entries d2) = Z.of_nat (map_size m)) by (apply map_size_entries, R2).
  destruct (put_bucket_ok d2 t (dictHashKey ty key mod size (get_ht d2 t)) b ((key, inhabitant) :: b) (used (get_ht d2 t) + 1))
    as (h' & R & -> & Eu & Hd' & PR & PR' & Hg' & H0'); try done.
  - constructor; [done|]. by apply (ok_buckets _ _ Hh).
  - zlia.
  - zlia.
  - intros Et0 Hr. unfold t in Et0. by rewrite Hr in Et0.
  - cbn [mbind option_bind].
    assert (0 <= used (get_ht d2 t) <= max_entries).
    { rewrite (ok_used _ _ Hh). assert (zlen (ht_entries (get_ht d2 t)) <= zlen (entries d2)); [|zlia].
      unfold entries, t, get_ht. destruct (dictIsRehashing d2); cbn [Z.eqb]; zlia. }
    unfold max_entries in *. rewrite Eu, uwrap_small by (unfold urange; lia).
    eexists. do 2 (split; [done|]). eexists. split; [done|]. split; [|split].
    + rewrite PR'. cbn [app]. rewrite <- PR. by rewrite P2, P1, P.
    + unfold live, set_ht, t, dictIsRehashing in *. destruct (negb (rehashidx d2 =? -1)) eqn:Er; cbn; auto.
    + unfold entry_at. cbn [p_table p_index p_pos]. by rewrite Hg'.
Qed.

Lemma dictAdd_ok can_resize d m key val : represents d m -> Z.of_nat (map_size m) < max_entries ->
  exists d', dictAdd ty can_resize d key val =
      Some (match m !! key with Some _ => DICT_ERR | None => DICT_OK end, d') /\
    represents d' (match m !! key with Some _ => m | None => <[key := val_stored ty val]> m end).
Proof.
  intros Hr Hsz. unfold dictAdd. destruct (dictAddRaw_ok can_resize d m key Hr Hsz) as (d1 & H01 & Hd1 & H).
  destruct (m !! key) as [v|] eqn:Em.
  - destruct H as (p & -> & Hr1 & _). cbn [mbind option_bind]. eauto.
  - destruct H as (p & -> & P1 & Hl & He). cbn [mbind option_bind].
    destruct (dictSetVal_ok d1 p val key inhabitant) as (d2 & R & -> & Hd2 & P & P'); [done..|].
    cbn [mbind option_bind]. eexists. split; [done|]. split; [done|].
    rewrite P'. apply represents_put. rewrite delete_id by done.
    rewrite P1 in P. by apply Permutation_cons_inv in P as ->.
Qed.

Lemma dictReplace_ok can_resize d m key val : represents d m -> Z.of_nat (map_size m) < max_entries ->
  exists d', dictReplace ty can_resize d key val =
      Some (match m !! key with Some _ => 0 | None => 1 end, m !! key, d') /\
    represents d' (<[key := val_stored ty val]> m).
Proof.
  intros Hr Hsz. unfold dictReplace. destruct (dictAddRaw_ok can_resize d m key Hr Hsz) as (d1 & H01 & Hd1 & H).
  destruct (m !! key) as [v|] eqn:Em.
  - destruct H as (p & -> & [_ Pm] & Hl & He). cbn [mbind option_bind]. rewrite He. cbn [mbind option_bind].
    destruct (dictSetVal_ok d1 p val key v) as (d2 & R & -> & Hd2 & P & P'); [done..|].
    cbn [mbind option_bind]. eexists. split; [done|]. split; [done|].
    rewrite P'. apply represents_put. rewrite Pm in P. symmetry in P. by apply represents_cons in P as [_ ?].
  - destruct H as (p & -> & P1 & Hl & He). cbn [mbind option_bind].
    destruct (dictSetVal_ok d1 p val key inhabitant) as (d2 & R & -> & Hd2 & P & P'); [done..|].
    cbn [mbind option_bind]. eexists. split; [done|]. split; [done|].
    rewrite P'. apply represents_put. rewrite delete_id by done.
    rewrite P1 in P. by apply Permutation_cons_inv in P as ->.
Qed.

(** A dictionary with entries has an allocated first table. *)
Lemma nonempty_allocated d : dict_ok ty d -> dictSize d <> 0 -> ht_ok ty (ht0 d).
Proof.
  intros [_ Hp] Hs. destruct (dictIsRehashing d) eqn:Hr; [apply Hp|].
  destruct Hp as [E1 [E0|?]]; [|done]. unfold dictSize in Hs. by rewrite E0, E1 in Hs.
Qed.

Lemma used_entries d : dict_ok ty d ->
  used (ht0 d) = zlen (ht_entries (ht0 d)) /\ used (ht1 d) = zlen (ht_entries (ht1 d)) /\
  dictSize d = zlen (entries d).
Proof.
  intros [Hb Hp].
  assert (used (ht0 d) = zlen (ht_entries (ht0 d)) /\ used (ht1 d) = zlen (ht_entries (ht1 d))) as [E0 E1].
  { destruct (dictIsRehashing d); [destruct Hp as (H0 & H1 & _); by rewrite (ok_used _ _ H0), (ok_used _ _ H1)|].
    destruct Hp as [-> [->|H0]]; [done|]. by rewrite (ok_used _ _ H0). }
  do 2 (split; [done|]). unfold dictSize. rewrite E0, E1. unfold entries, max_entries in *.
  rewrite zlen_app in *. apply uwrap_small. unfold urange. zlia.
Qed.

(** The place returned can be read, and written through the entry. *)
Lemma dictFind_place d m key : represents d m ->
  exists e d', dictFind ty d key = Some (e, d') /\ represents d' m /\
    match e with
    | Some p => exists v, m !! key = Some v /\ entry_at d' p = Some (key, v) /\
        forall val, exists d2, dictSetVal ty d' p val = Some d2 /\ represents d2 (<[key := val_stored ty val]> m)
    | None => m !! key = None
    end.
Proof.
  intros [Hd P]. unfold dictFind. destruct (used_entries d Hd) as (_ & _ & Es).
  destruct (Z.eqb_spec (dictSize d) 0) as [E|E].
  { exists None, d. split; [done|]. split; [done|]. rewrite Es in E. apply zlen_0_nil in E.
    apply (represents_key d); [done|]. rewrite E. apply not_elem_of_nil. }
  pose proof (nonempty_allocated d Hd E) as H0.
  destruct (rehash_if_needed_ok d Hd) as (d1 & -> & Hd1 & P1 & _ & H01 & _). cbn [mbind option_bind].
  assert (R1 : represents d1 m) by (split; [done|]; by rewrite P1).
  destruct (find_represents d1 m key R1 (H01 H0)) as (e & -> & He). cbn [mbind option_bind].
  exists e, d1. do 2 (split; [done|]). destruct e as [p|]; [|done]. destruct He as (Hl & v & Ev & Em).
  exists v. do 2 (split; [done|]). intros val.
  destruct (dictSetVal_ok d1 p val key v) as (d2 & R & -> & Hd2 & P2 & P2'); [done|by apply H01|done..|].
  exists d2. split; [done|]. split; [done|]. rewrite P2'. apply represents_put. destruct R1 as [_ Pm].
  rewrite Pm in P2. symmetry in P2. by apply represents_cons in P2 as [_ ?].
Qed.

Lemma dictFind_ok d m key : represents d m ->
  exists e d', dictFind ty d key = Some (e, d') /\ represents d' m /\
    match e with
    | Some p => exists v, m !! key = Some v /\ entry_at d' p = Some (key, v)
    | None => m !! key = None
    end.
Proof.
  intros Hr. destruct (dictFind_place d m key Hr) as (e & d' & E & Hr' & He). exists e, d'. do 2 (split; [done|]).
  destruct e as [p|]; [|done]. destruct He as (v & ? & ? & _). eauto.
Qed.

Lemma dictFetchValue_ok d m key : represents d m ->
  exists d', dictFetchValue ty d key = Some (m !! key, d') /\ represents d' m.
Proof.
  intros Hr. unfold dictFetchValue. destruct (dictFind_ok d m key Hr) as (e & d' & -> & Hr' & He).
  cbn [mbind option_bind]. exists d'. split; [|done].
  destruct e as [p|]; [|by rewrite He]. destruct He as (v & -> & ->). done.
Qed.

Lemma dictGenericDelete_ok d m key nofree : represents d m ->
  exists d', let he := (fun v => (key, v)) <$> m !! key in
    dictGenericDelete ty d key nofree =
      Some (he, if nofree then [] else dictFreeUnlinkedEntry he, d') /\
    represents d' (delete key m).
Proof.
  intros [Hd P]. unfold dictGenericDelete. destruct (used_entries d Hd) as (E0 & E1 & Es).
  destruct ((used (ht0 d) =? 0) && (used (ht1 d) =? 0)) eqn:Eu.
  { zb. rewrite E0 in *. rewrite E1 in *. assert (En : entries d = []).
    { unfold entries. rewrite (zlen_0_nil (ht_entries (ht0 d))), (zlen_0_nil (ht_entries (ht1 d))) by done. done. }
    assert (Hm : m !! key = None) by (apply (represents_key d); [done|]; rewrite En; apply not_elem_of_nil).
    exists d. rewrite Hm. split; [by destruct nofree|]. by rewrite delete_id. }
  assert (H0 : ht_ok ty (ht0 d)).
  { apply nonempty_allocated; [done|]. intros Ez. rewrite Es in Ez. unfold entries in Ez.
    rewrite zlen_app in Ez. rewrite E0, E1 in Eu.
    pose proof (zlen_nonneg (ht_entries (ht0 d))). pose proof (zlen_nonneg (ht_entries (ht1 d))).
    revert Eu. do 2 zdec. done. }
  destruct (rehash_if_needed_ok d Hd) as (d1 & -> & Hd1 & P1 & _ & H01 & _). cbn [mbind option_bind].
  assert (R1 : represents d1 m) by (split; [done|]; by rewrite P1).
  destruct (find_represents d1 m key R1 (H01 H0)) as (e & -> & He). cbn [mbind option_bind].
  destruct e as [p|].
  - destruct He as (Hl & v & Hv & Em).
    destruct (unlink_ok d1 p key v) as (d2 & -> & Hd2 & P2); [done|by apply H01|done..|].
    cbn [mbind option_bind]. exists d2. rewrite Em. split; [done|]. split; [done|].
    destruct R1 as [_ Pm]. rewrite Pm in P2. symmetry in P2. by apply represents_cons in P2 as [_ ?].
  - exists d1. rewrite He. split; [by destruct nofree|]. by rewrite delete_id.
Qed.

(** ** Clearing *)

Lemma clear_chain_spec (b : list entry) : forall n freed, zlen b <= n < 2 ^ 64 ->
  clear_chain b n freed = (n - zlen b, freed ++ b).
Proof.
  induction b as [|e b IH]; intros n freed Hn; cbn [clear_chain].
  - change (zlen []) with 0. by rewrite app_nil_r, Z.sub_0_r.
  - rewrite zlen_cons in *. pose proof (zlen_nonneg b). rewrite uwrap_small by (unfold urange; lia).
    rewrite IH by lia. rewrite <- app_assoc. f_equal. lia.
Qed.

Lemma clear_loop_spec callback post : forall (h : ht) pre freed calls,
  table h = Some (pre ++ post) -> size h = zlen (pre ++ post) ->
  used h = zlen (concat post) -> used h < 2 ^ 64 ->
  exists calls', clear_loop (length post) h callback (zlen pre) freed calls =
    Some (freed ++ concat post, calls').
Proof.
  induction post as [|b post IH]; intros h pre freed calls Et Es Eu Hu.
  { rewrite app_nil_r in *. cbn [length clear_loop]. rewrite Es. zdec. cbn [andb].
    by exists calls. }
  cbn [length clear_loop concat] in *. rewrite zlen_app, zlen_cons in Es. pose proof (zlen_nonneg post).
  rewrite Es. zdec. cbn [andb]. rewrite Z.gtb_ltb. destruct (Z.ltb_spec 0 (used h)) as [Hpos|Hz].
  - assert (Hg : get_bucket h (zlen pre) = Some b) by (unfold get_bucket; rewrite Et; cbn; by apply zget_app).
    rewrite Hg. cbn [mbind option_bind]. rewrite zlen_app in Eu. pose proof (zlen_nonneg (concat post)).
    rewrite clear_chain_spec by lia.
    destruct (IH (set_used h (used h - zlen b)) (pre ++ [b]) (freed ++ b)
      (if callback && (Z.land (zlen pre) 65535 =? 0) then calls ++ [zlen pre] else calls)) as (calls' & E).
    { cbn [table set_used]. by rewrite Et, <- app_assoc. } { cbn [size set_used]. zlia. }
    { cbn [used set_used]. lia. } { cbn [used set_used]. zlia. }
    exists calls'. rewrite app_assoc, <- E. do 2 f_equal. zlia.
  - exists calls. rewrite (zlen_0_nil (b ++ concat post)) by zlia. by rewrite app_nil_r.
Qed.

Lemma dictClear_ok h callback : ht_ok ty h -> used h < 2 ^ 64 ->
  exists calls, _dictClear h callback = Some (ht_entries h, calls, _dictReset).
Proof.
  intros Hh Hu. unfold _dictClear. destruct (ok_table _ h Hh) as (t & Et & El).
  pose proof (ok_used _ h Hh) as Eu. unfold ht_entries in *. rewrite Et in *.
  destruct (clear_loop_spec callback t h [] [] []) as (calls & E); [done..|].
  rewrite <- El, to_nat_zlen. change (zlen []) with 0 in E. rewrite E. cbn. eauto.
Qed.

Lemma dictEmpty_ok d callback : dict_ok ty d ->
  exists calls, dictEmpty d callback = Some (entries d, calls, dictCreate) /\ dictRelease d = Some (entries d).
Proof.
  intros Hd.
  assert (Hc : forall c, (exists c0, _dictClear (ht0 d) c = Some (ht_entries (ht0 d), c0, _dictReset)) /\
                         (exists c1, _dictClear (ht1 d) c = Some (ht_entries (ht1 d), c1, _dictReset))).
  { intros c. destruct (used_entries d Hd) as (E0 & E1 & _). destruct Hd as [Hb Hp].
    unfold entries, max_entries in Hb.
    assert (used (ht0 d) < 2 ^ 64) by (rewrite E0; zlia). assert (used (ht1 d) < 2 ^ 64) by (rewrite E1; zlia).
    destruct (dictIsRehashing d); [destruct Hp as (Hh0 & Hh1 & _); split; by apply dictClear_ok|].
    destruct Hp as [-> [->|Hh0]]; (split; [|by eexists]); [by eexists|by apply dictClear_ok]. }
  unfold dictEmpty, dictRelease.
  destruct (Hc callback) as [(c0 & ->) (c1 & ->)]. destruct (Hc false) as [(c2 & ->) (c3 & ->)].
  cbn [mbind option_bind]. by eexists.
Qed.

Lemma dictCreate_ok : represents dictCreate ∅.
Proof.
  split; [split; [done|]|done]. cbn. split; [done|by left].
Qed.

Lemma dictAddOrFind_ok can_resize d m key : represents d m -> Z.of_nat (map_size m) < max_entries ->
  exists p d', dictAddOrFind ty can_resize d key = Some (Some p, d') /\
    represents d' (<[key := default inhabitant (m !! key)]> m) /\
    entry_at d' p = Some (key, default inhabitant (m !! key)).
Proof.
  intros Hr Hsz. unfold dictAddOrFind.
  destruct (dictAddRaw_ok can_resize d m key Hr Hsz) as (d1 & H01 & Hd1 & H).
  destruct (m !! key) as [v|] eqn:Em; cbn [default].
  - destruct H as (p & -> & Hr1 & Hl & He). cbn [mbind option_bind]. exists p, d1.
    rewrite insert_id by done. done.
  - destruct H as (p & -> & P1 & Hl & He). cbn [mbind option_bind]. exists p, d1.
    split; [done|]. split; [|done]. split; [done|]. by rewrite map_to_list_insert, P1.
Qed.

(** ** Rehashing to completion *)

Lemma represents_perm (d d' : dct) m : represents d m -> dict_ok ty d' -> entries d' ≡ₚ entries d -> represents d' m.
Proof. intros [_ P] Hd' P'. split; [done|]. by rewrite P', P. Qed.

(** [k] calls of [dictRehash]. *)
Fixpoint rehash_calls (k : nat) (d : dct) (n : Z) : option dct :=
  match k with
  | O => Some d
  | S k => '(_, d) ← dictRehash ty d n; rehash_calls k d n
  end.

Lemma rehash_calls_ok k : forall d m n, represents d m -> n <> 0 ->
  (dictIsRehashing d = true -> size (ht0 d) - rehashidx d < Z.of_nat k) ->
  exists d', rehash_calls k d n = Some d' /\ represents d' m /\ dictIsRehashing d' = false.
Proof.
  induction k as [|k IH]; intros d m n Hr Hn Hk.
  { exists d. split; [done|]. split; [done|]. destruct (dictIsRehashing d) eqn:E; [|done].
    destruct Hr as [[_ Hp] _]. rewrite E in Hp. specialize (Hk eq_refl). lia. }
  cbn [rehash_calls].
  destruct (dictRehash_ok d n (proj1 Hr)) as (r & d1 & -> & Hd1 & P & _ & _ & Hprog & _ & _).
  cbn [mbind option_bind]. apply IH; [by eapply represents_perm|done|].
  intros E. destruct (Hprog E) as (E' & -> & _ & Hlt). specialize (Hk E'). specialize (Hlt Hn). lia.
Qed.

Lemma dictRehashMilliseconds_ok clock : forall d m reh, represents d m ->
  exists r d', dictRehashMilliseconds ty d (clock ++ [true]) reh = Some (r, d') /\ represents d' m.
Proof.
  induction clock as [|c clock IH]; intros d m reh Hr; cbn [app dictRehashMilliseconds];
    destruct (dictRehash_ok d 100 (proj1 Hr)) as (r & d1 & -> & Hd1 & P & _); cbn [mbind option_bind];
    assert (R1 : represents d1 m) by (by eapply represents_perm);
    (destruct (r =? 0); [by eauto|]); [by eauto|].
  destruct c; [by eauto|]. by apply IH.
Qed.

(** The smallest table size for [n] entries. *)
Definition least_power (n sz : Z) : Prop := exists j, sz = 2 ^ j /\ n <= sz /\ (j = 2 \/ 2 ^ (j - 1) < n).

Lemma dictExpand_represents d m sz : represents d m -> 0 <= sz < 2 ^ 63 ->
  exists r d', dictExpand d sz = Some (r, d') /\ represents d' m /\
    ((r = DICT_ERR /\ d' = d) \/
     (r = DICT_OK /\ dictIsRehashing d = false /\ least_power sz (size (if dictIsRehashing d' then ht1 d' else ht0 d')))).
Proof.
  intros Hr Hs. destruct (dictExpand_ok d sz (proj1 Hr) Hs) as (r & d' & -> & Hd' & En & _ & Hcase).
  exists r, d'. split; [done|]. split; [eapply represents_perm; [done..|by rewrite En]|].
  destruct Hcase as [(-> & -> & _)|(-> & Hnr & _ & j & Hj1 & Hj2 & Hcase)]; [by left|]. right.
  do 2 (split; [done|]). destruct (dictIsRehashing d'); [destruct Hcase as [_ ->]|rewrite Hcase]; by exists j.
Qed.

Lemma dictResize_represents can_resize d m : represents d m ->
  exists r d', dictResize can_resize d = Some (r, d') /\ represents d' m /\ (r = DICT_ERR -> d' = d).
Proof.
  intros Hr. unfold dictResize. destruct (negb can_resize || dictIsRehashing d); [by exists DICT_ERR, d|].
  set (minimal := if _ <? _ then _ else _).
  assert (0 <= minimal < 2 ^ 63).
  { pose proof (swrap_range 32 (used (ht0 d)) ltac:(lia)) as Hw. unfold srange in Hw.
    unfold minimal, DICT_HT_INITIAL_SIZE. change (2 ^ (32 - 1)) with 2147483648 in Hw. zcase; lia. }
  destruct (dictExpand_represents d m minimal Hr) as (r & d' & -> & Hr' & Hcase); [done|].
  exists r, d'. split; [done|]. split; [done|]. destruct Hcase as [[_ ->]|(-> & _)]; done.
Qed.
End Proofs.

(** * Theorems *)

(** The keys of the server are byte strings hashed with SipHash under the seed of the process. *)
Definition dictGenHashFunction (seed key : bytes) : Z := default 0 (siphash key seed).
Definition dictGenCaseHashFunction (seed key : bytes) : Z := default 0 (siphash_nocase key seed).

Definition string_dictType (seed : bytes) (V : Type) : dictType bytes V := {|
  hashFunction := dictGenHashFunction seed;
  keyDup := None;
  valDup := None;
  keyCompare := Some (fun a b => bool_decide (a = b)) |}.

#[export] Instance string_dictType_ok seed V : DictTypeOk (string_dictType seed V).
Proof.
  split; cbn; [|done]. intros f a b [= <-]. apply bool_decide_eq_true.
Qed.

(** C1. A dictionary refines a finite map: in every state of the incremental rehashing, [dictAdd]
    adds exactly the keys that are absent, [dictReplace] sets the value and releases exactly the
    previous one, [dictFetchValue] is lookup, [dictDelete] removes and frees exactly the entry of
    the key and [dictUnlink] removes it without freeing; each call may also move buckets between
    the tables or start a resize, which the map never shows.  No operation reads outside a table. *)
Theorem dict_refines_map {K V} `{EqDecision K, !Countable K, !Inhabited V} (ty : dictType K V) `{!DictTypeOk ty}
    (can_resize : bool) (d : dict K V) (m : gmap K V) (key : K) (val : V) :
  represents ty d m -> Z.of_nat (map_size m) < max_entries ->
  dictSize d = Z.of_nat (map_size m) /\
  (exists d', dictAdd ty can_resize d key val =
      Some (match m !! key with Some _ => DICT_ERR | None => DICT_OK end, d') /\
    represents ty d' (match m !! key with Some _ => m | None => <[key := val_stored ty val]> m end)) /\
  (exists d', dictReplace ty can_resize d key val =
      Some (match m !! key with Some _ => 0 | None => 1 end, m !! key, d') /\
    represents ty d' (<[key := val_stored ty val]> m)) /\
  (exists p d', dictAddOrFind ty can_resize d key = Some (Some p, d') /\
    represents ty d' (<[key := default inhabitant (m !! key)]> m) /\
    entry_at d' p = Some (key, default inhabitant (m !! key))) /\
  (exists d', dictFetchValue ty d key = Some (m !! key, d') /\ represents ty d' m) /\
  (exists d', dictDelete ty d key =
      Some (match m !! key with Some _ => DICT_OK | None => DICT_ERR end,
            match m !! key with Some v => [(key, v)] | None => [] end, d') /\
    represents ty d' (delete key m)) /\
  (exists d', dictUnlink ty d key = Some ((fun v => (key, v)) <$> m !! key, [], d') /\
    represents ty d' (delete key m)).
Proof.
  intros Hr Hsz. split.
  { destruct (used_entries ty d (proj1 Hr)) as (_ & _ & ->). by apply (map_size_entries ty), Hr. }
  split; [by apply dictAdd_ok|]. split; [by apply dictReplace_ok|]. split; [by apply dictAddOrFind_ok|].
  split; [by apply dictFetchValue_ok|]. split.
  - destruct (dictGenericDelete_ok ty d m key false Hr) as (d' & E & Hd'). exists d'.
    unfold dictDelete. rewrite E. cbn [mbind option_bind]. split; [|done]. by destruct (m !! key).
  - destruct (dictGenericDelete_ok ty d m key true Hr) as (d' & E & Hd'). by exists d'.
Qed.

Definition seed0 : bytes := map Z.of_nat (seq 0 16).

(** A dictionary of five entries in the middle of the rehashing from 4 to 16 buckets. *)
Definition five : option (dict bytes Z) :=
  foldl (fun od k => d ← od; '(_, d) ← dictAdd (string_dictType seed0 Z) true d (str k) 1; Some d)
    (Some dictCreate) ["a"; "b"; "c"; "d"; "e"]%string.

Example five_rehashing : (dictIsRehashing <$> five) = Some true /\ (dictSize <$> five) = Some 5.
Proof. vm_compute. done. Qed.

Lemma dict_refines_map_witness :
  exists d, dictAdd (string_dictType seed0 Z) true dictCreate (str "a") 1 = Some (DICT_OK, d) /\
    represents (string_dictType seed0 Z) d {[ str "a" := 1 ]}.
Proof.
  destruct (dict_refines_map (string_dictType seed0 Z) true dictCreate ∅ (str "a") 1
    (dictCreate_ok (string_dictType seed0 Z)) eq_refl) as (_ & (d & E & Hd) & _).
  exists d. split; [exact E|exact Hd].
Defined.

(** Resizing and incremental rehashing are invisible and make progress: [dictExpand] to [sz]
    buckets allocates the least power of two that is at least [sz] (and 4) or leaves the dictionary
    as it was, [dictResize] likewise; every [dictRehash] keeps the entries and returns 1 exactly
    while work is left, any call with a non-zero budget makes progress, so [size+1] calls end the
    rehashing; the timed variant keeps the entries whatever the clock says; [dictEmpty] and
    [dictRelease] free every entry exactly once and leave an empty dictionary. *)
Theorem dict_rehash_invisible {K V} `{EqDecision K, !Countable K, !Inhabited V} (ty : dictType K V) `{!DictTypeOk ty}
    (can_resize callback : bool) (d : dict K V) (m : gmap K V) (n sz : Z) (clock : list bool) :
  represents ty d m -> n <> 0 -> 0 <= sz < 2 ^ 63 ->
  (exists r d', dictExpand d sz = Some (r, d') /\ represents ty d' m /\
    ((r = DICT_ERR /\ d' = d) \/
     (r = DICT_OK /\ dictIsRehashing d = false /\
      least_power sz (size (if dictIsRehashing d' then ht1 d' else ht0 d'))))) /\
  (exists r d', dictResize can_resize d = Some (r, d') /\ represents ty d' m /\ (r = DICT_ERR -> d' = d)) /\
  (exists d', dictRehash ty d n = Some (if dictIsRehashing d' then 1 else 0, d') /\ represents ty d' m /\
    (dictIsRehashing d' = true -> rehashidx d < rehashidx d')) /\
  (exists d', rehash_calls ty (S (Z.to_nat (size (ht0 d)))) d n = Some d' /\ represents ty d' m /\
    dictIsRehashing d' = false) /\
  (exists r d', dictRehashMilliseconds ty d (clock ++ [true]) 0 = Some (r, d') /\ represents ty d' m) /\
  (exists freed calls, dictEmpty d callback = Some (freed, calls, dictCreate) /\
    freed ≡ₚ map_to_list m /\ dictRelease d = Some freed /\ represents ty dictCreate ∅).
Proof.
  intros Hr Hn Hs. split; [by apply dictExpand_represents|]. split; [by apply dictResize_represents|].
  split; [|split; [|split; [by apply dictRehashMilliseconds_ok|]]].
  - destruct (dictRehash_ok ty d n (proj1 Hr)) as (r & d' & E & Hd' & P & _ & -> & Hprog & _).
    exists d'. split; [done|]. split; [by apply (represents_perm ty d)|]. intros Hr'. by apply Hprog.
  - apply rehash_calls_ok; [done..|]. intros E. destruct Hr as [[_ Hp] _]. rewrite E in Hp. lia.
  - destruct (dictEmpty_ok ty d callback (proj1 Hr)) as (calls & E & E'). exists (entries d), calls.
    split; [done|]. split; [apply Hr|]. split; [done|]. by apply (dictCreate_ok ty).
Qed.

Lemma dict_rehash_invisible_witness :
  exists d', rehash_calls (string_dictType seed0 Z) 1 dictCreate 1 = Some d' /\
    represents (string_dictType seed0 Z) d' ∅ /\ dictIsRehashing d' = false.
Proof.
  destruct (dict_rehash_invisible (string_dictType seed0 Z) true false dictCreate ∅ 1 4 []
    (dictCreate_ok (string_dictType seed0 Z)) ltac:(lia) ltac:(lia)) as (_ & _ & _ & H & _).
  exact H.
Defined.
