(* ===== verification/DictScan.v ===== *)
(** The stateless iteration of dict.c: the bit reversal [rev] and [dictScan].

    The cursor is incremented from its high-order bits: with [rev] the 64-bit reversal, a call
    with cursor [v] on a table of [2^k] buckets emits the bucket of the keys whose reversed hash
    agrees with [rev v] on the top [k] bits, and the next cursor is the one whose reversal is the
    next multiple of [2^(64-k)].  So "every key whose reversed hash is below [rev v] was emitted"
    is an invariant of the iteration that does not depend on the size of the table, which is why a
    resize between two calls loses nothing. *)

From Stdlib Require Import String.
From stdpp Require Import gmap list_tactics.
From S2P Require Import Prelude Util SipHash Dict.
#[local] Open Scope list_scope.
#[local] Open Scope Z_scope.

(** * The code *)

(** [~x] on 64 bits. *)
Definition not64 (x : Z) : Z := Z.lxor x (2 ^ 64 - 1).

Fixpoint rev_loop (fuel : nat) (s mask v : Z) : option Z :=
  let s := Z.shiftr s 1 in
  if s >? 0 then
    match fuel with
    | O => None
    | S fuel =>
        let mask := Z.lxor mask (u64 (Z.shiftl mask s)) in
        let v := Z.lor (Z.land (Z.shiftr v s) mask) (Z.land (u64 (Z.shiftl v s)) (not64 mask)) in
        rev_loop fuel s mask v
    end
  else Some v.

Definition rev (v : Z) : option Z := rev_loop 6 (8 * 8) (2 ^ 64 - 1) v.

(** [v |= ~m; v = rev(v); v++; v = rev(v);] *)
Definition next_cursor (v m : Z) : option Z :=
  v ← rev (Z.lor v (not64 m));
  rev (u64 (v + 1)).

Section Scan.
Context {K V : Type} `{EqDecision K}.

(** [do { ... } while (v & (m0 ^ m1))] over the larger table: the next cursor and what was
    emitted: the entries given to [fn] and the buckets given to [bucketfn]. *)
Fixpoint expand_loop (fuel : nat) (t1 : dictht K V) (m0 m1 v : Z)
    : option (Z * list (K * V) * list Z) :=
  match fuel with
  | O => None
  | S fuel =>
      b ← get_bucket t1 (Z.land v m1);
      v' ← next_cursor v m1;
      if Z.land v' (Z.lxor m0 m1) =? 0 then Some (v', b, [Z.land v m1])
      else
        '(v'', out, bs) ← expand_loop fuel t1 m0 m1 v';
        Some (v'', b ++ out, Z.land v m1 :: bs)
  end.

(** The next cursor, the entries emitted, and the buckets of the first and of the second table
    visited. *)
Definition dictScan (d : dict K V) (v : Z) : option (Z * list (K * V) * (list Z * list Z)) :=
  if dictSize d =? 0 then Some (0, [], ([], []))
  else if negb (dictIsRehashing d) then
    let t0 := ht0 d in
    let m0 := sizemask t0 in
    b ← get_bucket t0 (Z.land v m0);
    v' ← next_cursor v m0;
    Some (v', b, ([Z.land v m0], []))
  else
    let '(t0, t1) := if size (ht0 d) >? size (ht1 d) then (ht1 d, ht0 d) else (ht0 d, ht1 d) in
    let m0 := sizemask t0 in
    let m1 := sizemask t1 in
    b ← get_bucket t0 (Z.land v m0);
    '(v', out, bs) ← expand_loop (Z.to_nat (size t1)) t1 m0 m1 v;
    Some (v', b ++ out, ([Z.land v m0], bs)).
End Scan.

Example rev_ex : rev 1 = Some (2 ^ 63) /\ rev 6 = Some (3 * 2 ^ 61) /\ rev (2 ^ 64 - 1) = Some (2 ^ 64 - 1).
Proof. vm_compute. done. Qed.
Example next_ex : next_cursor 0 7 = Some 4 /\ next_cursor 4 7 = Some 2 /\ next_cursor 7 7 = Some 0.
Proof. vm_compute. done. Qed.

(** * [rev] reverses the 64 bits *)

(** Bit [i] of the reversal. *)
Definition is_rev (v r : Z) : Prop :=
  urange 64 r /\ forall i, 0 <= i < 64 -> Z.testbit r i = Z.testbit v (63 - i).

Definition swap_step (s mask v : Z) : Z :=
  Z.lor (Z.land (Z.shiftr v s) mask) (Z.land (u64 (Z.shiftl v s)) (not64 mask)).

Lemma high_bits v i : urange 64 v -> 64 <= i -> Z.testbit v i = false.
Proof.
  unfold urange. intros Hv Hi. rewrite <- (Z.mod_small v (2 ^ 64)) by done. by apply Z.mod_pow2_bits_high.
Qed.

Lemma bits64_eq a b : urange 64 a -> urange 64 b ->
  (forall i, 0 <= i < 64 -> Z.testbit a i = Z.testbit b i) -> a = b.
Proof.
  intros Ha Hb H. apply Z.bits_inj'. intros i Hi. destruct (Z.lt_ge_cases i 64); [by apply H|].
  by rewrite !high_bits.
Qed.

Lemma bits64_range a : 0 <= a -> (forall i, 64 <= i -> Z.testbit a i = false) -> urange 64 a.
Proof.
  intros Ha H. assert (E : a = a mod 2 ^ 64); [|rewrite E; apply Z.mod_pos_bound; lia].
  apply Z.bits_inj'. intros i Hi. destruct (Z.lt_ge_cases i 64).
  - by rewrite Z.mod_pow2_bits_low.
  - rewrite H by done. by rewrite Z.mod_pow2_bits_high by lia.
Qed.

Lemma testbit_not64 x i : 0 <= i < 64 -> Z.testbit (not64 x) i = negb (Z.testbit x i).
Proof.
  intros Hi. unfold not64. rewrite Z.lxor_spec. change (2 ^ 64 - 1) with (Z.ones 64).
  rewrite Z.ones_spec_low by lia. by rewrite xorb_true_r.
Qed.

Lemma not64_range x : urange 64 x -> urange 64 (not64 x).
Proof.
  intros Hx. unfold not64. apply bits64_range.
  - apply Z.lxor_nonneg. unfold urange in Hx. lia.
  - intros i Hi. rewrite Z.lxor_spec, (high_bits x i Hx Hi), (high_bits _ i) by (done || unfold urange; lia). done.
Qed.

Lemma testbit_u64 x i : 0 <= i < 64 -> Z.testbit (u64 x) i = Z.testbit x i.
Proof. intros Hi. unfold uwrap. apply Z.mod_pow2_bits_low. lia. Qed.

(** Where the bit at [i] comes from. *)
Definition swap_src (s mask i : Z) : Z := if Z.testbit mask i then i + s else i - s.

Lemma swap_step_bits s mask v i : 0 <= s -> 0 <= i < 64 -> 0 <= swap_src s mask i ->
  Z.testbit (swap_step s mask v) i = Z.testbit v (swap_src s mask i).
Proof.
  unfold swap_step, swap_src. intros Hs Hi Hsrc.
  rewrite Z.lor_spec, !Z.land_spec, testbit_not64, testbit_u64, Z.shiftr_spec by lia.
  destruct (Z.testbit mask i); cbn [negb].
  - by rewrite andb_true_r, andb_false_r, orb_false_r.
  - rewrite andb_false_r, andb_true_r, orb_false_l. apply Z.shiftl_spec. lia.
Qed.

Lemma swap_step_range s mask v : 0 <= v -> urange 64 mask -> urange 64 (swap_step s mask v).
Proof.
  intros Hv Hm. unfold swap_step. apply bits64_range.
  - apply Z.lor_nonneg. split; apply Z.land_nonneg; right; [unfold urange in Hm; lia|].
    pose proof (not64_range mask Hm) as Hn. unfold urange in Hn. lia.
  - intros i Hi. rewrite Z.lor_spec, !Z.land_spec.
    rewrite (high_bits mask i Hm Hi), (high_bits _ i (not64_range mask Hm) Hi), !andb_false_r. done.
Qed.

(** The six masks of the loop. *)
Definition masks : list (Z * Z) :=
  [(32, 0x00000000FFFFFFFF); (16, 0x0000FFFF0000FFFF); (8, 0x00FF00FF00FF00FF);
   (4, 0x0F0F0F0F0F0F0F0F); (2, 0x3333333333333333); (1, 0x5555555555555555)].

Lemma rev_unfold v : rev v = Some (fold_left (fun v '(s, mask) => swap_step s mask v) masks v).
Proof. reflexivity. Qed.

(** The source of bit [i] after all the swaps, taken last swap first. *)
Definition src_all (i : Z) : Z := fold_right (fun '(s, mask) i => swap_src s mask i) i masks.

Lemma src_all_reverses i : 0 <= i < 64 -> src_all i = 63 - i.
Proof.
  intros Hi.
  assert (H : forallb (fun n => src_all (Z.of_nat n) =? 63 - Z.of_nat n) (seq 0 64) = true) by (by vm_compute).
  rewrite forallb_forall in H. specialize (H (Z.to_nat i)). rewrite Z2Nat.id in H by lia.
  apply Z.eqb_eq, H. apply in_seq. lia.
Qed.

(** Every intermediate source is a bit position. *)
Lemma swaps_bits ms : forall v i, urange 64 v -> 0 <= i < 64 ->
  Forall (fun '(s, mask) => 0 <= s /\ urange 64 mask /\
    forallb (fun n => let j := swap_src s mask (Z.of_nat n) in (0 <=? j) && (j <? 64)) (seq 0 64) = true) ms ->
  urange 64 (fold_left (fun v '(s, mask) => swap_step s mask v) ms v) /\
  Z.testbit (fold_left (fun v '(s, mask) => swap_step s mask v) ms v) i =
    Z.testbit v (fold_right (fun '(s, mask) i => swap_src s mask i) i ms) /\
  0 <= fold_right (fun '(s, mask) i => swap_src s mask i) i ms < 64.
Proof.
  induction ms as [|[s mask] ms IH]; intros v i Hv Hi Hms; [done|].
  apply list.Forall_cons in Hms as [(Hs & Hm & Hall) Hms]. cbn [fold_left fold_right].
  destruct (IH (swap_step s mask v) i) as (Hr & Hb & Hj); [apply swap_step_range; [unfold urange in Hv; lia|done]|done..|].
  split; [done|]. set (j := fold_right _ i ms) in *.
  rewrite forallb_forall in Hall. specialize (Hall (Z.to_nat j) ltac:(apply in_seq; lia)).
  rewrite Z2Nat.id in Hall by lia. cbv zeta in Hall. zb. split; [|lia].
  rewrite Hb. apply swap_step_bits; lia.
Qed.

Lemma rev_spec v : urange 64 v -> exists r, rev v = Some r /\ is_rev v r.
Proof.
  intros Hv. rewrite rev_unfold. eexists. split; [done|].
  assert (Hms : Forall (fun '(s, mask) => 0 <= s /\ urange 64 mask /\
    forallb (fun n => let j := swap_src s mask (Z.of_nat n) in (0 <=? j) && (j <? 64)) (seq 0 64) = true) masks).
  { repeat constructor; vm_compute; congruence. }
  split; [by apply (swaps_bits masks v 0)|]. intros i Hi.
  destruct (swaps_bits masks v i Hv Hi Hms) as (_ & -> & _). by rewrite <- (src_all_reverses i Hi).
Qed.

(** The reversal as a function. *)
Definition rv (v : Z) : Z := default 0 (rev v).

Lemma rv_spec v : urange 64 v -> rev v = Some (rv v) /\ urange 64 (rv v) /\
  forall i, 0 <= i < 64 -> Z.testbit (rv v) i = Z.testbit v (63 - i).
Proof. intros Hv. unfold rv. destruct (rev_spec v Hv) as (r & -> & Hr & Hb). done. Qed.

Lemma rv_involutive v : urange 64 v -> rv (rv v) = v.
Proof.
  intros Hv. destruct (rv_spec v Hv) as (_ & Hr & Hb). destruct (rv_spec (rv v) Hr) as (_ & Hr' & Hb').
  apply bits64_eq; [done..|]. intros i Hi. rewrite Hb', Hb by lia. f_equal. lia.
Qed.

Lemma rv_0 v : urange 64 v -> rv v = 0 -> v = 0.
Proof. intros Hv E. rewrite <- (rv_involutive v Hv), E. by vm_compute. Qed.

Lemma lor_ones a n : 0 <= n -> Z.lor a (Z.ones n) = a / 2 ^ n * 2 ^ n + 2 ^ n - 1.
Proof.
  intros Hn. assert (E : Z.lor a (Z.ones n) = Z.lor (Z.ldiff a (Z.ones n)) (Z.ones n)).
  { apply Z.bits_inj'. intros i _. rewrite !Z.lor_spec, Z.ldiff_spec.
    destruct (Z.testbit a i), (Z.testbit (Z.ones n) i); done. }
  rewrite E, Z.ldiff_ones_r, Z.shiftr_div_pow2, Z.shiftl_mul_pow2 by done.
  rewrite <- Z.add_nocarry_lor; [rewrite Z.ones_equiv; lia|].
  apply Z.bits_inj'. intros i Hi. rewrite Z.land_spec, Z.bits_0.
  destruct (Z.lt_ge_cases i n).
  - by rewrite Z.mul_pow2_bits_low.
  - by rewrite Z.ones_spec_high, andb_false_r by lia.
Qed.

Lemma urange_lor a b : urange 64 a -> urange 64 b -> urange 64 (Z.lor a b).
Proof.
  intros Ha Hb. apply bits64_range; [apply Z.lor_nonneg; unfold urange in *; lia|].
  intros i Hi. by rewrite Z.lor_spec, !high_bits.
Qed.

(** The reversed cursor moves to the next multiple of [2^(64-k)]. *)
Lemma next_cursor_spec v k : urange 64 v -> 0 <= k <= 64 ->
  exists v', next_cursor v (2 ^ k - 1) = Some v' /\ urange 64 v' /\
    rv v' = (rv v / 2 ^ (64 - k) + 1) * 2 ^ (64 - k) mod 2 ^ 64.
Proof.
  intros Hv Hk. unfold next_cursor.
  assert (Hm : urange 64 (2 ^ k - 1)).
  { split; [lia|]. assert (2 ^ k <= 2 ^ 64) by (apply Z.pow_le_mono_r; lia). lia. }
  pose proof (not64_range _ Hm) as Hn. pose proof (urange_lor _ _ Hv Hn) as Hl.
  destruct (rv_spec _ Hl) as (-> & Hr & Hb). destruct (rv_spec v Hv) as (_ & Hrv & Hbv).
  cbn [mbind option_bind].
  assert (E : rv (Z.lor v (not64 (2 ^ k - 1))) = Z.lor (rv v) (Z.ones (64 - k))).
  { apply bits64_eq; [done|apply urange_lor; [done|]|].
    { rewrite Z.ones_equiv. split; [lia|]. assert (2 ^ (64 - k) <= 2 ^ 64) by (apply Z.pow_le_mono_r; lia). lia. }
    intros i Hi. rewrite Hb, !Z.lor_spec, Hbv, testbit_not64 by lia.
    replace (2 ^ k - 1) with (Z.ones k) by (rewrite Z.ones_equiv; lia). f_equal.
    destruct (Z.lt_ge_cases i (64 - k)).
    - rewrite Z.ones_spec_high, Z.ones_spec_low by lia. done.
    - rewrite Z.ones_spec_low, Z.ones_spec_high by lia. done. }
  rewrite E, lor_ones by lia.
  pose proof (uwrap_range 64 (rv v / 2 ^ (64 - k) * 2 ^ (64 - k) + 2 ^ (64 - k) - 1 + 1) ltac:(lia)) as Hu.
  destruct (rv_spec _ Hu) as (-> & Hr' & _). eexists. split; [done|]. split; [done|].
  rewrite rv_involutive by done. unfold uwrap. f_equal. lia.
Qed.

(** Two hashes share a bucket when their reversals share a block. *)
Lemma same_block h v k : urange 64 h -> urange 64 v -> 0 <= k <= 64 ->
  rv h / 2 ^ (64 - k) = rv v / 2 ^ (64 - k) -> h mod 2 ^ k = v mod 2 ^ k.
Proof.
  intros Hh Hv Hk E. apply Z.bits_inj'. intros i Hi. destruct (Z.lt_ge_cases i k).
  - rewrite !Z.mod_pow2_bits_low by lia.
    destruct (rv_spec h Hh) as (_ & _ & Hb). destruct (rv_spec v Hv) as (_ & _ & Hb').
    pose proof (f_equal (fun z => Z.testbit z (63 - i - (64 - k))) E) as Eb. cbv beta in Eb.
    rewrite !Z.div_pow2_bits in Eb by lia. replace (63 - i - (64 - k) + (64 - k)) with (63 - i) in Eb by lia.
    rewrite Hb, Hb' in Eb by lia. by replace (63 - (63 - i)) with i in Eb by lia.
  - by rewrite !Z.mod_pow2_bits_high by lia.
Qed.

Lemma rv_zero : rv 0 = 0.
Proof. by vm_compute. Qed.

(** From here on only the specification of the reversal is used. *)
#[local] Opaque rev rv next_cursor.

Lemma bind_Some_eq {A B} (o : option A) (f : A -> option B) x : o = Some x -> o ≫= f = f x.
Proof. by intros ->. Qed.

Lemma expand_loop_unfold {K V} fuel (t1 : dictht K V) m0 m1 v :
  expand_loop (S fuel) t1 m0 m1 v =
    (b ← get_bucket t1 (Z.land v m1);
     v' ← next_cursor v m1;
     if Z.land v' (Z.lxor m0 m1) =? 0 then Some (v', b, [Z.land v m1])
     else '(v'', out, bs) ← expand_loop fuel t1 m0 m1 v'; Some (v'', b ++ out, Z.land v m1 :: bs)).
Proof. reflexivity. Qed.

(** One iteration of the loop, for a bucket and a next cursor that are known. *)
Lemma expand_loop_S {K V} fuel (t1 : dictht K V) m0 m1 v b v' :
  get_bucket t1 (Z.land v m1) = Some b -> next_cursor v m1 = Some v' ->
  expand_loop (S fuel) t1 m0 m1 v =
    if Z.land v' (Z.lxor m0 m1) =? 0 then Some (v', b, [Z.land v m1])
    else '(v'', out, bs) ← expand_loop fuel t1 m0 m1 v'; Some (v'', b ++ out, Z.land v m1 :: bs).
Proof.
  intros E1 E2. etransitivity; [apply expand_loop_unfold|].
  rewrite (bind_Some_eq _ _ b E1). by rewrite (bind_Some_eq _ _ _ E2).
Qed.

(** * Coverage of one call *)

(** The loop over the larger table stops at a multiple of the smaller table's block. *)
Lemma mask_diff_zero v k0 k1 : urange 64 v -> 0 <= k0 <= k1 -> k1 <= 64 ->
  Z.land v (Z.lxor (2 ^ k0 - 1) (2 ^ k1 - 1)) = 0 <-> (rv v / 2 ^ (64 - k1)) mod 2 ^ (k1 - k0) = 0.
Proof.
  intros Hv Hk0 Hk1. destruct (rv_spec v Hv) as (_ & _ & Hb).
  assert (Hx : forall i, 0 <= i -> Z.testbit (Z.lxor (2 ^ k0 - 1) (2 ^ k1 - 1)) i = (k0 <=? i) && (i <? k1)).
  { intros i Hi. rewrite Z.lxor_spec.
    replace (2 ^ k0 - 1) with (Z.ones k0) by (rewrite Z.ones_equiv; lia).
    replace (2 ^ k1 - 1) with (Z.ones k1) by (rewrite Z.ones_equiv; lia).
    rewrite !Z.testbit_ones by lia. repeat zcase; done || lia. }
  assert (Hq : forall j, 0 <= j < k1 - k0 ->
    Z.testbit ((rv v / 2 ^ (64 - k1)) mod 2 ^ (k1 - k0)) j = Z.testbit v (k1 - 1 - j)).
  { intros j Hj. rewrite Z.mod_pow2_bits_low, Z.div_pow2_bits, Hb by lia. f_equal. lia. }
  split; intros E; apply Z.bits_inj'; intros i Hi; rewrite Z.bits_0.
  - destruct (Z.lt_ge_cases i (k1 - k0)); [|by rewrite Z.mod_pow2_bits_high by lia].
    rewrite Hq by lia. pose proof (f_equal (fun z => Z.testbit z (k1 - 1 - i)) E) as Eb. cbv beta in Eb.
    rewrite Z.land_spec, Z.bits_0, Hx in Eb by lia.
    revert Eb. do 2 zdec. by rewrite andb_true_r.
  - rewrite Z.land_spec, Hx by lia. destruct ((k0 <=? i) && (i <? k1)) eqn:Ei; [|apply andb_false_r].
    zb. pose proof (f_equal (fun z => Z.testbit z (k1 - 1 - i)) E) as Eb. cbv beta in Eb.
    rewrite Hq, Z.bits_0 in Eb by lia. replace (k1 - 1 - (k1 - 1 - i)) with i in Eb by lia. by rewrite Eb.
Qed.

(** ** Arithmetic of blocks *)

Lemma block_sizes k0 k1 : 0 <= k0 <= k1 -> k1 <= 64 ->
  (forall x, x / 2 ^ (64 - k0) = x / 2 ^ (64 - k1) / 2 ^ (k1 - k0)) /\
  2 ^ (64 - k0) = 2 ^ (64 - k1) * 2 ^ (k1 - k0) /\
  2 ^ 64 = 2 ^ (64 - k1) * (2 ^ (k1 - k0) * 2 ^ k0) /\
  0 < 2 ^ (64 - k1) /\ 0 < 2 ^ (k1 - k0).
Proof.
  intros Hk0 Hk1.
  assert (Eb : 2 ^ (64 - k0) = 2 ^ (64 - k1) * 2 ^ (k1 - k0)) by (rewrite <- Z.pow_add_r by lia; f_equal; lia).
  split; [intros x; rewrite Eb, Z.div_div by lia; done|]. split; [done|].
  split; [rewrite <- !Z.pow_add_r by lia; f_equal; lia|]. lia.
Qed.

(** The last index of a block of [c], and the others. *)
Lemma block_last q c : 0 < c -> (q + 1) mod c = 0 ->
  q + 1 = (q / c + 1) * c /\ (forall x, x / c = q / c -> q <= x -> x = q).
Proof.
  intros Hc E. pose proof (Z.div_mod q c ltac:(lia)). pose proof (Z.mod_pos_bound q c ltac:(lia)).
  pose proof (Z.mod_divide (q + 1) c ltac:(lia)) as [D _]. specialize (D E) as [z Hz].
  pose proof (Z.div_unique q c (z - 1) (c - 1) ltac:(lia) ltac:(lia)).
  split; [lia|]. intros x Hx Hle.
  pose proof (Z.div_mod x c ltac:(lia)). pose proof (Z.mod_pos_bound x c ltac:(lia)). lia.
Qed.

Lemma block_inner q c : 0 < c -> (q + 1) mod c <> 0 -> (q + 1) / c = q / c /\ (q + 1) mod c = q mod c + 1.
Proof.
  intros Hc E. pose proof (Z.div_mod q c ltac:(lia)). pose proof (Z.mod_pos_bound q c ltac:(lia)).
  assert (q mod c <> c - 1).
  { intros E'. apply E. replace (q + 1) with ((q / c + 1) * c) by lia. apply Z.mod_mul. lia. }
  split; symmetry; [apply (Z.div_unique _ _ _ (q mod c + 1))|apply (Z.mod_unique _ _ (q / c))]; lia.
Qed.

Lemma block_index x a n : 0 < a -> 0 <= x < a * n -> 0 <= x / a < n.
Proof. intros Ha Hx. split; [apply Z.div_pos; lia|]. apply Z.div_lt_upper_bound; lia. Qed.

Lemma block_bound r b : 0 < b -> r / b * b <= r < (r / b + 1) * b.
Proof. intros Hb. pose proof (Z.div_mod r b ltac:(lia)). pose proof (Z.mod_pos_bound r b ltac:(lia)). lia. Qed.

Lemma block_eq h r b : 0 < b -> r <= h -> h < (r / b + 1) * b -> h / b = r / b.
Proof.
  intros Hb Hle Hlt. symmetry. pose proof (block_bound r b Hb).
  apply (Z.div_unique h b (r / b) (h - b * (r / b))); lia.
Qed.

(** The index of the next block, wrapping at [n = c * m]. *)
Lemma next_block q a c m : 0 < a -> 0 < c -> 0 < m -> 0 <= q < c * m ->
  ((q + 1) * a mod (a * (c * m))) / a = (q + 1) mod (c * m) /\
  ((q + 1) mod (c * m)) mod c = (q + 1) mod c /\
  ((q + 1) mod c <> 0 -> (q + 1) * a mod (a * (c * m)) = (q + 1) * a).
Proof.
  intros Ha Hc Hm Hq. split; [|split].
  - rewrite (Z.mul_comm (q + 1) a), Z.mul_mod_distr_l by lia. rewrite Z.mul_comm, Z.div_mul by lia. done.
  - rewrite Z.rem_mul_r by lia. rewrite (Z.mul_comm c), Z.mod_add, Z.mod_mod by lia. done.
  - intros E. apply Z.mod_small. assert (q + 1 <> c * m).
    { intros E'. apply E. rewrite E', Z.mul_comm. apply Z.mod_mul. lia. }
    split; [apply Z.mul_nonneg_nonneg; lia|]. rewrite Z.mul_comm. apply Z.mul_lt_mono_pos_l; lia.
Qed.

Section Coverage.
Context {K V : Type} `{HeqK : EqDecision K, HcK : !Countable K, HinV : !Inhabited V}.
Context (ty : dictType K V) `{Hty : !DictTypeOk ty}.
Hypothesis hash_range : forall k, urange 64 (hashFunction ty k).
#[local] Set Default Proof Using "All".

Definition rhash (e : K * V) : Z := rv (dictHashKey ty (fst e)).

(** The bucket of the cursor holds the entries of its block. *)
Lemma bucket_complete h k v b e : ht_ok ty h -> size h = 2 ^ k -> 0 <= k <= 64 -> urange 64 v ->
  get_bucket h (Z.land v (sizemask h)) = Some b -> e ∈ ht_entries h ->
  rhash e / 2 ^ (64 - k) = rv v / 2 ^ (64 - k) -> e ∈ b.
Proof.
  intros Hh Es Hk Hv Hg He Eq. destruct (mask_index ty h v Hh) as [Em _]. rewrite Em in Hg.
  destruct (entry_bucket ty h e Hh He) as (b' & Hg' & He').
  rewrite Es in *. rewrite (same_block (dictHashKey ty (fst e)) v k) in Hg'; [|apply hash_range|done..].
  congruence.
Qed.

Lemma cursor_bucket h v : ht_ok ty h -> is_Some (get_bucket h (Z.land v (sizemask h))).
Proof. intros Hh. destruct (mask_index ty h v Hh) as [-> Hi]. by apply get_bucket_ok with ty. Qed.

Lemma expand_loop_spec t1 k0 k1 fuel : forall v,
  ht_ok ty t1 -> size t1 = 2 ^ k1 -> 0 <= k0 <= k1 -> k1 <= 64 -> urange 64 v ->
  2 ^ (k1 - k0) - (rv v / 2 ^ (64 - k1)) mod 2 ^ (k1 - k0) <= Z.of_nat fuel ->
  exists v' out bs, expand_loop fuel t1 (2 ^ k0 - 1) (2 ^ k1 - 1) v = Some (v', out, bs) /\ urange 64 v' /\
    rv v' = (rv v / 2 ^ (64 - k0) + 1) * 2 ^ (64 - k0) mod 2 ^ 64 /\
    (forall e, e ∈ out -> e ∈ ht_entries t1) /\
    (forall e, e ∈ ht_entries t1 -> rv v / 2 ^ (64 - k1) <= rhash e / 2 ^ (64 - k1) ->
       rhash e / 2 ^ (64 - k0) = rv v / 2 ^ (64 - k0) -> e ∈ out).
Proof.
  induction fuel as [|fuel IH]; intros v Hh Es Hk0 Hk1 Hv Hf.
  { pose proof (Z.mod_pos_bound (rv v / 2 ^ (64 - k1)) (2 ^ (k1 - k0)) ltac:(lia)). lia. }
  destruct (cursor_bucket t1 v Hh) as [b Hb]. pose proof Hb as Hb'.
  rewrite (ok_mask _ _ Hh), Es in Hb'.
  destruct (next_cursor_spec v k1) as (v1 & En & Hv1 & E1); [done|lia|].
  rewrite (expand_loop_S fuel t1 _ _ v b v1 Hb' En).
  destruct (rv_spec v Hv) as (_ & Hrv & _).
  destruct (block_sizes k0 k1 Hk0 Hk1) as (Hdd & Eb & EN & Ha & Hc).
  pose proof (mask_diff_zero v1 k0 k1 Hv1 Hk0 Hk1) as Hstop.
  assert (Hin : forall e, e ∈ ht_entries t1 -> rhash e / 2 ^ (64 - k1) = rv v / 2 ^ (64 - k1) -> e ∈ b)
    by (intros e He Eq; by apply (bucket_complete t1 k1 v b e); try lia).
  assert (Hsub : forall e, e ∈ b -> e ∈ ht_entries t1)
    by (intros e; by apply bucket_entries with (Z.land v (2 ^ k1 - 1))).
  pose proof (block_index (rv v) _ _ Ha ltac:(rewrite <- EN; exact Hrv)) as Hq.
  assert (Hm : 0 < 2 ^ k0) by (apply Z.pow_pos_nonneg; lia).
  destruct (next_block _ _ _ _ Ha Hc Hm Hq) as (N1 & N2 & N3). rewrite <- EN in N1, N3.
  rewrite <- E1 in N1, N3. rewrite N1, N2 in Hstop.
  destruct (Z.eqb_spec (Z.land v1 (Z.lxor (2 ^ k0 - 1) (2 ^ k1 - 1))) 0) as [Ez|Ez].
  - destruct (block_last _ _ Hc (proj1 Hstop Ez)) as [El Hlast].
    exists v1, b, [Z.land v (2 ^ k1 - 1)]. split; [done|]. split; [done|]. split; [|split; [done|]].
    + rewrite E1, El, (Hdd (rv v)), Eb, (Z.mul_comm (2 ^ (64 - k1))), Z.mul_assoc. done.
    + intros e He Hle Heq. apply Hin; [done|]. rewrite !Hdd in Heq. by apply Hlast.
  - assert (Hne : (rv v / 2 ^ (64 - k1) + 1) mod 2 ^ (k1 - k0) <> 0) by tauto.
    destruct (block_inner _ _ Hc Hne) as [I1 I2].
    assert (Eq1 : rv v1 / 2 ^ (64 - k1) = rv v / 2 ^ (64 - k1) + 1) by (rewrite (N3 Hne); by apply Z.div_mul; lia).
    destruct (IH v1) as (v' & out & bs & -> & Hv' & Er & Hs & Hcov); [done..|rewrite Eq1, I2; lia|].
    cbn [mbind option_bind]. eexists v', (b ++ out), _. split; [done|]. split; [done|].
    split; [by rewrite Er, !Hdd, Eq1, I1|]. split.
    + intros e [He|He]%elem_of_app; [by apply Hsub|by apply Hs].
    + intros e He Hle Heq. apply elem_of_app.
      destruct (Z.eq_dec (rhash e / 2 ^ (64 - k1)) (rv v / 2 ^ (64 - k1))) as [E|E]; [left; by apply Hin|right].
      apply Hcov; [done|rewrite Eq1; lia|]. rewrite !Hdd in *. by rewrite Eq1, I1.
Qed.
(** The number of cursors of a full iteration: the buckets of the smaller table in use. *)
Definition scan_size (d : dict K V) : Z :=
  if dictIsRehashing d then Z.min (size (ht0 d)) (size (ht1 d)) else size (ht0 d).
Definition block (d : dict K V) : Z := 2 ^ 64 / scan_size d.

Lemma block_pow d k : 0 <= k <= 64 -> scan_size d = 2 ^ k -> block d = 2 ^ (64 - k).
Proof.
  intros Hk E. unfold block. rewrite E. replace (2 ^ 64) with (2 ^ (64 - k) * 2 ^ k).
  - apply Z.div_mul. lia.
  - rewrite <- Z.pow_add_r by lia. f_equal. lia.
Qed.

(** What one call guarantees: the next cursor is 0 or further on, and the entries between the two
    cursors were emitted. *)
Definition covers (d : dict K V) (v v' : Z) (out : list (K * V)) : Prop :=
  urange 64 v' /\ (v' = 0 \/ rv v < rv v' /\ rv v' / block d = rv v / block d + 1) /\
  (forall e, e ∈ out -> e ∈ entries d) /\
  (forall e, e ∈ entries d -> rv v <= rhash e -> (v' = 0 \/ rhash e < rv v') -> e ∈ out).

(** The next cursor is a multiple of the block, so what lies between is in the block of [v]. *)
Lemma block_between v v' k : urange 64 v -> urange 64 v' -> 0 <= k <= 64 ->
  rv v' = (rv v / 2 ^ (64 - k) + 1) * 2 ^ (64 - k) mod 2 ^ 64 ->
  (v' = 0 \/ rv v < rv v' /\ rv v' / 2 ^ (64 - k) = rv v / 2 ^ (64 - k) + 1) /\
  (forall h, urange 64 h -> rv v <= h -> (v' = 0 \/ h < rv v') -> h / 2 ^ (64 - k) = rv v / 2 ^ (64 - k)).
Proof.
  intros Hv Hv' Hk E. destruct (rv_spec v Hv) as (_ & Hr & _). unfold urange in Hr.
  assert (EN : 2 ^ 64 = 2 ^ (64 - k) * 2 ^ k) by (rewrite <- Z.pow_add_r by lia; f_equal; lia).
  assert (Hb : 0 < 2 ^ (64 - k)) by lia. assert (Hm : 0 < 2 ^ k) by lia.
  pose proof (block_index (rv v) _ _ Hb ltac:(rewrite <- EN; exact Hr)) as Hq.
  pose proof (block_bound (rv v) _ Hb) as Hbound.
  destruct (Z.eq_dec (rv v / 2 ^ (64 - k) + 1) (2 ^ k)) as [El|El].
  - assert (v' = 0).
    { apply rv_0; [done|]. rewrite E, El, EN, Z.mul_comm. apply Z.mod_same. lia. }
    split; [by left|]. intros h Hh Hle _.
    apply block_eq; [done|lia|]. rewrite El, Z.mul_comm, <- EN. apply Hh.
  - rewrite Z.mod_small in E.
    2:{ rewrite EN, Z.mul_comm. split; [apply Z.mul_nonneg_nonneg; lia|]. apply Z.mul_lt_mono_pos_l; lia. }
    split; [right; rewrite E; split; [apply Hbound|apply Z.div_mul; lia]|]. intros h Hh Hle [Hz|Hlt].
    + exfalso. rewrite Hz in E. assert (rv 0 = 0) by apply rv_zero.
      assert (0 < (rv v / 2 ^ (64 - k) + 1) * 2 ^ (64 - k)) by (apply Z.mul_pos_pos; lia). lia.
    + apply block_eq; [done|lia|]. by rewrite <- E.
Qed.

Lemma dictScan_covers d v : dict_ok ty d -> urange 64 v ->
  exists v' out bs, dictScan d v = Some (v', out, bs) /\ covers d v v' out.
Proof.
  intros Hd Hv. unfold dictScan. destruct (used_entries ty d Hd) as (_ & _ & Es).
  destruct (Z.eqb_spec (dictSize d) 0) as [E|E].
  { eexists 0, [], _. split; [done|]. rewrite Es in E. apply zlen_0_nil in E.
    unfold covers. rewrite E. split; [by vm_compute|]. split; [by left|].
    split; intros e He; by apply elem_of_nil in He. }
  pose proof (nonempty_allocated ty d Hd E) as H0. pose proof Hd as [_ Hp].
  destruct (dictIsRehashing d) eqn:Hr; cbn [negb].
  - destruct Hp as (_ & H1 & _).
    set (p := if size (ht0 d) >? size (ht1 d) then _ else _).
    assert (exists t0 t1, p = (t0, t1) /\ ht_ok ty t0 /\ ht_ok ty t1 /\ size t0 <= size t1 /\
      scan_size d = size t0 /\ forall e, e ∈ entries d <-> e ∈ ht_entries t0 \/ e ∈ ht_entries t1) as (t0 & t1 & -> & Hh0 & Hh1 & Hle & Ess & Hen).
    { unfold p, entries, scan_size. rewrite Hr, Z.gtb_ltb. destruct (Z.ltb_spec (size (ht1 d)) (size (ht0 d)));
        eexists _, _; (split; [done|]); do 2 (split; [done|]); do 2 (split; [lia|]); intros e; rewrite elem_of_app; tauto. }
    destruct (ok_size _ _ Hh0) as (k0 & Hk0 & E0). destruct (ok_size _ _ Hh1) as (k1 & Hk1 & E1).
    rewrite E0 in Ess. assert (k0 <= k1) by (rewrite E0, E1 in Hle; by apply Z.pow_le_mono_r_iff in Hle; lia).
    destruct (cursor_bucket t0 v Hh0) as [b Hb]. rewrite (bind_Some_eq _ _ _ Hb).
    rewrite (ok_mask _ _ Hh1), (ok_mask _ _ Hh0), E0, E1.
    destruct (expand_loop_spec t1 k0 k1 (Z.to_nat (2 ^ k1)) v) as (v' & out & bs & Eo & Hv' & Er & Hsub & Hcov); [done|done|lia..|done| |].
    { rewrite Z2Nat.id by lia. assert (2 ^ (k1 - k0) <= 2 ^ k1) by (apply Z.pow_le_mono_r; lia).
      pose proof (Z.mod_pos_bound (rv v / 2 ^ (64 - k1)) (2 ^ (k1 - k0)) ltac:(lia)). lia. }
    rewrite (bind_Some_eq _ _ _ Eo). eexists v', (b ++ out), _. split; [done|].
    destruct (block_between v v' k0) as (Hprog & Hbl); [done..|lia|done|].
    split; [done|]. split; [by rewrite (block_pow d k0) by (done || lia)|]. split.
    + intros e [He|He]%elem_of_app; apply Hen; [left; by apply (bucket_entries _ _ _ _ Hb)|right; by apply Hsub].
    + intros e He Hge Hlt. apply elem_of_app.
      assert (Hrh : urange 64 (rhash e)) by (apply rv_spec, hash_range).
      specialize (Hbl (rhash e) Hrh Hge Hlt). apply Hen in He as [He|He].
      * left. apply (bucket_complete t0 k0 v b e); try done; lia.
      * right. apply Hcov; [done| |done]. apply Z.div_le_mono; lia.
  - destruct Hp as [E1 _]. destruct (ok_size _ _ H0) as (k & Hk & Ek).
    destruct (cursor_bucket (ht0 d) v H0) as [b Hb]. rewrite (bind_Some_eq _ _ _ Hb).
    destruct (next_cursor_spec v k) as (v' & En & Hv' & Er); [done|lia|].
    rewrite (ok_mask _ _ H0), Ek. rewrite (bind_Some_eq _ _ _ En). eexists v', b, _. split; [done|].
    destruct (block_between v v' k) as (Hprog & Hbl); [done..|lia|done|].
    unfold covers. rewrite (block_pow d k) by (lia || unfold scan_size; by rewrite Hr). rewrite (not_rehashing_entries d E1).
    split; [done|]. split; [done|]. split; [intros e; by apply (bucket_entries _ _ _ _ Hb)|].
    intros e He Hge Hlt. apply (bucket_complete (ht0 d) k v b e); try done; try lia.
    apply Hbl; [apply rv_spec, hash_range|done..].
Qed.

(** * A full iteration

    [full_scan v ds out]: starting from cursor [v], one call on each dictionary of [ds] in turn,
    the last of which returns cursor 0; [out] is all that was emitted.  The dictionaries may be
    any successive states of the table: between two calls elements may be added or removed, and
    the table may be resized or rehashed. *)
Inductive full_scan : Z -> list (dict K V) -> list (K * V) -> Prop :=
  | full_last d v out bs : dictScan d v = Some (0, out, bs) -> full_scan v [d] out
  | full_step d v v' out bs ds outs : dictScan d v = Some (v', out, bs) -> v' <> 0 ->
      full_scan v' ds outs -> full_scan v (d :: ds) (out ++ outs).

Lemma full_scan_complete v ds out k : full_scan v ds out -> urange 64 v ->
  Forall (dict_ok ty) ds -> Forall (fun d => k ∈ (entries d).*1) ds ->
  rv v <= rv (dictHashKey ty k) -> k ∈ out.*1.
Proof.
  intros Hf. induction Hf as [d v out bs Es|d v v' out bs ds outs Es Hne Hf IH]; intros Hv Hok Hk Hle.
  - apply list.Forall_cons in Hok as [Hd _]. apply list.Forall_cons in Hk as [Hk _].
    destruct (dictScan_covers d v Hd Hv) as (v1 & out1 & bs1 & E1 & Hv1 & Hprog & _ & Hcov).
    rewrite Es in E1. injection E1 as <- <- <-. apply list_elem_of_fmap in Hk as ((k' & x) & -> & He).
    apply list_elem_of_fmap. exists (k', x). split; [done|]. apply Hcov; [done|done|by left].
  - apply list.Forall_cons in Hok as [Hd Hok]. apply list.Forall_cons in Hk as [Hk Hks].
    destruct (dictScan_covers d v Hd Hv) as (v1 & out1 & bs1 & E1 & Hv1 & Hprog & _ & Hcov).
    rewrite Es in E1. injection E1 as <- <- <-. rewrite fmap_app, elem_of_app.
    destruct (Z.lt_ge_cases (rv (dictHashKey ty k)) (rv v')) as [Hlt|Hge]; [left|right; by apply IH].
    apply list_elem_of_fmap in Hk as ((k' & x) & -> & He).
    apply list_elem_of_fmap. exists (k', x). split; [done|]. apply Hcov; [done|done|by right].
Qed.

Lemma full_scan_sound v ds out : full_scan v ds out -> urange 64 v -> Forall (dict_ok ty) ds ->
  forall e, e ∈ out -> exists d, d ∈ ds /\ e ∈ entries d.
Proof.
  intros Hf. induction Hf as [d v out bs Es|d v v' out bs ds outs Es Hne Hf IH]; intros Hv Hok e He;
    apply list.Forall_cons in Hok as [Hd Hok];
    destruct (dictScan_covers d v Hd Hv) as (v1 & out1 & bs1 & E1 & Hv1 & _ & Hsub & _);
    rewrite Es in E1; injection E1 as <- <- <-.
  - exists d. split; [by left|by apply Hsub].
  - apply elem_of_app in He as [He|He]; [exists d; split; [by left|by apply Hsub]|].
    destruct (IH Hv1 Hok e He) as (d' & Hd' & He'). exists d'. split; [by right|done].
Qed.

(** On an unchanged dictionary the iteration ends. *)
Lemma full_scan_terminates d : dict_ok ty d -> dictSize d <> 0 -> forall n v, urange 64 v ->
  scan_size d - rv v / block d <= Z.of_nat n ->
  exists m out, (m <= n)%nat /\ full_scan v (replicate m d) out.
Proof.
  intros Hd Hs.
  assert (exists k, 0 <= k <= 64 /\ scan_size d = 2 ^ k) as (k & Hk & Ek).
  { pose proof (nonempty_allocated ty d Hd Hs) as H0. destruct (ok_size _ _ H0) as (k0 & ? & E0).
    unfold scan_size. destruct Hd as [_ Hp]. destruct (dictIsRehashing d); [|exists k0; lia].
    destruct Hp as (_ & H1 & _). destruct (ok_size _ _ H1) as (k1 & ? & E1).
    destruct (Z.min_spec (size (ht0 d)) (size (ht1 d))) as [[_ ->]|[_ ->]]; [exists k0|exists k1]; lia. }
  assert (Hlt : forall v, urange 64 v -> rv v / block d < scan_size d).
  { intros v Hv. destruct (rv_spec v Hv) as (_ & Hr & _). rewrite (block_pow d k), Ek by done.
    apply (block_index (rv v) (2 ^ (64 - k)) (2 ^ k)); [lia|]. rewrite <- Z.pow_add_r by lia.
    replace (64 - k + k) with 64 by lia. exact Hr. }
  induction n as [|n IH]; intros v Hv Hn; [specialize (Hlt v Hv); lia|].
  destruct (dictScan_covers d v Hd Hv) as (v1 & out1 & bs1 & E1 & Hv1 & [->|[_ Hprog]] & _ & _).
  - exists 1%nat, out1. split; [lia|]. by eapply full_last.
  - destruct (Z.eq_dec v1 0) as [->|Hne]; [exists 1%nat, out1; split; [lia|]; by eapply full_last|].
    destruct (IH v1 Hv1) as (m & outs & Hm & Hf); [lia|].
    exists (S m), (out1 ++ outs). split; [lia|]. by eapply full_step.
Qed.
End Coverage.

(** ** A concrete dictionary: five keys, in the middle of the rehashing from 4 to 8 buckets *)

Definition z_dictType : dictType Z Z := {|
  hashFunction := u64; keyDup := None; valDup := None; keyCompare := None |}.

#[export] Instance z_dictType_ok : DictTypeOk z_dictType.
Proof. by split. Qed.

Fixpoint adds (ks : list Z) (d : dict Z Z) : option (dict Z Z) :=
  match ks with
  | [] => Some d
  | k :: ks => '(_, d) ← dictAdd z_dictType true d k (k * k); adds ks d
  end.

Lemma adds_ok ks : forall d m, represents z_dictType d m -> zlen ks + Z.of_nat (map_size m) < max_entries ->
  exists d' m', adds ks d = Some d' /\ represents z_dictType d' m'.
Proof.
  induction ks as [|k ks IH]; intros d m Hr Hs; [by exists d, m|]. rewrite zlen_cons in Hs.
  pose proof (zlen_nonneg ks). cbn [adds].
  destruct (dictAdd_ok z_dictType true d m k (k * k) Hr) as (d' & -> & Hr'); [lia|]. cbn [mbind option_bind].
  apply (IH d' _ Hr'). destruct (m !! k) eqn:E; [lia|]. 
  pose proof (map_size_insert_None k (val_stored z_dictType (k * k)) m E) as Es. unfold base.size in Es. lia.
Qed.

Definition zdict : dict Z Z := default dictCreate (adds [0; 1; 2; 3; 11] dictCreate).

Lemma zdict_ok : dict_ok z_dictType zdict /\ dictIsRehashing zdict = true.
Proof.
  split; [|by vm_compute]. unfold zdict.
  destruct (adds_ok [0; 1; 2; 3; 11] dictCreate ∅ (dictCreate_ok z_dictType)) as (d' & m' & -> & [Hd _]); [done|].
  exact Hd.
Qed.

Lemma z_hash_range k : urange 64 (hashFunction z_dictType k).
Proof. by apply uwrap_range. Qed.

(** * Theorems *)

(** C29. The guarantee of [dictScan]: in any full iteration (from cursor 0 until cursor 0 is
    returned), whatever happens to the dictionary between the calls - insertions, deletions,
    growing, shrinking, rehashing steps - every key that is present at each of the calls is
    emitted at least once, and everything emitted was an entry of the dictionary at some call. *)
Theorem dictScan_complete {K V} `{EqDecision K, !Countable K, !Inhabited V} (ty : dictType K V) `{!DictTypeOk ty}
    (ds : list (dict K V)) (out : list (K * V)) :
  (forall k, urange 64 (hashFunction ty k)) -> Forall (dict_ok ty) ds -> full_scan 0 ds out ->
  (forall k, Forall (fun d => k ∈ (entries d).*1) ds -> k ∈ out.*1) /\
  (forall e, e ∈ out -> exists d, d ∈ ds /\ e ∈ entries d).
Proof.
  intros Hh Hok Hf. assert (H0 : urange 64 0) by (by vm_compute). split.
  - intros k Hk. apply (full_scan_complete ty Hh 0 ds out k); [done..|].
    rewrite rv_zero. destruct (rv_spec _ (Hh k)) as (_ & [Hr _] & _). exact Hr.
  - by apply (full_scan_sound ty Hh 0).
Qed.

(** C38. An iteration over a dictionary that does not change ends: each call is defined (no bucket
    outside a table, and the inner loop over the larger table stops) and at most as many calls as
    the smaller table in use has buckets (one call if the dictionary is empty) return the cursor
    to 0. *)
Theorem dictScan_terminates {K V} `{EqDecision K, !Countable K, !Inhabited V} (ty : dictType K V) `{!DictTypeOk ty}
    (d : dict K V) (v : Z) :
  (forall k, urange 64 (hashFunction ty k)) -> dict_ok ty d -> urange 64 v ->
  is_Some (dictScan d v) /\
  exists n out, Z.of_nat n <= Z.max 1 (scan_size d) /\ full_scan 0 (replicate n d) out.
Proof.
  intros Hh Hd Hv. assert (H0 : urange 64 0) by (by vm_compute). split.
  { destruct (dictScan_covers ty Hh d v Hd Hv) as (v' & out & bs & -> & _). by eexists. }
  destruct (Z.eq_dec (dictSize d) 0) as [E|E].
  { exists 1%nat, []. split; [lia|]. eapply full_last. unfold dictScan. by rewrite E. }
  destruct (full_scan_terminates ty Hh d Hd E (Z.to_nat (scan_size d)) 0 H0) as (n & out & Hn & Hf).
  - rewrite rv_zero, Zdiv_0_l. lia.
  - exists n, out. split; [lia|done].
Qed.

Lemma dictScan_complete_witness :
  exists out, full_scan 0 (replicate 4 zdict) out /\ 11 ∈ out.*1.
Proof.
  assert (Hf : full_scan 0 (replicate 4 zdict) [(0, 0); (2, 4); (1, 1); (3, 9); (11, 121)]).
  { change (full_scan 0 [zdict; zdict; zdict; zdict] ([(0, 0)] ++ ([(2, 4)] ++ ([(1, 1)] ++ [(3, 9); (11, 121)])))).
    do 3 (eapply full_step; [vm_compute; reflexivity|done|]). eapply full_last. vm_compute. reflexivity. }
  eexists. split; [exact Hf|].
  apply (proj1 (dictScan_complete z_dictType (replicate 4 zdict) _ z_hash_range
    ltac:(apply Forall_replicate, zdict_ok) Hf) 11).
  apply Forall_replicate. vm_compute. repeat (apply elem_of_cons; (by left) || right).
Defined.

Lemma dictScan_terminates_witness :
  is_Some (dictScan zdict 7) /\
  exists n out, Z.of_nat n <= Z.max 1 (scan_size zdict) /\ full_scan 0 (replicate n zdict) out.
Proof.
  apply (dictScan_terminates z_dictType zdict 7 z_hash_range (proj1 zdict_ok)). by vm_compute.
Defined.
