(* ===== verification/HttpConn.v ===== *)
(** The HTTP connection of [webserver/http_conn.h] and [webserver/http_conn.cpp]: the two state
    machines that parse a request out of the read buffer, the non-blocking read, and the life
    cycle of a connection with the epoll registrations it performs.

    A pointer into [m_read_buf] is its offset; [None] as a pointer is NULL.  Every operation
    returns [option]: [None] is undefined behaviour (a NULL dereference, an access outside the
    2048-byte buffer, or flowing off the end of the value-returning [do_request]). *)

From Stdlib Require Import String.
From S2P Require Import Prelude Util.

#[local] Open Scope Z_scope.
#[local] Open Scope list_scope.

(** ** Data *)

Inductive METHOD := GET | POST | HEAD | PUT | DELETE | TRACE | OPTIONS | CONNECT.

Inductive CHECK_STATE := CHECK_STATE_REQUESTLINE | CHECK_STATE_HEADER | CHECK_STATE_CONTENT.

Inductive LINE_STATUS := LINE_OK | LINE_BAD | LINE_OPEN.

Inductive HTTP_CODE :=
  | NO_REQUEST | GET_REQUEST | BAD_REQUEST | NO_RESOURCE | FORBIDDEN_REQUEST | FILE_REQUEST
  | INTERNAL_ERROR | CLOSED_CONNECTION.

#[export] Instance METHOD_eq : EqDecision METHOD.
Proof. solve_decision. Defined.
#[export] Instance CHECK_STATE_eq : EqDecision CHECK_STATE.
Proof. solve_decision. Defined.
#[export] Instance LINE_STATUS_eq : EqDecision LINE_STATUS.
Proof. solve_decision. Defined.
#[export] Instance HTTP_CODE_eq : EqDecision HTTP_CODE.
Proof. solve_decision. Defined.

Definition READ_BUFFER_SIZE : Z := 2048.

Record http_conn := mkConn {
  m_checked_index : Z;
  m_start_line : Z;
  m_url : option Z;
  m_version : option Z;
  m_method : METHOD;
  m_host : option Z;
  m_linger : bool;
  m_content_length : Z;
  m_check_state : CHECK_STATE;
  m_sockfd : Z;
  m_read_buf : bytes;
  m_read_idx : Z;
}.

(** Field updates. *)
Definition set_check_state (s : CHECK_STATE) (c : http_conn) : http_conn :=
  mkConn (m_checked_index c) (m_start_line c) (m_url c) (m_version c) (m_method c) (m_host c)
    (m_linger c) (m_content_length c) s (m_sockfd c) (m_read_buf c) (m_read_idx c).
Definition set_url (p : option Z) (c : http_conn) : http_conn :=
  mkConn (m_checked_index c) (m_start_line c) p (m_version c) (m_method c) (m_host c)
    (m_linger c) (m_content_length c) (m_check_state c) (m_sockfd c) (m_read_buf c) (m_read_idx c).
Definition set_version (p : option Z) (c : http_conn) : http_conn :=
  mkConn (m_checked_index c) (m_start_line c) (m_url c) p (m_method c) (m_host c)
    (m_linger c) (m_content_length c) (m_check_state c) (m_sockfd c) (m_read_buf c) (m_read_idx c).
Definition set_method (m : METHOD) (c : http_conn) : http_conn :=
  mkConn (m_checked_index c) (m_start_line c) (m_url c) (m_version c) m (m_host c)
    (m_linger c) (m_content_length c) (m_check_state c) (m_sockfd c) (m_read_buf c) (m_read_idx c).
Definition set_host (p : option Z) (c : http_conn) : http_conn :=
  mkConn (m_checked_index c) (m_start_line c) (m_url c) (m_version c) (m_method c) p
    (m_linger c) (m_content_length c) (m_check_state c) (m_sockfd c) (m_read_buf c) (m_read_idx c).
Definition set_linger (b : bool) (c : http_conn) : http_conn :=
  mkConn (m_checked_index c) (m_start_line c) (m_url c) (m_version c) (m_method c) (m_host c)
    b (m_content_length c) (m_check_state c) (m_sockfd c) (m_read_buf c) (m_read_idx c).
Definition set_content_length (n : Z) (c : http_conn) : http_conn :=
  mkConn (m_checked_index c) (m_start_line c) (m_url c) (m_version c) (m_method c) (m_host c)
    (m_linger c) n (m_check_state c) (m_sockfd c) (m_read_buf c) (m_read_idx c).
Definition set_checked_index (n : Z) (c : http_conn) : http_conn :=
  mkConn n (m_start_line c) (m_url c) (m_version c) (m_method c) (m_host c)
    (m_linger c) (m_content_length c) (m_check_state c) (m_sockfd c) (m_read_buf c) (m_read_idx c).
Definition set_start_line (n : Z) (c : http_conn) : http_conn :=
  mkConn (m_checked_index c) n (m_url c) (m_version c) (m_method c) (m_host c)
    (m_linger c) (m_content_length c) (m_check_state c) (m_sockfd c) (m_read_buf c) (m_read_idx c).
Definition set_read_buf (b : bytes) (c : http_conn) : http_conn :=
  mkConn (m_checked_index c) (m_start_line c) (m_url c) (m_version c) (m_method c) (m_host c)
    (m_linger c) (m_content_length c) (m_check_state c) (m_sockfd c) b (m_read_idx c).
Definition set_read_idx (n : Z) (c : http_conn) : http_conn :=
  mkConn (m_checked_index c) (m_start_line c) (m_url c) (m_version c) (m_method c) (m_host c)
    (m_linger c) (m_content_length c) (m_check_state c) (m_sockfd c) (m_read_buf c) n.
Definition set_sockfd (n : Z) (c : http_conn) : http_conn :=
  mkConn (m_checked_index c) (m_start_line c) (m_url c) (m_version c) (m_method c) (m_host c)
    (m_linger c) (m_content_length c) (m_check_state c) n (m_read_buf c) (m_read_idx c).

(** Compute field accesses and updates. *)
Ltac csimp :=
  cbn [mbind option_bind set_check_state set_url set_version set_method set_host set_linger
    set_content_length set_checked_index set_start_line set_read_buf set_read_idx set_sockfd
    m_checked_index m_start_line m_url m_version m_method m_host m_linger m_content_length
    m_check_state m_sockfd m_read_buf m_read_idx].

(** ** C string functions over a buffer

    [rest] is the buffer from the pointer on; running off its end before a NUL is [None].  The
    comparison functions read the whole string here; the parser calls them only on the line it
    has just printed with [%s], which has done so too. *)

(** The NUL-terminated string that starts a buffer. *)
Fixpoint cstring (rest : bytes) : option bytes :=
  match rest with
  | [] => None
  | c :: rest => if c =? 0 then Some [] else s ← cstring rest; Some (c :: s)
  end.

(** [m_read_buf + p] as the list of the bytes that follow. *)
Definition at_off (buf : bytes) (p : Z) : option bytes :=
  if (0 <=? p) && (p <=? zlen buf) then Some (drop (Z.to_nat p) buf) else None.

Definition blank (c : Z) : bool := (c =? 32) || (c =? 9).

(** Index of the first byte of a string that satisfies [f]. *)
Fixpoint find_byte (f : Z -> bool) (s : bytes) : option Z :=
  match s with
  | [] => None
  | c :: s => if f c then Some 0 else i ← find_byte f s; Some (i + 1)
  end.

(** [strpbrk(p, " \t")] and [strchr(p, c)]: the pointer found, or NULL. *)
Definition strfind (f : Z -> bool) (buf : bytes) (p : Z) : option (option Z) :=
  rest ← at_off buf p;
  s ← cstring rest;
  Some (i ← find_byte f s; Some (p + i)).

(** [strspn(p, " \t")]. *)
Fixpoint span_blank (s : bytes) : Z :=
  match s with
  | c :: s => if blank c then 1 + span_blank s else 0
  | [] => 0
  end.

Definition strspn_blank (buf : bytes) (p : Z) : option Z :=
  rest ← at_off buf p; s ← cstring rest; Some (span_blank s).

Definition lower (s : bytes) : bytes := map tolower s.

(** [strcasecmp(p, lit) == 0]. *)
Definition strcasecmp0 (buf : bytes) (p : Z) (lit : bytes) : option bool :=
  rest ← at_off buf p; s ← cstring rest; Some (bool_decide (lower s = lower lit)).

(** [strncasecmp(p, lit, strlen(lit)) == 0]. *)
Definition strncasecmp0 (buf : bytes) (p : Z) (lit : bytes) : option bool :=
  rest ← at_off buf p; s ← cstring rest;
  Some (bool_decide (lower (take (length lit) s) = lower lit)).

(** [atol(p)]: blanks, an optional sign, digits; a value that does not fit 64 bits is not
    represented by the C standard and is [None]. *)
Fixpoint skip_space (s : bytes) : bytes :=
  match s with
  | c :: s' => if (c =? 32) || ((9 <=? c) && (c <=? 13)) then skip_space s' else s
  | [] => []
  end.

Fixpoint digits_value (v : Z) (s : bytes) : Z :=
  match s with
  | c :: s => if isdigit c then digits_value (v * 10 + (c - 48)) s else v
  | [] => v
  end.

Definition atol (buf : bytes) (p : Z) : option Z :=
  rest ← at_off buf p; s ← cstring rest;
  let s := skip_space s in
  let v := match s with
           | 45 :: s => - digits_value 0 s
           | 43 :: s => digits_value 0 s
           | _ => digits_value 0 s
           end in
  if (v <? INT64_MIN) || (v >? INT64_MAX) then None else Some v.

(** ** The parser *)

(** One line: [\r\n] becomes two NULs.  The body of the [for] loop returns on its first turn,
    whatever the character is. *)
Definition parse_line (c : http_conn) : option (http_conn * LINE_STATUS) :=
  let i := m_checked_index c in
  if i <? m_read_idx c then
    temp ← zget (m_read_buf c) i;
    if temp =? 13 then
      if i + 1 =? m_read_idx c then Some (c, LINE_OPEN)
      else
        next ← zget (m_read_buf c) (i + 1);
        if next =? 10 then
          buf ← zput (m_read_buf c) i [0];
          buf ← zput buf (i + 1) [0];
          Some (set_checked_index (i + 2) (set_read_buf buf c), LINE_OK)
        else Some (c, LINE_BAD)
    else if temp =? 10 then
      prev ← (if i >? 1 then zget (m_read_buf c) (i - 1) else Some 0);
      if (i >? 1) && (prev =? 13) then
        buf ← zput (m_read_buf c) (i - 1) [0];
        buf ← zput buf i [0];
        Some (set_checked_index (i + 1) (set_read_buf buf c), LINE_OK)
      else Some (c, LINE_BAD)
    else Some (c, LINE_OPEN)
  else Some (c, LINE_OK).

(** The end of [parse_request_line], from the test for the absolute form of the URL on. *)
Definition parse_target (c : http_conn) (url : Z) : option (http_conn * HTTP_CODE) :=
  abs ← strncasecmp0 (m_read_buf c) url (str "http://");
  c ← (if abs : bool then
         slash ← strfind (fun b => b =? 47) (m_read_buf c) (url + 7);
         Some (set_url slash c)
       else Some c);
  match m_url c with
  | None => Some (c, BAD_REQUEST)
  | Some p =>
      ch ← zget (m_read_buf c) p;
      if negb (ch =? 47) then Some (c, BAD_REQUEST)
      else Some (set_check_state CHECK_STATE_HEADER c, NO_REQUEST)
  end.

(** The request line at offset [text]. *)
Definition parse_request_line (c : http_conn) (text : Z) : option (http_conn * HTTP_CODE) :=
  url ← strfind blank (m_read_buf c) text;
  u ← url;
  buf ← zput (m_read_buf c) u [0];
  let c := set_url (Some (u + 1)) (set_read_buf buf c) in
  is_get ← strcasecmp0 (m_read_buf c) text (str "GET");
  if negb is_get then Some (c, BAD_REQUEST)
  else
    let c := set_method GET c in
    version ← strfind blank (m_read_buf c) (u + 1);
    let c := set_version version c in
    match version with
    | None => Some (c, BAD_REQUEST)
    | Some v =>
        buf ← zput (m_read_buf c) v [0];
        let c := set_version (Some (v + 1)) (set_read_buf buf c) in
        is11 ← strcasecmp0 (m_read_buf c) (v + 1) (str "HTTP/1.1");
        if negb is11 then Some (c, BAD_REQUEST) else parse_target c (u + 1)
    end.

(** One header line at offset [text]. *)
Definition parse_headers (c : http_conn) (text : Z) : option (http_conn * HTTP_CODE) :=
  let buf := m_read_buf c in
  ch ← zget buf text;
  if ch =? 0 then
    if negb (m_content_length c =? 0)
    then Some (set_check_state CHECK_STATE_CONTENT c, NO_REQUEST)
    else Some (c, GET_REQUEST)
  else
    is_conn ← strncasecmp0 buf text (str "Connection:");
    if is_conn : bool then
      n ← strspn_blank buf (text + 11);
      keep ← strcasecmp0 buf (text + 11 + n) (str "keep-alive");
      Some (if keep : bool then set_linger true c else c, NO_REQUEST)
    else
      is_len ← strncasecmp0 buf text (str "Content-Length:");
      if is_len : bool then
        n ← strspn_blank buf (text + 15);
        v ← atol buf (text + 15 + n);
        Some (set_content_length (s32 v) c, NO_REQUEST)
      else
        is_host ← strncasecmp0 buf text (str "Host:");
        if is_host : bool then
          n ← strspn_blank buf (text + 5);
          Some (set_host (Some (text + 5 + n)) c, NO_REQUEST)
        else Some (c, NO_REQUEST).

(** The body is not parsed: only its completeness is checked. *)
Definition parse_content (c : http_conn) (text : Z) : option (http_conn * HTTP_CODE) :=
  let bound := m_content_length c + m_checked_index c in
  if (bound <? INT32_MIN) || (bound >? INT32_MAX) then None
  else if m_read_idx c >=? bound then
    buf ← zput (m_read_buf c) (text + m_content_length c) [0];
    Some (set_read_buf buf c, GET_REQUEST)
  else Some (c, NO_REQUEST).

(** [printf] of a string with [%s] reads it up to its NUL. *)
Definition puts (buf : bytes) (p : Z) : option bytes := rest ← at_off buf p; cstring rest.

(** [do_request] has an empty body and no [return]. *)
Definition do_request (c : http_conn) : option (http_conn * HTTP_CODE) := None.

(** The [case CHECK_STATE_CONTENT] part of the switch, which the header case falls into: either
    the function returns, or the loop goes on with [line_status = LINE_OPEN]. *)
Definition content_case (c : http_conn) (text : Z) : option (http_conn * option HTTP_CODE) :=
  r ← parse_content c text;
  let '(c, ret) := r in
  if decide (ret = GET_REQUEST) then
    r ← do_request c; let '(c, ret) := r in Some (c, Some ret)
  else Some (c, None).

(** The [while] loop of [process_read]; [fuel] bounds the number of turns, [Some None] is a loop
    that did not stop within it. *)
Fixpoint process_read_loop (fuel : nat) (c : http_conn) (line_status : LINE_STATUS)
    : option (option (http_conn * HTTP_CODE)) :=
  match fuel with
  | O => Some None
  | S fuel =>
      r ← (if decide (m_check_state c = CHECK_STATE_CONTENT /\ line_status = LINE_OK)
           then Some (c, LINE_OK) else parse_line c);
      let '(c, line_status) := r in
      if negb (bool_decide (line_status = LINE_OK)) then Some (Some (c, NO_REQUEST))
      else
        let text := m_start_line c in
        let c := set_start_line (m_checked_index c) c in
        _ ← puts (m_read_buf c) text;
        match m_check_state c with
        | CHECK_STATE_REQUESTLINE =>
            r ← parse_request_line c text;
            let '(c, ret) := r in
            if decide (ret = BAD_REQUEST) then Some (Some (c, BAD_REQUEST))
            else process_read_loop fuel c line_status
        | CHECK_STATE_HEADER =>
            r ← parse_headers c text;
            let '(c, ret) := r in
            if decide (ret = BAD_REQUEST) then Some (Some (c, BAD_REQUEST))
            else if decide (ret = GET_REQUEST) then r ← do_request c; Some (Some r)
            else
              r ← content_case c text;
              let '(c, ret) := r in
              match ret with
              | Some ret => Some (Some (c, ret))
              | None => process_read_loop fuel c LINE_OPEN
              end
        | CHECK_STATE_CONTENT =>
            r ← content_case c text;
            let '(c, ret) := r in
            match ret with
            | Some ret => Some (Some (c, ret))
            | None => process_read_loop fuel c LINE_OPEN
            end
        end
  end.

Definition process_read (fuel : nat) (c : http_conn) : option (option (http_conn * HTTP_CODE)) :=
  process_read_loop fuel c LINE_OK.

(** ** Life cycle *)

(** What the connection asks of the kernel. *)
Inductive sys_event :=
  | EpollAdd (fd : Z) (oneshot : bool)
  | EpollDel (fd : Z)
  | EpollMod (fd : Z) (epollin : bool)
  | SetNonblocking (fd : Z)
  | SetReuseAddr (fd : Z)
  | Close (fd : Z).

Definition addfd (fd : Z) (one_shot : bool) : list sys_event :=
  [EpollAdd fd one_shot; SetNonblocking fd].

Definition removefd (fd : Z) : list sys_event := [EpollDel fd; Close fd].

Definition modfd (fd : Z) (epollin : bool) : list sys_event := [EpollMod fd epollin].

(** [init()]: the members it does not assign keep their value. *)
Definition init_rest (c : http_conn) : http_conn :=
  mkConn 0 0 None None GET (m_host c) false (m_content_length c) CHECK_STATE_REQUESTLINE
    (m_sockfd c) (replicate (Z.to_nat READ_BUFFER_SIZE) 0) 0.

(** [init(sockfd, addr)]: the connection, the new [m_user_count] and the system calls. *)
Definition init (sockfd : Z) (user_count : Z) (c : http_conn) : http_conn * Z * list sys_event :=
  let c := set_sockfd sockfd c in
  (init_rest c, user_count + 1, SetReuseAddr sockfd :: addfd sockfd true).

Definition close_conn (user_count : Z) (c : http_conn) : http_conn * Z * list sys_event :=
  if negb (m_sockfd c =? -1)
  then (set_sockfd (-1) c, user_count - 1, removefd (m_sockfd c))
  else (c, user_count, []).

(** Results of [recv]; a chunk of data is at most as long as the space offered. *)
Inductive recv_result := RData (d : bytes) | REagain | RError | RClosed.

(** The [while (true)] loop of [read] over the results the kernel gives; [None] when they run
    out or a chunk is empty or longer than the space offered. *)
Fixpoint read_loop (rs : list recv_result) (c : http_conn) : option (http_conn * bool) :=
  match rs with
  | [] => None
  | REagain :: _ => _ ← puts (m_read_buf c) 0; Some (c, true)
  | RError :: _ | RClosed :: _ => Some (c, false)
  | RData d :: rs =>
      if (0 <? zlen d) && (zlen d <=? READ_BUFFER_SIZE - m_read_idx c) then
        buf ← zput (m_read_buf c) (m_read_idx c) d;
        read_loop rs (set_read_idx (m_read_idx c + zlen d) (set_read_buf buf c))
      else None
  end.

Definition read (rs : list recv_result) (c : http_conn) : option (http_conn * bool) :=
  if m_read_idx c >=? READ_BUFFER_SIZE then Some (c, false) else read_loop rs c.

Definition write (c : http_conn) : bool := true.

(** [process]: the connection and the system calls. *)
Definition process (fuel : nat) (c : http_conn) : option (option (http_conn * list sys_event)) :=
  r ← process_read fuel c;
  match r with
  | None => Some None
  | Some (c, read_ret) =>
      if decide (read_ret = NO_REQUEST) then Some (Some (c, modfd (m_sockfd c) true))
      else
        r ← process_read fuel c;
        match r with
        | None => Some None
        | Some (c, _) => Some (Some (c, []))
        end
  end.

(** ** Lemmas on C strings *)

Definition no_nul (s : bytes) : Prop := Forall (fun c => c <> 0) s.

Lemma cstring_app s post : no_nul s -> cstring (s ++ 0 :: post) = Some s.
Proof.
  induction 1 as [|c s Hc _ IH]; [done|]. simpl. rewrite (proj2 (Z.eqb_neq c 0)) by done. by rewrite IH.
Qed.

Lemma at_off_app (pre rest : bytes) p : p = zlen pre -> at_off (pre ++ rest) p = Some rest.
Proof.
  intros ->. unfold at_off. rewrite zlen_app.
  pose proof (zlen_nonneg pre). pose proof (zlen_nonneg rest). repeat zdec. simpl.
  by rewrite to_nat_zlen, drop_app_length.
Qed.

Lemma at_off_0 buf : at_off buf 0 = Some buf.
Proof. apply (at_off_app [] buf). done. Qed.

Lemma zget_0 {A} (x : A) l : zget (x :: l) 0 = Some x.
Proof. done. Qed.

Lemma zget_1 {A} (x y : A) l : zget (x :: y :: l) 1 = Some y.
Proof. done. Qed.

Lemma find_byte_app f a x b : Forall (fun c => f c = false) a -> f x = true ->
  find_byte f (a ++ x :: b) = Some (zlen a).
Proof.
  induction 1 as [|c a Hc _ IH]; intros Hx; simpl; [by rewrite Hx|].
  rewrite Hc, IH by done. simpl. rewrite zlen_cons. f_equal. lia.
Qed.

Lemma strfind_app f pre a x b post p :
  p = zlen pre -> no_nul (a ++ x :: b) -> Forall (fun c => f c = false) a -> f x = true ->
  strfind f (pre ++ a ++ x :: b ++ 0 :: post) p = Some (Some (p + zlen a)).
Proof.
  intros Hp Hn Ha Hx. unfold strfind. rewrite at_off_app by done. cbn [mbind option_bind].
  replace (a ++ x :: b ++ 0 :: post) with ((a ++ x :: b) ++ 0 :: post) by (by rewrite <- app_assoc).
  rewrite cstring_app by done. cbn [mbind option_bind]. by rewrite find_byte_app.
Qed.

Lemma strcasecmp0_app pre s post p lit : p = zlen pre -> no_nul s ->
  strcasecmp0 (pre ++ s ++ 0 :: post) p lit = Some (bool_decide (lower s = lower lit)).
Proof.
  intros Hp Hn. unfold strcasecmp0. rewrite at_off_app by done. cbn [mbind option_bind].
  by rewrite cstring_app.
Qed.

Lemma strncasecmp0_app pre s post p lit : p = zlen pre -> no_nul s ->
  strncasecmp0 (pre ++ s ++ 0 :: post) p lit
  = Some (bool_decide (lower (take (length lit) s) = lower lit)).
Proof.
  intros Hp Hn. unfold strncasecmp0. rewrite at_off_app by done. cbn [mbind option_bind].
  by rewrite cstring_app.
Qed.

Lemma span_blank_app b s : Forall (fun c => blank c = true) b ->
  match s with [] => True | c :: _ => blank c = false end -> span_blank (b ++ s) = zlen b.
Proof.
  induction 1 as [|c b Hc _ IH]; intros Hs; simpl.
  - destruct s as [|c s]; [done|]. simpl. by rewrite Hs.
  - rewrite Hc, IH by done. by rewrite zlen_cons.
Qed.

Lemma strspn_app pre b s post p : p = zlen pre -> no_nul (b ++ s) ->
  Forall (fun c => blank c = true) b -> match s with [] => True | c :: _ => blank c = false end ->
  strspn_blank (pre ++ b ++ s ++ 0 :: post) p = Some (zlen b).
Proof.
  intros Hp Hn Hb Hs. unfold strspn_blank. rewrite at_off_app by done. cbn [mbind option_bind].
  rewrite app_assoc, cstring_app by done. cbn [mbind option_bind]. by rewrite span_blank_app.
Qed.

(** ** The request line *)

(** Offset of the resource path inside a request target, for both forms the code accepts. *)
Definition request_target (url : bytes) : option Z :=
  if decide (lower (take 7 url) = str "http://")
  then i ← find_byte (fun b => b =? 47) (drop 7 url); Some (7 + i)
  else match url with c :: _ => if c =? 47 then Some 0 else None | [] => None end.

Definition line_ok (meth url ver : bytes) : Prop :=
  no_nul meth /\ no_nul url /\ no_nul ver /\
  Forall (fun c => blank c = false) meth /\ Forall (fun c => blank c = false) url.

Lemma blank_nonzero b : blank b = true -> b <> 0.
Proof. unfold blank. intros H ->. done. Qed.

Lemma find_byte_Some f s i : find_byte f s = Some i -> exists x, zget s i = Some x /\ f x = true.
Proof.
  revert i. induction s as [|c s IH]; intros i; simpl; [done|].
  destruct (f c) eqn:E; [intros [= <-]; by exists c|].
  intros H. apply bind_Some_inv in H as (j & Hj & [= <-]). destruct (IH _ Hj) as (x & Hx & Hf).
  exists x. pose proof (zget_range _ _ _ Hx). rewrite zget_cons. zdec.
  by replace (j + 1 - 1) with j by lia.
Qed.

(** A search that starts inside a string. *)
Lemma strfind_in f pre a b post p : p = zlen pre + zlen a -> no_nul (a ++ b) ->
  strfind f (pre ++ (a ++ b) ++ 0 :: post) p = Some (i ← find_byte f b; Some (p + i)).
Proof.
  intros -> Hn. rewrite <- (app_assoc a), (app_assoc pre a). unfold strfind.
  rewrite at_off_app by (by rewrite zlen_app).
  cbn [mbind option_bind]. rewrite cstring_app; [done|]. by apply Forall_app in Hn as [_ ?].
Qed.

(** What the code returns for a target. *)
Definition target_code (t : option Z) : HTTP_CODE :=
  match t with Some _ => NO_REQUEST | None => BAD_REQUEST end.

(** The target in a buffer that holds it at offset [zlen pre]. *)
Lemma parse_target_spec c pre url post : no_nul url ->
  m_read_buf c = pre ++ url ++ 0 :: post -> m_url c = Some (zlen pre) ->
  exists c', parse_target c (zlen pre) = Some (c', target_code (request_target url)) /\
    forall k, request_target url = Some k ->
      c' = set_check_state CHECK_STATE_HEADER (set_url (Some (zlen pre + k)) c).
Proof.
  intros Hn Hbuf Hurl. unfold parse_target. rewrite Hbuf, strncasecmp0_app by done.
  cbn [mbind option_bind]. change (length (str "http://")) with 7%nat.
  change (lower (str "http://")) with (str "http://"). unfold request_target.
  destruct (decide (lower (take 7 url) = str "http://")) as [E|E].
  - rewrite bool_decide_eq_true_2 by done.
    assert (Hl : zlen (take 7 url) = 7).
    { apply (f_equal length) in E. unfold lower in E. rewrite length_map in E. unfold zlen. by rewrite E. }
    pose proof (strfind_in (fun b => b =? 47) pre (take 7 url) (drop 7 url) post (zlen pre + 7)) as Hs.
    rewrite take_drop in Hs. rewrite Hs by (done || lia). cbn [mbind option_bind set_url m_url m_read_buf].
    destruct (find_byte (fun b => b =? 47) (drop 7 url)) as [i|] eqn:Ef; cbn [mbind option_bind]; [|by eexists].
    rewrite Hbuf. destruct (find_byte_Some _ _ _ Ef) as (x & Hx & Hxf). pose proof (zget_range _ _ _ Hx).
    assert (Hg : zget (pre ++ url ++ 0 :: post) (zlen pre + 7 + i) = Some x).
    { rewrite <- (take_drop 7 url), <- app_assoc, (app_assoc pre).
      rewrite zget_app_r, zget_app_l by (rewrite ?zlen_app; lia). rewrite <- Hx, zlen_app. f_equal. lia. }
    rewrite Hg. cbn [mbind option_bind]. rewrite Hxf. cbn [negb].
    eexists. split; [done|]. intros k [= <-]. do 3 f_equal. lia.
  - rewrite bool_decide_eq_false_2 by done. cbn [mbind option_bind]. rewrite Hurl, Hbuf.
    destruct url as [|x url]; simpl app; rewrite zget_app by done; cbn [mbind option_bind]; [by eexists|].
    destruct (Z.eqb_spec x 47); cbn [negb]; (eexists; split; [done|]); [|done].
    intros k [= <-]. rewrite Z.add_0_r, <- Hurl. by destruct c.
Qed.

(** The two words before the target: method and blank. *)
Lemma parse_request_line_words c pre meth url ver post b1 b2 :
  line_ok meth url ver -> blank b1 = true -> blank b2 = true ->
  m_read_buf c = pre ++ meth ++ b1 :: url ++ b2 :: ver ++ 0 :: post ->
  exists c', parse_request_line c (zlen pre)
    = Some (c', if bool_decide (lower meth = str "get") && bool_decide (lower ver = str "http/1.1")
                then target_code (request_target url) else BAD_REQUEST) /\
    (lower meth = str "get" -> lower ver = str "http/1.1" -> forall k, request_target url = Some k ->
      m_read_buf c' = pre ++ meth ++ 0 :: url ++ 0 :: ver ++ 0 :: post /\
      m_check_state c' = CHECK_STATE_HEADER /\ m_method c' = GET /\
      m_url c' = Some (zlen (pre ++ meth ++ [0]) + k) /\
      m_version c' = Some (zlen (pre ++ meth ++ 0 :: url ++ [0]))).
Proof.
  intros (Hnm & Hnu & Hnv & Hbm & Hbu) Hb1 Hb2 Hbuf. unfold parse_request_line.
  destruct c as [ci sl ur ve me ho li cl cs sf buf ri]. cbn [m_read_buf] in Hbuf. subst buf. csimp.
  assert (Hn2 : no_nul (url ++ b2 :: ver)).
  { apply Forall_app; split; [done|]. constructor; [by apply blank_nonzero|done]. }
  assert (Hn1 : no_nul (meth ++ b1 :: url ++ b2 :: ver)).
  { apply Forall_app; split; [done|]. constructor; [by apply blank_nonzero|done]. }
  pose proof (strfind_app blank pre meth b1 (url ++ b2 :: ver) post (zlen pre) eq_refl Hn1 Hbm Hb1) as Hs1.
  rewrite <- app_assoc in Hs1. simpl app in Hs1. rewrite Hs1. csimp.
  rewrite (app_assoc pre meth).
  rewrite (zput1 (pre ++ meth) b1 0) by (by rewrite zlen_app). csimp.
  rewrite <- app_assoc.
  pose proof (strcasecmp0_app pre meth (url ++ b2 :: ver ++ 0 :: post) (zlen pre) (str "GET") eq_refl Hnm) as Hc1.
  rewrite Hc1. csimp.
  change (lower (str "GET")) with (str "get").
  destruct (bool_decide (lower meth = str "get")) eqn:Em; cbn [negb andb].
  2:{ eexists. split; [done|]. apply bool_decide_eq_false in Em. done. }
  set (pre1 := pre ++ meth ++ [0]).
  assert (Eu : zlen pre + zlen meth + 1 = zlen pre1) by (unfold pre1; zlia). rewrite Eu.
  assert (E1 : pre ++ meth ++ 0 :: url ++ b2 :: ver ++ 0 :: post = pre1 ++ url ++ b2 :: ver ++ 0 :: post)
    by (unfold pre1; by rewrite <- !app_assoc). rewrite E1.
  rewrite strfind_app by done. csimp.
  rewrite (app_assoc pre1 url).
  rewrite (zput1 (pre1 ++ url) b2 0) by (by rewrite zlen_app). csimp.
  set (pre2 := pre ++ meth ++ 0 :: url ++ [0]).
  assert (Ev : zlen pre1 + zlen url + 1 = zlen pre2) by (unfold pre1, pre2; zlia). rewrite Ev.
  assert (E2 : (pre1 ++ url) ++ 0 :: ver ++ 0 :: post = pre2 ++ ver ++ 0 :: post)
    by (unfold pre1, pre2; rewrite <- !app_assoc; simpl; by rewrite <- !app_assoc). rewrite E2.
  rewrite strcasecmp0_app by done. csimp.
  change (lower (str "HTTP/1.1")) with (str "http/1.1").
  destruct (bool_decide (lower ver = str "http/1.1")) eqn:Ever; cbn [negb andb].
  2:{ eexists. split; [done|]. apply bool_decide_eq_false in Ever. done. }
  match goal with |- context [parse_target ?c1 _] =>
    destruct (parse_target_spec c1 pre1 url (ver ++ 0 :: post) Hnu) as (c' & -> & Hc') end.
  { csimp. rewrite <- E2. by rewrite <- app_assoc. }
  { done. }
  exists c'. split; [done|]. intros _ _ k Hk. rewrite (Hc' k Hk). cbn.
  split; [|done]. unfold pre2. rewrite <- !app_assoc. simpl. by rewrite <- !app_assoc.
Qed.

(** ** Header lines *)

Lemma lower_app a b : lower (a ++ b) = lower a ++ lower b.
Proof. apply map_app. Qed.

Lemma lower_take n s : lower (take n s) = take n (lower s).
Proof.
  revert s. induction n as [|n IH]; intros [|c s]; [done..|]. simpl. f_equal. apply IH.
Qed.

(** Testing a line whose name part is known up to case. *)
Lemma header_test pre name rest post lit full :
  no_nul (name ++ rest) -> lower name = lower full -> (length lit <= length full)%nat ->
  strncasecmp0 (pre ++ (name ++ rest) ++ 0 :: post) (zlen pre) lit
  = Some (bool_decide (take (length lit) (lower full) = lower lit)).
Proof.
  intros Hn Hname Hle. rewrite strncasecmp0_app by done. do 2 f_equal.
  assert (Hl : length name = length full).
  { apply (f_equal length) in Hname. unfold lower in Hname. by rewrite !length_map in Hname. }
  rewrite take_app_le by lia. by rewrite lower_take, Hname.
Qed.

(** A header line: name, blanks, value. *)
Definition header_line (name blanks value : bytes) : Prop :=
  no_nul (name ++ blanks ++ value) /\ Forall (fun c => blank c = true) blanks /\
  match value with [] => True | c :: _ => blank c = false end.

Lemma header_span pre name blanks value post : header_line name blanks value ->
  strspn_blank (pre ++ (name ++ blanks ++ value) ++ 0 :: post) (zlen pre + zlen name) = Some (zlen blanks).
Proof.
  intros (Hn & Hb & Hv). rewrite <- !app_assoc, (app_assoc pre name).
  apply strspn_app; [by rewrite zlen_app|by apply Forall_app in Hn as [_ ?]|done|done].
Qed.

(** The first byte of a non-empty line is not NUL. *)
Lemma header_first pre name rest post : no_nul (name ++ rest) -> name <> [] ->
  exists ch, zget (pre ++ (name ++ rest) ++ 0 :: post) (zlen pre) = Some ch /\ (ch =? 0) = false.
Proof.
  destruct name as [|ch name]; [done|]. intros Hn _. exists ch. inversion Hn; subst.
  split; [by apply zget_app|]. by apply Z.eqb_neq.
Qed.

Lemma zlen_name name (lit : bytes) : lower name = lit -> zlen name = zlen lit.
Proof. intros <-. unfold zlen, lower. by rewrite length_map. Qed.

Lemma parse_headers_connection c pre name blanks value post :
  header_line name blanks value -> lower name = str "connection:" ->
  m_read_buf c = pre ++ (name ++ blanks ++ value) ++ 0 :: post ->
  parse_headers c (zlen pre)
  = Some (if decide (lower value = str "keep-alive") then set_linger true c else c, NO_REQUEST).
Proof.
  intros Hh Hname Hbuf. pose proof Hh as (Hn & Hb & Hv). unfold parse_headers. rewrite Hbuf.
  assert (Hne : name <> []) by (by intros ->).
  destruct (header_first pre name (blanks ++ value) post Hn Hne) as (ch & -> & Hch).
  cbn [mbind option_bind]. rewrite Hch.
  rewrite (header_test _ _ _ _ (str "Connection:") (str "Connection:")) by (done || (simpl; lia)).
  rewrite bool_decide_eq_true_2 by reflexivity. cbn [mbind option_bind].
  pose proof (zlen_name _ _ Hname) as Hz. change (zlen (str "connection:")) with 11 in Hz.
  rewrite <- Hz, header_span by done. cbn [mbind option_bind].
  rewrite <- !app_assoc, !(app_assoc pre), (app_assoc (pre ++ name) blanks).
  rewrite strcasecmp0_app; [|rewrite !zlen_app; lia|by apply Forall_app in Hn as [_ [_ ?]%Forall_app]].
  cbn [mbind option_bind]. change (lower (str "keep-alive")) with (str "keep-alive").
  by destruct (decide (lower value = str "keep-alive")); [rewrite bool_decide_eq_true_2|rewrite bool_decide_eq_false_2].
Qed.

(** A test against a name that starts with another letter fails. *)
Lemma header_test_first pre name rest post lit x xs y ys :
  no_nul (name ++ rest) -> lower name = x :: xs -> lower lit = y :: ys -> x <> y ->
  strncasecmp0 (pre ++ (name ++ rest) ++ 0 :: post) (zlen pre) lit = Some false.
Proof.
  intros Hn Hx Hy Hne. rewrite strncasecmp0_app by done. f_equal. apply bool_decide_eq_false_2.
  destruct name as [|a name]; [done|]. destruct lit as [|b lit]; [done|]. simpl in *. simplify_eq. congruence.
Qed.

Lemma parse_headers_host c pre name blanks value post :
  header_line name blanks value -> lower name = str "host:" ->
  m_read_buf c = pre ++ (name ++ blanks ++ value) ++ 0 :: post ->
  parse_headers c (zlen pre) = Some (set_host (Some (zlen (pre ++ name ++ blanks))) c, NO_REQUEST).
Proof.
  intros Hh Hname Hbuf. pose proof Hh as (Hn & Hb & Hv). unfold parse_headers. rewrite Hbuf.
  assert (Hne : name <> []) by (by intros ->).
  destruct (header_first pre name (blanks ++ value) post Hn Hne) as (ch & -> & Hch).
  cbn [mbind option_bind]. rewrite Hch.
  rewrite (header_test_first _ _ _ _ (str "Connection:") _ _ _ _ Hn Hname eq_refl) by done. cbn [mbind option_bind].
  rewrite (header_test_first _ _ _ _ (str "Content-Length:") _ _ _ _ Hn Hname eq_refl) by done. cbn [mbind option_bind].
  rewrite (header_test _ _ _ _ (str "Host:") (str "Host:")) by (done || (simpl; lia)).
  rewrite bool_decide_eq_true_2 by reflexivity. cbn [mbind option_bind].
  pose proof (zlen_name _ _ Hname) as Hz. change (zlen (str "host:")) with 5 in Hz.
  rewrite <- Hz, header_span by done. cbn [mbind option_bind]. do 4 f_equal. rewrite !zlen_app. lia.
Qed.

(** [atol] on a digit string. *)
Lemma digits_value_dval s : forall v, Forall digit s -> digits_value v s = dval v s.
Proof.
  induction s as [|c s IH]; intros v Hf; [done|]. inversion Hf as [|? ? Hd]; subst. unfold digit in Hd.
  cbn [digits_value]. unfold isdigit. repeat zdec. cbn [andb]. rewrite IH by done. done.
Qed.

Lemma skip_space_digits s : Forall digit s -> skip_space s = s.
Proof. destruct s as [|c s]; [done|]. intros Hf. inversion Hf; subst. unfold digit in *. simpl. by repeat zdec. Qed.

Lemma atol_digits pre s post : Forall digit s -> dval 0 s <= INT64_MAX ->
  atol (pre ++ s ++ 0 :: post) (zlen pre) = Some (dval 0 s).
Proof.
  intros Hf Hle. unfold atol. rewrite at_off_app by done. cbn [mbind option_bind].
  rewrite cstring_app by (eapply Forall_impl; [|exact Hf]; unfold digit; intros; lia).
  cbn [mbind option_bind]. rewrite skip_space_digits by done.
  assert (E : match s with 45 :: s => - digits_value 0 s | 43 :: s => digits_value 0 s
              | _ => digits_value 0 s end = dval 0 s).
  { rewrite <- digits_value_dval by done. destruct s as [|c s]; [done|]. inversion Hf; subst.
    unfold digit in *. repeat case_match; try done; lia. }
  rewrite E. pose proof (dval_mono s 0 ltac:(lia) Hf). unfold INT64_MIN, INT64_MAX in *.
  rewrite Z.gtb_ltb. by repeat zdec.
Qed.

Lemma parse_headers_content_length c pre name blanks value post :
  header_line name blanks value -> lower name = str "content-length:" ->
  Forall digit value -> dval 0 value <= INT32_MAX ->
  m_read_buf c = pre ++ (name ++ blanks ++ value) ++ 0 :: post ->
  parse_headers c (zlen pre) = Some (set_content_length (dval 0 value) c, NO_REQUEST).
Proof.
  intros Hh Hname Hd Hmax Hbuf. pose proof Hh as (Hn & Hb & Hv). unfold parse_headers. rewrite Hbuf.
  assert (Hne : name <> []) by (by intros ->).
  destruct (header_first pre name (blanks ++ value) post Hn Hne) as (ch & -> & Hch).
  cbn [mbind option_bind]. rewrite Hch.
  rewrite (header_test _ _ _ _ (str "Connection:") (str "Content-Length:")) by (done || (simpl; lia)).
  rewrite (header_test _ _ _ _ (str "Content-Length:") (str "Content-Length:")) by (done || (simpl; lia)).
  rewrite (bool_decide_eq_false_2 (_ = lower (str "Connection:"))) by (vm_compute; congruence).
  cbn [mbind option_bind]. rewrite bool_decide_eq_true_2 by reflexivity. cbn [mbind option_bind].
  pose proof (zlen_name _ _ Hname) as Hz. change (zlen (str "content-length:")) with 15 in Hz.
  rewrite <- Hz, header_span by done. cbn [mbind option_bind].
  rewrite <- !app_assoc, !(app_assoc pre), (app_assoc (pre ++ name) blanks).
  replace (zlen pre + zlen name + zlen blanks) with (zlen ((pre ++ name) ++ blanks)) by (rewrite !zlen_app; lia).
  unfold INT32_MAX in Hmax. pose proof (dval_mono value 0 ltac:(lia) Hd).
  rewrite atol_digits by (done || (unfold INT64_MAX; lia)). cbn [mbind option_bind].
  rewrite swrap_small; [done| |lia]. unfold srange. change (2 ^ (32 - 1)) with (2 ^ 31). lia.
Qed.

(** ** Reading from the socket *)

(** The buffer holds [data] followed by zeros, [m_read_idx] counting [data]. *)
Definition holds (c : http_conn) (data : bytes) : Prop :=
  m_read_idx c = zlen data /\ zlen data <= READ_BUFFER_SIZE /\
  m_read_buf c = data ++ replicate (Z.to_nat (READ_BUFFER_SIZE - zlen data)) 0.

(** The connection after [d] more bytes have been received. *)
Definition received (c : http_conn) (data d : bytes) : http_conn :=
  set_read_idx (zlen (data ++ d))
    (set_read_buf ((data ++ d) ++ replicate (Z.to_nat (READ_BUFFER_SIZE - zlen (data ++ d))) 0) c).

Lemma holds_received c data d : zlen (data ++ d) <= READ_BUFFER_SIZE -> holds (received c data d) (data ++ d).
Proof. done. Qed.

Lemma received_nil c data : holds c data -> received c data [] = c.
Proof.
  intros (H1 & _ & H3). unfold received. rewrite app_nil_r, <- H3, <- H1. by destruct c.
Qed.

Lemma read_loop_data d rs c data : holds c data -> 0 < zlen d ->
  zlen (data ++ d) <= READ_BUFFER_SIZE ->
  read_loop (RData d :: rs) c = read_loop rs (received c data d).
Proof.
  intros (H1 & H2 & H3) Hd Hle. cbn [read_loop]. rewrite zlen_app in Hle. rewrite H1, H3.
  repeat zdec. cbn [andb].
  assert (E : replicate (Z.to_nat (READ_BUFFER_SIZE - zlen data)) 0
    = replicate (length d) 0 ++ replicate (Z.to_nat (READ_BUFFER_SIZE - zlen (data ++ d))) 0).
  { rewrite <- replicate_add. f_equal. rewrite zlen_app. unfold zlen in *. lia. }
  rewrite E, zput_app; [|done|by rewrite zlen_replicate]. cbn [mbind option_bind].
  unfold received. by rewrite <- zlen_app, (app_assoc data).
Qed.

Lemma read_loop_chunks ds : forall c data rs, holds c data -> Forall (fun d => 0 < zlen d) ds ->
  zlen (data ++ concat ds) <= READ_BUFFER_SIZE ->
  read_loop (map RData ds ++ rs) c = read_loop rs (received c data (concat ds)).
Proof.
  induction ds as [|d ds IH]; intros c data rs Hh Hf Hle; simpl concat in *; simpl map.
  { by rewrite received_nil. }
  inversion Hf; subst. rewrite !zlen_app in Hle. pose proof (zlen_nonneg (concat ds)).
  simpl app. rewrite (read_loop_data d _ c data) by (done || rewrite zlen_app; lia).
  rewrite (IH _ (data ++ d)); [|apply holds_received; rewrite zlen_app; lia|done|rewrite !zlen_app; lia].
  f_equal. unfold received. by rewrite <- !(app_assoc data d).
Qed.

Lemma puts_nul c data : holds c data -> zlen data < READ_BUFFER_SIZE -> is_Some (puts (m_read_buf c) 0).
Proof.
  intros (_ & _ & ->) Hlt. unfold puts. rewrite at_off_0. cbn [mbind option_bind].
  destruct (Z.to_nat (READ_BUFFER_SIZE - zlen data)) as [|n] eqn:E; [lia|].
  change (replicate (S n) 0) with (0 :: replicate n 0). clear.
  induction data as [|x data IH]; [by eexists|]. cbn [app cstring].
  destruct (x =? 0); [by eexists|]. destruct IH as [s ->]. by eexists.
Qed.

(** ** Properties *)

(** C35. A request line of three blank-separated words is accepted exactly when the method is GET,
    the version is HTTP/1.1 (both up to case) and the target is an absolute path or an
    [http://] URL with a path; then [m_url] and [m_version] point at NUL-terminated copies of the
    path and the version in the buffer and the main state machine moves to the headers. *)
Theorem parse_request_line_correct c pre meth url ver post b1 b2 :
  line_ok meth url ver -> blank b1 = true -> blank b2 = true ->
  m_read_buf c = pre ++ meth ++ b1 :: url ++ b2 :: ver ++ 0 :: post ->
  exists c', parse_request_line c (zlen pre)
    = Some (c', if bool_decide (lower meth = str "get") && bool_decide (lower ver = str "http/1.1")
                then target_code (request_target url) else BAD_REQUEST) /\
    (lower meth = str "get" -> lower ver = str "http/1.1" -> forall k, request_target url = Some k ->
      m_check_state c' = CHECK_STATE_HEADER /\ m_method c' = GET /\
      exists p v, m_url c' = Some p /\ m_version c' = Some v /\
        puts (m_read_buf c') p = Some (drop (Z.to_nat k) url) /\ puts (m_read_buf c') v = Some ver).
Proof.
  intros Hok Hb1 Hb2 Hbuf. pose proof Hok as (Hnm & Hnu & Hnv & _).
  destruct (parse_request_line_words c pre meth url ver post b1 b2 Hok Hb1 Hb2 Hbuf) as (c' & E & Hc').
  exists c'. split; [done|]. intros H1 H2 k Hk.
  destruct (Hc' H1 H2 k Hk) as (Eb & Es & Em & Eu & Ev). split; [done|]. split; [done|].
  eexists _, _. split; [done|]. split; [done|]. rewrite Eb. unfold puts. split.
  - assert (Hkr : 0 <= k <= zlen url).
    { unfold request_target in Hk. case_decide.
      - apply bind_Some_inv in Hk as (i & Hi & [= <-]). apply find_byte_Some in Hi as (x & Hx%zget_range & _).
        unfold zlen in *. rewrite length_drop in Hx. lia.
      - destruct url as [|x url]; [done|]. destruct (x =? 47); [|done]. injection Hk as <-.
        rewrite zlen_cons. pose proof (zlen_nonneg url). lia. }
    replace (pre ++ meth ++ 0 :: url ++ 0 :: ver ++ 0 :: post)
      with (((pre ++ meth ++ [0]) ++ take (Z.to_nat k) url) ++ drop (Z.to_nat k) url ++ 0 :: ver ++ 0 :: post)
      by (rewrite <- (take_drop (Z.to_nat k) url) at 3; by rewrite <- !app_assoc).
    rewrite at_off_app. 2:{ rewrite (zlen_app (pre ++ meth ++ [0])). f_equal. unfold zlen in *. rewrite length_take. lia. }
    cbn [mbind option_bind]. apply cstring_app. by apply Forall_drop.
  - replace (pre ++ meth ++ 0 :: url ++ 0 :: ver ++ 0 :: post)
      with ((pre ++ meth ++ 0 :: url ++ [0]) ++ ver ++ 0 :: post)
      by (rewrite <- !app_assoc; simpl; by rewrite <- !app_assoc).
    rewrite at_off_app by done. by apply cstring_app.
Qed.

Definition conn_of (buf : bytes) : http_conn :=
  mkConn 0 0 None None GET None false 0 CHECK_STATE_REQUESTLINE 7 buf (zlen buf).

Lemma parse_request_line_correct_witness :
  exists c', parse_request_line (conn_of (str "GET http://h/a HTTP/1.1" ++ [0; 0])) 0 = Some (c', NO_REQUEST) /\
    exists p v, m_url c' = Some p /\ m_version c' = Some v /\
      puts (m_read_buf c') p = Some (str "/a") /\ puts (m_read_buf c') v = Some (str "HTTP/1.1").
Proof.
  destruct (parse_request_line_correct (conn_of (str "GET http://h/a HTTP/1.1" ++ [0; 0]))
    [] (str "GET") (str "http://h/a") (str "HTTP/1.1") [0] 32 32) as (c' & E & Hc').
  - unfold line_ok, no_nul. repeat split; repeat constructor; done.
  - done.
  - done.
  - done.
  - exists c'. split; [exact E|].
    destruct (Hc' eq_refl eq_refl 8 ltac:(vm_compute; reflexivity)) as (_ & _ & p & v & H1 & H2 & H3 & H4).
    exists p, v. done.
Defined.

(** Header lines: [Connection], [Content-Length] and [Host] (names up to case, any blanks
    before the value) set exactly their own member, and an empty line ends the headers: the
    request is complete when no body is announced, otherwise the body is awaited. *)
Theorem parse_headers_correct c pre name blanks value post :
  header_line name blanks value -> m_read_buf c = pre ++ (name ++ blanks ++ value) ++ 0 :: post ->
  (lower name = str "connection:" -> parse_headers c (zlen pre)
    = Some (if decide (lower value = str "keep-alive") then set_linger true c else c, NO_REQUEST)) /\
  (lower name = str "content-length:" -> Forall digit value -> dval 0 value <= INT32_MAX ->
    parse_headers c (zlen pre) = Some (set_content_length (dval 0 value) c, NO_REQUEST)) /\
  (lower name = str "host:" ->
    parse_headers c (zlen pre) = Some (set_host (Some (zlen (pre ++ name ++ blanks))) c, NO_REQUEST)) /\
  (name ++ blanks ++ value = [] -> parse_headers c (zlen pre)
    = Some (if m_content_length c =? 0 then (c, GET_REQUEST)
            else (set_check_state CHECK_STATE_CONTENT c, NO_REQUEST))).
Proof.
  intros Hh Hbuf. split; [|split; [|split]]; intros.
  - by eapply parse_headers_connection.
  - by eapply parse_headers_content_length.
  - by eapply parse_headers_host.
  - unfold parse_headers. rewrite Hbuf, H. simpl app. rewrite zget_app by done. cbn [mbind option_bind].
    by destruct (m_content_length c =? 0).
Qed.

Lemma parse_headers_correct_witness :
  parse_headers (conn_of (str "Content-Length:  42" ++ [0])) 0
  = Some (set_content_length 42 (conn_of (str "Content-Length:  42" ++ [0])), NO_REQUEST).
Proof.
  destruct (parse_headers_correct (conn_of (str "Content-Length:  42" ++ [0]))
    [] (str "Content-Length:") (str "  ") (str "42") []) as (_ & H & _).
  - unfold header_line, no_nul. repeat split; repeat constructor; done.
  - done.
  - apply H; [done| |vm_compute; congruence].
    change (Forall digit [52; 50]). unfold digit. repeat (apply List.Forall_cons; [lia|]). apply List.Forall_nil.
Defined.

(** [read] stores the received chunks contiguously after the data already there and reports
    success when the socket runs dry with the buffer not full; when the chunks fill the buffer,
    the next [recv] is given no space and returns 0, and [read] reports the connection closed. *)
Theorem read_correct c data ds :
  holds c data -> zlen data < READ_BUFFER_SIZE -> Forall (fun d => 0 < zlen d) ds ->
  (zlen (data ++ concat ds) < READ_BUFFER_SIZE ->
    exists c', read (map RData ds ++ [REagain]) c = Some (c', true) /\ holds c' (data ++ concat ds)) /\
  (zlen (data ++ concat ds) = READ_BUFFER_SIZE ->
    exists c', read (map RData ds ++ [RClosed]) c = Some (c', false) /\ holds c' (data ++ concat ds)).
Proof.
  intros Hh Hlt Hf. unfold read. rewrite (proj1 Hh), Z.geb_leb. zdec.
  split; intros Hz; rewrite (read_loop_chunks _ _ data) by (done || lia); cbn [read_loop].
  - assert (Hr : holds (received c data (concat ds)) (data ++ concat ds)) by (apply holds_received; lia).
    destruct (puts_nul _ _ Hr Hz) as [s ->]. by eexists.
  - eexists. split; [done|]. apply holds_received. lia.
Qed.

Lemma read_correct_witness :
  exists c', read (map RData [str "GET / "; str "HTTP/1.1"] ++ [REagain]) (init_rest (conn_of [])) = Some (c', true) /\
    holds c' (str "GET / HTTP/1.1").
Proof.
  apply (read_correct (init_rest (conn_of [])) [] [str "GET / "; str "HTTP/1.1"]).
  - done.
  - done.
  - repeat constructor; done.
  - done.
Defined.

(** C34. On a fresh connection the request line is never found: whatever non-empty data has been
    read, [process_read] leaves the connection unchanged and asks for more input, unless the
    data starts with an empty line, where the NULL returned by [strpbrk] is dereferenced. *)
Theorem process_read_fresh c data fuel :
  holds c data -> zlen data < READ_BUFFER_SIZE -> data <> [] -> m_check_state c = CHECK_STATE_REQUESTLINE ->
  m_checked_index c = 0 -> m_start_line c = 0 ->
  process_read (S fuel) c = if decide (take 2 data = [13; 10]) then None else Some (Some (c, NO_REQUEST)).
Proof.
  intros (Hi & Hle & Hbuf) Hlt Hne Hs Hc Hst. unfold process_read. cbn [process_read_loop].
  rewrite decide_False by (rewrite Hs; naive_solver). unfold parse_line. rewrite Hc, Hi, Hbuf.
  destruct data as [|x data]; [done|]. rewrite zlen_cons in *. pose proof (zlen_nonneg data).
  zdec. simpl app. rewrite zget_0. cbn [mbind option_bind].
  destruct (Z.eqb_spec x 13) as [->|].
  - destruct data as [|y data]; [by rewrite decide_False|].
    rewrite zlen_cons in *. pose proof (zlen_nonneg data). zdec. simpl app.
    rewrite zget_1. cbn [mbind option_bind]. simpl take.
    destruct (Z.eqb_spec y 10) as [->|]; [|by rewrite decide_False by congruence].
    rewrite decide_True by done.
    set (zs := replicate _ 0).
    change (13 :: 10 :: data ++ zs) with ([] ++ 13 :: 10 :: data ++ zs). rewrite zput1 by done.
    cbn [mbind option_bind]. change ([] ++ 0 :: 10 :: data ++ zs) with ([0] ++ 10 :: data ++ zs).
    rewrite zput1 by done. csimp. simpl app. rewrite Hst, Hs.
    unfold puts. rewrite at_off_0. cbn [mbind option_bind cstring Z.eqb].
    unfold parse_request_line. csimp. unfold strfind. rewrite at_off_0. done.
  - destruct (Z.eqb_spec x 10) as [->|]; [by rewrite decide_False|].
    by rewrite decide_False by (simpl; destruct data; simpl; congruence).
Qed.

Lemma process_read_fresh_witness :
  process_read 1 (received (init_rest (conn_of [])) [] (str "GET / HTTP/1.1"))
  = Some (Some (received (init_rest (conn_of [])) [] (str "GET / HTTP/1.1"), NO_REQUEST)).
Proof.
  apply (process_read_fresh (received (init_rest (conn_of [])) [] (str "GET / HTTP/1.1"))
    (str "GET / HTTP/1.1") 0); done.
Defined.
