(* ===== verification/ThreadPool.v ===== *)
(** The thread pool of [webserver/threadpool.h] with the mutex and the semaphore of
    [webserver/locker.h].  One thread (the main loop) appends requests, the workers run them.
    Every statement that touches shared state is one action of an interleaving semantics:
    [exec] says when an action is enabled and what it does, [reachable] closes over all
    schedules.  The destructor runs in the appending thread, statement by statement, while the
    detached workers go on: [undefined] says when the next statement of a thread uses a member
    that is already destroyed, and such a statement has no result.  The lists [accepted], [popped], [processed] and [dropped] are history variables:
    no action reads them. *)

From stdpp Require Import list.
From S2P Require Import Prelude.

#[local] Open Scope Z_scope.

(** ** Data *)

(** Who holds [m_queuelocker]. *)
Inductive owner := OMain | OWorker (i : nat).

(** Where the main thread is inside [append] or the destructor.  The members go in the reverse
    order of their declaration, then [delete] releases the object. *)
Inductive apc :=
  | AIdle                (* not in append *)
  | ALock (r : Z)        (* before m_queuelocker.lock() *)
  | ATest (r : Z)        (* holds the lock, before the size test *)
  | AUnlockFull          (* holds the lock, queue full *)
  | AUnlock              (* holds the lock, request pushed *)
  | APost                (* before m_queuestat.post() *)
  | DSem                 (* ~threadpool has run its body: before ~sem() *)
  | DLock                (* before ~locker() *)
  | DQueue               (* before ~list() *)
  | DFree                (* before the memory is released *)
  | DGone.               (* the object is gone *)

(** Where a worker is inside [run]. *)
Inductive wpc :=
  | WLoop                (* testing m_stop *)
  | WWait                (* before m_queuestat.wait() *)
  | WLock                (* before m_queuelocker.lock() *)
  | WTest                (* holds the lock, before empty() *)
  | WUnlockEmpty         (* holds the lock, queue empty *)
  | WUnlock (r : Z)      (* holds the lock, request taken *)
  | WRun (r : Z)         (* before request->process() *)
  | WExit.

#[export] Instance owner_eq : EqDecision owner.
Proof. solve_decision. Defined.
#[export] Instance wpc_eq : EqDecision wpc.
Proof. solve_decision. Defined.

Record pool := mkPool {
  m_max_requests : Z;
  m_workqueue : list Z;
  m_queuelocker : option owner;
  m_queuestat : Z;
  m_stop : bool;
  app_pc : apc;
  workers : list wpc;
  accepted : list Z;
  popped : list Z;
  processed : list Z;
  dropped : list Z;
}.

(** [threadpool(thread_number, max_request)]; [created] are the results of [pthread_create] and
    [pthread_detach] for each thread.  [None] is the exception. *)
Definition threadpool (thread_number max_request : Z) (created : list bool) : option pool :=
  if (thread_number <=? 0) || (max_request <=? 0) then None
  else if forallb id (take (Z.to_nat thread_number) created)
       && (Z.to_nat thread_number <=? length created)%nat
  then Some (mkPool max_request [] None 0 false AIdle (replicate (Z.to_nat thread_number) WLoop) [] [] [] [])
  else None.

(** ** Actions *)

Inductive action :=
  | Append (r : Z)       (* the main loop calls append *)
  | Main                 (* append goes one step *)
  | Work (i : nat)       (* worker i goes one step *)
  | Destroy.             (* ~threadpool *)

Definition upd_app (a : apc) (s : pool) : pool :=
  mkPool (m_max_requests s) (m_workqueue s) (m_queuelocker s) (m_queuestat s) (m_stop s) a (workers s)
    (accepted s) (popped s) (processed s) (dropped s).
Definition upd_lock (o : option owner) (s : pool) : pool :=
  mkPool (m_max_requests s) (m_workqueue s) o (m_queuestat s) (m_stop s) (app_pc s) (workers s)
    (accepted s) (popped s) (processed s) (dropped s).
Definition upd_sem (n : Z) (s : pool) : pool :=
  mkPool (m_max_requests s) (m_workqueue s) (m_queuelocker s) n (m_stop s) (app_pc s) (workers s)
    (accepted s) (popped s) (processed s) (dropped s).
Definition upd_worker (i : nat) (w : wpc) (s : pool) : pool :=
  mkPool (m_max_requests s) (m_workqueue s) (m_queuelocker s) (m_queuestat s) (m_stop s) (app_pc s)
    (<[i := w]> (workers s)) (accepted s) (popped s) (processed s) (dropped s).
Definition push (r : Z) (s : pool) : pool :=
  mkPool (m_max_requests s) (m_workqueue s ++ [r]) (m_queuelocker s) (m_queuestat s) (m_stop s) (app_pc s)
    (workers s) (accepted s ++ [r]) (popped s) (processed s) (dropped s).
Definition pop (r : Z) (q : list Z) (s : pool) : pool :=
  mkPool (m_max_requests s) q (m_queuelocker s) (m_queuestat s) (m_stop s) (app_pc s)
    (workers s) (accepted s) (popped s ++ [r]) (processed s) (dropped s).
Definition log_processed (r : Z) (s : pool) : pool :=
  mkPool (m_max_requests s) (m_workqueue s) (m_queuelocker s) (m_queuestat s) (m_stop s) (app_pc s)
    (workers s) (accepted s) (popped s) (processed s ++ [r]) (dropped s).
Definition log_dropped (r : Z) (s : pool) : pool :=
  mkPool (m_max_requests s) (m_workqueue s) (m_queuelocker s) (m_queuestat s) (m_stop s) (app_pc s)
    (workers s) (accepted s) (popped s) (processed s) (dropped s ++ [r]).
Definition upd_stop (b : bool) (s : pool) : pool :=
  mkPool (m_max_requests s) (m_workqueue s) (m_queuelocker s) (m_queuestat s) b (app_pc s)
    (workers s) (accepted s) (popped s) (processed s) (dropped s).

(** One step of [append]. *)
Definition append_step (s : pool) : option pool :=
  match app_pc s with
  | AIdle => None
  | ALock r =>
      match m_queuelocker s with
      | None => Some (upd_app (ATest r) (upd_lock (Some OMain) s))
      | Some _ => None
      end
  | ATest r =>
      if zlen (m_workqueue s) >? m_max_requests s then Some (upd_app AUnlockFull s)
      else Some (upd_app AUnlock (push r s))
  | AUnlockFull => Some (upd_app AIdle (upd_lock None s))
  | AUnlock => Some (upd_app APost (upd_lock None s))
  | APost => Some (upd_app AIdle (upd_sem (m_queuestat s + 1) s))
  | _ => None
  end.

(** [~threadpool]: the body sets [m_stop] and returns at once ([m_threads], which it deletes
    first, is used by no other thread); then the members are destroyed. *)
Definition dtor_body (s : pool) : option pool :=
  match app_pc s with AIdle => Some (upd_app DSem (upd_stop true s)) | _ => None end.

Definition dtor_step (s : pool) : option pool :=
  match app_pc s with
  | DSem => Some (upd_app DLock s)
  | DLock => Some (upd_app DQueue s)
  | DQueue => Some (upd_app DFree s)
  | DFree => Some (upd_app DGone s)
  | _ => None
  end.

(** One step of [run] in worker [i]; 0 is the NULL request. *)
Definition run_step (i : nat) (s : pool) : option pool :=
  match workers s !! i with
  | None | Some WExit => None
  | Some WLoop => Some (upd_worker i (if m_stop s then WExit else WWait) s)
  | Some WWait =>
      if 0 <? m_queuestat s then Some (upd_worker i WLock (upd_sem (m_queuestat s - 1) s)) else None
  | Some WLock =>
      match m_queuelocker s with
      | None => Some (upd_worker i WTest (upd_lock (Some (OWorker i)) s))
      | Some _ => None
      end
  | Some WTest =>
      match m_workqueue s with
      | [] => Some (upd_worker i WUnlockEmpty s)
      | r :: q => Some (upd_worker i (WUnlock r) (pop r q s))
      end
  | Some WUnlockEmpty => Some (upd_worker i WLoop (upd_lock None s))
  | Some (WUnlock r) =>
      if r =? 0 then Some (upd_worker i WLoop (upd_lock None (log_dropped r s)))
      else Some (upd_worker i (WRun r) (upd_lock None s))
  | Some (WRun r) => Some (upd_worker i WLoop (log_processed r s))
  end.

Definition in_dtor (a : apc) : bool :=
  match a with DSem | DLock | DQueue | DFree | DGone => true | _ => false end.

(** Which members still exist. *)
Definition sem_alive (a : apc) : bool := match a with DLock | DQueue | DFree | DGone => false | _ => true end.
Definition lock_alive (a : apc) : bool := match a with DQueue | DFree | DGone => false | _ => true end.
Definition queue_alive (a : apc) : bool := match a with DFree | DGone => false | _ => true end.
Definition pool_alive (a : apc) : bool := match a with DGone => false | _ => true end.

(** The statement [run] is at uses a member that no longer exists. *)
Definition run_undefined (w : wpc) (a : apc) : bool :=
  match w with
  | WLoop => negb (pool_alive a)
  | WWait => negb (sem_alive a)
  | WLock | WUnlockEmpty | WUnlock _ => negb (lock_alive a)
  | WTest => negb (queue_alive a)
  | WRun _ | WExit => false
  end.

(** [sem_destroy] with a thread blocked in [sem_wait] and [pthread_mutex_destroy] on a locked
    mutex are undefined. *)
Definition dtor_undefined (s : pool) : bool :=
  match app_pc s with
  | DSem => bool_decide (m_queuestat s = 0) && bool_decide (WWait ∈ workers s)
  | DLock => bool_decide (is_Some (m_queuelocker s))
  | _ => false
  end.

Definition undefined (a : action) (s : pool) : bool :=
  match a with
  | Work i => match workers s !! i with Some w => run_undefined w (app_pc s) | None => false end
  | Main => dtor_undefined s
  | Append _ | Destroy => false
  end.

(** The step of a thread: [None] when it is blocked, finished, or about to do something
    undefined. *)
Definition exec (a : action) (s : pool) : option pool :=
  if undefined a s then None
  else match a with
       | Append r => match app_pc s with AIdle => Some (upd_app (ALock r) s) | _ => None end
       | Main => if in_dtor (app_pc s) then dtor_step s else append_step s
       | Work i => run_step i s
       | Destroy => dtor_body s
       end.

Inductive reachable (init : pool) : pool -> Prop :=
  | reach_init : reachable init init
  | reach_step s a s' : reachable init s -> exec a s = Some s' -> reachable init s'.

(** ** Invariants *)

Definition app_critical (a : apc) : bool :=
  match a with ATest _ | AUnlockFull | AUnlock => true | _ => false end.

Definition worker_critical (w : wpc) : bool :=
  match w with WTest | WUnlockEmpty | WUnlock _ => true | _ => false end.

(** A worker that has taken a unit of the semaphore and not yet a request. *)
Definition worker_token (w : wpc) : Z := match w with WLock | WTest => 1 | _ => 0 end.

(** A request pushed whose [post] is still to come. *)
Definition app_token (a : apc) : Z := match a with AUnlock | APost => 1 | _ => 0 end.

(** The request a worker has taken and not yet run. *)
Definition worker_request (w : wpc) : list Z := match w with WUnlock r | WRun r => [r] | _ => [] end.

Definition tokens (ws : list wpc) : Z := foldr (fun w n => worker_token w + n) 0 ws.
Definition in_flight (ws : list wpc) : list Z := flat_map worker_request ws.

Record pool_inv (s : pool) : Prop := mkInv {
  inv_lock_app : app_critical (app_pc s) = true <-> m_queuelocker s = Some OMain;
  inv_lock_worker : forall i, (exists w, workers s !! i = Some w /\ worker_critical w = true)
                              <-> m_queuelocker s = Some (OWorker i);
  inv_tokens : m_queuestat s + tokens (workers s) + app_token (app_pc s) = zlen (m_workqueue s);
  inv_sem : 0 <= m_queuestat s;
  inv_no_empty : WUnlockEmpty ∉ workers s;
  inv_fifo : accepted s = popped s ++ m_workqueue s;
  inv_requests : popped s ≡ₚ dropped s ++ processed s ++ in_flight (workers s);
  inv_bound : zlen (m_workqueue s) <= m_max_requests s + 1;
  inv_stop : m_stop s = in_dtor (app_pc s);
}.

(** Replacing one worker changes the sums by the difference. *)
Lemma tokens_insert ws i w w' : ws !! i = Some w ->
  tokens (<[i := w']> ws) = tokens ws - worker_token w + worker_token w'.
Proof.
  revert i. induction ws as [|x ws IH]; intros [|i] H; simplify_eq/=; [lia|].
  rewrite (IH i) by done. lia.
Qed.

Lemma tokens_nonneg ws : 0 <= tokens ws.
Proof. induction ws as [|w ws IH]; simpl; [done|]. destruct w; simpl; lia. Qed.

Lemma tokens_lookup ws i w : ws !! i = Some w -> worker_token w <= tokens ws.
Proof.
  revert i. induction ws as [|x ws IH]; intros [|i] H; simplify_eq/=.
  - pose proof (tokens_nonneg ws). lia.
  - specialize (IH i H). destruct x; simpl; lia.
Qed.

Lemma in_flight_insert ws i w w' : ws !! i = Some w ->
  worker_request w ++ in_flight (<[i := w']> ws) ≡ₚ worker_request w' ++ in_flight ws.
Proof.
  revert i. induction ws as [|x ws IH]; intros [|i] H; simplify_eq/=.
  - apply Permutation_app_swap_app.
  - rewrite Permutation_app_swap_app, (IH i H). apply Permutation_app_swap_app.
Qed.

(** Lock ownership after worker [i] moves from [w] to [w']. *)
Lemma owner_insert (ws : list wpc) (i : nat) w w' (j : nat) : ws !! i = Some w ->
  (exists x, <[i := w']> ws !! j = Some x /\ worker_critical x = true)
  <-> (if decide (i = j) then worker_critical w' = true
       else exists x, ws !! j = Some x /\ worker_critical x = true).
Proof.
  intros H. pose proof (lookup_lt_Some _ _ _ H). destruct (decide (i = j)) as [<-|].
  - rewrite list_lookup_insert_eq by done. naive_solver.
  - by rewrite list_lookup_insert_ne.
Qed.

(** Lock invariant for the workers when one of them moves and the lock changes hands with it. *)
Lemma lock_worker_step (ws : list wpc) (i : nat) w w' o o' :
  ws !! i = Some w ->
  (forall j : nat, (exists x, ws !! j = Some x /\ worker_critical x = true) <-> o = Some (OWorker j)) ->
  (if worker_critical w' then o' = Some (OWorker i) /\ (o = None \/ o = Some (OWorker i))
   else o' = (if worker_critical w then None else o)) ->
  forall j : nat, (exists x, <[i := w']> ws !! j = Some x /\ worker_critical x = true) <-> o' = Some (OWorker j).
Proof.
  intros Hi Hinv Ho j. rewrite (owner_insert ws i w w' j Hi). pose proof (Hinv i) as Hii.
  destruct (decide (i = j)) as [<-|Hne].
  - destruct (worker_critical w') eqn:E; [naive_solver|]. split; [done|]. intros ->.
    destruct (worker_critical w) eqn:Ew; [done|].
    destruct Hii as [_ Hii]. destruct (Hii (eq_sym Ho)) as (x & Hx & Hc). simplify_eq. congruence.
  - rewrite Hinv. destruct (worker_critical w') eqn:E.
    + destruct Ho as [-> [->| ->]]; split; congruence.
    + destruct (worker_critical w) eqn:Ew; subst o'; [|done].
      assert (o = Some (OWorker i)) as -> by (apply Hii; eauto). split; congruence.
Qed.

Lemma not_empty_insert (ws : list wpc) i w : WUnlockEmpty ∉ ws -> w <> WUnlockEmpty -> WUnlockEmpty ∉ <[i := w]> ws.
Proof.
  intros H Hw [j Hj]%list_elem_of_lookup. apply list_lookup_insert_Some in Hj as [(_ & ? & _)|[_ Hj]]; [done|].
  apply H. by eapply list_elem_of_lookup_2.
Qed.

Lemma pool_inv_append s s' : pool_inv s -> append_step s = Some s' -> pool_inv s'.
Proof.
  intros [Ha Hw Ht Hs He Hf Hr Hb Hst]. unfold append_step.
  destruct (app_pc s) as [|r|r| | | | | | | |] eqn:Epc; intros E; simpl in Ha, Ht, Hst; try done.
  - destruct (m_queuelocker s) eqn:El; [done|]. simplify_eq.
    split; simpl; try done. intros i. rewrite Hw. split; congruence.
  - rewrite Z.gtb_ltb in E. destruct (Z.ltb_spec (m_max_requests s) (zlen (m_workqueue s))); simplify_eq;
      split; simpl; try done.
    + rewrite zlen_app, zlen_cons, zlen_nil. lia.
    + by rewrite Hf, <- app_assoc.
    + rewrite zlen_app, zlen_cons, zlen_nil. lia.
  - simplify_eq. split; simpl; try done. intros i. rewrite Hw.
    assert (m_queuelocker s = Some OMain) as -> by (by apply Ha). split; congruence.
  - simplify_eq. split; simpl; try done. intros i. rewrite Hw.
    assert (m_queuelocker s = Some OMain) as -> by (by apply Ha). split; congruence.
  - simplify_eq. split; simpl; try done; lia.
Qed.

Lemma pool_inv_run i s s' : pool_inv s -> run_step i s = Some s' -> pool_inv s'.
Proof.
  intros [Ha Hw Ht Hs He Hf Hr Hb Hsd]. unfold run_step. destruct (workers s !! i) as [w|] eqn:Ei; [|done].
  pose proof (tokens_insert (workers s) i w) as Hins. pose proof (tokens_lookup _ _ _ Ei) as Htk.
  pose proof (in_flight_insert (workers s) i w) as Hfl. pose proof (Hw i) as Hii.
  assert (Hlk : forall w' o', (if worker_critical w' then o' = Some (OWorker i) /\
      (m_queuelocker s = None \/ m_queuelocker s = Some (OWorker i))
      else o' = (if worker_critical w then None else m_queuelocker s)) ->
    forall j : nat, (exists x, <[i := w']> (workers s) !! j = Some x /\ worker_critical x = true)
      <-> o' = Some (OWorker j)) by (intros; by eapply lock_worker_step).
  assert (Hown : worker_critical w = true -> m_queuelocker s = Some (OWorker i)) by (intros; apply Hii; eauto).
  destruct w as [| | | | |r|r|]; simpl in *; intros E; try done.
  - simplify_eq. assert (Hst : forall b : bool, worker_critical (if b then WExit else WWait) = false /\
      worker_token (if b then WExit else WWait) = 0 /\ worker_request (if b then WExit else WWait) = [] /\
      (if b then WExit else WWait) <> WUnlockEmpty) by (by intros []).
    destruct (Hst (m_stop s)) as (H1 & H2 & H3 & H4).
    split; simpl; try done; [apply Hlk; by rewrite H1| |by apply not_empty_insert|].
    + rewrite Hins by done. rewrite H2. lia.
    + specialize (Hfl (if m_stop s then WExit else WWait) Ei). rewrite H3 in Hfl. simpl in Hfl. by rewrite Hfl.
  - destruct (Z.ltb_spec 0 (m_queuestat s)); [|done]. simplify_eq.
    split; simpl; try done; [by apply Hlk| |lia|by apply not_empty_insert|].
    + rewrite Hins by done. simpl. lia.
    + specialize (Hfl WLock Ei). simpl in Hfl. by rewrite Hfl.
  - destruct (m_queuelocker s) eqn:El; [done|]. simplify_eq.
    split; simpl; try done; [naive_solver|apply Hlk; simpl; naive_solver| |by apply not_empty_insert|].
    + rewrite Hins by done. simpl. lia.
    + specialize (Hfl WTest Ei). simpl in Hfl. by rewrite Hfl.
  - destruct (m_workqueue s) as [|r q] eqn:Eq.
    + exfalso. rewrite zlen_nil in Ht. assert (0 <= app_token (app_pc s)) by (by destruct (app_pc s)). lia.
    + simplify_eq. rewrite zlen_cons in *. specialize (Hown eq_refl).
      split; simpl; try done; [apply Hlk; simpl; auto| |by apply not_empty_insert| | |lia].
      * rewrite Hins by done. simpl. lia.
      * by rewrite Hf, <- app_assoc.
      * specialize (Hfl (WUnlock r) Ei). simpl in Hfl. rewrite Hfl, Hr. solve_Permutation.
  - exfalso. apply He. by eapply list_elem_of_lookup_2.
  - specialize (Hown eq_refl). destruct (Z.eqb_spec r 0) as [->|]; simplify_eq.
    + split; simpl; try done; [naive_solver|by apply Hlk| |by apply not_empty_insert|].
      * rewrite Hins by done. simpl. lia.
      * specialize (Hfl WLoop Ei). simpl in Hfl. rewrite Hr, <- Hfl. solve_Permutation.
    + split; simpl; try done; [naive_solver|by apply Hlk| |by apply not_empty_insert|].
      * rewrite Hins by done. simpl. lia.
      * specialize (Hfl (WRun r) Ei). simpl in Hfl. apply Permutation_cons_inv in Hfl. by rewrite Hfl.
  - simplify_eq. split; simpl; try done; [by apply Hlk| |by apply not_empty_insert|].
    + rewrite Hins by done. simpl. lia.
    + specialize (Hfl WLoop Ei). simpl in Hfl. rewrite Hr, <- Hfl. solve_Permutation.
Qed.

Lemma pool_inv_dtor s s' : pool_inv s -> dtor_step s = Some s' -> pool_inv s'.
Proof.
  intros [Ha Hw Ht Hs He Hf Hr Hb Hst]. unfold dtor_step.
  destruct (app_pc s); intros E; simplify_eq; by split.
Qed.

Lemma exec_defined a s s' : exec a s = Some s' -> undefined a s = false.
Proof. unfold exec. by destruct (undefined a s). Qed.

(** What a step is. *)
Lemma exec_cases a s s' : exec a s = Some s' ->
  (exists r, a = Append r /\ app_pc s = AIdle /\ s' = upd_app (ALock r) s) \/
  (a = Main /\ append_step s = Some s') \/ (a = Main /\ dtor_step s = Some s') \/
  (a = Destroy /\ app_pc s = AIdle /\ s' = upd_app DSem (upd_stop true s)) \/
  (exists i, a = Work i /\ run_step i s = Some s').
Proof.
  unfold exec, dtor_body. destruct (undefined a s); [done|]. destruct a as [r| |i|]; simpl.
  - destruct (app_pc s); intros E; simplify_eq. eauto 10.
  - destruct (in_dtor (app_pc s)); auto.
  - eauto 10.
  - destruct (app_pc s); intros E; simplify_eq. eauto 10.
Qed.

Lemma pool_inv_step a s s' : pool_inv s -> exec a s = Some s' -> pool_inv s'.
Proof.
  intros Hinv [(r & _ & Hi & ->)|[[_ E]|[[_ E]|[(_ & Hi & ->)|(i & _ & E)]]]]%exec_cases.
  - destruct Hinv as [Ha Hw Ht Hs He Hf Hr Hb Hst]. rewrite Hi in *. by split.
  - by eapply pool_inv_append.
  - by eapply pool_inv_dtor.
  - destruct Hinv as [Ha Hw Ht Hs He Hf Hr Hb Hst]. rewrite Hi in *. by split.
  - by eapply pool_inv_run.
Qed.

Lemma pool_inv_init n m created s : threadpool n m created = Some s -> pool_inv s.
Proof.
  unfold threadpool. destruct (Z.leb_spec n 0), (Z.leb_spec m 0); simpl; try done.
  destruct (forallb id _ && _)%bool; [|done]. intros [= <-].
  assert (Ht : tokens (replicate (Z.to_nat n) WLoop) = 0) by (induction (Z.to_nat n); simpl; lia).
  assert (Hf : in_flight (replicate (Z.to_nat n) WLoop) = [])
    by (clear Ht; induction (Z.to_nat n) as [|k IH]; [reflexivity|exact IH]).
  split; simpl; try done; try lia.
  - intros i. split; [|done]. intros (w & [-> _]%lookup_replicate & ?). done.
  - by rewrite Ht.
  - intros [? _]%elem_of_replicate. done.
  - by rewrite Hf.
  - rewrite zlen_nil. lia.
Qed.

Lemma pool_inv_reachable init s : pool_inv init -> reachable init s -> pool_inv s.
Proof. intros Hi. induction 1 as [|s a s' _ IH E]; [done|]. by eapply pool_inv_step. Qed.

(** Runs of a schedule. *)
Fixpoint run (sched : list action) (s : pool) : option pool :=
  match sched with
  | [] => Some s
  | a :: sched => s ← exec a s; run sched s
  end.

Lemma run_app l k s : run (l ++ k) s = (s' ← run l s; run k s').
Proof. revert s. induction l as [|a l IH]; intros s; [done|]. simpl. destruct (exec a s); [apply IH|done]. Qed.

Lemma run_reachable init sched : forall s s', reachable init s -> run sched s = Some s' -> reachable init s'.
Proof.
  induction sched as [|a sched IH]; intros s s' Hr E; simpl in E; [by simplify_eq|].
  apply bind_Some_inv in E as (s1 & E1 & E). eapply IH; [|done]. by eapply reach_step.
Qed.

(** While the destructor has not run, nothing a thread does is undefined. *)
Lemma alive_defined a s : in_dtor (app_pc s) = false -> undefined a s = false.
Proof.
  intros H. destruct a as [r| |i|]; simpl; try done.
  - unfold dtor_undefined. by destruct (app_pc s).
  - destruct (workers s !! i) as [w|]; [|done]. by destruct w, (app_pc s).
Qed.

(** Once the object is gone, a worker that has not left [run] is at most one statement,
    [request->process()], away from using it. *)
Lemma gone_undefined i w s : app_pc s = DGone -> workers s !! i = Some w -> w <> WExit ->
  undefined (Work i) s = true \/
  exists r s', w = WRun r /\ exec (Work i) s = Some s' /\ undefined (Work i) s' = true.
Proof.
  intros Hg Hi Hne. unfold exec. cbn. rewrite Hi, Hg. destruct w as [| | | | | |r|]; try (by left).
  right. exists r. eexists. split; [done|]. cbn. unfold run_step. rewrite Hi. split; [done|]. cbn.
  by rewrite Hg, list_lookup_insert_eq by by eapply lookup_lt_Some.
Qed.

(** The destructor, run in a state where the two [destroy] calls are themselves defined. *)
Lemma dtor_run s : app_pc s = AIdle -> m_queuelocker s = None ->
  m_queuestat s <> 0 \/ WWait ∉ workers s ->
  run [Destroy; Main; Main; Main; Main] s = Some (upd_app DGone (upd_stop true s)).
Proof.
  intros Ha Hl Hw. destruct s as [mx q lk sm st ap ws ac po pr dr]; simpl in *. subst ap lk.
  cbn. unfold exec; cbn. unfold dtor_undefined; cbn.
  assert ((bool_decide (sm = 0) && bool_decide (WWait ∈ ws))%bool = false) as ->.
  { destruct Hw; [by rewrite bool_decide_eq_false_2 by done|].
    by rewrite (bool_decide_eq_false_2 (WWait ∈ ws)), andb_false_r by done. }
  reflexivity.
Qed.

(** C12. In every state reachable by any interleaving:
    - at most one thread is inside a critical section; as long as the queue exists, requests
      leave it in the order they were accepted, every accepted request is exactly one of
      queued, being handled, processed or (when NULL) dropped, and a worker that got past the
      semaphore never finds the queue empty;
    - no thread does anything undefined before the destructor is called;
    - the destructor waits for no worker: called when nobody holds the lock or sleeps in the
      semaphore it runs to its end and leaves every worker where it was, and called with a
      worker asleep in the semaphore its [sem_destroy] is undefined;
    - once the object is gone, the next statement of every worker that has not left [run] uses
      it, at once or right after the request it is processing: a use after free. *)
Theorem pool_safe n m created init s :
  threadpool n m created = Some init -> reachable init s ->
  (forall i j wi wj, workers s !! i = Some wi -> workers s !! j = Some wj ->
     worker_critical wi = true -> worker_critical wj = true -> i = j /\ app_critical (app_pc s) = false) /\
  (queue_alive (app_pc s) = true ->
     accepted s = popped s ++ m_workqueue s /\
     accepted s ≡ₚ dropped s ++ processed s ++ in_flight (workers s) ++ m_workqueue s /\
     (forall i, workers s !! i = Some WTest -> m_workqueue s <> [])) /\
  (m_stop s = false -> forall a, undefined a s = false) /\
  (app_pc s = AIdle -> exists s1, exec Destroy s = Some s1 /\ workers s1 = workers s /\
     (m_queuestat s = 0 -> WWait ∈ workers s -> undefined Main s1 = true) /\
     (m_queuelocker s = None -> m_queuestat s <> 0 \/ WWait ∉ workers s ->
        exists s2, run [Main; Main; Main; Main] s1 = Some s2 /\ workers s2 = workers s /\ app_pc s2 = DGone)) /\
  (app_pc s = DGone -> forall i w, workers s !! i = Some w -> w <> WExit ->
     undefined (Work i) s = true \/
     exists r s', w = WRun r /\ exec (Work i) s = Some s' /\ undefined (Work i) s' = true).
Proof.
  intros Hi Hr. pose proof (pool_inv_reachable _ _ (pool_inv_init _ _ _ _ Hi) Hr) as Hinv.
  destruct Hinv as [Ha Hw Ht Hs He Hf Hp Hb Hst]. split_and!.
  - intros i j wi wj H1 H2 Hc1 Hc2.
    assert (E1 : m_queuelocker s = Some (OWorker i)) by (apply Hw; eauto).
    assert (E2 : m_queuelocker s = Some (OWorker j)) by (apply Hw; eauto).
    split; [congruence|]. destruct (app_critical (app_pc s)); [|done].
    assert (m_queuelocker s = Some OMain) by (by apply Ha). congruence.
  - intros _. split; [done|split].
    + rewrite Hf, Hp. by rewrite <- !app_assoc.
    + intros i Hx Hq. apply tokens_lookup in Hx. simpl in Hx. rewrite Hq, zlen_nil in Ht.
      assert (0 <= app_token (app_pc s)) by (by destruct (app_pc s)). lia.
  - intros H a. apply alive_defined. congruence.
  - intros Hidle. assert (Hd : exec Destroy s = Some (upd_app DSem (upd_stop true s))).
    { unfold exec, dtor_body. by rewrite Hidle. }
    exists (upd_app DSem (upd_stop true s)). split_and!; [done|done| |].
    + intros H0 Hin. cbn. unfold dtor_undefined. cbn. by rewrite !bool_decide_eq_true_2.
    + intros Hl Hz. exists (upd_app DGone (upd_stop true s)). split_and!; [|done..].
      pose proof (dtor_run s Hidle Hl Hz) as E. cbn [run] in E. rewrite Hd in E. exact E.
  - intros Hg i w. by apply gone_undefined.
Qed.

Definition demo_pool : pool := mkPool 2 [] None 0 false AIdle [WLoop; WLoop] [] [] [] [].

Definition demo_schedule : list action :=
  [Work 0; Append 11; Main; Main; Main; Main; Append 12; Main; Work 1; Main; Main; Main;
   Work 0; Work 1; Work 0; Work 0; Work 0; Work 0].

(** The destructor runs while worker 1 holds request 11 and worker 0 loops. *)
Definition destroy_schedule : list action :=
  [Append 11; Main; Main; Main; Main; Append 12; Main; Main; Main; Main; Work 1; Work 1; Work 1; Work 1; Work 1;
   Destroy; Main; Main; Main; Main].

Lemma pool_safe_witness : exists s d, run demo_schedule demo_pool = Some s /\ reachable demo_pool s /\
  accepted s = [11; 12] /\ processed s = [11] /\
  accepted s ≡ₚ dropped s ++ processed s ++ in_flight (workers s) ++ m_workqueue s /\
  run destroy_schedule demo_pool = Some d /\ workers d = [WLoop; WRun 11] /\
  undefined (Work 0) d = true /\
  (exists r d', WRun 11 = WRun r /\ exec (Work 1) d = Some d' /\ undefined (Work 1) d' = true).
Proof.
  destruct (run demo_schedule demo_pool) as [s|] eqn:E; [|vm_compute in E; discriminate].
  assert (Hr : reachable demo_pool s) by (eapply run_reachable; [apply reach_init|exact E]).
  destruct (run destroy_schedule demo_pool) as [d|] eqn:D; [|vm_compute in D; discriminate].
  assert (Hd : reachable demo_pool d) by (eapply run_reachable; [apply reach_init|exact D]).
  destruct (pool_safe 2 2 [true; true] demo_pool s eq_refl Hr) as (_ & Hq & _).
  destruct (pool_safe 2 2 [true; true] demo_pool d eq_refl Hd) as (_ & _ & _ & _ & Hg).
  exists s, d. vm_compute in E, D. injection E as <-. injection D as <-.
  destruct (Hq eq_refl) as (_ & Hp & _). specialize (Hg eq_refl).
  destruct (Hg 0%nat WLoop eq_refl ltac:(done)) as [Hu|(? & ? & ? & _)]; [|done].
  destruct (Hg 1%nat (WRun 11) eq_refl ltac:(done)) as [Hv|Hv]; [done|].
  split_and!; done.
Defined.

(** One full [append] by the main thread with the lock free and room in the queue. *)
Lemma append_run r s : app_pc s = AIdle -> m_queuelocker s = None ->
  zlen (m_workqueue s) <= m_max_requests s ->
  run [Append r; Main; Main; Main; Main] s = Some (upd_sem (m_queuestat s + 1) (push r s)).
Proof.
  intros Ha Hl Hq. destruct s as [mx q lk sm st ap ws ac po pr dr]; simpl in *. subst ap lk.
  unfold exec; simpl. unfold append_step; simpl. rewrite Z.gtb_ltb. zdec. reflexivity.
Qed.

(** The queue never holds more than [m_max_requests + 1] requests, and that bound is
    reached: the test [size() > m_max_requests] lets one request more than the maximum wait. *)
Theorem pool_queue_bound n m created init :
  threadpool n m created = Some init ->
  (forall s, reachable init s -> zlen (m_workqueue s) <= m + 1) /\
  (exists s, reachable init s /\ zlen (m_workqueue s) = m + 1).
Proof.
  intros Hi.
  assert (Hmax : forall s, reachable init s -> m_max_requests s = m).
  { assert (m_max_requests init = m).
    { unfold threadpool in Hi. repeat case_match; simplify_eq; done. }
    induction 1 as [|s a s' _ IH E]; [done|]. rewrite <- IH.
    apply exec_cases in E as [(r & _ & _ & ->)|[[_ E]|[[_ E]|[(_ & _ & ->)|(i & _ & E)]]]];
      unfold append_step, dtor_step, run_step in *; repeat case_match; by simplify_eq. }
  split.
  - intros s Hr. pose proof (inv_bound _ (pool_inv_reachable _ _ (pool_inv_init _ _ _ _ Hi) Hr)).
    rewrite (Hmax s Hr) in *. lia.
  - assert (Hgrow : forall k : nat, Z.of_nat k <= m + 1 -> exists s, reachable init s /\
      zlen (m_workqueue s) = Z.of_nat k /\ app_pc s = AIdle /\ m_queuelocker s = None).
    { induction k as [|k IH]; intros Hk.
      - exists init. split; [apply reach_init|].
        unfold threadpool in Hi. repeat case_match; simplify_eq; done.
      - destruct IH as (s & Hr & Hz & Ha & Hl); [lia|].
        exists (upd_sem (m_queuestat s + 1) (push 1 s)). split; [|simpl; rewrite zlen_app, Hz, zlen_cons, zlen_nil; split; [lia|done]].
        eapply (run_reachable init _ s); [done|]. apply (append_run 1); [done..|]. rewrite (Hmax s Hr). lia. }
    assert (0 < m).
    { unfold threadpool in Hi. destruct (Z.leb_spec n 0), (Z.leb_spec m 0); simpl in Hi; done || lia. }
    destruct (Hgrow (Z.to_nat (m + 1))) as (s & Hr & Hz & _); [lia|]. exists s. split; [done|lia].
Qed.

Lemma pool_queue_bound_witness :
  (forall s, reachable demo_pool s -> zlen (m_workqueue s) <= 3) /\
  (exists s, reachable demo_pool s /\ zlen (m_workqueue s) = 3).
Proof. apply (pool_queue_bound 2 2 [true; true] demo_pool). reflexivity. Defined.

(** ** Progress *)

Lemma tokens_pos ws : 0 < tokens ws -> exists i : nat, ws !! i = Some WLock \/ ws !! i = Some WTest.
Proof.
  induction ws as [|w ws IH]; simpl; [lia|]. intros H.
  destruct w; simpl in H; try (destruct IH as [i Hi]; [lia|]; by exists (S i)); exists 0%nat; auto.
Qed.

Lemma exec_work_alive i s : in_dtor (app_pc s) = false -> exec (Work i) s = run_step i s.
Proof. intros H. unfold exec. by rewrite (alive_defined (Work i) s H). Qed.

Lemma exec_main_alive s : in_dtor (app_pc s) = false -> exec Main s = append_step s.
Proof. intros H. unfold exec. by rewrite (alive_defined Main s H), H. Qed.

(** A worker inside its critical section can always go on. *)
Lemma critical_enabled i w s : in_dtor (app_pc s) = false -> workers s !! i = Some w ->
  worker_critical w = true -> is_Some (exec (Work i) s).
Proof.
  intros Hd Hi Hc. rewrite exec_work_alive by done. unfold run_step. rewrite Hi. destruct w; try done; repeat case_match; by eexists.
Qed.

(** Workers leave [run] only after the destructor has run, and their number is fixed. *)
Lemma exited_stopped init s : reachable init s ->
  (WExit ∈ workers init -> m_stop init = true) ->
  (WExit ∈ workers s -> m_stop s = true) /\ length (workers s) = length (workers init).
Proof.
  intros Hr Hi. induction Hr as [|s a s' _ IH E]; [done|]. destruct IH as [IH IHl].
  assert (Hins : forall i w, WExit ∈ <[i := w]> (workers s) -> w <> WExit -> m_stop s = true).
  { intros i w [j Hj]%list_elem_of_lookup Hne. apply IH. apply list_elem_of_lookup.
    apply list_lookup_insert_Some in Hj as [(_ & ? & _)|[_ Hj]]; [done|eauto]. }
  apply exec_cases in E as [(r & _ & _ & ->)|[[_ E]|[[_ E]|[(_ & _ & ->)|(i & _ & E)]]]];
    unfold append_step, dtor_step, run_step in *; repeat case_match; simplify_eq; simpl; rewrite ?length_insert; split; try done; intros Hx; eauto.
Qed.

(** C37. No deadlock: while the pool is not being destroyed, whenever a request waits in the queue
    some thread of the pool can take a step, in every reachable state. *)
Theorem pool_progress n m created init s :
  threadpool n m created = Some init -> reachable init s -> m_stop s = false -> m_workqueue s <> [] ->
  exists a, (a = Main \/ exists i, a = Work i) /\ is_Some (exec a s).
Proof.
  intros Hi Hr Hst Hq. pose proof (pool_inv_reachable _ _ (pool_inv_init _ _ _ _ Hi) Hr) as [Ha Hw Ht Hs He _ _ _ Hsd].
  rewrite Hst in Hsd. symmetry in Hsd. pose proof (exec_main_alive s Hsd) as Hmain.
  assert (Hinit : (WExit ∉ workers init) /\ (0 < length (workers init))%nat).
  { unfold threadpool in Hi. destruct (Z.leb_spec n 0); [done|]. simpl in Hi. repeat case_match; simplify_eq.
    simpl. rewrite length_replicate. split; [|lia]. intros [? _]%elem_of_replicate. done. }
  destruct (exited_stopped init s Hr) as [Hex Hlen]; [tauto|].
  destruct (m_queuelocker s) as [[|i]|] eqn:El.
  - exists Main. split; [by left|]. rewrite Hmain. unfold append_step.
    assert (Hc : app_critical (app_pc s) = true) by (by apply Ha).
    destruct (app_pc s); try done; repeat case_match; by eexists.
  - exists (Work i). split; [by right; eexists|]. destruct (proj2 (Hw i) eq_refl) as (w & Hi' & Hc).
    by eapply critical_enabled.
  - assert (Happ : app_pc s = AIdle \/ is_Some (exec Main s)).
    { rewrite Hmain. unfold append_step. rewrite El. destruct (app_pc s); repeat case_match; naive_solver eauto. }
    destruct Happ as [Hidle|]; [|by exists Main; eauto]. rewrite Hidle in Ht. simpl in Ht.
    assert (0 < zlen (m_workqueue s)).
    { destruct (m_workqueue s); [done|]. rewrite zlen_cons. pose proof (zlen_nonneg l). lia. }
    destruct (Z.ltb_spec 0 (tokens (workers s))) as [Htok|Htok].
    + destruct (tokens_pos _ Htok) as [i Htok']. exists (Work i). split; [by right; eexists|].
      rewrite exec_work_alive by done. unfold run_step. destruct Htok' as [->| ->]; rewrite ?El; repeat case_match; by eexists.
    + destruct (lookup_lt_is_Some_2 (workers s) 0) as [w Hw0]; [lia|]. exists (Work 0).
      split; [by right; eexists|]. rewrite exec_work_alive by done. unfold run_step. rewrite Hw0, El.
      destruct w; try (repeat case_match; zb; first [by eexists|exfalso; lia]).
      assert (m_stop s = true) by (apply Hex; by eapply list_elem_of_lookup_2). congruence.
Qed.

Lemma pool_progress_witness : exists s a, run (take 12 demo_schedule) demo_pool = Some s /\
  (a = Main \/ exists i, a = Work i) /\ is_Some (exec a s).
Proof.
  destruct (run (take 12 demo_schedule) demo_pool) as [s|] eqn:E; [|vm_compute in E; discriminate].
  destruct (pool_progress 2 2 [true; true] demo_pool s) as (a & H1 & H2).
  - reflexivity.
  - eapply run_reachable; [apply reach_init|exact E].
  - vm_compute in E. injection E as <-. reflexivity.
  - vm_compute in E. injection E as <-. discriminate.
  - exists s, a. done.
Defined.
