(* ===== verification/Server.v ===== *)
(** The server of [webserver/main.cpp]: the event loop that composes the connections
    (HttpConn.v) with the thread pool (ThreadPool.v).

    The kernel is the set of open descriptors and the epoll registrations, updated by the system
    calls the connections emit; a one-shot registration is disarmed when an event for it is
    delivered.  [handle_event] is the body of the loop over the events, executable; [step] adds the
    workers, which take a connection from the queue and run [process] on it, and [reachable] closes
    over all schedules.  The pool appears here through the contract ThreadPool.v proves: append
    pushes or refuses, a worker takes the front, each accepted request is run once.

    [None] is undefined behaviour: an index outside the array of [MAX_FD] connections or a
    connection that was never initialised. *)

From stdpp Require Import gmap.
From S2P Require Import Prelude Util HttpConn.
#[local] Open Scope Z_scope.

Definition MAX_FD : Z := 65535.

(** * State *)

(** A registration: [EPOLLONESHOT] set, and armed. *)
Record registration := Reg { one_shot : bool; armed : bool }.

Record kernel := Kernel { open_fds : gset Z; regs : gmap Z registration }.

Definition sys_call (k : kernel) (e : sys_event) : kernel :=
  match e with
  | EpollAdd fd os => Kernel (open_fds k) (<[fd := Reg os true]> (regs k))
  | EpollDel fd => Kernel (open_fds k) (delete fd (regs k))
  | EpollMod fd _ =>
      match regs k !! fd with
      | Some _ => Kernel (open_fds k) (<[fd := Reg true true]> (regs k))
      | None => k
      end
  | SetNonblocking _ | SetReuseAddr _ => k
  | Close fd => Kernel (open_fds k ∖ {[fd]}) (delete fd (regs k))
  end.

Definition sys_calls (k : kernel) (es : list sys_event) : kernel := fold_left sys_call es k.

Record server := Server {
  users : gmap Z http_conn;      (* the connections of the array that were initialised *)
  m_user_count : Z;
  kern : kernel;
  queue : list Z;                (* m_workqueue of the pool: the descriptors *)
  running : list Z               (* connections whose process() is being run by a worker *)
}.

(** One element of the array filled by [epoll_wait]; [ev_hup] stands for
    [EPOLLRDHUP | EPOLLHUP | EPOLLERR]. *)
Record event := Event { ev_fd : Z; ev_hup : bool; ev_in : bool; ev_out : bool }.

Section Server.
(** The listening socket, the contents of a default-constructed connection, the pool's bound. *)
Context (listenfd : Z) (garbage : http_conn) (max_requests : Z).

(** * The event loop *)

(** [users[fd].close_conn()] *)
Definition close_user (s : server) (fd : Z) : option server :=
  c ← users s !! fd;
  let '(c, n, es) := close_conn (m_user_count s) c in
  Some (Server (<[fd := c]> (users s)) n (sys_calls (kern s) es) (queue s) (running s)).

(** [pool->append(users + fd)]; its result is ignored. *)
Definition append_user (s : server) (fd : Z) : server :=
  if zlen (queue s) >? max_requests then s
  else Server (users s) (m_user_count s) (kern s) (queue s ++ [fd]) (running s).

(** A client connects; [connfd] is the result of [accept]. *)
Definition accept_client (s : server) (connfd : Z) : option server :=
  let k := if 0 <=? connfd then Kernel (open_fds (kern s) ∪ {[connfd]}) (regs (kern s)) else kern s in
  if m_user_count s >=? MAX_FD then
    Some (Server (users s) (m_user_count s) (sys_call k (Close connfd)) (queue s) (running s))
  else if (0 <=? connfd) && (connfd <? MAX_FD) then
    let '(c, n, es) := init connfd (m_user_count s) (default garbage (users s !! connfd)) in
    Some (Server (<[connfd := c]> (users s)) n (sys_calls k es) (queue s) (running s))
  else None.

(** The body of [for (int i = 0; i < num; i++)]; [connfd] and [rs] are what [accept] and [recv]
    return. *)
Definition handle_event (s : server) (e : event) (connfd : Z) (rs : list recv_result) : option server :=
  let sockfd := ev_fd e in
  if sockfd =? listenfd then accept_client s connfd
  else if ev_hup e then close_user s sockfd
  else if ev_in e then
    c ← users s !! sockfd;
    '(c, ok) ← read rs c;
    let s := Server (<[sockfd := c]> (users s)) (m_user_count s) (kern s) (queue s) (running s) in
    if ok : bool then Some (append_user s sockfd) else close_user s sockfd
  else if ev_out e then
    c ← users s !! sockfd;
    if negb (write c) then close_user s sockfd else Some s
  else Some s.

(** Delivery by [epoll_wait]: a one-shot registration is disarmed. *)
Definition deliver (s : server) (fd : Z) : option server :=
  r ← regs (kern s) !! fd;
  if armed r then
    Some (Server (users s) (m_user_count s)
      (Kernel (open_fds (kern s)) (<[fd := Reg (one_shot r) (negb (one_shot r))]> (regs (kern s))))
      (queue s) (running s))
  else None.

(** The state when the loop is entered: [addfd(epollfd, listenfd, false)] was called. *)
Definition start : server :=
  Server ∅ 0 (sys_calls (Kernel {[listenfd]} ∅) (addfd listenfd false)) [] [].

(** * The workers *)

Definition take_request (s : server) : option (Z * server) :=
  match queue s with
  | [] => None
  | fd :: q => Some (fd, Server (users s) (m_user_count s) (kern s) q (fd :: running s))
  end.

(** The worker that has [fd] finishes [process]; [running'] is [running] without [fd]. *)
Definition finish (fuel : nat) (s : server) (fd : Z) (running' : list Z) : option server :=
  c ← users s !! fd;
  r ← process fuel c;
  '(c, es) ← r;
  Some (Server (<[fd := c]> (users s)) (m_user_count s) (sys_calls (kern s) es) (queue s) running').

(** * Executions *)

(** One event of the array at a time: the events of one [epoll_wait] are about different
    descriptors, so delivering them together and handling them in turn is a sequence of these
    steps. *)

Inductive step : server -> server -> Prop :=
  | step_event s s1 s2 e connfd rs :
      deliver s (ev_fd e) = Some s1 ->
      (0 <= connfd -> connfd ∉ open_fds (kern s)) ->
      handle_event s1 e connfd rs = Some s2 -> step s s2
  | step_take s fd s' : take_request s = Some (fd, s') -> step s s'
  | step_finish fuel s fd run1 run2 s' :
      running s = run1 ++ fd :: run2 -> finish fuel s fd (run1 ++ run2) = Some s' -> step s s'.

Inductive reachable : server -> Prop :=
  | reach_start : reachable start
  | reach_step s s' : reachable s -> step s s' -> reachable s'.

(** * The invariant *)

(** The connection at [fd] is open. *)
Definition live (s : server) (fd : Z) : Prop := exists c, users s !! fd = Some c /\ m_sockfd c = fd.

Definition owned (s : server) : list Z := queue s ++ running s.

Record server_ok (s : server) : Prop := {
  ok_listen : regs (kern s) !! listenfd = Some (Reg false true) /\ listenfd ∈ open_fds (kern s);
  ok_sock : forall fd c, users s !! fd = Some c -> m_sockfd c = fd \/ m_sockfd c = -1;
  ok_index : forall fd c, users s !! fd = Some c -> 0 <= fd < MAX_FD /\ fd <> listenfd;
  ok_regs : forall fd, fd <> listenfd -> live s fd <-> is_Some (regs (kern s) !! fd);
  ok_one_shot : forall fd r, fd <> listenfd -> regs (kern s) !! fd = Some r -> one_shot r = true;
  ok_open : forall fd, live s fd -> fd ∈ open_fds (kern s);
  ok_fds : forall fd, fd ∈ open_fds (kern s) -> 0 <= fd;
  ok_count : m_user_count s = Z.of_nat (size (delete listenfd (regs (kern s))));
  ok_owned : NoDup (owned s) /\ forall fd, fd ∈ owned s -> regs (kern s) !! fd = Some (Reg true false)
}.
End Server.

(** * Frame lemmas of the connection: no operation but [init] and [close_conn] touches [m_sockfd] *)

Ltac conn_cases :=
  repeat match goal with
  | H : _ ≫= _ = Some _ |- _ => apply bind_Some in H as (? & ? & ?)
  | H : (let '(_, _) := ?x in _) = Some _ |- _ => destruct x
  | H : match ?x with _ => _ end = Some _ |- _ => destruct x eqn:?
  | H : Some _ = Some _ |- _ => injection H as ?; subst
  | H : None = Some _ |- _ => discriminate H
  | H : (_, _) = (_, _) |- _ => injection H as ?; subst
  end.

Lemma parse_line_sockfd c c' st : parse_line c = Some (c', st) -> m_sockfd c' = m_sockfd c.
Proof. unfold parse_line. intros H. conn_cases; done. Qed.

Lemma parse_target_sockfd c u c' r : parse_target c u = Some (c', r) -> m_sockfd c' = m_sockfd c.
Proof. unfold parse_target. intros H. conn_cases; done. Qed.

Lemma parse_request_line_sockfd c t c' r : parse_request_line c t = Some (c', r) -> m_sockfd c' = m_sockfd c.
Proof.
  unfold parse_request_line. intros H. conn_cases; try done.
  match goal with H : parse_target _ _ = _ |- _ => apply parse_target_sockfd in H as -> end. done.
Qed.

Lemma parse_headers_sockfd c t c' r : parse_headers c t = Some (c', r) -> m_sockfd c' = m_sockfd c.
Proof. unfold parse_headers. intros H. conn_cases; try done. by case_match. Qed.

Lemma content_case_sockfd c t c' r : content_case c t = Some (c', r) -> m_sockfd c' = m_sockfd c.
Proof. unfold content_case, parse_content, do_request. intros H. conn_cases; done. Qed.

Lemma process_read_loop_sockfd fuel : forall c st c' r,
  process_read_loop fuel c st = Some (Some (c', r)) -> m_sockfd c' = m_sockfd c.
Proof.
  induction fuel as [|fuel IH]; intros c st c' r H; [done|]. cbn [process_read_loop] in H.
  apply bind_Some in H as ((c1 & st1) & H1 & H).
  assert (E1 : m_sockfd c1 = m_sockfd c).
  { destruct (decide _); [by injection H1 as -> _|by apply parse_line_sockfd in H1]. }
  destruct (negb _); [by simplify_eq|].
  apply bind_Some in H as (? & _ & H).
  set (c2 := set_start_line (m_checked_index c1) c1) in *.
  assert (E2 : m_sockfd c2 = m_sockfd c) by exact E1.
  destruct (m_check_state c2).
  - apply bind_Some in H as ((c3 & r3) & H3 & H). apply parse_request_line_sockfd in H3.
    destruct (decide (r3 = BAD_REQUEST)); [simplify_eq; congruence|]. apply IH in H. congruence.
  - apply bind_Some in H as ((c3 & r3) & H3 & H). apply parse_headers_sockfd in H3.
    destruct (decide (r3 = BAD_REQUEST)); [simplify_eq; congruence|].
    destruct (decide (r3 = GET_REQUEST)); [done|].
    apply bind_Some in H as ((c4 & r4) & H4 & H). apply content_case_sockfd in H4.
    destruct r4; [simplify_eq; congruence|]. apply IH in H. congruence.
  - apply bind_Some in H as ((c4 & r4) & H4 & H). apply content_case_sockfd in H4.
    destruct r4; [simplify_eq; congruence|]. apply IH in H. congruence.
Qed.

(** What a worker does to its connection. *)
Lemma process_effect fuel c c' es : process fuel c = Some (Some (c', es)) ->
  m_sockfd c' = m_sockfd c /\ (es = [] \/ es = modfd (m_sockfd c) true).
Proof.
  unfold process, process_read. intros H. apply bind_Some in H as ([(c1 & r1)|] & H1 & H); [|done].
  apply process_read_loop_sockfd in H1. destruct (decide (r1 = NO_REQUEST)).
  - injection H as <- <-. rewrite H1. auto.
  - apply bind_Some in H as ([(c2 & r2)|] & H2 & H); [|done]. apply process_read_loop_sockfd in H2.
    injection H as <- <-. split; [congruence|]. by left.
Qed.

Lemma read_sockfd rs c c' ok : read rs c = Some (c', ok) -> m_sockfd c' = m_sockfd c.
Proof.
  unfold read. destruct (_ >=? _); [by intros [= <- _]|]. revert c.
  induction rs as [|r rs IH]; intros c H; [done|]. cbn [read_loop] in H.
  destruct r; [|conn_cases; done..]. destruct (_ && _); [|done].
  apply bind_Some in H as (buf & _ & H). apply IH in H. done.
Qed.

(** * Preservation *)

Section Invariant.
Context (listenfd : Z) (garbage : http_conn) (max_requests : Z).
Hypothesis listenfd_ok : 0 <= listenfd.
#[local] Set Default Proof Using "All".
#[local] Abbreviation ok := (server_ok listenfd).

Lemma start_ok : ok (start listenfd).
Proof.
  split; cbn.
  - split; [by rewrite lookup_insert_eq|set_solver].
  - intros fd c. by rewrite lookup_empty.
  - intros fd c. by rewrite lookup_empty.
  - intros fd Hne. unfold live. cbn. setoid_rewrite lookup_empty. rewrite lookup_insert_ne by done.
    rewrite lookup_empty. split; [intros (c & Hc & _); done|intros [? Hr]; done].
  - intros fd r Hne. by rewrite lookup_insert_ne, lookup_empty by done.
  - intros fd (c & Hc & _). cbn in Hc. by rewrite lookup_empty in Hc.
  - intros fd ->%elem_of_singleton. done.
  - rewrite delete_insert_eq, delete_empty. done.
  - split; [constructor|]. intros fd Hfd. by apply elem_of_nil in Hfd.
Qed.

(** Replacing a connection by one with the same descriptor. *)
Lemma put_user_ok s fd c c' : ok s -> users s !! fd = Some c -> m_sockfd c' = m_sockfd c ->
  ok (Server (<[fd := c']> (users s)) (m_user_count s) (kern s) (queue s) (running s)) /\
  (forall g, live (Server (<[fd := c']> (users s)) (m_user_count s) (kern s) (queue s) (running s)) g <-> live s g).
Proof.
  intros [H1 H2 H3 H4 H5 H6 Hfds H7 H8] Hc Hs.
  assert (Hlive : forall g, live (Server (<[fd := c']> (users s)) (m_user_count s) (kern s) (queue s) (running s)) g <-> live s g).
  { intros g. unfold live. cbn. destruct (decide (g = fd)) as [->|Hne].
    - rewrite lookup_insert_eq, Hc. split; intros (d & [= <-] & Hd); eexists; (split; [done|]); congruence.
    - by rewrite lookup_insert_ne. }
  split; [|done]. split; cbn; try done.
  - intros g d. destruct (decide (g = fd)) as [->|Hne].
    + rewrite lookup_insert_eq. intros [= <-]. rewrite Hs. by apply H2.
    + rewrite lookup_insert_ne by done. apply H2.
  - intros g d. destruct (decide (g = fd)) as [->|Hne].
    + intros _. by apply (H3 fd c).
    + rewrite lookup_insert_ne by done. apply H3.
  - intros g Hg. rewrite Hlive. by apply H4.
  - intros g Hg. apply H6. by apply Hlive.
Qed.

(** Replacing the registration of a live connection. *)
Definition set_reg (s : server) (fd : Z) (a : bool) : server :=
  Server (users s) (m_user_count s) (Kernel (open_fds (kern s)) (<[fd := Reg true a]> (regs (kern s))))
    (queue s) (running s).

Lemma set_reg_ok s fd a : ok s -> is_Some (regs (kern s) !! fd) -> fd <> listenfd -> fd ∉ owned s -> ok (set_reg s fd a).
Proof.
  intros [H1 H2 H3 H4 H5 H6 Hfds H7 H8] [r Hr] Hne Ho. split; cbn; try done.
  - by rewrite lookup_insert_ne by done.
  - intros g Hg. change (live (set_reg s fd a) g) with (live s g). rewrite (H4 g Hg).
    destruct (decide (g = fd)) as [->|]; [rewrite lookup_insert_eq, Hr; by split|by rewrite lookup_insert_ne].
  - intros g r' Hg. destruct (decide (g = fd)) as [->|]; [rewrite lookup_insert_eq; by intros [= <-]|].
    rewrite lookup_insert_ne by done. by apply H5.
  - rewrite delete_insert_ne by done. rewrite H7. f_equal. symmetry. apply map_size_insert_Some.
    exists r. by rewrite lookup_delete_ne.
  - split; [apply H8|]. intros g Hg. change (g ∈ owned s) in Hg.
    rewrite lookup_insert_ne by (intros ->; done). by apply H8.
Qed.

Lemma deliver_ok s fd s1 : ok s -> deliver s fd = Some s1 ->
  ok s1 /\ open_fds (kern s1) = open_fds (kern s) /\
  (fd = listenfd \/ (fd <> listenfd /\ live s1 fd /\ regs (kern s1) !! fd = Some (Reg true false) /\ fd ∉ owned s1)).
Proof.
  intros Hok Hd. unfold deliver in Hd. apply bind_Some in Hd as ([os a] & Hr & Hd). cbn in Hd.
  destruct a; [|done]. injection Hd as <-. destruct (decide (fd = listenfd)) as [->|Hne].
  - destruct (ok_listen _ s Hok) as [Hl _]. rewrite Hl in Hr. injection Hr as <-. cbn [negb].
    rewrite (insert_id (regs (kern s))) by done. split; [|split; [done|by left]]. by destruct s as [? ? [? ?] ? ?].
  - assert (os = true) as -> by (by apply (ok_one_shot _ s Hok fd _ Hne) in Hr).
    assert (Ho : fd ∉ owned s). { intros Ho. apply (ok_owned _ s Hok) in Ho. congruence. }
    split; [apply (set_reg_ok s fd false); [done|by eexists|done|done]|]. split; [done|]. right. split; [done|].
    split; [apply (ok_regs _ s Hok fd Hne); by eexists|]. split; [by cbn; rewrite lookup_insert_eq|done].
Qed.

Lemma close_user_ok s fd s' : ok s -> fd <> listenfd -> live s fd -> fd ∉ owned s ->
  close_user s fd = Some s' -> ok s' /\ users s' !! fd <> None /\ ~ live s' fd.
Proof.
  intros Hok Hne (c & Hc & Hs) Ho H. unfold close_user in H. rewrite Hc in H. cbn [mbind option_bind] in H.
  pose proof (ok_index _ s Hok fd c Hc) as [Hi _].
  unfold close_conn in H. rewrite Hs in H. rewrite (proj2 (Z.eqb_neq fd (-1))) in H by lia. cbn [negb] in H.
  injection H as <-. cbn [sys_calls fold_left removefd sys_call open_fds regs].
  rewrite delete_delete_eq. destruct Hok as [H1 H2 H3 H4 H5 H6 Hfds H7 H8].
  assert (Hreg : is_Some (regs (kern s) !! fd)) by (apply H4; [done|]; by exists c).
  assert (Hlive : forall g, live (Server (<[fd := set_sockfd (-1) c]> (users s)) (m_user_count s - 1)
      (Kernel (open_fds (kern s) ∖ {[fd]}) (delete fd (regs (kern s)))) (queue s) (running s)) g <-> live s g /\ g <> fd).
  { intros g. unfold live. cbn. destruct (decide (g = fd)) as [->|].
    - rewrite lookup_insert_eq. split; [|by intros [_ ?]]. intros (c' & [= <-] & Hc'). cbn in Hc'. lia.
    - rewrite lookup_insert_ne by done. naive_solver. }
  split; [|split; [cbn; by rewrite lookup_insert_eq|rewrite Hlive; tauto]]. split; cbn; try done.
  - rewrite lookup_delete_ne by done. split; [apply H1|]. set_solver.
  - intros g d. destruct (decide (g = fd)) as [->|]; [rewrite lookup_insert_eq; intros [= <-]; by right|].
    rewrite lookup_insert_ne by done. apply H2.
  - intros g d. destruct (decide (g = fd)) as [->|]; [intros _; by apply (H3 fd c)|].
    rewrite lookup_insert_ne by done. apply H3.
  - intros g Hg. rewrite Hlive, (H4 g Hg). destruct (decide (g = fd)) as [->|].
    + rewrite lookup_delete_eq. split; [by intros [_ ?]|by intros [? ?]].
    + rewrite lookup_delete_ne by done. tauto.
  - intros g r Hg. destruct (decide (g = fd)) as [->|]; [by rewrite lookup_delete_eq|].
    rewrite lookup_delete_ne by done. by apply H5.
  - intros g [Hg Hgne]%Hlive. apply H6 in Hg. set_solver.
  - intros g Hg. apply Hfds. set_solver.
  - rewrite delete_delete, map_size_delete_Some by (by rewrite lookup_delete_ne by done).
    rewrite H7. assert (size (delete listenfd (regs (kern s))) <> 0%nat); [|lia].
    apply map_size_ne_0_lookup. exists fd. by rewrite lookup_delete_ne.
  - split; [apply H8|]. intros g Hg. change (g ∈ owned s) in Hg. rewrite lookup_delete_ne by (intros ->; done).
    by apply H8.
Qed.

Lemma append_user_ok s fd : ok s -> regs (kern s) !! fd = Some (Reg true false) -> fd ∉ owned s ->
  ok (append_user max_requests s fd).
Proof.
  intros Hok Hr Ho. unfold append_user. destruct (_ >? _); [done|].
  destruct Hok as [H1 H2 H3 H4 H5 H6 Hfds H7 [H8 H9]]. split; cbn; try done.
  unfold owned in *. cbn. split.
  - rewrite <- app_assoc. cbn. rewrite <- Permutation_middle. constructor; [done|done].
  - intros g. rewrite <- app_assoc. cbn. rewrite elem_of_app, elem_of_cons.
    intros [Hg|[->|Hg]]; [apply H9; set_solver|done|apply H9; set_solver].
Qed.

Lemma fresh_unregistered s connfd : ok s -> connfd ∉ open_fds (kern s) ->
  regs (kern s) !! connfd = None /\ connfd <> listenfd /\ ~ live s connfd.
Proof.
  intros Hok Hf. assert (Hne : connfd <> listenfd) by (intros ->; apply Hf, Hok).
  assert (Hl : ~ live s connfd) by (intros Hl; apply Hf; by apply (ok_open _ s Hok)).
  split; [|done]. destruct (regs (kern s) !! connfd) eqn:E; [|done]. exfalso. apply Hl.
  apply (ok_regs _ s Hok connfd Hne). by eexists.
Qed.

(** A new connection: its object, the count, the descriptor and the registration. *)
Lemma init_user_ok s fd c k : ok s -> fd ∉ open_fds (kern s) -> 0 <= fd < MAX_FD -> m_sockfd c = fd ->
  open_fds k = open_fds (kern s) ∪ {[fd]} -> regs k = <[fd := Reg true true]> (regs (kern s)) ->
  ok (Server (<[fd := c]> (users s)) (m_user_count s + 1) k (queue s) (running s)).
Proof.
  intros Hok Hf Hi Hs Eo Er. destruct (fresh_unregistered s fd Hok Hf) as (Hn & Hne & Hnl).
  destruct Hok as [H1 H2 H3 H4 H5 H6 Hfds H7 [H8 H9]].
  assert (Hlive : forall g, live (Server (<[fd := c]> (users s)) (m_user_count s + 1) k (queue s) (running s)) g <-> g = fd \/ live s g).
  { intros g. unfold live. cbn. destruct (decide (g = fd)) as [->|].
    - rewrite lookup_insert_eq. split; [by left|]. intros _. by exists c.
    - rewrite lookup_insert_ne by done. naive_solver. }
  split; cbn; rewrite ?Er, ?Eo.
  - rewrite lookup_insert_ne by done. split; [apply H1|]. set_solver.
  - intros g d. destruct (decide (g = fd)) as [->|]; [rewrite lookup_insert_eq; intros [= <-]; by left|].
    rewrite lookup_insert_ne by done. apply H2.
  - intros g d. destruct (decide (g = fd)) as [->|]; [done|]. rewrite lookup_insert_ne by done. apply H3.
  - intros g Hg. rewrite Hlive, (H4 g Hg). destruct (decide (g = fd)) as [->|].
    + rewrite lookup_insert_eq. split; [by eexists|by left].
    + rewrite lookup_insert_ne by done. naive_solver.
  - intros g r Hg. destruct (decide (g = fd)) as [->|]; [rewrite lookup_insert_eq; by intros [= <-]|].
    rewrite lookup_insert_ne by done. by apply H5.
  - intros g [->|Hg]%Hlive; [set_solver|]. apply H6 in Hg. set_solver.
  - intros g [Hg| ->%elem_of_singleton]%elem_of_union; [by apply Hfds|lia].
  - rewrite delete_insert_ne, map_size_insert_None by (rewrite ?lookup_delete_ne; done). lia.
  - split; [done|]. intros g Hg. rewrite lookup_insert_ne; [by apply H9|]. intros ->.
    change (g ∈ owned s) in Hg. apply H9 in Hg. congruence.
Qed.

Lemma accept_client_ok s connfd s' : ok s -> (0 <= connfd -> connfd ∉ open_fds (kern s)) ->
  accept_client garbage s connfd = Some s' -> ok s'.
Proof.
  intros Hok Hfresh H. unfold accept_client in H.
  destruct (m_user_count s >=? MAX_FD).
  - injection H as <-. cbn [sys_call].
    assert (Hnr : 0 <= connfd -> regs (kern s) !! connfd = None).
    { intros Hge. destruct (regs (kern s) !! connfd) eqn:E; [|done]. exfalso. apply (Hfresh Hge).
      destruct (decide (connfd = listenfd)) as [->|Hne]; [apply Hok|]. apply (ok_open _ s Hok), (ok_regs _ s Hok); by try eexists. }
    assert (Hrn : connfd < 0 -> regs (kern s) !! connfd = None).
    { intros Hlt. destruct (regs (kern s) !! connfd) eqn:E; [|done]. exfalso.
      assert (connfd <> listenfd) by lia.
      assert (live s connfd) as (c & Hc & _) by (apply (ok_regs _ s Hok); by try eexists).
      apply (ok_index _ s Hok) in Hc. lia. }
    replace (Kernel (open_fds (if 0 <=? connfd then Kernel (open_fds (kern s) ∪ {[connfd]}) (regs (kern s)) else kern s) ∖ {[connfd]})
      (delete connfd (regs (if 0 <=? connfd then Kernel (open_fds (kern s) ∪ {[connfd]}) (regs (kern s)) else kern s))))
      with (kern s); [by destruct s|].
    assert (Hnotin : connfd < 0 -> connfd ∉ open_fds (kern s)) by (intros ? ?%(ok_fds _ s Hok); lia).
    destruct (Z.leb_spec 0 connfd); cbn; rewrite delete_id by auto;
      (replace (_ ∖ _) with (open_fds (kern s)); [by destruct (kern s)|]).
    + specialize (Hfresh ltac:(done)). set_solver.
    + specialize (Hnotin ltac:(lia)). set_solver.
  - destruct ((0 <=? connfd) && (connfd <? MAX_FD)) eqn:Eb; [|done]. zb.
    specialize (Hfresh ltac:(done)). unfold init in H. injection H as <-.
    rewrite (proj2 (Z.leb_le 0 connfd)) by done. by apply (init_user_ok s connfd).
Qed.

Lemma append_user_kern s fd : kern (append_user max_requests s fd) = kern s.
Proof. unfold append_user. by destruct (_ >? _). Qed.

Lemma handle_event_ok s e connfd rs s' : ok s ->
  (ev_fd e = listenfd \/ (ev_fd e <> listenfd /\ live s (ev_fd e) /\
     regs (kern s) !! ev_fd e = Some (Reg true false) /\ ev_fd e ∉ owned s)) ->
  (0 <= connfd -> connfd ∉ open_fds (kern s)) ->
  handle_event listenfd garbage max_requests s e connfd rs = Some s' -> ok s'.
Proof.
  intros Hok Hfd Hfresh H. unfold handle_event in H.
  destruct (Z.eqb_spec (ev_fd e) listenfd) as [E|E]; [by eapply accept_client_ok|].
  destruct Hfd as [?|(_ & Hl & Hr & Ho)]; [done|].
  destruct (ev_hup e); [by eapply close_user_ok|].
  destruct (ev_in e).
  { apply bind_Some in H as (c & Hc & H). apply bind_Some in H as ((c' & good) & Hrd & H).
    apply read_sockfd in Hrd. destruct (put_user_ok s (ev_fd e) c c' Hok Hc Hrd) as [Hok' Hlive].
    destruct good; [injection H as <-; by apply append_user_ok|].
    eapply close_user_ok; [exact Hok'|done|by apply Hlive|done|exact H]. }
  destruct (ev_out e); [|by injection H as <-].
  apply bind_Some in H as (c & Hc & H). cbn in H. by injection H as <-.
Qed.

Lemma take_request_ok s fd s' : ok s -> take_request s = Some (fd, s') -> ok s'.
Proof.
  intros [H1 H2 H3 H4 H5 H6 Hfds H7 [H8 H9]] H. unfold take_request in H.
  destruct (queue s) as [|g q] eqn:Eq; [done|]. injection H as <- <-.
  assert (P : owned s ≡ₚ q ++ g :: running s) by (unfold owned; rewrite Eq; cbn; apply Permutation_middle).
  split; cbn; try done. unfold owned. cbn. split; [by rewrite <- P|].
  intros h Hh. apply H9. by rewrite P.
Qed.

Lemma finish_ok fuel s fd run1 run2 s' : ok s -> running s = run1 ++ fd :: run2 ->
  finish fuel s fd (run1 ++ run2) = Some s' -> ok s'.
Proof.
  intros Hok Er H. unfold finish in H. apply bind_Some in H as (c & Hc & H).
  apply bind_Some in H as (r & Hp & H). destruct r as [(c' & es)|]; [|done]. cbn in H. injection H as <-.
  apply process_effect in Hp as [Hs Hes].
  destruct (put_user_ok s fd c c' Hok Hc Hs) as [Hok' _].
  assert (P : owned s ≡ₚ fd :: (queue s ++ run1 ++ run2)).
  { unfold owned. rewrite Er, <- !Permutation_middle. done. }
  destruct (ok_owned _ s Hok) as [Hnd Hreg].
  assert (Hfd : regs (kern s) !! fd = Some (Reg true false)) by (apply Hreg; rewrite P; by left).
  rewrite P in Hnd. apply list.NoDup_cons in Hnd as [Hnin Hnd].
  assert (Hne : fd <> listenfd).
  { intros ->. destruct (ok_listen _ s Hok) as [E _]. congruence. }
  assert (Hok2 : ok (Server (<[fd := c']> (users s)) (m_user_count s) (kern s) (queue s) (run1 ++ run2))).
  { destruct Hok' as [H1 H2 H3 H4 H5 H6 Hfds H7 [H8 H9]]. split; try done. split; [done|].
    intros g Hg. apply Hreg. rewrite P. by right. }
  destruct Hes as [->| ->]; [exact Hok2|].
  assert (Efd : m_sockfd c = fd).
  { assert (live s fd) as (c0 & Hc0 & <-) by (apply (ok_regs _ s Hok fd Hne); by eexists). congruence. }
  rewrite Efd. cbn [sys_calls fold_left modfd sys_call]. rewrite Hfd.
  apply (set_reg_ok _ fd true Hok2); [by eexists|done|done].
Qed.

Lemma step_ok s s' : ok s -> step listenfd garbage max_requests s s' -> ok s'.
Proof.
  intros Hok Hst. revert Hok.
  destruct Hst as [s0 s1 s2 e connfd rs Hd Hf Hh|s0 fd s2 Ht|fuel s0 fd run1 run2 s2 Er Hfin]; intros Hok.
  - destruct (deliver_ok s0 _ s1 Hok Hd) as (Hok1 & Eo & Hfd). rewrite <- Eo in Hf.
    by eapply handle_event_ok.
  - by eapply take_request_ok.
  - by eapply finish_ok.
Qed.

Lemma reachable_ok s : reachable listenfd garbage max_requests s -> ok s.
Proof. induction 1 as [|s s' _ IH Hs]; [apply start_ok|by eapply step_ok]. Qed.

(** The open connections, listed. *)
Lemma live_list s : ok s -> exists L, NoDup L /\ (forall fd, fd ∈ L <-> live s fd) /\ m_user_count s = zlen L.
Proof.
  intros Hok. exists (elements (dom (delete listenfd (regs (kern s))))). split; [apply NoDup_elements|]. split.
  - intros fd. rewrite elem_of_elements, elem_of_dom. destruct (decide (fd = listenfd)) as [->|Hne].
    + rewrite lookup_delete_eq. split; [by intros [? ?]|]. intros (c & Hc & _).
      apply (ok_index _ s Hok) in Hc. tauto.
    + rewrite lookup_delete_ne by done. symmetry. by apply (ok_regs _ s Hok).
  - rewrite (ok_count _ s Hok). unfold zlen. f_equal. rewrite <- size_dom. unfold size, set_size. done.
Qed.

(** ** Orphans: open connections that nobody will look at again *)

Definition orphan (s : server) (fd : Z) : Prop :=
  live s fd /\ regs (kern s) !! fd = Some (Reg true false) /\ fd ∉ owned s.

(** Steps that leave alone the object and the registration of [fd] and do not queue it. *)
Lemma orphan_frame s s' fd : orphan s fd -> users s' !! fd = users s !! fd ->
  regs (kern s') !! fd = regs (kern s) !! fd -> (fd ∈ owned s' -> fd ∈ owned s) -> orphan s' fd.
Proof.
  intros (Hl & Hr & Ho) Eu Er Ho'. split; [|split; [congruence|tauto]].
  destruct Hl as (c & Hc & Hs). exists c. by rewrite Eu.
Qed.

Lemma close_user_frame s fd g s' : close_user s g = Some s' -> ok s -> live s g -> g <> fd -> 
  users s' !! fd = users s !! fd /\ regs (kern s') !! fd = regs (kern s) !! fd /\ owned s' = owned s.
Proof.
  intros H Hok (c & Hc & Hs) Hne. unfold close_user in H. rewrite Hc in H. cbn [mbind option_bind] in H.
  pose proof (ok_index _ s Hok g c Hc) as [Hi _].
  unfold close_conn in H. rewrite Hs in H. rewrite (proj2 (Z.eqb_neq g (-1))) in H by lia.
  cbn [negb] in H. injection H as <-. cbn. rewrite lookup_insert_ne, !lookup_delete_ne by done. done.
Qed.

Lemma accept_frame s connfd fd s' : accept_client garbage s connfd = Some s' -> connfd <> fd ->
  users s' !! fd = users s !! fd /\ regs (kern s') !! fd = regs (kern s) !! fd /\ owned s' = owned s.
Proof.
  intros H Hne. unfold accept_client in H. destruct (_ >=? _).
  - injection H as <-. cbn. rewrite lookup_delete_ne by done. by destruct (0 <=? connfd).
  - destruct (_ && _); [|done]. unfold init in H. injection H as <-. cbn.
    rewrite !lookup_insert_ne by done. by destruct (0 <=? connfd).
Qed.

Lemma handle_event_frame s e connfd rs s' fd : ok s ->
  (ev_fd e = listenfd \/ live s (ev_fd e)) -> ev_fd e <> fd -> connfd <> fd ->
  handle_event listenfd garbage max_requests s e connfd rs = Some s' ->
  users s' !! fd = users s !! fd /\ regs (kern s') !! fd = regs (kern s) !! fd /\
  (fd ∈ owned s' -> fd ∈ owned s).
Proof.
  intros Hok Hlv Hne Hc H. unfold handle_event in H.
  destruct (Z.eqb_spec (ev_fd e) listenfd) as [E|E].
  { destruct (accept_frame s connfd fd s' H Hc) as (-> & -> & ->). done. }
  destruct Hlv as [?|Hl]; [done|].
  destruct (ev_hup e). { by destruct (close_user_frame s fd _ s' H Hok Hl Hne) as (-> & -> & ->). }
  destruct (ev_in e).
  { apply bind_Some in H as (c & Hcu & H). apply bind_Some in H as ((c' & good) & Hrd & H).
    apply read_sockfd in Hrd. destruct (put_user_ok s (ev_fd e) c c' Hok Hcu Hrd) as [Hok' Hlive].
    destruct good.
    - injection H as <-. rewrite append_user_kern. unfold append_user.
      destruct (_ >? _); cbn; rewrite lookup_insert_ne by done; (split; [done|]); (split; [done|]); [done|].
      unfold owned. cbn. set_solver.
    - destruct (close_user_frame _ fd _ s' H Hok' ltac:(by apply Hlive) Hne) as (-> & -> & ->).
      cbn. by rewrite lookup_insert_ne. }
  destruct (ev_out e); [|by injection H as <-].
  apply bind_Some in H as (c & Hcu & H). cbn in H. by injection H as <-.
Qed.

Lemma orphan_step s s' fd : ok s -> orphan s fd -> step listenfd garbage max_requests s s' -> orphan s' fd.
Proof.
  intros Hok Horph Hst. revert Hok Horph.
  destruct Hst as [s0 s1 s2 e connfd rs Hd Hf Hh|s0 g s2 Ht|fuel s0 g run1 run2 s2 Er Hfin];
    intros Hok Horph; pose proof Horph as (Hl & Hr & Ho).
  - destruct (deliver_ok s0 _ s1 Hok Hd) as (Hok1 & Eo & Hfd).
    assert (Hne : ev_fd e <> fd).
    { intros E. rewrite E in Hd. unfold deliver in Hd. rewrite Hr in Hd. done. }
    assert (Hcn : connfd <> fd).
    { intros ->. apply Hf; [|by apply (ok_open _ s0 Hok)]. apply (ok_fds _ s0 Hok). by apply (ok_open _ s0 Hok). }
    assert (H1 : users s1 !! fd = users s0 !! fd /\ regs (kern s1) !! fd = regs (kern s0) !! fd /\ owned s1 = owned s0).
    { unfold deliver in Hd. apply bind_Some in Hd as (r & Hr' & Hd). destruct (armed r); [|done].
      injection Hd as <-. cbn. by rewrite lookup_insert_ne. }
    destruct H1 as (U1 & R1 & O1).
    destruct (handle_event_frame s1 e connfd rs s2 fd Hok1) as (U2 & R2 & O2); [naive_solver|done..|].
    apply (orphan_frame s0); [done|congruence..|]. rewrite <- O1. done.
  - unfold take_request in Ht. destruct (queue s0) as [|h q] eqn:Eq; [done|]. injection Ht as <- <-.
    apply (orphan_frame s0); [done..|]. unfold owned. rewrite Eq. cbn. set_solver.
  - assert (Hg : g ∈ owned s0) by (unfold owned; rewrite Er; set_solver).
    assert (Hne : g <> fd) by (intros ->; done).
    unfold finish in Hfin. apply bind_Some in Hfin as (c & Hc & Hfin).
    apply bind_Some in Hfin as (r & Hp & Hfin). destruct r as [(c' & es)|]; [|done]. cbn in Hfin.
    injection Hfin as <-. apply process_effect in Hp as [Hs Hes].
    apply (orphan_frame s0); [done|cbn; by rewrite lookup_insert_ne| |].
    + destruct Hes as [->| ->]; [done|]. cbn.
      destruct (ok_sock _ s0 Hok g c Hc) as [E|E]; rewrite E.
      * destruct (regs (kern s0) !! g); [|done]. cbn. by rewrite lookup_insert_ne.
      * assert (fd <> -1) by (apply (ok_open _ s0 Hok) in Hl; apply (ok_fds _ s0 Hok) in Hl; lia).
        destruct (regs (kern s0) !! -1); [|done]. cbn. by rewrite lookup_insert_ne.
    + unfold owned. rewrite Er. cbn. set_solver.
Qed.
End Invariant.

(** * Theorems *)

(** C10. The server never loses track of its connections: in every reachable state, whatever the
    interleaving of events and workers, [m_user_count] is the number of open connections, these are
    exactly the descriptors registered with epoll (and are open descriptors), and ownership is
    exclusive: no connection is queued or run twice, and no event is delivered to the main thread
    for a connection that a worker owns, so [read] and [close_conn] never race with [process]. *)
Theorem server_safe listenfd garbage max_requests s : 0 <= listenfd ->
  reachable listenfd garbage max_requests s ->
  (exists L, NoDup L /\ (forall fd, fd ∈ L <-> live s fd) /\ m_user_count s = zlen L) /\
  (forall fd, fd <> listenfd -> live s fd <-> is_Some (regs (kern s) !! fd)) /\
  (forall fd, live s fd -> fd ∈ open_fds (kern s)) /\
  NoDup (queue s ++ running s) /\
  (forall fd s', fd ∈ queue s ++ running s -> live s fd /\ deliver s fd <> Some s').
Proof.
  intros Hl Hr. pose proof (reachable_ok listenfd garbage max_requests Hl s Hr) as Hok.
  split; [by apply (live_list listenfd)|]. split; [by apply ok_regs|]. split; [by apply (ok_open listenfd)|].
  split; [by apply (ok_owned listenfd)|]. intros fd s' Hfd.
  destruct (ok_owned listenfd s Hok) as [_ Hreg]. specialize (Hreg fd Hfd).
  split; [|unfold deliver; by rewrite Hreg].
  apply (ok_regs listenfd s Hok); [|by eexists]. intros ->. destruct (ok_listen _ s Hok). congruence.
Qed.

(** ** Scripts: executable runs of the event loop *)

Fixpoint script (listenfd : Z) (garbage : http_conn) (max_requests : Z)
    (evs : list (event * Z * list recv_result)) (s : server) : option server :=
  match evs with
  | [] => Some s
  | (e, connfd, rs) :: evs =>
      s1 ← deliver s (ev_fd e);
      if bool_decide (connfd ∉ open_fds (kern s)) then
        s2 ← handle_event listenfd garbage max_requests s1 e connfd rs;
        script listenfd garbage max_requests evs s2
      else None
  end.

Lemma script_reachable l g m evs : forall s s', reachable l g m s -> script l g m evs s = Some s' -> reachable l g m s'.
Proof.
  induction evs as [|[[e connfd] rs] evs IH]; intros s s' Hr H; [by injection H as <-|].
  cbn [script] in H. apply bind_Some in H as (s1 & Hd & H). case_bool_decide as Hf; [|done].
  apply bind_Some in H as (s2 & Hh & H). apply (IH s2); [|done].
  eapply reach_step; [done|]. by eapply step_event.
Qed.

Definition conn0 : http_conn := mkConn 0 0 None None GET None false 0 CHECK_STATE_REQUESTLINE 0 [] 0.
Definition ev_accept : event := Event 3 false true false.
Definition ev_read (fd : Z) : event := Event fd false true false.
Definition got : list recv_result := [RData [71]; REagain].

(** Three clients connect, two of them send a byte; the queue of the pool holds at most 2. *)
Definition busy : server :=
  default (start 3) (script 3 conn0 1
    [(ev_accept, 5, []); (ev_accept, 6, []); (ev_accept, 7, []); (ev_read 5, -1, got); (ev_read 6, -1, got)]
    (start 3)).

Lemma busy_reachable : reachable 3 conn0 1 busy.
Proof.
  unfold busy. destruct (script 3 conn0 1 _ (start 3)) as [s|] eqn:E; [|constructor].
  eapply script_reachable; [constructor|exact E].
Qed.

Example busy_state : queue busy = [5; 6] /\ m_user_count busy = 3 /\ running busy = [].
Proof. vm_compute. done. Qed.

Lemma server_safe_witness :
  NoDup (queue busy ++ running busy) /\ exists L, NoDup L /\ (forall fd, fd ∈ L <-> live busy fd) /\ m_user_count busy = zlen L.
Proof.
  destruct (server_safe 3 conn0 1 busy ltac:(lia) busy_reachable) as (H1 & _ & _ & H2 & _).
  split; [exact H2|exact H1].
Defined.

(** C39. When the pool refuses a request (its queue is full) [main] ignores the result of [append]:
    the connection stays open and counted, but its one-shot registration is disarmed and no worker
    has it, and it stays so in every later state: it is never read, answered or closed again. *)
Theorem refused_request_is_orphaned listenfd garbage max_requests s s1 s2 s' fd out rs connfd c c' :
  0 <= listenfd -> fd <> listenfd -> reachable listenfd garbage max_requests s ->
  deliver s fd = Some s1 -> users s1 !! fd = Some c -> read rs c = Some (c', true) ->
  max_requests < zlen (queue s) ->
  handle_event listenfd garbage max_requests s1 (Event fd false true out) connfd rs = Some s2 ->
  rtc (step listenfd garbage max_requests) s2 s' ->
  orphan s' fd /\ forall t, deliver s' fd <> Some t.
Proof.
  intros Hl Hne Hr Hd Hc Hrd Hfull Hh Hst.
  pose proof (reachable_ok listenfd garbage max_requests Hl s Hr) as Hok.
  destruct (deliver_ok listenfd garbage max_requests Hl s fd s1 Hok Hd) as (Hok1 & _ & [?|(_ & Hlv & Hreg & Ho)]); [done|].
  assert (Eq : queue s1 = queue s).
  { unfold deliver in Hd. apply bind_Some in Hd as (r & _ & Hd). destruct (armed r); [|done]. by injection Hd as <-. }
  assert (E2 : s2 = Server (<[fd := c']> (users s1)) (m_user_count s1) (kern s1) (queue s1) (running s1)).
  { unfold handle_event in Hh. cbn [ev_fd ev_hup ev_in] in Hh. rewrite (proj2 (Z.eqb_neq fd listenfd)) in Hh by done.
    rewrite Hc in Hh. cbn [mbind option_bind] in Hh. rewrite Hrd in Hh. cbn [mbind option_bind] in Hh.
    unfold append_user in Hh. cbn [queue] in Hh. rewrite Eq, Z.gtb_ltb, (proj2 (Z.ltb_lt _ _) Hfull) in Hh.
    rewrite <- Eq in Hh. by injection Hh as <-. }
  pose proof (read_sockfd rs c c' true Hrd) as Hs.
  destruct (put_user_ok listenfd garbage max_requests Hl s1 fd c c' Hok1 Hc Hs) as [Hok2 Hlive]. rewrite <- E2 in Hok2, Hlive.
  assert (Ho2 : orphan s2 fd).
  { split; [by apply Hlive|]. rewrite E2. done. }
  clear - Hl Hok2 Ho2 Hst. induction Hst as [s|s s1 s' Hs _ IH].
  - split; [done|]. intros t. unfold deliver. by rewrite (proj1 (proj2 Ho2)).
  - apply IH; [by eapply step_ok|by eapply orphan_step].
Qed.

Definition busy1 : server := default (start 3) (deliver busy 7).
Definition busy2 : server := default (start 3) (handle_event 3 conn0 1 busy1 (ev_read 7) (-1) got).
Definition conn7 : http_conn := default conn0 (users busy1 !! 7).

Lemma refused_request_is_orphaned_witness : orphan busy2 7.
Proof.
  refine (proj1 (refused_request_is_orphaned 3 conn0 1 busy busy1 busy2 busy2 7 false got (-1) conn7
    (default (conn0, true) (read got conn7)).1 _ _ busy_reachable _ _ _ _ _ _)).
  - lia.
  - lia.
  - vm_compute. reflexivity.
  - vm_compute. reflexivity.
  - vm_compute. reflexivity.
  - vm_compute. reflexivity.
  - vm_compute. reflexivity.
  - apply rtc_refl.
Defined.
