(* ===== verification/Reply.v ===== *)
(** The output side of a client (networking.c): the reply functions of the commands, the static
    buffer and the list of reply blocks they fill, and the writer that drains both to the socket.

    A block is its used bytes and its capacity; a node of the reply list is an address and either
    a block or the NULL placeholder of a deferred length.  The flags are the bits of [c->flags],
    named by their position; installing and removing the write handler of the event loop is not
    part of the state.  [None] is a failed assertion or a NULL dereference.  [sent] records
    what the socket accepted: no operation reads it. *)

From Stdlib Require Import String.
From S2P Require Import Prelude Util.
#[local] Open Scope list_scope.
#[local] Open Scope Z_scope.

(** * Constants *)

Definition PROTO_REPLY_CHUNK_BYTES : Z := 16 * 1024.
Definition NET_MAX_WRITES_PER_EVENT : Z := 1024 * 64.
Definition OBJ_SHARED_BULKHDR_LEN : Z := 32.
Definition SIZE_MAX : Z := 2 ^ 64 - 1.
Definition sizeof_clientReplyBlock : Z := 16.
Definition sizeof_listNode : Z := 24.

(** Bit positions of the client flags. *)
Definition CLIENT_SLAVE : Z := 0.
Definition CLIENT_MASTER : Z := 1.
Definition CLIENT_MONITOR : Z := 2.
Definition CLIENT_MULTI : Z := 3.
Definition CLIENT_BLOCKED : Z := 4.
Definition CLIENT_CLOSE_AFTER_REPLY : Z := 6.
Definition CLIENT_LUA : Z := 8.
Definition CLIENT_CLOSE_ASAP : Z := 10.
Definition CLIENT_MASTER_FORCE_REPLY : Z := 13.
Definition CLIENT_PUBSUB : Z := 18.
Definition CLIENT_PENDING_WRITE : Z := 21.
Definition CLIENT_REPLY_OFF : Z := 22.
Definition CLIENT_REPLY_SKIP_NEXT : Z := 23.
Definition CLIENT_REPLY_SKIP : Z := 24.
Definition CLIENT_MODULE : Z := 27.

Definition CLIENT_TYPE_NORMAL : Z := 0.
Definition CLIENT_TYPE_SLAVE : Z := 1.
Definition CLIENT_TYPE_PUBSUB : Z := 2.
Definition CLIENT_TYPE_MASTER : Z := 3.

(** * State *)

Record clientReplyBlock := Block { bdata : bytes; bsize : Z }.

(** [repl_online]: [replstate == REPL_STATE_NONE || (replstate == SLAVE_STATE_ONLINE &&
    !repl_put_online_on_ack)]. *)
Record oclient := OClient {
  fd : Z;
  flags : Z;
  repl_online : bool;
  buf : bytes;                                  (* bufpos bytes *)
  reply : list (Z * option clientReplyBlock);
  reply_bytes : Z;
  sentlen : Z;
  obuf_soft_limit_reached_time : Z;
  next_node : Z;                                (* the allocator's next list node *)
  sent : bytes
}.

Definition has (c : oclient) (bit : Z) : bool := Z.testbit (flags c) bit.

Definition set_flags f c := OClient (fd c) f (repl_online c) (buf c) (reply c) (reply_bytes c) (sentlen c)
  (obuf_soft_limit_reached_time c) (next_node c) (sent c).
Definition set_flag (bit : Z) (c : oclient) := set_flags (Z.setbit (flags c) bit) c.
Definition set_buf b c := OClient (fd c) (flags c) (repl_online c) b (reply c) (reply_bytes c) (sentlen c)
  (obuf_soft_limit_reached_time c) (next_node c) (sent c).
Definition set_reply r n nn c := OClient (fd c) (flags c) (repl_online c) (buf c) r n (sentlen c)
  (obuf_soft_limit_reached_time c) nn (sent c).
Definition set_sentlen n c := OClient (fd c) (flags c) (repl_online c) (buf c) (reply c) (reply_bytes c) n
  (obuf_soft_limit_reached_time c) (next_node c) (sent c).
Definition set_soft_time t c := OClient (fd c) (flags c) (repl_online c) (buf c) (reply c) (reply_bytes c) (sentlen c)
  t (next_node c) (sent c).
Definition set_sent s c := OClient (fd c) (flags c) (repl_online c) (buf c) (reply c) (reply_bytes c) (sentlen c)
  (obuf_soft_limit_reached_time c) (next_node c) s.

(** A value to reply: a string object, or one with the integer encoding. *)
Inductive robj := OStr (s : bytes) | OInt (n : Z).

(** The part of [server] and of the allocator the code reads. *)
Record limits := Limits { hard_limit_bytes : Z; soft_limit_bytes : Z; soft_limit_seconds : Z }.

Record oserver := OServer {
  unixtime : Z;
  client_obuf_limits : Z -> limits;
  below_maxmemory : bool;       (* server.maxmemory == 0 || zmalloc_used_memory() < server.maxmemory *)
  zmalloc_usable : Z -> Z       (* usable size of an allocation of the given size *)
}.

(** Result of one [write]: bytes accepted, [EAGAIN] or another error. *)
Inductive write_result := WN (n : Z) | WAgain | WErr.

Section Reply.
Context (server : oserver).

(** * Scheduling the client *)

Definition clientHasPendingReplies (c : oclient) : bool :=
  negb (zlen (buf c) =? 0) || negb (zlen (reply c) =? 0).

Definition clientInstallWriteHandler (c : oclient) : oclient :=
  if negb (has c CLIENT_PENDING_WRITE) && repl_online c then set_flag CLIENT_PENDING_WRITE c else c.

Definition prepareClientToWrite (c : oclient) : bool * oclient :=
  if has c CLIENT_LUA || has c CLIENT_MODULE then (true, c)
  else if has c CLIENT_REPLY_OFF || has c CLIENT_REPLY_SKIP then (false, c)
  else if has c CLIENT_MASTER && negb (has c CLIENT_MASTER_FORCE_REPLY) then (false, c)
  else if fd c <=? 0 then (false, c)
  else (true, if negb (clientHasPendingReplies c) then clientInstallWriteHandler c else c).

(** * Output limits *)

Definition getClientType (c : oclient) : Z :=
  if has c CLIENT_MASTER then CLIENT_TYPE_MASTER
  else if has c CLIENT_SLAVE && negb (has c CLIENT_MONITOR) then CLIENT_TYPE_SLAVE
  else if has c CLIENT_PUBSUB then CLIENT_TYPE_PUBSUB
  else CLIENT_TYPE_NORMAL.

Definition getClientOutputBufferMemoryUsage (c : oclient) : Z :=
  u64 (reply_bytes c + (sizeof_listNode + sizeof_clientReplyBlock) * zlen (reply c)).

Definition checkClientOutputBufferLimits (c : oclient) : bool * oclient :=
  let used_mem := getClientOutputBufferMemoryUsage c in
  let class := getClientType c in
  let class := if class =? CLIENT_TYPE_MASTER then CLIENT_TYPE_NORMAL else class in
  let lim := client_obuf_limits server class in
  let hard := negb (hard_limit_bytes lim =? 0) && (used_mem >=? hard_limit_bytes lim) in
  let soft := negb (soft_limit_bytes lim =? 0) && (used_mem >=? soft_limit_bytes lim) in
  let '(soft, c) :=
    if soft then
      if obuf_soft_limit_reached_time c =? 0 then (false, set_soft_time (unixtime server) c)
      else
        let elapsed := unixtime server - obuf_soft_limit_reached_time c in
        (negb (elapsed <=? soft_limit_seconds lim), c)
    else (false, set_soft_time 0 c) in
  (soft || hard, c).

Definition freeClientAsync (c : oclient) : oclient :=
  if has c CLIENT_CLOSE_ASAP || has c CLIENT_LUA then c else set_flag CLIENT_CLOSE_ASAP c.

Definition asyncCloseClientOnOutputBufferLimitReached (c : oclient) : option oclient :=
  if fd c =? -1 then Some c
  else if negb (reply_bytes c <? SIZE_MAX - 1024 * 64) then None
  else if (reply_bytes c =? 0) || has c CLIENT_CLOSE_ASAP then Some c
  else
    let '(reached, c) := checkClientOutputBufferLimits c in
    Some (if reached : bool then freeClientAsync c else c).

(** * Low level functions *)

Definition _addReplyToBuffer (c : oclient) (s : bytes) : bool * oclient :=
  let available := PROTO_REPLY_CHUNK_BYTES - zlen (buf c) in
  if has c CLIENT_CLOSE_AFTER_REPLY then (true, c)
  else if zlen (reply c) >? 0 then (false, c)
  else if zlen s >? available then (false, c)
  else (true, set_buf (buf c ++ s) c).

Definition alloc_block (size : Z) (data : bytes) : clientReplyBlock :=
  Block data (zmalloc_usable server (size + sizeof_clientReplyBlock) - sizeof_clientReplyBlock).

(** The tail gets what it has room for; the rest of [s] remains. *)
Definition fill_tail (r : list (Z * option clientReplyBlock)) (s : bytes)
    : list (Z * option clientReplyBlock) * bytes :=
  match list.last r with
  | Some (ln, Some tail) =>
      let avail := bsize tail - zlen (bdata tail) in
      let copy := if avail >=? zlen s then zlen s else avail in
      (take (pred (length r)) r ++ [(ln, Some (Block (bdata tail ++ take (Z.to_nat copy) s) (bsize tail)))],
       drop (Z.to_nat copy) s)
  | _ => (r, s)
  end.

Definition _addReplyStringToList (c : oclient) (s : bytes) : option oclient :=
  if has c CLIENT_CLOSE_AFTER_REPLY then Some c
  else
    let '(r, s) := fill_tail (reply c) s in
    let c :=
      if negb (zlen s =? 0) then
        let size := if zlen s <? PROTO_REPLY_CHUNK_BYTES then PROTO_REPLY_CHUNK_BYTES else zlen s in
        let tail := alloc_block size s in
        set_reply (r ++ [(next_node c, Some tail)]) (u64 (reply_bytes c + bsize tail)) (next_node c + 1) c
      else set_reply r (reply_bytes c) (next_node c) c in
    asyncCloseClientOnOutputBufferLimitReached c.

(** [if (_addReplyToBuffer(c,s,len) != C_OK) _addReplyStringToList(c,s,len);] *)
Definition add_data (c : oclient) (s : bytes) : option oclient :=
  let '(ok, c) := _addReplyToBuffer c s in
  if ok : bool then Some c else _addReplyStringToList c s.

(** * Replies *)

Definition addReplyString (c : oclient) (s : bytes) : option oclient :=
  let '(ok, c) := prepareClientToWrite c in
  if ok : bool then add_data c s else Some c.

Definition addReplySds (c : oclient) (s : bytes) : option oclient :=
  let '(ok, c) := prepareClientToWrite c in
  if negb ok then Some c else add_data c s.

(** The [len] bytes [ll2string] leaves in a buffer of [size] bytes. *)
Definition ll2string_bytes (size v : Z) : option bytes :=
  '(b, len) ← ll2string (replicate (Z.to_nat size) 0) size v;
  zsub b 0 len.

Definition addReply (c : oclient) (obj : robj) : option oclient :=
  let '(ok, c) := prepareClientToWrite c in
  if negb ok then Some c
  else
    match obj with
    | OStr s => add_data c s
    | OInt n => s ← ll2string_bytes 32 n; add_data c s
    end.

Definition crlf : bytes := [13; 10].

Definition addReplyErrorLength (c : oclient) (s : bytes) : option oclient :=
  c ← (if (zlen s =? 0) || negb (default 0 (head s) =? 45) then addReplyString c (str "-ERR ") else Some c);
  c ← addReplyString c s;
  addReplyString c crlf.

Definition addReplyError (c : oclient) (err : bytes) : option oclient := addReplyErrorLength c err.

(** [s] is the formatted message. *)
Definition addReplyErrorFormat (c : oclient) (s : bytes) : option oclient :=
  addReplyErrorLength c (map (fun b => if (b =? 13) || (b =? 10) then 32 else b) s).

Definition addReplyStatusLength (c : oclient) (s : bytes) : option oclient :=
  c ← addReplyString c (str "+");
  c ← addReplyString c s;
  addReplyString c crlf.

Definition addReplyStatus (c : oclient) (status : bytes) : option oclient := addReplyStatusLength c status.
Definition addReplyStatusFormat (c : oclient) (s : bytes) : option oclient := addReplyStatusLength c s.

(** * Deferred lengths *)

Definition addDeferredMultiBulkLength (c : oclient) : option Z * oclient :=
  let '(ok, c) := prepareClientToWrite c in
  if negb ok then (None, c)
  else (Some (next_node c), set_reply (reply c ++ [(next_node c, None)]) (reply_bytes c) (next_node c + 1) c).

(** The list before, at and after a node. *)
Fixpoint split_node (ln : Z) (r : list (Z * option clientReplyBlock))
    : option (list (Z * option clientReplyBlock) * option clientReplyBlock * list (Z * option clientReplyBlock)) :=
  match r with
  | [] => None
  | (n, v) :: r =>
      if n =? ln then Some ([], v, r)
      else '(pre, v', post) ← split_node ln r; Some ((n, v) :: pre, v', post)
  end.

Definition setDeferredMultiBulkLength (c : oclient) (node : option Z) (length : Z) : option oclient :=
  let lenstr := [42] ++ decimal length ++ crlf in
  match node with
  | None => Some c
  | Some ln =>
      '(pre, v, post) ← split_node ln (reply c);
      match v with
      | Some _ => None                     (* serverAssert(!listNodeValue(ln)) *)
      | None =>
          let new_node :=
            let b := alloc_block (zlen lenstr) lenstr in
            set_reply (pre ++ (ln, Some b) :: post) (u64 (reply_bytes c + bsize b)) (next_node c) c in
          let c :=
            match post with
            | (n, Some next) :: post =>
                if (bsize next - zlen (bdata next) >=? zlen lenstr) &&
                   (zlen (bdata next) <? PROTO_REPLY_CHUNK_BYTES * 4)
                then set_reply (pre ++ (n, Some (Block (lenstr ++ bdata next) (bsize next))) :: post)
                       (reply_bytes c) (next_node c) c
                else new_node
            | _ => new_node
            end in
          asyncCloseClientOnOutputBufferLimitReached c
      end
  end.

(** * Numbers and bulk strings *)

(** [shared.mbulkhdr[j]] and [shared.bulkhdr[j]]; [None] outside the arrays. *)
Definition shared_hdr (prefix : Z) (j : Z) : option robj :=
  if (0 <=? j) && (j <? OBJ_SHARED_BULKHDR_LEN) then Some (OStr ([prefix] ++ decimal j ++ crlf)) else None.

Definition addReplyLongLongWithPrefix (c : oclient) (ll : Z) (prefix : Z) : option oclient :=
  if (prefix =? 42) && (ll <? OBJ_SHARED_BULKHDR_LEN) && (ll >=? 0) then
    o ← shared_hdr 42 ll; addReply c o
  else if (prefix =? 36) && (ll <? OBJ_SHARED_BULKHDR_LEN) && (ll >=? 0) then
    o ← shared_hdr 36 ll; addReply c o
  else
    let b := replicate 128 0 in
    b ← zput b 0 [prefix];
    '(b1, len) ← ll2string (drop 1 b) 127 ll;
    b ← zput b 1 b1;
    b ← zput b (len + 1) [13];
    b ← zput b (len + 2) [10];
    s ← zsub b 0 (len + 3);
    addReplyString c s.

Definition addReplyLongLong (c : oclient) (ll : Z) : option oclient :=
  if ll =? 0 then addReply c (OStr (str ":0" ++ crlf))
  else if ll =? 1 then addReply c (OStr (str ":1" ++ crlf))
  else addReplyLongLongWithPrefix c ll 58.

Definition addReplyMultiBulkLen (c : oclient) (length : Z) : option oclient :=
  if length <? OBJ_SHARED_BULKHDR_LEN then o ← shared_hdr 42 length; addReply c o
  else addReplyLongLongWithPrefix c length 42.

(** [while((n = n/10) != 0) len++]; [fuel] exceeds the number of digits. *)
Fixpoint count_digits (fuel : nat) (n len : Z) : option Z :=
  match fuel with
  | O => None
  | S fuel => let n := Z.quot n 10 in if negb (n =? 0) then count_digits fuel n (len + 1) else Some len
  end.

(** [n = -n] overflows for [LONG_MIN]: [None]. *)
Definition bulk_length (obj : robj) : option Z :=
  match obj with
  | OStr s => Some (zlen s)
  | OInt n =>
      if n <? 0 then
        if n =? INT64_MIN then None else count_digits 20 (- n) 2
      else count_digits 20 n 1
  end.

Definition addReplyBulkLen (c : oclient) (obj : robj) : option oclient :=
  len ← bulk_length obj;
  if len <? OBJ_SHARED_BULKHDR_LEN then o ← shared_hdr 36 len; addReply c o
  else addReplyLongLongWithPrefix c len 36.

Definition addReplyBulk (c : oclient) (obj : robj) : option oclient :=
  c ← addReplyBulkLen c obj;
  c ← addReply c obj;
  addReply c (OStr crlf).

Definition addReplyBulkCBuffer (c : oclient) (p : bytes) : option oclient :=
  c ← addReplyLongLongWithPrefix c (zlen p) 36;
  c ← addReplyString c p;
  addReply c (OStr crlf).

Definition addReplyBulkSds (c : oclient) (s : bytes) : option oclient :=
  c ← addReplyLongLongWithPrefix c (zlen s) 36;
  c ← addReplySds c s;
  addReply c (OStr crlf).

(** [None] is the NULL string. *)
Definition addReplyBulkCString (c : oclient) (s : option bytes) : option oclient :=
  match s with
  | None => addReply c (OStr (str "$-1" ++ crlf))
  | Some s => addReplyBulkCBuffer c s
  end.

Definition addReplyBulkLongLong (c : oclient) (ll : Z) : option oclient :=
  s ← ll2string_bytes 64 ll;
  addReplyBulkCBuffer c s.

(** * Help *)

Definition toupper (b : Z) : Z := if (97 <=? b) && (b <=? 122) then b - 32 else b.

Fixpoint add_statuses (c : oclient) (help : list bytes) : option oclient :=
  match help with
  | [] => Some c
  | h :: help => c ← addReplyStatus c h; add_statuses c help
  end.

(** [argv0] is [c->argv[0]->ptr]. *)
Definition addReplyHelp (c : oclient) (argv0 : bytes) (help : list bytes) : option oclient :=
  let cmd := map toupper argv0 in
  let '(blenp, c) := addDeferredMultiBulkLength c in
  c ← addReplyStatusFormat c (cmd ++ str " <subcommand> arg arg ... arg. Subcommands are:");
  c ← add_statuses c help;
  setDeferredMultiBulkLength c blenp (zlen help + 1).

Definition addReplySubcommandSyntaxError (c : oclient) (argv0 argv1 : bytes) : option oclient :=
  let cmd := map toupper argv0 in
  addReplyErrorFormat c (str "Unknown subcommand or wrong number of arguments for '" ++ argv1 ++
    str "'. Try " ++ cmd ++ str " HELP.").

(** * Writing to the socket *)

(** [while] iterations that only remove an empty block at the head. *)
Fixpoint skip_empty_blocks (r : list (Z * option clientReplyBlock)) (n : Z)
    : option (list (Z * option clientReplyBlock) * Z) :=
  match r with
  | [] => Some ([], n)
  | (_, None) :: _ => None
  | (_, Some o) :: r' => if zlen (bdata o) =? 0 then skip_empty_blocks r' (u64 (n - bsize o)) else Some (r, n)
  end.

(** [write(fd, b + sentlen, len - sentlen)]: what the kernel takes, and the new [sentlen]. *)
Definition do_write (n : Z) (b : bytes) (c : oclient) : Z * oclient :=
  let nwritten := Z.min n (zlen b - sentlen c) in
  (nwritten, set_sentlen (sentlen c + nwritten)
     (set_sent (sent c ++ take (Z.to_nat nwritten) (drop (Z.to_nat (sentlen c)) b)) c)).

(** The loop of [writeToClient]; [rs] are the results of its writes (then [EAGAIN]).  Returns the
    value of [errno] seen ([true] for a fatal error), [totwritten] and the client. *)
Fixpoint write_loop (rs : list write_result) (c : oclient) (totwritten : Z) : option (bool * Z * oclient) :=
  '(r, n) ← (if zlen (buf c) >? 0 then Some (reply c, reply_bytes c) else skip_empty_blocks (reply c) (reply_bytes c));
  let c := set_reply r n (next_node c) c in
  if negb (clientHasPendingReplies c) then Some (false, totwritten, c)
  else
    match rs with
    | [] | WAgain :: _ => Some (false, totwritten, c)
    | WErr :: _ => Some (true, totwritten, c)
    | WN n :: rs =>
        if n <=? 0 then Some (false, totwritten, c)
        else
          let limited totwritten := (totwritten >? NET_MAX_WRITES_PER_EVENT) && below_maxmemory server &&
                                    negb (has c CLIENT_SLAVE) in
          if zlen (buf c) >? 0 then
            let '(nwritten, c) := do_write n (buf c) c in
            let totwritten := totwritten + nwritten in
            let c := if sentlen c =? zlen (buf c) then set_sentlen 0 (set_buf [] c) else c in
            if limited totwritten then Some (false, totwritten, c) else write_loop rs c totwritten
          else
            match reply c with
            | (_, Some o) :: rest =>
                let '(nwritten, c) := do_write n (bdata o) c in
                let totwritten := totwritten + nwritten in
                c ← (if sentlen c =? zlen (bdata o) then
                       let c := set_sentlen 0 (set_reply rest (u64 (reply_bytes c - bsize o)) (next_node c) c) in
                       if (zlen rest =? 0) && negb (reply_bytes c =? 0) then None else Some c
                     else Some c);
                if limited totwritten then Some (false, totwritten, c) else write_loop rs c totwritten
            | _ => None
            end
    end.

(** [true]: the client is still valid; [false]: it was freed. *)
Definition writeToClient (rs : list write_result) (c : oclient) : option (bool * oclient) :=
  '(failed, _, c) ← write_loop rs c 0;
  if failed : bool then Some (false, c)
  else if negb (clientHasPendingReplies c) then
    let c := set_sentlen 0 c in
    Some (negb (has c CLIENT_CLOSE_AFTER_REPLY), c)
  else Some (true, c).
End Reply.

(** * The queue of a client as a stream of bytes and holes *)

(** A hole is a deferred length that is still to be set. *)
Inductive qtoken := TByte (b : Z) | THole (ln : Z).

Definition node_tokens (n : Z * option clientReplyBlock) : list qtoken :=
  match n with
  | (_, Some b) => map TByte (bdata b)
  | (ln, None) => [THole ln]
  end.

Definition out_tokens (c : oclient) : list qtoken := map TByte (buf c) ++ flat_map node_tokens (reply c).

(** What is still to be sent. *)
Definition pending (c : oclient) : list qtoken := drop (Z.to_nat (sentlen c)) (out_tokens c).

Definition node_size (n : Z * option clientReplyBlock) : Z :=
  match n with (_, Some b) => bsize b | (_, None) => 0 end.
Definition total_size (r : list (Z * option clientReplyBlock)) : Z := foldr (fun n acc => node_size n + acc) 0 r.

(** The most [reply_bytes] may be. *)
Definition reply_limit : Z := SIZE_MAX - 1024 * 64.

Definition node_ok (n : Z * option clientReplyBlock) : Prop :=
  match n with (_, Some b) => 0 < zlen (bdata b) <= bsize b | (_, None) => True end.

(** The buffer [sentlen] counts in. *)
Definition first_block (r : list (Z * option clientReplyBlock)) : bytes :=
  match r with (_, Some b) :: _ => bdata b | _ => [] end.
Definition first_segment (c : oclient) : bytes :=
  match buf c with [] => first_block (reply c) | b => b end.

Record out_ok (c : oclient) : Prop := {
  oo_buf : zlen (buf c) <= PROTO_REPLY_CHUNK_BYTES;
  oo_blocks : Forall node_ok (reply c);
  oo_nodes : NoDup (reply c).*1 /\ Forall (fun n => n.1 < next_node c) (reply c);
  oo_bytes : reply_bytes c = total_size (reply c) /\ total_size (reply c) < reply_limit;
  oo_sent : 0 <= sentlen c /\ (sentlen c = 0 \/ sentlen c < zlen (first_segment c))
}.

(** The client takes replies. *)
Definition accepts (c : oclient) : bool :=
  (has c CLIENT_LUA || has c CLIENT_MODULE ||
   negb (has c CLIENT_REPLY_OFF || has c CLIENT_REPLY_SKIP) &&
   negb (has c CLIENT_MASTER && negb (has c CLIENT_MASTER_FORCE_REPLY)) && (0 <? fd c)) &&
  negb (has c CLIENT_CLOSE_AFTER_REPLY).

Lemma flat_map_snoc {A B} (f : A -> list B) l x : flat_map f (l ++ [x]) = flat_map f l ++ f x.
Proof. by rewrite flat_map_app; cbn; rewrite app_nil_r. Qed.

Lemma total_size_app r r' : total_size (r ++ r') = total_size r + total_size r'.
Proof. unfold total_size. induction r as [|n r IH]; [done|]. cbn [app foldr]. rewrite IH. lia. Qed.

Lemma total_size_nonneg r : Forall node_ok r -> 0 <= total_size r.
Proof.
  induction 1 as [|[ln [b|]] r Hn _ IH]; [done|..]; cbn [total_size foldr node_size node_ok] in *;
    fold (total_size r); lia.
Qed.

Lemma has_set_flag c b b' : 0 <= b -> has (set_flag b c) b' = (b =? b') || has c b'.
Proof. intros Hb. unfold has, set_flag. cbn [flags set_flags]. by rewrite Z.setbit_eqb. Qed.

(** Operations that leave the queue alone, up to the scheduling flags. *)
Record quiet (c c' : oclient) : Prop := {
  q_fd : fd c' = fd c;
  q_buf : buf c' = buf c;
  q_reply : reply c' = reply c;
  q_bytes : reply_bytes c' = reply_bytes c;
  q_sentlen : sentlen c' = sentlen c;
  q_next : next_node c' = next_node c;
  q_sent : sent c' = sent c;
  q_flags : forall b, 0 <= b -> b <> CLIENT_PENDING_WRITE -> b <> CLIENT_CLOSE_ASAP -> has c' b = has c b
}.

Lemma quiet_refl c : quiet c c.
Proof. by split. Qed.

Lemma quiet_trans c1 c2 c3 : quiet c1 c2 -> quiet c2 c3 -> quiet c1 c3.
Proof. intros [] []. split; try congruence. intros b ???. etransitivity; eauto. Qed.

Lemma quiet_set_flag b c : b = CLIENT_PENDING_WRITE \/ b = CLIENT_CLOSE_ASAP -> quiet c (set_flag b c).
Proof.
  intros Hb. split; try done. intros b' Hb' H1 H2. rewrite has_set_flag by (by destruct Hb as [->| ->]).
  destruct (Z.eqb_spec b b'); [subst b'; tauto|done].
Qed.

Lemma quiet_soft_time t c : quiet c (set_soft_time t c).
Proof. by split. Qed.

#[local] Hint Resolve quiet_refl quiet_soft_time quiet_set_flag : core.

Lemma quiet_ok c c' : quiet c c' -> out_ok c -> out_ok c'.
Proof.
  intros [Hf Hb Hr Hn Hs Hx Ht _] [H1 H2 H3 H4 H5].
  split; [by rewrite Hb|by rewrite Hr|by rewrite Hr, Hx|by rewrite Hr, Hn|].
  unfold first_segment in *. by rewrite Hs, Hb, Hr.
Qed.

Lemma quiet_accepts c c' : quiet c c' -> accepts c' = accepts c.
Proof. intros [Hf _ _ _ _ _ _ Hh]. unfold accepts. rewrite Hf, !Hh by done. done. Qed.

Lemma quiet_pending c c' : quiet c c' -> pending c' = pending c.
Proof. intros [Hf Hb Hr Hn Hs Hx Ht _]. unfold pending, out_tokens. by rewrite Hb, Hr, Hs. Qed.

(** [sentlen] is inside the queue. *)
Lemma sentlen_le c : out_ok c -> (Z.to_nat (sentlen c) <= length (out_tokens c))%nat.
Proof.
  intros [_ _ _ _ [H0 Hs]].
  assert (zlen (first_segment c) <= Z.of_nat (length (out_tokens c))); [|lia].
  unfold first_segment, first_block, out_tokens. rewrite length_app, length_map.
  destruct (buf c) as [|x b]; [|unfold zlen; cbn [length]; lia].
  destruct (reply c) as [|[ln [b|]] r]; cbn [flat_map node_tokens]; rewrite ?length_app, ?length_map; unfold zlen; cbn [length]; lia.
Qed.

(** Growing the queue at its end. *)
Lemma pending_grow c c' ts : out_ok c -> sentlen c' = sentlen c -> out_tokens c' = out_tokens c ++ ts ->
  pending c' = pending c ++ ts.
Proof.
  intros Hok Hs Ht. unfold pending. rewrite Hs, Ht. apply drop_app_le. by apply sentlen_le.
Qed.

(** A length or integer line. *)
Definition hdr (prefix n : Z) : bytes := [prefix] ++ decimal n ++ crlf.

(** Such a line assembled in a local buffer of [size] bytes. *)
Lemma number_line size prefix ll : srange 64 ll -> 24 <= size -> exists b0 b1 len b2 b3 b4,
  zput (replicate (Z.to_nat size) 0) 0 [prefix] = Some b0 /\ ll2string (drop 1 b0) (size - 1) ll = Some (b1, len) /\
  zput b0 1 b1 = Some b2 /\ zput b2 (len + 1) [13] = Some b3 /\ zput b3 (len + 2) [10] = Some b4 /\
  zsub b4 0 (len + 3) = Some (hdr prefix ll).
Proof.
  intros Hl Hsize. pose proof (decimal_le20 ll Hl) as H20. set (z := replicate (Z.to_nat (size - 1)) 0).
  assert (Hz : zlen z = size - 1) by (unfold z; rewrite zlen_replicate; lia).
  pose proof (ll2string_spec z (size - 1) ll Hl) as E. specialize (E ltac:(lia)).
  rewrite (proj2 (Z.ltb_lt _ _)) in E by lia. destruct E as (rest & E & Hrest).
  rewrite Hz, zlen_app, zlen_cons in Hrest.
  destruct rest as [|r0 rest]; [change (zlen (@nil Z)) with 0 in Hrest; lia|].
  exists (prefix :: z), (decimal ll ++ 0 :: r0 :: rest), (zlen (decimal ll)), (prefix :: decimal ll ++ 0 :: r0 :: rest),
    ((prefix :: decimal ll) ++ 13 :: r0 :: rest), ((prefix :: decimal ll ++ [13]) ++ 10 :: rest).
  split.
  { replace (Z.to_nat size) with (S (Z.to_nat (size - 1))) by lia. cbn [replicate]. fold z.
    apply (zput_app [] [0] z [prefix]); done. }
  split; [exact E|]. split.
  { pose proof (zput_app [prefix] z [] (decimal ll ++ 0 :: r0 :: rest) 1 eq_refl) as P. rewrite !app_nil_r in P. apply P.
    rewrite Hz, zlen_app, zlen_cons. lia. }
  split. { apply (zput_app (prefix :: decimal ll) [0] (r0 :: rest) [13]); [zlia|done]. }
  split.
  { replace ((prefix :: decimal ll) ++ 13 :: r0 :: rest) with ((prefix :: decimal ll ++ [13]) ++ [r0] ++ rest)
      by (cbn; by rewrite <- app_assoc).
    apply (zput_app (prefix :: decimal ll ++ [13]) [r0] rest [10]); [zlia|done]. }
  replace ((prefix :: decimal ll ++ [13]) ++ 10 :: rest) with (hdr prefix ll ++ rest)
    by (unfold hdr, crlf; cbn; by rewrite <- !app_assoc).
  apply zsub_app0. unfold hdr, crlf. zlia.
Qed.

Section Output.
Context (server : oserver).
(** An allocation is at least as large as asked for, and asking for more does not give less. *)
Hypothesis usable_ok : forall n, 0 <= n -> n <= zmalloc_usable server n.
Hypothesis usable_mono : forall n m, 0 <= n <= m -> zmalloc_usable server n <= zmalloc_usable server m.

(** What the allocator may add to [reply_bytes] for a piece of data. *)
Definition need (s : bytes) : Z := bsize (alloc_block server (Z.max PROTO_REPLY_CHUNK_BYTES (zlen s)) s).
Definition needs (ss : list bytes) : Z := foldr (fun s acc => need s + acc) 0 ss.

(** [f] queues the concatenation of [ss] when the client takes replies and leaves the queue as
    it is otherwise, if [reply_bytes] has room. *)
Record queued (c c' : oclient) (ts : list qtoken) (room : Z) : Prop := {
  qd_ok : out_ok c';
  qd_pending : pending c' = pending c ++ (if accepts c then ts else []);
  qd_accepts : accepts c' = accepts c;
  qd_flags : forall b, 0 <= b -> b <> CLIENT_PENDING_WRITE -> b <> CLIENT_CLOSE_ASAP -> has c' b = has c b;
  qd_fd : fd c' = fd c;
  qd_sent : sent c' = sent c;
  qd_next : next_node c <= next_node c';
  qd_room : total_size (reply c') <= total_size (reply c) + room
}.

Definition emits (f : oclient -> option oclient) (ss : list bytes) : Prop :=
  forall c, out_ok c -> total_size (reply c) + needs ss < reply_limit ->
  exists c', f c = Some c' /\ queued c c' (map TByte (concat ss)) (needs ss).

#[local] Set Default Proof Using "All".

Lemma need_pos s : 0 < need s /\ zlen s <= need s.
Proof.
  unfold need, alloc_block. cbn [bsize]. pose proof (zlen_nonneg s). unfold PROTO_REPLY_CHUNK_BYTES, sizeof_clientReplyBlock.
  pose proof (usable_ok (Z.max (16 * 1024) (zlen s) + 16)). lia.
Qed.

Lemma need_mono s s' : zlen s <= zlen s' -> need s <= need s'.
Proof.
  intros H. unfold need, alloc_block. cbn [bsize]. pose proof (zlen_nonneg s). unfold PROTO_REPLY_CHUNK_BYTES, sizeof_clientReplyBlock.
  pose proof (usable_mono (Z.max (16 * 1024) (zlen s) + 16) (Z.max (16 * 1024) (zlen s') + 16)). lia.
Qed.

Lemma needs_nonneg ss : 0 <= needs ss.
Proof. induction ss as [|s ss IH]; [done|]. unfold needs in *. cbn [foldr]. pose proof (need_pos s). lia. Qed.

Lemma needs_app ss ss' : needs (ss ++ ss') = needs ss + needs ss'.
Proof. unfold needs. induction ss as [|s ss IH]; [done|]. cbn [app foldr]. rewrite IH. lia. Qed.

Lemma install_quiet c : quiet c (clientInstallWriteHandler c).
Proof. unfold clientInstallWriteHandler. destruct (_ && _); auto. Qed.

(** Unless the client does not take replies at all, only [CLIENT_CLOSE_AFTER_REPLY] remains to be
    tested. *)
Lemma prepare_spec c : exists ok c', prepareClientToWrite c = (ok, c') /\ quiet c c' /\
  accepts c = ok && negb (has c CLIENT_CLOSE_AFTER_REPLY).
Proof.
  unfold prepareClientToWrite, accepts. destruct (has c CLIENT_LUA || has c CLIENT_MODULE).
  { by exists true, c. }
  destruct (has c CLIENT_REPLY_OFF || has c CLIENT_REPLY_SKIP); [by exists false, c|].
  destruct (has c CLIENT_MASTER && negb (has c CLIENT_MASTER_FORCE_REPLY)); [by exists false, c|].
  destruct (Z.leb_spec (fd c) 0) as [Hf|Hf].
  { exists false, c. rewrite (proj2 (Z.ltb_ge 0 (fd c))) by lia. done. }
  rewrite (proj2 (Z.ltb_lt 0 (fd c))) by lia. do 2 eexists. split; [done|]. split; [|done].
  destruct (negb _); [apply install_quiet|done].
Qed.

Lemma check_limits_quiet c : quiet c (checkClientOutputBufferLimits server c).2.
Proof.
  unfold checkClientOutputBufferLimits.
  destruct (negb _ && (_ >=? soft_limit_bytes _)); [|done]. destruct (_ =? 0); done.
Qed.

(** The output limits may schedule the client for closing, nothing else. *)
Lemma async_close_quiet c : reply_bytes c < reply_limit ->
  exists c', asyncCloseClientOnOutputBufferLimitReached server c = Some c' /\ quiet c c'.
Proof.
  unfold reply_limit. intros Hr. unfold asyncCloseClientOnOutputBufferLimitReached.
  destruct (fd c =? -1); [by exists c|]. zdec. cbn [negb].
  destruct ((reply_bytes c =? 0) || has c CLIENT_CLOSE_ASAP); [by exists c|].
  pose proof (check_limits_quiet c) as Hq.
  destruct (checkClientOutputBufferLimits server c) as [[] c1]; cbn [snd] in Hq; [|by exists c1].
  eexists. split; [done|]. eapply quiet_trans; [done|]. unfold freeClientAsync.
  destruct (_ || _); auto.
Qed.

(** ** Adding data *)

Lemma fill_tail_spec r s r' s' : Forall node_ok r -> fill_tail r s = (r', s') ->
  exists s0, s = s0 ++ s' /\ flat_map node_tokens r' = flat_map node_tokens r ++ map TByte s0 /\
  Forall node_ok r' /\ r'.*1 = r.*1 /\ total_size r' = total_size r /\
  zlen (first_block r) <= zlen (first_block r').
Proof.
  intros Hok H. unfold fill_tail in H.
  destruct (list.last r) as [[ln [tail|]]|] eqn:El;
    [|injection H as <- <-; exists []; rewrite app_nil_r; naive_solver lia..].
  apply last_Some in El as [r0 ->]. apply Forall_app in Hok as [Hr0 Ht]. apply list.Forall_cons in Ht as [Ht _].
  cbn [node_ok] in Ht. set (copy := if _ >=? _ then _ else _) in H. injection H as <- <-.
  assert (Hcopy : 0 <= copy <= zlen s /\ zlen (bdata tail) + copy <= bsize tail).
  { subst copy. pose proof (zlen_nonneg s). rewrite Z.geb_leb. zcase; lia. }
  exists (take (Z.to_nat copy) s).
  replace (pred (length (r0 ++ [(ln, Some tail)]))) with (length r0) by (rewrite length_app; cbn; lia).
  rewrite take_app_length. split; [by rewrite take_drop|].
  assert (Hlen : zlen (take (Z.to_nat copy) s) = copy) by (unfold zlen in *; rewrite length_take; lia).
  split. { rewrite !flat_map_snoc. cbn [node_tokens bdata]. by rewrite map_app, <- app_assoc. }
  split. { apply Forall_app. split; [done|]. repeat constructor; cbn [node_ok bdata bsize]; rewrite zlen_app; lia. }
  split; [by rewrite !fmap_app|]. split; [by rewrite !total_size_app|].
  destruct r0 as [|n r0]; [|done]. cbn. rewrite zlen_app. lia.
Qed.

(** A reply list with a new last node is as good as the old one. *)
Lemma out_ok_list c r n nn : out_ok c ->
  Forall node_ok r -> r.*1 = (reply c).*1 -> total_size r = total_size (reply c) ->
  zlen (first_block (reply c)) <= zlen (first_block r) ->
  (n = None /\ nn = next_node c \/ exists v, n = Some (next_node c, v) /\ nn = next_node c + 1 /\ node_ok (next_node c, v)) ->
  let r' := r ++ option_list n in total_size r' < reply_limit ->
  out_ok (set_reply r' (total_size r') nn c).
Proof.
  intros [H1 H2 [H3 H3'] H4 [H5 H5']] Hr Hn Ht Hf Hnew r' Hlim.
  split; cbn [buf reply reply_bytes sentlen next_node set_reply]; [done|..].
  - apply Forall_app. split; [done|]. destruct Hnew as [[-> _]|(v & -> & _ & Hv)]; [constructor|by repeat constructor].
  - assert (Hlt : Forall (fun n => n.1 < next_node c) r).
    { apply (proj1 (list.Forall_fmap fst (fun i => i < next_node c) r)). rewrite Hn. by apply list.Forall_fmap. }
    destruct Hnew as [[-> ->]|(v & -> & -> & _)]; subst r'; cbn [option_list].
    + rewrite app_nil_r, Hn. done.
    + rewrite fmap_app, Hn. split.
      * apply list.NoDup_app. split; [done|]. split; [|apply list.NoDup_singleton].
        intros x Hx ->%list_elem_of_singleton. rewrite <- Hn in Hx. apply list_elem_of_fmap in Hx as (y & Hy & Hin).
        rewrite list.Forall_forall in Hlt. apply Hlt in Hin. cbn in Hy. lia.
      * apply Forall_app. split; [eapply list.Forall_impl; [done|]; cbn; lia|]. repeat constructor. cbn. lia.
  - done.
  - split; [done|]. destruct H5' as [H5'|H5']; [by left|right]. unfold first_segment in *. cbn [buf reply set_reply].
    destruct (buf c); [|done]. assert (zlen (first_block r) <= zlen (first_block r')); [|lia].
    subst r'. destruct r; [cbn; apply zlen_nonneg|done].
Qed.

Lemma alloc_block_ok s : s <> [] ->
  let b := alloc_block server (if zlen s <? PROTO_REPLY_CHUNK_BYTES then PROTO_REPLY_CHUNK_BYTES else zlen s) s in
  bsize b = need s /\ 0 < zlen (bdata b) <= bsize b /\ bdata b = s.
Proof.
  intros Hs. cbv zeta. unfold need. assert (0 < zlen s) by (destruct s; [done|zlia]).
  replace (if zlen s <? PROTO_REPLY_CHUNK_BYTES then _ else _) with (Z.max PROTO_REPLY_CHUNK_BYTES (zlen s)) by (zcase; lia).
  split; [done|]. split; [|done]. pose proof (need_pos s) as [_ ?]. split; [done|]. done.
Qed.

(** The queue grew by [ts]. *)
Record grown (c c' : oclient) (ts : list qtoken) (room : Z) : Prop := {
  g_ok : out_ok c';
  g_pending : pending c' = pending c ++ ts;
  g_fd : fd c' = fd c;
  g_flags : forall b, 0 <= b -> b <> CLIENT_PENDING_WRITE -> b <> CLIENT_CLOSE_ASAP -> has c' b = has c b;
  g_sent : sent c' = sent c;
  g_next : next_node c <= next_node c';
  g_room : total_size (reply c') <= total_size (reply c) + room
}.

Lemma grown_quiet c c1 c2 ts room : grown c c1 ts room -> quiet c1 c2 -> grown c c2 ts room.
Proof.
  intros [H1 H2 H3 H4 H5 H6 H7] Hq. split.
  - by eapply quiet_ok.
  - by rewrite (quiet_pending c1 c2).
  - by rewrite (q_fd _ _ Hq).
  - intros b ???. rewrite (q_flags _ _ Hq) by done. by apply H4.
  - by rewrite (q_sent _ _ Hq).
  - by rewrite (q_next _ _ Hq).
  - by rewrite (q_reply _ _ Hq).
Qed.

Lemma quiet_grown c c1 c2 ts room : quiet c c1 -> grown c1 c2 ts room -> grown c c2 ts room.
Proof.
  intros Hq [H1 H2 H3 H4 H5 H6 H7]. split; [done|..].
  - by rewrite H2, (quiet_pending c c1).
  - by rewrite H3, (q_fd _ _ Hq).
  - intros b ???. rewrite H4 by done. by apply (q_flags _ _ Hq).
  - by rewrite H5, (q_sent _ _ Hq).
  - by rewrite <- (q_next _ _ Hq).
  - by rewrite <- (q_reply _ _ Hq).
Qed.

Lemma grown_refl c room : out_ok c -> 0 <= room -> grown c c [] room.
Proof. intros. split; try done; [by rewrite app_nil_r|lia]. Qed.

Lemma add_to_list_spec c s : out_ok c -> total_size (reply c) + need s < reply_limit ->
  has c CLIENT_CLOSE_AFTER_REPLY = false ->
  exists c', _addReplyStringToList server c s = Some c' /\ grown c c' (map TByte s) (need s).
Proof.
  intros Hok Hroom Hclose. unfold _addReplyStringToList. rewrite Hclose.
  destruct (fill_tail (reply c) s) as [r s'] eqn:Ef.
  destruct (fill_tail_spec _ _ _ _ (oo_blocks c Hok) Ef) as (s0 & -> & Htok & Hr & Hn & Ht & Hfb).
  pose proof (total_size_nonneg _ (oo_blocks c Hok)) as Hpos. destruct (oo_bytes c Hok) as [Hb Hb'].
  pose proof (need_pos (s0 ++ s')) as [Hnp _]. cbv zeta. set (c0 := if negb (zlen s' =? 0) then _ else _).
  assert (G : exists n nn, let r' := r ++ option_list n in
    (n = None /\ nn = next_node c \/ exists v, n = Some (next_node c, v) /\ nn = next_node c + 1 /\ node_ok (next_node c, v)) /\
    total_size r' <= total_size (reply c) + need (s0 ++ s') /\ flat_map node_tokens r' = flat_map node_tokens (reply c) ++ map TByte (s0 ++ s') /\
    c0 = set_reply r' (total_size r') nn c).
  { subst c0. destruct (Z.eqb_spec (zlen s') 0) as [E|E]; cbn [negb].
    - apply zlen_0_nil in E as ->. exists None, (next_node c). cbv zeta. change (option_list _) with (@nil (Z * option clientReplyBlock)). rewrite !app_nil_r.
      split; [by left|]. rewrite app_nil_r in Hnp. split; [lia|]. split; [done|]. by rewrite Hb, Ht.
    - assert (Hs' : s' <> []) by (intros ->; done). pose proof (alloc_block_ok s' Hs') as Ha. cbv zeta in Ha |- *.
      set (b := alloc_block _ _ _) in *. destruct Ha as (Hsz & Hlen & Hd).
      assert (Hle : need s' <= need (s0 ++ s')).
      { apply need_mono. zlia. }
      exists (Some (next_node c, Some b)), (next_node c + 1). cbv zeta.
      change (option_list (Some (next_node c, Some b))) with [(next_node c, Some b)].
      rewrite total_size_app. assert (Hb1 : total_size [(next_node c, Some b)] = need s') by (unfold total_size; cbn [foldr node_size]; lia). rewrite Hb1, Ht. clear Hb1.
      split; [right; eauto|]. split; [lia|]. split.
      + rewrite flat_map_snoc, Htok. cbn [node_tokens]. by rewrite Hd, map_app, <- app_assoc.
      + f_equal. rewrite Hb, Hsz. apply uwrap_small. unfold urange, reply_limit, SIZE_MAX in *. pose proof (need_pos s'). lia. }
  destruct G as (n & nn & Hnew & Hsize & Htoks & ->).
  set (r' := r ++ option_list n) in *. set (c1 := set_reply r' (total_size r') nn c).
  assert (Hlim : total_size r' < reply_limit) by lia.
  assert (Hok1 : out_ok c1) by (by apply out_ok_list).
  destruct (async_close_quiet c1) as (c2 & -> & Hq); [done|]. exists c2. split; [done|].
  eapply grown_quiet; [|done]. split; try done.
  - apply pending_grow; [done|done|]. unfold out_tokens. cbn [buf reply c1 set_reply]. by rewrite Htoks, app_assoc.
  - cbn. destruct Hnew as [[_ ->]|(v & _ & -> & _)]; lia.
Qed.

Lemma add_data_spec c s : out_ok c -> total_size (reply c) + need s < reply_limit ->
  exists c', add_data server c s = Some c' /\
  grown c c' (if has c CLIENT_CLOSE_AFTER_REPLY then [] else map TByte s) (need s).
Proof.
  intros Hok Hroom. unfold add_data, _addReplyToBuffer. pose proof (need_pos s) as [Hnp _].
  destruct (has c CLIENT_CLOSE_AFTER_REPLY) eqn:Hclose; [exists c; split; [done|]; by apply grown_refl, Z.lt_le_incl|].
  rewrite !Z.gtb_ltb. destruct (Z.ltb_spec 0 (zlen (reply c))) as [Hr|Hr]; [by apply add_to_list_spec|].
  destruct (Z.ltb_spec (PROTO_REPLY_CHUNK_BYTES - zlen (buf c)) (zlen s)) as [Hs|Hs]; [by apply add_to_list_spec|].
  eexists. split; [done|]. assert (Er : reply c = []) by (apply zlen_0_nil; pose proof (zlen_nonneg (reply c)); lia).
  destruct Hok as [H1 H2 H3 H4 H5]. assert (Hok : out_ok c) by done. split; try done; [|..].
  - split; try done; [cbn [buf set_buf]; rewrite zlen_app; lia|]. cbn [sentlen set_buf]. split; [apply H5|].
    destruct H5 as [H0 [H5|H5]]; [by left|right]. unfold first_segment in *. cbn [buf reply set_buf].
    rewrite Er in *. destruct (buf c) as [|x b]; [change (sentlen c < 0) in H5; lia|]. cbn [app] in *.
    rewrite zlen_cons, zlen_app. rewrite zlen_cons in H5. pose proof (zlen_nonneg s). lia.
  - apply pending_grow; [done|done|]. unfold out_tokens. cbn [buf reply set_buf]. rewrite Er. cbn [flat_map].
    by rewrite !app_nil_r, map_app.
  - cbn [reply set_buf]. lia.
Qed.

Lemma grown_queued c c' s :
  grown c c' (if has c CLIENT_CLOSE_AFTER_REPLY then [] else map TByte s) (need s) ->
  accepts c = negb (has c CLIENT_CLOSE_AFTER_REPLY) -> queued c c' (map TByte s) (need s).
Proof.
  intros [H1 H2 H3 H4 H5 H6 H7] Ha. split; try done.
  - rewrite H2, Ha. by destruct (has c CLIENT_CLOSE_AFTER_REPLY).
  - unfold accepts. rewrite H3, !H4 by done. done.
Qed.

Lemma quiet_queued c c' ts room : out_ok c -> quiet c c' -> accepts c = false -> 0 <= room -> queued c c' ts room.
Proof.
  intros Hok Hq Ha Hr. split.
  - by eapply quiet_ok.
  - by rewrite Ha, app_nil_r, (quiet_pending c c').
  - by apply quiet_accepts.
  - apply (q_flags _ _ Hq).
  - by rewrite (q_fd _ _ Hq).
  - by rewrite (q_sent _ _ Hq).
  - by rewrite (q_next _ _ Hq).
  - rewrite (q_reply _ _ Hq). lia.
Qed.

(** Every function that prepares the client and then adds one piece of data. *)
Lemma emits_guarded f s :
  (forall c, f c = let '(ok, c) := prepareClientToWrite c in if ok : bool then add_data server c s else Some c) ->
  emits f [s].
Proof.
  intros Hf c Hok Hroom. rewrite Hf. unfold needs in *. cbn [foldr concat] in *. rewrite app_nil_r. rewrite Z.add_0_r in *.
  destruct (prepare_spec c) as (ok & c1 & -> & Hq & Ha). pose proof (need_pos s) as [Hnp _].
  destruct ok; [|exists c1; split; [done|]; by apply quiet_queued, Z.lt_le_incl].
  assert (Hok1 : out_ok c1) by (by eapply quiet_ok).
  destruct (add_data_spec c1 s) as (c2 & -> & Hg); [done|by rewrite (q_reply _ _ Hq)|].
  exists c2. split; [done|]. apply grown_queued; [|done].
  rewrite (q_flags _ _ Hq CLIENT_CLOSE_AFTER_REPLY) in Hg by done. by eapply quiet_grown.
Qed.

Lemma addReplyString_emits s : emits (fun c => addReplyString server c s) [s].
Proof. by apply emits_guarded. Qed.

Lemma addReplySds_emits s : emits (fun c => addReplySds server c s) [s].
Proof. apply emits_guarded. intros c. unfold addReplySds. by destruct (prepareClientToWrite c) as [[] c']. Qed.

(** The text of an object. *)
Definition obj_text (o : robj) : bytes := match o with OStr s => s | OInt n => decimal n end.
Definition obj_ok (o : robj) : Prop := match o with OStr _ => True | OInt n => srange 64 n end.

Lemma ll2string_bytes_spec size n : srange 64 n -> 21 <= size -> ll2string_bytes size n = Some (decimal n).
Proof.
  intros Hn Hs. unfold ll2string_bytes.
  pose proof (ll2string_spec (replicate (Z.to_nat size) 0) size n Hn) as E.
  rewrite zlen_replicate in E. specialize (E ltac:(lia)).
  pose proof (decimal_le20 n Hn) as Hl. assert (Hlen : zlen (decimal n) < size) by lia.
  rewrite (proj2 (Z.ltb_lt _ _) Hlen) in E. destruct E as (rest & -> & _). cbn [mbind option_bind].
  by apply zsub_app0.
Qed.

Lemma addReply_emits o : obj_ok o -> emits (fun c => addReply server c o) [obj_text o].
Proof.
  intros Ho. apply emits_guarded. intros c. unfold addReply.
  destruct (prepareClientToWrite c) as [[] c']; [|done]. cbn [negb]. destruct o as [s|n]; [done|].
  by rewrite ll2string_bytes_spec.
Qed.

(** Sequencing. *)
Lemma queued_trans c c1 c2 ts ts' room room' :
  queued c c1 ts room -> queued c1 c2 ts' room' -> queued c c2 (ts ++ ts') (room + room').
Proof.
  intros [H1 H2 H3 Hf H4 H5 H6 H7] [K1 K2 K3 Kf K4 K5 K6 K7]. split; try done; try congruence; try lia.
  - rewrite K2, H2, H3, <- app_assoc. by destruct (accepts c).
  - intros b ???. rewrite Kf by done. by apply Hf.
Qed.

Lemma emits_seq f g ss ss' : emits f ss -> emits g ss' -> emits (fun c => c ← f c; g c) (ss ++ ss').
Proof.
  intros Hf Hg c Hok Hroom. rewrite needs_app in *. pose proof (needs_nonneg ss'). pose proof (needs_nonneg ss).
  destruct (Hf c) as (c1 & -> & H1); [done|lia|]. cbn [mbind option_bind].
  destruct (Hg c1) as (c2 & -> & H2); [by apply H1|pose proof (qd_room _ _ _ _ H1); lia|].
  exists c2. split; [done|]. rewrite concat_app, map_app. by eapply queued_trans.
Qed.

Lemma emits_nil : emits Some [].
Proof.
  intros c Hok _. exists c. split; [done|]. split; try done; cbn; [|lia]. by destruct (accepts c); rewrite app_nil_r.
Qed.

Lemma emits_ext f g ss : (forall c, f c = g c) -> emits g ss -> emits f ss.
Proof. intros E Hg c. rewrite E. apply Hg. Qed.

(** ** The formats *)

Lemma addReplyLongLongWithPrefix_emits ll prefix : srange 64 ll ->
  emits (fun c => addReplyLongLongWithPrefix server c ll prefix) [hdr prefix ll].
Proof.
  intros Hl. unfold addReplyLongLongWithPrefix, shared_hdr.
  destruct ((prefix =? 42) && (ll <? OBJ_SHARED_BULKHDR_LEN) && (ll >=? 0)) eqn:E1.
  { zb. subst prefix. eapply emits_ext; [|apply (addReply_emits (OStr (hdr 42 ll))); done].
    intros c. rewrite (proj2 (Z.leb_le 0 ll)), (proj2 (Z.ltb_lt ll OBJ_SHARED_BULKHDR_LEN)) by done. done. }
  destruct ((prefix =? 36) && (ll <? OBJ_SHARED_BULKHDR_LEN) && (ll >=? 0)) eqn:E2.
  { zb. subst prefix. eapply emits_ext; [|apply (addReply_emits (OStr (hdr 36 ll))); done].
    intros c. rewrite (proj2 (Z.leb_le 0 ll)), (proj2 (Z.ltb_lt ll OBJ_SHARED_BULKHDR_LEN)) by done. done. }
  destruct (number_line 128 prefix ll Hl ltac:(lia)) as (b0 & b1 & len & b2 & b3 & b4 & P1 & P2 & P3 & P4 & P5 & P6).
  change (Z.to_nat 128) with 128%nat in P1. change (128 - 1) with 127 in P2.
  eapply emits_ext; [|apply addReplyString_emits]. intros c. cbv zeta.
  rewrite P1. cbn [mbind option_bind]. rewrite P2. cbn [mbind option_bind]. rewrite P3. cbn [mbind option_bind].
  rewrite P4. cbn [mbind option_bind]. rewrite P5. cbn [mbind option_bind]. rewrite P6. done.
Qed.

Lemma addReplyLongLong_emits ll : srange 64 ll -> emits (fun c => addReplyLongLong server c ll) [hdr 58 ll].
Proof.
  intros Hl. unfold addReplyLongLong. destruct (Z.eqb_spec ll 0) as [->|]; [by apply (addReply_emits (OStr (hdr 58 0)))|].
  destruct (Z.eqb_spec ll 1) as [->|]; [by apply (addReply_emits (OStr (hdr 58 1)))|].
  by apply addReplyLongLongWithPrefix_emits.
Qed.

Lemma len_line prefix len f : 0 <= len < 2 ^ 63 ->
  (forall c, f c = if len <? OBJ_SHARED_BULKHDR_LEN then o ← shared_hdr prefix len; addReply server c o
                   else addReplyLongLongWithPrefix server c len prefix) ->
  emits f [hdr prefix len].
Proof.
  intros Hl Hf. eapply emits_ext; [exact Hf|]. unfold shared_hdr. destruct (Z.ltb_spec len OBJ_SHARED_BULKHDR_LEN).
  - rewrite (proj2 (Z.leb_le 0 len)) by lia. by apply (addReply_emits (OStr (hdr prefix len))).
  - apply addReplyLongLongWithPrefix_emits. unfold srange. change (2 ^ (64 - 1)) with (2 ^ 63). lia.
Qed.

Lemma addReplyMultiBulkLen_emits len : 0 <= len < 2 ^ 63 ->
  emits (fun c => addReplyMultiBulkLen server c len) [hdr 42 len].
Proof. intros. by apply len_line. Qed.

Lemma count_digits_spec fuel : forall n len, 0 <= n < 10 ^ Z.of_nat fuel -> n < 2 ^ 64 -> (0 < fuel)%nat ->
  count_digits fuel n len = Some (len - 1 + zlen (dec n)).
Proof.
  induction fuel as [|fuel IH]; intros n len Hn Hn' Hf; [lia|]. cbn [count_digits].
  rewrite Z.quot_div_nonneg by lia. rewrite Nat2Z.inj_succ, Z.pow_succ_r in Hn by lia.
  destruct (Z.eqb_spec (n / 10) 0) as [E|E]; cbn [negb].
  - rewrite dec_small by dlia. f_equal. zlia.
  - assert (0 < fuel)%nat by (destruct fuel; [cbn in Hn; dlia|lia]).
    rewrite IH; [|split; [apply Z.div_pos; lia|apply Z.div_lt_upper_bound; lia]|dlia|done].
    rewrite (dec_step n) by dlia. f_equal. zlia.
Qed.

Lemma bulk_length_spec o : obj_ok o -> o <> OInt INT64_MIN -> bulk_length o = Some (zlen (obj_text o)).
Proof.
  destruct o as [s|n]; [done|]. cbn [obj_ok obj_text bulk_length]. unfold srange, INT64_MIN, decimal.
  change (2 ^ (64 - 1)) with (2 ^ 63). intros Hn Hm. assert (n <> - 2 ^ 63) by congruence.
  destruct (Z.ltb_spec n 0).
  - zdec. rewrite count_digits_spec; [f_equal; zlia|cbn; lia..].
  - rewrite count_digits_spec; [f_equal; zlia|cbn; lia..].
Qed.

Definition bulk (s : bytes) : list bytes := [hdr 36 (zlen s); s; crlf].

Lemma emits_seq3 f g h a b d : emits f [a] -> emits g [b] -> emits h [d] ->
  emits (fun c => c ← f c; c ← g c; h c) [a; b; d].
Proof. intros Hf Hg Hh. apply (emits_seq f _ [a] [b; d]); [done|]. by apply (emits_seq g h [b] [d]). Qed.

Lemma addReplyBulk_emits o : obj_ok o -> o <> OInt INT64_MIN -> zlen (obj_text o) < 2 ^ 63 ->
  emits (fun c => addReplyBulk server c o) (bulk (obj_text o)).
Proof.
  intros Ho Hm Hl. pose proof (zlen_nonneg (obj_text o)). apply emits_seq3; [|by apply addReply_emits|by apply (addReply_emits (OStr crlf))].
  apply len_line; [lia|]. intros c. unfold addReplyBulkLen. by rewrite bulk_length_spec.
Qed.

Lemma addReplyBulkCBuffer_emits p : zlen p < 2 ^ 63 -> emits (fun c => addReplyBulkCBuffer server c p) (bulk p).
Proof.
  intros Hl. pose proof (zlen_nonneg p). apply emits_seq3; [|by apply addReplyString_emits|by apply (addReply_emits (OStr crlf))].
  apply addReplyLongLongWithPrefix_emits. unfold srange. change (2 ^ (64 - 1)) with (2 ^ 63). lia.
Qed.

Lemma addReplyBulkSds_emits p : zlen p < 2 ^ 63 -> emits (fun c => addReplyBulkSds server c p) (bulk p).
Proof.
  intros Hl. pose proof (zlen_nonneg p). apply emits_seq3; [|by apply addReplySds_emits|by apply (addReply_emits (OStr crlf))].
  apply addReplyLongLongWithPrefix_emits. unfold srange. change (2 ^ (64 - 1)) with (2 ^ 63). lia.
Qed.

Lemma addReplyStatus_emits s : emits (fun c => addReplyStatus server c s) [str "+"; s; crlf].
Proof. apply emits_seq3; apply addReplyString_emits. Qed.

Lemma addReplyError_emits s : emits (fun c => addReplyError server c s)
  (if (zlen s =? 0) || negb (default 0 (head s) =? 45) then [str "-ERR "; s; crlf] else [s; crlf]).
Proof.
  unfold addReplyError, addReplyErrorLength.
  destruct ((zlen s =? 0) || negb (default 0 (head s) =? 45)); [apply emits_seq3; apply addReplyString_emits|].
  apply (emits_seq (fun c => addReplyString server c s) _ [s] [crlf]); apply addReplyString_emits.
Qed.

(** ** Deferred lengths *)

(** Replace a hole by bytes. *)
Definition fill (ln : Z) (s : bytes) (ts : list qtoken) : list qtoken :=
  flat_map (fun t => match t with THole l => if l =? ln then map TByte s else [t] | TByte _ => [t] end) ts.

Lemma fill_app ln s a b : fill ln s (a ++ b) = fill ln s a ++ fill ln s b.
Proof. apply flat_map_app. Qed.

Lemma fill_id ln s ts : THole ln ∉ ts -> fill ln s ts = ts.
Proof.
  induction ts as [|t ts IH]; intros Hn; [done|]. apply not_elem_of_cons in Hn as [Hne Hn].
  cbn [fill flat_map]. fold (fill ln s ts). rewrite IH by done. destruct t as [b|l]; [done|].
  by rewrite (proj2 (Z.eqb_neq l ln)) by congruence.
Qed.

Lemma hole_in_nodes ln r : THole ln ∈ flat_map node_tokens r <-> (ln, None) ∈ r.
Proof.
  induction r as [|[n v] r IH]; cbn [flat_map]; [by rewrite !elem_of_nil|].
  rewrite elem_of_app, elem_of_cons, IH. destruct v as [b|]; cbn [node_tokens].
  - split; [intros [H|H]; [|by right]|intros [H|H]; [done|by right]].
    apply list_elem_of_In, in_map_iff in H as (? & ? & _). done.
  - rewrite list_elem_of_singleton. split; (intros [[= ->]|H]; [by left|by right]).
Qed.

Lemma hole_not_byte ln b : THole ln ∉ map TByte b.
Proof. intros H. by apply list_elem_of_In, in_map_iff in H as (? & ? & _). Qed.

Lemma fill_hole ln s : fill ln s [THole ln] = map TByte s.
Proof. cbn. by rewrite Z.eqb_refl, app_nil_r. Qed.

Lemma split_node_spec ln r : (ln, None) ∈ r -> NoDup r.*1 ->
  exists pre post, split_node ln r = Some (pre, None, post) /\ r = pre ++ (ln, None) :: post.
Proof.
  induction r as [|[n v] r IH]; intros Hin Hnd; [by apply elem_of_nil in Hin|].
  cbn in Hnd. apply list.NoDup_cons in Hnd as [Hn Hnd]. cbn [split_node]. apply elem_of_cons in Hin as [[= <- <-]|Hin].
  - rewrite Z.eqb_refl. by exists [], r.
  - destruct (Z.eqb_spec n ln) as [->|]; [exfalso; apply Hn, list_elem_of_fmap; by exists (ln, None)|].
    destruct (IH Hin Hnd) as (pre & post & -> & ->). by exists ((n, v) :: pre), post.
Qed.

(** Tokens already sent are before every hole. *)
Lemma sent_before_hole c pre ln post : out_ok c -> reply c = pre ++ (ln, None) :: post ->
  (Z.to_nat (sentlen c) <= length (map TByte (buf c) ++ flat_map node_tokens pre))%nat.
Proof.
  intros [_ _ _ _ [H0 Hs]] Er. assert (zlen (first_segment c) <= Z.of_nat (length (map TByte (buf c) ++ flat_map node_tokens pre))); [|lia].
  unfold first_segment. rewrite length_app, length_map. destruct (buf c) as [|x b]; [|unfold zlen; cbn [length]; lia].
  rewrite Er. destruct pre as [|[n [v|]] pre]; cbn; rewrite ?length_app, ?length_map; unfold zlen; cbn; lia.
Qed.

Record filled (c c' : oclient) (ln : Z) (s : bytes) : Prop := {
  fl_ok : out_ok c';
  fl_pending : pending c' = fill ln s (pending c);
  fl_accepts : accepts c' = accepts c;
  fl_fd : fd c' = fd c;
  fl_sent : sent c' = sent c;
  fl_next : next_node c' = next_node c;
  fl_room : total_size (reply c') <= total_size (reply c) + need s
}.

(** Putting [r] in the place of the hole's node. *)
Lemma filled_list c pre ln post r s : out_ok c -> reply c = pre ++ (ln, None) :: post ->
  Forall node_ok r -> (r.*1 = ln :: post.*1 \/ r.*1 = post.*1) ->
  flat_map node_tokens r = map TByte s ++ flat_map node_tokens post ->
  total_size r <= total_size post + need s -> total_size (pre ++ r) < reply_limit ->
  filled c (set_reply (pre ++ r) (total_size (pre ++ r)) (next_node c) c) ln s.
Proof.
  intros Hok Er Hr Hids Htok Hsz Hlim. pose proof (sent_before_hole c pre ln post Hok Er) as Hs.
  destruct Hok as [H1 H2 [H3 H3'] H4 H5]. rewrite Er in H2, H3, H3'. apply Forall_app in H2 as [Hpre _].
  assert (Hsub : NoDup (pre ++ r).*1 /\ forall x, x ∈ (pre ++ r).*1 -> x ∈ (pre ++ (ln, None) :: post).*1).
  { rewrite !fmap_app in *. cbn [fmap list_fmap fst] in *. destruct Hids as [-> | ->]; [done|]. split; [|intros x; rewrite !elem_of_app, elem_of_cons; tauto].
    apply list.NoDup_app in H3 as (Ha & Hx & Hy). apply list.NoDup_cons in Hy as [_ Hy]. apply list.NoDup_app.
    split; [done|]. split; [|done]. intros x Hxp Hxq. apply (Hx x Hxp). by right. }
  assert (Hni : (ln ∉ pre.*1) /\ (ln ∉ post.*1)).
  { rewrite fmap_app in H3. cbn in H3. apply list.NoDup_app in H3 as (_ & Hx & Hy). apply list.NoDup_cons in Hy as [Hy _].
    split; [|done]. intros Hp. apply (Hx ln Hp). by left. }
  split; try done.
  - split; cbn [buf reply reply_bytes sentlen next_node set_reply]; [done|by apply Forall_app|..|done|].
    + split; [apply Hsub|]. apply list.Forall_forall. intros n Hn.
      assert (Hin : n.1 ∈ (pre ++ (ln, None) :: post).*1) by (apply Hsub, list_elem_of_fmap; by exists n).
      apply list_elem_of_fmap in Hin as (m & -> & Hm). rewrite list.Forall_forall in H3'. by apply H3'.
    + split; [apply H5|]. destruct H5 as [H0 [H5|H5]]; [by left|]. right. unfold first_segment in *.
      cbn [buf reply set_reply]. rewrite Er in H5. destruct (buf c); [|done].
      destruct pre as [|[n [v|]] pre]; [change (sentlen c < 0) in H5; lia|done|change (sentlen c < 0) in H5; lia].
  - unfold pending, out_tokens. cbn [buf reply sentlen set_reply]. rewrite Er, !flat_map_app. cbn [flat_map node_tokens].
    rewrite Htok. change (THole ln :: [] ++ flat_map node_tokens post) with ([THole ln] ++ flat_map node_tokens post).
    cbn [app]. change (THole ln :: flat_map node_tokens post) with ([THole ln] ++ flat_map node_tokens post).
    rewrite !(app_assoc (map TByte (buf c))), (drop_app_le _ (map TByte s ++ _)), (drop_app_le _ ([THole ln] ++ _)) by done. rewrite !fill_app, fill_hole.
    destruct Hni as [Hni Hni']. rewrite !fill_id; [done|..].
    + intros H%hole_in_nodes. apply Hni', list_elem_of_fmap. by exists (ln, None).
    + intros H%subseteq_drop. apply elem_of_app in H as [H|H]; [by apply hole_not_byte in H|].
      apply hole_in_nodes in H. apply Hni, list_elem_of_fmap. by exists (ln, None).
  - cbn [reply set_reply]. rewrite Er, !total_size_app.
    change (total_size ((ln, None) :: post)) with (0 + total_size post). lia.
Qed.

Lemma hole_pending c ln : THole ln ∈ pending c -> (ln, None) ∈ reply c.
Proof.
  intros H%subseteq_drop. apply elem_of_app in H as [H|H]; [by apply hole_not_byte in H|]. by apply hole_in_nodes.
Qed.

Lemma filled_quiet c c1 c2 ln s : filled c c1 ln s -> quiet c1 c2 -> filled c c2 ln s.
Proof.
  intros [H1 H2 H3 H4 H5 H6 H7] Hq. split.
  - by eapply quiet_ok.
  - by rewrite (quiet_pending c1 c2).
  - by rewrite (quiet_accepts c1 c2).
  - by rewrite (q_fd _ _ Hq).
  - by rewrite (q_sent _ _ Hq).
  - by rewrite (q_next _ _ Hq).
  - by rewrite (q_reply _ _ Hq).
Qed.

Lemma setDeferred_spec c ln len : out_ok c -> THole ln ∈ pending c ->
  total_size (reply c) + need (hdr 42 len) < reply_limit ->
  exists c', setDeferredMultiBulkLength server c (Some ln) len = Some c' /\ filled c c' ln (hdr 42 len).
Proof.
  intros Hok Hin%hole_pending Hroom. unfold setDeferredMultiBulkLength. fold (hdr 42 len). set (lenstr := hdr 42 len) in *.
  destruct (oo_bytes c Hok) as [Hb Hb']. pose proof (need_pos lenstr) as [Hnp Hnl].
  destruct (split_node_spec ln (reply c) Hin (proj1 (oo_nodes c Hok))) as (pre & post & -> & Er).
  cbn [mbind option_bind]. cbv zeta.
  assert (Hl : 0 < zlen lenstr) by (unfold lenstr, hdr, crlf; zlia).
  pose proof (oo_blocks c Hok) as Hbl. rewrite Er in Hbl. apply Forall_app in Hbl as [Hpre Hpost].
  apply list.Forall_cons in Hpost as [_ Hpost]. rewrite Er, total_size_app in Hroom, Hb.
  change (total_size ((ln, None) :: post)) with (0 + total_size post) in Hroom, Hb.
  pose proof (total_size_nonneg _ Hpre). pose proof (total_size_nonneg _ Hpost).
  set (b := alloc_block server (zlen lenstr) lenstr).
  assert (Hsz : zlen lenstr <= bsize b <= need lenstr).
  { unfold b, need, alloc_block, PROTO_REPLY_CHUNK_BYTES, sizeof_clientReplyBlock. cbn [bsize].
    pose proof (usable_ok (zlen lenstr + 16)). pose proof (usable_mono (zlen lenstr + 16) (Z.max (16 * 1024) (zlen lenstr) + 16)). lia. }
  assert (Hnew : filled c (set_reply (pre ++ (ln, Some b) :: post) (u64 (reply_bytes c + bsize b)) (next_node c) c) ln lenstr).
  { replace (u64 (reply_bytes c + bsize b)) with (total_size (pre ++ (ln, Some b) :: post)).
    - apply (filled_list c pre ln post); try done; [by constructor; [cbn [node_ok]; change (bdata b) with lenstr; lia|]|by left|..].
      + change (total_size ((ln, Some b) :: post)) with (bsize b + total_size post). lia.
      + rewrite total_size_app. change (total_size ((ln, Some b) :: post)) with (bsize b + total_size post). lia.
    - rewrite total_size_app. change (total_size ((ln, Some b) :: post)) with (bsize b + total_size post). symmetry.
      rewrite uwrap_small; [lia|]. unfold urange, reply_limit, SIZE_MAX in *. lia. }
  assert (G : forall c1, filled c c1 ln lenstr -> exists c', asyncCloseClientOnOutputBufferLimitReached server c1 = Some c' /\ filled c c' ln lenstr).
  { intros c1 H1. destruct (oo_bytes c1 (fl_ok _ _ _ _ H1)) as [E1 E2].
    destruct (async_close_quiet c1) as (c2 & -> & Hq); [lia|]. exists c2. split; [done|]. by eapply filled_quiet. }
  destruct post as [|[n [next|]] post]; [by apply G| |by apply G].
  destruct ((_ >=? _) && (_ <? _)) eqn:E; [|by apply G]. zb. apply G.
  apply list.Forall_cons in Hpost as [Hn Hpost]. cbn [node_ok] in Hn.
  set (nb := Block (lenstr ++ bdata next) (bsize next)).
  assert (Et : total_size ((n, Some nb) :: post) = total_size ((n, Some next) :: post)) by done.
  replace (reply_bytes c) with (total_size (pre ++ (n, Some nb) :: post)) by (rewrite total_size_app, Et; lia).
  apply (filled_list c pre ln ((n, Some next) :: post)); try done.
  - constructor; [|done]. cbn [node_ok nb bdata bsize]. zlia.
  - by right.
  - cbn [flat_map node_tokens nb bdata]. by rewrite map_app, <- app_assoc.
  - lia.
  - rewrite total_size_app, Et. lia.
Qed.

Lemma addDeferred_spec c : out_ok c -> accepts c = true ->
  exists c', addDeferredMultiBulkLength c = (Some (next_node c), c') /\ out_ok c' /\
  pending c' = pending c ++ [THole (next_node c)] /\ accepts c' = true /\ fd c' = fd c /\ sent c' = sent c /\
  total_size (reply c') = total_size (reply c).
Proof.
  intros Hok Ha. unfold addDeferredMultiBulkLength. destruct (prepare_spec c) as (ok & c1 & -> & Hq & Ea).
  rewrite Ha in Ea. symmetry in Ea. apply andb_true_iff in Ea as [-> _]. cbn [negb].
  assert (Hok1 : out_ok c1) by (by eapply quiet_ok). destruct (oo_bytes c1 Hok1) as [Hb Hb'].
  assert (Es : total_size (reply c1 ++ [(next_node c1, None)]) = total_size (reply c1))
    by (rewrite total_size_app; change (total_size [(next_node c1, None)]) with 0; lia).
  rewrite <- (q_next _ _ Hq). eexists. split; [done|].
  set (c2 := set_reply _ _ _ _).
  assert (Hok2 : out_ok c2).
  { subst c2. rewrite Hb, <- Es. apply (out_ok_list c1 (reply c1) (Some (next_node c1, None)) (next_node c1 + 1)); try done.
    - apply (oo_blocks c1 Hok1).
    - right. by exists None.
    - change (total_size (reply c1 ++ [(next_node c1, None)]) < reply_limit). lia. }
  split; [done|]. split; [|split; [|split; [|split]]].
  - rewrite <- (quiet_pending c c1) by done. apply pending_grow; [done..|]. unfold out_tokens, c2. cbn [buf reply set_reply].
    by rewrite flat_map_snoc, app_assoc.
  - change (accepts c1 = true). by rewrite (quiet_accepts c c1).
  - by rewrite <- (q_fd _ _ Hq).
  - by rewrite <- (q_sent _ _ Hq).
  - cbn [c2 reply set_reply]. by rewrite Es, (q_reply _ _ Hq).
Qed.

Lemma fresh_hole c : out_ok c -> THole (next_node c) ∉ pending c.
Proof.
  intros Hok H%hole_pending. destruct (oo_nodes c Hok) as [_ Hn]. rewrite list.Forall_forall in Hn.
  apply Hn in H. cbn in H. lia.
Qed.

Definition status (s : bytes) : list bytes := [str "+"; s; crlf].

Lemma add_statuses_emits help : emits (fun c => add_statuses server c help) (flat_map status help).
Proof.
  induction help as [|h help IH]; [apply emits_nil|]. cbn [flat_map].
  apply (emits_seq (fun c => addReplyStatus server c h)); [apply addReplyStatus_emits|done].
Qed.

(** A reply whose length comes last. *)
Lemma deferred_reply c f ss len : out_ok c -> accepts c = true -> emits f ss ->
  total_size (reply c) + needs ss + need (hdr 42 len) < reply_limit ->
  let '(ln, c1) := addDeferredMultiBulkLength c in
  exists c2 c', f c1 = Some c2 /\ setDeferredMultiBulkLength server c2 ln len = Some c' /\ out_ok c' /\
    pending c' = pending c ++ map TByte (hdr 42 len ++ concat ss) /\ sent c' = sent c.
Proof.
  intros Hok Ha Hf Hroom. destruct (addDeferred_spec c Hok Ha) as (c1 & -> & Hok1 & Hp1 & Ha1 & _ & Hs1 & Ht1).
  pose proof (need_pos (hdr 42 len)) as [Hnp _]. destruct (Hf c1) as (c2 & E2 & H2); [done|lia|].
  pose proof (qd_pending _ _ _ _ H2) as Hp2. rewrite Ha1, Hp1 in Hp2.
  destruct (setDeferred_spec c2 (next_node c) len) as (c' & E' & H').
  - apply H2.
  - rewrite Hp2, !elem_of_app, list_elem_of_singleton. auto.
  - pose proof (qd_room _ _ _ _ H2). lia.
  - exists c2, c'. split; [done|]. split; [done|]. split; [apply H'|]. split.
    + rewrite (fl_pending _ _ _ _ H'), Hp2, !fill_app, fill_hole, map_app, <- app_assoc.
      rewrite !fill_id; [done|apply hole_not_byte|by apply fresh_hole].
    + by rewrite (fl_sent _ _ _ _ H'), (qd_sent _ _ _ _ H2).
Qed.

Lemma addReplyHelp_spec c argv0 help : 
  let head := map toupper argv0 ++ str " <subcommand> arg arg ... arg. Subcommands are:" in
  let ss := flat_map status (head :: help) in
  out_ok c -> accepts c = true -> total_size (reply c) + needs ss + need (hdr 42 (zlen help + 1)) < reply_limit ->
  exists c', addReplyHelp server c argv0 help = Some c' /\ out_ok c' /\
    pending c' = pending c ++ map TByte (hdr 42 (zlen help + 1) ++ concat ss) /\ sent c' = sent c.
Proof.
  intros head ss Hok Ha Hroom.
  pose proof (deferred_reply c (fun c => c ← addReplyStatusFormat server c head; add_statuses server c help) ss (zlen help + 1) Hok Ha) as D.
  destruct (addDeferredMultiBulkLength c) as [ln c1] eqn:Ed.
  destruct D as (c2 & c' & E2 & E' & Hok' & Hp & Hs); [|done|].
  - apply (emits_seq (fun c => addReplyStatusFormat server c head)); [apply addReplyStatus_emits|apply add_statuses_emits].
  - exists c'. split; [|done]. unfold addReplyHelp. rewrite Ed. fold head.
    apply bind_Some_inv in E2 as (c3 & E3 & E4).
    rewrite E3. cbn [mbind option_bind]. rewrite E4. exact E'.
Qed.

(** ** Writing *)

Definition no_holes (r : list (Z * option clientReplyBlock)) : Prop := Forall (fun n => n.2 <> None) r.

Definition node_bytes (n : Z * option clientReplyBlock) : bytes :=
  match n with (_, Some b) => bdata b | (_, None) => [] end.
Definition unsent (c : oclient) : bytes := drop (Z.to_nat (sentlen c)) (buf c ++ flat_map node_bytes (reply c)).

Lemma pending_unsent c : no_holes (reply c) -> pending c = map TByte (unsent c).
Proof.
  intros Hn. unfold pending, unsent, out_tokens. rewrite <- skipn_map, map_app. do 2 f_equal.
  induction Hn as [|[n [b|]] r Hh _ IH]; [done| |done]. cbn [flat_map node_tokens node_bytes]. by rewrite map_app, IH.
Qed.

Lemma skip_empty_blocks_ok r n : Forall node_ok r -> no_holes r -> skip_empty_blocks r n = Some (r, n).
Proof.
  intros Hr Hh. destruct r as [|[ln [b|]] r]; [done|..]; [|by inversion Hh].
  apply list.Forall_cons in Hr as [Hb _]. cbn [node_ok] in Hb. cbn [skip_empty_blocks]. by zdec.
Qed.

Lemma set_reply_id c : set_reply (reply c) (reply_bytes c) (next_node c) c = c.
Proof. by destruct c. Qed.

(** One write from the segment [b]; [R] is the rest of the queue. *)
Lemma do_write_spec n b c R : 0 < n -> 0 <= sentlen c < zlen b ->
  unsent c = drop (Z.to_nat (sentlen c)) (b ++ R) ->
  let '(nw, c1) := do_write n b c in
  0 < nw /\ sentlen c1 = sentlen c + nw /\ sentlen c1 <= zlen b /\ zlen (sent c1) = zlen (sent c) + nw /\
  sent c1 ++ drop (Z.to_nat (sentlen c1)) (b ++ R) = sent c ++ unsent c /\
  set_sentlen (sentlen c) (set_sent (sent c) c1) = c.
Proof.
  intros Hn Hs Hu. unfold do_write. set (nw := Z.min n (zlen b - sentlen c)). assert (Hnw : 0 < nw <= zlen b - sentlen c) by lia.
  split; [lia|]. cbn [sentlen set_sentlen set_sent sent]. split; [done|]. split; [lia|].
  assert (Hlen : (length (take (Z.to_nat nw) (drop (Z.to_nat (sentlen c)) b)) = Z.to_nat nw)%nat).
  { rewrite length_take, length_drop. unfold zlen in *. lia. }
  split; [rewrite zlen_app; unfold zlen at 2; lia|]. split; [|by destruct c].
  rewrite Hu, !drop_app_le by (unfold zlen in *; lia). rewrite <- app_assoc. f_equal. rewrite app_assoc. f_equal.
  rewrite Z2Nat.inj_add, <- drop_drop by lia. apply take_drop.
Qed.

Record wrote (c c' : oclient) (k : Z) : Prop := {
  wr_ok : out_ok c';
  wr_holes : no_holes (reply c');
  wr_stream : sent c' ++ unsent c' = sent c ++ unsent c;
  wr_count : 0 <= k /\ zlen (sent c') = zlen (sent c) + k;
  wr_flags : flags c' = flags c /\ fd c' = fd c
}.

Lemma wrote_trans c1 c2 c3 k k' : wrote c1 c2 k -> wrote c2 c3 k' -> wrote c1 c3 (k + k').
Proof.
  intros [A1 A2 A3 A4 A5] [B1 B2 B3 B4 B5]. split; try done; [congruence|lia|].
  destruct A5, B5. split; congruence.
Qed.

Lemma wrote_refl c : out_ok c -> no_holes (reply c) -> wrote c c 0.
Proof. intros. split; try done. lia. Qed.

(** One iteration that writes from the static buffer. *)
Lemma write_buf_step n c : out_ok c -> no_holes (reply c) -> 0 < n -> 0 < zlen (buf c) ->
  let '(nw, c1) := do_write n (buf c) c in
  let c2 := if sentlen c1 =? zlen (buf c1) then set_sentlen 0 (set_buf [] c1) else c1 in
  0 < nw /\ wrote c c2 nw.
Proof.
  intros Hok Hh Hn Hb. destruct (oo_sent c Hok) as [H0 Hs].
  assert (Hseg : first_segment c = buf c) by (unfold first_segment; by destruct (buf c)). rewrite Hseg in Hs.
  pose proof (do_write_spec n (buf c) c (flat_map node_bytes (reply c)) Hn ltac:(lia) eq_refl) as D.
  destruct (do_write n (buf c) c) as [nw c1] eqn:Ed. destruct D as (Hnw & Hs1 & Hle & Hcnt & Hst & Heq).
  assert (Hf : buf c1 = buf c /\ reply c1 = reply c /\ reply_bytes c1 = reply_bytes c /\ next_node c1 = next_node c /\
    flags c1 = flags c /\ fd c1 = fd c) by (rewrite <- Heq; done).
  destruct Hf as (F1 & F2 & F3 & F4 & F5 & F6). cbv zeta. rewrite F1.
  split; [done|]. destruct Hok as [A1 A2 A3 A4 A5]. destruct (Z.eqb_spec (sentlen c1) (zlen (buf c))) as [E|E].
  - split; cbn [buf reply sentlen reply_bytes next_node sent flags fd set_sentlen set_buf]; try done; [..|lia].
    + split; cbn [buf reply sentlen reply_bytes next_node sent flags fd set_sentlen set_buf];
        [unfold PROTO_REPLY_CHUNK_BYTES; zlia|by rewrite F2|by rewrite F2, F4|by rewrite F2, F3|split; [lia|by left]].
    + by rewrite F2.
    + rewrite <- Hst. unfold unsent. cbn [buf reply sentlen set_sentlen set_buf]. rewrite F2, E, to_nat_zlen, drop_app_length. done.
  - split; try done; [..|lia].
    + split; [by rewrite F1|by rewrite F2|by rewrite F2, F4|by rewrite F2, F3|].
      split; [lia|]. right. unfold first_segment in *. rewrite F1, F2, Hseg. lia.
    + by rewrite F2.
    + rewrite <- Hst. unfold unsent. by rewrite F1, F2.
Qed.

(** One iteration that writes from the first block. *)
Lemma write_block_step n c ln o rest : out_ok c -> no_holes (reply c) -> 0 < n -> buf c = [] -> reply c = (ln, Some o) :: rest ->
  let '(nw, c1) := do_write n (bdata o) c in
  exists c2, (if sentlen c1 =? zlen (bdata o) then
      let c1 := set_sentlen 0 (set_reply rest (u64 (reply_bytes c1 - bsize o)) (next_node c1) c1) in
      if (zlen rest =? 0) && negb (reply_bytes c1 =? 0) then None else Some c1
    else Some c1) = Some c2 /\ 0 < nw /\ wrote c c2 nw.
Proof.
  intros Hok Hh Hn Hb Er. destruct (oo_sent c Hok) as [H0 Hs]. pose proof (oo_blocks c Hok) as Hbl. rewrite Er in Hbl, Hh.
  apply list.Forall_cons in Hbl as [Ho Hbl]. apply list.Forall_cons in Hh as [_ Hh]. cbn [node_ok] in Ho.
  assert (Hseg : first_segment c = bdata o) by (unfold first_segment; by rewrite Hb, Er). rewrite Hseg in Hs.
  pose proof (do_write_spec n (bdata o) c (flat_map node_bytes rest) Hn ltac:(lia)) as D.
  specialize (D ltac:(unfold unsent; by rewrite Hb, Er)).
  destruct (do_write n (bdata o) c) as [nw c1] eqn:Ed. destruct D as (Hnw & Hs1 & Hle & Hcnt & Hst & Heq).
  assert (Hf : buf c1 = buf c /\ reply c1 = reply c /\ reply_bytes c1 = reply_bytes c /\ next_node c1 = next_node c /\
    flags c1 = flags c /\ fd c1 = fd c) by (rewrite <- Heq; done).
  destruct Hf as (F1 & F2 & F3 & F4 & F5 & F6). rewrite Hb in F1. rewrite Er in F2.
  destruct Hok as [A1 A2 [A3 A3'] [A4 A4'] A5]. rewrite Er in A2, A3, A3', A4, A4'.
  change (total_size ((ln, Some o) :: rest)) with (bsize o + total_size rest) in A4, A4'.
  pose proof (total_size_nonneg _ Hbl) as Hpos.
  destruct (Z.eqb_spec (sentlen c1) (zlen (bdata o))) as [E|E]; cbv zeta.
  - cbn [reply_bytes set_sentlen set_reply].
    assert (Hu : u64 (reply_bytes c1 - bsize o) = total_size rest).
    { rewrite F3, A4. rewrite uwrap_small; [lia|]. unfold urange, reply_limit, SIZE_MAX in *. lia. }
    rewrite Hu. eexists. split.
    { destruct rest as [|n0 rest]; [done|]. by rewrite (proj2 (Z.eqb_neq (zlen (n0 :: rest)) 0)) by zlia. }
    split; [done|]. split; cbn [buf reply sentlen reply_bytes next_node sent flags fd set_sentlen set_reply]; try done; [..|lia].
    + split; cbn [buf reply sentlen reply_bytes next_node sent flags fd set_sentlen set_reply];
        [rewrite F1; unfold PROTO_REPLY_CHUNK_BYTES; zlia|done| |lia|split; [lia|by left]].
      rewrite F4. cbn in A3. apply list.NoDup_cons in A3 as [_ A3]. apply list.Forall_cons in A3' as [_ A3']. done.
    + rewrite <- Hst. unfold unsent. cbn [buf reply sentlen set_sentlen set_reply]. by rewrite F1, E, to_nat_zlen, drop_app_length.
  - eexists. split; [done|]. split; [done|]. split; try done; [..|lia].
    + split; [by rewrite F1, <- Hb|by rewrite F2|by rewrite F2, F4|by rewrite F2, F3|].
      split; [lia|]. right. unfold first_segment. rewrite F1, F2. cbn [first_block]. lia.
    + rewrite F2. by constructor.
    + rewrite <- Hst. unfold unsent. by rewrite F1, F2.
Qed.

Definition accepting (r : write_result) : Prop := match r with WN n => 0 < n | _ => False end.

(** What a call that stops without error has achieved: everything, or its share. *)
Definition served (c' : oclient) (tot' : Z) : Prop := unsent c' = [] \/ NET_MAX_WRITES_PER_EVENT < tot'.

Lemma wrote_unsent c c' k : wrote c c' k -> zlen (unsent c') = zlen (unsent c) - k.
Proof. intros [_ _ H [_ Hk] _]. apply (f_equal zlen) in H. rewrite !zlen_app in H. lia. Qed.

Lemma nothing_pending c : clientHasPendingReplies c = false -> buf c = [] /\ reply c = [].
Proof.
  unfold clientHasPendingReplies. intros H. zb. by split; apply zlen_0_nil.
Qed.

Lemma unsent_nil c : out_ok c -> no_holes (reply c) -> unsent c = [] -> clientHasPendingReplies c = false.
Proof.
  intros Hok Hh Hu. apply (f_equal length) in Hu. unfold unsent in Hu. rewrite length_drop, length_app in Hu. cbn in Hu.
  destruct (oo_sent c Hok) as [H0 Hs]. unfold first_segment in Hs. unfold clientHasPendingReplies.
  destruct (buf c) as [|x b]; [|unfold zlen in Hs; cbn [length] in *; lia].
  pose proof (oo_blocks c Hok) as Hb. destruct (reply c) as [|[ln [o|]] r]; [done|..]; [|by inversion Hh].
  apply list.Forall_cons in Hb as [Ho _]. cbn [node_ok first_block flat_map node_bytes] in *.
  rewrite length_app in Hu. unfold zlen in *. cbn [length] in Hu. lia.
Qed.

Lemma write_loop_spec rs : forall c tot, out_ok c -> no_holes (reply c) -> exists failed tot' c',
  write_loop server rs c tot = Some (failed, tot', c') /\ wrote c c' (tot' - tot) /\
  (failed = true -> WErr ∈ rs) /\
  (Forall accepting rs -> zlen (unsent c) <= zlen rs -> failed = false /\ served c' tot').
Proof.
  induction rs as [|r rs IH]; intros c tot Hok Hh; cbn [write_loop].
  all: replace (if zlen (buf c) >? 0 then Some (reply c, reply_bytes c) else skip_empty_blocks (reply c) (reply_bytes c))
    with (Some (reply c, reply_bytes c)) by (rewrite skip_empty_blocks_ok by (done || apply (oo_blocks c Hok)); by case_match).
  all: cbn [mbind option_bind]; cbv zeta; rewrite set_reply_id.
  all: destruct (clientHasPendingReplies c) eqn:Hp; cbn [negb].
  2, 4: apply nothing_pending in Hp as [Hb Hr]; exists false, tot, c; (split; [done|]); rewrite Z.sub_diag;
    (split; [by apply wrote_refl|]); (split; [done|]); intros _ _; (split; [done|]); left; unfold unsent; rewrite Hb, Hr; apply drop_nil.
  { exists false, tot, c. split; [done|]. rewrite Z.sub_diag. split; [by apply wrote_refl|]. split; [done|].
    intros _ Hz. split; [done|]. left. apply zlen_0_nil. pose proof (zlen_nonneg (unsent c)). change (zlen []) with 0 in Hz. lia. }
  assert (Hstop : wrote c c (tot - tot)) by (rewrite Z.sub_diag; by apply wrote_refl).
  destruct r as [n| |].
  2: { exists false, tot, c. split; [done|]. split; [done|]. split; [done|]. intros Ha. by inversion Ha. }
  2: { exists true, tot, c. split; [done|]. split; [done|]. split; [by left|]. intros Ha. by inversion Ha. }
  destruct (Z.leb_spec n 0) as [Hn|Hn].
  { exists false, tot, c. split; [done|]. split; [done|]. split; [done|]. intros Ha.
    apply list.Forall_cons in Ha as [Ha _]. cbn in Ha. lia. }
  (* the end of an iteration that wrote [nw] bytes *)
  assert (Hend : forall c2 nw, 0 < nw -> wrote c c2 nw -> exists failed tot' c',
    (if (tot + nw >? NET_MAX_WRITES_PER_EVENT) && below_maxmemory server && negb (has c CLIENT_SLAVE)
     then Some (false, tot + nw, c2) else write_loop server rs c2 (tot + nw)) = Some (failed, tot', c') /\
    wrote c c' (tot' - tot) /\ (failed = true -> WErr ∈ WN n :: rs) /\
    (Forall accepting (WN n :: rs) -> zlen (unsent c) <= zlen (WN n :: rs) -> failed = false /\ served c' tot')).
  { intros c2 nw Hnw Hw. destruct ((_ >? _) && _ && _) eqn:El.
    - exists false, (tot + nw), c2. split; [done|]. replace (tot + nw - tot) with nw by lia. split; [done|].
      split; [done|]. intros _ _. split; [done|]. right. zb. done.
    - destruct (IH c2 (tot + nw)) as (failed & tot' & c' & -> & Hw' & Hf & Hs); [apply Hw|apply Hw|].
      exists failed, tot', c'. split; [done|]. replace (tot' - tot) with (nw + (tot' - (tot + nw))) by lia.
      split; [by eapply wrote_trans|]. split; [intros; right; auto|]. intros Ha Hz. apply list.Forall_cons in Ha as [_ Ha].
      apply Hs; [done|]. rewrite (wrote_unsent _ _ _ Hw). rewrite zlen_cons in Hz. lia. }
  rewrite Z.gtb_ltb. destruct (Z.ltb_spec 0 (zlen (buf c))) as [Hb|Hb].
  - pose proof (write_buf_step n c Hok Hh Hn Hb) as Hw. destruct (do_write n (buf c) c) as [nw c1].
    destruct Hw as [Hnw Hw]. by apply Hend.
  - assert (Eb : buf c = []) by (apply zlen_0_nil; pose proof (zlen_nonneg (buf c)); lia).
    destruct (reply c) as [|[ln [o|]] rest] eqn:Er; [|..|by inversion Hh].
    { unfold clientHasPendingReplies in Hp. by rewrite Eb, Er in Hp. }
    assert (Hh' : no_holes (reply c)) by (by rewrite Er).
    pose proof (write_block_step n c ln o rest Hok Hh' Hn Eb Er) as Hw. destruct (do_write n (bdata o) c) as [nw c1].
    destruct Hw as (c2 & E2 & Hnw & Hw). cbv zeta in E2. rewrite E2. cbn [mbind option_bind]. by apply Hend.
Qed.
End Output.

(** * Properties *)

(** An error message on one line: carriage returns and line feeds become spaces. *)
Definition one_line (s : bytes) : bytes := map (fun b => if (b =? 13) || (b =? 10) then 32 else b) s.

(** What an error reply starts with: the caller's code when the message starts with '-'. *)
Definition error_code (s : bytes) : list bytes := match s with 45 :: _ => [] | _ => [str "-ERR "] end.

Lemma error_code_spec s : error_code s = if (zlen s =? 0) || negb (default 0 (head s) =? 45) then [str "-ERR "] else [].
Proof.
  destruct s as [|x s]; [done|]. rewrite zlen_cons. pose proof (zlen_nonneg s). rewrite (proj2 (Z.eqb_neq (1 + zlen s) 0)) by lia.
  cbn [orb head default]. cbn. destruct (Z.eqb_spec x 45) as [->|Hn]; [done|]. cbn.
  destruct x as [|p|p]; try done. repeat (destruct p as [p|p|]; try done).
Qed.

Lemma error_code_one_line s : error_code (one_line s) = error_code s.
Proof.
  rewrite !error_code_spec. unfold one_line, zlen. rewrite length_map. f_equal. f_equal. f_equal. destruct s as [|x s]; [done|]. cbn.
  destruct (Z.eqb_spec x 13) as [->|]; [done|]. by destruct (Z.eqb_spec x 10) as [->|].
Qed.

(** C28. The reply functions speak RESP whatever the state of the buffers: each queues exactly its
    protocol text behind everything queued before, or nothing when the client takes no replies,
    across the static buffer, the room left in the last block and new blocks; bulk lengths are the
    lengths of the payloads.  An error reply is preceded by "-ERR " unless the message brings its
    own code, and a formatted one is always one line.  Two calls are outside the protocol: the
    bulk reply of an integer object LONG_MIN, whose length is computed with an overflowing
    negation, and a negative multi bulk length, which indexes the shared headers before their
    start. *)
Theorem replies_are_resp (server : oserver) (s : bytes) (o : robj) (n : Z) :
  (forall n, 0 <= n -> n <= zmalloc_usable server n) ->
  (forall n m, 0 <= n <= m -> zmalloc_usable server n <= zmalloc_usable server m) ->
  zlen s < 2 ^ 63 -> srange 64 n -> obj_ok o -> zlen (obj_text o) < 2 ^ 63 ->
  emits server (fun c => addReply server c o) [obj_text o] /\
  emits server (fun c => addReplyLongLong server c n) [hdr 58 n] /\
  (if n <? 0 then forall c, addReplyMultiBulkLen server c n = None
   else emits server (fun c => addReplyMultiBulkLen server c n) [hdr 42 n]) /\
  (o <> OInt INT64_MIN ->
   emits server (fun c => addReplyBulk server c o) [hdr 36 (zlen (obj_text o)); obj_text o; crlf]) /\
  (forall c, addReplyBulk server c (OInt INT64_MIN) = None) /\
  emits server (fun c => addReplyBulkCBuffer server c s) [hdr 36 (zlen s); s; crlf] /\
  emits server (fun c => addReplyBulkSds server c s) [hdr 36 (zlen s); s; crlf] /\
  emits server (fun c => addReplyBulkCString server c (Some s)) [hdr 36 (zlen s); s; crlf] /\
  emits server (fun c => addReplyBulkCString server c None) [str "$-1" ++ crlf] /\
  emits server (fun c => addReplyBulkLongLong server c n) [hdr 36 (zlen (decimal n)); decimal n; crlf] /\
  emits server (fun c => addReplyStatus server c s) [str "+"; s; crlf] /\
  emits server (fun c => addReplyStatusFormat server c s) [str "+"; s; crlf] /\
  emits server (fun c => addReplyError server c s) (error_code s ++ [s; crlf]) /\
  emits server (fun c => addReplyErrorFormat server c s) (error_code s ++ [one_line s; crlf]) /\
  (13 ∉ one_line s) /\ (10 ∉ one_line s).
Proof.
  intros Hu Hm Hs Hn Ho Hol.
  assert (Herr : forall m, emits server (fun c => addReplyErrorLength server c m) (error_code m ++ [m; crlf])).
  { intros m. rewrite error_code_spec. pose proof (addReplyError_emits server Hu Hm m) as E. unfold addReplyError in E.
    destruct (_ || _); exact E. }
  split_and!.
  - by apply addReply_emits.
  - by apply addReplyLongLong_emits.
  - unfold srange in Hn. change (2 ^ (64 - 1)) with (2 ^ 63) in Hn. destruct (Z.ltb_spec n 0).
    + intros c. unfold addReplyMultiBulkLen, shared_hdr. unfold OBJ_SHARED_BULKHDR_LEN.
      rewrite (proj2 (Z.ltb_lt n 32)), (proj2 (Z.leb_gt 0 n)) by lia. done.
    + apply addReplyMultiBulkLen_emits; [done..|lia].
  - intros Hne. by apply addReplyBulk_emits.
  - done.
  - by apply addReplyBulkCBuffer_emits.
  - by apply addReplyBulkSds_emits.
  - by apply addReplyBulkCBuffer_emits.
  - by apply (addReply_emits server Hu Hm (OStr (str "$-1" ++ crlf))).
  - unfold addReplyBulkLongLong. rewrite (ll2string_bytes_spec server Hu Hm) by (done || lia). apply addReplyBulkCBuffer_emits; [done..|].
    pose proof (decimal_le20 n Hn). lia.
  - by apply addReplyStatus_emits.
  - by apply addReplyStatus_emits.
  - by apply Herr.
  - rewrite <- error_code_one_line. apply (Herr (one_line s)).
  - unfold one_line. intros (x & E & _)%list_elem_of_fmap. destruct (Z.eqb_spec x 13); [done|]. destruct (Z.eqb_spec x 10); done.
  - unfold one_line. intros (x & E & _)%list_elem_of_fmap. destruct (Z.eqb_spec x 13); [done|]. destruct (Z.eqb_spec x 10); done.
Qed.

(** A server without output limits whose allocator rounds up to 16 bytes. *)
Definition server0 : oserver := OServer 100 (fun _ => Limits 0 0 0) true (fun n => (n + 15) / 16 * 16).
Definition client0 : oclient := OClient 7 0 true [] [] 0 0 0 0 [].

Lemma server0_usable : (forall n, 0 <= n -> n <= zmalloc_usable server0 n) /\
  (forall n m, 0 <= n <= m -> zmalloc_usable server0 n <= zmalloc_usable server0 m).
Proof. cbn. split; intros; dlia. Qed.

Lemma client0_ok : out_ok client0.
Proof. split; [done|constructor|split; constructor|done|split; [done|by left]]. Qed.

Lemma replies_are_resp_witness :
  emits server0 (fun c => addReplyBulk server0 c (OInt (-42))) [hdr 36 3; str "-42"; crlf] /\
  emits server0 (fun c => addReplyErrorFormat server0 c (str "-BUSY a" ++ [10])) [str "-BUSY a "; crlf].
Proof.
  destruct server0_usable as [Hu Hm].
  destruct (replies_are_resp server0 (str "-BUSY a" ++ [10]) (OInt (-42)) 0 Hu Hm) as (_ & _ & _ & Hb & _ & _ & _ & _ & _ & _ & _ & _ & _ & He & _);
    [done|vm_compute; by split|vm_compute; by split|done|].
  split; [exact (Hb ltac:(done))|exact He].
Defined.

(** A multi-bulk reply whose length is only known at the end comes out with its length in
    front: a deferred length, any replies and the length set last queue the header followed by
    the replies, whether the header goes into its own block or in front of the next one. *)
Theorem deferred_length_first (server : oserver) c f ss len :
  (forall n, 0 <= n -> n <= zmalloc_usable server n) ->
  (forall n m, 0 <= n <= m -> zmalloc_usable server n <= zmalloc_usable server m) ->
  out_ok c -> accepts c = true -> emits server f ss ->
  total_size (reply c) + needs server ss + need server (hdr 42 len) < reply_limit ->
  let '(ln, c1) := addDeferredMultiBulkLength c in
  exists c2 c', f c1 = Some c2 /\ setDeferredMultiBulkLength server c2 ln len = Some c' /\ out_ok c' /\
    pending c' = pending c ++ map TByte (hdr 42 len ++ concat ss) /\ sent c' = sent c.
Proof. intros Hu Hm. by apply deferred_reply. Qed.

Lemma deferred_length_first_witness :
  let '(ln, c1) := addDeferredMultiBulkLength client0 in
  exists c2 c', addReplyStatus server0 c1 (str "OK") = Some c2 /\
    setDeferredMultiBulkLength server0 c2 ln 1 = Some c' /\ out_ok c' /\
    pending c' = map TByte (str "*1" ++ crlf ++ str "+OK" ++ crlf) /\ sent c' = [].
Proof.
  apply (deferred_length_first server0 client0 (fun c => addReplyStatus server0 c (str "OK")) [str "+"; str "OK"; crlf] 1);
    [apply server0_usable..|exact client0_ok|done|apply addReplyStatus_emits; apply server0_usable|done].
Defined.

(** C14. Whatever the socket accepts, [writeToClient] sends the queue in order and loses nothing:
    what was sent followed by what is left is always the same stream, no assertion fails, the
    client is freed only after a write error or, when it is to be closed, once its queue is empty,
    and if every write takes something the call ends with an empty queue or after its share of
    bytes. *)
Theorem writeToClient_stream (server : oserver) rs c :
  (forall n, 0 <= n -> n <= zmalloc_usable server n) ->
  (forall n m, 0 <= n <= m -> zmalloc_usable server n <= zmalloc_usable server m) ->
  out_ok c -> no_holes (reply c) ->
  exists valid c', writeToClient server rs c = Some (valid, c') /\ out_ok c' /\
    sent c' ++ unsent c' = sent c ++ unsent c /\ zlen (sent c) <= zlen (sent c') /\
    (valid = false -> WErr ∈ rs \/ has c CLIENT_CLOSE_AFTER_REPLY = true /\ unsent c' = []) /\
    (Forall accepting rs -> zlen (unsent c) <= zlen rs ->
       unsent c' = [] /\ valid = negb (has c CLIENT_CLOSE_AFTER_REPLY) \/
       zlen (sent c) + NET_MAX_WRITES_PER_EVENT < zlen (sent c')).
Proof.
  intros Hu Hm Hok Hh. destruct (write_loop_spec server Hu Hm rs c 0 Hok Hh) as (failed & tot & c1 & E & Hw & Hf & Hs).
  unfold writeToClient. rewrite E. cbn [mbind option_bind]. rewrite Z.sub_0_r in Hw.
  destruct Hw as [Hok1 Hh1 Hst [Hk Hcnt] [Hfl Hfd]]. destruct failed.
  { exists false, c1. split; [done|]. split; [done|]. split; [done|]. split; [lia|]. split; [by left; apply Hf|].
    intros Ha Hz. by destruct (Hs Ha Hz). }
  destruct (clientHasPendingReplies c1) eqn:Hp; cbn [negb].
  - exists true, c1. do 3 (split; [done|]). split; [lia|]. split; [done|]. intros Ha Hz. destruct (Hs Ha Hz) as [_ [Hun|Ht]]; [|right; lia].
    by rewrite (unsent_nil server Hu Hm c1) in Hp.
  - apply (nothing_pending server Hu Hm) in Hp as [Hb Hr]. assert (Hs0 : sentlen c1 = 0).
    { destruct (oo_sent c1 Hok1) as [H0 H1]. unfold first_segment in H1. rewrite Hb, Hr in H1. cbn in H1. unfold zlen in H1. cbn in H1. lia. }
    assert (Eid : set_sentlen 0 c1 = c1) by (destruct c1; cbn in Hs0; by subst). rewrite Eid.
    assert (Hun : unsent c1 = []) by (unfold unsent; rewrite Hb, Hr; apply drop_nil).
    exists (negb (has c1 CLIENT_CLOSE_AFTER_REPLY)), c1. do 3 (split; [done|]). split; [lia|].
    assert (Hhas : has c1 CLIENT_CLOSE_AFTER_REPLY = has c CLIENT_CLOSE_AFTER_REPLY) by (unfold has; by rewrite Hfl).
    rewrite Hhas. split; [|by left]. intros Hv. right. split; [|done]. by destruct (has c CLIENT_CLOSE_AFTER_REPLY).
Qed.

Definition client1 : oclient := OClient 7 0 true (str "+OK") [(3, Some (Block (str "$2") 16384))] 16384 1 0 9 (str "+").

Lemma client1_ok : out_ok client1.
Proof.
  split; [done|by repeat constructor|split; [apply list.NoDup_singleton|by repeat constructor]|done|split; [done|by right]].
Qed.

Lemma writeToClient_stream_witness : exists valid c',
  writeToClient server0 [WN 1; WN 100; WN 2; WN 1] client1 = Some (valid, c') /\ sent c' ++ unsent c' = str "+OK$2".
Proof.
  destruct (writeToClient_stream server0 [WN 1; WN 100; WN 2; WN 1] client1) as (v & c' & E & _ & Hs & _);
    [apply server0_usable..|exact client1_ok|by repeat constructor|]. exists v, c'. split; [exact E|exact Hs].
Defined.
