(* ===== verification/Query.v ===== *)
(** The input side of a client (networking.c): reading from the socket, the inline and the
    multi-bulk (RESP) parsers over the query buffer, the loop that executes commands, the offsets
    of a replication stream, and the printer of RESP commands used for the append only file
    (aof.c).

    The query buffer is its contents (an sds string: reading one byte past the end gives NUL).
    Command execution is a parameter: it receives the arguments and the output state of the client
    and says how it left them.  [None] is a failed assertion, a panic, an access outside the buffer
    or a use of a freed client.  [executed] and [fed] record the executed commands and the bytes
    forwarded to the replicas of this server. *)

From Stdlib Require Import String.
From S2P Require Import Prelude Util Sds SdsText Reply.
#[local] Open Scope list_scope.
#[local] Open Scope Z_scope.

Definition PROTO_INLINE_MAX_SIZE : Z := 1024 * 64.
Definition PROTO_IOBUF_LEN : Z := 1024 * 16.
Definition PROTO_MBULK_BIG_ARG : Z := 1024 * 32.
Definition PROTO_REQ_INLINE : Z := 1.
Definition PROTO_REQ_MULTIBULK : Z := 2.
Definition CLIENT_ASKING : Z := 9.

(** Strings represented by their contents, for [sdssplitargs]. *)
#[export] Instance contents_lib : StringLib bytes := {
  lib_newlen := fun b => Some b;
  lib_catlen := fun s b => Some (s ++ b);
  lib_holds := eq
}.

#[export] Instance contents_laws : StringLaws bytes.
Proof.
  split.
  - intros b _. by exists b.
  - intros s c b -> _. by exists (c ++ b).
Qed.

(** * State *)

Record client := Client {
  querybuf : bytes;
  qb_pos : Z;
  pending_querybuf : bytes;
  reqtype : Z;
  multibulklen : Z;
  bulklen : Z;
  argv : list bytes;            (* argc of them *)
  read_reploff : Z;
  reploff : Z;
  repl_ack_time : Z;
  out : oclient;
  executed : list (list bytes);
  fed : bytes
}.

Definition set_query (q : bytes) (p : Z) (c : client) : client :=
  Client q p (pending_querybuf c) (reqtype c) (multibulklen c) (bulklen c) (argv c) (read_reploff c) (reploff c)
    (repl_ack_time c) (out c) (executed c) (fed c).
Definition set_req (rt mb bl : Z) (av : list bytes) (c : client) : client :=
  Client (querybuf c) (qb_pos c) (pending_querybuf c) rt mb bl av (read_reploff c) (reploff c)
    (repl_ack_time c) (out c) (executed c) (fed c).
Definition set_out (o : oclient) (c : client) : client :=
  Client (querybuf c) (qb_pos c) (pending_querybuf c) (reqtype c) (multibulklen c) (bulklen c) (argv c) (read_reploff c)
    (reploff c) (repl_ack_time c) o (executed c) (fed c).
Definition set_repl (pq : bytes) (rr r : Z) (f : bytes) (c : client) : client :=
  Client (querybuf c) (qb_pos c) pq (reqtype c) (multibulklen c) (bulklen c) (argv c) rr r
    (repl_ack_time c) (out c) (executed c) f.
Definition set_ack_time (t : Z) (c : client) : client :=
  Client (querybuf c) (qb_pos c) (pending_querybuf c) (reqtype c) (multibulklen c) (bulklen c) (argv c) (read_reploff c)
    (reploff c) t (out c) (executed c) (fed c).
Definition set_executed (e : list (list bytes)) (c : client) : client :=
  Client (querybuf c) (qb_pos c) (pending_querybuf c) (reqtype c) (multibulklen c) (bulklen c) (argv c) (read_reploff c)
    (reploff c) (repl_ack_time c) (out c) e (fed c).

Definition hasc (c : client) (bit : Z) : bool := has (out c) bit.

(** How [processCommand] left things: its result is [C_OK], the output state with the flags, the
    command was ASKING, the client waits in a module, the client was freed
    ([server.current_client == NULL]). *)
Record cmd_result := CmdResult {
  cr_ok : bool; cr_out : oclient; cr_asking : bool; cr_module : bool; cr_freed : bool }.

Record qserver := QServer {
  osrv : oserver;
  proto_max_bulk_len : Z;
  client_max_querybuf_len : Z;
  clients_paused : bool;
  lua_timedout : bool
}.

Section Query.
Context (server : qserver) (processCommand : list bytes -> oclient -> cmd_result).

(** * The parsers *)

(** [strchr] on the C string at the start of [s]. *)
Fixpoint strchr (s : bytes) (ch : Z) : option Z :=
  match s with
  | [] => None
  | b :: s => if b =? ch then Some 0 else if b =? 0 then None else k ← strchr s ch; Some (k + 1)
  end.

(** [c->querybuf + c->qb_pos]. *)
Definition unparsed (c : client) : bytes := drop (Z.to_nat (qb_pos c)) (querybuf c).

(** [addReplyError(c,err); setProtocolError(..,c);] *)
Definition protocol_error (err : bytes) (c : client) : option client :=
  o ← addReplyError (osrv server) (out c) err;
  Some (set_out (set_flag CLIENT_CLOSE_AFTER_REPLY o) c).

(** [addReplyErrorFormat(c,...); setProtocolError(..,c);] *)
Definition protocol_error_format (err : bytes) (c : client) : option client :=
  o ← addReplyErrorFormat (osrv server) (out c) err;
  Some (set_out (set_flag CLIENT_CLOSE_AFTER_REPLY o) c).

(** The result is [true] for [C_OK]. *)
Definition processInlineBuffer (c : client) : option (bool * client) :=
  match strchr (unparsed c) 10 with
  | None =>
      if zlen (querybuf c) - qb_pos c >? PROTO_INLINE_MAX_SIZE then
        c ← protocol_error (str "Protocol error: too big inline request") c; Some (false, c)
      else Some (false, c)
  | Some newline =>
      '(newline, linefeed_chars) ←
        (if negb (newline =? 0) then
           b ← zget (unparsed c) (newline - 1);
           Some (if b =? 13 then (newline - 1, 2) else (newline, 1))
         else Some (newline, 1));
      let querylen := newline in
      aux ← zsub (unparsed c) 0 querylen;
      r ← sdssplitargs (S := bytes) aux;
      match r with
      | None => c ← protocol_error (str "Protocol error: unbalanced quotes in request") c; Some (false, c)
      | Some args =>
          let c := if (querylen =? 0) && (getClientType (out c) =? CLIENT_TYPE_SLAVE)
                   then set_ack_time (unixtime (osrv server)) c else c in
          let c := set_query (querybuf c) (qb_pos c + (querylen + linefeed_chars)) c in
          Some (true, set_req (reqtype c) (multibulklen c) (bulklen c) args c)
      end
  end.

(** A line ended by CR, with the byte after the CR in the buffer: the position of the CR.
    [Some None]: the line is not complete; [too_big] is the error for a line that is too long. *)
Definition find_line (too_big : bytes) (c : client) : option (option Z * client) :=
  match strchr (unparsed c) 13 with
  | None =>
      if zlen (querybuf c) - qb_pos c >? PROTO_INLINE_MAX_SIZE then
        c ← protocol_error too_big c; Some (None, c)
      else Some (None, c)
  | Some newline => if newline >? zlen (querybuf c) - qb_pos c - 2 then Some (None, c) else Some (Some newline, c)
  end.

(** One argument: its length line if unknown, then its bytes.  The result says whether the loop
    goes on ([true]), or stops to wait for data or after an error. *)
Definition read_bulklen (c : client) : option (bool * client) :=
  if bulklen c =? -1 then
    '(nl, c) ← find_line (str "Protocol error: too big bulk count string") c;
    match nl with
    | None => Some (false, c)
    | Some newline =>
        b ← zget (unparsed c) 0;
        if negb (b =? 36) then
          c ← protocol_error_format (str "Protocol error: expected '$', got '" ++ [b] ++ str "'") c; Some (false, c)
        else
          line ← zsub (unparsed c) 1 (newline - 1);
          let bad := c ← protocol_error (str "Protocol error: invalid bulk length") c; Some (false, c) in
          match string2ll line with
          | None => bad
          | Some ll =>
              if (ll <? 0) || (ll >? proto_max_bulk_len server) then bad
              else
                let c := set_query (querybuf c) (qb_pos c + newline + 2) c in
                let c :=
                  if ll >=? PROTO_MBULK_BIG_ARG then
                    if zlen (querybuf c) - qb_pos c <=? ll + 2 then set_query (unparsed c) 0 c else c
                  else c in
                Some (true, set_req (reqtype c) (multibulklen c) ll (argv c) c)
          end
    end
  else Some (true, c).

Definition read_bulk (c : client) : option (bool * client) :=
  '(go, c) ← read_bulklen c;
  if negb go then Some (false, c)
  else if zlen (querybuf c) - qb_pos c <? bulklen c + 2 then Some (false, c)
  else
    '(arg, c) ←
      (if (qb_pos c =? 0) && (bulklen c >=? PROTO_MBULK_BIG_ARG) && (zlen (querybuf c) =? bulklen c + 2) then
         arg ← zsub (querybuf c) 0 (zlen (querybuf c) - 2); Some (arg, set_query [] (qb_pos c) c)
       else
         arg ← zsub (unparsed c) 0 (bulklen c); Some (arg, set_query (querybuf c) (qb_pos c + (bulklen c + 2)) c));
    Some (true, set_req (reqtype c) (multibulklen c - 1) (-1) (argv c ++ [arg]) c).

(** [while(c->multibulklen)]; [n] is [multibulklen]. *)
Fixpoint multibulk_loop (n : nat) (c : client) : option client :=
  match n with
  | O => Some c
  | S n => '(go, c) ← read_bulk c; if go : bool then multibulk_loop n c else Some c
  end.

Definition processMultibulkBuffer (c : client) : option (bool * client) :=
  let args (c : client) : option (bool * client) :=
    if multibulklen c >? 0 then
      c ← multibulk_loop (Z.to_nat (multibulklen c)) c;
      Some (multibulklen c =? 0, c)
    else None in
  if multibulklen c =? 0 then
    if negb (zlen (argv c) =? 0) then None
    else
      '(nl, c) ← find_line (str "Protocol error: too big mbulk count string") c;
      match nl with
      | None => Some (false, c)
      | Some newline =>
          b ← zget (unparsed c) 0;
          if negb (b =? 42) then None
          else
            line ← zsub (unparsed c) 1 (newline - 1);
            let bad := c ← protocol_error (str "Protocol error: invalid multibulk length") c; Some (false, c) in
            match string2ll line with
            | None => bad
            | Some ll =>
                if ll >? 1024 * 1024 then bad
                else
                  let c := set_query (querybuf c) (qb_pos c + newline + 2) c in
                  if ll <=? 0 then Some (true, c)
                  else args (set_req (reqtype c) ll (bulklen c) (argv c) c)
            end
      end
  else args c.

(** * Executing *)

Definition clear_flag (bit : Z) (o : oclient) : oclient := set_flags (Z.clearbit (flags o) bit) o.

(** [asking]: the previous command was ASKING. *)
Definition resetClient (asking : bool) (c : client) : client :=
  let c := set_req 0 0 (-1) [] c in
  let o := out c in
  let o := if negb (has o CLIENT_MULTI) && negb asking then clear_flag CLIENT_ASKING o else o in
  let o := clear_flag CLIENT_REPLY_SKIP o in
  let o := if has o CLIENT_REPLY_SKIP_NEXT
           then clear_flag CLIENT_REPLY_SKIP_NEXT (set_flag CLIENT_REPLY_SKIP o) else o in
  set_out o c.

(** The conditions that leave the loop before a command is parsed. *)
Definition stopped (c : client) : bool :=
  (negb (hasc c CLIENT_SLAVE) && clients_paused server) || hasc c CLIENT_BLOCKED ||
  (lua_timedout server && hasc c CLIENT_MASTER) ||
  (hasc c CLIENT_CLOSE_AFTER_REPLY || hasc c CLIENT_CLOSE_ASAP).

(** Executes the parsed command; the result is [false] when the client was freed. *)
Definition run_command (c : client) : bool * client :=
  let r := processCommand (argv c) (out c) in
  let c := set_executed (executed c ++ [argv c]) (set_out (cr_out r) c) in
  let c :=
    if cr_ok r then
      let c := if hasc c CLIENT_MASTER && negb (hasc c CLIENT_MULTI)
               then set_repl (pending_querybuf c) (read_reploff c)
                      (read_reploff c - zlen (querybuf c) + qb_pos c) (fed c) c else c in
      if negb (hasc c CLIENT_BLOCKED) || negb (cr_module r) then resetClient (cr_asking r) c else c
    else c in
  (negb (cr_freed r), c).

(** [while(c->qb_pos < sdslen(c->querybuf))]; every iteration that goes on consumes input. *)
Fixpoint input_loop (fuel : nat) (c : client) : option (bool * client) :=
  match fuel with
  | O => None
  | S fuel =>
      if negb (qb_pos c <? zlen (querybuf c)) then Some (true, c)
      else if stopped c then Some (true, c)
      else
        c ← (if reqtype c =? 0 then
               b ← zget (unparsed c) 0;
               Some (set_req (if b =? 42 then PROTO_REQ_MULTIBULK else PROTO_REQ_INLINE)
                       (multibulklen c) (bulklen c) (argv c) c)
             else Some c);
        '(ok, c) ← (if reqtype c =? PROTO_REQ_INLINE then processInlineBuffer c
                    else if reqtype c =? PROTO_REQ_MULTIBULK then processMultibulkBuffer c
                    else None);
        if negb ok then Some (true, c)
        else if zlen (argv c) =? 0 then input_loop fuel (resetClient false c)
        else
          let '(alive, c) := run_command c in
          if negb alive then Some (false, c) else input_loop fuel c
  end.

Definition processInputBuffer (c : client) : option (bool * client) :=
  '(alive, c) ← input_loop (S (Z.to_nat (zlen (querybuf c) - qb_pos c))) c;
  let c := if (alive : bool) && negb (qb_pos c =? 0) then set_query (unparsed c) 0 c else c in
  Some (alive, c).

Definition processInputBufferAndReplicate (c : client) : option (bool * client) :=
  if negb (hasc c CLIENT_MASTER) then processInputBuffer c
  else
    let prev_offset := reploff c in
    '(alive, c) ← processInputBuffer c;
    if negb alive then None                 (* c->reploff of a freed client *)
    else
      let applied := u64 (reploff c - prev_offset) in
      if negb (applied =? 0) then
        s ← zsub (pending_querybuf c) 0 applied;
        Some (true, set_repl (drop (Z.to_nat applied) (pending_querybuf c)) (read_reploff c) (reploff c) (fed c ++ s) c)
      else Some (true, c).

(** * Reading *)

Inductive read_result := RData (d : bytes) | REof | RAgain | RErr.

Definition readlen (c : client) : Z :=
  if (reqtype c =? PROTO_REQ_MULTIBULK) && negb (multibulklen c =? 0) && negb (bulklen c =? -1) &&
     (bulklen c >=? PROTO_MBULK_BIG_ARG) then
    let remaining := bulklen c + 2 - zlen (querybuf c) in
    if (remaining >? 0) && (remaining <? PROTO_IOBUF_LEN) then remaining else PROTO_IOBUF_LEN
  else PROTO_IOBUF_LEN.

(** The result is [false] when the client was freed. *)
Definition readQueryFromClient (r : read_result) (c : client) : option (bool * client) :=
  match r with
  | RAgain => Some (true, c)
  | RErr | REof => Some (false, c)
  | RData d =>
      if (zlen d <=? 0) || (zlen d >? readlen c) then None
      else
        let c := set_query (querybuf c ++ d) (qb_pos c) c in
        let c := if hasc c CLIENT_MASTER
                 then set_repl (pending_querybuf c ++ d) (read_reploff c + zlen d) (reploff c) (fed c) c else c in
        if zlen (querybuf c) >? client_max_querybuf_len server then Some (false, c)
        else processInputBufferAndReplicate c
  end.
End Query.

(** * The printer *)

(** [prefix], the number and CRLF, assembled in the 32-byte buffer. *)
Definition count_line (prefix n : Z) : option bytes :=
  b ← zput (replicate 32 0) 0 [prefix];
  '(b1, len) ← ll2string (drop 1 b) 31 n;
  b ← zput b 1 b1;
  let len := 1 + len in
  b ← zput b len [13];
  b ← zput b (len + 1) [10];
  zsub b 0 (len + 2).

Fixpoint cat_args (dst : bytes) (argv : list bytes) : option bytes :=
  match argv with
  | [] => Some dst
  | o :: argv => h ← count_line 36 (zlen o); cat_args (dst ++ h ++ o ++ [13; 10]) argv
  end.

Definition catAppendOnlyGenericCommand (dst : bytes) (argv : list bytes) : option bytes :=
  h ← count_line 42 (zlen argv);
  cat_args (dst ++ h) argv.

(** * Lines *)

(** Bytes a [strchr] for [ch] passes over. *)
Definition skipped (ch : Z) (s : bytes) : Prop := Forall (fun b => b <> 0 /\ b <> ch) s.

Lemma strchr_app ch pre post : skipped ch pre -> strchr (pre ++ ch :: post) ch = Some (zlen pre).
Proof.
  induction 1 as [|b pre [Hb Hb'] _ IH]; cbn [app strchr]; [by rewrite Z.eqb_refl|].
  rewrite !(proj2 (Z.eqb_neq _ _)) by done. rewrite IH. cbn [mbind option_bind]. by rewrite zlen_cons, Z.add_comm.
Qed.

Lemma strchr_none ch s : skipped ch s -> strchr s ch = None.
Proof.
  induction 1 as [|b pre [Hb Hb'] _ IH]; [done|]. cbn [strchr]. rewrite !(proj2 (Z.eqb_neq _ _)) by done. by rewrite IH.
Qed.

Lemma strchr_Some ch s k : strchr s ch = Some k ->
  exists pre post, s = pre ++ ch :: post /\ zlen pre = k /\ skipped ch pre.
Proof.
  revert k. induction s as [|b s IH]; intros k H; [done|]. cbn [strchr] in H.
  destruct (Z.eqb_spec b ch) as [->|]; [injection H as <-; by exists [], s; repeat split; constructor|].
  destruct (Z.eqb_spec b 0); [done|]. apply bind_Some_inv in H as (k' & H & [= <-]).
  destruct (IH _ H) as (pre & post & -> & <- & Hs). exists (b :: pre), post.
  split; [done|]. split; [rewrite zlen_cons; lia|]. by constructor.
Qed.

(** * Safety *)

(** What a function that consumes input may change. *)
Record advance (c c' : client) : Prop := {
  av_pos : 0 <= qb_pos c' <= zlen (querybuf c');
  av_unparsed : exists x, unparsed c = x ++ unparsed c';
  av_len : zlen (querybuf c') <= zlen (querybuf c);
  av_pending : pending_querybuf c' = pending_querybuf c;
  av_offsets : read_reploff c' = read_reploff c /\ reploff c' = reploff c;
  av_history : executed c' = executed c /\ fed c' = fed c;
  av_master : hasc c' CLIENT_MASTER = hasc c CLIENT_MASTER
}.

Lemma advance_refl c : 0 <= qb_pos c <= zlen (querybuf c) -> advance c c.
Proof. intros. split; try done. by exists []. Qed.

Lemma advance_trans c1 c2 c3 : advance c1 c2 -> advance c2 c3 -> advance c1 c3.
Proof.
  intros [A1 [x A2] Al A3 [A4 A4'] [A5 A5'] A6] [B1 [y B2] Bl B3 [B4 B4'] [B5 B5'] B6].
  split; try done; try congruence; [|lia|split; congruence..]. exists (x ++ y). by rewrite A2, B2, app_assoc.
Qed.

Lemma zlen_unparsed c : 0 <= qb_pos c <= zlen (querybuf c) -> zlen (unparsed c) = zlen (querybuf c) - qb_pos c.
Proof. intros H. unfold unparsed, zlen in *. rewrite length_drop. lia. Qed.

Lemma unparsed_skip c k : 0 <= qb_pos c -> 0 <= k -> 
  unparsed (set_query (querybuf c) (qb_pos c + k) c) = drop (Z.to_nat k) (unparsed c).
Proof. intros Hp Hk. unfold unparsed. cbn [querybuf qb_pos set_query]. by rewrite drop_drop, Z2Nat.inj_add by lia. Qed.

Lemma unparsed_append c d : 0 <= qb_pos c <= zlen (querybuf c) -> unparsed (set_query (querybuf c ++ d) (qb_pos c) c) = unparsed c ++ d.
Proof. intros Hp. unfold unparsed. cbn [querybuf qb_pos set_query]. apply drop_app_le. unfold zlen in Hp. lia. Qed.

(** Moving [qb_pos] forward. *)
Lemma advance_skip c k : 0 <= qb_pos c -> 0 <= k <= zlen (querybuf c) - qb_pos c ->
  advance c (set_query (querybuf c) (qb_pos c + k) c).
Proof.
  intros Hp Hk. split; try done; [cbn [qb_pos querybuf set_query]; lia|].
  exists (take (Z.to_nat k) (unparsed c)). rewrite unparsed_skip by lia. by rewrite take_drop.
Qed.

(** Trimming the consumed part. *)
Lemma advance_trim c : 0 <= qb_pos c <= zlen (querybuf c) -> advance c (set_query (unparsed c) 0 c).
Proof.
  intros Hp. split; try done; [cbn; pose proof (zlen_nonneg (unparsed c)); lia|by exists []|].
  cbn [querybuf set_query]. rewrite zlen_unparsed by done. lia.
Qed.

(** Request fields are not part of the input. *)
Lemma advance_req c c' rt mb bl av : advance c c' -> advance c (set_req rt mb bl av c').
Proof. intros [A1 A2 A3 A4 A5 A6 A7]. by split. Qed.

(** The client is not going to parse before something else happens to it. *)
Definition frozen (c : client) : bool := hasc c CLIENT_BLOCKED || hasc c CLIENT_CLOSE_AFTER_REPLY.

(** The flags [resetClient] changes. *)
Lemma resetClient_out asking c : exists f, resetClient asking c = set_out (set_flags f (out c)) (set_req 0 0 (-1) [] c) /\
  (forall b, 0 <= b -> b <> CLIENT_ASKING -> b <> CLIENT_REPLY_SKIP -> b <> CLIENT_REPLY_SKIP_NEXT ->
     Z.testbit f b = Z.testbit (flags (out c)) b).
Proof.
  unfold resetClient. cbv zeta. cbn [out set_req]. set (o1 := if negb _ && negb _ then _ else _).
  assert (E1 : exists f, o1 = set_flags f (out c) /\ forall b, b <> CLIENT_ASKING -> Z.testbit f b = Z.testbit (flags (out c)) b).
  { subst o1. destruct (_ && _).
    - eexists. split; [done|]. intros b Hb. rewrite Z.clearbit_eqb. rewrite (proj2 (Z.eqb_neq CLIENT_ASKING b)) by congruence. apply andb_true_r.
    - exists (flags (out c)). split; [by destruct (out c)|done]. }
  destruct E1 as (f1 & -> & H1). set (o2 := if has _ _ then _ else _).
  assert (E2 : exists f, o2 = set_flags f (out c) /\ forall b, 0 <= b -> b <> CLIENT_ASKING -> b <> CLIENT_REPLY_SKIP ->
    b <> CLIENT_REPLY_SKIP_NEXT -> Z.testbit f b = Z.testbit (flags (out c)) b).
  { subst o2. destruct (has _ _); (eexists; split; [reflexivity|]); intros b Hb0 Hb1 Hb2 Hb3; cbn [flags set_flags set_flag clear_flag].
    - rewrite Z.clearbit_eqb, Z.setbit_eqb, Z.clearbit_eqb, H1 by done.
      rewrite !(proj2 (Z.eqb_neq _ b)) by congruence. cbn. by rewrite !andb_true_r.
    - rewrite Z.clearbit_eqb, H1 by done. rewrite (proj2 (Z.eqb_neq _ b)) by congruence. apply andb_true_r. }
  destruct E2 as (f & -> & H2). by exists f.
Qed.

Section Safety.
Context (server : qserver) (processCommand : list bytes -> oclient -> cmd_result).
Hypothesis usable_ok : forall n, 0 <= n -> n <= zmalloc_usable (osrv server) n.
Hypothesis usable_mono : forall n m, 0 <= n <= m -> zmalloc_usable (osrv server) n <= zmalloc_usable (osrv server) m.

Hypothesis max_len_ok : client_max_querybuf_len server < sds_limit.

(** The output counters have room for an error message. *)
Definition roomy (o : oclient) : Prop := total_size (reply o) + 3 * need (osrv server) [] < reply_limit.

(** What the parsing loop relies on: a command leaves the output well formed, with room unless it
    failed; a command fails only when it frees the client (never a master) or schedules it for
    closing; it does not turn the client into a master or back. *)
Class CommandLaws : Prop := {
  cl_out args o : out_ok o -> roomy o -> out_ok (cr_out (processCommand args o));
  cl_room args o : out_ok o -> roomy o -> cr_ok (processCommand args o) = true -> roomy (cr_out (processCommand args o));
  cl_master args o : has (cr_out (processCommand args o)) CLIENT_MASTER = has o CLIENT_MASTER;
  cl_failed args o : cr_ok (processCommand args o) = false ->
    cr_freed (processCommand args o) = true \/ has (cr_out (processCommand args o)) CLIENT_CLOSE_AFTER_REPLY = true;
  cl_freed args o : has o CLIENT_MASTER = true -> cr_freed (processCommand args o) = false
}.

Record query_ok (c : client) : Prop := {
  qk_pos : 0 <= qb_pos c <= zlen (querybuf c);
  qk_len : zlen (querybuf c) <= client_max_querybuf_len server;
  qk_req : reqtype c = 0 \/ reqtype c = PROTO_REQ_INLINE \/ reqtype c = PROTO_REQ_MULTIBULK;
  qk_mb : 0 <= multibulklen c /\ (0 < multibulklen c -> reqtype c = PROTO_REQ_MULTIBULK);
  qk_bulk : bulklen c = -1 \/ 0 <= bulklen c /\ 0 < multibulklen c;
  qk_out : out_ok (out c);
  qk_live : frozen c = true \/ roomy (out c) /\
    (multibulklen c = 0 -> argv c = [] /\ (reqtype c = PROTO_REQ_MULTIBULK -> exists t, unparsed c = 42 :: t))
}.

#[local] Set Default Proof Using "All".

Lemma need_small s : zlen s <= PROTO_REPLY_CHUNK_BYTES -> need (osrv server) s = need (osrv server) [].
Proof.
  intros Hs. unfold need, alloc_block. cbn [bsize]. change (zlen (@nil Z)) with 0.
  pose proof (zlen_nonneg s). unfold PROTO_REPLY_CHUNK_BYTES in *. by rewrite !Z.max_l by lia.
Qed.

Lemma error_emitted o err : out_ok o -> roomy o -> zlen err <= 1000 ->
  exists o', addReplyError (osrv server) o err = Some o' /\ out_ok o' /\
  (forall b, 0 <= b -> b <> CLIENT_PENDING_WRITE -> b <> CLIENT_CLOSE_ASAP -> has o' b = has o b).
Proof.
  intros Ho Hr He. unfold roomy in Hr. pose proof (addReplyError_emits (osrv server) usable_ok usable_mono err o Ho) as E.
  pose proof (need_pos (osrv server) usable_ok usable_mono []) as [Hp _].
  pose proof (need_small err) as N1. pose proof (need_small (str "-ERR ") ltac:(done)) as N2. pose proof (need_small crlf ltac:(done)) as N3.
  assert (G : forall ss, total_size (reply o) + needs (osrv server) ss < reply_limit ->
    (total_size (reply o) + needs (osrv server) ss < reply_limit -> exists c', addReplyError (osrv server) o err = Some c' /\
      queued o c' (map TByte (concat ss)) (needs (osrv server) ss)) ->
    exists o', addReplyError (osrv server) o err = Some o' /\ out_ok o' /\
    (forall b, 0 <= b -> b <> CLIENT_PENDING_WRITE -> b <> CLIENT_CLOSE_ASAP -> has o' b = has o b)).
  { intros ss Hss H. destruct (H Hss) as (o' & -> & Hq). exists o'. split; [done|]. split; apply Hq. }
  eapply G; [|exact E]. unfold needs. destruct ((zlen err =? 0) || _); cbn [foldr];
    rewrite ?N2, N3, N1 by (unfold PROTO_REPLY_CHUNK_BYTES; lia); lia.
Qed.

(** After a protocol error only the output has changed and the client is to be closed. *)
Record rejected (c c' : client) : Prop := {
  rj_same : c' = set_out (out c') c;
  rj_out : out_ok (out c');
  rj_close : hasc c' CLIENT_CLOSE_AFTER_REPLY = true;
  rj_master : hasc c' CLIENT_MASTER = hasc c CLIENT_MASTER
}.

Lemma rejected_flag c o : out_ok o ->
  (forall b, 0 <= b -> b <> CLIENT_PENDING_WRITE -> b <> CLIENT_CLOSE_ASAP -> has o b = hasc c b) ->
  rejected c (set_out (set_flag CLIENT_CLOSE_AFTER_REPLY o) c).
Proof.
  intros Ho Hf. split; [done| |by unfold hasc; cbn [out set_out]; rewrite has_set_flag|].
  - destruct Ho as [H1 H2 H3 H4 H5]. by split.
  - unfold hasc. cbn [out set_out]. rewrite has_set_flag by done. by apply Hf.
Qed.

Lemma protocol_error_spec err c : out_ok (out c) -> roomy (out c) -> zlen err <= 1000 ->
  exists c', protocol_error server err c = Some c' /\ rejected c c'.
Proof.
  intros Ho Hr He. destruct (error_emitted (out c) err) as (o & E & Ho' & Hf); [done..|].
  unfold protocol_error. rewrite E. eexists. split; [done|]. by apply rejected_flag.
Qed.

Lemma protocol_error_format_spec err c : out_ok (out c) -> roomy (out c) -> zlen err <= 1000 ->
  exists c', protocol_error_format server err c = Some c' /\ rejected c c'.
Proof.
  intros Ho Hr He. unfold protocol_error_format, addReplyErrorFormat.
  destruct (error_emitted (out c) (map (fun b => if (b =? 13) || (b =? 10) then 32 else b) err)) as (o & E & Ho' & Hf);
    [done|done|unfold zlen in *; by rewrite length_map|].
  unfold addReplyError in E. rewrite E. eexists. split; [done|]. by apply rejected_flag.
Qed.

Lemma rejected_advance c c' : 0 <= qb_pos c <= zlen (querybuf c) -> rejected c c' -> advance c c'.
Proof. intros Hp [E Ho Hc Hm]. rewrite E. split; try done. by exists []. Qed.

(** A client that was rejected is well formed whatever it was parsing. *)
Lemma rejected_ok c c' : 0 <= qb_pos c <= zlen (querybuf c) -> zlen (querybuf c) <= client_max_querybuf_len server ->
  reqtype c = PROTO_REQ_INLINE \/ reqtype c = PROTO_REQ_MULTIBULK ->
  0 <= multibulklen c /\ (0 < multibulklen c -> reqtype c = PROTO_REQ_MULTIBULK) ->
  bulklen c = -1 \/ 0 <= bulklen c /\ 0 < multibulklen c -> rejected c c' -> query_ok c'.
Proof.
  intros Hp Hl Hr Hm Hb [E Ho Hc _]. assert (Hf : frozen c' = true) by (unfold frozen; rewrite Hc; apply orb_true_r).
  rewrite E in Hf, Ho |- *. split; try done; [by right|by left].
Qed.

(** The state in which a line or an argument is looked for. *)
Record parsing (c : client) : Prop := {
  pa_pos : 0 <= qb_pos c <= zlen (querybuf c);
  pa_len : zlen (querybuf c) <= client_max_querybuf_len server;
  pa_mb : 0 <= multibulklen c;
  pa_out : out_ok (out c);
  pa_room : roomy (out c)
}.

(** A complete line: its bytes, CR, and one more byte. *)
Lemma find_line_spec err c : parsing c -> zlen err <= 1000 ->
  exists nl c', find_line server err c = Some (nl, c') /\
  match nl with
  | None => c' = c \/ rejected c c'
  | Some k => c' = c /\ 0 <= k /\ k + 2 <= zlen (unparsed c) /\
      exists pre post, unparsed c = pre ++ 13 :: post /\ zlen pre = k /\ skipped 13 pre
  end.
Proof.
  intros [Hp _ _ Ho Hr] He. unfold find_line. rewrite <- zlen_unparsed by done.
  destruct (strchr (unparsed c) 13) as [k|] eqn:E.
  - rewrite Z.gtb_ltb. destruct (Z.ltb_spec (zlen (unparsed c) - 2) k) as [Hk|Hk].
    + exists None, c. split; [done|by left].
    + exists (Some k), c. split; [done|]. destruct (strchr_Some _ _ _ E) as (pre & post & Hu & Hl & Hs).
      split; [done|]. pose proof (zlen_nonneg pre). split; [lia|]. split; [lia|]. by exists pre, post.
  - rewrite Z.gtb_ltb. destruct (Z.ltb_spec PROTO_INLINE_MAX_SIZE (zlen (unparsed c))); [|exists None, c; auto].
    destruct (protocol_error_spec err c) as (c' & -> & Hc); [done..|]. exists None, c'. auto.
Qed.

(** Arguments are being read. *)
Record reading (c : client) : Prop := {
  rd_pa : parsing c;
  rd_req : reqtype c = PROTO_REQ_MULTIBULK;
  rd_bulk : bulklen c = -1 \/ 0 <= bulklen c /\ 0 < multibulklen c
}.

Lemma reading_ok c : reading c -> 0 < multibulklen c -> query_ok c.
Proof.
  intros [[Hp Hl Hm Ho Hr] Hq Hb] Hmb. split; try done; [by right; right|]. right. split; [done|]. lia.
Qed.

Lemma reading_rejected c c' : reading c -> rejected c c' -> query_ok c'.
Proof. intros [[Hp Hl Hm Ho Hr] Hq Hb] Hj. eapply (rejected_ok c); [done|done|by right|done|done|done]. Qed.

(** The shape every step of the argument loop has. *)
Definition arg_step (c : client) (go : bool) (c' : client) : Prop :=
  advance c c' /\ if go then reading c' else query_ok c' /\ multibulklen c' = multibulklen c.

Lemma read_bulklen_spec c : reading c -> 0 < multibulklen c ->
  exists go c', read_bulklen server c = Some (go, c') /\ arg_step c go c' /\
  (go = true -> 0 <= bulklen c' /\ multibulklen c' = multibulklen c /\ argv c' = argv c).
Proof.
  intros Hrd Hmb. pose proof Hrd as [Hpa Hreq Hb]. pose proof Hpa as [Hp Hlen Hm Ho Hr]. unfold read_bulklen.
  destruct (Z.eqb_spec (bulklen c) (-1)) as [Hbl|Hbl].
  2: { exists true, c. split; [done|]. split; [split; [by apply advance_refl|done]|]. intros _. split; [lia|done]. }
  assert (Hrej : forall c', rejected c c' -> exists go c'', Some (false, c') = Some (go, c'') /\ arg_step c go c'' /\
    (go = true -> 0 <= bulklen c'' /\ multibulklen c'' = multibulklen c /\ argv c'' = argv c)).
  { intros c' Hj. exists false, c'. split; [done|]. split; [|done]. split; [by apply rejected_advance|].
    split; [by eapply reading_rejected|]. by rewrite (rj_same _ _ Hj). }
  destruct (find_line_spec (str "Protocol error: too big bulk count string") c Hpa) as (nl & c' & -> & Hnl); [done|].
  cbn [mbind option_bind]. destruct nl as [k|].
  2: { destruct Hnl as [->|Hj]; [|by apply Hrej]. exists false, c. split; [done|]. split; [|done].
       split; [by apply advance_refl|]. split; [by apply reading_ok|done]. }
  destruct Hnl as (-> & Hk & Hk2 & pre & post & Hu & Hl & Hs).
  destruct (zget_in_range (unparsed c) 0) as [b Eb]; [lia|]. rewrite Eb. cbn [mbind option_bind].
  destruct (Z.eqb_spec b 36) as [->|Hb36]; cbn [negb].
  2: { destruct (protocol_error_format_spec (str "Protocol error: expected '$', got '" ++ [b] ++ str "'") c) as (c' & -> & Hj);
         [done..|]. by apply Hrej. }
  assert (Hk1 : 1 <= k).
  { destruct pre as [|x pre]; [|rewrite zlen_cons in Hl; pose proof (zlen_nonneg pre); lia]. by rewrite Hu in Eb. }
  destruct (zsplit3 (unparsed c) 1 (k - 1)) as (p1 & line & p3 & Hsp & Hl1 & Hl2); [lia..|].
  rewrite Hsp, (zsub_app p1 line p3 1 (k - 1)) by done. cbn [mbind option_bind]. cbv zeta.
  destruct (protocol_error_spec (str "Protocol error: invalid bulk length") c) as (cj & Ej & Hj); [done..|].
  rewrite Ej. cbn [mbind option_bind].
  destruct (string2ll line) as [ll|]; [|by apply Hrej].
  destruct ((ll <? 0) || _) eqn:Ebad; [by apply Hrej|]. zb.
  set (c1 := set_query (querybuf c) (qb_pos c + k + 2) c).
  assert (A1 : advance c c1).
  { unfold c1. rewrite <- Z.add_assoc. apply advance_skip; [lia|]. rewrite zlen_unparsed in Hk2 by done. lia. }
  assert (P1 : parsing c1) by (split; try done; apply A1).
  set (c2 := if ll >=? PROTO_MBULK_BIG_ARG then _ else _).
  assert (A2 : advance c1 c2 /\ parsing c2 /\ multibulklen c2 = multibulklen c /\ reqtype c2 = reqtype c /\ argv c2 = argv c).
  { subst c2. destruct (ll >=? PROTO_MBULK_BIG_ARG); [|split; [apply advance_refl, P1|done]].
    destruct (_ <=? _); [|split; [apply advance_refl, P1|done]].
    split; [apply advance_trim, P1|]. split; [|done]. split; try apply P1; cbn [qb_pos querybuf set_query].
    - pose proof (zlen_nonneg (unparsed c1)). lia.
    - rewrite zlen_unparsed by apply P1. pose proof (pa_pos c1 P1). pose proof (pa_len c1 P1). lia. }
  destruct A2 as (A2 & P2 & M2 & R2 & V2). eexists _, _. split; [done|]. split.
  - split; [apply advance_req; by eapply advance_trans|]. destruct P2 as [Q1 Q1' Q2 Q3 Q4]. split; [by split|cbn; congruence|].
    right. cbn. lia.
  - intros _. cbn. split; [lia|]. auto.
Qed.

Lemma advance_le c c' : advance c c' -> zlen (unparsed c') <= zlen (unparsed c).
Proof. intros [_ [x ->] _ _ _ _ _]. zlia. Qed.

Lemma read_bulk_spec c : reading c -> 0 < multibulklen c ->
  exists go c', read_bulk server c = Some (go, c') /\ arg_step c go c' /\
  (go = true -> bulklen c' = -1 /\ multibulklen c' = multibulklen c - 1 /\ zlen (unparsed c') < zlen (unparsed c)).
Proof.
  intros Hrd Hmb. unfold read_bulk.
  destruct (read_bulklen_spec c Hrd Hmb) as (go & c1 & -> & [A1 H1] & G1). cbn [mbind option_bind].
  destruct go; cbn [negb]; [|by exists false, c1].
  destruct (G1 eq_refl) as (Hb1 & Hm1 & Hv1). pose proof H1 as [P1 R1 B1]. pose proof P1 as [Q1 Q1' Q2 Q3 Q4].
  pose proof (advance_le _ _ A1) as Hle.
  destruct (Z.ltb_spec (zlen (querybuf c1) - qb_pos c1) (bulklen c1 + 2)) as [Hd|Hd].
  { exists false, c1. split; [done|]. split; [|done]. split; [done|]. split; [apply reading_ok; [done|lia]|done]. }
  rewrite <- zlen_unparsed in Hd by done.
  assert (G : exists arg c2, (if (qb_pos c1 =? 0) && (bulklen c1 >=? PROTO_MBULK_BIG_ARG) && (zlen (querybuf c1) =? bulklen c1 + 2)
    then arg ← zsub (querybuf c1) 0 (zlen (querybuf c1) - 2); Some (arg, set_query [] (qb_pos c1) c1)
    else arg ← zsub (unparsed c1) 0 (bulklen c1); Some (arg, set_query (querybuf c1) (qb_pos c1 + (bulklen c1 + 2)) c1)) = Some (arg, c2) /\
    advance c1 c2 /\ zlen (unparsed c2) < zlen (unparsed c1) /\ multibulklen c2 = multibulklen c1 /\ reqtype c2 = reqtype c1 /\
    out c2 = out c1).
  { destruct ((qb_pos c1 =? 0) && _ && _) eqn:E.
    - zb. destruct (zsplit3 (querybuf c1) 0 (zlen (querybuf c1) - 2)) as (p0 & arg & p2 & Hq & Hl0 & Hl1); [lia..|].
      pose proof (zsub_app p0 arg p2 0 (zlen (querybuf c1) - 2) ltac:(done) ltac:(done)) as Ez. rewrite <- Hq in Ez. rewrite Ez. cbn [mbind option_bind]. eexists _, _. split; [done|].
      assert (Hun : unparsed (set_query [] (qb_pos c1) c1) = []) by apply drop_nil.
      split; [|split; [rewrite Hun; change (zlen (@nil Z)) with 0; lia|done]].
      split; try done; [change (0 <= qb_pos c1 <= 0); lia|exists (unparsed c1); by rewrite Hun, app_nil_r|].
      cbn [querybuf set_query]. change (zlen (@nil Z)) with 0. lia.
    - destruct (zsplit3 (unparsed c1) 0 (bulklen c1)) as (p0 & arg & p2 & Hq & Hl0 & Hl1); [lia..|].
      pose proof (zsub_app p0 arg p2 0 (bulklen c1) ltac:(done) ltac:(done)) as Ez. rewrite <- Hq in Ez. rewrite Ez.
      cbn [mbind option_bind]. eexists _, _. split; [done|]. rewrite zlen_unparsed in Hd by done.
      split; [apply advance_skip; lia|]. split; [|done]. rewrite unparsed_skip by lia.
      rewrite (zlen_unparsed c1) by done. unfold zlen at 1. rewrite length_drop. pose proof (zlen_unparsed c1 Q1) as Hz. unfold zlen at 1 in Hz. lia. }
  destruct G as (arg & c2 & -> & A2 & Hlt & Hm2 & R2 & O2). cbn [mbind option_bind].
  eexists _, _. split; [done|]. split.
  - split; [apply advance_req; by eapply advance_trans|]. split; [|cbn; congruence|by left].
    pose proof (av_len _ _ A2). split; cbn [qb_pos querybuf multibulklen out set_req]; [apply A2|lia|lia|by rewrite O2|by rewrite O2].
  - intros _. cbn [bulklen multibulklen set_req]. split; [done|]. split; [lia|].
    change (zlen (unparsed c2) < zlen (unparsed c)). lia.
Qed.

(** The loop over the arguments: all of them ([multibulklen] is 0), or the client waits. *)
Lemma multibulk_loop_spec n : forall c, reading c -> Z.of_nat n = multibulklen c -> (n = 0%nat -> bulklen c = -1) ->
  exists c', multibulk_loop server n c = Some c' /\ advance c c' /\
  (multibulklen c' = 0 /\ reading c' /\ bulklen c' = -1 /\ (n <> 0%nat -> zlen (unparsed c') < zlen (unparsed c)) \/
   0 < multibulklen c' /\ query_ok c').
Proof.
  induction n as [|n IH]; intros c Hrd Hn Hb.
  - exists c. split; [done|]. split; [apply advance_refl, Hrd|]. left. split; [lia|].
    split; [done|]. split; [by apply Hb|done].
  - cbn [multibulk_loop]. destruct (read_bulk_spec c Hrd) as (go & c1 & -> & [A1 H1] & G1); [lia|].
    cbn [mbind option_bind]. destruct go.
    + destruct (G1 eq_refl) as (Hb1 & Hm1 & Hlt). destruct (IH c1 H1) as (c2 & -> & A2 & H2); [lia|done|].
      exists c2. split; [done|]. split; [by eapply advance_trans|]. destruct H2 as [(M2 & R2 & B2 & _)|H2]; [left|by right].
      split; [done|]. split; [done|]. split; [done|]. intros _. pose proof (advance_le _ _ A2). lia.
    + exists c1. split; [done|]. split; [done|]. right. split; [|apply H1]. destruct H1. lia.
Qed.

(** A command is complete. *)
Record ready (c : client) : Prop := {
  re_pos : 0 <= qb_pos c <= zlen (querybuf c);
  re_len : zlen (querybuf c) <= client_max_querybuf_len server;
  re_req : reqtype c = PROTO_REQ_INLINE \/ reqtype c = PROTO_REQ_MULTIBULK;
  re_mb : multibulklen c = 0;
  re_bulk : bulklen c = -1;
  re_out : out_ok (out c);
  re_room : roomy (out c)
}.

Definition parse_step (c : client) (ok : bool) (c' : client) : Prop :=
  advance c c' /\ if ok then ready c' /\ zlen (unparsed c') < zlen (unparsed c) else query_ok c'.

Lemma processMultibulkBuffer_spec c : query_ok c -> frozen c = false -> reqtype c = PROTO_REQ_MULTIBULK ->
  exists ok c', processMultibulkBuffer server c = Some (ok, c') /\ parse_step c ok c'.
Proof.
  intros Hq Hfr Hreq. destruct (qk_live c Hq) as [?|[Hroom Hidle]]; [congruence|].
  assert (Hpa : parsing c) by (split; [apply Hq|apply Hq|apply Hq|apply Hq|done]).
  assert (Hargs : forall c1, reading c1 -> 0 < multibulklen c1 -> exists ok c',
    (if multibulklen c1 >? 0 then c ← multibulk_loop server (Z.to_nat (multibulklen c1)) c1; Some (multibulklen c =? 0, c) else None)
      = Some (ok, c') /\ parse_step c1 ok c').
  { intros c1 Hrd Hmb. rewrite Z.gtb_ltb. zdec.
    destruct (multibulk_loop_spec (Z.to_nat (multibulklen c1)) c1 Hrd) as (c2 & -> & A2 & H2); [lia|lia|].
    cbn [mbind option_bind]. destruct H2 as [(M2 & R2 & B2 & Hlt)|[M2 H2]].
    - rewrite M2. exists true, c2. split; [done|]. split; [done|]. split; [|apply Hlt; lia].
      destruct R2 as [[S1 S1' S2 S3 S4] Sr _]. split; try done. by right.
    - rewrite (proj2 (Z.eqb_neq (multibulklen c2) 0)) by lia. exists false, c2. by split. }
  unfold processMultibulkBuffer. cbv zeta. destruct (Z.eqb_spec (multibulklen c) 0) as [Hm0|Hm0].
  2: { apply Hargs; [|pose proof (qk_mb c Hq); lia]. split; [done|done|apply Hq]. }
  destruct (Hidle Hm0) as [Hav Hhd]. rewrite Hav. change (zlen (@nil bytes) =? 0) with true. cbn [negb].
  destruct (Hhd Hreq) as [t Ht].
  assert (Hb : bulklen c = -1) by (destruct (qk_bulk c Hq); [done|lia]).
  assert (Hrej : forall c', rejected c c' -> exists ok c'', Some (false, c') = Some (ok, c'') /\ parse_step c ok c'').
  { intros c' Hj. exists false, c'. split; [done|]. split; [by apply rejected_advance; [apply Hq|]|].
    eapply rejected_ok; [apply Hq|apply Hq|by right|apply Hq|by left|done]. }
  destruct (find_line_spec (str "Protocol error: too big mbulk count string") c Hpa) as (nl & c' & -> & Hnl); [done|].
  cbn [mbind option_bind]. destruct nl as [k|].
  2: { destruct Hnl as [->|Hj]; [|by apply Hrej]. exists false, c. split; [done|]. split; [apply advance_refl, Hq|done]. }
  destruct Hnl as (-> & Hk & Hk2 & pre & post & Hu & Hl & Hs).
  assert (Hk1 : 1 <= k).
  { destruct pre as [|x pre]; [by rewrite Hu in Ht|]. rewrite zlen_cons in Hl. pose proof (zlen_nonneg pre). lia. }
  assert (E0 : zget (unparsed c) 0 = Some 42) by (by rewrite Ht). rewrite E0. cbn [mbind option_bind]. rewrite Z.eqb_refl. cbn [negb].
  destruct (zsplit3 (unparsed c) 1 (k - 1)) as (p1 & line & p3 & Hsp & Hl1 & Hl2); [lia..|].
  pose proof (zsub_app p1 line p3 1 (k - 1) ltac:(done) ltac:(done)) as Ez. rewrite <- Hsp in Ez. rewrite Ez. cbn [mbind option_bind].
  destruct (protocol_error_spec (str "Protocol error: invalid multibulk length") c) as (cj & Ej & Hj); [apply Hq|done|done|].
  rewrite Ej. cbn [mbind option_bind].
  destruct (string2ll line) as [ll|]; [|by apply Hrej].
  destruct (ll >? 1024 * 1024); [by apply Hrej|].
  set (c1 := set_query (querybuf c) (qb_pos c + k + 2) c).
  pose proof (zlen_unparsed c (qk_pos c Hq)) as Hzu.
  assert (A1 : advance c c1 /\ zlen (unparsed c1) < zlen (unparsed c)).
  { unfold c1. rewrite <- Z.add_assoc. pose proof (qk_pos c Hq). split; [apply advance_skip; lia|].
    rewrite unparsed_skip by lia. unfold zlen in *. rewrite length_drop. lia. }
  destruct A1 as [A1 L1]. destruct (Z.leb_spec ll 0) as [Hll|Hll].
  - exists true, c1. split; [done|]. split; [done|]. split; [|done]. pose proof (qk_len c Hq). split; [apply A1|done|by right|done|done|apply Hq|done].
  - destruct (Hargs (set_req (reqtype c1) ll (bulklen c1) (argv c1) c1)) as (ok & c2 & E2 & A2 & H2); [|done|].
    + split; [|done|by left]. split; [apply A1|apply (qk_len c Hq)|cbn; lia|apply Hq|done].
    + exists ok, c2. split; [exact E2|]. split; [eapply advance_trans; [apply advance_req, A1|exact A2]|].
      destruct ok; [|done]. split; [apply H2|]. destruct H2 as [_ H2]. change (unparsed (set_req _ _ _ _ c1)) with (unparsed c1) in H2. lia.
Qed.

Lemma processInlineBuffer_spec c : query_ok c -> frozen c = false -> multibulklen c = 0 -> reqtype c = PROTO_REQ_INLINE ->
  exists ok c', processInlineBuffer server c = Some (ok, c') /\ parse_step c ok c'.
Proof.
  intros Hq Hfr Hm0 Hreq. destruct (qk_live c Hq) as [?|[Hroom _]]; [congruence|].
  pose proof (qk_pos c Hq) as Hp. pose proof (zlen_unparsed c Hp) as Hzu.
  assert (Hb : bulklen c = -1) by (destruct (qk_bulk c Hq); [done|lia]).
  assert (Hrej : forall c', rejected c c' -> exists ok c'', Some (false, c') = Some (ok, c'') /\ parse_step c ok c'').
  { intros c' Hj. exists false, c'. split; [done|]. split; [by apply rejected_advance|].
    eapply rejected_ok; [done|apply Hq|by left|apply Hq|by left|done]. }
  unfold processInlineBuffer. destruct (strchr (unparsed c) 10) as [nl|] eqn:Es.
  2: { destruct (_ >? _); [|exists false, c; split; [done|]; split; [by apply advance_refl|done]].
       destruct (protocol_error_spec (str "Protocol error: too big inline request") c) as (cj & -> & Hj); [apply Hq|done|done|].
       by apply Hrej. }
  destruct (strchr_Some _ _ _ Es) as (pre & post & Hu & Hl & _).
  assert (Hnl : 0 <= nl < zlen (unparsed c)) by (rewrite Hu; zlia).
  assert (G : exists ql lc, (if negb (nl =? 0) then b ← zget (unparsed c) (nl - 1); Some (if b =? 13 then (nl - 1, 2) else (nl, 1))
     else Some (nl, 1)) = Some (ql, lc) /\ 0 <= ql <= nl /\ ql + lc = nl + 1).
  { destruct (Z.eqb_spec nl 0) as [->|]; cbn [negb]; [by exists 0, 1|].
    destruct (zget_in_range (unparsed c) (nl - 1)) as [b ->]; [lia|]. cbn [mbind option_bind].
    destruct (b =? 13); eexists _, _; (split; [done|]); lia. }
  destruct G as (ql & lc & -> & Hql & Hsum). cbn [mbind option_bind].
  destruct (zsplit3 (unparsed c) 0 ql) as (p0 & aux & p2 & Hsp & Hl0 & Hl1); [lia..|].
  pose proof (zsub_app p0 aux p2 0 ql ltac:(done) ltac:(done)) as Ez. rewrite <- Hsp in Ez. rewrite Ez. cbn [mbind option_bind].
  destruct (splitargs_loop_total (S := bytes) (S (length aux)) aux []) as [r Er].
  { pose proof (qk_len c Hq). apply (f_equal zlen) in Hsp. rewrite !zlen_app in Hsp. pose proof (zlen_nonneg p2). lia. }
  { lia. }
  unfold sdssplitargs. rewrite Er. cbn [mbind option_bind]. destruct r as [args|].
  2: { destruct (protocol_error_spec (str "Protocol error: unbalanced quotes in request") c) as (cj & -> & Hj); [apply Hq|done|done|].
       by apply Hrej. }
  cbv zeta. set (c1 := if (ql =? 0) && _ then _ else _).
  assert (E1 : querybuf c1 = querybuf c /\ qb_pos c1 = qb_pos c /\ multibulklen c1 = multibulklen c /\ bulklen c1 = bulklen c /\
    out c1 = out c /\ reqtype c1 = reqtype c /\ advance c c1) by (subst c1; destruct (_ && _); do 6 (split; [done|]); split; try done; by exists []).
  destruct E1 as (F1 & F2 & F3 & F4 & F5 & F6 & A1). rewrite Hsum.
  assert (A2 : advance c1 (set_query (querybuf c1) (qb_pos c1 + (nl + 1)) c1)) by (apply advance_skip; rewrite ?F1, ?F2; lia).
  eexists _, _. split; [done|]. split; [apply advance_req; by eapply advance_trans|]. split.
  - pose proof (qk_len c Hq). split; cbn; [apply A2|by rewrite F1|left; congruence|congruence|congruence|rewrite F5; apply Hq|by rewrite F5].
  - change (zlen (unparsed (set_query (querybuf c1) (qb_pos c1 + (nl + 1)) c1)) < zlen (unparsed c)).
    rewrite unparsed_skip by lia. unfold unparsed at 1. rewrite F1, F2. fold (unparsed c). unfold zlen in *. rewrite length_drop. lia.
Qed.

(** ** The loop *)

Context {laws : CommandLaws}.

Lemma out_ok_flags f o : out_ok o -> out_ok (set_flags f o).
Proof. intros [H1 H2 H3 H4 H5]. by split. Qed.

Lemma resetClient_ok asking c : 0 <= qb_pos c <= zlen (querybuf c) -> zlen (querybuf c) <= client_max_querybuf_len server ->
  out_ok (out c) -> roomy (out c) -> query_ok (resetClient asking c).
Proof.
  intros Hp Hl Ho Hr. destruct (resetClient_out asking c) as (f & -> & _).
  split; cbn [qb_pos querybuf reqtype multibulklen bulklen out argv set_out set_req]; try done; [by left|by left|by apply out_ok_flags|].
  right. split; [done|]. intros _. by split.
Qed.

(** What the loop may change. *)
Record progress (c c' : client) : Prop := {
  pg_unparsed : exists x, unparsed c = x ++ unparsed c';
  pg_pending : pending_querybuf c' = pending_querybuf c /\ fed c' = fed c /\ read_reploff c' = read_reploff c;
  pg_reploff : reploff c' = reploff c \/
    read_reploff c - zlen (unparsed c) <= reploff c' <= read_reploff c - zlen (unparsed c');
  pg_executed : exists l, executed c' = executed c ++ l;
  pg_master : hasc c' CLIENT_MASTER = hasc c CLIENT_MASTER
}.

Lemma progress_trans c1 c2 c3 : progress c1 c2 -> progress c2 c3 -> progress c1 c3.
Proof.
  intros [[x A1] (A2 & A2' & A2'') A3 [l A4] A5] [[y B1] (B2 & B2' & B2'') B3 [l' B4] B5].
  pose proof (f_equal zlen A1) as Z1. pose proof (f_equal zlen B1) as Z2. rewrite zlen_app in Z1, Z2.
  pose proof (zlen_nonneg x). pose proof (zlen_nonneg y).
  split; [exists (x ++ y); by rewrite A1, B1, app_assoc|split; [congruence|split; congruence]| |exists (l ++ l'); by rewrite B4, A4, app_assoc|congruence].
  destruct B3 as [B3|B3]; [destruct A3 as [A3|A3]; [left; congruence|right; lia]|right; lia].
Qed.

Lemma advance_progress c c' : advance c c' -> progress c c'.
Proof. intros [A1 A2 Al A3 [A4 A4'] [A5 A5'] A6]. split; try done; [by left|]. exists []. by rewrite app_nil_r. Qed.

Lemma reset_progress asking c : progress c (resetClient asking c).
Proof.
  destruct (resetClient_out asking c) as (f & -> & Hf). split; [by exists []|done|by left|exists []; by rewrite app_nil_r|].
  by apply (Hf CLIENT_MASTER).
Qed.

Lemma run_command_spec c : ready c -> let '(alive, c') := run_command processCommand c in
  progress c c' /\ unparsed c' = unparsed c /\ (hasc c CLIENT_MASTER = true -> alive = true) /\ (alive = true -> query_ok c') /\
  executed c' = executed c ++ [argv c].
Proof.
  intros [Hp Hl Hreq Hm Hb Ho Hr]. unfold run_command. set (r := processCommand (argv c) (out c)).
  set (c1 := set_executed _ _).
  assert (P1 : progress c c1).
  { split; try done; [by exists []|by left|by exists [argv c]|]. apply cl_master. }
  pose proof (cl_out (argv c) (out c) Ho Hr) as Ho1. fold r in Ho1.
  assert (Hfreed : hasc c CLIENT_MASTER = true -> negb (cr_freed r) = true).
  { intros H. unfold r. by rewrite (cl_freed (argv c) (out c) H). }
  destruct (cr_ok r) eqn:Eok.
  - pose proof (cl_room (argv c) (out c) Ho Hr Eok) as Hr1. fold r in Hr1.
    set (c2 := if _ && negb (hasc c1 CLIENT_MULTI) then _ else _).
    assert (P2 : progress c1 c2 /\ querybuf c2 = querybuf c /\ qb_pos c2 = qb_pos c /\ out c2 = cr_out r /\
      multibulklen c2 = 0 /\ bulklen c2 = -1 /\ (reqtype c2 = reqtype c) /\ unparsed c2 = unparsed c /\ executed c2 = executed c ++ [argv c]).
    { subst c2. destruct (_ && _); (split; [|done]).
      - split; try done; [by exists []| |exists []; by rewrite app_nil_r]. right. cbn [reploff set_repl].
        change (unparsed (set_repl _ _ _ _ c1)) with (unparsed c). change (unparsed c1) with (unparsed c).
        rewrite (zlen_unparsed c) by done. cbn. lia.
      - split; try done; [by exists []|by left|exists []; by rewrite app_nil_r]. }
    destruct P2 as (P2 & Q1 & Q2 & Q3 & Q4 & Q5 & Q6 & Q7 & Q8).
    destruct (negb (hasc c2 CLIENT_BLOCKED) || negb (cr_module r)) eqn:Eb.
    + split; [eapply progress_trans; [done|]; eapply progress_trans; [done|apply reset_progress]|].
      destruct (resetClient_out (cr_asking r) c2) as (f & Ef & _).
      split; [rewrite Ef; exact Q7|]. split; [done|]. split; [|by rewrite Ef].
      intros _. apply resetClient_ok; rewrite ?Q1, ?Q2, ?Q3; done.
    + split; [by eapply progress_trans|]. split; [done|]. split; [done|]. split; [|done]. intros _.
      apply orb_false_iff in Eb as [Eb _]. apply negb_false_iff in Eb.
      split; rewrite ?Q1, ?Q2, ?Q3, ?Q4, ?Q5, ?Q6; try done; [by right|by left|]. left. unfold frozen. by rewrite Eb.
  - split; [done|]. split; [done|]. split; [done|]. split; [|done]. intros Ha.
    destruct (cl_failed (argv c) (out c) Eok) as [Hf|Hc]; [fold r in Hf; by rewrite Hf in Ha|].
    split; try done; [by right|by cbn; lia|by left|]. left. unfold frozen. apply orb_true_iff. by right.
Qed.

(** Deciding the type of the request. *)
Lemma request_type_spec c : query_ok c -> frozen c = false -> qb_pos c < zlen (querybuf c) ->
  exists c1, (if reqtype c =? 0 then b ← zget (unparsed c) 0;
       Some (set_req (if b =? 42 then PROTO_REQ_MULTIBULK else PROTO_REQ_INLINE) (multibulklen c) (bulklen c) (argv c) c)
     else Some c) = Some c1 /\ query_ok c1 /\ advance c c1 /\ frozen c1 = false /\ unparsed c1 = unparsed c /\
  (reqtype c1 = PROTO_REQ_INLINE \/ reqtype c1 = PROTO_REQ_MULTIBULK).
Proof.
  intros Hq Hfr Hlt. pose proof (qk_pos c Hq) as Hp. destruct (Z.eqb_spec (reqtype c) 0) as [Hr|Hr].
  - destruct (unparsed c) as [|b t] eqn:Eu; [pose proof (zlen_unparsed c Hp) as Hz; rewrite Eu in Hz; change (zlen (@nil Z)) with 0 in Hz; lia|].
    cbn [zget]. change (zget (b :: t) 0) with (Some b). cbn [mbind option_bind]. eexists. split; [done|].
    destruct (qk_live c Hq) as [?|[Hroom Hidle]]; [congruence|].
    assert (Hm0 : multibulklen c = 0).
    { destruct (qk_mb c Hq) as [H0 H1]. destruct (Z.eq_dec (multibulklen c) 0); [done|]. rewrite H1 in Hr by lia. done. }
    split; [|split; [apply advance_req; by apply advance_refl|]; split; [done|]; split; [exact Eu|]; cbn; destruct (b =? 42); auto].
    split; cbn [qb_pos querybuf reqtype multibulklen bulklen out argv set_req]; try apply Hq.
    + destruct (b =? 42); auto.
    + rewrite Hm0. split; lia.
    + right. split; [done|]. intros _. destruct (Hidle Hm0) as [-> _]. split; [done|]. intros Hmb.
      exists t. change (unparsed (set_req _ _ _ _ c)) with (unparsed c). rewrite Eu. destruct (Z.eqb_spec b 42) as [->|]; [done|]. done.
  - exists c. split; [done|]. split; [done|]. split; [by apply advance_refl|]. split; [done|]. split; [done|].
    destruct (qk_req c Hq) as [?|[?|?]]; [done|by left|by right].
Qed.

Lemma stopped_frozen c : stopped server c = false -> frozen c = false.
Proof.
  unfold stopped, frozen. intros H. apply orb_false_iff in H as [H H4]. apply orb_false_iff in H4 as [H4 _].
  apply orb_false_iff in H as [H _]. apply orb_false_iff in H as [_ H]. by rewrite H, H4.
Qed.

Definition loop_result (c : client) (alive : bool) (c' : client) : Prop :=
  progress c c' /\ (hasc c CLIENT_MASTER = true -> alive = true) /\ (alive = true -> query_ok c').

Lemma loop_result_trans c1 c2 alive c3 : progress c1 c2 -> loop_result c2 alive c3 -> loop_result c1 alive c3.
Proof.
  intros P (Q & H & H'). split; [by eapply progress_trans|]. split; [|done]. intros Hm. apply H.
  by rewrite (pg_master _ _ P).
Qed.

Lemma input_loop_spec fuel : forall c, query_ok c -> (length (unparsed c) < fuel)%nat ->
  exists alive c', input_loop server processCommand fuel c = Some (alive, c') /\ loop_result c alive c'.
Proof.
  induction fuel as [|fuel IH]; intros c Hq Hf; [lia|]. cbn [input_loop].
  assert (Hstop : exists alive c', Some (true, c) = Some (alive, c') /\ loop_result c alive c').
  { exists true, c. split; [done|]. split; [apply advance_progress, advance_refl, Hq|done]. }
  destruct (Z.ltb_spec (qb_pos c) (zlen (querybuf c))) as [Hlt|]; cbn [negb]; [|done].
  destruct (stopped server c) eqn:Es; [done|]. apply stopped_frozen in Es as Hfr.
  destruct (request_type_spec c Hq Hfr Hlt) as (c1 & -> & Hq1 & A1 & Hfr1 & Hu1 & Hreq). cbn [mbind option_bind].
  assert (G : exists ok c2, (if reqtype c1 =? PROTO_REQ_INLINE then processInlineBuffer server c1
     else if reqtype c1 =? PROTO_REQ_MULTIBULK then processMultibulkBuffer server c1 else None) = Some (ok, c2) /\ parse_step c1 ok c2).
  { destruct Hreq as [Hr|Hr]; rewrite Hr; cbn.
    - apply processInlineBuffer_spec; try done. destruct (qk_mb c1 Hq1) as [H0 H1].
      destruct (Z.eq_dec (multibulklen c1) 0); [done|]. rewrite H1 in Hr by lia. done.
    - by apply processMultibulkBuffer_spec. }
  destruct G as (ok & c2 & -> & A2 & H2). cbn [mbind option_bind].
  assert (P2 : progress c c2) by (apply advance_progress; by eapply advance_trans). destruct ok; cbn [negb].
  2: { exists true, c2. split; [done|]. split; [done|]. by split. }
  destruct H2 as [Hready Hlt2]. rewrite Hu1 in Hlt2. unfold zlen in Hlt2. destruct (Z.eqb_spec (zlen (argv c2)) 0) as [Hz|Hz].
  - assert (Hqr : query_ok (resetClient false c2)) by (destruct Hready; by apply resetClient_ok).
    destruct (IH (resetClient false c2) Hqr) as (alive & c3 & -> & R3).
    { destruct (resetClient_out false c2) as (f & -> & _). change (length (unparsed c2) < fuel)%nat. lia. }
    exists alive, c3. split; [done|]. eapply loop_result_trans; [|done]. eapply progress_trans; [done|]. apply reset_progress.
  - pose proof (run_command_spec c2 Hready) as Hrun. destruct (run_command processCommand c2) as [alive c3].
    destruct Hrun as (P3 & Hu3 & Hm3 & Hq3 & _). assert (P13 : progress c c3) by (by eapply progress_trans).
    assert (Hm : hasc c CLIENT_MASTER = true -> alive = true) by (intros Hm; apply Hm3; by rewrite (pg_master _ _ P2)).
    destruct alive; cbn [negb]; [|exists false, c3; split; [done|]; by split].
    destruct (IH c3 (Hq3 eq_refl)) as (alive & c4 & -> & R4); [rewrite Hu3; lia|].
    exists alive, c4. split; [done|]. by eapply loop_result_trans.
Qed.

Lemma processInputBuffer_spec c : query_ok c ->
  exists alive c', processInputBuffer server processCommand c = Some (alive, c') /\ loop_result c alive c' /\
  (alive = true -> qb_pos c' = 0).
Proof.
  intros Hq. unfold processInputBuffer.
  destruct (input_loop_spec (S (Z.to_nat (zlen (querybuf c) - qb_pos c))) c Hq) as (alive & c1 & -> & P1 & M1 & Q1).
  { pose proof (zlen_unparsed c (qk_pos c Hq)) as Hz. unfold zlen in *. lia. }
  cbn [mbind option_bind]. eexists _, _. split; [done|]. destruct alive; cbn [andb]; [|by split].
  specialize (Q1 eq_refl). destruct (Z.eqb_spec (qb_pos c1) 0) as [Hz|Hz]; cbn [negb]; [by split|].
  pose proof (advance_trim c1 (qk_pos c1 Q1)) as A2. split; [|done].
  split; [eapply progress_trans; [done|by apply advance_progress]|]. split; [done|]. intros _.
  destruct Q1 as [B1 B2 B3 B4 B5 B6 B7]. split; try done.
  - apply A2.
  - cbn [querybuf set_query]. rewrite zlen_unparsed by done. lia.
Qed.

(** ** Replication streams *)

(** The pending buffer of a master: the bytes received and not yet applied, ending with the
    unparsed ones. *)
Definition master_ok (c : client) : Prop :=
  hasc c CLIENT_MASTER = true ->
  (exists x, pending_querybuf c = x ++ unparsed c) /\ reploff c = read_reploff c - zlen (pending_querybuf c).

Lemma replicate_spec c : query_ok c -> hasc c CLIENT_MASTER = true ->
  (exists x, pending_querybuf c = x ++ unparsed c) -> reploff c = read_reploff c - zlen (pending_querybuf c) ->
  zlen (pending_querybuf c) < 2 ^ 63 ->
  exists c', processInputBufferAndReplicate server processCommand c = Some (true, c') /\ query_ok c' /\ qb_pos c' = 0 /\
  master_ok c' /\ hasc c' CLIENT_MASTER = true /\ fed c' ++ pending_querybuf c' = fed c ++ pending_querybuf c /\
  zlen (fed c') - zlen (fed c) = reploff c' - reploff c /\ read_reploff c' = read_reploff c.
Proof.
  intros Hq Hm [x Hx] Hoff Hbig. unfold processInputBufferAndReplicate. rewrite Hm. cbn [negb].
  destruct (processInputBuffer_spec c Hq) as (alive & c1 & -> & (P1 & M1 & Q1) & Hz). cbn [mbind option_bind].
  rewrite (M1 Hm) in *. cbn [negb]. specialize (Q1 eq_refl). specialize (Hz eq_refl).
  destruct P1 as [[y Hy] (Hpq & Hfd & Hrr) Hro _ Hma]. rewrite Hm in Hma.
  pose proof (f_equal zlen Hx) as Z1. pose proof (f_equal zlen Hy) as Z2. rewrite zlen_app in Z1, Z2.
  pose proof (zlen_nonneg x). pose proof (zlen_nonneg y). pose proof (zlen_nonneg (unparsed c1)).
  set (n := reploff c1 - reploff c). assert (Hn : 0 <= n <= zlen (pending_querybuf c) - zlen (unparsed c1)) by (unfold n; lia).
  rewrite uwrap_small by (unfold urange; lia). rewrite Hpq.
  assert (Hsuf : forall k, 0 <= k <= zlen x + zlen y -> exists w, drop (Z.to_nat k) (pending_querybuf c) = w ++ unparsed c1).
  { intros k Hk. rewrite Hx, Hy, app_assoc. exists (drop (Z.to_nat k) (x ++ y)). apply drop_app_le.
    rewrite length_app. unfold zlen in *. lia. }
  destruct (Z.eqb_spec n 0) as [En|En]; cbn [negb].
  - exists c1. split; [done|]. split; [done|]. split; [done|].
    split; [|split; [done|]; split; [by rewrite Hpq, Hfd|]; rewrite Hfd; split; [lia|done]].
    intros _. rewrite Hpq. split; [|unfold n in En; lia]. destruct (Hsuf 0 ltac:(lia)) as [w Hw]. by exists w.
  - destruct (zsplit3 (pending_querybuf c) 0 n) as (p0 & mid & p2 & Hsp & Hl0 & Hl1); [lia..|]. apply zlen_0_nil in Hl0 as ->.
    cbn [app] in Hsp. pose proof (zsub_app0 mid p2 n ltac:(done)) as Ez. rewrite <- Hsp in Ez. rewrite Ez. cbn [mbind option_bind]. eexists. split; [done|].
    destruct Q1 as [B1 B2 B3 B4 B5 B6 B7]. split; [by split|]. split; [done|].
    cbn [pending_querybuf fed reploff read_reploff set_repl].
    assert (Hd : drop (Z.to_nat n) (pending_querybuf c) = p2) by (rewrite Hsp, <- Hl1, to_nat_zlen; apply drop_app_length).
    split; [|split; [done|]; split; [rewrite Hd, Hfd, <- app_assoc; by rewrite Hsp|]; rewrite Hfd, zlen_app; split; [lia|done]].
    intros _. cbn [pending_querybuf reploff read_reploff set_repl]. split; [apply Hsuf; lia|].
    rewrite Hd, Hrr. apply (f_equal zlen) in Hsp. rewrite zlen_app in Hsp. unfold n in *. lia.
Qed.

(** Appending received data keeps a client well formed, up to the limit on the buffer. *)
Lemma append_ok c d : query_ok c -> zlen (querybuf c ++ d) <= client_max_querybuf_len server ->
  query_ok (set_query (querybuf c ++ d) (qb_pos c) c).
Proof.
  intros [B1 B2 B3 B4 B5 B6 B7] Hl. split; try done.
  - cbn. rewrite zlen_app. pose proof (zlen_nonneg d). lia.
  - destruct B7 as [B7|[Hr Hi]]; [by left|right]. split; [done|]. intros Hm. destruct (Hi Hm) as [Ha Ht]. split; [done|].
    intros Hrq. destruct (Ht Hrq) as [t Et]. exists (t ++ d). rewrite unparsed_append by done. by rewrite Et.
Qed.

Lemma readQuery_spec c d : query_ok c -> master_ok c -> 0 < zlen d <= readlen c -> zlen (pending_querybuf c) + zlen d < 2 ^ 63 ->
  exists alive c', readQueryFromClient server processCommand (RData d) c = Some (alive, c') /\
  (alive = true -> query_ok c' /\ qb_pos c' = 0 /\ master_ok c') /\
  (alive = true -> hasc c CLIENT_MASTER = true ->
     fed c' ++ pending_querybuf c' = fed c ++ pending_querybuf c ++ d /\
     zlen (fed c') - zlen (fed c) = reploff c' - reploff c /\ hasc c' CLIENT_MASTER = true) /\
  (hasc c CLIENT_MASTER = true -> zlen (querybuf c ++ d) <= client_max_querybuf_len server -> alive = true).
Proof.
  intros Hq Hm Hd Hbig. unfold readQueryFromClient. rewrite (proj2 (Z.leb_gt (zlen d) 0)), Z.gtb_ltb, (proj2 (Z.ltb_ge _ _)) by lia.
  cbn [orb]. set (c1 := set_query (querybuf c ++ d) (qb_pos c) c). change (hasc c1 CLIENT_MASTER) with (hasc c CLIENT_MASTER).
  pose proof (unparsed_append c d (qk_pos c Hq)) as Hu. fold c1 in Hu. destruct (hasc c CLIENT_MASTER) eqn:Em.
  - cbn [querybuf set_repl c1 set_query]. rewrite Z.gtb_ltb.
    destruct (Z.ltb_spec (client_max_querybuf_len server) (zlen (querybuf c ++ d))); [eexists false, _; split; [done|]; split; [done|]; split; [done|lia]|].
    destruct (Hm Em) as [[x Hx] Hoff].
    pose proof (append_ok c d Hq) as Hq1. fold c1 in Hq1. set (c2 := set_repl _ _ _ _ c1).
    destruct (replicate_spec c2) as (c' & -> & Hq' & Hz & Hm' & Em' & Hst & Hf & Hr).
    + destruct Hq1 as [B1 B2 B3 B4 B5 B6 B7]; [done|]. by split.
    + exact Em.
    + exists x. change (unparsed c2) with (unparsed c1). cbn [pending_querybuf c2 set_repl]. rewrite Hu, app_assoc, <- Hx. done.
    + cbn [reploff read_reploff pending_querybuf c2 c1 set_repl set_query]. rewrite zlen_app. lia.
    + cbn [pending_querybuf c2 c1 set_repl set_query]. rewrite zlen_app. lia.
    + exists true, c'. split; [done|]. split; [done|]. split; [|done]. intros _ _. split; [exact Hst|]. split; [exact Hf|exact Em'].
  - cbn [querybuf c1 set_query]. rewrite Z.gtb_ltb.
    destruct (Z.ltb_spec (client_max_querybuf_len server) (zlen (querybuf c ++ d))); [eexists false, _; split; [done|]; by repeat split|].
    unfold processInputBufferAndReplicate. change (hasc c1 CLIENT_MASTER) with (hasc c CLIENT_MASTER). rewrite Em. cbn [negb].
    destruct (processInputBuffer_spec c1) as (alive & c' & -> & (P & M & Q) & Hz); [by apply append_ok|].
    exists alive, c'. split; [done|]. split; [|by split]. intros Ha. split; [by apply Q|]. split; [by apply Hz|].
    intros Hm'. pose proof (pg_master _ _ P) as Hpm. rewrite Hm' in Hpm. change (hasc c1 CLIENT_MASTER) with (hasc c CLIENT_MASTER) in Hpm. congruence.
Qed.
End Safety.

(** * Properties *)

(** C13. Whatever bytes a client sends and however they are cut into reads, the parsers stay inside
    the query buffer, no assertion fails, the loop over the buffered commands terminates, and a
    client that was not freed is well formed again, its consumed input trimmed. *)
Theorem query_input_safe (server : qserver) (processCommand : list bytes -> oclient -> cmd_result) c d :
  (forall n, 0 <= n -> n <= zmalloc_usable (osrv server) n) ->
  (forall n m, 0 <= n <= m -> zmalloc_usable (osrv server) n <= zmalloc_usable (osrv server) m) ->
  client_max_querybuf_len server < sds_limit -> CommandLaws server processCommand ->
  query_ok server c -> master_ok c -> 0 < zlen d <= readlen c -> zlen (pending_querybuf c) + zlen d < 2 ^ 63 ->
  exists alive c', readQueryFromClient server processCommand (RData d) c = Some (alive, c') /\
    (alive = true -> query_ok server c' /\ qb_pos c' = 0 /\ master_ok c').
Proof.
  intros Hu Hm Hx Hlaws Hq Hma Hd Hb.
  destruct (readQuery_spec server processCommand Hu Hm Hx (laws := Hlaws) c d Hq Hma Hd Hb) as (alive & c' & E & H & _). by exists alive, c'.
Qed.

(** A server and commands for the witnesses: every command succeeds. *)
Definition qserver0 : qserver := QServer server0 (512 * 1024 * 1024) (1024 * 1024 * 1024) false false.
Definition succeed (args : list bytes) (o : oclient) : cmd_result := CmdResult true o false false false.

Lemma succeed_laws : CommandLaws qserver0 succeed.
Proof. by split. Qed.

Definition idle (flags : Z) : client := Client [] 0 [] 0 0 (-1) [] 0 0 0 (set_flags flags client0) [] [].

Lemma idle_ok f : query_ok qserver0 (idle f) /\ master_ok (idle f).
Proof.
  split; [|intros _; by split; [exists []|]].
  split; try done; [by left|by left|by destruct client0_ok as [A1 A2 A3 A4 A5]; split|].
  right. by split.
Qed.

Lemma query_input_safe_witness :
  exists alive c', readQueryFromClient qserver0 succeed (RData (str "*1" ++ [13; 10; 36; 0; 13; 33])) (idle 0) = Some (alive, c') /\
    (alive = true -> query_ok qserver0 c' /\ qb_pos c' = 0 /\ master_ok c').
Proof.
  apply query_input_safe; [apply server0_usable..|done|exact succeed_laws|apply idle_ok|apply idle_ok|by vm_compute|done].
Defined.

(** C15. The stream of a master is forwarded without loss or reordering: the bytes forwarded so far
    followed by the pending ones are exactly the bytes received, and the number forwarded is the
    progress of the applied offset. *)
Theorem master_stream_forwarded (server : qserver) (processCommand : list bytes -> oclient -> cmd_result) c d :
  (forall n, 0 <= n -> n <= zmalloc_usable (osrv server) n) ->
  (forall n m, 0 <= n <= m -> zmalloc_usable (osrv server) n <= zmalloc_usable (osrv server) m) ->
  client_max_querybuf_len server < sds_limit -> CommandLaws server processCommand ->
  query_ok server c -> master_ok c -> 0 < zlen d <= readlen c -> zlen (pending_querybuf c) + zlen d < 2 ^ 63 ->
  hasc c CLIENT_MASTER = true -> zlen (querybuf c ++ d) <= client_max_querybuf_len server ->
  exists c', readQueryFromClient server processCommand (RData d) c = Some (true, c') /\
    fed c' ++ pending_querybuf c' = fed c ++ pending_querybuf c ++ d /\
    zlen (fed c') - zlen (fed c) = reploff c' - reploff c /\
    read_reploff c' - reploff c' = zlen (pending_querybuf c').
Proof.
  intros Hu Hm Hx Hlaws Hq Hma Hd Hb Em Hl.
  destruct (readQuery_spec server processCommand Hu Hm Hx (laws := Hlaws) c d Hq Hma Hd Hb) as (alive & c' & E & H & Hf & Ha).
  rewrite (Ha Em Hl) in *. destruct (Hf eq_refl Em) as (Hs & Hn & Em'). destruct (H eq_refl) as (_ & _ & Hmo).
  exists c'. split; [done|]. split; [done|]. split; [done|]. destruct (Hmo Em') as [_ Ho]. lia.
Qed.

Lemma master_stream_forwarded_witness :
  exists c', readQueryFromClient qserver0 succeed (RData (str "PING" ++ [13; 10] ++ str "SE")) (idle 2) = Some (true, c') /\
    fed c' ++ pending_querybuf c' = str "PING" ++ [13; 10] ++ str "SE" /\ zlen (fed c') - 0 = reploff c' - 0 /\
    read_reploff c' - reploff c' = zlen (pending_querybuf c').
Proof.
  apply (master_stream_forwarded qserver0 succeed (idle 2)); [apply server0_usable|apply server0_usable|done|exact succeed_laws|apply idle_ok|apply idle_ok|by vm_compute|done..].
Defined.

Example forwarded_ex :
  option_map (fun r => (executed r.2, fed r.2, pending_querybuf r.2))
    (readQueryFromClient qserver0 succeed (RData (str "PING" ++ [13; 10] ++ str "SE")) (idle 2)) =
  Some ([[str "PING"]], str "PING" ++ [13; 10], str "SE").
Proof. vm_compute. reflexivity. Qed.
