(* ===== verification/Resp.v ===== *)
(** RESP commands from the printer to the parser: what [catAppendOnlyGenericCommand] (aof.c) writes
    is parsed back by [readQueryFromClient] (networking.c), for every way the stream is cut into
    reads. *)

From Stdlib Require Import String.
From S2P Require Import Prelude Util Sds Reply Query.
#[local] Open Scope list_scope.
#[local] Open Scope Z_scope.

(** * The encoding *)

Definition enc_arg (a : bytes) : bytes := hdr 36 (zlen a) ++ a ++ crlf.
Definition enc (cmd : list bytes) : bytes := hdr 42 (zlen cmd) ++ flat_map enc_arg cmd.

Lemma count_line_spec prefix n : srange 64 n -> count_line prefix n = Some (hdr prefix n).
Proof.
  intros Hn. destruct (number_line 32 prefix n Hn ltac:(lia)) as (b0 & b1 & len & b2 & b3 & b4 & P1 & P2 & P3 & P4 & P5 & P6).
  change (Z.to_nat 32) with 32%nat in P1. change (32 - 1) with 31 in P2. unfold count_line.
  rewrite P1. cbn [mbind option_bind]. rewrite P2. cbn [mbind option_bind]. rewrite P3. cbn [mbind option_bind].
  rewrite (Z.add_comm 1 len), P4. cbn [mbind option_bind]. replace (len + 1 + 1) with (len + 2) by lia. rewrite P5.
  cbn [mbind option_bind]. replace (len + 1 + 2) with (len + 3) by lia. exact P6.
Qed.

Lemma len_range {A} (l : list A) : zlen l < 2 ^ 63 -> srange 64 (zlen l).
Proof. intros H. pose proof (zlen_nonneg l). unfold srange. change (2 ^ (64 - 1)) with (2 ^ 63). lia. Qed.

Lemma cat_args_spec argv : forall dst, Forall (fun a => zlen a < 2 ^ 63) argv ->
  cat_args dst argv = Some (dst ++ flat_map enc_arg argv).
Proof.
  induction argv as [|a argv IH]; intros dst Ha; [by cbn; rewrite app_nil_r|].
  apply list.Forall_cons in Ha as [Ha Hargs]. cbn [cat_args flat_map]. rewrite count_line_spec by (by apply len_range).
  cbn [mbind option_bind]. rewrite IH by done. unfold enc_arg, crlf. by rewrite <- !app_assoc.
Qed.

Lemma catAppendOnlyGenericCommand_spec dst argv : zlen argv < 2 ^ 63 -> Forall (fun a => zlen a < 2 ^ 63) argv ->
  catAppendOnlyGenericCommand dst argv = Some (dst ++ enc argv).
Proof.
  intros Hl Ha. unfold catAppendOnlyGenericCommand. rewrite count_line_spec by (by apply len_range).
  cbn [mbind option_bind]. rewrite cat_args_spec by done. unfold enc. by rewrite <- app_assoc.
Qed.

(** * Lines that may be incomplete *)

Lemma decimal_skipped ch n : 0 <= n < 2 ^ 64 -> ch < 48 -> skipped ch (decimal n).
Proof.
  intros Hn Hc. unfold decimal. rewrite (proj2 (Z.ltb_ge n 0)) by lia.
  destruct (Z.eq_dec n 0) as [->|]; [rewrite dec_small by lia; repeat constructor; lia|].
  destruct (dec_digits n) as (d & p & -> & Hd & Hp & _); [lia|]. constructor; [lia|].
  eapply list.Forall_impl; [exact Hp|]. unfold digit. intros b Hb. lia.
Qed.

(** A prefix of [h ++ CRLF ++ r]: short of the line, or the line and a prefix of [r]. *)
Lemma line_prefix u future h (r : bytes) : u ++ future = h ++ 13 :: 10 :: r ->
  (exists h', h = u ++ h') \/ u = h ++ [13] \/ exists u', u = h ++ 13 :: 10 :: u' /\ r = u' ++ future.
Proof.
  intros E. destruct (decide (length u <= length h)%nat) as [Hle|Hgt].
  - left. apply (f_equal (take (length h))) in E. rewrite take_app_length, take_app_ge in E by done. by eexists.
  - right. assert (Hu : u = h ++ drop (length h) u).
    { rewrite <- (take_drop (length h) u) at 1. f_equal. apply (f_equal (take (length h))) in E.
      rewrite take_app_length, take_app_le in E by lia. done. }
    rewrite Hu, <- app_assoc in E. apply app_inv_head in E. destruct (drop (length h) u) as [|x [|y u']].
    + rewrite app_nil_r in Hu. subst u. lia.
    + left. injection E as -> _. done.
    + right. injection E as -> -> E. exists u'. split; [done|by symmetry].
Qed.

Section Parser.
Context (server : qserver) (processCommand : list bytes -> oclient -> cmd_result).

Lemma find_line_prefix err c future prefix n r : 0 <= qb_pos c <= zlen (querybuf c) ->
  0 <= n < 2 ^ 64 -> prefix <> 0 /\ prefix <> 13 ->
  unparsed c ++ future = hdr prefix n ++ r ->
  (find_line server err c = Some (None, c) /\ future <> []) \/
  exists u', unparsed c = hdr prefix n ++ u' /\ r = u' ++ future /\
    find_line server err c = Some (Some (1 + zlen (decimal n)), c).
Proof.
  intros Hp Hn Hpr E. set (h := prefix :: decimal n).
  assert (Eh : forall t, hdr prefix n ++ t = h ++ 13 :: 10 :: t) by (intros t; unfold hdr, crlf, h; cbn; by rewrite <- app_assoc).
  assert (Hs : skipped 13 h) by (constructor; [lia|]; apply decimal_skipped; lia).
  assert (Hlen : zlen h <= 64 * 1024).
  { unfold h. rewrite zlen_cons. assert (zlen (decimal n) <= 20); [|lia]. unfold decimal. rewrite (proj2 (Z.ltb_ge n 0)) by lia. by apply dec_le20. }
  rewrite Eh in E. unfold find_line. rewrite <- zlen_unparsed by done.
  destruct (line_prefix _ _ _ _ E) as [[h' Hh]|[Hu|(u' & Hu & Hr)]].
  - left. assert (Hsu : skipped 13 (unparsed c)) by (rewrite Hh in Hs; by apply Forall_app in Hs as [? _]).
    rewrite strchr_none by done. rewrite Z.gtb_ltb, (proj2 (Z.ltb_ge _ _)).
    + split; [done|]. intros ->. apply (f_equal zlen) in E. rewrite app_nil_r, Hh in E. rewrite !zlen_app, !zlen_cons in E.
      pose proof (zlen_nonneg h'). pose proof (zlen_nonneg r). lia.
    + unfold PROTO_INLINE_MAX_SIZE. rewrite Hh, zlen_app in Hlen. pose proof (zlen_nonneg h'). lia.
  - left. rewrite Hu, strchr_app by done. rewrite zlen_app. change (zlen [13]) with 1.
    rewrite Z.gtb_ltb, (proj2 (Z.ltb_lt _ _)) by lia. split; [done|]. intros ->.
    rewrite Hu, app_nil_r in E. apply app_inv_head in E. done.
  - right. exists u'. rewrite Eh. split; [done|]. split; [done|]. rewrite Hu, strchr_app by done.
    rewrite Z.gtb_ltb, (proj2 (Z.ltb_ge _ _)); [unfold h; by rewrite zlen_cons|]. rewrite zlen_app, !zlen_cons. pose proof (zlen_nonneg u'). lia.
Qed.

(** * What a client is waiting for *)

Definition arg_ok (a : bytes) : Prop := zlen a <= proto_max_bulk_len server.
Definition cmd_ok (cmd : list bytes) : Prop := 0 < zlen cmd <= 1024 * 1024 /\ Forall arg_ok cmd.

(** The parser's part of the state: everything but the buffer. *)
Record frame (c c' : client) : Prop := {
  fr_pos : 0 <= qb_pos c' <= zlen (querybuf c');
  fr_out : out c' = out c;
  fr_executed : executed c' = executed c;
  fr_reqtype : reqtype c' = reqtype c
}.

(** In a client that reads the arguments of a command: [args] are still to come, the first one
    without its length line if [bulklen] is known. *)
Definition args_text (c : client) (args : list bytes) : bytes :=
  if bulklen c =? -1 then flat_map enc_arg args
  else match args with [] => [] | a :: args => a ++ crlf ++ flat_map enc_arg args end.

Definition awaits (c : client) (args : list bytes) : Prop :=
  0 <= qb_pos c <= zlen (querybuf c) /\ multibulklen c = zlen args /\ Forall arg_ok args /\
  (bulklen c = -1 \/ exists a t, args = a :: t /\ bulklen c = zlen a).

Lemma string2ll_len {A} (l : list A) : zlen l < 2 ^ 63 -> string2ll (decimal (zlen l)) = Some (zlen l).
Proof. intros H. by apply string2ll_decimal, len_range. Qed.

Hypothesis max_bulk_ok : proto_max_bulk_len server < 2 ^ 63.
#[local] Set Default Proof Using "All".

(** The digits of a header line in the buffer. *)
Lemma zsub_hdr prefix n u : zsub (hdr prefix n ++ u) 1 (1 + zlen (decimal n) - 1) = Some (decimal n).
Proof.
  replace (hdr prefix n ++ u) with ([prefix] ++ decimal n ++ (crlf ++ u)) by (unfold hdr; by rewrite <- !app_assoc).
  apply zsub_app; [done|lia].
Qed.

Lemma read_bulklen_step c a args future rest : awaits c (a :: args) ->
  unparsed c ++ future = args_text c (a :: args) ++ rest ->
  (read_bulklen server c = Some (false, c) /\ future <> []) \/
  exists c', read_bulklen server c = Some (true, c') /\ frame c c' /\ awaits c' (a :: args) /\ bulklen c' = zlen a /\
    argv c' = argv c /\ unparsed c' ++ future = a ++ crlf ++ flat_map enc_arg args ++ rest.
Proof.
  intros (Hp & Hm & Ha & Hb) E. unfold read_bulklen. unfold args_text in E.
  apply list.Forall_cons in Ha as [Ha Hargs]. unfold arg_ok in Ha.
  destruct (Z.eqb_spec (bulklen c) (-1)) as [Hbl|Hbl].
  2: { right. destruct Hb as [?|(a' & t & [= <- <-] & Hb)]; [done|]. exists c. split; [done|]. split; [by split|].
       split; [|split; [done|split; [done|]]; by rewrite <- !app_assoc in E].
       split; [done|]. split; [done|]. split; [by constructor|]. right. eauto. }
  cbn [flat_map] in E. unfold enc_arg at 1 in E. rewrite <- !app_assoc in E. pose proof (zlen_nonneg a) as Hz.
  destruct (find_line_prefix (str "Protocol error: too big bulk count string") c future 36 (zlen a) (a ++ crlf ++ flat_map enc_arg args ++ rest))
    as [[-> Hf]|(u' & Hu & Hr & ->)]; [done|lia|done|done|left; split; [done|exact Hf]|].
  right. cbn [mbind option_bind]. rewrite Hu. change (zget (hdr 36 (zlen a) ++ u') 0) with (Some 36). cbn [mbind option_bind negb].
  change (negb (36 =? 36)) with false. cbv iota. rewrite zsub_hdr. cbn [mbind option_bind]. rewrite string2ll_len by lia.
  rewrite (proj2 (Z.ltb_ge (zlen a) 0)), Z.gtb_ltb, (proj2 (Z.ltb_ge _ (zlen a))) by lia. cbn [orb]. cbv zeta.
  set (c1 := set_query (querybuf c) (qb_pos c + (1 + zlen (decimal (zlen a))) + 2) c).
  assert (Hh : zlen (hdr 36 (zlen a)) = 1 + zlen (decimal (zlen a)) + 2) by (unfold hdr, crlf; zlia).
  assert (H1 : unparsed c1 = u' /\ 0 <= qb_pos c1 <= zlen (querybuf c1)).
  { pose proof (zlen_unparsed c Hp) as Hzu. rewrite Hu, zlen_app, Hh in Hzu. pose proof (zlen_nonneg u'). pose proof (zlen_nonneg (decimal (zlen a))).
    split; [|cbn [c1 qb_pos querybuf set_query]; lia]. unfold c1. rewrite <- Z.add_assoc, unparsed_skip by lia.
    rewrite Hu, <- Hh, to_nat_zlen. apply drop_app_length. }
  destruct H1 as [Hu1 Hp1]. set (c2 := if zlen a >=? PROTO_MBULK_BIG_ARG then _ else _).
  assert (H2 : unparsed c2 = u' /\ 0 <= qb_pos c2 <= zlen (querybuf c2) /\ out c2 = out c /\ executed c2 = executed c /\
    reqtype c2 = reqtype c /\ multibulklen c2 = multibulklen c /\ argv c2 = argv c).
  { subst c2. destruct (_ >=? _); [|done]. destruct (_ <=? _); [|done].
    split; [exact Hu1|]. split; [|done]. cbn [qb_pos querybuf set_query]. pose proof (zlen_nonneg (unparsed c1)). lia. }
  destruct H2 as (Hu2 & Hp2 & Ho2 & He2 & Hr2 & Hm2 & Hv2). eexists. split; [done|]. split; [by split|].
  split; [|split; [done|split; [done|]]].
  - split; [done|]. split; [cbn; congruence|]. split; [by constructor|]. right. eauto.
  - change (unparsed c2 ++ future = a ++ crlf ++ flat_map enc_arg args ++ rest). by rewrite Hu2, Hr.
Qed.

Lemma frame_trans c1 c2 c3 : frame c1 c2 -> frame c2 c3 -> frame c1 c3.
Proof. intros [A1 A2 A3 A4] [B1 B2 B3 B4]. split; [done|congruence..]. Qed.

(** Taking a complete argument out of the buffer, by copy or by handing over the buffer. *)
Lemma take_arg c a u' : 0 <= qb_pos c <= zlen (querybuf c) -> bulklen c = zlen a -> unparsed c = a ++ crlf ++ u' ->
  exists c', (if (qb_pos c =? 0) && (bulklen c >=? PROTO_MBULK_BIG_ARG) && (zlen (querybuf c) =? bulklen c + 2)
    then arg ← zsub (querybuf c) 0 (zlen (querybuf c) - 2); Some (arg, set_query [] (qb_pos c) c)
    else arg ← zsub (unparsed c) 0 (bulklen c); Some (arg, set_query (querybuf c) (qb_pos c + (bulklen c + 2)) c)) = Some (a, c') /\
  frame c c' /\ unparsed c' = u' /\ multibulklen c' = multibulklen c /\ argv c' = argv c.
Proof.
  intros Hp Hb Hu. pose proof (zlen_unparsed c Hp) as Hz. rewrite Hu, !zlen_app in Hz. change (zlen crlf) with 2 in Hz.
  pose proof (zlen_nonneg u'). pose proof (zlen_nonneg a). rewrite Hb.
  destruct ((qb_pos c =? 0) && _ && _) eqn:E.
  - zb. assert (u' = []) as -> by (apply zlen_0_nil; lia).
    assert (Hq : querybuf c = a ++ crlf) by (assert (Hq0 : qb_pos c = 0) by done; unfold unparsed in Hu; rewrite Hq0, app_nil_r in Hu; exact Hu).
    rewrite Hq, zlen_app. change (zlen crlf) with 2. rewrite (zsub_app0 a crlf (zlen a + 2 - 2)) by lia.
    cbn [mbind option_bind]. eexists. split; [done|]. split; [|split; [apply drop_nil|done]].
    split; try done. change (0 <= qb_pos c <= 0). lia.
  - rewrite Hu, (zsub_app0 a (crlf ++ u')) by done. cbn [mbind option_bind]. eexists. split; [done|].
    split; [split; try done; cbn [qb_pos querybuf set_query]; lia|]. split; [|done].
    rewrite unparsed_skip by lia. rewrite Hu, app_assoc.
    replace (Z.to_nat (zlen a + 2)) with (length (a ++ crlf)) by (rewrite length_app; unfold zlen; cbn; lia). apply drop_app_length.
Qed.

Lemma read_bulk_step c a args future rest : awaits c (a :: args) ->
  unparsed c ++ future = args_text c (a :: args) ++ rest ->
  exists go c', read_bulk server c = Some (go, c') /\ frame c c' /\
  if go : bool then awaits c' args /\ argv c' = argv c ++ [a] /\ unparsed c' ++ future = args_text c' args ++ rest
  else awaits c' (a :: args) /\ argv c' = argv c /\ unparsed c' ++ future = args_text c' (a :: args) ++ rest /\ future <> [].
Proof.
  intros Haw E. unfold read_bulk. destruct (read_bulklen_step c a args future rest Haw E) as [[-> Hf]|(c1 & -> & F1 & W1 & B1 & V1 & E1)].
  { exists false, c. split; [done|]. split; [by destruct Haw; split|]. done. }
  cbn [mbind option_bind negb]. rewrite <- zlen_unparsed by apply F1. rewrite B1.
  destruct (Z.ltb_spec (zlen (unparsed c1)) (zlen a + 2)) as [Hs|Hs].
  - exists false, c1. split; [done|]. split; [done|]. split; [done|]. split; [done|]. split.
    + unfold args_text. pose proof (zlen_nonneg a). rewrite (proj2 (Z.eqb_neq _ _)) by lia. by rewrite <- !app_assoc.
    + intros ->. apply (f_equal zlen) in E1. rewrite app_nil_r, !zlen_app in E1. change (zlen crlf) with 2 in E1.
      pose proof (zlen_nonneg (flat_map enc_arg args)). pose proof (zlen_nonneg rest). lia.
  - destruct (zsplit3 (unparsed c1) 0 (zlen a + 2)) as (p0 & mid & u' & Hu & Hl0 & Hl1); [lia|pose proof (zlen_nonneg a); lia|lia|].
    apply zlen_0_nil in Hl0 as ->. cbn [app] in Hu. rewrite Hu, <- app_assoc in E1.
    assert (Hmid : mid = a ++ crlf).
    { apply (f_equal (take (length mid))) in E1. rewrite take_app_length in E1. rewrite E1, app_assoc.
      replace (length mid) with (length (a ++ crlf)); [by rewrite take_app_length|].
      rewrite length_app. unfold zlen in Hl1. cbn. lia. }
    rewrite Hmid, <- !app_assoc in E1. do 2 apply app_inv_head in E1. rewrite Hmid, <- app_assoc in Hu.
    destruct (take_arg c1 a u') as (c2 & E2 & F2 & U2 & M2 & V2); [apply F1|done|done|]. rewrite B1 in E2. rewrite E2.
    cbn [mbind option_bind]. eexists true, _. split; [done|]. split; [eapply frame_trans; [done|]; by destruct F2; split|].
    destruct W1 as (_ & Wm & Wa & _). apply list.Forall_cons in Wa as [_ Wa]. split; [|split].
    + split; [apply F2|]. split; [cbn [multibulklen set_req]; rewrite M2, Wm, zlen_cons; lia|]. split; [done|]. by left.
    + cbn [argv set_req]. by rewrite V2, V1.
    + change (unparsed c2 ++ future = flat_map enc_arg args ++ rest). by rewrite U2.
Qed.

Lemma multibulk_loop_step args : forall c future rest, awaits c args ->
  unparsed c ++ future = args_text c args ++ rest ->
  exists c', multibulk_loop server (length args) c = Some c' /\ frame c c' /\
  (multibulklen c' = 0 /\ bulklen c' = -1 /\ argv c' = argv c ++ args /\ unparsed c' ++ future = rest \/
   exists args', args' <> [] /\ awaits c' args' /\ argv c' ++ args' = argv c ++ args /\
     unparsed c' ++ future = args_text c' args' ++ rest /\ future <> []).
Proof.
  induction args as [|a args IH]; intros c future rest Haw E; cbn [length multibulk_loop].
  - destruct Haw as (Hp & Hm & _ & [Hb|(? & ? & ? & _)]); [|done]. exists c. split; [done|]. split; [by split|]. left.
    split; [done|]. split; [done|]. split; [by rewrite app_nil_r|]. unfold args_text in E. by rewrite Hb in E.
  - destruct (read_bulk_step c a args future rest Haw E) as (go & c1 & -> & F1 & H1). cbn [mbind option_bind]. destruct go.
    + destruct H1 as (W1 & V1 & E1). destruct (IH c1 future rest W1 E1) as (c2 & -> & F2 & H2). exists c2. split; [done|].
      split; [by eapply frame_trans|]. rewrite V1, <- app_assoc in H2. exact H2.
    + destruct H1 as (W1 & V1 & E1 & Hf). exists c1. split; [done|]. split; [done|]. right. exists (a :: args). rewrite V1. done.
Qed.

(** Between two calls the client waits for [cmds], the first of them possibly in part. *)
Definition expects (c : client) (text : bytes) (cmds : list (list bytes)) : Prop :=
  Forall cmd_ok cmds /\ 0 <= qb_pos c <= zlen (querybuf c) /\
  ((multibulklen c = 0 /\ bulklen c = -1 /\ argv c = [] /\
    (reqtype c = 0 \/ reqtype c = PROTO_REQ_MULTIBULK /\ cmds <> []) /\ text = flat_map enc cmds) \/
   exists args cmds', args <> [] /\ awaits c args /\ reqtype c = PROTO_REQ_MULTIBULK /\
     cmds = (argv c ++ args) :: cmds' /\ text = args_text c args ++ flat_map enc cmds').

Lemma flat_map_enc_nil cmds : flat_map enc cmds = [] -> cmds = [].
Proof. by destruct cmds. Qed.

Lemma args_text_nonempty c args : args <> [] -> args_text c args <> [].
Proof.
  destruct args as [|a args]; [done|]. intros _. unfold args_text. destruct (_ =? _); [done|]. by destruct a.
Qed.

Lemma expects_nil c cmds : expects c [] cmds -> cmds = [].
Proof.
  intros (_ & _ & [(_ & _ & _ & _ & E)|(args & cmds' & Hne & _ & _ & _ & E)]).
  - symmetry in E. by apply flat_map_enc_nil.
  - symmetry in E. apply app_eq_nil in E as [E _]. by apply args_text_nonempty in E.
Qed.

(** One command, or a wait for the rest of it. *)
Lemma processMultibulk_step c future cmds : expects c (unparsed c ++ future) cmds -> reqtype c = PROTO_REQ_MULTIBULK ->
  exists ok c', processMultibulkBuffer server c = Some (ok, c') /\ frame c c' /\
  if ok : bool then exists cmd cmds', cmds = cmd :: cmds' /\ cmd_ok cmd /\ argv c' = cmd /\ unparsed c' ++ future = flat_map enc cmds'
  else expects c' (unparsed c' ++ future) cmds /\ future <> [].
Proof.
  intros (Hok & Hp & H) Hreq. unfold processMultibulkBuffer. cbv zeta.
  assert (Hargs : forall c1 args cmds', args <> [] -> awaits c1 args -> reqtype c1 = PROTO_REQ_MULTIBULK ->
    cmds = (argv c1 ++ args) :: cmds' -> unparsed c1 ++ future = args_text c1 args ++ flat_map enc cmds' ->
    exists ok c', (if multibulklen c1 >? 0 then c ← multibulk_loop server (Z.to_nat (multibulklen c1)) c1; Some (multibulklen c =? 0, c)
      else None) = Some (ok, c') /\ frame c1 c' /\
    if ok : bool then exists cmd cmds', cmds = cmd :: cmds' /\ cmd_ok cmd /\ argv c' = cmd /\ unparsed c' ++ future = flat_map enc cmds'
    else expects c' (unparsed c' ++ future) cmds /\ future <> []).
  { intros c1 args cmds' Hne Haw Hr Hc E. pose proof Haw as (_ & Hm & _ & _).
    assert (0 < zlen args) by (destruct args; [done|zlia]). rewrite Hm, Z.gtb_ltb, (proj2 (Z.ltb_lt _ _)), to_nat_zlen by lia.
    destruct (multibulk_loop_step args c1 future _ Haw E) as (c2 & -> & F2 & H2). cbn [mbind option_bind].
    destruct H2 as [(M2 & B2 & V2 & E2)|(args' & Hne' & W2 & V2 & E2 & Hf)].
    - rewrite M2. exists true, c2. split; [done|]. split; [done|]. exists (argv c1 ++ args), cmds'. split; [done|].
      split; [rewrite Hc in Hok; by apply list.Forall_cons in Hok as [? _]|]. done.
    - pose proof W2 as (_ & M2 & _ & _). assert (0 < zlen args') by (destruct args'; [done|zlia]).
      rewrite (proj2 (Z.eqb_neq (multibulklen c2) 0)) by lia. exists false, c2. split; [done|]. split; [done|]. split; [|done].
      split; [done|]. split; [apply F2|]. right. exists args', cmds'. split; [done|]. split; [done|].
      split; [by rewrite (fr_reqtype _ _ F2)|]. split; [by rewrite V2|done]. }
  destruct H as [(Hm & Hb & Hv & Hr & E)|(args & cmds' & Hne & Haw & Hr & Hc & E)].
  2: { pose proof Haw as (_ & Hm & _ & _). assert (0 < zlen args) by (destruct args; [done|zlia]).
       rewrite (proj2 (Z.eqb_neq (multibulklen c) 0)) by lia. by eapply Hargs. }
  rewrite Hm, Hv. change (zlen (@nil bytes)) with 0. cbn [Z.eqb negb].
  destruct Hr as [Hr|[_ Hne]]; [by rewrite Hr in Hreq|]. destruct cmds as [|cmd cmds']; [done|].
  pose proof Hok as Hok1. apply list.Forall_cons in Hok1 as [[Hcl Hca] _]. cbn [flat_map] in E. unfold enc at 1 in E. rewrite <- app_assoc in E.
  destruct (find_line_prefix (str "Protocol error: too big mbulk count string") c future 42 (zlen cmd) (flat_map enc_arg cmd ++ flat_map enc cmds'))
    as [[-> Hf]|(u' & Hu & Hr & ->)]; [done|lia|done|done|..].
  { cbn [mbind option_bind]. exists false, c. split; [done|]. split; [by split|]. split; [|done]. split; [done|]. split; [done|]. left.
    split; [done|]. split; [done|]. split; [done|]. split; [by right|]. rewrite E. cbn [flat_map]. unfold enc at 2. by rewrite <- app_assoc. }
  cbn [mbind option_bind]. rewrite Hu. change (zget (hdr 42 (zlen cmd) ++ u') 0) with (Some 42). cbn [mbind option_bind].
  change (negb (42 =? 42)) with false. cbv iota. rewrite zsub_hdr. cbn [mbind option_bind]. rewrite string2ll_len by lia.
  rewrite Z.gtb_ltb, (proj2 (Z.ltb_ge _ (zlen cmd))), (proj2 (Z.leb_gt (zlen cmd) 0)) by lia.
  set (c1 := set_query (querybuf c) (qb_pos c + (1 + zlen (decimal (zlen cmd))) + 2) c).
  assert (Hh : zlen (hdr 42 (zlen cmd)) = 1 + zlen (decimal (zlen cmd)) + 2) by (unfold hdr, crlf; zlia).
  pose proof (zlen_unparsed c Hp) as Hzu. rewrite Hu, zlen_app, Hh in Hzu. pose proof (zlen_nonneg u'). pose proof (zlen_nonneg (decimal (zlen cmd))).
  assert (Hu1 : unparsed c1 = u').
  { unfold c1. rewrite <- Z.add_assoc, unparsed_skip by lia. rewrite Hu, <- Hh, to_nat_zlen. apply drop_app_length. }
  set (c2 := set_req (reqtype c1) (zlen cmd) (bulklen c1) [] c1).
  assert (Hp2 : 0 <= qb_pos c2 <= zlen (querybuf c2)) by (cbn [c2 c1 qb_pos querybuf set_query set_req]; lia).
  destruct (Hargs c2 cmd cmds') as (ok & c3 & E3 & F3 & H3); [intros ->; unfold zlen in Hcl; cbn in Hcl; lia| |done|done| |].
  - split; [done|]. split; [done|]. split; [done|]. by left.
  - change (unparsed c1 ++ future = args_text c2 cmd ++ flat_map enc cmds'). unfold args_text. cbn [c2 bulklen set_req].
    change (bulklen c1) with (bulklen c). rewrite Hb, Hu1. by symmetry.
  - exists ok, c3. split; [|split; [by eapply (frame_trans c c2); [split|]|done]].
    change (argv c1) with (argv c). rewrite Hv. exact E3.
Qed.

(** * Executing the stream *)

(** A client that goes on executing, and is not a master. *)
Definition running (o : oclient) : Prop :=
  has o CLIENT_BLOCKED = false /\ has o CLIENT_CLOSE_AFTER_REPLY = false /\ has o CLIENT_CLOSE_ASAP = false /\
  has o CLIENT_MASTER = false.

(** Commands that succeed and let the client go on. *)
Definition benign : Prop := forall args o, running o ->
  cr_ok (processCommand args o) = true /\ cr_freed (processCommand args o) = false /\ running (cr_out (processCommand args o)).

Hypothesis not_paused : clients_paused server = false /\ lua_timedout server = false.
Hypothesis commands_benign : benign.

Lemma not_stopped c : running (out c) -> stopped server c = false.
Proof.
  intros (H1 & H2 & H3 & H4). unfold stopped, hasc. destruct not_paused as [-> ->].
  by rewrite H1, H2, H3, andb_false_r.
Qed.

Lemma run_command_step c : running (out c) ->
  exists c', run_command processCommand c = (true, c') /\ running (out c') /\ executed c' = executed c ++ [argv c] /\
  querybuf c' = querybuf c /\ qb_pos c' = qb_pos c /\ reqtype c' = 0 /\ multibulklen c' = 0 /\ bulklen c' = -1 /\ argv c' = [].
Proof.
  intros Hr. unfold run_command. destruct (commands_benign (argv c) (out c) Hr) as (-> & -> & Hr1). cbn [negb].
  set (c1 := set_executed _ _). change (hasc c1 CLIENT_MASTER) with (has (cr_out (processCommand (argv c) (out c))) CLIENT_MASTER).
  change (hasc c1 CLIENT_BLOCKED) with (has (cr_out (processCommand (argv c) (out c))) CLIENT_BLOCKED).
  destruct Hr1 as (H1 & H2 & H3 & H4). rewrite H4. cbn [andb].
  change (hasc c1 CLIENT_BLOCKED) with (has (cr_out (processCommand (argv c) (out c))) CLIENT_BLOCKED). rewrite H1. cbn [negb orb].
  eexists. split; [done|]. destruct (resetClient_out (cr_asking (processCommand (argv c) (out c))) c1) as (f & -> & Hf).
  split; [|done]. split; [|split; [|split]]; unfold has in *; cbn [out set_out flags set_flags]; by rewrite Hf.
Qed.

Lemma args_text_le c args : awaits c args -> (length (args_text c args) <= length (flat_map enc_arg args))%nat.
Proof.
  intros _. unfold args_text. destruct (_ =? _); [lia|]. destruct args as [|a args]; [done|]. cbn [flat_map]. unfold enc_arg at 2.
  rewrite !length_app. lia.
Qed.

Lemma enc_length argv args : (length (flat_map enc_arg args) < length (enc (argv ++ args)))%nat.
Proof. unfold enc. rewrite flat_map_app, !length_app. unfold hdr. rewrite !length_app. cbn [length]. lia. Qed.

Lemma expects_text c text cmds : expects c text cmds -> (length text <= length (flat_map enc cmds))%nat.
Proof.
  intros (_ & _ & [(_ & _ & _ & _ & ->)|(args & cmds' & _ & Haw & _ & -> & ->)]); [lia|].
  cbn [flat_map]. rewrite !length_app. pose proof (args_text_le c args Haw). pose proof (enc_length (argv c) args). lia.
Qed.

Lemma expects_consumed c text cmd cmds : expects c text (cmd :: cmds) -> (length (flat_map enc cmds) < length text)%nat.
Proof.
  intros (_ & _ & [(_ & _ & _ & _ & ->)|(args & cmds' & Hne & Haw & _ & [= -> ->] & ->)]).
  - cbn [flat_map]. rewrite length_app. unfold enc, hdr. rewrite !length_app. cbn [length]. lia.
  - rewrite length_app. pose proof (args_text_nonempty c args Hne). destruct (args_text c args); [done|]. cbn [length]. lia.
Qed.

Lemma expects_reqtype c future cmds : expects c (unparsed c ++ future) cmds -> unparsed c <> [] ->
  exists c1, (if reqtype c =? 0 then b ← zget (unparsed c) 0;
       Some (set_req (if b =? 42 then PROTO_REQ_MULTIBULK else PROTO_REQ_INLINE) (multibulklen c) (bulklen c) (argv c) c)
     else Some c) = Some c1 /\ expects c1 (unparsed c1 ++ future) cmds /\ reqtype c1 = PROTO_REQ_MULTIBULK /\
    out c1 = out c /\ executed c1 = executed c /\ unparsed c1 = unparsed c.
Proof.
  intros He Hne. pose proof He as (Hok & Hp & H). destruct (Z.eqb_spec (reqtype c) 0) as [Hr|Hr].
  - destruct H as [(Hm & Hb & Hv & _ & E)|(args & cmds' & _ & _ & Hr' & _)]; [|by rewrite Hr in Hr'].
    destruct cmds as [|cmd cmds']; [by apply app_eq_nil in E as [E _]|].
    destruct (unparsed c) as [|b u] eqn:Eu; [done|]. assert (b = 42) as -> by (injection E as -> _; done).
    change (zget (42 :: u) 0) with (Some 42). cbn [mbind option_bind]. rewrite Z.eqb_refl. eexists. split; [done|].
    change (unparsed (set_req _ _ _ _ c)) with (unparsed c). rewrite Eu. split; [|done].
    split; [done|]. split; [done|]. left. do 3 (split; [done|]). split; [by right|done].
  - exists c. split; [done|]. split; [done|]. split; [|done].
    destruct H as [(_ & _ & _ & [?|[? _]] & _)|(args & cmds' & _ & _ & Hr' & _)]; done.
Qed.

(** The loop executes the complete commands of the buffer and waits for the rest. *)
Lemma input_loop_step fuel : forall c future cmds, expects c (unparsed c ++ future) cmds -> running (out c) ->
  (length (unparsed c) < fuel)%nat ->
  exists c' ran cmds', input_loop server processCommand fuel c = Some (true, c') /\ cmds = ran ++ cmds' /\
    executed c' = executed c ++ ran /\ expects c' (unparsed c' ++ future) cmds' /\ running (out c') /\
    (unparsed c' = [] \/ future <> []).
Proof.
  induction fuel as [|fuel IH]; intros c future cmds He Hrun Hf; [lia|]. cbn [input_loop].
  pose proof He as (_ & Hp & _). pose proof (zlen_unparsed c Hp) as Hz.
  destruct (Z.ltb_spec (qb_pos c) (zlen (querybuf c))) as [Hlt|Hge]; cbn [negb].
  2: { exists c, [], cmds. rewrite app_nil_r. do 5 (split; [done|]). left. apply zlen_0_nil. pose proof (zlen_nonneg (unparsed c)). lia. }
  rewrite not_stopped by done. assert (Hne : unparsed c <> []) by (intros E; rewrite E in Hz; change (zlen (@nil Z)) with 0 in Hz; lia).
  destruct (expects_reqtype c future cmds He Hne) as (c1 & -> & He1 & Hr1 & Ho1 & Hx1 & Hu1). cbn [mbind option_bind].
  rewrite Hr1. cbn [Z.eqb]. change (PROTO_REQ_MULTIBULK =? PROTO_REQ_INLINE) with false. rewrite Z.eqb_refl. cbv iota.
  destruct (processMultibulk_step c1 future cmds He1 Hr1) as (ok & c2 & -> & F2 & H2). cbn [mbind option_bind].
  destruct ok; cbn [negb].
  2: { destruct H2 as [He2 Hfu]. exists c2, [], cmds. split; [done|]. split; [done|].
       split; [by rewrite app_nil_r, (fr_executed _ _ F2)|]. split; [done|]. split; [by rewrite (fr_out _ _ F2), Ho1|by right]. }
  destruct H2 as (cmd & cmds' & -> & Hcmd & Hv2 & E2). rewrite Hv2. rewrite (proj2 (Z.eqb_neq (zlen cmd) 0)) by (destruct Hcmd; lia).
  destruct (run_command_step c2) as (c3 & -> & R3 & X3 & Q3 & P3 & T3 & M3 & B3 & V3); [by rewrite (fr_out _ _ F2), Ho1|]. cbn [negb].
  assert (Hu3 : unparsed c3 = unparsed c2) by (unfold unparsed; by rewrite Q3, P3).
  pose proof He1 as (Hok & _ & _). apply list.Forall_cons in Hok as [_ Hok].
  assert (He3 : expects c3 (unparsed c3 ++ future) cmds').
  { rewrite Hu3. split; [done|]. split; [rewrite Q3, P3; apply F2|]. left. do 3 (split; [done|]). split; [by left|done]. }
  assert (Hl : (length (unparsed c3) < fuel)%nat).
  { apply expects_consumed in He1. rewrite <- E2, Hu1, !length_app in He1. rewrite Hu3. lia. }
  destruct (IH c3 future cmds' He3 R3 Hl) as (c4 & ran & cmds'' & -> & -> & X4 & He4 & R4).
  exists c4, (cmd :: ran), cmds''. split; [done|]. split; [done|]. split; [|done].
  by rewrite X4, X3, (fr_executed _ _ F2), Hx1, Hv2, <- app_assoc.
Qed.

Lemma processInputBuffer_step c future cmds : expects c (unparsed c ++ future) cmds -> running (out c) ->
  exists c' ran cmds', processInputBuffer server processCommand c = Some (true, c') /\ cmds = ran ++ cmds' /\
    executed c' = executed c ++ ran /\ expects c' (unparsed c' ++ future) cmds' /\ running (out c') /\
    (unparsed c' = [] \/ future <> []) /\ qb_pos c' = 0.
Proof.
  intros He Hr. unfold processInputBuffer. pose proof He as (_ & Hp & _). pose proof (zlen_unparsed c Hp) as Hz.
  destruct (input_loop_step (S (Z.to_nat (zlen (querybuf c) - qb_pos c))) c future cmds He Hr) as (c1 & ran & cmds' & -> & Hc & X1 & He1 & R1 & S1);
    [unfold zlen in *; lia|].
  cbn [mbind option_bind andb]. destruct (Z.eqb_spec (qb_pos c1) 0) as [Hq|Hq]; cbn [negb].
  { exists c1, ran, cmds'. done. }
  eexists _, ran, cmds'. split; [done|]. split; [done|]. split; [done|]. split; [|done].
  change (unparsed (set_query (unparsed c1) 0 c1)) with (unparsed c1). destruct He1 as (B1 & B2 & B3). split; [done|].
  split; [cbn [qb_pos querybuf set_query]; pose proof (zlen_nonneg (unparsed c1)); lia|].
  destruct B3 as [B3|(args & cmds2 & A1 & (_ & A2) & A3)]; [by left|]. right. exists args, cmds2. split; [done|]. split; [|done].
  split; [|done]. cbn [qb_pos querybuf set_query]. pose proof (zlen_nonneg (unparsed c1)). lia.
Qed.

(** * Sessions *)

(** The kernel delivers [avail] in pieces of at most the given sizes. *)
Fixpoint session (sizes : list Z) (avail : bytes) (c : client) : option (bytes * client) :=
  match sizes with
  | [] => Some (avail, c)
  | n :: sizes =>
      let k := Z.min n (Z.min (readlen c) (zlen avail)) in
      if k <=? 0 then session sizes avail c
      else
        '(alive, c) ← readQueryFromClient server processCommand (RData (take (Z.to_nat k) avail)) c;
        if alive : bool then session sizes (drop (Z.to_nat k) avail) c else None
  end.

Lemma readlen_pos c : 0 < readlen c.
Proof. unfold readlen. destruct (_ && _); [|done]. cbv zeta. destruct ((_ >? 0) && _) eqn:E; [|done]. zb. lia. Qed.

Lemma session_spec sizes : forall avail c cmds, Forall (fun n => 0 < n) sizes -> zlen avail <= zlen sizes ->
  expects c (unparsed c ++ avail) cmds -> qb_pos c = 0 -> running (out c) -> (unparsed c = [] \/ avail <> []) ->
  zlen (flat_map enc cmds) <= client_max_querybuf_len server ->
  exists c', session sizes avail c = Some ([], c') /\ executed c' = executed c ++ cmds /\ unparsed c' = [] /\
    expects c' [] [] /\ qb_pos c' = 0.
Proof.
  induction sizes as [|n sizes IH]; intros avail c cmds Hs Hl He Hq Hr Hset Hmax; cbn [session].
  - assert (avail = []) as -> by (apply zlen_0_nil; pose proof (zlen_nonneg avail); change (zlen (@nil Z)) with 0 in Hl; lia).
    destruct Hset as [Hset|]; [|done]. rewrite Hset in He. pose proof (expects_nil _ _ He) as ->.
    exists c. rewrite app_nil_r. done.
  - apply list.Forall_cons in Hs as [Hn Hs]. pose proof (readlen_pos c) as Hrl. cbv zeta. set (k := Z.min n _).
    rewrite zlen_cons in Hl. destruct (Z.leb_spec k 0) as [Hk|Hk].
    { assert (zlen avail <= 0) by lia. pose proof (zlen_nonneg sizes). by apply IH; [|lia|..]. }
    set (d := take (Z.to_nat k) avail). set (avail' := drop (Z.to_nat k) avail).
    assert (Hd : zlen d = k) by (unfold d, zlen in *; rewrite length_take; lia).
    assert (Ha : avail = d ++ avail') by (unfold d, avail'; by rewrite take_drop).
    assert (Hl' : zlen avail' <= zlen sizes) by (unfold avail', zlen in *; rewrite length_drop; lia).
    unfold readQueryFromClient. rewrite Hd, (proj2 (Z.leb_gt k 0)), Z.gtb_ltb, (proj2 (Z.ltb_ge (readlen c) k)) by lia. cbn [orb].
    pose proof He as (Hok & Hp & Hcase). pose proof (unparsed_append c d Hp) as Hu.
    set (c1 := set_query (querybuf c ++ d) (qb_pos c) c) in *. change (hasc c1 CLIENT_MASTER) with (has (out c) CLIENT_MASTER).
    pose proof Hr as (_ & _ & _ & ->). cbn [negb].
    assert (Hlen : zlen (querybuf c1) <= client_max_querybuf_len server).
    { apply expects_text in He. rewrite Ha, app_assoc, length_app in He. assert (Hqu : unparsed c = querybuf c) by (unfold unparsed; by rewrite Hq).
      rewrite Hqu in He. cbn [c1 querybuf set_query]. unfold zlen in *. lia. }
    rewrite Z.gtb_ltb, (proj2 (Z.ltb_ge _ (zlen (querybuf c1)))) by done. unfold processInputBufferAndReplicate.
    change (hasc c1 CLIENT_MASTER) with (has (out c) CLIENT_MASTER). pose proof Hr as (_ & _ & _ & ->). cbn [negb].
    assert (Hp1 : 0 <= qb_pos c1 <= zlen (querybuf c1)) by (cbn [c1 qb_pos querybuf set_query]; rewrite zlen_app; pose proof (zlen_nonneg d); lia).
    assert (He1 : expects c1 (unparsed c1 ++ avail') cmds).
    { rewrite Hu, <- app_assoc, <- Ha. split; [done|]. split; [done|].
      destruct Hcase as [B|(args & cmds2 & A1 & (_ & A2) & A3)]; [by left|]. right. exists args, cmds2. done. }
    destruct (processInputBuffer_step c1 avail' cmds He1 Hr) as (c2 & ran & cmds' & -> & -> & X2 & He2 & R2 & S2 & Q2).
    cbn [mbind option_bind]. rewrite flat_map_app, zlen_app in Hmax. pose proof (zlen_nonneg (flat_map enc ran)).
    destruct (IH avail' c2 cmds') as (c3 & -> & X3 & U3 & He3 & Q3); [done..|lia|].
    exists c3. split; [done|]. split; [|done]. rewrite X3, X2, app_assoc. done.
Qed.
End Parser.

(** * Properties *)

(** C9. Commands survive the wire: any commands printed in RESP by [catAppendOnlyGenericCommand],
    with arbitrary bytes in their arguments, are executed one by one with exactly those arguments,
    however the kernel cuts the stream into reads, and the client ends with an empty buffer,
    waiting for the next command. *)
Theorem resp_roundtrip (server : qserver) (processCommand : list bytes -> oclient -> cmd_result) cmds c sizes :
  proto_max_bulk_len server < 2 ^ 63 -> clients_paused server = false /\ lua_timedout server = false ->
  benign processCommand -> running (out c) ->
  querybuf c = [] -> qb_pos c = 0 -> reqtype c = 0 -> multibulklen c = 0 -> bulklen c = -1 -> argv c = [] ->
  Forall (cmd_ok server) cmds ->
  exists stream, foldl (fun dst cmd => d ← dst; catAppendOnlyGenericCommand d cmd) (Some []) cmds = Some stream /\
  (zlen stream <= client_max_querybuf_len server -> Forall (fun n => 0 < n) sizes -> zlen stream <= zlen sizes ->
   exists c', session server processCommand sizes stream c = Some ([], c') /\ executed c' = executed c ++ cmds /\
     querybuf c' = [] /\ multibulklen c' = 0 /\ bulklen c' = -1 /\ argv c' = []).
Proof.
  intros Hb Hnp Hben Hr Hq Hpos Hrt Hm Hbl Hv Hok. exists (flat_map enc cmds). split.
  - assert (G : forall dst, foldl (fun dst cmd => d ← dst; catAppendOnlyGenericCommand d cmd) (Some dst) cmds = Some (dst ++ flat_map enc cmds)).
    { clear - Hok Hb. induction Hok as [|cmd cmds [Hl Ha] _ IH]; intros dst; [by cbn; rewrite app_nil_r|].
      cbn [foldl mbind option_bind flat_map]. rewrite catAppendOnlyGenericCommand_spec; [by rewrite IH, <- app_assoc|lia|].
      eapply list.Forall_impl; [exact Ha|]. unfold arg_ok. intros a Hx. lia. }
    apply (G []).
  - intros Hmax Hs Hl. assert (Hu : unparsed c = []) by (unfold unparsed; by rewrite Hq, drop_nil).
    destruct (session_spec server processCommand Hb Hnp Hben sizes (flat_map enc cmds) c cmds) as (c' & E & X & U & He & Q); try done.
    + rewrite Hu. split; [done|]. split; [rewrite Hq, Hpos; done|]. left. do 3 (split; [done|]). split; [by left|done].
    + by left.
    + exists c'. split; [done|]. split; [done|]. unfold unparsed in U. rewrite Q in U. split; [exact U|].
      destruct He as (_ & _ & [(H1 & H2 & H3 & _)|(args & cmds' & _ & _ & _ & H4 & _)]); done.
Qed.

(** A command with a NUL and a CRLF inside an argument, read one byte at a time. *)
Definition set_cmd : list bytes := [str "SET"; str "k"; [0; 13; 10; 255]].

Lemma resp_roundtrip_witness : exists stream, catAppendOnlyGenericCommand [] set_cmd = Some stream /\
  exists c', session qserver0 succeed (replicate 50 1) stream (idle 0) = Some ([], c') /\ executed c' = [set_cmd].
Proof.
  destruct (resp_roundtrip qserver0 succeed [set_cmd] (idle 0) (replicate 50 1)) as (stream & E & H); try done.
  - repeat constructor; vm_compute; done.
  - exists stream. split; [exact E|]. vm_compute in E. injection E as <-.
    destruct H as (c' & Es & X & _); [by vm_compute|by repeat constructor|by vm_compute|]. exists c'. split; [exact Es|exact X].
Defined.
