(* ===== verification/Replication.v ===== *)
(** The replication stream of a master (replication.c): the circular backlog, the propagation of
    commands to the replicas and partial resynchronisation.

    The offsets are mathematical integers (the code's [long long] counters advance by the bytes of
    the stream).  [None] is a failed assertion or an access outside the backlog.  Log output is not
    modelled. *)

From Stdlib Require Import String.
From S2P Require Import Prelude Util Sds Reply Query Resp.
#[local] Open Scope list_scope.
#[local] Open Scope Z_scope.

Definition CONFIG_REPL_BACKLOG_MIN_SIZE : Z := 1024 * 16.
Definition LONG_STR_SIZE : Z := 21.
Definition PROTO_SHARED_SELECT_CMDS : Z := 10.

(** * The backlog *)

Record backlog := Backlog {
  repl_backlog : option bytes;
  repl_backlog_size : Z;
  repl_backlog_histlen : Z;
  repl_backlog_idx : Z;
  repl_backlog_off : Z;
  master_repl_offset : Z
}.

Definition createReplicationBacklog (b : backlog) : option backlog :=
  match repl_backlog b with
  | Some _ => None
  | None => Some (Backlog (Some (zresize [] (repl_backlog_size b))) (repl_backlog_size b) 0 0
                    (master_repl_offset b + 1) (master_repl_offset b))
  end.

Definition resizeReplicationBacklog (b : backlog) (newsize : Z) : backlog :=
  let newsize := if newsize <? CONFIG_REPL_BACKLOG_MIN_SIZE then CONFIG_REPL_BACKLOG_MIN_SIZE else newsize in
  if repl_backlog_size b =? newsize then b
  else
    match repl_backlog b with
    | None => Backlog None newsize (repl_backlog_histlen b) (repl_backlog_idx b) (repl_backlog_off b) (master_repl_offset b)
    | Some _ => Backlog (Some (zresize [] newsize)) newsize 0 0 (master_repl_offset b + 1) (master_repl_offset b)
    end.

(** [slaves] is the number of attached replicas. *)
Definition freeReplicationBacklog (b : backlog) (slaves : Z) : option backlog :=
  if slaves =? 0 then
    Some (Backlog None (repl_backlog_size b) (repl_backlog_histlen b) (repl_backlog_idx b) (repl_backlog_off b)
            (master_repl_offset b))
  else None.

(** [while(len)]: copies at most to the end of the buffer, then rewinds.  Returns the buffer, the
    index and the history length. *)
Fixpoint feed_loop (fuel : nat) (size : Z) (buf p : bytes) (idx histlen : Z) : option (bytes * Z * Z) :=
  if zlen p =? 0 then Some (buf, idx, histlen)
  else
    match fuel with
    | O => None
    | S fuel =>
        let thislen := size - idx in
        let thislen := if thislen >? zlen p then zlen p else thislen in
        src ← zsub p 0 thislen;
        buf ← zput buf idx src;
        let idx := idx + thislen in
        let idx := if idx =? size then 0 else idx in
        feed_loop fuel size buf (drop (Z.to_nat thislen) p) idx (histlen + thislen)
    end.

Definition feedReplicationBacklog (b : backlog) (p : bytes) : option backlog :=
  buf ← repl_backlog b;
  let off := master_repl_offset b + zlen p in
  '(buf, idx, histlen) ← feed_loop (length p) (repl_backlog_size b) buf p (repl_backlog_idx b) (repl_backlog_histlen b);
  let histlen := if histlen >? repl_backlog_size b then repl_backlog_size b else histlen in
  Some (Backlog (Some buf) (repl_backlog_size b) histlen idx (off - histlen + 1) off).

Definition feedReplicationBacklogWithObject (b : backlog) (o : robj) : option backlog :=
  p ← (match o with OInt n => ll2string_bytes LONG_STR_SIZE n | OStr s => Some s end);
  feedReplicationBacklog b p.

(** * The replicas *)

(** A replica, and whether it waits for BGSAVE to start. *)
Record slave := Slave { wait_bgsave_start : bool; sclient : oclient }.

Record rserver := RServer {
  rlog : backlog;
  slaves : list slave;
  slaveseldb : Z;
  masterhost : bool;             (* this instance is itself a replica *)
  replid : bytes;
  replid2 : bytes;
  second_replid_offset : Z
}.

Definition set_log (b : backlog) (s : rserver) : rserver :=
  RServer b (slaves s) (slaveseldb s) (masterhost s) (replid s) (replid2 s) (second_replid_offset s).
Definition set_slaves (l : list slave) (s : rserver) : rserver :=
  RServer (rlog s) l (slaveseldb s) (masterhost s) (replid s) (replid2 s) (second_replid_offset s).
Definition set_seldb (d : Z) (s : rserver) : rserver :=
  RServer (rlog s) (slaves s) d (masterhost s) (replid s) (replid2 s) (second_replid_offset s).

Section Replication.
Context (server : oserver).

(** The loop over the replicas: those that wait for BGSAVE are skipped. *)
Fixpoint feed_slaves (f : oclient -> option oclient) (l : list slave) : option (list slave) :=
  match l with
  | [] => Some []
  | sl :: l =>
      c ← (if wait_bgsave_start sl then Some (sclient sl) else f (sclient sl));
      l ← feed_slaves f l;
      Some (Slave (wait_bgsave_start sl) c :: l)
  end.

(** [addReplyBulk] of every argument. *)
Fixpoint add_bulks (c : oclient) (argv : list robj) : option oclient :=
  match argv with
  | [] => Some c
  | o :: argv => c ← addReplyBulk server c o; add_bulks c argv
  end.

Definition stringObjectLen (o : robj) : Z := match o with OStr s => zlen s | OInt n => sdigits10 n end.

(** A header line assembled in [aux]. *)
Definition aux_line (prefix n : Z) : option bytes :=
  aux ← zput (replicate (Z.to_nat (LONG_STR_SIZE + 3)) 0) 0 [prefix];
  '(b, len) ← ll2string (drop 1 aux) (LONG_STR_SIZE + 3 - 1) n;
  aux ← zput aux 1 b;
  aux ← zput aux (len + 1) [13];
  aux ← zput aux (len + 2) [10];
  zsub aux 0 (len + 3).

Fixpoint feed_args (b : backlog) (argv : list robj) : option backlog :=
  match argv with
  | [] => Some b
  | o :: argv =>
      h ← aux_line 36 (stringObjectLen o);
      b ← feedReplicationBacklog b h;
      b ← feedReplicationBacklogWithObject b o;
      b ← feedReplicationBacklog b crlf;        (* aux+len+1 *)
      feed_args b argv
  end.

(** The SELECT command, its argument printed into a buffer of [size] bytes. *)
Definition select_text (size dictid : Z) : option robj :=
  t ← ll2string_bytes size dictid;
  Some (OStr (str "*2" ++ crlf ++ str "$6" ++ crlf ++ str "SELECT" ++ crlf ++ hdr 36 (zlen t) ++ t ++ crlf)).

(** [shared.select[j]], made at startup. *)
Definition shared_select (j : Z) : option robj := select_text 64 j.

Definition selectcmd (dictid : Z) : option robj :=
  if (dictid >=? 0) && (dictid <? PROTO_SHARED_SELECT_CMDS) then shared_select dictid
  else select_text LONG_STR_SIZE dictid.

Definition replicationFeedSlaves (s : rserver) (dictid : Z) (argv : list robj) : option rserver :=
  if masterhost s then Some s
  else if bool_decide (repl_backlog (rlog s) = None) && (zlen (slaves s) =? 0) then Some s
  else if negb (zlen (slaves s) =? 0) && bool_decide (repl_backlog (rlog s) = None) then None
  else
    s ← (if negb (slaveseldb s =? dictid) then
           o ← selectcmd dictid;
           b ← (match repl_backlog (rlog s) with Some _ => feedReplicationBacklogWithObject (rlog s) o | None => Some (rlog s) end);
           l ← feed_slaves (fun c => addReply server c o) (slaves s);
           Some (set_slaves l (set_log b s))
         else Some s);
    let s := set_seldb dictid s in
    b ← (match repl_backlog (rlog s) with
         | Some _ => h ← aux_line 42 (zlen argv); b ← feedReplicationBacklog (rlog s) h; feed_args b argv
         | None => Some (rlog s)
         end);
    l ← feed_slaves (fun c => c ← addReplyMultiBulkLen server c (zlen argv); add_bulks c argv) (slaves s);
    Some (set_slaves l (set_log b s)).

Definition replicationFeedSlavesFromMasterStream (s : rserver) (buf : bytes) : option rserver :=
  b ← (match repl_backlog (rlog s) with Some _ => feedReplicationBacklog (rlog s) buf | None => Some (rlog s) end);
  l ← feed_slaves (fun c => addReplyString server c buf) (slaves s);
  Some (set_slaves l (set_log b s)).

(** The write commands of a master, one after the other, each with its database. *)
Fixpoint feed_commands (s : rserver) (cmds : list (Z * list robj)) : option rserver :=
  match cmds with
  | [] => Some s
  | (dictid, argv) :: cmds => s ← replicationFeedSlaves s dictid argv; feed_commands s cmds
  end.

(** * Partial resynchronisation *)

(** [while(len)]: one piece up to the end of the buffer, the rest from its start. *)
Fixpoint backlog_loop (fuel : nat) (buf : bytes) (size j len : Z) (c : oclient) : option oclient :=
  if len =? 0 then Some c
  else
    match fuel with
    | O => None
    | S fuel =>
        let thislen := if size - j <? len then size - j else len in
        s ← zsub buf j thislen;
        c ← addReplySds server c s;
        backlog_loop fuel buf size 0 (len - thislen) c
    end.

Definition addReplyReplicationBacklog (b : backlog) (c : oclient) (offset : Z) : option (Z * oclient) :=
  if repl_backlog_histlen b =? 0 then Some (0, c)
  else
    buf ← repl_backlog b;
    let skip := offset - repl_backlog_off b in
    let j := Z.rem (repl_backlog_idx b + (repl_backlog_size b - repl_backlog_histlen b)) (repl_backlog_size b) in
    let j := Z.rem (j + skip) (repl_backlog_size b) in
    let len := repl_backlog_histlen b - skip in
    c ← backlog_loop 2 buf (repl_backlog_size b) j len c;
    Some (repl_backlog_histlen b - skip, c).

Definition tolower (b : Z) : Z := if (65 <=? b) && (b <=? 90) then b + 32 else b.
(** A string up to its first NUL. *)
Fixpoint c_str (s : bytes) : bytes :=
  match s with [] => [] | x :: s => if x =? 0 then [] else x :: c_str s end.
(** Nonzero when the strings differ. *)
Definition strcasecmp (a b : bytes) : bool := negb (bool_decide (map tolower (c_str a) = map tolower (c_str b))).

Definition getLongLongFromObject (o : robj) : option Z :=
  match o with OStr s => string2ll s | OInt n => Some n end.

(** [psync2]: the replica understands PSYNC2; [written]: the socket took the whole status line.
    The result is [true] when no full resynchronisation is needed. *)
Definition masterTryPartialResynchronization (s : rserver) (c : oclient) (master_replid : bytes) (arg2 : robj)
    (psync2 written : bool) : option (bool * rserver * oclient) :=
  match getLongLongFromObject arg2 with
  | None => c ← addReplyError server c (str "value is not an integer or out of range"); Some (false, s, c)
  | Some psync_offset =>
      if strcasecmp master_replid (replid s) &&
         (strcasecmp master_replid (replid2 s) || (psync_offset >? second_replid_offset s))
      then Some (false, s, c)
      else
        let b := rlog s in
        if bool_decide (repl_backlog b = None) || (psync_offset <? repl_backlog_off b) ||
           (psync_offset >? repl_backlog_off b + repl_backlog_histlen b)
        then Some (false, s, c)
        else
          let c := OClient (fd c) (Z.setbit (flags c) CLIENT_SLAVE) true (buf c) (reply c) (reply_bytes c) (sentlen c)
                     (obuf_soft_limit_reached_time c) (next_node c) (sent c) in
          if negb written then
            let c := freeClientAsync c in Some (true, set_slaves (slaves s ++ [Slave false c]) s, c)
          else
            let line := (if psync2 then str "+CONTINUE " ++ replid s else str "+CONTINUE") ++ crlf in
            '(_, c) ← addReplyReplicationBacklog b (set_sent (sent c ++ line) c) psync_offset;
            Some (true, set_slaves (slaves s ++ [Slave false c]) s, c)
  end.
End Replication.

(** * The circular buffer *)

(** The buffer from its oldest position on. *)
Definition rotated (buf : bytes) (idx : Z) : bytes := drop (Z.to_nat idx) buf ++ take (Z.to_nat idx) buf.

(** The history: the part of it that was written. *)
Definition history (b : backlog) : bytes :=
  match repl_backlog b with
  | Some buf => drop (Z.to_nat (repl_backlog_size b - repl_backlog_histlen b)) (rotated buf (repl_backlog_idx b))
  | None => []
  end.

Record backlog_ok (b : backlog) : Prop := {
  bl_buf : exists buf, repl_backlog b = Some buf /\ zlen buf = repl_backlog_size b;
  bl_idx : 0 <= repl_backlog_idx b < repl_backlog_size b;
  bl_hist : 0 <= repl_backlog_histlen b <= repl_backlog_size b;
  bl_off : repl_backlog_off b = master_repl_offset b - repl_backlog_histlen b + 1
}.

Lemma rotated_length buf idx : 0 <= idx <= zlen buf -> length (rotated buf idx) = length buf.
Proof. intros H. unfold rotated. rewrite length_app, length_drop, length_take. unfold zlen in H. lia. Qed.

(** Writing [q] at the index, up to the end of the buffer. *)
Lemma rotated_write pre old post q : length q = length old -> post <> [] ->
  rotated (pre ++ q ++ post) (zlen pre + zlen q) = drop (length q) (rotated (pre ++ old ++ post) (zlen pre) ++ q).
Proof.
  intros Hl _. unfold rotated. rewrite to_nat_zlen.
  replace (Z.to_nat (zlen pre + zlen q)) with (length (pre ++ q)) by (rewrite length_app; unfold zlen; lia).
  rewrite app_assoc, drop_app_length, take_app_length, drop_app_length, take_app_length.
  rewrite <- !app_assoc. by rewrite Hl, drop_app_length.
Qed.

Lemma rotated_wrap pre old q : length q = length old ->
  rotated (pre ++ q) 0 = drop (length q) (rotated (pre ++ old) (zlen pre) ++ q).
Proof.
  intros Hl. unfold rotated. rewrite to_nat_zlen. cbn [Z.to_nat drop take]. rewrite app_nil_r.
  rewrite drop_app_length, take_app_length. rewrite <- app_assoc. by rewrite Hl, drop_app_length.
Qed.

Lemma feed_loop_spec fuel : forall size buf p idx h, size = zlen buf -> 0 <= idx < size -> (length p <= fuel)%nat ->
  exists buf' idx', feed_loop fuel size buf p idx h = Some (buf', idx', h + zlen p) /\ zlen buf' = size /\
  0 <= idx' < size /\ rotated buf' idx' = drop (length p) (rotated buf idx ++ p).
Proof.
  induction fuel as [|fuel IH]; intros size buf p idx h Hs Hi Hf.
  - destruct p; [|cbn in Hf; lia]. exists buf, idx. cbn. rewrite app_nil_r, Z.add_0_r. done.
  - cbn [feed_loop]. destruct (Z.eqb_spec (zlen p) 0) as [E|E].
    { apply zlen_0_nil in E as ->. exists buf, idx. cbn. rewrite app_nil_r, Z.add_0_r. done. }
    pose proof (zlen_nonneg p). cbv zeta. set (t := if size - idx >? zlen p then zlen p else size - idx).
    assert (Ht : 0 < t <= zlen p /\ idx + t <= size) by (subst t; rewrite Z.gtb_ltb; zcase; lia).
    destruct (zsplit3 p 0 t) as (p0 & q & p' & -> & Hl0 & Hlq); [lia..|]. apply zlen_0_nil in Hl0 as ->. cbn [app] in *.
    rewrite (zsub_app0 q p' t) by done. cbn [mbind option_bind].
    destruct (zsplit3 buf idx t) as (pre & old & post & -> & Hpre & Hold); [lia..|].
    rewrite (zput_app pre old post q idx) by lia. cbn [mbind option_bind].
    assert (Hql : length q = length old) by (unfold zlen in *; lia).
    replace (Z.to_nat t) with (length q) by (unfold zlen in *; lia). rewrite drop_app_length. rewrite !zlen_app in Hs.
    set (idx1 := if idx + t =? size then 0 else idx + t).
    assert (R : rotated (pre ++ q ++ post) idx1 = drop (length q) (rotated (pre ++ old ++ post) idx ++ q) /\ 0 <= idx1 < size).
    { subst idx1. destruct (Z.eqb_spec (idx + t) size) as [Ew|Ew].
      - assert (post = []) as -> by (apply zlen_0_nil; lia). rewrite !app_nil_r. split; [|lia].
        rewrite <- Hpre. by apply rotated_wrap.
      - split; [|lia]. rewrite <- Hpre, <- Hlq. apply rotated_write; [done|]. intros ->. change (zlen (@nil Z)) with 0 in Hs. lia. }
    destruct R as [R Hi1]. destruct (IH size (pre ++ q ++ post) p' idx1 (h + t)) as (buf' & idx' & -> & Hs' & Hi' & Hr).
    { rewrite !zlen_app. lia. } { done. } { rewrite length_app in Hf. unfold zlen in *. lia. }
    exists buf', idx'. split; [do 2 f_equal; rewrite zlen_app; lia|]. split; [done|]. split; [done|].
    rewrite Hr, R, length_app, (app_assoc _ q p').
    rewrite <- (drop_app_le (rotated (pre ++ old ++ post) idx ++ q) p') by (rewrite length_app; lia). by rewrite drop_drop.
Qed.

(** Feeding keeps the most recent bytes. *)
Lemma feed_spec b p : backlog_ok b ->
  exists b', feedReplicationBacklog b p = Some b' /\ backlog_ok b' /\ repl_backlog_size b' = repl_backlog_size b /\
  master_repl_offset b' = master_repl_offset b + zlen p /\
  repl_backlog_histlen b' = Z.min (repl_backlog_size b) (repl_backlog_histlen b + zlen p) /\
  history b' = drop (Z.to_nat (repl_backlog_histlen b + zlen p - repl_backlog_histlen b')) (history b ++ p).
Proof.
  intros [(buf & Eb & Hs) Hi Hh Ho]. unfold feedReplicationBacklog. rewrite Eb. cbn [mbind option_bind].
  destruct (feed_loop_spec (length p) (repl_backlog_size b) buf p (repl_backlog_idx b) (repl_backlog_histlen b))
    as (buf' & idx' & -> & Hs' & Hi' & Hr); [done|done|lia|]. cbn [mbind option_bind]. pose proof (zlen_nonneg p).
  replace (if _ >? _ then _ else _) with (Z.min (repl_backlog_size b) (repl_backlog_histlen b + zlen p)) by (rewrite Z.gtb_ltb; zcase; lia).
  set (h' := Z.min _ _). eexists. split; [done|]. split; [split; cbn; [by exists buf'|done|lia|lia]|].
  split; [done|]. split; [done|]. split; [done|]. unfold history. cbn [repl_backlog repl_backlog_size repl_backlog_idx repl_backlog_histlen].
  rewrite Eb, Hr, drop_drop.
  pose proof (rotated_length buf (repl_backlog_idx b) ltac:(lia)) as Hrl.
  rewrite <- (drop_app_le (rotated buf (repl_backlog_idx b)) p) by (unfold zlen in *; lia).
  rewrite drop_drop. f_equal. unfold zlen in *. lia.
Qed.

Lemma history_length b : backlog_ok b -> zlen (history b) = repl_backlog_histlen b.
Proof.
  intros [(buf & Eb & Hs) Hi Hh Ho]. unfold history. rewrite Eb. unfold zlen. rewrite length_drop, rotated_length by lia.
  unfold zlen in Hs. lia.
Qed.

Section Output.
Context (server : oserver).
Hypothesis usable_ok : forall n, 0 <= n -> n <= zmalloc_usable server n.
Hypothesis usable_mono : forall n m, 0 <= n <= m -> zmalloc_usable server n <= zmalloc_usable server m.
#[local] Set Default Proof Using "All".

(** Reading from position [k] of the rotated buffer to its end takes one or two pieces. *)
Lemma backlog_loop_spec buf idx k : 0 <= idx < zlen buf -> 0 <= k <= zlen buf ->
  exists ss, emits server (fun c => backlog_loop server 2 buf (zlen buf) ((idx + k) mod zlen buf) (zlen buf - k) c) ss /\
    concat ss = drop (Z.to_nat k) (rotated buf idx) /\ (length ss <= 2)%nat.
Proof.
  intros Hi Hk. unfold rotated. set (size := zlen buf) in *.
  assert (Hlen : length buf = Z.to_nat size) by (unfold size, zlen; lia).
  destruct (Z.lt_ge_cases (idx + k) size) as [Hlt|Hge].
  - rewrite Z.mod_small by lia. rewrite drop_app_le by (rewrite length_drop; lia). rewrite drop_drop, <- Z2Nat.inj_add by lia.
    destruct (Z.eq_dec idx 0) as [->|Hne].
    + exists [drop (Z.to_nat (0 + k)) buf]. split; [|split; [cbn; by rewrite !app_nil_r|cbn; lia]].
      eapply (emits_ext server usable_ok usable_mono); [|apply (addReplySds_emits server usable_ok usable_mono)]. intros c. cbn [backlog_loop].
      rewrite (proj2 (Z.eqb_neq (size - k) 0)) by lia. rewrite (proj2 (Z.ltb_ge _ _)) by lia. cbv iota zeta.
      rewrite (zsub_in_range buf (0 + k) (size - k)) by (fold size; lia). cbn [mbind option_bind]. rewrite take_ge by (rewrite length_drop; lia).
      destruct (addReplySds _ _ _); cbn [mbind option_bind]; [|done]. by rewrite Z.sub_diag.
    + exists ([drop (Z.to_nat (idx + k)) buf] ++ [take (Z.to_nat idx) buf]). split; [|split; [cbn; by rewrite app_nil_r|cbn; lia]].
      eapply (emits_ext server usable_ok usable_mono); [|apply (emits_seq server usable_ok usable_mono); [apply (addReplySds_emits server usable_ok usable_mono)|apply (addReplySds_emits server usable_ok usable_mono)]].
      intros c. cbn [backlog_loop].
      rewrite (proj2 (Z.eqb_neq (size - k) 0)) by lia. rewrite (proj2 (Z.ltb_lt _ _)) by lia. cbv iota zeta.
      rewrite (zsub_in_range buf (idx + k) (size - (idx + k))) by (fold size; lia). cbn [mbind option_bind]. rewrite take_ge by (rewrite length_drop; lia).
      destruct (addReplySds _ _ _) as [c1|]; cbn [mbind option_bind]; [|done].
      replace (size - k - (size - (idx + k))) with idx by lia. rewrite (proj2 (Z.eqb_neq idx 0)) by lia.
      rewrite (proj2 (Z.ltb_ge (size - 0) idx)) by lia. cbv iota zeta. rewrite (zsub_in_range buf 0 idx) by (fold size; lia). cbn [mbind option_bind Z.to_nat drop].
      destruct (addReplySds _ _ _); cbn [mbind option_bind]; [|done]. by rewrite Z.sub_diag.
  - replace ((idx + k) mod size) with (idx + k - size) by (rewrite <- (Z.mod_small (idx + k - size) size) by lia; rewrite <- (Z_mod_plus_full (idx + k - size) 1 size); f_equal; lia).
    rewrite drop_app_ge by (rewrite length_drop; lia). rewrite length_drop.
    replace (Z.to_nat k - (length buf - Z.to_nat idx))%nat with (Z.to_nat (idx + k - size)) by lia.
    destruct (Z.eq_dec k size) as [->|Hne].
    + exists []. split; [|split; [|cbn; lia]].
      * eapply (emits_ext server usable_ok usable_mono); [|apply (emits_nil server usable_ok usable_mono)]. intros c. cbn [backlog_loop]. by rewrite Z.sub_diag.
      * symmetry. apply drop_ge. rewrite length_take. lia.
    + exists [drop (Z.to_nat (idx + k - size)) (take (Z.to_nat idx) buf)]. split; [|split; [cbn; by rewrite app_nil_r|cbn; lia]].
      eapply (emits_ext server usable_ok usable_mono); [|apply (addReplySds_emits server usable_ok usable_mono)]. intros c. cbn [backlog_loop].
      rewrite (proj2 (Z.eqb_neq (size - k) 0)) by lia. rewrite (proj2 (Z.ltb_ge _ _)) by lia. cbv iota zeta.
      rewrite (zsub_in_range buf (idx + k - size) (size - k)) by (fold size; lia). cbn [mbind option_bind].
      replace (take (Z.to_nat (size - k)) (drop (Z.to_nat (idx + k - size)) buf))
        with (drop (Z.to_nat (idx + k - size)) (take (Z.to_nat idx) buf))
        by (rewrite take_drop_commute; do 2 f_equal; lia).
      destruct (addReplySds _ _ _); cbn [mbind option_bind]; [|done]. by rewrite Z.sub_diag.
Qed.

(** The backlog from an offset in its window to its end. *)
Lemma backlog_reply_spec b offset : backlog_ok b ->
  repl_backlog_off b <= offset <= repl_backlog_off b + repl_backlog_histlen b ->
  let tail := drop (Z.to_nat (offset - repl_backlog_off b)) (history b) in
  exists ss, concat ss = tail /\ (length ss <= 2)%nat /\
  forall c, out_ok c -> total_size (reply c) + needs server ss < reply_limit ->
  exists c', addReplyReplicationBacklog server b c offset = Some (zlen tail, c') /\ queued c c' (map TByte tail) (needs server ss).
Proof.
  intros [(buf & Eb & Hs) Hi Hh Ho] Hoff tail. set (skip := offset - repl_backlog_off b) in *. set (k := repl_backlog_size b - repl_backlog_histlen b + skip).
  assert (Etail : tail = drop (Z.to_nat k) (rotated buf (repl_backlog_idx b))).
  { unfold tail, history, k, skip. rewrite Eb, drop_drop. f_equal. lia. }
  destruct (backlog_loop_spec buf (repl_backlog_idx b) k) as (ss & He & Hc & Hl2); [lia|unfold k, skip; lia|].
  rewrite Hs in He. exists ss. split; [by rewrite Hc|]. split; [done|]. intros c Hok Hroom. destruct (He c Hok Hroom) as (c' & E & Hq). rewrite Hc, <- Etail in Hq.
  assert (Hzt : zlen tail = repl_backlog_histlen b - skip).
  { rewrite Etail. unfold zlen. rewrite length_drop, rotated_length by lia. unfold k, skip, zlen in *. lia. }
  exists c'. split; [|done]. unfold addReplyReplicationBacklog. destruct (Z.eqb_spec (repl_backlog_histlen b) 0) as [Hz|Hz].
  - assert (Hk : repl_backlog_size b - k = 0) by (unfold k, skip; lia). rewrite Hk in E. cbn [backlog_loop Z.eqb] in E.
    injection E as <-. rewrite Hzt. do 2 f_equal. unfold skip. lia.
  - rewrite Eb. cbn [mbind option_bind]. fold skip. cbv zeta.
    rewrite (Z.rem_mod_nonneg (repl_backlog_idx b + _)) by lia.
    pose proof (Z.mod_pos_bound (repl_backlog_idx b + (repl_backlog_size b - repl_backlog_histlen b)) (repl_backlog_size b) ltac:(lia)).
    rewrite Z.rem_mod_nonneg by (unfold skip; lia). rewrite Zplus_mod_idemp_l.
    replace (repl_backlog_idx b + (repl_backlog_size b - repl_backlog_histlen b) + skip) with (repl_backlog_idx b + k) by (unfold k; lia).
    replace (repl_backlog_histlen b - skip) with (repl_backlog_size b - k) by (unfold k; lia). rewrite E. cbn [mbind option_bind].
    rewrite Hzt. do 2 f_equal. unfold k. lia.
Qed.

(** ** The stream *)

(** The backlog belongs to a stream whose first byte has offset [base + 1]. *)
Definition follows (b : backlog) (stream : bytes) (base : Z) : Prop :=
  backlog_ok b /\ master_repl_offset b = base + zlen stream /\ exists old, stream = old ++ history b.

Lemma feed_follows b p stream base : follows b stream base ->
  exists b', feedReplicationBacklog b p = Some b' /\ follows b' (stream ++ p) base.
Proof.
  intros (Hok & Hm & old & Hst). destruct (feed_spec b p Hok) as (b' & -> & Hok' & _ & Hm' & Hh' & Hhist). exists b'. split; [done|].
  split; [done|]. split; [rewrite Hm', Hm, zlen_app; lia|]. rewrite Hhist.
  exists (old ++ take (Z.to_nat (repl_backlog_histlen b + zlen p - repl_backlog_histlen b')) (history b ++ p)).
  rewrite <- app_assoc, take_drop, Hst. by rewrite app_assoc.
Qed.

Lemma feed_obj_follows b o stream base : obj_ok o -> follows b stream base ->
  exists b', feedReplicationBacklogWithObject b o = Some b' /\ follows b' (stream ++ obj_text o) base.
Proof.
  intros Ho Hf. unfold feedReplicationBacklogWithObject. destruct o as [t|n]; cbn [mbind option_bind obj_text].
  - by apply feed_follows.
  - rewrite (ll2string_bytes_spec server usable_ok usable_mono) by done. by apply feed_follows.
Qed.

Lemma aux_line_spec prefix n : srange 64 n -> aux_line prefix n = Some (hdr prefix n).
Proof.
  intros Hn. destruct (number_line 24 prefix n Hn ltac:(lia)) as (b0 & b1 & len & b2 & b3 & b4 & P1 & P2 & P3 & P4 & P5 & P6).
  unfold aux_line. change (LONG_STR_SIZE + 3) with 24.
  rewrite P1. cbn [mbind option_bind]. rewrite P2. cbn [mbind option_bind]. rewrite P3. cbn [mbind option_bind].
  rewrite P4. cbn [mbind option_bind]. rewrite P5. exact P6.
Qed.

(** Arguments a command can have. *)
Definition oarg_ok (o : robj) : Prop := obj_ok o /\ o <> OInt INT64_MIN /\ zlen (obj_text o) < 2 ^ 63.

Lemma stringObjectLen_spec o : obj_ok o -> stringObjectLen o = zlen (obj_text o).
Proof. destruct o as [t|n]; [done|]. intros Hn. by apply digits10_counts. Qed.

Lemma feed_args_follows argv : forall b stream base, Forall oarg_ok argv -> follows b stream base ->
  exists b', feed_args b argv = Some b' /\ follows b' (stream ++ flat_map enc_arg (map obj_text argv)) base.
Proof.
  induction argv as [|o argv IH]; intros b stream base Ha Hf; [exists b; cbn; by rewrite app_nil_r|].
  apply list.Forall_cons in Ha as [(Ho & _ & Hl) Ha]. cbn [feed_args map flat_map].
  rewrite stringObjectLen_spec, aux_line_spec by (done || by apply len_range). cbn [mbind option_bind].
  destruct (feed_follows b (hdr 36 (zlen (obj_text o))) _ _ Hf) as (b1 & -> & F1). cbn [mbind option_bind].
  destruct (feed_obj_follows b1 o _ _ Ho F1) as (b2 & -> & F2). cbn [mbind option_bind].
  destruct (feed_follows b2 crlf _ _ F2) as (b3 & -> & F3). cbn [mbind option_bind].
  destruct (IH b3 _ _ Ha F3) as (b4 & -> & F4). exists b4. split; [done|]. rewrite <- !app_assoc in F4. unfold enc_arg at 1. rewrite <- !app_assoc. exact F4.
Qed.

(** ** The replicas *)

Definition slave_ok (room : Z) (sl : slave) : Prop := out_ok (sclient sl) /\ total_size (reply (sclient sl)) + room < reply_limit.

(** What a loop over the replicas does to each of them. *)
Definition fed_slave (s : bytes) (room : Z) (sl sl' : slave) : Prop :=
  wait_bgsave_start sl' = wait_bgsave_start sl /\
  if wait_bgsave_start sl then sclient sl' = sclient sl else queued (sclient sl) (sclient sl') (map TByte s) room.

Lemma feed_slaves_spec f ss l : emits server f ss -> Forall (slave_ok (needs server ss)) l ->
  exists l', feed_slaves f l = Some l' /\ Forall2 (fed_slave (concat ss) (needs server ss)) l l'.
Proof.
  intros Hf. induction 1 as [|sl l [Hok Hroom] _ (l' & IH & Hl)]; [exists []; by split|]. cbn [feed_slaves].
  destruct (wait_bgsave_start sl) eqn:Ew; cbn [mbind option_bind].
  - rewrite IH. cbn [mbind option_bind]. eexists. split; [done|]. constructor; [|done]. split; [done|]. by rewrite Ew.
  - destruct (Hf (sclient sl) Hok Hroom) as (c' & -> & Hq). cbn [mbind option_bind]. rewrite IH. cbn [mbind option_bind].
    eexists. split; [done|]. constructor; [|done]. split; [done|]. by rewrite Ew.
Qed.

Lemma fed_slave_trans s1 s2 r1 r2 l1 : forall l2 l3, Forall2 (fed_slave s1 r1) l1 l2 -> Forall2 (fed_slave s2 r2) l2 l3 ->
  Forall2 (fed_slave (s1 ++ s2) (r1 + r2)) l1 l3.
Proof.
  induction l1 as [|a l1 IH]; intros l2 l3 H12 H23.
  - inversion H12; subst. inversion H23; subst. constructor.
  - apply Forall2_cons_inv_l in H12 as (b & l2' & [Wab Hab] & H12 & ->). apply Forall2_cons_inv_l in H23 as (c & l3' & [Wbc Hbc] & H23 & ->).
    constructor; [|by eapply IH]. split; [congruence|]. rewrite Wab in Hbc. destruct (wait_bgsave_start a); [congruence|].
    rewrite map_app. by eapply (queued_trans server usable_ok usable_mono).
Qed.

Lemma fed_slave_room s r r' l : forall l', Forall2 (fed_slave s r) l l' -> 0 <= r -> Forall (slave_ok (r + r')) l -> Forall (slave_ok r') l'.
Proof.
  induction l as [|a l IH]; intros l' H Hr Hl; [inversion H; constructor|].
  apply Forall2_cons_inv_l in H as (b & l2 & [W Hab] & H & ->). apply list.Forall_cons in Hl as [[Hok Hroom] Hl].
  constructor; [|by eapply IH]. destruct (wait_bgsave_start a).
  - unfold slave_ok. rewrite Hab. split; [done|lia].
  - split; [apply Hab|]. pose proof (qd_room _ _ _ _ Hab). lia.
Qed.

Lemma add_bulks_emits argv : Forall oarg_ok argv ->
  emits server (fun c => add_bulks server c argv) (flat_map (fun o => bulk (obj_text o)) argv).
Proof.
  induction 1 as [|o argv (Ho & Hm & Hl) _ IH]; [apply (emits_nil server usable_ok usable_mono)|]. cbn [flat_map add_bulks].
  apply (emits_seq server usable_ok usable_mono (fun c => addReplyBulk server c o)); [by apply addReplyBulk_emits|done].
Qed.

Lemma concat_bulks argv : concat (flat_map (fun o => bulk (obj_text o)) argv) = flat_map enc_arg (map obj_text argv).
Proof.
  induction argv as [|o argv IH]; [done|]. cbn [flat_map map]. rewrite concat_app, IH. unfold bulk, enc_arg. cbn [concat].
  by rewrite app_nil_r.
Qed.

Lemma selectcmd_spec dictid : srange 64 dictid -> selectcmd dictid = Some (OStr (enc [str "SELECT"; decimal dictid])).
Proof.
  intros Hd. assert (E : forall size, 21 <= size -> select_text size dictid = Some (OStr (enc [str "SELECT"; decimal dictid]))).
  { intros size Hs. unfold select_text. rewrite (ll2string_bytes_spec server usable_ok usable_mono) by done. cbn [mbind option_bind].
    do 2 f_equal. unfold enc. cbn [flat_map]. unfold enc_arg. rewrite app_nil_r, <- !app_assoc. reflexivity. }
  unfold selectcmd, shared_select. by case_match; apply E.
Qed.

(** The pieces a command adds to the stream. *)
Definition command_pieces (seldb dictid : Z) (argv : list robj) : list bytes :=
  (if seldb =? dictid then [] else [enc [str "SELECT"; decimal dictid]]) ++
  [hdr 42 (zlen argv)] ++ flat_map (fun o => bulk (obj_text o)) argv.

(** The loop over the replicas for the command itself. *)
Lemma command_emits argv : Forall oarg_ok argv -> zlen argv < 2 ^ 63 ->
  emits server (fun c => c ← addReplyMultiBulkLen server c (zlen argv); add_bulks server c argv)
    ([hdr 42 (zlen argv)] ++ flat_map (fun o => bulk (obj_text o)) argv).
Proof.
  intros Ha Hl. apply (emits_seq server usable_ok usable_mono (fun c => addReplyMultiBulkLen server c (zlen argv))).
  - apply addReplyMultiBulkLen_emits; [done..|]. split; [apply zlen_nonneg|done].
  - by apply add_bulks_emits.
Qed.

Lemma fed_nothing l : Forall (slave_ok 0) l -> Forall2 (fed_slave [] 0) l l.
Proof.
  induction 1 as [|sl l [Hok Hr] _ IH]; constructor; [|done]. split; [done|]. destruct (wait_bgsave_start sl); [done|].
  destruct (emits_nil server usable_ok usable_mono (sclient sl) Hok Hr) as (c & E & Hq). by injection E as <-.
Qed.

(** Sending SELECT, when the stream is not in the database of the command. *)
Lemma feed_select s dictid stream base :
  follows (rlog s) stream base -> srange 64 dictid ->
  let ps := if slaveseldb s =? dictid then [] else [enc [str "SELECT"; decimal dictid]] in
  Forall (slave_ok (needs server ps)) (slaves s) ->
  exists s1, (if negb (slaveseldb s =? dictid) then
           o ← selectcmd dictid;
           b ← (match repl_backlog (rlog s) with Some _ => feedReplicationBacklogWithObject (rlog s) o | None => Some (rlog s) end);
           l ← feed_slaves (fun c => addReply server c o) (slaves s);
           Some (set_slaves l (set_log b s))
         else Some s) = Some s1 /\ masterhost s1 = masterhost s /\ follows (rlog s1) (stream ++ concat ps) base /\
    Forall2 (fed_slave (concat ps) (needs server ps)) (slaves s) (slaves s1).
Proof.
  intros Hf Hd ps Hs. subst ps. destruct (bl_buf _ (proj1 Hf)) as (bf & Eb & _). destruct (slaveseldb s =? dictid); cbn [negb].
  { exists s. rewrite app_nil_r. do 3 (split; [done|]). by apply fed_nothing. }
  rewrite selectcmd_spec by done. cbn [mbind option_bind]. set (o := OStr _). rewrite Eb.
  destruct (feed_obj_follows (rlog s) o stream base I Hf) as (b & -> & Hb). cbn [mbind option_bind].
  destruct (feed_slaves_spec (fun c => addReply server c o) [obj_text o] (slaves s)) as (l & -> & Hl); [by apply addReply_emits|done|].
  cbn [mbind option_bind]. exists (set_slaves l (set_log b s)). cbn [concat] in *. rewrite app_nil_r in *. done.
Qed.

(** A command on a master with a backlog. *)
Lemma feed_command s dictid argv stream base :
  masterhost s = false -> follows (rlog s) stream base -> srange 64 dictid -> Forall oarg_ok argv -> zlen argv < 2 ^ 63 ->
  let ps := command_pieces (slaveseldb s) dictid argv in
  Forall (slave_ok (needs server ps)) (slaves s) ->
  exists s', replicationFeedSlaves server s dictid argv = Some s' /\ masterhost s' = false /\ slaveseldb s' = dictid /\
    follows (rlog s') (stream ++ concat ps) base /\ Forall2 (fed_slave (concat ps) (needs server ps)) (slaves s) (slaves s').
Proof.
  intros Hm Hf Hd Ha Hl ps Hs. destruct (bl_buf _ (proj1 Hf)) as (bf & Eb & _).
  unfold replicationFeedSlaves. rewrite Hm. rewrite !bool_decide_eq_false_2 by congruence. cbn [andb negb]. rewrite andb_false_r.
  unfold ps, command_pieces in *. set (ps1 := if slaveseldb s =? dictid then _ else _) in *. rewrite (needs_app server usable_ok usable_mono), concat_app in *.
  pose proof (needs_nonneg server usable_ok usable_mono ps1). pose proof (needs_nonneg server usable_ok usable_mono ([hdr 42 (zlen argv)] ++ flat_map (fun o => bulk (obj_text o)) argv)).
  destruct (feed_select s dictid stream base Hf Hd) as (s1 & -> & Hm1 & Hf1 & Hl1).
  { eapply list.Forall_impl; [exact Hs|]. intros sl [Hok Hr]. split; [done|]. fold ps1. lia. }
  fold ps1 in Hf1, Hl1. cbn [mbind option_bind]. cbv zeta. cbn [rlog slaves set_seldb].
  destruct (bl_buf _ (proj1 Hf1)) as (bf1 & Eb1 & _). rewrite Eb1. rewrite aux_line_spec by (by apply len_range). cbn [mbind option_bind].
  destruct (feed_follows (rlog s1) (hdr 42 (zlen argv)) _ _ Hf1) as (b1 & -> & Hf2). cbn [mbind option_bind].
  destruct (feed_args_follows argv b1 _ _ Ha Hf2) as (b2 & -> & Hf3). cbn [mbind option_bind].
  destruct (feed_slaves_spec _ _ (slaves s1) (command_emits argv Ha Hl)) as (l & -> & Hl2).
  { eapply fed_slave_room; [exact Hl1|done|exact Hs]. }
  cbn [mbind option_bind]. eexists. split; [done|]. split; [cbn; congruence|]. split; [done|].
  rewrite !concat_app, concat_bulks in *. cbn [rlog set_slaves set_log slaves concat app] in *. rewrite <- !app_assoc in *. cbn [app] in *. split; [done|].
  by eapply fed_slave_trans.
Qed.

(** A replica that is a master of others passes its master's stream on unchanged. *)
Lemma feed_proxy s data stream base :
  follows (rlog s) stream base -> Forall (slave_ok (needs server [data])) (slaves s) ->
  exists s', replicationFeedSlavesFromMasterStream server s data = Some s' /\ follows (rlog s') (stream ++ data) base /\
    Forall2 (fed_slave data (needs server [data])) (slaves s) (slaves s').
Proof.
  intros Hf Hs. destruct (bl_buf _ (proj1 Hf)) as (bf & Eb & _). unfold replicationFeedSlavesFromMasterStream. rewrite Eb.
  destruct (feed_follows (rlog s) data stream base Hf) as (b & -> & Hb). cbn [mbind option_bind].
  destruct (feed_slaves_spec _ _ (slaves s) (addReplyString_emits server usable_ok usable_mono data) Hs) as (l & -> & Hl).
  cbn [mbind option_bind]. exists (set_slaves l (set_log b s)). cbn [concat] in Hl. rewrite app_nil_r in Hl. done.
Qed.

(** ** Sequences of commands *)

Definition command_ok (c : Z * list robj) : Prop := srange 64 c.1 /\ Forall oarg_ok c.2 /\ zlen c.2 < 2 ^ 63.

(** What the stream carries for a sequence of commands. *)
Fixpoint wire (seldb : Z) (cmds : list (Z * list robj)) : list (list bytes) :=
  match cmds with
  | [] => []
  | (d, argv) :: cmds =>
      (if seldb =? d then [] else [[str "SELECT"; decimal d]]) ++ [map obj_text argv] ++ wire d cmds
  end.

Fixpoint pieces (seldb : Z) (cmds : list (Z * list robj)) : list bytes :=
  match cmds with [] => [] | (d, argv) :: cmds => command_pieces seldb d argv ++ pieces d cmds end.

Lemma enc_argv argv : enc (map obj_text argv) = hdr 42 (zlen argv) ++ flat_map enc_arg (map obj_text argv).
Proof. unfold enc. do 2 f_equal. unfold zlen. by rewrite length_map. Qed.

Lemma concat_pieces cmds : forall seldb, concat (pieces seldb cmds) = flat_map enc (wire seldb cmds).
Proof.
  induction cmds as [|[d argv] cmds IH]; intros seldb; [done|]. cbn [pieces wire].
  rewrite concat_app, IH, !flat_map_app. unfold command_pieces. rewrite !concat_app, concat_bulks. cbn [flat_map concat].
  rewrite enc_argv, !app_nil_r, <- !app_assoc. by destruct (seldb =? d); cbn [flat_map concat]; rewrite ?app_nil_r.
Qed.

Lemma feed_commands_spec cmds : forall s stream base,
  masterhost s = false -> follows (rlog s) stream base -> Forall command_ok cmds ->
  let ps := pieces (slaveseldb s) cmds in
  Forall (slave_ok (needs server ps)) (slaves s) ->
  exists s', feed_commands server s cmds = Some s' /\ follows (rlog s') (stream ++ concat ps) base /\
    Forall2 (fed_slave (concat ps) (needs server ps)) (slaves s) (slaves s').
Proof.
  induction cmds as [|[d argv] cmds IH]; intros s stream base Hm Hf Hc ps Hs; subst ps; cbn [feed_commands pieces] in *.
  { exists s. rewrite app_nil_r. do 2 (split; [done|]). by apply fed_nothing. }
  apply list.Forall_cons in Hc as [(Hd & Ha & Hl) Hc]. rewrite (needs_app server usable_ok usable_mono), concat_app in *.
  pose proof (needs_nonneg server usable_ok usable_mono (command_pieces (slaveseldb s) d argv)).
  pose proof (needs_nonneg server usable_ok usable_mono (pieces d cmds)).
  destruct (feed_command s d argv stream base Hm Hf Hd Ha Hl) as (s1 & -> & Hm1 & Hd1 & Hf1 & Hl1).
  { eapply list.Forall_impl; [exact Hs|]. intros sl [Hok Hr]. split; [done|]. lia. }
  cbn [mbind option_bind]. destruct (IH s1 _ base Hm1 Hf1 Hc) as (s2 & -> & Hf2 & Hl2).
  { rewrite Hd1. eapply fed_slave_room; [exact Hl1|done|exact Hs]. }
  rewrite Hd1 in *. exists s2. split; [done|]. rewrite app_assoc. split; [done|]. by eapply fed_slave_trans.
Qed.

(** A replica executes the commands of its stream in the database last selected. *)
Fixpoint replay (db : Z) (cmds : list (list bytes)) : list (Z * list bytes) :=
  match cmds with
  | [] => []
  | argv :: cmds =>
      match argv with
      | [name; arg] =>
          if bool_decide (name = str "SELECT") then replay (default db (string2ll arg)) cmds
          else (db, argv) :: replay db cmds
      | _ => (db, argv) :: replay db cmds
      end
  end.

(** SELECT itself is not propagated. *)
Definition no_select (c : Z * list robj) : Prop := head (map obj_text c.2) <> Some (str "SELECT").

Lemma replay_wire cmds : forall db, Forall command_ok cmds -> Forall no_select cmds ->
  replay db (wire db cmds) = map (fun c => (c.1, map obj_text c.2)) cmds.
Proof.
  induction cmds as [|[d argv] cmds IH]; intros db Hc Hn; [done|].
  apply list.Forall_cons in Hc as [(Hd & _) Hc]. apply list.Forall_cons in Hn as [Hn0 Hn]. unfold no_select in Hn0. cbn [wire map fst snd] in *.
  assert (Hstep : replay d ([map obj_text argv] ++ wire d cmds) = (d, map obj_text argv) :: map (fun c => (c.1, map obj_text c.2)) cmds).
  { cbn [app replay]. rewrite <- (IH d Hc Hn). destruct (map obj_text argv) as [|n [|x [|]]]; try done.
    rewrite bool_decide_eq_false_2; [done|]. intros ->. by apply Hn0. }
  destruct (Z.eqb_spec db d) as [->|_]; [done|]. cbn [app replay]. rewrite bool_decide_eq_true_2 by done.
  rewrite string2ll_decimal by done. exact Hstep.
Qed.

(** ** Partial resynchronisation *)

(** The replica asks for a history the master shares, from an offset the backlog still reaches. *)
Definition psync_valid (s : rserver) (id : bytes) (offset : Z) : Prop :=
  (strcasecmp id (replid s) = false \/ strcasecmp id (replid2 s) = false /\ offset <= second_replid_offset s) /\
  repl_backlog_off (rlog s) <= offset <= master_repl_offset (rlog s) + 1.

Lemma needs_two ss h : (length ss <= 2)%nat -> zlen (concat ss) <= zlen h -> needs server ss <= 2 * need server h.
Proof.
  intros Hl Hz. pose proof (need_pos server usable_ok usable_mono h) as [Hp _].
  assert (Hmono : forall a, zlen a <= zlen h -> need server a <= need server h) by (intros; by apply need_mono).
  unfold needs. destruct ss as [|a [|b [|x ss]]]; cbn [length] in Hl; cbn [foldr]; [lia|..|lia]; cbn [concat] in Hz; rewrite app_nil_r, ?zlen_app in Hz.
  - pose proof (Hmono a Hz). lia.
  - pose proof (zlen_nonneg a). pose proof (zlen_nonneg b). pose proof (Hmono a ltac:(lia)). pose proof (Hmono b ltac:(lia)). lia.
Qed.

Lemma accepts_slave c : accepts (set_flags (Z.setbit (flags c) CLIENT_SLAVE) c) = accepts c.
Proof. unfold accepts, has. cbn [flags set_flags fd]. by rewrite !Z.setbit_neq. Qed.

Lemma psync_accepted s c id arg offset (psync2 : bool) stream base :
  follows (rlog s) stream base -> out_ok c -> total_size (reply c) + 2 * need server (history (rlog s)) < reply_limit ->
  getLongLongFromObject arg = Some offset -> psync_valid s id offset ->
  let line := (if psync2 then str "+CONTINUE " ++ replid s else str "+CONTINUE") ++ crlf in
  let tail := drop (Z.to_nat (offset - base - 1)) stream in
  exists c', masterTryPartialResynchronization server s c id arg psync2 true =
      Some (true, set_slaves (slaves s ++ [Slave false c']) s, c') /\ out_ok c' /\ accepts c' = accepts c /\
    pending c' = pending c ++ (if accepts c then map TByte tail else []) /\ sent c' = sent c ++ line /\
    total_size (reply c') <= total_size (reply c) + 2 * need server (history (rlog s)) /\ base + 1 <= offset.
Proof.
  intros (Hb & Hmo & old & Hst) Hok Hroom Ha [Hid Hoff] line tail. unfold masterTryPartialResynchronization. rewrite Ha.
  pose proof (history_length _ Hb) as Hh. destruct (bl_buf _ Hb) as (bf & Ebf & _). pose proof (bl_off _ Hb) as Ho.
  assert (Hz : zlen stream = zlen old + repl_backlog_histlen (rlog s)) by (rewrite Hst, zlen_app; lia).
  pose proof (zlen_nonneg old).
  replace (strcasecmp id (replid s) && _) with false
    by (destruct Hid as [->|[-> Hle]]; [done|]; rewrite Z.gtb_ltb, (proj2 (Z.ltb_ge _ _)) by done; by rewrite andb_false_r).
  cbv zeta. rewrite bool_decide_eq_false_2 by congruence. rewrite (proj2 (Z.ltb_ge _ _)) by lia. rewrite Z.gtb_ltb, (proj2 (Z.ltb_ge _ _)) by lia.
  cbn [orb negb]. set (c1 := set_sent _ _). fold line.
  assert (Hok1 : out_ok c1) by (destruct Hok; by split).
  destruct (backlog_reply_spec (rlog s) offset Hb) as (ss & Hc & Hl & Hq); [lia|].
  assert (Et : drop (Z.to_nat (offset - repl_backlog_off (rlog s))) (history (rlog s)) = tail).
  { unfold tail. rewrite Hst. rewrite drop_app_ge by (unfold zlen in *; lia). f_equal. unfold zlen in *. lia. }
  rewrite Et in *. assert (Hn : needs server ss <= 2 * need server (history (rlog s))).
  { apply needs_two; [done|]. rewrite Hc, <- Et. unfold zlen. rewrite length_drop. lia. }
  destruct (Hq c1 Hok1) as (c' & -> & Q).
  { change (total_size (reply c1)) with (total_size (reply c)). lia. }
  cbn [mbind option_bind]. exists c'. split; [done|]. split; [apply Q|]. pose proof (accepts_slave c) as Eacc. change (accepts c1 = accepts c) in Eacc.
  rewrite (qd_accepts _ _ _ _ Q), (qd_pending _ _ _ _ Q), (qd_sent _ _ _ _ Q), Eacc. do 3 (split; [done|]).
  pose proof (qd_room _ _ _ _ Q) as Hr. change (total_size (reply c1)) with (total_size (reply c)) in Hr. split; lia.
Qed.

Lemma psync_rejected s c id arg offset psync2 written : backlog_ok (rlog s) ->
  getLongLongFromObject arg = Some offset -> ~ psync_valid s id offset ->
  masterTryPartialResynchronization server s c id arg psync2 written = Some (false, s, c).
Proof.
  intros Hb Ha Hv. unfold masterTryPartialResynchronization. rewrite Ha. pose proof (bl_off _ Hb).
  destruct (strcasecmp id (replid s) && _) eqn:E1; [done|]. destruct (bool_decide _ || _ || _) eqn:E2; [done|].
  exfalso. apply Hv. apply orb_false_elim in E2 as [E2 E4]. apply orb_false_elim in E2 as [_ E3]. zb. split; [|lia].
  destruct (strcasecmp id (replid s)); [|by left]. right. cbn [andb] in E1. apply orb_false_elim in E1 as [E1 E5]. zb. by split.
Qed.
End Output.

(** Feeding in turn. *)
Fixpoint feed_all (b : backlog) (ps : list bytes) : option backlog :=
  match ps with [] => Some b | p :: ps => b ← feedReplicationBacklog b p; feed_all b ps end.

(** [b] holds the most recent bytes of [s]. *)
Definition recent (b : backlog) (s : bytes) : Prop :=
  backlog_ok b /\ repl_backlog_histlen b = Z.min (repl_backlog_size b) (zlen s) /\
  history b = drop (Z.to_nat (zlen s - repl_backlog_histlen b)) s.

Lemma feed_recent b p s : recent b s ->
  exists b', feedReplicationBacklog b p = Some b' /\ recent b' (s ++ p) /\ repl_backlog_size b' = repl_backlog_size b /\
    master_repl_offset b' = master_repl_offset b + zlen p.
Proof.
  intros (Hok & Hh & Hs). destruct (feed_spec b p Hok) as (b' & -> & Hok' & Hsz & Hm & Hh' & Hs'). exists b'. split; [done|].
  split; [|done]. pose proof (bl_hist _ Hok). pose proof (zlen_nonneg s). pose proof (zlen_nonneg p). pose proof (bl_hist _ Hok').
  split; [done|]. rewrite zlen_app. split; [lia|]. rewrite Hs', Hs.
  rewrite <- (drop_app_le s p) by (unfold zlen in *; lia). rewrite drop_drop. f_equal. lia.
Qed.

Lemma feed_all_recent ps : forall b s, recent b s ->
  exists b', feed_all b ps = Some b' /\ recent b' (s ++ concat ps) /\ repl_backlog_size b' = repl_backlog_size b /\
    master_repl_offset b' = master_repl_offset b + zlen (concat ps).
Proof.
  induction ps as [|p ps IH]; intros b s Hb.
  - exists b. cbn [concat]. rewrite app_nil_r. do 3 (split; [done|]). change (zlen []) with 0. lia.
  - cbn [feed_all concat]. destruct (feed_recent b p s Hb) as (b1 & -> & H1 & Hs1 & Hm1). cbn [mbind option_bind].
    destruct (IH b1 _ H1) as (b2 & -> & H2 & Hs2 & Hm2). exists b2. rewrite app_assoc. split; [done|]. split; [done|].
    rewrite zlen_app. split; [congruence|lia].
Qed.

Lemma empty_recent size off : 0 < size -> recent (Backlog (Some (zresize [] size)) size 0 0 (off + 1) off) [].
Proof.
  intros Hs. assert (Hl : length (zresize [] size) = Z.to_nat size) by (unfold zresize; rewrite length_app, length_take, length_replicate; unfold zlen; cbn [length]; lia).
  split; [|split; [cbn [repl_backlog_histlen repl_backlog_size]; change (zlen []) with 0; lia|]].
  - split; cbn [repl_backlog repl_backlog_size repl_backlog_idx repl_backlog_histlen repl_backlog_off master_repl_offset]; [|lia..].
    eexists. split; [done|]. unfold zlen. lia.
  - unfold history. cbn [repl_backlog repl_backlog_size repl_backlog_idx repl_backlog_histlen]. unfold rotated. change (Z.to_nat 0) with 0%nat.
    rewrite drop_0, app_nil_r, drop_nil. apply drop_ge. rewrite Hl. lia.
Qed.

(** Changing the size, to larger ones too, starts an empty history. *)
Lemma resize_discards_history b newsize : is_Some (repl_backlog b) ->
  repl_backlog_size b <> Z.max newsize CONFIG_REPL_BACKLOG_MIN_SIZE ->
  recent (resizeReplicationBacklog b newsize) [] /\ master_repl_offset (resizeReplicationBacklog b newsize) = master_repl_offset b.
Proof.
  intros [bf E] Hne. unfold resizeReplicationBacklog.
  replace (if newsize <? _ then _ else _) with (Z.max newsize CONFIG_REPL_BACKLOG_MIN_SIZE) by (zcase; lia).
  rewrite (proj2 (Z.eqb_neq _ _)) by done. rewrite E. split; [|done]. apply empty_recent. unfold CONFIG_REPL_BACKLOG_MIN_SIZE. lia.
Qed.

(** * Properties *)

(** The backlog holds exactly the most recent bytes of the stream: after it is created and fed any
    pieces, its history is the longest suffix of their concatenation that fits, for pieces of any
    size and however often the buffer wraps, and the offsets name the first and the last byte of
    it. *)
Theorem backlog_keeps_recent size off ps :
  0 < size ->
  exists b0 b, createReplicationBacklog (Backlog None size 0 0 0 off) = Some b0 /\ feed_all b0 ps = Some b /\
    history b = drop (length (concat ps) - Z.to_nat size) (concat ps) /\
    master_repl_offset b = off + zlen (concat ps) /\
    repl_backlog_off b = master_repl_offset b - zlen (history b) + 1.
Proof.
  intros Hs. destruct (feed_all_recent ps _ _ (empty_recent size off Hs)) as (b & E & (Hok & Hh & Hr) & Hsz & Hm).
  cbn [repl_backlog_size master_repl_offset app] in *. eexists _, b. split; [done|]. split; [exact E|].
  rewrite (history_length b Hok), (bl_off _ Hok), Hm. split; [|done]. rewrite Hr, Hh, Hsz. f_equal. unfold zlen. lia.
Qed.

Lemma backlog_keeps_recent_witness : exists b0 b,
  createReplicationBacklog (Backlog None 4 0 0 0 100) = Some b0 /\ feed_all b0 [[1; 2; 3]; [4; 5; 6; 7; 8; 9]; [10]] = Some b /\
  history b = [7; 8; 9; 10] /\ master_repl_offset b = 110 /\ repl_backlog_off b = 107.
Proof.
  destruct (backlog_keeps_recent 4 100 [[1; 2; 3]; [4; 5; 6; 7; 8; 9]; [10]] ltac:(lia)) as (b0 & b & E0 & E & Hh & Hm & Ho).
  exists b0, b. split; [exact E0|]. split; [exact E|]. split; [exact Hh|]. split; [exact Hm|]. rewrite Ho, Hm, Hh. reflexivity.
Defined.

(** Any sequence of write commands of a master puts the same bytes into the backlog and behind
    the queue of every replica that is not waiting for BGSAVE: the RESP text of the commands, with
    a SELECT wherever the database changes, so that a replica that executes the stream runs
    exactly these commands, each in its database. *)
Theorem replication_stream_consistent (server : oserver) s cmds stream base :
  (forall n, 0 <= n -> n <= zmalloc_usable server n) ->
  (forall n m, 0 <= n <= m -> zmalloc_usable server n <= zmalloc_usable server m) ->
  masterhost s = false -> follows (rlog s) stream base -> Forall command_ok cmds -> Forall no_select cmds ->
  let room := needs server (pieces (slaveseldb s) cmds) in
  Forall (slave_ok room) (slaves s) ->
  let text := flat_map enc (wire (slaveseldb s) cmds) in
  exists s', feed_commands server s cmds = Some s' /\ follows (rlog s') (stream ++ text) base /\
    Forall2 (fed_slave text room) (slaves s) (slaves s') /\
    replay (slaveseldb s) (wire (slaveseldb s) cmds) = map (fun c => (c.1, map obj_text c.2)) cmds.
Proof.
  intros Hu Hm Hmh Hf Hc Hn room Hs text. destruct (feed_commands_spec server Hu Hm cmds s stream base Hmh Hf Hc Hs) as (s' & E & Hf' & Hl').
  unfold text. rewrite <- (concat_pieces server Hu Hm). exists s'. do 3 (split; [done|]). by apply (replay_wire server Hu Hm).
Qed.

(** A master with one replica and one that waits. *)
Definition log0 : backlog := Backlog (Some (replicate 64 0)) 64 0 0 1 0.
Definition master0 : rserver :=
  RServer log0 [Slave false client0; Slave true client0] (-1) false (str "abc") (str "def") (-1).
Definition cmds0 : list (Z * list robj) :=
  [(0, [OStr (str "SET"); OStr (str "k"); OInt (-5)]); (0, [OStr (str "DEL"); OStr (str "k")]); (3, [OStr (str "DEL"); OStr (str "x")])].

Lemma log0_follows : follows log0 [] 0.
Proof.
  split; [|split; [done|exists []; reflexivity]]. split; cbn; [by exists (replicate 64 0)|lia..].
Qed.

Lemma cmds0_ok : Forall command_ok cmds0 /\ Forall no_select cmds0.
Proof. by split; repeat constructor. Qed.

Lemma slaves0_ok : Forall (slave_ok (needs server0 (pieces (slaveseldb master0) cmds0))) (slaves master0).
Proof. repeat constructor; (exact client0_ok || exact I || done). Qed.

Lemma replication_stream_consistent_witness : exists s', feed_commands server0 master0 cmds0 = Some s' /\
  follows (rlog s') (flat_map enc (wire (-1) cmds0)) 0.
Proof.
  destruct (replication_stream_consistent server0 master0 cmds0 [] 0) as (s' & E & Hf & _);
    [apply server0_usable..|done|exact log0_follows|apply cmds0_ok|apply cmds0_ok|exact slaves0_ok|]. exists s'. split; [exact E|exact Hf].
Defined.

(** Partial resynchronisation hands a replica exactly what it misses: a request for a shared
    history at an offset the backlog reaches (offset = the next byte the replica needs) gets the
    status line and then the rest of the stream from there; every other request is refused and
    changes nothing. *)
Theorem psync_continues_stream (server : oserver) s c id arg offset (psync2 : bool) stream base :
  (forall n, 0 <= n -> n <= zmalloc_usable server n) ->
  (forall n m, 0 <= n <= m -> zmalloc_usable server n <= zmalloc_usable server m) ->
  follows (rlog s) stream base -> out_ok c -> accepts c = true ->
  total_size (reply c) + 2 * need server (history (rlog s)) < reply_limit ->
  getLongLongFromObject arg = Some offset ->
  let line := (if psync2 then str "+CONTINUE " ++ replid s else str "+CONTINUE") ++ crlf in
  (psync_valid s id offset -> exists c' missing,
     masterTryPartialResynchronization server s c id arg psync2 true = Some (true, set_slaves (slaves s ++ [Slave false c']) s, c') /\
     out_ok c' /\ sent c' = sent c ++ line /\ pending c' = pending c ++ map TByte missing /\
     0 <= offset - base - 1 /\ take (Z.to_nat (offset - base - 1)) stream ++ missing = stream) /\
  (~ psync_valid s id offset -> forall written,
     masterTryPartialResynchronization server s c id arg psync2 written = Some (false, s, c)).
Proof.
  intros Hu Hm Hf Hok Hacc Hroom Ha line. split; intros Hv.
  - destruct (psync_accepted server Hu Hm s c id arg offset psync2 stream base Hf Hok Hroom Ha Hv) as (c' & E & Hok' & _ & Hp & Hs & _ & Hb).
    rewrite Hacc in Hp. exists c', (drop (Z.to_nat (offset - base - 1)) stream). do 4 (split; [done|]). split; [lia|]. apply take_drop.
  - intros written. apply (psync_rejected server Hu Hm s c id arg offset psync2 written); [apply Hf|done|done].
Qed.

(** The bytes 1..10 of a stream, the last four of them in the backlog. *)
Definition log1 : backlog := Backlog (Some [9; 10; 7; 8]) 4 4 2 7 10.
Definition master1 : rserver := RServer log1 [] 0 false (str "abc") (str "def") (-1).

Lemma log1_follows : follows log1 [1; 2; 3; 4; 5; 6; 7; 8; 9; 10] 0.
Proof.
  split; [|split; [done|by exists [1; 2; 3; 4; 5; 6]]]. split; cbn; [by exists [9; 10; 7; 8]|lia..].
Qed.

Lemma master1_valid : psync_valid master1 (str "ABC") 8.
Proof. split; [by left|cbn; lia]. Qed.

Lemma psync_continues_stream_witness : exists c' missing,
  masterTryPartialResynchronization server0 master1 client0 (str "ABC") (OStr (str "8")) true true =
    Some (true, set_slaves [Slave false c'] master1, c') /\ sent c' = str "+CONTINUE abc" ++ crlf /\
  pending c' = map TByte missing /\ [1; 2; 3; 4; 5; 6; 7] ++ missing = [1; 2; 3; 4; 5; 6; 7; 8; 9; 10].
Proof.
  destruct (psync_continues_stream server0 master1 client0 (str "ABC") (OStr (str "8")) 8 true [1; 2; 3; 4; 5; 6; 7; 8; 9; 10] 0)
    as [(c' & missing & E & _ & Hs & Hp & _ & Hm) _]; [apply server0_usable..|exact log1_follows|exact client0_ok|done|done|reflexivity|exact master1_valid|].
  exists c', missing. split; [exact E|]. split; [exact Hs|]. split; [exact Hp|exact Hm].
Defined.

(** C16. A replica that reconnects loses nothing and gets nothing twice: after an accepted PSYNC and
    any further write commands of the master, what the replica had received followed by what is
    queued for it is the whole stream of the master. *)
Theorem replica_catches_up (server : oserver) s c id arg offset (psync2 : bool) stream base cmds :
  (forall n, 0 <= n -> n <= zmalloc_usable server n) ->
  (forall n m, 0 <= n <= m -> zmalloc_usable server n <= zmalloc_usable server m) ->
  masterhost s = false -> follows (rlog s) stream base -> out_ok c -> accepts c = true ->
  getLongLongFromObject arg = Some offset -> psync_valid s id offset -> Forall command_ok cmds ->
  let room := needs server (pieces (slaveseldb s) cmds) in
  Forall (slave_ok room) (slaves s) ->
  total_size (reply c) + 2 * need server (history (rlog s)) + room < reply_limit ->
  exists s1 c1 s2 others c2 rest,
    masterTryPartialResynchronization server s c id arg psync2 true = Some (true, s1, c1) /\
    feed_commands server s1 cmds = Some s2 /\ slaves s2 = others ++ [Slave false c2] /\
    pending c2 = pending c ++ map TByte rest /\
    take (Z.to_nat (offset - base - 1)) stream ++ rest = stream ++ flat_map enc (wire (slaveseldb s) cmds).
Proof.
  intros Hu Hm Hmh Hf Hok Hacc Ha Hv Hc room Hs Hroom.
  assert (Hpos : 0 <= room) by apply (needs_nonneg server Hu Hm).
  destruct (psync_accepted server Hu Hm s c id arg offset psync2 stream base Hf Hok ltac:(lia) Ha Hv)
    as (c1 & E1 & Hok1 & Ha1 & Hp1 & _ & Hr1 & _).
  destruct (feed_commands_spec server Hu Hm cmds (set_slaves (slaves s ++ [Slave false c1]) s) stream base Hmh Hf Hc) as (s2 & E2 & _ & Hl2).
  { apply Forall_app. split; [exact Hs|]. constructor; [|constructor]. split; [exact Hok1|]. cbn [sclient slaveseldb set_slaves]. fold room. lia. }
  cbn [slaves set_slaves slaveseldb] in Hl2. apply Forall2_app_inv_l in Hl2 as (others & l & _ & Hl & Hsl).
  apply Forall2_cons_inv_l in Hl as ([w c2] & l' & [Hw Hq] & Hnil & ->). inversion Hnil; subst l'. cbn [wait_bgsave_start sclient] in *. subst w.
  eexists _, c1, s2, others, c2, (drop (Z.to_nat (offset - base - 1)) stream ++ _). split; [exact E1|]. split; [exact E2|]. split; [exact Hsl|].
  split; [rewrite (qd_pending _ _ _ _ Hq), Ha1, Hacc, Hp1, Hacc, map_app, <- app_assoc; reflexivity|].
  by rewrite app_assoc, take_drop, (concat_pieces server Hu Hm).
Qed.

Lemma replica_catches_up_witness : exists s1 c1 s2 others c2 rest,
  masterTryPartialResynchronization server0 master1 client0 (str "ABC") (OStr (str "8")) true true = Some (true, s1, c1) /\
  feed_commands server0 s1 cmds0 = Some s2 /\ slaves s2 = others ++ [Slave false c2] /\ pending c2 = map TByte rest /\
  [1; 2; 3; 4; 5; 6; 7] ++ rest = [1; 2; 3; 4; 5; 6; 7; 8; 9; 10] ++ flat_map enc (wire 0 cmds0).
Proof.
  apply (replica_catches_up server0 master1 client0 (str "ABC") (OStr (str "8")) 8 true [1; 2; 3; 4; 5; 6; 7; 8; 9; 10] 0 cmds0);
    [apply server0_usable|apply server0_usable|done|exact log1_follows|exact client0_ok|done|reflexivity|exact master1_valid|apply cmds0_ok|constructor|done].
Defined.
