(* ===== verification/Lzf.v ===== *)
(** The LZF compressor and decompressor (lzf_c.c, lzf_d.c), in the configuration of lzfP.h:
    [HLOG] 16, [VERY_FAST], offsets in the hash table, no initialisation of the table,
    [CHECK_INPUT], unaligned loads.

    Pointers are offsets into the input or output buffer.  The hash table is uninitialised memory:
    a function of the index that the theorems quantify over.  [None] is an access outside a buffer
    or the table. *)

From S2P Require Import Prelude.
#[local] Open Scope Z_scope.

Definition HLOG : Z := 16.
Definition HSIZE : Z := Z.shiftl 1 HLOG.
Definition MAX_LIT : Z := Z.shiftl 1 5.
Definition MAX_OFF : Z := Z.shiftl 1 13.
Definition MAX_REF : Z := Z.shiftl 1 8 + Z.shiftl 1 3.

(** * Compression *)

(** [LZF_STATE]: 32-bit offsets. *)
Definition LZF_STATE : Type := Z -> Z.

Definition hslot_get (htab : LZF_STATE) (i : Z) : option Z :=
  if (0 <=? i) && (i <? HSIZE) then Some (htab i) else None.
Definition hslot_set (htab : LZF_STATE) (i v : Z) : option LZF_STATE :=
  if (0 <=? i) && (i <? HSIZE) then Some (fun j => if j =? i then u32 v else htab j) else None.

Record cstate := CState { c_ip : Z; c_op : Z; c_lit : Z; c_hval : Z; c_htab : LZF_STATE; c_out : bytes }.

Section Compress.
Context (in_data : bytes).
#[local] Abbreviation in_len := (zlen in_data).

Definition FRST (p : Z) : option Z :=
  a ← zget in_data p; b ← zget in_data (p + 1); Some (Z.lor (Z.shiftl a 8) b).
Definition NEXT (v p : Z) : option Z :=
  c ← zget in_data (p + 2); Some (Z.lor (u32 (Z.shiftl v 8)) c).
Definition IDX (h : Z) : Z := Z.land (u32 (Z.shiftr h (3 * 8 - HLOG) - h * 5)) (HSIZE - 1).

(** [n] of the unrolled steps; [true]: left with [break]. *)
Fixpoint unrolled (n : nat) (ref ip len : Z) : option (bool * Z) :=
  match n with
  | O => Some (false, len)
  | S n =>
      let len := len + 1 in
      a ← zget in_data (ref + len);
      b ← zget in_data (ip + len);
      if negb (a =? b) then Some (true, len) else unrolled n ref ip len
  end.

(** [do len++; while (len < maxlen && ref[len] == ip[len])]. *)
Fixpoint extend (fuel : nat) (ref ip maxlen len : Z) : option Z :=
  match fuel with
  | O => None
  | S fuel =>
      let len := len + 1 in
      if len <? maxlen then
        a ← zget in_data (ref + len);
        b ← zget in_data (ip + len);
        if a =? b then extend fuel ref ip maxlen len else Some len
      else Some len
  end.

(** The length of the match of [ref] and [ip]; the first three bytes are known to agree. *)
Definition match_len (ref ip : Z) : option Z :=
  let len := 2 in
  let maxlen := u32 (in_len - ip - len) in
  let maxlen := if maxlen >? MAX_REF then MAX_REF else maxlen in
  '(broke, len) ← (if maxlen >? 16 then unrolled 16 ref ip len else Some (false, len));
  if broke : bool then Some len else extend (S (Z.to_nat maxlen)) ref ip maxlen len.

(** [off < MAX_OFF && ref > in_data && ref[2] == ip[2] && *(u16 * )ref == *(u16 * )ip], with [off]. *)
Definition is_match (ref ip : Z) : option (bool * Z) :=
  let off := u64 (ip - ref - 1) in
  if negb (off <? MAX_OFF) then Some (false, off)
  else if negb (ref >? 0) then Some (false, off)
  else
    a ← zget in_data (ref + 2);
    b ← zget in_data (ip + 2);
    if negb (a =? b) then Some (false, off)
    else
      x ← zsub in_data ref 2;
      y ← zsub in_data ip 2;
      Some (bool_decide (x = y), off).

(** [lit++; *op++ = *ip++;] and the end of a full run. *)
Definition literal (s : cstate) : option cstate :=
  let lit := c_lit s + 1 in
  b ← zget in_data (c_ip s);
  out ← zput (c_out s) (c_op s) [b];
  let op := c_op s + 1 in
  let ip := c_ip s + 1 in
  if lit =? MAX_LIT then
    out ← zput out (op - lit - 1) [u8 (lit - 1)];
    Some (CState ip (op + 1) 0 (c_hval s) (c_htab s) out)
  else Some (CState ip op lit (c_hval s) (c_htab s) out).

(** The reference [off], [len] (already [#octets - 2]) at [op]; returns the new [op]. *)
Definition put_ref (out : bytes) (op off len : Z) : option (bytes * Z) :=
  '(out, op) ←
    (if len <? 7 then
       out ← zput out op [u8 (Z.shiftr off 8 + Z.shiftl len 5)]; Some (out, op + 1)
     else
       out ← zput out op [u8 (Z.shiftr off 8 + Z.shiftl 7 5)];
       out ← zput out (op + 1) [u8 (len - 7)];
       Some (out, op + 2));
  out ← zput out op [u8 off];
  Some (out, op + 1).

(** How an iteration ends. *)
Inductive outcome := Full (out : bytes) | Break (s : cstate) | Continue (s : cstate).

Definition lzf_step (out_len : Z) (s : cstate) : option outcome :=
  let ip := c_ip s in
  hval ← NEXT (c_hval s) ip;
  ref ← hslot_get (c_htab s) (IDX hval);
  htab ← hslot_set (c_htab s) (IDX hval) ip;
  '(found, off) ← is_match ref ip;
  if found : bool then
    let notlit := if c_lit s =? 0 then 1 else 0 in
    if (c_op s + 3 + 1 >=? out_len) && (c_op s - notlit + 3 + 1 >=? out_len) then Some (Full (c_out s))
    else
      out ← zput (c_out s) (c_op s - c_lit s - 1) [u8 (c_lit s - 1)];
      let op := c_op s - notlit in
      len ← match_len ref ip;
      let len := len - 2 in
      let ip := ip + 1 in
      '(out, op) ← put_ref out op off len;
      let op := op + 1 in
      let ip := ip + (len + 1) in
      if ip >=? in_len - 2 then Some (Break (CState ip op 0 hval htab out))
      else
        let ip := ip - 2 in
        hval ← FRST ip;
        hval ← NEXT hval ip;
        htab ← hslot_set htab (IDX hval) ip;
        let ip := ip + 1 in
        hval ← NEXT hval ip;
        htab ← hslot_set htab (IDX hval) ip;
        Some (Continue (CState (ip + 1) op 0 hval htab out))
  else if c_op s >=? out_len then Some (Full (c_out s))
  else s ← literal (CState ip (c_op s) (c_lit s) hval htab (c_out s)); Some (Continue s).

(** [while (ip < in_end - 2)]; [inl] is [return 0]. *)
Fixpoint lzf_loop (fuel : nat) (out_len : Z) (s : cstate) : option (bytes + cstate) :=
  if c_ip s <? in_len - 2 then
    match fuel with
    | O => None
    | S fuel =>
        o ← lzf_step out_len s;
        match o with
        | Full out => Some (inl out)
        | Break s => Some (inr s)
        | Continue s => lzf_loop fuel out_len s
        end
    end
  else Some (inr s).

(** [while (ip < in_end)]. *)
Fixpoint lzf_tail (fuel : nat) (s : cstate) : option cstate :=
  if c_ip s <? in_len then
    match fuel with
    | O => None
    | S fuel => s ← literal s; lzf_tail fuel s
    end
  else Some s.

(** Returns the compressed length, 0 on failure, and the output buffer. *)
Definition lzf_compress (htab : LZF_STATE) (out_data : bytes) : option (Z * bytes) :=
  let out_len := zlen out_data in
  if (in_len =? 0) || (out_len =? 0) then Some (0, out_data)
  else
    hval ← FRST 0;
    r ← lzf_loop (length in_data) out_len (CState 0 1 0 hval htab out_data);
    match r with
    | inl out => Some (0, out)
    | inr s =>
        if c_op s + 3 >? out_len then Some (0, c_out s)
        else
          s ← lzf_tail 2 s;
          out ← zput (c_out s) (c_op s - c_lit s - 1) [u8 (c_lit s - 1)];
          Some (c_op s - (if c_lit s =? 0 then 1 else 0), out)
    end.
End Compress.

(** * Decompression *)

(** [n] times [*op++ = *ref++]. *)
Fixpoint copy_octets (n : nat) (out : bytes) (op ref : Z) : option bytes :=
  match n with
  | O => Some out
  | S n => b ← zget out ref; out ← zput out op [b]; copy_octets n out (op + 1) (ref + 1)
  end.

(** [len + 2] octets from [ref] to [op]. *)
Definition copy_ref (out : bytes) (op ref len : Z) : option bytes :=
  if len <=? 9 then copy_octets (Z.to_nat (len + 2)) out op ref
  else
    let len := len + 2 in
    if op >=? ref + len then zmove out op ref len else copy_octets (Z.to_nat len) out op ref.

(** One iteration: [inl] is [return 0], otherwise the new [ip], [op] and output. *)
Definition decompress_step (in_data : bytes) (ip op : Z) (out : bytes) : option (bytes + Z * Z * bytes) :=
  let in_end := zlen in_data in
  let out_end := zlen out in
  ctrl ← zget in_data ip;
  let ip := ip + 1 in
  if ctrl <? Z.shiftl 1 5 then
    let ctrl := ctrl + 1 in
    if op + ctrl >? out_end then Some (inl out)
    else if ip + ctrl >? in_end then Some (inl out)
    else
      s ← zsub in_data ip ctrl;
      out ← zput out op s;
      Some (inr (ip + ctrl, op + ctrl, out))
  else
    let len := Z.shiftr ctrl 5 in
    let ref := op - Z.shiftl (Z.land ctrl 31) 8 - 1 in
    if ip >=? in_end then Some (inl out)
    else
      r ← (if len =? 7 then
             b ← zget in_data ip;
             let ip := ip + 1 in
             Some (if ip >=? in_end then None else Some (len + b, ip))
           else Some (Some (len, ip)));
      match r with
      | None => Some (inl out)
      | Some (len, ip) =>
          b ← zget in_data ip;
          let ref := ref - b in
          let ip := ip + 1 in
          if op + len + 2 >? out_end then Some (inl out)
          else if ref <? 0 then Some (inl out)
          else out ← copy_ref out op ref len; Some (inr (ip, op + len + 2, out))
      end.

Fixpoint decompress_loop (fuel : nat) (in_data : bytes) (ip op : Z) (out : bytes) : option (Z * bytes) :=
  match fuel with
  | O => None
  | S fuel =>
      r ← decompress_step in_data ip op out;
      match r with
      | inl out => Some (0, out)
      | inr (ip, op, out) =>
          if ip <? zlen in_data then decompress_loop fuel in_data ip op out else Some (op, out)
      end
  end.

(** Returns the length of the result, 0 on failure, and the output buffer. *)
Definition lzf_decompress (in_data out_data : bytes) : option (Z * bytes) :=
  decompress_loop (S (length in_data)) in_data 0 0 out_data.

(** * The compressed format *)

(** A run of literals, or a reference [off + 1] bytes back of [n + 2] bytes. *)
Inductive lzf_token := TLit (l : bytes) | TRef (off n : Z).

Definition enc_tok (t : lzf_token) : bytes :=
  match t with
  | TLit l => zlen l - 1 :: l
  | TRef off n =>
      if n <? 7 then [off / 256 + n * 32; off mod 256] else [off / 256 + 224; n - 7; off mod 256]
  end.

(** [k] bytes, each a copy of the one [off + 1] positions before it. *)
Fixpoint nref (k : nat) (off : Z) (acc : bytes) : bytes :=
  match k with
  | O => acc
  | S k => nref k off (acc ++ [default 0 (zget acc (zlen acc - off - 1))])
  end.

Definition expand1 (acc : bytes) (t : lzf_token) : bytes :=
  match t with TLit l => acc ++ l | TRef off n => nref (Z.to_nat (n + 2)) off acc end.
Definition expand (acc : bytes) (toks : list lzf_token) : bytes := foldl expand1 acc toks.

Definition tok_ok (acc : bytes) (t : lzf_token) : Prop :=
  match t with
  | TLit l => 1 <= zlen l <= 32
  | TRef off n => 0 <= off < 8192 /\ off < zlen acc /\ 1 <= n <= 262
  end.
Fixpoint toks_ok (acc : bytes) (toks : list lzf_token) : Prop :=
  match toks with [] => True | t :: toks => tok_ok acc t /\ toks_ok (expand1 acc t) toks end.

Lemma toks_ok_snoc toks t : forall acc, toks_ok acc toks -> tok_ok (expand acc toks) t -> toks_ok acc (toks ++ [t]).
Proof. induction toks as [|u toks IH]; intros acc; [by split|]. intros [H1 H2] H3. split; [done|]. by apply IH. Qed.

Lemma expand_snoc acc toks t : expand acc (toks ++ [t]) = expand1 (expand acc toks) t.
Proof. unfold expand. by rewrite foldl_app. Qed.

Lemma nref_length k off : forall acc, zlen (nref k off acc) = zlen acc + Z.of_nat k.
Proof. induction k as [|k IH]; intros acc; cbn [nref]; [lia|]. rewrite IH, zlen_app, zlen_cons, zlen_nil. lia. Qed.

Lemma expand1_grows acc t : tok_ok acc t -> zlen acc <= zlen (expand1 acc t).
Proof. destruct t as [l|off n]; cbn [expand1 tok_ok]; intros; [rewrite zlen_app|rewrite nref_length]; lia. Qed.

Lemma expand_grows toks : forall acc, toks_ok acc toks -> zlen acc <= zlen (expand acc toks).
Proof.
  induction toks as [|t toks IH]; intros acc H; [done|]. destruct H as [H1 H2]. pose proof (expand1_grows _ _ H1).
  specialize (IH _ H2). unfold expand in *. cbn [foldl]. lia.
Qed.

(** A reference that does not overlap its copy. *)
Lemma nref_block off : forall k acc, 0 <= off < zlen acc -> Z.of_nat k <= off + 1 ->
  nref k off acc = acc ++ take k (drop (Z.to_nat (zlen acc - off - 1)) acc).
Proof.
  induction k as [|k IH]; intros acc Ho Hk; [by rewrite take_0, app_nil_r|]. cbn [nref].
  destruct (zget_in_range acc (zlen acc - off - 1)) as [x Hx]; [lia|]. rewrite Hx. cbn [default from_option id].
  rewrite (IH (acc ++ [x])) by zlia. rewrite <- app_assoc. f_equal. rewrite zlen_app, zlen_cons, zlen_nil.
  apply zget_Some in Hx as [_ Hx]. rewrite (drop_S _ _ _ Hx). cbn [take app]. f_equal.
  replace (Z.to_nat (zlen acc + (1 + 0) - off - 1)) with (S (Z.to_nat (zlen acc - off - 1))) by lia.
  rewrite drop_app_le by (unfold zlen in *; lia). apply take_app_le. rewrite length_drop. unfold zlen in *. lia.
Qed.

(** * Decompression *)

Lemma copy_octets_spec k : forall acc rest off, 0 <= off < zlen acc -> (k <= length rest)%nat ->
  copy_octets k (acc ++ rest) (zlen acc) (zlen acc - off - 1) = Some (nref k off acc ++ drop k rest).
Proof.
  induction k as [|k IH]; intros acc rest off Ho Hk; [done|]. destruct rest as [|y rest]; [cbn in Hk; lia|]. cbn [copy_octets nref drop].
  rewrite zget_app_l by lia. destruct (zget_in_range acc (zlen acc - off - 1)) as [x ->]; [lia|]. cbn [mbind option_bind default from_option id].
  rewrite (zput_app acc [y] rest [x]) by done. cbn [mbind option_bind]. cbn [length] in Hk.
  rewrite <- (IH (acc ++ [x]) rest off) by (zlia || lia). rewrite zlen_app, <- app_assoc, zlen_cons, zlen_nil. cbn [app]. f_equal; lia.
Qed.

Lemma copy_ref_spec acc rest off n : 0 <= off < zlen acc -> 1 <= n -> n + 2 <= zlen rest ->
  copy_ref (acc ++ rest) (zlen acc) (zlen acc - off - 1) n = Some (nref (Z.to_nat (n + 2)) off acc ++ drop (Z.to_nat (n + 2)) rest).
Proof.
  intros Ho Hn Hr. unfold copy_ref. assert (Hk : (Z.to_nat (n + 2) <= length rest)%nat) by (unfold zlen in Hr; lia).
  destruct (Z.leb_spec n 9); [by apply copy_octets_spec|]. rewrite Z.geb_leb. destruct (Z.leb_spec (zlen acc - off - 1 + (n + 2)) (zlen acc)); [|by apply copy_octets_spec].
  rewrite nref_block by lia. unfold zmove.
  rewrite (zsub_in_range (acc ++ rest)) by (rewrite ?zlen_app; lia). cbn [mbind option_bind].
  rewrite drop_app_le by (unfold zlen in *; lia). rewrite take_app_le by (rewrite length_drop; unfold zlen in *; lia).
  rewrite <- (take_drop (Z.to_nat (n + 2)) rest) at 1. rewrite (zput_app acc); [by rewrite app_assoc|done|].
  unfold zlen in *. rewrite !length_take, length_drop. lia.
Qed.

Lemma ctrl_fields h n : 0 <= h < 32 -> 0 <= n -> Z.shiftr (h + n * 32) 5 = n /\ Z.land (h + n * 32) 31 = h.
Proof.
  intros Hh Hn. rewrite Z.shiftr_div_pow2 by lia. change 31 with (Z.ones 5). rewrite Z.land_ones by lia. change (2 ^ 5) with 32. split; dlia.
Qed.

(** One token. *)
Lemma decompress_step_spec pre t post acc rest : tok_ok acc t -> zlen (expand1 acc t) <= zlen (acc ++ rest) ->
  exists rest', decompress_step (pre ++ enc_tok t ++ post) (zlen pre) (zlen acc) (acc ++ rest) =
    Some (inr (zlen pre + zlen (enc_tok t), zlen (expand1 acc t), expand1 acc t ++ rest')) /\
    zlen (expand1 acc t ++ rest') = zlen (acc ++ rest).
Proof.
  intros Ht Hroom. unfold decompress_step. change (Z.shiftl 1 5) with 32. destruct t as [l|off n]; cbn [enc_tok expand1 tok_ok] in *.
  - cbn [app]. rewrite (zget_app pre _ _ (zlen pre)) by done. cbn [mbind option_bind]. rewrite (proj2 (Z.ltb_lt _ _)) by lia.
    replace (zlen l - 1 + 1) with (zlen l) by lia. rewrite !Z.gtb_ltb, !(proj2 (Z.ltb_ge _ _)) by zlia. cbv zeta.
    replace (pre ++ zlen l - 1 :: l ++ post) with ((pre ++ [zlen l - 1]) ++ l ++ post) by (by rewrite <- app_assoc).
    rewrite (zsub_app (pre ++ [zlen l - 1])) by (done || zlia). cbn [mbind option_bind].
    destruct (zsplit3 rest 0 (zlen l)) as (r0 & r1 & r2 & -> & Hr0 & Hr1); [zlia..|]. apply zlen_0_nil in Hr0 as ->. cbn [app].
    rewrite (zput_app acc r1 r2 l) by done. cbn [mbind option_bind]. exists r2. rewrite <- app_assoc. split; [|zlia].
    rewrite zlen_cons, zlen_app, <- Z.add_assoc. done.
  - destruct Ht as (Ho & Hacc & Hn). rewrite nref_length in *. rewrite zlen_app in *.
    assert (Hq : 0 <= off / 256 < 32) by dlia. pose proof (copy_ref_spec acc rest off n ltac:(lia) ltac:(lia) ltac:(lia)) as Hc.
    assert (Hend : zlen acc - Z.shiftl (off / 256) 8 - 1 - off mod 256 = zlen acc - off - 1)
      by (rewrite Z.shiftl_mul_pow2 by lia; change (2 ^ 8) with 256; dlia).
    exists (drop (Z.to_nat (n + 2)) rest). split; [|rewrite zlen_app, nref_length; unfold zlen in *; rewrite length_drop; lia].
    destruct (Z.ltb_spec n 7) as [H7|H7]; cbn [app].
    + destruct (ctrl_fields (off / 256) n) as [Es El]; [lia..|]. rewrite (zget_app pre _ _ (zlen pre)) by done. cbn [mbind option_bind]. cbv zeta.
      rewrite (proj2 (Z.ltb_ge _ _)) by lia. rewrite Es, El. rewrite Z.geb_leb, (proj2 (Z.leb_gt _ _)) by zlia.
      rewrite (proj2 (Z.eqb_neq n 7)) by lia. cbn [mbind option_bind].
      replace (pre ++ off / 256 + n * 32 :: off mod 256 :: post) with ((pre ++ [off / 256 + n * 32]) ++ off mod 256 :: post) by (by rewrite <- app_assoc).
      rewrite (zget_app (pre ++ _)) by zlia. cbn [mbind option_bind]. rewrite Hend, Hc.
      rewrite Z.gtb_ltb, !(proj2 (Z.ltb_ge _ _)) by lia. cbn [mbind option_bind]. do 3 f_equal. f_equal; zlia.
    + destruct (ctrl_fields (off / 256) 7) as [Es El]; [lia..|]. change (7 * 32) with 224 in Es, El. rewrite (zget_app pre _ _ (zlen pre)) by done. cbn [mbind option_bind]. cbv zeta.
      rewrite (proj2 (Z.ltb_ge _ _)) by lia. rewrite Es, El. rewrite !Z.geb_leb, !(proj2 (Z.leb_gt _ _)) by zlia. cbn [Z.eqb Pos.eqb].
      replace (pre ++ off / 256 + 224 :: n - 7 :: off mod 256 :: post) with ((pre ++ [off / 256 + 224]) ++ n - 7 :: off mod 256 :: post) by (by rewrite <- app_assoc).
      rewrite (zget_app (pre ++ _)) by zlia. cbn [mbind option_bind].
      replace ((pre ++ [off / 256 + 224]) ++ n - 7 :: off mod 256 :: post) with ((pre ++ [off / 256 + 224; n - 7]) ++ off mod 256 :: post) by (by rewrite <- !app_assoc).
      rewrite (zget_app (pre ++ _)) by zlia. cbn [mbind option_bind]. replace (7 + (n - 7)) with n by lia. rewrite Hend, Hc.
      rewrite Z.gtb_ltb, !(proj2 (Z.ltb_ge _ _)) by lia. cbn [mbind option_bind]. do 3 f_equal. f_equal; zlia.
Qed.

(** A whole compressed string. *)
Lemma decompress_loop_spec fuel : forall toks pre acc rest, toks <> [] -> (length toks <= fuel)%nat -> toks_ok acc toks ->
  zlen (expand acc toks) <= zlen (acc ++ rest) ->
  exists rest', decompress_loop fuel (pre ++ flat_map enc_tok toks) (zlen pre) (zlen acc) (acc ++ rest) =
    Some (zlen (expand acc toks), expand acc toks ++ rest') /\ zlen (expand acc toks ++ rest') = zlen (acc ++ rest).
Proof.
  induction fuel as [|fuel IH]; intros toks pre acc rest Hne Hf Hok Hroom; [destruct toks; cbn in Hf; done || lia|].
  destruct toks as [|t toks]; [done|]. destruct Hok as [Ht Hok]. cbn [decompress_loop flat_map]. pose proof (expand_grows _ _ Hok).
  change (expand acc (t :: toks)) with (expand (expand1 acc t) toks) in *.
  destruct (decompress_step_spec pre t (flat_map enc_tok toks) acc rest Ht) as (r1 & -> & Hl1); [lia|]. cbn [mbind option_bind].
  destruct toks as [|u toks].
  - rewrite (proj2 (Z.ltb_ge _ _)) by (cbn [flat_map]; zlia). by exists r1.
  - assert (0 < zlen (flat_map enc_tok (u :: toks))).
    { cbn [flat_map]. destruct u as [l|off n]; cbn [enc_tok]; [zlia|destruct (n <? 7); cbn [app]; zlia]. }
    rewrite (proj2 (Z.ltb_lt _ _)) by zlia.
    destruct (IH (u :: toks) (pre ++ enc_tok t) (expand1 acc t) r1) as (r2 & E & Hl2); [done|cbn in Hf |- *; lia|done|lia|].
    rewrite zlen_app, <- app_assoc in E. rewrite E. exists r2. split; [done|]. congruence.
Qed.

Lemma enc_tok_pos t : (1 <= length (enc_tok t))%nat.
Proof. destruct t as [l|off n]; cbn [enc_tok]; [cbn; lia|destruct (n <? 7); cbn; lia]. Qed.

Lemma decompress_tokens toks dest : flat_map enc_tok toks <> [] -> toks_ok [] toks -> zlen (expand [] toks) <= zlen dest ->
  exists rest, lzf_decompress (flat_map enc_tok toks) dest = Some (zlen (expand [] toks), expand [] toks ++ rest) /\
    zlen (expand [] toks ++ rest) = zlen dest.
Proof.
  intros Hne Hok Hl. assert (Hfuel : (length toks <= S (length (flat_map enc_tok toks)))%nat).
  { clear. induction toks as [|t toks IH]; [cbn; lia|]. cbn [flat_map length]. rewrite length_app. pose proof (enc_tok_pos t). lia. }
  apply (decompress_loop_spec _ toks [] [] dest); try done. by intros ->.
Qed.

(** ** Any input *)

Lemma copy_ref_safe out op ref n : 0 <= ref < op -> 1 <= n -> op + n + 2 <= zlen out ->
  exists out', copy_ref out op ref n = Some out' /\ zlen out' = zlen out.
Proof.
  intros Hr Hn Hl. destruct (zsplit3 out 0 op) as (p0 & acc & rest & -> & H0 & Ha); [lia..|]. apply zlen_0_nil in H0 as ->. cbn [app] in *.
  rewrite zlen_app in Hl. pose proof (copy_ref_spec acc rest (op - ref - 1) n ltac:(lia) ltac:(lia) ltac:(lia)) as E. rewrite Ha in E.
  replace (op - (op - ref - 1) - 1) with ref in E by lia. rewrite E. eexists. split; [done|].
  rewrite !zlen_app, nref_length. unfold zlen in *. rewrite length_drop. lia.
Qed.

Definition step_safe (in_len ip out_len : Z) (r : bytes + Z * Z * bytes) : Prop :=
  match r with
  | inl out' => zlen out' = out_len
  | inr (ip', op', out') => ip < ip' <= in_len /\ 0 <= op' <= out_len /\ zlen out' = out_len
  end.

Lemma decompress_step_safe in_data ip op out : bytes_ok in_data -> 0 <= ip < zlen in_data -> 0 <= op <= zlen out ->
  exists r, decompress_step in_data ip op out = Some r /\ step_safe (zlen in_data) ip (zlen out) r.
Proof.
  intros Hb Hip Hop. assert (Hget : forall i, 0 <= i < zlen in_data -> exists b, zget in_data i = Some b /\ 0 <= b < 256).
  { intros i Hi. destruct (zget_in_range in_data i Hi) as [b E]. exists b. split; [done|]. apply zget_Some in E as [_ E].
    by apply (Forall_lookup_1 _ _ _ _ Hb) in E. }
  unfold decompress_step. destruct (Hget ip Hip) as (ctrl & -> & Hctrl). cbn [mbind option_bind]. change (Z.shiftl 1 5) with 32. cbv zeta.
  destruct (Z.ltb_spec ctrl 32) as [Hc|Hc].
  - rewrite !Z.gtb_ltb. destruct (Z.ltb_spec (zlen out) (op + (ctrl + 1))); [by exists (inl out)|].
    destruct (Z.ltb_spec (zlen in_data) (ip + 1 + (ctrl + 1))); [by exists (inl out)|].
    rewrite zsub_in_range by lia. cbn [mbind option_bind]. set (s := take _ _).
    assert (Hs : zlen s = ctrl + 1) by (unfold s, zlen in *; rewrite length_take, length_drop; lia).
    destruct (zsplit3 out op (zlen s)) as (o0 & o1 & o2 & -> & K0 & K1); [lia..|].
    rewrite (zput_app o0 o1 o2 s) by (done || lia). cbn [mbind option_bind]. eexists. split; [done|]. cbn [step_safe]. zlia.
  - assert (Hlen : 1 <= Z.shiftr ctrl 5 <= 7) by (rewrite Z.shiftr_div_pow2 by lia; change (2 ^ 5) with 32; dlia).
    assert (Hh : 0 <= Z.shiftl (Z.land ctrl 31) 8) by (apply Z.shiftl_nonneg, Z.land_nonneg; lia).
    rewrite !Z.geb_leb. destruct (Z.leb_spec (zlen in_data) (ip + 1)); [by exists (inl out)|].
    assert (Hend : forall len ip', 1 <= len -> ip < ip' < zlen in_data -> exists r,
      (b ← zget in_data ip'; if op + len + 2 >? zlen out then Some (inl out)
         else if op - Z.shiftl (Z.land ctrl 31) 8 - 1 - b <? 0 then Some (inl out)
         else out ← copy_ref out op (op - Z.shiftl (Z.land ctrl 31) 8 - 1 - b) len; Some (inr (ip' + 1, op + len + 2, out))) = Some r /\
      step_safe (zlen in_data) ip (zlen out) r).
    { intros len ip' Hl Hi. destruct (Hget ip' ltac:(lia)) as (b & -> & Hb2). cbn [mbind option_bind]. rewrite Z.gtb_ltb.
      destruct (Z.ltb_spec (zlen out) (op + len + 2)); [by exists (inl out)|].
      destruct (Z.ltb_spec (op - Z.shiftl (Z.land ctrl 31) 8 - 1 - b) 0); [by exists (inl out)|].
      destruct (copy_ref_safe out op (op - Z.shiftl (Z.land ctrl 31) 8 - 1 - b) len) as (out' & -> & Hl'); [lia..|].
      eexists. split; [done|]. cbn [step_safe]. lia. }
    destruct (Z.eqb_spec (Z.shiftr ctrl 5) 7) as [E7|E7]; [|apply Hend; lia].
    destruct (Hget (ip + 1) ltac:(lia)) as (b & -> & Hb1). cbn [mbind option_bind].
    destruct (Z.leb_spec (zlen in_data) (ip + 1 + 1)); [by exists (inl out)|]. apply Hend; lia.
Qed.

Lemma decompress_loop_safe fuel : forall in_data ip op out, bytes_ok in_data -> 0 <= ip < zlen in_data -> 0 <= op <= zlen out ->
  zlen in_data - ip <= Z.of_nat fuel ->
  exists n out', decompress_loop fuel in_data ip op out = Some (n, out') /\ 0 <= n <= zlen out /\ zlen out' = zlen out.
Proof.
  induction fuel as [|fuel IH]; intros in_data ip op out Hb Hip Hop Hf; [lia|]. cbn [decompress_loop].
  destruct (decompress_step_safe in_data ip op out Hb Hip Hop) as ([out'|[[ip' op'] out']] & -> & Hs); cbn [mbind option_bind step_safe] in *.
  - exists 0, out'. split; [done|]. zlia.
  - destruct Hs as (Hi & Ho & Hl). destruct (Z.ltb_spec ip' (zlen in_data)); [|exists op', out'; done].
    destruct (IH in_data ip' op' out') as (n & o2 & -> & Hn & Hl2); [done|lia..|]. exists n, o2. split; [done|]. lia.
Qed.

(** * Compression *)

Lemma ref_byte off n : 0 <= off < 8192 -> 0 <= n <= 7 -> u8 (Z.shiftr off 8 + Z.shiftl n 5) = off / 256 + n * 32.
Proof.
  intros Ho Hn. rewrite Z.shiftr_div_pow2, Z.shiftl_mul_pow2 by lia. change (2 ^ 8) with 256. change (2 ^ 5) with 32.
  apply uwrap_small. unfold urange. change (2 ^ 8) with 256. dlia.
Qed.

Lemma put_ref_spec pre tail off n : 0 <= off < 8192 -> 1 <= n <= 262 -> 3 <= zlen tail ->
  exists tail', put_ref (pre ++ tail) (zlen pre) off n = Some ((pre ++ enc_tok (TRef off n)) ++ tail', zlen (pre ++ enc_tok (TRef off n))) /\
    zlen ((pre ++ enc_tok (TRef off n)) ++ tail') = zlen (pre ++ tail).
Proof.
  intros Ho Hn Ht. destruct tail as [|x [|y [|z tail]]]; [zlia..|]. unfold put_ref. cbn [enc_tok].
  assert (Hlow : u8 off = off mod 256) by done.
  destruct (Z.ltb_spec n 7) as [H7|H7].
  - rewrite (zput_app pre [x] (y :: z :: tail)) by done. cbn [mbind option_bind]. rewrite ref_byte by lia.
    rewrite (app_assoc pre [_]). rewrite (zput_app (pre ++ _) [y] (z :: tail)) by (done || zlia). cbn [mbind option_bind].
    exists (z :: tail). rewrite <- !app_assoc. split; [|zlia]. do 2 f_equal. zlia.
  - rewrite (zput_app pre [x] (y :: z :: tail)) by done. cbn [mbind option_bind]. rewrite ref_byte by lia. change (7 * 32) with 224.
    rewrite (app_assoc pre [_]). rewrite (zput_app (pre ++ _) [y] (z :: tail)) by (done || zlia). cbn [mbind option_bind].
    rewrite (uwrap_small 8 (n - 7)) by (unfold urange; change (2 ^ 8) with 256; lia).
    rewrite (app_assoc (pre ++ _) [_]). rewrite (zput_app ((pre ++ _) ++ _) [z] tail) by (done || zlia). cbn [mbind option_bind].
    exists tail. rewrite <- !app_assoc. split; [|zlia]. do 2 f_equal. zlia.
Qed.

Section CompressSpec.
Context (in_data : bytes).
Hypothesis in_small : zlen in_data < 2 ^ 32.
#[local] Set Default Proof Using "Type".

(** [n] bytes at [ref] and [ip] agree. *)
Definition agree (ref ip n : Z) : Prop := forall k, 0 <= k < n -> zget in_data (ref + k) = zget in_data (ip + k).

Lemma agree_snoc ref ip n : agree ref ip n -> zget in_data (ref + n) = zget in_data (ip + n) -> agree ref ip (n + 1).
Proof. intros H E k Hk. destruct (Z.eq_dec k n) as [->|]; [done|]. apply H. lia. Qed.

(** Copying what agrees reproduces the input. *)
Lemma nref_agree n : forall ref ip, 0 <= ref < ip -> ip + Z.of_nat n <= zlen in_data -> agree ref ip (Z.of_nat n) ->
  nref n (ip - ref - 1) (take (Z.to_nat ip) in_data) = take (Z.to_nat (ip + Z.of_nat n)) in_data.
Proof.
  induction n as [|n IH]; intros ref ip Hr Hl Ha; [cbn [nref]; do 2 f_equal; lia|]. cbn [nref].
  assert (Hlen : zlen (take (Z.to_nat ip) in_data) = ip) by (unfold zlen in *; rewrite length_take; lia).
  rewrite Hlen. replace (ip - (ip - ref - 1) - 1) with ref by lia.
  destruct (zget_in_range in_data ip) as [x Hx]; [lia|].
  assert (Hg : zget (take (Z.to_nat ip) in_data) ref = Some x).
  { specialize (Ha 0 ltac:(lia)). rewrite !Z.add_0_r in Ha. rewrite Hx in Ha. apply zget_Some in Ha as [_ Ha]. apply zget_Some.
    split; [lia|]. rewrite lookup_take_lt by lia. done. }
  rewrite Hg. cbn [default from_option id]. apply zget_Some in Hx as [_ Hx]. rewrite <- (take_S_r _ _ _ Hx).
  replace (S (Z.to_nat ip)) with (Z.to_nat (ip + 1)) by lia. replace (ip - ref - 1) with (ip + 1 - (ref + 1) - 1) by lia.
  rewrite IH by (lia || (intros k Hk; replace (ref + 1 + k) with (ref + (k + 1)) by lia; replace (ip + 1 + k) with (ip + (k + 1)) by lia; apply Ha; lia)).
  do 2 f_equal. lia.
Qed.

Lemma unrolled_spec n : forall ref ip len, 0 <= ref < ip -> 0 <= len -> ip + len + Z.of_nat n < zlen in_data -> agree ref ip (len + 1) ->
  exists broke len', unrolled in_data n ref ip len = Some (broke, len') /\
    if broke : bool then len < len' <= len + Z.of_nat n /\ agree ref ip len' else len' = len + Z.of_nat n /\ agree ref ip (len' + 1).
Proof.
  induction n as [|n IH]; intros ref ip len Hr Hl Hn Ha; [exists false, len; split; [done|]; split; [lia|done]|].
  cbn [unrolled]. cbv zeta. destruct (zget_in_range in_data (ref + (len + 1))) as [a Ea]; [lia|]. destruct (zget_in_range in_data (ip + (len + 1))) as [b Eb]; [lia|].
  rewrite Ea, Eb. cbn [mbind option_bind]. destruct (Z.eqb_spec a b) as [->|]; cbn [negb].
  - destruct (IH ref ip (len + 1)) as (broke & len' & -> & H); [lia..|apply agree_snoc; [done|congruence]|].
    exists broke, len'. split; [done|]. destruct broke; (split; [lia|apply H]).
  - exists true, (len + 1). split; [done|]. split; [lia|done].
Qed.

Lemma extend_spec fuel : forall ref ip maxlen len, 0 <= ref < ip -> 0 <= len -> ip + maxlen <= zlen in_data -> agree ref ip (len + 1) ->
  maxlen - len <= Z.of_nat fuel -> (0 < fuel)%nat ->
  exists len', extend in_data fuel ref ip maxlen len = Some len' /\ len < len' /\ (len' = len + 1 \/ len' <= maxlen) /\ agree ref ip len'.
Proof.
  induction fuel as [|fuel IH]; intros ref ip maxlen len Hr Hl Hm Ha Hf Hf0; [lia|]. cbn [extend]. cbv zeta.
  destruct (Z.ltb_spec (len + 1) maxlen) as [Hlt|]; [|exists (len + 1); split; [done|]; split; [lia|]; split; [by left|done]].
  destruct (zget_in_range in_data (ref + (len + 1))) as [a Ea]; [lia|]. destruct (zget_in_range in_data (ip + (len + 1))) as [b Eb]; [lia|].
  rewrite Ea, Eb. cbn [mbind option_bind]. destruct (Z.eqb_spec a b) as [->|].
  - destruct (IH ref ip maxlen (len + 1)) as (len' & -> & H1 & H2 & H3); [lia..|apply agree_snoc; [done|congruence]|lia|lia|].
    exists len'. split; [done|]. split; [lia|]. split; [lia|done].
  - exists (len + 1). split; [done|]. split; [lia|]. split; [by left|done].
Qed.

Lemma match_len_spec ref ip : 0 <= ref < ip -> ip < zlen in_data - 2 -> agree ref ip 3 ->
  exists len, match_len in_data ref ip = Some len /\ 3 <= len <= 264 /\ ip + len <= zlen in_data /\ agree ref ip len.
Proof using in_small.
  intros Hr Hi Ha. unfold match_len. rewrite uwrap_small by (unfold urange; lia). cbv zeta. rewrite !Z.gtb_ltb. unfold MAX_REF. change (Z.shiftl 1 8 + Z.shiftl 1 3) with 264.
  set (maxlen := if 264 <? _ then _ else _).
  assert (Hm : 1 <= maxlen <= 264 /\ maxlen <= zlen in_data - ip - 2) by (subst maxlen; zcase; lia).
  destruct (Z.ltb_spec 16 maxlen) as [H16|H16].
  - destruct (unrolled_spec 16 ref ip 2) as (broke & len & -> & H); [lia..|done|]. cbn [mbind option_bind]. destruct broke.
    + exists len. split; [done|]. split; [lia|]. split; [lia|apply H].
    + destruct H as [-> H]. destruct (extend_spec (S (Z.to_nat maxlen)) ref ip maxlen (2 + Z.of_nat 16)) as (len & -> & H1 & H2 & H3); [lia..|done|lia|lia|].
      exists len. split; [done|]. split; [lia|]. split; [lia|done].
  - cbn [mbind option_bind]. destruct (extend_spec (S (Z.to_nat maxlen)) ref ip maxlen 2) as (len & -> & H1 & H2 & H3); [lia..|done|lia|lia|].
    exists len. split; [done|]. split; [lia|]. split; [lia|done].
Qed.

Lemma zsub_agree ref ip : zsub in_data ref 2 = zsub in_data ip 2 -> 0 <= ref -> 0 <= ip -> ref + 2 <= zlen in_data -> ip + 2 <= zlen in_data -> agree ref ip 2.
Proof.
  intros E Hr Hi Hr2 Hi2 k Hk. rewrite !zsub_in_range in E by lia. injection E as E. unfold zget. rewrite !(proj2 (Z.leb_le _ _)) by lia.
  apply (f_equal (fun l => l !! Z.to_nat k)) in E. rewrite !lookup_take_lt, !lookup_drop in E by lia. rewrite !Z2Nat.inj_add by lia. done.
Qed.

Lemma is_match_spec ref ip : urange 32 ref -> 0 <= ip < zlen in_data - 2 ->
  exists found off, is_match in_data ref ip = Some (found, off) /\
    (found = true -> 0 < ref < ip /\ off = ip - ref - 1 /\ off < 8192 /\ agree ref ip 3).
Proof using in_small.
  intros Hr Hi. unfold is_match. cbv zeta. set (off := u64 _). unfold MAX_OFF. change (Z.shiftl 1 13) with 8192. unfold urange in Hr.
  destruct (Z.ltb_spec off 8192) as [Ho|]; cbn [negb]; [|by exists false, off].
  assert (Hlt : ref < ip /\ off = ip - ref - 1).
  { unfold off, uwrap in *. destruct (Z.lt_ge_cases ref ip); [split; [done|]; apply Z.mod_small; lia|].
    exfalso. rewrite <- (Z_mod_plus_full (ip - ref - 1) 1 (2 ^ 64)), Z.mod_small in Ho; lia. }
  destruct Hlt as [Hlt Eo]. rewrite Z.gtb_ltb. destruct (Z.ltb_spec 0 ref) as [H0|]; cbn [negb]; [|by exists false, off].
  destruct (zget_in_range in_data (ref + 2)) as [a Ea]; [lia|]. destruct (zget_in_range in_data (ip + 2)) as [b Eb]; [lia|].
  rewrite Ea, Eb. cbn [mbind option_bind]. destruct (Z.eqb_spec a b) as [->|]; cbn [negb]; [|by exists false, off].
  rewrite !zsub_in_range by lia. cbn [mbind option_bind]. eexists _, off. split; [done|]. intros Hd. apply bool_decide_eq_true in Hd.
  do 3 (split; [done|]). apply (agree_snoc ref ip 2); [|congruence]. apply zsub_agree; [|lia..]. rewrite !zsub_in_range by lia. by rewrite Hd.
Qed.

Lemma IDX_range h : 0 <= IDX h < HSIZE.
Proof.
  unfold IDX, HSIZE, HLOG. change (Z.shiftl 1 16 - 1) with (Z.ones 16). rewrite Z.land_ones by lia. change (Z.shiftl 1 16) with (2 ^ 16). apply Z.mod_pos_bound. lia.
Qed.

Definition htab_ok (htab : LZF_STATE) : Prop := forall i, urange 32 (htab i).

Lemma hslot_get_ok htab h : htab_ok htab -> exists ref, hslot_get htab (IDX h) = Some ref /\ urange 32 ref.
Proof.
  intros H. pose proof (IDX_range h). unfold hslot_get. rewrite (proj2 (Z.leb_le _ _)), (proj2 (Z.ltb_lt _ _)) by lia. eexists. split; [done|apply H].
Qed.

Lemma hslot_set_ok htab h v : htab_ok htab -> exists htab', hslot_set htab (IDX h) v = Some htab' /\ htab_ok htab'.
Proof.
  intros H. pose proof (IDX_range h). unfold hslot_set. rewrite (proj2 (Z.leb_le _ _)), (proj2 (Z.ltb_lt _ _)) by lia. eexists. split; [done|].
  intros i. case_match; [by apply uwrap_range|apply H].
Qed.

Lemma NEXT_ok v p : 0 <= p -> p + 2 < zlen in_data -> exists h, NEXT in_data v p = Some h.
Proof. intros. unfold NEXT. destruct (zget_in_range in_data (p + 2)) as [c ->]; [lia|]. by eexists. Qed.

Lemma FRST_ok p : 0 <= p -> p + 1 < zlen in_data -> exists h, FRST in_data p = Some h.
Proof.
  intros. unfold FRST. destruct (zget_in_range in_data p) as [a ->]; [lia|]. destruct (zget_in_range in_data (p + 1)) as [b ->]; [lia|]. by eexists.
Qed.

(** ** The state of the compressor *)

#[local] Abbreviation encs := (flat_map enc_tok).

(** [toks] are complete in the output and [lits] is the open run behind its length byte;
    together they stand for the input read so far. *)
Record cinv (out_len : Z) (s : cstate) (toks : list lzf_token) (lits : bytes) : Prop := {
  ci_ip : 0 <= c_ip s <= zlen in_data;
  ci_lit : c_lit s = zlen lits /\ zlen lits < 32;
  ci_op : c_op s = zlen (encs toks) + 1 + zlen lits;
  ci_out : exists tail, c_out s = encs toks ++ tail /\ (lits = [] \/ exists x rest, tail = x :: lits ++ rest);
  ci_len : zlen (c_out s) = out_len;
  ci_toks : toks_ok [] toks;
  ci_in : expand [] toks ++ lits = take (Z.to_nat (c_ip s)) in_data;
  ci_htab : htab_ok (c_htab s)
}.

Lemma open_run out_len s toks lits : cinv out_len s toks lits -> c_op s <= out_len ->
  exists x rest, c_out s = encs toks ++ x :: lits ++ rest.
Proof.
  intros [_ _ Hop (tail & Ho & Ht) Hl _ _ _] Hle. destruct Ht as [->|(x & rest & ->)]; [|by exists x, rest].
  destruct tail as [|x rest]; [|by exists x, rest]. rewrite Ho in Hl. zlia.
Qed.

Lemma encs_snoc toks t : encs (toks ++ [t]) = encs toks ++ enc_tok t.
Proof. rewrite flat_map_app. cbn [flat_map]. by rewrite app_nil_r. Qed.

(** Closing the open run. *)
Lemma stop_run out_len s toks lits : cinv out_len s toks lits -> c_op s <= out_len ->
  exists out toks' tail, zput (c_out s) (c_op s - c_lit s - 1) [u8 (c_lit s - 1)] = Some out /\ out = encs toks' ++ tail /\
    c_op s - (if c_lit s =? 0 then 1 else 0) = zlen (encs toks') /\ zlen out = out_len /\ toks_ok [] toks' /\
    expand [] toks' = take (Z.to_nat (c_ip s)) in_data.
Proof.
  intros Hi Hle. destruct (open_run _ _ _ _ Hi Hle) as (x & rest & Ho). destruct Hi as [_ [Hlit H32] Hop _ Hl Hok Hin _].
  rewrite Ho, Hlit. rewrite (zput_app (encs toks) [x] (lits ++ rest)) by (done || lia). rewrite Ho in Hl.
  destruct (Z.eqb_spec (zlen lits) 0) as [E|E].
  - apply zlen_0_nil in E as ->. eexists _, toks, _. split; [done|]. split; [done|]. split; [zlia|]. split; [zlia|]. split; [done|].
    by rewrite app_nil_r in Hin.
  - pose proof (zlen_nonneg lits). rewrite uwrap_small by (unfold urange; lia).
    eexists _, (toks ++ [TLit lits]), rest. split; [done|]. rewrite encs_snoc, <- app_assoc. cbn [enc_tok]. split; [done|]. split; [zlia|].
    split; [zlia|]. split; [apply toks_ok_snoc; [done|cbn [tok_ok]; lia]|]. by rewrite expand_snoc.
Qed.

Lemma literal_spec out_len s toks lits : cinv out_len s toks lits -> c_ip s < zlen in_data -> c_op s < out_len ->
  exists s' toks' lits', literal in_data s = Some s' /\ cinv out_len s' toks' lits' /\ c_ip s' = c_ip s + 1 /\
    (c_lit s = 31 /\ c_lit s' = 0 /\ c_op s' = c_op s + 2 \/ c_lit s' = c_lit s + 1 /\ c_op s' = c_op s + 1).
Proof.
  intros Hi Hip Hlt. destruct (open_run _ _ _ _ Hi ltac:(lia)) as (x & rest & Ho). destruct Hi as [[Hip0 _] [Hlit H32] Hop _ Hl Hok Hin Hh].
  unfold literal. destruct (zget_in_range in_data (c_ip s)) as [b Eb]; [lia|]. rewrite Eb. cbn [mbind option_bind].
  destruct rest as [|y rest]; [rewrite Ho in Hl; zlia|].
  replace (encs toks ++ x :: lits ++ y :: rest) with ((encs toks ++ x :: lits) ++ [y] ++ rest) in Ho by (rewrite <- app_assoc; done).
  rewrite Ho. rewrite (zput_app (encs toks ++ x :: lits) [y] rest [b]) by (done || zlia). cbn [mbind option_bind]. cbv zeta.
  assert (Hin' : expand [] toks ++ lits ++ [b] = take (Z.to_nat (c_ip s + 1)) in_data).
  { rewrite app_assoc, Hin. apply zget_Some in Eb as [_ Eb]. rewrite <- (take_S_r _ _ _ Eb). f_equal. lia. }
  rewrite Ho in Hl. unfold MAX_LIT. change (Z.shiftl 1 5) with 32. destruct (Z.eqb_spec (c_lit s + 1) 32) as [E|E].
  - replace ((encs toks ++ x :: lits) ++ [b] ++ rest) with (encs toks ++ [x] ++ (lits ++ [b]) ++ rest) by (rewrite <- !app_assoc; done).
    rewrite (zput_app (encs toks) [x]) by (done || lia). cbn [mbind option_bind]. rewrite E. change (u8 (32 - 1)) with 31.
    eexists _, (toks ++ [TLit (lits ++ [b])]), []. split; [done|]. split; [|split; [done|left; cbn [c_lit c_op]; lia]].
    assert (Hz : zlen (lits ++ [b]) = 32) by zlia.
    split; cbn [c_ip c_op c_lit c_out c_htab]; [lia|done|..]; rewrite ?encs_snoc; cbn [enc_tok].
    + zlia.
    + exists rest. split; [|by left]. rewrite Hz, <- !app_assoc. cbn [app]. rewrite <- !app_assoc. reflexivity.
    + zlia.
    + apply toks_ok_snoc; [done|]. cbn [tok_ok]. lia.
    + rewrite expand_snoc, app_nil_r. exact Hin'.
    + done.
  - eexists _, toks, (lits ++ [b]). split; [done|]. split; [|split; [done|right; done]].
    split; cbn [c_ip c_op c_lit c_out c_htab]; [lia|zlia|zlia|..|zlia|done|done|done].
    exists (x :: (lits ++ [b]) ++ rest). split; [rewrite <- !app_assoc; done|right; eauto].
Qed.

(** What one iteration does. *)
Definition step_ok (out_len : Z) (s : cstate) (o : outcome) : Prop :=
  match o with
  | Full out => zlen out = out_len
  | Break s' => zlen in_data - 2 <= c_ip s' /\ exists toks lits, cinv out_len s' toks lits
  | Continue s' => c_ip s < c_ip s' /\ exists toks lits, cinv out_len s' toks lits
  end.

(** Storing the reference found at [ref]. *)
Lemma match_step out_len s toks lits ref off hval htab : cinv out_len s toks lits -> c_ip s < zlen in_data - 2 ->
  0 < ref < c_ip s -> off = c_ip s - ref - 1 -> off < 8192 -> agree ref (c_ip s) 3 -> htab_ok htab ->
  c_op s - (if c_lit s =? 0 then 1 else 0) + 3 + 1 < out_len ->
  exists o, (out ← zput (c_out s) (c_op s - c_lit s - 1) [u8 (c_lit s - 1)];
      let op := c_op s - (if c_lit s =? 0 then 1 else 0) in
      len ← match_len in_data ref (c_ip s);
      let len := len - 2 in
      let ip := c_ip s + 1 in
      '(out, op) ← put_ref out op off len;
      let op := op + 1 in
      let ip := ip + (len + 1) in
      if ip >=? zlen in_data - 2 then Some (Break (CState ip op 0 hval htab out))
      else
        let ip := ip - 2 in
        hval ← FRST in_data ip;
        hval ← NEXT in_data hval ip;
        htab ← hslot_set htab (IDX hval) ip;
        let ip := ip + 1 in
        hval ← NEXT in_data hval ip;
        htab ← hslot_set htab (IDX hval) ip;
        Some (Continue (CState (ip + 1) op 0 hval htab out))) = Some o /\ step_ok out_len s o.
Proof using in_small.
  intros Hi Hip Href Hoff Hoff2 Hag Hh Hroom. pose proof (ci_ip _ _ _ _ Hi) as Hip0.
  destruct (stop_run _ _ _ _ Hi ltac:(destruct (c_lit s =? 0); lia)) as (out & toks' & tail & -> & -> & E & Hl & Hok & Hin). cbn [mbind option_bind].
  rewrite E in *. destruct (match_len_spec ref (c_ip s)) as (len & -> & Hlen & Hend & Hag2); [lia|lia|done|]. cbn [mbind option_bind]. cbv zeta.
  destruct (put_ref_spec (encs toks') tail off (len - 2)) as (tail' & -> & Hl'); [lia|lia|zlia|]. cbn [mbind option_bind].
  rewrite <- encs_snoc in *. set (toks2 := toks' ++ [TRef off (len - 2)]) in *.
  replace (c_ip s + 1 + (len - 2 + 1)) with (c_ip s + len) by lia.
  assert (Hexp : expand [] toks2 = take (Z.to_nat (c_ip s + len)) in_data).
  { unfold toks2. rewrite expand_snoc, Hin. cbn [expand1]. replace (len - 2 + 2) with len by lia.
    replace (c_ip s + len) with (c_ip s + Z.of_nat (Z.to_nat len)) by lia. rewrite Hoff. apply nref_agree; [lia|lia|].
    by replace (Z.of_nat (Z.to_nat len)) with len by lia. }
  assert (Hok2 : toks_ok [] toks2).
  { apply toks_ok_snoc; [done|]. cbn [tok_ok]. rewrite Hin. split; [lia|]. split; [|lia]. unfold zlen in *. rewrite length_take. lia. }
  assert (Hinv : forall h ht, htab_ok ht -> cinv out_len (CState (c_ip s + len) (zlen (encs toks2) + 1) 0 h ht (encs toks2 ++ tail')) toks2 []).
  { intros h ht Hht. split; cbn [c_ip c_op c_lit c_out c_htab]; [lia|done|rewrite zlen_nil; lia| |lia|done|by rewrite app_nil_r|done].
    exists tail'. split; [done|by left]. }
  rewrite Z.geb_leb. destruct (Z.leb_spec (zlen in_data - 2) (c_ip s + len)) as [Hb|Hb].
  { eexists. split; [done|]. split; [done|]. exists toks2, []. by apply Hinv. }
  destruct (FRST_ok (c_ip s + len - 2)) as [h1 ->]; [lia..|]. cbn [mbind option_bind].
  destruct (NEXT_ok h1 (c_ip s + len - 2)) as [h2 ->]; [lia..|]. cbn [mbind option_bind].
  destruct (hslot_set_ok htab h2 (c_ip s + len - 2) Hh) as (ht1 & -> & Hh1). cbn [mbind option_bind].
  destruct (NEXT_ok h2 (c_ip s + len - 2 + 1)) as [h3 ->]; [lia..|]. cbn [mbind option_bind].
  destruct (hslot_set_ok ht1 h3 (c_ip s + len - 2 + 1) Hh1) as (ht2 & -> & Hh2). cbn [mbind option_bind].
  replace (c_ip s + len - 2 + 1 + 1) with (c_ip s + len) by lia. eexists. split; [done|]. split; [cbn [c_ip]; lia|]. exists toks2, []. by apply Hinv.
Qed.

Lemma lzf_step_spec out_len s toks lits : cinv out_len s toks lits -> c_ip s < zlen in_data - 2 ->
  exists o, lzf_step in_data out_len s = Some o /\ step_ok out_len s o.
Proof using in_small.
  intros Hi Hip. pose proof (ci_ip _ _ _ _ Hi) as Hip0. unfold lzf_step. cbv zeta.
  destruct (NEXT_ok (c_hval s) (c_ip s)) as [hval ->]; [lia..|]. cbn [mbind option_bind].
  destruct (hslot_get_ok (c_htab s) hval (ci_htab _ _ _ _ Hi)) as (ref & -> & Href). cbn [mbind option_bind].
  destruct (hslot_set_ok (c_htab s) hval (c_ip s) (ci_htab _ _ _ _ Hi)) as (htab & -> & Hh). cbn [mbind option_bind].
  destruct (is_match_spec ref (c_ip s) Href ltac:(lia)) as (found & off & -> & Hm). cbn [mbind option_bind]. destruct found.
  - destruct (Hm eq_refl) as (H1 & H2 & H3 & H4). destruct ((_ >=? _) && _) eqn:Ef; [exists (Full (c_out s)); split; [done|apply Hi]|].
    apply (match_step out_len s toks lits); try done. rewrite !Z.geb_leb in Ef. apply andb_false_iff in Ef. destruct (c_lit s =? 0); destruct Ef; zb; lia.
  - rewrite Z.geb_leb. destruct (Z.leb_spec out_len (c_op s)); [exists (Full (c_out s)); split; [done|apply Hi]|].
    set (s1 := CState _ _ _ _ _ _). assert (Hi1 : cinv out_len s1 toks lits) by (destruct Hi; split; done).
    destruct (literal_spec _ _ _ _ Hi1) as (s' & toks' & lits' & -> & Hi' & Hip' & _); [cbn [s1 c_ip]; lia|done|]. cbn [mbind option_bind].
    eexists. split; [done|]. split; [|eauto]. change (c_ip s1) with (c_ip s) in Hip'. lia.
Qed.

Lemma lzf_loop_spec fuel : forall out_len s toks lits, cinv out_len s toks lits -> zlen in_data - c_ip s <= Z.of_nat fuel ->
  exists r, lzf_loop in_data fuel out_len s = Some r /\
    match r with
    | inl out => zlen out = out_len
    | inr s' => zlen in_data - 2 <= c_ip s' /\ exists toks lits, cinv out_len s' toks lits
    end.
Proof using in_small.
  induction fuel as [|fuel IH]; intros out_len s toks lits Hi Hf; pose proof (ci_ip _ _ _ _ Hi); cbn [lzf_loop];
    (destruct (Z.ltb_spec (c_ip s) (zlen in_data - 2)); [|exists (inr s); split; [done|]; split; [lia|eauto]]); [lia|].
  destruct (lzf_step_spec _ _ _ _ Hi) as (o & -> & Ho); [done|]. cbn [mbind option_bind]. destruct o as [out|s'|s']; cbn [step_ok] in Ho.
  - by exists (inl out).
  - exists (inr s'). done.
  - destruct Ho as (Hlt & toks' & lits' & Hi'). apply (IH out_len s' toks' lits' Hi'). lia.
Qed.

(** The last two bytes. *)
Lemma lzf_tail_spec out_len s toks lits : cinv out_len s toks lits -> zlen in_data - 2 <= c_ip s -> c_op s + 3 <= out_len ->
  exists s' toks' lits', lzf_tail in_data 2 s = Some s' /\ cinv out_len s' toks' lits' /\ c_ip s' = zlen in_data /\ c_op s' <= out_len.
Proof.
  intros Hi Hip Hop. pose proof (ci_ip _ _ _ _ Hi). cbn [lzf_tail].
  destruct (Z.ltb_spec (c_ip s) (zlen in_data)); [|exists s, toks, lits; split; [done|]; split; [done|]; lia].
  destruct (literal_spec _ _ _ _ Hi) as (s1 & t1 & l1 & -> & K1 & Hip1 & Hop1); [lia..|]. cbn [mbind option_bind].
  destruct (Z.ltb_spec (c_ip s1) (zlen in_data)); [|exists s1, t1, l1; split; [done|]; split; [done|]; lia].
  destruct (literal_spec _ _ _ _ K1) as (s2 & t2 & l2 & -> & K2 & Hip2 & Hop2); [lia..|]. cbn [mbind option_bind].
  rewrite (proj2 (Z.ltb_ge (c_ip s2) (zlen in_data))) by lia. exists s2, t2, l2. split; [done|]. split; [done|]. lia.
Qed.

Lemma lzf_compress_spec htab out : 2 <= zlen in_data -> htab_ok htab ->
  exists n out', lzf_compress in_data htab out = Some (n, out') /\ zlen out' = zlen out /\
    (n = 0 \/ exists toks tail, n = zlen (encs toks) /\ out' = encs toks ++ tail /\ toks_ok [] toks /\ expand [] toks = in_data).
Proof using in_small.
  intros H2 Hh. unfold lzf_compress. cbv zeta. rewrite (proj2 (Z.eqb_neq (zlen in_data) 0)) by lia. cbn [orb].
  destruct (Z.eqb_spec (zlen out) 0) as [E|E]; [exists 0, out; split; [done|]; split; [done|by left]|].
  destruct (FRST_ok 0) as [h ->]; [lia..|]. cbn [mbind option_bind].
  assert (Hi : cinv (zlen out) (CState 0 1 0 h htab out) [] []) by (split; cbn [c_ip c_op c_lit c_out c_htab]; [lia|done|done|exists out; split; [done|by left]|done..]).
  destruct (lzf_loop_spec (length in_data) _ _ _ _ Hi) as (r & -> & Hr); [cbn [c_ip]; unfold zlen; lia|]. cbn [mbind option_bind].
  destruct r as [out'|s]; [exists 0, out'; split; [done|]; split; [done|by left]|]. destruct Hr as (Hip & toks & lits & Hi').
  rewrite Z.gtb_ltb. destruct (Z.ltb_spec (zlen out) (c_op s + 3)); [exists 0, (c_out s); split; [done|]; split; [apply Hi'|by left]|].
  destruct (lzf_tail_spec _ _ _ _ Hi' Hip) as (s' & t' & l' & -> & Hi2 & Hip2 & Hop2); [lia|]. cbn [mbind option_bind].
  destruct (stop_run _ _ _ _ Hi2 Hop2) as (out' & toks2 & tail & -> & -> & E2 & Hl2 & Hok2 & Hin2). cbn [mbind option_bind].
  rewrite E2. eexists _, _. split; [done|]. split; [done|]. right. exists toks2, tail. do 3 (split; [done|]).
  rewrite Hin2, Hip2, to_nat_zlen. by apply take_ge.
Qed.
End CompressSpec.

(** * Properties *)

(** C17. Decompressing what [lzf_compress] produced gives the input back, for every input below
    4 GB but one, every output size and every content of the uninitialised hash table: the
    compressor stays inside its buffers, and when it does not give up, its result decompresses to
    exactly the input in any buffer that holds it.  The exception is an input of one byte with a
    non-empty output buffer: the first hash is made of two bytes and the second is read past the
    end. *)
Theorem lzf_roundtrip (data : bytes) (htab : LZF_STATE) (out dest : bytes) :
  zlen data < 2 ^ 32 -> (forall i, urange 32 (htab i)) -> zlen data <= zlen dest ->
  if (zlen data =? 1) && negb (zlen out =? 0) then lzf_compress data htab out = None
  else
    exists n out', lzf_compress data htab out = Some (n, out') /\ zlen out' = zlen out /\ 0 <= n <= zlen out /\
      (n <> 0 -> exists rest, lzf_decompress (take (Z.to_nat n) out') dest = Some (zlen data, data ++ rest) /\
         zlen (data ++ rest) = zlen dest).
Proof.
  intros Hs Hh Hl. pose proof (zlen_nonneg data) as Hp. pose proof (zlen_nonneg out) as Hq.
  destruct (Z.eqb_spec (zlen data) 1) as [H1|H1]; [destruct (Z.eqb_spec (zlen out) 0) as [H0|H0]|]; cbn [andb negb].
  - exists 0, out. unfold lzf_compress. rewrite (proj2 (Z.eqb_eq (zlen out) 0)), orb_true_r by done. split_and!; try done; lia.
  - unfold lzf_compress. rewrite (proj2 (Z.eqb_neq (zlen data) 0)), (proj2 (Z.eqb_neq (zlen out) 0)) by lia. cbn [orb].
    destruct data as [|b [|b' data]]; [done| |rewrite !zlen_cons in H1; pose proof (zlen_nonneg data); lia]. done.
  - destruct (decide (zlen data = 0)) as [Hd0|Hd0].
    { exists 0, out. unfold lzf_compress. rewrite (proj2 (Z.eqb_eq (zlen data) 0)) by done. split_and!; try done; lia. }
    destruct (lzf_compress_spec data Hs htab out ltac:(lia) Hh) as (n & out' & E & Hlen & H').
    exists n, out'. split; [done|]. split; [done|]. destruct H' as [->|(toks & tail & -> & -> & Hok & Hexp)]; [split; [zlia|done]|].
    split; [zlia|]. intros Hn. rewrite to_nat_zlen, take_app_length.
    destruct (decompress_tokens toks dest) as (rest & E2 & Hr); [by intros Hnil; rewrite Hnil in Hn|done|by rewrite Hexp|]. rewrite Hexp in *. eauto.
Qed.

Definition lzf_sample : bytes := [1; 97; 98; 99; 97; 98; 99; 97; 98; 99; 97; 98; 99; 97; 98; 99; 97; 98; 99; 100; 97; 98; 99].

Lemma lzf_roundtrip_witness : exists n out' rest,
  lzf_compress lzf_sample (fun _ => 3) (replicate 22 0) = Some (n, out') /\ n < zlen lzf_sample /\
  lzf_decompress (take (Z.to_nat n) out') (replicate 23 7) = Some (23, lzf_sample ++ rest).
Proof.
  destruct (lzf_roundtrip lzf_sample (fun _ => 3) (replicate 22 0) (replicate 23 7)) as (n & out' & E & _ & _ & H);
    [done|by intros; split|by vm_compute|].
  assert (En : n = 12) by (vm_compute in E; congruence).
  destruct (H ltac:(lia)) as (rest & Ed & _). exists n, out', rest. split; [exact E|]. split; [rewrite En; reflexivity|exact Ed].
Defined.

(** C40. [lzf_decompress] is safe on every non-empty input, corrupted ones included: it terminates,
    reads and writes only inside its buffers and returns a length that fits the output. *)
Theorem lzf_decompress_safe (data dest : bytes) : bytes_ok data -> 0 < zlen data ->
  exists n dest', lzf_decompress data dest = Some (n, dest') /\ 0 <= n <= zlen dest /\ zlen dest' = zlen dest.
Proof. intros Hb Hl. apply decompress_loop_safe; [done|lia|pose proof (zlen_nonneg dest); lia|unfold zlen; lia]. Qed.

Lemma lzf_decompress_safe_witness : exists n dest',
  lzf_decompress [2; 9; 8; 7; 255; 200] (replicate 5 0) = Some (n, dest') /\ 0 <= n <= 5.
Proof.
  destruct (lzf_decompress_safe [2; 9; 8; 7; 255; 200] (replicate 5 0)) as (n & d & E & Hn & _); [by repeat constructor|done|].
  exists n, d. split; [exact E|exact Hn].
Defined.
