(* ===== verification/Rdb.v ===== *)
(** The string encodings of dump files (rdb.c): lengths, types, times, integers, LZF blobs and raw
    strings, and the loader that inverts them.

    The stream being written is the bytes accepted so far; [accepted w p] tells whether [rioWrite]
    of [p] after [w] succeeds (what a failed write leaves behind is not part of the state).  The
    stream being read is the bytes left; [rioRead] fails when there are not enough.  Saving
    functions return the number of bytes written or -1.  The host is little endian, so
    [memrev64ifbe] is the identity.  [None] is an access outside a buffer. *)

From S2P Require Import Prelude Util Reply Replication Lzf.
#[local] Open Scope list_scope.
#[local] Open Scope Z_scope.

Definition RDB_6BITLEN : Z := 0.
Definition RDB_14BITLEN : Z := 1.
Definition RDB_32BITLEN : Z := 128.
Definition RDB_64BITLEN : Z := 129.
Definition RDB_ENCVAL : Z := 3.
Definition RDB_LENERR : Z := UINT64_MAX.
Definition RDB_ENC_INT8 : Z := 0.
Definition RDB_ENC_INT16 : Z := 1.
Definition RDB_ENC_INT32 : Z := 2.
Definition RDB_ENC_LZF : Z := 3.

(** [RDB_LOAD_NONE], [RDB_LOAD_ENC], [RDB_LOAD_PLAIN], [RDB_LOAD_SDS]. *)
Inductive load_flags := LOAD_NONE | LOAD_ENC | LOAD_PLAIN | LOAD_SDS.

(** What a loader returns: the value and the rest of the stream, NULL (or -1), or the end of the
    process in [rdbExitReportCorruptRDB]. *)
Inductive lres (A : Type) := LOk (a : A) (rest : bytes) | LNull | LExit.
Arguments LOk {A}. Arguments LNull {A}. Arguments LExit {A}.

Definition lbind {A B} (m : option (lres A)) (k : A -> bytes -> option (lres B)) : option (lres B) :=
  r ← m; match r with LOk a rest => k a rest | LNull => Some LNull | LExit => Some LExit end.

(** A loaded string: the plain or sds buffer, or an object. *)
Inductive loaded := LBuf (s : bytes) | LObj (o : robj).
Definition loaded_text (l : loaded) : bytes := match l with LBuf s => s | LObj o => obj_text o end.

(** A 4 or 8 byte integer in network order ([htonl], [htonu64]). *)
Definition be_bytes (n : nat) (z : Z) : bytes := rev (le_bytes n z).
Definition be_value (bs : bytes) : Z := le_value (rev bs).

(** * [strtoll] *)

Definition isspace (b : Z) : bool := (b =? 32) || (9 <=? b) && (b <=? 13).
Definition isdigit (b : Z) : bool := (48 <=? b) && (b <=? 57).

Fixpoint skip_space (mem : bytes) : option bytes :=
  match mem with [] => None | b :: r => if isspace b then skip_space r else Some mem end.

(** The value of the digits, and the end of them. *)
Fixpoint scan_digits (acc : Z) (mem : bytes) : option (Z * bytes) :=
  match mem with [] => None | b :: r => if isdigit b then scan_digits (acc * 10 + (b - 48)) r else Some (acc, mem) end.

(** Base 10: the value, clamped to the range of [long long], and [endptr]. *)
Definition strtoll (mem : bytes) : option (Z * bytes) :=
  m ← skip_space mem;
  b ← head m;
  let neg := b =? 45 in
  let m := if neg || (b =? 43) then tail m else m in
  d ← head m;
  if negb (isdigit d) then Some (0, mem)
  else
    '(v, e) ← scan_digits 0 m;
    let v := if neg : bool then - v else v in
    Some (Z.max INT64_MIN (Z.min INT64_MAX v), e).

(** * Saving *)

Section Save.
Context (accepted : bytes -> bytes -> bool).
(** [server.rdb_compression], fresh memory of the allocator and the hash table of the compressor. *)
Context (rdb_compression : bool) (uninit : Z -> bytes) (htab : LZF_STATE).

Definition rdbWriteRaw (w p : bytes) : Z * bytes := if accepted w p then (zlen p, w ++ p) else (-1, w).

(** [if ((n = f) == -1) return -1;] *)
Definition wtry (m : option (Z * bytes)) (k : Z -> bytes -> option (Z * bytes)) : option (Z * bytes) :=
  '(n, w) ← m; if n =? -1 then Some (-1, w) else k n w.

Definition rdbSaveType (w : bytes) (type : Z) : option (Z * bytes) := Some (rdbWriteRaw w [u8 type]).

Definition rdbSaveMillisecondTime (w : bytes) (t : Z) : option (Z * bytes) := Some (rdbWriteRaw w (le_bytes 8 t)).

Definition rdbSaveLen (w : bytes) (len : Z) : option (Z * bytes) :=
  if len <? Z.shiftl 1 6 then
    let b0 := u8 (Z.lor (Z.land len 255) (Z.shiftl RDB_6BITLEN 6)) in
    wtry (Some (rdbWriteRaw w [b0])) (fun _ w => Some (1, w))
  else if len <? Z.shiftl 1 14 then
    let b0 := u8 (Z.lor (Z.land (Z.shiftr len 8) 255) (Z.shiftl RDB_14BITLEN 6)) in
    let b1 := u8 (Z.land len 255) in
    wtry (Some (rdbWriteRaw w [b0; b1])) (fun _ w => Some (2, w))
  else if len <=? 2 ^ 32 - 1 then
    wtry (Some (rdbWriteRaw w [RDB_32BITLEN])) (fun _ w =>
    wtry (Some (rdbWriteRaw w (be_bytes 4 len))) (fun _ w => Some (1 + 4, w)))
  else
    wtry (Some (rdbWriteRaw w [RDB_64BITLEN])) (fun _ w =>
    wtry (Some (rdbWriteRaw w (be_bytes 8 len))) (fun _ w => Some (1 + 8, w))).

(** The bytes stored in [enc]; none when 0 is returned. *)
Definition rdbEncodeInteger (value : Z) : bytes :=
  if (value >=? - Z.shiftl 1 7) && (value <=? Z.shiftl 1 7 - 1) then
    [Z.lor (Z.shiftl RDB_ENCVAL 6) RDB_ENC_INT8; Z.land value 255]
  else if (value >=? - Z.shiftl 1 15) && (value <=? Z.shiftl 1 15 - 1) then
    [Z.lor (Z.shiftl RDB_ENCVAL 6) RDB_ENC_INT16; Z.land value 255; Z.land (Z.shiftr value 8) 255]
  else if (value >=? - Z.shiftl 1 31) && (value <=? Z.shiftl 1 31 - 1) then
    [Z.lor (Z.shiftl RDB_ENCVAL 6) RDB_ENC_INT32; Z.land value 255; Z.land (Z.shiftr value 8) 255;
     Z.land (Z.shiftr value 16) 255; Z.land (Z.shiftr value 24) 255]
  else [].

(** [after] is the memory behind the string. *)
Definition rdbTryIntegerEncoding (s after : bytes) : option bytes :=
  '(value, endptr) ← strtoll (s ++ after);
  b ← head endptr;
  if negb (b =? 0) then Some []
  else
    buf ← ll2string_bytes 32 value;
    if negb (zlen buf =? zlen s) || negb (bool_decide (buf = s)) then Some []
    else Some (rdbEncodeInteger value).

Definition rdbSaveLzfBlob (w data : bytes) (original_len : Z) : option (Z * bytes) :=
  let nwritten := 0 in
  let byte := Z.lor (Z.shiftl RDB_ENCVAL 6) RDB_ENC_LZF in
  wtry (Some (rdbWriteRaw w [byte])) (fun n w => let nwritten := nwritten + n in
  wtry (rdbSaveLen w (zlen data)) (fun n w => let nwritten := nwritten + n in
  wtry (rdbSaveLen w original_len) (fun n w => let nwritten := nwritten + n in
  wtry (Some (rdbWriteRaw w data)) (fun n w => Some (nwritten + n, w))))).

(** [zmalloc] does not return NULL.  [lzf_compress] takes both lengths as unsigned int. *)
Definition rdbSaveLzfStringObject (w s : bytes) : option (Z * bytes) :=
  if zlen s <=? 4 then Some (0, w)
  else
    let outlen := zlen s - 4 in
    '(comprlen, out) ← lzf_compress (take (Z.to_nat (u32 (zlen s))) s) htab
                         (take (Z.to_nat (u32 outlen)) (uninit (outlen + 1)));
    if comprlen =? 0 then Some (0, w)
    else data ← zsub out 0 comprlen; rdbSaveLzfBlob w data (zlen s).

Definition rdbSaveRawString (w s after : bytes) : option (Z * bytes) :=
  enc ← (if zlen s <=? 11 then rdbTryIntegerEncoding s after else Some []);
  if zlen enc >? 0 then wtry (Some (rdbWriteRaw w enc)) (fun _ w => Some (zlen enc, w))
  else
    '(n, w) ← (if rdb_compression && (zlen s >? 20) then rdbSaveLzfStringObject w s else Some (0, w));
    if n =? -1 then Some (-1, w)
    else if n >? 0 then Some (n, w)
    else
      wtry (rdbSaveLen w (zlen s)) (fun n w =>
      if zlen s >? 0 then wtry (Some (rdbWriteRaw w s)) (fun _ w => Some (n + zlen s, w)) else Some (n, w)).

Definition rdbSaveLongLongAsStringObject (w : bytes) (value : Z) : option (Z * bytes) :=
  let enc := rdbEncodeInteger value in
  if zlen enc >? 0 then Some (rdbWriteRaw w enc)
  else
    buf ← ll2string_bytes 32 value;
    if negb (zlen buf <? 32) then None
    else
      wtry (rdbSaveLen w (zlen buf)) (fun n w =>
      wtry (Some (rdbWriteRaw w buf)) (fun m w => Some (n + m, w))).

(** An sds string is followed by its terminator. *)
Definition rdbSaveStringObject (w : bytes) (o : robj) : option (Z * bytes) :=
  match o with
  | OInt n => rdbSaveLongLongAsStringObject w n
  | OStr s => rdbSaveRawString w s [0]
  end.
End Save.

(** * Loading *)

Definition rioRead (r : bytes) (n : Z) : option (bytes * bytes) :=
  if n <=? zlen r then Some (take (Z.to_nat n) r, drop (Z.to_nat n) r) else None.

(** [if (rioRead(...) == 0) return] NULL. *)
Definition lread {B} (r : bytes) (n : Z) (k : bytes -> bytes -> option (lres B)) : option (lres B) :=
  match rioRead r n with Some (b, r) => k b r | None => Some LNull end.

Definition rdbLoadRaw (r : bytes) (n : Z) : option (lres bytes) :=
  match rioRead r n with Some (b, r) => Some (LOk b r) | None => Some LExit end.

Definition rdbLoadType (r : bytes) : option (lres Z) := lread r 1 (fun b r => t ← head b; Some (LOk t r)).

(** On a little endian host the version of the file does not matter. *)
Definition rdbLoadMillisecondTime (r : bytes) : option (lres Z) :=
  lbind (rdbLoadRaw r 8) (fun b r => Some (LOk (s64 (le_value b)) r)).

(** [isencoded] and the length. *)
Definition rdbLoadLenByRef (r : bytes) : option (lres (bool * Z)) :=
  lread r 1 (fun buf r =>
  b0 ← head buf;
  let type := Z.shiftr (Z.land b0 192) 6 in
  if type =? RDB_ENCVAL then Some (LOk (true, Z.land b0 63) r)
  else if type =? RDB_6BITLEN then Some (LOk (false, Z.land b0 63) r)
  else if type =? RDB_14BITLEN then
    lread r 1 (fun buf r => b1 ← head buf; Some (LOk (false, Z.lor (Z.shiftl (Z.land b0 63) 8) b1) r))
  else if b0 =? RDB_32BITLEN then lread r 4 (fun b r => Some (LOk (false, be_value b) r))
  else if b0 =? RDB_64BITLEN then lread r 8 (fun b r => Some (LOk (false, be_value b) r))
  else Some LExit).

(** [RDB_LENERR] is NULL for every caller here; a stored length of that value is, too. *)
Definition rdbLoadLen (r : bytes) : option (lres (bool * Z)) := rdbLoadLenByRef r.

Section Load.
Context (uninit : Z -> bytes).

Definition int_result (flags : load_flags) (val : Z) : option loaded :=
  match flags with
  | LOAD_PLAIN | LOAD_SDS => buf ← ll2string_bytes LONG_STR_SIZE val; Some (LBuf buf)
  | LOAD_ENC => Some (LObj (OInt val))
  | LOAD_NONE => Some (LObj (OStr (decimal val)))
  end.

Definition rdbLoadIntegerObject (r : bytes) (enctype : Z) (flags : load_flags) : option (lres loaded) :=
  let finish val r := l ← int_result flags val; Some (LOk l r) in
  if enctype =? RDB_ENC_INT8 then lread r 1 (fun enc r => a ← zget enc 0; finish (s8 a) r)
  else if enctype =? RDB_ENC_INT16 then
    lread r 2 (fun enc r =>
    a ← zget enc 0; b ← zget enc 1;
    let v := u16 (Z.lor a (Z.shiftl b 8)) in finish (s16 v) r)
  else if enctype =? RDB_ENC_INT32 then
    lread r 4 (fun enc r =>
    a ← zget enc 0; b ← zget enc 1; c ← zget enc 2; d ← zget enc 3;
    let v := u32 (Z.lor (Z.lor (Z.lor a (Z.shiftl b 8)) (Z.shiftl c 16)) (Z.shiftl d 24)) in
    finish (s32 v) r)
  else Some LExit.

Definition str_result (flags : load_flags) (s : bytes) : loaded :=
  match flags with LOAD_PLAIN | LOAD_SDS => LBuf s | LOAD_ENC | LOAD_NONE => LObj (OStr s) end.

Definition rdbLoadLzfStringObject (r : bytes) (flags : load_flags) : option (lres loaded) :=
  lbind (rdbLoadLen r) (fun cl r =>
  let clen := snd cl in
  if clen =? RDB_LENERR then Some LNull
  else
  lbind (rdbLoadLen r) (fun l r =>
  let len := snd l in
  if len =? RDB_LENERR then Some LNull
  else
    let val := uninit len in
    lread r clen (fun c r =>
    '(n, val) ← lzf_decompress c val;
    if n =? 0 then Some LNull else Some (LOk (str_result flags val) r)))).

Definition rdbGenericLoadStringObject (r : bytes) (flags : load_flags) : option (lres loaded) :=
  lbind (rdbLoadLen r) (fun l r =>
  let '(isencoded, len) := l in
  if isencoded : bool then
    if (len =? RDB_ENC_INT8) || (len =? RDB_ENC_INT16) || (len =? RDB_ENC_INT32) then rdbLoadIntegerObject r len flags
    else if len =? RDB_ENC_LZF then rdbLoadLzfStringObject r flags
    else Some LExit
  else if len =? RDB_LENERR then Some LNull
  else if negb (len =? 0) then lread r len (fun s r => Some (LOk (str_result flags s) r))
  else Some (LOk (str_result flags []) r)).

Definition rdbLoadStringObject (r : bytes) : option (lres loaded) := rdbGenericLoadStringObject r LOAD_NONE.
Definition rdbLoadEncodedStringObject (r : bytes) : option (lres loaded) := rdbGenericLoadStringObject r LOAD_ENC.
End Load.

(** * Numbers *)

Lemma ll2string_text size n : srange 64 n -> 21 <= size -> ll2string_bytes size n = Some (decimal n).
Proof. apply (ll2string_bytes_spec server0); apply server0_usable. Qed.

Lemma zlen_be n z : zlen (be_bytes n z) = Z.of_nat n.
Proof. unfold be_bytes, zlen. rewrite length_rev. apply zlen_le_bytes. Qed.

Lemma be_roundtrip n z : 0 <= z < 2 ^ (8 * Z.of_nat n) -> be_value (be_bytes n z) = z.
Proof. intros Hz. unfold be_value, be_bytes. rewrite rev_involutive, le_value_bytes. by apply Z.mod_small. Qed.

Lemma land_255 v : Z.land v 255 = v mod 256.
Proof. change 255 with (Z.ones 8). by rewrite Z.land_ones. Qed.

(** ** [strtoll] stays in its range *)

Lemma skip_space_nul mem : 0 ∈ mem -> exists b m, skip_space mem = Some (b :: m) /\ 0 ∈ b :: m.
Proof.
  induction mem as [|b mem IH]; [by intros ?%elem_of_nil|]. intros H. cbn [skip_space]. destruct (isspace b) eqn:E; [|eauto].
  apply elem_of_cons in H as [<-|H]; [done|]. by apply IH.
Qed.

Lemma scan_digits_nul mem : forall acc, 0 ∈ mem -> exists v b m, scan_digits acc mem = Some (v, b :: m).
Proof.
  induction mem as [|b mem IH]; intros acc H; [by apply elem_of_nil in H|]. cbn [scan_digits]. destruct (isdigit b) eqn:E; [|eauto].
  apply elem_of_cons in H as [<-|H]; [done|]. by apply IH.
Qed.

Lemma strtoll_total mem : 0 ∈ mem -> exists v b e, strtoll mem = Some (v, b :: e) /\ srange 64 v.
Proof.
  intros H. unfold strtoll. destruct (skip_space_nul mem H) as (b & m & -> & Hm). cbn [mbind option_bind head]. cbv zeta.
  assert (Hm' : exists d m', (if (b =? 45) || (b =? 43) then tail (b :: m) else b :: m) = d :: m' /\ 0 ∈ d :: m').
  { destruct ((b =? 45) || (b =? 43)) eqn:E; [|eauto]. cbn [tail]. apply elem_of_cons in Hm as [<-|Hm]; [done|]. destruct m; [by apply elem_of_nil in Hm|eauto]. }
  destruct Hm' as (d & m' & -> & Hd). cbn [head mbind option_bind]. destruct (isdigit d); cbn [negb].
  - destruct (scan_digits_nul _ 0 Hd) as (v & c & e & ->). cbn [mbind option_bind]. eexists _, c, e. split; [done|].
    unfold srange, INT64_MIN, INT64_MAX. change (64 - 1) with 63. case_match; lia.
  - destruct mem as [|c e]; [by apply elem_of_nil in H|]. eexists 0, c, e. split; [done|]. unfold srange. change (64 - 1) with 63. lia.
Qed.

(** ** Integers *)

(** Reads of a known array. *)
Ltac zget_known :=
  repeat match goal with
  | |- context [zget (?x :: ?l) ?i] =>
      let r := eval cbv [zget Z.leb Z.compare Z.to_nat Pos.to_nat Pos.iter_op Nat.add lookup list_lookup] in (zget (x :: l) i) in
      change (zget (x :: l) i) with r; cbn [mbind option_bind]
  end.

Lemma s_of_u w v : 0 < w -> srange w v -> swrap w (uwrap w v) = v.
Proof.
  intros Hw H. rewrite <- (swrap_small w v H Hw) at 2. unfold swrap, uwrap. by rewrite Zplus_mod_idemp_l.
Qed.

Section Ints.
Context (uninit : Z -> bytes).

Lemma read_app (e rest : bytes) {B} (k : bytes -> bytes -> option (lres B)) n : n = zlen e -> lread (e ++ rest) n k = k e rest.
Proof.
  intros ->. unfold lread, rioRead. rewrite (proj2 (Z.leb_le _ _)) by zlia. by rewrite to_nat_zlen, take_app_length, drop_app_length.
Qed.

Lemma int_result_ok flags v : srange 64 v -> exists l, int_result flags v = Some l /\ loaded_text l = decimal v.
Proof.
  intros Hv. destruct flags; cbn [int_result]; try (rewrite ll2string_text by (done || unfold LONG_STR_SIZE; lia)); by eexists.
Qed.

(** The loader on an integer encoding of [n] bytes. *)
Lemma load_encoded b0 t e flags rest : Z.shiftr (Z.land b0 192) 6 = RDB_ENCVAL -> Z.land b0 63 = t -> 0 <= t <= 2 ->
  rdbGenericLoadStringObject uninit ((b0 :: e) ++ rest) flags = rdbLoadIntegerObject (e ++ rest) t flags.
Proof.
  intros H1 H2 Ht. unfold rdbGenericLoadStringObject, rdbLoadLen, rdbLoadLenByRef. rewrite (read_app [b0] (e ++ rest)) by done.
  cbn [head mbind option_bind]. cbv zeta. rewrite H1, H2, Z.eqb_refl. cbn [lbind mbind option_bind].
  replace ((t =? RDB_ENC_INT8) || (t =? RDB_ENC_INT16) || (t =? RDB_ENC_INT32)) with true; [done|].
  unfold RDB_ENC_INT8, RDB_ENC_INT16, RDB_ENC_INT32. repeat (destruct (Z.eqb_spec t _) as [?|?]; [done|]). lia.
Qed.

Lemma int8_bytes v : srange 8 v -> s8 (Z.land v 255) = v.
Proof. intros H. rewrite land_255. by apply (s_of_u 8). Qed.

Lemma byte_range x : 0 <= Z.land x 255 < 2 ^ 8.
Proof. rewrite land_255. apply Z.mod_pos_bound. lia. Qed.

Lemma int16_bytes v : srange 16 v -> s16 (u16 (Z.lor (Z.land v 255) (Z.shiftl (Z.land (Z.shiftr v 8) 255) 8))) = v.
Proof.
  intros H. rewrite lor_above by (lia || apply byte_range). rewrite !land_255, Z.shiftr_div_pow2 by lia. change (2 ^ 8) with 256.
  replace (v mod 256 + v / 256 mod 256 * 256) with (uwrap 16 v).
  - rewrite (uwrap_small 16 (uwrap 16 v)) by (by apply uwrap_range). by apply s_of_u.
  - unfold uwrap. change (2 ^ 16) with (256 * 256). rewrite Z.rem_mul_r by lia. lia.
Qed.

Lemma lor4 a b c d : 0 <= a < 2 ^ 8 -> 0 <= b < 2 ^ 8 -> 0 <= c < 2 ^ 8 ->
  Z.lor (Z.lor (Z.lor a (Z.shiftl b 8)) (Z.shiftl c 16)) (Z.shiftl d 24) = a + b * 256 + c * 65536 + d * 16777216.
Proof.
  change (2 ^ 8) with 256. intros Ha Hb Hc. rewrite (lor_above a b 8), (lor_above _ c 16), (lor_above _ d 24) by lia. lia.
Qed.

Lemma int32_bytes v : srange 32 v ->
  s32 (u32 (Z.lor (Z.lor (Z.lor (Z.land v 255) (Z.shiftl (Z.land (Z.shiftr v 8) 255) 8)) (Z.shiftl (Z.land (Z.shiftr v 16) 255) 16))
    (Z.shiftl (Z.land (Z.shiftr v 24) 255) 24))) = v.
Proof.
  intros H. rewrite lor4 by apply byte_range. rewrite !land_255, !Z.shiftr_div_pow2 by lia.
  change (2 ^ 8) with 256. change (2 ^ 16) with 65536. change (2 ^ 24) with 16777216.
  replace (_ + _) with (uwrap 32 v).
  - rewrite (uwrap_small 32 (uwrap 32 v)) by (by apply uwrap_range). by apply s_of_u.
  - unfold uwrap. change (2 ^ 32) with (256 * (256 * (256 * 256))). rewrite !Z.rem_mul_r by lia.
    rewrite !Z.div_div by lia. change (256 * 256 * 256) with 16777216. change (256 * 256) with 65536. lia.
Qed.

(** What [rdbEncodeInteger] stores is loaded as the text of the number. *)
Lemma encode_integer_roundtrip v flags rest : rdbEncodeInteger v <> [] ->
  exists l, rdbGenericLoadStringObject uninit (rdbEncodeInteger v ++ rest) flags = Some (LOk l rest) /\ loaded_text l = decimal v.
Proof.
  unfold rdbEncodeInteger. rewrite !Z.geb_leb.
  change (- Z.shiftl 1 7) with (-128). change (- Z.shiftl 1 15) with (-32768). change (- Z.shiftl 1 31) with (-2147483648).
  change (Z.shiftl 1 7) with 128. change (Z.shiftl 1 15) with 32768. change (Z.shiftl 1 31) with 2147483648.
  intros Hne. assert (Hv : -2147483648 <= v < 2147483648) by (repeat case_match; zb; done || lia).
  destruct (int_result_ok flags v) as (l & El & Hl); [unfold srange; change (2 ^ (64 - 1)) with (2 ^ 63); lia|]. exists l. split; [|done]. clear Hne.
  destruct ((-128 <=? v) && (v <=? 128 - 1)) eqn:E1; [|destruct ((-32768 <=? v) && (v <=? 32768 - 1)) eqn:E2;
    [|rewrite (proj2 (Z.leb_le (-2147483648) v)), (proj2 (Z.leb_le v (2147483648 - 1))) by lia; cbn [andb]]]; zb.
  - rewrite (load_encoded _ 0 [_]) by (done || lia). unfold rdbLoadIntegerObject. cbn [Z.eqb RDB_ENC_INT8]. rewrite (read_app [_] rest) by done.
    zget_known. rewrite int8_bytes, El by (unfold srange; change (2 ^ (8 - 1)) with 128; lia). done.
  - rewrite (load_encoded _ 1 [_; _]) by (done || lia). unfold rdbLoadIntegerObject. cbn [Z.eqb RDB_ENC_INT8 RDB_ENC_INT16 Pos.eqb]. rewrite (read_app [_; _] rest) by done.
    zget_known. cbv zeta. rewrite int16_bytes, El by (unfold srange; change (2 ^ (16 - 1)) with 32768; lia). done.
  - rewrite (load_encoded _ 2 [_; _; _; _]) by (done || lia). unfold rdbLoadIntegerObject. cbn [Z.eqb RDB_ENC_INT8 RDB_ENC_INT16 RDB_ENC_INT32 Pos.eqb]. rewrite (read_app [_; _; _; _] rest) by done.
    zget_known. cbv zeta. rewrite int32_bytes, El by (unfold srange; change (2 ^ (32 - 1)) with 2147483648; lia). done.
Qed.
End Ints.

(** * Saving and loading *)

Section Saves.
Context (accepted : bytes -> bytes -> bool).

(** [f] appends [e] and returns [n], or returns -1 after a failed write. *)
Definition saves_n (f : bytes -> option (Z * bytes)) (e : bytes) (n : Z) : Prop :=
  forall w, exists m w', f w = Some (m, w') /\
    (m = -1 /\ (exists w0 p, accepted w0 p = false) \/ m = n /\ w' = w ++ e).
Definition saves (f : bytes -> option (Z * bytes)) (e : bytes) : Prop := saves_n f e (zlen e).

Lemma saves_raw p : saves (fun w => Some (rdbWriteRaw accepted w p)) p.
Proof. intros w. unfold rdbWriteRaw. destruct (accepted w p) eqn:E; eexists _, _; (split; [done|]); [by right|left; eauto]. Qed.

Lemma saves_ret n : saves_n (fun w => Some (n, w)) [] n.
Proof. intros w. eexists _, _. split; [done|]. right. by rewrite app_nil_r. Qed.

Lemma saves_try f k e e2 m n : saves_n f e m -> m <> -1 -> saves_n (fun w => k m w) e2 n -> saves_n (fun w => wtry (f w) k) (e ++ e2) n.
Proof.
  intros Hf Hm Hk w. destruct (Hf w) as (m1 & w1 & E & H). unfold wtry. rewrite E. cbn [mbind option_bind]. destruct H as [[-> Hbad]|[-> ->]].
  - eexists _, _. split; [done|]. by left.
  - rewrite (proj2 (Z.eqb_neq m (-1))) by done. destruct (Hk (w ++ e)) as (m2 & w2 & -> & H). eexists _, _. split; [done|]. by rewrite app_assoc.
Qed.

Lemma saves_raw_try p k e2 n : saves_n (fun w => k (zlen p) w) e2 n -> saves_n (fun w => wtry (Some (rdbWriteRaw accepted w p)) k) (p ++ e2) n.
Proof. intros Hk. apply (saves_try _ k p e2 (zlen p)); [apply saves_raw|zlia|done]. Qed.

(** The last write. *)
Lemma saves_last p k n : saves_n (fun w => k (zlen p) w) [] n -> saves_n (fun w => wtry (Some (rdbWriteRaw accepted w p)) k) p n.
Proof. intros Hk. pose proof (saves_raw_try p k [] n Hk) as H. by rewrite app_nil_r in H. Qed.

Lemma saves_ext f g e n : (forall w, f w = g w) -> saves_n g e n -> saves_n f e n.
Proof. intros E H w. rewrite E. apply H. Qed.

(** ** Lengths *)

Definition loads_len (e : bytes) (len : Z) : Prop := forall rest, rdbLoadLenByRef (e ++ rest) = Some (LOk (false, len) rest).

Lemma len6 len : 0 <= len <= 63 ->
  u8 (Z.lor (Z.land len 255) (Z.shiftl RDB_6BITLEN 6)) = len /\ Z.shiftr (Z.land len 192) 6 = 0 /\ Z.land len 63 = len.
Proof.
  intros H. pose proof (byte_range_forall 0 63 (fun len => (u8 (Z.lor (Z.land len 255) (Z.shiftl RDB_6BITLEN 6)) =? len) &&
    (Z.shiftr (Z.land len 192) 6 =? 0) && (Z.land len 63 =? len)) ltac:(vm_compute; reflexivity) ltac:(lia) ltac:(lia) len H) as E. cbv beta in E. zb. done.
Qed.

Lemma len14 h : 0 <= h <= 63 -> let b0 := u8 (Z.lor (Z.land h 255) (Z.shiftl RDB_14BITLEN 6)) in
  Z.shiftr (Z.land b0 192) 6 = 1 /\ Z.land b0 63 = h.
Proof.
  intros H. pose proof (byte_range_forall 0 63 (fun h => let b0 := u8 (Z.lor (Z.land h 255) (Z.shiftl RDB_14BITLEN 6)) in
    (Z.shiftr (Z.land b0 192) 6 =? 1) && (Z.land b0 63 =? h)) ltac:(vm_compute; reflexivity) ltac:(lia) ltac:(lia) h H) as E. cbv beta zeta in *. zb. done.
Qed.

Lemma save_len len : urange 64 len -> exists e, saves (fun w => rdbSaveLen accepted w len) e /\ 0 < zlen e /\ loads_len e len.
Proof.
  intros [H0 H64]. unfold rdbSaveLen. change (Z.shiftl 1 6) with 64. change (Z.shiftl 1 14) with 16384.
  destruct (Z.ltb_spec len 64) as [H6|H6]; [|destruct (Z.ltb_spec len 16384) as [H14|H14]; [|destruct (Z.leb_spec len (2 ^ 32 - 1)) as [H32|H32]]].
  - destruct (len6 len) as (E & Et & Ev); [lia|]. rewrite E. exists [len]. split; [apply (saves_raw_try [len]); apply saves_ret|]. split; [done|].
    intros rest. unfold rdbLoadLenByRef. rewrite (read_app [len]) by done. cbn [head mbind option_bind]. cbv zeta. by rewrite Et, Ev.
  - assert (Hh : 0 <= Z.shiftr len 8 <= 63) by (rewrite Z.shiftr_div_pow2 by lia; change (2 ^ 8) with 256; dlia).
    destruct (len14 _ Hh) as (Et & Ev). cbv zeta in *. set (b0 := u8 (Z.lor _ _)) in *. set (b1 := u8 (Z.land len 255)).
    exists [b0; b1]. split; [apply (saves_raw_try [b0; b1]); apply saves_ret|]. split; [done|].
    intros rest. unfold rdbLoadLenByRef. rewrite (read_app [b0] (b1 :: rest)) by done. cbn [head mbind option_bind]. cbv zeta. rewrite Et, Ev.
    cbn [Z.eqb RDB_ENCVAL RDB_6BITLEN RDB_14BITLEN Pos.eqb]. rewrite (read_app [b1] rest) by done. cbn [head mbind option_bind]. do 3 f_equal.
    unfold b1. rewrite land_255. assert (0 <= len mod 256 < 2 ^ 8) by (apply Z.mod_pos_bound; lia). rewrite uwrap_small by done.
    rewrite Z.lor_comm, lor_above by lia. rewrite Z.shiftr_div_pow2 by lia. change (2 ^ 8) with 256. dlia.
  - exists ([128] ++ be_bytes 4 len). split; [|split; [rewrite zlen_app, zlen_be; zlia|]].
    + unfold saves. replace (zlen ([128] ++ be_bytes 4 len)) with 5 by (by rewrite zlen_app, zlen_be). apply saves_raw_try.
      apply saves_last, saves_ret.
    + intros rest. unfold rdbLoadLenByRef. rewrite <- app_assoc, (read_app [128]) by done. cbn [head mbind option_bind]. cbv zeta.
      change (Z.shiftr (Z.land 128 192) 6) with 2. cbn [Z.eqb RDB_ENCVAL RDB_6BITLEN RDB_14BITLEN RDB_32BITLEN Pos.eqb].
      rewrite (read_app (be_bytes 4 len)) by (by rewrite zlen_be). rewrite be_roundtrip by (change (2 ^ (8 * Z.of_nat 4)) with (2 ^ 32); lia). done.
  - exists ([129] ++ be_bytes 8 len). split; [|split; [rewrite zlen_app, zlen_be; zlia|]].
    + unfold saves. replace (zlen ([129] ++ be_bytes 8 len)) with 9 by (by rewrite zlen_app, zlen_be). apply saves_raw_try.
      apply saves_last, saves_ret.
    + intros rest. unfold rdbLoadLenByRef. rewrite <- app_assoc, (read_app [129]) by done. cbn [head mbind option_bind]. cbv zeta.
      change (Z.shiftr (Z.land 129 192) 6) with 2. cbn [Z.eqb RDB_ENCVAL RDB_6BITLEN RDB_14BITLEN RDB_32BITLEN RDB_64BITLEN Pos.eqb].
      rewrite (read_app (be_bytes 8 len)) by (by rewrite zlen_be). rewrite be_roundtrip by (change (2 ^ (8 * Z.of_nat 8)) with (2 ^ 64); lia). done.
Qed.

(** ** Strings *)

Context (rdb_compression : bool) (uninit : Z -> bytes) (htab : LZF_STATE).
Hypothesis uninit_len : forall n, 0 <= n -> zlen (uninit n) = n.
Hypothesis htab32 : forall i, urange 32 (htab i).

Definition loads (e s : bytes) : Prop :=
  forall rest flags, exists l, rdbGenericLoadStringObject uninit (e ++ rest) flags = Some (LOk l rest) /\ loaded_text l = s.

Lemma str_result_text flags s : loaded_text (str_result flags s) = s.
Proof. by destruct flags. Qed.

(** A length that is not [RDB_LENERR]. *)
Lemma not_lenerr n : 0 <= n < 2 ^ 63 -> (n =? RDB_LENERR) = false.
Proof. intros H. apply Z.eqb_neq. unfold RDB_LENERR, UINT64_MAX. lia. Qed.

Lemma load_verbatim e s : loads_len e (zlen s) -> zlen s < 2 ^ 63 -> loads (e ++ s) s.
Proof.
  intros He Hs rest flags. unfold rdbGenericLoadStringObject, rdbLoadLen. rewrite <- app_assoc, He. cbn [lbind mbind option_bind].
  rewrite not_lenerr by zlia. destruct (Z.eqb_spec (zlen s) 0) as [E|E]; cbn [negb].
  - apply zlen_0_nil in E as ->. eexists. split; [done|]. apply str_result_text.
  - rewrite read_app by done. eexists. split; [done|]. apply str_result_text.
Qed.

Lemma load_lzf e1 e2 data s : loads_len e1 (zlen data) -> loads_len e2 (zlen s) -> zlen data < 2 ^ 63 -> 0 < zlen s < 2 ^ 63 ->
  lzf_decompress data (uninit (zlen s)) = Some (zlen s, s) -> loads ([195] ++ e1 ++ e2 ++ data) s.
Proof.
  intros H1 H2 Hd Hs E rest flags. unfold rdbGenericLoadStringObject, rdbLoadLen. unfold rdbLoadLenByRef at 1. rewrite <- app_assoc, (read_app [195]) by done.
  cbn [head mbind option_bind]. cbv zeta. change (Z.shiftr (Z.land 195 192) 6) with 3. change (Z.land 195 63) with 3.
  cbn [Z.eqb RDB_ENCVAL Pos.eqb lbind mbind option_bind RDB_ENC_INT8 RDB_ENC_INT16 RDB_ENC_INT32 RDB_ENC_LZF orb].
  unfold rdbLoadLzfStringObject, rdbLoadLen. rewrite <- !app_assoc, H1. cbn [lbind mbind option_bind snd]. rewrite not_lenerr by zlia.
  rewrite H2. cbn [lbind mbind option_bind snd]. rewrite not_lenerr by lia. cbv zeta. rewrite read_app by done. rewrite E. cbn [mbind option_bind].
  rewrite (proj2 (Z.eqb_neq _ _)) by lia. eexists. split; [done|]. apply str_result_text.
Qed.

(** Compressing: nothing is written, or a blob that loads as the string. *)
Lemma save_lzf s : zlen s < 2 ^ 32 ->
  (forall w, rdbSaveLzfStringObject accepted uninit htab w s = Some (0, w)) \/
  exists e, saves (fun w => rdbSaveLzfStringObject accepted uninit htab w s) e /\ 0 < zlen e /\ loads e s.
Proof using uninit_len htab32.
  intros Hs. unfold rdbSaveLzfStringObject. destruct (Z.leb_spec (zlen s) 4) as [H4|H4]; [by left|]. cbv zeta.
  rewrite !(uwrap_small 32), to_nat_zlen, (take_ge s) by (unfold urange; lia).
  set (out := take _ (uninit _)).
  destruct (lzf_compress_spec s Hs htab out ltac:(lia) htab32) as (n & out' & E & Hl & H). rewrite E. cbn [mbind option_bind].
  destruct (Z.eqb_spec n 0) as [->|Hn0]; [by left|]. right. destruct H as [->|(toks & tail & Hn & Ho & Hok & Hexp)]; [done|].
  destruct (decompress_tokens toks (uninit (zlen s))) as (rest & Ed & Hr); [by intros Hnil; rewrite Hnil in Hn|done|rewrite Hexp, uninit_len by lia; lia|].
  rewrite Hexp in *. rewrite uninit_len, zlen_app in Hr by lia. assert (rest = []) as -> by (apply zlen_0_nil; lia). rewrite app_nil_r in Ed.
  assert (Hout : zlen out = zlen s - 4) by (unfold out, zlen at 1; rewrite length_take; pose proof (uninit_len (zlen s - 4 + 1) ltac:(lia)); unfold zlen in *; lia).
  rewrite Ho. rewrite (zsub_app0 _ tail n Hn). cbn [mbind option_bind]. set (data := flat_map enc_tok toks) in *.
  assert (Hdata : zlen data <= zlen out) by (rewrite <- Hl, Ho; zlia). pose proof (zlen_nonneg data). pose proof (zlen_nonneg s).
  destruct (save_len (zlen data)) as (e1 & S1 & P1 & L1); [unfold urange; lia|]. destruct (save_len (zlen s)) as (e2 & S2 & P2 & L2); [unfold urange; lia|].
  exists ([195] ++ e1 ++ e2 ++ data). split; [|split; [zlia|apply load_lzf; [done..|lia|lia|done]]].
  unfold rdbSaveLzfBlob. cbv zeta. change (Z.lor _ _) with 195. unfold saves. apply saves_raw_try.
  eapply saves_try; [exact S1|lia|]. eapply saves_try; [exact S2|lia|]. apply saves_last.
  intros w. destruct (saves_ret (zlen ([195] ++ e1 ++ e2 ++ data)) w) as (m & w' & Em & Hm). exists m, w'. split; [|done]. rewrite <- Em. do 2 f_equal. zlia.
Qed.

Lemma try_integer s after : 0 ∈ after ->
  exists enc, rdbTryIntegerEncoding s after = Some enc /\ (enc = [] \/ loads enc s).
Proof.
  intros H0. unfold rdbTryIntegerEncoding. destruct (strtoll_total (s ++ after)) as (v & b & e & -> & Hv); [apply elem_of_app; by right|]. cbn [mbind option_bind head].
  destruct (b =? 0); cbn [negb]; [|by exists []; eauto]. rewrite ll2string_text by (done || lia). cbn [mbind option_bind].
  destruct (negb _ || negb _) eqn:E; [by exists []; eauto|]. apply orb_false_elim in E as [_ E]. apply negb_false_iff, bool_decide_eq_true in E.
  exists (rdbEncodeInteger v). split; [done|]. destruct (decide (rdbEncodeInteger v = [])) as [?|Hne]; [by left|right].
  intros rest flags. rewrite <- E. by apply encode_integer_roundtrip.
Qed.

Lemma save_raw_string s after : zlen s < 2 ^ 63 -> (rdb_compression = true -> zlen s < 2 ^ 32) -> 0 ∈ after ->
  exists e, saves (fun w => rdbSaveRawString accepted rdb_compression uninit htab w s after) e /\ loads e s.
Proof using uninit_len htab32.
  intros Hs Hcs H0. unfold rdbSaveRawString.
  assert (Henc : exists enc, (if zlen s <=? 11 then rdbTryIntegerEncoding s after else Some []) = Some enc /\ (enc = [] \/ loads enc s)).
  { destruct (zlen s <=? 11); [by apply try_integer|]. exists []; eauto. }
  destruct Henc as (enc & -> & Henc). cbn [mbind option_bind]. rewrite Z.gtb_ltb. destruct (Z.ltb_spec 0 (zlen enc)) as [Hp|Hp].
  { exists enc. destruct Henc as [->|Hl]; [done|]. split; [|done]. apply saves_last, saves_ret. }
  destruct (save_len (zlen s)) as (e1 & S1 & P1 & L1); [unfold urange; zlia|].
  assert (Hverb : saves (fun w => wtry (rdbSaveLen accepted w (zlen s)) (fun n w =>
      if zlen s >? 0 then wtry (Some (rdbWriteRaw accepted w s)) (fun _ w => Some (n + zlen s, w)) else Some (n, w))) (e1 ++ s)).
  { unfold saves. eapply saves_try; [exact S1|lia|]. rewrite Z.gtb_ltb, zlen_app. destruct (Z.ltb_spec 0 (zlen s)) as [|Hz].
    - apply saves_last, saves_ret.
    - assert (s = []) as -> by (apply zlen_0_nil; zlia). rewrite zlen_nil, Z.add_0_r. apply saves_ret. }
  assert (Hplain : loads (e1 ++ s) s) by (apply load_verbatim; [done|lia]).
  destruct (rdb_compression && (zlen s >? 20)) eqn:Ec; [|by exists (e1 ++ s)]. apply andb_true_iff in Ec as [Ec _].
  destruct (save_lzf s (Hcs Ec)) as [E|(e & Se & Pe & Le)].
  - exists (e1 ++ s). split; [|done]. eapply saves_ext; [|exact Hverb]. intros w. rewrite E. reflexivity.
  - exists e. split; [|done]. intros w. destruct (Se w) as (m & w' & -> & [[-> Hbad]|[-> ->]]); cbn [mbind option_bind].
    + eexists _, _. split; [done|]. by left.
    + rewrite (proj2 (Z.eqb_neq _ _)) by lia. rewrite Z.gtb_ltb, (proj2 (Z.ltb_lt _ _)) by lia. eexists _, _. split; [done|]. by right.
Qed.

Lemma save_long_long v : srange 64 v -> exists e, saves (fun w => rdbSaveLongLongAsStringObject accepted w v) e /\ loads e (decimal v).
Proof.
  intros Hv. unfold rdbSaveLongLongAsStringObject. cbv zeta. rewrite Z.gtb_ltb. destruct (Z.ltb_spec 0 (zlen (rdbEncodeInteger v))) as [Hp|Hp].
  - exists (rdbEncodeInteger v). split; [apply saves_raw|]. intros rest flags. apply encode_integer_roundtrip. by intros E; rewrite E in Hp.
  - rewrite ll2string_text by (done || lia). cbn [mbind option_bind]. pose proof (decimal_le20 v Hv). rewrite (proj2 (Z.ltb_lt _ _)) by lia. cbn [negb].
    destruct (save_len (zlen (decimal v))) as (e1 & S1 & P1 & L1); [unfold urange; zlia|].
    exists (e1 ++ decimal v). split; [|apply load_verbatim; [done|lia]]. unfold saves. eapply saves_try; [exact S1|lia|].
    rewrite zlen_app. apply saves_last, saves_ret.
Qed.
End Saves.

(** Types, times and lengths. *)
Lemma rdb_scalars_roundtrip accepted type t len rest : byte_ok type -> srange 64 t -> urange 64 len ->
  (saves accepted (fun w => rdbSaveType accepted w type) [type] /\ rdbLoadType ([type] ++ rest) = Some (LOk type rest)) /\
  (saves accepted (fun w => rdbSaveMillisecondTime accepted w t) (le_bytes 8 t) /\
     rdbLoadMillisecondTime (le_bytes 8 t ++ rest) = Some (LOk t rest)) /\
  exists e, saves accepted (fun w => rdbSaveLen accepted w len) e /\ rdbLoadLen (e ++ rest) = Some (LOk (false, len) rest).
Proof.
  intros Ht Hs Hl. split; [|split].
  - split; [|unfold rdbLoadType; by rewrite (read_app [type] rest)]. unfold rdbSaveType. rewrite uwrap_small by done. apply saves_raw.
  - split; [apply saves_raw|]. unfold rdbLoadMillisecondTime, rdbLoadRaw, rioRead. rewrite (proj2 (Z.leb_le _ _)) by (rewrite zlen_app, zlen_le_bytes; zlia).
    replace (Z.to_nat 8) with (length (le_bytes 8 t)) by (pose proof (zlen_le_bytes 8 t); unfold zlen in *; lia).
    rewrite take_app_length, drop_app_length. cbn [lbind mbind option_bind]. rewrite le_value_bytes. do 2 f_equal. by apply (s_of_u 64).
  - destruct (save_len accepted len Hl) as (e & Se & _ & Le). exists e. split; [done|]. apply Le.
Qed.

(** * Properties *)

(** C8. A string object survives the dump file, whatever fresh memory and the uninitialised hash
    table of the compressor contain: saving returns -1 only after a failed write and otherwise
    appends an encoding of exactly the length it returns, and loading it in any mode gives the text
    of the object and leaves the stream right behind it.  This covers the integer, compressed and
    verbatim encodings and, through strings of every size, the length formats of 6, 14, 32 and 64
    bits.  With compression on the string must be shorter than 4 GB, since the compressor is given
    its length as an unsigned int.  The length formats alone carry every 64-bit length. *)
Theorem rdb_string_roundtrip accepted rdb_compression uninit htab o len :
  (forall n, 0 <= n -> zlen (uninit n) = n) -> (forall i, urange 32 (htab i)) ->
  obj_ok o -> zlen (obj_text o) < 2 ^ 63 -> (rdb_compression = true -> zlen (obj_text o) < 2 ^ 32) -> urange 64 len ->
  (exists e, saves accepted (fun w => rdbSaveStringObject accepted rdb_compression uninit htab w o) e /\
     loads uninit e (obj_text o)) /\
  (exists e, saves accepted (fun w => rdbSaveLen accepted w len) e /\ loads_len e len).
Proof.
  intros Hu Hh Ho Hl Hc Hlen. split.
  - destruct o as [s|v]; cbn [rdbSaveStringObject obj_text] in *.
    + apply save_raw_string; [done..|by left].
    + by apply save_long_long.
  - destruct (save_len accepted len Hlen) as (e & Se & _ & Le). by exists e.
Qed.

Lemma rdb_string_roundtrip_witness :
  (exists e, saves (fun w _ => zlen w <? 100) (fun w => rdbSaveStringObject (fun w _ => zlen w <? 100) true
    (fun n => replicate (Z.to_nat n) 170) (fun _ => 9) w (OStr (replicate 300 97))) e /\
    loads (fun n => replicate (Z.to_nat n) 170) e (replicate 300 97)) /\
  (exists e, saves (fun w _ => zlen w <? 100) (fun w => rdbSaveLen (fun w _ => zlen w <? 100) w (2 ^ 40 + 258)) e /\
    loads_len e (2 ^ 40 + 258)).
Proof.
  apply (rdb_string_roundtrip (fun w _ => zlen w <? 100) true (fun n => replicate (Z.to_nat n) 170) (fun _ => 9)
    (OStr (replicate 300 97)) (2 ^ 40 + 258));
    [intros; rewrite zlen_replicate; lia|by intros; split|done|done|done|by split].
Defined.

(** A damaged compressed string can expose memory: [rdbLoadLzfStringObject] only checks that
    decompression produced something, so a blob that expands to one byte but announces [len] bytes
    loads as that byte followed by [len - 1] bytes of uninitialised memory. *)
Theorem lzf_load_exposes_memory uninit len x flags :
  (forall n, 0 <= n -> zlen (uninit n) = n) -> 1 <= len < 64 -> byte_ok x ->
  exists l, rdbGenericLoadStringObject uninit [195; 2; len; 0; x] flags = Some (LOk l []) /\
    loaded_text l = x :: drop 1 (uninit len).
Proof.
  intros Hu Hlen Hx. exists (str_result flags (x :: drop 1 (uninit len))). split; [|apply str_result_text].
  assert (L : forall n r, 0 <= n < 64 -> rdbLoadLenByRef (n :: r) = Some (LOk (false, n) r)).
  { intros n r Hn. destruct (len6 n) as (_ & Et & Ev); [lia|]. unfold rdbLoadLenByRef. rewrite (read_app [n] r) by done.
    cbn [head mbind option_bind]. cbv zeta. by rewrite Et, Ev. }
  change (rdbGenericLoadStringObject uninit [195; 2; len; 0; x] flags) with (rdbLoadLzfStringObject uninit [2; len; 0; x] flags).
  unfold rdbLoadLzfStringObject, rdbLoadLen. rewrite L by lia. cbn [lbind mbind option_bind snd]. rewrite not_lenerr by lia.
  rewrite L by lia. cbn [lbind mbind option_bind snd]. rewrite not_lenerr by lia. cbv zeta. rewrite (read_app [0; x] []) by done.
  pose proof (Hu len ltac:(lia)) as Hul. destruct (uninit len) as [|y r] eqn:E; [change (zlen []) with 0 in Hul; lia|].
  assert (Ed : lzf_decompress [0; x] (y :: r) = Some (1, x :: r)).
  { unfold lzf_decompress. cbn [length decompress_loop]. unfold decompress_step. zget_known. cbv zeta. change (0 <? Z.shiftl 1 5) with true. cbv iota.
    rewrite !Z.gtb_ltb, (proj2 (Z.ltb_ge (zlen (y :: r)) _)) by zlia. change (zlen [0; x] <? 0 + 1 + (0 + 1)) with false. cbv iota.
    change (zsub [0; x] (0 + 1) (0 + 1)) with (Some [x]). cbn [mbind option_bind].
    change (zput (y :: r) 0 [x]) with (zput ([y] ++ r) 0 [x]). by rewrite (zput_app0 [y] r [x]). }
  rewrite Ed. cbn [mbind option_bind]. done.
Qed.

Lemma lzf_load_exposes_memory_witness : exists l,
  rdbGenericLoadStringObject (fun n => replicate (Z.to_nat n) 170) [195; 2; 5; 0; 33] LOAD_SDS = Some (LOk l []) /\
  loaded_text l = [33; 170; 170; 170; 170].
Proof.
  apply (lzf_load_exposes_memory (fun n => replicate (Z.to_nat n) 170) 5 33 LOAD_SDS); [intros; rewrite zlen_replicate; lia|lia|done].
Defined.
