(* ===== verification/Bitops.v ===== *)
(** Bit operations on strings (bitops.c): counting and searching bits, and integers of up to 64
    bits at arbitrary bit positions with their overflow rules.

    The host is little endian.  [addr] is the address of the string, which decides where the word
    loops start.  [None] is an access outside the string, a shift by 64 or more (undefined in C)
    or the panic at the end of [redisBitpos]. *)

From S2P Require Import Prelude.
#[local] Open Scope Z_scope.

Definition bitsinbyte : bytes :=
  [0; 1; 1; 2; 1; 2; 2; 3; 1; 2; 2; 3; 2; 3; 3; 4; 1; 2; 2; 3; 2; 3; 3; 4; 2; 3; 3; 4; 3; 4; 4; 5;
   1; 2; 2; 3; 2; 3; 3; 4; 2; 3; 3; 4; 3; 4; 4; 5; 2; 3; 3; 4; 3; 4; 4; 5; 3; 4; 4; 5; 4; 5; 5; 6;
   1; 2; 2; 3; 2; 3; 3; 4; 2; 3; 3; 4; 3; 4; 4; 5; 2; 3; 3; 4; 3; 4; 4; 5; 3; 4; 4; 5; 4; 5; 5; 6;
   2; 3; 3; 4; 3; 4; 4; 5; 3; 4; 4; 5; 4; 5; 5; 6; 3; 4; 4; 5; 4; 5; 5; 6; 4; 5; 5; 6; 5; 6; 6; 7;
   1; 2; 2; 3; 2; 3; 3; 4; 2; 3; 3; 4; 3; 4; 4; 5; 2; 3; 3; 4; 3; 4; 4; 5; 3; 4; 4; 5; 4; 5; 5; 6;
   2; 3; 3; 4; 3; 4; 4; 5; 3; 4; 4; 5; 4; 5; 5; 6; 3; 4; 4; 5; 4; 5; 5; 6; 4; 5; 5; 6; 5; 6; 6; 7;
   2; 3; 3; 4; 3; 4; 4; 5; 3; 4; 4; 5; 4; 5; 5; 6; 3; 4; 4; 5; 4; 5; 5; 6; 4; 5; 5; 6; 5; 6; 6; 7;
   3; 4; 4; 5; 4; 5; 5; 6; 4; 5; 5; 6; 5; 6; 6; 7; 4; 5; 5; 6; 5; 6; 6; 7; 5; 6; 6; 7; 6; 7; 7; 8].

(** * Counting *)

Section Popcount.
Context (addr : Z) (s : bytes).

(** [while((unsigned long)p & 3 && count)]; returns [p], [count] and [bits]. *)
Fixpoint pop_head (fuel : nat) (p count bits : Z) : option (Z * Z * Z) :=
  if negb (Z.land (addr + p) 3 =? 0) && negb (count =? 0) then
    match fuel with
    | O => None
    | S fuel => b ← zget s p; n ← zget bitsinbyte b; pop_head fuel (p + 1) (count - 1) (u64 (bits + n))
    end
  else Some (p, count, bits).

Definition load32 (p : Z) : option Z := w ← zsub s p 4; Some (le_value w).

(** The two reduction steps of a word. *)
Definition swar (aux : Z) : Z :=
  let aux := u32 (aux - Z.land (Z.shiftr aux 1) 0x55555555) in
  u32 (Z.land aux 0x33333333 + Z.land (Z.shiftr aux 2) 0x33333333).
Definition nibbles (aux : Z) : Z := Z.land (u32 (aux + Z.shiftr aux 4)) 0x0F0F0F0F.

(** [while(count>=28)]. *)
Fixpoint pop_blocks (fuel : nat) (p count bits : Z) : option (Z * Z * Z) :=
  if count >=? 28 then
    match fuel with
    | O => None
    | S fuel =>
        aux1 ← load32 p; aux2 ← load32 (p + 4); aux3 ← load32 (p + 8); aux4 ← load32 (p + 12);
        aux5 ← load32 (p + 16); aux6 ← load32 (p + 20); aux7 ← load32 (p + 24);
        let sum := u32 (nibbles (swar aux1) + nibbles (swar aux2) + nibbles (swar aux3) + nibbles (swar aux4) +
                        nibbles (swar aux5) + nibbles (swar aux6) + nibbles (swar aux7)) in
        pop_blocks fuel (p + 28) (count - 28) (u64 (bits + Z.shiftr (u32 (sum * 0x01010101)) 24))
    end
  else Some (p, count, bits).

(** [while(count--)]. *)
Fixpoint pop_tail (fuel : nat) (p count bits : Z) : option Z :=
  if count =? 0 then Some bits
  else
    match fuel with
    | O => None
    | S fuel => b ← zget s p; n ← zget bitsinbyte b; pop_tail fuel (p + 1) (count - 1) (u64 (bits + n))
    end.

Definition redisPopcount (count : Z) : option Z :=
  '(p, count, bits) ← pop_head 3 0 count 0;
  '(p, count, bits) ← pop_blocks (Z.to_nat count) p count bits;
  pop_tail (Z.to_nat count) p count bits.
End Popcount.

(** * Searching *)

Section Bitpos.
Context (addr : Z) (s : bytes).

(** [while((unsigned long)c & (sizeof( *l)-1) && count)]; returns [found], [c], [count] and [pos]. *)
Fixpoint bitpos_head (fuel : nat) (skipval c count pos : Z) : option (bool * Z * Z * Z) :=
  if negb (Z.land (addr + c) 7 =? 0) && negb (count =? 0) then
    match fuel with
    | O => None
    | S fuel =>
        b ← zget s c;
        if negb (b =? skipval) then Some (true, c, count, pos)
        else bitpos_head fuel skipval (c + 1) (count - 1) (pos + 8)
    end
  else Some (false, c, count, pos).

(** [while (count >= sizeof( *l))]. *)
Fixpoint bitpos_words (fuel : nat) (skipval l count pos : Z) : option (Z * Z * Z) :=
  if count >=? 8 then
    match fuel with
    | O => None
    | S fuel =>
        w ← zsub s l 8;
        if negb (le_value w =? skipval) then Some (l, count, pos)
        else bitpos_words fuel skipval (l + 8) (count - 8) (pos + 64)
    end
  else Some (l, count, pos).

(** [for (j = 0; j < sizeof( *l); j++)]. *)
Fixpoint load_word (n : nat) (c count word : Z) : option Z :=
  match n with
  | O => Some word
  | S n =>
      let word := u64 (Z.shiftl word 8) in
      if negb (count =? 0) then b ← zget s c; load_word n (c + 1) (count - 1) (Z.lor word b)
      else load_word n c count word
  end.

(** [while(one)]. *)
Fixpoint scan_word (fuel : nat) (one word : Z) (bit : bool) (pos : Z) : option Z :=
  if one =? 0 then None
  else
    match fuel with
    | O => None
    | S fuel =>
        if Bool.eqb (negb (Z.land one word =? 0)) bit then Some pos
        else scan_word fuel (Z.shiftr one 1) word bit (pos + 1)
    end.

Definition redisBitpos (count : Z) (bit : bool) : option Z :=
  let skipval := if bit then 0 else 255 in
  '(found, c, count, pos) ← bitpos_head 7 skipval 0 count 0;
  '(l, count, pos) ←
    (if found : bool then Some (c, count, pos)
     else bitpos_words (Z.to_nat count) (if bit then 0 else UINT64_MAX) c count pos);
  word ← load_word 8 l count 0;
  if bit && (word =? 0) then Some (-1)
  else scan_word 64 (UINT64_MAX - Z.shiftr UINT64_MAX 1) word bit pos.
End Bitpos.

(** * Bit fields *)

(** A shift of a 64-bit value; undefined from 64 on. *)
Definition shl64 (v n : Z) : option Z := if (0 <=? n) && (n <? 64) then Some (u64 (Z.shiftl v n)) else None.

(** The iterations of the loop, [n] of them left ([n = bits - j]). *)
Fixpoint set_bits (n : nat) (p : bytes) (offset value : Z) : option bytes :=
  match n with
  | O => Some p
  | S n =>
      m ← shl64 1 (Z.of_nat n);
      let bitval := if Z.land value m =? 0 then 0 else 1 in
      let byte := Z.shiftr offset 3 in
      let bit := 7 - Z.land offset 7 in
      byteval ← zget p byte;
      let byteval := Z.land byteval (Z.lnot (Z.shiftl 1 bit)) in
      let byteval := Z.lor byteval (Z.shiftl bitval bit) in
      p ← zput p byte [Z.land byteval 255];
      set_bits n p (offset + 1) value
  end.

Definition setUnsignedBitfield (p : bytes) (offset bits value : Z) : option bytes :=
  set_bits (Z.to_nat bits) p offset value.

Definition setSignedBitfield (p : bytes) (offset bits value : Z) : option bytes :=
  setUnsignedBitfield p offset bits (u64 value).

Fixpoint get_bits (n : nat) (p : bytes) (offset value : Z) : option Z :=
  match n with
  | O => Some value
  | S n =>
      let byte := Z.shiftr offset 3 in
      let bit := 7 - Z.land offset 7 in
      byteval ← zget p byte;
      let bitval := Z.land (Z.shiftr byteval bit) 1 in
      get_bits n p (offset + 1) (Z.lor (u64 (Z.shiftl value 1)) bitval)
  end.

Definition getUnsignedBitfield (p : bytes) (offset bits : Z) : option Z := get_bits (Z.to_nat bits) p offset 0.

Definition getSignedBitfield (p : bytes) (offset bits : Z) : option Z :=
  u ← getUnsignedBitfield p offset bits;
  msb ← shl64 1 (bits - 1);
  if negb (Z.land u msb =? 0) then
    mask ← shl64 UINT64_MAX bits;
    Some (s64 (Z.lor u mask))
  else Some (s64 u).

(** * Overflow *)

Inductive owtype := BFOVERFLOW_WRAP | BFOVERFLOW_SAT | BFOVERFLOW_FAIL.

(** The result and the new [*limit]; [limit] is not NULL. *)
Definition checkUnsignedBitfieldOverflow (value incr bits : Z) (ow : owtype) (limit : Z) : option (Z * Z) :=
  max ← (if bits =? 64 then Some UINT64_MAX else m ← shl64 1 bits; Some (u64 (m - 1)));
  let maxincr := s64 (u64 (max - value)) in
  let minincr := s64 (u64 (- value)) in
  let handle_wrap := mask ← shl64 UINT64_MAX bits; Some (1, Z.land (u64 (value + incr)) (UINT64_MAX - mask)) in
  if (value >? max) || (incr >? 0) && (incr >? maxincr) then
    match ow with BFOVERFLOW_WRAP => handle_wrap | BFOVERFLOW_SAT => Some (1, max) | BFOVERFLOW_FAIL => Some (1, limit) end
  else if (incr <? 0) && (incr <? minincr) then
    match ow with BFOVERFLOW_WRAP => handle_wrap | BFOVERFLOW_SAT => Some (-1, 0) | BFOVERFLOW_FAIL => Some (-1, limit) end
  else Some (0, limit).

(** The differences that "could overflow" wrap around. *)
Definition checkSignedBitfieldOverflow (value incr bits : Z) (ow : owtype) (limit : Z) : option (Z * Z) :=
  max ← (if bits =? 64 then Some INT64_MAX else m ← shl64 1 (bits - 1); Some (s64 m - 1));
  let min := - max - 1 in
  let maxincr := s64 (max - value) in
  let minincr := s64 (min - value) in
  let handle_wrap :=
    mask ← shl64 UINT64_MAX bits;
    msb ← shl64 1 (bits - 1);
    let c := u64 (u64 value + u64 incr) in
    Some (1, s64 (if negb (Z.land c msb =? 0) then Z.lor c mask else Z.land c (UINT64_MAX - mask))) in
  if (value >? max) || negb (bits =? 64) && (incr >? maxincr) || (value >=? 0) && (incr >? 0) && (incr >? maxincr) then
    match ow with BFOVERFLOW_WRAP => handle_wrap | BFOVERFLOW_SAT => Some (1, max) | BFOVERFLOW_FAIL => Some (1, limit) end
  else if (value <? min) || negb (bits =? 64) && (incr <? minincr) || (value <? 0) && (incr <? 0) && (incr <? minincr) then
    match ow with BFOVERFLOW_WRAP => handle_wrap | BFOVERFLOW_SAT => Some (-1, min) | BFOVERFLOW_FAIL => Some (-1, limit) end
  else Some (0, limit).

(** * Bits of a string *)

(** The first bit of a string is the most significant bit of its first byte. *)
Definition byte_bits (b : Z) : list bool := map (fun k => Z.testbit b (7 - Z.of_nat k)) (seq 0 8).
Definition bits_of (s : bytes) : list bool := flat_map byte_bits s.

Definition ones (l : list bool) : Z := foldr (fun b acc => Z.b2z b + acc) 0 l.
Definition pc (b : Z) : Z := ones (byte_bits b).

Lemma ones_app l k : ones (l ++ k) = ones l + ones k.
Proof. unfold ones. induction l as [|b l IH]; [done|]. cbn [app foldr]. lia. Qed.

Lemma bits_of_app a b : bits_of (a ++ b) = bits_of a ++ bits_of b.
Proof. apply flat_map_app. Qed.

Lemma bits_of_length s : zlen (bits_of s) = 8 * zlen s.
Proof. induction s as [|b s IH]; [done|]. unfold bits_of in *. cbn [flat_map]. rewrite zlen_app, zlen_cons, IH. change (zlen (byte_bits b)) with 8. lia. Qed.

Lemma ones_range l : 0 <= ones l <= zlen l.
Proof. induction l as [|b l IH]; [done|]. rewrite zlen_cons. cbn [ones foldr]. fold (ones l). destruct b; cbn [Z.b2z]; lia. Qed.

Lemma bitsinbyte_spec b : byte_ok b -> zget bitsinbyte b = Some (pc b).
Proof.
  intros Hb. pose proof (byte_forall (fun b => default (-1) (zget bitsinbyte b) =? pc b) ltac:(vm_compute; reflexivity) b Hb) as E. cbv beta in E. zb.
  destruct (zget_in_range bitsinbyte b Hb) as [n Hn]. rewrite Hn in *. cbn [default from_option id] in E. by subst.
Qed.

(** ** Words as bytes *)

Lemma testbit_split a b n : 0 <= a < 256 -> 0 <= n -> Z.testbit (a + 256 * b) n = if n <? 8 then Z.testbit a n else Z.testbit b (n - 8).
Proof.
  intros Ha Hn. replace (a + 256 * b) with (Z.lor a (Z.shiftl b 8)) by (rewrite lor_above by (done || lia); change (2 ^ 8) with 256; lia).
  rewrite Z.lor_spec. destruct (Z.ltb_spec n 8).
  - rewrite Z.shiftl_spec_low by lia. by rewrite orb_false_r.
  - rewrite Z.shiftl_spec by lia. rewrite <- (Z.mod_small a (2 ^ 8)) by done. by rewrite Z.mod_pow2_bits_high by lia.
Qed.

Lemma land_small a m : 0 <= m < 256 -> 0 <= Z.land a m < 256.
Proof.
  intros Hm. split; [apply Z.land_nonneg; lia|]. replace (Z.land a m) with (Z.land (Z.land a m) (Z.ones 8)).
  - rewrite Z.land_ones by lia. apply Z.mod_pos_bound. lia.
  - rewrite <- Z.land_assoc. f_equal. rewrite Z.land_ones by lia. apply Z.mod_small. done.
Qed.

(** A masked shift acts on each byte when the mask drops the bits that come from the next one. *)
Lemma land_shift lo hi k m M : 0 <= lo < 256 -> 0 <= k <= 8 -> 0 <= m < 2 ^ (8 - k) ->
  Z.land (Z.shiftr (lo + 256 * hi) k) (m + 256 * M) = Z.land (Z.shiftr lo k) m + 256 * Z.land (Z.shiftr hi k) M.
Proof.
  intros Hlo Hk Hm. assert (Hm8 : 0 <= m < 256) by (pose proof (Z.pow_le_mono_r 2 (8 - k) 8 ltac:(lia) ltac:(lia)); change (2 ^ 8) with 256 in *; lia).
  apply Z.bits_inj'. intros n Hn. rewrite Z.land_spec, Z.shiftr_spec, !testbit_split by (done || lia || by apply land_small).
  destruct (Z.ltb_spec n 8) as [H8|H8].
  - rewrite Z.land_spec, Z.shiftr_spec by lia. destruct (Z.testbit m n) eqn:Em; [|by rewrite !andb_false_r].
    assert (n < 8 - k). { destruct (Z.lt_ge_cases n (8 - k)); [done|]. rewrite <- (Z.mod_small m (2 ^ (8 - k))), Z.mod_pow2_bits_high in Em by (done || lia). done. }
    by rewrite (proj2 (Z.ltb_lt _ _)) by lia.
  - rewrite (proj2 (Z.ltb_ge _ _)) by lia. rewrite Z.land_spec, Z.shiftr_spec by lia. do 2 f_equal. lia.
Qed.

Lemma land_bytes lo hi m M : 0 <= lo < 256 -> 0 <= m < 256 ->
  Z.land (lo + 256 * hi) (m + 256 * M) = Z.land lo m + 256 * Z.land hi M.
Proof. intros Hlo Hm. exact (land_shift lo hi 0 m M Hlo ltac:(lia) Hm). Qed.

(** A mask that repeats a byte. *)
Definition rep (m : Z) (n : nat) : Z := le_value (replicate n m).

Definition sw8 (b : Z) : Z := let x := b - Z.land (Z.shiftr b 1) 0x55 in Z.land x 0x33 + Z.land (Z.shiftr x 2) 0x33.

Lemma sw8_facts b : byte_ok b -> 0 <= b - Z.land (Z.shiftr b 1) 0x55 < 256 /\ 0 <= sw8 b < 256 /\ sw8 b mod 16 <= 4 /\ Z.shiftr (sw8 b) 4 <= 4 /\
  (sw8 b + Z.shiftr (sw8 b) 4) mod 16 = pc b.
Proof.
  intros Hb. pose proof (byte_forall (fun b => (0 <=? b - Z.land (Z.shiftr b 1) 0x55) && (b - Z.land (Z.shiftr b 1) 0x55 <? 256) && (0 <=? sw8 b) &&
    (sw8 b <? 256) && (sw8 b mod 16 <=? 4) && (Z.shiftr (sw8 b) 4 <=? 4) && ((sw8 b + Z.shiftr (sw8 b) 4) mod 16 =? pc b)) ltac:(vm_compute; reflexivity) b Hb) as E.
  cbv beta in E. zb. done.
Qed.

(** The first steps act on each byte. *)
Lemma swar_bytes l : bytes_ok l ->
  let x := le_value l - Z.land (Z.shiftr (le_value l) 1) (rep 0x55 (length l)) in
  x = le_value (map (fun b => b - Z.land (Z.shiftr b 1) 0x55) l) /\
  Z.land x (rep 0x33 (length l)) + Z.land (Z.shiftr x 2) (rep 0x33 (length l)) = le_value (map sw8 l).
Proof.
  induction 1 as [|b l Hb Hl [IHx IH]]; [done|]. cbn [length le_value map]. unfold rep in *. cbn [replicate le_value]. cbv zeta in *.
  rewrite land_shift by (done || lia). destruct (sw8_facts b Hb) as (Hx & _).
  set (M5 := le_value (replicate (length l) 0x55)) in *. set (M3 := le_value (replicate (length l) 0x33)) in *.
  replace (b + 256 * le_value l - (Z.land (Z.shiftr b 1) 85 + 256 * Z.land (Z.shiftr (le_value l) 1) M5))
    with ((b - Z.land (Z.shiftr b 1) 85) + 256 * (le_value l - Z.land (Z.shiftr (le_value l) 1) M5)) by lia.
  split; [lia|]. rewrite land_bytes, land_shift by (done || lia). unfold sw8 at 1. lia.
Qed.

Lemma land_15 t M hi : 0 <= t < 256 -> Z.land (t + 256 * hi) (15 + 256 * M) = t mod 16 + 256 * Z.land hi M.
Proof. intros Ht. rewrite land_bytes by lia. change 15 with (Z.ones 4). by rewrite Z.land_ones. Qed.

(** The last step adds the nibbles of each byte. *)
Lemma nibble_bytes l : Forall (fun y => 0 <= y < 256 /\ y mod 16 <= 4 /\ Z.shiftr y 4 <= 4) l ->
  Z.land (le_value l + Z.shiftr (le_value l) 4) (rep 15 (length l)) = le_value (map (fun y => (y + Z.shiftr y 4) mod 16) l) /\
  le_value l mod 16 <= 4.
Proof.
  induction 1 as [|y l (Hy & Hm & Hs) Hl [IH IHm]]; [done|]. cbn [length le_value map]. unfold rep in *. cbn [replicate le_value].
  assert (Hsy : Z.shiftr y 4 = y / 16) by (by rewrite Z.shiftr_div_pow2). rewrite Hsy in *.
  assert (Hsp : Z.shiftr (y + 256 * le_value l) 4 = y / 16 + 16 * (le_value l mod 16) + 256 * Z.shiftr (le_value l) 4).
  { rewrite !Z.shiftr_div_pow2 by lia. change (2 ^ 4) with 16. dlia. }
  split; [|dlia]. rewrite Hsp. pose proof (Z.mod_pos_bound (le_value l) 16 ltac:(lia)).
  replace (y + 256 * le_value l + (y / 16 + 16 * (le_value l mod 16) + 256 * Z.shiftr (le_value l) 4))
    with ((y + y / 16 + 16 * (le_value l mod 16)) + 256 * (le_value l + Z.shiftr (le_value l) 4)) by lia.
  rewrite land_15 by dlia. rewrite IH. f_equal. rewrite (Z.mul_comm 16), Z.mod_add by lia. done.
Qed.

(** A word contributes the counts of its bytes. *)
Lemma word_counts a b c d : bytes_ok [a; b; c; d] ->
  nibbles (swar (le_value [a; b; c; d])) = pc a + 256 * (pc b + 256 * (pc c + 256 * pc d)).
Proof.
  intros Hok. destruct (swar_bytes _ Hok) as [Hx Hs]. cbn [length] in Hx, Hs.
  change (rep 0x55 4) with 0x55555555 in *. change (rep 0x33 4) with 0x33333333 in *. set (w := le_value [a; b; c; d]) in *.
  assert (Hf : Forall (fun y => 0 <= y < 256 /\ y mod 16 <= 4 /\ Z.shiftr y 4 <= 4) (map sw8 [a; b; c; d])).
  { apply Forall_map. eapply list.Forall_impl; [exact Hok|]. intros x Hx'. destruct (sw8_facts x Hx') as (_ & H1 & H2 & H3 & _). done. }
  assert (Hxr : bytes_ok (map (fun b => b - Z.land (Z.shiftr b 1) 0x55) [a; b; c; d])).
  { apply Forall_map. eapply list.Forall_impl; [exact Hok|]. intros x Hx'. apply (sw8_facts x Hx'). }
  assert (Hmr : bytes_ok (map sw8 [a; b; c; d])) by (eapply list.Forall_impl; [exact Hf|]; intros x (Hx' & _); done).
  apply le_value_range in Hxr. apply le_value_range in Hmr. change (zlen (map _ [a; b; c; d])) with 4 in Hxr, Hmr. change (8 * 4) with 32 in Hxr, Hmr.
  unfold swar. cbv zeta. rewrite (uwrap_small 32 (w - _)) by (unfold urange; lia). rewrite Hs. rewrite (uwrap_small 32 (le_value _)) by done.
  destruct (nibble_bytes _ Hf) as [Hn _]. change (length (map sw8 [a; b; c; d])) with 4%nat in Hn. change (rep 15 4) with 0x0F0F0F0F in Hn.
  assert (Hy : le_value (map sw8 [a; b; c; d]) < 2 ^ 31).
  { assert (H79 : Forall (fun y => y < 80) (map sw8 [a; b; c; d])).
    { eapply list.Forall_impl; [exact Hf|]. intros y (Hy & _ & H4). cbv beta in *. rewrite Z.shiftr_div_pow2 in H4 by lia. change (2 ^ 4) with 16 in H4. dlia. }
    cbn [map] in H79 |- *. repeat (apply list.Forall_cons in H79 as [? H79]). cbn [le_value]. lia. }
  unfold nibbles. rewrite uwrap_small by (unfold urange; rewrite Z.shiftr_div_pow2 by lia; change (2 ^ 4) with 16; dlia).
  rewrite Hn. cbn [map le_value]. apply list.Forall_cons in Hok as [Ha Hok]. apply list.Forall_cons in Hok as [Hb Hok].
  apply list.Forall_cons in Hok as [Hc Hok]. apply list.Forall_cons in Hok as [Hd _].
  destruct (sw8_facts a Ha) as (_ & _ & _ & _ & ->). destruct (sw8_facts b Hb) as (_ & _ & _ & _ & ->).
  destruct (sw8_facts c Hc) as (_ & _ & _ & _ & ->). destruct (sw8_facts d Hd) as (_ & _ & _ & _ & ->). lia.
Qed.

Lemma pc_range b : 0 <= pc b <= 8.
Proof. apply (ones_range (byte_bits b)). Qed.

(** The multiplication adds the four bytes of the sum. *)
Lemma add_bytes s0 s1 s2 s3 : 0 <= s0 <= 56 -> 0 <= s1 <= 56 -> 0 <= s2 <= 56 -> 0 <= s3 <= 56 ->
  let sum := s0 + 256 * (s1 + 256 * (s2 + 256 * s3)) in
  u32 sum = sum /\ Z.shiftr (u32 (sum * 0x01010101)) 24 = s0 + s1 + s2 + s3.
Proof.
  intros H0 H1 H2 H3 sum. split; [apply uwrap_small; unfold urange, sum; change (2 ^ 32) with 4294967296; lia|].
  rewrite Z.shiftr_div_pow2 by lia. unfold uwrap. change (2 ^ 32) with 4294967296. change (2 ^ 24) with 16777216. change 0x01010101 with 16843009.
  set (r := s0 + 256 * (s0 + s1) + 65536 * (s0 + s1 + s2) + 16777216 * (s0 + s1 + s2 + s3)).
  replace (sum * 16843009) with (r + (s1 + s2 + s3 + 256 * (s2 + s3) + 65536 * s3) * 4294967296) by (unfold sum, r; lia).
  rewrite Z.mod_add by lia. rewrite Z.mod_small by (unfold r; lia). unfold r. dlia.
Qed.

Lemma word4 (w : bytes) : zlen w = 4 -> exists a b c d, w = [a; b; c; d].
Proof. intros H. destruct w as [|a [|b [|c [|d [|e w]]]]]; zlia || eauto. Qed.

Definition wn (w : bytes) : Z := nibbles (swar (le_value w)).

(** A word of four counts of at most [b] that add up to [t]. *)
Definition quad (n t b : Z) : Prop := exists n0 n1 n2 n3, n = n0 + 256 * (n1 + 256 * (n2 + 256 * n3)) /\ t = n0 + n1 + n2 + n3 /\
  0 <= n0 <= b /\ 0 <= n1 <= b /\ 0 <= n2 <= b /\ 0 <= n3 <= b.

Lemma quad_add n t b m u c : quad n t b -> quad m u c -> quad (n + m) (t + u) (b + c).
Proof.
  intros (n0 & n1 & n2 & n3 & -> & -> & Hn) (m0 & m1 & m2 & m3 & -> & -> & Hm). exists (n0 + m0), (n1 + m1), (n2 + m2), (n3 + m3). lia.
Qed.

Lemma quad_word w : zlen w = 4 /\ bytes_ok w -> quad (wn w) (ones (bits_of w)) 8.
Proof.
  intros [Hl Hok]. destruct (word4 w Hl) as (a & b & c & d & ->). exists (pc a), (pc b), (pc c), (pc d). split; [by apply word_counts|].
  split; [|pose proof (pc_range a); pose proof (pc_range b); pose proof (pc_range c); pose proof (pc_range d); lia].
  unfold bits_of. cbn [flat_map]. rewrite !ones_app. change (ones []) with 0. unfold pc. lia.
Qed.

(** Seven words at a time. *)
Lemma block_counts w1 w2 w3 w4 w5 w6 w7 : Forall (fun w => zlen w = 4 /\ bytes_ok w) [w1; w2; w3; w4; w5; w6; w7] ->
  Z.shiftr (u32 (u32 (wn w1 + wn w2 + wn w3 + wn w4 + wn w5 + wn w6 + wn w7) * 0x01010101)) 24 =
  ones (bits_of (w1 ++ w2 ++ w3 ++ w4 ++ w5 ++ w6 ++ w7)).
Proof.
  intros H. repeat match goal with H : Forall _ (_ :: _) |- _ => let H1 := fresh "Q" in apply list.Forall_cons in H as [H1 H]; apply quad_word in H1 end.
  pose proof (quad_add _ _ _ _ _ _ (quad_add _ _ _ _ _ _ (quad_add _ _ _ _ _ _ (quad_add _ _ _ _ _ _ (quad_add _ _ _ _ _ _ (quad_add _ _ _ _ _ _ Q Q0) Q1) Q2) Q3) Q4) Q5) as S.
  destruct S as (s0 & s1 & s2 & s3 & -> & Ht & H0 & H1 & H2 & H3). rewrite !bits_of_app, !ones_app.
  destruct (add_bytes s0 s1 s2 s3) as [E1 E2]; [lia..|]. cbv zeta in E1, E2. rewrite E1, E2. lia.
Qed.

(** ** The loops *)

Section PopcountSpec.
Context (addr : Z) (s : bytes).
Hypothesis s_bytes : bytes_ok s.
Hypothesis s_small : zlen s < 2 ^ 60.
#[local] Set Default Proof Using "Type".

(** [n] bytes from [p] on. *)
Definition part (p n : Z) : bytes := take (Z.to_nat n) (drop (Z.to_nat p) s).
Definition cnt (p n : Z) : Z := ones (bits_of (part p n)).

Lemma part_split p m n : 0 <= p -> 0 <= m -> 0 <= n -> part p (m + n) = part p m ++ part (p + m) n.
Proof.
  intros. unfold part. rewrite !Z2Nat.inj_add by lia. rewrite <- drop_drop. symmetry. apply take_take_drop.
Qed.

Lemma part_length p n : 0 <= p -> 0 <= n -> p + n <= zlen s -> zlen (part p n) = n.
Proof. intros. unfold part, zlen in *. rewrite length_take, length_drop. lia. Qed.

Lemma part_ok p n : bytes_ok (part p n).
Proof using s_bytes. apply Forall_take, Forall_drop, s_bytes. Qed.

Lemma cnt_split p m n : 0 <= p -> 0 <= m -> 0 <= n -> cnt p (m + n) = cnt p m + cnt (p + m) n.
Proof. intros. unfold cnt. by rewrite part_split, bits_of_app, ones_app. Qed.

Lemma cnt_range p n : 0 <= p -> 0 <= n -> p + n <= zlen s -> 0 <= cnt p n <= 8 * n.
Proof. intros. unfold cnt. pose proof (ones_range (bits_of (part p n))) as H'. rewrite bits_of_length, part_length in H' by done. done. Qed.

(** One byte. *)
Lemma cnt_byte p : 0 <= p < zlen s -> exists b, zget s p = Some b /\ zget bitsinbyte b = Some (cnt p 1).
Proof using s_bytes.
  intros Hp. destruct (zget_in_range s p Hp) as [b Hb]. exists b. split; [done|]. apply zget_Some in Hb as [_ Hb].
  rewrite bitsinbyte_spec by (by apply (Forall_lookup_1 _ _ _ _ s_bytes Hb)).
  f_equal. unfold cnt, part, pc. rewrite (drop_S _ _ _ Hb). change (Z.to_nat 1) with 1%nat. unfold bits_of. cbn [take flat_map]. by rewrite app_nil_r.
Qed.

Lemma load32_spec p : 0 <= p -> p + 4 <= zlen s -> load32 s p = Some (le_value (part p 4)) /\ zlen (part p 4) = 4 /\ bytes_ok (part p 4).
Proof using s_bytes.
  intros. unfold load32. rewrite zsub_in_range by lia. split; [done|]. split; [apply part_length; lia|apply part_ok].
Qed.

Lemma aligned_step a m : 0 < m -> a mod m <> 0 -> (- (a + 1)) mod m = (- a) mod m - 1.
Proof.
  intros Hm Hne. pose proof (Z.mod_pos_bound a m Hm). rewrite (Z.mod_opp_l_nz a m) by lia.
  symmetry. apply (Z.mod_unique_pos _ _ (- (a / m) - 1)); [lia|]. pose proof (Z.div_mod a m ltac:(lia)). nia.
Qed.

Lemma pop_head_spec fuel : forall p count bits, 0 <= p -> 0 <= count -> p + count <= zlen s -> 0 <= bits <= 8 * p ->
  (- (addr + p)) mod 4 <= Z.of_nat fuel ->
  exists n, pop_head addr s fuel p count bits = Some (p + n, count - n, bits + cnt p n) /\ 0 <= n <= count.
Proof using s_bytes s_small.
  induction fuel as [|fuel IH]; intros p count bits Hp Hc Hl Hb Hf; cbn [pop_head]; change 3 with (Z.ones 2); rewrite Z.land_ones by lia; change (2 ^ 2) with 4.
  all: destruct (Z.eqb_spec ((addr + p) mod 4) 0) as [Ea|Ea]; cbn [negb andb];
    [exists 0; rewrite Z.add_0_r, Z.sub_0_r; change (cnt p 0) with 0; rewrite Z.add_0_r; split; [done|lia]|].
  { pose proof (Z.mod_opp_l_nz (addr + p) 4 ltac:(lia) Ea). dlia. }
  destruct (Z.eqb_spec count 0) as [->|Hc0]; cbn [negb]; [exists 0; rewrite Z.add_0_r; change (cnt p 0) with 0; rewrite Z.add_0_r; split; [done|lia]|].
  destruct (cnt_byte p) as (b & -> & E); [lia|]. cbn [mbind option_bind]. rewrite E. cbn [mbind option_bind].
  pose proof (cnt_range p 1 ltac:(lia) ltac:(lia) ltac:(lia)). rewrite uwrap_small by (unfold urange; lia).
  destruct (IH (p + 1) (count - 1) (bits + cnt p 1)) as (n & E' & Hn); [lia..| |].
  { rewrite Z.add_assoc, aligned_step by lia. lia. }
  change (Z.ones 2) with 3 in E'. exists (1 + n). split; [|lia]. rewrite E'. rewrite cnt_split by lia. do 2 f_equal; [f_equal; lia|lia].
Qed.

Lemma pop_blocks_spec fuel : forall p count bits, 0 <= p -> 0 <= count -> p + count <= zlen s -> 0 <= bits <= 8 * p -> count <= Z.of_nat fuel ->
  exists n, pop_blocks s fuel p count bits = Some (p + n, count - n, bits + cnt p n) /\ 0 <= n <= count.
Proof using s_bytes s_small.
  induction fuel as [|fuel IH]; intros p count bits Hp Hc Hl Hb Hf; cbn [pop_blocks]; rewrite Z.geb_leb.
  all: destruct (Z.leb_spec 28 count); [|exists 0; rewrite Z.add_0_r, Z.sub_0_r; change (cnt p 0) with 0; rewrite Z.add_0_r; split; [done|lia]].
  { lia. }
  destruct (load32_spec p) as (-> & L1); [lia..|]. destruct (load32_spec (p + 4)) as (-> & L2); [lia..|].
  destruct (load32_spec (p + 8)) as (-> & L3); [lia..|]. destruct (load32_spec (p + 12)) as (-> & L4); [lia..|].
  destruct (load32_spec (p + 16)) as (-> & L5); [lia..|]. destruct (load32_spec (p + 20)) as (-> & L6); [lia..|].
  destruct (load32_spec (p + 24)) as (-> & L7); [lia..|]. cbn [mbind option_bind]. cbv zeta.
  assert (E : Z.shiftr (u32 (u32 (wn (part p 4) + wn (part (p + 4) 4) + wn (part (p + 8) 4) + wn (part (p + 12) 4) + wn (part (p + 16) 4) +
    wn (part (p + 20) 4) + wn (part (p + 24) 4)) * 0x01010101)) 24 = cnt p 28).
  { rewrite block_counts by (repeat (apply list.Forall_cons; split; [assumption|]); constructor). unfold cnt. do 2 f_equal.
    change 28 with (4 + (4 + (4 + (4 + (4 + (4 + 4)))))). rewrite !part_split by lia. rewrite <- !Z.add_assoc. done. }
  unfold wn in E. rewrite E. clear E. pose proof (cnt_range p 28 ltac:(lia) ltac:(lia) ltac:(lia)). rewrite uwrap_small by (unfold urange; lia).
  destruct (IH (p + 28) (count - 28) (bits + cnt p 28)) as (n & -> & Hn); [lia..|]. exists (28 + n). split; [|lia].
  rewrite cnt_split by lia. do 2 f_equal; [f_equal; lia|lia].
Qed.

Lemma pop_tail_spec fuel : forall p count bits, 0 <= p -> 0 <= count -> p + count <= zlen s -> 0 <= bits <= 8 * p -> count <= Z.of_nat fuel ->
  pop_tail s fuel p count bits = Some (bits + cnt p count).
Proof using s_bytes s_small.
  induction fuel as [|fuel IH]; intros p count bits Hp Hc Hl Hb Hf; cbn [pop_tail]; (destruct (Z.eqb_spec count 0) as [->|]; [change (cnt p 0) with 0; f_equal; lia|]); [lia|].
  destruct (cnt_byte p) as (b & -> & E); [lia|]. cbn [mbind option_bind]. rewrite E. cbn [mbind option_bind].
  pose proof (cnt_range p 1 ltac:(lia) ltac:(lia) ltac:(lia)). rewrite uwrap_small by (unfold urange; lia). rewrite IH by lia.
  replace count with (1 + (count - 1)) at 2 by lia. rewrite cnt_split by lia. f_equal. lia.
Qed.
End PopcountSpec.

(** * Searching *)

Fixpoint find_bit (b : bool) (l : list bool) : option Z :=
  match l with [] => None | x :: l => if Bool.eqb x b then Some 0 else i ← find_bit b l; Some (i + 1) end.

Lemma find_bit_app b l k : find_bit b (l ++ k) = match find_bit b l with Some i => Some i | None => i ← find_bit b k; Some (zlen l + i) end.
Proof.
  induction l as [|x l IH]; cbn [app find_bit]; [by destruct (find_bit b k)|]. destruct (Bool.eqb x b); [done|]. rewrite IH, zlen_cons.
  destruct (find_bit b l); [done|]. destruct (find_bit b k); cbn [mbind option_bind]; [|done]. f_equal. lia.
Qed.

Lemma find_bit_range b l i : find_bit b l = Some i -> 0 <= i < zlen l.
Proof.
  revert i. induction l as [|x l IH]; intros i; cbn [find_bit]; [done|]. rewrite zlen_cons. pose proof (zlen_nonneg l). destruct (Bool.eqb x b); [intros [= <-]; lia|].
  destruct (find_bit b l) as [j|]; cbn [mbind option_bind]; [|done]. intros [= <-]. specialize (IH j eq_refl). lia.
Qed.

(** The byte without the bit. *)
Definition skip_byte (bit : bool) : Z := if bit then 0 else 255.

Lemma find_skip bit l : Forall (eq (skip_byte bit)) l -> find_bit bit (bits_of l) = None.
Proof.
  induction 1 as [|b l <- _ IH]; [done|]. unfold bits_of in *. cbn [flat_map]. rewrite find_bit_app, IH. by destruct bit.
Qed.

Lemma find_other bit b : byte_ok b -> b <> skip_byte bit -> is_Some (find_bit bit (byte_bits b)).
Proof.
  intros Hb Hne. pose proof (byte_forall (fun b => (b =? skip_byte bit) || match find_bit bit (byte_bits b) with Some _ => true | None => false end)
    ltac:(destruct bit; vm_compute; reflexivity) b Hb) as E. cbv beta in E. rewrite (proj2 (Z.eqb_neq _ _) Hne) in E. by destruct (find_bit bit (byte_bits b)).
Qed.

Lemma find_some bit l : bytes_ok l -> ~ Forall (eq (skip_byte bit)) l -> is_Some (find_bit bit (bits_of l)).
Proof.
  induction 1 as [|b l Hb _ IH]; intros Hn; [by destruct Hn|]. unfold bits_of in *. cbn [flat_map]. rewrite find_bit_app.
  destruct (Z.eq_dec b (skip_byte bit)) as [->|Hne].
  - destruct (find_bit bit (byte_bits _)); [done|]. destruct IH as [i ->]; [|done]. intros HF. apply Hn. by constructor.
  - by destruct (find_other bit b Hb Hne) as [i ->].
Qed.

(** The low [n] bits of a word, the highest first. *)
Fixpoint bitsN (n : nat) (w : Z) : list bool := match n with O => [] | S n => Z.testbit w (Z.of_nat n) :: bitsN n w end.

Lemma bitsN_byte n b v : byte_ok b -> bitsN (n + 8) (b + 256 * v) = bitsN n v ++ byte_bits b.
Proof.
  intros Hb. induction n as [|n IH].
  - cbn [Nat.add bitsN app]. rewrite !testbit_split by (done || lia). reflexivity.
  - cbn [Nat.add bitsN app]. rewrite IH. f_equal. rewrite testbit_split by (done || lia). rewrite (proj2 (Z.ltb_ge _ _)) by lia. f_equal. lia.
Qed.

Definition be_acc (w : Z) (l : bytes) : Z := foldl (fun w b => b + 256 * w) w l.

Lemma bitsN_be l : bytes_ok l -> forall n w, bitsN (n + 8 * length l) (be_acc w l) = bitsN n w ++ bits_of l.
Proof.
  induction 1 as [|b l Hb _ IH]; intros n w; [cbn; by rewrite Nat.add_0_r, app_nil_r|]. cbn [length be_acc foldl]. fold (be_acc (b + 256 * w) l).
  replace (n + 8 * S (length l))%nat with (n + 8 + 8 * length l)%nat by lia. rewrite IH, bitsN_byte by done. by rewrite <- app_assoc.
Qed.

Lemma be_acc_zeros l : Forall (eq 0) l -> be_acc 0 l = 0.
Proof. by induction 1 as [|x l <- _ IH]. Qed.

Lemma land_pow2 k w : 0 <= k -> (Z.land (2 ^ k) w =? 0) = negb (Z.testbit w k).
Proof.
  intros Hk. destruct (Z.testbit w k) eqn:E; cbn [negb].
  - apply Z.eqb_neq. intros H0. apply (f_equal (fun x => Z.testbit x k)) in H0. rewrite Z.land_spec, Z.pow2_bits_true, E, Z.bits_0 in H0 by done. done.
  - apply Z.eqb_eq, Z.bits_inj'. intros n Hn. rewrite Z.land_spec, Z.bits_0, Z.pow2_bits_eqb by lia. destruct (Z.eqb_spec k n) as [->|]; [by rewrite E|done].
Qed.

Lemma scan_word_spec n : forall fuel word bit pos, (n < fuel)%nat ->
  scan_word fuel (2 ^ Z.of_nat n) word bit pos = i ← find_bit bit (bitsN (S n) word); Some (pos + i).
Proof.
  induction n as [|n IH]; intros fuel word bit pos Hf; (destruct fuel as [|fuel]; [lia|]); cbn [scan_word bitsN find_bit];
    rewrite (proj2 (Z.eqb_neq _ 0)) by (apply Z.pow_nonzero; lia); rewrite land_pow2, negb_involutive by lia.
  - destruct (Bool.eqb _ bit); [cbn; f_equal; lia|]. cbn. by destruct fuel.
  - destruct (Bool.eqb _ bit); [cbn [mbind option_bind]; f_equal; lia|].
    replace (Z.shiftr (2 ^ Z.of_nat (S n)) 1) with (2 ^ Z.of_nat n) by (rewrite Z.shiftr_div_pow2 by lia; rewrite Nat2Z.inj_succ, Z.pow_succ_r by lia; change (2 ^ 1) with 2; dlia).
    rewrite IH by lia. cbn [bitsN find_bit]. destruct (if Bool.eqb _ bit then _ else _); cbn [mbind option_bind]; [|done]. f_equal. lia.
Qed.

Section BitposSpec.
Context (addr : Z) (s : bytes) (bit : bool).
Hypothesis s_bytes : bytes_ok s.
#[local] Set Default Proof Using "Type".

(** The first [c] bytes do not contain the bit. *)
Definition skipped (c : Z) : Prop := 0 <= c <= zlen s /\ Forall (eq (skip_byte bit)) (take (Z.to_nat c) s).

Lemma skipped_byte c : skipped c -> c < zlen s -> zget s c = Some (skip_byte bit) -> skipped (c + 1).
Proof.
  intros [Hc HF] Hl Hg. split; [lia|]. apply zget_Some in Hg as [_ Hg]. replace (Z.to_nat (c + 1)) with (S (Z.to_nat c)) by lia.
  rewrite (take_S_r _ _ _ Hg). apply Forall_app. split; [done|]. by repeat constructor.
Qed.

(** Bytes left at [c], the first ones of which contain the bit unless fewer than a word is left. *)
Definition stopped_at (c : Z) : Prop := skipped c /\ (zlen s - c < 8 \/ ~ Forall (eq (skip_byte bit)) (take 8 (drop (Z.to_nat c) s))).

Lemma bitpos_head_spec fuel : forall c, skipped c -> (- (addr + c)) mod 8 <= Z.of_nat fuel ->
  exists found c', bitpos_head addr s fuel (skip_byte bit) c (zlen s - c) (8 * c) = Some (found, c', zlen s - c', 8 * c') /\
    if found : bool then stopped_at c' else skipped c'.
Proof using s_bytes.
  induction fuel as [|fuel IH]; intros c Hsk Hf; pose proof (proj1 Hsk); cbn [bitpos_head]; change 7 with (Z.ones 3); rewrite Z.land_ones by lia; change (2 ^ 3) with 8.
  all: destruct (Z.eqb_spec ((addr + c) mod 8) 0) as [Ea|Ea]; cbn [negb andb]; [by exists false, c|].
  { pose proof (Z.mod_opp_l_nz (addr + c) 8 ltac:(lia) Ea). dlia. }
  destruct (Z.eqb_spec (zlen s - c) 0) as [Hc0|Hc0]; cbn [negb]; [by exists false, c|].
  destruct (zget_in_range s c) as [b Hb]; [lia|]. rewrite Hb. cbn [mbind option_bind]. destruct (Z.eqb_spec b (skip_byte bit)) as [->|Hne]; cbn [negb].
  - destruct (IH (c + 1)) as (found & c' & E & H'); [apply skipped_byte; done || lia|rewrite Z.add_assoc, aligned_step by lia; lia|].
    exists found, c'. split; [|done]. rewrite <- E. change (Z.ones 3) with 7. f_equal; lia.
  - exists true, c. split; [done|]. split; [done|]. right. apply zget_Some in Hb as [_ Hb]. rewrite (drop_S _ _ _ Hb). cbn [take]. intros HF. by inversion HF.
Qed.

Lemma le_value_skip w : bytes_ok w -> zlen w = 8 -> le_value w = (if bit then 0 else UINT64_MAX) <-> Forall (eq (skip_byte bit)) w.
Proof.
  intros Hok Hl. set (k := replicate 8 (skip_byte bit)). assert (Hk : le_value k = if bit then 0 else UINT64_MAX) by (subst k; by destruct bit).
  assert (Hkok : bytes_ok k) by (subst k; destruct bit; by repeat constructor). rewrite <- Hk. split; intros H.
  - apply (f_equal (le_bytes 8)) in H. rewrite !le_bytes_value in H by (done || (unfold zlen in Hl; lia)). rewrite H. subst k. by repeat constructor.
  - f_equal. apply list_eq_same_length with 8%nat; [done|unfold zlen in Hl; lia|]. intros i x y Hi Hx Hy. subst k.
    apply (Forall_lookup_1 _ _ _ _ H) in Hx as <-. apply lookup_replicate in Hy as [-> _]. done.
Qed.

Lemma bitpos_words_spec fuel : forall c, skipped c -> zlen s - c <= Z.of_nat fuel ->
  exists c', bitpos_words s fuel (if bit then 0 else UINT64_MAX) c (zlen s - c) (8 * c) = Some (c', zlen s - c', 8 * c') /\ stopped_at c'.
Proof using s_bytes.
  induction fuel as [|fuel IH]; intros c Hsk Hf; pose proof (proj1 Hsk) as Hc; cbn [bitpos_words]; rewrite Z.geb_leb;
    (destruct (Z.leb_spec 8 (zlen s - c)); [|exists c; split; [done|]; split; [done|left; lia]]); [lia|].
  rewrite zsub_in_range by lia. cbn [mbind option_bind]. change (Z.to_nat 8) with 8%nat. set (w := take 8 (drop (Z.to_nat c) s)).
  assert (Hw : bytes_ok w /\ zlen w = 8) by (split; [by apply Forall_take, Forall_drop|unfold w, zlen in *; rewrite length_take, length_drop; lia]).
  pose proof (le_value_skip w (proj1 Hw) (proj2 Hw)) as Hiff. destruct (Z.eqb_spec (le_value w) (if bit then 0 else UINT64_MAX)) as [E|E]; cbn [negb].
  - destruct (IH (c + 8)) as (c' & E' & Hst); [|lia|].
    + split; [lia|]. replace (Z.to_nat (c + 8)) with (Z.to_nat c + 8)%nat by lia. rewrite <- take_take_drop. apply Forall_app. split; [apply Hsk|]. by apply Hiff.
    + exists c'. split; [|done]. rewrite <- E'. f_equal; lia.
  - exists c. split; [done|]. split; [done|]. right. intros HF. by apply E, Hiff.
Qed.

(** The bytes left, padded with zeros. *)
Lemma load_word_spec n : forall c word, 0 <= c <= zlen s -> 0 <= word -> (word + 1) * 2 ^ (8 * Z.of_nat n) <= 2 ^ 64 ->
  load_word s n c (zlen s - c) word = Some (be_acc word (take n (drop (Z.to_nat c) s ++ replicate n 0))).
Proof using s_bytes.
  induction n as [|n IH]; intros c word Hc Hw Hb; [done|]. cbn [load_word]. cbv zeta.
  assert (H256 : 2 ^ (8 * Z.of_nat (S n)) = 256 * 2 ^ (8 * Z.of_nat n)) by (replace (8 * Z.of_nat (S n)) with (8 + 8 * Z.of_nat n) by lia; rewrite Z.pow_add_r by lia; done).
  assert (Hp : 0 < 2 ^ (8 * Z.of_nat n)) by (apply Z.pow_pos_nonneg; lia).
  rewrite H256 in Hb. assert (Hsh : u64 (Z.shiftl word 8) = 256 * word).
  { rewrite Z.shiftl_mul_pow2 by lia. change (2 ^ 8) with 256. rewrite uwrap_small; [lia|]. unfold urange. nia. }
  rewrite Hsh. destruct (Z.eqb_spec (zlen s - c) 0) as [E|E]; cbn [negb].
  - rewrite IH by (lia || nia). rewrite drop_ge by (unfold zlen in *; lia). cbn [app replicate take be_acc foldl]. done.
  - destruct (zget_in_range s c) as [b Hb']; [lia|]. rewrite Hb'. cbn [mbind option_bind]. apply zget_Some in Hb' as [_ Hb'].
    assert (Hbo : byte_ok b) by (by apply (Forall_lookup_1 _ _ _ _ s_bytes Hb')).
    replace (Z.lor (256 * word) b) with (b + 256 * word).
    2: { rewrite Z.lor_comm. replace (256 * word) with (Z.shiftl word 8) by (rewrite Z.shiftl_mul_pow2 by lia; change (2 ^ 8) with 256; lia).
         rewrite lor_above by (done || lia). rewrite Z.shiftl_mul_pow2 by lia. change (2 ^ 8) with 256. lia. }
    replace (zlen s - c - 1) with (zlen s - (c + 1)) by lia. unfold byte_ok in Hbo. rewrite IH by (lia || nia).
    rewrite (drop_S _ _ _ Hb'). replace (Z.to_nat (c + 1)) with (S (Z.to_nat c)) by lia. cbn [app take be_acc foldl]. f_equal. fold (be_acc (b + 256 * word)).
    f_equal. rewrite replicate_S_end, app_assoc. symmetry. apply take_app_le. rewrite length_app, length_replicate. lia.
Qed.

Lemma find_stopped c : stopped_at c ->
  find_bit bit (bits_of s) = i ← find_bit bit (bits_of (take 8 (drop (Z.to_nat c) s))); Some (8 * c + i).
Proof using s_bytes.
  intros [[Hc Hsk] Hst]. rewrite <- (take_drop (Z.to_nat c) s) at 1. rewrite bits_of_app, find_bit_app, find_skip by done.
  assert (Hl : zlen (bits_of (take (Z.to_nat c) s)) = 8 * c) by (rewrite bits_of_length; unfold zlen in *; rewrite length_take; lia). rewrite Hl.
  destruct Hst as [Hlt|Hne]; [by rewrite take_ge by (rewrite length_drop; unfold zlen in *; lia)|].
  rewrite <- (take_drop 8 (drop (Z.to_nat c) s)) at 1. rewrite bits_of_app, find_bit_app.
  destruct (find_some bit (take 8 (drop (Z.to_nat c) s))) as [i ->]; [by apply Forall_take, Forall_drop|done|done].
Qed.

Lemma find_false_zeros n : find_bit false (bits_of (replicate (S n) 0)) = Some 0.
Proof. done. Qed.

Lemma find_true_zeros n : find_bit true (bits_of (replicate n 0)) = None.
Proof. apply (find_skip true). by apply Forall_replicate. Qed.

(** The search in the last word. *)
Lemma last_word c : stopped_at c ->
  let W := bits_of (take 8 (drop (Z.to_nat c) s ++ replicate 8 0)) in
  match find_bit bit W with
  | Some i => Some (8 * c + i) = (if bit then find_bit true (bits_of s) else Some (default (8 * zlen s) (find_bit false (bits_of s))))
  | None => bit = true /\ find_bit true (bits_of s) = None
  end.
Proof using s_bytes.
  intros Hst W. pose proof (find_stopped c Hst) as Hf. destruct Hst as [[Hc Hsk] Hst]. set (r := drop (Z.to_nat c) s) in *.
  assert (Hr : zlen r = zlen s - c) by (unfold r, zlen in *; rewrite length_drop; lia).
  assert (EW : W = bits_of (take 8 r) ++ bits_of (replicate (8 - length r) 0)).
  { unfold W. rewrite <- bits_of_app. f_equal. rewrite take_app. f_equal. rewrite take_replicate. f_equal. lia. }
  rewrite EW, find_bit_app. destruct (find_bit bit (bits_of (take 8 r))) as [i|] eqn:Ei; cbn [mbind option_bind] in Hf.
  - destruct bit; rewrite Hf; done.
  - assert (Hlt : (length r < 8)%nat).
    { destruct Hst as [Hlt|Hne]; [unfold zlen in *; lia|]. destruct (find_some bit (take 8 r)) as [i Hi]; [by apply Forall_take, Forall_drop|done|congruence]. }
    destruct bit; [by rewrite find_true_zeros|]. replace (8 - length r)%nat with (S (7 - length r)) by lia. rewrite find_false_zeros, Hf.
    cbn [mbind option_bind default]. rewrite bits_of_length. do 2 f_equal. unfold zlen in *. rewrite length_take. lia.
Qed.
End BitposSpec.

(** * Bit fields *)

(** Bit [i] of a string. *)
Definition bit_at (p : bytes) (i : Z) : bool := match zget p (i / 8) with Some b => Z.testbit b (7 - i mod 8) | None => false end.

Lemma zget_after_zput {A} (l l' : list A) i x : zput l i [x] = Some l' -> forall j, 0 <= j -> zget l' j = if j =? i then Some x else zget l j.
Proof.
  intros E j Hj. pose proof (zput_len _ _ _ _ E) as Hl. unfold zput in E. case_match eqn:Ec; [|done]. zb. change (zlen [x]) with 1 in *.
  destruct (zsplit3 l i 1) as (pre & mid & post & -> & Hp & Hm); [lia..|]. injection E as <-.
  apply zlen_1_inv in Hm as [y ->]. rewrite <- Hp. rewrite to_nat_zlen, take_app_length.
  replace (Z.to_nat (zlen pre + 1)) with (length (pre ++ [y])) by (rewrite length_app; unfold zlen; cbn; lia).
  rewrite (app_assoc pre [y] post), drop_app_length. rewrite <- app_assoc. cbn [app].
  destruct (Z.eqb_spec j (zlen pre)) as [->|Hne]; [by apply zget_app|]. destruct (Z.lt_ge_cases j (zlen pre)); [by rewrite !zget_app_l by lia|].
  rewrite !(zget_app_r pre) by lia. rewrite !zget_cons. rewrite (proj2 (Z.eqb_neq (j - zlen pre) 0)) by lia. done.
Qed.

(** Storing one bit in a byte. *)
Lemma set_byte_bit b k v : byte_ok b -> 0 <= k < 8 ->
  let b' := Z.land (Z.lor (Z.land b (Z.lnot (Z.shiftl 1 k))) (Z.shiftl (Z.b2z v) k)) 255 in
  byte_ok b' /\ forall j, 0 <= j < 8 -> Z.testbit b' j = if j =? k then v else Z.testbit b j.
Proof.
  intros Hb Hk b'. split; [apply land_small; lia|]. intros j Hj. unfold b'. change 255 with (Z.ones 8).
  rewrite Z.land_spec, Z.ones_spec_low, andb_true_r, Z.lor_spec, Z.land_spec, Z.lnot_spec by lia.
  rewrite !Z.shiftl_spec by lia. destruct (Z.eqb_spec j k) as [->|Hne].
  - rewrite Z.sub_diag. change (Z.testbit 1 0) with true. rewrite andb_false_r, orb_false_l. by destruct v.
  - replace (Z.testbit 1 (j - k)) with false; [replace (Z.testbit (Z.b2z v) (j - k)) with false; [by rewrite andb_true_r, orb_false_r|]|].
    all: destruct (Z.lt_ge_cases j k); [by rewrite Z.testbit_neg_r by lia|].
    all: destruct v; cbn [Z.b2z]; (by rewrite Z.bits_0) || (rewrite Z.bits_above_log2; [done|lia|change (Z.log2 1) with 0; lia]).
Qed.

Lemma shl64_pow n : 0 <= n < 64 -> shl64 1 n = Some (2 ^ n).
Proof.
  intros Hn. unfold shl64. rewrite (proj2 (Z.leb_le _ _)), (proj2 (Z.ltb_lt _ _)) by lia. cbn [andb]. rewrite Z.shiftl_1_l, uwrap_small; [done|].
  split; [apply Z.pow_nonneg; lia|apply Z.pow_lt_mono_r; lia].
Qed.

Lemma offset_parts offset : 0 <= offset -> Z.shiftr offset 3 = offset / 8 /\ Z.land offset 7 = offset mod 8.
Proof. intros. split; [by rewrite Z.shiftr_div_pow2|]. change 7 with (Z.ones 3). by rewrite Z.land_ones. Qed.

Lemma set_bits_spec n : forall p offset value, bytes_ok p -> 0 <= offset -> offset + Z.of_nat n <= 8 * zlen p -> (n <= 64)%nat ->
  exists p', set_bits n p offset value = Some p' /\ bytes_ok p' /\ zlen p' = zlen p /\
    forall i, 0 <= i -> bit_at p' i = if (offset <=? i) && (i <? offset + Z.of_nat n) then Z.testbit value (Z.of_nat n - 1 - (i - offset)) else bit_at p i.
Proof.
  induction n as [|n IH]; intros p offset value Hp Ho Hl Hn.
  { exists p. do 3 (split; [done|]). intros i Hi. destruct (Z.leb_spec offset i); cbn [andb]; [|done]. by rewrite (proj2 (Z.ltb_ge _ _)) by lia. }
  cbn [set_bits]. rewrite shl64_pow by lia. cbn [mbind option_bind]. destruct (offset_parts offset Ho) as [-> ->]. cbv zeta.
  destruct (zget_in_range p (offset / 8)) as [b Hb]; [dlia|]. rewrite Hb. cbn [mbind option_bind].
  assert (Hbo : byte_ok b) by (apply zget_Some in Hb as [_ Hb]; by apply (Forall_lookup_1 _ _ _ _ Hp Hb)).
  replace (if Z.land value (2 ^ Z.of_nat n) =? 0 then 0 else 1) with (Z.b2z (Z.testbit value (Z.of_nat n))) by (rewrite Z.land_comm, land_pow2 by lia; by destruct (Z.testbit value _)).
  destruct (set_byte_bit b (7 - offset mod 8) (Z.testbit value (Z.of_nat n)) Hbo ltac:(dlia)) as [Hb' Hbits]. set (b' := Z.land (Z.lor _ _) 255) in *.
  assert (Hput : exists p1, zput p (offset / 8) [b'] = Some p1) by (unfold zput; rewrite (proj2 (Z.leb_le _ _)), (proj2 (Z.leb_le _ _)) by (change (zlen [b']) with 1; dlia); eauto).
  destruct Hput as [p1 Hput]. rewrite Hput. cbn [mbind option_bind]. pose proof (zput_len _ _ _ _ Hput) as Hl1. pose proof (zget_after_zput _ _ _ _ Hput) as Hg1.
  assert (Hp1 : bytes_ok p1).
  { apply Forall_lookup_2. intros i x Hx. specialize (Hg1 (Z.of_nat i) ltac:(lia)). assert (Hx' : zget p1 (Z.of_nat i) = Some x) by (apply zget_Some; split; [lia|by rewrite Nat2Z.id]).
    rewrite Hx' in Hg1. destruct (_ =? _); [by injection Hg1 as ->|]. symmetry in Hg1. apply zget_Some in Hg1 as [_ Hg1]. by apply (Forall_lookup_1 _ _ _ _ Hp Hg1). }
  destruct (IH p1 (offset + 1) value Hp1) as (p' & -> & Hp' & Hl' & Hbit); [lia|lia|lia|]. exists p'. do 2 (split; [done|]). split; [lia|]. intros i Hi.
  rewrite Hbit by done.
  assert (H1 : bit_at p1 i = if i =? offset then Z.testbit value (Z.of_nat n) else bit_at p i).
  { unfold bit_at. rewrite Hg1 by dlia. destruct (Z.eqb_spec (i / 8) (offset / 8)) as [E|E].
    - rewrite Hbits by dlia. rewrite E, Hb. destruct (Z.eqb_spec i offset) as [->|Hne]; [by rewrite Z.eqb_refl|]. by rewrite (proj2 (Z.eqb_neq _ _)) by dlia.
    - rewrite (proj2 (Z.eqb_neq i offset)) by (intros ->; done). done. }
  rewrite H1. destruct (Z.eqb_spec i offset) as [->|Hne].
  - rewrite (proj2 (Z.leb_gt (offset + 1) offset)), (proj2 (Z.leb_le offset offset)), (proj2 (Z.ltb_lt offset (offset + Z.of_nat (S n)))) by lia.
    cbn [andb]. f_equal. lia.
  - destruct (Z.leb_spec (offset + 1) i), (Z.leb_spec offset i); try lia; cbn [andb]; [|done].
    replace (i <? offset + 1 + Z.of_nat n) with (i <? offset + Z.of_nat (S n)) by (f_equal; lia). destruct (i <? _); [f_equal; lia|done].
Qed.

Lemma testbit_push v c k : 0 <= k -> Z.testbit (2 * v + Z.b2z c) k = if k =? 0 then c else Z.testbit v (k - 1).
Proof.
  intros Hk. destruct (Z.eqb_spec k 0) as [->|Hne]; [apply Z.testbit_0_r|]. replace k with (Z.succ (k - 1)) at 1 by lia. apply Z.testbit_succ_r. lia.
Qed.

Lemma get_bits_spec n : forall p offset v, bytes_ok p -> 0 <= offset -> offset + Z.of_nat n <= 8 * zlen p -> 0 <= v -> (v + 1) * 2 ^ Z.of_nat n <= 2 ^ 64 ->
  exists r, get_bits n p offset v = Some r /\ 0 <= r < (v + 1) * 2 ^ Z.of_nat n /\
    forall k, 0 <= k -> Z.testbit r k = if k <? Z.of_nat n then bit_at p (offset + Z.of_nat n - 1 - k) else Z.testbit v (k - Z.of_nat n).
Proof.
  induction n as [|n IH]; intros p offset v Hp Ho Hl Hv Hm.
  { exists v. split; [done|]. change (2 ^ Z.of_nat 0) with 1. split; [lia|]. intros k Hk. rewrite (proj2 (Z.ltb_ge _ _)) by lia. by rewrite Z.sub_0_r. }
  cbn [get_bits]. destruct (offset_parts offset Ho) as [-> ->]. cbv zeta. destruct (zget_in_range p (offset / 8)) as [b Hb]; [dlia|]. rewrite Hb. cbn [mbind option_bind].
  rewrite Nat2Z.inj_succ, Z.pow_succ_r in * by lia. assert (Hp2 : 0 < 2 ^ Z.of_nat n) by (apply Z.pow_pos_nonneg; lia).
  assert (Hc : Z.land (Z.shiftr b (7 - offset mod 8)) 1 = Z.b2z (bit_at p offset)).
  { unfold bit_at. rewrite Hb. change 1 with (Z.ones 1). rewrite Z.land_ones by lia. change (2 ^ 1) with 2. rewrite <- Z.bit0_mod, Z.shiftr_spec by lia. done. }
  rewrite Hc. replace (Z.lor (u64 (Z.shiftl v 1)) (Z.b2z (bit_at p offset))) with (2 * v + Z.b2z (bit_at p offset)).
  2: { rewrite uwrap_small by (unfold urange; rewrite Z.shiftl_mul_pow2 by lia; change (2 ^ 1) with 2; nia).
       rewrite Z.lor_comm, lor_above by (destruct (bit_at p offset); cbn; lia). change (2 ^ 1) with 2. lia. }
  destruct (IH p (offset + 1) (2 * v + Z.b2z (bit_at p offset))) as (r & -> & Hr & Hbits); [done|lia|lia|destruct (bit_at p offset); cbn; lia|destruct (bit_at p offset); cbn [Z.b2z]; nia|].
  exists r. split; [done|]. split; [destruct (bit_at p offset); cbn [Z.b2z] in Hr; nia|]. intros k Hk. rewrite Hbits by done.
  destruct (Z.ltb_spec k (Z.of_nat n)).
  - rewrite (proj2 (Z.ltb_lt _ _)) by lia. f_equal. lia.
  - rewrite testbit_push by lia. destruct (Z.eqb_spec (k - Z.of_nat n) 0).
    + rewrite (proj2 (Z.ltb_lt _ _)) by lia. f_equal. lia.
    + rewrite (proj2 (Z.ltb_ge _ _)) by lia. f_equal. lia.
Qed.

(** Reading back a field. *)
Lemma get_set_unsigned p offset bits value : bytes_ok p -> 0 <= offset -> 0 <= bits <= 64 -> offset + bits <= 8 * zlen p ->
  exists p', setUnsignedBitfield p offset bits value = Some p' /\ bytes_ok p' /\ zlen p' = zlen p /\
    getUnsignedBitfield p' offset bits = Some (value mod 2 ^ bits) /\
    forall i, 0 <= i -> i < offset \/ offset + bits <= i -> bit_at p' i = bit_at p i.
Proof.
  intros Hp Ho Hb Hl. destruct (set_bits_spec (Z.to_nat bits) p offset value Hp Ho) as (p' & E & Hp' & Hl' & Hbit); [lia..|].
  exists p'. do 3 (split; [done|]). split.
  - destruct (get_bits_spec (Z.to_nat bits) p' offset 0 Hp' Ho) as (r & Er & Hr & Hrb); [lia|lia|rewrite Z2Nat.id by lia; rewrite Z.add_0_l, Z.mul_1_l; apply Z.pow_le_mono_r; lia|].
    unfold getUnsignedBitfield. rewrite Er. f_equal. apply Z.bits_inj'. intros k Hk. rewrite Hrb by done. rewrite Z2Nat.id in * by lia.
    destruct (Z.ltb_spec k bits).
    + rewrite Z.mod_pow2_bits_low by lia. rewrite Hbit by lia. rewrite (proj2 (Z.leb_le _ _)), (proj2 (Z.ltb_lt _ _)) by lia. cbn [andb]. f_equal. lia.
    + rewrite Z.mod_pow2_bits_high by lia. apply Z.bits_0.
  - intros i Hi Hout. rewrite Hbit by done. rewrite Z2Nat.id by lia. destruct (Z.leb_spec offset i); cbn [andb]; [|done]. by rewrite (proj2 (Z.ltb_ge _ _)) by lia.
Qed.

(** ** Two's complement in a field *)

Lemma shl64_mask bits : 0 <= bits < 64 -> shl64 UINT64_MAX bits = Some (2 ^ 64 - 2 ^ bits).
Proof.
  intros Hb. unfold shl64. rewrite (proj2 (Z.leb_le _ _)), (proj2 (Z.ltb_lt _ _)) by lia. cbn [andb]. f_equal.
  rewrite Z.shiftl_mul_pow2 by lia. unfold UINT64_MAX, uwrap. assert (0 < 2 ^ bits < 2 ^ 64) by (split; [apply Z.pow_pos_nonneg; lia|apply Z.pow_lt_mono_r; lia]).
  replace ((2 ^ 64 - 1) * 2 ^ bits) with (2 ^ 64 - 2 ^ bits + (2 ^ bits - 1) * 2 ^ 64) by ring. rewrite Z.mod_add by lia. apply Z.mod_small. lia.
Qed.

Lemma mask_shift bits : 0 <= bits < 64 -> 2 ^ 64 - 2 ^ bits = Z.shiftl (Z.ones (64 - bits)) bits.
Proof. intros Hb. rewrite Z.shiftl_mul_pow2, Z.ones_equiv by lia. rewrite Z.mul_pred_l, <- Z.pow_add_r by lia. do 2 f_equal. lia. Qed.

Lemma lor_mask c bits : 0 <= c < 2 ^ 64 -> 0 <= bits < 64 -> Z.lor c (2 ^ 64 - 2 ^ bits) = c mod 2 ^ bits + (2 ^ 64 - 2 ^ bits).
Proof.
  intros Hc Hb. assert (0 <= c mod 2 ^ bits < 2 ^ bits) by (apply Z.mod_pos_bound, Z.pow_pos_nonneg; lia).
  rewrite mask_shift by done. rewrite (Z.shiftl_mul_pow2 _ bits) at 2 by lia. rewrite <- lor_above by lia.
  apply Z.bits_inj'. intros n Hn. rewrite !Z.lor_spec. destruct (Z.lt_ge_cases n bits); [by rewrite Z.mod_pow2_bits_low by lia|].
  rewrite !Z.shiftl_spec by lia. destruct (Z.lt_ge_cases n 64).
  - rewrite Z.ones_spec_low by lia. by rewrite !orb_true_r.
  - rewrite Z.mod_pow2_bits_high by lia. rewrite <- (Z.mod_small c (2 ^ 64)), Z.mod_pow2_bits_high by (done || lia). done.
Qed.

Lemma land_unmask c bits : 0 <= bits < 64 -> Z.land c (UINT64_MAX - (2 ^ 64 - 2 ^ bits)) = c mod 2 ^ bits.
Proof. intros Hb. replace (UINT64_MAX - (2 ^ 64 - 2 ^ bits)) with (Z.ones bits) by (rewrite Z.ones_equiv; unfold UINT64_MAX; lia). apply Z.land_ones. lia. Qed.

Lemma pow_half bits : 1 <= bits -> 2 ^ bits = 2 * 2 ^ (bits - 1) /\ 0 < 2 ^ (bits - 1).
Proof. intros Hb. split; [rewrite <- Z.pow_succ_r by lia; f_equal; lia|apply Z.pow_pos_nonneg; lia]. Qed.

Lemma sign_bit c bits : 1 <= bits -> Z.testbit c (bits - 1) = (2 ^ (bits - 1) <=? c mod 2 ^ bits).
Proof.
  intros Hb. destruct (pow_half bits Hb) as [Hp Hh]. rewrite <- (Z.mod_pow2_bits_low c bits (bits - 1)) by lia.
  pose proof (Z.mod_pos_bound c (2 ^ bits) ltac:(lia)). set (m := c mod 2 ^ bits) in *. rewrite Z.testbit_eqb by lia.
  destruct (Z.leb_spec (2 ^ (bits - 1)) m).
  - replace (m / 2 ^ (bits - 1)) with 1; [done|]. apply (Z.div_unique_pos _ _ _ (m - 2 ^ (bits - 1))); lia.
  - by rewrite Z.div_small by lia.
Qed.

Lemma swrap_shift w z k : swrap w (z + k * 2 ^ w) = swrap w z.
Proof.
  unfold swrap. destruct (Z.lt_ge_cases w 0); [by rewrite (Z.pow_neg_r 2 w), Z.mul_0_r, Z.add_0_r by lia|].
  replace (z + k * 2 ^ w + 2 ^ (w - 1)) with (z + 2 ^ (w - 1) + k * 2 ^ w) by lia. by rewrite Z.mod_add by (apply Z.pow_nonzero; lia).
Qed.

(** The value of a field of [bits] bits. *)
Lemma swrap_cases bits c : 1 <= bits -> swrap bits c = if 2 ^ (bits - 1) <=? c mod 2 ^ bits then c mod 2 ^ bits - 2 ^ bits else c mod 2 ^ bits.
Proof.
  intros Hb. destruct (pow_half bits Hb) as [Hp Hh]. pose proof (Z.mod_pos_bound c (2 ^ bits) ltac:(lia)) as Hm.
  rewrite (Z.div_mod c (2 ^ bits)) at 1 by lia. rewrite Z.add_comm, Z.mul_comm, swrap_shift. set (m := c mod 2 ^ bits) in *.
  destruct (Z.leb_spec (2 ^ (bits - 1)) m); [|apply swrap_small; [unfold srange; lia|lia]].
  replace m with (m - 2 ^ bits + 1 * 2 ^ bits) at 1 by lia. rewrite swrap_shift. apply swrap_small; [unfold srange; lia|lia].
Qed.

(** Sign extension. *)
Lemma sign_extend c bits : 0 <= c < 2 ^ 64 -> 1 <= bits < 64 ->
  s64 (if negb (Z.land c (2 ^ (bits - 1)) =? 0) then Z.lor c (2 ^ 64 - 2 ^ bits) else Z.land c (UINT64_MAX - (2 ^ 64 - 2 ^ bits))) = swrap bits c.
Proof.
  intros Hc Hb. destruct (pow_half bits ltac:(lia)) as [Hp Hh]. rewrite Z.land_comm, land_pow2, negb_involutive by lia.
  rewrite land_unmask, lor_mask by (done || lia). rewrite sign_bit, (swrap_cases bits c) by lia.
  pose proof (Z.mod_pos_bound c (2 ^ bits) ltac:(lia)). assert (2 ^ bits <= 2 ^ 63) by (apply Z.pow_le_mono_r; lia).
  destruct (Z.leb_spec (2 ^ (bits - 1)) (c mod 2 ^ bits)).
  - replace (c mod 2 ^ bits + (2 ^ 64 - 2 ^ bits)) with (c mod 2 ^ bits - 2 ^ bits + 1 * 2 ^ 64) by lia. rewrite (swrap_shift 64).
    apply swrap_small; [unfold srange; change (2 ^ (64 - 1)) with (2 ^ 63); lia|lia].
  - apply swrap_small; [unfold srange; change (2 ^ (64 - 1)) with (2 ^ 63); lia|lia].
Qed.

(** * Properties *)

(** [redisPopcount] counts the bits of the string: whatever the alignment of the string, the
    byte table, the 28-byte blocks of word arithmetic and the tail add up to the number of set
    bits, and nothing outside the string is read. *)
Theorem redisPopcount_correct addr s : bytes_ok s -> zlen s < 2 ^ 60 ->
  redisPopcount addr s (zlen s) = Some (ones (bits_of s)).
Proof.
  intros Hs Hl. pose proof (zlen_nonneg s). unfold redisPopcount.
  destruct (pop_head_spec addr s Hs Hl 3 0 (zlen s) 0) as (n & -> & Hn); [lia..|dlia|]. cbn [mbind option_bind]. rewrite !Z.add_0_l.
  pose proof (cnt_range s 0 n ltac:(lia) ltac:(lia) ltac:(lia)).
  destruct (pop_blocks_spec s Hs Hl (Z.to_nat (zlen s - n)) n (zlen s - n) (cnt s 0 n)) as (m & -> & Hm); [lia..|]. cbn [mbind option_bind].
  pose proof (cnt_range s n m ltac:(lia) ltac:(lia) ltac:(lia)). rewrite pop_tail_spec by (done || lia). f_equal.
  assert (E : cnt s 0 (zlen s) = ones (bits_of s)) by (unfold cnt, part; rewrite to_nat_zlen; cbn [Z.to_nat drop]; by rewrite take_ge).
  rewrite <- E. replace (zlen s) with (n + (m + (zlen s - n - m))) at 2 by lia. rewrite !cnt_split by lia. rewrite Z.add_0_l. lia.
Qed.

Lemma redisPopcount_correct_witness :
  redisPopcount 0x1001 (replicate 100 0xB7) 100 = Some 600.
Proof. exact (redisPopcount_correct 0x1001 (replicate 100 0xB7) ltac:(by repeat constructor) ltac:(done)). Defined.

(** [redisBitpos] returns the position of the first bit with the given value, for every
    alignment and length: without a set bit the result is -1, without a clear one the first
    position behind the string; the panic is not reached and nothing outside is read. *)
Theorem redisBitpos_correct addr s bit : bytes_ok s ->
  redisBitpos addr s (zlen s) bit =
    Some (default (if bit then -1 else 8 * zlen s) (find_bit bit (bits_of s))).
Proof.
  intros Hs. pose proof (zlen_nonneg s). unfold redisBitpos. cbv zeta. change (if bit then 0 else 255) with (skip_byte bit).
  assert (H0 : skipped s bit 0) by (split; [lia|constructor]).
  destruct (bitpos_head_spec addr s bit Hs 7 0 H0 ltac:(dlia)) as (found & c & E & Hc). rewrite Z.sub_0_r, Z.mul_0_r in E. rewrite E. cbn [mbind option_bind].
  assert (Hw : exists c', (if found then Some (c, zlen s - c, 8 * c) else bitpos_words s (Z.to_nat (zlen s - c)) (if bit then 0 else UINT64_MAX) c (zlen s - c) (8 * c)) =
    Some (c', zlen s - c', 8 * c') /\ stopped_at s bit c').
  { destruct found; [by exists c|]. apply bitpos_words_spec; [done..|]. pose proof (proj1 Hc). lia. }
  destruct Hw as (c' & -> & Hst). cbn [mbind option_bind]. pose proof (proj1 (proj1 Hst)).
  rewrite (load_word_spec s Hs 8 c' 0) by (lia || done). cbn [mbind option_bind]. set (L := take 8 _).
  assert (HL : bytes_ok L /\ length L = 8%nat).
  { split; [apply Forall_take, Forall_app; split; [by apply Forall_drop|by repeat constructor]|]. unfold L. rewrite length_take, length_app, length_replicate. lia. }
  pose proof (bitsN_be L (proj1 HL) 0 0) as HW. rewrite (proj2 HL) in HW. change (0 + 8 * 8)%nat with 64%nat in HW. cbn [bitsN app] in HW.
  pose proof (last_word s bit Hs c' Hst) as Hlast. cbv zeta in Hlast. fold L in Hlast.
  change (UINT64_MAX - Z.shiftr UINT64_MAX 1) with (2 ^ Z.of_nat 63). rewrite (scan_word_spec 63) by lia.
  change (bitsN 64 (be_acc 0 L) = bits_of L) in HW. rewrite HW.
  assert (Hz : be_acc 0 L = 0 -> find_bit true (bits_of L) = None) by (intros Hz; rewrite <- HW, Hz; reflexivity).
  destruct (bit && (be_acc 0 L =? 0)) eqn:Eb.
  - apply andb_true_iff in Eb as [-> Eb]. zb. rewrite (Hz Eb) in Hlast. by destruct Hlast as [_ ->].
  - destruct (find_bit bit (bits_of L)) as [i|] eqn:Ei; cbn [mbind option_bind].
    + rewrite Hlast. destruct bit; [|done]. by destruct (find_bit true (bits_of s)).
    + destruct Hlast as [-> _]. cbn [andb] in Eb. zb. exfalso. apply Eb, be_acc_zeros.
      destruct (decide (Forall (eq 0) L)) as [HF|HF]; [done|]. destruct (find_some true L (proj1 HL) HF) as [i Hi]. congruence.
Qed.

Lemma redisBitpos_correct_witness : redisBitpos 0x1003 (replicate 30 255 ++ [0xF7]) 31 false = Some 244.
Proof. exact (redisBitpos_correct 0x1003 (replicate 30 255 ++ [0xF7]) false ltac:(by repeat constructor)). Defined.

(** What an addition to a field does: the range of the field, the wrapped and the exact sum. *)
Definition overflow_spec (lo hi wrapped r : Z) (ow : owtype) (limit : Z) : Z * Z :=
  if (lo <=? r) && (r <=? hi) then (0, limit)
  else
    match ow with
    | BFOVERFLOW_WRAP => (1, wrapped)
    | BFOVERFLOW_SAT => if r <? lo then (-1, lo) else (1, hi)
    | BFOVERFLOW_FAIL => (if r <? lo then -1 else 1, limit)
    end.

Lemma u64_add value incr : u64 (u64 value + u64 incr) = u64 (value + incr).
Proof. unfold uwrap. by rewrite <- Zplus_mod. Qed.

Lemma mod_u64 c bits : 0 <= bits <= 64 -> u64 c mod 2 ^ bits = c mod 2 ^ bits.
Proof.
  intros Hb. unfold uwrap. apply Z.mod_mod_divide.
  exists (2 ^ (64 - bits)). rewrite <- Z.pow_add_r by lia. f_equal. lia.
Qed.

Lemma swrap_u64 c bits : 1 <= bits <= 64 -> swrap bits (u64 c) = swrap bits c.
Proof. intros Hb. rewrite !(swrap_cases bits) by lia. by rewrite mod_u64 by lia. Qed.

Lemma unsigned_overflow value incr bits ow limit : 1 <= bits <= 63 -> 0 <= value < 2 ^ bits -> srange 64 incr ->
  checkUnsignedBitfieldOverflow value incr bits ow limit =
    Some (overflow_spec 0 (2 ^ bits - 1) ((value + incr) mod 2 ^ bits) (value + incr) ow limit).
Proof.
  intros Hb Hv Hi. unfold checkUnsignedBitfieldOverflow. rewrite (proj2 (Z.eqb_neq bits 64)) by lia. rewrite shl64_pow by lia. cbn [mbind option_bind].
  assert (Hp : 0 < 2 ^ bits <= 2 ^ 63) by (split; [apply Z.pow_pos_nonneg; lia|apply Z.pow_le_mono_r; lia]).
  unfold srange in Hi. change (64 - 1) with 63 in Hi.
  rewrite (uwrap_small 64 (2 ^ bits - 1)) by (unfold urange; lia). rewrite (uwrap_small 64 (2 ^ bits - 1 - value)) by (unfold urange; lia). cbv zeta.
  rewrite (swrap_small 64 (2 ^ bits - 1 - value)) by (unfold srange; change (64 - 1) with 63; lia).
  replace (s64 (u64 (- value))) with (- value) by (rewrite (swrap_u64 (- value) 64) by lia; rewrite swrap_small; [done|unfold srange; change (64 - 1) with 63; lia|lia]).
  rewrite shl64_mask by lia. cbn [mbind option_bind]. rewrite land_unmask, mod_u64 by lia. unfold overflow_spec. rewrite !Z.gtb_ltb.
  rewrite (proj2 (Z.ltb_ge (2 ^ bits - 1) value)) by lia. cbn [orb].
  destruct (Z.ltb_spec 0 incr), (Z.ltb_spec (2 ^ bits - 1 - value) incr), (Z.ltb_spec incr 0), (Z.ltb_spec incr (- value)), (Z.leb_spec 0 (value + incr)),
    (Z.leb_spec (value + incr) (2 ^ bits - 1)), (Z.ltb_spec (value + incr) 0); try lia; cbn [andb]; by destruct ow.
Qed.

Lemma signed_overflow value incr bits ow limit : 1 <= bits <= 64 -> srange bits value -> srange 64 incr -> bits < 64 \/ ow <> BFOVERFLOW_WRAP ->
  checkSignedBitfieldOverflow value incr bits ow limit =
    Some (overflow_spec (- 2 ^ (bits - 1)) (2 ^ (bits - 1) - 1) (swrap bits (value + incr)) (value + incr) ow limit).
Proof.
  intros Hb Hv Hi Hw. unfold checkSignedBitfieldOverflow. destruct (pow_half bits ltac:(lia)) as [Hp Hh].
  assert (Hh63 : 2 ^ (bits - 1) <= 2 ^ 63) by (apply Z.pow_le_mono_r; lia). unfold srange in Hv, Hi. change (64 - 1) with 63 in Hi.
  assert (Hmax : (if bits =? 64 then Some INT64_MAX else m ← shl64 1 (bits - 1); Some (s64 m - 1)) = Some (2 ^ (bits - 1) - 1)).
  { destruct (Z.eqb_spec bits 64) as [->|Hne]; [done|]. rewrite shl64_pow by lia. cbn [mbind option_bind]. do 2 f_equal.
    assert (2 ^ (bits - 1) <= 2 ^ 62) by (apply Z.pow_le_mono_r; lia). apply swrap_small; [unfold srange; change (64 - 1) with 63; lia|lia]. }
  rewrite Hmax. cbn [mbind option_bind]. cbv zeta. set (h := 2 ^ (bits - 1)) in *. replace (- (h - 1) - 1) with (- h) by lia.
  (* where the differences matter they do not overflow *)
  assert (Hmi : bits < 64 \/ 0 <= value -> s64 (h - 1 - value) = h - 1 - value).
  { intros Hc. apply swrap_small; [|lia]. unfold srange. change (64 - 1) with 63. destruct Hc; [|lia]. assert (h <= 2 ^ 62) by (apply Z.pow_le_mono_r; lia). lia. }
  assert (Hni : bits < 64 \/ value < 0 -> s64 (- h - value) = - h - value).
  { intros Hc. apply swrap_small; [|lia]. unfold srange. change (64 - 1) with 63. destruct Hc; [|lia]. assert (h <= 2 ^ 62) by (apply Z.pow_le_mono_r; lia). lia. }
  assert (C1 : (value >? h - 1) || negb (bits =? 64) && (incr >? s64 (h - 1 - value)) || (value >=? 0) && (incr >? 0) && (incr >? s64 (h - 1 - value)) =
    (h - 1 <? value + incr)).
  { rewrite !Z.gtb_ltb, Z.geb_leb. rewrite (proj2 (Z.ltb_ge (h - 1) value)) by lia. cbn [orb]. destruct (Z.eqb_spec bits 64) as [E64|E64]; cbn [negb andb orb].
    - assert (h = 2 ^ 63) by (unfold h; by rewrite E64). destruct (Z.leb_spec 0 value); cbn [andb]; [rewrite Hmi by (by right)|].
      + destruct (Z.ltb_spec 0 incr), (Z.ltb_spec (h - 1 - value) incr), (Z.ltb_spec (h - 1) (value + incr)); done || lia.
      + symmetry. apply Z.ltb_ge. lia.
    - rewrite Hmi by lia. destruct (Z.ltb_spec (h - 1 - value) incr), (Z.ltb_spec (h - 1) (value + incr)); try lia; cbn [orb]; by rewrite ?andb_false_r. }
  assert (C2 : (value <? - h) || negb (bits =? 64) && (incr <? s64 (- h - value)) || (value <? 0) && (incr <? 0) && (incr <? s64 (- h - value)) =
    (value + incr <? - h)).
  { rewrite (proj2 (Z.ltb_ge value (- h))) by lia. cbn [orb]. destruct (Z.eqb_spec bits 64) as [E64|E64]; cbn [negb andb orb].
    - assert (h = 2 ^ 63) by (unfold h; by rewrite E64). destruct (Z.ltb_spec value 0); cbn [andb]; [rewrite Hni by (by right)|].
      + destruct (Z.ltb_spec incr 0), (Z.ltb_spec incr (- h - value)), (Z.ltb_spec (value + incr) (- h)); done || lia.
      + symmetry. apply Z.ltb_ge. lia.
    - rewrite Hni by lia. destruct (Z.ltb_spec incr (- h - value)), (Z.ltb_spec (value + incr) (- h)); try lia; cbn [orb]; by rewrite ?andb_false_r. }
  assert (Cw : ow = BFOVERFLOW_WRAP -> (mask ← shl64 UINT64_MAX bits; msb ← shl64 1 (bits - 1); Some (1, s64 (if negb (Z.land (u64 (u64 value + u64 incr)) msb =? 0)
      then Z.lor (u64 (u64 value + u64 incr)) mask else Z.land (u64 (u64 value + u64 incr)) (UINT64_MAX - mask)))) = Some (1, swrap bits (value + incr))).
  { intros E. destruct Hw as [Hw|Hw]; [|done]. rewrite shl64_mask, shl64_pow by lia. cbn [mbind option_bind]. do 2 f_equal. rewrite u64_add.
    rewrite sign_extend by (lia || by apply uwrap_range). apply swrap_u64. lia. }
  rewrite C1, C2. unfold overflow_spec. rewrite (Z.leb_antisym (value + incr) (- h)), (Z.leb_antisym (h - 1) (value + incr)).
  destruct (Z.ltb_spec (h - 1) (value + incr)), (Z.ltb_spec (value + incr) (- h)); try lia; cbn [negb andb]; destruct ow; try done; by apply Cw.
Qed.

(** C27. Integers stored at any bit position are read back: setting a field of 1 to 64 bits and
    reading it gives the value modulo 2^bits, no other bit of the string changes and nothing
    outside it is touched; a signed field of up to 63 bits gives the value in two's complement
    (the value itself when it fits). *)
Theorem bitfield_roundtrip p offset bits value :
  bytes_ok p -> 0 <= offset -> 1 <= bits <= 64 -> offset + bits <= 8 * zlen p ->
  (exists p', setUnsignedBitfield p offset bits value = Some p' /\ bytes_ok p' /\ zlen p' = zlen p /\
    getUnsignedBitfield p' offset bits = Some (value mod 2 ^ bits) /\
    forall i, 0 <= i -> i < offset \/ offset + bits <= i -> bit_at p' i = bit_at p i) /\
  (bits < 64 -> exists p', setSignedBitfield p offset bits value = Some p' /\
    getSignedBitfield p' offset bits = Some (swrap bits value)).
Proof.
  intros Hp Ho Hb Hl. split; [apply get_set_unsigned; done || lia|]. intros H64.
  destruct (get_set_unsigned p offset bits (u64 value) Hp Ho ltac:(lia) Hl) as (p' & E & _ & _ & Hg & _). exists p'. split; [done|].
  unfold getSignedBitfield. rewrite Hg. cbn [mbind option_bind]. rewrite mod_u64 by lia. rewrite shl64_pow by lia. cbn [mbind option_bind].
  assert (Hm : 0 <= value mod 2 ^ bits < 2 ^ bits) by (apply Z.mod_pos_bound, Z.pow_pos_nonneg; lia).
  assert (2 ^ bits <= 2 ^ 63) by (apply Z.pow_le_mono_r; lia). pose proof (sign_extend (value mod 2 ^ bits) bits ltac:(lia) ltac:(lia)) as Hs.
  rewrite shl64_mask by lia. cbn [mbind option_bind]. rewrite land_unmask, Z.mod_mod in Hs by lia.
  replace (swrap bits value) with (swrap bits (value mod 2 ^ bits)) by (rewrite !(swrap_cases bits) by lia; by rewrite Z.mod_mod by lia).
  rewrite <- Hs. by destruct (negb _).
Qed.

Lemma bitfield_roundtrip_witness : exists p', setSignedBitfield (replicate 4 0xAA) 7 13 (-2000) = Some p' /\ getSignedBitfield p' 7 13 = Some (-2000).
Proof.
  exact (proj2 (bitfield_roundtrip (replicate 4 0xAA) 7 13 (-2000) ltac:(by repeat constructor) ltac:(lia) ltac:(lia) ltac:(vm_compute; done)) ltac:(lia)).
Defined.

(** The overflow rules of BITFIELD INCRBY are those documented, for every width, value and
    increment: within the range of the field the answer is 0; otherwise WRAP yields the sum modulo
    2^bits (in two's complement for signed fields), SAT the nearest bound with the direction, FAIL
    the direction only.  No intermediate overflow of the differences changes an answer.  (Wrapping
    64-bit signed fields is excluded.) *)
Theorem bitfield_overflow_correct value incr bits ow limit : srange 64 incr ->
  (1 <= bits <= 63 -> 0 <= value < 2 ^ bits ->
   checkUnsignedBitfieldOverflow value incr bits ow limit =
     Some (overflow_spec 0 (2 ^ bits - 1) ((value + incr) mod 2 ^ bits) (value + incr) ow limit)) /\
  (1 <= bits <= 64 -> srange bits value -> bits < 64 \/ ow <> BFOVERFLOW_WRAP ->
   checkSignedBitfieldOverflow value incr bits ow limit =
     Some (overflow_spec (- 2 ^ (bits - 1)) (2 ^ (bits - 1) - 1) (swrap bits (value + incr)) (value + incr) ow limit)).
Proof. intros Hi. split; intros; [by apply unsigned_overflow|by apply signed_overflow]. Qed.

Lemma bitfield_overflow_correct_witness :
  checkUnsignedBitfieldOverflow 250 10 8 BFOVERFLOW_WRAP 0 = Some (1, 4) /\
  checkSignedBitfieldOverflow 100 100 8 BFOVERFLOW_SAT 0 = Some (1, 127).
Proof.
  split.
  - exact (proj1 (bitfield_overflow_correct 250 10 8 BFOVERFLOW_WRAP 0 ltac:(by split)) ltac:(lia) ltac:(by split)).
  - exact (proj2 (bitfield_overflow_correct 100 100 8 BFOVERFLOW_SAT 0 ltac:(by split)) ltac:(lia) ltac:(by split) ltac:(by left)).
Defined.

(** 64-bit signed fields run into undefined behaviour: both the reader and the wrapping overflow
    rule shift a 64-bit word by 64 when the field is 64 bits wide, the reader for every negative
    value and the overflow rule for every sum out of range. *)
Theorem bitfield_i64_undefined p offset value incr limit :
  bytes_ok p -> 0 <= offset -> offset + 64 <= 8 * zlen p -> srange 64 value -> srange 64 incr ->
  (bit_at p offset = true -> getSignedBitfield p offset 64 = None) /\
  (~ srange 64 (value + incr) -> checkSignedBitfieldOverflow value incr 64 BFOVERFLOW_WRAP limit = None).
Proof.
  intros Hp Ho Hl Hv Hi. split; intros H.
  - destruct (get_bits_spec 64 p offset 0 Hp Ho) as (r & E & Hr & Hbits); [lia|lia|done|]. unfold getSignedBitfield, getUnsignedBitfield.
    change (Z.to_nat 64) with 64%nat. rewrite E. cbn [mbind option_bind]. rewrite shl64_pow by lia. cbn [mbind option_bind].
    rewrite Z.land_comm, land_pow2, negb_involutive by lia. rewrite Hbits by lia. change (64 - 1 <? Z.of_nat 64) with true. cbv iota.
    replace (offset + Z.of_nat 64 - 1 - (64 - 1)) with offset by lia. by rewrite H.
  - unfold srange in *. change (64 - 1) with 63 in *. unfold checkSignedBitfieldOverflow. change (64 =? 64) with true. cbv iota zeta. cbn [mbind option_bind negb andb].
    unfold INT64_MAX. rewrite !orb_false_r. rewrite !Z.gtb_ltb, Z.geb_leb.
    rewrite (proj2 (Z.ltb_ge (2 ^ 63 - 1) value)) by lia. rewrite (proj2 (Z.ltb_ge value (- (2 ^ 63 - 1) - 1))) by lia. cbn [orb].
    change (shl64 UINT64_MAX 64) with (@None Z). cbn [mbind option_bind].
    destruct (Z.leb_spec 0 value), (Z.ltb_spec 0 incr), (Z.ltb_spec value 0), (Z.ltb_spec incr 0); try lia; cbn [andb].
    + rewrite swrap_small by (unfold srange; change (64 - 1) with 63; lia). by rewrite (proj2 (Z.ltb_lt _ _)) by lia.
    + rewrite swrap_small by (unfold srange; change (64 - 1) with 63; lia). by rewrite (proj2 (Z.ltb_lt _ _)) by lia.
Qed.

Lemma bitfield_i64_undefined_witness : getSignedBitfield (replicate 8 255) 0 64 = None /\
  checkSignedBitfieldOverflow INT64_MAX 1 64 BFOVERFLOW_WRAP 0 = None.
Proof.
  destruct (bitfield_i64_undefined (replicate 8 255) 0 INT64_MAX 1 0) as [H1 H2]; [by repeat constructor|lia|vm_compute; done|by split|by split|].
  split; [by apply H1|apply H2; intros [_ H]; by vm_compute in H].
Defined.
