(* ===== verification/Zskiplist.v ===== *)
(** Skip lists of the sorted sets (t_zset.c, server.h).

    Nodes live in a heap ([gmap] from addresses to nodes); a dereference of NULL, of a freed node or
    of a level a node does not have is [None], and so is a failed [serverAssert].  Scores are
    binary64 numbers ([spec_float] with its IEEE comparisons, so that -0 equals 0 and a NaN compares
    with nothing); elements are the contents of their sds strings, compared by [lex], which is the
    sign of [sdscmp] ([Sds.sdscmp_spec]).  [zmalloc] returns an address not in use whose contents
    are arbitrary ([garbage]).  [random()] is an input: the list of the values it returns. *)

From Stdlib Require Import SpecFloat String Sorted.
From stdpp Require Import gmap.
From S2P Require Import Prelude Util Sds.
#[local] Open Scope list_scope.
#[local] Open Scope Z_scope.

(** * Doubles *)

Abbreviation double := spec_float (only parsing).

Definition isnan (x : double) : bool := match x with S754_nan => true | _ => false end.
Definition dzero : double := S754_zero false.
Definition dadd (x y : double) : double := SFadd 53 1024 x y.
(** [a > b] and [a >= b]. *)
Definition SFgtb (a b : double) : bool := SFltb b a.
Definition SFgeb (a b : double) : bool := SFleb b a.

(** * The data *)

Abbreviation ptr := (option positive) (only parsing).

Definition ZSKIPLIST_MAXLEVEL : nat := 64.

Record zskiplistLevel := Lvl { forward : option positive; span : Z }.

Record zskiplistNode := ZNode {
  ele : option bytes;
  score : double;
  backward : option positive;
  level : list zskiplistLevel
}.

Record zskiplist := Zsl {
  header : positive;
  tail : option positive;
  zlength : Z;
  zlevel : nat
}.

Abbreviation heap := (gmap positive zskiplistNode).

(** [a->level[i]], read and written. *)
Definition lv (h : heap) (a : positive) (i : nat) : option zskiplistLevel :=
  n ← h !! a; level n !! i.
Definition set_lv (h : heap) (a : positive) (i : nat) (l : zskiplistLevel) : option heap :=
  n ← h !! a; _ ← level n !! i;
  Some (<[a := ZNode (ele n) (score n) (backward n) (<[i := l]> (level n))]> h).
Definition set_forward (h : heap) (a : positive) (i : nat) (p : ptr) : option heap :=
  l ← lv h a i; set_lv h a i (Lvl p (span l)).
Definition set_span (h : heap) (a : positive) (i : nat) (s : Z) : option heap :=
  l ← lv h a i; set_lv h a i (Lvl (forward l) s).
Definition set_backward (h : heap) (a : positive) (p : ptr) : option heap :=
  n ← h !! a; Some (<[a := ZNode (ele n) (score n) p (level n)]> h).
Definition set_score (h : heap) (a : positive) (s : double) : option heap :=
  n ← h !! a; Some (<[a := ZNode (ele n) s (backward n) (level n)]> h).

(** [for (i = ...)] over a range of levels. *)
Fixpoint for_levels (idx : list nat) (f : heap -> nat -> option heap) (h : heap) : option heap :=
  match idx with
  | [] => Some h
  | i :: idx => h ← f h i; for_levels idx f h
  end.

(** * Creation and release *)

Definition zslCreateNode (garbage : zskiplistLevel) (h : heap) (lvl : nat) (sc : double)
    (el : option bytes) : heap * positive :=
  let a := fresh (dom h) in
  (<[a := ZNode el sc (forward garbage) (replicate lvl garbage)]> h, a).

Definition zslCreate (garbage : zskiplistLevel) (h : heap) : option (heap * zskiplist) :=
  let '(h, hd) := zslCreateNode garbage h ZSKIPLIST_MAXLEVEL dzero None in
  h ← for_levels (seq 0 ZSKIPLIST_MAXLEVEL)
        (fun h j => h ← set_forward h hd j None; set_span h hd j 0) h;
  h ← set_backward h hd None;
  Some (h, Zsl hd None 0 1).

Definition zslFreeNode (h : heap) (a : positive) : option heap :=
  _ ← h !! a; Some (delete a h).

Fixpoint zslFree_loop (fuel : nat) (h : heap) (node : ptr) : option heap :=
  match node with
  | None => Some h
  | Some a =>
      match fuel with
      | O => None
      | S fuel =>
          l ← lv h a 0;
          h ← zslFreeNode h a;
          zslFree_loop fuel h (forward l)
      end
  end.

(** The header's element is NULL: [zfree] and [zslFreeNode] do the same to it. *)
Definition zslFree (h : heap) (z : zskiplist) : option heap :=
  l ← lv h (header z) 0;
  h ← zslFreeNode h (header z);
  zslFree_loop (map_size h) h (forward l).

(** [ZSKIPLIST_P * 0xFFFF] is 16383.75. *)
Fixpoint random_level_loop (rnd : list Z) (lvl : Z) : option (Z * list Z) :=
  match rnd with
  | [] => None
  | r :: rnd => if Z.land r 65535 <? 16384 then random_level_loop rnd (lvl + 1) else Some (lvl, rnd)
  end.

Definition zslRandomLevel (rnd : list Z) : option (nat * list Z) :=
  '(lvl, rnd) ← random_level_loop rnd 1;
  Some (if lvl <? Z.of_nat ZSKIPLIST_MAXLEVEL then Z.to_nat lvl else ZSKIPLIST_MAXLEVEL, rnd).

(** * Searching *)

(** The inner loop: [while (x->level[i].forward && cond) { traversed += span; x = forward; }].
    [cond] gets what was traversed, the span and the forward pointer; [wrap] is the width of the
    counter ([rank] is an [unsigned int] in [zslInsert] and an [unsigned long] elsewhere; the loops
    of the functions that do not count skip the addition, and their counter is never read). *)
Fixpoint advance (fuel : nat) (h : heap) (cond : Z -> Z -> positive -> option bool) (wrap : Z -> Z)
    (i : nat) (x : positive) (tr : Z) : option (positive * Z) :=
  l ← lv h x i;
  match forward l with
  | None => Some (x, tr)
  | Some f =>
      c ← cond tr (span l) f;
      if c : bool then
        match fuel with
        | O => None
        | S fuel => advance fuel h cond wrap i f (wrap (tr + span l))
        end
      else Some (x, tr)
  end.

(** The outer loop over the [n] lowest levels, from the top: where it ends, what was traversed, and
    for each level (from 0) the node where the level was left ([update]) and its [rank]. *)
Fixpoint search (n : nat) (h : heap) (cond : Z -> Z -> positive -> option bool) (wrap : Z -> Z)
    (x : positive) (tr : Z) : option (positive * Z * list (positive * Z)) :=
  match n with
  | O => Some (x, tr, [])
  | S i =>
      '(x, tr) ← advance (map_size h) h cond wrap i x tr;
      '(y, t, update) ← search i h cond wrap x tr;
      Some (y, t, update ++ [(x, tr)])
  end.

(** [n->score < score || (n->score == score && sdscmp(n->ele,ele) < 0)], and with [<= 0]. *)
Definition key_before (or_equal : bool) (h : heap) (sc : double) (el : bytes) (f : positive) : option bool :=
  n ← h !! f;
  if SFltb (score n) sc then Some true
  else if SFeqb (score n) sc then
    e ← ele n;
    Some (match lex e el with Lt => true | Eq => or_equal | Gt => false end)
  else Some false.

(** * Insertion and deletion *)

(** [for (i = 0; i < level; i++)]: link the new node [x] into level [i]. *)
Definition link_level (update : list (positive * Z)) (x : positive) (h : heap) (i : nat) : option heap :=
  '(u, ri) ← update !! i;
  '(_, r0) ← update !! 0%nat;
  lu ← lv h u i;
  h ← set_forward h x i (forward lu);
  h ← set_forward h u i (Some x);
  h ← set_span h x i (u64 (span lu - u32 (r0 - ri)));
  set_span h u i (u32 (u32 (r0 - ri) + 1)).

(** [update[i]->level[i].span++] *)
Definition bump_level (update : list (positive * Z)) (h : heap) (i : nat) : option heap :=
  '(u, _) ← update !! i; l ← lv h u i; set_span h u i (u64 (span l + 1)).

(** [zslInsert] from the creation of the node on. *)
Definition insert_node (garbage : zskiplistLevel) (h : heap) (z : zskiplist) (sc : double) (el : bytes)
    (lvl : nat) (update : list (positive * Z)) : option (heap * zskiplist * positive) :=
  let '(h, x) := zslCreateNode garbage h lvl sc (Some el) in
  h ← for_levels (seq 0 lvl) (link_level update x) h;
  h ← for_levels (seq lvl (zlevel z - lvl)) (bump_level update) h;
  '(u0, _) ← update !! 0%nat;
  h ← set_backward h x (if bool_decide (u0 = header z) then None else Some u0);
  l0 ← lv h x 0;
  '(h, tl) ← match forward l0 with
             | Some f => h ← set_backward h f (Some x); Some (h, tail z)
             | None => Some (h, Some x)
             end;
  Some (h, Zsl (header z) tl (u64 (zlength z + 1)) (zlevel z), x).

(** [if (level > zsl->level)]: the new levels start at the header. *)
Definition grow (h : heap) (z : zskiplist) (lvl : nat) (update : list (positive * Z))
    : option (heap * zskiplist * list (positive * Z)) :=
  if (zlevel z <? lvl)%nat then
    h ← for_levels (seq (zlevel z) (lvl - zlevel z)) (fun h i => set_span h (header z) i (zlength z)) h;
    Some (h, Zsl (header z) (tail z) (zlength z) lvl, update ++ replicate (lvl - zlevel z) (header z, 0))
  else Some (h, z, update).

Definition zslInsert (garbage : zskiplistLevel) (h : heap) (z : zskiplist) (sc : double) (el : bytes)
    (rnd : list Z) : option (heap * zskiplist * positive * list Z) :=
  if isnan sc then None
  else
    '(_, _, update) ← search (zlevel z) h (fun _ _ f => key_before false h sc el f) u32 (header z) 0;
    '(lvl, rnd) ← zslRandomLevel rnd;
    '(h, z, update) ← grow h z lvl update;
    '(h, z, x) ← insert_node garbage h z sc el lvl update;
    Some (h, z, x, rnd).

Definition unlink_level (update : list (positive * Z)) (x : positive) (h : heap) (i : nat) : option heap :=
  '(u, _) ← update !! i;
  lu ← lv h u i;
  if bool_decide (forward lu = Some x) then
    lx ← lv h x i;
    h ← set_span h u i (u64 (span lu + (span lx - 1)));
    set_forward h u i (forward lx)
  else set_span h u i (u64 (span lu - 1)).

(** [while(zsl->level > 1 && zsl->header->level[zsl->level-1].forward == NULL) zsl->level--] *)
Fixpoint shrink_level (n : nat) (h : heap) (hd : positive) : option nat :=
  match n with
  | S (S m as n') =>
      l ← lv h hd n';
      match forward l with None => shrink_level n' h hd | Some _ => Some n end
  | _ => Some n
  end.

Definition zslDeleteNode (h : heap) (z : zskiplist) (x : positive) (update : list (positive * Z))
    : option (heap * zskiplist) :=
  h ← for_levels (seq 0 (zlevel z)) (unlink_level update x) h;
  n ← h !! x;
  l0 ← level n !! 0%nat;
  '(h, tl) ← match forward l0 with
             | Some f => h ← set_backward h f (backward n); Some (h, tail z)
             | None => Some (h, backward n)
             end;
  zl ← shrink_level (zlevel z) h (header z);
  Some (h, Zsl (header z) tl (u64 (zlength z - 1)) zl).

(** [x && score == x->score && sdscmp(x->ele,ele) == 0] *)
Definition node_is (h : heap) (x : ptr) (sc : double) (el : bytes) : option bool :=
  match x with
  | None => Some false
  | Some a =>
      n ← h !! a;
      if SFeqb sc (score n) then e ← ele n; Some (bool_decide (lex e el = Eq)) else Some false
  end.

(** [keep]: the caller passed a [node] pointer, which receives the node. *)
Definition zslDelete (h : heap) (z : zskiplist) (sc : double) (el : bytes) (keep : bool)
    : option (Z * ptr * heap * zskiplist) :=
  '(x, _, update) ← search (zlevel z) h (fun _ _ f => key_before false h sc el f) u64 (header z) 0;
  l ← lv h x 0;
  found ← node_is h (forward l) sc el;
  if found : bool then
    x ← forward l;
    '(h, z) ← zslDeleteNode h z x update;
    if keep then Some (1, Some x, h, z)
    else h ← zslFreeNode h x; Some (1, None, h, z)
  else Some (0, None, h, z).

(** The test of [zslUpdateScore] on the neighbours: the node may stay where it is. *)
Definition neighbours_test (h : heap) (n : zskiplistNode) (l0 : zskiplistLevel) (newscore : double) : option bool :=
  before ← match backward n with
           | None => Some true
           | Some b => nb ← h !! b; Some (SFltb (score nb) newscore)
           end;
  if before : bool then
    match forward l0 with
    | None => Some true
    | Some f => nf ← h !! f; Some (SFgtb (score nf) newscore)
    end
  else Some false.

Definition zslUpdateScore (garbage : zskiplistLevel) (h : heap) (z : zskiplist) (curscore : double)
    (el : bytes) (newscore : double) (rnd : list Z) : option (heap * zskiplist * positive * list Z) :=
  '(x, _, update) ← search (zlevel z) h (fun _ _ f => key_before false h curscore el f) u64 (header z) 0;
  l ← lv h x 0;
  found ← node_is h (forward l) curscore el;
  if negb found then None
  else
    x ← forward l;
    n ← h !! x;
    l0 ← level n !! 0%nat;
    same_place ← neighbours_test h n l0 newscore;
    if same_place : bool then h ← set_score h x newscore; Some (h, z, x, rnd)
    else
      '(h, z) ← zslDeleteNode h z x update;
      n ← h !! x;
      el ← ele n;
      '(h, z, newnode, rnd) ← zslInsert garbage h z newscore el rnd;
      h ← zslFreeNode h x;
      Some (h, z, newnode, rnd).

(** * Ranks *)

(** The loops return from inside: [for (i = zsl->level-1; i >= 0; i--)]. *)
Fixpoint get_rank_loop (n : nat) (h : heap) (sc : double) (el : bytes) (x : positive) (rank : Z) : option Z :=
  match n with
  | O => Some 0
  | S i =>
      '(x, rank) ← advance (map_size h) h (fun _ _ f => key_before true h sc el f) u64 i x rank;
      nx ← h !! x;
      if match ele nx with Some e => bool_decide (lex e el = Eq) | None => false end then Some rank
      else get_rank_loop i h sc el x rank
  end.

Definition zslGetRank (h : heap) (z : zskiplist) (sc : double) (el : bytes) : option Z :=
  get_rank_loop (zlevel z) h sc el (header z) 0.

Fixpoint get_element_loop (n : nat) (h : heap) (rank : Z) (x : positive) (traversed : Z) : option ptr :=
  match n with
  | O => Some None
  | S i =>
      '(x, traversed) ← advance (map_size h) h (fun tr sp _ => Some (u64 (tr + sp) <=? rank)) u64 i x traversed;
      if traversed =? rank then Some (Some x) else get_element_loop i h rank x traversed
  end.

Definition zslGetElementByRank (h : heap) (z : zskiplist) (rank : Z) : option ptr :=
  get_element_loop (zlevel z) h rank (header z) 0.

(** * Ranges of scores and of elements *)

Record zrangespec := Range { rmin : double; rmax : double; minex : bool; maxex : bool }.

Definition zslValueGteMin (value : double) (spec : zrangespec) : bool :=
  if minex spec then SFgtb value (rmin spec) else SFgeb value (rmin spec).
Definition zslValueLteMax (value : double) (spec : zrangespec) : bool :=
  if maxex spec then SFltb value (rmax spec) else SFleb value (rmax spec).

(** [shared.minstring] and [shared.maxstring] are recognised by their addresses. *)
Inductive lexbound := Minstring | Maxstring | Str (s : bytes).

Record zlexrangespec := LexRange { lmin : lexbound; lmax : lexbound; lminex : bool; lmaxex : bool }.

Definition sdscmplex (a b : lexbound) : comparison :=
  match a, b with
  | Minstring, Minstring | Maxstring, Maxstring => Eq
  | Minstring, _ | _, Maxstring => Lt
  | Maxstring, _ | _, Minstring => Gt
  | Str a, Str b => lex a b
  end.

Definition zslLexValueGteMin (value : bytes) (spec : zlexrangespec) : bool :=
  match sdscmplex (Str value) (lmin spec) with Gt => true | Eq => negb (lminex spec) | Lt => false end.
Definition zslLexValueLteMax (value : bytes) (spec : zlexrangespec) : bool :=
  match sdscmplex (Str value) (lmax spec) with Lt => true | Eq => negb (lmaxex spec) | Gt => false end.

(** The tests of a node against the ends of a range. *)
Definition score_test (h : heap) (test : double -> bool) (a : positive) : option bool :=
  n ← h !! a; Some (test (score n)).
Definition ele_test (h : heap) (test : bytes -> bool) (a : positive) : option bool :=
  n ← h !! a; e ← ele n; Some (test e).

(** The part the two [IsIn...Range] share: the tail is not below the range, the first node is not above. *)
Definition ends_in_range (h : heap) (z : zskiplist) (gte_min lte_max : positive -> option bool) : option bool :=
  match tail z with
  | None => Some false
  | Some x =>
      c ← gte_min x;
      if negb c then Some false
      else
        l ← lv h (header z) 0;
        match forward l with
        | None => Some false
        | Some x => lte_max x
        end
  end.

Definition zslIsInRange (h : heap) (z : zskiplist) (range : zrangespec) : option bool :=
  if SFgtb (rmin range) (rmax range) || (SFeqb (rmin range) (rmax range) && (minex range || maxex range))
  then Some false
  else ends_in_range h z (score_test h (fun v => zslValueGteMin v range)) (score_test h (fun v => zslValueLteMax v range)).

Definition zslIsInLexRange (h : heap) (z : zskiplist) (range : zlexrangespec) : option bool :=
  let empty := match sdscmplex (lmin range) (lmax range) with
               | Gt => true | Eq => lminex range || lmaxex range | Lt => false end in
  if empty then Some false
  else ends_in_range h z (ele_test h (fun v => zslLexValueGteMin v range)) (ele_test h (fun v => zslLexValueLteMax v range)).

(** The bodies the score and lex versions share after the test of the range. *)
Definition first_in_range (h : heap) (z : zskiplist) (gte_min lte_max : positive -> option bool) : option ptr :=
  '(x, _, _) ← search (zlevel z) h (fun _ _ f => negb <$> gte_min f) u64 (header z) 0;
  l ← lv h x 0;
  x ← forward l;
  c ← lte_max x;
  Some (if c : bool then Some x else None).

Definition last_in_range (h : heap) (z : zskiplist) (gte_min lte_max : positive -> option bool) : option ptr :=
  '(x, _, _) ← search (zlevel z) h (fun _ _ f => lte_max f) u64 (header z) 0;
  c ← gte_min x;
  Some (if c : bool then Some x else None).

Definition zslFirstInRange (h : heap) (z : zskiplist) (range : zrangespec) : option ptr :=
  inr ← zslIsInRange h z range;
  if negb inr then Some None
  else first_in_range h z (score_test h (fun v => zslValueGteMin v range)) (score_test h (fun v => zslValueLteMax v range)).

Definition zslLastInRange (h : heap) (z : zskiplist) (range : zrangespec) : option ptr :=
  inr ← zslIsInRange h z range;
  if negb inr then Some None
  else last_in_range h z (score_test h (fun v => zslValueGteMin v range)) (score_test h (fun v => zslValueLteMax v range)).

Definition zslFirstInLexRange (h : heap) (z : zskiplist) (range : zlexrangespec) : option ptr :=
  inr ← zslIsInLexRange h z range;
  if negb inr then Some None
  else first_in_range h z (ele_test h (fun v => zslLexValueGteMin v range)) (ele_test h (fun v => zslLexValueLteMax v range)).

Definition zslLastInLexRange (h : heap) (z : zskiplist) (range : zlexrangespec) : option ptr :=
  inr ← zslIsInLexRange h z range;
  if negb inr then Some None
  else last_in_range h z (ele_test h (fun v => zslLexValueGteMin v range)) (ele_test h (fun v => zslLexValueLteMax v range)).

(** * Examples *)

(** A finite double with a small integer value, canonical for binary64. *)
Definition of_Z (n : Z) : double := binary_normalize 53 1024 n 0 false.

Definition demo : option (heap * zskiplist) :=
  foldl (fun st '(sc, e, rnd) =>
    '(h, z) ← st; '(h, z, _, _) ← zslInsert (Lvl (Some 77%positive) 999) h z (of_Z sc) (str e) rnd; Some (h, z))
    (zslCreate (Lvl (Some 77%positive) 999) ∅)
    [(3, "c", [0; 65535]); (1, "a", [65535]); (2, "b", [0; 0; 0; 65535]); (2, "aa", [0; 65535]); (-5, "z", [65535])]%string.

Example demo_ranks :
  ('(h, z) ← demo; mapM (fun '(sc, e) => zslGetRank h z (of_Z sc) (str e))
     [(-5, "z"); (1, "a"); (2, "aa"); (2, "b"); (3, "c"); (3, "d")]%string) = Some [1; 2; 3; 4; 5; 0].
Proof. vm_compute. reflexivity. Qed.

Example demo_delete :
  ('(h, z) ← demo; '(r, _, h, z) ← zslDelete h z (of_Z 2) (str "b") false;
   rk ← zslGetRank h z (of_Z 3) (str "c"); Some (r, zlength z, zlevel z, rk)) = Some (1, 4, 2%nat, 4).
Proof. vm_compute. reflexivity. Qed.

Example demo_update :
  ('(h, z) ← demo; '(h, z, _, _) ← zslUpdateScore (Lvl None 0) h z (of_Z 2) (str "b") (of_Z 7) [65535];
   mapM (fun '(sc, e) => zslGetRank h z (of_Z sc) (str e)) [(-5, "z"); (1, "a"); (2, "aa"); (7, "b"); (3, "c")]%string)
  = Some [1; 2; 3; 5; 4].
Proof. vm_compute. reflexivity. Qed.

(** No element has a score between 2 and 3. *)
Example in_range_gap :
  ('(h, z) ← demo; b ← zslIsInRange h z (Range (of_Z 2) (of_Z 3) true true);
   x ← zslFirstInRange h z (Range (of_Z 2) (of_Z 3) true true); Some (b, x)) = Some (true, None).
Proof. vm_compute. reflexivity. Qed.

(** The score of "c" is 3. *)
Example rank_wrong_score : ('(h, z) ← demo; zslGetRank h z (of_Z 4) (str "c")) = Some 5.
Proof. vm_compute. reflexivity. Qed.

(** * The heap, seen field by field *)

(** What a node is apart from its levels: element, score, backward pointer, number of levels. *)
Definition shape (h : heap) (a : positive) : option (option bytes * double * option positive * nat) :=
  n ← h !! a; Some (ele n, score n, backward n, List.length (level n)).

Lemma lv_bound h a i l e s b n : lv h a i = Some l -> shape h a = Some (e, s, b, n) -> (i < n)%nat.
Proof.
  unfold lv, shape. destruct (h !! a) as [x|]; [|done]. cbn. intros H [= _ _ _ <-].
  by apply lookup_lt_Some in H.
Qed.

Lemma shape_lv h a i e s b n : shape h a = Some (e, s, b, n) -> (i < n)%nat -> is_Some (lv h a i).
Proof.
  unfold lv, shape. destruct (h !! a) as [x|]; [|done]. cbn. intros [= _ _ _ <-] H. by apply lookup_lt_is_Some.
Qed.

Lemma shape_node h a e s b n : shape h a = Some (e, s, b, n) ->
  exists x, h !! a = Some x /\ ele x = e /\ score x = s /\ backward x = b /\ List.length (level x) = n.
Proof. unfold shape. destruct (h !! a) as [x|]; [|done]. cbn. intros [= <- <- <- <-]. by exists x. Qed.

Lemma lv_node h a x i : h !! a = Some x -> lv h a i = level x !! i.
Proof. unfold lv. intros ->. done. Qed.

(** Reads after a write or a release of the node at [a]. *)
Ltac at_addr c a E :=
  unfold lv, shape; destruct (decide (c = a)) as [->|];
  [rewrite ?lookup_insert_eq, ?lookup_delete_eq, ?E | rewrite ?lookup_insert_ne, ?lookup_delete_ne by done]; done.

Lemma set_lv_spec h a i l l0 : lv h a i = Some l0 ->
  exists h', set_lv h a i l = Some h' /\ (forall b, shape h' b = shape h b) /\
    (forall b j, lv h' b j = if decide (b = a /\ j = i) then Some l else lv h b j).
Proof.
  unfold lv, set_lv. destruct (h !! a) as [n|] eqn:E; [|done]. cbn. intros El. rewrite El. cbn.
  eexists. split; [done|]. split; intros b.
  - unfold shape. destruct (decide (b = a)) as [->|Hb]; [|by rewrite lookup_insert_ne by done].
    rewrite lookup_insert_eq, E. cbn. by rewrite length_insert.
  - intros j. destruct (decide (b = a)) as [->|Hb]; [|by rewrite lookup_insert_ne, decide_False by (done || by intros [])].
    rewrite lookup_insert_eq, E. cbn. destruct (decide (j = i)) as [->|Hj].
    + rewrite list_lookup_insert_eq by (by eapply lookup_lt_Some). by rewrite decide_True.
    + rewrite list_lookup_insert_ne by done. by rewrite decide_False by (by intros []).
Qed.

Lemma set_forward_spec h a i p l0 : lv h a i = Some l0 ->
  exists h', set_forward h a i p = Some h' /\ (forall b, shape h' b = shape h b) /\
    (forall b j, lv h' b j = if decide (b = a /\ j = i) then Some (Lvl p (span l0)) else lv h b j).
Proof. intros E. unfold set_forward. rewrite E. by eapply set_lv_spec. Qed.

Lemma set_span_spec h a i s l0 : lv h a i = Some l0 ->
  exists h', set_span h a i s = Some h' /\ (forall b, shape h' b = shape h b) /\
    (forall b j, lv h' b j = if decide (b = a /\ j = i) then Some (Lvl (forward l0) s) else lv h b j).
Proof. intros E. unfold set_span. rewrite E. by eapply set_lv_spec. Qed.

Lemma set_backward_spec h a p e s b n : shape h a = Some (e, s, b, n) ->
  exists h', set_backward h a p = Some h' /\ (forall c j, lv h' c j = lv h c j) /\
    (forall c, shape h' c = if decide (c = a) then Some (e, s, p, n) else shape h c).
Proof.
  intros Hs. destruct (shape_node _ _ _ _ _ _ Hs) as (x & E & <- & <- & _ & <-).
  unfold set_backward. rewrite E. cbn. eexists. split; [done|]. split; intros c; intros; at_addr c a E.
Qed.

Lemma set_score_spec h a p e s b n : shape h a = Some (e, s, b, n) ->
  exists h', set_score h a p = Some h' /\ (forall c j, lv h' c j = lv h c j) /\
    (forall c, shape h' c = if decide (c = a) then Some (e, p, b, n) else shape h c).
Proof.
  intros Hs. destruct (shape_node _ _ _ _ _ _ Hs) as (x & E & <- & _ & <- & <-).
  unfold set_score. rewrite E. cbn. eexists. split; [done|]. split; intros c; intros; at_addr c a E.
Qed.

Lemma zslFreeNode_spec h a : is_Some (shape h a) ->
  exists h', zslFreeNode h a = Some h' /\
    (forall c j, lv h' c j = if decide (c = a) then None else lv h c j) /\
    (forall c, shape h' c = if decide (c = a) then None else shape h c).
Proof.
  unfold shape at 1, zslFreeNode. destruct (h !! a) as [x|] eqn:E; cbn; [intros _|by intros []].
  eexists. split; [done|]. split; intros c; intros; at_addr c a E.
Qed.

Lemma zslCreateNode_spec g h lvl sc el h' a : zslCreateNode g h lvl sc el = (h', a) ->
  shape h a = None /\
  (forall c, shape h' c = if decide (c = a) then Some (el, sc, forward g, lvl) else shape h c) /\
  (forall c j, lv h' c j = if decide (c = a) then (if decide (j < lvl)%nat then Some g else None) else lv h c j).
Proof.
  unfold zslCreateNode. intros [= <- <-]. set (a := fresh (dom h)).
  assert (h !! a = None) as Hn by (apply not_elem_of_dom, is_fresh).
  split; [by unfold shape; rewrite Hn|]. split.
  - intros c. unfold shape. destruct (decide (c = a)) as [->|]; [|by rewrite lookup_insert_ne].
    rewrite lookup_insert_eq. cbn. by rewrite length_replicate.
  - intros c j. unfold lv. destruct (decide (c = a)) as [->|]; [|by rewrite lookup_insert_ne].
    rewrite lookup_insert_eq. cbn. destruct (decide (j < lvl)%nat).
    + by apply lookup_replicate_2.
    + apply lookup_ge_None_2. rewrite length_replicate. lia.
Qed.

(** A pass over some levels, each iteration of which works on its own level only. *)
Definition level_step (f : heap -> nat -> option heap) (h : heap) (i : nat) (G : positive -> option zskiplistLevel) : Prop :=
  forall h1, (forall b, shape h1 b = shape h b) -> (forall b, lv h1 b i = lv h b i) ->
  exists h2, f h1 i = Some h2 /\ (forall b, shape h2 b = shape h b) /\
    (forall b j, lv h2 b j = if decide (j = i) then G b else lv h1 b j).

Lemma for_levels_spec f h (G : nat -> positive -> option zskiplistLevel) n : forall a h1,
  (forall i, (a <= i < a + n)%nat -> level_step f h i (G i)) ->
  (forall b, shape h1 b = shape h b) -> (forall b i, (a <= i)%nat -> lv h1 b i = lv h b i) ->
  exists h', for_levels (seq a n) f h1 = Some h' /\ (forall b, shape h' b = shape h b) /\
    (forall b j, lv h' b j = if decide (a <= j < a + n)%nat then G j b else lv h1 b j).
Proof.
  induction n as [|n IH]; intros a h1 Hf Hs Hl; cbn.
  - exists h1. split_and!; [done..|]. intros b j. by rewrite decide_False by lia.
  - destruct (Hf a ltac:(lia) h1 Hs ltac:(auto)) as (h2 & -> & Hs2 & Hl2). cbn.
    destruct (IH (S a) h2) as (h' & -> & Hs' & Hl').
    + intros i Hi. apply Hf. lia.
    + done.
    + intros b i Hi. rewrite Hl2, decide_False by lia. apply Hl. lia.
    + exists h'. split_and!; [done..|]. intros b j. rewrite Hl', Hl2.
      destruct (decide (j = a)) as [->|]; [by rewrite decide_False, decide_True by lia|].
      destruct (decide (S a <= j < S a + n)%nat); [by rewrite decide_True by lia|by rewrite decide_False by lia].
Qed.

(** * The representation invariant *)

(** A skip list holds a list of items; the header is item 0 of [all_items]. *)
Record item := Item { iaddr : positive; iscore : double; iele : option bytes; iheight : nat }.

Definition hdr (z : zskiplist) : item := Item (header z) dzero None ZSKIPLIST_MAXLEVEL.
Definition all_items (z : zskiplist) (items : list item) : list item := hdr z :: items.
#[global] Arguments all_items : simpl never.

(** The level [l] of position [p] is right at level [i]: it leads to the next position of height
    above [i] and its span is the distance; without one it is NULL and spans the rest of the list. *)
Definition is_next (all : list item) (i p : nat) (l : zskiplistLevel) : Prop :=
  match forward l with
  | None =>
      (forall q w, (p < q)%nat -> all !! q = Some w -> (iheight w <= i)%nat) /\
      span l = Z.of_nat (List.length all) - 1 - Z.of_nat p
  | Some f =>
      exists q w, (p < q)%nat /\ all !! q = Some w /\ iaddr w = f /\ (i < iheight w)%nat /\
        span l = Z.of_nat q - Z.of_nat p /\
        forall q' w', (p < q' < q)%nat -> all !! q' = Some w' -> (iheight w' <= i)%nat
  end.

(** The backward pointer of position [p]: the header is never pointed to. *)
Definition back (all : list item) (p : nat) : option positive :=
  match p with
  | S (S _ as q) => iaddr <$> all !! q
  | _ => None
  end.

Record zsl_rep (h : heap) (z : zskiplist) (items : list item) : Prop := {
  rep_shape p w : all_items z items !! p = Some w ->
    shape h (iaddr w) = Some (iele w, iscore w, back (all_items z items) p, iheight w);
  rep_next p w i : all_items z items !! p = Some w -> (i < iheight w)%nat -> (i < zlevel z)%nat ->
    exists l, lv h (iaddr w) i = Some l /\ is_next (all_items z items) i p l;
  rep_unused i : (zlevel z <= i < ZSKIPLIST_MAXLEVEL)%nat -> exists sp, lv h (header z) i = Some (Lvl None sp);
  rep_addrs : NoDup (iaddr <$> all_items z items);
  rep_heights p w : items !! p = Some w -> (1 <= iheight w <= zlevel z)%nat;
  rep_level : (1 <= zlevel z <= ZSKIPLIST_MAXLEVEL)%nat;
  rep_eles p w : items !! p = Some w -> is_Some (iele w);
  rep_length : zlength z = zlen items;
  rep_tail : tail z = iaddr <$> list.last items
}.

(** The level of the list is the height of one of its nodes. *)
Definition top_ok (z : zskiplist) (items : list item) : Prop :=
  zlevel z = 1%nat \/ exists p w, items !! p = Some w /\ iheight w = zlevel z.

(** Position [q] is the last one up to [k] whose height is above [i]. *)
Definition is_pred (all : list item) (i k q : nat) (v : item) : Prop :=
  (q <= k)%nat /\ all !! q = Some v /\ (i < iheight v)%nat /\
  forall q' v', (q < q' <= k)%nat -> all !! q' = Some v' -> (iheight v' <= i)%nat.

(** The array [update] (with [rank]) of the gap after position [k]. *)
Definition update_ok (all : list item) (k n : nat) (update : list (positive * Z)) : Prop :=
  forall i, (i < n)%nat -> exists q v, update !! i = Some (iaddr v, Z.of_nat q) /\ is_pred all i k q v.

Lemma item_inj (l : list item) p q v w : NoDup (iaddr <$> l) -> l !! p = Some v -> l !! q = Some w ->
  iaddr v = iaddr w -> p = q /\ v = w.
Proof.
  intros Hnd Hv Hw E. enough (p = q) as -> by naive_solver.
  eapply NoDup_lookup; [exact Hnd|rewrite list_lookup_fmap, Hv; done|].
  rewrite list_lookup_fmap, Hw. cbn. by rewrite E.
Qed.

Section Rep.
Context (h : heap) (z : zskiplist) (items : list item) (Hrep : zsl_rep h z items).
#[local] Abbreviation all := (all_items z items).
#[local] Set Default Proof Using "Hrep".

Lemma rep_inj p q v w : all !! p = Some v -> all !! q = Some w -> iaddr v = iaddr w -> p = q /\ v = w.
Proof. apply item_inj, (rep_addrs _ _ _ Hrep). Qed.

Lemma rep_fuel : (List.length all <= map_size h)%nat.
Proof.
  assert (list_to_set (iaddr <$> all) ⊆ dom h) as Hsub.
  { intros a. rewrite elem_of_list_to_set, list_elem_of_fmap. intros (w & -> & Hw).
    apply list_elem_of_lookup in Hw as [p Hp]. apply (rep_shape _ _ _ Hrep) in Hp.
    apply shape_node in Hp as (x & Hx & _). apply elem_of_dom. eauto. }
  apply subseteq_size in Hsub. rewrite size_list_to_set in Hsub by apply (rep_addrs _ _ _ Hrep).
  rewrite size_dom in Hsub. by rewrite length_fmap in Hsub.
Qed.

Lemma all_height p w : all !! p = Some w -> (1 <= iheight w)%nat.
Proof.
  destruct p as [|p]; unfold all_items; cbn; [intros [= <-]; cbn; unfold ZSKIPLIST_MAXLEVEL; lia|].
  intros H. by apply (rep_heights _ _ _ Hrep) in H as [].
Qed.

Section Search.
Context (cond : Z -> Z -> positive -> option bool) (wrap : Z -> Z) (P : nat -> item -> bool).
Context (Hcond : forall q w tr sp, (0 < q)%nat -> all !! q = Some w -> tr + sp = Z.of_nat q ->
  cond tr sp (iaddr w) = Some (P q w)).
Context (Hwrap : forall q, (q < List.length all)%nat -> wrap (Z.of_nat q) = Z.of_nat q).
#[local] Set Default Proof Using "Hrep Hcond Hwrap".

Definition crossed (n p p' : nat) : Prop :=
  forall q v, (p < q <= p')%nat -> all !! q = Some v -> (n <= iheight v)%nat -> P q v = true.

Lemma advance_spec fuel : forall p w i, all !! p = Some w -> (i < iheight w)%nat -> (i < zlevel z)%nat ->
  (List.length all <= p + S fuel)%nat ->
  exists p' w', advance fuel h cond wrap i (iaddr w) (Z.of_nat p) = Some (iaddr w', Z.of_nat p') /\
    (p <= p')%nat /\ all !! p' = Some w' /\ (i < iheight w')%nat /\ crossed (S i) p p' /\
    (forall q v, (p' < q)%nat -> all !! q = Some v -> (i < iheight v)%nat ->
      (forall q' v', (p' < q' < q)%nat -> all !! q' = Some v' -> (iheight v' <= i)%nat) -> P q v = false).
Proof.
  induction fuel as [|fuel IH]; intros p w i Hp Hi Hz Hf;
    destruct (rep_next _ _ _ Hrep p w i Hp Hi Hz) as (l & El & Hn); cbn [advance]; rewrite El; cbn;
    unfold is_next in Hn; destruct (forward l) as [f|].
  - destruct Hn as (q & v & Hpq & Hq & _). apply lookup_lt_Some in Hq. lia.
  - exists p, w. split_and!; [done..|intros ??; lia|]. intros q v Hq Hv Hh. destruct Hn as [Hn _].
    specialize (Hn q v Hq Hv). lia.
  - destruct Hn as (q & v & Hpq & Hq & <- & Hiv & Hsp & Hb).
    rewrite (Hcond q v) by (done || lia). cbn. destruct (P q v) eqn:EP.
    + replace (Z.of_nat p + span l) with (Z.of_nat q) by lia.
      rewrite Hwrap by (by apply lookup_lt_Some in Hq).
      destruct (IH q v i Hq Hiv Hz ltac:(lia)) as (p' & w' & E & Hle & Hp' & Hi' & Hc & Hs).
      exists p', w'. split_and!; [done|lia|done..| |done]. intros q' v' Hq' Hv' Hh'.
      destruct (decide (q' = q)) as [->|]; [congruence|].
      destruct (decide (q' < q)%nat); [specialize (Hb q' v' ltac:(lia) Hv'); lia|]. eapply Hc; [|done..]. lia.
    + exists p, w. split_and!; [done..|intros ??; lia|]. intros q' v' Hq' Hv' Hh' Hbet.
      destruct (decide (q' = q)) as [->|]; [congruence|].
      destruct (decide (q' < q)%nat); [specialize (Hb q' v' ltac:(lia) Hv')|specialize (Hbet q v ltac:(lia) Hq)]; lia.
  - exists p, w. split_and!; [done..|intros ??; lia|]. intros q v Hq Hv Hh. destruct Hn as [Hn _].
    specialize (Hn q v Hq Hv). lia.
Qed.

(** The levels below [n], from position [p]: the gap found does not depend on the heights. *)
Lemma zsl_search_spec n : forall p w, (n <= zlevel z)%nat -> all !! p = Some w -> (n <= iheight w)%nat ->
  exists p' w' update, search n h cond wrap (iaddr w) (Z.of_nat p) = Some (iaddr w', Z.of_nat p', update) /\
    (p <= p')%nat /\ all !! p' = Some w' /\ List.length update = n /\ update_ok all p' n update /\ crossed n p p' /\
    ((1 <= n)%nat -> forall v, all !! S p' = Some v -> P (S p') v = false) /\
    (p' = p \/ P p' w' = true).
Proof.
  induction n as [|i IH]; intros p w Hz Hp Hh; cbn [search].
  { exists p, w, []. split_and!; [done..|intros ??; lia|intros ??; lia|lia|by left]. }
  destruct (advance_spec (map_size h) p w i Hp ltac:(lia) ltac:(lia) ltac:(pose proof rep_fuel; lia))
    as (p1 & w1 & -> & Hle1 & Hp1 & Hi1 & Hc1 & Hs1). cbn.
  destruct (IH p1 w1 ltac:(lia) Hp1 ltac:(lia)) as (p' & w' & update & -> & Hle & Hp' & Hlen & Hu & Hc & Hs & HP). cbn.
  exists p', w', (update ++ [(iaddr w1, Z.of_nat p1)]). split_and!; [done|lia|done|rewrite length_app; cbn; lia|..].
  - intros j Hj. destruct (decide (j = i)) as [->|].
    + exists p1, w1. split; [by rewrite lookup_app_r, Hlen, Nat.sub_diag by lia|].
      split_and!; [done..|]. intros q' v' Hq' Hv'.
      revert v' Hq' Hv'. induction q' as [q' IHq] using lt_wf_ind. intros v' Hq' Hv'.
      destruct (decide (iheight v' <= i)%nat) as [|Hgt]; [done|]. exfalso.
      assert (P q' v' = true) as E1 by (eapply Hc; [lia|done|lia]).
      rewrite (Hs1 q' v') in E1; [done|lia|done|lia|]. intros q2 v2 Hq2 Hv2. by apply (IHq q2); [lia|lia|].
    + rewrite lookup_app_l by lia. apply Hu. lia.
  - intros q v Hq Hv Hhv. destruct (decide (q <= p1)%nat); [eapply Hc1; [|done..]; lia|].
    eapply Hc; [|done|lia]. lia.
  - intros _ v Hv. destruct i as [|i]; [|apply Hs; [lia|done]].
    assert (p' = p1) as ->.
    { destruct (Nat.eq_dec p' p1) as [|Hne]; [done|]. exfalso.
      destruct (all !! S p1) as [v1|] eqn:Hv1; [|apply lookup_ge_None in Hv1; apply lookup_lt_Some in Hp'; lia].
      assert (P (S p1) v1 = true) as E1 by (eapply Hc; [lia|done|lia]).
      rewrite (Hs1 (S p1) v1) in E1; [done|lia|done|pose proof (all_height _ _ Hv1); lia|lia]. }
    apply (Hs1 (S p1) v); [lia|done|pose proof (all_height _ _ Hv); lia|lia].
  - destruct HP as [->|HP]; [|by right]. destruct (decide (p1 = p)); [by left|]. right.
    assert (w' = w1) as -> by congruence. eapply Hc1; [|done|lia]. lia.
Qed.

End Search.
End Rep.

(** * A list and the list with one more item after position [k] *)

Section Gap.
Context (all all' : list item) (k : nat) (x : item).
Context (lk_le : forall q, (q <= k)%nat -> all' !! q = all !! q).
Context (lk_eq : all' !! S k = Some x).
Context (lk_gt : forall q, (k < q)%nat -> all' !! S q = all !! q).
Context (Hlen : List.length all' = S (List.length all)).
#[local] Set Default Proof Using "All".

(** A position of the longer list after the new one comes from the shorter list. *)
Lemma lk_pred q : (S k < q)%nat -> exists q', q = S q' /\ (k < q')%nat /\ all' !! q = all !! q'.
Proof. destruct q as [|q]; [lia|]. intros H. exists q. split_and!; [done|lia|]. apply lk_gt. lia. Qed.

Lemma next_new i q v l : is_pred all i k q v -> is_next all i q l ->
  is_next all' i (S k) (Lvl (forward l) (span l - (Z.of_nat k - Z.of_nat q))).
Proof.
  intros (Hq & Hv & Hi & Hb) Hn. unfold is_next in *; cbn. destruct (forward l) as [f|].
  - destruct Hn as (r & w & Hr & Hw & Hf & Hiw & Hs & Hbet).
    assert (k < r)%nat.
    { destruct (decide (k < r)%nat); [done|]. specialize (Hb r w ltac:(lia) Hw). lia. }
    exists (S r), w. rewrite lk_gt by done. split_and!; [lia|done..|lia|].
    intros q' w' Hq' Hw'. destruct (lk_pred q' ltac:(lia)) as (q2 & -> & H2 & E). rewrite E in Hw'.
    apply (Hbet q2); [lia|done].
  - destruct Hn as [Hn Hs]. split; [|lia]. intros q' w' Hq' Hw'.
    destruct (lk_pred q' ltac:(lia)) as (q2 & -> & H2 & E). rewrite E in Hw'. apply (Hn q2); [lia|done].
Qed.

Lemma next_low i q v : (i < iheight x)%nat -> is_pred all i k q v ->
  is_next all' i q (Lvl (Some (iaddr x)) (Z.of_nat k - Z.of_nat q + 1)).
Proof.
  intros Hx (Hq & Hv & Hi & Hb). unfold is_next; cbn. exists (S k), x. split_and!; [lia|done..|lia|].
  intros q' w' Hq' Hw'. rewrite lk_le in Hw' by lia. apply (Hb q'); [lia|done].
Qed.

Lemma next_high i q v l : (iheight x <= i)%nat -> is_pred all i k q v ->
  is_next all i q l <-> is_next all' i q (Lvl (forward l) (span l + 1)).
Proof.
  intros Hx (Hq & Hv & Hi & Hb). unfold is_next; cbn. destruct (forward l) as [f|]; split.
  - intros (r & w & Hr & Hw & Hf & Hiw & Hs & Hbet).
    assert (k < r)%nat.
    { destruct (decide (k < r)%nat); [done|]. specialize (Hb r w ltac:(lia) Hw). lia. }
    exists (S r), w. rewrite lk_gt by done. split_and!; [lia|done..|lia|].
    intros q' w' Hq' Hw'. destruct (decide (q' <= k)%nat).
    { rewrite lk_le in Hw' by lia. apply (Hb q'); [lia|done]. }
    destruct (decide (q' = S k)) as [->|]; [congruence|].
    destruct (lk_pred q' ltac:(lia)) as (q2 & -> & H2 & E). rewrite E in Hw'. apply (Hbet q2); [lia|done].
  - intros (r & w & Hr & Hw & Hf & Hiw & Hs & Hbet).
    destruct (decide (r <= k)%nat). { rewrite lk_le in Hw by lia. specialize (Hb r w ltac:(lia) Hw). lia. }
    destruct (decide (r = S k)) as [->|]; [replace w with x in * by congruence; lia|].
    destruct (lk_pred r ltac:(lia)) as (q2 & -> & H2 & E). exists q2, w. rewrite <- E. split_and!; [lia|done..|lia|].
    intros q' w' Hq' Hw'. destruct (decide (q' <= k)%nat); [apply (Hb q'); [lia|done]|].
    rewrite <- lk_gt in Hw' by lia. apply (Hbet (S q')); [lia|done].
  - intros [Hn Hs]. split; [|lia]. intros q' w' Hq' Hw'.
    destruct (decide (q' <= k)%nat). { rewrite lk_le in Hw' by lia. apply (Hn q'); [lia|done]. }
    destruct (decide (q' = S k)) as [->|]; [congruence|].
    destruct (lk_pred q' ltac:(lia)) as (q2 & -> & H2 & E). rewrite E in Hw'. apply (Hn q2); [lia|done].
  - intros [Hn Hs]. split; [|lia]. intros q' w' Hq' Hw'.
    destruct (decide (q' <= k)%nat). { rewrite <- lk_le in Hw' by lia. apply (Hn q'); [lia|done]. }
    rewrite <- lk_gt in Hw' by lia. apply (Hn (S q')); [lia|done].
Qed.

Lemma next_after i p l : (k < p)%nat -> is_next all i p l <-> is_next all' i (S p) l.
Proof.
  intros Hp. unfold is_next. destruct (forward l) as [f|]; split.
  - intros (r & w & Hr & Hw & Hf & Hiw & Hs & Hbet). exists (S r), w. rewrite lk_gt by lia.
    split_and!; [lia|done..|lia|]. intros q' w' Hq' Hw'.
    destruct (lk_pred q' ltac:(lia)) as (q2 & -> & H2 & E). rewrite E in Hw'. apply (Hbet q2); [lia|done].
  - intros (r & w & Hr & Hw & Hf & Hiw & Hs & Hbet). destruct (lk_pred r ltac:(lia)) as (q2 & -> & H2 & E).
    exists q2, w. rewrite <- E. split_and!; [lia|done..|lia|]. intros q' w' Hq' Hw'.
    rewrite <- lk_gt in Hw' by lia. apply (Hbet (S q')); [lia|done].
  - intros [Hn Hs]. split; [|lia]. intros q' w' Hq' Hw'.
    destruct (lk_pred q' ltac:(lia)) as (q2 & -> & H2 & E). rewrite E in Hw'. apply (Hn q2); [lia|done].
  - intros [Hn Hs]. split; [|lia]. intros q' w' Hq' Hw'. rewrite <- lk_gt in Hw' by lia.
    apply (Hn (S q')); [lia|done].
Qed.

(** Before the gap, a level that is not the one to update leads to a position before the gap. *)
Lemma next_before i p w q v l : (p <= k)%nat -> all !! p = Some w -> (i < iheight w)%nat -> is_pred all i k q v -> p <> q ->
  is_next all i p l <-> is_next all' i p l.
Proof.
  intros Hpk Hp Hi (Hq & Hv & Hiv & Hb) Hne.
  assert (p < q)%nat as Hpq.
  { destruct (decide (p < q)%nat); [done|]. specialize (Hb p w ltac:(lia) Hp). lia. }
  unfold is_next. destruct (forward l) as [f|]; split.
  - intros (r & u & Hr & Hu & Hf & Hiw & Hs & Hbet).
    assert (r <= q)%nat.
    { destruct (decide (r <= q)%nat); [done|]. specialize (Hbet q v ltac:(lia) Hv). lia. }
    exists r, u. rewrite lk_le by lia. split_and!; [done..|]. intros q' w' Hq' Hw'.
    rewrite lk_le in Hw' by lia. apply (Hbet q'); [lia|done].
  - intros (r & u & Hr & Hu & Hf & Hiw & Hs & Hbet).
    assert (r <= q)%nat.
    { destruct (decide (r <= q)%nat); [done|]. rewrite <- lk_le in Hv by lia. specialize (Hbet q v ltac:(lia) Hv). lia. }
    exists r, u. rewrite <- lk_le by lia. split_and!; [done..|]. intros q' w' Hq' Hw'.
    rewrite <- lk_le in Hw' by lia. apply (Hbet q'); [lia|done].
  - intros [Hn _]. specialize (Hn q v ltac:(lia) Hv). lia.
  - intros [Hn _]. rewrite <- lk_le in Hv by lia. specialize (Hn q v ltac:(lia) Hv). lia.
Qed.

(** Removing the item: the level of its predecessor takes over its forward pointer. *)
Lemma next_unlink i q v l : (i < iheight x)%nat -> is_pred all i k q v -> is_next all' i (S k) l ->
  is_next all i q (Lvl (forward l) (span l + (Z.of_nat k - Z.of_nat q))).
Proof.
  intros Hx (Hq & Hv & Hi & Hb). unfold is_next; cbn. destruct (forward l) as [f|].
  - intros (r & w & Hr & Hw & Hf & Hiw & Hs & Hbet). destruct (lk_pred r ltac:(lia)) as (q2 & -> & H2 & E).
    exists q2, w. rewrite <- E. split_and!; [lia|done..|lia|]. intros q' w' Hq' Hw'.
    destruct (decide (q' <= k)%nat); [apply (Hb q'); [lia|done]|].
    rewrite <- lk_gt in Hw' by lia. apply (Hbet (S q')); [lia|done].
  - intros [Hn Hs]. split; [|lia]. intros q' w' Hq' Hw'.
    destruct (decide (q' <= k)%nat); [apply (Hb q'); [lia|done]|].
    rewrite <- lk_gt in Hw' by lia. apply (Hn (S q')); [lia|done].
Qed.

(** The forward pointer of the predecessor at level [i] is the item exactly when it has that level. *)
Lemma next_is_new i q v l : NoDup (iaddr <$> all') -> is_pred all i k q v -> is_next all' i q l ->
  forward l = Some (iaddr x) <-> (i < iheight x)%nat.
Proof.
  intros Hnd (Hq & Hv & Hi & Hb) Hn. unfold is_next in Hn. destruct (forward l) as [f|].
  - destruct Hn as (r & w & Hr & Hw & <- & Hiw & Hs & Hbet). split.
    + intros [= E]. enough (r = S k) as -> by congruence.
      eapply NoDup_lookup; [exact Hnd|rewrite list_lookup_fmap, Hw; done|].
      rewrite list_lookup_fmap, lk_eq. cbn. by rewrite E.
    + intros Hx. assert (r = S k) as -> by
        (destruct (decide (r <= k)%nat);
         [rewrite lk_le in Hw by lia; specialize (Hb r w ltac:(lia) Hw); lia|];
         destruct (decide (r = S k)); [done|]; specialize (Hbet (S k) x ltac:(lia) lk_eq); lia).
      congruence.
  - split; [done|]. intros Hx. destruct Hn as [Hn _]. specialize (Hn (S k) x ltac:(lia) lk_eq). lia.
Qed.

End Gap.

(** * Insertion *)

Definition ins (k : nat) (x : item) (items : list item) : list item := take k items ++ x :: drop k items.

Lemma ins_lookup k x z z' items : (k <= List.length items)%nat -> header z' = header z ->
  (forall q, (q <= k)%nat -> all_items z' (ins k x items) !! q = all_items z items !! q) /\
  all_items z' (ins k x items) !! S k = Some x /\
  (forall q, (k < q)%nat -> all_items z' (ins k x items) !! S q = all_items z items !! q) /\
  List.length (all_items z' (ins k x items)) = S (List.length (all_items z items)).
Proof.
  intros Hk Hz. unfold all_items, ins, hdr. rewrite Hz.
  assert (List.length (take k items) = k) as Hl by (rewrite length_take; lia). split_and!.
  - intros [|q] Hq; simpl; [done|]. rewrite lookup_app_l, lookup_take_lt by lia. done.
  - simpl. by rewrite lookup_app_r, Hl, Nat.sub_diag by lia.
  - intros [|q] Hq; simpl; [lia|]. rewrite lookup_app_r, Hl by lia. replace (S q - k)%nat with (S (q - k))%nat by lia. simpl.
    rewrite lookup_drop. f_equal. lia.
  - cbn. rewrite length_app, Hl. cbn. rewrite length_drop. lia.
Qed.

Lemma ins_perm k x z z' items : header z' = header z ->
  all_items z' (ins k x items) ≡ₚ x :: all_items z items.
Proof.
  intros Hz. unfold all_items, ins, hdr. rewrite Hz.
  etrans; [apply perm_skip; symmetry; apply Permutation_middle|]. rewrite take_drop. apply perm_swap.
Qed.

Lemma next0 (all : list item) p l : (forall q w, all !! q = Some w -> (1 <= iheight w)%nat) ->
  is_next all 0 p l -> forward l = iaddr <$> all !! S p.
Proof.
  intros Hh Hn. unfold is_next in Hn. destruct (forward l) as [f|].
  - destruct Hn as (q & w & Hq & Hw & <- & _ & _ & Hb). enough (q = S p) as -> by by rewrite Hw.
    destruct (decide (q = S p)); [done|]. exfalso. destruct (all !! S p) as [v|] eqn:Hv.
    + specialize (Hb (S p) v ltac:(lia) Hv). pose proof (Hh _ _ Hv). lia.
    + apply lookup_ge_None in Hv. apply lookup_lt_Some in Hw. lia.
  - destruct Hn as [Hn _]. destruct (all !! S p) as [v|] eqn:Hv; [|done].
    specialize (Hn (S p) v ltac:(lia) Hv). pose proof (Hh _ _ Hv). lia.
Qed.

Lemma pred0 h z items k q v : zsl_rep h z items -> is_pred (all_items z items) 0 k q v ->
  (k < List.length (all_items z items))%nat -> q = k.
Proof.
  intros Hr (Hq & _ & _ & Hb) Hk. destruct (decide (q = k)); [done|].
  destruct (lookup_lt_is_Some_2 (all_items z items) k Hk) as [w Hw].
  specialize (Hb k w ltac:(lia) Hw). pose proof (all_height _ _ _ Hr _ _ Hw). lia.
Qed.

(** The new levels: the header is the predecessor on each of them. *)
Lemma grow_rep h z items k lvl update : zsl_rep h z items -> (k < List.length (all_items z items))%nat ->
  List.length update = zlevel z -> update_ok (all_items z items) k (zlevel z) update -> (lvl <= ZSKIPLIST_MAXLEVEL)%nat ->
  exists h' update', grow h z lvl update =
      Some (h', Zsl (header z) (tail z) (zlength z) (Nat.max lvl (zlevel z)), update') /\
    zsl_rep h' (Zsl (header z) (tail z) (zlength z) (Nat.max lvl (zlevel z))) items /\
    update_ok (all_items z items) k (Nat.max lvl (zlevel z)) update' /\ (forall b, shape h' b = shape h b).
Proof.
  intros Hr Hk Hul Hu Hl. unfold grow. destruct (Nat.ltb_spec (zlevel z) lvl) as [Hgt|Hle].
  2: { rewrite Nat.max_r by done. destruct z; cbn. by exists h, update. }
  rewrite Nat.max_l by lia.
  destruct (for_levels_spec (fun h i => set_span h (header z) i (zlength z)) h
    (fun i b => if decide (b = header z) then Some (Lvl None (zlength z)) else lv h b i)
    (lvl - zlevel z) (zlevel z) h) as (h' & E' & Hs & Hlv).
  { intros i Hi h1 Hs1 Hl1. destruct (rep_unused _ _ _ Hr i ltac:(lia)) as [sp Esp].
    rewrite <- Hl1 in Esp. destruct (set_span_spec h1 (header z) i (zlength z) _ Esp) as (h2 & -> & Hs2 & Hl2).
    exists h2. split_and!; [done|intros b; by rewrite Hs2, Hs1|]. intros b j. rewrite Hl2.
    destruct (decide (j = i)) as [->|]; [|by rewrite decide_False by (by intros [])].
    destruct (decide (b = header z)) as [->|]; [by rewrite decide_True|by rewrite decide_False, Hl1 by (by intros [])]. }
  1, 2: done.
  rewrite E'. cbn.
  assert (all_items (Zsl (header z) (tail z) (zlength z) lvl) items = all_items z items) as Ea by done.
  assert (forall p w, items !! p = Some w -> (iheight w <= zlevel z)%nat) as Hh by
    (intros p w Hw; by apply (rep_heights _ _ _ Hr) in Hw as []).
  exists h'. eexists. split; [done|]. split_and!; [..|exact Hs].
  - destruct Hr as [R1 R2 R3 R4 R5 R6 R7 R8 R9].
    split; rewrite ?Ea; cbn [header tail zlength zlevel]; [| | |done| |lia|done..].
    + intros p w Hw. rewrite Hs. by apply R1.
    + intros p w i Hw Hi Hiz. rewrite Hlv. destruct (decide _) as [Hd|]; [|apply R2; [done..|lia]].
      destruct p as [|p]; [|apply Hh in Hw; lia]. injection Hw as <-. cbn. rewrite decide_True by done.
      eexists. split; [done|]. split; [|cbn; rewrite R8; unfold zlen, all_items; cbn; lia].
      intros [|q] w Hq Hw; [lia|]. apply Hh in Hw. lia.
    + intros i Hi. rewrite Hlv, decide_False by lia. apply R3. lia.
    + intros p w Hw. apply R5 in Hw. lia.
  - intros i Hi. destruct (decide (i < zlevel z)%nat).
    { rewrite lookup_app_l by lia. by apply Hu. }
    exists 0%nat, (hdr z). split.
    { rewrite lookup_app_r by lia. cbn. apply lookup_replicate_2. lia. }
    split_and!; [lia|done|cbn; lia|]. intros [|q] w Hq Hw; [lia|]. apply Hh in Hw. lia.
Qed.

Lemma link_level_spec update x h i u ri u0 r0 lu lx : update !! i = Some (u, ri) -> update !! 0%nat = Some (u0, r0) ->
  u <> x -> lv h u i = Some lu -> lv h x i = Some lx ->
  level_step (link_level update x) h i (fun b =>
    if decide (b = x) then Some (Lvl (forward lu) (u64 (span lu - u32 (r0 - ri))))
    else if decide (b = u) then Some (Lvl (Some x) (u32 (u32 (r0 - ri) + 1))) else lv h b i).
Proof.
  intros Hi H0 Hne Hu Hx h1 Hs1 Hl1. unfold link_level. rewrite Hi, H0. cbn. rewrite Hl1, Hu. cbn.
  destruct (set_forward_spec h1 x i (forward lu) lx ltac:(by rewrite Hl1)) as (h2 & -> & Hs2 & Hl2). cbn.
  destruct (set_forward_spec h2 u i (Some x) lu) as (h3 & -> & Hs3 & Hl3).
  { by rewrite Hl2, decide_False, Hl1 by (by intros []). } cbn.
  destruct (set_span_spec h3 x i (u64 (span lu - u32 (r0 - ri))) (Lvl (forward lu) (span lx))) as (h4 & -> & Hs4 & Hl4).
  { rewrite Hl3, decide_False by (intros []; congruence). by rewrite Hl2, decide_True. } cbn.
  destruct (set_span_spec h4 u i (u32 (u32 (r0 - ri) + 1)) (Lvl (Some x) (span lu))) as (h5 & -> & Hs5 & Hl5).
  { rewrite Hl4, decide_False by (by intros []). by rewrite Hl3, decide_True. }
  exists h5. split; [done|]. split; [intros b; by rewrite Hs5, Hs4, Hs3, Hs2, Hs1|].
  intros b j. rewrite Hl5, Hl4, Hl3, Hl2. cbn [forward].
  destruct (decide (j = i)) as [->|]; [|by rewrite !decide_False by (by intros [])].
  destruct (decide (b = x)) as [->|]; [rewrite decide_False by (intros []; congruence); by rewrite decide_True|].
  destruct (decide (b = u)) as [->|]; [by rewrite decide_True|].
  by rewrite !decide_False, Hl1 by (by intros []).
Qed.

Lemma bump_level_spec update h i u ri lu : update !! i = Some (u, ri) -> lv h u i = Some lu ->
  level_step (bump_level update) h i (fun b =>
    if decide (b = u) then Some (Lvl (forward lu) (u64 (span lu + 1))) else lv h b i).
Proof.
  intros Hi Hu h1 Hs1 Hl1. unfold bump_level. rewrite Hi. cbn. rewrite Hl1, Hu. cbn.
  destruct (set_span_spec h1 u i (u64 (span lu + 1)) lu ltac:(by rewrite Hl1)) as (h2 & -> & Hs2 & Hl2).
  exists h2. split; [done|]. split; [intros b; by rewrite Hs2, Hs1|]. intros b j. rewrite Hl2.
  destruct (decide (j = i)) as [->|]; [|by rewrite decide_False by (by intros [])].
  destruct (decide (b = u)) as [->|]; [by rewrite decide_True|by rewrite decide_False, Hl1 by (by intros [])].
Qed.

Section InsertAt.
Context (g : zskiplistLevel) (h : heap) (z : zskiplist) (items : list item) (Hr : zsl_rep h z items).
Context (k : nat) (Hk : (k <= List.length items)%nat) (Hsz : zlen items < 2 ^ 32 - 1).
Context (update : list (positive * Z)) (Hu : update_ok (all_items z items) k (zlevel z) update).
Context (lvl : nat) (Hlvl : (1 <= lvl <= zlevel z)%nat).
Context (x : positive) (sc : double) (el : bytes) (h1 : heap) (Hx : shape h x = None).
Context (Hs1 : forall c, shape h1 c = if decide (c = x) then Some (Some el, sc, forward g, lvl) else shape h c).
Context (Hl1 : forall c j, lv h1 c j = if decide (c = x) then (if decide (j < lvl)%nat then Some g else None) else lv h c j).
#[local] Abbreviation all := (all_items z items).
#[local] Abbreviation new := (Item x sc (Some el) lvl).
#[local] Abbreviation items' := (ins k new items).
#[local] Set Default Proof Using "Type*".

Lemma k_all : (k < List.length all)%nat.
Proof. unfold all_items. cbn. lia. Qed.

Lemma new_addr p w : all !! p = Some w -> iaddr w <> x.
Proof. intros Hw E. apply (rep_shape _ _ _ Hr) in Hw. rewrite E in Hw. congruence. Qed.

Lemma pos_range p w : all !! p = Some w -> 0 <= Z.of_nat p < 2 ^ 32 - 1.
Proof. intros Hw. apply lookup_lt_Some in Hw. unfold all_items in Hw. cbn in Hw. unfold zlen in Hsz. lia. Qed.

(** The predecessor on a level, its place in [update] and its level entry. *)
Lemma update_at i : (i < zlevel z)%nat -> exists q v l, update !! i = Some (iaddr v, Z.of_nat q) /\
  is_pred all i k q v /\ lv h1 (iaddr v) i = Some l /\ is_next all i q l /\ iaddr v <> x /\ 0 <= span l < 2 ^ 32.
Proof.
  intros Hi. destruct (Hu i Hi) as (q & v & E & Hp). pose proof Hp as (Hq & Hv & Hiv & _).
  destruct (rep_next _ _ _ Hr q v i Hv Hiv Hi) as (l & El & Hn). exists q, v, l.
  pose proof (new_addr q v Hv). rewrite Hl1, decide_False by done. split_and!; [done..| |].
  all: unfold is_next in Hn; pose proof (pos_range q v Hv); unfold zlen in Hsz; destruct (forward l).
  all: try (destruct Hn as (r & w & ? & Hw & ? & ? & ? & ?); pose proof (pos_range r w Hw); lia).
  all: destruct Hn as [_ ->]; apply lookup_lt_Some in Hv; unfold all_items in *; cbn in *; lia.
Qed.

(** The levels after the two loops. *)
Definition linked (i : nat) (b : positive) : option zskiplistLevel :=
  '(u, ri) ← update !! i;
  lu ← lv h1 u i;
  if decide (i < lvl)%nat then
    if decide (b = x) then Some (Lvl (forward lu) (span lu - (Z.of_nat k - ri)))
    else if decide (b = u) then Some (Lvl (Some x) (Z.of_nat k - ri + 1)) else lv h1 b i
  else if decide (b = u) then Some (Lvl (forward lu) (span lu + 1)) else lv h1 b i.

Lemma link_loops : exists h2 h3,
  for_levels (seq 0 lvl) (link_level update x) h1 = Some h2 /\
  for_levels (seq lvl (zlevel z - lvl)) (bump_level update) h2 = Some h3 /\
  (forall c, shape h3 c = shape h1 c) /\
  (forall b j, lv h3 b j = if decide (j < zlevel z)%nat then linked j b else lv h1 b j).
Proof.
  destruct (update_at 0 ltac:(lia)) as (q0 & v0 & l0 & E0 & Hp0 & _).
  rewrite (pred0 _ _ _ _ _ _ Hr Hp0 k_all) in E0.
  destruct (for_levels_spec (link_level update x) h1 linked lvl 0 h1) as (h2 & E2 & Hs2 & Hl2); [|done..|].
  { intros i Hi. destruct (update_at i ltac:(lia)) as (q & v & l & E & (Hq & Hp) & El & Hn & Hne & Hsp).
    pose proof k_all. unfold zlen in Hsz.
    assert (u32 (Z.of_nat k - Z.of_nat q) = Z.of_nat k - Z.of_nat q) as Ew by (apply uwrap_small; unfold urange; lia).
    intros ha Hsa Hla. destruct (link_level_spec update x h1 i _ _ _ _ l g E E0 Hne El) with (h1 := ha)
      as (h2 & E2 & Hs2 & Hl2); [by rewrite Hl1, decide_True, decide_True by (done || lia)|done..|].
    exists h2. split_and!; [done..|]. intros b j. rewrite Hl2. destruct (decide (j = i)) as [->|]; [|done].
    unfold linked. rewrite E. cbn. rewrite El. cbn. rewrite (decide_True (P := (i < lvl)%nat)) by lia. rewrite Ew.
    unfold is_next in Hn. destruct (decide (b = x)); [|destruct (decide (b = iaddr v)); [|done]]; do 2 f_equal.
    - apply uwrap_small. unfold urange. destruct (forward l).
      + destruct Hn as (r & w & Hr1 & Hw & _ & Hiw & -> & _). destruct Hp as (Hv & Hiv & Hb).
        pose proof (pos_range r w Hw). destruct (decide (r <= k)%nat); [specialize (Hb r w ltac:(lia) Hw); lia|lia].
      + destruct Hn as [_ ->]. unfold all_items in *. cbn in *. lia.
    - apply uwrap_small. unfold urange. lia. }
  destruct (for_levels_spec (bump_level update) h2 linked (zlevel z - lvl) lvl h2) as (h3 & E3 & Hs3 & Hl3); [|done..|].
  { intros i Hi. destruct (update_at i ltac:(lia)) as (q & v & l & E & (Hq & Hp) & El & Hn & Hne & Hsp).
    intros ha Hsa Hla. assert (lv h2 (iaddr v) i = Some l) as El2 by (by rewrite Hl2, decide_False by lia).
    destruct (bump_level_spec update h2 i _ _ l E El2 ha Hsa Hla) as (hb & Eb & Hsb & Hlb).
    exists hb. split_and!; [done..|]. intros b j. rewrite Hlb. destruct (decide (j = i)) as [->|]; [|done].
    unfold linked. rewrite E. cbn. rewrite El. cbn. rewrite (decide_False (P := (i < lvl)%nat)) by lia.
    rewrite Hl2, (decide_False (P := (0 <= i < 0 + lvl)%nat)) by lia. rewrite uwrap_small by (unfold urange; lia). done. }
  exists h2, h3. split_and!; [done..|intros c; by rewrite Hs3, Hs2|].
  intros b j. rewrite Hl3, Hl2. destruct (decide (j < zlevel z)%nat).
  - destruct (decide (j < lvl)%nat); [by rewrite decide_False, decide_True by lia|by rewrite decide_True by lia].
  - by rewrite !decide_False by lia.
Qed.

Context (z' : zskiplist) (Hz' : header z' = header z).
#[local] Abbreviation all' := (all_items z' items').
#[local] Set Default Proof Using "Type*".

Lemma pos_cases p w : all' !! p = Some w ->
  ((p <= k)%nat /\ all !! p = Some w) \/ (p = S k /\ w = new) \/ (exists q, p = S q /\ (k < q)%nat /\ all !! q = Some w).
Proof.
  destruct (ins_lookup k new z z' items Hk Hz') as (Lle & Leq & Lgt & _). intros Hw.
  destruct (decide (p <= k)%nat); [left; split; [done|by rewrite <- Lle]|]. right.
  destruct (decide (p = S k)) as [->|]; [left; split; [done|congruence]|]. right.
  destruct p as [|q]; [lia|]. exists q. rewrite <- Lgt by lia. split_and!; [done|lia|done].
Qed.

Lemma linked_next p w i : all' !! p = Some w -> (i < iheight w)%nat -> (i < zlevel z)%nat ->
  exists l, linked i (iaddr w) = Some l /\ is_next all' i p l.
Proof.
  intros Hw Hi Hz. destruct (update_at i Hz) as (q & v & l & E & Hp & El & Hn & Hne & Hsp).
  destruct (ins_lookup k new z z' items Hk Hz') as (Lle & Leq & Lgt & Llen). pose proof Hp as (Hq & Hv & _).
  unfold linked. rewrite E. cbn. rewrite El. cbn.
  destruct (pos_cases p w Hw) as [[Hpk Hw']|[[-> ->]|(p' & -> & Hpk & Hw')]].
  - rewrite (decide_False (P := iaddr w = x)) by (by eapply new_addr).
    destruct (decide (p = q)) as [->|Hpq].
    + assert (w = v) as -> by congruence. rewrite !(decide_True (P := iaddr v = iaddr v)) by done.
      destruct (decide (i < lvl)%nat); eexists; (split; [done|]).
      * by eapply (next_low all all' k new).
      * eapply (next_high all all' k new); first [done|cbn; lia].
    + rewrite !(decide_False (P := iaddr w = iaddr v)) by
        (intros E2; apply Hpq; by destruct (rep_inj _ _ _ Hr p q w v Hw' Hv E2)).
      destruct (rep_next _ _ _ Hr p w i Hw' Hi Hz) as (l2 & El2 & Hn2).
      exists l2. rewrite Hl1, !(decide_False (P := iaddr w = x)) by (by eapply new_addr). split; [by destruct (decide _)|].
      by eapply (next_before all all' k new).
  - cbn in *. rewrite (decide_True (P := (i < lvl)%nat)) by done. rewrite decide_True by done.
    eexists. split; [done|]. by eapply (next_new all all' k new).
  - rewrite (decide_False (P := iaddr w = x)) by (by eapply new_addr).
    rewrite !(decide_False (P := iaddr w = iaddr v)) by
      (intros E2; destruct (rep_inj _ _ _ Hr p' q w v Hw' Hv E2); lia).
    destruct (rep_next _ _ _ Hr p' w i Hw' Hi Hz) as (l2 & El2 & Hn2).
    exists l2. rewrite Hl1, !(decide_False (P := iaddr w = x)) by (by eapply new_addr). split; [by destruct (decide _)|].
    by apply (next_after all all' k new).
Qed.

(** The backward pointers after the insertion, from those before it. *)
Lemma back_next p w : all' !! p = Some w -> shape h1 (iaddr w) =
  Some (iele w, iscore w, if decide (p = S k) then forward g else if decide (p = S (S k)) then back all (S k) else back all' p, iheight w).
Proof.
  destruct (ins_lookup k new z z' items Hk Hz') as (Lle & Leq & Lgt & Llen).
  intros Hw. rewrite Hs1. destruct (pos_cases p w Hw) as [[Hpk Hw']|[[-> ->]|(q & -> & Hpk & Hw')]].
  - rewrite decide_False by (by eapply new_addr). rewrite (rep_shape _ _ _ Hr p w Hw'). rewrite !decide_False by lia.
    do 3 f_equal. destruct p as [|[|p]]; [done..|]. cbn. by rewrite Lle by lia.
  - by rewrite !decide_True by done.
  - rewrite decide_False by (by eapply new_addr). rewrite (rep_shape _ _ _ Hr q w Hw'). rewrite (decide_False (P := S q = S k)) by lia.
    destruct (decide (S q = S (S k))) as [E|]; [by injection E as ->|]. do 3 f_equal.
    destruct q as [|[|q]]; [lia|lia|]. cbn. by rewrite Lgt by lia.
Qed.

Lemma new_heights p w : all' !! p = Some w -> (1 <= iheight w)%nat.
Proof.
  intros Hw. destruct (pos_cases p w Hw) as [[_ Hw']|[[_ ->]|(q & _ & _ & Hw')]];
    [by eapply all_height|cbn; lia|by eapply all_height].
Qed.

Lemma ins_addrs : NoDup (iaddr <$> all').
Proof.
  rewrite (ins_perm k new z z' items Hz'), fmap_cons. apply NoDup_cons_2; [|apply (rep_addrs _ _ _ Hr)].
  rewrite list_elem_of_fmap. intros (w & E & Hw). apply list_elem_of_lookup in Hw as [p Hp]. by apply (new_addr p w).
Qed.

(** The heap built so far holds the new list once its backward pointers are right. *)
Lemma insert_rep h' : zlevel z' = zlevel z -> zlength z' = zlength z + 1 -> (tail z' = iaddr <$> list.last items') ->
  (forall b j, lv h' b j = if decide (j < zlevel z)%nat then linked j b else lv h1 b j) ->
  (forall p w, all' !! p = Some w -> shape h' (iaddr w) = Some (iele w, iscore w, back all' p, iheight w)) ->
  zsl_rep h' z' items'.
Proof.
  intros Hzl Hlen Htl Hlv Hsh. destruct (ins_lookup k new z z' items Hk Hz') as (Lle & Leq & Lgt & Llen).
  split; rewrite ?Hzl.
  - done.
  - intros p w i Hw Hi Hz. rewrite Hlv, decide_True by done. by apply linked_next.
  - intros i Hi. rewrite Hlv, decide_False by lia. rewrite Hz', Hl1, decide_False.
    { apply (rep_unused _ _ _ Hr). lia. }
    apply (new_addr 0 (hdr z)). done.
  - apply ins_addrs.
  - intros p w Hw. destruct (pos_cases (S p) w Hw) as [[? Hw']|[[? ->]|(q & ? & ? & Hw')]]; cbn.
    + by apply (rep_heights _ _ _ Hr p).
    + lia.
    + destruct q as [|q]; [lia|]. by apply (rep_heights _ _ _ Hr q).
  - apply (rep_level _ _ _ Hr).
  - intros p w Hw. destruct (pos_cases (S p) w Hw) as [[? Hw']|[[? ->]|(q & ? & ? & Hw')]]; cbn; [|by eexists|].
    + by apply (rep_eles _ _ _ Hr p).
    + destruct q as [|q]; [lia|]. by apply (rep_eles _ _ _ Hr q).
  - rewrite Hlen, (rep_length _ _ _ Hr). unfold ins, zlen. rewrite length_app. cbn. rewrite length_take, length_drop. lia.
  - done.
Qed.

(** [zslInsert] after its loops. *)
Lemma insert_finish h3 u0 r0 : z' = Zsl (header z) (iaddr <$> list.last items') (zlength z + 1) (zlevel z) ->
  update !! 0%nat = Some (u0, r0) -> (forall c, shape h3 c = shape h1 c) ->
  (forall b j, lv h3 b j = if decide (j < zlevel z)%nat then linked j b else lv h1 b j) ->
  exists h', (h ← set_backward h3 x (if bool_decide (u0 = header z) then None else Some u0);
    l0 ← lv h x 0;
    '(h, tl) ← match forward l0 with
               | Some f => h ← set_backward h f (Some x); Some (h, tail z)
               | None => Some (h, Some x)
               end;
    Some (h, Zsl (header z) tl (u64 (zlength z + 1)) (zlevel z), x)) = Some (h', z', x) /\
    zsl_rep h' z' items' /\ (forall b, is_Some (shape h b) -> is_Some (shape h' b)).
Proof.
  intros Ez E0 Hs3 Hl3. destruct (ins_lookup k new z z' items Hk Hz') as (Lle & Leq & Lgt & Llen).
  destruct (update_at 0 ltac:(lia)) as (q0 & v0 & l0 & E0' & Hp0 & _ & _ & Hv0x & _). rewrite E0 in E0'.
  pose proof (pred0 _ _ _ _ _ _ Hr Hp0 k_all) as ->. destruct Hp0 as (_ & Hv0 & _). injection E0' as -> ->.
  assert (Hback : (if bool_decide (iaddr v0 = header z) then None else Some (iaddr v0)) = back all' (S k)).
  { destruct k as [|k'] eqn:Ek; [|].
    { change (all !! 0%nat) with (Some (hdr z)) in Hv0. injection Hv0 as <-. by rewrite bool_decide_true. }
    rewrite bool_decide_false; [cbn; by rewrite Lle, Hv0 by lia|].
    intros E. by destruct (rep_inj _ _ _ Hr (S k') 0 v0 (hdr z) Hv0 eq_refl E). }
  rewrite Hback. destruct (set_backward_spec h3 x (back all' (S k)) (Some el) sc (forward g) lvl) as (h4 & -> & Hl4 & Hs4).
  { by rewrite Hs3, Hs1, decide_True. } cbn.
  destruct (linked_next (S k) new 0 Leq ltac:(cbn; lia) ltac:(lia)) as (l & El & Hn). cbn in El.
  rewrite Hl4, Hl3, decide_True, El by lia. cbn. rewrite (next0 all' _ _ new_heights Hn).
  assert (Hu64 : u64 (zlength z + 1) = zlength z + 1).
  { rewrite (rep_length _ _ _ Hr). unfold zlen in *. apply uwrap_small. unfold urange. lia. }
  assert (Hlast : list.last items' = if decide (drop k items = []) then Some new else list.last items).
  { unfold ins. rewrite last_app_cons. destruct (decide (drop k items = [])) as [->|Hne]; [done|].
    rewrite <- (take_drop k items) at 2. destruct (drop k items) as [|a l2]; [done|]. by rewrite last_cons_cons, last_app_cons. }
  assert (H4 : forall p w, all' !! p = Some w -> shape h4 (iaddr w) =
    Some (iele w, iscore w, if decide (p = S (S k)) then back all (S k) else back all' p, iheight w)).
  { intros p w Hw. rewrite Hs4, Hs3, (back_next p w Hw). destruct (pos_cases p w Hw) as [[? Hw']|[[-> ->]|(q & -> & ? & Hw')]].
    - rewrite (decide_False (P := iaddr w = x)) by (by eapply new_addr). by rewrite (decide_False (P := p = S k)) by lia.
    - rewrite (decide_True (P := iaddr new = x)) by done. by rewrite (decide_False (P := S k = S (S k))) by lia.
    - rewrite (decide_False (P := iaddr w = x)) by (by eapply new_addr). by rewrite (decide_False (P := S q = S k)) by lia. }
  assert (Hmono : forall b, is_Some (shape h b) -> is_Some (shape h4 b)).
  { intros b Hb. rewrite Hs4, Hs3, Hs1. by destruct (decide (b = x)). }
  destruct (all' !! S (S k)) as [f|] eqn:Ef; cbn.
  - destruct (set_backward_spec h4 (iaddr f) (Some x) _ _ _ _ (H4 _ _ Ef)) as (h5 & -> & Hl5 & Hs5). cbn.
    exists h5. rewrite Hu64, Ez. split_and!.
    + rewrite Hlast, decide_False; [by rewrite (rep_tail _ _ _ Hr)|]. intros E.
      rewrite Lgt in Ef by lia. unfold all_items in Ef. cbn in Ef. apply lookup_lt_Some in Ef.
      apply (f_equal List.length) in E. rewrite length_drop in E. cbn in E. lia.
    + rewrite <- Ez. apply insert_rep; rewrite ?Ez; try done; [intros b j; by rewrite Hl5, Hl4, Hl3|]. rewrite <- Ez.
      intros p w Hw. rewrite Hs5, (H4 p w Hw). destruct (decide (p = S (S k))) as [->|].
      * replace w with f by congruence. rewrite decide_True by done. cbn. by rewrite Leq.
      * rewrite decide_False; [done|]. intros E. by destruct (item_inj all' p (S (S k)) w f ins_addrs Hw Ef E).
    + intros b Hb. rewrite Hs5. destruct (decide (b = iaddr f)); [done|by apply Hmono].
  - exists h4. rewrite Hu64, Ez. split_and!; [|rewrite <- Ez|done].
    + rewrite Hlast, decide_True; [done|]. rewrite Lgt in Ef by lia. unfold all_items in Ef. cbn in Ef.
      apply lookup_ge_None in Ef. apply drop_ge. done.
    + apply insert_rep; rewrite ?Ez; try done; [intros b j; by rewrite Hl4, Hl3|]. rewrite <- Ez.
      intros p w Hw. rewrite (H4 p w Hw). destruct (decide (p = S (S k))) as [->|]; [congruence|done].
Qed.

End InsertAt.

Lemma zsl_insert_node_spec g h z items k update lvl sc el : zsl_rep h z items -> (k <= List.length items)%nat ->
  zlen items < 2 ^ 32 - 1 -> update_ok (all_items z items) k (zlevel z) update -> (1 <= lvl <= zlevel z)%nat ->
  exists h' z' x, insert_node g h z sc el lvl update = Some (h', z', x) /\ shape h x = None /\
    header z' = header z /\ zlevel z' = zlevel z /\
    zsl_rep h' z' (ins k (Item x sc (Some el) lvl) items) /\ (forall b, is_Some (shape h b) -> is_Some (shape h' b)).
Proof.
  intros Hr Hk Hsz Hu Hlvl. unfold insert_node. destruct (zslCreateNode g h lvl sc (Some el)) as [h1 x] eqn:Ec.
  destruct (zslCreateNode_spec _ _ _ _ _ _ _ Ec) as (Hx & Hs1 & Hl1).
  destruct (link_loops g h z items Hr k Hk Hsz update Hu lvl Hlvl x sc el h1 Hx Hs1 Hl1) as (h2 & h3 & -> & E3 & Hs3 & Hl3).
  cbn. rewrite E3. cbn.
  destruct (Hu 0%nat ltac:(lia)) as (q0 & v0 & E0 & _). rewrite E0. cbn.
  destruct (insert_finish g h z items Hr k Hk Hsz update Hu lvl Hlvl x sc el h1 Hx Hs1 Hl1
    (Zsl (header z) (iaddr <$> list.last (ins k (Item x sc (Some el) lvl) items)) (zlength z + 1) (zlevel z))
    eq_refl h3 _ _ eq_refl E0 Hs3 Hl3) as (h' & -> & Hr' & Hm).
  by eexists _, _, _.
Qed.

(** * Deletion *)

Lemma pred_agree (all all' : list item) i k q v : (forall p, (p <= k)%nat -> all' !! p = all !! p) ->
  is_pred all' i k q v -> is_pred all i k q v.
Proof.
  intros Ha (Hq & Hv & Hi & Hb). split_and!; [done|by rewrite <- Ha|done|]. intros q' v' Hq' Hv'.
  apply (Hb q'); [done|]. by rewrite Ha by lia.
Qed.

Lemma update_agree (all all' : list item) k n n' update : (forall p, (p <= k)%nat -> all' !! p = all !! p) ->
  (n' <= n)%nat -> update_ok all' k n update -> update_ok all k n' update.
Proof.
  intros Ha Hn Hu i Hi. destruct (Hu i ltac:(lia)) as (q & v & E & Hp). exists q, v.
  split; [done|by eapply pred_agree].
Qed.

(** Only the nodes of the list matter. *)
Lemma rep_frame h h' z items : zsl_rep h z items ->
  (forall w, w ∈ all_items z items -> shape h' (iaddr w) = shape h (iaddr w)) ->
  (forall w i, w ∈ all_items z items -> lv h' (iaddr w) i = lv h (iaddr w) i) -> zsl_rep h' z items.
Proof.
  intros [R1 R2 R3 R4 R5 R6 R7 R8 R9] Hs Hl. split; try done.
  - intros p w Hw. rewrite Hs by (by eapply list_elem_of_lookup_2). by apply R1.
  - intros p w i Hw Hi Hz. rewrite Hl by (by eapply list_elem_of_lookup_2). by apply R2.
  - intros i Hi. destruct (R3 i Hi) as [sp E]. exists sp. change (header z) with (iaddr (hdr z)).
    rewrite Hl; [done|]. apply (list_elem_of_lookup_2 _ 0). done.
Qed.

(** The loop that lowers the level stops at the height of a node. *)
Lemma shrink_spec h items : forall n z, zlevel z = n -> zsl_rep h z items ->
  exists zl, shrink_level n h (header z) = Some zl /\ (zl <= n)%nat /\
    zsl_rep h (Zsl (header z) (tail z) (zlength z) zl) items /\ top_ok (Zsl (header z) (tail z) (zlength z) zl) items.
Proof.
  induction n as [|n IH]; intros z Hz Hr; [pose proof (rep_level _ _ _ Hr); lia|].
  assert (Hsame : zsl_rep h (Zsl (header z) (tail z) (zlength z) (S n)) items) by (by destruct z; cbn in *; subst).
  destruct n as [|n]; cbn [shrink_level].
  { exists 1%nat. split_and!; [done..|by left]. }
  pose proof (rep_level _ _ _ Hr) as Hlev. rewrite Hz in Hlev.
  destruct (rep_next _ _ _ Hr 0 (hdr z) (S n) eq_refl ltac:(cbn; lia) ltac:(lia)) as (l & El & Hn).
  cbn in El. rewrite El. cbn. unfold is_next in Hn. destruct (forward l) as [f|] eqn:Ef.
  - exists (S (S n)). split_and!; [done..|]. right. destruct Hn as (q & w & Hq & Hw & _ & Hiw & _).
    destruct q as [|q]; [lia|]. exists q, w. split; [done|]. cbn. pose proof (rep_heights _ _ _ Hr q w Hw). lia.
  - destruct Hn as [Hn _]. specialize (IH (Zsl (header z) (tail z) (zlength z) (S n)) eq_refl).
    destruct IH as (zl & Es & Hle & Hr' & Ht).
    { destruct Hr as [R1 R2 R3 R4 R5 R6 R7 R8 R9]. split; cbn [header tail zlength zlevel]; try done; rewrite ?Hz in *.
      - intros p w i Hw Hi Hi'. apply R2; [done..|lia].
      - intros i Hi. destruct (decide (i = S n)) as [->|]; [|apply R3; lia]. destruct l as [f s]. cbn in Ef. subst f. eauto.
      - intros p w Hw. pose proof (R5 p w Hw). specialize (Hn (S p) w ltac:(lia) Hw). lia.
      - lia. }
    exists zl. split_and!; [exact Es|lia|done..].
Qed.

Section DeleteNode.
Context (h : heap) (z : zskiplist) (rest : list item) (k : nat) (x : item).
Context (Hr : zsl_rep h z (ins k x rest)) (Hk : (k <= List.length rest)%nat) (Hsz : zlen rest < 2 ^ 32 - 1).
Context (update : list (positive * Z)) (Hu : update_ok (all_items z (ins k x rest)) k (zlevel z) update).
Context (z' : zskiplist) (Hz' : header z' = header z).
#[local] Abbreviation all' := (all_items z (ins k x rest)).
#[local] Abbreviation all := (all_items z' rest).
#[local] Set Default Proof Using "Type*".

Lemma del_lookup : (forall q, (q <= k)%nat -> all' !! q = all !! q) /\ all' !! S k = Some x /\
  (forall q, (k < q)%nat -> all' !! S q = all !! q) /\ List.length all' = S (List.length all).
Proof. by apply ins_lookup. Qed.

Lemma del_range p w : all' !! p = Some w -> 0 <= Z.of_nat p < 2 ^ 32.
Proof.
  intros Hw. apply lookup_lt_Some in Hw. destruct del_lookup as (_ & _ & _ & E). rewrite E in Hw.
  unfold all_items in Hw. cbn in Hw. unfold zlen in Hsz. lia.
Qed.

Lemma del_height : (1 <= iheight x <= zlevel z)%nat.
Proof. destruct del_lookup as (_ & Lx & _). by apply (rep_heights _ _ _ Hr k). Qed.

Lemma del_update_at i : (i < zlevel z)%nat -> exists q v l, update !! i = Some (iaddr v, Z.of_nat q) /\
  is_pred all' i k q v /\ lv h (iaddr v) i = Some l /\ is_next all' i q l /\ iaddr v <> iaddr x.
Proof.
  intros Hi. destruct (Hu i Hi) as (q & v & E & Hp). pose proof Hp as (Hq & Hv & Hiv & _).
  destruct (rep_next _ _ _ Hr q v i Hv Hiv Hi) as (l & El & Hn). exists q, v, l. split_and!; [done..|].
  destruct del_lookup as (_ & Lx & _). intros E2. destruct (rep_inj _ _ _ Hr q (S k) v x Hv Lx E2). lia.
Qed.

(** The levels after the loop. *)
Definition unlinked (i : nat) (b : positive) : option zskiplistLevel :=
  '(u, _) ← update !! i;
  lu ← lv h u i;
  if decide (b = u) then
    if decide (i < iheight x)%nat then
      lx ← lv h (iaddr x) i; Some (Lvl (forward lx) (span lu + (span lx - 1)))
    else Some (Lvl (forward lu) (span lu - 1))
  else lv h b i.

Lemma unlink_loop : exists h2, for_levels (seq 0 (zlevel z)) (unlink_level update (iaddr x)) h = Some h2 /\
  (forall c, shape h2 c = shape h c) /\
  (forall b j, lv h2 b j = if decide (j < zlevel z)%nat then unlinked j b else lv h b j).
Proof.
  destruct del_lookup as (Lle & Leq & Lgt & Llen). pose proof del_height as Hhx.
  destruct (for_levels_spec (unlink_level update (iaddr x)) h unlinked (zlevel z) 0 h) as (h2 & E2 & Hs2 & Hl2); [|done..|].
  2: { exists h2. split_and!; [done..|]. intros b j. rewrite Hl2.
       destruct (decide (j < zlevel z)%nat); [by rewrite decide_True by lia|by rewrite decide_False by lia]. }
  intros i Hi h1 Hs1 Hl1. destruct (del_update_at i ltac:(lia)) as (q & v & l & E & Hp & El & Hn & Hne).
  pose proof (next_is_new all all' k x Lle Leq Lgt Llen i q v l (rep_addrs _ _ _ Hr) (pred_agree _ _ _ _ _ _ Lle Hp) Hn) as Hx.
  pose proof Hp as (Hq & Hv & Hiv & Hb).
  unfold unlink_level, unlinked. rewrite E. cbn [mbind option_bind]. rewrite (Hl1 (iaddr v)), El. cbn [mbind option_bind].
  rewrite ?El. cbn [mbind option_bind].
  destruct (decide (i < iheight x)%nat) as [Hix|Hix].
  - rewrite bool_decide_true by (by apply Hx). destruct (rep_next _ _ _ Hr (S k) x i Leq Hix ltac:(lia)) as (lx & Elx & Hnx).
    rewrite (Hl1 (iaddr x)), !Elx. cbn [mbind option_bind].
    assert (u64 (span l + (span lx - 1)) = span l + (span lx - 1)) as ->.
    { apply uwrap_small. unfold urange, is_next in Hn, Hnx |- *. rewrite (proj2 Hx Hix) in Hn.
      destruct Hn as (r & w & Hqr & Hw & _ & _ & -> & _). pose proof (del_range r w Hw).
      destruct (forward lx); [destruct Hnx as (r2 & w2 & Hr2 & Hw2 & _ & _ & -> & _); pose proof (del_range r2 w2 Hw2); lia|].
      destruct Hnx as [_ ->]. rewrite Llen. unfold all_items. cbn. unfold zlen in Hsz. lia. }
    destruct (set_span_spec h1 (iaddr v) i (span l + (span lx - 1)) l ltac:(by rewrite Hl1)) as (h2 & -> & Hs2 & Hl2). cbn.
    destruct (set_forward_spec h2 (iaddr v) i (forward lx) (Lvl (forward l) (span l + (span lx - 1)))) as (h3 & -> & Hs3 & Hl3).
    { by rewrite Hl2, decide_True. }
    exists h3. split_and!; [done|intros b; by rewrite Hs3, Hs2, Hs1|]. intros b j. rewrite Hl3, Hl2.
    destruct (decide (j = i)) as [->|]; [|by rewrite !decide_False by (by intros [])].
    destruct (decide (b = iaddr v)) as [->|]; [by rewrite !decide_True|by rewrite !decide_False, Hl1 by (by intros [])].
  - rewrite bool_decide_false by (by rewrite Hx).
    assert (u64 (span l - 1) = span l - 1) as ->.
    { apply uwrap_small. unfold urange, is_next in Hn |- *. destruct (forward l).
      - destruct Hn as (r & w & Hqr & Hw & _ & _ & -> & _). pose proof (del_range r w Hw). lia.
      - destruct Hn as [_ ->]. rewrite Llen. unfold all_items. cbn. unfold zlen in Hsz. lia. }
    destruct (set_span_spec h1 (iaddr v) i (span l - 1) l ltac:(by rewrite Hl1)) as (h2 & -> & Hs2 & Hl2).
    exists h2. split_and!; [done|intros b; by rewrite Hs2, Hs1|]. intros b j. rewrite Hl2.
    destruct (decide (j = i)) as [->|]; [|by rewrite decide_False by (by intros [])].
    destruct (decide (b = iaddr v)) as [->|]; [by rewrite decide_True|by rewrite decide_False, Hl1 by (by intros [])].
Qed.

Lemma del_pos p w : all !! p = Some w -> exists p', all' !! p' = Some w /\ p' <> S k /\
  ((p <= k)%nat /\ p' = p \/ (k < p)%nat /\ p' = S p).
Proof.
  destruct del_lookup as (Lle & Leq & Lgt & Llen). intros Hw. destruct (decide (p <= k)%nat).
  - exists p. rewrite Lle by done. split_and!; [done|lia|by left].
  - exists (S p). rewrite Lgt by lia. split_and!; [done|lia|]. right. lia.
Qed.

Lemma del_addr p w : all !! p = Some w -> iaddr w <> iaddr x.
Proof.
  intros Hw E. destruct (del_pos p w Hw) as (p' & Hw' & Hne & _). destruct del_lookup as (_ & Leq & _).
  by destruct (rep_inj _ _ _ Hr p' (S k) w x Hw' Leq E).
Qed.

Lemma unlinked_next p w i : all !! p = Some w -> (i < iheight w)%nat -> (i < zlevel z)%nat ->
  exists l, unlinked i (iaddr w) = Some l /\ is_next all i p l.
Proof.
  intros Hw Hi Hz. destruct (del_update_at i Hz) as (q & v & l & E & Hp & El & Hn & Hne).
  destruct del_lookup as (Lle & Leq & Lgt & Llen). pose proof Hp as (Hq & Hv & _).
  pose proof (pred_agree _ _ _ _ _ _ Lle Hp) as Hps.
  destruct (del_pos p w Hw) as (p' & Hw' & Hne' & Hpp).
  destruct (rep_next _ _ _ Hr p' w i Hw' Hi Hz) as (l2 & El2 & Hn2).
  unfold unlinked. rewrite E. cbn [mbind option_bind]. rewrite El. cbn [mbind option_bind]. destruct Hpp as [[Hpk ->]|[Hpk ->]].
  - destruct (decide (p = q)) as [->|Hpq].
    + assert (w = v) as -> by congruence. rewrite (decide_True (P := iaddr v = iaddr v)) by done.
      destruct (decide (i < iheight x)%nat) as [Hix|Hix].
      * destruct (rep_next _ _ _ Hr (S k) x i Leq Hix Hz) as (lx & Elx & Hnx). rewrite Elx. cbn [mbind option_bind].
        eexists. split; [done|].
        replace (span l + (span lx - 1)) with (span lx + (Z.of_nat k - Z.of_nat q)).
        { by eapply (next_unlink all all' k x). }
        pose proof (proj2 (next_is_new all all' k x Lle Leq Lgt Llen i q v l (rep_addrs _ _ _ Hr) Hps Hn) Hix) as Hf.
        unfold is_next in Hn. rewrite Hf in Hn. destruct Hn as (r & w & _ & Hrw & Hrx & _ & -> & _).
        destruct (rep_inj _ _ _ Hr r (S k) w x Hrw Leq Hrx) as [-> _]. lia.
      * eexists. split; [done|]. eapply (next_high all all' k x Lle Leq Lgt Llen i q v); [lia|done|]. cbn.
        replace (span l - 1 + 1) with (span l) by lia. by destruct l.
    + rewrite (decide_False (P := iaddr w = iaddr v)) by
        (intros E2; apply Hpq; by destruct (rep_inj _ _ _ Hr p q w v Hw' Hv E2)).
      exists l2. split; [done|]. by apply (next_before all all' k x Lle Leq Lgt Llen i p w q v).
  - rewrite (decide_False (P := iaddr w = iaddr v)) by
      (intros E2; destruct (rep_inj _ _ _ Hr (S p) q w v Hw' Hv E2); lia).
    exists l2. split; [done|]. by apply (next_after all all' k x Lle Leq Lgt Llen).
Qed.

Lemma delete_rep h' : zlevel z' = zlevel z -> zlength z' = zlength z - 1 -> (tail z' = iaddr <$> list.last rest) ->
  (forall b j, lv h' b j = if decide (j < zlevel z)%nat then unlinked j b else lv h b j) ->
  (forall p w, all !! p = Some w -> shape h' (iaddr w) = Some (iele w, iscore w, back all p, iheight w)) ->
  zsl_rep h' z' rest.
Proof.
  intros Hzl Hlen Htl Hlv Hsh. split; rewrite ?Hzl.
  - done.
  - intros p w i Hw Hi Hz. rewrite Hlv, decide_True by done. by apply unlinked_next.
  - intros i Hi. rewrite Hlv, decide_False by lia. rewrite Hz'. apply (rep_unused _ _ _ Hr). lia.
  - pose proof (rep_addrs _ _ _ Hr) as Hnd. rewrite (ins_perm k x z' z rest (eq_sym Hz')) in Hnd.
    rewrite fmap_cons in Hnd. by inversion Hnd.
  - intros p w Hw. destruct (del_pos (S p) w Hw) as (p' & Hw' & _ & Hp). destruct p' as [|p']; [lia|].
    by apply (rep_heights _ _ _ Hr p').
  - apply (rep_level _ _ _ Hr).
  - intros p w Hw. destruct (del_pos (S p) w Hw) as (p' & Hw' & _ & Hp). destruct p' as [|p']; [lia|].
    by apply (rep_eles _ _ _ Hr p').
  - rewrite Hlen, (rep_length _ _ _ Hr). unfold ins, zlen. rewrite length_app. cbn. rewrite length_take, length_drop. lia.
  - done.
Qed.

End DeleteNode.

Lemma last_ins k x rest : (k <= List.length rest)%nat ->
  list.last (ins k x rest) = if decide (k = List.length rest) then Some x else list.last rest.
Proof.
  intros Hk. unfold ins. rewrite last_app_cons. destruct (decide (k = List.length rest)) as [->|Hne].
  - by rewrite drop_all.
  - rewrite <- (take_drop k rest) at 2. destruct (drop k rest) as [|a l2] eqn:E.
    + apply (f_equal List.length) in E. rewrite length_drop in E. cbn in E. lia.
    + by rewrite last_cons_cons, last_app_cons.
Qed.

Lemma back_last z rest : back (all_items z rest) (S (List.length rest)) = iaddr <$> list.last rest.
Proof. unfold all_items. destruct rest as [|a rest]; [done|]. rewrite last_lookup. done. Qed.

Lemma zslDeleteNode_spec h z rest k x update : zsl_rep h z (ins k x rest) -> (k <= List.length rest)%nat ->
  zlen rest < 2 ^ 32 - 1 -> update_ok (all_items z (ins k x rest)) k (zlevel z) update ->
  exists h' z', zslDeleteNode h z (iaddr x) update = Some (h', z') /\ header z' = header z /\
    (zlevel z' <= zlevel z)%nat /\ zsl_rep h' z' rest /\ top_ok z' rest /\
    shape h' (iaddr x) = shape h (iaddr x) /\ (forall b, is_Some (shape h b) -> is_Some (shape h' b)).
Proof.
  intros Hr Hk Hsz Hu. set (z1 := Zsl (header z) (iaddr <$> list.last rest) (zlength z - 1) (zlevel z)).
  destruct (unlink_loop h z rest k x Hr Hk Hsz update Hu z1 eq_refl) as (h1 & E1 & Hs1 & Hl1).
  unfold zslDeleteNode. rewrite E1. cbn [mbind option_bind].
  destruct (del_lookup h z rest k x Hr Hk Hsz update Hu z1 eq_refl) as (Lle & Leq & Lgt & Llen).
  pose proof (rep_shape _ _ _ Hr _ _ Leq) as Hsx. rewrite <- Hs1 in Hsx.
  destruct (shape_node _ _ _ _ _ _ Hsx) as (n & En & _ & _ & Hb & _). rewrite En. cbn [mbind option_bind].
  rewrite <- (lv_node _ _ _ 0 En), Hb.
  pose proof (del_height h z rest k x Hr Hk Hsz update Hu z1 eq_refl) as Hhx.
  destruct (rep_next _ _ _ Hr (S k) x 0 Leq ltac:(lia) ltac:(lia)) as (l0 & El0 & Hn0).
  assert (lv h1 (iaddr x) 0 = Some l0) as ->.
  { rewrite Hl1, decide_True by lia. unfold unlinked.
    destruct (del_update_at h z rest k x Hr Hk Hsz update Hu z1 eq_refl 0 ltac:(lia)) as (q & v & l & E & _ & El & _ & Hne).
    rewrite E. cbn [mbind option_bind]. rewrite El. cbn [mbind option_bind]. rewrite decide_False by done. done. }
  cbn [mbind option_bind]. rewrite (next0 _ _ _ (all_height _ _ _ Hr) Hn0), Lgt by lia.
  assert (Hlen : u64 (zlength z - 1) = zlength z - 1).
  { rewrite (rep_length _ _ _ Hr). unfold ins, zlen in *. rewrite length_app. cbn. rewrite length_take, length_drop.
    apply uwrap_small. unfold urange. lia. }
  assert (Hshape : forall p w, all_items z1 rest !! p = Some w -> shape h1 (iaddr w) =
    Some (iele w, iscore w, if decide (p = S k) then Some (iaddr x) else back (all_items z1 rest) p, iheight w)).
  { intros p w Hw. destruct (del_pos h z rest k x Hr Hk Hsz update Hu z1 eq_refl p w Hw) as (p' & Hw' & Hne & Hp).
    rewrite Hs1, (rep_shape _ _ _ Hr p' w Hw'). do 3 f_equal. destruct Hp as [[Hp ->]|[Hp ->]].
    - rewrite decide_False by lia. destruct p as [|[|p]]; [done..|]. cbn. by rewrite Lle by lia.
    - destruct (decide (p = S k)) as [->|]; [cbn; by rewrite Leq|].
      destruct p as [|[|p]]; [lia..|]. cbn. by rewrite Lgt by lia. }
  assert (Hbk : back (all_items z (ins k x rest)) (S k) = back (all_items z1 rest) (S k)).
  { destruct k as [|k]; [done|]. cbn. by rewrite Lle by lia. }
  rewrite Hbk. destruct (all_items z1 rest !! S k) as [f|] eqn:Ef; cbn [fmap option_fmap option_map].
  - destruct (set_backward_spec h1 (iaddr f) (back (all_items z1 rest) (S k)) _ _ _ _ (Hshape _ _ Ef)) as (h2 & E2 & Hl2 & Hs2).
    rewrite E2. cbn [mbind option_bind].
    assert (Hr2 : zsl_rep h2 z1 rest).
    { apply (delete_rep h z rest k x Hr Hk Hsz update Hu z1 eq_refl); try done; [intros b j; by rewrite Hl2, Hl1|].
      intros p w Hw. rewrite Hs2. destruct (decide (iaddr w = iaddr f)) as [E|Hne].
      - pose proof (rep_addrs _ _ _ Hr) as Hnd. rewrite (ins_perm k x z1 z rest eq_refl) in Hnd.
        rewrite fmap_cons in Hnd. apply list.NoDup_cons in Hnd as [_ Hnd].
        by destruct (item_inj _ p (S k) w f Hnd Hw Ef E) as [-> ->].
      - rewrite (Hshape p w Hw). destruct (decide (p = S k)) as [->|]; [congruence|done]. }
    destruct (shrink_spec h2 rest (zlevel z) z1 eq_refl Hr2) as (zl & Es & Hle & Hr3 & Ht). cbn in Es. rewrite Es.
    cbn [mbind option_bind]. exists h2. eexists. split; [done|]. rewrite Hlen.
    assert (Etl : tail z = iaddr <$> list.last rest).
    { rewrite (rep_tail _ _ _ Hr), last_ins, decide_False by done || (intros ->; apply lookup_lt_Some in Ef;
        unfold all_items in Ef; cbn in Ef; lia). done. }
    rewrite Etl. split_and!; [done|done|done|done| |].
    + rewrite Hs2, decide_False, Hs1 by (apply not_eq_sym; eapply (del_addr h z rest k x Hr Hk Hsz update Hu z1 eq_refl); done). done.
    + intros b Hb'. rewrite Hs2, Hs1. by destruct (decide (b = iaddr f)).
  - assert (Hk' : k = List.length rest) by (apply lookup_ge_None in Ef; unfold all_items in Ef; cbn in Ef; lia).
    assert (Hr2 : zsl_rep h1 z1 rest).
    { apply (delete_rep h z rest k x Hr Hk Hsz update Hu z1 eq_refl); try done.
      intros p w Hw. rewrite (Hshape p w Hw), decide_False; [done|]. intros ->. congruence. }
    destruct (shrink_spec h1 rest (zlevel z) z1 eq_refl Hr2) as (zl & Es & Hle & Hr3 & Ht). cbn in Es. cbn [mbind option_bind]. rewrite Es.
    cbn [mbind option_bind]. exists h1. eexists. split; [done|]. rewrite Hlen, Hk', back_last.
    split_and!; [done|done|done|done|by rewrite Hs1|]. intros b Hb'. by rewrite Hs1.
Qed.

(** * The order of the keys *)

(** Doubles that are not NaN are ordered by (sign and kind, exponent, mantissa); both zeros are equal. *)
Definition dkey (x : double) : list Z :=
  match x with
  | S754_infinity true => [-2; 0; 0]
  | S754_finite true m e => [-1; - e; - Z.pos m]
  | S754_zero _ | S754_nan => [0; 0; 0]
  | S754_finite false m e => [1; e; Z.pos m]
  | S754_infinity false => [2; 0; 0]
  end.

Lemma SFcompare_dkey a b : isnan a = false -> isnan b = false -> SFcompare a b = Some (lex (dkey a) (dkey b)).
Proof.
  intros Ha Hb. destruct a as [[]|[]| |[] m1 e1]; try discriminate Ha; destruct b as [[]|[]| |[] m2 e2];
    try discriminate Hb; try done; cbn -[Z.eqb Z.compare Z.opp]; cbn [Z.eqb Pos.eqb Z.compare].
  - change (Pos.compare_cont Eq m1 m2) with (Pos.compare m1 m2).
    destruct (Z.eqb_spec (- e1) (- e2)) as [E|E].
    + replace e1 with e2 by lia. rewrite Z.compare_refl. destruct (Z.eqb_spec (Z.neg m1) (Z.neg m2)) as [E2|E2].
      * injection E2 as ->. by rewrite Pos.compare_refl, Z.eqb_refl.
      * change (- Z.pos m1) with (Z.neg m1). change (- Z.pos m2) with (Z.neg m2).
        destruct (Z.eqb_spec (Z.neg m1) (Z.neg m2)); done.
    + destruct (Z.compare_spec e1 e2), (Z.compare_spec (- e1) (- e2)); try done; lia.
  - change (Pos.compare_cont Eq m1 m2) with (Pos.compare m1 m2).
    destruct (Z.eqb_spec e1 e2) as [->|E].
    + rewrite Z.compare_refl. destruct (Pos.eqb_spec m1 m2) as [->|]; [by rewrite Pos.compare_refl|done].
    + destruct (Z.compare_spec e1 e2); try done.
Qed.

Lemma lex_antisym a : forall b, lex b a = CompOpp (lex a b).
Proof.
  induction a as [|x a IH]; intros [|y b]; cbn [lex]; try done.
  rewrite Z.eqb_sym. destruct (Z.eqb_spec x y); [apply IH|apply Z.compare_antisym].
Qed.

Lemma lex_trans a : forall b c, lex a b = Lt -> lex b c = Lt -> lex a c = Lt.
Proof.
  induction a as [|x a IH]; intros [|y b] [|w c]; cbn [lex]; try done.
  destruct (Z.eqb_spec x y) as [->|Hxy]; destruct (Z.eqb_spec y w) as [->|Hyw]; try done.
  - apply IH.
  - rewrite Z.compare_lt_iff. destruct (Z.eqb_spec x w); [done|]. intros H _. by apply Z.compare_lt_iff.
  - rewrite !Z.compare_lt_iff. destruct (Z.eqb_spec x w); [lia|]. intros. apply Z.compare_lt_iff. lia.
Qed.

Lemma lex_app a b c d : List.length a = List.length b ->
  lex (a ++ c) (b ++ d) = match lex a b with Eq => lex c d | r => r end.
Proof.
  revert b. induction a as [|x a IH]; intros [|y b] Hl; try discriminate Hl; [done|].
  cbn. destruct (Z.eqb_spec x y) as [|Hne]; [apply IH; by injection Hl|].
  destruct (Z.compare_spec x y); done.
Qed.

(** A key is a score and an element. *)
Abbreviation key := (double * bytes)%type.

Definition enc (k : key) : list Z := dkey (fst k) ++ snd k.
Definition kcmp (a b : key) : comparison := lex (enc a) (enc b).
Definition klt (a b : key) : bool := match kcmp a b with Lt => true | _ => false end.
Definition keq (a b : key) : bool := match kcmp a b with Eq => true | _ => false end.
Definition valid_key (k : key) : Prop := isnan (fst k) = false.

Lemma dkey_length x : List.length (dkey x) = 3%nat.
Proof. by destruct x as [[]|[]| |[] m e]. Qed.

Lemma kcmp_code a b : valid_key a -> valid_key b ->
  kcmp a b = if SFltb (fst a) (fst b) then Lt else if SFeqb (fst a) (fst b) then lex (snd a) (snd b) else Gt.
Proof.
  intros Ha Hb. unfold kcmp, enc, SFltb, SFeqb. rewrite SFcompare_dkey by done.
  rewrite lex_app by by rewrite !dkey_length. by destruct (lex (dkey (fst a)) (dkey (fst b))).
Qed.

Lemma kcmp_antisym a b : kcmp b a = CompOpp (kcmp a b).
Proof. apply lex_antisym. Qed.

Lemma klt_trans a b c : klt a b = true -> klt b c = true -> klt a c = true.
Proof.
  unfold klt. destruct (kcmp a b) eqn:E1, (kcmp b c) eqn:E2; try done. intros _ _. unfold kcmp in *.
  by rewrite (lex_trans _ _ _ E1 E2).
Qed.

Lemma klt_irrefl a : klt a a = false.
Proof. unfold klt, kcmp. by rewrite (proj2 (lex_eq _ _) eq_refl). Qed.

Lemma kcmp_eq_l a b c : kcmp a b = Eq -> kcmp a c = kcmp b c.
Proof. unfold kcmp. rewrite lex_eq. by intros ->. Qed.

Lemma keq_ele a b : keq a b = true -> snd a = snd b.
Proof.
  unfold keq, kcmp, enc. rewrite lex_app by by rewrite !dkey_length.
  destruct (lex (dkey (fst a)) (dkey (fst b))); try done. destruct (lex (snd a) (snd b)) eqn:E; try done.
  intros _. by apply lex_eq.
Qed.

(** Insertion into a sorted list of keys, and deletion of a key: the reference definitions. *)
Fixpoint kins (k : key) (l : list key) : list key :=
  match l with
  | [] => [k]
  | a :: l => if klt a k then a :: kins k l else k :: a :: l
  end.

Fixpoint kdel (k : key) (l : list key) : list key :=
  match l with
  | [] => []
  | a :: l => if keq a k then l else a :: kdel k l
  end.

Definition ksorted (l : list key) : Prop := StronglySorted (fun a b => klt a b = true) l.

Lemma kins_split k l1 l2 : Forall (fun a => klt a k = true) l1 -> Forall (fun a => klt a k = false) l2 ->
  kins k (l1 ++ l2) = l1 ++ k :: l2.
Proof.
  intros H1 H2. induction H1 as [|a l1 Ha _ IH]; cbn.
  - destruct H2 as [|a l2 Ha _]; [done|]. cbn. by rewrite Ha.
  - by rewrite Ha, IH.
Qed.

Lemma kdel_split k l1 a l2 : Forall (fun a => klt a k = true) l1 -> keq a k = true ->
  kdel k (l1 ++ a :: l2) = l1 ++ l2.
Proof.
  intros H1 H2. induction H1 as [|b l1 Hb _ IH]; cbn; [by rewrite H2|].
  unfold klt in Hb. unfold keq at 1. destruct (kcmp b k); try done. by rewrite IH.
Qed.

Lemma kdel_none k l : Forall (fun a => keq a k = false) l -> kdel k l = l.
Proof. induction 1 as [|a l Ha _ IH]; cbn; [done|]. by rewrite Ha, IH. Qed.

Lemma ksorted_app l1 l2 : ksorted (l1 ++ l2) <->
  ksorted l1 /\ ksorted l2 /\ Forall (fun a => Forall (fun b => klt a b = true) l2) l1.
Proof.
  unfold ksorted. induction l1 as [|a l1 IH]; cbn.
  - split; [intros H; split_and!; [constructor|done|constructor]|tauto].
  - split.
    + inversion 1 as [|? ? Hs Hf]; subst. apply IH in Hs as (H1 & H2 & H3). apply Forall_app in Hf as [Hf1 Hf2].
      split_and!; [by constructor|done|by constructor].
    + intros (H1 & H2 & H3). inversion H1; subst. inversion H3; subst. constructor; [by apply IH|by apply Forall_app].
Qed.

Lemma ksorted_middle l1 k l2 : ksorted (l1 ++ l2) -> Forall (fun a => klt a k = true) l1 ->
  Forall (fun a => klt k a = true) l2 -> ksorted (l1 ++ k :: l2).
Proof.
  rewrite !ksorted_app. intros (H1 & H2 & H3) Ha Hb. split_and!; [done|by constructor|].
  induction H3; [constructor|]. inversion Ha; subst. inversion H1; subst. constructor; [by constructor|auto].
Qed.

Lemma ksorted_lookup l p q a b : ksorted l -> (p < q)%nat -> l !! p = Some a -> l !! q = Some b -> klt a b = true.
Proof.
  intros Hs. revert p q. induction Hs as [|c l Hs IH Hf]; intros [|p] [|q] Hpq Hp Hq; try done; try lia.
  - cbn in *. injection Hp as ->. rewrite Forall_lookup in Hf. by eapply Hf.
  - apply (IH p q); [lia|done..].
Qed.
