(* ===== verification/ZskiplistSpec.v ===== *)
(** The operations of the skip lists refine sorted lists of keys (t_zset.c).

    [zsl_ok h z items]: the heap [h] holds the skip list [z] with these items, whose keys (score,
    element) are strictly sorted.  Every search is shown to find the gap its condition asks for,
    whatever the heights of the nodes; insertion, deletion and update then act on the list of keys
    as [kins] and [kdel] do, and the spans give ranks. *)

From Stdlib Require Import SpecFloat String Sorted.
From stdpp Require Import gmap.
From S2P Require Import Prelude Util Sds Zskiplist.
#[local] Open Scope list_scope.
#[local] Open Scope Z_scope.

Definition keyof (w : item) : key := (iscore w, default [] (iele w)).
Definition keys (items : list item) : list key := keyof <$> items.

Record zsl_ok (h : heap) (z : zskiplist) (items : list item) : Prop := {
  ok_rep : zsl_rep h z items;
  ok_top : top_ok z items;
  ok_sorted : ksorted (keys items);
  ok_valid : Forall valid_key (keys items);
  ok_size : zlen items < 2 ^ 32
}.

(** * Searching *)

Lemma keys_split items p : keys items = keys (take p items) ++ keys (drop p items).
Proof. unfold keys. by rewrite <- fmap_app, take_drop. Qed.

Lemma all_S z items p : all_items z items !! S p = items !! p.
Proof. done. Qed.

Lemma item_key h z items p w : zsl_rep h z items -> items !! p = Some w -> iele w = Some (snd (keyof w)).
Proof. intros Hr Hw. unfold keyof. cbn. by destruct (rep_eles _ _ _ Hr p w Hw) as [e ->]. Qed.

Lemma item_node h z items p w : zsl_rep h z items -> items !! p = Some w -> exists n, h !! iaddr w = Some n /\
  ele n = Some (snd (keyof w)) /\ score n = fst (keyof w) /\ backward n = back (all_items z items) (S p) /\
  List.length (level n) = iheight w.
Proof.
  intros Hr Hw. rewrite <- (item_key _ _ _ _ _ Hr Hw). apply shape_node. by apply (rep_shape _ _ _ Hr (S p)).
Qed.

Lemma key_before_spec oe h z items p w k : zsl_rep h z items -> items !! p = Some w ->
  valid_key (keyof w) -> valid_key k ->
  key_before oe h (fst k) (snd k) (iaddr w) =
    Some (match kcmp (keyof w) k with Lt => true | Eq => oe | Gt => false end).
Proof.
  intros Hr Hw Hv Hk. destruct (item_node _ _ _ _ _ Hr Hw) as (n & En & Hel & Hsc & _).
  unfold key_before. rewrite En. cbn [mbind option_bind]. rewrite Hsc, Hel, kcmp_code by done.
  destruct (SFltb (fst (keyof w)) (fst k)); [done|]. destruct (SFeqb (fst (keyof w)) (fst k)); [|done].
  cbn [mbind option_bind]. by destruct (lex _ _).
Qed.

Lemma rep_pos_range h z items q : zsl_rep h z items -> zlen items < 2 ^ 32 ->
  (q < List.length (all_items z items))%nat -> 0 <= Z.of_nat q < 2 ^ 32.
Proof. intros Hr Hs Hq. unfold all_items in Hq. cbn in Hq. unfold zlen in Hs. lia. Qed.

(** A search with a condition that holds on a prefix of the list ends after this prefix. *)
Lemma gap_spec h z items cond wrap (P : nat -> item -> bool) : zsl_rep h z items ->
  (forall q w tr sp, items !! q = Some w -> tr + sp = Z.of_nat (S q) -> cond tr sp (iaddr w) = Some (P q w)) ->
  (forall q, (q < List.length (all_items z items))%nat -> wrap (Z.of_nat q) = Z.of_nat q) ->
  (forall q q' w w', (q < q')%nat -> items !! q = Some w -> items !! q' = Some w' -> P q' w' = true -> P q w = true) ->
  exists p w update, search (zlevel z) h cond wrap (header z) 0 = Some (iaddr w, Z.of_nat p, update) /\
    all_items z items !! p = Some w /\ (p <= List.length items)%nat /\
    List.length update = zlevel z /\ update_ok (all_items z items) p (zlevel z) update /\
    (forall q v, (q < p)%nat -> items !! q = Some v -> P q v = true) /\
    (forall q v, (p <= q)%nat -> items !! q = Some v -> P q v = false).
Proof.
  intros Hr Hcond Hwrap Hmono. pose proof (rep_level _ _ _ Hr) as Hlev.
  destruct (zsl_search_spec h z items Hr cond wrap (fun q w => P (Nat.pred q) w)) with (n := zlevel z) (p := 0%nat) (w := hdr z)
    as (p & w & update & E & _ & Hp & Hl & Hu & _ & Hs & HP); [|done..|cbn; lia|].
  { intros [|q] v tr sp Hq Hv Ht; [lia|]. by apply Hcond. }
  cbn in E. exists p, w, update. split_and!; [done..| |done|done| |].
  - apply lookup_lt_Some in Hp. unfold all_items in Hp. cbn in Hp. lia.
  - intros q v Hq Hv. destruct p as [|p]; [lia|]. destruct HP as [HP|HP]; [lia|]. cbn in HP. rewrite all_S in Hp.
    destruct (decide (q = p)) as [->|]; [congruence|]. by apply (Hmono q p v w); [lia|..].
  - intros q v Hq Hv. destruct (P q v) eqn:EP; [|done]. exfalso.
    destruct (items !! p) as [v0|] eqn:Hv0; [|apply lookup_ge_None in Hv0; apply lookup_lt_Some in Hv; lia].
    assert (P p v0 = true) as E0.
    { destruct (decide (p = q)) as [->|]; [congruence|]. by apply (Hmono p q v0 v); [lia|..]. }
    specialize (Hs ltac:(lia) v0). rewrite all_S in Hs. cbn in Hs. rewrite Hs in E0 by done. done.
Qed.

Lemma items_sorted items p q v w : ksorted (keys items) -> (p < q)%nat -> items !! p = Some v -> items !! q = Some w ->
  klt (keyof v) (keyof w) = true.
Proof.
  intros Hs Hpq Hv Hw. eapply (ksorted_lookup (keys items) p q); [done..| |]; unfold keys; rewrite list_lookup_fmap;
    [by rewrite Hv|by rewrite Hw].
Qed.

Lemma items_valid items p w : Forall valid_key (keys items) -> items !! p = Some w -> valid_key (keyof w).
Proof. intros Hf Hw. rewrite Forall_lookup in Hf. apply (Hf p). unfold keys. by rewrite list_lookup_fmap, Hw. Qed.

(** The gap of a key: the keys before it are smaller (or equal, when [oe]), those after are not. *)
Lemma key_gap_spec oe h z items wrap k : zsl_ok h z items -> valid_key k ->
  (forall q, 0 <= q < 2 ^ 32 -> wrap q = q) ->
  exists p w update,
    search (zlevel z) h (fun _ _ f => key_before oe h (fst k) (snd k) f) wrap (header z) 0 =
      Some (iaddr w, Z.of_nat p, update) /\
    all_items z items !! p = Some w /\ (p <= List.length items)%nat /\
    List.length update = zlevel z /\ update_ok (all_items z items) p (zlevel z) update /\
    (forall q v, (q < p)%nat -> items !! q = Some v -> kcmp (keyof v) k <> Gt /\ (kcmp (keyof v) k = Eq -> oe = true)) /\
    (forall q v, (p <= q)%nat -> items !! q = Some v -> kcmp (keyof v) k <> Lt /\ (kcmp (keyof v) k = Eq -> oe = false)).
Proof.
  intros [Hr Ht Hs Hv Hsz] Hk Hw.
  destruct (gap_spec h z items (fun _ _ f => key_before oe h (fst k) (snd k) f) wrap
    (fun _ w => match kcmp (keyof w) k with Lt => true | Eq => oe | Gt => false end) Hr)
    as (p & w & update & E & Hp & Hle & Hl & Hu & Hlo & Hhi).
  - intros q w tr sp Hq _. eapply key_before_spec; [done..| |done]. by eapply items_valid.
  - intros q Hq. apply Hw. by eapply rep_pos_range.
  - intros q q' v v' Hqq Hq Hq' HP. pose proof (items_sorted _ _ _ _ _ Hs Hqq Hq Hq') as Hlt.
    destruct (kcmp (keyof v') k) eqn:E; [| |done].
    + unfold klt in Hlt. rewrite (kcmp_antisym (keyof v')) in Hlt. rewrite (kcmp_antisym k).
      assert (kcmp k (keyof v) = kcmp (keyof v') (keyof v)) as ->.
      { apply kcmp_eq_l. by rewrite kcmp_antisym, E. }
      by destruct (kcmp (keyof v') (keyof v)).
    + assert (klt (keyof v) k = true) as H by (eapply klt_trans; [done|]; unfold klt; by rewrite E).
      unfold klt in H. by destruct (kcmp (keyof v) k).
  - exists p, w, update. split_and!; [done..| |]; intros q v Hq Hqv; [specialize (Hlo q v Hq Hqv)|specialize (Hhi q v Hq Hqv)];
      destruct (kcmp (keyof v) k); done.
Qed.

(** * Insertion *)

Lemma random_level_loop_spec rnd : forall lvl, Exists (fun r => 16384 <= Z.land r 65535) rnd ->
  exists lvl' rnd', random_level_loop rnd lvl = Some (lvl', rnd') /\ lvl <= lvl'.
Proof.
  induction rnd as [|r rnd IH]; intros lvl He; [by inversion He|]. cbn.
  destruct (Z.ltb_spec (Z.land r 65535) 16384) as [Hr|Hr]; [|by eexists _, _].
  inversion He as [? ? H0|? ? He']; subst; [lia|]. destruct (IH (lvl + 1) He') as (l & r' & E & Hl).
  exists l, r'. split; [done|lia].
Qed.

Lemma zslRandomLevel_spec rnd : Exists (fun r => 16384 <= Z.land r 65535) rnd ->
  exists lvl rnd', zslRandomLevel rnd = Some (lvl, rnd') /\ (1 <= lvl <= ZSKIPLIST_MAXLEVEL)%nat.
Proof.
  intros He. destruct (random_level_loop_spec rnd 1 He) as (l & r' & E & Hl). unfold zslRandomLevel. rewrite E.
  cbn [mbind option_bind]. eexists _, _. split; [done|]. unfold ZSKIPLIST_MAXLEVEL in *.
  destruct (Z.ltb_spec l (Z.of_nat 64)); lia.
Qed.

Lemma ins_keys p x items : keys (ins p x items) = keys (take p items) ++ keyof x :: keys (drop p items).
Proof. unfold keys, ins. by rewrite fmap_app, fmap_cons. Qed.

Lemma klt_kcmp a b : klt a b = true <-> kcmp a b = Lt.
Proof. unfold klt. by destruct (kcmp a b). Qed.

Lemma Forall_prefix items p (Q : key -> Prop) : (forall q v, (q < p)%nat -> items !! q = Some v -> Q (keyof v)) ->
  Forall Q (keys (take p items)).
Proof.
  intros H. unfold keys. rewrite Forall_fmap, Forall_lookup. intros q v Hq. apply lookup_take_Some in Hq as [Hq Hlt].
  by apply (H q).
Qed.

Lemma Forall_suffix items p (Q : key -> Prop) : (forall q v, (p <= q)%nat -> items !! q = Some v -> Q (keyof v)) ->
  Forall Q (keys (drop p items)).
Proof.
  intros H. unfold keys. rewrite Forall_fmap, Forall_lookup. intros q v Hq. rewrite lookup_drop in Hq.
  apply (H (p + q)%nat); [lia|done].
Qed.

Definition absent (k : key) (items : list item) : Prop := Forall (fun a => keq a k = false) (keys items).

Lemma absent_lookup k items p w : absent k items -> items !! p = Some w -> kcmp (keyof w) k <> Eq.
Proof.
  unfold absent. rewrite Forall_lookup. intros H Hw E. specialize (H p (keyof w)). unfold keys in H.
  rewrite list_lookup_fmap, Hw in H. specialize (H eq_refl). unfold keq in H. by rewrite E in H.
Qed.

Lemma ins_ok h' z' items p x : zsl_rep h' z' (ins p x items) -> top_ok z' (ins p x items) ->
  ksorted (keys items) -> Forall valid_key (keys items) -> zlen items < 2 ^ 32 - 1 -> valid_key (keyof x) ->
  (p <= List.length items)%nat -> absent (keyof x) items ->
  (forall q v, (q < p)%nat -> items !! q = Some v -> kcmp (keyof v) (keyof x) <> Gt) ->
  (forall q v, (p <= q)%nat -> items !! q = Some v -> kcmp (keyof v) (keyof x) <> Lt) ->
  zsl_ok h' z' (ins p x items) /\ keys (ins p x items) = kins (keyof x) (keys items).
Proof.
  intros Hr Ht Hs Hv Hsz Hx Hp Hab Hlo Hhi.
  assert (Forall (fun a => klt a (keyof x) = true) (keys (take p items))) as Hl.
  { apply Forall_prefix. intros q v Hq Hqv. apply klt_kcmp. specialize (Hlo q v Hq Hqv).
    pose proof (absent_lookup _ _ _ _ Hab Hqv). by destruct (kcmp (keyof v) (keyof x)). }
  assert (Forall (fun a => kcmp a (keyof x) = Gt) (keys (drop p items))) as Hh.
  { apply Forall_suffix. intros q v Hq Hqv. specialize (Hhi q v Hq Hqv).
    pose proof (absent_lookup _ _ _ _ Hab Hqv). by destruct (kcmp (keyof v) (keyof x)). }
  rewrite (keys_split items p) in Hs, Hv |- *.
  split; [split; [done..| | |]|]; rewrite ?ins_keys.
  - apply ksorted_middle; [done..|]. eapply list.Forall_impl; [exact Hh|]. intros a E. apply klt_kcmp.
    by rewrite kcmp_antisym, E.
  - apply Forall_app in Hv as [Hv1 Hv2]. apply Forall_app. split; [done|by constructor].
  - unfold ins, zlen in *. rewrite length_app. cbn. rewrite length_take, length_drop. lia.
  - symmetry. apply kins_split; [done|]. eapply list.Forall_impl; [exact Hh|]. intros a E. unfold klt. by rewrite E.
Qed.

Definition random_ends (rnd : list Z) : Prop := Exists (fun r => 16384 <= Z.land r 65535) rnd.

Lemma zslInsert_ok g h z items k rnd : zsl_ok h z items -> valid_key k -> absent k items -> zlen items < 2 ^ 32 - 1 ->
  random_ends rnd ->
  exists h' z' x rnd' p lvl, zslInsert g h z (fst k) (snd k) rnd = Some (h', z', x, rnd') /\
    (p <= List.length items)%nat /\
    zsl_ok h' z' (ins p (Item x (fst k) (Some (snd k)) lvl) items) /\
    keys (ins p (Item x (fst k) (Some (snd k)) lvl) items) = kins k (keys items) /\
    shape h x = None /\ header z' = header z /\ (forall b, is_Some (shape h b) -> is_Some (shape h' b)).
Proof.
  intros Hok Hk Hab Hsz Hrnd. pose proof Hok as [Hr Ht Hs Hv _]. unfold zslInsert. rewrite Hk.
  destruct (key_gap_spec false h z items u32 k Hok Hk) as (p & w & update & E & Hw & Hp & Hul & Hu & Hlo & Hhi).
  { intros q Hq. by apply uwrap_small. }
  rewrite E. cbn [mbind option_bind]. destruct (zslRandomLevel_spec rnd Hrnd) as (lvl & rnd' & -> & Hlvl). cbn [mbind option_bind].
  assert (p < List.length (all_items z items))%nat as Hpl by (by apply lookup_lt_Some in Hw).
  destruct (grow_rep h z items p lvl update Hr Hpl Hul Hu ltac:(lia)) as (h1 & up1 & -> & Hr1 & Hu1 & Hs1).
  cbn [mbind option_bind]. set (z1 := Zsl (header z) (tail z) (zlength z) (Nat.max lvl (zlevel z))) in *.
  destruct (zsl_insert_node_spec g h1 z1 items p up1 lvl (fst k) (snd k) Hr1 Hp Hsz Hu1 ltac:(cbn; lia))
    as (h2 & z2 & x & -> & Hx & Hz2 & Hl2 & Hr2 & Hmono).
  cbn [mbind option_bind]. set (new := Item x (fst k) (Some (snd k)) lvl) in *.
  assert (keyof new = k) as Ek by (unfold keyof; cbn; by destruct k).
  destruct (ins_ok h2 z2 items p new Hr2) as [Hok2 Hkeys]; rewrite ?Ek; try done.
  - unfold top_ok. rewrite Hl2. cbn. assert (ins p new items !! p = Some new) as Hnew.
    { destruct (ins_lookup p new z z items Hp eq_refl) as (_ & H & _). exact H. }
    destruct (decide (lvl <= zlevel z)%nat) as [Hle|]; [|right; exists p, new; split; [done|cbn; lia]].
    rewrite Nat.max_r by done. destruct Ht as [Ht|(q & v & Hq & Hqv)]; [by left|]. right.
    destruct (ins_lookup p new z z items Hp eq_refl) as (L1 & _ & L3 & _).
    destruct (decide (q < p)%nat).
    + exists q, v. split; [|done]. by rewrite <- (all_S z), L1 by lia.
    + exists (S q), v. split; [|done]. by rewrite <- (all_S z), L3 by lia.
  - intros q v Hq Hqv. by apply (Hlo q).
  - intros q v Hq Hqv. by apply (Hhi q).
  - exists h2, z2, x, rnd', p, lvl. rewrite Ek in Hkeys. split_and!; [done..|by rewrite <- Hs1|by rewrite Hz2|].
    intros b Hb. apply Hmono. by rewrite Hs1.
Qed.

(** * Deletion *)

Lemma ins_perm_items p x items : ins p x items ≡ₚ x :: items.
Proof. unfold ins. rewrite <- Permutation_middle. by rewrite take_drop. Qed.

Lemma ins_delete p w items : items !! p = Some w -> ins p w (delete p items) = items /\ (p <= List.length (delete p items))%nat.
Proof.
  intros Hw. pose proof (lookup_lt_Some _ _ _ Hw) as Hlt. rewrite list.length_delete by eauto. split; [|lia].
  rewrite delete_take_drop. unfold ins. rewrite take_app_le by (rewrite length_take; lia). rewrite take_take, Nat.min_id.
  rewrite drop_app_ge by (rewrite length_take; lia). rewrite length_take, Nat.min_l, Nat.sub_diag by lia. cbn [drop].
  by apply take_drop_middle.
Qed.

Lemma forward0 h z items p w : zsl_rep h z items -> all_items z items !! p = Some w ->
  exists l, lv h (iaddr w) 0 = Some l /\ forward l = iaddr <$> items !! p.
Proof.
  intros Hr Hw. pose proof (all_height _ _ _ Hr _ _ Hw). pose proof (rep_level _ _ _ Hr).
  destruct (rep_next _ _ _ Hr p w 0 Hw ltac:(lia) ltac:(lia)) as (l & El & Hn). exists l. split; [done|].
  by apply (next0 _ _ _ (all_height _ _ _ Hr)) in Hn.
Qed.

Lemma SFeqb_sym a b : isnan a = false -> isnan b = false -> SFeqb a b = SFeqb b a.
Proof.
  intros Ha Hb. unfold SFeqb. rewrite !SFcompare_dkey by done. rewrite (lex_antisym (dkey a)). by destruct (lex _ _).
Qed.

Lemma SFeqb_ltb a b : SFeqb a b = true -> SFltb a b = false.
Proof. unfold SFeqb, SFltb. by destruct (SFcompare a b) as [[]|]. Qed.

Lemma node_is_spec h z items p k : zsl_ok h z items -> valid_key k ->
  node_is h (iaddr <$> items !! p) (fst k) (snd k) = Some (match items !! p with Some w => keq (keyof w) k | None => false end).
Proof.
  intros Hok Hk. destruct (items !! p) as [w|] eqn:Hw; [|done].
  destruct (item_node _ _ _ _ _ (ok_rep _ _ _ Hok) Hw) as (n & En & Hel & Hsc & _).
  pose proof (items_valid _ _ _ (ok_valid _ _ _ Hok) Hw) as Hv. cbn. rewrite En. cbn [mbind option_bind].
  unfold keq. rewrite Hsc, Hel, kcmp_code by done. rewrite SFeqb_sym by done.
  destruct (SFeqb (fst (keyof w)) (fst k)) eqn:E; [|by destruct (SFltb _ _)].
  rewrite (SFeqb_ltb _ _ E). cbn [mbind option_bind]. f_equal. by destruct (lex (snd (keyof w)) (snd k)).
Qed.

(** The search of [zslDelete] and [zslUpdateScore] finds the key, if it is there. *)
Lemma zsl_seek_spec h z items k : zsl_ok h z items -> valid_key k ->
  exists p x0 update l,
    search (zlevel z) h (fun _ _ f => key_before false h (fst k) (snd k) f) u64 (header z) 0 =
      Some (iaddr x0, Z.of_nat p, update) /\
    lv h (iaddr x0) 0 = Some l /\ update_ok (all_items z items) p (zlevel z) update /\
    ((exists w rest, items = ins p w rest /\ (p <= List.length rest)%nat /\ keq (keyof w) k = true /\
        items !! p = Some w /\ forward l = Some (iaddr w) /\ node_is h (forward l) (fst k) (snd k) = Some true /\
        kdel k (keys items) = keys rest) \/
     (absent k items /\ node_is h (forward l) (fst k) (snd k) = Some false)).
Proof.
  intros Hok Hk.
  destruct (key_gap_spec false h z items u64 k Hok Hk) as (p & x0 & update & E & Hw & Hp & Hul & Hu & Hlo & Hhi).
  { intros q Hq. apply uwrap_small. unfold urange. lia. }
  destruct (forward0 _ _ _ _ _ (ok_rep _ _ _ Hok) Hw) as (l & El & Hf).
  exists p, x0, update, l. split_and!; [done..|]. rewrite Hf, (node_is_spec h z items p k Hok Hk).
  assert (forall q v, (q < p)%nat -> items !! q = Some v -> klt (keyof v) k = true) as Hlo'.
  { intros q v Hq Hv. apply klt_kcmp. destruct (Hlo q v Hq Hv) as [H1 H2]. destruct (kcmp (keyof v) k); [|done|done].
    by specialize (H2 eq_refl). }
  destruct (items !! p) as [w|] eqn:Hpw; [destruct (keq (keyof w) k) eqn:Ek|].
  - left. exists w, (delete p items). destruct (ins_delete p w items Hpw) as [Ei Hpl].
    split_and!; try done. rewrite <- Ei at 1. rewrite ins_keys, kdel_split; [by rewrite <- keys_split| |done].
    apply Forall_prefix. intros q v Hq Hv. apply (Hlo' q v Hq). by rewrite list_lookup_delete_lt in Hv.
  - right. split; [|done]. unfold absent, keys. rewrite Forall_fmap, Forall_lookup. intros q v Hv. cbn.
    destruct (decide (q < p)%nat) as [Hq|Hq].
    { specialize (Hlo' q v Hq Hv). apply klt_kcmp in Hlo'. unfold keq. by rewrite Hlo'. }
    destruct (decide (q = p)) as [->|]; [congruence|].
    pose proof (items_sorted items p q w v (ok_sorted _ _ _ Hok) ltac:(lia) Hpw Hv) as Hlt.
    destruct (Hhi p w ltac:(lia) Hpw) as [H1 _].
    assert (klt k (keyof w) = true) as H2.
    { apply klt_kcmp. rewrite kcmp_antisym. unfold keq in Ek. by destruct (kcmp (keyof w) k). }
    pose proof (klt_trans _ _ _ H2 Hlt) as H3. apply klt_kcmp in H3. unfold keq. by rewrite kcmp_antisym, H3.
  - right. split; [|done]. unfold absent, keys. rewrite Forall_fmap, Forall_lookup. intros q v Hv. cbn.
    apply lookup_ge_None in Hpw. pose proof (lookup_lt_Some _ _ _ Hv).
    specialize (Hlo' q v ltac:(lia) Hv). apply klt_kcmp in Hlo'. unfold keq. by rewrite Hlo'.
Qed.

Lemma rest_ok h' z' p w rest : zsl_rep h' z' rest -> top_ok z' rest -> ksorted (keys (ins p w rest)) ->
  Forall valid_key (keys (ins p w rest)) -> zlen rest < 2 ^ 32 -> zsl_ok h' z' rest.
Proof.
  intros Hr Ht Hs Hv Hsz. rewrite ins_keys in Hs, Hv. split; [done..| | |done]; rewrite (keys_split rest p).
  - apply ksorted_app in Hs as (H1 & H2 & H3). inversion H2; subst. apply ksorted_app. split_and!; [done..|].
    eapply list.Forall_impl; [exact H3|]. intros a Ha. by inversion Ha.
  - apply Forall_app in Hv as [H1 H2]. inversion H2; subst. by apply Forall_app.
Qed.

Lemma zlen_ins p w rest : zlen (ins p w rest) = zlen rest + 1.
Proof. unfold zlen. rewrite (Permutation_length (ins_perm_items p w rest)). cbn. lia. Qed.

(** Freeing a node that is not in the list. *)
Lemma free_outside h z items a : zsl_ok h z items -> a ∉ iaddr <$> all_items z items -> is_Some (shape h a) ->
  exists h', zslFreeNode h a = Some h' /\ zsl_ok h' z items /\ shape h' a = None.
Proof.
  intros [Hr Ht Hs Hv Hsz] Ha Hsh. destruct (zslFreeNode_spec h a Hsh) as (h' & E & Hl & Hs').
  exists h'. split; [done|]. split; [|by rewrite Hs', decide_True]. split; [|done..].
  assert (forall w, w ∈ all_items z items -> iaddr w <> a) as Hne.
  { intros w Hw <-. apply Ha, list_elem_of_fmap. eauto. }
  apply (rep_frame h); [done|..].
  - intros w Hw. rewrite Hs', decide_False; [done|by apply Hne].
  - intros w i Hw. rewrite Hl, decide_False; [done|by apply Hne].
Qed.

Lemma rest_addr h z z' p w rest : zsl_rep h z (ins p w rest) -> header z' = header z ->
  iaddr w ∉ iaddr <$> all_items z' rest.
Proof.
  intros Hr Hz. pose proof (rep_addrs _ _ _ Hr) as Hnd. rewrite (ins_perm p w z' z rest (eq_sym Hz)) in Hnd.
  rewrite fmap_cons in Hnd. by apply list.NoDup_cons in Hnd as [? _].
Qed.

(** [zslDeleteNode] at the place found by the search. *)
Lemma delete_node_ok h z p w rest update : zsl_ok h z (ins p w rest) -> (p <= List.length rest)%nat ->
  update_ok (all_items z (ins p w rest)) p (zlevel z) update ->
  exists h' z', zslDeleteNode h z (iaddr w) update = Some (h', z') /\ header z' = header z /\
    (zlevel z' <= zlevel z)%nat /\ zsl_ok h' z' rest /\ shape h' (iaddr w) = shape h (iaddr w) /\
    (forall b, is_Some (shape h b) -> is_Some (shape h' b)).
Proof.
  intros [Hr Ht Hs Hv Hsz] Hp Hu. rewrite zlen_ins in Hsz.
  destruct (zslDeleteNode_spec h z rest p w update Hr Hp ltac:(lia) Hu) as (h' & z' & E & Hz & Hl & Hr' & Ht' & Hsh & Hm).
  exists h', z'. split_and!; [done..| |done|done]. eapply rest_ok; [done..|lia].
Qed.

Lemma zslDelete_ok h z items k keep : zsl_ok h z items -> valid_key k ->
  (exists w rest h' z', items ≡ₚ w :: rest /\ keq (keyof w) k = true /\
    zslDelete h z (fst k) (snd k) keep = Some (1, if keep : bool then Some (iaddr w) else None, h', z') /\
    zsl_ok h' z' rest /\ keys rest = kdel k (keys items) /\ header z' = header z /\
    shape h' (iaddr w) = if keep then shape h (iaddr w) else None) \/
  (absent k items /\ zslDelete h z (fst k) (snd k) keep = Some (0, None, h, z)).
Proof.
  intros Hok Hk. destruct (zsl_seek_spec h z items k Hok Hk) as (p & x0 & update & l & E & El & Hu & Hcase).
  unfold zslDelete. rewrite E. cbn [mbind option_bind]. rewrite El. cbn [mbind option_bind].
  destruct Hcase as [(w & rest & -> & Hp & Hkw & Hpw & Hf & -> & Hdel)|[Hab ->]]; [left|by right].
  cbn [mbind option_bind]. rewrite Hf. cbn [mbind option_bind].
  destruct (delete_node_ok h z p w rest update Hok Hp Hu) as (h1 & z1 & -> & Hz & _ & Hok1 & Hsh & Hm). cbn [mbind option_bind].
  pose proof (rest_addr h z z1 p w rest (ok_rep _ _ _ Hok) Hz) as Hout.
  pose proof (rep_shape _ _ _ (ok_rep _ _ _ Hok) (S p) w Hpw) as Hshw.
  destruct keep.
  - exists w, rest, h1, z1. split_and!; try done. apply ins_perm_items.
  - destruct (free_outside h1 z1 rest (iaddr w) Hok1 Hout) as (h2 & -> & Hok2 & Hn).
    { rewrite Hsh. eauto. }
    exists w, rest, h2, z1. split_and!; try done. apply ins_perm_items.
Qed.

(** * Update of a score *)

Lemma is_next_same (all all' : list item) i p l : List.length all = List.length all' ->
  (forall q, (fun w => (iaddr w, iheight w)) <$> all !! q = (fun w => (iaddr w, iheight w)) <$> all' !! q) ->
  is_next all i p l -> is_next all' i p l.
Proof.
  intros Hl Hq. assert (forall q w', all' !! q = Some w' -> exists w, all !! q = Some w /\ iaddr w = iaddr w' /\ iheight w = iheight w') as Hb.
  { intros q w' Hw. specialize (Hq q). rewrite Hw in Hq. destruct (all !! q) as [w|]; [|done]. injection Hq as E1 E2. eauto. }
  unfold is_next. destruct (forward l) as [f|].
  - intros (q & w & Hpq & Hw & Hf & Hi & Hs & Hbet). specialize (Hq q) as E. rewrite Hw in E.
    destruct (all' !! q) as [w'|] eqn:Hw'; [|done]. injection E as E1 E2. exists q, w'.
    split_and!; [done..|congruence|congruence|done|]. intros q' v' Hq' Hv'. destruct (Hb q' v' Hv') as (v & Hv & _ & <-). by eapply Hbet.
  - intros [Hn Hs]. split; [|by rewrite <- Hl]. intros q w' Hpq Hw'. destruct (Hb q w' Hw') as (v & Hv & _ & <-). by eapply Hn.
Qed.

(** Writing a score in place. *)
Lemma rescore_rep h z p w rest s : zsl_rep h z (ins p w rest) -> (p <= List.length rest)%nat ->
  exists h', set_score h (iaddr w) s = Some h' /\ zsl_rep h' z (ins p (Item (iaddr w) s (iele w) (iheight w)) rest).
Proof.
  intros Hr Hp. set (w' := Item (iaddr w) s (iele w) (iheight w)).
  destruct (ins_lookup p w z z rest Hp eq_refl) as (L1 & L2 & L3 & L4).
  destruct (ins_lookup p w' z z rest Hp eq_refl) as (M1 & M2 & M3 & M4).
  destruct (set_score_spec h (iaddr w) s _ _ _ _ (rep_shape _ _ _ Hr _ _ L2)) as (h' & E & Hl & Hs). exists h'. split; [done|].
  assert (Hlk : forall q v', all_items z (ins p w' rest) !! q = Some v' -> (q = S p /\ v' = w') \/
    (q <> S p /\ all_items z (ins p w rest) !! q = Some v')).
  { intros q v' Hv. destruct (decide (q <= p)%nat); [right; rewrite L1, <- M1 by done; split; [lia|done]|].
    destruct (decide (q = S p)) as [->|]; [left; split; [done|congruence]|]. right. split; [done|].
    destruct q as [|q]; [lia|]. rewrite L3, <- M3 by lia. done. }
  assert (Hsame : forall q, (fun w => (iaddr w, iheight w)) <$> all_items z (ins p w rest) !! q =
    (fun w => (iaddr w, iheight w)) <$> all_items z (ins p w' rest) !! q).
  { intros q. destruct (decide (q <= p)%nat); [by rewrite L1, M1|]. destruct (decide (q = S p)) as [->|]; [by rewrite L2, M2|].
    destruct q as [|q]; [lia|]. by rewrite L3, M3 by lia. }
  assert (Hback : forall q, back (all_items z (ins p w rest)) q = back (all_items z (ins p w' rest)) q).
  { intros [|[|q]]; [done..|]. cbn. specialize (Hsame (S q)).
    destruct (all_items z (ins p w rest) !! S q), (all_items z (ins p w' rest) !! S q); try done. injection Hsame as E1 E2; cbn; by rewrite E1. }
  assert (Haddr : iaddr <$> all_items z (ins p w' rest) = iaddr <$> all_items z (ins p w rest)).
  { apply list_eq. intros q. rewrite !list_lookup_fmap. specialize (Hsame q).
    destruct (all_items z (ins p w rest) !! q), (all_items z (ins p w' rest) !! q); try done. injection Hsame as E1 E2; cbn; by rewrite E1. }
  pose proof Hr as [R1 R2 R3 R4 R5 R6 R7 R8 R9]. split; try done.
  - intros q v Hv. rewrite Hs, <- Hback. destruct (Hlk q v Hv) as [[-> ->]|[Hne Hv']]; [by rewrite decide_True|].
    rewrite decide_False; [by apply R1|]. intros Ea. by destruct (rep_inj _ _ _ Hr q (S p) v w Hv' L2 Ea).
  - intros q v i Hv Hi Hz. specialize (Hsame q) as Eq. rewrite Hv in Eq.
    destruct (all_items z (ins p w rest) !! q) as [v0|] eqn:Hv0; [|done]. injection Eq as Ea Eh.
    destruct (R2 q v0 i Hv0 ltac:(lia) Hz) as (l & El & Hn). exists l. rewrite Hl, <- Ea. split; [done|].
    eapply is_next_same; [|exact Hsame|done]. by rewrite L4, M4.
  - intros i Hi. rewrite Hl. by apply R3.
  - by rewrite Haddr.
  - intros q v Hv. destruct (Hlk (S q) v Hv) as [[_ ->]|[_ Hv']]; [exact (R5 p w L2)|by apply (R5 q)].
  - intros q v Hv. destruct (Hlk (S q) v Hv) as [[_ ->]|[_ Hv']]; [exact (R7 p w L2)|by apply (R7 q)].
  - rewrite R8. by rewrite !zlen_ins.
  - rewrite R9, !last_ins by done. by destruct (decide _).
Qed.

Lemma SFltb_klt a b : valid_key a -> valid_key b -> SFltb (fst a) (fst b) = true -> klt a b = true.
Proof. intros Ha Hb H. apply klt_kcmp. by rewrite kcmp_code, H. Qed.

Lemma neighbours_spec h z items p w n l0 k' : zsl_ok h z items -> items !! p = Some w -> valid_key k' ->
  h !! iaddr w = Some n -> lv h (iaddr w) 0 = Some l0 ->
  exists b : bool, neighbours_test h n l0 (fst k') = Some b /\
    (b = true ->
      (forall q v, (q < p)%nat -> items !! q = Some v -> klt (keyof v) k' = true) /\
      (forall q v, (p < q)%nat -> items !! q = Some v -> klt k' (keyof v) = true)).
Proof.
  intros Hok Hw Hk En El. pose proof Hok as [Hr Ht Hs Hv Hsz].
  destruct (item_node _ _ _ _ _ Hr Hw) as (n' & En' & _ & _ & Hb & _).
  assert (n' = n) as -> by congruence. clear En'.
  destruct (forward0 _ _ _ (S p) w Hr Hw) as (l & El' & Hf). assert (l = l0) as -> by congruence.
  unfold neighbours_test. rewrite Hb, Hf.
  assert (exists b1 : bool, match back (all_items z items) (S p) with
    | None => Some true | Some b => nb ← h !! b; Some (SFltb (score nb) (fst k')) end = Some b1 /\
    (b1 = true -> forall q v, (q < p)%nat -> items !! q = Some v -> klt (keyof v) k' = true)) as (b1 & -> & Hb1).
  { destruct p as [|p]; cbn [back]; [exists true; split; [done|lia]|]. rewrite all_S.
    destruct (items !! p) as [u|] eqn:Hu; [|apply lookup_ge_None in Hu; apply lookup_lt_Some in Hw; lia]. cbn [fmap option_fmap option_map].
    destruct (item_node _ _ _ _ _ Hr Hu) as (nu & Enu & _ & Hsc & _). rewrite Enu. cbn [mbind option_bind]. rewrite Hsc.
    eexists. split; [done|]. intros Hlt q v Hq Hqv.
    pose proof (SFltb_klt _ _ (items_valid _ _ _ Hv Hu) Hk Hlt) as Huk.
    destruct (decide (q = p)) as [->|]; [congruence|]. eapply klt_trans; [|exact Huk].
    apply (items_sorted items q p v u Hs); [lia|done..]. }
  cbn [mbind option_bind]. destruct b1; [|by exists false].
  destruct (items !! S p) as [u|] eqn:Hu; cbn [fmap option_fmap option_map].
  - destruct (item_node _ _ _ _ _ Hr Hu) as (nu & Enu & _ & Hsc & _). rewrite Enu. cbn [mbind option_bind]. rewrite Hsc.
    eexists. split; [done|]. intros Hlt. split; [by apply Hb1|]. intros q v Hq Hqv.
    pose proof (SFltb_klt _ _ Hk (items_valid _ _ _ Hv Hu) Hlt) as Huk.
    destruct (decide (q = S p)) as [->|]; [congruence|]. eapply klt_trans; [exact Huk|].
    apply (items_sorted items (S p) q u v Hs); [lia|done..].
  - exists true. split; [done|]. intros _. split; [by apply Hb1|]. intros q v Hq Hqv.
    apply lookup_ge_None in Hu. apply lookup_lt_Some in Hqv. lia.
Qed.

(** The lookups of a list with one more item, in [items]. *)
Lemma rest_lookup p w rest q v : (p <= List.length rest)%nat -> rest !! q = Some v ->
  ((q < p)%nat /\ ins p w rest !! q = Some v) \/ ((p <= q)%nat /\ ins p w rest !! S q = Some v).
Proof.
  intros Hp Hv. destruct (ins_lookup p w (Zsl 1 None 0 1) (Zsl 1 None 0 1) rest Hp eq_refl) as (L1 & _ & L3 & _).
  destruct (decide (q < p)%nat); [left|right]; (split; [lia|]).
  - rewrite <- (all_S (Zsl 1 None 0 1)), L1 by lia. done.
  - rewrite <- (all_S (Zsl 1 None 0 1)), L3 by lia. done.
Qed.

Lemma absent_rest k p rest : (forall q v, (q < p)%nat -> rest !! q = Some v -> klt (keyof v) k = true) ->
  (forall q v, (p <= q)%nat -> rest !! q = Some v -> klt k (keyof v) = true) -> absent k rest.
Proof.
  intros Hlo Hhi. unfold absent, keys. rewrite Forall_fmap, Forall_lookup. intros q v Hv. cbn. unfold keq.
  destruct (decide (q < p)%nat).
  - specialize (Hlo q v ltac:(lia) Hv). apply klt_kcmp in Hlo. by rewrite Hlo.
  - specialize (Hhi q v ltac:(lia) Hv). apply klt_kcmp in Hhi. by rewrite kcmp_antisym, Hhi.
Qed.

(** Replacing a key in place, when its neighbours allow it. *)
Lemma replace_ok h h' z p w w' rest : zsl_ok h z (ins p w rest) -> (p <= List.length rest)%nat ->
  zsl_rep h' z (ins p w' rest) -> iheight w' = iheight w -> valid_key (keyof w') ->
  (forall q v, (q < p)%nat -> ins p w rest !! q = Some v -> klt (keyof v) (keyof w') = true) ->
  (forall q v, (p < q)%nat -> ins p w rest !! q = Some v -> klt (keyof w') (keyof v) = true) ->
  zsl_ok h' z (ins p w' rest) /\ keys (ins p w' rest) = kins (keyof w') (keys rest).
Proof.
  intros [Hr Ht Hs Hv Hsz] Hp Hr' Hh Hvw Hlo Hhi. rewrite zlen_ins in Hsz.
  assert (Hlo' : forall q v, (q < p)%nat -> rest !! q = Some v -> klt (keyof v) (keyof w') = true).
  { intros q v Hq Hqv. destruct (rest_lookup p w rest q v Hp Hqv) as [[_ H]|[H _]]; [by apply (Hlo q)|lia]. }
  assert (Hhi' : forall q v, (p <= q)%nat -> rest !! q = Some v -> klt (keyof w') (keyof v) = true).
  { intros q v Hq Hqv. destruct (rest_lookup p w rest q v Hp Hqv) as [[H _]|[_ H]]; [lia|apply (Hhi (S q)); [lia|done]]. }
  rewrite ins_keys in Hs, Hv. apply ksorted_app in Hs as (H1 & H2 & H3). apply Forall_app in Hv as [Hv1 Hv2].
  inversion H2; subst. inversion Hv2; subst. apply ins_ok; try done.
  - destruct Ht as [Ht|(q & v & Hq & Hqv)]; [by left|]. right. apply list_elem_of_lookup_2 in Hq.
    rewrite ins_perm_items in Hq. apply list.elem_of_cons in Hq as [->|Hq].
    + exists p, w'. destruct (ins_lookup p w' z z rest Hp eq_refl) as (_ & H & _). split; [exact H|congruence].
    + assert (v ∈ ins p w' rest) as Hin by (rewrite ins_perm_items; by apply list_elem_of_further).
      apply list_elem_of_lookup in Hin as [q' Hq']. eauto.
  - rewrite (keys_split rest p). apply ksorted_app. split_and!; [done..|]. eapply list.Forall_impl; [exact H3|].
    intros a Ha. by inversion Ha.
  - rewrite (keys_split rest p). by apply Forall_app.
  - lia.
  - by apply (absent_rest _ p).
  - intros q v Hq Hqv. specialize (Hlo' q v Hq Hqv). apply klt_kcmp in Hlo'. by rewrite Hlo'.
  - intros q v Hq Hqv. specialize (Hhi' q v Hq Hqv). apply klt_kcmp in Hhi'. by rewrite kcmp_antisym, Hhi'.
Qed.

Lemma zslUpdateScore_ok g h z items k s rnd : zsl_ok h z items -> valid_key k -> isnan s = false ->
  ~ absent k items -> Forall (fun a => keq a (s, snd k) = false) (kdel k (keys items)) -> random_ends rnd ->
  exists h' z' w w' rest items' rnd', items ≡ₚ w :: rest /\ keq (keyof w) k = true /\
    zslUpdateScore g h z (fst k) (snd k) s rnd = Some (h', z', iaddr w', rnd') /\ zsl_ok h' z' items' /\
    items' ≡ₚ w' :: rest /\ keyof w' = (s, snd k) /\ keys items' = kins (s, snd k) (kdel k (keys items)) /\
    header z' = header z.
Proof.
  intros Hok Hk Hs Hin Hnew Hrnd. destruct (zsl_seek_spec h z items k Hok Hk) as (p & x0 & update & l & E & El & Hu & Hcase).
  unfold zslUpdateScore. rewrite E. cbn [mbind option_bind]. rewrite El. cbn [mbind option_bind].
  destruct Hcase as [(w & rest & -> & Hp & Hkw & Hpw & Hf & -> & Hdel)|[Hab _]]; [|done].
  cbn [mbind option_bind negb]. rewrite Hf. cbn [mbind option_bind].
  destruct (item_node _ _ _ _ _ (ok_rep _ _ _ Hok) Hpw) as (n & En & Hel & Hsc & _). rewrite En. cbn [mbind option_bind].
  destruct (forward0 _ _ _ (S p) w (ok_rep _ _ _ Hok) Hpw) as (l0 & El0 & _).
  rewrite <- (lv_node _ _ _ 0 En), El0. cbn [mbind option_bind].
  destruct (neighbours_spec h z (ins p w rest) p w n l0 (s, snd k) Hok Hpw Hs En El0) as (b & Eb & Hb).
  cbn [fst] in Eb. rewrite Eb. cbn [mbind option_bind]. rewrite Hdel in Hnew |- *. pose proof (keq_ele _ _ Hkw) as Hele. destruct b.
  - destruct (Hb eq_refl) as [Hlo Hhi]. clear Hb.
    destruct (rescore_rep h z p w rest s (ok_rep _ _ _ Hok) Hp) as (h' & -> & Hr'). cbn [mbind option_bind].
    set (w' := Item (iaddr w) s (iele w) (iheight w)) in *.
    assert (keyof w' = (s, snd k)) as Ek' by (unfold keyof in *; cbn in *; by rewrite Hele).
    destruct (replace_ok h h' z p w w' rest Hok Hp Hr' eq_refl) as [Hok' Hkeys]; rewrite ?Ek'; try done.
    exists h', z, w, w', rest, (ins p w' rest), rnd. rewrite Ek' in Hkeys.
    split_and!; try done; apply ins_perm_items.
  - destruct (delete_node_ok h z p w rest update Hok Hp Hu) as (h1 & z1 & -> & Hz1 & _ & Hok1 & Hsh1 & _).
    cbn [mbind option_bind]. pose proof (rep_shape _ _ _ (ok_rep _ _ _ Hok) (S p) w Hpw) as Hshw. rewrite Hshw in Hsh1.
    destruct (shape_node _ _ _ _ _ _ Hsh1) as (n1 & En1 & Hel1 & _). rewrite En1. cbn [mbind option_bind].
    rewrite Hel1, (item_key _ _ _ _ _ (ok_rep _ _ _ Hok) Hpw), Hele. cbn [mbind option_bind].
    assert (zlen rest < 2 ^ 32 - 1) as Hsz by (pose proof (ok_size _ _ _ Hok) as H; rewrite zlen_ins in H; lia).
    destruct (zslInsert_ok g h1 z1 rest (s, snd k) rnd Hok1 Hs Hnew Hsz Hrnd)
      as (h2 & z2 & x & rnd' & q & lvl & E2 & Hq & Hok2 & Hkeys & Hx & Hz2 & Hm).
    cbn [fst snd] in *. rewrite E2. cbn [mbind option_bind].
    destruct (free_outside h2 z2 _ (iaddr w) Hok2) as (h3 & -> & Hok3 & _).
    + rewrite (ins_perm q _ z z2 rest) by congruence. rewrite fmap_cons. apply list.not_elem_of_cons.
      split; [cbn; intros <-; congruence|]. eapply rest_addr; [apply (ok_rep _ _ _ Hok)|done].
    + apply Hm. rewrite Hsh1. eauto.
    + cbn [mbind option_bind]. exists h3, z2, w, (Item x s (Some (snd k)) lvl), rest. eexists _, _.
      split_and!; [apply ins_perm_items|done..|apply ins_perm_items|done|done|congruence].
Qed.

(** * Ranks *)

Definition eles (items : list item) : list bytes := (fun w => snd (keyof w)) <$> items.

(** One level of a counting loop: the positions reached satisfy [P] and the next node does not. *)
Lemma advance_gap h z items cond (P : nat -> item -> bool) i p w : zsl_rep h z items -> zlen items < 2 ^ 32 ->
  (forall q v tr sp, items !! q = Some v -> tr + sp = Z.of_nat (S q) -> cond tr sp (iaddr v) = Some (P q v)) ->
  (forall q q' v v', (q < q')%nat -> items !! q = Some v -> items !! q' = Some v' -> P q' v' = true -> P q v = true) ->
  (i < zlevel z)%nat -> all_items z items !! p = Some w -> (i < iheight w)%nat ->
  exists p' w', advance (map_size h) h cond u64 i (iaddr w) (Z.of_nat p) = Some (iaddr w', Z.of_nat p') /\
    (p <= p')%nat /\ all_items z items !! p' = Some w' /\ (i < iheight w')%nat /\
    (p' = p \/ forall q v, (q < p')%nat -> items !! q = Some v -> P q v = true) /\
    (i = 0%nat -> forall v, items !! p' = Some v -> P p' v = false).
Proof.
  intros Hr Hsz Hcond Hmono Hi Hw Hiw.
  destruct (advance_spec h z items Hr cond u64 (fun q w => P (Nat.pred q) w)) with (fuel := map_size h) (p := p) (w := w) (i := i)
    as (p' & w' & E & Hle & Hw' & Hiw' & Hc & Hs); [| |done..|pose proof (rep_fuel _ _ _ Hr); lia|].
  { intros [|q] v tr sp Hq Hv Ht; [lia|]. by apply Hcond. }
  { intros q Hq. pose proof (rep_pos_range _ _ _ _ Hr Hsz Hq). apply uwrap_small. unfold urange. lia. }
  exists p', w'. split_and!; [done..| |].
  - destruct (decide (p' = p)) as [|Hne]; [by left|]. right. intros q v Hq Hv.
    destruct p' as [|p']; [lia|]. specialize (Hc (S p') w' ltac:(lia) Hw' ltac:(lia)). cbn in Hc. rewrite all_S in Hw'.
    destruct (decide (q = p')) as [->|]; [congruence|]. apply (Hmono q p' v w'); [lia|done..].
  - intros -> v Hv. apply (Hs (S p') v); [lia|done| |intros; lia]. pose proof (rep_heights _ _ _ Hr _ _ Hv). lia.
Qed.

Lemma pos_ele h z items p w n : zsl_rep h z items -> all_items z items !! p = Some w -> h !! iaddr w = Some n ->
  ele n = match p with O => None | S q => snd <$> (keyof <$> items !! q) end.
Proof.
  intros Hr Hw En. destruct p as [|q].
  - injection Hw as <-. pose proof (rep_shape _ _ _ Hr 0 (hdr z) eq_refl) as Hs.
    destruct (shape_node _ _ _ _ _ _ Hs) as (n' & En' & Hel & _). cbn in *. congruence.
  - rewrite all_S in Hw. destruct (item_node _ _ _ _ _ Hr Hw) as (n' & En' & Hel & _). rewrite Hw.
    assert (n' = n) as -> by congruence. exact Hel.
Qed.

Lemma all_node h z items p w : zsl_rep h z items -> all_items z items !! p = Some w -> exists n, h !! iaddr w = Some n.
Proof. intros Hr Hw. destruct (shape_node _ _ _ _ _ _ (rep_shape _ _ _ Hr p w Hw)) as (n & En & _). eauto. Qed.

Lemma lex_refl_bool e : bool_decide (lex e e = Eq) = true.
Proof. apply bool_decide_eq_true. by apply lex_eq. Qed.

Lemma get_rank_loop_spec h z items k t w n : zsl_ok h z items -> valid_key k -> NoDup (eles items) ->
  items !! t = Some w -> keq (keyof w) k = true -> forall p v, (1 <= n <= zlevel z)%nat ->
  all_items z items !! p = Some v -> (n <= iheight v)%nat -> (p <= t)%nat ->
  get_rank_loop n h (fst k) (snd k) (iaddr v) (Z.of_nat p) = Some (Z.of_nat (S t)).
Proof.
  intros Hok Hk Hnd Hw Hkw. pose proof Hok as [Hr Ht Hs Hv Hsz].
  induction n as [|i IH]; intros p v Hn Hp Hh Hpt; [lia|]. cbn [get_rank_loop].
  set (P := fun (_ : nat) u => match kcmp (keyof u) k with Lt | Eq => true | Gt => false end).
  assert (HP : forall q u, items !! q = Some u -> P q u = true <-> (q <= t)%nat).
  { intros q u Hu. unfold P. assert (kcmp k (keyof w) = Eq) as Ekw.
    { rewrite kcmp_antisym. unfold keq in Hkw. by destruct (kcmp (keyof w) k). }
    rewrite (kcmp_antisym k). rewrite (kcmp_eq_l k (keyof w) (keyof u) Ekw).
    destruct (decide (q = t)) as [->|Hne].
    { replace u with w by congruence. unfold kcmp. rewrite (proj2 (lex_eq _ _) eq_refl). cbn. split; [lia|done]. }
    destruct (decide (q < t)%nat).
    - pose proof (items_sorted _ _ _ _ _ Hs l Hu Hw) as Hlt. apply klt_kcmp in Hlt. rewrite kcmp_antisym, Hlt. cbn.
      split; [lia|done].
    - pose proof (items_sorted _ t q _ _ Hs ltac:(lia) Hw Hu) as Hlt. apply klt_kcmp in Hlt. rewrite Hlt. cbn.
      split; [done|lia]. }
  destruct (advance_gap h z items (fun _ _ f => key_before true h (fst k) (snd k) f) P i p v Hr Hsz)
    as (p' & v' & -> & Hle & Hp' & Hi' & Hc & Hst); [| |lia|done|lia|].
  { intros q u tr sp Hu _. rewrite (key_before_spec true h z items q u k Hr Hu (items_valid _ _ _ Hv Hu) Hk).
    unfold P. by destruct (kcmp _ _). }
  { intros q q' u u' Hq Hu Hu' H. apply (HP q u Hu). apply (HP q' u' Hu') in H. lia. }
  cbn [mbind option_bind]. destruct (all_node _ _ _ _ _ Hr Hp') as [nd En]. rewrite En. cbn [mbind option_bind].
  rewrite (pos_ele _ _ _ _ _ _ Hr Hp' En).
  assert (p' <= S t)%nat as Hp't.
  { destruct Hc as [->|Hc]; [lia|]. destruct p' as [|q]; [lia|]. rewrite all_S in Hp'.
    specialize (Hc q v' ltac:(lia) Hp'). apply (HP q v' Hp') in Hc. lia. }
  destruct (decide (p' = S t)) as [->|Hne].
  { rewrite Hw. cbn [fmap option_fmap option_map]. by rewrite (keq_ele _ _ Hkw), lex_refl_bool. }
  assert (match match p' with O => None | S q => snd <$> (keyof <$> items !! q) end with
          | Some e => bool_decide (lex e (snd k) = Eq) | None => false end = false) as ->.
  { destruct p' as [|q]; [done|]. rewrite all_S in Hp'. rewrite Hp'. cbn [fmap option_fmap option_map]. apply bool_decide_eq_false.
    intros E. apply lex_eq in E. apply Hne. f_equal. eapply NoDup_lookup; [exact Hnd|unfold eles; rewrite list_lookup_fmap, Hp'; done|].
    unfold eles. rewrite list_lookup_fmap, Hw. cbn [fmap option_fmap option_map]. by rewrite (keq_ele _ _ Hkw), <- E. }
  destruct i as [|i].
  - exfalso. destruct (items !! p') as [u|] eqn:Hu; [|apply lookup_ge_None in Hu; apply lookup_lt_Some in Hw; lia].
    specialize (Hst eq_refl u eq_refl). assert (P p' u = true) by (apply (HP p' u Hu); lia). congruence.
  - apply IH; [lia|done|lia|lia].
Qed.

Lemma get_rank_loop_absent h z items k n : zsl_ok h z items -> valid_key k -> snd k ∉ eles items ->
  forall p v, (n <= zlevel z)%nat -> all_items z items !! p = Some v -> (n <= iheight v)%nat ->
  get_rank_loop n h (fst k) (snd k) (iaddr v) (Z.of_nat p) = Some 0.
Proof.
  intros Hok Hk Hne. pose proof Hok as [Hr Ht Hs Hv Hsz].
  induction n as [|i IH]; intros p v Hn Hp Hh; [done|]. cbn [get_rank_loop].
  destruct (advance_spec h z items Hr (fun _ _ f => key_before true h (fst k) (snd k) f) u64
    (fun _ u => match kcmp (keyof u) k with Lt | Eq => true | Gt => false end)) with (fuel := map_size h) (p := p) (w := v) (i := i)
    as (p' & v' & E & Hle & Hp' & Hi' & _); [| |done|lia|lia|pose proof (rep_fuel _ _ _ Hr); lia|].
  { intros [|q] u tr sp Hq Hu _; [lia|]. rewrite (key_before_spec true h z items q u k Hr Hu (items_valid _ _ _ Hv Hu) Hk).
    by destruct (kcmp _ _). }
  { intros q Hq. pose proof (rep_pos_range _ _ _ _ Hr Hsz Hq). apply uwrap_small. unfold urange. lia. }
  rewrite E. cbn [mbind option_bind]. destruct (all_node _ _ _ _ _ Hr Hp') as [nd En]. rewrite En. cbn [mbind option_bind].
  rewrite (pos_ele _ _ _ _ _ _ Hr Hp' En).
  assert (match match p' with O => None | S q => snd <$> (keyof <$> items !! q) end with
          | Some e => bool_decide (lex e (snd k) = Eq) | None => false end = false) as ->.
  { destruct p' as [|q]; [done|]. rewrite all_S in Hp'. rewrite Hp'. cbn [fmap option_fmap option_map]. apply bool_decide_eq_false.
    intros E2. apply lex_eq in E2. apply Hne. unfold eles. rewrite list_elem_of_fmap. exists v'.
    split; [done|]. by eapply list_elem_of_lookup_2. }
  apply IH; [lia|done|lia].
Qed.

Lemma get_element_loop_spec h z items r n : zsl_ok h z items -> forall p v, (n <= zlevel z)%nat ->
  all_items z items !! p = Some v -> (n <= iheight v)%nat -> (p <= r)%nat -> (1 <= n)%nat ->
  get_element_loop n h (Z.of_nat r) (iaddr v) (Z.of_nat p) = Some (iaddr <$> all_items z items !! r).
Proof.
  intros Hok. pose proof Hok as [Hr Ht Hs Hv Hsz].
  induction n as [|i IH]; intros p v Hn Hp Hh Hpr H1; [lia|]. cbn [get_element_loop].
  destruct (advance_gap h z items (fun tr sp _ => Some (u64 (tr + sp) <=? Z.of_nat r)) (fun q _ => bool_decide (S q <= r)%nat)
    i p v Hr Hsz) as (p' & v' & -> & Hle & Hp' & Hi' & Hc & Hst); [| |lia|done|lia|].
  { intros q u tr sp Hu ->. f_equal.
    assert (S q < List.length (all_items z items))%nat as Hq by (apply lookup_lt_Some in Hu; unfold all_items; cbn; lia).
    pose proof (rep_pos_range _ _ _ _ Hr Hsz Hq). rewrite uwrap_small by (unfold urange; lia).
    destruct (bool_decide_reflect (S q <= r)%nat); [apply Z.leb_le; lia|apply Z.leb_gt; lia]. }
  { intros q q' u u' Hq _ _. rewrite !bool_decide_eq_true. lia. }
  cbn [mbind option_bind]. assert (p' <= r)%nat as Hp'r.
  { destruct Hc as [->|Hc]; [done|]. destruct p' as [|q]; [lia|]. rewrite all_S in Hp'.
    specialize (Hc q v' ltac:(lia) Hp'). by apply bool_decide_eq_true in Hc. }
  destruct (Z.eqb_spec (Z.of_nat p') (Z.of_nat r)) as [E|E].
  { replace r with p' by lia. by rewrite Hp'. }
  destruct i as [|i]; [|apply IH; [lia|done|lia|lia|lia]]. cbn [get_element_loop].
  destruct (items !! p') as [u|] eqn:Hu.
  - specialize (Hst eq_refl u eq_refl). apply bool_decide_eq_false in Hst. lia.
  - apply lookup_ge_None in Hu. apply lookup_lt_Some in Hp'. rewrite (lookup_ge_None_2 (all_items z items) r); [done|].
    unfold all_items. cbn. lia.
Qed.

(** * Ranges *)

(** [a >= b], or [a > b] when the bound is excluded, of a comparison of [a] with [b]. *)
Definition above (c : comparison) (ex : bool) : bool :=
  match c with Gt => true | Eq => negb ex | Lt => false end.

Lemma lex_le a b m ex : lex a b <> Gt -> above (lex a m) ex = true -> above (lex b m) ex = true.
Proof.
  intros Hab Ha. destruct (lex a b) eqn:E; [apply lex_eq in E as ->; done| |done].
  destruct (lex a m) eqn:Em; [apply lex_eq in Em as ->; by rewrite (lex_antisym m), E|done|].
  assert (lex m b = Lt) as H by (eapply lex_trans; [|exact E]; by rewrite lex_antisym, Em).
  by rewrite (lex_antisym m), H.
Qed.

Lemma lex_ge a b m ex : lex a b <> Gt -> above (lex m b) ex = true -> above (lex m a) ex = true.
Proof.
  intros Hab Ha. destruct (lex a b) eqn:E; [apply lex_eq in E as ->; done| |done].
  destruct (lex m b) eqn:Em; [apply lex_eq in Em as ->; by rewrite (lex_antisym a), E|done|].
  assert (lex a m = Lt) as H by (eapply lex_trans; [exact E|]; by rewrite lex_antisym, Em).
  by rewrite (lex_antisym a), H.
Qed.

Section Ranges.
Context (h : heap) (z : zskiplist) (items : list item) (Hok : zsl_ok h z items).
Context (f : item -> list Z) (mn mx : list Z) (ex1 ex2 : bool).
Context (Hmono : forall p q v w, (p < q)%nat -> items !! p = Some v -> items !! q = Some w -> lex (f v) (f w) <> Gt).
Definition gte (w : item) : bool := above (lex (f w) mn) ex1.
Definition lte (w : item) : bool := above (lex mx (f w)) ex2.
Definition in_range (w : item) : bool := gte w && lte w.
Context (G L : positive -> option bool).
Context (HG : forall q w, items !! q = Some w -> G (iaddr w) = Some (gte w)).
Context (HL : forall q w, items !! q = Some w -> L (iaddr w) = Some (lte w)).
#[local] Set Default Proof Using "Type*".

Lemma gte_mono p q v w : (p <= q)%nat -> items !! p = Some v -> items !! q = Some w -> gte v = true -> gte w = true.
Proof.
  intros Hpq Hv Hw. destruct (decide (p = q)) as [->|]; [congruence|]. apply lex_le, (Hmono p q); [lia|done..].
Qed.

Lemma lte_mono p q v w : (p <= q)%nat -> items !! p = Some v -> items !! q = Some w -> lte w = true -> lte v = true.
Proof.
  intros Hpq Hv Hw. destruct (decide (p = q)) as [->|]; [congruence|]. apply lex_ge, (Hmono p q); [lia|done..].
Qed.

Lemma filter_none l : (forall q w, l !! q = Some w -> in_range w = false) -> List.filter in_range l = [].
Proof.
  induction l as [|a l IH]; intros H; [done|]. cbn. rewrite (H 0%nat a eq_refl). apply IH. intros q w Hw. by apply (H (S q)).
Qed.

(** The ranges that are empty whatever the list. *)
Definition empty_range : bool := match lex mn mx with Gt => true | Eq => ex1 || ex2 | Lt => false end.

Lemma empty_range_none : empty_range = true -> List.filter in_range items = [].
Proof.
  intros He. apply filter_none. intros _ w _. unfold in_range, gte, lte, empty_range in *.
  destruct (lex (f w) mn) eqn:E1; [|done|]; destruct (lex mx (f w)) eqn:E2; cbn; rewrite ?andb_false_r; try done.
  - apply lex_eq in E1. apply lex_eq in E2. assert (lex mn mx = Eq) as E by (apply lex_eq; congruence). rewrite E in He.
    by destruct ex1, ex2.
  - apply lex_eq in E1. rewrite E1 in E2. rewrite (lex_antisym mx), E2 in He. done.
  - apply lex_eq in E2. rewrite <- E2 in E1. rewrite (lex_antisym mx), E1 in He. done.
  - assert (lex mn mx = Lt) as E; [|by rewrite E in He].
    apply (lex_trans _ (f w)); [by rewrite lex_antisym, E1|by rewrite lex_antisym, E2].
Qed.

Lemma ends_in_range_spec : ends_in_range h z G L =
  Some (match list.last items, head items with Some b, Some a => gte b && lte a | _, _ => false end).
Proof.
  pose proof (ok_rep _ _ _ Hok) as Hr. unfold ends_in_range. rewrite (rep_tail _ _ _ Hr).
  destruct (list.last items) as [b|] eqn:Hb; [|done]. cbn [fmap option_fmap option_map].
  rewrite last_lookup in Hb. rewrite (HG _ _ Hb). cbn [mbind option_bind].
  destruct (forward0 _ _ _ 0 (hdr z) Hr eq_refl) as (l & El & Hf). cbn in El. rewrite El. cbn [mbind option_bind]. rewrite Hf.
  destruct items as [|a items0] eqn:Ei; [done|]. cbn [lookup list_lookup fmap option_fmap option_map head].
  rewrite (HL 0%nat a eq_refl). by destruct (gte b).
Qed.

Lemma ends_false b a : list.last items = Some b -> head items = Some a -> gte b && lte a = false ->
  List.filter in_range items = [].
Proof.
  intros Hb Ha Hf. apply filter_none. intros q w Hw. rewrite last_lookup in Hb. unfold in_range.
  destruct (gte w) eqn:Eg; [|done]. destruct (lte w) eqn:El; [|done].
  assert (gte b = true) as Hgb by (apply (gte_mono q (Nat.pred (List.length items)) w b); [apply lookup_lt_Some in Hw; lia|done..]).
  assert (items !! 0%nat = Some a) as Ha0 by (by destruct items).
  assert (lte a = true) as Hla by (apply (lte_mono 0 q a w); [lia|done..]). by rewrite Hgb, Hla in Hf.
Qed.

Lemma wrap_pos q : (q < List.length (all_items z items))%nat -> u64 (Z.of_nat q) = Z.of_nat q.
Proof.
  intros Hq. pose proof (rep_pos_range _ _ _ _ (ok_rep _ _ _ Hok) (ok_size _ _ _ Hok) Hq).
  apply uwrap_small. unfold urange. lia.
Qed.

Lemma first_in_range_spec b a : list.last items = Some b -> head items = Some a -> gte b && lte a = true ->
  first_in_range h z G L = Some (iaddr <$> head (List.filter in_range items)).
Proof.
  intros Hb _ Hgl. apply andb_prop in Hgl as [Hgb _]. pose proof (ok_rep _ _ _ Hok) as Hr. unfold first_in_range.
  destruct (gap_spec h z items (fun _ _ f => negb <$> G f) u64 (fun _ w => negb (gte w)) Hr)
    as (p & x & update & E & Hx & Hp & _ & _ & Hlo & Hhi); [|apply wrap_pos| |].
  { intros q w tr sp Hw _. by rewrite (HG _ _ Hw). }
  { intros q q' w w' Hq Hw Hw' H. apply negb_true_iff in H. apply negb_true_iff. destruct (gte w) eqn:Eg; [|done].
    rewrite <- H. symmetry. apply (gte_mono q q' w w'); [lia|done..]. }
  rewrite E. cbn [mbind option_bind]. destruct (forward0 _ _ _ _ _ Hr Hx) as (l & El & Hf). rewrite El. cbn [mbind option_bind].
  rewrite Hf. rewrite last_lookup in Hb.
  destruct (items !! p) as [w|] eqn:Hw.
  2: { apply lookup_ge_None in Hw. pose proof (lookup_lt_Some _ _ _ Hb). specialize (fun Hq => Hlo _ _ Hq Hb) as Hlo'. rewrite Hgb in Hlo'. discriminate Hlo'; lia. }
  cbn [fmap option_fmap option_map mbind option_bind]. rewrite (HL _ _ Hw). cbn [mbind option_bind].
  specialize (Hhi p w ltac:(lia) Hw) as Hgw. apply negb_false_iff in Hgw.
  rewrite <- (take_drop_middle items p w Hw) at 1. rewrite List.filter_app, (filter_none (take p items)).
  - cbn. unfold in_range at 1. rewrite Hgw. cbn. destruct (lte w) eqn:Elw; [done|]. rewrite filter_none; [done|].
    intros q v Hv. rewrite lookup_drop in Hv. unfold in_range. destruct (lte v) eqn:Elv; [|by rewrite andb_false_r].
    assert (lte w = true) by (apply (lte_mono p (S p + q) w v); [lia|done..]). congruence.
  - intros q v Hv. apply lookup_take_Some in Hv as [Hv Hq]. specialize (Hlo q v Hq Hv). apply negb_true_iff in Hlo.
    unfold in_range. by rewrite Hlo.
Qed.

Lemma last_in_range_spec b a : list.last items = Some b -> head items = Some a -> gte b && lte a = true ->
  last_in_range h z G L = Some (iaddr <$> list.last (List.filter in_range items)).
Proof.
  intros _ Ha Hgl. apply andb_prop in Hgl as [_ Hla]. pose proof (ok_rep _ _ _ Hok) as Hr. unfold last_in_range.
  destruct (gap_spec h z items (fun _ _ f => L f) u64 (fun _ w => lte w) Hr)
    as (p & x & update & E & Hx & Hp & _ & _ & Hlo & Hhi); [|apply wrap_pos| |].
  { intros q w tr sp Hw _. by rewrite (HL _ _ Hw). }
  { intros q q' w w' Hq Hw Hw' H. apply (lte_mono q q' w w'); [lia|done..]. }
  rewrite E. cbn [mbind option_bind]. assert (items !! 0%nat = Some a) as Ha0 by (by destruct items).
  destruct p as [|p]; [specialize (Hhi 0%nat a ltac:(lia) Ha0); congruence|]. rewrite all_S in Hx.
  rewrite (HG _ _ Hx). cbn [mbind option_bind]. specialize (Hlo p x ltac:(lia) Hx) as Hlx.
  rewrite <- (take_drop_middle items p x Hx) at 1. rewrite List.filter_app. cbn. rewrite (filter_none (drop (S p) items)).
  - unfold in_range at 2. rewrite Hlx, andb_true_r. destruct (gte x) eqn:Egx; [by rewrite last_snoc|].
    rewrite app_nil_r, filter_none; [done|]. intros q v Hv. apply lookup_take_Some in Hv as [Hv Hq].
    unfold in_range. destruct (gte v) eqn:Egv; [|done]. assert (gte x = true) by (apply (gte_mono q p v x); [lia|done..]). congruence.
  - intros q v Hv. rewrite lookup_drop in Hv. unfold in_range. rewrite (Hhi (S p + q)%nat v ltac:(lia) Hv). by rewrite andb_false_r.
Qed.

(** The three queries on a range, from the code they share. *)
Lemma range_queries (isin : option bool) :
  isin = (if empty_range then Some false else ends_in_range h z G L) ->
  exists b, isin = Some b /\ (b = false -> List.filter in_range items = []) /\
    (if negb b then Some None else first_in_range h z G L) = Some (iaddr <$> head (List.filter in_range items)) /\
    (if negb b then Some None else last_in_range h z G L) = Some (iaddr <$> list.last (List.filter in_range items)).
Proof.
  intros ->. destruct empty_range eqn:Ee.
  { exists false. by rewrite (empty_range_none Ee). }
  rewrite ends_in_range_spec. destruct (list.last items) as [b|] eqn:Hb.
  - destruct (head items) as [a|] eqn:Ha; [|by destruct items]. exists (gte b && lte a). split; [done|].
    destruct (gte b && lte a) eqn:Egl; cbn [negb].
    + split; [done|]. split; [by eapply first_in_range_spec|by eapply last_in_range_spec].
    + by rewrite (ends_false b a Hb Ha Egl).
  - exists false. apply last_None in Hb. rewrite Hb. done.
Qed.

End Ranges.

(** Ranges of scores. *)
Lemma SFltb_dkey a b : isnan a = false -> isnan b = false -> SFltb a b = match lex (dkey a) (dkey b) with Lt => true | _ => false end.
Proof. intros Ha Hb. unfold SFltb. by rewrite SFcompare_dkey. Qed.

Lemma SFleb_dkey a b : isnan a = false -> isnan b = false -> SFleb a b = match lex (dkey a) (dkey b) with Gt => false | _ => true end.
Proof. intros Ha Hb. unfold SFleb. rewrite SFcompare_dkey by done. by destruct (lex _ _). Qed.

Definition valid_range (r : zrangespec) : Prop := isnan (rmin r) = false /\ isnan (rmax r) = false.

Lemma gte_min_above v r : isnan v = false -> valid_range r ->
  zslValueGteMin v r = above (lex (dkey v) (dkey (rmin r))) (minex r).
Proof.
  intros Hv [H _]. unfold zslValueGteMin, SFgtb, SFgeb, above. rewrite SFltb_dkey, SFleb_dkey, (lex_antisym (dkey v)) by done.
  by destruct (lex _ _), (minex r).
Qed.

Lemma lte_max_above v r : isnan v = false -> valid_range r ->
  zslValueLteMax v r = above (lex (dkey (rmax r)) (dkey v)) (maxex r).
Proof.
  intros Hv [_ H]. unfold zslValueLteMax, above. rewrite SFltb_dkey, SFleb_dkey, (lex_antisym (dkey v)) by done.
  by destruct (lex _ _), (maxex r).
Qed.

Definition score_in_range (r : zrangespec) (w : item) : bool := zslValueGteMin (iscore w) r && zslValueLteMax (iscore w) r.

Lemma klt_score a b : klt a b = true -> lex (dkey (fst a)) (dkey (fst b)) <> Gt.
Proof.
  rewrite klt_kcmp. unfold kcmp, enc. rewrite lex_app by by rewrite !dkey_length. by destruct (lex (dkey (fst a)) (dkey (fst b))).
Qed.

Lemma score_mono items : ksorted (keys items) -> forall p q v w, (p < q)%nat -> items !! p = Some v -> items !! q = Some w ->
  lex (dkey (iscore v)) (dkey (iscore w)) <> Gt.
Proof. intros Hs p q v w Hpq Hv Hw. apply (klt_score (keyof v) (keyof w)). by eapply items_sorted. Qed.

Lemma score_test_spec h z items t q w : zsl_rep h z items -> items !! q = Some w ->
  score_test h t (iaddr w) = Some (t (iscore w)).
Proof.
  intros Hr Hw. destruct (item_node _ _ _ _ _ Hr Hw) as (n & En & _ & Hsc & _). unfold score_test. rewrite En. cbn.
  by rewrite Hsc.
Qed.

Lemma filter_ext_in {A} (f g : A -> bool) l : (forall x, x ∈ l -> f x = g x) -> List.filter f l = List.filter g l.
Proof.
  induction l as [|a l IH]; intros H; [done|]. cbn. rewrite (H a) by apply list_elem_of_here.
  rewrite IH; [done|]. intros x Hx. apply H. by apply list_elem_of_further.
Qed.

Lemma score_ranges h z items r : zsl_ok h z items -> valid_range r ->
  exists b, zslIsInRange h z r = Some b /\ (b = false -> List.filter (score_in_range r) items = []) /\
    zslFirstInRange h z r = Some (iaddr <$> head (List.filter (score_in_range r) items)) /\
    zslLastInRange h z r = Some (iaddr <$> list.last (List.filter (score_in_range r) items)).
Proof.
  intros Hok Hr. pose proof Hok as [Hrep _ Hs Hv _].
  destruct (range_queries h z items Hok (fun w => dkey (iscore w)) (dkey (rmin r)) (dkey (rmax r)) (minex r) (maxex r)
    (score_mono items Hs) (score_test h (fun v => zslValueGteMin v r)) (score_test h (fun v => zslValueLteMax v r)))
    with (isin := zslIsInRange h z r) as (b & Eb & Hb & Hf & Hl).
  - intros q w Hw. rewrite (score_test_spec _ _ _ _ _ _ Hrep Hw). f_equal. apply gte_min_above; [|done].
    apply (items_valid _ _ _ Hv Hw).
  - intros q w Hw. rewrite (score_test_spec _ _ _ _ _ _ Hrep Hw). f_equal. apply lte_max_above; [|done].
    apply (items_valid _ _ _ Hv Hw).
  - unfold zslIsInRange, empty_range, SFgtb. destruct Hr as [Hr1 Hr2]. rewrite SFltb_dkey by done.
    unfold SFeqb. rewrite SFcompare_dkey, (lex_antisym (dkey (rmin r))) by done. by destruct (lex _ _).
  - exists b. unfold zslFirstInRange, zslLastInRange. rewrite Eb. cbn [mbind option_bind].
    rewrite (filter_ext_in (score_in_range r) (in_range (fun w => dkey (iscore w)) (dkey (rmin r)) (dkey (rmax r)) (minex r) (maxex r))).
    { by split_and!. }
    intros w Hw. apply list_elem_of_lookup in Hw as [q Hw]. unfold score_in_range, in_range, gte, lte.
    pose proof (items_valid _ _ _ Hv Hw) as Hvw. rewrite gte_min_above, lte_max_above; done.
Qed.

(** Ranges of elements: the order of the elements is the order of the list only when all the scores
    are equal. *)
Definition encb (b : lexbound) : list Z :=
  match b with Minstring => [0] | Str s => 1 :: s | Maxstring => [2] end.

Lemma sdscmplex_enc a b : sdscmplex a b = lex (encb a) (encb b).
Proof. by destruct a, b. Qed.

Definition same_scores (items : list item) : Prop :=
  forall v w, v ∈ items -> w ∈ items -> SFeqb (iscore v) (iscore w) = true.

Definition ele_of (w : item) : bytes := snd (keyof w).
Definition ele_in_range (r : zlexrangespec) (w : item) : bool :=
  zslLexValueGteMin (ele_of w) r && zslLexValueLteMax (ele_of w) r.

Lemma ele_mono items : ksorted (keys items) -> Forall valid_key (keys items) -> same_scores items ->
  forall p q v w, (p < q)%nat -> items !! p = Some v -> items !! q = Some w ->
  lex (encb (Str (ele_of v))) (encb (Str (ele_of w))) <> Gt.
Proof.
  intros Hs Hv Hsame p q v w Hpq Hw Hw'. pose proof (items_sorted _ _ _ _ _ Hs Hpq Hw Hw') as Hlt. apply klt_kcmp in Hlt.
  rewrite kcmp_code in Hlt by (by eapply items_valid).
  specialize (Hsame v w ltac:(by eapply list_elem_of_lookup_2) ltac:(by eapply list_elem_of_lookup_2)).
  cbn [keyof fst snd] in Hlt. rewrite Hsame, (SFeqb_ltb _ _ Hsame) in Hlt. cbn. unfold ele_of. cbn. by rewrite Hlt.
Qed.

Lemma ele_test_spec h z items t q w : zsl_rep h z items -> items !! q = Some w ->
  ele_test h t (iaddr w) = Some (t (ele_of w)).
Proof.
  intros Hr Hw. destruct (item_node _ _ _ _ _ Hr Hw) as (n & En & Hel & _). unfold ele_test. rewrite En. cbn [mbind option_bind].
  by rewrite Hel.
Qed.

Lemma lex_lte_above e r : zslLexValueLteMax e r = above (lex (encb (lmax r)) (encb (Str e))) (lmaxex r).
Proof. unfold zslLexValueLteMax, above. rewrite sdscmplex_enc, (lex_antisym (encb (lmax r))). by destruct (lex _ _). Qed.

Lemma lex_gte_above e r : zslLexValueGteMin e r = above (lex (encb (Str e)) (encb (lmin r))) (lminex r).
Proof. unfold zslLexValueGteMin. by rewrite sdscmplex_enc. Qed.

Lemma ele_ranges h z items r : zsl_ok h z items -> same_scores items ->
  exists b, zslIsInLexRange h z r = Some b /\ (b = false -> List.filter (ele_in_range r) items = []) /\
    zslFirstInLexRange h z r = Some (iaddr <$> head (List.filter (ele_in_range r) items)) /\
    zslLastInLexRange h z r = Some (iaddr <$> list.last (List.filter (ele_in_range r) items)).
Proof.
  intros Hok Hsame. pose proof Hok as [Hrep _ Hs Hv _].
  destruct (range_queries h z items Hok (fun w => encb (Str (ele_of w))) (encb (lmin r)) (encb (lmax r)) (lminex r) (lmaxex r)
    (ele_mono items Hs Hv Hsame) (ele_test h (fun v => zslLexValueGteMin v r)) (ele_test h (fun v => zslLexValueLteMax v r)))
    with (isin := zslIsInLexRange h z r) as (b & Eb & Hb & Hf & Hl).
  - intros q w Hw. rewrite (ele_test_spec _ _ _ _ _ _ Hrep Hw). by rewrite lex_gte_above.
  - intros q w Hw. rewrite (ele_test_spec _ _ _ _ _ _ Hrep Hw). by rewrite lex_lte_above.
  - unfold zslIsInLexRange, empty_range. by rewrite sdscmplex_enc.
  - exists b. unfold zslFirstInLexRange, zslLastInLexRange. rewrite Eb. cbn [mbind option_bind].
    rewrite (filter_ext_in (ele_in_range r) (in_range (fun w => encb (Str (ele_of w))) (encb (lmin r)) (encb (lmax r)) (lminex r) (lmaxex r))).
    { by split_and!. }
    intros w _. unfold ele_in_range, in_range, gte, lte. by rewrite lex_gte_above, lex_lte_above.
Qed.

(** * Creation and release *)

Lemma zslCreate_ok g h : exists h' z, zslCreate g h = Some (h', z) /\ zsl_ok h' z [] /\ shape h (header z) = None /\
  (forall c, c <> header z -> shape h' c = shape h c).
Proof.
  unfold zslCreate. destruct (zslCreateNode g h ZSKIPLIST_MAXLEVEL dzero None) as [h1 hd] eqn:Ec.
  destruct (zslCreateNode_spec _ _ _ _ _ _ _ Ec) as (Hx & Hs1 & Hl1).
  destruct (for_levels_spec (fun h j => h ← set_forward h hd j None; set_span h hd j 0) h1
    (fun i b => if decide (b = hd) then Some (Lvl None 0) else lv h1 b i) ZSKIPLIST_MAXLEVEL 0 h1) as (h2 & -> & Hs2 & Hl2); [|done..|].
  { intros i Hi ha Hsa Hla. assert (lv ha hd i = Some g) as Eg by (rewrite Hla, Hl1, !decide_True by (done || lia); done).
    destruct (set_forward_spec ha hd i None g Eg) as (hb & -> & Hsb & Hlb). cbn [mbind option_bind].
    destruct (set_span_spec hb hd i 0 (Lvl None (span g))) as (hc & -> & Hsc & Hlc); [by rewrite Hlb, decide_True|].
    exists hc. split_and!; [done|intros b; by rewrite Hsc, Hsb, Hsa|]. intros b j. rewrite Hlc, Hlb.
    destruct (decide (j = i)) as [->|]; [|by rewrite !decide_False by (by intros [])].
    destruct (decide (b = hd)) as [->|]; [by rewrite decide_True|by rewrite !decide_False, Hla by (by intros [])]. }
  cbn [mbind option_bind].
  destruct (set_backward_spec h2 hd None None dzero (forward g) ZSKIPLIST_MAXLEVEL) as (h3 & -> & Hl3 & Hs3).
  { by rewrite Hs2, Hs1, decide_True. }
  cbn [mbind option_bind]. set (z := Zsl hd None 0 1). exists h3, z. split; [done|]. split; [|split; [done|]].
  2: { intros c Hc. by rewrite Hs3, Hs2, Hs1, !decide_False. }
  assert (Hlv : forall i, (i < ZSKIPLIST_MAXLEVEL)%nat -> lv h3 hd i = Some (Lvl None 0)).
  { intros i Hi. rewrite Hl3, Hl2, !decide_True by (done || lia). done. }
  split; [|by left|constructor|constructor|done]. split.
  - intros [|p] w Hw; [|done]. injection Hw as <-. cbn. by rewrite Hs3, decide_True.
  - intros [|p] w i Hw Hi Hz; [|done]. injection Hw as <-. exists (Lvl None 0). split; [by apply Hlv|].
    split; [intros [|q] v Hq Hv; [lia|done]|done].
  - intros i Hi. exists 0. apply Hlv. lia.
  - apply NoDup_singleton.
  - done.
  - cbn. unfold ZSKIPLIST_MAXLEVEL. lia.
  - done.
  - done.
  - done.
Qed.

Lemma zslFree_loop_spec suf : forall fuel h, (List.length suf <= fuel)%nat -> NoDup (iaddr <$> suf) ->
  (forall p w, suf !! p = Some w -> exists l, lv h (iaddr w) 0 = Some l /\ forward l = iaddr <$> suf !! S p) ->
  exists h', zslFree_loop fuel h (iaddr <$> head suf) = Some h' /\
    (forall w, w ∈ suf -> h' !! iaddr w = None) /\ (forall c, c ∉ iaddr <$> suf -> h' !! c = h !! c).
Proof.
  induction suf as [|a suf IH]; intros fuel h Hf Hnd Hl.
  { exists h. split_and!; [by destruct fuel|intros w Hw; by apply not_elem_of_nil in Hw|done]. }
  destruct fuel as [|fuel]; [cbn in Hf; lia|]. destruct (Hl 0%nat a eq_refl) as (l & El & Hfw).
  cbn [head fmap option_fmap option_map zslFree_loop]. rewrite El. cbn [mbind option_bind].
  unfold zslFreeNode. unfold lv in El. destruct (h !! iaddr a) as [n|] eqn:En; [|done]. cbn [mbind option_bind] in *.
  rewrite fmap_cons in Hnd. apply list.NoDup_cons in Hnd as [Hna Hnd].
  destruct (IH fuel (delete (iaddr a) h)) as (h' & E & Hin & Hout).
  - cbn in Hf. lia.
  - done.
  - intros p w Hw. destruct (Hl (S p) w Hw) as (l' & El' & Hfw'). exists l'. split; [|done]. unfold lv.
    rewrite lookup_delete_ne; [done|]. intros E. apply Hna. rewrite list_elem_of_fmap. exists w. split; [done|].
    by eapply list_elem_of_lookup_2.
  - exists h'. assert (head suf = (a :: suf) !! 1%nat) as Eh by (by destruct suf). rewrite Hfw, <- Eh. split_and!; [done| |].
    + intros w Hw. apply list.elem_of_cons in Hw as [->|Hw]; [|by apply Hin]. rewrite Hout by done. apply lookup_delete_eq.
    + intros c Hc. rewrite fmap_cons, list.not_elem_of_cons in Hc. destruct Hc as [Hc1 Hc2]. rewrite Hout by done.
      by apply lookup_delete_ne.
Qed.

Lemma zslFree_ok h z items : zsl_ok h z items -> exists h', zslFree h z = Some h' /\
  (forall w, w ∈ all_items z items -> h' !! iaddr w = None) /\ (forall c, c ∉ iaddr <$> all_items z items -> h' !! c = h !! c).
Proof.
  intros Hok. pose proof (ok_rep _ _ _ Hok) as Hr. unfold zslFree.
  destruct (forward0 _ _ _ 0 (hdr z) Hr eq_refl) as (l & El & Hf). cbn in El. rewrite El. cbn [mbind option_bind].
  destruct (all_node _ _ _ 0 (hdr z) Hr eq_refl) as [n En]. cbn in En. unfold zslFreeNode. rewrite En. cbn [mbind option_bind].
  pose proof (rep_addrs _ _ _ Hr) as Hnd. unfold all_items in Hnd. rewrite fmap_cons in Hnd.
  apply list.NoDup_cons in Hnd as [Hna Hnd]. cbn [iaddr hdr] in Hna.
  destruct (zslFree_loop_spec items (map_size (delete (header z) h)) (delete (header z) h)) as (h' & E & Hin & Hout).
  - change (map_size (delete (header z) h)) with (size (delete (header z) h)).
    rewrite map_size_delete_Some by eauto. change (size h) with (map_size h). pose proof (rep_fuel _ _ _ Hr) as Hfl. unfold all_items in Hfl. cbn in Hfl. lia.
  - done.
  - intros p w Hw. destruct (forward0 _ _ _ (S p) w Hr Hw) as (l' & El' & Hf'). exists l'. split; [|done].
    unfold lv. rewrite lookup_delete_ne; [done|]. intros E. apply Hna. rewrite E, list_elem_of_fmap. exists w. split; [done|].
    by eapply list_elem_of_lookup_2.
  - exists h'. rewrite Hf. assert (head items = items !! 0%nat) as Eh by (by destruct items). rewrite <- Eh.
    split_and!; [done| |].
    + intros w Hw. unfold all_items in Hw. apply list.elem_of_cons in Hw as [->|Hw]; [|by apply Hin]. cbn. rewrite Hout by done.
      apply lookup_delete_eq.
    + intros c Hc. unfold all_items in Hc. rewrite fmap_cons, list.not_elem_of_cons in Hc. destruct Hc as [Hc1 Hc2].
      rewrite Hout by done. by apply lookup_delete_ne.
Qed.

Lemma zslFree_frees h z items : zsl_ok h z items -> exists h', zslFree h z = Some h' /\
  (forall a, a ∈ iaddr <$> all_items z items -> h' !! a = None) /\
  (forall a, a ∉ iaddr <$> all_items z items -> h' !! a = h !! a).
Proof.
  intros Hok. destruct (zslFree_ok h z items Hok) as (h' & E & Hin & Hout). exists h'. split_and!; [done| |done].
  intros a (w & -> & Hw)%list_elem_of_fmap. by apply Hin.
Qed.

(** * The main theorems *)

(** The heap holds the skip list [z] with the sorted keys [ks]. *)
Definition holds (h : heap) (z : zskiplist) (ks : list key) : Prop :=
  exists items, zsl_ok h z items /\ keys items = ks.

Definition has_key (k : key) (ks : list key) : bool := existsb (fun a => keq a k) ks.

Lemma has_key_absent k items : absent k items <-> has_key k (keys items) = false.
Proof.
  unfold absent, has_key. induction (keys items) as [|a l IH]; cbn; [split; [done|constructor]|].
  rewrite orb_false_iff, list.Forall_cons, IH. done.
Qed.

Lemma keys_zlen items : zlen (keys items) = zlen items.
Proof. unfold zlen, keys. by rewrite length_fmap. Qed.

Lemma kdel_has_key k l : has_key k l = false -> kdel k l = l.
Proof.
  intros H. apply kdel_none. unfold has_key in H. induction l as [|a l IH]; [constructor|].
  cbn in H. apply orb_false_iff in H as [H1 H2]. constructor; [done|by apply IH].
Qed.

(** A list of two keys, for the witnesses. *)
Lemma two_keys : exists h z items, zsl_ok h z items /\ keys items = [(of_Z 1, str "b"); (of_Z 2, str "a")].
Proof.
  destruct (zslCreate_ok (Lvl None 0) ∅) as (h & z & _ & Hok & _).
  destruct (zslInsert_ok (Lvl None 0) h z [] (of_Z 2, str "a") [65535] Hok) as
    (h1 & z1 & x1 & r1 & p1 & l1 & _ & _ & Hok1 & K1 & _); [done|constructor|done|by constructor|].
  destruct (zslInsert_ok (Lvl None 0) h1 z1 _ (of_Z 1, str "b") [65535] Hok1) as
    (h2 & z2 & x2 & r2 & p2 & l2 & _ & _ & Hok2 & K2 & _);
    [done|unfold absent; rewrite K1; by repeat constructor|rewrite <- keys_zlen, K1; done|by constructor|].
  exists h2, z2. eexists. split; [exact Hok2|]. rewrite K2, K1. done.
Qed.

(** C3. The skip list refines a sorted list of keys, whatever levels [random()] gives, whatever the
    memory returned by [zmalloc] holds and whatever the shape of the list: a new list is empty;
    [zslInsert] of a key that is not there inserts it at its place in the order (score, then
    element); [zslDelete] returns 1 exactly when the key is there and removes it; [zslUpdateScore]
    moves the element of an existing key to its new score, in place or by removing and reinserting
    its node; the length is the number of keys; [zslFree] frees the header and the node of every
    key, each once (they are distinct and allocated before, none is left after), and no other
    cell of the heap changes.  No operation follows a NULL or a freed pointer or a missing level, the loops all end,
    and pointers, spans, backward pointers, tail and level stay right ([zsl_rep]). *)
Theorem zsl_refines_sorted_list (g : zskiplistLevel) (h : heap) (z : zskiplist) (ks : list key) (k : key)
    (s : double) (rnd : list Z) (keep : bool) :
  holds h z ks -> valid_key k -> isnan s = false -> random_ends rnd ->
  (exists h0 z0, zslCreate g h = Some (h0, z0) /\ holds h0 z0 []) /\
  ksorted ks /\ zlength z = zlen ks /\
  (has_key k ks = false -> zlen ks < 2 ^ 32 - 1 -> exists h' z' x rnd',
     zslInsert g h z (fst k) (snd k) rnd = Some (h', z', x, rnd') /\ holds h' z' (kins k ks)) /\
  (exists p h' z', zslDelete h z (fst k) (snd k) keep = Some (if has_key k ks then 1 else 0, p, h', z') /\
     holds h' z' (kdel k ks)) /\
  (has_key k ks = true -> has_key (s, snd k) (kdel k ks) = false -> exists h' z' x rnd',
     zslUpdateScore g h z (fst k) (snd k) s rnd = Some (h', z', x, rnd') /\
     holds h' z' (kins (s, snd k) (kdel k ks))) /\
  (exists items, zsl_ok h z items /\ keys items = ks /\
     NoDup (iaddr <$> all_items z items) /\ (forall a, a ∈ iaddr <$> all_items z items -> is_Some (h !! a)) /\
     exists h', zslFree h z = Some h' /\
       (forall a, a ∈ iaddr <$> all_items z items -> h' !! a = None) /\
       (forall a, a ∉ iaddr <$> all_items z items -> h' !! a = h !! a)).
Proof.
  intros (items & Hok & <-) Hk Hs Hrnd. split_and!.
  - destruct (zslCreate_ok g h) as (h0 & z0 & E & H0 & _). exists h0, z0. split; [done|]. by exists [].
  - apply Hok.
  - rewrite keys_zlen. apply (ok_rep _ _ _ Hok).
  - intros Hab Hsz. apply has_key_absent in Hab. rewrite keys_zlen in Hsz.
    destruct (zslInsert_ok g h z items k rnd Hok Hk Hab Hsz Hrnd) as (h' & z' & x & rnd' & p & lvl & E & _ & Hok' & Hkeys & _).
    exists h', z', x, rnd'. split; [done|]. eexists. split; [exact Hok'|done].
  - destruct (zslDelete_ok h z items k keep Hok Hk) as [(w & rest & h' & z' & Hperm & Hkw & E & Hok' & Hkeys & _)|[Hab E]].
    + assert (has_key k (keys items) = true) as ->.
      { apply existsb_exists. exists (keyof w). split; [|done]. apply list_elem_of_In. unfold keys. rewrite list_elem_of_fmap.
        exists w. split; [done|]. rewrite Hperm. by apply list_elem_of_here. }
      do 3 eexists. split; [exact E|]. by exists rest.
    + apply has_key_absent in Hab. rewrite Hab, (kdel_has_key _ _ Hab). do 3 eexists. split; [exact E|]. by exists items.
  - intros Hin Hnew. assert (~ absent k items) as Hin' by (rewrite has_key_absent; congruence).
    destruct (zslUpdateScore_ok g h z items k s rnd Hok Hk Hs Hin') as
      (h' & z' & w & w' & rest & items' & rnd' & _ & _ & E & Hok' & _ & _ & Hkeys & _); [|done|].
    { clear -Hnew. unfold has_key in Hnew. induction (kdel k (keys items)); [constructor|]. cbn in Hnew.
      apply orb_false_iff in Hnew as [? ?]. constructor; auto. }
    do 4 eexists. split; [exact E|]. by exists items'.
  - exists items. split_and!; [done|done|apply (rep_addrs _ _ _ (ok_rep _ _ _ Hok))| |by apply zslFree_frees].
    intros a (w & -> & [p Hw]%list_elem_of_lookup)%list_elem_of_fmap. apply (all_node _ _ _ p w (ok_rep _ _ _ Hok) Hw).
Qed.

Lemma zsl_refines_sorted_list_witness : exists h z h' z' x rnd',
  holds h z [(of_Z 1, str "b"); (of_Z 2, str "a")] /\
  zslUpdateScore (Lvl None 0) h z (of_Z 1) (str "b") (of_Z 5) [65535] = Some (h', z', x, rnd') /\
  holds h' z' [(of_Z 2, str "a"); (of_Z 5, str "b")].
Proof.
  destruct two_keys as (h & z & items & Hok & Hk).
  assert (holds h z [(of_Z 1, str "b"); (of_Z 2, str "a")]) as H by (by exists items).
  destruct (zsl_refines_sorted_list (Lvl None 0) h z _ (of_Z 1, str "b") (of_Z 5) [65535] false H eq_refl eq_refl
    ltac:(by constructor)) as (_ & _ & _ & _ & _ & Hu & _).
  destruct (Hu eq_refl eq_refl) as (h' & z' & x & rnd' & E & H'). exists h, z, h', z', x, rnd'. split_and!; [done..|exact H'].
Defined.

(** C23. Ranks and ranges are read off the spans and levels exactly: [zslGetRank] of a key returns its
    position from 1, and 0 for an element that is not in the list; [zslGetElementByRank] is its
    inverse (and the header for rank 0, NULL past the end); [zslFirstInRange] and [zslLastInRange]
    return the first and the last node of the list whose score is in the range, NULL when there is
    none; likewise the lexicographic versions when all scores are equal; when [zslIsInRange] says no,
    no node is in the range. *)
Theorem zsl_queries_correct (h : heap) (z : zskiplist) (items : list item) (k : key) (t r : nat)
    (rg : zrangespec) (lrg : zlexrangespec) :
  zsl_ok h z items -> valid_key k -> NoDup (eles items) -> valid_range rg ->
  (forall w, items !! t = Some w -> keq (keyof w) k = true ->
     zslGetRank h z (fst k) (snd k) = Some (Z.of_nat (S t))) /\
  (snd k ∉ eles items -> zslGetRank h z (fst k) (snd k) = Some 0) /\
  zslGetElementByRank h z (Z.of_nat r) = Some (iaddr <$> all_items z items !! r) /\
  (exists b, zslIsInRange h z rg = Some b /\ (b = false -> List.filter (score_in_range rg) items = [])) /\
  zslFirstInRange h z rg = Some (iaddr <$> head (List.filter (score_in_range rg) items)) /\
  zslLastInRange h z rg = Some (iaddr <$> list.last (List.filter (score_in_range rg) items)) /\
  (same_scores items ->
    (exists b, zslIsInLexRange h z lrg = Some b /\ (b = false -> List.filter (ele_in_range lrg) items = [])) /\
    zslFirstInLexRange h z lrg = Some (iaddr <$> head (List.filter (ele_in_range lrg) items)) /\
    zslLastInLexRange h z lrg = Some (iaddr <$> list.last (List.filter (ele_in_range lrg) items))).
Proof.
  intros Hok Hk Hnd Hrg. pose proof (rep_level _ _ _ (ok_rep _ _ _ Hok)) as Hlev.
  destruct (score_ranges h z items rg Hok Hrg) as (b & Hb & Hn & Hf & Hl).
  split_and!; [| | |by exists b|done|done|].
  - intros w Hw Hkw. apply (get_rank_loop_spec h z items k t w (zlevel z) Hok Hk Hnd Hw Hkw 0 (hdr z)); [lia|done|cbn; lia|lia].
  - intros Hne. apply (get_rank_loop_absent h z items k (zlevel z) Hok Hk Hne 0 (hdr z)); [lia|done|cbn; lia].
  - apply (get_element_loop_spec h z items r (zlevel z) Hok 0 (hdr z)); [lia|done|cbn; lia|lia|lia].
  - intros Hsame. destruct (ele_ranges h z items lrg Hok Hsame) as (b' & Hb' & Hn' & Hf' & Hl').
    split_and!; [by exists b'|done|done].
Qed.

Lemma zsl_queries_correct_witness : exists h z items, keys items = [(of_Z 1, str "b"); (of_Z 2, str "a")] /\
  zslGetRank h z (of_Z 2) (str "a") = Some 2 /\
  zslFirstInRange h z (Range (of_Z 1) (of_Z 3) true false) = Some (iaddr <$> items !! 1%nat).
Proof.
  destruct two_keys as (h & z & items & Hok & Hk). exists h, z, items. split; [done|].
  assert (exists w0 w1, items = [w0; w1] /\ keyof w0 = (of_Z 1, str "b") /\ keyof w1 = (of_Z 2, str "a")) as (w0 & w1 & -> & K0 & K1).
  { destruct items as [|w0 [|w1 [|w2 l]]]; try discriminate Hk. exists w0, w1.
    change ([keyof w0; keyof w1] = [(of_Z 1, str "b"); (of_Z 2, str "a")]) in Hk.
    split; [done|]. split; congruence. }
  destruct (zsl_queries_correct h z [w0; w1] (of_Z 2, str "a") 1 1 (Range (of_Z 1) (of_Z 3) true false)
    (LexRange Minstring Maxstring false false) Hok eq_refl) as (Hr & _ & _ & _ & Hf & _).
  - unfold eles. cbn [fmap list_fmap]. rewrite K0, K1. apply (bool_decide_unpack _). vm_compute. exact I.
  - done.
  - split; [apply (Hr w1); [done|by rewrite K1]|]. rewrite Hf. cbn [List.filter]. unfold score_in_range.
    change (iscore w0) with (fst (keyof w0)). change (iscore w1) with (fst (keyof w1)). rewrite K0, K1. done.
Defined.
