(* ===== verification/Zset.v ===== *)
(** Sorted sets in the skip list encoding (t_zset.c): the dictionary from elements to their scores
    and the skip list, kept in step.

    The dictionary does not store scores: its values point at the score of the element's node
    ([&znode->score]), so a score read through the dictionary is read from the skip list's heap; here
    a value is the address of the node.  Elements are sds contents, shared by the two structures.
    [seed] is the seed of the hash function and [can_resize] is [dict_can_resize]. *)

From Stdlib Require Import SpecFloat String Sorted.
From stdpp Require Import gmap.
From S2P Require Import Prelude Util SipHash Sds Dict Zskiplist ZskiplistSpec.
#[local] Open Scope list_scope.
#[local] Open Scope Z_scope.

(** * The code *)

Definition ZADD_NONE : Z := 0.
Definition ZADD_INCR : Z := Z.shiftl 1 0.
Definition ZADD_NX : Z := Z.shiftl 1 1.
Definition ZADD_XX : Z := Z.shiftl 1 2.
Definition ZADD_NOP : Z := Z.shiftl 1 3.
Definition ZADD_NAN : Z := Z.shiftl 1 4.
Definition ZADD_ADDED : Z := Z.shiftl 1 5.
Definition ZADD_UPDATED : Z := Z.shiftl 1 6.
Definition HASHTABLE_MIN_FILL : Z := 10.

#[export] Instance positive_inhabited : Inhabited positive := populate 1%positive.

Record zset := Zset { zdict : dict bytes positive; zsl : zskiplist }.

(** Hash and comparison of sds keys; the keys are neither copied nor freed by the dictionary. *)
Definition zsetDictType (seed : bytes) : dictType bytes positive := string_dictType seed positive.

(** The double the value of an entry points at. *)
Definition score_at (h : heap) (a : positive) : option double := n ← h !! a; Some (score n).

(** [size] and [used] are [long long]. *)
Definition htNeedsResize (d : dict bytes positive) : bool :=
  let sz := s64 (dictSlots d) in
  let us := s64 (dictSize d) in
  (sz >? DICT_HT_INITIAL_SIZE) && (Z.quot (us * 100) sz <? HASHTABLE_MIN_FILL).

Section Code.
Context (seed : bytes) (can_resize : bool).
#[local] Abbreviation ty := (zsetDictType seed).

Definition zsetCreate (garbage : zskiplistLevel) (h : heap) : option (heap * zset) :=
  '(h, z) ← zslCreate garbage h; Some (h, Zset dictCreate z).

Definition zsetLength (zs : zset) : Z := zlength (zsl zs).

(** [None] for C_ERR. *)
Definition zsetScore (h : heap) (zs : zset) (member : bytes) : option (option double * zset) :=
  '(de, d) ← dictFind ty (zdict zs) member;
  match de with
  | None => Some (None, Zset d (zsl zs))
  | Some p =>
      '(_, a) ← entry_at d p;
      s ← score_at h a;
      Some (Some s, Zset d (zsl zs))
  end.

(** The result, the flags, [*newscore] when it is written, and the state. *)
Definition zsetAdd (garbage : zskiplistLevel) (h : heap) (zs : zset) (sc : double) (el : bytes) (flags : Z)
    (rnd : list Z) : option (Z * Z * option double * heap * zset * list Z) :=
  let incr := negb (Z.land flags ZADD_INCR =? 0) in
  let nx := negb (Z.land flags ZADD_NX =? 0) in
  let xx := negb (Z.land flags ZADD_XX =? 0) in
  if isnan sc then Some (0, ZADD_NAN, None, h, zs, rnd)
  else
    '(de, d) ← dictFind ty (zdict zs) el;
    match de with
    | Some p =>
        if nx then Some (1, ZADD_NOP, None, h, Zset d (zsl zs), rnd)
        else
          '(_, a) ← entry_at d p;
          curscore ← score_at h a;
          let sc := if incr then dadd sc curscore else sc in
          if incr && isnan sc then Some (0, ZADD_NAN, None, h, Zset d (zsl zs), rnd)
          else
            let newscore := if incr then Some sc else None in
            if negb (SFeqb sc curscore) then
              '(h, z, znode, rnd) ← zslUpdateScore garbage h (zsl zs) curscore el sc rnd;
              d ← dictSetVal ty d p znode;
              Some (1, ZADD_UPDATED, newscore, h, Zset d z, rnd)
            else Some (1, 0, newscore, h, Zset d (zsl zs), rnd)
    | None =>
        if negb xx then
          '(h, z, znode, rnd) ← zslInsert garbage h (zsl zs) sc el rnd;
          '(r, d) ← dictAdd ty can_resize d el znode;
          if r =? DICT_OK then Some (1, ZADD_ADDED, Some sc, h, Zset d z, rnd) else None
        else Some (1, ZADD_NOP, None, h, Zset d (zsl zs), rnd)
    end.

Definition zsetDel (h : heap) (zs : zset) (el : bytes) : option (Z * heap * zset) :=
  '(de, _, d) ← dictUnlink ty (zdict zs) el;
  match de with
  | Some (_, a) =>
      sc ← score_at h a;
      '(retval, _, h, z) ← zslDelete h (zsl zs) sc el false;
      if retval =? 0 then None
      else
        d ← (if htNeedsResize d then '(_, d) ← dictResize can_resize d; Some d else Some d);
        Some (1, h, Zset d z)
  | None => Some (0, h, Zset d (zsl zs))
  end.

Definition zsetRank (h : heap) (zs : zset) (el : bytes) (reverse : bool) : option (Z * zset) :=
  let llen := zsetLength zs in
  '(de, d) ← dictFind ty (zdict zs) el;
  match de with
  | Some p =>
      '(_, a) ← entry_at d p;
      sc ← score_at h a;
      rank ← zslGetRank h (zsl zs) sc el;
      if rank =? 0 then None
      else Some (s64 (u64 (if reverse then llen - rank else rank - 1)), Zset d (zsl zs))
  | None => Some (-1, Zset d (zsl zs))
  end.

(** * Deleting ranges *)

(** [while (x && cond)]: the loop the three functions share; [traversed] is only used for ranks. *)
Fixpoint delete_while (fuel : nat) (cond : heap -> positive -> Z -> option bool) (h : heap) (zs : zset)
    (update : list (positive * Z)) (x : option positive) (traversed removed : Z) : option (Z * heap * zset) :=
  match x with
  | None => Some (removed, h, zs)
  | Some a =>
      c ← cond h a traversed;
      if negb c then Some (removed, h, zs)
      else
        match fuel with
        | O => None
        | S fuel =>
            l0 ← lv h a 0;
            let next := forward l0 in
            '(h, z) ← zslDeleteNode h (zsl zs) a update;
            n ← h !! a;
            e ← ele n;
            '(_, _, d) ← dictDelete ty (zdict zs) e;
            h ← zslFreeNode h a;
            delete_while fuel cond h (Zset d z) update next (u64 (traversed + 1)) (u64 (removed + 1))
        end
  end.

Definition zslDeleteRangeByScore (h : heap) (zs : zset) (range : zrangespec) : option (Z * heap * zset) :=
  '(x, _, update) ← search (zlevel (zsl zs)) h
    (fun _ _ f => score_test h (fun v => if minex range then SFleb v (rmin range) else SFltb v (rmin range)) f)
    u64 (header (zsl zs)) 0;
  l ← lv h x 0;
  delete_while (map_size h)
    (fun h a _ => score_test h (fun v => if maxex range then SFltb v (rmax range) else SFleb v (rmax range)) a)
    h zs update (forward l) 0 0.

Definition zslDeleteRangeByLex (h : heap) (zs : zset) (range : zlexrangespec) : option (Z * heap * zset) :=
  '(x, _, update) ← search (zlevel (zsl zs)) h
    (fun _ _ f => negb <$> ele_test h (fun v => zslLexValueGteMin v range) f) u64 (header (zsl zs)) 0;
  l ← lv h x 0;
  delete_while (map_size h) (fun h a _ => ele_test h (fun v => zslLexValueLteMax v range) a)
    h zs update (forward l) 0 0.

(** [start] and [end] are [unsigned int], counted from 1. *)
Definition zslDeleteRangeByRank (h : heap) (zs : zset) (start end_ : Z) : option (Z * heap * zset) :=
  '(x, traversed, update) ← search (zlevel (zsl zs)) h (fun tr sp _ => Some (u64 (tr + sp) <? start))
    u64 (header (zsl zs)) 0;
  let traversed := u64 (traversed + 1) in
  l ← lv h x 0;
  delete_while (map_size h) (fun _ _ tr => Some (tr <=? end_)) h zs update (forward l) traversed 0.

End Code.

(** * Examples *)

Definition zdemo : option (heap * zset) :=
  foldl (fun st '(sc, e, rnd) =>
    '(h, zs) ← st;
    '(_, _, _, h, zs, _) ← zsetAdd seed0 true (Lvl None 0) h zs (of_Z sc) (str e) ZADD_NONE rnd; Some (h, zs))
    (zsetCreate (Lvl None 0) ∅)
    [(3, "c", [0; 65535]); (1, "a", [65535]); (2, "b", [0; 0; 65535]); (9, "a", [0; 65535]); (5, "d", [65535])]%string.

Example zdemo_ranks :
  ('(h, zs) ← zdemo; mapM (fun e => fst <$> zsetRank seed0 h zs (str e) false) ["b"; "c"; "d"; "a"; "x"]%string)
  = Some [0; 1; 2; 3; -1].
Proof. vm_compute. reflexivity. Qed.

Example zdemo_delete_ranges :
  ('(h, zs) ← zdemo;
   '(r, h, zs) ← zslDeleteRangeByScore seed0 h zs (Range (of_Z 2) (of_Z 5) true true);
   '(s, h, zs) ← zslDeleteRangeByRank seed0 h zs 2 2;
   a ← fst <$> zsetRank seed0 h zs (str "a") false; Some (r, s, a, zsetLength zs)) = Some (1, 1, 1, 2).
Proof. vm_compute. reflexivity. Qed.

(** * The invariant *)

Definition addr_map (items : list item) : gmap bytes positive := list_to_map ((fun w => (ele_of w, iaddr w)) <$> items).
Definition score_map (items : list item) : gmap bytes double := list_to_map ((fun w => (ele_of w, iscore w)) <$> items).

Record zset_ok (seed : bytes) (h : heap) (zs : zset) (items : list item) : Prop := {
  zo_zsl : zsl_ok h (zsl zs) items;
  zo_eles : NoDup (eles items);
  zo_dict : represents (zsetDictType seed) (zdict zs) (addr_map items)
}.

Section Maps.
Context {A : Type} (f : item -> A).
Definition item_map (items : list item) : gmap bytes A := list_to_map ((fun w => (ele_of w, f w)) <$> items).

Lemma item_map_keys items : ((fun w => (ele_of w, f w)) <$> items).*1 = eles items.
Proof. rewrite <- list_fmap_compose. done. Qed.

Lemma item_map_lookup items e a : NoDup (eles items) ->
  item_map items !! e = Some a <-> exists w, w ∈ items /\ ele_of w = e /\ f w = a.
Proof.
  intros Hnd. unfold item_map. rewrite <- elem_of_list_to_map by by rewrite item_map_keys. rewrite list_elem_of_fmap.
  split; [intros (w & [= -> ->] & Hw); eauto|]. intros (w & Hw & <- & <-). eauto.
Qed.

Lemma item_map_none items e : e ∉ eles items <-> item_map items !! e = None.
Proof. unfold item_map. rewrite <- not_elem_of_list_to_map, item_map_keys. done. Qed.

Lemma item_map_perm items items' : NoDup (eles items) -> items ≡ₚ items' -> item_map items = item_map items'.
Proof.
  intros Hnd Hp. unfold item_map. apply list_to_map_proper; [by rewrite item_map_keys|]. by rewrite Hp.
Qed.

Lemma item_map_cons w items : item_map (w :: items) = <[ele_of w := f w]> (item_map items).
Proof. done. Qed.

Lemma item_map_delete w items : NoDup (eles (w :: items)) -> delete (ele_of w) (item_map (w :: items)) = item_map items.
Proof.
  intros Hnd. rewrite item_map_cons. apply delete_insert_id. apply item_map_none. unfold eles in *.
  rewrite fmap_cons in Hnd. by apply list.NoDup_cons in Hnd as [? _].
Qed.

Lemma item_map_size items : NoDup (eles items) -> base.size (item_map items) = List.length items.
Proof. 
  intros Hnd. rewrite <- length_map_to_list. unfold item_map.
  rewrite map_to_list_to_map by by rewrite item_map_keys. by rewrite length_fmap.
Qed.
End Maps.

Lemma eles_perm items items' : items ≡ₚ items' -> eles items ≡ₚ eles items'.
Proof. intros Hp. unfold eles. by rewrite Hp. Qed.

Section Specs.
Context (seed : bytes) (can_resize : bool).
#[local] Abbreviation ty := (zsetDictType seed).
#[local] Abbreviation ok := (zset_ok seed).

(** The entry of an element leads to its node. *)
Lemma lookup_entry h zs items el : ok h zs items ->
  exists de d, dictFind ty (zdict zs) el = Some (de, d) /\ ok h (Zset d (zsl zs)) items /\
    match de with
    | None => el ∉ eles items
    | Some p => exists q w, items !! q = Some w /\ ele_of w = el /\ entry_at d p = Some (el, iaddr w) /\
        score_at h (iaddr w) = Some (iscore w) /\
        forall a, exists d2, dictSetVal ty d p a = Some d2 /\ represents ty d2 (<[el := a]> (addr_map items))
    end.
Proof.
  intros [Hz Hnd Hd]. destruct (dictFind_place ty (zdict zs) (addr_map items) el Hd) as (de & d & E & Hd' & Hde).
  exists de, d. split; [done|]. split; [by split|]. destruct de as [p|]; [|by apply (item_map_none iaddr)].
  destruct Hde as (a & Ha & He & Hset). apply (item_map_lookup iaddr items el a Hnd) in Ha as (w & Hw & Hel & <-).
  apply list_elem_of_lookup in Hw as [q Hq]. exists q, w. split_and!; [done..| |done].
  destruct (item_node _ _ _ _ _ (ok_rep _ _ _ Hz) Hq) as (n & En & _ & Hsc & _). unfold score_at. rewrite En. cbn.
  by rewrite Hsc.
Qed.

Lemma ok_dict h d z items : zsl_ok h z items -> NoDup (eles items) -> represents ty d (addr_map items) -> ok h (Zset d z) items.
Proof. by split. Qed.

Lemma item_kcmp w : keq (keyof w) (iscore w, ele_of w) = true.
Proof.
  unfold keq, kcmp, enc. cbn [fst snd keyof]. unfold ele_of. cbn [snd keyof]. by rewrite (proj2 (lex_eq _ _) eq_refl).
Qed.

Lemma absent_ele items k : snd k ∉ eles items -> absent k items.
Proof.
  intros Hne. unfold absent, keys. rewrite Forall_fmap, list.Forall_forall. intros w Hw. cbn.
  destruct (keq (keyof w) k) eqn:E; [|done]. exfalso. apply Hne. apply keq_ele in E. rewrite <- E.
  unfold eles. rewrite list_elem_of_fmap. eauto.
Qed.

Lemma addr_size items : NoDup (eles items) -> zlen items < 2 ^ 32 -> Z.of_nat (map_size (addr_map items)) < max_entries.
Proof.
  intros Hnd Hsz. change (map_size (addr_map items)) with (base.size (item_map iaddr items)). rewrite item_map_size by done.
  unfold zlen, max_entries in *. lia.
Qed.

Lemma same_item items v w : NoDup (eles items) -> v ∈ items -> w ∈ items -> ele_of v = ele_of w -> v = w.
Proof.
  intros Hnd Hv Hw E. apply list_elem_of_lookup in Hv as [p Hp]. apply list_elem_of_lookup in Hw as [q Hq].
  enough (p = q) as -> by congruence. eapply NoDup_lookup; [exact Hnd|unfold eles; rewrite list_lookup_fmap, Hp; done|].
  unfold eles. rewrite list_lookup_fmap, Hq. cbn. unfold ele_of in E. cbn in E. by rewrite E.
Qed.

(** ** The specification of [zsetAdd] on a map from elements to scores *)

Definition zadd_spec (m : gmap bytes double) (sc : double) (el : bytes) (flags : Z)
    : Z * Z * option double * gmap bytes double :=
  let incr := negb (Z.land flags ZADD_INCR =? 0) in
  let nx := negb (Z.land flags ZADD_NX =? 0) in
  let xx := negb (Z.land flags ZADD_XX =? 0) in
  if isnan sc then (0, ZADD_NAN, None, m)
  else match m !! el with
       | Some cur =>
           if nx then (1, ZADD_NOP, None, m)
           else
             let sc := if incr then dadd sc cur else sc in
             let reported := if incr then Some sc else None in
             if isnan sc then (0, ZADD_NAN, None, m)
             else if SFeqb sc cur then (1, 0, reported, m)
             else (1, ZADD_UPDATED, reported, <[el := sc]> m)
       | None =>
           if xx then (1, ZADD_NOP, None, m) else (1, ZADD_ADDED, Some sc, <[el := sc]> m)
       end.

Lemma score_lookup items el q w : NoDup (eles items) -> items !! q = Some w -> ele_of w = el -> score_map items !! el = Some (iscore w).
Proof.
  intros Hnd Hw Hel. apply (item_map_lookup iscore items el _ Hnd). exists w. split; [by eapply list_elem_of_lookup_2|done].
Qed.

(** Changing the score of one element keeps the elements. *)
Lemma update_eles items items' w w' rest : items ≡ₚ w :: rest -> items' ≡ₚ w' :: rest -> ele_of w' = ele_of w ->
  NoDup (eles items) -> NoDup (eles items').
Proof.
  intros H1 H2 He Hnd. rewrite (eles_perm _ _ H2). rewrite (eles_perm _ _ H1) in Hnd. unfold eles in *.
  rewrite fmap_cons in *. unfold ele_of in He. by rewrite He.
Qed.

Lemma update_map {A} (f : item -> A) items items' w w' rest : items ≡ₚ w :: rest -> items' ≡ₚ w' :: rest ->
  ele_of w' = ele_of w -> NoDup (eles items) -> item_map f items' = <[ele_of w := f w']> (item_map f items).
Proof.
  intros H1 H2 He Hnd. rewrite (item_map_perm f items' (w' :: rest)) by (done || exact (update_eles _ _ _ _ _ H1 H2 He Hnd)).
  rewrite (item_map_perm f items (w :: rest)) by done. rewrite !item_map_cons, He. by rewrite insert_insert_eq.
Qed.

(** The calls that leave the sorted set as it was. *)
#[local] Ltac unchanged h items rnd :=
  eexists h, _, items, rnd, _, _, _; split; [reflexivity|]; split; [assumption|reflexivity].

Lemma zsetAdd_ok g h zs items sc el flags rnd : ok h zs items -> zlen items < 2 ^ 32 - 1 -> random_ends rnd ->
  exists h' zs' items' rnd' ret fl ns,
    zsetAdd seed can_resize g h zs sc el flags rnd = Some (ret, fl, ns, h', zs', rnd') /\ ok h' zs' items' /\
    (ret, fl, ns, score_map items') = zadd_spec (score_map items) sc el flags.
Proof.
  intros Hok Hsz Hrnd. unfold zsetAdd, zadd_spec. destruct (isnan sc) eqn:Hnan.
  { by exists h, zs, items, rnd, 0, ZADD_NAN, None. }
  destruct (lookup_entry h zs items el Hok) as (de & d & -> & Hok1 & Hde). cbn [mbind option_bind].
  pose proof (zo_eles _ _ _ _ Hok) as Hnd. pose proof (zo_zsl _ _ _ _ Hok) as Hz.
  destruct de as [p|].
  - destruct Hde as (q & w & Hq & Hel & He & Hsc & Hset). rewrite (score_lookup items el q w Hnd Hq Hel).
    destruct (negb (Z.land flags ZADD_NX =? 0)); [unchanged h items rnd|].
    rewrite He. cbn [mbind option_bind]. rewrite Hsc. cbn [mbind option_bind].
    set (incr := negb (Z.land flags ZADD_INCR =? 0)). set (sc' := if incr then dadd sc (iscore w) else sc).
    assert (incr && isnan sc' = isnan sc') as -> by (unfold sc'; by destruct incr).
    destruct (isnan sc') eqn:Hnan'; [unchanged h items rnd|].
    destruct (SFeqb sc' (iscore w)); cbn [negb]; [unchanged h items rnd|].
    assert (Hvk : valid_key (iscore w, el)) by apply (items_valid _ _ _ (ok_valid _ _ _ Hz) Hq).
    pose proof (item_kcmp w) as Hkw. rewrite Hel in Hkw.
    destruct (zslUpdateScore_ok g h (zsl zs) items (iscore w, el) sc' rnd Hz Hvk Hnan') as
      (h' & z' & v & w' & rest & items' & rnd' & P1 & Hkv & E & Hok' & P2 & Hk' & _ & _); [| |done|].
    { intros Hab. by apply (absent_lookup _ _ _ _ Hab) in Hq; unfold keq in Hkw; destruct (kcmp (keyof w) (iscore w, el)). }
    { destruct (zslDelete_ok h (zsl zs) items (iscore w, el) true Hz Hvk) as [(v & rest & _ & _ & P & Hkv & _ & _ & <- & _)|[Hab _]].
      - apply (absent_ele rest (sc', el)). cbn [snd]. pose proof Hnd as Hnd2. rewrite (eles_perm _ _ P) in Hnd2.
        unfold eles in Hnd2. rewrite fmap_cons in Hnd2. apply list.NoDup_cons in Hnd2 as [Hn _].
        by rewrite (keq_ele _ _ Hkv) in Hn.
      - exfalso. by apply (absent_lookup _ _ _ _ Hab) in Hq; unfold keq in Hkw; destruct (kcmp (keyof w) (iscore w, el)). }
    cbn [fst snd] in E. rewrite E. cbn [mbind option_bind].
    assert (v = w) as ->.
    { apply (same_item items); [done|rewrite P1; by apply list_elem_of_here|by eapply list_elem_of_lookup_2|].
      rewrite Hel. apply keq_ele in Hkv. exact Hkv. }
    assert (Hele : ele_of w' = ele_of w) by (unfold ele_of; rewrite Hk'; done).
    destruct (Hset (iaddr w')) as (d2 & -> & Hd2). cbn [mbind option_bind].
    eexists h', _, items', rnd', _, _, _. split; [done|]. split.
    + apply ok_dict; [done|exact (update_eles _ _ _ _ _ P1 P2 Hele Hnd)|]. change (addr_map items') with (item_map iaddr items').
      rewrite (update_map iaddr items items' w w' rest P1 P2 Hele Hnd), Hel. exact Hd2.
    + f_equal. change (score_map items') with (item_map iscore items').
      rewrite (update_map iscore items items' w w' rest P1 P2 Hele Hnd), Hel.
      change (iscore w') with (fst (keyof w')). by rewrite Hk'.
  - change (score_map items) with (item_map iscore items). rewrite (proj1 (item_map_none iscore items el) Hde).
    destruct (negb (Z.land flags ZADD_XX =? 0)) eqn:Exx; cbn [negb]; [unchanged h items rnd|].
    destruct (zslInsert_ok g h (zsl zs) items (sc, el) rnd Hz Hnan (absent_ele items (sc, el) Hde) Hsz Hrnd)
      as (h' & z' & x & rnd' & q & lvl & E & Hq & Hok' & _). cbn [fst snd] in *. rewrite E. cbn [mbind option_bind].
    set (new := Item x sc (Some el) lvl) in *.
    assert (Hnd' : NoDup (eles (ins q new items))).
    { rewrite (eles_perm _ _ (ins_perm_items q new items)). unfold eles. rewrite fmap_cons. by apply NoDup_cons_2. }
    destruct (dictAdd_ok ty can_resize d (addr_map items) el x (zo_dict _ _ _ _ Hok1)) as (d2 & -> & Hd2);
      [apply addr_size; [done|lia]|].
    change (addr_map items) with (item_map iaddr items) in *. rewrite (proj1 (item_map_none iaddr items el) Hde) in *.
    cbn [mbind option_bind]. eexists h', _, (ins q new items), rnd', _, _, _. split; [done|]. split.
    + apply ok_dict; [done..|]. change (addr_map (ins q new items)) with (item_map iaddr (ins q new items)).
      rewrite (item_map_perm iaddr _ _ Hnd' (ins_perm_items q new items)), item_map_cons. exact Hd2.
    + f_equal. change (score_map (ins q new items)) with (item_map iscore (ins q new items)).
      by rewrite (item_map_perm iscore _ _ Hnd' (ins_perm_items q new items)), item_map_cons.
Qed.

Lemma zsetScore_ok h zs items el : ok h zs items -> exists zs', zsetScore seed h zs el = Some (score_map items !! el, zs') /\ ok h zs' items.
Proof.
  intros Hok. unfold zsetScore. destruct (lookup_entry h zs items el Hok) as (de & d & -> & Hok1 & Hde). cbn [mbind option_bind].
  exists (Zset d (zsl zs)). split; [|done]. destruct de as [p|].
  - destruct Hde as (q & w & Hq & Hel & -> & Hsc & _). cbn [mbind option_bind]. rewrite Hsc. cbn [mbind option_bind].
    by rewrite (score_lookup items el q w (zo_eles _ _ _ _ Hok) Hq Hel).
  - change (score_map items) with (item_map iscore items). by rewrite (proj1 (item_map_none iscore items el) Hde).
Qed.

Lemma htNeedsResize_ok d items : represents ty d (addr_map items) ->
  exists d', (if htNeedsResize d then '(_, d) ← dictResize can_resize d; Some d else Some d) = Some d' /\
    represents ty d' (addr_map items).
Proof.
  intros Hd. destruct (htNeedsResize d); [|by exists d].
  destruct (dictResize_represents ty can_resize d _ Hd) as (r & d' & -> & Hd' & _). by exists d'.
Qed.

Lemma zsetDel_ok h zs items el : ok h zs items -> exists h' zs' items',
  zsetDel seed can_resize h zs el = Some (if bool_decide (is_Some (score_map items !! el)) then 1 else 0, h', zs') /\
  ok h' zs' items' /\ score_map items' = delete el (score_map items).
Proof.
  intros Hok. pose proof Hok as [Hz Hnd Hd]. unfold zsetDel.
  destruct (dictGenericDelete_ok ty (zdict zs) (addr_map items) el true Hd) as (d & E & Hd').
  unfold dictUnlink. rewrite E. clear E. cbn [mbind option_bind].
  change (addr_map items) with (item_map iaddr items) in *. change (score_map items) with (item_map iscore items).
  destruct (item_map iaddr items !! el) as [a|] eqn:Ea; cbn [fmap option_fmap option_map].
  - apply (item_map_lookup iaddr items el a Hnd) in Ea as (w & Hw & Hel & <-). apply list_elem_of_lookup in Hw as [q Hq].
    destruct (item_node _ _ _ _ _ (ok_rep _ _ _ Hz) Hq) as (n & En & _ & Hsc & _). unfold score_at. rewrite En.
    cbn [mbind option_bind]. rewrite Hsc. cbn [keyof fst].
    assert (Hvk : valid_key (iscore w, el)) by apply (items_valid _ _ _ (ok_valid _ _ _ Hz) Hq).
    pose proof (item_kcmp w) as Hkw. rewrite Hel in Hkw.
    destruct (zslDelete_ok h (zsl zs) items (iscore w, el) false Hz Hvk) as
      [(v & rest & h' & z' & P & Hkv & E & Hok' & _)|[Hab _]].
    2: { exfalso. by apply (absent_lookup _ _ _ _ Hab) in Hq; unfold keq in Hkw; destruct (kcmp (keyof w) (iscore w, el)). }
    cbn [fst snd] in E. rewrite E. cbn [mbind option_bind Z.eqb].
    assert (Hev : ele_of v = el) by (by apply keq_ele in Hkv).
    pose proof Hnd as Hnd2. rewrite (eles_perm _ _ P) in Hnd2.
    assert (Hm : forall A (f : item -> A), delete el (item_map f items) = item_map f rest).
    { intros A f. rewrite (item_map_perm f items (v :: rest) Hnd P), <- Hev. by apply item_map_delete. }
    rewrite Hm in Hd'. destruct (htNeedsResize_ok d rest Hd') as (d2 & -> & Hd2). cbn [mbind option_bind].
    rewrite bool_decide_true.
    + eexists h', _, rest. split; [done|]. split; [|symmetry; apply Hm]. apply ok_dict; [done| |done].
      unfold eles in *. rewrite fmap_cons in Hnd2. by apply list.NoDup_cons in Hnd2 as [_ ?].
    + exists (iscore w). apply (item_map_lookup iscore items el _ Hnd). exists w. split; [by eapply list_elem_of_lookup_2|done].
  - apply (item_map_none iaddr) in Ea. pose proof (proj1 (item_map_none iscore items el) Ea) as Es. rewrite Es.
    rewrite bool_decide_false by (by intros []). eexists h, _, items. split; [done|]. split; [|by rewrite delete_id].
    apply ok_dict; [done..|]. rewrite delete_id in Hd'; [done|]. by apply (item_map_none iaddr).
Qed.

(** The rank of an element: how many keys of the map are smaller. *)
Definition key_of (p : bytes * double) : key := (p.2, p.1).
Definition smaller (m : gmap bytes double) (k : key) : Z :=
  zlen (List.filter (fun p => klt (key_of p) k) (map_to_list m)).
Definition rank_spec (m : gmap bytes double) (el : bytes) (reverse : bool) : Z :=
  match m !! el with
  | None => -1
  | Some sc => if reverse then Z.of_nat (base.size m) - 1 - smaller m (sc, el) else smaller m (sc, el)
  end.

Lemma filter_zlen_perm {A} (f : A -> bool) l l' : l ≡ₚ l' -> zlen (List.filter f l) = zlen (List.filter f l').
Proof.
  intros H. unfold zlen. f_equal. induction H as [|x l l' _ IH|x y l|l1 l2 l3 _ IH1 _ IH2]; cbn; [done| | |congruence].
  - destruct (f x); cbn; congruence.
  - destruct (f x), (f y); done.
Qed.

Lemma filter_false {A} (f : A -> bool) l : (forall x, x ∈ l -> f x = false) -> List.filter f l = [].
Proof.
  induction l as [|a l IH]; intros H; [done|]. cbn. rewrite (H a) by apply list_elem_of_here.
  apply IH. intros x Hx. apply H. by apply list_elem_of_further.
Qed.

Lemma smaller_pos h z items q w : zsl_ok h z items -> NoDup (eles items) -> items !! q = Some w ->
  smaller (score_map items) (iscore w, ele_of w) = Z.of_nat q.
Proof.
  intros Hz Hnd Hq. unfold smaller, score_map.
  rewrite (filter_zlen_perm _ _ ((fun w => (ele_of w, iscore w)) <$> items)).
  2: { apply map_to_list_to_map. rewrite (item_map_keys iscore). done. }
  assert (forall l, zlen (List.filter (fun p => klt (key_of p) (iscore w, ele_of w)) ((fun w => (ele_of w, iscore w)) <$> l)) =
    zlen (List.filter (fun v => klt (keyof v) (keyof w)) l)) as ->.
  { induction l as [|a l IH]; [done|]. rewrite fmap_cons. cbn [List.filter]. unfold key_of at 1. cbn [fst snd].
    change (iscore a, ele_of a) with (keyof a). change (iscore w, ele_of w) with (keyof w) in *.
    destruct (klt (keyof a) (keyof w)); [|exact IH]. rewrite !zlen_cons. by rewrite IH. }
  rewrite <- (take_drop_middle items q w Hq) at 1. rewrite List.filter_app. cbn [List.filter]. rewrite klt_irrefl.
  pose proof (ok_sorted _ _ _ Hz) as Hs.
  assert (List.filter (fun v => klt (keyof v) (keyof w)) (take q items) = take q items) as ->.
  { apply List.forallb_filter_id, forallb_forall. intros v Hv. apply list_elem_of_In, list_elem_of_lookup in Hv as [p Hp].
    apply lookup_take_Some in Hp as [Hp Hlt]. by apply (items_sorted items p q). }
  assert (List.filter (fun v => klt (keyof v) (keyof w)) (drop (S q) items) = []) as ->.
  { apply filter_false. intros v Hv. apply list_elem_of_lookup in Hv as [p Hp]. rewrite lookup_drop in Hp.
    pose proof (items_sorted items q (S q + p) w v Hs ltac:(lia) Hq Hp) as H. apply klt_kcmp in H. unfold klt.
    by rewrite kcmp_antisym, H. }
  rewrite app_nil_r. unfold zlen. rewrite length_take. apply lookup_lt_Some in Hq. lia.
Qed.

Lemma zsetRank_ok h zs items el reverse : ok h zs items ->
  exists zs', zsetRank seed h zs el reverse = Some (rank_spec (score_map items) el reverse, zs') /\ ok h zs' items.
Proof.
  intros Hok. pose proof Hok as [Hz Hnd _]. unfold zsetRank.
  destruct (lookup_entry h zs items el Hok) as (de & d & -> & Hok1 & Hde). cbn [mbind option_bind].
  exists (Zset d (zsl zs)). split; [|done]. unfold rank_spec. destruct de as [p|].
  - destruct Hde as (q & w & Hq & Hel & -> & Hsc & _). cbn [mbind option_bind]. rewrite Hsc. cbn [mbind option_bind].
    rewrite (score_lookup items el q w Hnd Hq Hel). pose proof (item_kcmp w) as Hkw. rewrite Hel in Hkw.
    pose proof (items_valid _ _ _ (ok_valid _ _ _ Hz) Hq) as Hvw. pose proof (rep_level _ _ _ (ok_rep _ _ _ Hz)) as Hlev.
    unfold zslGetRank.
    assert (Hrank : get_rank_loop (zlevel (zsl zs)) h (iscore w) el (header (zsl zs)) 0 = Some (Z.of_nat (S q))).
    { apply (get_rank_loop_spec h (zsl zs) items (iscore w, el) q w (zlevel (zsl zs)) Hz Hvw Hnd Hq Hkw 0 (hdr (zsl zs)));
        [lia|done|cbn; lia|lia]. }
    rewrite Hrank.
    cbn [mbind option_bind]. destruct (Z.eqb_spec (Z.of_nat (S q)) 0); [lia|]. do 2 f_equal.
    rewrite <- Hel, (smaller_pos h (zsl zs) items q w Hz Hnd Hq).
    unfold zsetLength. rewrite (rep_length _ _ _ (ok_rep _ _ _ Hz)). pose proof (ok_size _ _ _ Hz) as Hsz.
    change (score_map items) with (item_map iscore items). rewrite item_map_size by done.
    pose proof (lookup_lt_Some _ _ _ Hq) as Hlt. unfold zlen in *.
    rewrite uwrap_small by (unfold urange; destruct reverse; lia).
    rewrite swrap_small by (unfold srange; destruct reverse; lia). destruct reverse; lia.
  - change (score_map items) with (item_map iscore items). by rewrite (proj1 (item_map_none iscore items el) Hde).
Qed.

(** ** Deleting ranges *)

(** How many of the first items the loop removes. *)
Fixpoint run (Q : Z -> item -> bool) (tr : Z) (l : list item) : nat :=
  match l with
  | [] => 0
  | w :: l => if Q tr w then S (run Q (tr + 1) l) else 0
  end.

Lemma run_le Q l : forall tr, (run Q tr l <= List.length l)%nat.
Proof. induction l as [|w l IH]; intros tr; cbn; [lia|]. destruct (Q tr w); [specialize (IH (tr + 1)); lia|lia]. Qed.

Lemma ins_app l1 w l2 : l1 ++ w :: l2 = ins (List.length l1) w (l1 ++ l2).
Proof. unfold ins. by rewrite take_app_length, drop_app_length. Qed.

(** One turn of the loop: the node after the gap leaves the list, the dictionary and the heap. *)
Lemma delete_step h zs l1 w l2 update : ok h zs (l1 ++ w :: l2) ->
  update_ok (all_items (zsl zs) (l1 ++ w :: l2)) (List.length l1) (zlevel (zsl zs)) update ->
  exists l0 h1 z1 n d h2, lv h (iaddr w) 0 = Some l0 /\ forward l0 = iaddr <$> head l2 /\
    zslDeleteNode h (zsl zs) (iaddr w) update = Some (h1, z1) /\ h1 !! iaddr w = Some n /\ ele n = Some (ele_of w) /\
    (exists r f, dictDelete ty (zdict zs) (ele_of w) = Some (r, f, d)) /\ zslFreeNode h1 (iaddr w) = Some h2 /\
    ok h2 (Zset d z1) (l1 ++ l2) /\ update_ok (all_items z1 (l1 ++ l2)) (List.length l1) (zlevel z1) update.
Proof.
  intros [Hz Hnd Hd] Hu. set (k := List.length l1) in *.
  assert (Hw : (l1 ++ w :: l2) !! k = Some w) by (by rewrite lookup_app_r, Nat.sub_diag by lia).
  destruct (forward0 _ _ _ (S k) w (ok_rep _ _ _ Hz) Hw) as (l0 & El0 & Hf).
  assert ((l1 ++ w :: l2) !! S k = head l2) as Eh.
  { rewrite lookup_app_r by lia. replace (S k - List.length l1)%nat with 1%nat by lia. by destruct l2. }
  rewrite Eh in Hf. pose proof (item_node _ _ _ _ _ (ok_rep _ _ _ Hz) Hw) as (n0 & En0 & Hel0 & _).
  pose proof (rep_shape _ _ _ (ok_rep _ _ _ Hz) (S k) w Hw) as Hshw.
  rewrite ins_app in Hz, Hu, Hnd, Hd. fold k in Hz, Hu, Hnd, Hd.
  assert (Hk : (k <= List.length (l1 ++ l2))%nat) by (rewrite length_app; lia).
  destruct (delete_node_ok h (zsl zs) k w (l1 ++ l2) update Hz Hk Hu) as (h1 & z1 & E1 & Hz1 & Hl1 & Hok1 & Hsh1 & _).
  rewrite Hshw in Hsh1. destruct (shape_node _ _ _ _ _ _ Hsh1) as (n & En & Hel & _).
  pose proof (shape_node _ _ _ _ _ _ Hshw) as (n1 & En1 & Hel1 & _).
  assert (ele n = Some (ele_of w)) as Hele by (unfold ele_of; congruence).
  destruct (free_outside h1 z1 (l1 ++ l2) (iaddr w) Hok1) as (h2 & E2 & Hok2 & _).
  { eapply rest_addr; [apply (ok_rep _ _ _ Hz)|done]. }
  { rewrite Hsh1. eauto. }
  pose proof Hnd as Hnd2. rewrite (eles_perm _ _ (ins_perm_items k w (l1 ++ l2))) in Hnd2.
  destruct (dictGenericDelete_ok ty (zdict zs) _ (ele_of w) false Hd) as (d & Ed & Hd').
  exists l0, h1, z1, n, d, h2. split_and!; [done..| |done| |].
  - unfold dictDelete. rewrite Ed. cbn [mbind option_bind]. by eexists _, _.
  - apply ok_dict; [done| |].
    + unfold eles in *. rewrite fmap_cons in Hnd2. by apply list.NoDup_cons in Hnd2 as [_ ?].
    + change (addr_map (l1 ++ l2)) with (item_map iaddr (l1 ++ l2)). rewrite <- (item_map_delete iaddr w (l1 ++ l2) Hnd2).
      by rewrite <- (item_map_perm iaddr _ _ Hnd (ins_perm_items k w (l1 ++ l2))).
  - eapply update_agree; [|exact Hl1|exact Hu]. intros p Hp.
    destruct (ins_lookup k w z1 (zsl zs) (l1 ++ l2) Hk (eq_sym Hz1)) as (L1 & _). by apply L1.
Qed.

Lemma delete_while_ok cond Q l2 : (forall h z its q w tr, zsl_rep h z its -> its !! q = Some w ->
    cond h (iaddr w) tr = Some (Q tr w)) ->
  forall fuel h zs l1 update tr removed, ok h zs (l1 ++ l2) ->
  update_ok (all_items (zsl zs) (l1 ++ l2)) (List.length l1) (zlevel (zsl zs)) update ->
  (List.length l2 <= fuel)%nat -> 0 <= tr -> tr + zlen l2 < 2 ^ 64 -> 0 <= removed -> removed + zlen l2 < 2 ^ 64 ->
  exists h' zs', delete_while seed fuel cond h zs update (iaddr <$> head l2) tr removed =
      Some (removed + Z.of_nat (run Q tr l2), h', zs') /\ ok h' zs' (l1 ++ drop (run Q tr l2) l2).
Proof.
  intros Hcond. induction l2 as [|w l2 IH]; intros fuel h zs l1 update tr removed Hok Hu Hf Htr Htr2 Hrm Hrm2.
  { exists h, zs. cbn [run drop]. rewrite Z.add_0_r. split; [by destruct fuel|done]. }
  assert (Hw : (l1 ++ w :: l2) !! List.length l1 = Some w) by (by rewrite lookup_app_r, Nat.sub_diag by lia).
  pose proof (Hcond h (zsl zs) _ _ w tr (ok_rep _ _ _ (zo_zsl _ _ _ _ Hok)) Hw) as Hc.
  destruct fuel as [|fuel]; [cbn in Hf; lia|]. cbn [head fmap option_fmap option_map delete_while run].
  rewrite Hc. cbn [mbind option_bind]. destruct (Q tr w) eqn:EQ; cbn [negb].
  - destruct (delete_step h zs l1 w l2 update Hok Hu) as (l0 & h1 & z1 & n & d & h2 & E0 & Hfw & E1 & En & Ee & (r & f & E) & E2 & Hok2 & Hu2).
    rewrite E0. cbn [mbind option_bind]. rewrite E1. cbn [mbind option_bind]. rewrite En. cbn [mbind option_bind].
    rewrite Ee. cbn [mbind option_bind]. rewrite E. cbn [mbind option_bind]. rewrite E2. cbn [mbind option_bind]. rewrite Hfw.
    rewrite zlen_cons in *. pose proof (zlen_nonneg l2).
    rewrite (uwrap_small 64 (tr + 1)), (uwrap_small 64 (removed + 1)) by (unfold urange; lia).
    destruct (IH fuel h2 (Zset d z1) l1 update (tr + 1) (removed + 1) Hok2 Hu2) as (h' & zs' & -> & Hok'); [cbn in Hf; lia|lia..|].
    exists h', zs'. cbn [drop]. split; [|done]. do 3 f_equal. lia.
  - exists h, zs. cbn [drop]. by rewrite Z.add_0_r.
Qed.

(** The search and the loop together: the nodes after the gap of [P] are removed while [Q]. *)
Lemma delete_range_ok cond P loop_cond Q h zs items tr0 : ok h zs items ->
  (forall q w tr sp, items !! q = Some w -> tr + sp = Z.of_nat (S q) -> cond tr sp (iaddr w) = Some (P q w)) ->
  (forall q q' w w', (q < q')%nat -> items !! q = Some w -> items !! q' = Some w' -> P q' w' = true -> P q w = true) ->
  (forall h z its q w tr, zsl_rep h z its -> its !! q = Some w -> loop_cond h (iaddr w) tr = Some (Q tr w)) ->
  (forall p : nat, (p <= List.length items)%nat -> 0 <= tr0 (Z.of_nat p) <= 2 ^ 33) ->
  exists p h' zs', (p <= List.length items)%nat /\
    (forall q v, (q < p)%nat -> items !! q = Some v -> P q v = true) /\
    (forall q v, (p <= q)%nat -> items !! q = Some v -> P q v = false) /\
    let m := run Q (tr0 (Z.of_nat p)) (drop p items) in
    ('(x, traversed, update) ← search (zlevel (zsl zs)) h cond u64 (header (zsl zs)) 0;
     let traversed := tr0 traversed in
     l ← lv h x 0;
     delete_while seed (map_size h) loop_cond h zs update (forward l) traversed 0) = Some (Z.of_nat m, h', zs') /\
    ok h' zs' (take p items ++ drop m (drop p items)).
Proof.
  intros Hok Hcond Hmono Hloop Htr. pose proof Hok as [Hz Hnd Hd]. pose proof (ok_rep _ _ _ Hz) as Hr.
  destruct (gap_spec h (zsl zs) items cond u64 P Hr Hcond) as (p & x & update & E & Hx & Hp & _ & Hu & Hlo & Hhi); [|done|].
  { intros q Hq. pose proof (rep_pos_range _ _ _ _ Hr (ok_size _ _ _ Hz) Hq). apply uwrap_small. unfold urange. lia. }
  destruct (forward0 _ _ _ _ _ Hr Hx) as (l & El & Hf). rewrite E. cbn [mbind option_bind]. rewrite El. cbn [mbind option_bind].
  assert (items !! p = head (drop p items)) as Eh by (rewrite <- (Nat.add_0_r p) at 1; rewrite <- lookup_drop; by destruct (drop p items)).
  rewrite Hf, Eh. assert (List.length (take p items) = p) as Hlt by (rewrite length_take; lia).
  pose proof (rep_fuel _ _ _ Hr) as Hfuel. unfold all_items in Hfuel. cbn in Hfuel.
  pose proof (ok_size _ _ _ Hz) as Hsz. specialize (Htr p Hp).
  destruct (delete_while_ok loop_cond Q (drop p items) Hloop (map_size h) h zs (take p items) update (tr0 (Z.of_nat p)) 0)
    as (h' & zs' & E' & Hok'); rewrite ?take_drop, ?Hlt; try done.
  - rewrite length_drop. lia.
  - lia.
  - unfold zlen in *. rewrite length_drop. lia.
  - unfold zlen in *. rewrite length_drop. lia.
  - exists p, h', zs'. split_and!; done.
Qed.

(** A run of the nodes after the gap that is monotone removes exactly those in the range. *)
Lemma run_filter (lo hi : item -> bool) items p :
  (forall q v, (q < p)%nat -> items !! q = Some v -> lo v = false) ->
  (forall q v, (p <= q)%nat -> items !! q = Some v -> lo v = true) ->
  (forall q q' v w, (q < q')%nat -> items !! q = Some v -> items !! q' = Some w -> hi w = true -> hi v = true) ->
  (p <= List.length items)%nat -> forall tr,
  let m := run (fun _ w => hi w) tr (drop p items) in
  Z.of_nat m = zlen (List.filter (fun w => lo w && hi w) items) /\
  take p items ++ drop m (drop p items) = List.filter (fun w => negb (lo w && hi w)) items.
Proof.
  intros Hlo Hhi Hmono Hp tr m.
  assert (Htake : forall v, v ∈ take p items -> lo v = false).
  { intros v Hv. apply list_elem_of_lookup in Hv as [q Hv]. apply lookup_take_Some in Hv as [Hv Hq]. by apply (Hlo q). }
  assert (List.filter (fun w => lo w && hi w) items = List.filter (fun w => lo w && hi w) (drop p items)) as ->.
  { rewrite <- (take_drop p items) at 1. rewrite List.filter_app, (filter_false _ (take p items)); [done|].
    intros v Hv. by rewrite (Htake v Hv). }
  assert (List.filter (fun w => negb (lo w && hi w)) items =
    take p items ++ List.filter (fun w => negb (lo w && hi w)) (drop p items)) as ->.
  { rewrite <- (take_drop p items) at 1. rewrite List.filter_app, (List.forallb_filter_id _ (take p items)); [done|].
    apply forallb_forall. intros v Hv. apply list_elem_of_In in Hv. by rewrite (Htake v Hv). }
  assert (forall l t, (forall q v, l !! q = Some v -> lo v = true) ->
    (forall q q' v w, (q < q')%nat -> l !! q = Some v -> l !! q' = Some w -> hi w = true -> hi v = true) ->
    Z.of_nat (run (fun _ w => hi w) t l) = zlen (List.filter (fun w => lo w && hi w) l) /\
    drop (run (fun _ w => hi w) t l) l = List.filter (fun w => negb (lo w && hi w)) l) as Hrun.
  { induction l as [|w l IH]; intros t Hl Hm; [done|]. cbn [run List.filter]. rewrite (Hl 0%nat w eq_refl). cbn [andb].
    destruct (hi w) eqn:Ew; cbn [negb].
    - destruct (IH (t + 1)) as [IH1 IH2]; [intros q v Hv; by apply (Hl (S q))| |].
      + intros q q' v u Hq Hv Hu. apply (Hm (S q) (S q')); [lia|done..].
      + rewrite zlen_cons, <- IH1. cbn [drop]. split; [lia|done].
    - assert (forall v, v ∈ l -> hi v = false) as Hf.
      { intros v Hv. apply list_elem_of_lookup in Hv as [q Hv]. destruct (hi v) eqn:Ev; [|done].
        by rewrite (Hm 0%nat (S q) w v ltac:(lia) eq_refl Hv Ev) in Ew. }
      rewrite (filter_false _ l) by (intros v Hv; rewrite (Hf v Hv); apply andb_false_r). split; [done|]. cbn [drop]. f_equal.
      symmetry. apply List.forallb_filter_id, forallb_forall. intros v Hv. apply list_elem_of_In in Hv. rewrite (Hf v Hv).
      by rewrite andb_false_r. }
  destruct (Hrun (drop p items) tr) as [H1 H2].
  - intros q v Hv. rewrite lookup_drop in Hv. apply (Hhi (p + q)%nat); [lia|done].
  - intros q q' v w Hq Hv Hw. rewrite lookup_drop in Hv, Hw. apply (Hmono (p + q) (p + q'))%nat; [lia|done..].
  - unfold m. by rewrite H1, H2.
Qed.

Lemma below_min_code v r : isnan v = false -> valid_range r ->
  (if minex r then SFleb v (rmin r) else SFltb v (rmin r)) = negb (zslValueGteMin v r).
Proof.
  intros Hv Hr. rewrite gte_min_above by done. destruct Hr as [H1 H2]. rewrite SFltb_dkey, SFleb_dkey by done. unfold above.
  by destruct (lex _ _), (minex r).
Qed.

Lemma delete_by_score_ok h zs items r : ok h zs items -> valid_range r ->
  exists h' zs', zslDeleteRangeByScore seed h zs r = Some (zlen (List.filter (score_in_range r) items), h', zs') /\
    ok h' zs' (List.filter (fun w => negb (score_in_range r w)) items).
Proof.
  intros Hok Hr. pose proof Hok as [Hz _ _]. pose proof Hz as [Hrep _ Hs Hv _].
  pose proof (score_mono items Hs) as Hmono.
  destruct (delete_range_ok
    (fun _ _ f => score_test h (fun v => if minex r then SFleb v (rmin r) else SFltb v (rmin r)) f)
    (fun _ w => negb (zslValueGteMin (iscore w) r))
    (fun h a _ => score_test h (fun v => if maxex r then SFltb v (rmax r) else SFleb v (rmax r)) a)
    (fun _ w => zslValueLteMax (iscore w) r) h zs items (fun _ => 0) Hok) as (p & h' & zs' & Hp & Hlo & Hhi & E & Hok').
  - intros q w tr sp Hq _. rewrite (score_test_spec _ _ _ _ _ _ Hrep Hq). f_equal. apply below_min_code; [|done].
    apply (items_valid _ _ _ Hv Hq).
  - intros q q' w w' Hq Hw Hw'. rewrite !negb_true_iff, !gte_min_above; try done;
      try by (eapply (items_valid _ _ _ Hv); eassumption). intros H.
    destruct (above (lex (dkey (iscore w)) (dkey (rmin r))) (minex r)) eqn:Ea; [|done].
    by rewrite (lex_le _ _ _ _ (Hmono q q' w w' Hq Hw Hw') Ea) in H.
  - intros h1 z1 its q w tr Hr1 Hq. by rewrite (score_test_spec _ _ _ _ _ _ Hr1 Hq).
  - intros p _. lia.
  - destruct (run_filter (fun w => zslValueGteMin (iscore w) r) (fun w => zslValueLteMax (iscore w) r) items p) with (tr := 0)
      as [Hm Hl]; [| | |done|].
    + intros q v Hq Hqv. by apply negb_true_iff, (Hlo q).
    + intros q v Hq Hqv. by apply negb_false_iff, (Hhi q).
    + intros q q' v w Hq Hw Hw'. rewrite !lte_max_above; try done; try by (eapply (items_valid _ _ _ Hv); eassumption).
      apply lex_ge. by apply (Hmono q q').
    + exists h', zs'. cbv zeta in E. unfold zslDeleteRangeByScore. rewrite Hm in E. rewrite Hl in Hok'. split; [exact E|done].
Qed.

Lemma delete_by_lex_ok h zs items r : ok h zs items -> same_scores items ->
  exists h' zs', zslDeleteRangeByLex seed h zs r = Some (zlen (List.filter (ele_in_range r) items), h', zs') /\
    ok h' zs' (List.filter (fun w => negb (ele_in_range r w)) items).
Proof.
  intros Hok Hsame. pose proof Hok as [Hz _ _]. pose proof Hz as [Hrep _ Hs Hv _].
  pose proof (ele_mono items Hs Hv Hsame) as Hmono.
  destruct (delete_range_ok (fun _ _ f => negb <$> ele_test h (fun v => zslLexValueGteMin v r) f)
    (fun _ w => negb (zslLexValueGteMin (ele_of w) r)) (fun h a _ => ele_test h (fun v => zslLexValueLteMax v r) a)
    (fun _ w => zslLexValueLteMax (ele_of w) r) h zs items (fun _ => 0) Hok) as (p & h' & zs' & Hp & Hlo & Hhi & E & Hok').
  - intros q w tr sp Hq _. by rewrite (ele_test_spec _ _ _ _ _ _ Hrep Hq).
  - intros q q' w w' Hq Hw Hw'. rewrite !negb_true_iff, !lex_gte_above. intros H.
    destruct (above (lex (encb (Str (ele_of w))) (encb (lmin r))) (lminex r)) eqn:Ea; [|done].
    by rewrite (lex_le _ _ _ _ (Hmono q q' w w' Hq Hw Hw') Ea) in H.
  - intros h1 z1 its q w tr Hr1 Hq. by rewrite (ele_test_spec _ _ _ _ _ _ Hr1 Hq).
  - intros p _. lia.
  - destruct (run_filter (fun w => zslLexValueGteMin (ele_of w) r) (fun w => zslLexValueLteMax (ele_of w) r) items p) with (tr := 0)
      as [Hm Hl]; [| | |done|].
    + intros q v Hq Hqv. by apply negb_true_iff, (Hlo q).
    + intros q v Hq Hqv. by apply negb_false_iff, (Hhi q).
    + intros q q' v w Hq Hw Hw'. rewrite !lex_lte_above. apply lex_ge. by apply (Hmono q q').
    + exists h', zs'. cbv zeta in E. unfold zslDeleteRangeByLex. rewrite Hm in E. rewrite Hl in Hok'. split; [exact E|done].
Qed.

Lemma run_upto last l : forall tr, run (fun tr _ => tr <=? last) tr l = Nat.min (List.length l) (Z.to_nat (last - tr + 1)).
Proof.
  induction l as [|w l IH]; intros tr; cbn [run List.length]; [done|]. destruct (Z.leb_spec tr last); [|lia].
  rewrite IH. lia.
Qed.

(** Positions are counted from 1 by the code. *)
Definition rank_kept (start last : Z) (items : list item) : list item :=
  take (Z.to_nat (start - 1)) items ++ drop (Z.to_nat (Z.max (start - 1) last)) items.

Lemma delete_by_rank_ok h zs items start last : ok h zs items -> 0 <= start < 2 ^ 32 -> 0 <= last < 2 ^ 32 ->
  exists h' zs', zslDeleteRangeByRank seed h zs start last =
      Some (zlen items - zlen (rank_kept start last items), h', zs') /\ ok h' zs' (rank_kept start last items).
Proof.
  intros Hok Hs Hl. pose proof Hok as [Hz _ _]. pose proof (ok_size _ _ _ Hz) as Hsz. unfold zlen in Hsz.
  destruct (delete_range_ok (fun tr sp _ => Some (u64 (tr + sp) <? start)) (fun q _ => Z.of_nat (S q) <? start)
    (fun _ _ tr => Some (tr <=? last)) (fun tr _ => tr <=? last) h zs items (fun t => u64 (t + 1)) Hok)
    as (p & h' & zs' & Hp & Hlo & Hhi & E & Hok').
  - intros q w tr sp Hq ->. apply lookup_lt_Some in Hq. by rewrite uwrap_small by (unfold urange; lia).
  - intros q q' w w' Hq _ _. rewrite !Z.ltb_lt. lia.
  - done.
  - intros p Hp. rewrite uwrap_small by (unfold urange; lia). lia.
  - assert (p = Nat.min (Z.to_nat (start - 1)) (List.length items)) as Ep.
    { destruct p as [|p].
      - destruct items as [|a items0]; [cbn; lia|]. specialize (Hhi 0%nat a ltac:(lia) eq_refl). apply Z.ltb_ge in Hhi. lia.
      - destruct (lookup_lt_is_Some_2 items p ltac:(lia)) as [v Hv]. specialize (Hlo p v ltac:(lia) Hv). apply Z.ltb_lt in Hlo.
        destruct (decide (S p = List.length items)) as [|Hne]; [lia|].
        destruct (lookup_lt_is_Some_2 items (S p) ltac:(lia)) as [u Hu]. specialize (Hhi (S p) u ltac:(lia) Hu).
        apply Z.ltb_ge in Hhi. lia. }
    rewrite uwrap_small in E, Hok' by (unfold urange; lia). rewrite run_upto, length_drop in E, Hok'. cbv zeta in E.
    assert (take p items ++ drop (Nat.min (List.length items - p) (Z.to_nat (last - (Z.of_nat p + 1) + 1))) (drop p items) =
      rank_kept start last items) as Ek.
    { unfold rank_kept. rewrite drop_drop. f_equal.
      - subst p. destruct (decide (Z.to_nat (start - 1) <= List.length items)%nat); [f_equal; lia|].
        rewrite !take_ge by lia. done.
      - destruct (decide (p + Nat.min (List.length items - p) (Z.to_nat (last - (Z.of_nat p + 1) + 1)) < List.length items)%nat).
        + f_equal. lia.
        + rewrite !drop_ge by lia. done. }
    rewrite Ek in Hok'. exists h', zs'. split; [|done]. unfold zslDeleteRangeByRank. rewrite E. do 3 f_equal.
    rewrite <- Ek. unfold zlen. rewrite length_app, length_take, !length_drop. lia.
Qed.

Lemma zsetCreate_ok g h : exists h' zs, zsetCreate g h = Some (h', zs) /\ ok h' zs [].
Proof.
  unfold zsetCreate. destruct (zslCreate_ok g h) as (h' & z & -> & Hz & _). cbn [mbind option_bind].
  eexists h', _. split; [done|]. apply ok_dict; [done|constructor|]. apply (dictCreate_ok ty).
Qed.

End Specs.

(** * The main theorems *)

(** The sorted set holds this map from elements to scores. *)
Definition zset_holds (seed : bytes) (h : heap) (zs : zset) (m : gmap bytes double) : Prop :=
  exists items, zset_ok seed h zs items /\ score_map items = m.

(** C2. A sorted set (dictionary and skip list together) refines a map from elements to scores: a new
    one is empty; [zsetAdd] returns, sets the flags and changes the map as [zadd_spec] says for every
    combination of INCR, NX and XX, NaN included; [zsetDel] removes the element and returns whether
    it was there; [zsetScore] is lookup; [zsetRank] is the number of smaller (score, element) pairs,
    or of larger ones when reversed, and -1 for an element that is not there; [zsetLength] is the
    size.  No assertion fails and the entries of the dictionary never point at a freed node. *)
Theorem zset_refines_map (seed : bytes) (can_resize reverse : bool) (g : zskiplistLevel) (h : heap) (zs : zset)
    (m : gmap bytes double) (sc : double) (el : bytes) (flags : Z) (rnd : list Z) :
  zset_holds seed h zs m -> Z.of_nat (base.size m) < 2 ^ 32 - 1 -> random_ends rnd ->
  (exists h0 zs0, zsetCreate g h = Some (h0, zs0) /\ zset_holds seed h0 zs0 ∅) /\
  (exists ret fl ns m' h' zs' rnd', zadd_spec m sc el flags = (ret, fl, ns, m') /\
     zsetAdd seed can_resize g h zs sc el flags rnd = Some (ret, fl, ns, h', zs', rnd') /\ zset_holds seed h' zs' m') /\
  (exists h' zs', zsetDel seed can_resize h zs el = Some (if bool_decide (is_Some (m !! el)) then 1 else 0, h', zs') /\
     zset_holds seed h' zs' (delete el m)) /\
  (exists zs', zsetScore seed h zs el = Some (m !! el, zs') /\ zset_holds seed h zs' m) /\
  (exists zs', zsetRank seed h zs el reverse = Some (rank_spec m el reverse, zs') /\ zset_holds seed h zs' m) /\
  zsetLength zs = Z.of_nat (base.size m).
Proof.
  intros (items & Hok & <-) Hsz Hrnd. pose proof Hok as [Hz Hnd Hd].
  change (score_map items) with (item_map iscore items) in Hsz |- *. rewrite item_map_size in Hsz |- * by done. split_and!.
  - destruct (zsetCreate_ok seed g h) as (h0 & zs0 & E & H0). exists h0, zs0. split; [done|]. by exists [].
  - destruct (zsetAdd_ok seed can_resize g h zs items sc el flags rnd Hok Hsz Hrnd) as (h' & zs' & items' & rnd' & ret & fl & ns & E & Hok' & Es).
    exists ret, fl, ns, (score_map items'), h', zs', rnd'. split_and!; [done..|]. by exists items'.
  - destruct (zsetDel_ok seed can_resize h zs items el Hok) as (h' & zs' & items' & E & Hok' & Es).
    exists h', zs'. split; [done|]. by exists items'.
  - destruct (zsetScore_ok seed h zs items el Hok) as (zs' & E & Hok'). exists zs'. split; [done|]. by exists items.
  - destruct (zsetRank_ok seed h zs items el reverse Hok) as (zs' & E & Hok'). exists zs'. split; [done|]. by exists items.
  - unfold zsetLength. rewrite (rep_length _ _ _ (ok_rep _ _ _ Hz)). done.
Qed.

Lemma zset_refines_map_witness : exists h zs h' zs' rnd',
  zset_holds seed0 h zs ∅ /\
  zsetAdd seed0 true (Lvl None 0) h zs (of_Z 3) (str "a") ZADD_NONE [65535] =
    Some (1, ZADD_ADDED, Some (of_Z 3), h', zs', rnd') /\
  zset_holds seed0 h' zs' {[ str "a" := of_Z 3 ]}.
Proof.
  destruct (zsetCreate_ok seed0 (Lvl None 0) ∅) as (h & zs & _ & H0).
  assert (zset_holds seed0 h zs ∅) as Hh by (by exists []).
  destruct (zset_refines_map seed0 true false (Lvl None 0) h zs ∅ (of_Z 3) (str "a") ZADD_NONE [65535] Hh eq_refl
    ltac:(by constructor)) as (_ & (ret & fl & ns & m' & h' & zs' & rnd' & Es & E & H') & _).
  injection Es as <- <- <- <-. exists h, zs, h', zs', rnd'. split_and!; [done|exact E|exact H'].
Defined.

(** The range deletions of a sorted set remove exactly the range: [zslDeleteRangeByScore] the
    nodes with a score in the range, [zslDeleteRangeByLex] those with an element in the range when
    all scores are equal, [zslDeleteRangeByRank] the positions from [start] to [end], counted from 1;
    each returns how many, keeps the order of the rest, and removes the same elements from the
    dictionary as from the skip list, using the [update] array of one search for every node. *)
Theorem zset_delete_ranges (seed : bytes) (h : heap) (zs : zset) (items : list item) (rg : zrangespec)
    (lrg : zlexrangespec) (start last : Z) :
  zset_ok seed h zs items -> valid_range rg -> 0 <= start < 2 ^ 32 -> 0 <= last < 2 ^ 32 ->
  (exists h' zs', zslDeleteRangeByScore seed h zs rg = Some (zlen (List.filter (score_in_range rg) items), h', zs') /\
     zset_ok seed h' zs' (List.filter (fun w => negb (score_in_range rg w)) items)) /\
  (same_scores items -> exists h' zs',
     zslDeleteRangeByLex seed h zs lrg = Some (zlen (List.filter (ele_in_range lrg) items), h', zs') /\
     zset_ok seed h' zs' (List.filter (fun w => negb (ele_in_range lrg w)) items)) /\
  (exists h' zs', zslDeleteRangeByRank seed h zs start last =
       Some (zlen items - zlen (rank_kept start last items), h', zs') /\
     zset_ok seed h' zs' (rank_kept start last items)).
Proof.
  intros Hok Hr Hs Hl. split_and!; [by apply delete_by_score_ok|intros Hsame; by apply delete_by_lex_ok|by apply delete_by_rank_ok].
Qed.

Lemma zset_delete_ranges_witness : exists h zs items h' zs', map ele_of items = [str "a"] /\
  zslDeleteRangeByScore seed0 h zs (Range (of_Z 0) (of_Z 5) true false) = Some (1, h', zs') /\ zset_ok seed0 h' zs' [].
Proof.
  destruct (zsetCreate_ok seed0 (Lvl None 0) ∅) as (h & zs & _ & H0).
  destruct (zsetAdd_ok seed0 true (Lvl None 0) h zs [] (of_Z 3) (str "a") ZADD_NONE [65535] H0 eq_refl ltac:(by constructor))
    as (h1 & zs1 & items & rnd' & ret & fl & ns & _ & H1 & Es).
  assert (exists w, items = [w] /\ ele_of w = str "a" /\ iscore w = of_Z 3) as (w & -> & Hw & Hs).
  { injection Es as _ _ _ Em. pose proof (f_equal base.size Em) as Hsz. change (score_map items) with (item_map iscore items) in *.
    rewrite item_map_size in Hsz by apply H1. rewrite map_size_insert_None in Hsz by done. cbn in Hsz.
    destruct items as [|w [|? ?]]; try discriminate Hsz. exists w. split; [done|].
    pose proof (f_equal (lookup (str "a")) Em) as E2. rewrite lookup_insert_eq in E2.
    apply (item_map_lookup iscore [w] (str "a") (of_Z 3) (zo_eles _ _ _ _ H1)) in E2 as (v & Hv & He & Hsc).
    apply list_elem_of_singleton in Hv as ->. done. }
  destruct (zset_delete_ranges seed0 h1 zs1 [w] (Range (of_Z 0) (of_Z 5) true false) (LexRange Minstring Maxstring false false)
    0 0 H1 ltac:(done) ltac:(lia) ltac:(lia)) as ((h' & zs' & E & H') & _).
  cbn [List.filter] in E, H'. unfold score_in_range in E, H'. rewrite Hs in E, H'.
  exists h1, zs1, [w], h', zs'. split; [cbn [map]; by rewrite Hw|]. split; [exact E|exact H'].
Defined.
