(* ===== verification/Ziplist.v ===== *)
(** * Ziplists: ziplist.c

    The compact list encoding of src/code/lesson1.10/redis-5.0.10/src/ziplist.c: a single block of
    memory that holds a 10-byte header (total bytes, offset of the last entry, number of entries),
    the entries, and a 0xFF byte.  Every entry starts with the length of the entry before it, in one
    byte or in five, so inserting or deleting can change the size of the entry that follows, whose
    successor then stores a stale length, and so on: [__ziplistCascadeUpdate].

    A ziplist is a [list Z] of bytes and a pointer into it is an offset; reads and writes outside the
    block, the panics and the asserts are [None].  This file holds the operations, the abstract
    layout of a ziplist, and the lemmas about decoding and writing one entry; ZiplistSpec.v has the
    theorems on whole ziplists. *)

From S2P Require Import Prelude Util Sds.

#[local] Open Scope Z_scope.

(** * Constants and header macros *)

Definition ZIP_END : Z := 255.
Definition ZIP_BIG_PREVLEN : Z := 254.
Definition ZIP_STR_MASK : Z := 0xc0.
Definition ZIP_STR_06B : Z := 0x00.
Definition ZIP_STR_14B : Z := 0x40.
Definition ZIP_STR_32B : Z := 0x80.
Definition ZIP_INT_16B : Z := 0xc0.
Definition ZIP_INT_32B : Z := 0xd0.
Definition ZIP_INT_64B : Z := 0xe0.
Definition ZIP_INT_24B : Z := 0xf0.
Definition ZIP_INT_8B : Z := 0xfe.
Definition ZIP_INT_IMM_MASK : Z := 0x0f.
Definition ZIP_INT_IMM_MIN : Z := 0xf1.
Definition ZIP_INT_IMM_MAX : Z := 0xfd.
Definition INT24_MAX : Z := 0x7fffff.
Definition INT24_MIN : Z := - INT24_MAX - 1.
Definition ZIPLIST_HEADER_SIZE : Z := 10.
Definition ZIPLIST_END_SIZE : Z := 1.
Definition UINT16_MAX : Z := 65535.
Definition ZIPLIST_HEAD : Z := 0.
Definition ZIPLIST_TAIL : Z := 1.

Definition ZIP_IS_STR (enc : Z) : bool := Z.land enc ZIP_STR_MASK <? ZIP_STR_MASK.

Definition ZIPLIST_BYTES (zl : bytes) : option Z := b ← zsub zl 0 4; Some (le_value b).
Definition ZIPLIST_TAIL_OFFSET (zl : bytes) : option Z := b ← zsub zl 4 4; Some (le_value b).
Definition ZIPLIST_LENGTH (zl : bytes) : option Z := b ← zsub zl 8 2; Some (le_value b).

(** Assignments through the header macros. *)
Definition set_ZIPLIST_BYTES (zl : bytes) (v : Z) : option bytes := zput zl 0 (le_bytes 4 v).
Definition set_ZIPLIST_TAIL_OFFSET (zl : bytes) (v : Z) : option bytes := zput zl 4 (le_bytes 4 v).
Definition set_ZIPLIST_LENGTH (zl : bytes) (v : Z) : option bytes := zput zl 8 (le_bytes 2 v).

Definition ZIPLIST_ENTRY_HEAD : Z := ZIPLIST_HEADER_SIZE.
Definition ZIPLIST_ENTRY_TAIL (zl : bytes) : option Z := ZIPLIST_TAIL_OFFSET zl.
Definition ZIPLIST_ENTRY_END (zl : bytes) : option Z := n ← ZIPLIST_BYTES zl; Some (n - 1).

Definition ZIPLIST_INCR_LENGTH (zl : bytes) (incr : Z) : option bytes :=
  n ← ZIPLIST_LENGTH zl;
  if n <? UINT16_MAX then set_ZIPLIST_LENGTH zl (n + incr) else Some zl.

(** * Encoding of one entry *)

Record zlentry := ZlEntry {
  prevrawlensize : Z;
  prevrawlen : Z;
  lensize : Z;
  len : Z;
  headersize : Z;
  encoding : Z;
  zp : Z
}.

Definition ZIP_ENTRY_ENCODING (zl : bytes) (ptr : Z) : option Z :=
  b ← zget zl ptr;
  Some (if b <? ZIP_STR_MASK then Z.land b ZIP_STR_MASK else b).

Definition zipIntSize (enc : Z) : option Z :=
  if enc =? ZIP_INT_8B then Some 1
  else if enc =? ZIP_INT_16B then Some 2
  else if enc =? ZIP_INT_24B then Some 3
  else if enc =? ZIP_INT_32B then Some 4
  else if enc =? ZIP_INT_64B then Some 8
  else if (ZIP_INT_IMM_MIN <=? enc) && (enc <=? ZIP_INT_IMM_MAX) then Some 0
  else None.

(** [p = None] is the NULL pointer: only the size is computed. *)
Definition zipStoreEntryEncoding (zl : bytes) (p : option Z) (enc rawlen : Z) : option (bytes * Z) :=
  let buf :=
    if ZIP_IS_STR enc then
      if rawlen <=? 0x3f then [u8 (Z.lor ZIP_STR_06B rawlen)]
      else if rawlen <=? 0x3fff then
        [u8 (Z.lor ZIP_STR_14B (Z.land (Z.shiftr rawlen 8) 0x3f)); Z.land rawlen 0xff]
      else
        [ZIP_STR_32B; Z.land (Z.shiftr rawlen 24) 0xff; Z.land (Z.shiftr rawlen 16) 0xff;
         Z.land (Z.shiftr rawlen 8) 0xff; Z.land rawlen 0xff]
    else [enc] in
  match p with
  | None => Some (zl, zlen buf)
  | Some p => zl ← zput zl p buf; Some (zl, zlen buf)
  end.

(** Encoding, [lensize] and [len]. *)
Definition ZIP_DECODE_LENGTH (zl : bytes) (ptr : Z) : option (Z * Z * Z) :=
  enc ← ZIP_ENTRY_ENCODING zl ptr;
  if enc <? ZIP_STR_MASK then
    if enc =? ZIP_STR_06B then
      b0 ← zget zl ptr; Some (enc, 1, Z.land b0 0x3f)
    else if enc =? ZIP_STR_14B then
      b0 ← zget zl ptr; b1 ← zget zl (ptr + 1);
      Some (enc, 2, Z.lor (Z.shiftl (Z.land b0 0x3f) 8) b1)
    else if enc =? ZIP_STR_32B then
      b1 ← zget zl (ptr + 1); b2 ← zget zl (ptr + 2); b3 ← zget zl (ptr + 3); b4 ← zget zl (ptr + 4);
      Some (enc, 5, u32 (Z.lor (Z.lor (Z.lor (Z.shiftl b1 24) (Z.shiftl b2 16)) (Z.shiftl b3 8)) b4))
    else None
  else l ← zipIntSize enc; Some (enc, 1, l).

Definition zipStorePrevEntryLengthLarge (zl : bytes) (p : option Z) (len : Z) : option (bytes * Z) :=
  match p with
  | Some p =>
      zl ← zput zl p [ZIP_BIG_PREVLEN];
      zl ← zput zl (p + 1) (le_bytes 4 len);
      Some (zl, 5)
  | None => Some (zl, 5)
  end.

Definition zipStorePrevEntryLength (zl : bytes) (p : option Z) (len : Z) : option (bytes * Z) :=
  match p with
  | None => Some (zl, if len <? ZIP_BIG_PREVLEN then 1 else 5)
  | Some p =>
      if len <? ZIP_BIG_PREVLEN then zl ← zput zl p [u8 len]; Some (zl, 1)
      else zipStorePrevEntryLengthLarge zl (Some p) len
  end.

Definition ZIP_DECODE_PREVLENSIZE (zl : bytes) (ptr : Z) : option Z :=
  b ← zget zl ptr; Some (if b <? ZIP_BIG_PREVLEN then 1 else 5).

(** [prevlensize] and [prevlen]. *)
Definition ZIP_DECODE_PREVLEN (zl : bytes) (ptr : Z) : option (Z * Z) :=
  prevlensize ← ZIP_DECODE_PREVLENSIZE zl ptr;
  if prevlensize =? 1 then prevlen ← zget zl ptr; Some (prevlensize, prevlen)
  else b ← zsub zl (ptr + 1) 4; Some (prevlensize, le_value b).

Definition zipPrevLenByteDiff (zl : bytes) (p len : Z) : option Z :=
  prevlensize ← ZIP_DECODE_PREVLENSIZE zl p;
  '(_, n) ← zipStorePrevEntryLength zl None len;
  Some (n - prevlensize).

Definition zipRawEntryLength (zl : bytes) (p : Z) : option Z :=
  prevlensize ← ZIP_DECODE_PREVLENSIZE zl p;
  '(_, lensize, len) ← ZIP_DECODE_LENGTH zl (p + prevlensize);
  Some (u32 (prevlensize + lensize + len)).

(** The value and the encoding, when the string is the canonical form of an integer. *)
Definition zipTryEncoding (entry : bytes) : option (Z * Z) :=
  if (32 <=? zlen entry) || (zlen entry =? 0) then None
  else
    value ← string2ll entry;
    Some (value,
      if (0 <=? value) && (value <=? 12) then ZIP_INT_IMM_MIN + value
      else if (- 2 ^ 7 <=? value) && (value <=? 2 ^ 7 - 1) then ZIP_INT_8B
      else if (INT16_MIN <=? value) && (value <=? INT16_MAX) then ZIP_INT_16B
      else if (INT24_MIN <=? value) && (value <=? INT24_MAX) then ZIP_INT_24B
      else if (INT32_MIN <=? value) && (value <=? INT32_MAX) then ZIP_INT_32B
      else ZIP_INT_64B).

Definition zipSaveInteger (zl : bytes) (p value enc : Z) : option bytes :=
  if enc =? ZIP_INT_8B then zput zl p (le_bytes 1 value)
  else if enc =? ZIP_INT_16B then zput zl p (le_bytes 2 value)
  else if enc =? ZIP_INT_24B then zput zl p (drop 1 (le_bytes 4 (s32 (Z.shiftl value 8))))
  else if enc =? ZIP_INT_32B then zput zl p (le_bytes 4 value)
  else if enc =? ZIP_INT_64B then zput zl p (le_bytes 8 value)
  else if (ZIP_INT_IMM_MIN <=? enc) && (enc <=? ZIP_INT_IMM_MAX) then Some zl
  else None.

Definition zipLoadInteger (zl : bytes) (p enc : Z) : option Z :=
  if enc =? ZIP_INT_8B then b ← zget zl p; Some (s8 b)
  else if enc =? ZIP_INT_16B then b ← zsub zl p 2; Some (s16 (le_value b))
  else if enc =? ZIP_INT_32B then b ← zsub zl p 4; Some (s32 (le_value b))
  else if enc =? ZIP_INT_24B then b ← zsub zl p 3; Some (Z.shiftr (s32 (le_value (0 :: b))) 8)
  else if enc =? ZIP_INT_64B then b ← zsub zl p 8; Some (s64 (le_value b))
  else if (ZIP_INT_IMM_MIN <=? enc) && (enc <=? ZIP_INT_IMM_MAX)
  then Some (Z.land enc ZIP_INT_IMM_MASK - 1)
  else None.

Definition zipEntry (zl : bytes) (p : Z) : option zlentry :=
  '(prevrawlensize, prevrawlen) ← ZIP_DECODE_PREVLEN zl p;
  '(encoding, lensize, len) ← ZIP_DECODE_LENGTH zl (p + prevrawlensize);
  Some (ZlEntry prevrawlensize prevrawlen lensize len (prevrawlensize + lensize) encoding p).

(** * Operations on the whole list *)

Definition ziplistNew : option bytes :=
  let n := ZIPLIST_HEADER_SIZE + ZIPLIST_END_SIZE in
  zl ← set_ZIPLIST_BYTES (zresize [] n) n;
  zl ← set_ZIPLIST_TAIL_OFFSET zl ZIPLIST_HEADER_SIZE;
  zl ← set_ZIPLIST_LENGTH zl 0;
  zput zl (n - 1) [ZIP_END].

Definition ziplistResize (zl : bytes) (n : Z) : option bytes :=
  let len := u32 n in
  let zl := zresize zl len in
  zl ← set_ZIPLIST_BYTES zl len;
  zput zl (len - 1) [ZIP_END].

(** One turn of the loop handles one entry; [fuel] bounds the number of entries. *)
Fixpoint cascade_loop (fuel : nat) (zl : bytes) (curlen p : Z) : option bytes :=
  match fuel with
  | O => None
  | S fuel =>
      b ← zget zl p;
      if b =? ZIP_END then Some zl
      else
        cur ← zipEntry zl p;
        let rawlen := u32 (headersize cur + len cur) in
        '(_, rawlensize) ← zipStorePrevEntryLength zl None rawlen;
        b ← zget zl (p + rawlen);
        if b =? ZIP_END then Some zl
        else
          next ← zipEntry zl (p + rawlen);
          if prevrawlen next =? rawlen then Some zl
          else if prevrawlensize next <? rawlensize then
            let offset := p in
            let extra := rawlensize - prevrawlensize next in
            zl ← ziplistResize zl (curlen + extra);
            let p := offset in
            let np := p + rawlen in
            let noffset := np in
            tail ← ZIPLIST_TAIL_OFFSET zl;
            zl ← (if negb (tail =? np) then set_ZIPLIST_TAIL_OFFSET zl (tail + extra) else Some zl);
            zl ← zmove zl (np + rawlensize) (np + prevrawlensize next)
                   (curlen - noffset - prevrawlensize next - 1);
            '(zl, _) ← zipStorePrevEntryLength zl (Some np) rawlen;
            cascade_loop fuel zl (curlen + extra) (p + rawlen)
          else if rawlensize <? prevrawlensize next then
            '(zl, _) ← zipStorePrevEntryLengthLarge zl (Some (p + rawlen)) rawlen; Some zl
          else
            '(zl, _) ← zipStorePrevEntryLength zl (Some (p + rawlen)) rawlen; Some zl
  end.

Definition __ziplistCascadeUpdate (zl : bytes) (p : Z) : option bytes :=
  curlen ← ZIPLIST_BYTES zl;
  cascade_loop (length zl) zl curlen p.

(** The loop that skips the entries to delete: the position reached and the number of entries. *)
Fixpoint delete_scan (fuel : nat) (zl : bytes) (p num i : Z) : option (Z * Z) :=
  match fuel with
  | O => None
  | S fuel =>
      b ← zget zl p;
      if negb (b =? ZIP_END) && (i <? num) then
        n ← zipRawEntryLength zl p;
        delete_scan fuel zl (p + n) num (i + 1)
      else Some (p, i)
  end.

(** When an entry follows the deleted ones, at [p]: it learns its new predecessor's length and moves
    to the front with everything after it.  The result has the change of its size. *)
Definition delete_shift (zl : bytes) (p : Z) (first : zlentry) (totlen : Z) : option (bytes * Z) :=
  nextdiff ← zipPrevLenByteDiff zl p (prevrawlen first);
  let p := p - nextdiff in
  '(zl, _) ← zipStorePrevEntryLength zl (Some p) (prevrawlen first);
  t ← ZIPLIST_TAIL_OFFSET zl;
  zl ← set_ZIPLIST_TAIL_OFFSET zl (t - totlen);
  tail ← zipEntry zl p;
  b ← zget zl (p + u32 (headersize tail + len tail));
  zl ← (if negb (b =? ZIP_END) then
          t ← ZIPLIST_TAIL_OFFSET zl; set_ZIPLIST_TAIL_OFFSET zl (t + nextdiff)
        else Some zl);
  n ← ZIPLIST_BYTES zl;
  zl ← zmove zl (zp first) p (n - p - 1);
  Some (zl, nextdiff).

(** The work of a deletion, when there is something to delete. *)
Definition delete_write (zl : bytes) (p : Z) (first : zlentry) (totlen deleted : Z) : option bytes :=
  b ← zget zl p;
  '(zl, nextdiff) ←
    (if negb (b =? ZIP_END) then delete_shift zl p first totlen
     else
       zl ← set_ZIPLIST_TAIL_OFFSET zl (zp first - prevrawlen first);
       Some (zl, 0));
  let offset := zp first in
  n ← ZIPLIST_BYTES zl;
  zl ← ziplistResize zl (n - totlen + nextdiff);
  zl ← ZIPLIST_INCR_LENGTH zl (- deleted);
  if negb (nextdiff =? 0) then __ziplistCascadeUpdate zl offset else Some zl.

Definition __ziplistDelete (zl : bytes) (p num : Z) : option bytes :=
  first ← zipEntry zl p;
  '(p, deleted) ← delete_scan (length zl) zl p num 0;
  let totlen := u32 (p - zp first) in
  if 0 <? totlen then delete_write zl p first totlen deleted else Some zl.

(** The tail update of an insertion: the entries from [p] move, the next entry learns the new
    length. *)
Definition insert_shift (zl : bytes) (p curlen reqlen nextdiff : Z) (forcelarge : bool) : option bytes :=
  zl ← zmove zl (p + reqlen) (p - nextdiff) (curlen - p - 1 + nextdiff);
  '(zl, _) ← (if forcelarge then zipStorePrevEntryLengthLarge zl (Some (p + reqlen)) (u32 reqlen)
              else zipStorePrevEntryLength zl (Some (p + reqlen)) (u32 reqlen));
  t ← ZIPLIST_TAIL_OFFSET zl;
  zl ← set_ZIPLIST_TAIL_OFFSET zl (t + reqlen);
  tail ← zipEntry zl (p + reqlen);
  b ← zget zl (p + (reqlen + headersize tail + len tail));
  if negb (b =? ZIP_END) then
    t ← ZIPLIST_TAIL_OFFSET zl; set_ZIPLIST_TAIL_OFFSET zl (t + nextdiff)
  else Some zl.

(** The length of the entry before the insertion point. *)
Definition insert_prevlen (zl : bytes) (p : Z) : option Z :=
  b ← zget zl p;
  if negb (b =? ZIP_END) then '(_, prevlen) ← ZIP_DECODE_PREVLEN zl p; Some prevlen
  else
    ptail ← ZIPLIST_ENTRY_TAIL zl;
    bt ← zget zl ptail;
    if negb (bt =? ZIP_END) then zipRawEntryLength zl ptail else Some 0.

(** The second half of an insertion, from the reallocation on. *)
Definition insert_write (zl : bytes) (p : Z) (s : bytes) (curlen prevlen value encoding reqlen nextdiff : Z)
    (forcelarge : bool) : option bytes :=
  zl ← ziplistResize zl (curlen + reqlen + nextdiff);
  b ← zget zl p;
  zl ← (if negb (b =? ZIP_END) then insert_shift zl p curlen reqlen nextdiff forcelarge
        else set_ZIPLIST_TAIL_OFFSET zl p);
  zl ← (if negb (nextdiff =? 0) then __ziplistCascadeUpdate zl (p + reqlen) else Some zl);
  '(zl, n1) ← zipStorePrevEntryLength zl (Some p) prevlen;
  '(zl, n2) ← zipStoreEntryEncoding zl (Some (p + n1)) encoding (zlen s);
  zl ← (if ZIP_IS_STR encoding then zput zl (p + n1 + n2) s
        else zipSaveInteger zl (p + n1 + n2) value encoding);
  ZIPLIST_INCR_LENGTH zl 1.

Definition __ziplistInsert (zl : bytes) (p : Z) (s : bytes) : option bytes :=
  curlen ← ZIPLIST_BYTES zl;
  prevlen ← insert_prevlen zl p;
  '(value, encoding, reqlen) ←
    match zipTryEncoding s with
    | Some (value, encoding) => n ← zipIntSize encoding; Some (value, encoding, n)
    | None => Some (123456789, 0, zlen s)
    end;
  '(_, n1) ← zipStorePrevEntryLength zl None prevlen;
  '(_, n2) ← zipStoreEntryEncoding zl None encoding (zlen s);
  let reqlen := reqlen + n1 + n2 in
  b ← zget zl p;
  nextdiff ← (if negb (b =? ZIP_END) then zipPrevLenByteDiff zl p (u32 reqlen) else Some 0);
  let forcelarge := (nextdiff =? -4) && (reqlen <? 4) in
  let nextdiff := if forcelarge then 0 else nextdiff in
  insert_write zl p s curlen prevlen value encoding reqlen nextdiff forcelarge.

(** The two parameters are pointers to ziplist pointers, [None] for NULL; [same] says that they
    hold the same pointer.  The result is the NULL the code returns ([None]) or the merged list and
    whether it is the block of [first]. *)
Definition ziplistMerge (first second : option bytes) (same : bool) : option (option (bytes * bool)) :=
  match first, second with
  | Some first, Some second =>
      if same then Some None
      else
        first_bytes ← ZIPLIST_BYTES first;
        first_len ← ZIPLIST_LENGTH first;
        second_bytes ← ZIPLIST_BYTES second;
        second_len ← ZIPLIST_LENGTH second;
        let append := second_len <=? first_len in
        let '(target, target_bytes, source, source_bytes) :=
          if append then (first, first_bytes, second, second_bytes)
          else (second, second_bytes, first, first_bytes) in
        let zlbytes := first_bytes + second_bytes - ZIPLIST_HEADER_SIZE - ZIPLIST_END_SIZE in
        let zllength := first_len + second_len in
        let zllength := if zllength <? UINT16_MAX then zllength else UINT16_MAX in
        first_offset ← ZIPLIST_TAIL_OFFSET first;
        second_offset ← ZIPLIST_TAIL_OFFSET second;
        let target := zresize target zlbytes in
        target ←
          (if append then
             b ← zsub source ZIPLIST_HEADER_SIZE (source_bytes - ZIPLIST_HEADER_SIZE);
             zput target (target_bytes - ZIPLIST_END_SIZE) b
           else
             target ← zmove target (source_bytes - ZIPLIST_END_SIZE) ZIPLIST_HEADER_SIZE
                        (target_bytes - ZIPLIST_HEADER_SIZE);
             b ← zsub source 0 (source_bytes - ZIPLIST_END_SIZE);
             zput target 0 b);
        target ← set_ZIPLIST_BYTES target zlbytes;
        target ← set_ZIPLIST_LENGTH target zllength;
        target ← set_ZIPLIST_TAIL_OFFSET target
                   ((first_bytes - ZIPLIST_END_SIZE) + (second_offset - ZIPLIST_HEADER_SIZE));
        target ← __ziplistCascadeUpdate target first_offset;
        Some (Some (target, append))
  | _, _ => Some None
  end.

Definition ziplistPush (zl : bytes) (s : bytes) (where_ : Z) : option bytes :=
  p ← (if where_ =? ZIPLIST_HEAD then Some ZIPLIST_ENTRY_HEAD else ZIPLIST_ENTRY_END zl);
  __ziplistInsert zl p s.

(** The two loops of [ziplistIndex]: the position and the index left, which the loop condition
    decrements when the position allows another turn. *)
Fixpoint index_back (fuel : nat) (zl : bytes) (p prevlen index : Z) : option (Z * Z) :=
  match fuel with
  | O => None
  | S fuel =>
      if negb (0 <? prevlen) then Some (p, index)
      else if index =? 0 then Some (p, index - 1)
      else
        let p := p - prevlen in
        '(_, prevlen) ← ZIP_DECODE_PREVLEN zl p;
        index_back fuel zl p prevlen (index - 1)
  end.

Fixpoint index_forward (fuel : nat) (zl : bytes) (p index : Z) : option (Z * Z) :=
  match fuel with
  | O => None
  | S fuel =>
      b ← zget zl p;
      if b =? ZIP_END then Some (p, index)
      else if index =? 0 then Some (p, index - 1)
      else
        n ← zipRawEntryLength zl p;
        index_forward fuel zl (p + n) (index - 1)
  end.

(** The position found, [None] for NULL.  Negating the least [int] is undefined. *)
Definition ziplistIndex (zl : bytes) (index : Z) : option (option Z) :=
  '(p, index) ←
    (if index =? INT32_MIN then None
     else if index <? 0 then
       let index := - index - 1 in
       p ← ZIPLIST_ENTRY_TAIL zl;
       b ← zget zl p;
       if negb (b =? ZIP_END) then
         '(_, prevlen) ← ZIP_DECODE_PREVLEN zl p;
         index_back (length zl) zl p prevlen index
       else Some (p, index)
     else index_forward (length zl) zl ZIPLIST_ENTRY_HEAD index);
  b ← zget zl p;
  Some (if (b =? ZIP_END) || (0 <? index) then None else Some p).

Definition ziplistNext (zl : bytes) (p : Z) : option (option Z) :=
  b ← zget zl p;
  if b =? ZIP_END then Some None
  else
    n ← zipRawEntryLength zl p;
    let p := p + n in
    b ← zget zl p;
    Some (if b =? ZIP_END then None else Some p).

Definition ziplistPrev (zl : bytes) (p : Z) : option (option Z) :=
  b ← zget zl p;
  if b =? ZIP_END then
    p ← ZIPLIST_ENTRY_TAIL zl;
    b ← zget zl p;
    Some (if b =? ZIP_END then None else Some p)
  else if p =? ZIPLIST_ENTRY_HEAD then Some None
  else
    '(_, prevlen) ← ZIP_DECODE_PREVLEN zl p;
    if 0 <? prevlen then Some (Some (p - prevlen)) else None.

(** What [ziplistGet] stores: a string or an integer. *)
Inductive zlval :=
  | ZStr (s : bytes)
  | ZInt (v : Z).

(** [None] inside is the return value 0. *)
Definition ziplistGet (zl : bytes) (p : option Z) : option (option zlval) :=
  match p with
  | None => Some None
  | Some p =>
      b ← zget zl p;
      if b =? ZIP_END then Some None
      else
        entry ← zipEntry zl p;
        if ZIP_IS_STR (encoding entry) then
          s ← zsub zl (p + headersize entry) (len entry); Some (Some (ZStr s))
        else
          v ← zipLoadInteger zl (p + headersize entry) (encoding entry); Some (Some (ZInt v))
  end.

Definition ziplistInsert (zl : bytes) (p : Z) (s : bytes) : option bytes := __ziplistInsert zl p s.

(** The list and the updated pointer. *)
Definition ziplistDelete (zl : bytes) (p : Z) : option (bytes * Z) :=
  zl ← __ziplistDelete zl p 1; Some (zl, p).

Definition ziplistDeleteRange (zl : bytes) (index num : Z) : option bytes :=
  p ← ziplistIndex zl index;
  match p with
  | None => Some zl
  | Some p => __ziplistDelete zl p num
  end.

Definition ziplistCompare (zl : bytes) (p : Z) (sstr : bytes) : option bool :=
  b ← zget zl p;
  if b =? ZIP_END then Some false
  else
    entry ← zipEntry zl p;
    if ZIP_IS_STR (encoding entry) then
      if len entry =? zlen sstr then
        b ← zsub zl (p + headersize entry) (zlen sstr); Some (memcmp b sstr =? 0)
      else Some false
    else
      match zipTryEncoding sstr with
      | Some (sval, _) =>
          zval ← zipLoadInteger zl (p + headersize entry) (encoding entry); Some (zval =? sval)
      | None => Some false
      end.

Definition UCHAR_MAX : Z := 255.

Fixpoint find_loop (fuel : nat) (zl : bytes) (p : Z) (vstr : bytes) (skip skipcnt vencoding vll : Z)
    : option (option Z) :=
  match fuel with
  | O => None
  | S fuel =>
      b ← zget zl p;
      if b =? ZIP_END then Some None
      else
        prevlensize ← ZIP_DECODE_PREVLENSIZE zl p;
        '(encoding, lensize, len) ← ZIP_DECODE_LENGTH zl (p + prevlensize);
        let q := p + prevlensize + lensize in
        if skipcnt =? 0 then
          if ZIP_IS_STR encoding then
            same ← (if len =? zlen vstr then b ← zsub zl q (zlen vstr); Some (memcmp b vstr =? 0)
                    else Some false);
            if (same : bool) then Some (Some p) else find_loop fuel zl (q + len) vstr skip skip vencoding vll
          else
            let '(vll, vencoding) :=
              if vencoding =? 0 then
                match zipTryEncoding vstr with Some (v, e) => (v, e) | None => (vll, UCHAR_MAX) end
              else (vll, vencoding) in
            if vencoding =? 0 then None
            else
              same ← (if negb (vencoding =? UCHAR_MAX)
                      then ll ← zipLoadInteger zl q encoding; Some (ll =? vll) else Some false);
              if (same : bool) then Some (Some p) else find_loop fuel zl (q + len) vstr skip skip vencoding vll
        else find_loop fuel zl (q + len) vstr skip (skipcnt - 1) vencoding vll
  end.

(** [skipcnt = skip] stores the unsigned argument in an [int]. *)
Definition ziplistFind (zl : bytes) (p : Z) (vstr : bytes) (skip : Z) : option (option Z) :=
  find_loop (length zl) zl p vstr (s32 skip) 0 0 0.

Fixpoint len_loop (fuel : nat) (zl : bytes) (p len : Z) : option Z :=
  match fuel with
  | O => None
  | S fuel =>
      b ← zget zl p;
      if b =? ZIP_END then Some len
      else n ← zipRawEntryLength zl p; len_loop fuel zl (p + n) (len + 1)
  end.

(** The list, whose count it may repair, and the length. *)
Definition ziplistLen (zl : bytes) : option (bytes * Z) :=
  n ← ZIPLIST_LENGTH zl;
  if n <? UINT16_MAX then Some (zl, n)
  else
    len ← len_loop (length zl) zl ZIPLIST_HEADER_SIZE 0;
    zl ← (if len <? UINT16_MAX then set_ZIPLIST_LENGTH zl len else Some zl);
    Some (zl, len).

Definition ziplistBlobLen (zl : bytes) : option Z := ZIPLIST_BYTES zl.

(** * The abstract layout

    An entry is a value and the choice of the five-byte form for the length of the entry before it,
    which is allowed for every length and needed from 254 on. *)

Inductive zval :=
  | VStr (s : bytes)
  | VInt (enc v : Z).

Definition int_width (enc : Z) : nat :=
  if enc =? ZIP_INT_8B then 1 else if enc =? ZIP_INT_16B then 2 else if enc =? ZIP_INT_24B then 3
  else if enc =? ZIP_INT_32B then 4 else if enc =? ZIP_INT_64B then 8 else 0.

(** [v] can be stored under the integer encoding [enc]. *)
Definition int_ok (enc v : Z) : Prop :=
  enc = ZIP_INT_8B /\ srange 8 v \/ enc = ZIP_INT_16B /\ srange 16 v \/
  enc = ZIP_INT_24B /\ srange 24 v \/ enc = ZIP_INT_32B /\ srange 32 v \/
  enc = ZIP_INT_64B /\ srange 64 v \/
  ZIP_INT_IMM_MIN <= enc <= ZIP_INT_IMM_MAX /\ v = enc - ZIP_INT_IMM_MIN.

Definition str_header (n : Z) : bytes :=
  if n <=? 0x3f then [n]
  else if n <=? 0x3fff then [0x40 + n / 256; n mod 256]
  else [0x80; n / 2 ^ 24 mod 256; n / 2 ^ 16 mod 256; n / 2 ^ 8 mod 256; n mod 256].

(** Type byte and data of a value. *)
Definition val_header (v : zval) : bytes :=
  match v with VStr s => str_header (zlen s) | VInt enc _ => [enc] end.
Definition val_data (v : zval) : bytes :=
  match v with VStr s => s | VInt enc v => le_bytes (int_width enc) v end.
Definition val_enc (v : zval) : Z :=
  match v with
  | VStr s => if zlen s <=? 0x3f then ZIP_STR_06B else if zlen s <=? 0x3fff then ZIP_STR_14B else ZIP_STR_32B
  | VInt enc _ => enc
  end.

Definition val_ok (v : zval) : Prop :=
  match v with VStr s => zlen s < 2 ^ 32 - 10 | VInt enc v => int_ok enc v end.

(** The string a value stands for. *)
Definition val_bytes (v : zval) : bytes := match v with VStr s => s | VInt _ v => decimal v end.

(** The value the code stores for a string. *)
Definition val_of (s : bytes) : zval :=
  match zipTryEncoding s with Some (v, enc) => VInt enc v | None => VStr s end.

Record zent := Ent { e_big : bool; e_val : zval }.

(** Bytes a length takes in its shortest form. *)
Definition prevlen_size (n : Z) : Z := if n <? ZIP_BIG_PREVLEN then 1 else 5.

Definition prev_bytes (prev : Z) (big : bool) : bytes := if big then 254 :: le_bytes 4 prev else [prev].
Definition prev_size (big : bool) : Z := if big then 5 else 1.
Definition prev_ok (prev : Z) (big : bool) : Prop := 0 <= prev < 2 ^ 32 /\ (254 <= prev -> big = true).

Definition ent_body (e : zent) : bytes := val_header (e_val e) ++ val_data (e_val e).
Definition ent_bytes (prev : Z) (e : zent) : bytes := prev_bytes prev (e_big e) ++ ent_body e.
Definition ent_len (e : zent) : Z := prev_size (e_big e) + zlen (ent_body e).

(** * Reading and writing one entry *)

Lemma zlen_prev_bytes prev big : zlen (prev_bytes prev big) = prev_size big.
Proof. destruct big; [|done]. unfold prev_bytes, prev_size. zlia. Qed.

Lemma zlen_ent_bytes prev e : zlen (ent_bytes prev e) = ent_len e.
Proof. unfold ent_bytes. rewrite zlen_app, zlen_prev_bytes. done. Qed.

#[export] Hint Rewrite zlen_prev_bytes zlen_ent_bytes : zlen.

Lemma prev_size_pos big : 1 <= prev_size big <= 5.
Proof. destruct big; simpl; lia. Qed.

Lemma zlen_str_header n : 1 <= zlen (str_header n) <= 5.
Proof. unfold str_header. repeat zcase; unfold zlen; simpl; lia. Qed.

Lemma zlen_val_header v : 1 <= zlen (val_header v) <= 5.
Proof. destruct v; simpl val_header; [apply zlen_str_header|unfold zlen; simpl; lia]. Qed.

Lemma int_width_le enc : (int_width enc <= 8)%nat.
Proof. unfold int_width. repeat zcase; lia. Qed.

Lemma ent_len_bounds e : val_ok (e_val e) -> 2 <= ent_len e < 2 ^ 32.
Proof.
  intros Hv. unfold ent_len, ent_body. pose proof (prev_size_pos (e_big e)).
  pose proof (zlen_val_header (e_val e)). rewrite zlen_app.
  assert (0 <= zlen (val_data (e_val e)) < 2 ^ 32 - 10); [|lia].
  destruct (e_val e) as [s|enc v]; simpl in *; [pose proof (zlen_nonneg s); lia|].
  rewrite zlen_le_bytes. pose proof (int_width_le enc). lia.
Qed.

(** The first byte of an entry is never the end mark. *)
Lemma zget_ent pre prev e post p : p = zlen pre -> prev_ok prev (e_big e) ->
  exists b, zget (pre ++ ent_bytes prev e ++ post) p = Some b /\ (b =? ZIP_END) = false.
Proof.
  intros Hp [Hr Hb]. unfold ent_bytes, prev_bytes. destruct (e_big e).
  - exists 254. cbn [app]. by rewrite zget_app.
  - exists prev. cbn [app]. rewrite zget_app by done. split; [done|]. unfold ZIP_END.
    destruct (Z.lt_ge_cases prev 254) as [|Hl]; [by zdec|by apply Hb in Hl].
Qed.

Lemma decode_prevlensize pre prev big post p : p = zlen pre -> prev_ok prev big ->
  ZIP_DECODE_PREVLENSIZE (pre ++ prev_bytes prev big ++ post) p = Some (prev_size big).
Proof.
  intros Hp [Hr Hb]. unfold ZIP_DECODE_PREVLENSIZE, prev_bytes, ZIP_BIG_PREVLEN. destruct big; cbn [app].
  - rewrite zget_app by done. done.
  - rewrite zget_app by done. cbn [mbind option_bind].
    destruct (Z.lt_ge_cases prev 254) as [|Hl]; [by zdec|by apply Hb in Hl].
Qed.

Lemma decode_prevlen pre prev big post p : p = zlen pre -> prev_ok prev big ->
  ZIP_DECODE_PREVLEN (pre ++ prev_bytes prev big ++ post) p = Some (prev_size big, prev).
Proof.
  intros Hp Hok. unfold ZIP_DECODE_PREVLEN. rewrite decode_prevlensize by done. cbn [mbind option_bind].
  destruct Hok as [Hr Hb]. unfold prev_bytes. destruct big; cbn [prev_size Z.eqb Pos.eqb app].
  - change (pre ++ 254 :: le_bytes 4 prev ++ post) with (pre ++ [254] ++ le_bytes 4 prev ++ post).
    rewrite app_assoc, zsub_app by zlia. cbn [mbind option_bind]. rewrite le_value_bytes.
    do 2 f_equal. by apply Z.mod_small.
  - rewrite zget_app by done. done.
Qed.

Lemma store_prevlen_null zl n : zipStorePrevEntryLength zl None n = Some (zl, prevlen_size n).
Proof. done. Qed.

Lemma store_prevlen_large pre hole post n p : p = zlen pre -> zlen hole = 5 ->
  zipStorePrevEntryLengthLarge (pre ++ hole ++ post) (Some p) n = Some (pre ++ prev_bytes n true ++ post, 5).
Proof.
  intros Hp Hh. unfold zipStorePrevEntryLengthLarge.
  destruct (zsplit3 hole 0 1) as (z & a & b & -> & Ez & Ea); [lia..|].
  apply zlen_0_nil in Ez as ->. cbn [app] in *. rewrite zlen_app in Hh. rewrite <- !app_assoc.
  rewrite zput_app by (done || zlia). cbn [mbind option_bind].
  rewrite (app_assoc pre), zput_app by zlia. cbn [mbind option_bind].
  unfold prev_bytes, ZIP_BIG_PREVLEN. by rewrite <- !app_assoc.
Qed.

Lemma store_prevlen pre hole post n p : p = zlen pre -> 0 <= n -> zlen hole = prevlen_size n ->
  zipStorePrevEntryLength (pre ++ hole ++ post) (Some p) n =
    Some (pre ++ prev_bytes n (254 <=? n) ++ post, prevlen_size n).
Proof.
  intros Hp Hn. unfold zipStorePrevEntryLength, prevlen_size, ZIP_BIG_PREVLEN.
  destruct (Z.ltb_spec n 254); intros Hh; zdec.
  - rewrite zput_app by done. cbn [mbind option_bind]. rewrite uwrap_small by (unfold urange; lia). done.
  - rewrite store_prevlen_large by done. done.
Qed.

Lemma prev_size_of n : prev_size (254 <=? n) = prevlen_size n.
Proof. unfold prevlen_size, ZIP_BIG_PREVLEN. repeat zcase; simpl; lia. Qed.

(** ** Type byte *)

Lemma str_lead_06 b : 0 <= b <= 0x3f ->
  (Z.land b ZIP_STR_MASK =? ZIP_STR_06B) && (Z.land b 0x3f =? b) && (u8 (Z.lor ZIP_STR_06B b) =? b) = true.
Proof. by apply (byte_range_forall 0 0x3f
  (fun b => (Z.land b ZIP_STR_MASK =? ZIP_STR_06B) && (Z.land b 0x3f =? b) && (u8 (Z.lor ZIP_STR_06B b) =? b))). Qed.

Lemma str_lead_14 b : 0x40 <= b <= 0x7f ->
  (Z.land b ZIP_STR_MASK =? ZIP_STR_14B) && (Z.land b 0x3f =? b - 0x40) &&
  (u8 (Z.lor ZIP_STR_14B (Z.land (b - 0x40) 0x3f)) =? b) = true.
Proof. by apply (byte_range_forall 0x40 0x7f (fun b => (Z.land b ZIP_STR_MASK =? ZIP_STR_14B) &&
  (Z.land b 0x3f =? b - 0x40) && (u8 (Z.lor ZIP_STR_14B (Z.land (b - 0x40) 0x3f)) =? b))). Qed.

(** Four bytes, most significant first. *)
Lemma be32_value a b c d : 0 <= a -> byte_ok b -> byte_ok c -> byte_ok d ->
  Z.lor (Z.lor (Z.lor (Z.shiftl a 24) (Z.shiftl b 16)) (Z.shiftl c 8)) d
    = d + c * 2 ^ 8 + b * 2 ^ 16 + a * 2 ^ 24.
Proof.
  unfold byte_ok. intros.
  replace (Z.lor (Z.lor (Z.lor (Z.shiftl a 24) (Z.shiftl b 16)) (Z.shiftl c 8)) d)
    with (Z.lor (Z.lor (Z.lor d (Z.shiftl c 8)) (Z.shiftl b 16)) (Z.shiftl a 24)).
  - rewrite (lor_above d c 8) by lia. rewrite (lor_above _ b 16) by lia.
    by rewrite (lor_above _ a 24) by lia.
  - apply Z.bits_inj'. intros n _. rewrite !Z.lor_spec.
    destruct (Z.testbit (Z.shiftl a 24) n), (Z.testbit (Z.shiftl b 16) n), (Z.testbit (Z.shiftl c 8) n),
      (Z.testbit d n); done.
Qed.

Lemma be32_digits n : 0 <= n < 2 ^ 32 ->
  n mod 256 + n / 2 ^ 8 mod 256 * 2 ^ 8 + n / 2 ^ 16 mod 256 * 2 ^ 16 + n / 2 ^ 24 mod 256 * 2 ^ 24 = n.
Proof. intros. dlia. Qed.

(** The integer encodings: none looks like a string, and each has the width of its data. *)
Lemma int_enc_spec enc v : int_ok enc v ->
  enc < 255 /\ ZIP_STR_MASK <= enc /\ ZIP_IS_STR enc = false /\ zipIntSize enc = Some (Z.of_nat (int_width enc)).
Proof.
  unfold int_ok. intros H.
  assert (Hr : enc = 0xc0 \/ enc = 0xd0 \/ enc = 0xe0 \/ enc = 0xf0 \/ 0xf1 <= enc <= 0xfe).
  { unfold ZIP_INT_8B, ZIP_INT_16B, ZIP_INT_24B, ZIP_INT_32B, ZIP_INT_64B, ZIP_INT_IMM_MIN, ZIP_INT_IMM_MAX in H. lia. }
  clear H. repeat destruct Hr as [->|Hr]; try (by vm_compute).
  pose proof (byte_range_forall 0xf1 0xfe (fun e => negb (ZIP_IS_STR e) &&
    bool_decide (zipIntSize e = Some (Z.of_nat (int_width e)))) eq_refl ltac:(lia) ltac:(lia) enc Hr) as H.
  apply andb_true_iff in H as [H1 H2]. apply negb_true_iff in H1. apply bool_decide_eq_true in H2.
  unfold ZIP_STR_MASK. split_and!; [lia|lia|done|done].
Qed.

Lemma str_enc_spec s : ZIP_IS_STR (val_enc (VStr s)) = true.
Proof. cbn [val_enc]. by repeat zcase. Qed.

Lemma is_str_val v : val_ok v -> ZIP_IS_STR (val_enc v) = match v with VStr _ => true | VInt _ _ => false end.
Proof. destruct v as [s|enc v]; [intros; apply str_enc_spec|]. intros H. apply (int_enc_spec _ _ H). Qed.

Lemma entry_encoding pre b post p : p = zlen pre ->
  ZIP_ENTRY_ENCODING (pre ++ b :: post) p = Some (if b <? ZIP_STR_MASK then Z.land b ZIP_STR_MASK else b).
Proof. intros. unfold ZIP_ENTRY_ENCODING. by rewrite zget_app. Qed.

Lemma encoding_of_val pre v post p : p = zlen pre -> val_ok v ->
  ZIP_ENTRY_ENCODING (pre ++ val_header v ++ post) p = Some (val_enc v).
Proof.
  intros Hp Hv. destruct v as [s|enc v]; cbn [val_header val_data val_enc val_ok] in *.
  - pose proof (zlen_nonneg s). set (n := zlen s) in *. unfold str_header.
    destruct (Z.leb_spec n 0x3f); [|destruct (Z.leb_spec n 0x3fff)]; cbn [app]; rewrite entry_encoding by done.
    + pose proof (str_lead_06 n ltac:(lia)). zb. rewrite (proj2 (Z.ltb_lt _ _)) by (unfold ZIP_STR_MASK; lia).
      congruence.
    + pose proof (str_lead_14 (0x40 + n / 256) ltac:(dlia)). zb.
      rewrite (proj2 (Z.ltb_lt _ _)) by (unfold ZIP_STR_MASK; dlia). congruence.
    + done.
  - destruct (int_enc_spec enc v Hv) as (_ & Hm & _ & Hs). cbn [app]. rewrite entry_encoding by done.
    by rewrite (proj2 (Z.ltb_ge _ _)).
Qed.

Lemma zget_byte (pre bs post : bytes) p k b :
  p = zlen pre + Z.of_nat k -> bs !! k = Some b -> zget (pre ++ bs ++ post) p = Some b.
Proof.
  intros -> H. rewrite zget_app_r by lia. apply zget_Some. split; [lia|].
  replace (Z.to_nat _) with k by lia. by apply lookup_app_l_Some.
Qed.

Lemma decode_length pre v post p : p = zlen pre -> val_ok v ->
  ZIP_DECODE_LENGTH (pre ++ val_header v ++ post) p =
    Some (val_enc v, zlen (val_header v), zlen (val_data v)).
Proof.
  intros Hp Hv. unfold ZIP_DECODE_LENGTH. rewrite encoding_of_val by done. cbn [mbind option_bind].
  destruct v as [s|enc v]; cbn [val_header val_data val_enc val_ok] in *.
  - pose proof (zlen_nonneg s). set (n := zlen s) in *. unfold str_header.
    destruct (Z.leb_spec n 0x3f); [|destruct (Z.leb_spec n 0x3fff)].
    + cbn [app Z.ltb Z.eqb Z.compare ZIP_STR_06B ZIP_STR_MASK]. rewrite zget_app by done. cbn [mbind option_bind].
      pose proof (str_lead_06 n ltac:(lia)). zb. by rewrite H3.
    + change (ZIP_STR_14B <? ZIP_STR_MASK) with true. change (ZIP_STR_14B =? ZIP_STR_06B) with false.
      change (ZIP_STR_14B =? ZIP_STR_14B) with true. cbv iota.
      match goal with |- context [pre ++ ?h ++ post] => set (hd := h) end.
      rewrite (zget_byte pre hd post p 0 _ ltac:(lia) eq_refl), (zget_byte pre hd post (p + 1) 1 _ ltac:(lia) eq_refl).
      cbn [mbind option_bind]. pose proof (str_lead_14 (0x40 + n / 256) ltac:(dlia)). zb.
      rewrite H4, Z.lor_comm, lor_above by dlia. do 2 f_equal. dlia.
    + change (ZIP_STR_32B <? ZIP_STR_MASK) with true. change (ZIP_STR_32B =? ZIP_STR_06B) with false.
      change (ZIP_STR_32B =? ZIP_STR_14B) with false. change (ZIP_STR_32B =? ZIP_STR_32B) with true. cbv iota.
      match goal with |- context [pre ++ ?h ++ post] => set (hd := h) end.
      rewrite (zget_byte pre hd post (p + 1) 1 _ ltac:(lia) eq_refl), (zget_byte pre hd post (p + 2) 2 _ ltac:(lia) eq_refl),
        (zget_byte pre hd post (p + 3) 3 _ ltac:(lia) eq_refl), (zget_byte pre hd post (p + 4) 4 _ ltac:(lia) eq_refl).
      cbn [mbind option_bind].
      rewrite be32_value by (unfold byte_ok; dlia). rewrite be32_digits by lia.
      rewrite uwrap_small by (unfold urange; lia). done.
  - destruct (int_enc_spec enc v Hv) as (_ & Hm & _ & Hs).
    rewrite (proj2 (Z.ltb_ge _ _)) by done. rewrite Hs. cbn [mbind option_bind]. by rewrite zlen_le_bytes.
Qed.

(** ** Whole entries *)

(** What [zipEntry] finds at an entry. *)
Definition ent_info (prev : Z) (e : zent) (p : Z) : zlentry :=
  ZlEntry (prev_size (e_big e)) prev (zlen (val_header (e_val e))) (zlen (val_data (e_val e)))
    (prev_size (e_big e) + zlen (val_header (e_val e))) (val_enc (e_val e)) p.

Lemma ent_bytes_split pre prev e post :
  pre ++ ent_bytes prev e ++ post =
    (pre ++ prev_bytes prev (e_big e)) ++ val_header (e_val e) ++ val_data (e_val e) ++ post.
Proof. unfold ent_bytes, ent_body. by rewrite <- !app_assoc. Qed.

Lemma ent_bytes_prev pre prev e post :
  pre ++ ent_bytes prev e ++ post = pre ++ prev_bytes prev (e_big e) ++ ent_body e ++ post.
Proof. unfold ent_bytes. by rewrite <- !app_assoc. Qed.

Lemma zipEntry_at pre prev e post p : p = zlen pre -> prev_ok prev (e_big e) -> val_ok (e_val e) ->
  zipEntry (pre ++ ent_bytes prev e ++ post) p = Some (ent_info prev e p).
Proof.
  intros Hp Hb Hv. unfold zipEntry. rewrite ent_bytes_prev, decode_prevlen by done. cbn [mbind option_bind].
  rewrite <- ent_bytes_prev, ent_bytes_split, decode_length by (done || zlia). done.
Qed.

Lemma ent_info_len prev e p : val_ok (e_val e) ->
  u32 (headersize (ent_info prev e p) + len (ent_info prev e p)) = ent_len e.
Proof.
  intros Hv. pose proof (ent_len_bounds e Hv) as Hb. cbn [ent_info headersize len].
  unfold ent_len, ent_body in *. rewrite zlen_app in *. rewrite uwrap_small; [lia|]. unfold urange. lia.
Qed.

Lemma raw_length_at pre prev e post p : p = zlen pre -> prev_ok prev (e_big e) -> val_ok (e_val e) ->
  zipRawEntryLength (pre ++ ent_bytes prev e ++ post) p = Some (ent_len e).
Proof.
  intros Hp Hb Hv. unfold zipRawEntryLength. rewrite ent_bytes_prev, decode_prevlensize by done.
  cbn [mbind option_bind]. rewrite <- ent_bytes_prev, ent_bytes_split, decode_length by (done || zlia).
  cbn [mbind option_bind]. pose proof (ent_len_bounds e Hv) as Hl.
  unfold ent_len, ent_body in *. rewrite zlen_app in *. rewrite uwrap_small by (unfold urange; lia).
  f_equal. lia.
Qed.

(** ** Writing the type byte and the data *)

(** The encoding and the length the code hands to [zipStoreEntryEncoding] for a value. *)
Definition val_store (v : zval) (n : Z) : Prop := match v with VStr s => n = zlen s | VInt _ _ => True end.
Definition store_enc (v : zval) : Z := match v with VStr _ => 0 | VInt enc _ => enc end.

Lemma store_encoding_null zl v n : val_ok v -> val_store v n ->
  zipStoreEntryEncoding zl None (store_enc v) n = Some (zl, zlen (val_header v)).
Proof.
  intros Hv Hn. unfold zipStoreEntryEncoding. do 2 f_equal. destruct v as [s|enc v]; cbn in *.
  - subst n. unfold str_header. repeat zcase; done.
  - destruct (int_enc_spec enc v Hv) as (_ & _ & -> & _). done.
Qed.

Lemma land_ff_mod n : Z.land n 0xff = n mod 256.
Proof. change 0xff with (Z.ones 8). by rewrite Z.land_ones by lia. Qed.

Lemma store_encoding pre hole post v n p : p = zlen pre -> val_ok v -> val_store v n ->
  zlen hole = zlen (val_header v) ->
  zipStoreEntryEncoding (pre ++ hole ++ post) (Some p) (store_enc v) n =
    Some (pre ++ val_header v ++ post, zlen (val_header v)).
Proof.
  intros Hp Hv Hn Hh. unfold zipStoreEntryEncoding.
  match goal with |- context [zput _ _ ?b] => assert (E : b = val_header v) end.
  { destruct v as [s|enc v]; cbn [store_enc val_store val_header val_ok] in *.
    - subst n. pose proof (zlen_nonneg s). set (n := zlen s) in *. unfold str_header.
      change (ZIP_IS_STR 0) with true. cbv iota. repeat zcase; try lia.
      + pose proof (str_lead_06 n ltac:(lia)). zb. congruence.
      + pose proof (str_lead_14 (0x40 + n / 256) ltac:(dlia)). zb.
        rewrite land_ff_mod, Z.shiftr_div_pow2 by lia.
        replace (0x40 + n / 256 - 0x40) with (n / 2 ^ 8) in * by (change (2 ^ 8) with 256; lia). congruence.
      + rewrite !land_ff_mod, !Z.shiftr_div_pow2 by lia. done.
    - destruct (int_enc_spec enc v Hv) as (_ & _ & -> & _). done. }
  rewrite E, zput_app by done. done.
Qed.

(** ** Integers *)

Lemma mod_srange w v : 0 < w -> srange w v -> swrap w (v mod 2 ^ w) = v.
Proof. intros. change (v mod 2 ^ w) with (uwrap w v). rewrite swrap_uwrap by done. by apply swrap_small. Qed.

(** The three bytes of a 24-bit integer are the high bytes of the 32-bit integer the code shifts
    it into. *)
Lemma le24_shift v : srange 24 v -> drop 1 (le_bytes 4 (s32 (Z.shiftl v 8))) = le_bytes 3 v.
Proof.
  unfold srange. intros H. rewrite Z.shiftl_mul_pow2 by lia. rewrite swrap_small by (unfold srange; lia).
  cbn [le_bytes drop]. change (2 ^ 8) with 256. rewrite (Z.div_mul v 256) by lia. done.
Qed.

Lemma zlen_int_data enc v : zlen (le_bytes (int_width enc) v) = Z.of_nat (int_width enc).
Proof. apply zlen_le_bytes. Qed.

(** Split on the encoding, with the tests of the code and the width evaluated. *)
Ltac int_case H :=
  destruct H as [[-> H]|[[-> H]|[[-> H]|[[-> H]|[[-> H]|[H ->]]]]]].

Lemma imm_tests enc : ZIP_INT_IMM_MIN <= enc <= ZIP_INT_IMM_MAX ->
  (enc =? ZIP_INT_8B) = false /\ (enc =? ZIP_INT_16B) = false /\ (enc =? ZIP_INT_24B) = false /\
  (enc =? ZIP_INT_32B) = false /\ (enc =? ZIP_INT_64B) = false /\ int_width enc = 0%nat /\
  (ZIP_INT_IMM_MIN <=? enc) && (enc <=? ZIP_INT_IMM_MAX) = true /\
  Z.land enc ZIP_INT_IMM_MASK - 1 = enc - ZIP_INT_IMM_MIN.
Proof.
  intros H. pose proof (byte_range_forall 0xf1 0xfd (fun enc => bool_decide (
    (enc =? ZIP_INT_8B) = false /\ (enc =? ZIP_INT_16B) = false /\ (enc =? ZIP_INT_24B) = false /\
    (enc =? ZIP_INT_32B) = false /\ (enc =? ZIP_INT_64B) = false /\ int_width enc = 0%nat /\
    (ZIP_INT_IMM_MIN <=? enc) && (enc <=? ZIP_INT_IMM_MAX) = true /\
    Z.land enc ZIP_INT_IMM_MASK - 1 = enc - ZIP_INT_IMM_MIN)) eq_refl ltac:(lia) ltac:(lia) enc H) as E.
  by apply bool_decide_eq_true in E.
Qed.

Lemma save_integer pre hole post enc v p : p = zlen pre -> int_ok enc v ->
  zlen hole = Z.of_nat (int_width enc) ->
  zipSaveInteger (pre ++ hole ++ post) p v enc = Some (pre ++ le_bytes (int_width enc) v ++ post).
Proof.
  intros Hp H Hh. unfold zipSaveInteger. int_case H.
  1-5: cbn -[zput le_bytes srange Z.mul swrap Z.shiftl]; try (rewrite le24_shift by done);
    apply zput_app; [done|rewrite Hh; apply zlen_le_bytes].
  destruct (imm_tests enc H) as (-> & -> & -> & -> & -> & E & -> & _). rewrite E in *.
  by apply zlen_0_nil in Hh as ->.
Qed.

Lemma load_integer pre post enc v p : p = zlen pre -> int_ok enc v ->
  zipLoadInteger (pre ++ le_bytes (int_width enc) v ++ post) p enc = Some v.
Proof.
  intros Hp H. unfold zipLoadInteger. int_case H.
  1: { cbn -[zget swrap Z.modulo]. rewrite zget_app by done. cbn [mbind option_bind]. f_equal. apply (mod_srange 8); [lia|done]. }
  1-4: cbn -[zsub le_bytes srange Z.mul swrap Z.shiftr le_value];
    rewrite (zsub_app pre) by (done || rewrite zlen_le_bytes; done); cbn [mbind option_bind]; f_equal;
    cbn [le_value]; rewrite le_value_bytes.
  - apply (mod_srange 16); [lia|done].
  - change (8 * Z.of_nat 3) with 24. rewrite Z.shiftr_div_pow2 by lia.
    replace (0 + 256 * (v mod 2 ^ 24)) with ((v * 2 ^ 8) mod 2 ^ 32).
    + unfold srange in H. rewrite (mod_srange 32) by (unfold srange; lia). by apply Z.div_mul.
    + change (2 ^ 32) with (2 ^ 24 * 2 ^ 8). rewrite Zmult_mod_distr_r. lia.
  - apply (mod_srange 32); [lia|done].
  - apply (mod_srange 64); [lia|done].
  - destruct (imm_tests enc H) as (-> & -> & -> & -> & -> & E & -> & ->). done.
Qed.

(** ** Values of strings *)

Lemma try_encoding_sound s v enc : zipTryEncoding s = Some (v, enc) ->
  string2ll s = Some v /\ srange 64 v /\ s = decimal v /\ int_ok enc v.
Proof.
  unfold zipTryEncoding. intros H. case_match; [done|]. destruct (string2ll s) as [w|] eqn:E; [|done].
  cbn [mbind option_bind] in H. injection H as -> He. destruct (string2ll_sound _ _ E) as [Hr ->].
  split_and!; [done..|]. subst enc. unfold srange in Hr. unfold int_ok, srange.
  unfold INT16_MIN, INT16_MAX, INT24_MIN, INT24_MAX, INT32_MIN, INT32_MAX.
  repeat match goal with |- context [if ?b then _ else _] => destruct b eqn:? end; zb.
  all: unfold ZIP_INT_IMM_MIN, ZIP_INT_IMM_MAX, ZIP_INT_8B, ZIP_INT_16B, ZIP_INT_24B, ZIP_INT_32B, ZIP_INT_64B.
  all: lia.
Qed.

Lemma try_encoding_decimal v : srange 64 v -> exists enc, zipTryEncoding (decimal v) = Some (v, enc).
Proof.
  intros Hv. pose proof (string2ll_decimal v Hv) as E. pose proof (decimal_le20 v Hv) as Hl.
  unfold zipTryEncoding. rewrite E.
  destruct (Z.leb_spec 32 (zlen (decimal v))); [lia|].
  destruct (Z.eqb_spec (zlen (decimal v)) 0) as [E0|]; [|by eexists].
  by rewrite (zlen_0_nil _ E0) in E.
Qed.

Lemma val_of_ok s : zlen s < 2 ^ 32 - 10 -> val_ok (val_of s).
Proof.
  intros Hs. unfold val_of. destruct (zipTryEncoding s) as [[v enc]|] eqn:E; [|done].
  apply (try_encoding_sound _ _ _ E).
Qed.

(** Storing a string loses nothing. *)
Lemma val_of_bytes s : val_bytes (val_of s) = s.
Proof.
  unfold val_of. destruct (zipTryEncoding s) as [[v enc]|] eqn:E; [|done].
  apply try_encoding_sound in E. by destruct E as (_ & _ & -> & _).
Qed.

Lemma int_ok_srange enc v : int_ok enc v -> srange 64 v.
Proof.
  unfold int_ok, srange, ZIP_INT_IMM_MIN, ZIP_INT_IMM_MAX. intros H. lia.
Qed.

(** The comparison the code makes on an integer entry. *)
Lemma int_compare enc v s : int_ok enc v ->
  match zipTryEncoding s with Some (w, _) => v =? w | None => false end = bool_decide (decimal v = s).
Proof.
  intros H. apply int_ok_srange in H. destruct (zipTryEncoding s) as [[w e]|] eqn:E.
  - destruct (try_encoding_sound _ _ _ E) as (Es & Hw & Hd & _).
    destruct (Z.eqb_spec v w) as [->|Hne]; symmetry.
    + by apply bool_decide_eq_true.
    + apply bool_decide_eq_false. intros Hc. rewrite <- Hc in Es. rewrite string2ll_decimal in Es by done. congruence.
  - symmetry. apply bool_decide_eq_false. intros <-.
    destruct (try_encoding_decimal v H) as [e He]. congruence.
Qed.

Lemma memcmp_eq : forall a b, length a = length b -> (memcmp a b =? 0) = bool_decide (a = b).
Proof.
  induction a as [|x a IH]; intros [|y b] H; try done. cbn [memcmp]. injection H as H.
  destruct (Z.eqb_spec x y) as [->|Hne].
  - rewrite IH by done. apply bool_decide_ext. naive_solver.
  - rewrite (bool_decide_eq_false_2 (x :: a = y :: b)) by congruence. apply Z.eqb_neq. lia.
Qed.

(** ** The header *)

Definition zl_buf (total tail cnt : Z) (rest : bytes) : bytes :=
  le_bytes 4 total ++ le_bytes 4 tail ++ le_bytes 2 cnt ++ rest.

Definition zl_hdr (total tail cnt : Z) : bytes := le_bytes 4 total ++ le_bytes 4 tail ++ le_bytes 2 cnt.

Lemma zlen_zl_hdr total tail cnt : zlen (zl_hdr total tail cnt) = 10.
Proof. unfold zl_hdr. zlia. Qed.

Lemma zl_buf_hdr total tail cnt rest : zl_buf total tail cnt rest = zl_hdr total tail cnt ++ rest.
Proof. unfold zl_buf, zl_hdr. by rewrite <- !app_assoc. Qed.

Lemma zlen_zl_buf total tail cnt rest : zlen (zl_buf total tail cnt rest) = 10 + zlen rest.
Proof. rewrite zl_buf_hdr, zlen_app, zlen_zl_hdr. done. Qed.

#[export] Hint Rewrite zlen_zl_hdr zlen_zl_buf : zlen.

Lemma get_bytes total tail cnt rest : urange 32 total -> ZIPLIST_BYTES (zl_buf total tail cnt rest) = Some total.
Proof.
  intros H. unfold ZIPLIST_BYTES, zl_buf. rewrite zsub_app0 by (rewrite zlen_le_bytes; done).
  cbn [mbind option_bind]. rewrite le_value_bytes. f_equal. by apply Z.mod_small.
Qed.

Lemma get_tail total tail cnt rest : urange 32 tail -> ZIPLIST_TAIL_OFFSET (zl_buf total tail cnt rest) = Some tail.
Proof.
  intros H. unfold ZIPLIST_TAIL_OFFSET, zl_buf. rewrite zsub_app by (rewrite zlen_le_bytes; done).
  cbn [mbind option_bind]. rewrite le_value_bytes. f_equal. by apply Z.mod_small.
Qed.

Lemma get_length total tail cnt rest : urange 16 cnt -> ZIPLIST_LENGTH (zl_buf total tail cnt rest) = Some cnt.
Proof.
  intros H. unfold ZIPLIST_LENGTH, zl_buf. rewrite (app_assoc (le_bytes 4 total)).
  rewrite zsub_app by zlia.
  cbn [mbind option_bind]. rewrite le_value_bytes. f_equal. by apply Z.mod_small.
Qed.

Lemma set_bytes total tail cnt rest v : set_ZIPLIST_BYTES (zl_buf total tail cnt rest) v = Some (zl_buf v tail cnt rest).
Proof. unfold set_ZIPLIST_BYTES, zl_buf. apply zput_app0. by rewrite !zlen_le_bytes. Qed.

Lemma set_tail total tail cnt rest v : set_ZIPLIST_TAIL_OFFSET (zl_buf total tail cnt rest) v = Some (zl_buf total v cnt rest).
Proof. unfold set_ZIPLIST_TAIL_OFFSET, zl_buf. apply zput_app; by rewrite !zlen_le_bytes. Qed.

Lemma set_length total tail cnt rest v : set_ZIPLIST_LENGTH (zl_buf total tail cnt rest) v = Some (zl_buf total tail v rest).
Proof.
  unfold set_ZIPLIST_LENGTH, zl_buf. rewrite !(app_assoc (le_bytes 4 total) (le_bytes 4 tail)).
  apply zput_app; [zlia|by rewrite !zlen_le_bytes].
Qed.

Lemma zl_buf_mod total tail cnt rest :
  zl_buf (total mod 2 ^ 32) (tail mod 2 ^ 32) (cnt mod 2 ^ 16) rest = zl_buf total tail cnt rest.
Proof. unfold zl_buf. by rewrite !le_bytes_mod by (change (Z.of_nat 4) with 4; change (Z.of_nat 2) with 2; lia). Qed.

(** ** Reallocation and memmove *)

(** A memmove on a block cut once at its destination and once at its source. *)
Lemma zmove_split (L D1 D2 D3 S1 S2 S3 : bytes) dst src n :
  L = D1 ++ D2 ++ D3 -> L = S1 ++ S2 ++ S3 ->
  dst = zlen D1 -> src = zlen S1 -> n = zlen S2 -> n = zlen D2 ->
  zmove L dst src n = Some (D1 ++ S2 ++ D3).
Proof.
  intros E1 E2 Hd Hs Hn Hn'. unfold zmove. rewrite E2, zsub_app by done. cbn [mbind option_bind].
  rewrite <- E2, E1. apply zput_app; [done|lia].
Qed.

Lemma resize_more T t c rest n : 10 + zlen rest < n < 2 ^ 32 ->
  exists pad, ziplistResize (zl_buf T t c rest) n = Some (zl_buf n t c (rest ++ pad ++ [255])) /\
    zlen pad = n - 11 - zlen rest.
Proof.
  intros Hn. unfold ziplistResize. rewrite uwrap_small by (unfold urange; pose proof (zlen_nonneg rest); lia).
  destruct (zresize_grow (zl_buf T t c rest) n) as (pad & -> & Hp); [zlia|].
  destruct (zlen_snoc_inv pad) as (k & x & -> & Hk); [zlia|].
  exists k. rewrite zl_buf_hdr, <- app_assoc, <- zl_buf_hdr, set_bytes. cbn [mbind option_bind].
  rewrite zl_buf_hdr, app_assoc, app_assoc.
  rewrite <- (app_nil_r [x]), zput_app by zlia. rewrite app_nil_r, <- !app_assoc, <- zl_buf_hdr.
  split; [done|]. zlia.
Qed.

Lemma resize_cut T t c rest x over n : n = 11 + zlen rest -> n < 2 ^ 32 ->
  ziplistResize (zl_buf T t c (rest ++ x :: over)) n = Some (zl_buf n t c (rest ++ [255])).
Proof.
  intros Hn Hb. unfold ziplistResize. rewrite uwrap_small by (unfold urange; pose proof (zlen_nonneg rest); lia).
  replace (zl_buf T t c (rest ++ x :: over)) with (zl_buf T t c (rest ++ [x]) ++ over)
    by (rewrite !zl_buf_hdr, <- !app_assoc; done).
  rewrite zresize_shrink by zlia. rewrite set_bytes. cbn [mbind option_bind].
  rewrite zl_buf_hdr, app_assoc.
  rewrite <- (app_nil_r [x]), zput_app by zlia. by rewrite app_nil_r, <- !app_assoc, <- zl_buf_hdr.
Qed.

(** ** Entries of a list: the operations at an offset of the block *)

Section in_block.
Context (T t c : Z).

Lemma zl_buf_split pre x : zl_buf T t c (pre ++ x) = (zl_hdr T t c ++ pre) ++ x.
Proof. by rewrite zl_buf_hdr, app_assoc. Qed.

Lemma buf_end pre over p : p = 10 + zlen pre -> zget (zl_buf T t c (pre ++ 255 :: over)) p = Some 255.
Proof. intros. rewrite zl_buf_split. apply zget_app. zlia. Qed.

Lemma buf_not_end pre prev e post p : p = 10 + zlen pre -> prev_ok prev (e_big e) ->
  exists b, zget (zl_buf T t c (pre ++ ent_bytes prev e ++ post)) p = Some b /\ (b =? ZIP_END) = false.
Proof. intros. rewrite zl_buf_split. apply zget_ent; [zlia|done]. Qed.

Lemma buf_entry pre prev e post p : p = 10 + zlen pre -> prev_ok prev (e_big e) -> val_ok (e_val e) ->
  zipEntry (zl_buf T t c (pre ++ ent_bytes prev e ++ post)) p = Some (ent_info prev e p).
Proof. intros. rewrite zl_buf_split. apply zipEntry_at; [zlia|done..]. Qed.

Lemma buf_raw_length pre prev e post p : p = 10 + zlen pre -> prev_ok prev (e_big e) -> val_ok (e_val e) ->
  zipRawEntryLength (zl_buf T t c (pre ++ ent_bytes prev e ++ post)) p = Some (ent_len e).
Proof. intros. rewrite zl_buf_split. apply raw_length_at; [zlia|done..]. Qed.

Lemma buf_prevlensize pre prev e post p : p = 10 + zlen pre -> prev_ok prev (e_big e) ->
  ZIP_DECODE_PREVLENSIZE (zl_buf T t c (pre ++ ent_bytes prev e ++ post)) p = Some (prev_size (e_big e)).
Proof. intros. rewrite zl_buf_split, ent_bytes_prev. apply decode_prevlensize; [zlia|done]. Qed.

Lemma buf_prevlen pre prev e post p : p = 10 + zlen pre -> prev_ok prev (e_big e) ->
  ZIP_DECODE_PREVLEN (zl_buf T t c (pre ++ ent_bytes prev e ++ post)) p = Some (prev_size (e_big e), prev).
Proof. intros. rewrite zl_buf_split, ent_bytes_prev. apply decode_prevlen; [zlia|done]. Qed.

Lemma buf_store_prevlen pre hole post n p : p = 10 + zlen pre -> 0 <= n -> zlen hole = prevlen_size n ->
  zipStorePrevEntryLength (zl_buf T t c (pre ++ hole ++ post)) (Some p) n =
    Some (zl_buf T t c (pre ++ prev_bytes n (254 <=? n) ++ post), prevlen_size n).
Proof. intros. rewrite !zl_buf_split. apply store_prevlen; [zlia|done..]. Qed.

Lemma buf_store_large pre hole post n p : p = 10 + zlen pre -> zlen hole = 5 ->
  zipStorePrevEntryLengthLarge (zl_buf T t c (pre ++ hole ++ post)) (Some p) n =
    Some (zl_buf T t c (pre ++ prev_bytes n true ++ post), 5).
Proof. intros. rewrite !zl_buf_split. apply store_prevlen_large; [zlia|done]. Qed.

Lemma buf_move D1 D2 D3 S1 S2 S3 dst src n :
  D1 ++ D2 ++ D3 = S1 ++ S2 ++ S3 ->
  dst = 10 + zlen D1 -> src = 10 + zlen S1 -> n = zlen S2 -> n = zlen D2 ->
  zmove (zl_buf T t c (D1 ++ D2 ++ D3)) dst src n = Some (zl_buf T t c (D1 ++ S2 ++ D3)).
Proof.
  intros E Hd Hs Hn Hn'. rewrite !zl_buf_split.
  apply (zmove_split _ _ D2 D3 (zl_hdr T t c ++ S1) S2 S3); [done| |zlia..].
  by rewrite <- !app_assoc, E.
Qed.
End in_block.
