(* ===== verification/ZiplistSpec.v ===== *)
(** * Ziplists, the theorems

    A ziplist represents a list of values: its entries lie one after the other between the header
    and the end mark, each with the length of the entry before it.  The theorems show that every
    operation of Ziplist.v keeps that representation, with the cascade that repairs the stored
    lengths, and does to the list of values what its name says. *)

From Stdlib Require Import String.
From S2P Require Import Prelude Util Sds Ziplist.

#[local] Open Scope list_scope.
#[local] Open Scope Z_scope.

(** * The representation *)

(** Entries whose first one stores [prev] as the length before it. *)
Fixpoint ents (prev : Z) (es : list zent) : bytes :=
  match es with
  | [] => []
  | e :: es => ent_bytes prev e ++ ents (ent_len e) es
  end.

(** Every stored length fits its form, and every value its encoding. *)
Fixpoint chain (prev : Z) (es : list zent) : Prop :=
  match es with
  | [] => True
  | e :: es => prev_ok prev (e_big e) /\ val_ok (e_val e) /\ chain (ent_len e) es
  end.

(** Bytes of the entries, and at most, when every length takes five bytes. *)
Fixpoint esize (es : list zent) : Z :=
  match es with [] => 0 | e :: es => ent_len e + esize es end.
Fixpoint ecap (es : list zent) : Z :=
  match es with [] => 0 | e :: es => 5 + zlen (ent_body e) + ecap es end.

(** The length of the last entry, [prev] when there is none. *)
Fixpoint after (prev : Z) (es : list zent) : Z :=
  match es with [] => prev | e :: es => after (ent_len e) es end.

Definition vals (es : list zent) : list zval := map e_val es.

(** The count is exact below 65535, which stands for unknown. *)
Definition cnt_ok (cnt : Z) (es : list zent) : Prop := 
  cnt = UINT16_MAX \/ cnt = zlen es /\ cnt < UINT16_MAX.

Definition zl_of (es : list zent) (cnt : Z) : bytes :=
  zl_buf (11 + esize es) (10 + esize es - after 0 es) cnt (ents 0 es ++ [255]).

Definition zl_rep (zl : bytes) (es : list zent) : Prop :=
  exists cnt, zl = zl_of es cnt /\ cnt_ok cnt es /\ chain 0 es /\ 11 + ecap es < 2 ^ 32.

(** A ziplist that holds a list of values. *)
Definition ziplist (zl : bytes) (vs : list zval) : Prop := exists es, zl_rep zl es /\ vals es = vs.

(** Offset of the entry number [i]. *)
Definition zl_at (es : list zent) (i : nat) : Z := 10 + esize (take i es).

(** * Arithmetic of the layout *)

Lemma zlen_ents es : forall prev, zlen (ents prev es) = esize es.
Proof. induction es as [|e es IH]; intros prev; cbn [ents esize]; [done|]. rewrite zlen_app, IH. zlia. Qed.

#[export] Hint Rewrite zlen_ents : zlen.

Lemma ents_app es1 es2 : forall prev, ents prev (es1 ++ es2) = ents prev es1 ++ ents (after prev es1) es2.
Proof. induction es1 as [|e es1 IH]; intros prev; cbn [ents after app]; [done|]. by rewrite IH, app_assoc. Qed.

Lemma chain_app es1 es2 : forall prev, chain prev (es1 ++ es2) <-> chain prev es1 /\ chain (after prev es1) es2.
Proof. induction es1 as [|e es1 IH]; intros prev; cbn [chain after app]; [tauto|]. rewrite IH. tauto. Qed.

Lemma esize_app es1 es2 : esize (es1 ++ es2) = esize es1 + esize es2.
Proof. induction es1 as [|e es1 IH]; cbn [esize app]; lia. Qed.

Lemma ecap_app es1 es2 : ecap (es1 ++ es2) = ecap es1 + ecap es2.
Proof. induction es1 as [|e es1 IH]; cbn [ecap app]; lia. Qed.

Lemma after_app es1 es2 : forall prev, after prev (es1 ++ es2) = after (after prev es1) es2.
Proof. induction es1 as [|e es1 IH]; intros prev; cbn [after app]; [done|]. apply IH. Qed.

Lemma zlen_body_pos e : 1 <= zlen (ent_body e).
Proof. unfold ent_body. pose proof (zlen_val_header (e_val e)). zlia. Qed.

Lemma ent_len_pos e : 2 <= ent_len e.
Proof. unfold ent_len. pose proof (zlen_body_pos e). pose proof (prev_size_pos (e_big e)). lia. Qed.

Lemma esize_nonneg es : 0 <= esize es.
Proof. induction es as [|e es IH]; cbn [esize]; [lia|]. pose proof (ent_len_pos e). lia. Qed.

Lemma esize_length es : 2 * Z.of_nat (length es) <= esize es.
Proof. induction es as [|e es IH]; cbn [esize length]; [lia|]. pose proof (ent_len_pos e). lia. Qed.

Lemma esize_cap es : esize es <= ecap es.
Proof.
  induction es as [|e es IH]; cbn [esize ecap]; [lia|]. unfold ent_len.
  pose proof (prev_size_pos (e_big e)). lia.
Qed.

(** The capacity only depends on the values. *)
Lemma ecap_vals es1 : forall es2, vals es1 = vals es2 -> ecap es1 = ecap es2.
Proof.
  induction es1 as [|e1 es1 IH]; intros [|e2 es2] H; try done. cbn [ecap]. injection H as He H.
  rewrite (IH es2) by done. unfold ent_body. by rewrite He.
Qed.

Lemma after_bounds es : forall prev, es <> [] -> 0 < after prev es <= esize es.
Proof.
  induction es as [|e es IH]; intros prev H; [done|]. cbn [after esize]. pose proof (ent_len_pos e).
  destruct es as [|e2 es]; [cbn; lia|]. specialize (IH (ent_len e) ltac:(done)).
  pose proof (esize_nonneg (e2 :: es)). lia.
Qed.

Lemma after_nonneg es prev : 0 <= prev -> 0 <= after prev es.
Proof. intros. destruct es as [|e es]; [done|]. pose proof (after_bounds (e :: es) prev ltac:(done)). lia. Qed.

Lemma after_prev_le prev es : 0 <= prev -> after prev es <= prev + esize es.
Proof.
  intros. destruct es as [|e es]; [simpl; lia|]. pose proof (after_bounds (e :: es) prev ltac:(done)). lia.
Qed.

(** The last entry is the only one when its offset is the first one's. *)
Lemma after_single e es prev : after prev (e :: es) = esize (e :: es) -> es = [].
Proof.
  cbn [after esize]. intros H. destruct es as [|e2 es]; [done|].
  pose proof (after_bounds (e2 :: es) (ent_len e) ltac:(done)). pose proof (ent_len_pos e). lia.
Qed.

Lemma ent_len_le e : 2 <= ent_len e <= 5 + zlen (ent_body e).
Proof.
  split; [apply ent_len_pos|]. unfold ent_len. pose proof (prev_size_pos (e_big e)). lia.
Qed.

(** ** Only the flag of the first entry depends on the length before it *)

Lemma chain_change prev prev' e es : chain prev (e :: es) -> prev_ok prev' (e_big e) -> chain prev' (e :: es).
Proof. cbn [chain]. tauto. Qed.

Lemma prev_ok_ent e big : val_ok (e_val e) -> (254 <= ent_len e -> big = true) -> prev_ok (ent_len e) big.
Proof. intros Hv Hb. pose proof (ent_len_bounds e Hv). split; [lia|done]. Qed.

Lemma prev_ok_exact n : 0 <= n < 2 ^ 32 -> prev_ok n (254 <=? n).
Proof. intros. split; [done|]. intros. by apply Z.leb_le. Qed.

Lemma prev_ok_true n : 0 <= n < 2 ^ 32 -> prev_ok n true.
Proof. by split. Qed.

(** * The cascade *)

(** A block in which the entry [e] at the cursor is right and the entry after it stores the length
    [stale]; [T] and [t] are the header fields for the bytes that are there. *)
Definition cascade_buf (pre : bytes) (prev : Z) (e : zent) (stale : Z) (es : list zent) (c : Z) : bytes :=
  zl_buf (11 + zlen pre + ent_len e + esize es) (10 + zlen pre + ent_len e + esize es - after (ent_len e) es) c
    (pre ++ ent_bytes prev e ++ ents stale es ++ [255]).

Lemma maybe_tail (b : bool) T t c rest v :
  (if b then set_ZIPLIST_TAIL_OFFSET (zl_buf T t c rest) v else Some (zl_buf T t c rest)) =
    Some (zl_buf T (if b then v else t) c rest).
Proof. destruct b; [apply set_tail|done]. Qed.

Lemma after_shift es d n : 0 < n -> 0 <= d ->
  n + d + esize es - after (n + d) es =
  (if negb (n + esize es - after n es =? 0) then d else 0) + (n + esize es - after n es).
Proof.
  intros Hn Hd. destruct es as [|e es]; cbn [esize after].
  - replace (n + 0 - n) with 0 by lia. cbn [Z.eqb negb]. lia.
  - pose proof (after_bounds (e :: es) n ltac:(done)) as H. cbn [esize after] in H.
    rewrite (proj2 (Z.eqb_neq _ 0)) by lia. cbn [negb]. lia.
Qed.

(** Giving the next entry the five-byte form: the block grows by four bytes. *)
Lemma cascade_grow pre prev e stale v es c (k : bytes -> option bytes) :
  let n := ent_len e in
  let T := 11 + zlen pre + n + esize (Ent false v :: es) in
  254 <= n -> T + 4 < 2 ^ 32 ->
  (zl ← ziplistResize (cascade_buf pre prev e stale (Ent false v :: es) c) (T + (5 - 1));
   tail ← ZIPLIST_TAIL_OFFSET zl;
   zl ← (if negb (tail =? 10 + zlen pre + n) then set_ZIPLIST_TAIL_OFFSET zl (tail + (5 - 1)) else Some zl);
   zl ← zmove zl (10 + zlen pre + n + 5) (10 + zlen pre + n + 1) (T - (10 + zlen pre + n) - 1 - 1);
   '(zl, _) ← zipStorePrevEntryLength zl (Some (10 + zlen pre + n)) n; k zl) =
    k (cascade_buf (pre ++ ent_bytes prev e) n (Ent true v) (ent_len (Ent false v)) es c).
Proof.
  intros n T Hn HT. change (5 - 1) with 4. unfold cascade_buf. fold n. set (e2 := Ent false v) in *.
  set (t := 10 + zlen pre + n + esize (e2 :: es) - after n (e2 :: es)).
  pose proof (zlen_nonneg pre) as Hp. pose proof (after_bounds (e2 :: es) n ltac:(done)) as Ha.
  assert (Hl : ent_len (Ent true v) = ent_len e2 + 4) by (unfold e2, ent_len; cbn [e_big e_val prev_size]; unfold ent_body; cbn [e_val]; lia).
  set (rest := pre ++ ent_bytes prev e ++ ents stale (e2 :: es) ++ [255]).
  assert (Hrest : 10 + zlen rest = T) by (unfold rest, T, n; zlia).
  destruct (resize_more (11 + zlen pre + n + esize (e2 :: es)) t c rest (T + 4)) as (pad & E & Hpad); [lia|].
  rewrite E. cbn [mbind option_bind]. rewrite get_tail by (unfold urange, t; lia).
  cbn [mbind option_bind]. rewrite maybe_tail. cbn [mbind option_bind].
  set (t' := if negb (t =? 10 + zlen pre + n) then t + 4 else t).
  set (Q := pre ++ ent_bytes prev e). set (B := ent_body e2 ++ ents (ent_len e2) es).
  assert (HQ : zlen Q = zlen pre + n) by (unfold Q, n; zlia).
  assert (HB : zlen B = T - (10 + zlen pre + n) - 2).
  { assert (ent_len e2 = 1 + zlen (ent_body e2)) by done. unfold T, B. cbn [esize]. zlia. }
  destruct (zsplit3 ([stale] ++ B ++ [255] ++ pad) 0 5) as (z & G & D2 & EG & Hz & HG); [lia..|zlia|].
  apply zlen_0_nil in Hz as ->. cbn [app] in EG.
  assert (HD : zlen D2 = zlen B) by (apply (f_equal zlen) in EG; zlia).
  replace (rest ++ pad ++ [255]) with ((Q ++ G) ++ D2 ++ [255]).
  2: { transitivity (Q ++ (G ++ D2) ++ [255]); [by rewrite <- !app_assoc|]. rewrite <- EG. unfold rest. cbn [ents].
       change (ent_bytes stale e2) with (stale :: ent_body e2). unfold B, Q. rewrite <- !app_assoc. cbn [app].
       by rewrite <- !app_assoc. }
  rewrite (buf_move _ _ _ (Q ++ G) D2 [255] (Q ++ [stale]) B ([255] ++ pad ++ [255])).
  - cbn [mbind option_bind]. rewrite <- app_assoc.
    assert (Ep : prevlen_size n = 5) by (unfold prevlen_size, ZIP_BIG_PREVLEN; by zdec).
    rewrite buf_store_prevlen by (lia || zlia). rewrite Ep, (proj2 (Z.leb_le 254 n)) by done.
    change (ent_bytes n (Ent true v)) with (prev_bytes n true ++ ent_body e2). fold Q. rewrite Hl, HQ.
    unfold B, Q. rewrite <- !app_assoc. cbn [mbind option_bind]. f_equal. f_equal; [unfold T; cbn [esize]; lia|].
    pose proof (ent_len_pos e2). pose proof (after_shift es 4 (ent_len e2) ltac:(lia) ltac:(lia)) as Hs.
    unfold t', t. cbn [esize after]. set (x := after (ent_len e2) es) in *.
    destruct (Z.eqb_spec (ent_len e2 + esize es - x) 0);
    destruct (Z.eqb_spec (10 + zlen pre + n + (ent_len e2 + esize es) - x) (10 + zlen pre + n));
    cbn [negb] in *; lia.
  - transitivity (Q ++ (G ++ D2) ++ [255]); [by rewrite <- !app_assoc|]. rewrite <- EG.
    rewrite <- !app_assoc. cbn [app]. by rewrite <- !app_assoc.
  - zlia.
  - zlia.
  - lia.
  - lia.
Qed.

Lemma cascade_buf_next pre prev e stale c e2 es : cascade_buf pre prev e stale (e2 :: es) c =
  zl_buf (11 + zlen pre + ent_len e + esize (e2 :: es))
    (10 + zlen pre + ent_len e + esize (e2 :: es) - after (ent_len e) (e2 :: es)) c
    ((pre ++ ent_bytes prev e) ++ ent_bytes stale e2 ++ ents (ent_len e2) es ++ [255]).
Proof. unfold cascade_buf. cbn [ents]. by rewrite <- !app_assoc. Qed.

(** The right entry after the cursor becomes the entry at the cursor. *)
Lemma cascade_buf_step pre prev e e2 es c :
  cascade_buf (pre ++ ent_bytes prev e) (ent_len e) e2 (ent_len e2) es c =
    cascade_buf pre prev e (ent_len e) (e2 :: es) c.
Proof.
  unfold cascade_buf. cbn [ents esize after]. rewrite <- !app_assoc. f_equal; zlia.
Qed.

Section at_cursor.
Context (pre : bytes) (prev : Z) (e : zent) (stale c : Z).
Context (Hp : prev_ok prev (e_big e)) (Hv : val_ok (e_val e)).

Lemma cursor_entry es : let b := cascade_buf pre prev e stale es c in
  (exists x, zget b (10 + zlen pre) = Some x /\ (x =? ZIP_END) = false) /\ zipEntry b (10 + zlen pre) = Some (ent_info prev e (10 + zlen pre)).
Proof using Hp Hv. split; [by apply buf_not_end|by apply buf_entry]. Qed.

Lemma cursor_last : zget (cascade_buf pre prev e stale [] c) (10 + zlen pre + ent_len e) = Some 255.
Proof using Type. unfold cascade_buf. cbn [ents app]. rewrite (app_assoc pre). apply buf_end. zlia. Qed.

Lemma cursor_next e2 es : prev_ok stale (e_big e2) -> val_ok (e_val e2) ->
  let b := cascade_buf pre prev e stale (e2 :: es) c in
  let p := 10 + zlen pre + ent_len e in
  (exists x, zget b p = Some x /\ (x =? ZIP_END) = false) /\ zipEntry b p = Some (ent_info stale e2 p).
Proof using Type.
  intros H1 H2 b p. unfold b. rewrite cascade_buf_next.
  split; [apply buf_not_end; [zlia|done]|apply buf_entry; [zlia|done..]].
Qed.

(** Storing the length in the form the next entry already has. *)
Lemma cursor_store_large v es : zipStorePrevEntryLengthLarge (cascade_buf pre prev e stale (Ent true v :: es) c)
    (Some (10 + zlen pre + ent_len e)) (ent_len e) =
  Some (cascade_buf pre prev e (ent_len e) (Ent true v :: es) c, 5).
Proof using Type.
  rewrite !cascade_buf_next, !ent_bytes_prev. cbn [e_big].
  rewrite buf_store_large by (zlia || (rewrite zlen_prev_bytes; done)). done.
Qed.

Lemma cursor_store e2 es : prev_size (e_big e2) = prevlen_size (ent_len e) ->
  zipStorePrevEntryLength (cascade_buf pre prev e stale (e2 :: es) c)
    (Some (10 + zlen pre + ent_len e)) (ent_len e) =
  Some (cascade_buf pre prev e (ent_len e) (e2 :: es) c, prevlen_size (ent_len e)).
Proof using Type.
  intros Hs. pose proof (ent_len_pos e). rewrite !cascade_buf_next, !ent_bytes_prev.
  rewrite buf_store_prevlen by (lia || zlia || (by rewrite zlen_prev_bytes)).
  rewrite <- prev_size_of in Hs. by destruct (e_big e2), (254 <=? ent_len e).
Qed.
End at_cursor.

(** The cascade from a right entry repairs the entries after it. *)
Lemma cascade_loop_spec es : forall fuel pre prev e stale c,
  (length es < fuel)%nat -> prev_ok prev (e_big e) -> val_ok (e_val e) -> chain stale es ->
  11 + zlen pre + ent_len e + ecap es < 2 ^ 32 ->
  exists es', vals es' = vals es /\ chain (ent_len e) es' /\
       cascade_loop fuel (cascade_buf pre prev e stale es c) (11 + zlen pre + ent_len e + esize es) (10 + zlen pre) =
      Some (cascade_buf pre prev e (ent_len e) es' c).
Proof.
  induction es as [|[big v] es IH]; intros fuel pre prev e stale c Hf Hp Hv Hc Hcap;
    (destruct fuel as [|fuel]; [simpl in Hf; lia|]); cbn [cascade_loop].
  1: destruct (cursor_entry pre prev e stale c Hp Hv []) as ((b & -> & Hb) & ->).
  2: destruct (cursor_entry pre prev e stale c Hp Hv (Ent big v :: es)) as ((b & -> & Hb) & ->).
  1-2: cbn [mbind option_bind]; rewrite Hb, ent_info_len by done.
  1-2: rewrite store_prevlen_null; cbn [mbind option_bind].
  - rewrite cursor_last. by exists [].
  - cbn [chain e_big e_val] in Hc. destruct Hc as (Hp2 & Hv2 & Hc).
    destruct (cursor_next pre prev e stale c (Ent big v) es Hp2 Hv2) as ((b2 & -> & Hb2) & ->).
    cbn [mbind option_bind]. rewrite Hb2. cbn [ent_info prevrawlen prevrawlensize e_big].
    pose proof (ent_len_bounds e Hv) as Hl. unfold prevlen_size, ZIP_BIG_PREVLEN.
    destruct (Z.eqb_spec stale (ent_len e)) as [->|Hne].
    { exists (Ent big v :: es). split; [done|]. split; [done|]. done. }
    destruct big; cbn [prev_size].
    + destruct (Z.ltb_spec (ent_len e) 254); cbn [Z.ltb Z.compare Pos.compare Pos.compare_cont].
      all: exists (Ent true v :: es); split; [done|].
      all: split; [split_and!; [apply prev_ok_true; lia|done|done]|].
      * rewrite cursor_store_large. done.
      * rewrite cursor_store by (unfold prevlen_size, ZIP_BIG_PREVLEN; by zdec). done.
    + destruct (Z.ltb_spec (ent_len e) 254); cbn [Z.ltb Z.compare Pos.compare Pos.compare_cont].
      { exists (Ent false v :: es). split; [done|]. split; [split_and!; [apply prev_ok_ent; [done|intros; lia]|done|done]|].
        rewrite cursor_store by (unfold prevlen_size, ZIP_BIG_PREVLEN; by zdec). done. }
      assert (Hlen : ent_len (Ent true v) = ent_len (Ent false v) + 4)
        by (unfold ent_len, ent_body; cbn [e_big e_val prev_size]; lia).
      cbn [ecap] in Hcap. pose proof (esize_cap es).
      assert (Hcap2 : ent_len (Ent true v) = 5 + zlen (ent_body (Ent false v))) by done.
      rewrite (cascade_grow pre prev e stale v es c (fun zl => cascade_loop fuel zl _ _))
        by (cbn [esize]; lia).
      destruct (IH fuel (pre ++ ent_bytes prev e) (ent_len e) (Ent true v) (ent_len (Ent false v)) c)
        as (es' & Hvals & Hchain & E).
      * simpl in Hf. lia.
      * apply prev_ok_true; lia.
      * done.
      * done.
      * zlia.
      * exists (Ent true v :: es'). split; [unfold vals in *; cbn [map e_val]; by rewrite Hvals|].
        split; [split_and!; [apply prev_ok_true; lia|done|done]|].
        rewrite <- cascade_buf_step. rewrite <- E. f_equal; [cbn [esize]; zlia|zlia].
Qed.

Lemma length_cascade_buf pre prev e stale es c : (length es < length (cascade_buf pre prev e stale es c))%nat.
Proof.
  assert (zlen (cascade_buf pre prev e stale es c) = 11 + zlen pre + ent_len e + esize es) as E.
  { unfold cascade_buf. zlia. }
  pose proof (esize_length es). pose proof (ent_len_pos e). pose proof (zlen_nonneg pre). unfold zlen in *. lia.
Qed.

Lemma cascade_spec es pre prev e stale c :
  prev_ok prev (e_big e) -> val_ok (e_val e) -> chain stale es ->
  11 + zlen pre + ent_len e + ecap es < 2 ^ 32 ->
  exists es', vals es' = vals es /\ chain (ent_len e) es' /\
    __ziplistCascadeUpdate (cascade_buf pre prev e stale es c) (10 + zlen pre) =
      Some (cascade_buf pre prev e (ent_len e) es' c).
Proof.
  intros Hp Hv Hc Hcap.
  destruct (cascade_loop_spec es (length (cascade_buf pre prev e stale es c)) pre prev e stale c)
    as (es' & H1 & H2 & H3); [apply length_cascade_buf|done..|].
  exists es'. split; [done|]. split; [done|]. unfold __ziplistCascadeUpdate.
  pose proof (esize_cap es). pose proof (esize_nonneg es). pose proof (ent_len_pos e). pose proof (zlen_nonneg pre).
  assert (ZIPLIST_BYTES (cascade_buf pre prev e stale es c) = Some (11 + zlen pre + ent_len e + esize es)) as ->.
  { apply get_bytes. unfold urange. lia. }
  exact H3.
Qed.

(** * Insertion *)

Definition cnt_add (c d : Z) : Z := if c <? UINT16_MAX then c + d else c.

Lemma incr_length T t c rest d : urange 16 c -> ZIPLIST_INCR_LENGTH (zl_buf T t c rest) d = Some (zl_buf T t (cnt_add c d) rest).
Proof.
  intros Hc. unfold ZIPLIST_INCR_LENGTH, cnt_add. rewrite get_length by done. cbn [mbind option_bind].
  destruct (c <? UINT16_MAX); [apply set_length|done].
Qed.

Definition val_value (v : zval) : Z := match v with VStr _ => 123456789 | VInt _ v => v end.

(** The integer encoding of the string to insert, or its length. *)
Lemma insert_encoding s :
  match zipTryEncoding s with
  | Some (value, encoding) => n ← zipIntSize encoding; Some (value, encoding, n)
  | None => Some (123456789, 0, zlen s)
  end = Some (val_value (val_of s), store_enc (val_of s), zlen (val_data (val_of s))).
Proof.
  unfold val_of. destruct (zipTryEncoding s) as [[v enc]|] eqn:E; [|done].
  apply try_encoding_sound in E as (_ & _ & _ & Hok). destruct (int_enc_spec _ _ Hok) as (_ & _ & _ & ->).
  cbn. by rewrite zlen_le_bytes.
Qed.

Lemma val_of_store s : val_store (val_of s) (zlen s).
Proof. unfold val_of. by destruct (zipTryEncoding s) as [[v enc]|]. Qed.

Lemma store_enc_str v : val_ok v -> ZIP_IS_STR (store_enc v) = match v with VStr _ => true | VInt _ _ => false end.
Proof. destruct v as [s|enc v]; [done|]. intros H. apply (int_enc_spec _ _ H). Qed.

(** Writing the entry into the gap made for it. *)
Lemma write_entry_spec T t c pre hole post prev s p :
  let e := Ent (254 <=? prev) (val_of s) in
  p = 10 + zlen pre -> 0 <= prev -> zlen s < 2 ^ 32 - 10 -> zlen hole = ent_len e -> urange 16 c ->
  ('(zl, n1) ← zipStorePrevEntryLength (zl_buf T t c (pre ++ hole ++ post)) (Some p) prev;
   '(zl, n2) ← zipStoreEntryEncoding zl (Some (p + n1)) (store_enc (val_of s)) (zlen s);
   zl ← (if ZIP_IS_STR (store_enc (val_of s)) then zput zl (p + n1 + n2) s
         else zipSaveInteger zl (p + n1 + n2) (val_value (val_of s)) (store_enc (val_of s)));
   ZIPLIST_INCR_LENGTH zl 1) = Some (zl_buf T t (cnt_add c 1) (pre ++ ent_bytes prev e ++ post)).
Proof.
  intros e Hp Hprev Hs Hh Hc. pose proof (val_of_ok s Hs) as Hv. pose proof (val_of_store s) as Hst.
  assert (Hdat : zlen (val_header (val_of s)) + zlen (val_data (val_of s)) = zlen (ent_body e)) by (unfold ent_body; by rewrite zlen_app).
  unfold ent_len in Hh. cbn [e_big e] in Hh. rewrite prev_size_of in Hh.
  assert (Hps : 1 <= prevlen_size prev <= 5) by (unfold prevlen_size, ZIP_BIG_PREVLEN; zcase; lia).
  destruct (zsplit3 hole 0 (prevlen_size prev)) as (z & H1 & H2 & -> & Hz & E1); [zlia..|].
  apply zlen_0_nil in Hz as ->. cbn [app] in *.
  destruct (zsplit3 H2 0 (zlen (val_header (val_of s)))) as (z & H3 & H4 & -> & Hz & E3); [zlia..|].
  apply zlen_0_nil in Hz as ->. cbn [app] in *. rewrite <- !app_assoc.
  rewrite buf_store_prevlen by done. cbn [mbind option_bind].
  set (pb := prev_bytes prev (254 <=? prev)).
  assert (Hpb : zlen pb = prevlen_size prev) by (unfold pb; rewrite zlen_prev_bytes; apply prev_size_of).
  rewrite (app_assoc pre), zl_buf_split.
  rewrite store_encoding by (done || zlia). cbn [mbind option_bind]. rewrite store_enc_str by done.
  rewrite (app_assoc _ (val_header (val_of s))).
  assert (Hfin : (zl_hdr T t c ++ pre ++ pb) ++ val_header (val_of s) ++ val_data (val_of s) ++ post =
    zl_buf T t c (pre ++ ent_bytes prev e ++ post)).
  { rewrite zl_buf_hdr. unfold ent_bytes, ent_body. cbn [e_big e_val e]. by rewrite <- !app_assoc. }
  destruct (val_of s) as [s'|enc v] eqn:Ev; cbn [val_data val_value store_enc] in *.
  - assert (s' = s) as ->. { unfold val_of in Ev. by destruct (zipTryEncoding s) as [[??]|]; simplify_eq. }
    rewrite zput_app by zlia. cbn [mbind option_bind]. rewrite <- app_assoc, Hfin. by apply incr_length.
  - rewrite save_integer by (done || zlia). cbn [mbind option_bind]. rewrite <- app_assoc, Hfin. by apply incr_length.
Qed.

(** Growing the block keeps its bytes, and the end mark is written again at the new end. *)
Lemma resize_ge T t c rest n : 11 + zlen rest <= n < 2 ^ 32 ->
  exists Z0 Z1, ziplistResize (zl_buf T t c (rest ++ [255])) n = Some (zl_buf n t c (rest ++ Z0 ++ [255])) /\
    zlen Z0 = n - 11 - zlen rest /\ Z0 ++ [255] = 255 :: Z1.
Proof.
  intros Hn. destruct (Z.eq_dec n (11 + zlen rest)) as [E|E].
  - exists [], []. rewrite (resize_cut T t c rest 255 []) by lia. split; [done|]. split; [rewrite zlen_nil; lia|done].
  - destruct (resize_more T t c (rest ++ [255]) n) as (pad & -> & Hp); [zlia|].
    exists (255 :: pad), (pad ++ [255]). rewrite <- app_assoc. split; [done|]. split; [zlia|done].
Qed.

Lemma after_last es prev : es <> [] -> exists es0 e, es = es0 ++ [e] /\ after prev es = ent_len e.
Proof.
  destruct es as [|e es _] using rev_ind; [done|]. intros _. exists es, e. by rewrite after_app.
Qed.

Lemma chain_range es : forall prev, chain prev es -> 0 <= prev < 2 ^ 32 -> 0 <= after prev es < 2 ^ 32.
Proof.
  induction es as [|e es IH]; intros prev Hc Hp; [done|]. destruct Hc as (_ & Hv & Hc). apply IH; [done|].
  pose proof (ent_len_bounds e Hv). lia.
Qed.

(** The length of the last entry, which the code reads through the tail offset. *)
Lemma tail_length es c T : chain 0 es -> T < 2 ^ 32 -> 11 + esize es <= T ->
  let zl := zl_buf T (10 + esize es - after 0 es) c (ents 0 es ++ [255]) in
  (ptail ← ZIPLIST_ENTRY_TAIL zl; bt ← zget zl ptail;
   if negb (bt =? ZIP_END) then zipRawEntryLength zl ptail else Some 0) = Some (after 0 es).
Proof.
  intros Hc HT Hs zl. unfold ZIPLIST_ENTRY_TAIL. pose proof (esize_nonneg es).
  assert (Hr : 0 <= after 0 es <= esize es).
  { destruct es as [|e es]; [done|]. pose proof (after_bounds (e :: es) 0 ltac:(done)). lia. }
  unfold zl. rewrite get_tail by (unfold urange; lia). cbn [mbind option_bind].
  destruct (decide (es = [])) as [->|Hne].
  - rewrite buf_end by done. done.
  - destruct (after_last es 0 Hne) as (es0 & e & -> & Ha). rewrite Ha.
    apply chain_app in Hc as (_ & Hp & Hv & _). rewrite ents_app. cbn [ents]. rewrite <- !app_assoc.
    rewrite esize_app in *. cbn [esize] in *. cbn [app].
    destruct (buf_not_end T (10 + (esize es0 + (ent_len e + 0)) - ent_len e) c (ents 0 es0) (after 0 es0) e [255]
      (10 + (esize es0 + (ent_len e + 0)) - ent_len e)) as (b & -> & Hb); [zlia|done|].
    cbn [mbind option_bind]. rewrite Hb. apply buf_raw_length; [zlia|done|done].
Qed.

(** The representation after the count changes. *)
Lemma cnt_ok_urange c es : cnt_ok c es -> urange 16 c.
Proof. unfold cnt_ok, urange, UINT16_MAX. pose proof (zlen_nonneg es). change (2 ^ 16) with 65536. lia. Qed.

Lemma cnt_ok_add c es es' d : cnt_ok c es -> zlen es' = zlen es + d -> zlen es' < 65535 \/ d = 1 ->
  cnt_ok (cnt_add c d) es'.
Proof.
  unfold cnt_ok, cnt_add, UINT16_MAX. intros Hc He Hd. destruct (Z.ltb_spec c 65535); [|left; lia].
  destruct (Z.eq_dec (c + d) 65535); [by left|right]. lia.
Qed.

Lemma cnt_ok_len c es es' : cnt_ok c es -> zlen es' = zlen es -> cnt_ok c es'.
Proof. unfold cnt_ok. intros H ->. done. Qed.

Lemma zlen_vals es : zlen (vals es) = zlen es.
Proof. unfold zlen, vals. by rewrite length_map. Qed.

(** ** The first half *)

Definition new_entry (prev : Z) (s : bytes) : zent := Ent (254 <=? prev) (val_of s).

(** Given the length before the insertion point and the change of the next entry, the insertion is
    its second half, with the size of the new entry. *)
Lemma insert_head zl p s T prev b nd0 : zlen s < 2 ^ 32 - 10 ->
  let n := ent_len (new_entry prev s) in let fl := (nd0 =? -4) && (n <? 4) in
  n < 2 ^ 32 -> ZIPLIST_BYTES zl = Some T -> insert_prevlen zl p = Some prev -> zget zl p = Some b ->
  (if negb (b =? ZIP_END) then zipPrevLenByteDiff zl p n else Some 0) = Some nd0 ->
  __ziplistInsert zl p s =
    insert_write zl p s T prev (val_value (val_of s)) (store_enc (val_of s)) n (if fl then 0 else nd0) fl.
Proof.
  intros Hs n fl Hn HT Hprev Hb Hnd. unfold __ziplistInsert.
  rewrite HT. cbn [mbind option_bind]. rewrite Hprev, insert_encoding. cbn [mbind option_bind].
  rewrite store_prevlen_null. cbn [mbind option_bind].
  rewrite store_encoding_null by (apply val_of_store || by apply val_of_ok). cbn [mbind option_bind].
  assert (Hreq : zlen (val_data (val_of s)) + prevlen_size prev + zlen (val_header (val_of s)) = n).
  { unfold n, ent_len, ent_body, new_entry. cbn [e_big e_val]. rewrite prev_size_of. zlia. }
  pose proof (ent_len_pos (new_entry prev s)) as Hpos. fold n in Hpos.
  rewrite Hreq, Hb, (uwrap_small 32 n) by (unfold urange; lia). cbn [mbind option_bind]. by rewrite Hnd.
Qed.

(** ** At the end *)

Lemma insert_at_end es c s : chain 0 es -> cnt_ok c es -> zlen s < 2 ^ 32 - 10 ->
  let e := new_entry (after 0 es) s in
  11 + ecap (es ++ [e]) < 2 ^ 32 ->
  __ziplistInsert (zl_of es c) (10 + esize es) s = Some (zl_of (es ++ [e]) (cnt_add c 1)).
Proof.
  intros Hc Hcnt Hs e Hcap. rewrite ecap_app in Hcap. cbn [ecap] in Hcap.
  pose proof (esize_cap es) as Hle. pose proof (esize_nonneg es) as Hnn. pose proof (ent_len_le e) as He.
  pose proof (chain_range es 0 Hc ltac:(lia)) as Ha. pose proof (cnt_ok_urange _ _ Hcnt) as Hcu.
  assert (Hend : zget (zl_of es c) (10 + esize es) = Some 255) by (apply buf_end; zlia).
  rewrite (insert_head (zl_of es c) (10 + esize es) s (11 + esize es) (after 0 es) 255 0); fold e; [|done|lia| | |done|done].
  - unfold insert_write. cbn [Z.eqb andb].
    destruct (resize_ge (11 + esize es) (10 + esize es - after 0 es) c (ents 0 es) (11 + esize es + ent_len e + 0))
      as (Z0 & Z1 & Er & Hz & Ez); [zlia|].
    unfold zl_of at 1. rewrite Er. cbn [mbind option_bind]. rewrite Ez at 1. rewrite buf_end by zlia.
    cbn [mbind option_bind]. change (255 =? ZIP_END) with true. cbn [negb]. rewrite set_tail. cbn [mbind option_bind].
    pose proof (write_entry_spec (11 + esize es + ent_len e + 0) (10 + esize es) c (ents 0 es) Z0 [255] (after 0 es) s
      (10 + esize es)) as W. cbv zeta in W. fold (new_entry (after 0 es) s) in W. fold e in W.
    rewrite W by (done || lia || zlia).
    unfold zl_of. rewrite esize_app, after_app, ents_app. cbn [esize after ents]. rewrite app_nil_r, <- app_assoc.
    do 2 f_equal; lia.
  - apply get_bytes. unfold urange. lia.
  - pose proof (tail_length es c (11 + esize es) Hc ltac:(lia) ltac:(lia)) as Ht. cbv zeta in Ht.
    fold (zl_of es c) in Ht. unfold insert_prevlen. rewrite Hend. exact Ht.
Qed.

(** ** Before another entry *)

(** The change of the next entry: its new form, and the bytes it gains. *)
Definition next_form (forcelarge : bool) (n : Z) : bool := if forcelarge then true else 254 <=? n.

Lemma ent_len_form big v big' : ent_len (Ent big' v) = ent_len (Ent big v) + (prev_size big' - prev_size big).
Proof. unfold ent_len, ent_body. cbn [e_big e_val]. lia. Qed.

(** The tail offset after the entries from the cursor on have moved by [n] and the first of them has
    changed its size by [nd]. *)
Lemma tail_move pl n l nd es : 0 < l -> 0 < l + nd ->
  (if negb (match es with [] => true | _ => false end)
   then 10 + pl + l + esize es - after l es + n + nd else 10 + pl + l + esize es - after l es + n) =
  10 + (pl + n) + (l + nd) + esize es - after (l + nd) es.
Proof. intros Hl Hnd. destruct es as [|e es]; cbn [negb esize after]; lia. Qed.

(** Whether an entry is the last one, by the byte after it. *)
Lemma next_byte T t c pre prev es p : p = 10 + zlen pre -> chain prev es ->
  exists b, zget (zl_buf T t c (pre ++ ents prev es ++ [255])) p = Some b /\
    (b =? ZIP_END) = match es with [] => true | _ => false end.
Proof.
  intros Hp Hc. destruct es as [|e es]; cbn [ents app].
  - exists 255. split; [by apply buf_end|done].
  - rewrite <- app_assoc. apply buf_not_end; [done|apply Hc].
Qed.

(** The memmove opens a gap of [n] bytes and leaves room for the new form of the next length. *)
Lemma insert_move_spec T t c P pb Y Z0 n ps' :
  let nd := ps' - zlen pb in
  0 <= n -> zlen pb = 1 \/ zlen pb = 5 -> 1 <= ps' <= 5 -> zlen Z0 = n + nd ->
  exists G X, zlen G = n /\ zlen X = ps' /\
    zmove (zl_buf T t c (P ++ pb ++ Y ++ Z0 ++ [255])) (10 + zlen P + n) (10 + zlen P - nd)
      (11 + zlen P + zlen pb + zlen Y - (10 + zlen P) - 1 + nd) =
    Some (zl_buf T t c ((P ++ G) ++ X ++ Y ++ [255])).
Proof.
  intros nd Hn Hpb Hps HZ. set (H := zl_hdr T t c). assert (HH : zlen H = 10) by apply zlen_zl_hdr.
  destruct (zsplit3 ((pb ++ Y) ++ Z0) 0 n) as (z & G & D2 & EG & Hz & HG); [lia..|unfold nd in *; zlia|].
  apply zlen_0_nil in Hz as ->. cbn [app] in EG.
  destruct (zsplit3 ((H ++ P) ++ pb) (10 + zlen P - nd) ps') as (S1 & X & S3 & ES & HS1 & HX);
    [pose proof (zlen_nonneg P); unfold nd; zlia..|].
  assert (S3 = []) as ->.
  { apply zlen_0_nil. apply (f_equal zlen) in ES. unfold nd in *. zlia. }
  exists G, X. split; [done|]. split; [done|].
  assert (EL : zl_buf T t c (P ++ pb ++ Y ++ Z0 ++ [255]) = H ++ P ++ ((pb ++ Y) ++ Z0) ++ [255]).
  { rewrite zl_buf_hdr. by rewrite <- !app_assoc. }
  rewrite EL, (zmove_split _ (H ++ P ++ G) D2 [255] S1 (X ++ Y) (Z0 ++ [255])).
  - rewrite zl_buf_hdr. by rewrite <- !app_assoc.
  - by rewrite EG, <- !app_assoc.
  - transitivity ((S1 ++ X ++ []) ++ Y ++ Z0 ++ [255]); [rewrite <- ES; by rewrite <- !app_assoc|].
    rewrite app_nil_r. by rewrite <- !app_assoc.
  - zlia.
  - zlia.
  - unfold nd in *. zlia.
  - apply (f_equal zlen) in EG. unfold nd in *. zlia.
Qed.

Lemma next_form_ok fl n : 0 <= n < 2 ^ 32 -> prev_ok n (next_form fl n).
Proof. intros. unfold next_form. destruct fl; [by apply prev_ok_true|by apply prev_ok_exact]. Qed.

(** Storing the length of the new entry in the form chosen for it. *)
Lemma store_form T t c pre X v post n (fl : bool) p : let big' := next_form fl n in
  p = 10 + zlen pre -> 0 <= n -> zlen X = prev_size big' ->
  (if fl then zipStorePrevEntryLengthLarge (zl_buf T t c (pre ++ X ++ ent_body (Ent big' v) ++ post)) (Some p) n
   else zipStorePrevEntryLength (zl_buf T t c (pre ++ X ++ ent_body (Ent big' v) ++ post)) (Some p) n) =
    Some (zl_buf T t c (pre ++ ent_bytes n (Ent big' v) ++ post), prev_size big').
Proof.
  intros big' Hp Hn HX. rewrite ent_bytes_prev. cbn [e_big]. unfold big', next_form in *. destruct fl.
  - by rewrite buf_store_large.
  - rewrite buf_store_prevlen by (rewrite <- ?prev_size_of; done). by rewrite prev_size_of.
Qed.

Lemma insert_shift_spec P old big v es n fl c Z0 :
  let e2 := Ent big v in let big' := next_form fl n in
  let nd := prev_size big' - prev_size big in
  let T := 11 + zlen P + ent_len e2 + esize es in
  0 < n < 2 ^ 32 -> val_ok v -> chain (ent_len e2) es -> zlen Z0 = n + nd -> T + n < 2 ^ 32 ->
  exists G, zlen G = n /\
    insert_shift (zl_buf (T + n + nd) (10 + zlen P + ent_len e2 + esize es - after (ent_len e2) es) c
        (P ++ ent_bytes old e2 ++ ents (ent_len e2) es ++ Z0 ++ [255])) (10 + zlen P) T n nd fl =
      Some (cascade_buf (P ++ G) n (Ent big' v) (ent_len e2) es c).
Proof.
  intros e2 big' nd T Hn Hv Hc HZ HT. unfold insert_shift.
  set (t := 10 + zlen P + ent_len e2 + esize es - after (ent_len e2) es).
  set (Y := ent_body e2 ++ ents (ent_len e2) es).
  assert (HY : T = 11 + zlen P + prev_size big + zlen Y) by (unfold Y, T, ent_len at 1; cbn [e_big e2]; zlia).
  pose proof (prev_size_pos big). pose proof (prev_size_pos big').
  destruct (insert_move_spec (T + n + nd) t c P (prev_bytes old big) Y Z0 n (prev_size big'))
    as (G & X & HG & HX & Em); [lia|rewrite zlen_prev_bytes; destruct big; auto|done|by rewrite zlen_prev_bytes|].
  rewrite zlen_prev_bytes, <- HY in Em. fold nd in Em. exists G. split; [done|].
  replace (P ++ ent_bytes old e2 ++ ents (ent_len e2) es ++ Z0 ++ [255])
    with (P ++ prev_bytes old big ++ Y ++ Z0 ++ [255]) by (unfold ent_bytes, Y; by rewrite <- !app_assoc).
  rewrite Em. cbn [mbind option_bind]. rewrite (uwrap_small 32 n) by (unfold urange; lia).
  unfold Y. rewrite <- (app_assoc (ent_body e2)). change (ent_body e2) with (ent_body (Ent big' v)).
  rewrite (store_form _ _ _ (P ++ G) X v _ n fl) by (done || lia || zlia). cbn [mbind option_bind].
  pose proof (after_bounds (e2 :: es) 0 ltac:(done)) as Hab. cbn [after esize] in Hab.
  pose proof (zlen_nonneg P). pose proof (ent_len_pos e2). pose proof (esize_nonneg es).
  rewrite get_tail by (unfold urange, t, T in *; lia). cbn [mbind option_bind]. rewrite set_tail. cbn [mbind option_bind].
  pose proof (next_form_ok fl n ltac:(lia)) as Hpok. fold big' in Hpok |- *.
  rewrite buf_entry by (zlia || done). cbn [mbind option_bind ent_info headersize len e_big e_val].
  assert (Hlen : n + (prev_size big' + zlen (val_header v)) + zlen (val_data v) = n + ent_len (Ent big' v)).
  { unfold ent_len, ent_body. cbn [e_big e_val]. zlia. }
  rewrite Hlen, (app_assoc (P ++ G)).
  destruct (next_byte (T + n + nd) (t + n) c ((P ++ G) ++ ent_bytes n (Ent big' v)) (ent_len e2) es
    (10 + zlen P + (n + ent_len (Ent big' v)))) as (b & -> & Hb); [zlia|done|].
  cbn [mbind option_bind]. rewrite Hb, get_tail by (unfold urange, t, T in *; lia). cbn [mbind option_bind].
  rewrite maybe_tail. unfold cascade_buf. rewrite <- (app_assoc (P ++ G)), (ent_len_form big v big'). fold e2 nd.
  pose proof (tail_move (zlen P) n (ent_len e2) nd es) as Hm. fold t in Hm.
  assert (0 < ent_len e2 + nd) by (pose proof (ent_len_pos (Ent big' v)) as Hq; rewrite (ent_len_form big v big') in Hq; fold e2 nd in Hq; lia).
  rewrite Hm by lia. do 2 f_equal; unfold T; zlia.
Qed.

Lemma zl_of_at es1 e es2 c : zl_of (es1 ++ e :: es2) c =
  zl_buf (11 + esize es1 + ent_len e + esize es2) (10 + esize es1 + ent_len e + esize es2 - after (ent_len e) es2) c
    (ents 0 es1 ++ ent_bytes (after 0 es1) e ++ ents (ent_len e) es2 ++ [255]).
Proof.
  unfold zl_of. rewrite esize_app, after_app, ents_app. cbn [esize after ents]. rewrite <- !app_assoc. f_equal; lia.
Qed.

(** The cascade runs when the size of the next entry has changed, and is not needed otherwise. *)
Lemma maybe_cascade pre prev e stale es c nd : nd = ent_len e - stale ->
  prev_ok prev (e_big e) -> val_ok (e_val e) -> chain stale es ->
  11 + zlen pre + ent_len e + ecap es < 2 ^ 32 ->
  exists es', vals es' = vals es /\ chain (ent_len e) es' /\
    (if negb (nd =? 0) then __ziplistCascadeUpdate (cascade_buf pre prev e stale es c) (10 + zlen pre)
     else Some (cascade_buf pre prev e stale es c)) =
      Some (cascade_buf pre prev e (ent_len e) es' c).
Proof.
  intros Hnd Hp Hv Hc Hcap. destruct (Z.eqb_spec nd 0) as [E|E]; cbn [negb].
  - assert (stale = ent_len e) as -> by lia. by exists es.
  - by apply cascade_spec.
Qed.

(** The change of size the code computes for the next entry, with its exception for short entries. *)
Lemma insert_diff n big : 0 <= n ->
  let nd0 := prevlen_size n - prev_size big in
  let fl := (nd0 =? -4) && (n <? 4) in
  (if fl then 0 else nd0) = prev_size (next_form fl n) - prev_size big /\
  0 <= n + (prev_size (next_form fl n) - prev_size big) /\ prev_size (next_form fl n) - prev_size big <= 4.
Proof.
  intros Hn nd0 fl. unfold fl, nd0, prevlen_size, ZIP_BIG_PREVLEN, next_form.
  destruct (Z.ltb_spec n 254);
    [rewrite (proj2 (Z.leb_gt 254 n)) by lia|rewrite (proj2 (Z.leb_le 254 n)) by lia];
    destruct (Z.ltb_spec n 4), big; simpl; lia.
Qed.

(** The second half, when there is a next entry: the gap, the cascade and the new entry. *)
Lemma insert_write_before es1 big v2 es3 c s nd fl :
  let e2 := Ent big v2 in let e := new_entry (after 0 es1) s in let n := ent_len e in
  let T := 11 + esize es1 + ent_len e2 + esize es3 in
  chain 0 (es1 ++ e2 :: es3) -> urange 16 c -> zlen s < 2 ^ 32 - 10 ->
  nd = prev_size (next_form fl n) - prev_size big -> 0 <= n + nd ->
  11 + ecap (es1 ++ e :: e2 :: es3) < 2 ^ 32 ->
  exists es', vals es' = vals (e2 :: es3) /\ chain n es' /\
    insert_write (zl_of (es1 ++ e2 :: es3) c) (10 + esize es1) s T (after 0 es1) (val_value (val_of s))
      (store_enc (val_of s)) n nd fl = Some (zl_of (es1 ++ e :: es') (cnt_add c 1)).
Proof.
  intros e2 e n T Hc Hcu Hs Hnd Hge Hcap. rewrite ecap_app in Hcap. cbn [ecap] in Hcap.
  apply chain_app in Hc as (Hc1 & Hp2 & Hv2 & Hc3).
  pose proof (esize_cap es1) as Hle1. pose proof (esize_nonneg es1) as Hn1.
  pose proof (esize_cap es3) as Hle3. pose proof (esize_nonneg es3) as Hn3.
  pose proof (chain_range es1 0 Hc1 ltac:(lia)) as Ha.
  pose proof (ent_len_le e) as Hle. pose proof (ent_len_le e2) as Hl2. fold n in Hle.
  set (e2' := Ent (next_form fl n) v2).
  assert (Hl2' : ent_len e2' = ent_len e2 + nd) by (unfold e2', e2; rewrite (ent_len_form big); lia).
  pose proof (ent_len_le e2') as Hle2'. change (ent_body e2') with (ent_body e2) in Hle2'.
  set (P := ents 0 es1). assert (HP : zlen P = esize es1) by apply zlen_ents.
  unfold insert_write. rewrite zl_of_at. fold T P. set (t := 10 + esize es1 + ent_len e2 + esize es3 - after (ent_len e2) es3).
  destruct (resize_ge T t c (P ++ ent_bytes (after 0 es1) e2 ++ ents (ent_len e2) es3) (T + n + nd))
    as (Z0 & Z1 & Er & Hz & _); [unfold T; zlia|].
  rewrite <- !app_assoc in Er. rewrite Er. cbn [mbind option_bind].
  destruct (buf_not_end (T + n + nd) t c P (after 0 es1) e2 (ents (ent_len e2) es3 ++ Z0 ++ [255]) (10 + esize es1))
    as (b & -> & Hb); [lia|done|]. cbn [mbind option_bind]. rewrite Hb. cbn [negb].
  destruct (insert_shift_spec P (after 0 es1) big v2 es3 n fl c Z0) as (G & HG & Es);
    [lia|done|done|unfold T in *; rewrite <- Hnd; zlia|rewrite HP; fold e2; lia|].
  rewrite <- Hnd, HP in Es. fold e2 T t in Es. rewrite Es. cbn [mbind option_bind].
  destruct (maybe_cascade (P ++ G) n e2' (ent_len e2) es3 c nd) as (es3' & Hvs & Hch & Ec);
    [lia|apply next_form_ok; lia|done|done|zlia|].
  replace (10 + esize es1 + n) with (10 + zlen (P ++ G)) by zlia. fold e2'. rewrite Ec. cbn [mbind option_bind].
  exists (e2' :: es3'). split; [unfold vals in *; cbn [map]; by rewrite Hvs|].
  split; [split_and!; [apply next_form_ok; lia|done|done]|].
  unfold cascade_buf. rewrite <- (app_assoc P G).
  pose proof (write_entry_spec (11 + zlen (P ++ G) + ent_len e2' + esize es3')
    (10 + zlen (P ++ G) + ent_len e2' + esize es3' - after (ent_len e2') es3') c P G
    (ent_bytes n e2' ++ ents (ent_len e2') es3' ++ [255]) (after 0 es1) s (10 + esize es1)) as W.
  cbv zeta in W. fold (new_entry (after 0 es1) s) in W. fold e in W. rewrite W by (done || lia || zlia).
  rewrite zl_of_at. cbn [esize after ents]. fold n P. rewrite <- !app_assoc. do 2 f_equal; zlia.
Qed.

Lemma insert_before es1 big v2 es3 c s :
  let e2 := Ent big v2 in let e := new_entry (after 0 es1) s in
  chain 0 (es1 ++ e2 :: es3) -> cnt_ok c (es1 ++ e2 :: es3) -> zlen s < 2 ^ 32 - 10 ->
  11 + ecap (es1 ++ e :: e2 :: es3) < 2 ^ 32 ->
  exists es', vals es' = vals (e2 :: es3) /\ chain (ent_len e) es' /\
    __ziplistInsert (zl_of (es1 ++ e2 :: es3) c) (10 + esize es1) s = Some (zl_of (es1 ++ e :: es') (cnt_add c 1)).
Proof.
  intros e2 e Hc Hcnt Hs Hcap. set (n := ent_len e). pose proof (ent_len_le e) as Hle. fold n in Hle.
  destruct (chain_app es1 (e2 :: es3) 0) as [Hca _]. destruct (Hca Hc) as (Hc1 & Hp2 & Hv2 & _). clear Hca.
  pose proof Hcap as Hcap0. rewrite ecap_app in Hcap0. cbn [ecap] in Hcap0.
  pose proof (esize_cap es1). pose proof (esize_nonneg es1). pose proof (esize_cap es3). pose proof (esize_nonneg es3).
  pose proof (ent_len_le e2). destruct (insert_diff n big ltac:(lia)) as (Hnd & Hge & _).
  set (fl := (prevlen_size n - prev_size big =? -4) && (n <? 4)) in *.
  destruct (insert_write_before es1 big v2 es3 c s (if fl then 0 else prevlen_size n - prev_size big) fl)
    as (es' & Hvs & Hch & E); [done|by eapply cnt_ok_urange|done|done|by rewrite Hnd|done|].
  exists es'. split; [done|]. split; [done|]. etransitivity; [|exact E]. fold e n e2. rewrite zl_of_at.
  destruct (buf_not_end (11 + esize es1 + ent_len e2 + esize es3)
    (10 + esize es1 + ent_len e2 + esize es3 - after (ent_len e2) es3) c (ents 0 es1) (after 0 es1) e2
    (ents (ent_len e2) es3 ++ [255]) (10 + esize es1)) as (b & Eb & Hb); [zlia|done|].
  apply (insert_head _ _ _ _ _ b (prevlen_size n - prev_size big)); [done|fold e n; lia| | |done|].
  - apply get_bytes. unfold urange. lia.
  - unfold insert_prevlen. rewrite Eb. cbn [mbind option_bind]. rewrite Hb. cbn [negb].
    rewrite buf_prevlen by (zlia || done). done.
  - rewrite Hb. cbn [negb]. unfold zipPrevLenByteDiff. rewrite buf_prevlensize by (zlia || done). done.
Qed.

Lemma insert_any es1 es2 c s : let e := new_entry (after 0 es1) s in
  chain 0 (es1 ++ es2) -> cnt_ok c (es1 ++ es2) -> zlen s < 2 ^ 32 - 10 -> 11 + ecap (es1 ++ e :: es2) < 2 ^ 32 ->
  exists es', vals es' = vals es2 /\ chain (ent_len e) es' /\
    __ziplistInsert (zl_of (es1 ++ es2) c) (10 + esize es1) s = Some (zl_of (es1 ++ e :: es') (cnt_add c 1)).
Proof.
  intros e Hc Hcnt Hs Hcap. destruct es2 as [|[big v2] es3]; [|by apply insert_before].
  exists []. split; [done|]. split; [done|]. rewrite app_nil_r in *. by apply insert_at_end.
Qed.

(** * Deletion *)

(** The scan stops at the entry after the [num] deleted ones, or at the end. *)
Lemma delete_scan_spec T t c es2 : forall fuel pre prev es3 num i,
  chain prev (es2 ++ es3) -> (length es2 < fuel)%nat ->
  num = i + zlen es2 \/ es3 = [] /\ i + zlen es2 <= num ->
  delete_scan fuel (zl_buf T t c (pre ++ ents prev (es2 ++ es3) ++ [255])) (10 + zlen pre) num i =
    Some (10 + zlen pre + esize es2, i + zlen es2).
Proof.
  induction es2 as [|e es2 IH]; intros fuel pre prev es3 num i Hc Hf Hn;
    (destruct fuel as [|fuel]; [simpl in Hf; lia|]); cbn [delete_scan app].
  - change (zlen (@nil zent)) with 0 in *. cbn [app] in Hc.
    destruct (next_byte T t c pre prev es3 (10 + zlen pre) eq_refl Hc) as (b & -> & Hb). cbn [mbind option_bind].
    rewrite Hb. replace (negb _ && _) with false; [cbn [esize]; rewrite !Z.add_0_r; done|].
    destruct es3 as [|e3 es3]; [done|]. cbn [negb andb]. symmetry. apply Z.ltb_ge.
    destruct Hn as [->|[? _]]; [lia|done].
  - cbn [app chain] in Hc. destruct Hc as (Hp & Hv & Hc). cbn [ents]. rewrite <- app_assoc.
    destruct (buf_not_end T t c pre prev e (ents (ent_len e) (es2 ++ es3) ++ [255]) (10 + zlen pre) eq_refl Hp)
      as (b & -> & Hb). cbn [mbind option_bind]. rewrite Hb. cbn [negb andb].
    pose proof (zlen_cons e es2). pose proof (zlen_nonneg es2). rewrite (proj2 (Z.ltb_lt i num)) by lia.
    rewrite buf_raw_length by done. cbn [mbind option_bind]. rewrite app_assoc.
    assert (Hn' : num = i + 1 + zlen es2 \/ es3 = [] /\ i + 1 + zlen es2 <= num).
    { destruct Hn as [?|[? ?]]; [left; lia|right; split; [done|lia]]. }
    specialize (IH fuel (pre ++ ent_bytes prev e) (ent_len e) es3 num (i + 1) Hc ltac:(simpl in Hf; lia) Hn').
    replace (10 + zlen pre + ent_len e) with (10 + zlen (pre ++ ent_bytes prev e)) by zlia. rewrite IH.
    cbn [esize]. do 2 f_equal; zlia.
Qed.

(** The deleted entries and the old length field of the entry after them have room for its new
    one: a length from 254 on was stored in five bytes by the first deleted entry. *)
Lemma delete_room q es2 big v es4 : let e3 := Ent big v in
  let nd := prevlen_size q - prev_size big in
  0 <= q -> chain q (es2 ++ e3 :: es4) -> es2 <> [] ->
  exists D1 X, zlen D1 = esize es2 - nd /\ zlen X = prevlen_size q /\
    ents q (es2 ++ e3 :: es4) = D1 ++ X ++ ent_body e3 ++ ents (ent_len e3) es4.
Proof.
  intros e3 nd Hq0 Hc Hne. pose proof (prev_size_pos big).
  assert (Hps : 1 <= prevlen_size q <= 5) by (unfold prevlen_size, ZIP_BIG_PREVLEN; zcase; lia).
  assert (Hroom : nd <= esize es2).
  { destruct es2 as [|e1 es2]; [done|]. destruct Hc as ((_ & Hb) & _). cbn [esize]. pose proof (esize_nonneg es2).
    unfold nd, prevlen_size, ZIP_BIG_PREVLEN. pose proof (ent_len_pos e1).
    destruct (Z.ltb_spec q 254); [lia|]. unfold ent_len. rewrite (Hb ltac:(lia)). cbn [prev_size].
    pose proof (zlen_body_pos e1). lia. }
  destruct (zsplit3 (ents q es2 ++ prev_bytes (after q es2) big) (esize es2 - nd) (prevlen_size q))
    as (D1 & X & X3 & ED & HD1 & HX); [unfold nd in *; zlia..|].
  assert (X3 = []) as ->.
  { apply zlen_0_nil. apply (f_equal zlen) in ED. unfold nd in *. zlia. }
  exists D1, X. split; [done|]. split; [done|]. rewrite app_nil_r in ED.
  rewrite ents_app. cbn [ents]. unfold ent_bytes. cbn [e_big e3]. fold e3.
  rewrite (app_assoc D1), <- ED. by rewrite <- !app_assoc.
Qed.

(** The entry after the deleted ones, in its new form, moves to the front. *)
Lemma delete_shift_spec c P q es2 big v es4 first :
  let e3 := Ent big v in let e3' := Ent (254 <=? q) v in
  let nd := prevlen_size q - prev_size big in let p := 10 + zlen P + esize es2 in
  let T := 11 + zlen P + esize es2 + ent_len e3 + esize es4 in
  T < 2 ^ 32 -> prevrawlen first = q -> zp first = 10 + zlen P -> 0 <= q < 2 ^ 32 ->
  chain q (es2 ++ e3 :: es4) -> es2 <> [] ->
  exists x over, delete_shift
      (zl_buf T (10 + zlen P + esize es2 + ent_len e3 + esize es4 - after (ent_len e3) es4) c
        (P ++ ents q (es2 ++ e3 :: es4) ++ [255])) p first (esize es2) =
    Some (zl_buf T (10 + zlen P + ent_len e3' + esize es4 - after (ent_len e3') es4) c
      ((P ++ ent_bytes q e3' ++ ents (ent_len e3) es4) ++ x :: over), nd).
Proof.
  intros e3 e3' nd p T HTb Hq Hfp Hq0 Hc Hne.
  destruct (delete_room q es2 big v es4 ltac:(lia) Hc Hne) as (D1 & X & HD1 & HX & EL).
  apply chain_app in Hc as (_ & Hp & Hv & Hc4). fold e3 in EL, Hc4. fold nd in HD1.
  set (t := 10 + zlen P + esize es2 + ent_len e3 + esize es4 - after (ent_len e3) es4).
  pose proof (zlen_nonneg P). pose proof (esize_nonneg es2). pose proof (esize_nonneg es4). pose proof (ent_len_pos e3).
  pose proof (after_bounds (e3 :: es4) 0 ltac:(done)) as Hab. cbn [after esize] in Hab.
  assert (Hdiff : zipPrevLenByteDiff (zl_buf T t c (P ++ ents q (es2 ++ e3 :: es4) ++ [255])) p q = Some nd).
  { unfold zipPrevLenByteDiff. rewrite ents_app. cbn [ents]. rewrite <- !app_assoc, (app_assoc P).
    rewrite buf_prevlensize by (unfold p; zlia || done). done. }
  unfold delete_shift. rewrite Hq, Hfp, Hdiff. cbn [mbind option_bind]. rewrite EL, <- !app_assoc, (app_assoc P).
  assert (Hbody : ent_body e3 = ent_body e3') by done.
  rewrite buf_store_prevlen by (unfold p; zlia). cbn [mbind option_bind]. rewrite Hbody.
  change (?a ++ prev_bytes q (254 <=? q) ++ ent_body e3' ++ ?y) with (a ++ prev_bytes q (e_big e3') ++ ent_body e3' ++ y).
  rewrite <- ent_bytes_prev.
  rewrite get_tail by (unfold urange, t; lia). cbn [mbind option_bind]. rewrite set_tail. cbn [mbind option_bind].
  rewrite buf_entry by (unfold p; zlia || done || by apply prev_ok_exact). cbn [mbind option_bind].
  rewrite ent_info_len by done. rewrite (app_assoc (P ++ D1)).
  assert (Hl3 : ent_len e3' = ent_len e3 + nd).
  { unfold e3', e3, nd. rewrite (ent_len_form big), prev_size_of. lia. }
  pose proof (ent_len_pos e3').
  destruct (next_byte T (t - esize es2) c ((P ++ D1) ++ ent_bytes q e3') (ent_len e3) es4 (p - nd + ent_len e3'))
    as (b & -> & Hb); [unfold p; zlia|done|].
  cbn [mbind option_bind]. rewrite Hb, get_tail by (unfold urange, t; lia). cbn [mbind option_bind].
  rewrite maybe_tail. cbn [mbind option_bind]. rewrite get_bytes by (unfold urange, T; lia). cbn [mbind option_bind].
  set (M := ent_bytes q e3' ++ ents (ent_len e3) es4).
  assert (HM : zlen M = ent_len e3' + esize es4) by (unfold M; zlia).
  destruct (zsplit3 (D1 ++ M) 0 (zlen M)) as (z & M2 & D3 & EM & Hz & HM2); [lia..|zlia|].
  apply zlen_0_nil in Hz as ->. cbn [app] in EM.
  replace (((P ++ D1) ++ ent_bytes q e3') ++ ents (ent_len e3) es4 ++ [255]) with (P ++ M2 ++ D3 ++ [255]).
  2: { rewrite (app_assoc M2), <- EM. unfold M. by rewrite <- !app_assoc. }
  rewrite (buf_move _ _ _ P M2 (D3 ++ [255]) (P ++ D1) M [255]).
  - cbn [mbind option_bind].
    assert (Hx : exists x over, D3 ++ [255] = x :: over) by (destruct D3; by eexists _, _).
    destruct Hx as (x & over & ->). exists x, over. unfold M. rewrite <- !app_assoc. do 3 f_equal.
    pose proof (tail_move (zlen P + esize es2) (- esize es2) (ent_len e3) nd es4 ltac:(lia) ltac:(lia)) as Hm.
    unfold t. destruct es4; cbn [negb esize after] in *; lia.
  - rewrite (app_assoc M2), <- EM. by rewrite <- !app_assoc.
  - done.
  - unfold p. zlia.
  - unfold p, T. zlia.
  - lia.
Qed.

Lemma zl_of_split es1 es2 c : zl_of (es1 ++ es2) c =
  zl_buf (11 + esize es1 + esize es2) (10 + esize es1 + esize es2 - after (after 0 es1) es2) c
    (ents 0 es1 ++ ents (after 0 es1) es2 ++ [255]).
Proof. unfold zl_of. rewrite esize_app, after_app, ents_app, <- !app_assoc. f_equal; lia. Qed.

Lemma zl_of_cascade es1 e es c :
  cascade_buf (ents 0 es1) (after 0 es1) e (ent_len e) es c = zl_of (es1 ++ e :: es) c.
Proof. rewrite zl_of_at. unfold cascade_buf. by rewrite zlen_ents. Qed.

Lemma length_zl_of es c : (length es < length (zl_of es c))%nat.
Proof.
  assert (zlen (zl_of es c) = 11 + esize es) as E by (unfold zl_of; zlia).
  pose proof (esize_length es). unfold zlen in *. lia.
Qed.

Lemma cnt_add_0 c : cnt_add c 0 = c.
Proof. unfold cnt_add. zcase; lia. Qed.

Lemma esize_pos es : es <> [] -> 2 <= esize es.
Proof. destruct es as [|e es]; [done|]. intros _. cbn [esize]. pose proof (ent_len_pos e). pose proof (esize_nonneg es). lia. Qed.

(** The part of a deletion before the entries move: the first entry and the scan. *)
Lemma delete_head es1 es2 es3 c num : chain 0 (es1 ++ es2 ++ es3) -> es2 ++ es3 <> [] ->
  num = zlen es2 \/ es3 = [] /\ zlen es2 <= num ->
  exists first, zipEntry (zl_of (es1 ++ es2 ++ es3) c) (10 + esize es1) = Some first /\
    prevrawlen first = after 0 es1 /\ zp first = 10 + esize es1 /\
    delete_scan (length (zl_of (es1 ++ es2 ++ es3) c)) (zl_of (es1 ++ es2 ++ es3) c) (10 + esize es1) num 0 =
      Some (10 + esize es1 + esize es2, zlen es2).
Proof.
  intros Hc Hne Hn. destruct (es2 ++ es3) as [|e1 es] eqn:E; [done|].
  exists (ent_info (after 0 es1) e1 (10 + esize es1)). split; [|split; [done|]; split; [done|]].
  - rewrite zl_of_at. apply chain_app in Hc as (_ & Hp & Hv & _). apply buf_entry; [zlia|done..].
  - rewrite <- E in *. apply chain_app in Hc as (_ & Hc). pose proof (length_zl_of (es1 ++ es2 ++ es3) c) as Hl.
    rewrite !length_app in Hl.
    pose proof (delete_scan_spec (11 + esize es1 + esize (es2 ++ es3))
      (10 + esize es1 + esize (es2 ++ es3) - after (after 0 es1) (es2 ++ es3)) c es2
      (length (zl_of (es1 ++ es2 ++ es3) c)) (ents 0 es1) (after 0 es1) es3 num 0 Hc ltac:(lia) Hn) as Hd.
    rewrite <- zl_of_split, zlen_ents in Hd. exact Hd.
Qed.

Lemma delete_write_tail es1 es2 c first : es2 <> [] -> urange 16 c -> chain 0 es1 ->
  11 + esize es1 + esize es2 < 2 ^ 32 -> prevrawlen first = after 0 es1 -> zp first = 10 + esize es1 ->
  delete_write (zl_of (es1 ++ es2) c) (10 + esize es1 + esize es2) first (esize es2) (zlen es2) =
    Some (zl_of es1 (cnt_add c (- zlen es2))).
Proof.
  intros Hne Hcu Hc1 Hcap Hq Hfp. pose proof (esize_pos es2 Hne) as Hp2. pose proof (esize_nonneg es1).
  rewrite zl_of_split. set (P := ents 0 es1). assert (HP : zlen P = esize es1) by apply zlen_ents.
  unfold delete_write. rewrite (app_assoc P), buf_end by zlia. cbn [mbind option_bind].
  change (255 =? ZIP_END) with true. cbn [negb]. rewrite set_tail. cbn [mbind option_bind].
  rewrite get_bytes by (unfold urange; lia). cbn [mbind option_bind]. rewrite <- app_assoc.
  assert (Hx : exists x over, ents (after 0 es1) es2 ++ [255] = x :: over).
  { destruct (ents (after 0 es1) es2); by eexists _, _. }
  destruct Hx as (x & over & ->). rewrite resize_cut by lia. cbn [mbind option_bind].
  rewrite incr_length by done. cbn [mbind option_bind Z.eqb negb]. rewrite Hq, Hfp. unfold zl_of. do 2 f_equal; lia.
Qed.

Lemma delete_write_mid es1 es2 e3 es4 c first : let q := after 0 es1 in
  es2 <> [] -> urange 16 c -> chain 0 es1 -> chain q (es2 ++ e3 :: es4) ->
  11 + esize es1 + ecap (es2 ++ e3 :: es4) < 2 ^ 32 -> 0 <= q < 2 ^ 32 ->
  prevrawlen first = q -> zp first = 10 + esize es1 ->
  exists es3', vals es3' = vals (e3 :: es4) /\ chain q es3' /\
    delete_write (zl_of (es1 ++ es2 ++ e3 :: es4) c) (10 + esize es1 + esize es2) first (esize es2) (zlen es2) =
      Some (zl_of (es1 ++ es3') (cnt_add c (- zlen es2))).
Proof.
  intros q Hne Hcu Hc1 Hc2 Hcap Hr Hq Hfp. destruct e3 as [big v]. set (e3 := Ent big v) in *.
  rewrite ecap_app in Hcap. cbn [ecap] in Hcap. pose proof (esize_cap es2). pose proof (esize_cap es4).
  pose proof (esize_nonneg es1). pose proof (esize_nonneg es2). pose proof (esize_nonneg es4).
  pose proof (ent_len_le e3). set (e3' := Ent (254 <=? q) v).
  assert (Hl3 : ent_len e3' = ent_len e3 + (prevlen_size q - prev_size big)).
  { unfold e3', e3. rewrite (ent_len_form big), prev_size_of. lia. }
  pose proof (ent_len_le e3') as Hl3'. change (ent_body e3') with (ent_body e3) in Hl3'.
  rewrite zl_of_split, esize_app, after_app. cbn [esize after]. fold q.
  set (P := ents 0 es1). assert (HP : zlen P = esize es1) by apply zlen_ents.
  destruct (delete_shift_spec c P q es2 big v es4 first) as (x & over & Ed);
    [fold e3; lia|done|lia|done|done|done|]. fold e3 e3' in Ed. set (nd := prevlen_size q - prev_size big) in *.
  destruct (chain_app es2 (e3 :: es4) q) as [Hca _]. destruct (Hca Hc2) as (_ & Hp3 & Hv3 & Hc4). clear Hca.
  replace (11 + esize es1 + (esize es2 + (ent_len e3 + esize es4)))
    with (11 + zlen P + esize es2 + ent_len e3 + esize es4) by lia.
  replace (10 + esize es1 + (esize es2 + (ent_len e3 + esize es4)) - after (ent_len e3) es4)
    with (10 + zlen P + esize es2 + ent_len e3 + esize es4 - after (ent_len e3) es4) by lia.
  assert (Hnend : exists b, zget (zl_buf (11 + zlen P + esize es2 + ent_len e3 + esize es4)
      (10 + zlen P + esize es2 + ent_len e3 + esize es4 - after (ent_len e3) es4) c
      (P ++ ents q (es2 ++ e3 :: es4) ++ [255])) (10 + zlen P + esize es2) = Some b /\ (b =? ZIP_END) = false).
  { rewrite ents_app. cbn [ents]. rewrite <- !app_assoc, (app_assoc P). apply buf_not_end; [zlia|done]. }
  destruct Hnend as (b & Eb & Hb). unfold delete_write. rewrite <- HP, Eb. cbn [mbind option_bind]. rewrite Hb.
  cbn [negb]. rewrite Ed. cbn [mbind option_bind]. rewrite get_bytes by (unfold urange; lia). cbn [mbind option_bind].
  rewrite resize_cut by zlia. cbn [mbind option_bind]. rewrite incr_length by done. cbn [mbind option_bind].
  destruct (maybe_cascade P q e3' (ent_len e3) es4 (cnt_add c (- zlen es2)) nd) as (es4' & Hvs & Hch & Ec);
    [lia|by apply prev_ok_exact|done|done|lia|].
  exists (e3' :: es4'). split; [unfold vals in *; cbn [map]; by rewrite Hvs|].
  split; [split_and!; [by apply prev_ok_exact|done|done]|].
  rewrite Hfp, <- HP.
  match goal with |- context [zl_buf ?a ?b ?c ?l] =>
    replace (zl_buf a b c l) with (cascade_buf P q e3' (ent_len e3) es4 c) end.
  - rewrite Ec. f_equal. apply zl_of_cascade.
  - unfold cascade_buf. rewrite <- !app_assoc. f_equal; lia.
Qed.

Lemma del_range_spec es1 es2 es3 c num : chain 0 (es1 ++ es2 ++ es3) -> cnt_ok c (es1 ++ es2 ++ es3) ->
  11 + ecap (es1 ++ es2 ++ es3) < 2 ^ 32 -> es2 ++ es3 <> [] ->
  num = zlen es2 \/ es3 = [] /\ zlen es2 <= num ->
  exists es3', vals es3' = vals es3 /\ chain (after 0 es1) es3' /\
    __ziplistDelete (zl_of (es1 ++ es2 ++ es3) c) (10 + esize es1) num =
      Some (zl_of (es1 ++ es3') (cnt_add c (- zlen es2))).
Proof.
  intros Hc Hcnt Hcap Hne Hn. destruct (delete_head es1 es2 es3 c num Hc Hne Hn) as (first & Ef & Hq & Hfp & Es).
  pose proof (cnt_ok_urange _ _ Hcnt) as Hcu. rewrite ecap_app in Hcap.
  pose proof (esize_cap es1). pose proof (esize_cap (es2 ++ es3)) as H23. rewrite esize_app in H23.
  pose proof (esize_nonneg es1). pose proof (esize_nonneg es2). pose proof (esize_nonneg es3).
  apply chain_app in Hc as (Hc1 & Hc). pose proof (chain_range es1 0 Hc1 ltac:(lia)) as Hr.
  unfold __ziplistDelete. rewrite Ef. cbn [mbind option_bind]. rewrite Es. cbn [mbind option_bind]. rewrite Hfp.
  replace (10 + esize es1 + esize es2 - (10 + esize es1)) with (esize es2) by lia.
  rewrite uwrap_small by (unfold urange; lia).
  destruct (decide (es2 = [])) as [->|Hne2].
  { exists es3. change (zlen (@nil zent)) with 0. change (- 0) with 0. rewrite cnt_add_0. done. }
  pose proof (esize_pos es2 Hne2). rewrite (proj2 (Z.ltb_lt 0 (esize es2))) by lia.
  destruct es3 as [|e3 es4].
  - exists []. rewrite !app_nil_r in *. split; [done|]. split; [done|]. apply delete_write_tail; lia || done.
  - apply delete_write_mid; lia || done.
Qed.

(** * Reading *)

Section reading.
Context (es1 : list zent) (e : zent) (es2 : list zent) (c : Z).
Context (Hc : chain 0 (es1 ++ e :: es2)).

Lemma at_ok : prev_ok (after 0 es1) (e_big e) /\ val_ok (e_val e).
Proof using Hc. apply chain_app in Hc as (_ & Hp & Hv & _). done. Qed.

Lemma at_byte : exists b, zget (zl_of (es1 ++ e :: es2) c) (10 + esize es1) = Some b /\ (b =? ZIP_END) = false.
Proof using Hc. rewrite zl_of_at. apply buf_not_end; [zlia|apply at_ok]. Qed.

Lemma at_length : zipRawEntryLength (zl_of (es1 ++ e :: es2) c) (10 + esize es1) = Some (ent_len e).
Proof using Hc. rewrite zl_of_at. apply buf_raw_length; [zlia|apply at_ok..]. Qed.

Lemma at_prevlen : ZIP_DECODE_PREVLEN (zl_of (es1 ++ e :: es2) c) (10 + esize es1) =
  Some (prev_size (e_big e), after 0 es1).
Proof using Hc. rewrite zl_of_at. apply buf_prevlen; [zlia|apply at_ok]. Qed.

Lemma at_prevlensize : ZIP_DECODE_PREVLENSIZE (zl_of (es1 ++ e :: es2) c) (10 + esize es1) = Some (prev_size (e_big e)).
Proof using Hc. rewrite zl_of_at. apply buf_prevlensize; [zlia|apply at_ok]. Qed.

Lemma at_entry : zipEntry (zl_of (es1 ++ e :: es2) c) (10 + esize es1) = Some (ent_info (after 0 es1) e (10 + esize es1)).
Proof using Hc. rewrite zl_of_at. apply buf_entry; [zlia|apply at_ok..]. Qed.

(** The block cut at the header and at the data of the entry. *)
Lemma at_split : exists pre post, zl_of (es1 ++ e :: es2) c = pre ++ val_header (e_val e) ++ val_data (e_val e) ++ post /\
  zlen pre = 10 + esize es1 + prev_size (e_big e).
Proof using Type.
  rewrite zl_of_at, zl_buf_split, ent_bytes_split. eexists _, _. split; [done|]. zlia.
Qed.

Lemma at_decode : ZIP_DECODE_LENGTH (zl_of (es1 ++ e :: es2) c) (10 + esize es1 + prev_size (e_big e)) =
  Some (val_enc (e_val e), zlen (val_header (e_val e)), zlen (val_data (e_val e))).
Proof using Hc.
  destruct at_split as (pre & post & -> & Hp). apply decode_length; [done|apply at_ok].
Qed.

(** The data of an entry, as a string or as an integer. *)
Lemma at_data : let q := 10 + esize es1 + prev_size (e_big e) + zlen (val_header (e_val e)) in
  match e_val e with
  | VStr s => zsub (zl_of (es1 ++ e :: es2) c) q (zlen s) = Some s
  | VInt enc v => zipLoadInteger (zl_of (es1 ++ e :: es2) c) q enc = Some v
  end.
Proof using Hc.
  intros q. destruct at_ok as [_ Hv]. destruct at_split as (pre & post & -> & Hp). unfold q.
  destruct (e_val e) as [s|enc v]; cbn [val_header val_data] in *; rewrite (app_assoc pre).
  - apply zsub_app; [zlia|done].
  - apply load_integer; [zlia|done].
Qed.
End reading.

Lemma at_end es c : zget (zl_of es c) (10 + esize es) = Some 255.
Proof. apply buf_end. zlia. Qed.

(** The byte at an offset tells the end from an entry. *)
Lemma at_any es1 es2 c : chain 0 (es1 ++ es2) ->
  exists b, zget (zl_of (es1 ++ es2) c) (10 + esize es1) = Some b /\
    (b =? ZIP_END) = match es2 with [] => true | _ => false end.
Proof.
  intros Hc. destruct es2 as [|e es2].
  - exists 255. rewrite app_nil_r. split; [apply at_end|done].
  - by apply at_byte.
Qed.

Lemma zl_tail es c : chain 0 es -> 11 + ecap es < 2 ^ 32 ->
  ZIPLIST_TAIL_OFFSET (zl_of es c) = Some (10 + esize es - after 0 es).
Proof.
  intros Hc Hcap. apply get_tail. pose proof (esize_cap es). pose proof (after_nonneg es 0 ltac:(lia)).
  pose proof (after_prev_le 0 es ltac:(lia)). unfold urange. lia.
Qed.

Lemma zl_bytes es c : 11 + ecap es < 2 ^ 32 -> ZIPLIST_BYTES (zl_of es c) = Some (11 + esize es).
Proof. intros. apply get_bytes. pose proof (esize_cap es). pose proof (esize_nonneg es). unfold urange. lia. Qed.

(** ** Values *)

Definition get_val (v : zval) : zlval := match v with VStr s => ZStr s | VInt _ v => ZInt v end.

Lemma get_spec es1 e es2 c : chain 0 (es1 ++ e :: es2) ->
  ziplistGet (zl_of (es1 ++ e :: es2) c) (Some (10 + esize es1)) = Some (Some (get_val (e_val e))).
Proof.
  intros Hc. unfold ziplistGet. destruct (at_byte es1 e es2 c Hc) as (b & -> & Hb). cbn [mbind option_bind].
  rewrite Hb, at_entry by done. cbn [mbind option_bind ent_info encoding headersize len].
  destruct (at_ok es1 e es2 Hc) as [_ Hv]. pose proof (at_data es1 e es2 c Hc) as Hd. cbv zeta in Hd.
  rewrite is_str_val, Z.add_assoc by done.
  destruct (e_val e) as [s|enc v]; cbn [val_data val_enc get_val] in *; rewrite Hd; done.
Qed.

Lemma compare_spec es1 e es2 c s : chain 0 (es1 ++ e :: es2) ->
  ziplistCompare (zl_of (es1 ++ e :: es2) c) (10 + esize es1) s = Some (bool_decide (val_bytes (e_val e) = s)).
Proof.
  intros Hc. unfold ziplistCompare. destruct (at_byte es1 e es2 c Hc) as (b & -> & Hb). cbn [mbind option_bind].
  rewrite Hb, at_entry by done. cbn [mbind option_bind ent_info encoding headersize len].
  destruct (at_ok es1 e es2 Hc) as [_ Hv]. pose proof (at_data es1 e es2 c Hc) as Hd. cbv zeta in Hd.
  rewrite is_str_val, Z.add_assoc by done.
  destruct (e_val e) as [s'|enc v]; cbn [val_data val_enc val_bytes val_ok] in *.
  - destruct (Z.eqb_spec (zlen s') (zlen s)) as [E|E].
    + rewrite <- E, Hd. cbn [mbind option_bind]. f_equal. apply memcmp_eq. unfold zlen in E. lia.
    + f_equal. symmetry. apply bool_decide_eq_false. congruence.
  - rewrite <- (int_compare enc v s Hv). destruct (zipTryEncoding s) as [[w e']|]; [|done]. by rewrite Hd.
Qed.

(** ** Searching *)

(** The position, from the first entry on, of the entry [ziplistFind] stops at: it compares one
    entry, then skips [skip] of them. *)
Fixpoint find_pos (vs : list zval) (s : bytes) (skip cnt : Z) : option nat :=
  match vs with
  | [] => None
  | v :: vs =>
      if cnt =? 0 then
        if bool_decide (val_bytes v = s) then Some 0%nat else S <$> find_pos vs s skip skip
      else S <$> find_pos vs s skip (cnt - 1)
  end.

(** What the cached encoding of the searched string may be. *)
Definition find_cache (s : bytes) (venc vll : Z) : Prop :=
  venc = 0 \/ match zipTryEncoding s with Some (v, e) => venc = e /\ vll = v | None => venc = UCHAR_MAX end.

Lemma find_cache_fill s venc vll : find_cache s venc vll ->
  exists venc' vll',
    (if venc =? 0 then match zipTryEncoding s with Some (v, e) => (v, e) | None => (vll, UCHAR_MAX) end
     else (vll, venc)) = (vll', venc') /\ find_cache s venc' vll' /\ (venc' =? 0) = false /\
    (venc' =? UCHAR_MAX) = match zipTryEncoding s with Some _ => false | None => true end /\
    match zipTryEncoding s with Some (v, _) => vll' = v | None => True end.
Proof.
  intros Hf.
  assert (He : forall v e, zipTryEncoding s = Some (v, e) -> (e =? 0) = false /\ (e =? UCHAR_MAX) = false).
  { intros v e E. apply try_encoding_sound in E as (_ & _ & _ & Hok).
    destruct (int_enc_spec _ _ Hok) as (H1 & H2 & _). unfold ZIP_STR_MASK, UCHAR_MAX in *. lia. }
  destruct (Z.eqb_spec venc 0) as [->|Hne].
  - destruct (zipTryEncoding s) as [[v e]|] eqn:E.
    + exists e, v. destruct (He v e eq_refl). split_and!; try done. right. by rewrite E.
    + exists UCHAR_MAX, vll. split_and!; try done. right. by rewrite E.
  - exists venc, vll. destruct Hf as [?|Hf]; [done|]. destruct (zipTryEncoding s) as [[v e]|] eqn:E.
    + destruct Hf as [-> ->]. destruct (He v e eq_refl). split_and!; try done. right. by rewrite E.
    + subst venc. split_and!; try done. right. by rewrite E.
Qed.

Lemma find_loop_spec s skip es2 : forall es1 fuel c cnt venc vll,
  chain 0 (es1 ++ es2) -> (length es2 < fuel)%nat -> find_cache s venc vll ->
  find_loop fuel (zl_of (es1 ++ es2) c) (10 + esize es1) s skip cnt venc vll =
    Some ((fun j => 10 + esize es1 + esize (take j es2)) <$> find_pos (vals es2) s skip cnt).
Proof.
  induction es2 as [|e es2 IH]; intros es1 fuel c cnt venc vll Hc Hf Hcache;
    (destruct fuel as [|fuel]; [simpl in Hf; lia|]); cbn [find_loop].
  - destruct (at_any es1 [] c Hc) as (b & -> & Hb). cbn [mbind option_bind]. by rewrite Hb.
  - destruct (at_byte es1 e es2 c Hc) as (b & -> & Hb). cbn [mbind option_bind].
    rewrite Hb, at_prevlensize by done. cbn [mbind option_bind]. rewrite at_decode by done. cbn [mbind option_bind].
    destruct (at_ok es1 e es2 Hc) as [_ Hv]. pose proof (at_data es1 e es2 c Hc) as Hd. cbv zeta in Hd.
    rewrite is_str_val by done.
    assert (Hnext : forall skipcnt venc vll, find_cache s venc vll ->
      find_loop fuel (zl_of (es1 ++ e :: es2) c) (10 + esize es1 + prev_size (e_big e) + zlen (val_header (e_val e)) +
        zlen (val_data (e_val e))) s skip skipcnt venc vll =
      Some ((fun j => 10 + esize es1 + esize (take j (e :: es2))) <$> (S <$> find_pos (vals es2) s skip skipcnt))).
    { intros skipcnt venc' vll' Hcache'. specialize (IH (es1 ++ [e]) fuel c skipcnt venc' vll').
      rewrite <- app_assoc in IH. cbn [app] in IH. specialize (IH Hc ltac:(simpl in Hf; lia) Hcache').
      rewrite esize_app in IH. cbn [esize] in IH.
      replace (10 + esize es1 + prev_size (e_big e) + zlen (val_header (e_val e)) + zlen (val_data (e_val e)))
        with (10 + (esize es1 + (ent_len e + 0))) by (unfold ent_len, ent_body; zlia).
      rewrite IH. f_equal. destruct (find_pos (vals es2) s skip skipcnt) as [j|]; [|done]. cbn. f_equal. lia. }
    cbn [vals map find_pos]. fold (vals es2).
    destruct (cnt =? 0); [|by apply Hnext].
    destruct (e_val e) as [s'|enc v]; cbn [val_data val_enc val_bytes val_ok] in *.
    + assert (Hsame : (if zlen s' =? zlen s then
          b ← zsub (zl_of (es1 ++ e :: es2) c) (10 + esize es1 + prev_size (e_big e) + zlen (val_header (VStr s'))) (zlen s);
          Some (memcmp b s =? 0) else Some false) = Some (bool_decide (s' = s))).
      { destruct (Z.eqb_spec (zlen s') (zlen s)) as [E|E].
        - rewrite <- E, Hd. cbn [mbind option_bind]. f_equal. apply memcmp_eq. unfold zlen in E. lia.
        - f_equal. symmetry. apply bool_decide_eq_false. congruence. }
      rewrite Hsame. cbn [mbind option_bind]. destruct (bool_decide (s' = s)); [cbn; by rewrite Z.add_0_r|by apply Hnext].
    + destruct (find_cache_fill s venc vll Hcache) as (venc' & vll' & E & Hc' & H0 & Hmax & Hval).
      rewrite E, H0, Hmax, <- (int_compare enc v s Hv). rewrite Hd. cbn [mbind option_bind].
      destruct (zipTryEncoding s) as [[w e']|]; cbn [negb mbind option_bind]; [|by apply Hnext].
      rewrite Hval. destruct (v =? w); [cbn; by rewrite Z.add_0_r|]. rewrite <- Hval. by apply Hnext.
Qed.

(** ** Moving through the list *)

(** The offset of the entry at an index, which counts from the end when it is negative. *)
Definition zl_index (es : list zent) (index : Z) : option Z :=
  let i := if index <? 0 then zlen es + index else index in
  if (0 <=? i) && (i <? zlen es) then Some (zl_at es (Z.to_nat i)) else None.

Lemma index_forward_spec c es2 : forall es1 fuel i,
  chain 0 (es1 ++ es2) -> (length es2 < fuel)%nat -> 0 <= i ->
  index_forward fuel (zl_of (es1 ++ es2) c) (10 + esize es1) i =
    Some (10 + esize es1 + esize (take (Z.to_nat i) es2), if i <? zlen es2 then -1 else i - zlen es2).
Proof.
  induction es2 as [|e es2 IH]; intros es1 fuel i Hc Hf Hi;
    (destruct fuel as [|fuel]; [simpl in Hf; lia|]); cbn [index_forward].
  - destruct (at_any es1 [] c Hc) as (b & -> & Hb). cbn [mbind option_bind]. rewrite Hb, take_nil.
    change (zlen (@nil zent)) with 0. zdec. cbn [esize]. by rewrite Z.add_0_r, Z.sub_0_r.
  - destruct (at_byte es1 e es2 c Hc) as (b & -> & Hb). cbn [mbind option_bind]. rewrite Hb, zlen_cons.
    pose proof (zlen_nonneg es2).
    destruct (Z.eqb_spec i 0) as [->|Hne].
    { zdec. cbn [Z.to_nat take esize]. by rewrite Z.add_0_r. }
    rewrite at_length by done. cbn [mbind option_bind].
    specialize (IH (es1 ++ [e]) fuel (i - 1)). rewrite <- app_assoc in IH. cbn [app] in IH.
    specialize (IH Hc ltac:(simpl in Hf; lia) ltac:(lia)). rewrite esize_app in IH. cbn [esize] in IH.
    replace (10 + (esize es1 + (ent_len e + 0))) with (10 + esize es1 + ent_len e) in IH by lia. rewrite IH.
    replace (Z.to_nat i) with (S (Z.to_nat (i - 1))) by lia. cbn [take esize].
    f_equal. f_equal; [lia|]. destruct (Z.ltb_spec (i - 1) (zlen es2)), (Z.ltb_spec i (1 + zlen es2)); lia.
Qed.

Lemma index_back_spec c es1 : forall e es2 fuel i,
  chain 0 (es1 ++ e :: es2) -> (length es1 < fuel)%nat -> 0 <= i ->
  index_back fuel (zl_of (es1 ++ e :: es2) c) (10 + esize es1) (after 0 es1) i =
    Some (10 + esize (take (length es1 - Z.to_nat i) es1),
      if i <? zlen es1 then -1 else i - zlen es1).
Proof.
  induction es1 as [|e1 es1 IH] using rev_ind; intros e es2 fuel i Hc Hf Hi;
    (destruct fuel as [|fuel]; [simpl in Hf; lia|]); cbn [index_back].
  - cbn [after]. rewrite (proj2 (Z.ltb_ge 0 0)) by lia. cbn [negb]. rewrite take_nil.
    change (zlen (@nil zent)) with 0. zdec. by rewrite Z.sub_0_r.
  - rewrite after_app. cbn [after]. pose proof (ent_len_pos e1). rewrite (proj2 (Z.ltb_lt 0 _)) by lia. cbn [negb].
    rewrite zlen_app, length_app. change (zlen [e1]) with 1. pose proof (zlen_nonneg es1).
    destruct (Z.eqb_spec i 0) as [->|Hne].
    { rewrite take_ge by (rewrite length_app; lia). by zdec. }
    rewrite <- app_assoc in *. cbn [app] in *.
    replace (10 + esize (es1 ++ [e1]) - ent_len e1) with (10 + esize es1) by (rewrite esize_app; cbn [esize]; lia).
    rewrite at_prevlen by done. cbn [mbind option_bind].
    rewrite length_app in Hf. simpl in Hf. rewrite IH by (done || lia). simpl length.
    f_equal. f_equal.
    + do 2 f_equal. rewrite take_app_le by lia. f_equal. lia.
    + destruct (Z.ltb_spec (i - 1) (zlen es1)), (Z.ltb_spec i (zlen es1 + 1)); lia.
Qed.

(** The entry at an offset of the list. *)
Lemma zl_at_split es i : (i < length es)%nat -> exists es1 e es2, es = es1 ++ e :: es2 /\
  length es1 = i /\ zl_at es i = 10 + esize es1 /\ es !! i = Some e.
Proof.
  intros Hi. destruct (lookup_lt_is_Some_2 es i Hi) as [e He].
  exists (take i es), e, (drop (S i) es). split; [by rewrite take_drop_middle|].
  split; [rewrite length_take; lia|]. done.
Qed.

Lemma index_spec es c index : chain 0 es -> 11 + ecap es < 2 ^ 32 -> index <> INT32_MIN ->
  ziplistIndex (zl_of es c) index = Some (zl_index es index).
Proof.
  intros Hc Hcap Hmin. unfold ziplistIndex, zl_index. rewrite (proj2 (Z.eqb_neq _ _)) by done.
  pose proof (zlen_nonneg es). pose proof (length_zl_of es c) as Hl.
  destruct (Z.ltb_spec index 0).
  - unfold ZIPLIST_ENTRY_TAIL. rewrite zl_tail by done. cbn [mbind option_bind].
    destruct es as [|e es _] using rev_ind.
    { rewrite (at_end []). cbn [mbind option_bind]. change (255 =? ZIP_END) with true. cbn [negb mbind option_bind].
      rewrite (at_end []). cbn [mbind option_bind]. change (zlen (@nil zent)) with 0.
      by rewrite (proj2 (Z.leb_gt 0 (0 + index))) by lia. }
    rewrite esize_app, after_app. cbn [esize after].
    replace (10 + (esize es + (ent_len e + 0)) - ent_len e) with (10 + esize es) by lia.
    destruct (at_byte es e [] c Hc) as (b & -> & Hb). cbn [mbind option_bind]. rewrite Hb. cbn [negb].
    rewrite at_prevlen by done. cbn [mbind option_bind]. rewrite length_app in Hl.
    rewrite index_back_spec by (done || lia). cbn [mbind option_bind]. rewrite zlen_app. change (zlen [e]) with 1.
    pose proof (take_drop (length es - Z.to_nat (- index - 1)) es) as Htd.
    set (k := (length es - Z.to_nat (- index - 1))%nat) in *.
    destruct (at_any (take k es) (drop k es ++ [e]) c) as (b2 & Eb2 & Hb2); [by rewrite app_assoc, Htd|].
    rewrite app_assoc, Htd in Eb2. rewrite Eb2. cbn [mbind option_bind].
    rewrite Hb2. replace (match drop k es ++ [e] with [] => true | _ => false end) with false by (by destruct (drop k es)).
    cbn [orb]. pose proof (zlen_nonneg es). unfold zlen in *.
    destruct (Z.leb_spec 0 (Z.of_nat (length es) + 1 + index)); cbn [andb].
    + rewrite (proj2 (Z.ltb_lt (Z.of_nat (length es) + 1 + index) _)) by lia.
      replace (0 <? _) with false by (symmetry; apply Z.ltb_ge; zcase; lia).
      unfold zl_at. rewrite take_app_le by lia. do 5 f_equal. lia.
    + zdec. by rewrite (proj2 (Z.ltb_lt 0 _)) by lia.
  - pose proof (index_forward_spec c es [] (length (zl_of es c)) index Hc ltac:(lia) ltac:(lia)) as E.
    cbn [app esize] in E. change (10 + 0) with ZIPLIST_ENTRY_HEAD in E. rewrite E. cbn [mbind option_bind].
    unfold ZIPLIST_ENTRY_HEAD, ZIPLIST_HEADER_SIZE.
    destruct (at_any (take (Z.to_nat index) es) (drop (Z.to_nat index) es) c) as (b & Eb & Hb); [by rewrite take_drop|].
    rewrite take_drop in Eb. rewrite Eb. cbn [mbind option_bind]. rewrite Hb.
    rewrite (proj2 (Z.leb_le 0 index)) by lia. cbn [andb].
    destruct (Z.ltb_spec index (zlen es)).
    + destruct (drop (Z.to_nat index) es) eqn:Ed; [|done].
      apply (f_equal length) in Ed. rewrite length_drop in Ed. unfold zlen in *. simpl in Ed. lia.
    + by rewrite drop_ge by (unfold zlen in *; lia).
Qed.

Lemma next_spec es1 e es2 c : chain 0 (es1 ++ e :: es2) ->
  ziplistNext (zl_of (es1 ++ e :: es2) c) (10 + esize es1) =
    Some (match es2 with [] => None | _ => Some (10 + esize (es1 ++ [e])) end).
Proof.
  intros Hc. unfold ziplistNext. destruct (at_byte es1 e es2 c Hc) as (b & -> & Hb). cbn [mbind option_bind].
  rewrite Hb, at_length by done. cbn [mbind option_bind].
  destruct (at_any (es1 ++ [e]) es2 c) as (b2 & Eb & Hb2); [by rewrite <- app_assoc|].
  rewrite <- app_assoc in Eb. cbn [app] in Eb. rewrite esize_app in *. cbn [esize] in *.
  replace (10 + (esize es1 + (ent_len e + 0))) with (10 + esize es1 + ent_len e) in * by lia.
  rewrite Eb. cbn [mbind option_bind]. rewrite Hb2. by destruct es2.
Qed.

Lemma prev_spec es1 e es2 c : chain 0 (es1 ++ e :: es2) ->
  ziplistPrev (zl_of (es1 ++ e :: es2) c) (10 + esize es1) =
    Some (match es1 with [] => None | _ => Some (10 + esize es1 - after 0 es1) end).
Proof.
  intros Hc. unfold ziplistPrev. destruct (at_byte es1 e es2 c Hc) as (b & -> & Hb). cbn [mbind option_bind].
  rewrite Hb. destruct es1 as [|e1 es1]; [done|]. pose proof (esize_pos (e1 :: es1) ltac:(done)).
  unfold ZIPLIST_ENTRY_HEAD, ZIPLIST_HEADER_SIZE. rewrite (proj2 (Z.eqb_neq _ 10)) by lia.
  rewrite at_prevlen by done. cbn [mbind option_bind].
  pose proof (after_bounds (e1 :: es1) 0 ltac:(done)). rewrite (proj2 (Z.ltb_lt 0 _)) by lia. done.
Qed.

Lemma prev_end_spec es c : chain 0 es -> 11 + ecap es < 2 ^ 32 ->
  ziplistPrev (zl_of es c) (10 + esize es) =
    Some (match es with [] => None | _ => Some (10 + esize es - after 0 es) end).
Proof.
  intros Hc Hcap. unfold ziplistPrev. rewrite at_end. cbn [mbind option_bind]. change (255 =? ZIP_END) with true. cbn [negb].
  unfold ZIPLIST_ENTRY_TAIL. rewrite zl_tail by done. cbn [mbind option_bind].
  destruct es as [|e es _] using rev_ind; [by rewrite (at_end [])|].
  rewrite esize_app, after_app. cbn [esize after].
  replace (10 + (esize es + (ent_len e + 0)) - ent_len e) with (10 + esize es) by lia.
  destruct (at_byte es e [] c Hc) as (b & -> & Hb). cbn [mbind option_bind]. rewrite Hb. by destruct es.
Qed.

Lemma len_loop_spec c es2 : forall es1 fuel n,
  chain 0 (es1 ++ es2) -> (length es2 < fuel)%nat ->
  len_loop fuel (zl_of (es1 ++ es2) c) (10 + esize es1) n = Some (n + zlen es2).
Proof.
  induction es2 as [|e es2 IH]; intros es1 fuel n Hc Hf;
    (destruct fuel as [|fuel]; [simpl in Hf; lia|]); cbn [len_loop].
  - destruct (at_any es1 [] c Hc) as (b & -> & Hb). cbn [mbind option_bind]. rewrite Hb.
    change (zlen (@nil zent)) with 0. by rewrite Z.add_0_r.
  - destruct (at_byte es1 e es2 c Hc) as (b & -> & Hb). cbn [mbind option_bind]. rewrite Hb, at_length by done.
    cbn [mbind option_bind]. specialize (IH (es1 ++ [e]) fuel (n + 1)). rewrite <- app_assoc in IH. cbn [app] in IH.
    specialize (IH Hc ltac:(simpl in Hf; lia)). rewrite esize_app in IH. cbn [esize] in IH.
    replace (10 + (esize es1 + (ent_len e + 0))) with (10 + esize es1 + ent_len e) in IH by lia.
    rewrite IH, zlen_cons. f_equal. lia.
Qed.

Lemma zl_length es c : urange 16 c -> ZIPLIST_LENGTH (zl_of es c) = Some c.
Proof. apply get_length. Qed.

Lemma len_spec es c : chain 0 es -> cnt_ok c es -> exists c', cnt_ok c' es /\
  ziplistLen (zl_of es c) = Some (zl_of es c', zlen es).
Proof.
  intros Hc Hcnt. unfold ziplistLen. rewrite zl_length by (eapply cnt_ok_urange; done).
  cbn [mbind option_bind]. destruct (Z.ltb_spec c UINT16_MAX).
  { exists c. split; [done|]. destruct Hcnt as [->|[-> _]]; [lia|done]. }
  pose proof (len_loop_spec c es [] (length (zl_of es c)) 0 Hc (length_zl_of es c)) as E.
  cbn [app esize] in E. change (10 + 0) with ZIPLIST_HEADER_SIZE in E. rewrite E. cbn [mbind option_bind].
  rewrite Z.add_0_l. destruct (Z.ltb_spec (zlen es) UINT16_MAX).
  - exists (zlen es). split; [by right|]. unfold zl_of at 1. rewrite set_length. done.
  - by exists c.
Qed.

(** * Merging *)

Lemma merge_copy es1 es2 c1 c2 (append : bool) :
  let '(target, target_bytes, source, source_bytes) :=
    if append then (zl_of es1 c1, 11 + esize es1, zl_of es2 c2, 11 + esize es2)
    else (zl_of es2 c2, 11 + esize es2, zl_of es1 c1, 11 + esize es1) in
  let target := zresize target (11 + esize es1 + esize es2) in
  exists T t c,
    (if append then
       b ← zsub source ZIPLIST_HEADER_SIZE (source_bytes - ZIPLIST_HEADER_SIZE);
       zput target (target_bytes - ZIPLIST_END_SIZE) b
     else
       target ← zmove target (source_bytes - ZIPLIST_END_SIZE) ZIPLIST_HEADER_SIZE
                  (target_bytes - ZIPLIST_HEADER_SIZE);
       b ← zsub source 0 (source_bytes - ZIPLIST_END_SIZE);
       zput target 0 b) = Some (zl_buf T t c (ents 0 es1 ++ ents 0 es2 ++ [255])).
Proof.
  pose proof (esize_nonneg es1). pose proof (esize_nonneg es2). unfold ZIPLIST_HEADER_SIZE, ZIPLIST_END_SIZE.
  destruct append; cbv zeta.
  - destruct (zresize_grow (zl_of es1 c1) (11 + esize es1 + esize es2)) as (pad & -> & Hp); [unfold zl_of; zlia|].
    unfold zl_of in *. eexists _, _, _. rewrite (zl_buf_hdr _ _ c2), <- (app_nil_r (ents 0 es2 ++ [255])).
    rewrite zsub_app by zlia. cbn [mbind option_bind].
    match goal with |- zput (zl_buf ?T ?t ?c (?x ++ [255]) ++ pad) _ _ = _ =>
      replace (zl_buf T t c (x ++ [255]) ++ pad) with ((zl_hdr T t c ++ x) ++ ([255] ++ pad) ++ [])
        by (rewrite zl_buf_split, app_nil_r, <- !app_assoc; done) end.
    rewrite zput_app by zlia. rewrite app_nil_r, <- zl_buf_split. done.
  - destruct (zresize_grow (zl_of es2 c2) (11 + esize es1 + esize es2)) as (pad & -> & Hp); [unfold zl_of; zlia|].
    unfold zl_of in *. set (h2 := zl_hdr (11 + esize es2) (10 + esize es2 - after 0 es2) c2).
    destruct (zsplit3 ((ents 0 es2 ++ [255]) ++ pad) 0 (esize es1)) as (z & X & D2 & E & Hz & HX); [zlia..|].
    apply zlen_0_nil in Hz as ->. cbn [app] in E.
    rewrite (zl_buf_hdr _ _ c2). fold h2. assert (Hh2 : zlen h2 = 10) by apply zlen_zl_hdr.
    rewrite (zmove_split _ (h2 ++ X) D2 [] h2 (ents 0 es2 ++ [255]) pad).
    + exists (11 + esize es1), (10 + esize es1 - after 0 es1), c1. cbn [mbind option_bind].
      rewrite !zl_buf_split, zsub_app0 by zlia. cbn [mbind option_bind]. rewrite app_nil_r. apply zput_app0. zlia.
    + rewrite app_nil_r. transitivity (h2 ++ (X ++ D2)); [rewrite <- E|]; by rewrite <- !app_assoc.
    + by rewrite <- !app_assoc.
    + zlia.
    + lia.
    + zlia.
    + apply (f_equal zlen) in E. zlia.
Qed.

Definition merge_cnt (c1 c2 : Z) : Z := if c1 + c2 <? UINT16_MAX then c1 + c2 else UINT16_MAX.

Lemma merge_cnt_ok c1 c2 es1 es2 es : cnt_ok c1 es1 -> cnt_ok c2 es2 -> zlen es = zlen es1 + zlen es2 ->
  cnt_ok (merge_cnt c1 c2) es.
Proof.
  unfold cnt_ok, merge_cnt, UINT16_MAX. pose proof (zlen_nonneg es1). pose proof (zlen_nonneg es2).
  intros H1 H2 ->. destruct (Z.ltb_spec (c1 + c2) 65535); [right; lia|by left].
Qed.

(** The block before the cascade, and where the cascade starts. *)
Lemma merge_write es1 es2 c1 c2 : cnt_ok c1 es1 -> cnt_ok c2 es2 -> chain 0 es1 -> chain 0 es2 ->
  11 + ecap es1 + ecap es2 < 2 ^ 32 ->
  ziplistMerge (Some (zl_of es1 c1)) (Some (zl_of es2 c2)) false =
    (target ← __ziplistCascadeUpdate (zl_buf (11 + esize es1 + esize es2) (10 + esize es1 + esize es2 - after 0 es2)
        (merge_cnt c1 c2) (ents 0 es1 ++ ents 0 es2 ++ [255])) (10 + esize es1 - after 0 es1);
     Some (Some (target, c2 <=? c1))).
Proof.
  intros Hk1 Hk2 Hc1 Hc2 Hcap.
  assert (Hp1 : 0 <= ecap es1) by (pose proof (esize_cap es1); pose proof (esize_nonneg es1); lia).
  assert (Hp2 : 0 <= ecap es2) by (pose proof (esize_cap es2); pose proof (esize_nonneg es2); lia).
  unfold ziplistMerge. rewrite !zl_bytes by lia. cbn [mbind option_bind].
  rewrite !zl_length by (eapply cnt_ok_urange; done). cbn [mbind option_bind].
  rewrite !zl_tail by (done || lia). cbn [mbind option_bind].
  pose proof (merge_copy es1 es2 c1 c2 (c2 <=? c1)) as Hm. unfold ZIPLIST_HEADER_SIZE, ZIPLIST_END_SIZE in *.
  replace (11 + esize es1 + (11 + esize es2) - 10 - 1) with (11 + esize es1 + esize es2) by lia.
  destruct (c2 <=? c1); destruct Hm as (T & t & c & ->); cbn [mbind option_bind];
    rewrite set_bytes; cbn [mbind option_bind]; rewrite set_length; cbn [mbind option_bind];
    rewrite set_tail; cbn [mbind option_bind]; fold (merge_cnt c1 c2).
  all: replace (11 + esize es1 - 1 + (10 + esize es2 - after 0 es2 - 10))
    with (10 + esize es1 + esize es2 - after 0 es2) by lia; done.
Qed.

(** Merging with a second list that is not empty. *)
Lemma merge_spec es1 e2 es2 c1 c2 : cnt_ok c1 es1 -> cnt_ok c2 (e2 :: es2) -> chain 0 es1 -> chain 0 (e2 :: es2) ->
  11 + ecap es1 + ecap (e2 :: es2) < 2 ^ 32 ->
  exists es, vals es = vals (es1 ++ e2 :: es2) /\ chain 0 es /\ cnt_ok (merge_cnt c1 c2) es /\
    ziplistMerge (Some (zl_of es1 c1)) (Some (zl_of (e2 :: es2) c2)) false =
      Some (Some (zl_of es (merge_cnt c1 c2), c2 <=? c1)).
Proof.
  intros Hk1 Hk2 Hc1 Hc2 Hcap. rewrite merge_write by done. set (c := merge_cnt c1 c2).
  assert (Hcnt : forall es, vals es = vals (es1 ++ e2 :: es2) -> cnt_ok c es).
  { intros es He. apply (merge_cnt_ok _ _ es1 (e2 :: es2)); [done..|].
    rewrite <- (zlen_vals es), He, zlen_vals. apply zlen_app. }
  destruct es1 as [|e1 es1 _] using rev_ind.
  - cbn [ecap] in Hcap. destruct Hc2 as (Hp & Hv & Hc2).
    destruct (cascade_spec es2 [] 0 e2 (ent_len e2) c) as (es' & Hvs & Hch & E); [done..| |].
    { pose proof (ent_len_le e2). change (zlen (@nil Z)) with 0. cbn [ecap] in Hcap. lia. }
    exists (e2 :: es'). assert (Hvals : vals (e2 :: es') = vals (e2 :: es2)) by (unfold vals in *; cbn [map]; by rewrite Hvs).
    split; [done|]. split; [done|]. split; [by apply Hcnt|].
    pose proof (zl_of_cascade [] e2 es' c) as F. cbn [ents after app] in F. rewrite F in E.
    pose proof (zl_of_cascade [] e2 es2 c) as F2. cbn [ents after app] in F2. rewrite F2 in E.
    cbn [ents esize after app] in *. change (10 + 0 - 0) with (10 + zlen (@nil Z)).
    replace (zl_buf _ _ _ _) with (zl_of (e2 :: es2) c) by (unfold zl_of; cbn [ents esize after]; rewrite <- app_assoc; f_equal; lia).
    rewrite E. done.
  - rewrite ecap_app in Hcap. cbn [ecap] in Hcap. apply chain_app in Hc1 as (Hc0 & Hp & Hv & _).
    pose proof (ent_len_le e1). pose proof (esize_cap es1). pose proof (ecap_app [e2] es2) as Hca.
    destruct (cascade_spec (e2 :: es2) (ents 0 es1) (after 0 es1) e1 0 c) as (es' & Hvs & Hch & E); [done..| |].
    { rewrite zlen_ents. cbn [ecap]. lia. }
    exists (es1 ++ e1 :: es').
    assert (Hvals : vals (es1 ++ e1 :: es') = vals ((es1 ++ [e1]) ++ e2 :: es2)).
    { rewrite <- app_assoc. unfold vals in *. rewrite !map_app. cbn [map app]. by rewrite Hvs. }
    split; [done|]. split; [by apply chain_app|]. split; [by apply Hcnt|].
    rewrite zl_of_cascade in E. rewrite zlen_ents in E. unfold cascade_buf in E.
    rewrite ents_app, after_app, esize_app. cbn [ents after esize]. rewrite zlen_ents in E. cbn [after esize] in E.
    match goal with |- context [__ziplistCascadeUpdate ?b ?p] =>
      match type of E with __ziplistCascadeUpdate ?b' ?p' = _ => replace b with b'; [replace p with p' by lia|] end end.
    + by rewrite E.
    + cbn [ents]. rewrite app_nil_r, <- !app_assoc. f_equal; lia.
Qed.

(** * The theorems *)

(** Bytes a list of values needs at most; the code has no other limit on the size of a ziplist than
    the 32 bits of the total in its header, which it does not check. *)
Fixpoint vcap (vs : list zval) : Z :=
  match vs with [] => 0 | v :: vs => 5 + zlen (val_header v) + zlen (val_data v) + vcap vs end.

Definition fits (vs : list zval) : Prop := 11 + vcap vs < 2 ^ 32.

Lemma ecap_vcap es : ecap es = vcap (vals es).
Proof.
  induction es as [|e es IH]; [done|]. cbn [ecap vals map vcap]. fold (vals es). rewrite IH.
  unfold ent_body. zlia.
Qed.

Lemma vcap_app vs1 vs2 : vcap (vs1 ++ vs2) = vcap vs1 + vcap vs2.
Proof. induction vs1 as [|v vs1 IH]; cbn [vcap app]; lia. Qed.

Lemma vcap_nonneg vs : 0 <= vcap vs.
Proof. induction vs as [|v vs IH]; cbn [vcap]; [lia|]. zlia. Qed.

Lemma vcap_take_drop i j vs : (i <= j)%nat -> vcap (take i vs ++ drop j vs) <= vcap vs.
Proof.
  intros H. rewrite vcap_app. rewrite <- (take_drop i vs) at 3. rewrite vcap_app.
  replace (drop j vs) with (drop (j - i) (drop i vs)) by (rewrite drop_drop; f_equal; lia).
  pose proof (take_drop (j - i) (drop i vs)) as E. rewrite <- E at 2. rewrite vcap_app.
  pose proof (vcap_nonneg (take (j - i) (drop i vs))). lia.
Qed.

(** A list of values that fits bounds the strings in it. *)
Lemma val_of_len s : zlen (val_header (val_of s)) + zlen (val_data (val_of s)) < 2 ^ 32 - 16 -> zlen s < 2 ^ 32 - 10.
Proof.
  pose proof (val_of_bytes s) as Hb. unfold val_of in *.
  destruct (zipTryEncoding s) as [[v enc]|] eqn:E.
  - apply try_encoding_sound in E as (_ & Hr & -> & _). pose proof (decimal_le20 v Hr). lia.
  - cbn [val_header val_data]. pose proof (zlen_str_header (zlen s)). lia.
Qed.

Lemma zl_insert zl es1 es2 s : zl_rep zl (es1 ++ es2) -> fits (vals es1 ++ val_of s :: vals es2) ->
  exists zl', __ziplistInsert zl (10 + esize es1) s = Some zl' /\ ziplist zl' (vals es1 ++ val_of s :: vals es2).
Proof.
  intros (c & -> & Hcnt & Hc & Hcap) Hfit. unfold fits in Hfit. rewrite vcap_app in Hfit. cbn [vcap] in Hfit.
  pose proof (vcap_nonneg (vals es1)). pose proof (vcap_nonneg (vals es2)).
  assert (Hs : zlen s < 2 ^ 32 - 10) by (apply val_of_len; lia).
  assert (Hcap' : 11 + ecap (es1 ++ new_entry (after 0 es1) s :: es2) < 2 ^ 32).
  { rewrite ecap_vcap. unfold vals. rewrite map_app, vcap_app. cbn [map vcap new_entry e_val]. unfold vals in *. lia. }
  destruct (insert_any es1 es2 c s Hc Hcnt Hs Hcap') as (es' & Hvs & Hch & E). eexists. split; [exact E|].
  exists (es1 ++ new_entry (after 0 es1) s :: es').
  assert (Hvals : vals (es1 ++ new_entry (after 0 es1) s :: es') = vals es1 ++ val_of s :: vals es2).
  { unfold vals in *. rewrite map_app. cbn [map new_entry e_val]. by rewrite Hvs. }
  split; [|done]. exists (cnt_add c 1). split; [done|]. split; [|split].
  - apply (cnt_ok_add c (es1 ++ es2)); [done| |by right].
    rewrite <- (zlen_vals (es1 ++ _ :: _)), Hvals, <- (zlen_vals (es1 ++ es2)). unfold vals. rewrite map_app. zlia.
  - apply chain_app. apply chain_app in Hc as [Hc1 _]. split; [done|].
    pose proof (chain_range es1 0 Hc1 ltac:(lia)). split_and!; [by apply prev_ok_exact|by apply val_of_ok|done].
  - rewrite ecap_vcap, Hvals. unfold fits. rewrite vcap_app. cbn [vcap]. lia.
Qed.

Lemma zl_delete zl es1 es2 es3 num : zl_rep zl (es1 ++ es2 ++ es3) -> es2 ++ es3 <> [] ->
  num = zlen es2 \/ es3 = [] /\ zlen es2 <= num ->
  exists zl' es3', __ziplistDelete zl (10 + esize es1) num = Some zl' /\ zl_rep zl' (es1 ++ es3') /\
    vals (es1 ++ es3') = vals es1 ++ vals es3.
Proof.
  intros (c & -> & Hcnt & Hc & Hcap) Hne Hnum.
  destruct (del_range_spec es1 es2 es3 c num Hc Hcnt Hcap Hne Hnum) as (es3' & Hvs & Hch & E).
  eexists _, es3'. split; [exact E|].
  assert (Hvals : vals (es1 ++ es3') = vals es1 ++ vals es3) by (unfold vals in *; rewrite map_app; by rewrite Hvs).
  assert (Hlen : zlen (es1 ++ es3') = zlen es1 + zlen es3) by (rewrite <- zlen_vals, Hvals; zlia || (rewrite zlen_app, !zlen_vals; done)).
  split; [|done]. exists (cnt_add c (- zlen es2)). split; [done|]. split; [|split].
  - destruct (Z.ltb_spec c UINT16_MAX) as [Hlt|Hge].
    + right. unfold cnt_add. rewrite (proj2 (Z.ltb_lt _ _)) by done.
      destruct Hcnt as [->|[-> _]]; [lia|]. rewrite Hlen in *. zlia.
    + left. unfold cnt_add. rewrite (proj2 (Z.ltb_ge _ _)) by done. destruct Hcnt as [|[-> ?]]; lia.
  - apply chain_app. apply chain_app in Hc as [Hc1 _]. done.
  - rewrite ecap_vcap in *. rewrite Hvals. unfold vals in *. rewrite !map_app in Hcap. rewrite !vcap_app in *.
    pose proof (vcap_nonneg (map e_val es2)). lia.
Qed.

(** ** Operations as the callers use them *)

Inductive zl_op :=
  | OPush (s : bytes) (where_ : Z)
  | OInsert (index : Z) (s : bytes)
  | ODelete (index : Z)
  | ODeleteRange (index num : Z).

Definition zl_exec (zl : bytes) (op : zl_op) : option bytes :=
  match op with
  | OPush s where_ => ziplistPush zl s where_
  | OInsert index s =>
      p ← ziplistIndex zl index;
      match p with Some p => ziplistInsert zl p s | None => Some zl end
  | ODelete index =>
      p ← ziplistIndex zl index;
      match p with Some p => '(zl, _) ← ziplistDelete zl p; Some zl | None => Some zl end
  | ODeleteRange index num => ziplistDeleteRange zl index num
  end.

Fixpoint zl_run (zl : bytes) (ops : list zl_op) : option bytes :=
  match ops with [] => Some zl | op :: ops => zl ← zl_exec zl op; zl_run zl ops end.

(** The same operations on a list of strings: an index counts from the end when negative. *)
Definition list_pos {A} (l : list A) (index : Z) : option nat :=
  let i := if index <? 0 then zlen l + index else index in
  if (0 <=? i) && (i <? zlen l) then Some (Z.to_nat i) else None.

Definition list_op (vs : list bytes) (op : zl_op) : list bytes :=
  match op with
  | OPush s where_ => if where_ =? ZIPLIST_HEAD then s :: vs else vs ++ [s]
  | OInsert index s =>
      match list_pos vs index with Some i => take i vs ++ s :: drop i vs | None => vs end
  | ODelete index =>
      match list_pos vs index with Some i => take i vs ++ drop (i + 1) vs | None => vs end
  | ODeleteRange index num =>
      match list_pos vs index with Some i => take i vs ++ drop (i + Z.to_nat num) vs | None => vs end
  end.

Definition index_ok (index : Z) : Prop := srange 32 index /\ index <> INT32_MIN.

Definition op_ok (op : zl_op) : Prop :=
  match op with
  | OPush _ _ => True
  | OInsert index _ | ODelete index => index_ok index
  | ODeleteRange index num => index_ok index /\ urange 32 num
  end.

(** Bytes a list of strings needs at most: 18 per string besides the string. *)
Definition str_cap (vs : list bytes) : Z := foldr (fun s n => 18 + zlen s + n) 0 vs.

Fixpoint ops_ok (ops : list zl_op) (vs : list bytes) : Prop :=
  match ops with
  | [] => True
  | op :: ops => op_ok op /\ 11 + str_cap (list_op vs op) < 2 ^ 32 /\ ops_ok ops (list_op vs op)
  end.

(** A ziplist that holds strings, and an integer only for the string the code turns into it. *)
Definition ziplist_of (zl : bytes) (ss : list bytes) : Prop := ziplist zl (map val_of ss).

Lemma vcap_str_cap ss : vcap (map val_of ss) <= str_cap ss.
Proof.
  induction ss as [|s ss IH]; [done|]. cbn [map vcap]. change (str_cap (s :: ss)) with (18 + zlen s + str_cap ss).
  pose proof (zlen_val_header (val_of s)). assert (zlen (val_data (val_of s)) <= zlen s + 8); [|lia].
  unfold val_of. destruct (zipTryEncoding s) as [[v enc]|]; cbn [val_data]; [|lia].
  rewrite zlen_le_bytes. pose proof (int_width_le enc). pose proof (zlen_nonneg s). lia.
Qed.

Lemma list_pos_map {A B} (f : A -> B) l index : list_pos (map f l) index = list_pos l index.
Proof. unfold list_pos, zlen. by rewrite length_map. Qed.

Lemma zl_index_pos es index : zl_index es index = zl_at es <$> list_pos (vals es) index.
Proof.
  unfold vals. rewrite list_pos_map. unfold zl_index, list_pos. by destruct (_ && _).
Qed.

Lemma list_pos_lt {A} (l : list A) index i : list_pos l index = Some i -> (i < length l)%nat.
Proof. unfold list_pos, zlen. destruct (_ && _) eqn:E; [|done]. intros [= <-]. zb. lia. Qed.

Lemma zl_find_index zl es index : zl_rep zl es -> index_ok index ->
  ziplistIndex zl index = Some (zl_at es <$> list_pos (vals es) index).
Proof. intros (c & -> & _ & Hc & Hcap) [_ Hi]. rewrite index_spec by done. by rewrite zl_index_pos. Qed.

Lemma vals_take es i : vals (take i es) = take i (vals es).
Proof. symmetry. apply firstn_map. Qed.

Lemma vals_drop es i : vals (drop i es) = drop i (vals es).
Proof. symmetry. apply skipn_map. Qed.

(** The two edits at an index. *)
Lemma insert_at_index zl es i s : zl_rep zl es -> fits (take i (vals es) ++ val_of s :: drop i (vals es)) ->
  exists zl', __ziplistInsert zl (zl_at es i) s = Some zl' /\
    ziplist zl' (take i (vals es) ++ val_of s :: drop i (vals es)).
Proof.
  intros Hr Hfit. rewrite <- vals_take, <- vals_drop in *. apply zl_insert; [by rewrite take_drop|done].
Qed.

Lemma delete_at_index zl es i num : zl_rep zl es -> (i < length es)%nat -> 0 <= num ->
  exists zl' es', __ziplistDelete zl (zl_at es i) num = Some zl' /\ zl_rep zl' es' /\ zl_at es' i = zl_at es i /\
    vals es' = take i (vals es) ++ drop (i + Z.to_nat num) (vals es).
Proof.
  intros Hr Hi Hnum. rewrite <- vals_take, <- vals_drop.
  pose proof (take_drop (Z.to_nat num) (drop i es)) as E. rewrite drop_drop in E.
  destruct (zl_delete zl (take i es) (take (Z.to_nat num) (drop i es)) (drop (i + Z.to_nat num) es) num) as (zl' & es3 & Ez & Hz & Hv);
    [..|exists zl', (take i es ++ es3); split_and!; [done..| |done]; unfold zl_at; rewrite take_app_le, take_take by (rewrite length_take; lia);
     by rewrite Nat.min_id].
  - by rewrite E, take_drop.
  - rewrite E. intros H. apply (f_equal length) in H. rewrite length_drop in H. simpl in H. lia.
  - unfold zlen. rewrite length_take, length_drop.
    destruct (Nat.le_gt_cases (Z.to_nat num) (length es - i)); [left; lia|right].
    split; [by apply drop_ge; lia|lia].
Qed.

Lemma insert_strings zl es ss i s : zl_rep zl es -> vals es = map val_of ss ->
  11 + str_cap (take i ss ++ s :: drop i ss) < 2 ^ 32 ->
  exists zl', __ziplistInsert zl (zl_at es i) s = Some zl' /\ ziplist_of zl' (take i ss ++ s :: drop i ss).
Proof.
  intros Hr Hvs Hcap.
  assert (E : map val_of (take i ss ++ s :: drop i ss) = take i (vals es) ++ val_of s :: drop i (vals es)).
  { rewrite map_app. cbn [map]. by rewrite <- firstn_map, <- skipn_map, <- Hvs. }
  unfold ziplist_of. rewrite E. apply insert_at_index; [done|]. rewrite <- E. unfold fits.
  pose proof (vcap_str_cap (take i ss ++ s :: drop i ss)). lia.
Qed.

(** The entries before the ones deleted stay where they are. *)
Lemma delete_strings_at zl es ss i num : zl_rep zl es -> vals es = map val_of ss -> (i < length ss)%nat -> 0 <= num ->
  exists zl' es', __ziplistDelete zl (zl_at es i) num = Some zl' /\ zl_rep zl' es' /\ zl_at es' i = zl_at es i /\
    vals es' = map val_of (take i ss ++ drop (i + Z.to_nat num) ss).
Proof.
  intros Hr Hvs Hi Hnum. rewrite map_app, <- firstn_map, <- skipn_map, <- Hvs.
  apply delete_at_index; [done| |done]. apply (f_equal length) in Hvs. unfold vals in Hvs.
  rewrite !length_map in Hvs. lia.
Qed.

Lemma delete_strings zl es ss i num : zl_rep zl es -> vals es = map val_of ss -> (i < length ss)%nat -> 0 <= num ->
  exists zl', __ziplistDelete zl (zl_at es i) num = Some zl' /\
    ziplist_of zl' (take i ss ++ drop (i + Z.to_nat num) ss).
Proof.
  intros Hr Hvs Hi Hnum. destruct (delete_strings_at zl es ss i num Hr Hvs Hi Hnum) as (zl' & es' & E & Hz & _ & Hv).
  exists zl'. split; [done|]. by exists es'.
Qed.

Lemma push_spec zl ss s w : ziplist_of zl ss -> 11 + str_cap (list_op ss (OPush s w)) < 2 ^ 32 ->
  exists zl', ziplistPush zl s w = Some zl' /\ ziplist_of zl' (list_op ss (OPush s w)).
Proof.
  intros (es & Hr & Hvs) Hcap. unfold ziplistPush. cbn [list_op] in *.
  destruct (w =? ZIPLIST_HEAD); cbn [mbind option_bind]; [by apply (insert_strings zl es ss 0)|].
  assert (Hl : length es = length ss) by (apply (f_equal length) in Hvs; unfold vals in Hvs; by rewrite !length_map in Hvs).
  assert (Hend : ZIPLIST_ENTRY_END zl = Some (zl_at es (length ss))).
  { destruct Hr as (c & -> & _ & _ & Hc). unfold ZIPLIST_ENTRY_END. rewrite zl_bytes by done. cbn [mbind option_bind].
    unfold zl_at. rewrite <- Hl, take_ge by done. f_equal. lia. }
  rewrite Hend. cbn [mbind option_bind].
  pose proof (insert_strings zl es ss (length ss) s Hr Hvs) as H. rewrite take_ge, drop_ge in H by lia. by apply H.
Qed.

Lemma zl_op_spec zl ss op : ziplist_of zl ss -> op_ok op -> 11 + str_cap (list_op ss op) < 2 ^ 32 ->
  exists zl', zl_exec zl op = Some zl' /\ ziplist_of zl' (list_op ss op).
Proof.
  intros Hz Hop Hcap. destruct op as [s w|index s|index|index num]; [by apply push_spec|..];
    pose proof Hz as (es & Hr & Hvs); cbn [zl_exec list_op op_ok] in *; unfold ziplistDeleteRange;
    rewrite (zl_find_index zl es index) by (done || exact Hop || exact (proj1 Hop)); cbn [mbind option_bind]; rewrite Hvs, list_pos_map;
    (destruct (list_pos ss index) as [i|] eqn:Ep; cbn [fmap option_fmap option_map]; [|by exists zl]).
  - by apply insert_strings.
  - apply list_pos_lt in Ep. destruct (delete_strings zl es ss i 1 Hr Hvs Ep ltac:(lia)) as (zl' & E & Hz').
    exists zl'. unfold ziplistDelete. rewrite E. by split.
  - apply list_pos_lt in Ep. destruct Hop as [_ Hn]. unfold urange in Hn. apply delete_strings; [done..|lia].
Qed.

Lemma new_rep : exists zl, ziplistNew = Some zl /\ ziplist_of zl [].
Proof.
  exists (zl_of [] 0). split; [done|]. exists []. split; [|done]. exists 0. split; [done|].
  split; [by right|]. split; [done|]. simpl. lia.
Qed.

Lemma zl_run_spec ops : forall zl ss, ziplist_of zl ss -> ops_ok ops ss ->
  exists zl', zl_run zl ops = Some zl' /\ ziplist_of zl' (foldl list_op ss ops).
Proof.
  induction ops as [|op ops IH]; intros zl ss Hz Hok; [by exists zl|].
  destruct Hok as (Hop & Hcap & Hok). destruct (zl_op_spec zl ss op Hz Hop Hcap) as (zl1 & E & Hz1).
  cbn [zl_run foldl]. rewrite E. by apply IH.
Qed.

(** C4. Ziplists refine lists of strings.  Every sequence of pushes at either end, insertions before
    an index, deletions of one entry and of a range, on a new ziplist, runs without leaving the
    block, and leaves a well-formed ziplist (right total, tail offset, count and stored lengths, after
    every cascade) whose entries are the strings the same operations leave in a list, as long as the
    strings, with 18 bytes of overhead each, fit the 32-bit total. *)
Theorem ziplist_refines_list ops : ops_ok ops [] ->
  exists zl, (zl ← ziplistNew; zl_run zl ops) = Some zl /\ ziplist_of zl (foldl list_op [] ops).
Proof.
  intros Hok. destruct new_rep as (zl0 & -> & Hz). by apply zl_run_spec.
Qed.

Lemma ziplist_refines_list_witness :
  exists zl, (zl ← ziplistNew; zl_run zl [OPush [49; 50] 1; OPush [97; 98] 0; OInsert (-1) [45; 49];
      OPush (replicate 260 120) 0; ODelete 1; ODeleteRange 0 1]) = Some zl /\
    ziplist_of zl [[45; 49]; [49; 50]].
Proof.
  apply (ziplist_refines_list [OPush [49; 50] 1; OPush [97; 98] 0; OInsert (-1) [45; 49];
      OPush (replicate 260 120) 0; ODelete 1; ODeleteRange 0 1]).
  repeat split; vm_compute; congruence.
Defined.

(** ** Reading *)

(** The first of the entries [a], [a + d], [a + 2 d], ... that is the string. *)
Definition first_match (vs : list zval) (a d : nat) (s : bytes) (r : option nat) : Prop :=
  match r with
  | Some j => exists k v, j = (a + k * d)%nat /\ vs !! j = Some v /\ val_bytes v = s /\
      forall k' v', (k' < k)%nat -> vs !! (a + k' * d)%nat = Some v' -> val_bytes v' <> s
  | None => forall k v, vs !! (a + k * d)%nat = Some v -> val_bytes v <> s
  end.

Lemma find_pos_first vs s skip : 0 <= skip -> forall cnt, 0 <= cnt ->
  first_match vs (Z.to_nat cnt) (S (Z.to_nat skip)) s (find_pos vs s skip cnt).
Proof.
  intros Hs. induction vs as [|v vs IH]; intros cnt Hcnt; [intros k v; by rewrite lookup_nil|].
  cbn [find_pos]. destruct (Z.eqb_spec cnt 0) as [->|Hne].
  - cbn [Z.to_nat]. case_bool_decide as Hv.
    { exists 0%nat, v. split; [done|]. split; [done|]. split; [done|]. intros k' v' Hk. lia. }
    specialize (IH skip Hs). destruct (find_pos vs s skip skip) as [j|]; cbn [fmap option_fmap option_map first_match].
    + destruct IH as (k & v' & -> & Hv' & Heq & Hlt). exists (S k), v'. split; [lia|]. split; [done|]. split; [done|].
      intros [|k'] w Hk Hw; [simpl in Hw; by simplify_eq|]. apply (Hlt k' w); [lia|].
      replace (0 + S k' * S (Z.to_nat skip))%nat with (S (Z.to_nat skip + k' * S (Z.to_nat skip))) in Hw by lia. done.
    + intros [|k] w Hw; [simpl in Hw; by simplify_eq|]. apply (IH k w).
      replace (0 + S k * S (Z.to_nat skip))%nat with (S (Z.to_nat skip + k * S (Z.to_nat skip))) in Hw by lia. done.
  - specialize (IH (cnt - 1) ltac:(lia)). replace (Z.to_nat cnt) with (S (Z.to_nat (cnt - 1))) by lia.
    destruct (find_pos vs s skip (cnt - 1)) as [j|]; cbn [fmap option_fmap option_map first_match].
    + destruct IH as (k & v' & -> & Hv' & Heq & Hlt). exists k, v'. split; [lia|]. split; [done|]. split; [done|].
      intros k' w Hk Hw. by apply (Hlt k' w).
    + intros k w Hw. by apply (IH k w).
Qed.

Lemma first_match_drop vs i a d s r : first_match (drop i vs) a d s r ->
  first_match vs (i + a) d s (Nat.add i <$> r).
Proof.
  destruct r as [j|]; cbn [fmap option_fmap option_map first_match].
  - intros (k & v & -> & Hv & He & Hlt). exists k, v. rewrite lookup_drop in Hv. split; [lia|]. split; [done|].
    split; [done|]. intros k' v' Hk Hv'. apply (Hlt k' v' Hk). rewrite lookup_drop, Nat.add_assoc. done.
  - intros H k v Hv. apply (H k v). rewrite lookup_drop, Nat.add_assoc. done.
Qed.

(** The neighbours of an entry. *)
Lemma neighbours es c i e : chain 0 es -> es !! i = Some e ->
  ziplistNext (zl_of es c) (zl_at es i) = Some (if decide (S i < length es)%nat then Some (zl_at es (S i)) else None) /\
  ziplistPrev (zl_of es c) (zl_at es i) = Some (match i with O => None | S j => Some (zl_at es j) end).
Proof.
  intros Hc He. pose proof (take_drop_middle es i e He) as E. unfold zl_at. split.
  - rewrite <- E at 1. rewrite next_spec by (by rewrite E). rewrite (take_S_r es i e) by done. f_equal.
    destruct (drop (S i) es) eqn:Ed; destruct (decide (S i < length es)%nat); try done.
    + apply (f_equal length) in Ed. rewrite length_drop in Ed. simpl in Ed. lia.
    + apply (f_equal length) in Ed. rewrite length_drop in Ed. simpl in Ed. lia.
  - rewrite <- E at 1. rewrite prev_spec by (by rewrite E). f_equal. destruct i as [|j]; [done|].
    destruct (lookup_lt_is_Some_2 es j) as [e' He']; [apply lookup_lt_Some in He; lia|].
    rewrite (take_S_r es j e') by done. rewrite esize_app, after_app. cbn [esize after].
    destruct (take j es); cbn [app]; f_equal; lia.
Qed.

(** C24. The reading operations of ziplists.  On every well-formed ziplist: an index from either end
    finds the entry at that place, or NULL outside the list; an entry is read as its string or its
    integer and compares equal to its string form only; next and previous move by one entry and stop
    at the ends; a search returns the first equal entry among those it does not skip; the length is
    the number of entries even when the header does not say it, and the blob length is the size of
    the block. *)
Theorem ziplist_reads_correct zl es : zl_rep zl es ->
  (forall index, index_ok index -> ziplistIndex zl index = Some (zl_at es <$> list_pos (vals es) index)) /\
  (forall i v, vals es !! i = Some v ->
     ziplistGet zl (Some (zl_at es i)) = Some (Some (get_val v)) /\
     (forall s, ziplistCompare zl (zl_at es i) s = Some (bool_decide (val_bytes v = s))) /\
     ziplistNext zl (zl_at es i) = Some (if decide (S i < length es)%nat then Some (zl_at es (S i)) else None) /\
     ziplistPrev zl (zl_at es i) = Some (match i with O => None | S j => Some (zl_at es j) end)) /\
  (forall i s skip, (i <= length es)%nat -> 0 <= skip < 2 ^ 31 ->
     exists r, ziplistFind zl (zl_at es i) s skip = Some (zl_at es <$> r) /\
       first_match (vals es) i (S (Z.to_nat skip)) s r) /\
  (exists zl', ziplistLen zl = Some (zl', zlen es) /\ zl_rep zl' es) /\
  ziplistBlobLen zl = Some (zlen zl).
Proof.
  intros Hr. split; [intros index Hi; by apply zl_find_index|]. destruct Hr as (c & -> & Hcnt & Hc & Hcap).
  split; [|split; [|split]].
  - intros i v Hv. unfold vals in Hv. rewrite list_lookup_fmap in Hv.
    destruct (es !! i) as [e|] eqn:He; [|done]. injection Hv as <-.
    pose proof (take_drop_middle es i e He) as E.
    split; [|split; [|by apply neighbours with e]].
    + rewrite <- E at 1. apply get_spec. by rewrite E.
    + intros s. rewrite <- E at 1. apply compare_spec. by rewrite E.
  - intros i s skip Hi Hskip. exists (Nat.add i <$> find_pos (vals (drop i es)) s skip 0). split.
    + unfold ziplistFind. rewrite swrap_small by (unfold srange; lia).
      pose proof (find_loop_spec s skip (drop i es) (take i es) (length (zl_of es c)) c 0 0 0) as H.
      rewrite take_drop in H. pose proof (length_zl_of es c). rewrite length_drop in H.
      unfold zl_at at 1. rewrite H by (done || lia || by left). f_equal.
      destruct (find_pos (vals (drop i es)) s skip 0) as [j|]; [|done]. cbn. f_equal. unfold zl_at.
      rewrite <- (take_take_drop es i j) at 1. rewrite esize_app. lia.
    + rewrite vals_drop. pose proof (first_match_drop (vals es) i 0 (S (Z.to_nat skip)) s) as H.
      rewrite Nat.add_0_r in H. apply H. apply (find_pos_first _ _ skip ltac:(lia) 0). lia.
  - destruct (len_spec es c Hc Hcnt) as (c' & Hc' & E). exists (zl_of es c'). split; [done|]. by exists c'.
  - unfold ziplistBlobLen. rewrite zl_bytes by done. unfold zl_of. f_equal. zlia.
Qed.

Definition witness_es : list zent :=
  [Ent false (val_of [49; 50]); Ent false (val_of (replicate 300 97)); Ent true (val_of [45; 51; 48; 48])].

Lemma ziplist_reads_correct_witness : let zl := zl_of witness_es 3 in zl_rep zl witness_es /\
  ziplistIndex zl (-1) = Some (zl_at witness_es <$> list_pos (vals witness_es) (-1)) /\
  ziplistGet zl (Some (zl_at witness_es 2)) = Some (Some (ZInt (-300))).
Proof.
  assert (Hr : zl_rep (zl_of witness_es 3) witness_es).
  { exists 3. split; [reflexivity|]. split; [right; vm_compute; split; reflexivity|].
    split; [|vm_compute; reflexivity].
    repeat split; first [vm_compute; congruence | vm_compute; intuition congruence]. }
  split; [exact Hr|]. destruct (ziplist_reads_correct _ _ Hr) as (H1 & H2 & _). split.
  - apply H1. split; [split|]; vm_compute; congruence.
  - destruct (H2 2%nat (VInt 0xc0 (-300))) as [H _]; [vm_compute; reflexivity|exact H].
Defined.

(** ** Merging *)

Lemma zlen_pos_nonnil {A} (l : list A) : l <> [] -> 0 < zlen l.
Proof. destruct l; [done|]. intros _. rewrite zlen_cons. pose proof (zlen_nonneg l). lia. Qed.

Lemma merge_nonempty zl1 zl2 vs1 vs2 : ziplist zl1 vs1 -> ziplist zl2 vs2 -> vs2 <> [] -> fits (vs1 ++ vs2) ->
  exists zl first, ziplistMerge (Some zl1) (Some zl2) false = Some (Some (zl, first)) /\ ziplist zl (vs1 ++ vs2).
Proof.
  intros (es1 & (c1 & -> & Hk1 & Hc1 & Hcap1) & <-) (es2 & (c2 & -> & Hk2 & Hc2 & Hcap2) & <-) Hne Hfit.
  destruct es2 as [|e2 es2]; [done|]. unfold fits in Hfit. rewrite vcap_app, <- !ecap_vcap in Hfit.
  destruct (merge_spec es1 e2 es2 c1 c2 Hk1 Hk2 Hc1 Hc2 ltac:(lia)) as (es & Hvs & Hc & Hk & E).
  eexists _, _. split; [exact E|]. exists es.
  assert (Hv : vals es = vals es1 ++ vals (e2 :: es2)) by (rewrite Hvs; unfold vals; by rewrite map_app).
  split; [|done]. exists (merge_cnt c1 c2). split; [done|]. split; [done|]. split; [done|].
  rewrite ecap_vcap, Hv, vcap_app, <- !ecap_vcap. lia.
Qed.

(** The cascade stops at once on the last entry. *)
Lemma cascade_last T t c pre prev e : urange 32 T -> prev_ok prev (e_big e) -> val_ok (e_val e) ->
  __ziplistCascadeUpdate (zl_buf T t c (pre ++ ent_bytes prev e ++ [255])) (10 + zlen pre) =
    Some (zl_buf T t c (pre ++ ent_bytes prev e ++ [255])).
Proof.
  intros HT Hp Hv. unfold __ziplistCascadeUpdate. rewrite get_bytes by done. cbn [mbind option_bind].
  assert (Hlen : exists k, length (zl_buf T t c (pre ++ ent_bytes prev e ++ [255])) = S k) by (by eexists).
  destruct Hlen as (k & ->). cbn [cascade_loop].
  destruct (buf_not_end T t c pre prev e [255] (10 + zlen pre) eq_refl Hp) as (b & -> & Hb).
  cbn [mbind option_bind]. rewrite Hb, buf_entry by done. cbn [mbind option_bind].
  rewrite ent_info_len, store_prevlen_null by done. cbn [mbind option_bind].
  rewrite (app_assoc pre), buf_end by zlia. done.
Qed.

(** A tail offset at the end mark hides every entry from the end. *)
Lemma index_lost zl q : zget zl q = Some 255 -> ZIPLIST_TAIL_OFFSET zl = Some q ->
  ziplistIndex zl (-1) = Some None /\ insert_prevlen zl q = Some 0.
Proof.
  intros Hend Htail. unfold ziplistIndex, insert_prevlen, ZIPLIST_ENTRY_TAIL.
  change (-1 =? INT32_MIN) with false. change (-1 <? 0) with true. cbv iota.
  rewrite Htail. cbn [mbind option_bind]. rewrite Hend. cbn [mbind option_bind]. change (255 =? ZIP_END) with true.
  cbn [negb mbind option_bind]. rewrite !Hend. done.
Qed.

Lemma index_head zl b : zget zl 10 = Some b -> (b =? ZIP_END) = false -> ziplistIndex zl 0 = Some (Some 10).
Proof.
  intros Eb Hb. unfold ziplistIndex. change (0 =? INT32_MIN) with false. change (0 <? 0) with false. cbv iota.
  destruct zl as [|x zl]; [by rewrite zget_None in Eb by (vm_compute; congruence)|].
  cbn [length index_forward]. unfold ZIPLIST_ENTRY_HEAD, ZIPLIST_HEADER_SIZE.
  rewrite Eb. cbn [mbind option_bind]. rewrite Hb. cbn [Z.eqb mbind option_bind]. rewrite Eb. cbn [mbind option_bind].
  by rewrite Hb.
Qed.

(** With an empty second ziplist the offset of the last entry becomes that of the end mark. *)
Lemma merge_lost zl1 zl2 vs1 : ziplist zl1 vs1 -> ziplist zl2 [] -> vs1 <> [] ->
  exists zl first, ziplistMerge (Some zl1) (Some zl2) false = Some (Some (zl, first)) /\
    ziplistIndex zl 0 = Some (Some 10) /\ ziplistIndex zl (-1) = Some None /\
    (exists p, ziplistIndex zl1 (-1) = Some (Some p)) /\
    (p ← ZIPLIST_ENTRY_END zl; insert_prevlen zl p) = Some 0.
Proof.
  intros (es1 & Hr1 & Hv1) (es2 & (c2 & -> & Hk2 & Hc2 & Hcap2) & Hv2) Hne.
  pose proof Hr1 as (c1 & -> & Hk1 & Hc1 & Hcap1). destruct es2; [|done]. cbn [ecap] in Hcap2.
  assert (Hne1 : es1 <> []) by (intros ->; done). clear Hne.
  assert (Hlast : exists p, ziplistIndex (zl_of es1 c1) (-1) = Some (Some p)).
  { rewrite (zl_find_index _ es1) by (done || (split; [split|]; vm_compute; congruence)).
    unfold list_pos. change (-1 <? 0) with true. pose proof (zlen_pos_nonnil es1 Hne1). rewrite zlen_vals.
    rewrite (proj2 (Z.leb_le 0 _)), (proj2 (Z.ltb_lt _ (zlen es1))) by lia. by eexists. }
  rewrite merge_write by (done || (simpl; lia)). cbn [ents esize after app].
  destruct (after_last es1 0 Hne1) as (es0 & e1 & -> & Ha). pose proof (esize_cap (es0 ++ [e1])) as Hle.
  pose proof (esize_nonneg es0). pose proof (ent_len_pos e1).
  pose proof Hc1 as Hc. apply chain_app in Hc as (_ & Hp & Hv & _). rewrite Ha, ents_app, esize_app in *.
  cbn [ents esize] in *. rewrite app_nil_r, <- app_assoc.
  set (c := merge_cnt c1 c2). set (n := esize es0 + (ent_len e1 + 0)) in *.
  replace (10 + n - ent_len e1) with (10 + zlen (ents 0 es0)) by (unfold n; zlia).
  rewrite cascade_last by (done || (unfold urange; lia)). cbn [mbind option_bind].
  replace (11 + n + 0) with (11 + n) by lia. replace (10 + n + 0 - 0) with (10 + n) by lia.
  set (zl := zl_buf (11 + n) (10 + n) c (ents 0 es0 ++ ent_bytes (after 0 es0) e1 ++ [255])).
  assert (Hend : zget zl (10 + n) = Some 255) by (unfold zl; rewrite app_assoc; apply buf_end; unfold n; zlia).
  assert (Htail : ZIPLIST_TAIL_OFFSET zl = Some (10 + n)) by (apply get_tail; unfold urange; lia).
  assert (Hb : ZIPLIST_BYTES zl = Some (11 + n)) by (apply get_bytes; unfold urange; lia).
  assert (Hhead : exists b, zget zl 10 = Some b /\ (b =? ZIP_END) = false).
  { unfold zl. rewrite app_assoc. pose proof (ents_app es0 [e1] 0) as E. cbn [ents] in E. rewrite app_nil_r in E.
    rewrite <- E. destruct es0 as [|e0 es0]; cbn [app ents].
    - rewrite app_nil_r. by apply (buf_not_end _ _ _ []).
    - rewrite <- app_assoc. apply (buf_not_end _ _ _ []); [done|]. apply Hc1. }
  destruct Hhead as (b & Eb & Hbne). eexists _, _. split; [reflexivity|].
  split; [|split; [|split; [exact Hlast|]]].
  - by apply (index_head zl b).
  - by apply (index_lost zl (10 + n)).
  - unfold ZIPLIST_ENTRY_END. rewrite Hb. cbn [mbind option_bind].
    replace (11 + n - 1) with (10 + n) by lia. by apply index_lost.
Qed.

Lemma merge_empty zl1 zl2 : ziplist zl1 [] -> ziplist zl2 [] ->
  exists zl first, ziplistMerge (Some zl1) (Some zl2) false = Some (Some (zl, first)) /\ ziplist zl [].
Proof.
  intros (es1 & (c1 & -> & Hk1 & Hc1 & Hcap1) & Hv1) (es2 & (c2 & -> & Hk2 & Hc2 & Hcap2) & Hv2).
  destruct es1; [|done]. destruct es2; [|done]. rewrite merge_write by done.
  set (c := merge_cnt c1 c2). cbn [ents esize after app]. change (zl_buf _ _ c [255]) with (zl_of [] c).
  assert (E : __ziplistCascadeUpdate (zl_of [] c) 10 = Some (zl_of [] c)).
  { unfold __ziplistCascadeUpdate. rewrite zl_bytes by done. cbn [mbind option_bind].
    assert (Hlen : exists k, length (zl_of [] c) = S k) by (by eexists). destruct Hlen as (k & ->).
    cbn [cascade_loop]. rewrite (at_end []). done. }
  change (10 + 0 - 0) with 10. rewrite E. cbn [mbind option_bind]. eexists _, _. split; [done|]. exists []. split; [|done].
  exists c. split; [done|]. split; [by apply (merge_cnt_ok _ _ [] [])|]. by split.
Qed.

(** C25. Merging two ziplists.  The result holds the entries of the first list followed by those of the
    second, whichever block is kept, with the length stored at the seam repaired by the cascade,
    provided the second list is not empty or both are.  When only the second one is empty the
    merge breaks the tail offset: the entries stay, but the offset of the last entry becomes that
    of the end mark, so the last entry cannot be reached from the end any more, and a value pushed
    at the tail afterwards is stored as if it were the first. *)
Theorem ziplist_merge_correct zl1 zl2 vs1 vs2 : ziplist zl1 vs1 -> ziplist zl2 vs2 -> fits (vs1 ++ vs2) ->
  exists zl first, ziplistMerge (Some zl1) (Some zl2) false = Some (Some (zl, first)) /\
    (vs2 <> [] \/ vs1 = [] -> ziplist zl (vs1 ++ vs2)) /\
    (vs2 = [] -> vs1 <> [] ->
       ziplistIndex zl 0 = Some (Some 10) /\ ziplistIndex zl (-1) = Some None /\
       (exists p, ziplistIndex zl1 (-1) = Some (Some p)) /\
       (p ← ZIPLIST_ENTRY_END zl; insert_prevlen zl p) = Some 0).
Proof.
  intros H1 H2 Hfit. destruct vs2 as [|v2 vs2].
  - destruct vs1 as [|v1 vs1].
    + destruct (merge_empty zl1 zl2 H1 H2) as (zl & first & E & Hz). by exists zl, first.
    + destruct (merge_lost zl1 zl2 (v1 :: vs1) H1 H2 ltac:(done)) as (zl & first & E & Hz). exists zl, first.
      split; [done|]. split; [by intros [?|?]|done].
  - destruct (merge_nonempty zl1 zl2 vs1 (v2 :: vs2) H1 H2 ltac:(done) Hfit) as (zl & first & E & Hz). by exists zl, first.
Qed.

Lemma ziplist_merge_correct_witness :
  exists zl first, ziplistMerge (Some (zl_of [Ent false (VStr (replicate 300 97))] 1)) (Some (zl_of [Ent false (VInt 0xf3 2)] 1)) false =
      Some (Some (zl, first)) /\ ziplist zl [VStr (replicate 300 97); VInt 0xf3 2].
Proof.
  destruct (ziplist_merge_correct (zl_of [Ent false (VStr (replicate 300 97))] 1) (zl_of [Ent false (VInt 0xf3 2)] 1)
    [VStr (replicate 300 97)] [VInt 0xf3 2]) as (zl & first & E & Hz & _).
  - exists [Ent false (VStr (replicate 300 97))]. split; [|reflexivity]. exists 1. split; [reflexivity|].
    split; [right; vm_compute; split; reflexivity|]. split; [|vm_compute; reflexivity].
    repeat split; vm_compute; congruence.
  - exists [Ent false (VInt 0xf3 2)]. split; [|reflexivity]. exists 1. split; [reflexivity|].
    split; [right; vm_compute; split; reflexivity|]. split; [|vm_compute; reflexivity].
    repeat split; first [vm_compute; congruence | vm_compute; intuition congruence].
  - vm_compute. reflexivity.
  - exists zl, first. split; [exact E|]. apply Hz. left. discriminate.
Defined.

(** ** Typing *)

(** The encodings with their widths and ranges, as numbers. *)
Lemma int_ok_cases enc v : int_ok enc v ->
  let w := Z.of_nat (int_width enc) in
  enc = 0xfe /\ w = 1 /\ -128 <= v < 128 \/ enc = 0xc0 /\ w = 2 /\ -32768 <= v < 32768 \/
  enc = 0xf0 /\ w = 3 /\ -8388608 <= v < 8388608 \/ enc = 0xd0 /\ w = 4 /\ -2147483648 <= v < 2147483648 \/
  enc = 0xe0 /\ w = 8 /\ -9223372036854775808 <= v < 9223372036854775808 \/ enc = 0xf1 + v /\ w = 0 /\ 0 <= v <= 12.
Proof.
  intros H w. unfold w. int_case H.
  1: left; split; [done|split; [done|exact H]].
  1: right; left; split; [done|split; [done|exact H]].
  1: do 2 right; left; split; [done|split; [done|exact H]].
  1: do 3 right; left; split; [done|split; [done|exact H]].
  1: do 4 right; left; split; [done|split; [done|exact H]].
  do 5 right. destruct (imm_tests enc H) as (_ & _ & _ & _ & _ & -> & _).
  unfold ZIP_INT_IMM_MIN, ZIP_INT_IMM_MAX in *. lia.
Qed.

Lemma try_encoding_value s v enc : zipTryEncoding s = Some (v, enc) ->
  enc = if (0 <=? v) && (v <=? 12) then ZIP_INT_IMM_MIN + v
        else if (- 2 ^ 7 <=? v) && (v <=? 2 ^ 7 - 1) then ZIP_INT_8B
        else if (INT16_MIN <=? v) && (v <=? INT16_MAX) then ZIP_INT_16B
        else if (INT24_MIN <=? v) && (v <=? INT24_MAX) then ZIP_INT_24B
        else if (INT32_MIN <=? v) && (v <=? INT32_MAX) then ZIP_INT_32B
        else ZIP_INT_64B.
Proof.
  unfold zipTryEncoding. intros H. case_match; [done|]. destruct (string2ll s) as [w|]; [|done].
  cbn [mbind option_bind] in H. by injection H as <- <-.
Qed.

(** The encoding the code chooses is the narrowest that holds the value. *)
Lemma try_encoding_minimal s v enc enc' : zipTryEncoding s = Some (v, enc) -> int_ok enc' v ->
  (int_width enc <= int_width enc')%nat.
Proof.
  intros E H'. pose proof (try_encoding_value _ _ _ E) as He. apply try_encoding_sound in E as (_ & _ & _ & H).
  apply int_ok_cases in H, H'. cbv zeta in H, H'.
  unfold INT16_MIN, INT16_MAX, INT24_MIN, INT24_MAX, INT32_MIN, INT32_MAX, ZIP_INT_IMM_MIN, ZIP_INT_8B, ZIP_INT_16B,
    ZIP_INT_24B, ZIP_INT_32B, ZIP_INT_64B in He.
  repeat match type of He with context [if ?b then _ else _] => destruct b eqn:? end; zb; lia.
Qed.

(** C26. The types of ziplist entries.  A string is stored as an integer exactly when it is the decimal
    form of a 64-bit integer, and then under the narrowest encoding that holds the value; every
    other string is stored as it is.  So the type of an entry and its bytes are determined by the
    string, and the string is recovered from them. *)
Theorem ziplist_entry_typed s :
  (forall v enc, val_of s = VInt enc v <->
     srange 64 v /\ s = decimal v /\ int_ok enc v /\
     forall enc', int_ok enc' v -> (int_width enc <= int_width enc')%nat) /\
  (forall s', val_of s = VStr s' <-> s' = s /\ forall v, srange 64 v -> s <> decimal v) /\
  val_bytes (val_of s) = s.
Proof.
  assert (Hno : zipTryEncoding s = None -> forall v, srange 64 v -> s <> decimal v).
  { intros E v Hv ->. destruct (try_encoding_decimal v Hv) as [e He]. congruence. }
  split; [|split; [|apply val_of_bytes]]; unfold val_of.
  - intros v enc. split.
    + destruct (zipTryEncoding s) as [[v0 enc0]|] eqn:E; [|done]. intros [= -> ->].
      destruct (try_encoding_sound _ _ _ E) as (_ & Hv & Hd & Hok). split_and!; [done..|].
      intros enc'. by apply (try_encoding_minimal s).
    + intros (Hv & Hd & Hok & Hmin). destruct (zipTryEncoding s) as [[v0 enc0]|] eqn:E; [|by destruct (Hno eq_refl v Hv)].
      destruct (try_encoding_sound _ _ _ E) as (Es & _ & _ & Hok0).
      rewrite Hd, string2ll_decimal in Es by done. injection Es as <-.
      pose proof (try_encoding_minimal s v enc0 enc E Hok) as H1. pose proof (Hmin enc0 Hok0) as H2.
      apply int_ok_cases in Hok, Hok0. cbv zeta in Hok, Hok0. f_equal. lia.
  - intros s'. split.
    + destruct (zipTryEncoding s) as [[v0 enc0]|] eqn:E; [done|]. intros [= <-]. split; [done|]. by apply Hno.
    + intros [-> Hn]. destruct (zipTryEncoding s) as [[v0 enc0]|] eqn:E; [|done].
      destruct (try_encoding_sound _ _ _ E) as (_ & Hv & Hd & _). by destruct (Hn v0 Hv).
Qed.
