(* ===== verification/Quicklist.v ===== *)
(** * Quicklists: quicklist.c

    The list type of redis, src/code/lesson1.10/redis-5.0.10/src/quicklist.c: a doubly linked list
    of nodes, each holding a ziplist, plain or compressed with LZF.  Nodes live in a heap and links
    are addresses, so a dereference of NULL or of a released node is [None].  The block a node
    points to is its bytes: a ziplist, or a [quicklistLZF], a 4-byte size and the compressed data;
    which of the two is a flag of the node, and code that takes one for the other reads its bytes.

    [htab] and [garbage] are the contents of uninitialised memory: the hash table of [lzf_compress]
    and fresh blocks.  [zmalloc] never returns NULL.  An offset into a ziplist ([zi]) is used with
    the block its node has at that time. *)

From Stdlib Require Import String.
From stdpp Require Import gmap.
From S2P Require Import Prelude Util Sds Ziplist Lzf.

#[local] Open Scope list_scope.
#[local] Open Scope Z_scope.

Abbreviation ptr := (option positive).

(** * Constants *)

Definition optimization_level : list Z := [4096; 8192; 16384; 32768; 65536].
Definition SIZE_SAFETY_LIMIT : Z := 8192.
Definition MIN_COMPRESS_BYTES : Z := 48.
Definition MIN_COMPRESS_IMPROVE : Z := 8.
Definition COMPRESS_MAX : Z := Z.shiftl 1 16.
Definition FILL_MAX : Z := Z.shiftl 1 15.
Definition QUICKLIST_HEAD : Z := 0.
Definition QUICKLIST_TAIL : Z := -1.
Definition QUICKLIST_NODE_ENCODING_RAW : Z := 1.
Definition QUICKLIST_NODE_ENCODING_LZF : Z := 2.
Definition QUICKLIST_NODE_CONTAINER_ZIPLIST : Z := 2.
Definition AL_START_HEAD : Z := 0.
Definition AL_START_TAIL : Z := 1.

(** * Data *)

Record quicklistNode := QNode {
  prev : ptr;
  next : ptr;
  zl : option bytes;
  sz : Z;
  count : Z;
  encoding : Z;
  container : Z;
  recompress : Z
}.

Record quicklist := Quicklist {
  head : ptr;
  tail : ptr;
  ql_count : Z;
  len : Z;
  fill : Z;
  compress : Z
}.

Record quicklistIter := QIter {
  current : ptr;
  it_zi : option Z;
  it_offset : Z;
  direction : Z
}.

Record quicklistEntry := QEntry {
  node : ptr;
  zi : option Z;
  value : option zlval;
  offset : Z
}.

Definition initEntry : quicklistEntry := QEntry None None None 123456789.

Abbreviation heap := (gmap positive quicklistNode).

Definition deref (h : heap) (p : ptr) : option quicklistNode := a ← p; h !! a.
(** An assignment to a field of the node a pointer designates. *)
Definition assign (h : heap) (p : ptr) (f : quicklistNode -> quicklistNode) : option heap :=
  a ← p; n ← h !! a; Some (<[a := f n]> h).

Definition with_prev (q : ptr) (n : quicklistNode) : quicklistNode :=
  QNode q (next n) (zl n) (sz n) (count n) (encoding n) (container n) (recompress n).
Definition with_next (q : ptr) (n : quicklistNode) : quicklistNode :=
  QNode (prev n) q (zl n) (sz n) (count n) (encoding n) (container n) (recompress n).
Definition with_zl (z : bytes) (n : quicklistNode) : quicklistNode :=
  QNode (prev n) (next n) (Some z) (sz n) (count n) (encoding n) (container n) (recompress n).
Definition with_sz (s : Z) (n : quicklistNode) : quicklistNode :=
  QNode (prev n) (next n) (zl n) s (count n) (encoding n) (container n) (recompress n).
(** [count] is a bit field of 16 bits. *)
Definition with_count (c : Z) (n : quicklistNode) : quicklistNode :=
  QNode (prev n) (next n) (zl n) (sz n) (u16 c) (encoding n) (container n) (recompress n).
Definition with_encoding (e : Z) (n : quicklistNode) : quicklistNode :=
  QNode (prev n) (next n) (zl n) (sz n) (count n) e (container n) (recompress n).
Definition with_recompress (r : Z) (n : quicklistNode) : quicklistNode :=
  QNode (prev n) (next n) (zl n) (sz n) (count n) (encoding n) (container n) r.

Definition with_head (p : ptr) (ql : quicklist) : quicklist :=
  Quicklist p (tail ql) (ql_count ql) (len ql) (fill ql) (compress ql).
Definition with_tail (p : ptr) (ql : quicklist) : quicklist :=
  Quicklist (head ql) p (ql_count ql) (len ql) (fill ql) (compress ql).
Definition with_ql_count (c : Z) (ql : quicklist) : quicklist :=
  Quicklist (head ql) (tail ql) (u64 c) (len ql) (fill ql) (compress ql).
Definition with_len (n : Z) (ql : quicklist) : quicklist :=
  Quicklist (head ql) (tail ql) (ql_count ql) (u64 n) (fill ql) (compress ql).
(** [fill] is a signed and [compress] an unsigned bit field of 16 bits. *)
Definition with_fill (f : Z) (ql : quicklist) : quicklist :=
  Quicklist (head ql) (tail ql) (ql_count ql) (len ql) (s16 f) (compress ql).
Definition with_compress (c : Z) (ql : quicklist) : quicklist :=
  Quicklist (head ql) (tail ql) (ql_count ql) (len ql) (fill ql) (u16 c).

(** * Creation and options *)

Definition quicklistCreate : quicklist := Quicklist None None 0 0 (-2) 0.

Definition quicklistSetCompressDepth (ql : quicklist) (compress : Z) : quicklist :=
  let compress := if COMPRESS_MAX <? compress then COMPRESS_MAX else if compress <? 0 then 0 else compress in
  with_compress compress ql.

Definition quicklistSetFill (ql : quicklist) (fill : Z) : quicklist :=
  let fill := if FILL_MAX <? fill then FILL_MAX else if fill <? -5 then -5 else fill in
  with_fill fill ql.

Definition quicklistSetOptions (ql : quicklist) (fill depth : Z) : quicklist :=
  quicklistSetCompressDepth (quicklistSetFill ql fill) depth.

Definition quicklistNew (fill compress : Z) : quicklist := quicklistSetOptions quicklistCreate fill compress.

(** A new node, not linked yet. *)
Definition quicklistCreateNode (h : heap) : heap * positive :=
  let a := fresh (dom h) in
  (<[a := QNode None None None 0 0 QUICKLIST_NODE_ENCODING_RAW QUICKLIST_NODE_CONTAINER_ZIPLIST 0]> h, a).

Definition quicklistCount (ql : quicklist) : Z := ql_count ql.

Fixpoint release_loop (len : nat) (h : heap) (current : ptr) : option heap :=
  match len with
  | O => Some h
  | S len =>
      a ← current; n ← h !! a;
      release_loop len (delete a h) (next n)
  end.

(** The nodes left after the release of the list; its header is gone. *)
Definition quicklistRelease (h : heap) (ql : quicklist) : option heap :=
  release_loop (Z.to_nat (len ql)) h (head ql).

Definition quicklistAllowsCompression (ql : quicklist) : bool := negb (compress ql =? 0).

(** * Compression *)

Section with_memory.
Context (htab : LZF_STATE) (garbage : Z -> bytes).

Definition __quicklistCompressNode (h : heap) (a : positive) : option (heap * bool) :=
  n ← h !! a;
  if sz n <? MIN_COMPRESS_BYTES then Some (h, false)
  else
    z ← zl n;
    data ← zsub z 0 (sz n);
    '(lzf_sz, out) ← lzf_compress data htab (garbage (sz n));
    if (lzf_sz =? 0) || (sz n <=? lzf_sz + MIN_COMPRESS_IMPROVE) then Some (h, false)
    else
      compressed ← zsub out 0 lzf_sz;
      let lzf := le_bytes 4 lzf_sz ++ compressed in
      Some (<[a := with_recompress 0 (with_encoding QUICKLIST_NODE_ENCODING_LZF (with_zl lzf n))]> h, true).

Definition quicklistCompressNode (h : heap) (p : ptr) : option heap :=
  match p with
  | None => Some h
  | Some a =>
      n ← h !! a;
      if encoding n =? QUICKLIST_NODE_ENCODING_RAW then '(h, _) ← __quicklistCompressNode h a; Some h
      else Some h
  end.

(** [quicklistGetLzf], as the data itself. *)
Definition quicklistGetLzf (h : heap) (a : positive) : option bytes :=
  n ← h !! a; z ← zl n;
  s ← zsub z 0 4; zsub z 4 (le_value s).

Definition __quicklistDecompressNode (h : heap) (a : positive) : option (heap * bool) :=
  n ← h !! a;
  compressed ← quicklistGetLzf h a;
  '(r, out) ← lzf_decompress compressed (garbage (sz n));
  if r =? 0 then Some (h, false)
  else Some (<[a := with_encoding QUICKLIST_NODE_ENCODING_RAW (with_zl out n)]> h, true).

Definition quicklistDecompressNode (h : heap) (p : ptr) : option heap :=
  match p with
  | None => Some h
  | Some a =>
      n ← h !! a;
      if encoding n =? QUICKLIST_NODE_ENCODING_LZF then '(h, _) ← __quicklistDecompressNode h a; Some h
      else Some h
  end.

Definition quicklistDecompressNodeForUse (h : heap) (p : ptr) : option heap :=
  match p with
  | None => Some h
  | Some a =>
      n ← h !! a;
      if encoding n =? QUICKLIST_NODE_ENCODING_LZF then
        '(h, _) ← __quicklistDecompressNode h a; assign h p (with_recompress 1)
      else Some h
  end.

(** The walk from both ends: [inl] is the early return, otherwise where the two cursors stand and
    whether [node] was passed. *)
Fixpoint compress_walk (depth : nat) (h : heap) (node forward reverse : ptr) (in_depth : bool)
    : option (heap + heap * ptr * ptr * bool) :=
  match depth with
  | O => Some (inr (h, forward, reverse, in_depth))
  | S depth =>
      h ← quicklistDecompressNode h forward;
      h ← quicklistDecompressNode h reverse;
      let in_depth := in_depth || bool_decide (forward = node) || bool_decide (reverse = node) in
      if bool_decide (forward = reverse) then Some (inl h)
      else
        f ← deref h forward;
        r ← deref h reverse;
        compress_walk depth h node (next f) (prev r) in_depth
  end.

Definition __quicklistCompress (h : heap) (ql : quicklist) (node : ptr) : option heap :=
  if negb (quicklistAllowsCompression ql) || (len ql <? u32 (compress ql * 2)) then Some h
  else
    r ← compress_walk (Z.to_nat (compress ql)) h node (head ql) (tail ql) false;
    match r with
    | inl h => Some h
    | inr (h, forward, reverse, in_depth) =>
        h ← (if negb in_depth then quicklistCompressNode h node else Some h);
        if 2 <? compress ql + 1 then
          h ← quicklistCompressNode h forward;
          quicklistCompressNode h reverse
        else Some h
    end.

Definition quicklistCompress (h : heap) (ql : quicklist) (a : positive) : option heap :=
  n ← h !! a;
  if recompress n =? 0 then __quicklistCompress h ql (Some a) else quicklistCompressNode h (Some a).

Definition quicklistRecompressOnly (h : heap) (a : positive) : option heap :=
  n ← h !! a;
  if recompress n =? 0 then Some h else quicklistCompressNode h (Some a).

(** * Nodes *)

Definition __quicklistInsertNode (h : heap) (ql : quicklist) (old_node : ptr) (new_node : positive) (after : bool)
    : option (heap * quicklist) :=
  '(h, ql) ←
    (if after then
       h ← assign h (Some new_node) (with_prev old_node);
       h ← match old_node with
           | Some _ =>
               o ← deref h old_node;
               h ← assign h (Some new_node) (with_next (next o));
               h ← match next o with Some _ => assign h (next o) (with_prev (Some new_node)) | None => Some h end;
               assign h old_node (with_next (Some new_node))
           | None => Some h
           end;
       Some (h, if bool_decide (tail ql = old_node) then with_tail (Some new_node) ql else ql)
     else
       h ← assign h (Some new_node) (with_next old_node);
       h ← match old_node with
           | Some _ =>
               o ← deref h old_node;
               h ← assign h (Some new_node) (with_prev (prev o));
               h ← match prev o with Some _ => assign h (prev o) (with_next (Some new_node)) | None => Some h end;
               assign h old_node (with_prev (Some new_node))
           | None => Some h
           end;
       Some (h, if bool_decide (head ql = old_node) then with_head (Some new_node) ql else ql));
  let ql := if len ql =? 0 then with_tail (Some new_node) (with_head (Some new_node) ql) else ql in
  h ← match old_node with Some a => quicklistCompress h ql a | None => Some h end;
  Some (h, with_len (len ql + 1) ql).

Definition _quicklistInsertNodeBefore (h : heap) (ql : quicklist) (old_node : ptr) (new_node : positive) :=
  __quicklistInsertNode h ql old_node new_node false.
Definition _quicklistInsertNodeAfter (h : heap) (ql : quicklist) (old_node : ptr) (new_node : positive) :=
  __quicklistInsertNode h ql old_node new_node true.

Definition _quicklistNodeSizeMeetsOptimizationRequirement (sz fill : Z) : bool :=
  if 0 <=? fill then false
  else
    let offset := - fill - 1 in
    match zget optimization_level offset with Some l => sz <=? l | None => false end.

Definition sizeMeetsSafetyLimit (sz : Z) : bool := sz <=? SIZE_SAFETY_LIMIT.

(** [None] outside: [p] is dangling. *)
Definition _quicklistNodeAllowInsert (h : heap) (p : ptr) (fill size : Z) : option bool :=
  match p with
  | None => Some false
  | Some a =>
      n ← h !! a;
      let ziplist_overhead := if size <? 254 then 1 else 5 in
      let ziplist_overhead :=
        if size <? 64 then ziplist_overhead + 1
        else if size <? 16384 then ziplist_overhead + 2 else ziplist_overhead + 5 in
      let new_sz := u32 (sz n + size + ziplist_overhead) in
      Some (if _quicklistNodeSizeMeetsOptimizationRequirement new_sz fill then true
            else if negb (sizeMeetsSafetyLimit new_sz) then false
            else count n <? fill)
  end.

Definition _quicklistNodeAllowMerge (h : heap) (a b : ptr) (fill : Z) : option bool :=
  match a, b with
  | Some a, Some b =>
      na ← h !! a; nb ← h !! b;
      let merge_sz := u32 (sz na + sz nb - 11) in
      Some (if _quicklistNodeSizeMeetsOptimizationRequirement merge_sz fill then true
            else if negb (sizeMeetsSafetyLimit merge_sz) then false
            else count na + count nb <=? fill)
  | _, _ => Some false
  end.

Definition quicklistNodeUpdateSz (h : heap) (a : positive) : option heap :=
  n ← h !! a; z ← zl n; s ← ziplistBlobLen z;
  assign h (Some a) (with_sz s).

(** Replace the block of a node. *)
Definition set_zl (h : heap) (a : positive) (z : bytes) : option heap := assign h (Some a) (with_zl z).
Definition get_zl (h : heap) (a : positive) : option bytes := n ← h !! a; zl n.
Definition add_count (h : heap) (a : positive) (d : Z) : option heap :=
  n ← h !! a; assign h (Some a) (with_count (count n + d)).

(** * Pushing *)

(** A new node that holds one value; its size is recorded unless the code forgets to. *)
Definition new_value_node (h : heap) (value : bytes) (where_ : Z) (update_sz : bool) : option (heap * positive) :=
  let '(h, a) := quicklistCreateNode h in
  z ← ziplistNew;
  z ← ziplistPush z value where_;
  h ← set_zl h a z;
  h ← (if update_sz then quicklistNodeUpdateSz h a else Some h);
  Some (h, a).

(** Push into the block of an existing node. *)
Definition push_into (h : heap) (a : positive) (value : bytes) (where_ : Z) : option heap :=
  z ← get_zl h a;
  z ← ziplistPush z value where_;
  h ← set_zl h a z;
  quicklistNodeUpdateSz h a.

Definition quicklistPushHead (h : heap) (ql : quicklist) (value : bytes) : option (heap * quicklist * bool) :=
  let orig_head := head ql in
  allow ← _quicklistNodeAllowInsert h (head ql) (fill ql) (zlen value);
  '(h, ql) ←
    (if allow : bool then
       a ← head ql;
       h ← push_into h a value ZIPLIST_HEAD; Some (h, ql)
     else
       '(h, node) ← new_value_node h value ZIPLIST_HEAD true;
       _quicklistInsertNodeBefore h ql (head ql) node);
  let ql := with_ql_count (ql_count ql + 1) ql in
  a ← head ql;
  h ← add_count h a 1;
  Some (h, ql, negb (bool_decide (orig_head = head ql))).

Definition quicklistPushTail (h : heap) (ql : quicklist) (value : bytes) : option (heap * quicklist * bool) :=
  let orig_tail := tail ql in
  allow ← _quicklistNodeAllowInsert h (tail ql) (fill ql) (zlen value);
  '(h, ql) ←
    (if allow : bool then
       a ← tail ql;
       h ← push_into h a value ZIPLIST_TAIL; Some (h, ql)
     else
       '(h, node) ← new_value_node h value ZIPLIST_TAIL true;
       _quicklistInsertNodeAfter h ql (tail ql) node);
  let ql := with_ql_count (ql_count ql + 1) ql in
  a ← tail ql;
  h ← add_count h a 1;
  Some (h, ql, negb (bool_decide (orig_tail = tail ql))).

Definition quicklistPush (h : heap) (ql : quicklist) (value : bytes) (where_ : Z) : option (heap * quicklist) :=
  if where_ =? QUICKLIST_HEAD then '(h, ql, _) ← quicklistPushHead h ql value; Some (h, ql)
  else if where_ =? QUICKLIST_TAIL then '(h, ql, _) ← quicklistPushTail h ql value; Some (h, ql)
  else Some (h, ql).

Definition quicklistAppendZiplist (h : heap) (ql : quicklist) (z : bytes) : option (heap * quicklist) :=
  let '(h, a) := quicklistCreateNode h in
  '(z, n) ← ziplistLen z;
  h ← set_zl h a z;
  h ← assign h (Some a) (with_count n);
  h ← quicklistNodeUpdateSz h a;
  '(h, ql) ← _quicklistInsertNodeAfter h ql (tail ql) a;
  n ← h !! a;
  Some (h, with_ql_count (ql_count ql + count n) ql).

(** The string of a value read from a ziplist, an integer through [ll2string] and a buffer of 32
    bytes. *)
Definition value_string (v : zlval) : option bytes :=
  match v with
  | ZStr s => Some s
  | ZInt v => '(dst, n) ← ll2string (replicate 32 0) 32 v; zsub dst 0 n
  end.

Fixpoint append_values (fuel : nat) (h : heap) (ql : quicklist) (z : bytes) (p : option Z)
    : option (heap * quicklist) :=
  match fuel with
  | O => None
  | S fuel =>
      v ← ziplistGet z p;
      match v with
      | None => Some (h, ql)
      | Some v =>
          value ← value_string v;
          '(h, ql, _) ← quicklistPushTail h ql value;
          q ← p;
          p ← ziplistNext z q;
          append_values fuel h ql z p
      end
  end.

Definition quicklistAppendValuesFromZiplist (h : heap) (ql : quicklist) (z : bytes) : option (heap * quicklist) :=
  p ← ziplistIndex z 0;
  append_values (length z) h ql z p.

Definition quicklistCreateFromZiplist (h : heap) (fill compress : Z) (z : bytes) : option (heap * quicklist) :=
  quicklistAppendValuesFromZiplist h (quicklistNew fill compress) z.

(** * Deleting *)

Definition __quicklistDelNode (h : heap) (ql : quicklist) (a : positive) : option (heap * quicklist) :=
  n ← h !! a;
  h ← match next n with Some _ => assign h (next n) (with_prev (prev n)) | None => Some h end;
  n ← h !! a;
  h ← match prev n with Some _ => assign h (prev n) (with_next (next n)) | None => Some h end;
  n ← h !! a;
  let ql := if bool_decide (Some a = tail ql) then with_tail (prev n) ql else ql in
  let ql := if bool_decide (Some a = head ql) then with_head (next n) ql else ql in
  h ← __quicklistCompress h ql None;
  n ← h !! a;
  let ql := with_ql_count (ql_count ql - count n) ql in
  Some (delete a h, with_len (len ql - 1) ql).

(** Whether the node is gone, and the updated position. *)
Definition quicklistDelIndex (h : heap) (ql : quicklist) (a : positive) (p : Z)
    : option (heap * quicklist * bool * Z) :=
  z ← get_zl h a;
  '(z, p) ← ziplistDelete z p;
  h ← set_zl h a z;
  h ← add_count h a (-1);
  n ← h !! a;
  '(h, ql, gone) ←
    (if count n =? 0 then '(h, ql) ← __quicklistDelNode h ql a; Some (h, ql, true)
     else h ← quicklistNodeUpdateSz h a; Some (h, ql, false));
  Some (h, with_ql_count (ql_count ql - 1) ql, gone, p).

Definition quicklistDelEntry (h : heap) (ql : quicklist) (iter : quicklistIter) (entry : quicklistEntry)
    : option (heap * quicklist * quicklistIter) :=
  a ← node entry;
  n ← h !! a;
  p ← zi entry;
  '(h, ql, deleted_node, _) ← quicklistDelIndex h ql a p;
  let iter := QIter (current iter) None (it_offset iter) (direction iter) in
  let iter :=
    if deleted_node : bool then
      if direction iter =? AL_START_HEAD then QIter (next n) None 0 (direction iter)
      else if direction iter =? AL_START_TAIL then QIter (prev n) None (-1) (direction iter)
      else iter
    else iter in
  Some (h, ql, iter).

(** * Access by index *)

(** [while (likely(n))]: the node that has the element and the elements passed before it. *)
Fixpoint index_walk (fuel : nat) (h : heap) (forward : bool) (n : ptr) (accum index : Z) : option (ptr * Z) :=
  match n with
  | None => Some (None, accum)
  | Some a =>
      match fuel with
      | O => None
      | S fuel =>
          nd ← h !! a;
          if index <? u64 (accum + count nd) then Some (Some a, accum)
          else index_walk fuel h forward (if forward then next nd else prev nd) (u64 (accum + count nd)) index
      end
  end.

(** The heap, whose node found is decompressed, whether there is an element, and the entry. *)
Definition quicklistIndex (h : heap) (ql : quicklist) (idx : Z) : option (heap * bool * quicklistEntry) :=
  let forward := negb (idx <? 0) in
  let index := if forward then idx else u64 (- idx - 1) in
  let n := if forward then head ql else tail ql in
  if ql_count ql <=? index then Some (h, false, initEntry)
  else
    '(n, accum) ← index_walk (S (size h)) h forward n 0 index;
    match n with
    | None => Some (h, false, initEntry)
    | Some a =>
        let offset := if forward then s32 (u64 (index - accum)) else s32 (u64 (- index - 1 + accum)) in
        h ← quicklistDecompressNodeForUse h (Some a);
        z ← get_zl h a;
        p ← ziplistIndex z offset;
        v ← ziplistGet z p;
        Some (h, true, QEntry (Some a) p v offset)
    end.

Definition quicklistReplaceAtIndex (h : heap) (ql : quicklist) (index : Z) (data : bytes) : option (heap * bool) :=
  '(h, found, entry) ← quicklistIndex h ql index;
  if found : bool then
    a ← node entry;
    p ← zi entry;
    z ← get_zl h a;
    '(z, p) ← ziplistDelete z p;
    z ← ziplistInsert z p data;
    h ← set_zl h a z;
    h ← quicklistNodeUpdateSz h a;
    h ← quicklistCompress h ql a;
    Some (h, true)
  else Some (h, false).

(** * Merging and splitting nodes *)

Definition _quicklistZiplistMerge (h : heap) (ql : quicklist) (a b : positive) : option (heap * quicklist * ptr) :=
  h ← quicklistDecompressNode h (Some a);
  h ← quicklistDecompressNode h (Some b);
  na ← h !! a; nb ← h !! b;
  m ← ziplistMerge (zl na) (zl nb) (bool_decide (a = b));
  match m with
  | None => Some (h, ql, None)
  | Some (z, first) =>
      let '(keep, nokeep) := if first : bool then (a, b) else (b, a) in
      '(z, n) ← ziplistLen z;
      h ← set_zl h keep z;
      h ← assign h (Some keep) (with_count n);
      h ← quicklistNodeUpdateSz h keep;
      h ← assign h (Some nokeep) (with_count 0);
      '(h, ql) ← __quicklistDelNode h ql nokeep;
      h ← quicklistCompress h ql keep;
      Some (h, ql, Some keep)
  end.

(** The merge of two pointers the test before it has found not to be NULL. *)
Definition merge_if (h : heap) (ql : quicklist) (allow : bool) (a b : ptr) : option (heap * quicklist * ptr) :=
  if allow then a ← a; b ← b; _quicklistZiplistMerge h ql a b else Some (h, ql, None).

Definition _quicklistMergeNodes (h : heap) (ql : quicklist) (center : positive) : option (heap * quicklist) :=
  let fill := fill ql in
  c ← h !! center;
  let prv := prev c in
  prev_prev ← match prv with Some _ => n ← deref h prv; Some (prev n) | None => Some None end;
  let nxt := next c in
  next_next ← match nxt with Some _ => n ← deref h nxt; Some (next n) | None => Some None end;
  allow ← _quicklistNodeAllowMerge h prv prev_prev fill;
  '(h, ql, _) ← merge_if h ql allow prev_prev prv;
  allow ← _quicklistNodeAllowMerge h nxt next_next fill;
  '(h, ql, _) ← merge_if h ql allow nxt next_next;
  c ← h !! center;
  allow ← _quicklistNodeAllowMerge h (Some center) (prev c) fill;
  '(h, ql, target) ←
    (if allow : bool then merge_if h ql true (prev c) (Some center) else Some (h, ql, Some center));
  t ← deref h target;
  allow ← _quicklistNodeAllowMerge h target (next t) fill;
  '(h, ql, _) ← merge_if h ql allow target (next t);
  Some (h, ql).

Definition _quicklistSplitNode (h : heap) (a : positive) (offset : Z) (after : bool) : option (heap * positive) :=
  n ← h !! a;
  let zl_sz := sz n in
  let '(h, new_node) := quicklistCreateNode h in
  z ← zl n;
  copy ← zsub z 0 zl_sz;
  h ← set_zl h new_node copy;
  let orig_start := if after then offset + 1 else 0 in
  let orig_extent := if after then -1 else offset in
  let new_start := if after then 0 else offset in
  let new_extent := if after then offset + 1 else -1 in
  z ← ziplistDeleteRange z orig_start (u32 orig_extent);
  '(z, c) ← ziplistLen z;
  h ← set_zl h a z;
  h ← assign h (Some a) (with_count c);
  h ← quicklistNodeUpdateSz h a;
  copy ← ziplistDeleteRange copy new_start (u32 new_extent);
  '(copy, c) ← ziplistLen copy;
  h ← set_zl h new_node copy;
  h ← assign h (Some new_node) (with_count c);
  h ← quicklistNodeUpdateSz h new_node;
  Some (h, new_node).

(** * Inserting at an entry *)

(** The body shared by the branches that push into a neighbour. *)
Definition push_neighbour (h : heap) (p : ptr) (value : bytes) (where_ : Z) : option heap :=
  a ← p;
  h ← quicklistDecompressNodeForUse h (Some a);
  z ← get_zl h a;
  z ← ziplistPush z value where_;
  h ← set_zl h a z;
  h ← add_count h a 1;
  h ← quicklistNodeUpdateSz h a;
  quicklistRecompressOnly h a.

(** The branches that insert into the node of the entry. *)
Definition insert_here (h : heap) (a : positive) (p : option Z) (value : bytes) (after : bool) : option heap :=
  h ← quicklistDecompressNodeForUse h (Some a);
  z ← get_zl h a;
  q ← p;
  z ← (if after then
         next ← ziplistNext z q;
         match next with
         | None => ziplistPush z value ZIPLIST_TAIL
         | Some q => ziplistInsert z q value
         end
       else ziplistInsert z q value);
  h ← set_zl h a z;
  h ← add_count h a 1;
  h ← quicklistNodeUpdateSz h a;
  quicklistRecompressOnly h a.

(** A full node is split, the value goes to the end of the new node that faces it. *)
Definition insert_split (h : heap) (ql : quicklist) (a : positive) (offset : Z) (value : bytes) (after : bool)
    : option (heap * quicklist) :=
  h ← quicklistDecompressNodeForUse h (Some a);
  '(h, new_node) ← _quicklistSplitNode h a offset after;
  z ← get_zl h new_node;
  z ← ziplistPush z value (if after then ZIPLIST_HEAD else ZIPLIST_TAIL);
  h ← set_zl h new_node z;
  h ← add_count h new_node 1;
  h ← quicklistNodeUpdateSz h new_node;
  '(h, ql) ← __quicklistInsertNode h ql (Some a) new_node after;
  _quicklistMergeNodes h ql a.

Definition _quicklistInsert (h : heap) (ql : quicklist) (entry : quicklistEntry) (value : bytes) (after : bool)
    : option (heap * quicklist) :=
  let fill := fill ql in
  let sz := zlen value in
  match node entry with
  | None =>
      '(h, new_node) ← new_value_node h value ZIPLIST_HEAD false;
      '(h, ql) ← __quicklistInsertNode h ql None new_node after;
      h ← add_count h new_node 1;
      Some (h, with_ql_count (ql_count ql + 1) ql)
  | Some a =>
      n ← h !! a;
      allow ← _quicklistNodeAllowInsert h (Some a) fill sz;
      let full := negb allow in
      let at_tail := after && (offset entry =? count n) in
      let at_head := negb after && (offset entry =? 0) in
      allow_next ← (if at_tail then _quicklistNodeAllowInsert h (next n) fill sz else Some true);
      allow_prev ← (if at_head then _quicklistNodeAllowInsert h (prev n) fill sz else Some true);
      let full_next := negb allow_next in
      let full_prev := negb allow_prev in
      let has_next := bool_decide (next n <> None) in
      let has_prev := bool_decide (prev n <> None) in
      '(h, ql) ←
        (if negb full then h ← insert_here h a (zi entry) value after; Some (h, ql)
         else if at_tail && has_next && negb full_next && after then
           h ← push_neighbour h (next n) value ZIPLIST_HEAD; Some (h, ql)
         else if at_head && has_prev && negb full_prev && negb after then
           h ← push_neighbour h (prev n) value ZIPLIST_TAIL; Some (h, ql)
         else if at_tail && has_next && full_next && after || at_head && has_prev && full_prev && negb after then
           '(h, new_node) ← new_value_node h value ZIPLIST_HEAD false;
           h ← add_count h new_node 1;
           h ← quicklistNodeUpdateSz h new_node;
           __quicklistInsertNode h ql (Some a) new_node after
         else insert_split h ql a (offset entry) value after);
      Some (h, with_ql_count (ql_count ql + 1) ql)
  end.

Definition quicklistInsertBefore (h : heap) (ql : quicklist) (entry : quicklistEntry) (value : bytes) :=
  _quicklistInsert h ql entry value false.
Definition quicklistInsertAfter (h : heap) (ql : quicklist) (entry : quicklistEntry) (value : bytes) :=
  _quicklistInsert h ql entry value true.

(** * Deleting a range *)

(** How much of the node is deleted, an unsigned 64-bit number, and whether it goes entirely. *)
Definition del_amount (offset extent count : Z) : Z * bool :=
  if (offset =? 0) && (count <=? extent) then (count, true)
  else if (0 <=? offset) && (count <=? extent) then (u64 (count - offset), false)
  else if offset <? 0 then (if extent <? - offset then extent else - offset, false)
  else (extent, false).

Definition quicklistDeleteIfEmpty (h : heap) (ql : quicklist) (a : positive) : option (heap * quicklist * ptr) :=
  n ← h !! a;
  if count n =? 0 then '(h, ql) ← __quicklistDelNode h ql a; Some (h, ql, None)
  else Some (h, ql, Some a).

(** A part of the values of a node. *)
Definition del_from_node (h : heap) (ql : quicklist) (a : positive) (offset del : Z) : option (heap * quicklist) :=
  h ← quicklistDecompressNodeForUse h (Some a);
  z ← get_zl h a;
  z ← ziplistDeleteRange z offset (u32 del);
  h ← set_zl h a z;
  h ← quicklistNodeUpdateSz h a;
  h ← add_count h a (- del);
  let ql := with_ql_count (ql_count ql - del) ql in
  '(h, ql, remaining) ← quicklistDeleteIfEmpty h ql a;
  match remaining with
  | Some a => h ← quicklistRecompressOnly h a; Some (h, ql)
  | None => Some (h, ql)
  end.

Fixpoint del_range_loop (fuel : nat) (h : heap) (ql : quicklist) (p : ptr) (offset extent : Z)
    : option (heap * quicklist) :=
  if extent =? 0 then Some (h, ql)
  else
    match fuel with
    | O => None
    | S fuel =>
        a ← p;
        n ← h !! a;
        let '(del, delete_entire_node) := del_amount offset extent (count n) in
        '(h, ql) ←
          (if delete_entire_node : bool then __quicklistDelNode h ql a else del_from_node h ql a offset del);
        del_range_loop fuel h ql (next n) 0 (u64 (extent - del))
    end.

Definition quicklistDelRange (h : heap) (ql : quicklist) (start count : Z) : option (heap * quicklist * bool) :=
  if count <=? 0 then Some (h, ql, false)
  else
    let extent :=
      if (0 <=? start) && (u64 (ql_count ql - start) <? count) then u64 (ql_count ql - start)
      else if (start <? 0) && (u64 (- start) <? count) then u64 (- start)
      else count in
    '(h, found, entry) ← quicklistIndex h ql start;
    if negb found then Some (h, ql, false)
    else
      '(h, ql) ← del_range_loop (S (size h)) h ql (node entry) (offset entry) extent;
      Some (h, ql, true).

Definition quicklistCompare (z : bytes) (p : Z) (s : bytes) : option bool := ziplistCompare z p s.

(** * Iterators *)

(** A direction that is neither of the two leaves the position uninitialised: [None]. *)
Definition quicklistGetIterator (ql : quicklist) (direction : Z) : option quicklistIter :=
  if direction =? AL_START_HEAD then Some (QIter (head ql) None 0 direction)
  else if direction =? AL_START_TAIL then Some (QIter (tail ql) None (-1) direction)
  else None.

Definition quicklistGetIteratorAtIdx (h : heap) (ql : quicklist) (direction idx : Z)
    : option (heap * option quicklistIter) :=
  '(h, found, entry) ← quicklistIndex h ql idx;
  if found : bool then Some (h, Some (QIter (node entry) None (offset entry) direction))
  else Some (h, None).

Definition quicklistReleaseIterator (h : heap) (ql : quicklist) (iter : quicklistIter) : option heap :=
  match current iter with
  | Some a => quicklistCompress h ql a
  | None => Some h
  end.

(** The iterator's offset is a long, the entry's and [ziplistIndex]'s an int. *)
Fixpoint next_loop (fuel : nat) (h : heap) (ql : quicklist) (iter : quicklistIter)
    : option (heap * quicklistIter * quicklistEntry * bool) :=
  match current iter with
  | None => Some (h, iter, initEntry, false)
  | Some a =>
      match fuel with
      | O => None
      | S fuel =>
          '(h, p, off) ←
            match it_zi iter with
            | None =>
                h ← quicklistDecompressNodeForUse h (Some a);
                z ← get_zl h a;
                p ← ziplistIndex z (s32 (it_offset iter));
                Some (h, p, it_offset iter)
            | Some q =>
                z ← get_zl h a;
                if direction iter =? AL_START_HEAD then p ← ziplistNext z q; Some (h, p, s64 (it_offset iter + 1))
                else if direction iter =? AL_START_TAIL then p ← ziplistPrev z q; Some (h, p, s64 (it_offset iter - 1))
                else None
            end;
          match p with
          | Some _ =>
              z ← get_zl h a;
              v ← ziplistGet z p;
              Some (h, QIter (Some a) p off (direction iter), QEntry (Some a) p v (s32 off), true)
          | None =>
              h ← quicklistCompress h ql a;
              n ← h !! a;
              next_loop fuel h ql
                (if direction iter =? AL_START_HEAD then QIter (next n) None 0 (direction iter)
                 else if direction iter =? AL_START_TAIL then QIter (prev n) None (-1) (direction iter)
                 else QIter (Some a) None off (direction iter))
          end
      end
  end.

(** The heap, the iterator after the step, the entry, and whether there is one. *)
Definition quicklistNext (h : heap) (ql : quicklist) (iter : option quicklistIter)
    : option (heap * option quicklistIter * quicklistEntry * bool) :=
  match iter with
  | None => Some (h, None, initEntry, false)
  | Some iter => '(h, iter, entry, more) ← next_loop (S (size h)) h ql iter; Some (h, Some iter, entry, more)
  end.

(** * Copying, rotating, popping *)

Fixpoint dup_loop (fuel : nat) (h : heap) (copy : quicklist) (current : ptr) : option (heap * quicklist) :=
  match current with
  | None => Some (h, copy)
  | Some a =>
      match fuel with
      | O => None
      | S fuel =>
          c ← h !! a;
          let '(h, b) := quicklistCreateNode h in
          z ← zl c;
          block ←
            (if encoding c =? QUICKLIST_NODE_ENCODING_LZF then
               s ← zsub z 0 4; zsub z 0 (4 + le_value s)
             else if encoding c =? QUICKLIST_NODE_ENCODING_RAW then zsub z 0 (sz c)
             else None);
          h ← set_zl h b block;
          h ← assign h (Some b) (with_count (count c));
          let copy := with_ql_count (ql_count copy + count c) copy in
          h ← assign h (Some b) (with_sz (sz c));
          h ← assign h (Some b) (with_encoding (encoding c));
          '(h, copy) ← _quicklistInsertNodeAfter h copy (tail copy) b;
          c ← h !! a;
          dup_loop fuel h copy (next c)
      end
  end.

(** The copy's nodes are put in the same heap. *)
Definition quicklistDup (h : heap) (orig : quicklist) : option (heap * quicklist) :=
  dup_loop (S (size h)) h (quicklistNew (fill orig) (compress orig)) (head orig).

(** The value is a pointer into the block of the tail; [None] when its bytes are read after that
    block has been reallocated. *)
Definition quicklistRotate (h : heap) (ql : quicklist) : option (heap * quicklist) :=
  if ql_count ql <=? 1 then Some (h, ql)
  else
    t ← tail ql;
    z ← get_zl h t;
    p ← ziplistIndex z (-1);
    v ← ziplistGet z p;
    v ← v;
    value ← value_string v;
    allow ← _quicklistNodeAllowInsert h (head ql) (fill ql) (zlen value);
    if allow && bool_decide (head ql = tail ql) && match v with ZStr (_ :: _) => true | _ => false end then None
    else
      '(h, ql, _) ← quicklistPushHead h ql value;
      t ← tail ql;
      z ← get_zl h t;
      p ← (if len ql =? 1 then ziplistIndex z (-1) else Some p);
      p ← p;
      '(h, ql, _, _) ← quicklistDelIndex h ql t p;
      Some (h, ql).

(** The element, a string through [saver] or an integer; [None] for the return value 0. *)
Definition quicklistPopCustom {A} (saver : bytes -> A) (h : heap) (ql : quicklist) (where_ : Z)
    : option (heap * quicklist * option (A + Z)) :=
  if ql_count ql =? 0 then Some (h, ql, None)
  else
    let pos := if where_ =? QUICKLIST_HEAD then 0 else -1 in
    match (if where_ =? QUICKLIST_HEAD then head ql else if where_ =? QUICKLIST_TAIL then tail ql else None) with
    | None => Some (h, ql, None)
    | Some a =>
        z ← get_zl h a;
        p ← ziplistIndex z pos;
        v ← ziplistGet z p;
        match v with
        | None => Some (h, ql, None)
        | Some v =>
            let data := match v with ZStr s => inl (saver s) | ZInt v => inr v end in
            p ← p;
            '(h, ql, _, _) ← quicklistDelIndex h ql a p;
            Some (h, ql, Some data)
        end
    end.

Definition _quicklistSaver (data : bytes) : bytes := data.

Definition quicklistPop (h : heap) (ql : quicklist) (where_ : Z) : option (heap * quicklist * option (bytes + Z)) :=
  quicklistPopCustom _quicklistSaver h ql where_.

End with_memory.
