(* ===== verification/QuicklistNodes.v ===== *)
(** * The chain of nodes of a quicklist

    Where the nodes of a quicklist are and what the operations that relink them do: the two-way
    links of src/code/lesson1.10/redis-5.0.10/src/quicklist.c described by the list of the nodes,
    [wf], and its preservation by a change inside a node, by [__quicklistInsertNode] and by
    [__quicklistDelNode], for lists whose nodes are not compressed. *)

From Stdlib Require Import String.
From stdpp Require Import gmap.
From S2P Require Import Prelude Util Sds Ziplist ZiplistSpec Lzf Quicklist.

#[local] Open Scope list_scope.
#[local] Open Scope Z_scope.

(** A node: its address, what it is apart from its links, and the strings it is meant to hold. *)
Record cell := Cell { c_loc : positive; c_body : quicklistNode; c_strs : list bytes }.

Definition locs (l : list cell) : list positive := map c_loc l.
Definition contents (l : list cell) : list bytes := concat (map c_strs l).

(** A node with the given links. *)
Definition link (p : ptr) (b : quicklistNode) (q : ptr) : quicklistNode := with_prev p (with_next q b).

Definition firstp (l : list cell) (q : ptr) : ptr := match l with [] => q | c :: _ => Some (c_loc c) end.
Fixpoint lastp (p : ptr) (l : list cell) : ptr := match l with [] => p | c :: l => lastp (Some (c_loc c)) l end.

(** The nodes [l] are in the heap, linked, between [p] and [q]. *)
Fixpoint seg (h : heap) (p : ptr) (l : list cell) (q : ptr) : Prop :=
  match l with
  | [] => True
  | c :: l => h !! c_loc c = Some (link p (c_body c) (firstp l q)) /\ seg h (Some (c_loc c)) l q
  end.

(** The list is made of the nodes [l], which with the unlinked nodes [X] are the whole heap. *)
Record wf (X : gset positive) (h : heap) (ql : quicklist) (l : list cell) : Prop := Wf {
  wf_dup : NoDup (locs l);
  wf_seg : seg h None l None;
  wf_dom : dom h = list_to_set (locs l) ∪ X;
  wf_head : head ql = firstp l None;
  wf_tail : tail ql = lastp None l;
  wf_len : len ql = zlen l;
  wf_compress : compress ql = 0
}.

Create HintDb qlist.

(** * Chains *)

Lemma firstp_app l1 l2 q : firstp (l1 ++ l2) q = firstp l1 (firstp l2 q).
Proof. by destruct l1. Qed.

Lemma lastp_app l1 l2 : forall p, lastp p (l1 ++ l2) = lastp (lastp p l1) l2.
Proof. induction l1 as [|c l1 IH]; intros p; cbn; [done|apply IH]. Qed.

Lemma lastp_snoc p l c : lastp p (l ++ [c]) = Some (c_loc c).
Proof. by rewrite lastp_app. Qed.

Lemma firstp_in l q a : firstp l q = Some a -> q <> Some a -> In a (locs l).
Proof. destruct l as [|c l]; cbn; [by intros|]. intros [= <-] _. by left. Qed.

Lemma lastp_in l : forall p a, lastp p l = Some a -> p <> Some a -> In a (locs l).
Proof.
  induction l as [|c l IH]; intros p a; cbn; [by intros|]. intros H Hp.
  destruct (decide (c_loc c = a)) as [->|N]; [by left|]. right. apply (IH (Some (c_loc c))); [done|congruence].
Qed.

Lemma node_seg_app h l1 l2 q : forall p, seg h p (l1 ++ l2) q <-> seg h p l1 (firstp l2 q) /\ seg h (lastp p l1) l2 q.
Proof.
  induction l1 as [|c l1 IH]; intros p; cbn [app seg lastp]; [tauto|]. rewrite IH, firstp_app. tauto.
Qed.

Lemma node_seg_frame h h' l q : (forall a, In a (locs l) -> h' !! a = h !! a) -> forall p, seg h p l q -> seg h' p l q.
Proof.
  induction l as [|c l IH]; intros Hf p; cbn [seg]; [done|]. intros [H1 H2]. split.
  - rewrite Hf; [done|by left].
  - apply IH; [|done]. intros a Ha. apply Hf. by right.
Qed.

Lemma node_locs_app l1 l2 : locs (l1 ++ l2) = locs l1 ++ locs l2.
Proof. apply map_app. Qed.

Lemma contents_app l1 l2 : contents (l1 ++ l2) = contents l1 ++ contents l2.
Proof. unfold contents. by rewrite map_app, concat_app. Qed.

Lemma locs_split l1 c l2 : NoDup (locs (l1 ++ c :: l2)) ->
  NoDup (locs l1) /\ NoDup (locs l2) /\ ~ In (c_loc c) (locs l1) /\ ~ In (c_loc c) (locs l2) /\
  (forall x, In x (locs l1) -> In x (locs l2) -> False).
Proof.
  rewrite node_locs_app. cbn [locs map]. fold (locs l2). intros H. apply list.NoDup_app in H as (H1 & Hd & H2).
  apply list.NoDup_cons in H2 as [Hn H2]. setoid_rewrite list_elem_of_In in Hd. rewrite list_elem_of_In in Hn.
  split_and!; try done.
  - intros Hi. apply (Hd _ Hi). by left.
  - intros x Hx Hx2. apply (Hd _ Hx). by right.
Qed.

Lemma locs_join l1 c l2 : NoDup (locs l1) -> NoDup (locs l2) -> ~ In (c_loc c) (locs l1) ->
  ~ In (c_loc c) (locs l2) -> (forall x, In x (locs l1) -> In x (locs l2) -> False) -> NoDup (locs (l1 ++ c :: l2)).
Proof.
  intros H1 H2 Hc1 Hc2 Hd. rewrite node_locs_app. cbn [locs map]. fold (locs l2). apply list.NoDup_app. split_and!; [done| |].
  - intros x Hx Hx2. apply list_elem_of_In in Hx, Hx2. destruct Hx2 as [<-|Hx2]; [done|]. by eapply Hd.
  - apply list.NoDup_cons. by rewrite list_elem_of_In.
Qed.

(** Give the first node of a chain another predecessor, the last one another successor. *)
Lemma relink_prev h p l q r : NoDup (locs l) -> seg h p l None -> q = firstp l None ->
  exists h', (match q with Some _ => assign h q (with_prev r) | None => Some h end) = Some h' /\
    seg h' r l None /\ dom h' = dom h /\ (forall a, ~ In a (locs l) -> h' !! a = h !! a).
Proof.
  intros Hd Hs ->. destruct l as [|c l]; cbn [firstp]; [by exists h|]. destruct Hs as [H1 H2].
  unfold assign. cbn [mbind option_bind]. rewrite H1. cbn [mbind option_bind]. eexists. split; [done|].
  cbn [locs map] in Hd. apply list.NoDup_cons in Hd as [Hn Hd]. rewrite list_elem_of_In in Hn. split_and!.
  - cbn [seg]. rewrite lookup_insert_eq. split; [done|]. eapply node_seg_frame; [|done].
    intros a Ha. apply lookup_insert_ne. by intros <-.
  - by apply dom_insert_lookup_L.
  - intros a Ha. apply lookup_insert_ne. intros <-. apply Ha. by left.
Qed.

Lemma relink_next h p l q r s : NoDup (locs l) -> seg h p l r -> q = lastp None l ->
  exists h', (match q with Some _ => assign h q (with_next s) | None => Some h end) = Some h' /\
    seg h' p l s /\ dom h' = dom h /\ (forall a, ~ In a (locs l) -> h' !! a = h !! a).
Proof.
  intros Hd Hs ->. destruct l as [|c l _] using rev_ind; cbn [lastp]; [by exists h|].
  rewrite lastp_snoc. apply node_seg_app in Hs as [H1 [H2 _]]. cbn [firstp seg] in *.
  unfold assign. cbn [mbind option_bind]. rewrite H2. cbn [mbind option_bind]. eexists. split; [done|].
  apply locs_split in Hd as (_ & _ & Hn & _ & _). rewrite node_locs_app. split_and!.
  - apply node_seg_app. cbn [seg firstp]. rewrite lookup_insert_eq. split; [|done]. eapply node_seg_frame; [|done].
    intros a Ha. apply lookup_insert_ne. by intros <-.
  - by apply dom_insert_lookup_L.
  - intros a Ha. apply lookup_insert_ne. intros <-. apply Ha. rewrite in_app_iff. right. by left.
Qed.

Lemma zlen_locs l : zlen (locs l) = zlen l.
Proof. unfold zlen, locs. by rewrite length_map. Qed.

Lemma wf_lookup X h ql l1 c l2 : wf X h ql (l1 ++ c :: l2) ->
  h !! c_loc c = Some (link (lastp None l1) (c_body c) (firstp l2 None)).
Proof. intros Hw. pose proof (wf_seg _ _ _ _ Hw) as H. apply node_seg_app in H as [_ [H _]]. done. Qed.

Lemma wf_size h X ql l : wf X h ql l -> (length l <= size h)%nat.
Proof.
  intros Hw. rewrite <- size_dom, (wf_dom _ _ _ _ Hw). transitivity (size (list_to_set (locs l) : gset positive)).
  - rewrite size_list_to_set by apply Hw. unfold locs. by rewrite length_map.
  - apply subseteq_size, union_subseteq_l.
Qed.

(** * Changes inside a node *)

(** An assignment that leaves the links alone. *)
Definition inner (f : quicklistNode -> quicklistNode) : Prop := forall p b q, f (link p b q) = link p (f b) q.

Lemma inner_zl z : inner (with_zl z).
Proof. done. Qed.
Lemma inner_sz s : inner (with_sz s).
Proof. done. Qed.
Lemma inner_count c : inner (with_count c).
Proof. done. Qed.
#[export] Hint Resolve inner_zl inner_sz inner_count : qlist.

Lemma assign_at X h ql l1 a b ss l2 f ss' : wf X h ql (l1 ++ Cell a b ss :: l2) -> inner f ->
  exists h', assign h (Some a) f = Some h' /\ wf X h' ql (l1 ++ Cell a (f b) ss' :: l2).
Proof.
  intros Hw Hf. pose proof (wf_lookup _ _ _ _ _ _ Hw) as Ha. cbn [c_loc c_body] in Ha.
  unfold assign. cbn [mbind option_bind]. rewrite Ha. cbn [mbind option_bind]. rewrite Hf. eexists. split; [done|].
  destruct Hw as [Hd Hs Hdom Hh Ht Hl Hc]. pose proof (locs_split _ _ _ Hd) as (Hd1 & Hd2 & Hn1 & Hn2 & Hd12).
  cbn [c_loc] in *. constructor; try done.
  - by apply locs_join.
  - apply node_seg_app in Hs as [H1 [_ H2]]. apply node_seg_app. cbn [seg c_loc c_body firstp] in *. rewrite lookup_insert_eq.
    split_and!; [|done|]; (eapply node_seg_frame; [|eassumption]); intros x Hx; apply lookup_insert_ne; by intros <-.
  - rewrite dom_insert_lookup_L by done. rewrite Hdom. by rewrite !node_locs_app.
  - rewrite Hh, !firstp_app. done.
  - rewrite Ht, !lastp_app. done.
  - rewrite Hl, !zlen_app, !zlen_cons. done.
Qed.

(** An unlinked node is changed, created or released. *)
Lemma wf_outside X h ql l a n : wf X h ql l -> a ∈ X -> ~ In a (locs l) -> wf X (<[a := n]> h) ql l.
Proof.
  intros [Hd Hs Hdom Hh Ht Hl Hc] Ha Hn. constructor; try done.
  - eapply node_seg_frame; [|done]. intros x Hx. apply lookup_insert_ne. by intros <-.
  - rewrite dom_insert_L, Hdom. set_solver.
Qed.

Lemma wf_new h ql l n : wf ∅ h ql l -> let a := fresh (dom h) in
  wf {[a]} (<[a := n]> h) ql l /\ ~ In a (locs l).
Proof.
  intros Hw a. pose proof (is_fresh (dom h)) as Hf. fold a in Hf. rewrite (wf_dom _ _ _ _ Hw) in Hf.
  assert (Hn : ~ In a (locs l)) by (rewrite <- list_elem_of_In; set_solver). split; [|done].
  destruct Hw as [Hd Hs Hdom Hh Ht Hl Hc]. constructor; try done.
  - eapply node_seg_frame; [|done]. intros x Hx. apply lookup_insert_ne. by intros <-.
  - rewrite dom_insert_L, Hdom. set_solver.
Qed.

Lemma assign_some h a n f : h !! a = Some n -> assign h (Some a) f = Some (<[a := f n]> h).
Proof. intros H. unfold assign. cbn [mbind option_bind]. by rewrite H. Qed.

(** Changes of the counters of the list do not matter to its links. *)
Lemma wf_ql_count X h ql l n : wf X h ql l -> wf X h (with_ql_count n ql) l.
Proof. by intros [Hd Hs Hdom Hh Ht Hl Hc]. Qed.
#[export] Hint Resolve wf_ql_count : qlist.

(** * Linking and unlinking a node *)

Section with_memory.
Context (htab : LZF_STATE) (garbage : Z -> bytes).

Lemma compress_off h ql p : compress ql = 0 -> __quicklistCompress htab garbage h ql p = Some h.
Proof. intros H. unfold __quicklistCompress, quicklistAllowsCompression. by rewrite H. Qed.

(** Nodes that are not compressed and not marked for it are left alone. *)
Definition plain (b : quicklistNode) : Prop := encoding b = QUICKLIST_NODE_ENCODING_RAW /\ recompress b = 0.

Lemma quicklistCompress_off h ql a n : compress ql = 0 -> h !! a = Some n -> recompress n = 0 ->
  quicklistCompress htab garbage h ql a = Some h.
Proof.
  intros Hc Ha Hr. unfold quicklistCompress. rewrite Ha. cbn [mbind option_bind]. rewrite Hr. cbn. by apply compress_off.
Qed.

Lemma recompress_off h a n : h !! a = Some n -> recompress n = 0 -> quicklistRecompressOnly htab garbage h a = Some h.
Proof. intros Ha Hr. unfold quicklistRecompressOnly. rewrite Ha. cbn [mbind option_bind]. by rewrite Hr. Qed.

Lemma decompress_off h a n : h !! a = Some n -> encoding n = QUICKLIST_NODE_ENCODING_RAW ->
  quicklistDecompressNode garbage h (Some a) = Some h.
Proof. intros Ha Hr. unfold quicklistDecompressNode. rewrite Ha. cbn [mbind option_bind]. by rewrite Hr. Qed.

Lemma for_use_off h a n : h !! a = Some n -> encoding n = QUICKLIST_NODE_ENCODING_RAW ->
  quicklistDecompressNodeForUse garbage h (Some a) = Some h.
Proof. intros Ha Hr. unfold quicklistDecompressNodeForUse. rewrite Ha. cbn [mbind option_bind]. by rewrite Hr. Qed.

Lemma firstp_is l q a : ~ In a (locs l) -> q <> Some a -> firstp l q <> Some a.
Proof. intros Hn Hq H. by apply Hn, (firstp_in l q). Qed.

Lemma lastp_is l p a : ~ In a (locs l) -> p <> Some a -> lastp p l <> Some a.
Proof. intros Hn Hq H. by apply Hn, (lastp_in l p). Qed.

Lemma lastp_any l : forall p q, l <> [] -> lastp p l = lastp q l.
Proof. by destruct l. Qed.

Lemma wf_append_len (l1 l2 : list cell) c : zlen (l1 ++ l2) + 1 < 2 ^ 64 -> u64 (zlen (l1 ++ l2) + 1) = zlen (l1 ++ c :: l2).
Proof.
  intros H. pose proof (zlen_nonneg (l1 ++ l2)). rewrite uwrap_small by (unfold urange; lia).
  rewrite !zlen_app, zlen_cons. lia.
Qed.

(** What is left to check when the node [new] has been linked between [l1] and [l2]. *)
Lemma wf_linked (h h' : heap) ql l1 l2 new nb ss : NoDup (locs (l1 ++ l2)) -> ~ In new (locs (l1 ++ l2)) ->
  seg h' None l1 (Some new) -> h' !! new = Some (link (lastp None l1) nb (firstp l2 None)) ->
  seg h' (Some new) l2 None -> dom h' = dom h -> dom h = list_to_set (locs (l1 ++ l2)) ∪ {[new]} ->
  head ql = firstp l1 (Some new) -> tail ql = lastp (Some new) l2 -> len ql = zlen (l1 ++ l2) -> compress ql = 0 ->
  zlen (l1 ++ l2) + 1 < 2 ^ 64 -> wf ∅ h' (with_len (len ql + 1) ql) (l1 ++ Cell new nb ss :: l2).
Proof.
  intros Hd Hnew Hs1 Hn Hs2 Hdom' Hdom Hh Ht Hl Hc Hlen. rewrite node_locs_app, in_app_iff in Hnew.
  rewrite node_locs_app in Hd. apply list.NoDup_app in Hd as (Hd1 & Hd & Hd2).
  constructor; cbn [head tail compress len with_len]; try done.
  - apply locs_join; cbn [c_loc]; try done; try tauto. intros x. rewrite <- !list_elem_of_In. apply Hd.
  - apply node_seg_app. cbn [seg firstp c_loc c_body]. done.
  - rewrite Hdom', Hdom, !node_locs_app. cbn [locs map c_loc]. set_solver.
  - by rewrite firstp_app.
  - by rewrite lastp_app.
  - rewrite Hl. by apply wf_append_len.
Qed.

Lemma node_after h ql l1 c l2 new nb ss : wf {[new]} h ql (l1 ++ c :: l2) -> plain (c_body c) ->
  ~ In new (locs (l1 ++ c :: l2)) -> h !! new = Some nb -> zlen (l1 ++ c :: l2) + 1 < 2 ^ 64 ->
  exists h' ql', _quicklistInsertNodeAfter htab garbage h ql (Some (c_loc c)) new = Some (h', ql') /\
    wf ∅ h' ql' (l1 ++ c :: Cell new nb ss :: l2) /\ fill ql' = fill ql /\ ql_count ql' = ql_count ql.
Proof.
  intros Hw [_ Hr] Hnew Hnb Hlen. pose proof (wf_lookup _ _ _ _ _ _ Hw) as Ha.
  destruct Hw as [Hd Hs Hdom Hh Ht Hl Hc]. pose proof (locs_split _ _ _ Hd) as (Hd1 & Hd2 & Hn1 & Hn2 & Hd12).
  rewrite node_locs_app, in_app_iff in Hnew. cbn [locs map In] in Hnew. fold (locs l2) in Hnew.
  assert (Hne : c_loc c <> new) by tauto. assert (Hnew1 : ~ In new (locs l1)) by tauto. assert (Hnew2 : ~ In new (locs l2)) by tauto.
  unfold _quicklistInsertNodeAfter, __quicklistInsertNode. rewrite (assign_some _ _ _ _ Hnb).
  unfold deref. cbn [mbind option_bind]. rewrite lookup_insert_ne, Ha by done. cbn [mbind option_bind].
  rewrite (assign_some _ _ _ _ (lookup_insert_eq _ _ _)). cbn [mbind option_bind]. rewrite insert_insert_eq.
  set (h2 := <[new := _]> h). change (next (link (lastp None l1) (c_body c) (firstp l2 None))) with (firstp l2 None).
  assert (Hs2 : seg h2 (Some (c_loc c)) l2 None).
  { apply node_seg_app in Hs as [_ [_ Hs]]. eapply node_seg_frame; [|exact Hs]. intros x Hx. apply lookup_insert_ne. by intros <-. }
  destruct (relink_prev h2 _ l2 (firstp l2 None) (Some new) Hd2 Hs2 eq_refl) as (h3 & E3 & Hs3 & Hdom3 & Hf3).
  rewrite E3. cbn [mbind option_bind].
  assert (Ha3 : h3 !! c_loc c = Some (link (lastp None l1) (c_body c) (firstp l2 None))).
  { rewrite Hf3 by done. unfold h2. by rewrite lookup_insert_ne. }
  rewrite (assign_some _ _ _ _ Ha3). cbn [mbind option_bind]. set (h4 := <[c_loc c := _]> h3).
  assert (Ha4 : h4 !! c_loc c = Some (link (lastp None l1) (c_body c) (Some new))) by (unfold h4; by rewrite lookup_insert_eq).
  set (ql1 := if bool_decide (tail ql = Some (c_loc c)) then with_tail (Some new) ql else ql).
  assert (E1 : len ql1 = zlen (l1 ++ c :: l2) /\ compress ql1 = 0 /\ fill ql1 = fill ql /\ ql_count ql1 = ql_count ql /\
    head ql1 = head ql /\ tail ql1 = lastp (Some new) l2).
  { unfold ql1. rewrite Ht, lastp_app. cbn [lastp]. destruct l2 as [|c2 l2].
    - cbn [lastp]. rewrite bool_decide_eq_true_2 by done. by split_and!.
    - cbn [locs map In lastp] in Hn2 |- *. fold (locs l2) in Hn2.
      rewrite bool_decide_eq_false_2 by (apply lastp_is; [tauto|intros [=]; tauto]).
      split_and!; try done. rewrite Ht, lastp_app. done. }
  destruct E1 as (El & Ec & Ef & Eq & Eh & Et). rewrite El.
  rewrite (proj2 (Z.eqb_neq _ _)) by (rewrite zlen_app, zlen_cons; zlia).
  rewrite (quicklistCompress_off _ _ _ _ Ec Ha4 Hr). cbn [mbind option_bind].
  do 2 eexists. split; [reflexivity|]. split; [|by cbn].
  assert (Hframe : forall x, x <> new -> x <> c_loc c -> ~ In x (locs l2) -> h4 !! x = h !! x).
  { intros x H1 H2 H3. unfold h4. rewrite lookup_insert_ne, Hf3 by done. unfold h2. by rewrite lookup_insert_ne. }
  assert (Esp : forall l, l1 ++ c :: l = (l1 ++ [c]) ++ l) by (intros l; by rewrite <- app_assoc).
  rewrite (Esp (_ :: l2)). rewrite (Esp l2) in Hd, Hs, Hdom, Hh, Hlen, El. apply (wf_linked h); try done.
  - rewrite node_locs_app, in_app_iff, node_locs_app, in_app_iff. cbn. tauto.
  - apply node_seg_app in Hs as [Hs1 _]. apply node_seg_app in Hs1 as [Hs1 _]. apply node_seg_app. cbn [seg firstp]. split; [|done].
    eapply node_seg_frame; [|exact Hs1]. intros x Hx. apply Hframe; [by intros ->..|]. intros Hx2. by eapply Hd12.
  - rewrite lastp_snoc. unfold h4. rewrite lookup_insert_ne, Hf3 by done. unfold h2. by rewrite lookup_insert_eq.
  - eapply node_seg_frame; [|exact Hs3]. intros x Hx. unfold h4. apply lookup_insert_ne. by intros <-.
  - unfold h4. rewrite dom_insert_lookup_L by done. rewrite Hdom3. unfold h2. rewrite dom_insert_L, Hdom. set_solver.
  - rewrite Eh, Hh, !firstp_app. done.
Qed.

Lemma node_before h ql l1 c l2 new nb ss : wf {[new]} h ql (l1 ++ c :: l2) -> plain (c_body c) ->
  ~ In new (locs (l1 ++ c :: l2)) -> h !! new = Some nb -> zlen (l1 ++ c :: l2) + 1 < 2 ^ 64 ->
  exists h' ql', _quicklistInsertNodeBefore htab garbage h ql (Some (c_loc c)) new = Some (h', ql') /\
    wf ∅ h' ql' (l1 ++ Cell new nb ss :: c :: l2) /\ fill ql' = fill ql /\ ql_count ql' = ql_count ql.
Proof.
  intros Hw [_ Hr] Hnew Hnb Hlen. pose proof (wf_lookup _ _ _ _ _ _ Hw) as Ha.
  destruct Hw as [Hd Hs Hdom Hh Ht Hl Hc]. pose proof (locs_split _ _ _ Hd) as (Hd1 & Hd2 & Hn1 & Hn2 & Hd12).
  rewrite node_locs_app, in_app_iff in Hnew. cbn [locs map In] in Hnew. fold (locs l2) in Hnew.
  assert (Hne : c_loc c <> new) by tauto. assert (Hnew1 : ~ In new (locs l1)) by tauto. assert (Hnew2 : ~ In new (locs l2)) by tauto.
  unfold _quicklistInsertNodeBefore, __quicklistInsertNode. rewrite (assign_some _ _ _ _ Hnb).
  unfold deref. cbn [mbind option_bind]. rewrite lookup_insert_ne, Ha by done. cbn [mbind option_bind].
  rewrite (assign_some _ _ _ _ (lookup_insert_eq _ _ _)). cbn [mbind option_bind]. rewrite insert_insert_eq.
  set (h2 := <[new := _]> h). change (prev (link (lastp None l1) (c_body c) (firstp l2 None))) with (lastp None l1).
  assert (Hs2 : seg h2 None l1 (Some (c_loc c))).
  { apply node_seg_app in Hs as [Hs _]. eapply node_seg_frame; [|exact Hs]. intros x Hx. apply lookup_insert_ne. by intros <-. }
  destruct (relink_next h2 _ l1 (lastp None l1) _ (Some new) Hd1 Hs2 eq_refl) as (h3 & E3 & Hs3 & Hdom3 & Hf3).
  rewrite E3. cbn [mbind option_bind].
  assert (Ha3 : h3 !! c_loc c = Some (link (lastp None l1) (c_body c) (firstp l2 None))).
  { rewrite Hf3 by done. unfold h2. by rewrite lookup_insert_ne. }
  rewrite (assign_some _ _ _ _ Ha3). cbn [mbind option_bind]. set (h4 := <[c_loc c := _]> h3).
  assert (Ha4 : h4 !! c_loc c = Some (link (Some new) (c_body c) (firstp l2 None))) by (unfold h4; by rewrite lookup_insert_eq).
  set (ql1 := if bool_decide (head ql = Some (c_loc c)) then with_head (Some new) ql else ql).
  assert (E1 : len ql1 = zlen (l1 ++ c :: l2) /\ compress ql1 = 0 /\ fill ql1 = fill ql /\ ql_count ql1 = ql_count ql /\
    head ql1 = firstp l1 (Some new) /\ tail ql1 = tail ql).
  { unfold ql1. rewrite Hh. destruct l1 as [|c1 l1].
    - cbn [firstp app]. rewrite bool_decide_eq_true_2 by done. by split_and!.
    - cbn [locs map In firstp app] in Hn1 |- *.
      rewrite bool_decide_eq_false_2 by (intros [=]; tauto). by split_and!. }
  destruct E1 as (El & Ec & Ef & Eq & Eh & Et). rewrite El.
  rewrite (proj2 (Z.eqb_neq _ _)) by (rewrite zlen_app, zlen_cons; zlia).
  rewrite (quicklistCompress_off _ _ _ _ Ec Ha4 Hr). cbn [mbind option_bind].
  do 2 eexists. split; [reflexivity|]. split; [|by cbn].
  assert (Hframe : forall x, x <> new -> x <> c_loc c -> ~ In x (locs l1) -> h4 !! x = h !! x).
  { intros x H1 H2 H3. unfold h4. rewrite lookup_insert_ne, Hf3 by done. unfold h2. by rewrite lookup_insert_ne. }
  apply (wf_linked h); try done.
  - rewrite node_locs_app, in_app_iff. cbn. tauto.
  - eapply node_seg_frame; [|exact Hs3]. intros x Hx. unfold h4. apply lookup_insert_ne. by intros <-.
  - unfold h4. rewrite lookup_insert_ne, Hf3 by done. unfold h2. by rewrite lookup_insert_eq.
  - apply node_seg_app in Hs as [_ [_ Hs]]. split; [done|].
    eapply node_seg_frame; [|exact Hs]. intros x Hx. apply Hframe; [by intros ->..|]. intros Hx2. by eapply Hd12.
  - unfold h4. rewrite dom_insert_lookup_L by done. rewrite Hdom3. unfold h2. rewrite dom_insert_L, Hdom. set_solver.
  - rewrite Et, Ht, !lastp_app. done.
Qed.

(** The first node of an empty list. *)
Lemma insert_first h ql new nb ss (after : bool) : wf {[new]} h ql [] -> h !! new = Some nb -> nb = link None nb None ->
  exists h' ql', __quicklistInsertNode htab garbage h ql None new after = Some (h', ql') /\
    wf ∅ h' ql' [Cell new nb ss] /\ fill ql' = fill ql /\ ql_count ql' = ql_count ql.
Proof.
  intros [Hd Hs Hdom Hh Ht Hl Hc] Hnb Elink. unfold __quicklistInsertNode. rewrite !(assign_some _ _ _ _ Hnb).
  cbn [mbind option_bind]. replace (with_prev None nb) with nb by (by rewrite Elink).
  replace (with_next None nb) with nb by (by rewrite Elink).
  rewrite !(insert_id _ _ _ Hnb). cbn [firstp lastp] in Hh, Ht.
  destruct after; cbn [mbind option_bind]; rewrite ?Hh, ?Ht, bool_decide_eq_true_2 by done;
    cbn [len with_head with_tail]; rewrite Hl; change (zlen (@nil cell) =? 0) with true; (do 2 eexists; split; [reflexivity|]; split; [|by cbn]);
    (constructor; cbn [head tail len compress with_len with_head with_tail locs map c_loc];
     [apply NoDup_singleton|by cbn; rewrite <- Elink|rewrite Hdom; set_solver|done|done|by rewrite Hl|done]).
Qed.

(** Taking a node out; its count is subtracted from that of the list. *)
Lemma del_node h ql l1 c l2 : wf ∅ h ql (l1 ++ c :: l2) -> zlen (l1 ++ c :: l2) < 2 ^ 64 ->
  exists h' ql', __quicklistDelNode htab garbage h ql (c_loc c) = Some (h', ql') /\
    wf ∅ h' ql' (l1 ++ l2) /\ fill ql' = fill ql /\ ql_count ql' = u64 (ql_count ql - count (c_body c)).
Proof.
  intros Hw Hlen. pose proof (wf_lookup _ _ _ _ _ _ Hw) as Ha. set (n := link _ _ _) in Ha.
  destruct Hw as [Hd Hs Hdom Hh Ht Hl Hc]. pose proof (locs_split _ _ _ Hd) as (Hd1 & Hd2 & Hn1 & Hn2 & Hd12).
  apply node_seg_app in Hs as [Hs1 [_ Hs2]]. cbn [firstp] in Hs1.
  unfold __quicklistDelNode. rewrite Ha. cbn [mbind option_bind].
  change (next n) with (firstp l2 None). change (prev n) with (lastp None l1).
  destruct (relink_prev h _ l2 (firstp l2 None) (lastp None l1) Hd2 Hs2 eq_refl) as (h2 & E2 & Hs2' & Hdom2 & Hf2).
  rewrite E2. cbn [mbind option_bind]. rewrite Hf2, Ha by done. cbn [mbind option_bind].
  change (next n) with (firstp l2 None). change (prev n) with (lastp None l1).
  assert (Hs1' : seg h2 None l1 (Some (c_loc c))).
  { eapply node_seg_frame; [|exact Hs1]. intros x Hx. apply Hf2. intros Hx2. by eapply Hd12. }
  destruct (relink_next h2 _ l1 (lastp None l1) _ (firstp l2 None) Hd1 Hs1' eq_refl) as (h3 & E3 & Hs3 & Hdom3 & Hf3).
  rewrite E3. cbn [mbind option_bind]. rewrite Hf3, Hf2, Ha by done. cbn [mbind option_bind].
  change (next n) with (firstp l2 None). change (prev n) with (lastp None l1).
  set (ql1 := if bool_decide (Some (c_loc c) = tail ql) then with_tail (lastp None l1) ql else ql).
  set (ql2 := if bool_decide (Some (c_loc c) = head ql1) then with_head (firstp l2 None) ql1 else ql1).
  assert (E1 : len ql1 = len ql /\ compress ql1 = 0 /\ fill ql1 = fill ql /\ ql_count ql1 = ql_count ql /\
    head ql1 = head ql /\ tail ql1 = lastp None (l1 ++ l2)).
  { unfold ql1. rewrite Ht, !lastp_app. cbn [lastp]. destruct l2 as [|c2 l2].
    - cbn [lastp]. rewrite bool_decide_eq_true_2 by done. by split_and!.
    - cbn [locs map In lastp] in Hn2 |- *. fold (locs l2) in Hn2.
      rewrite bool_decide_eq_false_2 by (apply not_eq_sym, lastp_is; [tauto|intros [=]; tauto]).
      split_and!; try done. rewrite Ht, lastp_app. done. }
  destruct E1 as (El & Ec & Ef & Eq & Eh & Et).
  assert (E2' : len ql2 = len ql /\ compress ql2 = 0 /\ fill ql2 = fill ql /\ ql_count ql2 = ql_count ql /\
    head ql2 = firstp (l1 ++ l2) None /\ tail ql2 = lastp None (l1 ++ l2)).
  { unfold ql2. rewrite Eh, Hh, !firstp_app. cbn [firstp]. destruct l1 as [|c1 l1]; cbn [firstp].
    - rewrite bool_decide_eq_true_2 by done. by split_and!.
    - cbn [locs map In] in Hn1. rewrite bool_decide_eq_false_2 by (intros [=]; intuition congruence).
      split_and!; try done. by rewrite Eh, Hh. }
  destruct E2' as (El2 & Ec2 & Ef2 & Eq2 & Eh2 & Et2).
  rewrite compress_off by done. cbn [mbind option_bind]. rewrite Hf3, Hf2, Ha by done. cbn [mbind option_bind].
  do 2 eexists. split; [reflexivity|]. split; [|cbn; by rewrite Ef2, Eq2].
  constructor; try done.
  - rewrite node_locs_app. apply list.NoDup_app. split_and!; [done| |done]. intros x Hx Hx2. apply list_elem_of_In in Hx, Hx2. by eapply Hd12.
  - apply node_seg_app. split; [eapply node_seg_frame; [|exact Hs3]|eapply node_seg_frame; [|exact Hs2']].
    + intros x Hx. apply lookup_delete_ne. by intros <-.
    + intros x Hx. rewrite lookup_delete_ne by (by intros <-). apply Hf3. intros Hx2. by eapply Hd12.
  - rewrite dom_delete_L, Hdom3, Hdom2, Hdom, !node_locs_app. cbn [locs map]. fold (locs l2). rewrite !list_to_set_app_L. cbn [list_to_set].
    apply set_eq. intros x. rewrite elem_of_difference, !elem_of_union, !elem_of_list_to_set, !list_elem_of_In, elem_of_singleton.
    split; [tauto|]. intros [[H|H]|H]; [| |set_solver]; (split; [tauto|by intros ->]).
  - cbn [len with_len with_ql_count]. rewrite El2, Hl, !zlen_app, zlen_cons in *.
    rewrite uwrap_small by (unfold urange; zlia). lia.
Qed.
End with_memory.
