(* ===== verification/QuicklistSpec.v ===== *)
(** * Correctness of quicklists

    A quicklist whose nodes are not compressed (depth 0, the default of the server) represents the
    list of strings its ziplists hold, node after node: [holds].  This file has the representation
    and the operations that touch one node: pushing, popping, access by index and replacing. *)

From Stdlib Require Import String.
From stdpp Require Import gmap.
From S2P Require Import Prelude Util Sds Ziplist ZiplistSpec Lzf Quicklist QuicklistNodes.

#[local] Open Scope list_scope.
#[local] Open Scope Z_scope.

(** * Representation *)

Definition MAX_ENTRIES : Z := 32768.

(** The block of a node is a ziplist of the strings; [es] are its entries. *)
Definition entries (z : bytes) (es : list zent) (ss : list bytes) : Prop := zl_rep z es /\ vals es = map val_of ss.

Definition block_ok (b : quicklistNode) (ss : list bytes) : Prop :=
  exists z, zl b = Some z /\ ziplist_of z ss /\ sz b = zlen z.

Record node_ok (b : quicklistNode) (ss : list bytes) : Prop := NodeOk {
  n_plain : plain b;
  n_block : block_ok b ss;
  n_count : count b = zlen ss;
  n_max : zlen ss <= MAX_ENTRIES
}.

Definition cell_ok (c : cell) : Prop := node_ok (c_body c) (c_strs c) /\ c_strs c <> [].

Record holds (h : heap) (ql : quicklist) (l : list cell) : Prop := Holds {
  h_wf : wf ∅ h ql l;
  h_cells : Forall cell_ok l;
  h_count : ql_count ql = zlen (contents l);
  h_cap : 11 + str_cap (contents l) < 2 ^ 32;
  h_fill : srange 16 (fill ql)
}.

(** A quicklist of a list of strings. *)
Definition quicklist_of (h : heap) (ql : quicklist) (ss : list bytes) : Prop := exists l, holds h ql l /\ contents l = ss.

(** * Sizes *)

Lemma str_cap_app ss1 ss2 : str_cap (ss1 ++ ss2) = str_cap ss1 + str_cap ss2.
Proof. unfold str_cap. induction ss1 as [|s ss1 IH]; cbn [app foldr]; lia. Qed.

Lemma str_cap_cons s ss : str_cap (s :: ss) = 18 + zlen s + str_cap ss.
Proof. done. Qed.

Lemma str_cap_len ss : 18 * zlen ss <= str_cap ss.
Proof.
  induction ss as [|s ss IH]; [done|]. rewrite str_cap_cons, zlen_cons. pose proof (zlen_nonneg s). lia.
Qed.

Lemma str_cap_nonneg ss : 0 <= str_cap ss.
Proof. pose proof (str_cap_len ss). pose proof (zlen_nonneg ss). lia. Qed.

Lemma str_cap_take_drop i ss : str_cap ss = str_cap (take i ss) + str_cap (drop i ss).
Proof. rewrite <- str_cap_app. by rewrite take_drop. Qed.

Lemma str_cap_insert i s ss : str_cap (take i ss ++ s :: drop i ss) = 18 + zlen s + str_cap ss.
Proof. rewrite str_cap_app, str_cap_cons, (str_cap_take_drop i ss). lia. Qed.

Lemma s32_u64 x : srange 32 x -> s32 (u64 x) = x.
Proof. unfold srange, swrap, uwrap. intros H. dlia. Qed.

Lemma entries_length z es ss : entries z es ss -> length es = length ss.
Proof. intros [_ H]. apply (f_equal length) in H. unfold vals in H. by rewrite !length_map in H. Qed.

Lemma block_size z ss : ziplist_of z ss -> 11 + 2 * zlen ss <= zlen z <= 11 + str_cap ss /\ ziplistBlobLen z = Some (zlen z).
Proof.
  intros (es & Hr & Hv). pose proof (entries_length z es ss (conj Hr Hv)) as Hl. pose proof (vcap_str_cap ss) as Hcap.
  rewrite <- Hv, <- ecap_vcap in Hcap. destruct Hr as (c & -> & Hcnt & Hc & Hfit).
  assert (E : zlen (zl_of es c) = 11 + esize es) by (unfold zl_of; zlia).
  pose proof (esize_length es). pose proof (esize_cap es). unfold ziplistBlobLen. rewrite zl_bytes by done.
  split; [|by rewrite E]. rewrite E. unfold zlen. lia.
Qed.

Lemma block_urange z ss : ziplist_of z ss -> zlen z < 2 ^ 32.
Proof.
  intros (es & (c & -> & Hcnt & Hc & Hfit) & Hv). assert (E : zlen (zl_of es c) = 11 + esize es) by (unfold zl_of; zlia).
  pose proof (esize_cap es). lia.
Qed.

Lemma fits_optimization s f : _quicklistNodeSizeMeetsOptimizationRequirement s f = true -> s <= 65536.
Proof.
  unfold _quicklistNodeSizeMeetsOptimizationRequirement. destruct (0 <=? f); [done|].
  destruct (zget optimization_level (- f - 1)) as [m|] eqn:E; [|done]. intros H. zb.
  unfold zget in E. destruct (0 <=? - f - 1); [|done]. apply list_elem_of_lookup_2 in E.
  rewrite list_elem_of_In in E. cbn in E. lia.
Qed.

(** Room for one more entry is only found in nodes far from the limit of a 16-bit count. *)
Lemma allow_insert h a n b ss f (s : bytes) : h !! a = Some n -> count n = count b -> sz n = sz b -> node_ok b ss ->
  11 + str_cap ss + 18 + zlen s < 2 ^ 32 -> srange 16 f ->
  exists r, _quicklistNodeAllowInsert h (Some a) f (zlen s) = Some r /\ (r = true -> zlen ss + 1 <= MAX_ENTRIES).
Proof.
  intros Ha Ec Es [_ (z & _ & Hz & Hs) Hc Hm] Hcap Hf. unfold _quicklistNodeAllowInsert. rewrite Ha. cbn [mbind option_bind].
  eexists. split; [reflexivity|]. rewrite Ec, Es, Hs, Hc. pose proof (block_size z ss Hz) as [Hb _].
  set (ov := if zlen s <? 64 then _ else _). pose proof (zlen_nonneg s). pose proof (zlen_nonneg ss).
  assert (Hov : 2 <= ov <= 10).
  { unfold ov. repeat match goal with |- context [if ?c then _ else _] => destruct c eqn:? end; zb; lia. }
  rewrite uwrap_small by (unfold urange; lia). unfold MAX_ENTRIES, srange in *.
  destruct (_quicklistNodeSizeMeetsOptimizationRequirement _ _) eqn:Eo.
  - apply fits_optimization in Eo. lia.
  - destruct (sizeMeetsSafetyLimit _); cbn; [|done]. zb. lia.
Qed.

Lemma allow_merge h a b na nb ba bb ss1 ss2 f : h !! a = Some na -> h !! b = Some nb ->
  count na = count ba -> sz na = sz ba -> count nb = count bb -> sz nb = sz bb -> node_ok ba ss1 -> node_ok bb ss2 ->
  11 + str_cap ss1 + str_cap ss2 < 2 ^ 32 -> srange 16 f ->
  exists r, _quicklistNodeAllowMerge h (Some a) (Some b) f = Some r /\ (r = true -> zlen ss1 + zlen ss2 <= MAX_ENTRIES).
Proof.
  intros Ha Hb Ec1 Es1 Ec2 Es2 [_ (z1 & _ & Hz1 & Hs1) Hc1 Hm1] [_ (z2 & _ & Hz2 & Hs2) Hc2 Hm2] Hcap Hf.
  unfold _quicklistNodeAllowMerge. rewrite Ha, Hb. cbn [mbind option_bind].
  eexists. split; [reflexivity|]. rewrite Ec1, Es1, Hs1, Hc1, Ec2, Es2, Hs2, Hc2.
  pose proof (block_size z1 ss1 Hz1) as [Hb1 _]. pose proof (block_size z2 ss2 Hz2) as [Hb2 _].
  pose proof (zlen_nonneg ss1). pose proof (zlen_nonneg ss2).
  rewrite uwrap_small by (unfold urange; lia). unfold MAX_ENTRIES, srange in *.
  destruct (_quicklistNodeSizeMeetsOptimizationRequirement _ _) eqn:Eo.
  - apply fits_optimization in Eo. lia.
  - destruct (sizeMeetsSafetyLimit _); cbn; [|done]. zb. lia.
Qed.

(** * Edits of a node *)

Lemma wf_at X h ql l1 a b ss l2 : wf X h ql (l1 ++ Cell a b ss :: l2) ->
  h !! a = Some (link (lastp None l1) b (firstp l2 None)).
Proof. apply (wf_lookup X h ql l1 (Cell a b ss) l2). Qed.

Lemma get_zl_at X h ql l1 a b ss l2 : wf X h ql (l1 ++ Cell a b ss :: l2) -> get_zl h a = zl b.
Proof. intros Hw. unfold get_zl. by rewrite (wf_at _ _ _ _ _ _ _ _ Hw). Qed.

Lemma set_zl_at X h ql l1 a b ss l2 z ss' : wf X h ql (l1 ++ Cell a b ss :: l2) ->
  exists h', set_zl h a z = Some h' /\ wf X h' ql (l1 ++ Cell a (with_zl z b) ss' :: l2).
Proof. intros Hw. eapply assign_at; eauto with qlist. Qed.

Lemma add_count_at X h ql l1 a b ss l2 d ss' : wf X h ql (l1 ++ Cell a b ss :: l2) ->
  exists h', add_count h a d = Some h' /\ wf X h' ql (l1 ++ Cell a (with_count (count b + d) b) ss' :: l2).
Proof.
  intros Hw. unfold add_count. rewrite (wf_at _ _ _ _ _ _ _ _ Hw). cbn [mbind option_bind].
  eapply assign_at; [done|apply inner_count].
Qed.

Lemma set_count_at X h ql l1 a b ss l2 n ss' : wf X h ql (l1 ++ Cell a b ss :: l2) ->
  exists h', assign h (Some a) (with_count n) = Some h' /\ wf X h' ql (l1 ++ Cell a (with_count n b) ss' :: l2).
Proof. intros Hw. eapply assign_at; [done|apply inner_count]. Qed.

Lemma update_sz_at X h ql l1 a b ss l2 z ss' : wf X h ql (l1 ++ Cell a b ss :: l2) ->
  zl b = Some z -> ziplist_of z ss' ->
  exists h', quicklistNodeUpdateSz h a = Some h' /\ wf X h' ql (l1 ++ Cell a (with_sz (zlen z) b) ss' :: l2).
Proof.
  intros Hw Hz Hs. unfold quicklistNodeUpdateSz. rewrite (wf_at _ _ _ _ _ _ _ _ Hw). cbn [mbind option_bind].
  change (zl (link _ b _)) with (zl b). rewrite Hz. cbn [mbind option_bind].
  rewrite (proj2 (block_size z ss' Hs)). cbn [mbind option_bind]. eapply assign_at; [done|apply inner_sz].
Qed.

(** The body of a node after its block and its size have been replaced. *)
Definition reblock (z : bytes) (b : quicklistNode) : quicklistNode := with_sz (zlen z) (with_zl z b).

Lemma reblock_ok z b ss : ziplist_of z ss -> plain b -> block_ok (reblock z b) ss /\ plain (reblock z b).
Proof. intros Hz Hp. split; [|exact Hp]. by exists z. Qed.

Lemma node_reblock z b ss n : ziplist_of z ss -> plain b -> u16 n = zlen ss -> zlen ss <= MAX_ENTRIES ->
  node_ok (with_count n (reblock z b)) ss.
Proof. intros Hz Hp Hn Hm. constructor; [exact Hp|by exists z|exact Hn|done]. Qed.

Lemma u16_entries n : 0 <= n <= MAX_ENTRIES -> u16 n = n.
Proof. intros H. apply uwrap_small. unfold urange, MAX_ENTRIES in *. lia. Qed.

(** Put a block into a node, with a new count. *)
Lemma edit_node X h ql l1 a b ss l2 z ss' d : wf X h ql (l1 ++ Cell a b ss :: l2) -> ziplist_of z ss' ->
  exists h1 h2 h3, set_zl h a z = Some h1 /\ add_count h1 a d = Some h2 /\ quicklistNodeUpdateSz h2 a = Some h3 /\
    wf X h3 ql (l1 ++ Cell a (with_count (count b + d) (reblock z b)) ss' :: l2).
Proof.
  intros Hw Hz. destruct (set_zl_at _ _ _ _ _ _ _ _ z ss' Hw) as (h1 & E1 & Hw1).
  destruct (add_count_at _ _ _ _ _ _ _ _ d ss' Hw1) as (h2 & E2 & Hw2).
  destruct (update_sz_at _ _ _ _ _ _ _ _ z ss' Hw2 eq_refl Hz) as (h3 & E3 & Hw3).
  by exists h1, h2, h3.
Qed.

Definition push_at (w : Z) (s : bytes) (ss : list bytes) : list bytes := if w =? ZIPLIST_HEAD then s :: ss else ss ++ [s].

Lemma zlen_push w s ss : zlen (push_at w s ss) = zlen ss + 1.
Proof. unfold push_at. destruct (w =? ZIPLIST_HEAD); zlia. Qed.

Lemma cap_push w s ss : str_cap (push_at w s ss) = str_cap ss + 18 + zlen s.
Proof. unfold push_at. destruct (w =? ZIPLIST_HEAD); rewrite ?str_cap_app, str_cap_cons; [lia|]. change (str_cap []) with 0. lia. Qed.

Lemma push_into_at X h ql l1 a b ss l2 s w : wf X h ql (l1 ++ Cell a b ss :: l2) -> block_ok b ss ->
  11 + str_cap ss + 18 + zlen s < 2 ^ 32 ->
  exists h' z, push_into h a s w = Some h' /\ ziplist_of z (push_at w s ss) /\
    wf X h' ql (l1 ++ Cell a (reblock z b) (push_at w s ss) :: l2).
Proof.
  intros Hw (z0 & Hz0 & Hb & _) Hcap. pose proof (cap_push w s ss) as Hcap'.
  unfold push_into. rewrite (get_zl_at _ _ _ _ _ _ _ _ Hw), Hz0. cbn [mbind option_bind].
  destruct (push_spec z0 ss s w Hb) as (z & Ez & Hz). { unfold list_op, push_at in *. lia. }
  rewrite Ez. cbn [mbind option_bind]. change (list_op ss (OPush s w)) with (push_at w s ss) in Hz.
  destruct (set_zl_at _ _ _ _ _ _ _ _ z (push_at w s ss) Hw) as (h1 & -> & Hw1). cbn [mbind option_bind].
  destruct (update_sz_at _ _ _ _ _ _ _ _ z (push_at w s ss) Hw1 eq_refl Hz) as (h2 & -> & Hw2).
  by exists h2, z.
Qed.

(** ** New nodes *)

Lemma push_new s w : 11 + 18 + zlen s < 2 ^ 32 ->
  exists z0 z, ziplistNew = Some z0 /\ ziplistPush z0 s w = Some z /\ ziplist_of z [s].
Proof.
  intros Hs. destruct new_rep as (z0 & E0 & H0).
  destruct (push_spec z0 [] s w H0) as (z & E & Hz).
  { unfold list_op. destruct (w =? ZIPLIST_HEAD); cbn [app str_cap foldr]; lia. }
  exists z0, z. split_and!; [done..|]. unfold list_op in Hz. by destruct (w =? ZIPLIST_HEAD).
Qed.

Definition new_body (z : bytes) (sized : bool) (n : Z) : quicklistNode :=
  QNode None None (Some z) (if sized then zlen z else 0) n QUICKLIST_NODE_ENCODING_RAW QUICKLIST_NODE_CONTAINER_ZIPLIST 0.

Lemma new_node h s w (sized : bool) : 11 + 18 + zlen s < 2 ^ 32 ->
  exists z, new_value_node h s w sized = Some (<[fresh (dom h) := new_body z sized 0]> h, fresh (dom h)) /\ ziplist_of z [s].
Proof.
  intros Hs. destruct (push_new s w Hs) as (z0 & z & E0 & E & Hz). exists z. split; [|done].
  unfold new_value_node, quicklistCreateNode. set (a := fresh (dom h)). set (n0 := QNode _ _ _ _ _ _ _ _).
  rewrite E0. cbn [mbind option_bind]. rewrite E. cbn [mbind option_bind]. unfold set_zl.
  rewrite (assign_some _ _ _ _ (lookup_insert_eq _ _ _)), insert_insert_eq. cbn [mbind option_bind].
  destruct sized; [|done]. unfold quicklistNodeUpdateSz. rewrite lookup_insert_eq. cbn [mbind option_bind].
  change (zl (with_zl z n0)) with (Some z). cbn [mbind option_bind]. rewrite (proj2 (block_size z [s] Hz)).
  cbn [mbind option_bind]. rewrite (assign_some _ _ _ _ (lookup_insert_eq _ _ _)), insert_insert_eq. done.
Qed.

(** * Assembling the list again *)

Lemma contents_mid l1 c l2 : contents (l1 ++ c :: l2) = contents l1 ++ c_strs c ++ contents l2.
Proof. by rewrite contents_app. Qed.

Lemma app_cons_mid {A} (l1 : list A) c l2 : l1 ++ c :: l2 = (l1 ++ [c]) ++ l2.
Proof. by rewrite <- app_assoc. Qed.

Lemma contents_snoc l c : contents (l ++ [c]) = contents l ++ c_strs c.
Proof. rewrite contents_mid. by rewrite app_nil_r. Qed.

Lemma contents_cons c l : contents (c :: l) = c_strs c ++ contents l.
Proof. done. Qed.

Lemma contents_len l : Forall cell_ok l -> zlen l <= zlen (contents l).
Proof.
  induction 1 as [|c l [_ Hne] _ IH]; [done|]. change (contents (c :: l)) with (c_strs c ++ contents l).
  rewrite zlen_cons, zlen_app. pose proof (zlen_pos_nonnil _ Hne). lia.
Qed.

Lemma cells_split l1 c l2 : Forall cell_ok (l1 ++ c :: l2) <-> Forall cell_ok l1 /\ cell_ok c /\ Forall cell_ok l2.
Proof. by rewrite Forall_app, Forall_cons_iff. Qed.

Lemma holds_bounds h ql l : holds h ql l -> zlen l <= zlen (contents l) /\ 18 * zlen (contents l) < 2 ^ 32.
Proof.
  intros [_ Hc _ Hcap _]. split; [by apply contents_len|]. pose proof (str_cap_len (contents l)). lia.
Qed.

(** What is left to check when one node has been edited or a node has been added: the chain, the
    node's new contents and the counter. *)
Lemma holds_intro h ql l : wf ∅ h ql l -> Forall cell_ok l -> 11 + str_cap (contents l) < 2 ^ 32 ->
  ql_count ql = zlen (contents l) -> srange 16 (fill ql) -> holds h ql l.
Proof. by constructor. Qed.

Lemma count_push h ql l n : holds h ql l -> n = zlen (contents l) + 1 -> u64 (ql_count ql + 1) = n.
Proof.
  intros Hh ->. pose proof (holds_bounds _ _ _ Hh). rewrite (h_count _ _ _ Hh). apply uwrap_small.
  pose proof (zlen_nonneg (contents l)). unfold urange. lia.
Qed.

Lemma nonnil_zlen {A} (l : list A) : 0 < zlen l -> l <> [].
Proof. destruct l; [|done]. by intros H%Z.lt_irrefl. Qed.

(** A node has got one more value. *)
Lemma holds_grown h h' ql l1 a b ss l2 z ss' (s : bytes) : holds h ql (l1 ++ Cell a b ss :: l2) -> ziplist_of z ss' ->
  zlen ss' = zlen ss + 1 -> str_cap ss' = str_cap ss + 18 + zlen s -> zlen ss + 1 <= MAX_ENTRIES ->
  11 + str_cap (contents (l1 ++ Cell a b ss :: l2)) + 18 + zlen s < 2 ^ 32 ->
  wf ∅ h' ql (l1 ++ Cell a (with_count (count b + 1) (reblock z b)) ss' :: l2) ->
  holds h' (with_ql_count (ql_count ql + 1) ql) (l1 ++ Cell a (with_count (count b + 1) (reblock z b)) ss' :: l2).
Proof.
  intros Hh Hz Hl Hc Hm Hcap Hw. pose proof (h_cells _ _ _ Hh) as Hcs. apply cells_split in Hcs as (Hc1 & [Hn _] & Hc2).
  cbn [c_body c_strs] in Hn. rewrite contents_mid, !str_cap_app in Hcap. cbn [c_strs] in Hcap. pose proof (zlen_nonneg ss).
  apply holds_intro.
  - by apply wf_ql_count.
  - apply cells_split. split; [done|]. split; [|done]. split; cbn [c_body c_strs].
    + apply node_reblock; [done|apply Hn| |by rewrite Hl]. rewrite (n_count _ _ Hn), Hl. apply u16_entries. lia.
    + apply nonnil_zlen. lia.
  - rewrite contents_mid, !str_cap_app. cbn [c_strs]. lia.
  - cbn [ql_count with_ql_count]. eapply count_push; [done|]. rewrite !contents_mid, !zlen_app. cbn [c_strs]. lia.
  - apply Hh.
Qed.

(** * Pushing *)

Section with_memory.
Context (htab : LZF_STATE) (garbage : Z -> bytes).

Lemma push_count h ql l1 a b ss l2 z w s : holds h ql (l1 ++ Cell a b ss :: l2) -> ziplist_of z (push_at w s ss) ->
  11 + str_cap (contents (l1 ++ Cell a b ss :: l2)) + 18 + zlen s < 2 ^ 32 ->
  zlen ss + 1 <= MAX_ENTRIES -> forall h', wf ∅ h' ql (l1 ++ Cell a (reblock z b) (push_at w s ss) :: l2) ->
  exists h'' b', add_count h' a 1 = Some h'' /\
    holds h'' (with_ql_count (ql_count ql + 1) ql) (l1 ++ Cell a b' (push_at w s ss) :: l2).
Proof.
  intros Hh Hz Hcap Hm h' Hw. destruct (add_count_at _ _ _ _ _ _ _ _ 1 (push_at w s ss) Hw) as (h'' & E & Hw2).
  exists h'', (with_count (count b + 1) (reblock z b)). split; [done|].
  eapply holds_grown; [exact Hh|done|apply zlen_push|apply cap_push|done|done|exact Hw2].
Qed.

(** A node of one value has been linked. *)
Lemma holds_added h h' ql ql' l1 l2 a b s : holds h ql (l1 ++ l2) -> node_ok b [s] ->
  11 + str_cap (contents (l1 ++ l2)) + 18 + zlen s < 2 ^ 32 ->
  wf ∅ h' ql' (l1 ++ Cell a b [s] :: l2) -> fill ql' = fill ql -> ql_count ql' = ql_count ql ->
  holds h' (with_ql_count (ql_count ql' + 1) ql') (l1 ++ Cell a b [s] :: l2).
Proof.
  intros Hh Hb Hcap Hw Hf Hq. pose proof (h_cells _ _ _ Hh) as Hc. rewrite contents_app, str_cap_app in Hcap.
  apply Forall_app in Hc as [Hc1 Hc2]. apply holds_intro.
  - by apply wf_ql_count.
  - apply cells_split. split; [done|]. by split.
  - rewrite contents_mid, !str_cap_app. cbn [c_strs]. rewrite str_cap_cons. change (str_cap []) with 0. lia.
  - cbn [ql_count with_ql_count]. rewrite Hq. eapply count_push; [done|].
    rewrite contents_mid, contents_app, !zlen_app. cbn [c_strs]. rewrite zlen_cons, zlen_nil. lia.
  - cbn [fill with_ql_count]. rewrite Hf. apply Hh.
Qed.

Lemma new_body_ok z s : ziplist_of z [s] -> node_ok (new_body z true 1) [s].
Proof. intros Hz. constructor; [done|by exists z|done|done]. Qed.

Lemma new_count h h' ql ql' l1 l2 a z s : holds h ql (l1 ++ l2) -> ziplist_of z [s] ->
  11 + str_cap (contents (l1 ++ l2)) + 18 + zlen s < 2 ^ 32 ->
  wf ∅ h' ql' (l1 ++ Cell a (new_body z true 0) [s] :: l2) -> fill ql' = fill ql -> ql_count ql' = ql_count ql ->
  exists h'' b', add_count h' a 1 = Some h'' /\
    holds h'' (with_ql_count (ql_count ql' + 1) ql') (l1 ++ Cell a b' [s] :: l2).
Proof.
  intros Hh Hz Hcap Hw Hf Hq. destruct (add_count_at _ _ _ _ _ _ _ _ 1 [s] Hw) as (h'' & E & Hw2).
  exists h'', (new_body z true 1). split; [done|]. eapply holds_added; [exact Hh|by apply new_body_ok|done..].
Qed.

Lemma push_head h ql l s : holds h ql l -> 11 + str_cap (s :: contents l) < 2 ^ 32 ->
  exists r h' ql' c new, _quicklistNodeAllowInsert h (head ql) (fill ql) (zlen s) = Some r /\
    quicklistPushHead htab garbage h ql s = Some (h', ql', new) /\
    let l' := c :: (if r then List.tl l else l) in holds h' ql' l' /\ contents l' = s :: contents l.
Proof.
  intros Hh Hcap. rewrite str_cap_cons in Hcap. pose proof (h_wf _ _ _ Hh) as Hw. pose proof (str_cap_nonneg (contents l)).
  unfold quicklistPushHead. rewrite (wf_head _ _ _ _ Hw). destruct l as [|[a b ss] l].
  - exists false. cbn [firstp _quicklistNodeAllowInsert mbind option_bind].
    destruct (new_node h s ZIPLIST_HEAD true) as (z & -> & Hz); [lia|]. cbn [mbind option_bind].
    destruct (wf_new h ql [] (new_body z true 0) Hw) as [Hw1 Hn].
    destruct (insert_first htab garbage _ _ (fresh (dom h)) (new_body z true 0) [s] false Hw1 (lookup_insert_eq _ _ _) eq_refl)
      as (h2 & ql2 & E2 & Hw2 & Hf & Hq).
    unfold _quicklistInsertNodeBefore. rewrite E2. cbn [mbind option_bind].
    destruct (new_count h h2 ql ql2 [] [] (fresh (dom h)) z s Hh Hz) as (h3 & b3 & E3 & Hh3); [cbn in *; lia|done..|].
    change (head (with_ql_count _ ql2)) with (head ql2). rewrite (wf_head _ _ _ _ Hw2). cbn [firstp c_loc mbind option_bind].
    rewrite E3. cbn [mbind option_bind]. eexists _, _, _, _. split; [reflexivity|]. split; [reflexivity|]. split; [exact Hh3|done].
  - cbn [firstp c_loc]. pose proof (h_cells _ _ _ Hh) as Hc. apply Forall_cons_iff in Hc as [[Hn Hne] Hc].
    cbn [c_body c_strs] in Hn. change (contents (Cell a b ss :: l)) with (ss ++ contents l) in *. rewrite str_cap_app in *.
    pose proof (str_cap_nonneg (contents l)).
    destruct (allow_insert h a _ b ss (fill ql) s (wf_at _ _ _ [] _ _ _ _ Hw)) as (r & -> & Hr);
      [done|done|done|lia|apply Hh|]. exists r. cbn [mbind option_bind]. destruct r.
    + cbn [mbind option_bind].
      destruct (push_into_at _ _ _ [] _ _ _ _ s ZIPLIST_HEAD Hw (n_block _ _ Hn)) as (h1 & z & -> & Hz & Hw1); [lia|].
      cbn [mbind option_bind]. destruct (push_count h ql [] a b ss l z ZIPLIST_HEAD s Hh Hz) with (h' := h1) as (h2 & b' & E & Hh2);
        [cbn [app]; change (contents (Cell a b ss :: l)) with (ss ++ contents l); rewrite str_cap_app; lia|by apply Hr|done|].
      change (head (with_ql_count _ ql)) with (head ql). rewrite (wf_head _ _ _ _ Hw). cbn [firstp c_loc mbind option_bind].
      rewrite E. cbn [mbind option_bind]. eexists _, _, _, _. split; [reflexivity|]. split; [reflexivity|]. split; [exact Hh2|done].
    + cbn [mbind option_bind].
      destruct (new_node h s ZIPLIST_HEAD true) as (z & -> & Hz); [lia|]. cbn [mbind option_bind].
      destruct (wf_new h ql _ (new_body z true 0) Hw) as [Hw1 Hn1].
      destruct (node_before htab garbage _ _ [] (Cell a b ss) l (fresh (dom h)) (new_body z true 0) [s] Hw1 (n_plain _ _ Hn) Hn1
        (lookup_insert_eq _ _ _)) as (h2 & ql2 & E2 & Hw2 & Hf & Hq).
      { pose proof (holds_bounds _ _ _ Hh). cbn [app]. lia. }
      cbn [c_loc] in E2. rewrite E2. cbn [mbind option_bind].
      destruct (new_count h h2 ql ql2 [] (Cell a b ss :: l) (fresh (dom h)) z s Hh Hz) as (h3 & b3 & E3 & Hh3);
        [cbn [app]; change (contents (Cell a b ss :: l)) with (ss ++ contents l); rewrite str_cap_app; lia|done..|].
      change (head (with_ql_count _ ql2)) with (head ql2). rewrite (wf_head _ _ _ _ Hw2). cbn [app firstp c_loc mbind option_bind].
      rewrite E3. cbn [mbind option_bind]. eexists _, _, _, _. split; [reflexivity|]. split; [reflexivity|]. split; [exact Hh3|done].
Qed.

Lemma push_tail h ql l s : holds h ql l -> 11 + str_cap (contents l ++ [s]) < 2 ^ 32 ->
  exists h' ql' l' new, quicklistPushTail htab garbage h ql s = Some (h', ql', new) /\
    holds h' ql' l' /\ contents l' = contents l ++ [s].
Proof.
  intros Hh Hcap. rewrite str_cap_app, str_cap_cons in Hcap. change (str_cap []) with 0 in Hcap.
  pose proof (h_wf _ _ _ Hh) as Hw. pose proof (str_cap_nonneg (contents l)).
  unfold quicklistPushTail. rewrite (wf_tail _ _ _ _ Hw). destruct l as [|[a b ss] l _] using rev_ind.
  - cbn [lastp _quicklistNodeAllowInsert mbind option_bind].
    destruct (new_node h s ZIPLIST_TAIL true) as (z & -> & Hz); [lia|]. cbn [mbind option_bind].
    destruct (wf_new h ql [] (new_body z true 0) Hw) as [Hw1 Hn].
    destruct (insert_first htab garbage _ _ (fresh (dom h)) (new_body z true 0) [s] true Hw1 (lookup_insert_eq _ _ _) eq_refl)
      as (h2 & ql2 & E2 & Hw2 & Hf & Hq).
    unfold _quicklistInsertNodeAfter. rewrite E2. cbn [mbind option_bind].
    destruct (new_count h h2 ql ql2 [] [] (fresh (dom h)) z s Hh Hz) as (h3 & b3 & E3 & Hh3); [cbn in *; lia|done..|].
    change (tail (with_ql_count _ ql2)) with (tail ql2). rewrite (wf_tail _ _ _ _ Hw2). cbn [lastp c_loc mbind option_bind].
    rewrite E3. cbn [mbind option_bind]. eexists _, _, _, _. split; [reflexivity|]. split; [exact Hh3|done].
  - rewrite lastp_snoc. cbn [c_loc]. pose proof (h_cells _ _ _ Hh) as Hc. apply cells_split in Hc as (Hc & [Hn Hne] & _).
    cbn [c_body c_strs] in Hn. rewrite contents_mid, app_nil_r in *. cbn [c_strs] in *. rewrite str_cap_app in *.
    pose proof (str_cap_nonneg (contents l)).
    destruct (allow_insert h a _ b ss (fill ql) s (wf_at _ _ _ _ _ _ _ _ Hw)) as (r & -> & Hr);
      [done|done|done|lia|apply Hh|]. cbn [mbind option_bind]. destruct r.
    + cbn [mbind option_bind].
      destruct (push_into_at _ _ _ _ _ _ _ _ s ZIPLIST_TAIL Hw (n_block _ _ Hn)) as (h1 & z & -> & Hz & Hw1); [lia|].
      cbn [mbind option_bind]. destruct (push_count h ql l a b ss [] z ZIPLIST_TAIL s Hh Hz) with (h' := h1) as (h2 & b' & E & Hh2);
        [rewrite contents_mid, app_nil_r; cbn [c_strs]; rewrite str_cap_app; lia|by apply Hr|done|].
      change (tail (with_ql_count _ ql)) with (tail ql). rewrite (wf_tail _ _ _ _ Hw), lastp_snoc. cbn [c_loc mbind option_bind].
      rewrite E. cbn [mbind option_bind]. eexists _, _, _, _. split; [reflexivity|]. split; [exact Hh2|].
      rewrite contents_mid, app_nil_r, <- app_assoc. done.
    + cbn [mbind option_bind].
      destruct (new_node h s ZIPLIST_TAIL true) as (z & -> & Hz); [lia|]. cbn [mbind option_bind].
      destruct (wf_new h ql _ (new_body z true 0) Hw) as [Hw1 Hn1].
      destruct (node_after htab garbage _ _ l (Cell a b ss) [] (fresh (dom h)) (new_body z true 0) [s] Hw1 (n_plain _ _ Hn) Hn1
        (lookup_insert_eq _ _ _)) as (h2 & ql2 & E2 & Hw2 & Hf & Hq).
      { pose proof (holds_bounds _ _ _ Hh). lia. }
      cbn [c_loc] in E2. rewrite E2. cbn [mbind option_bind].
      replace (l ++ Cell a b ss :: [Cell (fresh (dom h)) (new_body z true 0) [s]])
        with ((l ++ [Cell a b ss]) ++ Cell (fresh (dom h)) (new_body z true 0) [s] :: []) in Hw2 by (by rewrite <- app_assoc).
      destruct (new_count h h2 ql ql2 (l ++ [Cell a b ss]) [] (fresh (dom h)) z s) as (h3 & b3 & E3 & Hh3); try done;
        [by rewrite app_nil_r|rewrite app_nil_r, contents_mid, app_nil_r; cbn [c_strs]; rewrite str_cap_app; lia|].
      change (tail (with_ql_count _ ql2)) with (tail ql2). rewrite (wf_tail _ _ _ _ Hw2), lastp_snoc. cbn [c_loc mbind option_bind].
      rewrite E3. cbn [mbind option_bind]. eexists _, _, _, _. split; [reflexivity|]. split; [exact Hh3|].
      rewrite contents_mid, contents_mid. cbn [c_strs]. by rewrite !app_nil_r.
Qed.

(** * Deleting an entry *)

Lemma str_cap_sub i j ss : (i <= j)%nat -> str_cap (take i ss ++ drop j ss) <= str_cap ss.
Proof.
  intros Hij. rewrite str_cap_app, (str_cap_take_drop i ss).
  replace (drop j ss) with (drop (j - i) (drop i ss)) by (rewrite drop_drop; f_equal; lia).
  pose proof (str_cap_take_drop (j - i) (drop i ss)). pose proof (str_cap_nonneg (take (j - i) (drop i ss))). lia.
Qed.

(** The counter of the list when [k] elements leave it. *)
Lemma count_drop h ql l k n : holds h ql l -> 0 <= k <= zlen (contents l) -> n = zlen (contents l) - k ->
  u64 (ql_count ql - k) = n.
Proof.
  intros Hh Hk ->. pose proof (holds_bounds _ _ _ Hh). rewrite (h_count _ _ _ Hh). apply uwrap_small.
  unfold urange. lia.
Qed.

(** A node is shrunk to [ss'], not empty. *)
Lemma holds_shrunk h h' ql n l1 a b ss l2 z ss' k : holds h ql (l1 ++ Cell a b ss :: l2) ->
  wf ∅ h' ql (l1 ++ Cell a (with_count k (reblock z b)) ss' :: l2) -> ziplist_of z ss' -> ss' <> [] ->
  zlen ss' <= zlen ss -> str_cap ss' <= str_cap ss -> u16 k = zlen ss' ->
  u64 n = zlen (contents l1 ++ ss' ++ contents l2) ->
  holds h' (with_ql_count n ql) (l1 ++ Cell a (with_count k (reblock z b)) ss' :: l2).
Proof.
  intros Hh Hw Hz Hne Hlen Hcap Hk Hn. pose proof (h_cells _ _ _ Hh) as Hc. apply cells_split in Hc as (Hc1 & [Hok _] & Hc2).
  cbn [c_body c_strs] in Hok. pose proof (h_cap _ _ _ Hh) as Hc. rewrite contents_mid, !str_cap_app in Hc. cbn [c_strs] in Hc.
  apply holds_intro.
  - by apply wf_ql_count.
  - apply cells_split. split; [done|]. split; [|done]. split; [|done]. cbn [c_body c_strs].
    apply node_reblock; [done|apply Hok|done|]. pose proof (n_max _ _ Hok). lia.
  - rewrite contents_mid, !str_cap_app. cbn [c_strs]. lia.
  - rewrite contents_mid. exact Hn.
  - apply Hh.
Qed.

(** A node is taken out. *)
Lemma holds_removed h h' ql ql' n l1 c l2 : holds h ql (l1 ++ c :: l2) -> wf ∅ h' ql' (l1 ++ l2) ->
  fill ql' = fill ql -> u64 n = zlen (contents (l1 ++ l2)) -> holds h' (with_ql_count n ql') (l1 ++ l2).
Proof.
  intros Hh Hw Hf Hn. pose proof (h_cells _ _ _ Hh) as Hc. apply cells_split in Hc as (Hc1 & _ & Hc2).
  pose proof (h_cap _ _ _ Hh) as Hcap. rewrite contents_mid, !str_cap_app in Hcap.
  pose proof (str_cap_nonneg (c_strs c)). apply holds_intro.
  - by apply wf_ql_count.
  - by apply Forall_app.
  - rewrite contents_app, str_cap_app. lia.
  - exact Hn.
  - cbn [fill with_ql_count]. rewrite Hf. apply Hh.
Qed.

Lemma del_index h ql l1 a b ss l2 z es i : holds h ql (l1 ++ Cell a b ss :: l2) -> zl b = Some z -> entries z es ss ->
  (i < length ss)%nat ->
  let ss' := take i ss ++ drop (S i) ss in
  exists h' ql' gone, quicklistDelIndex htab garbage h ql a (zl_at es i) = Some (h', ql', gone, zl_at es i) /\
    if decide (ss' = []) then gone = true /\ holds h' ql' (l1 ++ l2)
    else gone = false /\ exists b', holds h' ql' (l1 ++ Cell a b' ss' :: l2).
Proof.
  intros Hh Hzl [Hr Hv] Hi ss'. pose proof (h_wf _ _ _ Hh) as Hw.
  pose proof (h_cells _ _ _ Hh) as Hc. apply cells_split in Hc as (Hc1 & [Hok _] & Hc2). cbn [c_body c_strs] in Hok.
  assert (Hlen : zlen ss' = zlen ss - 1) by (unfold ss', zlen; rewrite length_app, length_take, length_drop; lia).
  unfold quicklistDelIndex. rewrite (get_zl_at _ _ _ _ _ _ _ _ Hw), Hzl. cbn [mbind option_bind].
  destruct (delete_strings z es ss i 1 Hr Hv Hi ltac:(lia)) as (z' & Ez & Hz').
  replace (i + Z.to_nat 1)%nat with (S i) in Hz' by lia. fold ss' in Hz'.
  unfold ziplistDelete. rewrite Ez. cbn [mbind option_bind].
  destruct (set_zl_at _ _ _ _ _ _ _ _ z' ss' Hw) as (h1 & -> & Hw1). cbn [mbind option_bind].
  destruct (add_count_at _ _ _ _ _ _ _ _ (-1) ss' Hw1) as (h2 & -> & Hw2). cbn [mbind option_bind].
  change (count (with_zl z' b)) with (count b) in Hw2. rewrite (n_count _ _ Hok) in Hw2.
  pose proof (wf_at _ _ _ _ _ _ _ _ Hw2) as Ha. rewrite Ha. cbn [mbind option_bind].
  change (count (link _ _ _)) with (u16 (zlen ss + -1)). pose proof (n_max _ _ Hok) as Hm. pose proof (zlen_nonneg ss').
  rewrite u16_entries by lia.
  assert (Hq : forall n, n = zlen (contents l1 ++ ss' ++ contents l2) -> u64 (ql_count ql - 1) = n).
  { intros n ->. eapply count_drop; [done|..]; rewrite contents_mid, !zlen_app; cbn [c_strs];
      pose proof (zlen_nonneg (contents l1)); pose proof (zlen_nonneg (contents l2)); lia. }
  case_decide as E0.
  - rewrite E0, zlen_nil in Hlen. replace (zlen ss + -1) with 0 by lia. cbn [Z.eqb].
    destruct (del_node htab garbage h2 ql l1 _ l2 Hw2) as (h3 & ql3 & E3 & Hw3 & Hf & Hq3).
    { pose proof (holds_bounds _ _ _ Hh). rewrite zlen_app, zlen_cons in *. lia. }
    cbn [c_loc] in E3. rewrite E3. cbn [mbind option_bind]. eexists _, _, _. split; [reflexivity|]. split; [done|].
    eapply holds_removed; [done..|]. rewrite Hq3. change (count (c_body _)) with (u16 (zlen ss + -1)).
    replace (zlen ss + -1) with 0 by lia. change (u16 0) with 0. rewrite Z.sub_0_r.
    rewrite (uwrap_small 64 (ql_count ql)) by (pose proof (holds_bounds _ _ _ Hh); pose proof (zlen_nonneg (contents (l1 ++ Cell a b ss :: l2))); rewrite (h_count _ _ _ Hh); unfold urange; lia).
    apply Hq. rewrite E0, contents_app. done.
  - rewrite (proj2 (Z.eqb_neq _ _)) by (intros E; apply E0, zlen_0_nil; lia).
    destruct (update_sz_at _ _ _ _ _ _ _ _ z' ss' Hw2 eq_refl Hz') as (h3 & -> & Hw3). cbn [mbind option_bind].
    eexists _, _, _. split; [reflexivity|]. split; [done|]. eexists. eapply holds_shrunk; [done|exact Hw3|done..| | | |].
    + lia.
    + apply str_cap_sub. lia.
    + rewrite u16_entries by lia. lia.
    + by apply Hq.
Qed.

(** * Access by index *)

Lemma cell_at h ql l1 c l2 : holds h ql (l1 ++ c :: l2) ->
  h !! c_loc c = Some (link (lastp None l1) (c_body c) (firstp l2 None)) /\ node_ok (c_body c) (c_strs c) /\ c_strs c <> [].
Proof.
  intros Hh. split; [by apply (wf_lookup _ _ _ _ _ _ (h_wf _ _ _ Hh))|].
  pose proof (h_cells _ _ _ Hh) as Hc. apply cells_split in Hc as (_ & Hc & _). exact Hc.
Qed.

Lemma walk_bound h ql l1 c l2 : holds h ql (l1 ++ c :: l2) ->
  zlen (contents l1) + zlen (c_strs c) + zlen (contents l2) < 2 ^ 32.
Proof.
  intros Hh. pose proof (holds_bounds _ _ _ Hh) as [_ H]. rewrite contents_mid, !zlen_app in H. lia.
Qed.

Lemma walk_forward h ql l2 : forall l1 fuel index, holds h ql (l1 ++ l2) -> (length l2 <= fuel)%nat ->
  zlen (contents l1) <= index < zlen (contents (l1 ++ l2)) ->
  exists l2a c l2b, l2 = l2a ++ c :: l2b /\
    index_walk fuel h true (firstp l2 None) (zlen (contents l1)) index = Some (Some (c_loc c), zlen (contents (l1 ++ l2a))) /\
    zlen (contents (l1 ++ l2a)) <= index < zlen (contents (l1 ++ l2a)) + zlen (c_strs c).
Proof.
  induction l2 as [|c l2 IH]; intros l1 fuel index Hh Hf Hi.
  { rewrite app_nil_r in Hi. lia. }
  destruct fuel as [|fuel]; [cbn in Hf; lia|]. destruct (cell_at _ _ _ _ _ Hh) as (Ha & Hok & _).
  pose proof (walk_bound _ _ _ _ _ Hh) as Hb. pose proof (zlen_nonneg (contents l1)). pose proof (zlen_nonneg (c_strs c)).
  pose proof (zlen_nonneg (contents l2)). cbn [firstp index_walk]. rewrite Ha. cbn [mbind option_bind].
  change (count (link _ _ _)) with (count (c_body c)). rewrite (n_count _ _ Hok), uwrap_small by (unfold urange; lia).
  destruct (Z.ltb_spec index (zlen (contents l1) + zlen (c_strs c))).
  - exists [], c, l2. rewrite app_nil_r. split_and!; done || lia.
  - replace (l1 ++ c :: l2) with ((l1 ++ [c]) ++ l2) in * by (by rewrite <- app_assoc).
    assert (E : zlen (contents (l1 ++ [c])) = zlen (contents l1) + zlen (c_strs c)).
    { rewrite contents_snoc, zlen_app. lia. }
    destruct (IH (l1 ++ [c]) fuel index Hh) as (l2a & c' & l2b & -> & Ew & Hr); [cbn in Hf; lia|lia|].
    exists (c :: l2a), c', l2b. split; [done|]. rewrite E in Ew.
    change (next (link _ _ ?q)) with q. rewrite Ew. rewrite <- app_assoc in *. by split.
Qed.

Lemma walk_backward h ql l1 : forall l2 fuel index, holds h ql (l1 ++ l2) -> (length l1 <= fuel)%nat ->
  zlen (contents l2) <= index < zlen (contents (l1 ++ l2)) ->
  exists l1a c l1b, l1 = l1a ++ c :: l1b /\
    index_walk fuel h false (lastp None l1) (zlen (contents l2)) index = Some (Some (c_loc c), zlen (contents (l1b ++ l2))) /\
    zlen (contents (l1b ++ l2)) <= index < zlen (contents (l1b ++ l2)) + zlen (c_strs c).
Proof.
  induction l1 as [|c l1 IH] using rev_ind; intros l2 fuel index Hh Hf Hi.
  { cbn [app] in Hi. lia. }
  rewrite length_app in Hf. cbn [length] in Hf. destruct fuel as [|fuel]; [lia|].
  rewrite <- app_assoc in *. cbn [app] in *. destruct (cell_at _ _ _ _ _ Hh) as (Ha & Hok & _).
  pose proof (walk_bound _ _ _ _ _ Hh) as Hb. pose proof (zlen_nonneg (contents l1)). pose proof (zlen_nonneg (c_strs c)).
  pose proof (zlen_nonneg (contents l2)). rewrite lastp_snoc. cbn [index_walk]. rewrite Ha. cbn [mbind option_bind].
  change (count (link _ _ _)) with (count (c_body c)). rewrite (n_count _ _ Hok), uwrap_small by (unfold urange; lia).
  destruct (Z.ltb_spec index (zlen (contents l2) + zlen (c_strs c))).
  - exists l1, c, []. cbn [app]. split_and!; done || lia.
  - assert (E : zlen (contents (c :: l2)) = zlen (contents l2) + zlen (c_strs c)).
    { rewrite contents_cons, zlen_app. lia. }
    destruct (IH (c :: l2) fuel index Hh) as (l1a & c' & l1b & -> & Ew & Hr); [lia|lia|].
    exists l1a, c', (l1b ++ [c]). rewrite <- !app_assoc. split; [done|]. rewrite E in Ew.
    change (prev (link ?p _ _)) with p. rewrite Ew. by split.
Qed.

(** The entry number [i] of a node of the list. *)
Record entry_at (l : list cell) (k : nat) (l1 : list cell) (a : positive) (b : quicklistNode) (ss : list bytes)
    (l2 : list cell) (z : bytes) (es : list zent) (i : nat) : Prop := EntryAt {
  e_list : l = l1 ++ Cell a b ss :: l2;
  e_pos : k = (length (contents l1) + i)%nat;
  e_lt : (i < length ss)%nat;
  e_block : zl b = Some z;
  e_entries : entries z es ss
}.

Lemma read_entry z es ss i s : entries z es ss -> ss !! i = Some s ->
  ziplistGet z (Some (zl_at es i)) = Some (Some (get_val (val_of s))).
Proof.
  intros [(c & -> & _ & Hc & _) Hv] Hs.
  assert (He : vals es !! i = Some (val_of s)) by (rewrite Hv, list_lookup_fmap, Hs; done).
  unfold vals in He. rewrite list_lookup_fmap in He. destruct (es !! i) as [e|] eqn:E; [|done]. injection He as He.
  pose proof (take_drop_middle es i e E) as Ee. unfold zl_at. rewrite <- Ee at 1.
  rewrite get_spec by (by rewrite Ee). by rewrite He.
Qed.

Lemma index_read h a n ss z es off i s : h !! a = Some n -> encoding n = QUICKLIST_NODE_ENCODING_RAW ->
  zl n = Some z -> entries z es ss -> zlen ss <= MAX_ENTRIES -> list_pos ss off = Some i -> - zlen ss <= off -> ss !! i = Some s ->
  (h ← quicklistDecompressNodeForUse garbage h (Some a);
   z ← get_zl h a; p ← ziplistIndex z off; v ← ziplistGet z p; Some (h, true, QEntry (Some a) p v off)) =
  Some (h, true, QEntry (Some a) (Some (zl_at es i)) (Some (get_val (val_of s))) off).
Proof.
  intros Ha He Hz Hes Hm Hp Hoff Hs. rewrite (for_use_off _ _ _ _ Ha He). cbn [mbind option_bind].
  unfold get_zl. rewrite Ha. cbn [mbind option_bind]. rewrite Hz. cbn [mbind option_bind].
  rewrite (zl_find_index z es off (proj1 Hes)).
  - rewrite (proj2 Hes), list_pos_map, Hp. cbn [fmap option_fmap option_map mbind option_bind].
    by rewrite (read_entry z es ss i s Hes Hs).
  - apply list_pos_lt in Hp as Hl. unfold list_pos in Hp. destruct (_ && _) eqn:E in Hp; [|done]. unfold MAX_ENTRIES in Hm.
    destruct (Z.ltb_spec off 0); zb; unfold index_ok, srange, INT32_MIN; lia.
Qed.

(** The offset the code gives the entry: from the end of the node when the index is negative. *)
Definition entry_offset (idx : Z) (ss : list bytes) (i : nat) : Z := if idx <? 0 then Z.of_nat i - zlen ss else Z.of_nat i.

Lemma offset_pos idx ss i : (i < length ss)%nat -> list_pos ss (entry_offset idx ss i) = Some i /\ - zlen ss <= entry_offset idx ss i.
Proof.
  intros Hi. unfold entry_offset, list_pos, zlen. split; [|destruct (idx <? 0); lia].
  destruct (Z.ltb_spec idx 0).
  - destruct (Z.ltb_spec (Z.of_nat i - Z.of_nat (length ss)) 0); [|lia].
    replace (Z.of_nat (length ss) + (Z.of_nat i - Z.of_nat (length ss))) with (Z.of_nat i) by lia. rewrite Nat2Z.id.
    destruct (Z.leb_spec 0 (Z.of_nat i)); [|lia]. destruct (Z.ltb_spec (Z.of_nat i) (Z.of_nat (length ss))); [done|lia].
  - destruct (Z.ltb_spec (Z.of_nat i) 0); [lia|]. rewrite Nat2Z.id.
    destruct (Z.leb_spec 0 (Z.of_nat i)); [|lia]. destruct (Z.ltb_spec (Z.of_nat i) (Z.of_nat (length ss))); [done|lia].
Qed.

Lemma lookup_mid {A} (l1 l2 l3 : list A) i x : (i < length l2)%nat -> (l1 ++ l2 ++ l3) !! (length l1 + i)%nat = Some x -> l2 !! i = Some x.
Proof. intros Hi H. rewrite lookup_app_r in H by lia. rewrite Nat.add_comm, Nat.add_sub in H. by rewrite lookup_app_l in H. Qed.

Lemma entry_read h ql l l1 a b ss l2 z es i k s idx : holds h ql l -> entry_at l k l1 a b ss l2 z es i -> contents l !! k = Some s ->
  let off := entry_offset idx ss i in
  (h ← quicklistDecompressNodeForUse garbage h (Some a);
   z ← get_zl h a; p ← ziplistIndex z off; v ← ziplistGet z p; Some (h, true, QEntry (Some a) p v off)) =
  Some (h, true, QEntry (Some a) (Some (zl_at es i)) (Some (get_val (val_of s))) off).
Proof.
  intros Hh [-> -> Hi Hz Hes] Hs off. destruct (cell_at _ _ _ _ _ Hh) as (Ha & Hok & _). cbn [c_loc c_body c_strs] in *.
  destruct (offset_pos idx ss i Hi) as [Hp Hoff]. rewrite contents_mid in Hs. apply lookup_mid in Hs; [|done].
  eapply index_read; [exact Ha|apply (n_plain _ _ Hok)|exact Hz|done|apply (n_max _ _ Hok)|done..].
Qed.

Lemma cell_entries h ql l1 a b ss l2 : holds h ql (l1 ++ Cell a b ss :: l2) -> exists z es, zl b = Some z /\ entries z es ss.
Proof.
  intros Hh. destruct (cell_at _ _ _ _ _ Hh) as (_ & Hok & _). destruct (n_block _ _ Hok) as (z & Hz & (es & He) & _).
  by exists z, es.
Qed.

(** Where the walk of [quicklistIndex] stops. *)
Lemma index_node h ql l idx k : holds h ql l -> srange 64 idx -> list_pos (contents l) idx = Some k ->
  exists l1 a b ss l2 i, l = l1 ++ Cell a b ss :: l2 /\ k = (length (contents l1) + i)%nat /\ (i < length ss)%nat /\
    quicklistIndex garbage h ql idx =
      (let off := entry_offset idx ss i in
       h ← quicklistDecompressNodeForUse garbage h (Some a);
       z ← get_zl h a; p ← ziplistIndex z off; v ← ziplistGet z p; Some (h, true, QEntry (Some a) p v off)).
Proof.
  intros Hh Hidx Hp. pose proof (holds_bounds _ _ _ Hh) as [_ Hb]. pose proof (h_wf _ _ _ Hh) as Hw.
  pose proof (wf_size _ _ _ _ Hw) as Hsz. unfold list_pos in Hp. destruct (_ && _) eqn:Er in Hp; [|done]. injection Hp as <-.
  unfold quicklistIndex, entry_offset. rewrite (h_count _ _ _ Hh). unfold srange in Hidx.
  destruct (Z.ltb_spec idx 0) as [Hneg|Hpos]; cbn [negb]; zb.
  - rewrite uwrap_small by (unfold urange; lia). rewrite (proj2 (Z.leb_gt _ _)) by lia. rewrite (wf_tail _ _ _ _ Hw).
    destruct (walk_backward h ql l [] (S (size h)) (- idx - 1)) as (l1 & [a b ss] & l2 & -> & Ew & Hi);
      [by rewrite app_nil_r|lia|rewrite app_nil_r; change (zlen (contents [])) with 0; lia|].
    change (zlen (contents [])) with 0 in Ew. rewrite app_nil_r in *. rewrite Ew. cbn [mbind option_bind c_loc].
    cbn [c_strs] in Hi. rewrite contents_mid in *. cbn [c_strs] in *. rewrite !zlen_app in *.
    exists l1, a, b, ss, l2, (Z.to_nat (zlen ss + zlen (contents l2) + idx)).
    split; [done|]. split; [unfold zlen in *; lia|]. split; [unfold zlen in *; lia|]. cbv zeta.
    rewrite s32_u64 by (unfold srange, zlen in *; lia).
    replace (- (- idx - 1) - 1 + zlen (contents l2)) with (Z.of_nat (Z.to_nat (zlen ss + zlen (contents l2) + idx)) - zlen ss) by lia.
    done.
  - rewrite (proj2 (Z.leb_gt _ _)) by lia. rewrite (wf_head _ _ _ _ Hw).
    destruct (walk_forward h ql l [] (S (size h)) idx) as (l1 & [a b ss] & l2 & -> & Ew & Hi);
      [done|lia|change (zlen (contents [])) with 0; cbn [app]; lia|].
    change (zlen (contents [])) with 0 in Ew. cbn [app] in *. rewrite Ew. cbn [mbind option_bind c_loc].
    cbn [c_strs] in Hi. rewrite contents_mid in *. cbn [c_strs] in *. rewrite !zlen_app in *.
    exists l1, a, b, ss, l2, (Z.to_nat (idx - zlen (contents l1))).
    split; [done|]. split; [unfold zlen in *; lia|]. split; [unfold zlen in *; lia|]. cbv zeta.
    rewrite s32_u64 by (unfold srange, zlen in *; lia).
    replace (idx - zlen (contents l1)) with (Z.of_nat (Z.to_nat (idx - zlen (contents l1)))) by lia. by rewrite Nat2Z.id.
Qed.

Lemma index_found h ql l idx k : holds h ql l -> srange 64 idx -> list_pos (contents l) idx = Some k ->
  exists l1 a b ss l2 z es i s, entry_at l k l1 a b ss l2 z es i /\ contents l !! k = Some s /\
    quicklistIndex garbage h ql idx =
      Some (h, true, QEntry (Some a) (Some (zl_at es i)) (Some (get_val (val_of s))) (entry_offset idx ss i)).
Proof.
  intros Hh Hidx Hp. destruct (index_node h ql l idx k Hh Hidx Hp) as (l1 & a & b & ss & l2 & i & -> & -> & Hi & E).
  destruct (cell_entries _ _ _ _ _ _ _ Hh) as (z & es & Hz & Hes). apply list_pos_lt in Hp.
  destruct (lookup_lt_is_Some_2 _ _ Hp) as [s Hs]. exists l1, a, b, ss, l2, z, es, i, s.
  assert (Hat : entry_at (l1 ++ Cell a b ss :: l2) (length (contents l1) + i) l1 a b ss l2 z es i) by by constructor.
  split; [done|]. split; [done|]. rewrite E. by apply (entry_read _ _ _ _ _ _ _ _ _ _ _ _ _ idx Hh Hat Hs).
Qed.

Lemma index_missing h ql l idx : holds h ql l -> srange 64 idx -> list_pos (contents l) idx = None ->
  quicklistIndex garbage h ql idx = Some (h, false, initEntry).
Proof.
  intros Hh Hidx Hp. pose proof (holds_bounds _ _ _ Hh) as [_ Hb]. unfold quicklistIndex. rewrite (h_count _ _ _ Hh).
  unfold list_pos in Hp. unfold srange in Hidx. pose proof (zlen_nonneg (contents l)).
  destruct (Z.ltb_spec idx 0); cbn [negb] in *; rewrite ?uwrap_small by (unfold urange; lia);
    (rewrite (proj2 (Z.leb_le _ _)); [done|]); destruct (_ && _) eqn:E in Hp; try done; zb; lia.
Qed.

(** * The string of an entry *)

Lemma value_string_val s : value_string (get_val (val_of s)) = Some s.
Proof.
  unfold val_of. destruct (zipTryEncoding s) as [[v enc]|] eqn:E; [|done]. cbn [get_val value_string].
  apply try_encoding_sound in E as (_ & Hv & -> & _).
  pose proof (ll2string_spec (replicate 32 0) 32 v Hv ltac:(done)) as H. pose proof (decimal_le20 v Hv).
  destruct (zlen (decimal v) <? 32) eqn:El; [|zb; lia]. destruct H as (rest & -> & Hl). cbn [mbind option_bind].
  unfold zsub. rewrite zlen_app. pose proof (zlen_nonneg (decimal v)). pose proof (zlen_nonneg (0 :: rest)).
  replace (_ && _) with true by (symmetry; rewrite !andb_true_iff; split_and!; zb; lia).
  change (drop (Z.to_nat 0) ?x) with x. by rewrite to_nat_zlen, take_app_length.
Qed.

(** * Popping and replacing *)

Lemma take_mid {A} (l1 l2 l3 : list A) i : (i <= length l2)%nat -> take (length l1 + i) (l1 ++ l2 ++ l3) = l1 ++ take i l2.
Proof. intros Hi. rewrite take_app_add, take_app_le by done. done. Qed.

Lemma drop_mid {A} (l1 l2 l3 : list A) i : (i <= length l2)%nat -> drop (length l1 + i) (l1 ++ l2 ++ l3) = drop i l2 ++ l3.
Proof. intros Hi. rewrite drop_app_add, drop_app_le by done. done. Qed.

Lemma del_at h ql l k l1 a b ss l2 z es i : holds h ql l -> entry_at l k l1 a b ss l2 z es i ->
  exists h' ql' gone l', quicklistDelIndex htab garbage h ql a (zl_at es i) = Some (h', ql', gone, zl_at es i) /\
    holds h' ql' l' /\ contents l' = take k (contents l) ++ drop (S k) (contents l).
Proof.
  intros Hh [-> -> Hi Hz Hes]. destruct (del_index h ql l1 a b ss l2 z es i Hh Hz Hes Hi) as (h' & ql' & gone & E & Hd).
  exists h', ql', gone. rewrite contents_mid. cbn [c_strs]. rewrite take_mid by lia.
  rewrite <- Nat.add_succ_r, drop_mid by lia.
  case_decide as E0.
  - destruct Hd as [_ Hd]. exists (l1 ++ l2). split_and!; [done..|]. apply app_eq_nil in E0 as [-> ->].
    by rewrite contents_app, app_nil_r.
  - destruct Hd as [_ [b' Hd]]. eexists. split_and!; [done..|]. rewrite contents_mid. cbn [c_strs]. by rewrite <- !app_assoc.
Qed.

(** What is popped: an integer when the string was stored as one. *)
Definition popped (s : bytes) : bytes + Z := match get_val (val_of s) with ZStr s => inl s | ZInt v => inr v end.

Lemma end_entry h ql l w : holds h ql l -> contents l <> [] ->
  let k := if w =? QUICKLIST_HEAD then O else (length (contents l) - 1)%nat in
  exists l1 a b ss l2 z es i s, entry_at l k l1 a b ss l2 z es i /\ contents l !! k = Some s /\
    (if w =? QUICKLIST_HEAD then head ql else tail ql) = Some a /\ get_zl h a = Some z /\
    ziplistIndex z (if w =? QUICKLIST_HEAD then 0 else -1) = Some (Some (zl_at es i)) /\
    ziplistGet z (Some (zl_at es i)) = Some (Some (get_val (val_of s))).
Proof.
  intros Hh Hne k. pose proof (h_wf _ _ _ Hh) as Hw. rewrite (wf_head _ _ _ _ Hw), (wf_tail _ _ _ _ Hw).
  assert (Hs : is_Some (contents l !! k)).
  { apply lookup_lt_is_Some_2. unfold k. destruct (contents l); [done|]. destruct (w =? QUICKLIST_HEAD); cbn; lia. }
  destruct Hs as [s Hs].
  assert (Hsp : exists l1 a b ss l2 i, l = l1 ++ Cell a b ss :: l2 /\ k = (length (contents l1) + i)%nat /\ (i < length ss)%nat /\
    (if w =? QUICKLIST_HEAD then firstp l None else lastp None l) = Some a /\
    list_pos ss (if w =? QUICKLIST_HEAD then 0 else -1) = Some i).
  { unfold k in *. destruct (w =? QUICKLIST_HEAD).
    - destruct l as [|[a b ss] l2]; [done|]. exists [], a, b, ss, l2, O.
      destruct (cell_at _ _ [] _ _ Hh) as (_ & _ & Hss). cbn [c_strs] in Hss. apply zlen_pos_nonnil in Hss.
      split_and!; try done; [unfold zlen in Hss; lia|]. unfold list_pos. cbn [Z.ltb Z.compare andb Z.leb].
      by rewrite (proj2 (Z.ltb_lt _ _)) by lia.
    - destruct l as [|[a b ss] l1 _] using rev_ind; [done|]. exists l1, a, b, ss, [], (length ss - 1)%nat.
      destruct (cell_at _ _ _ _ _ Hh) as (_ & _ & Hss). cbn [c_strs] in Hss. apply zlen_pos_nonnil in Hss.
      rewrite contents_snoc, length_app, lastp_snoc. cbn [c_strs c_loc]. unfold zlen in Hss.
      split_and!; try done; try lia. unfold list_pos, zlen. cbn [Z.ltb Z.compare].
      replace (_ && _) with true by (symmetry; rewrite andb_true_iff; split; zb; lia). f_equal. lia. }
  destruct Hsp as (l1 & a & b & ss & l2 & i & -> & Ek & Hi & Ea & Hp).
  destruct (cell_entries _ _ _ _ _ _ _ Hh) as (z & es & Hz & Hes).
  exists l1, a, b, ss, l2, z, es, i, s. split; [by constructor|]. split; [done|]. split; [done|].
  rewrite (get_zl_at _ _ _ _ _ _ _ _ Hw). split; [done|].
  rewrite (zl_find_index z es _ (proj1 Hes)) by (unfold index_ok, srange, INT32_MIN; destruct (w =? QUICKLIST_HEAD); lia).
  rewrite (proj2 Hes), list_pos_map, Hp. split; [done|].
  rewrite contents_mid, Ek in Hs. apply lookup_mid in Hs; [|done]. by apply (read_entry z es ss).
Qed.

Lemma pop_some h ql l w : holds h ql l -> contents l <> [] -> w = QUICKLIST_HEAD \/ w = QUICKLIST_TAIL ->
  let k := if w =? QUICKLIST_HEAD then O else (length (contents l) - 1)%nat in
  exists h' ql' l' s, contents l !! k = Some s /\ quicklistPop htab garbage h ql w = Some (h', ql', Some (popped s)) /\
    holds h' ql' l' /\ contents l' = take k (contents l) ++ drop (S k) (contents l).
Proof.
  intros Hh Hne Hw k. destruct (end_entry h ql l w Hh Hne) as (l1 & a & b & ss & l2 & z & es & i & s & Hat & Hs & Ea & Ez & Ei & Eg).
  fold k in Hat, Hs. destruct (del_at _ _ _ _ _ _ _ _ _ _ _ _ Hh Hat) as (h' & ql' & gone & l' & Ed & Hh' & Hc).
  exists h', ql', l', s. split; [done|]. split; [|by split]. unfold quicklistPop, quicklistPopCustom.
  rewrite (h_count _ _ _ Hh). pose proof (zlen_pos_nonnil _ Hne). rewrite (proj2 (Z.eqb_neq _ _)) by lia.
  assert (Ea' : (if w =? QUICKLIST_HEAD then head ql else if w =? QUICKLIST_TAIL then tail ql else None) = Some a).
  { destruct Hw as [-> | ->]; exact Ea. }
  rewrite Ea', Ez. cbn [mbind option_bind]. rewrite Ei. cbn [mbind option_bind]. rewrite Eg. cbn [mbind option_bind].
  rewrite Ed. cbn [mbind option_bind]. done.
Qed.

Lemma pop_none h ql l w : holds h ql l -> contents l = [] -> quicklistPop htab garbage h ql w = Some (h, ql, None).
Proof. intros Hh Hne. unfold quicklistPop, quicklistPopCustom. by rewrite (h_count _ _ _ Hh), Hne. Qed.

Lemma replace_at h ql l idx k s : holds h ql l -> srange 64 idx -> list_pos (contents l) idx = Some k ->
  let ss' := take k (contents l) ++ s :: drop (S k) (contents l) in 11 + str_cap ss' < 2 ^ 32 ->
  exists h' l', quicklistReplaceAtIndex htab garbage h ql idx s = Some (h', true) /\ holds h' ql l' /\ contents l' = ss'.
Proof.
  intros Hh Hidx Hp ss' Hcap. destruct (index_found h ql l idx k Hh Hidx Hp) as (l1 & a & b & ss & l2 & z & es & i & s0 & Hat & Hs & E).
  destruct Hat as [-> -> Hi Hz [Hr Hv]]. pose proof (h_wf _ _ _ Hh) as Hw. unfold quicklistReplaceAtIndex. rewrite E.
  cbn [mbind option_bind node zi]. rewrite (get_zl_at _ _ _ _ _ _ _ _ Hw), Hz. cbn [mbind option_bind].
  unfold ss' in *. rewrite contents_mid in *. cbn [c_strs] in *.
  rewrite take_mid, <- Nat.add_succ_r, drop_mid in * by lia.
  destruct (cell_at _ _ _ _ _ Hh) as (_ & Hok & _). cbn [c_body c_strs] in Hok.
  destruct (delete_strings_at z es ss i 1 Hr Hv Hi ltac:(lia)) as (z1 & es1 & Ez1 & Hr1 & Hp1 & Hv1).
  replace (i + Z.to_nat 1)%nat with (S i) in Hv1 by lia.
  unfold ziplistDelete. rewrite Ez1. cbn [mbind option_bind]. rewrite <- Hp1.
  set (ss1 := take i ss ++ drop (S i) ss) in *. assert (Et : take i ss1 = take i ss /\ drop i ss1 = drop (S i) ss).
  { unfold ss1. rewrite take_app_le, take_take, Nat.min_id, drop_app_ge, length_take by (rewrite length_take; lia).
    split; [done|]. by rewrite (Nat.min_l i (length ss)), Nat.sub_diag by lia. }
  rewrite !str_cap_app, str_cap_cons, str_cap_app in Hcap. pose proof (str_cap_nonneg (contents l1)). pose proof (str_cap_nonneg (contents l2)).
  destruct (insert_strings z1 es1 ss1 i s Hr1 Hv1) as (z2 & Ez2 & Hz2).
  { rewrite (proj1 Et), (proj2 Et), str_cap_app, str_cap_cons. lia. }
  rewrite (proj1 Et), (proj2 Et) in Hz2. set (ss2 := take i ss ++ s :: drop (S i) ss) in *.
  unfold ziplistInsert. rewrite Ez2. cbn [mbind option_bind].
  assert (Hlen : zlen ss2 = zlen ss) by (unfold ss2, zlen; rewrite length_app; cbn; rewrite length_take, length_drop; lia).
  destruct (set_zl_at _ _ _ _ _ _ _ _ z2 ss2 Hw) as (h1 & -> & Hw1). cbn [mbind option_bind].
  destruct (update_sz_at _ _ _ _ _ _ _ _ z2 ss2 Hw1 eq_refl Hz2) as (h2 & -> & Hw2). cbn [mbind option_bind].
  rewrite (quicklistCompress_off _ _ _ _ _ _ (wf_compress _ _ _ _ Hw) (wf_at _ _ _ _ _ _ _ _ Hw2)) by apply (n_plain _ _ Hok).
  cbn [mbind option_bind]. exists h2, (l1 ++ Cell a (reblock z2 b) ss2 :: l2). split; [done|].
  assert (Ec : contents (l1 ++ Cell a (reblock z2 b) ss2 :: l2) = (contents l1 ++ take i ss) ++ s :: drop (S i) ss ++ contents l2).
  { rewrite contents_mid. cbn [c_strs]. unfold ss2. by rewrite <- !app_assoc. }
  split; [|exact Ec]. pose proof (h_cells _ _ _ Hh) as Hc. apply cells_split in Hc as (Hc1 & _ & Hc2). apply holds_intro.
  - done.
  - apply cells_split. split; [done|]. split; [|done]. split; cbn [c_body c_strs].
    + constructor; [apply Hok|by exists z2|by rewrite Hlen; apply Hok|by rewrite Hlen; apply Hok].
    + intros E0. apply app_eq_nil in E0 as [_ E0]. done.
  - rewrite Ec, !str_cap_app, str_cap_cons, str_cap_app. lia.
  - rewrite (h_count _ _ _ Hh), !contents_mid, !zlen_app. cbn [c_strs]. by rewrite Hlen.
  - apply Hh.
Qed.
End with_memory.
