(* ===== verification/QuicklistEdit.v ===== *)
(** * Inserting into and cutting quicklists

    The operations of src/code/lesson1.10/redis-5.0.10/src/quicklist.c that touch several nodes:
    the merges of neighbours, insertion at an entry, with the split of a full node and the merges
    after it, and the deletion of a range. *)

From Stdlib Require Import String.
From stdpp Require Import gmap.
From S2P Require Import Prelude Util Sds Ziplist ZiplistSpec Lzf Quicklist QuicklistNodes QuicklistSpec.

#[local] Open Scope list_scope.
#[local] Open Scope Z_scope.

Section with_memory.
Context (htab : LZF_STATE) (garbage : Z -> bytes).

(** * Merging nodes *)

(** [holds] but for the counter of the list, which is only brought up to date at the end. *)
Record shape (h : heap) (ql : quicklist) (l : list cell) : Prop := Shape {
  s_wf : wf ∅ h ql l;
  s_cells : Forall cell_ok l;
  s_cap : 11 + str_cap (contents l) < 2 ^ 32;
  s_fill : srange 16 (fill ql);
  s_count : urange 64 (ql_count ql)
}.

Lemma holds_shape h ql l : holds h ql l -> shape h ql l.
Proof.
  intros Hh. pose proof (holds_bounds _ _ _ Hh). pose proof (zlen_nonneg (contents l)).
  constructor; try apply Hh. rewrite (h_count _ _ _ Hh). unfold urange. lia.
Qed.

Lemma shape_holds h ql l n : shape h ql l -> u64 n = zlen (contents l) -> holds h (with_ql_count n ql) l.
Proof. intros Hs Hn. apply holds_intro; [apply wf_ql_count, Hs|apply Hs..|done|apply Hs]. Qed.

Lemma shape_at h ql l1 c l2 : shape h ql (l1 ++ c :: l2) ->
  h !! c_loc c = Some (link (lastp None l1) (c_body c) (firstp l2 None)) /\ node_ok (c_body c) (c_strs c) /\ c_strs c <> [].
Proof.
  intros Hh. split; [by apply (wf_lookup _ _ _ _ _ _ (s_wf _ _ _ Hh))|].
  pose proof (s_cells _ _ _ Hh) as Hc. apply cells_split in Hc as (_ & Hc & _). exact Hc.
Qed.

Lemma shape_len h ql l : shape h ql l -> zlen l < 2 ^ 32.
Proof.
  intros Hs. pose proof (contents_len l (s_cells _ _ _ Hs)). pose proof (s_cap _ _ _ Hs).
  pose proof (str_cap_len (contents l)). lia.
Qed.

(** The length the ziplist reports, and the block it may have updated. *)
Lemma len_strings z ss : ziplist_of z ss -> exists z', ziplistLen z = Some (z', zlen ss) /\ ziplist_of z' ss.
Proof.
  intros (es & (c & -> & Hcnt & Hc & Hcap) & Hv). destruct (len_spec es c Hc Hcnt) as (c' & Hcnt' & E).
  exists (zl_of es c'). split; [rewrite E; by rewrite <- (zlen_vals es), Hv; unfold zlen; rewrite length_map|].
  exists es. split; [by exists c'|done].
Qed.

Lemma merge_strings z1 z2 ss1 ss2 : ziplist_of z1 ss1 -> ziplist_of z2 ss2 -> ss2 <> [] -> 11 + str_cap ss1 + str_cap ss2 < 2 ^ 32 ->
  exists z first, ziplistMerge (Some z1) (Some z2) false = Some (Some (z, first)) /\ ziplist_of z (ss1 ++ ss2).
Proof.
  intros H1 H2 Hne Hcap. unfold ziplist_of. rewrite map_app. apply merge_nonempty; [done..| |].
  - intros H. by apply map_eq_nil in H.
  - unfold fits. rewrite <- map_app. pose proof (vcap_str_cap (ss1 ++ ss2)). rewrite str_cap_app in *. lia.
Qed.

(** One of two neighbours gets all the values, the other goes. *)
Lemma keep_node h ql l1 (c1 c2 : cell) l2 (first : bool) z ss : shape h ql (l1 ++ c1 :: c2 :: l2) -> ziplist_of z ss ->
  ss = c_strs c1 ++ c_strs c2 -> zlen ss <= MAX_ENTRIES -> let keep := if first then c1 else c2 in let nokeep := if first then c2 else c1 in
  exists h' ql' b, (h ← set_zl h (c_loc keep) z; h ← assign h (Some (c_loc keep)) (with_count (zlen ss));
     h ← quicklistNodeUpdateSz h (c_loc keep); h ← assign h (Some (c_loc nokeep)) (with_count 0);
     '(h, ql) ← __quicklistDelNode htab garbage h ql (c_loc nokeep);
     h ← quicklistCompress htab garbage h ql (c_loc keep); Some (h, ql, Some (c_loc keep))) = Some (h', ql', Some (c_loc keep)) /\
    shape h' ql' (l1 ++ Cell (c_loc keep) b ss :: l2) /\ fill ql' = fill ql /\ ql_count ql' = ql_count ql.
Proof.
  intros Hs Hz Hss Hm keep nokeep. pose proof (s_wf _ _ _ Hs) as Hw. pose proof (zlen_nonneg ss).
  pose proof (s_cells _ _ _ Hs) as Hc. apply cells_split in Hc as (Hc1 & [Hok1 Hne1] & Hc). apply Forall_cons_iff in Hc as [[Hok2 Hne2] Hc2].
  set (b := with_count (zlen ss) (reblock z (c_body keep))).
  assert (Hb : node_ok b ss).
  { apply node_reblock; [done| |by apply u16_entries|done]. unfold keep. destruct first; [apply Hok1|apply Hok2]. }
  assert (Hsteps : exists h1 h2 h3 h4 r1 r2 bn, set_zl h (c_loc keep) z = Some h1 /\
    assign h1 (Some (c_loc keep)) (with_count (zlen ss)) = Some h2 /\ quicklistNodeUpdateSz h2 (c_loc keep) = Some h3 /\
    assign h3 (Some (c_loc nokeep)) (with_count 0) = Some h4 /\ wf ∅ h4 ql (r1 ++ Cell (c_loc nokeep) bn [] :: r2) /\
    count bn = 0 /\ r1 ++ r2 = l1 ++ Cell (c_loc keep) b ss :: l2 /\ zlen (r1 ++ Cell (c_loc nokeep) bn [] :: r2) = zlen (l1 ++ c1 :: c2 :: l2)).
  { destruct c1 as [a1 b1 ss1], c2 as [a2 b2 ss2]. unfold keep, nokeep, b in *. destruct first; cbn [c_loc c_body c_strs] in *.
    - destruct (set_zl_at _ _ _ _ _ _ _ _ z ss Hw) as (h1 & E1 & Hw1). destruct (set_count_at _ _ _ _ _ _ _ _ (zlen ss) ss Hw1) as (h2 & E2 & Hw2).
      destruct (update_sz_at _ _ _ _ _ _ _ _ z ss Hw2 eq_refl Hz) as (h3 & E3 & Hw3). rewrite app_cons_mid in Hw3.
      destruct (set_count_at _ _ _ _ _ _ _ _ 0 [] Hw3) as (h4 & E4 & Hw4).
      do 7 eexists. split_and!; [exact E1|exact E2|exact E3|exact E4|exact Hw4|done|by rewrite <- app_assoc|].
      rewrite <- app_assoc, !zlen_app, !zlen_cons. done.
    - rewrite app_cons_mid in Hw.
      destruct (set_zl_at _ _ _ _ _ _ _ _ z ss Hw) as (h1 & E1 & Hw1). destruct (set_count_at _ _ _ _ _ _ _ _ (zlen ss) ss Hw1) as (h2 & E2 & Hw2).
      destruct (update_sz_at _ _ _ _ _ _ _ _ z ss Hw2 eq_refl Hz) as (h3 & E3 & Hw3). rewrite <- app_cons_mid in Hw3.
      destruct (set_count_at _ _ _ _ _ _ _ _ 0 [] Hw3) as (h4 & E4 & Hw4).
      do 7 eexists. split_and!; [exact E1|exact E2|exact E3|exact E4|exact Hw4|done|done|].
      rewrite !zlen_app, !zlen_cons. done. }
  destruct Hsteps as (h1 & h2 & h3 & h4 & r1 & r2 & bn & -> & E2 & E3 & E4 & Hw4 & Hbn & Er & El). cbn [mbind option_bind].
  rewrite E2. cbn [mbind option_bind]. rewrite E3. cbn [mbind option_bind]. rewrite E4. cbn [mbind option_bind].
  destruct (del_node htab garbage h4 ql r1 _ r2 Hw4) as (h5 & ql5 & E5 & Hw5 & Hf & Hq); [rewrite El; pose proof (shape_len _ _ _ Hs); lia|].
  cbn [c_loc c_body] in E5, Hq. rewrite E5. cbn [mbind option_bind]. rewrite Er in Hw5.
  rewrite (quicklistCompress_off _ _ _ _ _ _ (wf_compress _ _ _ _ Hw5) (wf_at _ _ _ _ _ _ _ _ Hw5)) by apply Hb.
  cbn [mbind option_bind]. exists h5, ql5, b. split; [done|]. rewrite Hbn, Z.sub_0_r in Hq.
  pose proof (s_count _ _ _ Hs) as Hcnt. rewrite uwrap_small in Hq by done. split; [|done].
  pose proof (s_cap _ _ _ Hs) as Hcap. rewrite contents_mid, contents_cons, !str_cap_app in Hcap.
  constructor; [done| | |rewrite Hf; apply Hs|by rewrite Hq].
  - apply cells_split. split; [done|]. split; [|done]. split; [done|]. cbn [c_strs]. rewrite Hss. intros E. by apply app_eq_nil in E as [E _].
  - rewrite contents_mid, !str_cap_app. cbn [c_strs]. rewrite Hss, str_cap_app. lia.
Qed.

(** The body of a merge, whatever the size. *)
Lemma merge_nodes h ql l1 c1 c2 l2 : shape h ql (l1 ++ c1 :: c2 :: l2) ->
  zlen (c_strs c1) + zlen (c_strs c2) <= MAX_ENTRIES ->
  exists h' ql' c, _quicklistZiplistMerge htab garbage h ql (c_loc c1) (c_loc c2) = Some (h', ql', Some (c_loc c)) /\
    shape h' ql' (l1 ++ c :: l2) /\ c_strs c = c_strs c1 ++ c_strs c2 /\ fill ql' = fill ql /\ ql_count ql' = ql_count ql.
Proof.
  intros Hs Hm. destruct (shape_at _ _ _ _ _ Hs) as (Ha1 & Hok1 & Hne1). pose proof Hs as Hs'. rewrite app_cons_mid in Hs'.
  destruct (shape_at _ _ _ _ _ Hs') as (Ha2 & Hok2 & Hne2).
  destruct (n_block _ _ Hok1) as (z1 & Ez1 & Hz1 & _). destruct (n_block _ _ Hok2) as (z2 & Ez2 & Hz2 & _).
  pose proof (s_cap _ _ _ Hs) as Hcap. rewrite contents_mid, contents_cons, !str_cap_app in Hcap.
  pose proof (str_cap_nonneg (contents l1)). pose proof (str_cap_nonneg (contents l2)).
  unfold _quicklistZiplistMerge. rewrite (decompress_off _ _ _ _ Ha1) by apply Hok1. cbn [mbind option_bind].
  rewrite (decompress_off _ _ _ _ Ha2) by apply Hok2. cbn [mbind option_bind]. rewrite Ha1. cbn [mbind option_bind].
  rewrite Ha2. cbn [mbind option_bind]. change (zl (link _ (c_body c1) _)) with (zl (c_body c1)).
  change (zl (link _ (c_body c2) _)) with (zl (c_body c2)). rewrite Ez1, Ez2.
  rewrite bool_decide_eq_false_2.
  2:{ pose proof (wf_dup _ _ _ _ (s_wf _ _ _ Hs)) as Hd. apply locs_split in Hd as (_ & _ & _ & Hn & _). intros E. apply Hn. by left. }
  destruct (merge_strings z1 z2 _ _ Hz1 Hz2 Hne2) as (z & first & -> & Hz); [lia|]. cbn [mbind option_bind].
  destruct (len_strings z _ Hz) as (z' & El & Hz').
  destruct (keep_node h ql l1 c1 c2 l2 first z' _ Hs Hz' eq_refl) as (h' & ql' & b & E & Hsh & Hf & Hq); [by rewrite zlen_app|].
  exists h', ql', (Cell (c_loc (if first then c1 else c2)) b (c_strs c1 ++ c_strs c2)).
  split; [|by split_and!]. cbn [c_loc]. rewrite <- E. by destruct first; rewrite El.
Qed.

(** Two neighbours, merged if the limits allow it. *)
Lemma try_merge h ql l1 c1 c2 l2 : shape h ql (l1 ++ c1 :: c2 :: l2) ->
  exists r, _quicklistNodeAllowMerge h (Some (c_loc c1)) (Some (c_loc c2)) (fill ql) = Some r /\
    _quicklistNodeAllowMerge h (Some (c_loc c2)) (Some (c_loc c1)) (fill ql) = Some r /\
    exists h' ql' m, merge_if htab garbage h ql r (Some (c_loc c1)) (Some (c_loc c2)) =
        Some (h', ql', if r then firstp m None else None) /\
      shape h' ql' (l1 ++ m ++ l2) /\ contents m = c_strs c1 ++ c_strs c2 /\ fill ql' = fill ql /\ ql_count ql' = ql_count ql /\
      if r then exists c, m = [c] else m = [c1; c2].
Proof.
  intros Hs. destruct (shape_at _ _ _ _ _ Hs) as (Ha1 & Hok1 & Hne1). pose proof Hs as Hs'. rewrite app_cons_mid in Hs'.
  destruct (shape_at _ _ _ _ _ Hs') as (Ha2 & Hok2 & Hne2).
  pose proof (s_cap _ _ _ Hs) as Hcap. rewrite contents_mid, contents_cons, !str_cap_app in Hcap.
  pose proof (str_cap_nonneg (contents l1)). pose proof (str_cap_nonneg (contents l2)).
  destruct (allow_merge h (c_loc c1) (c_loc c2) _ _ (c_body c1) (c_body c2) (c_strs c1) (c_strs c2) (fill ql) Ha1 Ha2) as (r & E1 & Hr);
    try done; [lia|apply Hs|].
  exists r. split; [done|]. split.
  { rewrite <- E1. unfold _quicklistNodeAllowMerge. rewrite Ha1, Ha2. cbn [mbind option_bind].
    by rewrite (Z.add_comm (sz (link _ (c_body c2) _))), (Z.add_comm (count (link _ (c_body c2) _))). }
  unfold merge_if. destruct r.
  - cbn [mbind option_bind]. destruct (merge_nodes h ql l1 c1 c2 l2 Hs) as (h' & ql' & c & E & Hsh & Hc & Hf & Hq); [by apply Hr|].
    exists h', ql', [c]. split; [exact E|]. split; [done|]. split; [by unfold contents; cbn; rewrite app_nil_r|]. split_and!; [done..|by exists c].
  - exists h, ql, [c1; c2]. split; [done|]. split; [done|]. split; [by unfold contents; cbn; rewrite app_nil_r|]. by split_and!.
Qed.

Lemma allow_none_l h p f : _quicklistNodeAllowMerge h None p f = Some false.
Proof. done. Qed.

Lemma allow_none_r h p f : _quicklistNodeAllowMerge h p None f = Some false.
Proof. by destruct p. Qed.

Definition second_last (l : list cell) : ptr := match l with [] => None | _ => lastp None (removelast l) end.
Definition second (l : list cell) : ptr := match l with _ :: c :: _ => Some (c_loc c) | _ => None end.

(** The first two tries of [_quicklistMergeNodes], on each side of the center. *)
Lemma merge_left h ql l c r : shape h ql (l ++ c :: r) ->
  exists h' ql' l' t, (allow ← _quicklistNodeAllowMerge h (lastp None l) (second_last l) (fill ql);
      merge_if htab garbage h ql allow (second_last l) (lastp None l)) = Some (h', ql', t) /\
    shape h' ql' (l' ++ c :: r) /\ contents l' = contents l /\ fill ql' = fill ql /\ ql_count ql' = ql_count ql.
Proof.
  intros Hs. destruct l as [|c1 l _] using rev_ind; [by exists h, ql, [], None|].
  destruct l as [|c2 l _] using rev_ind; [by exists h, ql, [c1], None|].
  assert (E : second_last ((l ++ [c2]) ++ [c1]) = Some (c_loc c2)).
  { unfold second_last. destruct ((l ++ [c2]) ++ [c1]) eqn:E; [by destruct l|]. rewrite <- E.
    by rewrite removelast_last, lastp_snoc. }
  rewrite E, lastp_snoc. rewrite <- !app_assoc in Hs. cbn [app] in Hs.
  destruct (try_merge h ql l c2 c1 (c :: r) Hs) as (b & _ & -> & h' & ql' & m & Em & Hsh & Hc & Hf & Hq & _).
  cbn [mbind option_bind]. rewrite Em. exists h', ql', (l ++ m), (if b then firstp m None else None).
  rewrite <- app_assoc, !contents_app, Hc. split_and!; try done. cbn. by rewrite !app_nil_r, <- app_assoc.
Qed.

Lemma merge_right h ql l c r : shape h ql (l ++ c :: r) ->
  exists h' ql' r' t, (allow ← _quicklistNodeAllowMerge h (firstp r None) (second r) (fill ql);
      merge_if htab garbage h ql allow (firstp r None) (second r)) = Some (h', ql', t) /\
    shape h' ql' (l ++ c :: r') /\ contents r' = contents r /\ fill ql' = fill ql /\ ql_count ql' = ql_count ql.
Proof.
  intros Hs. destruct r as [|c1 [|c2 r]]; [by exists h, ql, [], None|by exists h, ql, [c1], None|].
  cbn [firstp second]. rewrite app_cons_mid in Hs.
  destruct (try_merge h ql (l ++ [c]) c1 c2 r Hs) as (b & -> & _ & h' & ql' & m & Em & Hsh & Hc & Hf & Hq & _).
  cbn [mbind option_bind]. rewrite Em. exists h', ql', (m ++ r), (if b then firstp m None else None).
  rewrite app_cons_mid, contents_app, Hc. split_and!; try done. by rewrite <- app_assoc.
Qed.

Lemma merge_prev h ql l c r : shape h ql (l ++ c :: r) ->
  exists h' ql' l' c', (allow ← _quicklistNodeAllowMerge h (Some (c_loc c)) (lastp None l) (fill ql);
      if (allow : bool) then merge_if htab garbage h ql true (lastp None l) (Some (c_loc c)) else Some (h, ql, Some (c_loc c))) =
      Some (h', ql', Some (c_loc c')) /\
    shape h' ql' (l' ++ c' :: r) /\ contents (l' ++ [c']) = contents (l ++ [c]) /\ fill ql' = fill ql /\ ql_count ql' = ql_count ql.
Proof.
  intros Hs. destruct l as [|c1 l _] using rev_ind; [by exists h, ql, [], c|].
  rewrite <- app_assoc in Hs. cbn [app] in Hs. rewrite lastp_snoc.
  destruct (try_merge h ql l c1 c r Hs) as (b & _ & -> & h' & ql' & m & Em & Hsh & Hc & Hf & Hq & Hm).
  cbn [mbind option_bind]. destruct b.
  - destruct Hm as [c' ->]. exists h', ql', l, c'. split; [exact Em|].
    rewrite !contents_app, Hc. split_and!; try done. unfold contents. cbn. by rewrite !app_nil_r, <- app_assoc.
  - by exists h, ql, (l ++ [c1]), c; rewrite <- app_assoc.
Qed.

Lemma merge_next h ql l c r : shape h ql (l ++ c :: r) ->
  exists h' ql' r' t, (allow ← _quicklistNodeAllowMerge h (Some (c_loc c)) (firstp r None) (fill ql);
      merge_if htab garbage h ql allow (Some (c_loc c)) (firstp r None)) = Some (h', ql', t) /\
    shape h' ql' (l ++ r') /\ contents r' = contents (c :: r) /\ fill ql' = fill ql /\ ql_count ql' = ql_count ql.
Proof.
  intros Hs. destruct r as [|c1 r]; [by exists h, ql, [c], None|]. cbn [firstp].
  destruct (try_merge h ql l c c1 r Hs) as (b & -> & _ & h' & ql' & m & Em & Hsh & Hc & Hf & Hq & _).
  cbn [mbind option_bind]. rewrite Em. exists h', ql', (m ++ r), (if b then firstp m None else None).
  rewrite contents_app, Hc, <- app_assoc. by split_and!.
Qed.

Lemma second_last_prev h p l r : seg h p l r -> p = None ->
  (match lastp None l with Some _ => n ← deref h (lastp None l); Some (prev n) | None => Some None end) = Some (second_last l).
Proof.
  intros Hs ->. destruct l as [|c l _] using rev_ind; [done|]. rewrite lastp_snoc. apply node_seg_app in Hs as [_ [Hs _]].
  unfold deref. cbn [mbind option_bind]. rewrite Hs. cbn [mbind option_bind]. change (prev (link ?p _ _)) with p.
  unfold second_last. destruct (l ++ [c]) eqn:E; [by destruct l|]. rewrite <- E. by rewrite removelast_last.
Qed.

Lemma second_next h p l : seg h p l None ->
  (match firstp l None with Some _ => n ← deref h (firstp l None); Some (next n) | None => Some None end) = Some (second l).
Proof.
  intros Hs. destruct l as [|c l]; [done|]. destruct Hs as [Hs _]. cbn [firstp]. unfold deref. cbn [mbind option_bind].
  rewrite Hs. cbn [mbind option_bind]. by destruct l.
Qed.

(** The four merges around a node leave the values of the list alone. *)
Lemma merge_around h ql l c r : shape h ql (l ++ c :: r) ->
  exists h' ql' l', _quicklistMergeNodes htab garbage h ql (c_loc c) = Some (h', ql') /\
    shape h' ql' l' /\ contents l' = contents (l ++ c :: r) /\ fill ql' = fill ql /\ ql_count ql' = ql_count ql.
Proof.
  intros Hs. destruct (shape_at _ _ _ _ _ Hs) as (Ha & _ & _). pose proof (wf_seg _ _ _ _ (s_wf _ _ _ Hs)) as Hseg.
  apply node_seg_app in Hseg as [Hseg1 [_ Hseg2]]. unfold _quicklistMergeNodes. rewrite Ha. cbn [mbind option_bind].
  change (prev (link ?p _ _)) with p. change (next (link _ _ ?q)) with q.
  rewrite (second_last_prev _ _ _ _ Hseg1 eq_refl). cbn [mbind option_bind].
  rewrite (second_next _ _ _ Hseg2). cbn [mbind option_bind].
  destruct (merge_left h ql l c r Hs) as (h1 & ql1 & l1 & t1 & E1 & Hs1 & Hc1 & Hf1 & Hq1).
  apply bind_Some in E1 as (b1 & -> & E1). cbn [mbind option_bind]. rewrite E1. cbn [mbind option_bind].
  destruct (merge_right h1 ql1 l1 c r Hs1) as (h2 & ql2 & r2 & t2 & E2 & Hs2 & Hc2 & Hf2 & Hq2). rewrite Hf1 in E2.
  apply bind_Some in E2 as (b2 & -> & E2). cbn [mbind option_bind]. rewrite E2. cbn [mbind option_bind].
  destruct (shape_at _ _ _ _ _ Hs2) as (Ha2 & _ & _). rewrite Ha2. cbn [mbind option_bind]. change (prev (link ?p _ _)) with p.
  destruct (merge_prev h2 ql2 l1 c r2 Hs2) as (h3 & ql3 & l3 & c3 & E3 & Hs3 & Hc3 & Hf3 & Hq3). rewrite Hf2, Hf1 in E3.
  apply bind_Some in E3 as (b3 & -> & E3). cbn [mbind option_bind]. rewrite E3. cbn [mbind option_bind].
  destruct (shape_at _ _ _ _ _ Hs3) as (Ha3 & _ & _). unfold deref. cbn [mbind option_bind]. rewrite Ha3.
  cbn [mbind option_bind]. change (next (link _ _ ?q)) with q.
  destruct (merge_next h3 ql3 l3 c3 r2 Hs3) as (h4 & ql4 & r4 & t4 & E4 & Hs4 & Hc4 & Hf4 & Hq4). rewrite Hf3, Hf2, Hf1 in E4.
  apply bind_Some in E4 as (b4 & -> & E4). cbn [mbind option_bind]. rewrite E4. cbn [mbind option_bind].
  exists h4, ql4, (l3 ++ r4). split; [done|]. split; [done|].
  rewrite contents_app, Hc4, <- contents_app, app_cons_mid, contents_app, Hc3, <- contents_app, <- app_cons_mid.
  rewrite !contents_mid, Hc1, Hc2. split; [done|]. split; congruence.
Qed.

(** * Inserting at an entry *)

Definition ins (j : nat) (s : bytes) (ss : list bytes) : list bytes := take j ss ++ s :: drop j ss.

Lemma ins_length j s ss : zlen (ins j s ss) = zlen ss + 1.
Proof. unfold ins. rewrite zlen_app, zlen_cons. rewrite <- (take_drop j ss) at 3. rewrite zlen_app. lia. Qed.

Lemma cap_ins j s ss : str_cap (ins j s ss) = str_cap ss + 18 + zlen s.
Proof. unfold ins. rewrite str_cap_insert. lia. Qed.

Lemma ins_mid (l1 l2 l3 : list bytes) i s : (i <= length l2)%nat -> ins (length l1 + i) s (l1 ++ l2 ++ l3) = l1 ++ ins i s l2 ++ l3.
Proof. intros Hi. unfold ins. rewrite take_mid, drop_mid by done. by rewrite <- !app_assoc. Qed.

(** The new block of the node of an entry. *)
Lemma insert_block z es ss i s (after : bool) : entries z es ss -> (i < length ss)%nat ->
  let j := if after then S i else i in 11 + str_cap (ins j s ss) < 2 ^ 32 ->
  exists z', (if after then
         next ← ziplistNext z (zl_at es i);
         match next with None => ziplistPush z s ZIPLIST_TAIL | Some q => ziplistInsert z q s end
       else ziplistInsert z (zl_at es i) s) = Some z' /\ ziplist_of z' (ins j s ss).
Proof.
  intros Hes Hi j Hcap. pose proof (entries_length _ _ _ Hes) as Hl. destruct Hes as [Hr Hv]. unfold ins in Hcap.
  destruct after; [|unfold ziplistInsert; apply (insert_strings z es ss i s Hr Hv Hcap)].
  assert (Hn : ziplistNext z (zl_at es i) = Some (if decide (S i < length es)%nat then Some (zl_at es (S i)) else None)).
  { destruct Hr as (c & -> & _ & Hc & _). destruct (lookup_lt_is_Some_2 es i) as [e He]; [lia|]. by apply neighbours with e. }
  rewrite Hn. cbn [mbind option_bind]. case_decide as Hd; unfold j, ins in *.
  - unfold ziplistInsert. apply (insert_strings z es ss (S i) s Hr Hv Hcap).
  - rewrite take_ge, drop_ge in * by lia. apply (push_spec z ss s ZIPLIST_TAIL); [by exists es|exact Hcap].
Qed.

Lemma insert_here_spec h ql l k l1 a b ss l2 z es i s (after : bool) : holds h ql l -> entry_at l k l1 a b ss l2 z es i ->
  let j := if after then S k else k in 11 + str_cap (ins j s (contents l)) < 2 ^ 32 -> zlen ss + 1 <= MAX_ENTRIES ->
  exists h' l', insert_here htab garbage h a (Some (zl_at es i)) s after = Some h' /\
    holds h' (with_ql_count (ql_count ql + 1) ql) l' /\ contents l' = ins j s (contents l).
Proof.
  intros Hh [-> -> Hi Hz Hes] j Hcap Hm. destruct (cell_at _ _ _ _ _ Hh) as (Ha & Hok & _). cbn [c_loc c_body c_strs] in *.
  pose proof (h_wf _ _ _ Hh) as Hw. rewrite cap_ins in Hcap. pose proof Hcap as Hcap'. rewrite contents_mid, !str_cap_app in Hcap'. cbn [c_strs] in Hcap'.
  pose proof (str_cap_nonneg (contents l1)). pose proof (str_cap_nonneg (contents l2)).
  unfold insert_here. rewrite (for_use_off _ _ _ _ Ha) by apply Hok. cbn [mbind option_bind].
  rewrite (get_zl_at _ _ _ _ _ _ _ _ Hw), Hz. cbn [mbind option_bind].
  destruct (insert_block z es ss i s after Hes Hi) as (z' & Ez & Hz'). { rewrite cap_ins. lia. }
  set (j' := if after then S i else i) in *. rewrite Ez. cbn [mbind option_bind].
  destruct (edit_node _ _ _ _ _ _ _ _ z' _ 1 Hw Hz') as (h1 & h2 & h3 & -> & E2 & E3 & Hw3). cbn [mbind option_bind].
  rewrite E2. cbn [mbind option_bind]. rewrite E3. cbn [mbind option_bind].
  rewrite (recompress_off _ _ _ _ _ (wf_at _ _ _ _ _ _ _ _ Hw3)) by apply (n_plain _ _ Hok). eexists _, _. split; [reflexivity|].
  split; [eapply holds_grown; [exact Hh|done|apply ins_length|apply cap_ins|done|lia|done]|].
  rewrite !contents_mid. cbn [c_strs]. rewrite <- ins_mid by (unfold j'; destruct after; lia). f_equal.
  unfold j, j'. destruct after; lia.
Qed.

Lemma push_neighbour_spec h ql l1 a b ss l2 s w : holds h ql (l1 ++ Cell a b ss :: l2) ->
  11 + str_cap (contents (l1 ++ Cell a b ss :: l2)) + 18 + zlen s < 2 ^ 32 -> zlen ss + 1 <= MAX_ENTRIES ->
  exists h' b', push_neighbour htab garbage h (Some a) s w = Some h' /\
    holds h' (with_ql_count (ql_count ql + 1) ql) (l1 ++ Cell a b' (push_at w s ss) :: l2).
Proof.
  intros Hh Hcap Hm. destruct (cell_at _ _ _ _ _ Hh) as (Ha & Hok & _). cbn [c_loc c_body c_strs] in *.
  pose proof (h_wf _ _ _ Hh) as Hw. pose proof Hcap as Hcap'. rewrite contents_mid, !str_cap_app in Hcap'. cbn [c_strs] in Hcap'.
  pose proof (str_cap_nonneg (contents l1)). pose proof (str_cap_nonneg (contents l2)).
  unfold push_neighbour. cbn [mbind option_bind]. rewrite (for_use_off _ _ _ _ Ha) by apply Hok. cbn [mbind option_bind].
  destruct (n_block _ _ Hok) as (z & Ez & Hz & _).
  rewrite (get_zl_at _ _ _ _ _ _ _ _ Hw), Ez. cbn [mbind option_bind]. pose proof (cap_push w s ss) as Hcp.
  destruct (push_spec z ss s w Hz) as (z' & -> & Hz'). { unfold list_op, push_at in *. lia. } cbn [mbind option_bind].
  change (list_op ss (OPush s w)) with (push_at w s ss) in Hz'.
  destruct (edit_node _ _ _ _ _ _ _ _ z' _ 1 Hw Hz') as (h1 & h2 & h3 & -> & E2 & E3 & Hw3). cbn [mbind option_bind].
  rewrite E2. cbn [mbind option_bind]. rewrite E3. cbn [mbind option_bind].
  rewrite (recompress_off _ _ _ _ _ (wf_at _ _ _ _ _ _ _ _ Hw3)) by apply (n_plain _ _ Hok). eexists _, _. split; [reflexivity|].
  eapply holds_grown; [exact Hh|done|apply zlen_push|apply cap_push|done|lia|done].
Qed.

(** ** Edits of a node that is not linked *)

Lemma assign_frame h a f h' x : assign h (Some a) f = Some h' -> x <> a -> h' !! x = h !! x.
Proof.
  unfold assign. cbn [mbind option_bind]. destruct (h !! a); [|done]. cbn [mbind option_bind]. intros [= <-] Hx.
  by apply lookup_insert_ne.
Qed.

Lemma update_frame h a h' x : quicklistNodeUpdateSz h a = Some h' -> x <> a -> h' !! x = h !! x.
Proof.
  unfold quicklistNodeUpdateSz. intros (n & _ & E)%bind_Some Hx. apply bind_Some in E as (z & _ & E).
  apply bind_Some in E as (m & _ & E). by apply (assign_frame _ _ _ _ _ E).
Qed.

Lemma free_zl h a n z : h !! a = Some n -> set_zl h a z = Some (<[a := with_zl z n]> h).
Proof. intros H. unfold set_zl. by apply assign_some. Qed.

Lemma free_count h a n d : h !! a = Some n -> add_count h a d = Some (<[a := with_count (count n + d) n]> h).
Proof. intros H. unfold add_count. rewrite H. cbn [mbind option_bind]. by apply assign_some. Qed.

Lemma free_sz h a n z ss : h !! a = Some n -> zl n = Some z -> ziplist_of z ss ->
  quicklistNodeUpdateSz h a = Some (<[a := with_sz (zlen z) n]> h).
Proof.
  intros H Hz Hs. unfold quicklistNodeUpdateSz. rewrite H. cbn [mbind option_bind]. rewrite Hz. cbn [mbind option_bind].
  rewrite (proj2 (block_size z ss Hs)). cbn [mbind option_bind]. by apply assign_some.
Qed.

(** A new node between two full ones. *)
Lemma insert_provision h ql l1 c l2 s : holds h ql (l1 ++ c :: l2) ->
  11 + str_cap (contents (l1 ++ c :: l2)) + 18 + zlen s < 2 ^ 32 ->
  exists h' ql' c', ('(h, new_node) ← new_value_node h s ZIPLIST_HEAD false;
      h ← add_count h new_node 1; h ← quicklistNodeUpdateSz h new_node;
      __quicklistInsertNode htab garbage h ql (Some (c_loc c)) new_node false) = Some (h', ql') /\
    holds h' (with_ql_count (ql_count ql' + 1) ql') (l1 ++ c' :: c :: l2) /\ c_strs c' = [s] /\
    ql_count ql' = ql_count ql.
Proof.
  intros Hh Hcap. destruct (cell_at _ _ _ _ _ Hh) as (_ & Hok & _). pose proof (str_cap_nonneg (contents (l1 ++ c :: l2))).
  destruct (new_node h s ZIPLIST_HEAD false) as (z & -> & Hz); [lia|]. cbn [mbind option_bind].
  rewrite (free_count _ _ _ 1 (lookup_insert_eq _ _ _)), insert_insert_eq. cbn [mbind option_bind].
  rewrite (free_sz _ _ (with_count 1 (new_body z false 0)) z [s] (lookup_insert_eq _ _ _) eq_refl Hz), insert_insert_eq. cbn [mbind option_bind].
  change (with_sz _ (with_count _ _)) with (new_body z true 1).
  destruct (wf_new h ql _ (new_body z true 1) (h_wf _ _ _ Hh)) as [Hw1 Hn1].
  destruct (node_before htab garbage _ _ l1 c l2 (fresh (dom h)) (new_body z true 1) [s] Hw1 (n_plain _ _ Hok) Hn1
    (lookup_insert_eq _ _ _)) as (h2 & ql2 & E2 & Hw2 & Hf & Hq).
  { pose proof (holds_bounds _ _ _ Hh). lia. }
  exists h2, ql2, (Cell (fresh (dom h)) (new_body z true 1) [s]). split; [exact E2|]. split_and!; [|done..].
  eapply holds_added; [exact Hh|by apply new_body_ok|done..].
Qed.

(** ** Splitting a full node *)

Lemma delete_range_at z ss k n : ziplist_of z ss -> 0 <= k <= zlen ss -> zlen ss <= MAX_ENTRIES -> 0 <= n < 2 ^ 32 ->
  11 + str_cap ss < 2 ^ 32 ->
  exists z', ziplistDeleteRange z k n = Some z' /\ ziplist_of z' (take (Z.to_nat k) ss ++ drop (Z.to_nat k + Z.to_nat n) ss).
Proof.
  intros Hz Hk Hm Hn Hcap. unfold MAX_ENTRIES in Hm.
  assert (Hop : list_op ss (ODeleteRange k n) = take (Z.to_nat k) ss ++ drop (Z.to_nat k + Z.to_nat n) ss).
  { cbn [list_op]. unfold list_pos. rewrite (proj2 (Z.ltb_ge _ _)) by lia.
    rewrite (proj2 (Z.leb_le 0 k)) by lia. cbn [andb]. destruct (Z.ltb_spec k (zlen ss)); [done|].
    unfold zlen in *. rewrite take_ge, drop_ge, app_nil_r by lia. done. }
  rewrite <- Hop. apply (zl_op_spec z ss (ODeleteRange k n) Hz).
  - unfold op_ok, index_ok, urange, srange, INT32_MIN. lia.
  - rewrite Hop. pose proof (str_cap_sub (Z.to_nat k) (Z.to_nat k + Z.to_nat n) ss ltac:(lia)). lia.
Qed.

(** The values that stay and those that go to the new node. *)
Definition kept (after : bool) (i : nat) (ss : list bytes) : list bytes := if after then take (S i) ss else drop i ss.
Definition moved (after : bool) (i : nat) (ss : list bytes) : list bytes := if after then drop (S i) ss else take i ss.

Lemma split_blocks z ss i (after : bool) : ziplist_of z ss -> (i < length ss)%nat -> zlen ss <= MAX_ENTRIES -> 11 + str_cap ss < 2 ^ 32 ->
  exists z1 z2,
    ziplistDeleteRange z (if after then Z.of_nat i + 1 else 0) (u32 (if after then -1 else Z.of_nat i)) = Some z1 /\
    ziplistDeleteRange z (if after then 0 else Z.of_nat i) (u32 (if after then Z.of_nat i + 1 else -1)) = Some z2 /\
    ziplist_of z1 (kept after i ss) /\ ziplist_of z2 (moved after i ss).
Proof.
  intros Hz Hi Hm Hcap. unfold zlen in Hm. unfold kept, moved. unfold MAX_ENTRIES in Hm.
  assert (Hbig : forall j, drop (j + Z.to_nat 4294967295) ss = []) by (intros j; apply drop_ge; lia).
  destruct after; change (u32 (-1)) with 4294967295.
  - destruct (delete_range_at z ss (Z.of_nat i + 1) 4294967295 Hz) as (z1 & E1 & H1); [unfold zlen; lia|done|done|done|].
    destruct (delete_range_at z ss 0 (Z.of_nat i + 1) Hz) as (z2 & E2 & H2); [unfold zlen; lia|done|lia|done|].
    exists z1, z2. rewrite (uwrap_small 32) by (unfold urange; lia). rewrite Hbig, app_nil_r in H1.
    replace (Z.to_nat (Z.of_nat i + 1)) with (S i) in * by lia. by split_and!.
  - destruct (delete_range_at z ss 0 (Z.of_nat i) Hz) as (z1 & E1 & H1); [unfold zlen; lia|done|lia|done|].
    destruct (delete_range_at z ss (Z.of_nat i) 4294967295 Hz) as (z2 & E2 & H2); [unfold zlen; lia|done|done|done|].
    exists z1, z2. rewrite (uwrap_small 32) by (unfold urange; lia). rewrite Hbig, app_nil_r in H2.
    rewrite Nat2Z.id in *. by split_and!.
Qed.

Lemma zsub_all (z : bytes) : zsub z 0 (zlen z) = Some z.
Proof.
  unfold zsub. pose proof (zlen_nonneg z). replace (_ && _) with true by (symmetry; rewrite !andb_true_iff; split_and!; zb; lia).
  change (drop (Z.to_nat 0) ?x) with x. by rewrite to_nat_zlen, firstn_all.
Qed.

(** The split itself: the node keeps its values up to, or from, the entry; the others are in a new
    node, not linked yet. *)
Lemma split_node h ql l1 a b ss l2 i (after : bool) : holds h ql (l1 ++ Cell a b ss :: l2) -> (i < length ss)%nat ->
  exists h' z1 z2 new, _quicklistSplitNode h a (Z.of_nat i) after = Some (h', new) /\
    ~ In new (locs (l1 ++ Cell a b ss :: l2)) /\
    h' !! new = Some (new_body z2 true (zlen (moved after i ss))) /\ ziplist_of z2 (moved after i ss) /\
    ziplist_of z1 (kept after i ss) /\
    wf {[new]} h' ql (l1 ++ Cell a (with_count (zlen (kept after i ss)) (reblock z1 b)) (kept after i ss) :: l2).
Proof.
  intros Hh Hi. destruct (cell_at _ _ _ _ _ Hh) as (Ha & Hok & _). cbn [c_loc c_body c_strs] in *.
  destruct (n_block _ _ Hok) as (z & Ez & Hz & Hsz). pose proof (h_cap _ _ _ Hh) as Hcap.
  rewrite contents_mid, !str_cap_app in Hcap. cbn [c_strs] in Hcap. pose proof (str_cap_nonneg (contents l1)).
  pose proof (str_cap_nonneg (contents l2)). pose proof (zlen_nonneg (moved after i ss)) as Hm0.
  assert (Hmm : zlen (moved after i ss) <= MAX_ENTRIES).
  { pose proof (n_max _ _ Hok) as Hm. unfold moved, zlen in *. destruct after; rewrite ?length_drop, ?length_take; lia. }
  unfold _quicklistSplitNode, quicklistCreateNode. rewrite Ha. cbn [mbind option_bind].
  change (zl (link _ b _)) with (zl b). change (sz (link _ b _)) with (sz b). rewrite Ez, Hsz. cbn [mbind option_bind].
  rewrite zsub_all. cbn [mbind option_bind]. set (new := fresh (dom h)). set (n0 := QNode _ _ _ _ _ _ _ _).
  rewrite (free_zl _ _ _ z (lookup_insert_eq _ _ _)), insert_insert_eq. cbn [mbind option_bind].
  destruct (wf_new h ql _ (with_zl z n0) (h_wf _ _ _ Hh)) as [Hw1 Hn1]. fold new in Hw1, Hn1. set (h1 := <[new := _]> h) in *.
  assert (Hne : new <> a) by (intros ->; apply Hn1; rewrite node_locs_app, in_app_iff; right; by left).
  destruct (split_blocks z ss i after Hz Hi (n_max _ _ Hok) ltac:(lia)) as (z1 & z2 & -> & E2 & Hz1 & Hz2).
  cbn [mbind option_bind]. destruct (len_strings z1 _ Hz1) as (z1' & -> & Hz1'). cbn [mbind option_bind].
  destruct (set_zl_at _ _ _ _ _ _ _ _ z1' (kept after i ss) Hw1) as (h2 & Eh2 & Hw2). rewrite Eh2. cbn [mbind option_bind].
  destruct (set_count_at _ _ _ _ _ _ _ _ (zlen (kept after i ss)) (kept after i ss) Hw2) as (h3 & Eh3 & Hw3). rewrite Eh3. cbn [mbind option_bind].
  destruct (update_sz_at _ _ _ _ _ _ _ _ z1' (kept after i ss) Hw3 eq_refl Hz1') as (h4 & Eh4 & Hw4). rewrite Eh4. cbn [mbind option_bind].
  rewrite E2. cbn [mbind option_bind]. destruct (len_strings z2 _ Hz2) as (z2' & -> & Hz2'). cbn [mbind option_bind].
  assert (Hnew : h4 !! new = Some (with_zl z n0)).
  { rewrite (update_frame _ _ _ _ Eh4 Hne), (assign_frame _ _ _ _ _ Eh3 Hne), (assign_frame _ _ _ _ _ Eh2 Hne). unfold h1. by rewrite lookup_insert_eq. }
  rewrite (free_zl _ _ _ z2' Hnew). cbn [mbind option_bind]. rewrite (assign_some _ _ _ _ (lookup_insert_eq _ _ _)), insert_insert_eq.
  cbn [mbind option_bind]. rewrite (free_sz _ _ (with_count (zlen (moved after i ss)) (with_zl z2' n0)) z2' _ (lookup_insert_eq _ _ _) eq_refl Hz2'), insert_insert_eq.
  cbn [mbind option_bind]. do 4 eexists. split; [reflexivity|]. split; [done|]. split; [|split; [exact Hz2'|split; [exact Hz1'|]]].
  - rewrite lookup_insert_eq. unfold new_body. f_equal. unfold with_sz, with_count, with_zl, n0. cbn. by rewrite u16_entries.
  - apply wf_outside; [exact Hw4|set_solver|]. by rewrite node_locs_app in Hn1 |- *.
Qed.

Lemma kept_ok (after : bool) i ss : (i < length ss)%nat -> kept after i ss <> [] /\ zlen (kept after i ss) <= zlen ss /\
  zlen (moved after i ss) + 1 <= zlen ss.
Proof.
  intros Hi. split_and!.
  - apply nonnil_zlen. unfold kept, zlen. destruct after; rewrite ?length_take, ?length_drop; lia.
  - unfold kept, zlen. destruct after; rewrite ?length_take, ?length_drop; lia.
  - unfold moved, zlen. destruct after; rewrite ?length_take, ?length_drop; lia.
Qed.

(** The value goes to the end of the new node that faces the old one. *)
Lemma ins_split (after : bool) i s ss : ins (if after then S i else i) s ss =
  if after then kept true i ss ++ push_at ZIPLIST_HEAD s (moved true i ss)
  else push_at ZIPLIST_TAIL s (moved false i ss) ++ kept false i ss.
Proof. unfold ins, kept, moved, push_at. destruct after; [done|]. cbn. by rewrite <- app_assoc. Qed.

(** Linking the new node next to the one that was split. *)
Lemma link_split h ql l1 (c new : cell) l2 (after : bool) : wf {[c_loc new]} h ql (l1 ++ c :: l2) -> cell_ok c -> cell_ok new ->
  Forall cell_ok l1 -> Forall cell_ok l2 -> ~ In (c_loc new) (locs (l1 ++ c :: l2)) -> h !! c_loc new = Some (c_body new) ->
  srange 16 (fill ql) -> urange 64 (ql_count ql) ->
  11 + str_cap (contents l1 ++ (if after then c_strs c ++ c_strs new else c_strs new ++ c_strs c) ++ contents l2) < 2 ^ 32 ->
  zlen (l1 ++ c :: l2) + 1 < 2 ^ 64 ->
  exists h' ql' la lb, __quicklistInsertNode htab garbage h ql (Some (c_loc c)) (c_loc new) after = Some (h', ql') /\
    shape h' ql' (la ++ c :: lb) /\
    contents (la ++ c :: lb) = contents l1 ++ (if after then c_strs c ++ c_strs new else c_strs new ++ c_strs c) ++ contents l2 /\
    fill ql' = fill ql /\ ql_count ql' = ql_count ql.
Proof.
  intros Hw Hc Hn Hl1 Hl2 Hnew Hlook Hfill Hcnt Hcap Hlen. destruct new as [a b ss], after; cbn [c_loc c_body c_strs] in *.
  - destruct (node_after htab garbage h ql l1 c l2 a b ss Hw (n_plain _ _ (proj1 Hc)) Hnew Hlook Hlen) as (h' & ql' & E & Hw' & Hf & Hq).
    exists h', ql', l1, (Cell a b ss :: l2).
    assert (Ec : contents (l1 ++ c :: Cell a b ss :: l2) = contents l1 ++ (c_strs c ++ ss) ++ contents l2)
      by (rewrite contents_mid, contents_cons; cbn [c_strs]; by rewrite <- app_assoc).
    split_and!; try done. constructor; [done| |by rewrite Ec|by rewrite Hf|by rewrite Hq].
    apply cells_split. split; [done|]. split; [done|]. by apply Forall_cons_iff.
  - destruct (node_before htab garbage h ql l1 c l2 a b ss Hw (n_plain _ _ (proj1 Hc)) Hnew Hlook Hlen) as (h' & ql' & E & Hw' & Hf & Hq).
    exists h', ql', (l1 ++ [Cell a b ss]), l2. rewrite <- app_assoc. cbn [app].
    assert (Ec : contents (l1 ++ Cell a b ss :: c :: l2) = contents l1 ++ (ss ++ c_strs c) ++ contents l2)
      by (rewrite contents_mid, contents_cons; cbn [c_strs]; by rewrite <- app_assoc).
    split_and!; try done. constructor; [done| |by rewrite Ec|by rewrite Hf|by rewrite Hq].
    apply cells_split. split; [done|]. split; [done|]. by apply Forall_cons_iff.
Qed.

Lemma insert_split_spec h ql l1 a b ss l2 i s (after : bool) : holds h ql (l1 ++ Cell a b ss :: l2) -> (i < length ss)%nat ->
  11 + str_cap (contents (l1 ++ Cell a b ss :: l2)) + 18 + zlen s < 2 ^ 32 ->
  exists h' ql' l', insert_split htab garbage h ql a (Z.of_nat i) s after = Some (h', ql') /\
    holds h' (with_ql_count (ql_count ql' + 1) ql') l' /\
    contents l' = contents l1 ++ ins (if after then S i else i) s ss ++ contents l2.
Proof.
  intros Hh Hi Hcap. destruct (cell_at _ _ _ _ _ Hh) as (Ha & Hok & _). cbn [c_loc c_body c_strs] in *.
  destruct (kept_ok after i ss Hi) as (Hk1 & Hk2 & Hm). pose proof (n_max _ _ Hok) as Hmax.
  pose proof Hcap as Hcap'. rewrite contents_mid, !str_cap_app in Hcap'. cbn [c_strs] in Hcap'.
  pose proof (str_cap_nonneg (contents l1)). pose proof (str_cap_nonneg (contents l2)).
  unfold insert_split. rewrite (for_use_off _ _ _ _ Ha) by apply Hok. cbn [mbind option_bind].
  destruct (split_node h ql l1 a b ss l2 i after Hh Hi) as (h1 & z1 & z2 & new & -> & Hnew & Hlook & Hz2 & Hz1 & Hw1).
  cbn [mbind option_bind]. unfold get_zl at 1. rewrite Hlook. cbn [mbind option_bind zl new_body].
  set (w := if after then ZIPLIST_HEAD else ZIPLIST_TAIL). pose proof (cap_push w s (moved after i ss)) as Hcp.
  assert (Hsum : str_cap ss = str_cap (kept after i ss) + str_cap (moved after i ss)).
  { unfold kept, moved. destruct after; [apply str_cap_take_drop|]. rewrite (str_cap_take_drop i ss). lia. }
  pose proof (str_cap_nonneg (kept after i ss)).
  destruct (push_spec z2 _ s w Hz2) as (z3 & -> & Hz3). { unfold list_op, push_at in *. lia. }
  change (list_op _ (OPush s w)) with (push_at w s (moved after i ss)) in Hz3. cbn [mbind option_bind].
  rewrite (free_zl _ _ _ z3 Hlook). cbn [mbind option_bind].
  rewrite (free_count _ _ _ 1 (lookup_insert_eq _ _ _)), insert_insert_eq. cbn [mbind option_bind].
  set (n1 := with_count _ (with_zl z3 _)). rewrite (free_sz _ _ n1 z3 _ (lookup_insert_eq _ _ _) eq_refl Hz3), insert_insert_eq.
  cbn [mbind option_bind]. set (n2 := with_sz _ n1).
  assert (Hn2 : node_ok n2 (push_at w s (moved after i ss))).
  { pose proof (zlen_nonneg (moved after i ss)).
    constructor; [done|by exists z3| |rewrite zlen_push; lia]. rewrite zlen_push. apply u16_entries. cbn [count new_body with_zl]. lia. }
  set (c := Cell a (with_count (zlen (kept after i ss)) (reblock z1 b)) (kept after i ss)) in *.
  pose proof (zlen_nonneg (kept after i ss)).
  pose proof (h_cells _ _ _ Hh) as Hcs. apply cells_split in Hcs as (Hc1 & _ & Hc2).
  assert (Hc : cell_ok c). { split; [|done]. unfold c. cbn [c_body c_strs]. apply node_reblock; [done|apply Hok|apply u16_entries; lia|lia]. }
  assert (Hins : ins (if after then S i else i) s ss =
    if after then kept after i ss ++ push_at w s (moved after i ss) else push_at w s (moved after i ss) ++ kept after i ss)
    by (rewrite ins_split; unfold w; by destruct after).
  destruct (link_split (<[new := n2]> h1) ql l1 c (Cell new n2 (push_at w s (moved after i ss))) l2 after)
    as (h2 & ql2 & la & lb & E2 & Hs2 & Hct & Hf & Hq); try done; cbn [c_loc c_body c_strs c].
  - apply wf_outside; [done|set_solver|]. by rewrite node_locs_app in Hnew |- *.
  - split; [done|]. apply nonnil_zlen. cbn [c_strs]. rewrite zlen_push. pose proof (zlen_nonneg (moved after i ss)). lia.
  - by rewrite node_locs_app in Hnew |- *.
  - by rewrite lookup_insert_eq.
  - apply Hh.
  - rewrite (h_count _ _ _ Hh). pose proof (holds_bounds _ _ _ Hh). pose proof (zlen_nonneg (contents (l1 ++ Cell a b ss :: l2))). unfold urange. lia.
  - destruct after; rewrite !str_cap_app, cap_push; lia.
  - pose proof (holds_bounds _ _ _ Hh). rewrite zlen_app, zlen_cons in *. lia.
  - cbn [c_loc c] in E2. rewrite E2. cbn [mbind option_bind].
    destruct (merge_around h2 ql2 la c lb Hs2) as (h3 & ql3 & l3 & E3 & Hs3 & Hc3 & Hf3 & Hq3). cbn [c_loc c] in E3.
    exists h3, ql3, l3. split; [exact E3|]. cbn [c_strs c] in Hct. rewrite Hct, <- Hins in Hc3. split; [|done].
    apply shape_holds; [done|]. rewrite Hq3, Hq. eapply count_push; [exact Hh|].
    rewrite Hc3, contents_mid, !zlen_app, ins_length. cbn [c_strs]. lia.
Qed.

(** Before the first value of a full node: the value goes to the end of the previous node, or to a
    node of its own. *)
Lemma insert_before_node h ql l1 p c l2 s : holds h ql (l1 ++ p :: c :: l2) ->
  11 + str_cap (contents (l1 ++ p :: c :: l2)) + 18 + zlen s < 2 ^ 32 ->
  exists r, _quicklistNodeAllowInsert h (Some (c_loc p)) (fill ql) (zlen s) = Some r /\
    exists h' ql' l', (if r then h ← push_neighbour htab garbage h (Some (c_loc p)) s ZIPLIST_TAIL; Some (h, ql)
      else '(h, new_node) ← new_value_node h s ZIPLIST_HEAD false;
        h ← add_count h new_node 1; h ← quicklistNodeUpdateSz h new_node;
        __quicklistInsertNode htab garbage h ql (Some (c_loc c)) new_node false) = Some (h', ql') /\
      holds h' (with_ql_count (ql_count ql' + 1) ql') l' /\
      contents l' = contents (l1 ++ [p]) ++ s :: contents (c :: l2).
Proof.
  intros Hh Hcap. destruct (cell_at _ _ _ _ _ Hh) as (Ha & Hok & _). pose proof Hcap as Hcap'.
  rewrite contents_mid, !str_cap_app in Hcap'. pose proof (str_cap_nonneg (contents l1)). pose proof (str_cap_nonneg (contents (c :: l2))).
  destruct (allow_insert h (c_loc p) _ (c_body p) (c_strs p) (fill ql) s Ha) as (r & Er & Hr); [done..|lia|apply Hh|].
  exists r. split; [exact Er|]. destruct r.
  - destruct p as [a b ss]. cbn [c_loc c_strs] in *.
    destruct (push_neighbour_spec h ql l1 a b ss (c :: l2) s ZIPLIST_TAIL Hh Hcap) as (h' & b' & -> & Hh'); [by apply Hr|].
    cbn [mbind option_bind]. exists h', ql, (l1 ++ Cell a b' (push_at ZIPLIST_TAIL s ss) :: c :: l2). split_and!; [done..|].
    rewrite contents_snoc, contents_mid. cbn [c_strs]. unfold push_at. cbn. by rewrite <- !app_assoc.
  - pose proof Hh as Hh2. rewrite app_cons_mid in Hh2, Hcap.
    destruct (insert_provision h ql (l1 ++ [p]) c l2 s Hh2 Hcap) as (h' & ql' & c' & E & Hh' & Hs & _).
    exists h', ql', ((l1 ++ [p]) ++ c' :: c :: l2). split; [exact E|]. split; [done|]. rewrite contents_mid, Hs. done.
Qed.

Lemma insert_entry h ql l k l1 a b ss l2 z es i v s (after : bool) : holds h ql l -> entry_at l k l1 a b ss l2 z es i ->
  let j := if after then S k else k in 11 + str_cap (ins j s (contents l)) < 2 ^ 32 ->
  exists h' ql' l', _quicklistInsert htab garbage h ql (QEntry (Some a) (Some (zl_at es i)) v (Z.of_nat i)) s after = Some (h', ql') /\
    holds h' ql' l' /\ contents l' = ins j s (contents l).
Proof.
  intros Hh Hat j Hcap. pose proof Hat as [-> -> Hi Hz Hes]. destruct (cell_at _ _ _ _ _ Hh) as (Ha & Hok & _). cbn [c_loc c_body c_strs] in *.
  assert (Hcap' : 11 + str_cap (contents (l1 ++ Cell a b ss :: l2)) + 18 + zlen s < 2 ^ 32) by (rewrite cap_ins in Hcap; lia).
  pose proof Hcap' as Hcap2. rewrite contents_mid, !str_cap_app in Hcap2. cbn [c_strs] in Hcap2.
  pose proof (str_cap_nonneg (contents l1)). pose proof (str_cap_nonneg (contents l2)).
  unfold _quicklistInsert. cbn [node offset zi]. rewrite Ha. cbn [mbind option_bind].
  destruct (allow_insert h a _ b ss (fill ql) s Ha) as (r & -> & Hr); [done..|lia|apply Hh|]. cbn [mbind option_bind].
  change (count (link _ b _)) with (count b). rewrite (n_count _ _ Hok).
  rewrite (proj2 (Z.eqb_neq (Z.of_nat i) (zlen ss))) by (unfold zlen; lia). rewrite andb_false_r. cbn [mbind option_bind andb orb negb].
  change (prev (link ?p _ _)) with p.
  destruct r.
  { destruct (insert_here_spec h ql _ _ l1 a b ss l2 z es i s after Hh Hat Hcap) as (h' & l' & E & Hh' & Hc); [by apply Hr|].
    assert (Ep : exists r, (if negb after && (Z.of_nat i =? 0) then _quicklistNodeAllowInsert h (lastp None l1) (fill ql) (zlen s) else Some true) = Some r).
    { destruct (negb after && _); [|by exists true]. destruct l1 as [|p l1 _] using rev_ind; [by exists false|]. rewrite lastp_snoc.
      rewrite <- app_assoc in Hh. cbn [app] in Hh. destruct (insert_before_node h ql l1 p _ l2 s Hh) as (r & E' & _); [|by exists r].
      by rewrite <- app_assoc in Hcap'. }
    destruct Ep as [r ->]. cbn [mbind option_bind negb]. rewrite E. cbn [mbind option_bind]. by exists h', (with_ql_count (ql_count ql + 1) ql), l'. }
  cbn [negb]. assert (Hsplit : exists h' ql' l', insert_split htab garbage h ql a (Z.of_nat i) s after = Some (h', ql') /\
    holds h' (with_ql_count (ql_count ql' + 1) ql') l' /\ contents l' = ins j s (contents (l1 ++ Cell a b ss :: l2))).
  { destruct (insert_split_spec h ql l1 a b ss l2 i s after Hh Hi) as (h' & ql' & l' & E & Hh' & Hc); [lia|].
    exists h', ql', l'. split_and!; [done..|]. rewrite Hc, contents_mid, <- ins_mid by (destruct after; lia). f_equal.
    unfold j. destruct after; lia. }
  destruct Hsplit as (hs & qls & ls & Es & Hhs & Hcs).
  destruct (negb after && (Z.of_nat i =? 0)) eqn:Ehead.
  - destruct after; [done|]. cbn [negb andb] in Ehead. apply Z.eqb_eq in Ehead. assert (i = O) as -> by lia. clear Ehead.
    destruct l1 as [|p l1 _] using rev_ind.
    + cbn [lastp _quicklistNodeAllowInsert mbind option_bind negb]. rewrite bool_decide_eq_false_2 by (intros Hf; by apply Hf).
      cbn [andb orb]. rewrite Es. cbn [mbind option_bind]. by exists hs, (with_ql_count (ql_count qls + 1) qls), ls.
    + rewrite lastp_snoc. rewrite <- app_assoc in Hh, Hcap'. cbn [app] in Hh, Hcap'.
      destruct (insert_before_node h ql l1 p _ l2 s Hh Hcap') as (r & -> & h' & ql' & l' & E & Hh' & Hc).
      cbn [mbind option_bind]. rewrite bool_decide_eq_true_2 by done. cbn [andb orb negb].
      exists h', (with_ql_count (ql_count ql' + 1) ql'), l'. cbn [c_loc] in E.
      assert (Hc' : contents l' = ins j s (contents ((l1 ++ [p]) ++ Cell a b ss :: l2))).
      { rewrite Hc. unfold j. rewrite (contents_app (l1 ++ [p])), Nat.add_0_r. unfold ins. by rewrite take_app_length, drop_app_length. }
      split_and!; try done. destruct r; cbn [negb andb orb].
      * rewrite E. done.
      * rewrite E. done.
  - cbn [mbind option_bind andb orb negb]. rewrite Es. cbn [mbind option_bind]. by exists hs, (with_ql_count (ql_count qls + 1) qls), ls.
Qed.

(** At an entry found from the tail, when its node has room. *)
Lemma insert_room h ql l k l1 a b ss l2 z es i v off s (after : bool) : holds h ql l -> entry_at l k l1 a b ss l2 z es i ->
  off < 0 -> _quicklistNodeAllowInsert h (Some a) (fill ql) (zlen s) <> Some false ->
  let j := if after then S k else k in 11 + str_cap (ins j s (contents l)) < 2 ^ 32 ->
  exists h' ql' l', _quicklistInsert htab garbage h ql (QEntry (Some a) (Some (zl_at es i)) v off) s after = Some (h', ql') /\
    holds h' ql' l' /\ contents l' = ins j s (contents l).
Proof.
  intros Hh Hat Hoff Hallow j Hcap. pose proof Hat as [-> _ _ _ _]. destruct (cell_at _ _ _ _ _ Hh) as (Ha & Hok & _). cbn [c_loc c_body c_strs] in *.
  pose proof Hcap as Hcap2. unfold j in Hcap2. rewrite cap_ins, contents_mid, !str_cap_app in Hcap2. cbn [c_strs] in Hcap2.
  pose proof (str_cap_nonneg (contents l1)). pose proof (str_cap_nonneg (contents l2)).
  destruct (allow_insert h a _ b ss (fill ql) s Ha) as (r & E & Hr); [done..|lia|apply Hh|]. rewrite E in Hallow. destruct r; [|done].
  destruct (insert_here_spec h ql _ _ l1 a b ss l2 z es i s after Hh Hat Hcap) as (h' & l' & Ei & Hh' & Hc); [by apply Hr|].
  unfold _quicklistInsert. cbn [node offset zi]. rewrite Ha. cbn [mbind option_bind]. rewrite E. cbn [mbind option_bind].
  change (count (link _ b _)) with (count b). rewrite (n_count _ _ Hok). pose proof (zlen_nonneg ss).
  rewrite (proj2 (Z.eqb_neq off (zlen ss))), (proj2 (Z.eqb_neq off 0)) by lia. rewrite !andb_false_r. cbn [mbind option_bind negb].
  rewrite Ei. cbn [mbind option_bind]. by exists h', (with_ql_count (ql_count ql + 1) ql), l'.
Qed.

(** * Deleting a range *)

(** The block of a node is cut; the counters are lowered by what the call asked for. *)
Lemma del_from_node_block h ql l1 a b ss l2 off i d : holds h ql (l1 ++ Cell a b ss :: l2) ->
  list_pos ss off = Some i -> - zlen ss <= off -> 0 < d < 2 ^ 32 -> let ss' := take i ss ++ drop (i + Z.to_nat d) ss in
  exists h' z, ziplist_of z ss' /\
    wf ∅ h' ql (l1 ++ Cell a (with_count (zlen ss + - d) (reblock z b)) ss' :: l2) /\
    del_from_node htab garbage h ql a off d =
      ('(h, ql, remaining) ← quicklistDeleteIfEmpty htab garbage h' (with_ql_count (ql_count ql - d) ql) a;
       match remaining with
       | Some a => h ← quicklistRecompressOnly htab garbage h a; Some (h, ql)
       | None => Some (h, ql)
       end).
Proof.
  intros Hh Hp Hoff Hd ss'. destruct (cell_at _ _ _ _ _ Hh) as (Ha & Hok & _). cbn [c_loc c_body c_strs] in *.
  pose proof (h_wf _ _ _ Hh) as Hw. pose proof (h_cap _ _ _ Hh) as Hcap. rewrite contents_mid, !str_cap_app in Hcap. cbn [c_strs] in Hcap.
  pose proof (str_cap_nonneg (contents l1)). pose proof (str_cap_nonneg (contents l2)). pose proof (n_max _ _ Hok) as Hm.
  destruct (n_block _ _ Hok) as (z & Ez & Hz & _). pose proof (list_pos_lt _ _ _ Hp) as Hi.
  assert (Hop : list_op ss (ODeleteRange off d) = ss') by (cbn [list_op]; by rewrite Hp).
  unfold del_from_node. rewrite (for_use_off _ _ _ _ Ha) by apply Hok. cbn [mbind option_bind].
  rewrite (get_zl_at _ _ _ _ _ _ _ _ Hw), Ez. cbn [mbind option_bind]. unfold MAX_ENTRIES in Hm.
  rewrite (uwrap_small 32) by (unfold urange; lia).
  pose proof (str_cap_sub i (i + Z.to_nat d) ss ltac:(lia)) as Hsub. fold ss' in Hsub.
  destruct (zl_op_spec z ss (ODeleteRange off d) Hz) as (z' & Ez' & Hz').
  { unfold list_pos in Hp. destruct (_ && _) eqn:E in Hp; [|done]. unfold op_ok, index_ok, urange, srange, INT32_MIN.
    destruct (Z.ltb_spec off 0); zb; lia. }
  { rewrite Hop. lia. }
  cbn [zl_exec] in Ez'. rewrite Ez', Hop in *. cbn [mbind option_bind].
  destruct (set_zl_at _ _ _ _ _ _ _ _ z' ss' Hw) as (h1 & -> & Hw1). cbn [mbind option_bind].
  destruct (update_sz_at _ _ _ _ _ _ _ _ z' ss' Hw1 eq_refl Hz') as (h2 & -> & Hw2). cbn [mbind option_bind].
  destruct (add_count_at _ _ _ _ _ _ _ _ (- d) ss' Hw2) as (h3 & -> & Hw3). cbn [mbind option_bind].
  change (count (with_sz _ (with_zl z' b))) with (count b) in Hw3. rewrite (n_count _ _ Hok) in Hw3.
  exists h3, z'. by split_and!.
Qed.

(** Part of a node goes, from the value number [i]; with it the node when nothing is left. *)
Lemma del_from_node_spec h ql l1 a b ss l2 off i d : holds h ql (l1 ++ Cell a b ss :: l2) ->
  list_pos ss off = Some i -> - zlen ss <= off -> 0 < d <= zlen ss - Z.of_nat i ->
  exists h' ql' m, del_from_node htab garbage h ql a off d = Some (h', ql') /\ holds h' ql' (l1 ++ m ++ l2) /\
    contents m = take i ss ++ drop (i + Z.to_nat d) ss /\ (length m <= 1)%nat.
Proof.
  intros Hh Hp Hoff Hd. destruct (cell_at _ _ _ _ _ Hh) as (Ha & Hok & _). cbn [c_loc c_body c_strs] in *.
  pose proof (h_cap _ _ _ Hh) as Hcap. rewrite contents_mid, !str_cap_app in Hcap. cbn [c_strs] in Hcap.
  pose proof (n_max _ _ Hok) as Hm. pose proof (list_pos_lt _ _ _ Hp) as Hi.
  destruct (del_from_node_block h ql l1 a b ss l2 off i d Hh Hp Hoff) as (h3 & z' & Hz' & Hw3 & ->); [unfold MAX_ENTRIES in *; lia|].
  set (ss' := take i ss ++ drop (i + Z.to_nat d) ss) in *.
  pose proof (str_cap_sub i (i + Z.to_nat d) ss ltac:(lia)) as Hsub. fold ss' in Hsub.
  assert (Hl : zlen ss' = zlen ss - d) by (unfold ss', zlen in *; rewrite length_app, length_take, length_drop; lia).
  pose proof (wf_at _ _ _ _ _ _ _ _ Hw3) as Ha3. unfold quicklistDeleteIfEmpty. rewrite Ha3. cbn [mbind option_bind].
  change (count (link _ _ _)) with (u16 (zlen ss + - d)). pose proof (zlen_nonneg ss').
  rewrite u16_entries by lia.
  assert (Hq : u64 (ql_count ql - d) = zlen (contents l1 ++ ss' ++ contents l2)).
  { eapply count_drop; [done|..]; rewrite contents_mid, !zlen_app; cbn [c_strs];
      pose proof (zlen_nonneg (contents l1)); pose proof (zlen_nonneg (contents l2)); lia. }
  destruct (Z.eqb_spec (zlen ss + - d) 0) as [E0|E0].
  - assert (ss' = []) as E' by (apply zlen_0_nil; lia).
    destruct (del_node htab garbage h3 (with_ql_count (ql_count ql - d) ql) l1 _ l2 (wf_ql_count _ _ _ _ _ Hw3)) as (h4 & ql4 & E4 & Hw4 & Hf & Hq4).
    { pose proof (holds_bounds _ _ _ Hh). rewrite zlen_app, zlen_cons in *. lia. }
    cbn [c_loc] in E4. rewrite E4. cbn [mbind option_bind]. exists h4, ql4, []. split; [done|]. split; [|rewrite E'; split; [done|cbn; lia]].
    rewrite E' in Hq. apply holds_intro.
    + done.
    + pose proof (h_cells _ _ _ Hh) as Hc. apply cells_split in Hc as (Hc1 & _ & Hc2). by apply Forall_app.
    + cbn [app]. rewrite contents_app, str_cap_app. pose proof (str_cap_nonneg ss). lia.
    + rewrite Hq4. cbn [c_body]. change (count (with_count _ _)) with (u16 (zlen ss + - d)). rewrite E0. change (u16 0) with 0.
      rewrite Z.sub_0_r. cbn [ql_count with_ql_count app]. rewrite Hq, contents_app. cbn [app]. apply uwrap_small.
      pose proof (holds_bounds _ _ _ Hh) as [_ Hb]. rewrite contents_mid, !zlen_app in Hb. rewrite zlen_app.
      pose proof (zlen_nonneg (contents l1)). pose proof (zlen_nonneg (contents l2)). cbn [c_strs] in Hb. pose proof (zlen_nonneg ss). unfold urange. lia.
    + rewrite Hf. apply Hh.
  - cbn [mbind option_bind]. rewrite (recompress_off _ _ _ _ _ Ha3) by apply (n_plain _ _ Hok). cbn [mbind option_bind].
    eexists _, _, [_]. split; [reflexivity|]. split.
    { cbn [app]. eapply holds_shrunk; [exact Hh|exact Hw3|done| |lia|done| |done].
      - apply nonnil_zlen. lia.
      - rewrite u16_entries by lia. lia. }
    split; [unfold contents; cbn; by rewrite app_nil_r|cbn; lia].
Qed.

Lemma del_whole h ql l1 c l2 : holds h ql (l1 ++ c :: l2) ->
  exists h' ql', __quicklistDelNode htab garbage h ql (c_loc c) = Some (h', ql') /\ holds h' ql' (l1 ++ l2).
Proof.
  intros Hh. destruct (cell_at _ _ _ _ _ Hh) as (_ & Hok & _). pose proof (holds_bounds _ _ _ Hh) as [Hb1 Hb2].
  destruct (del_node htab garbage h ql l1 c l2 (h_wf _ _ _ Hh)) as (h' & ql' & E & Hw & Hf & Hq); [lia|].
  exists h', ql'. split; [exact E|]. pose proof (h_cells _ _ _ Hh) as Hc. apply cells_split in Hc as (Hc1 & _ & Hc2).
  pose proof (h_cap _ _ _ Hh) as Hcap. rewrite contents_mid, !str_cap_app in Hcap. pose proof (str_cap_nonneg (c_strs c)).
  apply holds_intro; [done|by apply Forall_app|rewrite contents_app, str_cap_app; lia| |rewrite Hf; apply Hh].
  rewrite Hq, (n_count _ _ Hok). eapply count_drop; [exact Hh|..]; rewrite contents_mid, ?contents_app, !zlen_app;
    pose proof (zlen_nonneg (contents l1)); pose proof (zlen_nonneg (contents l2)); pose proof (zlen_nonneg (c_strs c)); lia.
Qed.

Lemma del_loop_0 fuel h ql p off : del_range_loop htab garbage fuel h ql p off 0 = Some (h, ql).
Proof. by destruct fuel. Qed.

(** From the start of a node on. *)
Lemma del_loop_nodes l2 : forall l1 h ql fuel extent, holds h ql (l1 ++ l2) -> 0 <= extent <= zlen (contents l2) ->
  (length l2 <= fuel)%nat ->
  exists h' ql' l', del_range_loop htab garbage fuel h ql (firstp l2 None) 0 extent = Some (h', ql') /\
    holds h' ql' l' /\ contents l' = contents l1 ++ drop (Z.to_nat extent) (contents l2).
Proof.
  induction l2 as [|c l2 IH]; intros l1 h ql fuel extent Hh He Hf.
  { assert (extent = 0) as -> by (change (zlen (contents [])) with 0 in He; lia). rewrite del_loop_0.
    exists h, ql, l1. rewrite app_nil_r in *. by split_and!. }
  destruct (Z.eqb_spec extent 0) as [->|Hne].
  { rewrite del_loop_0. exists h, ql, (l1 ++ c :: l2). by rewrite contents_app. }
  destruct fuel as [|fuel]; [cbn in Hf; lia|]. destruct (cell_at _ _ _ _ _ Hh) as (Ha & Hok & Hss). cbn [firstp del_range_loop].
  rewrite (proj2 (Z.eqb_neq _ _) Hne). cbn [mbind option_bind]. rewrite Ha. cbn [mbind option_bind].
  change (count (link _ (c_body c) _)) with (count (c_body c)). change (next (link _ _ ?q)) with q.
  pose proof (walk_bound _ _ _ _ _ Hh). pose proof (zlen_nonneg (contents l1)). pose proof (zlen_nonneg (contents l2)).
  pose proof (zlen_pos_nonnil _ Hss). rewrite contents_cons, zlen_app in He. unfold del_amount. rewrite (n_count _ _ Hok). cbn [Z.eqb Z.ltb Z.compare andb Z.leb].
  destruct (Z.leb_spec (zlen (c_strs c)) extent) as [Hle|Hgt].
  - destruct (del_whole h ql l1 c l2 Hh) as (h1 & ql1 & -> & Hh1). cbn [mbind option_bind].
    rewrite (uwrap_small 64) by (unfold urange; lia).
    destruct (IH l1 h1 ql1 fuel (extent - zlen (c_strs c)) Hh1) as (h' & ql' & l' & E & Hh' & Hc); [lia|cbn in Hf; lia|].
    exists h', ql', l'. split_and!; [done..|]. rewrite Hc. f_equal. rewrite contents_cons, drop_app_ge by (unfold zlen in *; lia).
    f_equal. unfold zlen in *. lia.
  - destruct c as [a b ss]. cbn [c_loc c_body c_strs] in *.
    destruct (del_from_node_spec h ql l1 a b ss l2 0 O extent Hh) as (h1 & ql1 & m & -> & Hh1 & Hc & _).
    { unfold list_pos. cbn [Z.ltb Z.compare Z.leb andb]. by rewrite (proj2 (Z.ltb_lt _ _)) by lia. }
    { lia. } { lia. }
    cbn [mbind option_bind]. rewrite Z.sub_diag. change (u64 0) with 0. rewrite del_loop_0.
    exists h1, ql1, (l1 ++ m ++ l2). split_and!; [done..|]. rewrite !contents_app, contents_cons, Hc. cbn [c_strs app take].
    rewrite drop_app_le by (unfold zlen in *; lia). done.
Qed.

(** The range the call is asked for, in elements that exist. *)
Definition range_extent (total : Z) (k : nat) (n : Z) : Z := Z.min n (total - Z.of_nat k).

Lemma split_unique l1 : forall m1 c c' l2 m2 i i', l1 ++ c :: l2 = m1 ++ c' :: m2 ->
  (length (contents l1) + i)%nat = (length (contents m1) + i')%nat -> (i < length (c_strs c))%nat -> (i' < length (c_strs c'))%nat ->
  l1 = m1 /\ c = c' /\ l2 = m2 /\ i = i'.
Proof.
  induction l1 as [|d l1 IH]; intros [|d' m1] c c' l2 m2 i i' E Ek Hi Hi'; cbn [app] in E.
  - injection E as -> ->. cbn in Ek. by split_and!.
  - injection E as -> ->. rewrite contents_cons, length_app in Ek. cbn in Ek. lia.
  - injection E as -> <-. rewrite contents_cons, length_app in Ek. cbn in Ek. lia.
  - injection E as -> E. rewrite !contents_cons, !length_app in Ek.
    destruct (IH m1 c c' l2 m2 i i' E) as (-> & H); [lia|done..|]. by split.
Qed.

Lemma delrange_unfold h ql l start n k : holds h ql l -> srange 64 start -> 0 < n < 2 ^ 63 ->
  list_pos (contents l) start = Some k ->
  exists l1 a b ss l2 i, l = l1 ++ Cell a b ss :: l2 /\ k = (length (contents l1) + i)%nat /\ (i < length ss)%nat /\
    quicklistDelRange htab garbage h ql start n =
      ('(h, ql) ← del_range_loop htab garbage (S (size h)) h ql (Some a) (entry_offset start ss i)
          (range_extent (zlen (contents l)) k n); Some (h, ql, true)).
Proof.
  intros Hh Hst Hn Hp. destruct (index_found garbage h ql l start k Hh Hst Hp) as (l1 & a & b & ss & l2 & z & es & i & s0 & Hat & _ & E).
  destruct Hat as [El Ek Hi _ _]. exists l1, a, b, ss, l2, i. split_and!; [done..|]. unfold quicklistDelRange.
  rewrite (proj2 (Z.leb_gt _ _)) by lia. rewrite E. cbn [mbind option_bind negb node offset]. rewrite (h_count _ _ _ Hh).
  pose proof (holds_bounds _ _ _ Hh) as [_ Hb]. pose proof (list_pos_lt _ _ _ Hp) as Hk.
  assert (Hk' : Z.of_nat k = if start <? 0 then zlen (contents l) + start else start).
  { unfold list_pos in Hp. destruct (_ && _) eqn:Er in Hp; [|done]. injection Hp as <-. zb. destruct (start <? 0); lia. }
  assert (Ee : (if (0 <=? start) && (u64 (zlen (contents l) - start) <? n) then u64 (zlen (contents l) - start)
      else if (start <? 0) && (u64 (- start) <? n) then u64 (- start) else n) = range_extent (zlen (contents l)) k n).
  { unfold range_extent, zlen in *. destruct (Z.ltb_spec start 0).
    - rewrite (proj2 (Z.leb_gt 0 start)) by lia. cbn [andb]. rewrite !(uwrap_small 64) by (unfold urange; lia).
      destruct (Z.ltb_spec (- start) n); lia.
    - rewrite (proj2 (Z.leb_le 0 start)) by lia. cbn [andb]. rewrite !(uwrap_small 64) by (unfold urange; lia).
      destruct (Z.ltb_spec (Z.of_nat (length (contents l)) - start) n); lia. }
  by rewrite Ee.
Qed.

(** The first node of the range, then the nodes after it. *)
Lemma del_loop_first h ql l1 a b ss l2 off i extent del fuel : holds h ql (l1 ++ Cell a b ss :: l2) ->
  list_pos ss off = Some i -> - zlen ss <= off -> 0 < extent -> del_amount off extent (zlen ss) = (del, false) ->
  0 < del <= zlen ss - Z.of_nat i -> del <= extent -> extent - del <= zlen (contents l2) ->
  (extent = del \/ del = zlen ss - Z.of_nat i) -> (length l2 < fuel)%nat ->
  exists h' ql' l', del_range_loop htab garbage fuel h ql (Some a) off extent = Some (h', ql') /\ holds h' ql' l' /\
    contents l' = contents l1 ++ take i ss ++ drop (i + Z.to_nat extent) (ss ++ contents l2).
Proof.
  intros Hh Hp Hoff Hex Hdel Hd Hde Hrest Hmode Hf. destruct fuel as [|fuel]; [lia|].
  destruct (cell_at _ _ _ _ _ Hh) as (Ha & Hok & _). cbn [c_loc c_body c_strs del_range_loop] in *.
  rewrite (proj2 (Z.eqb_neq extent 0)) by lia. cbn [mbind option_bind]. rewrite Ha. cbn [mbind option_bind].
  change (count (link _ b _)) with (count b). change (next (link _ _ ?q)) with q. rewrite (n_count _ _ Hok), Hdel.
  destruct (del_from_node_spec h ql l1 a b ss l2 off i del Hh Hp Hoff Hd) as (h1 & ql1 & m & -> & Hh1 & Hc & _).
  cbn [mbind option_bind]. rewrite app_assoc in Hh1. pose proof (walk_bound _ _ _ _ _ Hh) as Hb. cbn [c_strs] in Hb.
  pose proof (zlen_nonneg (contents l1)). rewrite (uwrap_small 64) by (unfold urange, zlen in *; lia).
  destruct (del_loop_nodes l2 (l1 ++ m) h1 ql1 fuel (extent - del) Hh1) as (h' & ql' & l' & E & Hh' & Hc'); [lia|lia|].
  exists h', ql', l'. split_and!; [done..|]. rewrite Hc', contents_app, Hc, <- !app_assoc. f_equal. f_equal.
  unfold zlen in *. destruct (decide (extent = del)) as [->|Hn].
  - rewrite Z.sub_diag. change (Z.to_nat 0) with O. rewrite drop_0, drop_app_le by lia. done.
  - rewrite (drop_ge ss) by lia. rewrite drop_app_ge by lia. cbn [app]. f_equal. lia.
Qed.

(** A range that starts at the end, at the start of a node, or that ends within the node it starts
    in or spans at least the length of that node, is deleted. *)
Lemma delrange_deletes h ql l start n k : holds h ql l -> srange 64 start -> 0 < n < 2 ^ 63 -> list_pos (contents l) start = Some k ->
  (forall l1 c l2, l = l1 ++ c :: l2 -> (length (contents l1) <= k < length (contents l1) + length (c_strs c))%nat ->
     let i := Z.of_nat k - zlen (contents l1) in let e := range_extent (zlen (contents l)) k n in
     start < 0 \/ i = 0 \/ i + e <= zlen (c_strs c) \/ zlen (c_strs c) <= e) ->
  exists h' ql' l', quicklistDelRange htab garbage h ql start n = Some (h', ql', true) /\ holds h' ql' l' /\
    contents l' = take k (contents l) ++ drop (k + Z.to_nat (range_extent (zlen (contents l)) k n)) (contents l).
Proof.
  intros Hh Hst Hn Hp Hgood.
  destruct (delrange_unfold h ql l start n k Hh Hst Hn Hp) as (l1 & a & b & ss & l2 & i & -> & -> & Hi & ->).
  specialize (Hgood l1 (Cell a b ss) l2 eq_refl). cbn [c_strs] in Hgood. set (e := range_extent _ _ n) in *.
  assert (He : 0 < e /\ e + Z.of_nat i <= zlen ss + zlen (contents l2)).
  { unfold e, range_extent, zlen. rewrite contents_mid, !length_app. cbn [c_strs]. lia. }
  assert (Hg : start < 0 \/ Z.of_nat i = 0 \/ Z.of_nat i + e <= zlen ss \/ zlen ss <= e).
  { destruct Hgood as [H|[H|[H|H]]]; [lia|by left|unfold zlen in *; lia..]. }
  clear Hgood. pose proof (wf_size _ _ _ _ (h_wf _ _ _ Hh)) as Hsz. rewrite length_app in Hsz. cbn [length] in Hsz.
  assert (Hend : forall h' ql' l', holds h' ql' l' ->
    contents l' = contents l1 ++ take i ss ++ drop (i + Z.to_nat e) (ss ++ contents l2) ->
    contents l' = take (length (contents l1) + i) (contents (l1 ++ Cell a b ss :: l2)) ++
      drop (length (contents l1) + i + Z.to_nat e) (contents (l1 ++ Cell a b ss :: l2))).
  { intros h' ql' l' _ ->. rewrite contents_mid. cbn [c_strs]. rewrite take_mid by lia.
    rewrite <- Nat.add_assoc, drop_app_add, <- app_assoc. done. }
  destruct (offset_pos start ss i Hi) as [Hpos Hlow]. pose proof (zlen_nonneg ss).
  destruct (decide (entry_offset start ss i = 0 /\ zlen ss <= e)) as [[Hz Hle]|Hnw].
  - (* the whole node *)
    assert (i = O) as -> by (unfold entry_offset, zlen in *; destruct (start <? 0); lia). rewrite Hz.
    destruct (del_loop_nodes (Cell a b ss :: l2) l1 h ql (S (size h)) e Hh) as (h' & ql' & l' & E & Hh' & Hc).
    { rewrite contents_cons, zlen_app. cbn [c_strs]. lia. } { cbn [length]. lia. }
    cbn [firstp c_loc] in E. rewrite E. cbn [mbind option_bind]. exists h', ql', l'. split_and!; [done..|].
    eapply Hend; [done|]. rewrite Hc, contents_cons. done.
  - assert (Hdel : exists del, del_amount (entry_offset start ss i) e (zlen ss) = (del, false) /\
      0 < del <= zlen ss - Z.of_nat i /\ del <= e /\ (e = del \/ del = zlen ss - Z.of_nat i)).
    { unfold del_amount, entry_offset in *. unfold zlen in *. destruct (Z.ltb_spec start 0).
      - destruct (Z.eqb_spec (Z.of_nat i - Z.of_nat (length ss)) 0); [lia|]. cbn [andb].
        rewrite (proj2 (Z.leb_gt 0 _)) by lia. cbn [andb]. rewrite (proj2 (Z.ltb_lt _ 0)) by lia.
        destruct (Z.ltb_spec e (- (Z.of_nat i - Z.of_nat (length ss)))); eexists; (split; [reflexivity|]); lia.
      - destruct (Z.eqb_spec (Z.of_nat i) 0); destruct (Z.leb_spec (Z.of_nat (length ss)) e); cbn [andb];
          [lia|..]; rewrite (proj2 (Z.leb_le 0 _)) by lia; cbn [andb]; rewrite ?(proj2 (Z.ltb_ge _ 0)) by lia.
        + eexists; split; [reflexivity|]. lia.
        + rewrite (uwrap_small 64) by (pose proof (walk_bound _ _ _ _ _ Hh) as Hb; cbn [c_strs] in Hb; unfold urange, zlen in *; lia).
          eexists; split; [reflexivity|]. lia.
        + eexists; split; [reflexivity|]. lia. }
    destruct Hdel as (del & Hda & Hd1 & Hd2 & Hd3). pose proof (zlen_nonneg (contents l2)).
    destruct (del_loop_first h ql l1 a b ss l2 _ i e del (S (size h)) Hh Hpos Hlow ltac:(lia) Hda Hd1 Hd2) as (h' & ql' & l' & E & Hh' & Hc); [lia|done|lia|].
    rewrite E. cbn [mbind option_bind]. exists h', ql', l'. split_and!; [done..|]. by eapply Hend.
Qed.

(** A range that starts inside a node, ends inside the next one and is shorter than the first node
    is cut short there, but the counters are lowered by its whole length. *)
Lemma delrange_short h ql l1 a b ss l2 i n : holds h ql (l1 ++ Cell a b ss :: l2) -> (i < length ss)%nat ->
  let total := zlen (contents (l1 ++ Cell a b ss :: l2)) in let k := (length (contents l1) + i)%nat in
  0 < n < zlen ss -> zlen ss < Z.of_nat i + n -> Z.of_nat k + n <= total ->
  exists h' ql' b', quicklistDelRange htab garbage h ql (Z.of_nat k) n = Some (h', ql', true) /\
    wf ∅ h' ql' (l1 ++ Cell a b' (take i ss) :: l2) /\ block_ok b' (take i ss) /\
    count b' = zlen ss - n /\ ql_count ql' = total - n.
Proof.
  intros Hh Hi total k Hn Hin Hk. pose proof (holds_bounds _ _ _ Hh) as [_ Hb]. fold total in Hb.
  assert (Etot : total = zlen (contents l1) + (zlen ss + zlen (contents l2))) by (unfold total; rewrite contents_mid, !zlen_app; done).
  assert (Hp : list_pos (contents (l1 ++ Cell a b ss :: l2)) (Z.of_nat k) = Some k).
  { unfold list_pos. fold total. rewrite (proj2 (Z.ltb_ge _ 0)), (proj2 (Z.leb_le 0 _)), (proj2 (Z.ltb_lt _ total)), Nat2Z.id by lia. done. }
  destruct (delrange_unfold h ql _ (Z.of_nat k) n k Hh) as (m1 & a' & b0 & ss0 & m2 & i' & El & Ek & Hi' & ->); [unfold srange; lia|lia|done|].
  destruct (split_unique _ _ _ _ _ _ _ _ El Ek Hi Hi') as (<- & [= <- <- <-] & <- & <-). fold total.
  assert (Ee : range_extent total k n = n) by (unfold range_extent; lia). rewrite Ee.
  destruct (offset_pos (Z.of_nat k) ss i Hi) as [Hpos Hlow]. unfold entry_offset in *.
  rewrite (proj2 (Z.ltb_ge (Z.of_nat k) 0)) in * by lia.
  destruct (cell_at _ _ _ _ _ Hh) as (Ha & Hok & _). cbn [c_loc c_body c_strs del_range_loop] in *.
  rewrite (proj2 (Z.eqb_neq n 0)) by lia. cbn [mbind option_bind]. rewrite Ha. cbn [mbind option_bind].
  change (count (link _ b _)) with (count b). rewrite (n_count _ _ Hok).
  assert (Hda : del_amount (Z.of_nat i) n (zlen ss) = (n, false)).
  { unfold del_amount. rewrite (proj2 (Z.leb_gt (zlen ss) n)) by lia. rewrite !andb_false_r. by rewrite (proj2 (Z.ltb_ge _ 0)) by lia. }
  rewrite Hda. destruct (del_from_node_block h ql l1 a b ss l2 _ i n Hh Hpos Hlow) as (h3 & z' & Hz' & Hw3 & ->); [lia|].
  rewrite drop_ge, app_nil_r in * by (unfold zlen in *; lia).
  pose proof (wf_at _ _ _ _ _ _ _ _ Hw3) as Ha3. unfold quicklistDeleteIfEmpty. rewrite Ha3. cbn [mbind option_bind].
  change (count (link _ _ _)) with (u16 (zlen ss + - n)). pose proof (n_max _ _ Hok) as Hm.
  assert (Eu : u16 (zlen ss + - n) = zlen ss - n) by (rewrite u16_entries; lia). rewrite Eu.
  rewrite (proj2 (Z.eqb_neq (zlen ss - n) 0)) by lia. cbn [mbind option_bind].
  rewrite (recompress_off _ _ _ _ _ Ha3) by apply (n_plain _ _ Hok). cbn [mbind option_bind].
  rewrite Z.sub_diag. change (u64 0) with 0. rewrite del_loop_0. cbn [mbind option_bind].
  eexists _, _, _. split; [reflexivity|]. split; [by apply wf_ql_count|]. split; [by exists z'|]. split; [exact Eu|].
  cbn [ql_count with_ql_count]. rewrite (h_count _ _ _ Hh). fold total. apply uwrap_small.
  pose proof (zlen_nonneg (contents l1)). unfold urange. lia.
Qed.
End with_memory.
