(* ===== verification/QuicklistRefine.v ===== *)
(** * Quicklists as lists of strings

    The theorems about quicklists: any sequence of operations on a quicklist that is not compressed
    is that sequence on a list of strings, and releasing the list frees every node; indexing and
    iterating in both directions read the list; ranges are deleted, except for one form that loses
    the count; rotating moves the last element to the front, unless its bytes are read after they
    have been moved. *)

From Stdlib Require Import String.
From stdpp Require Import gmap.
From S2P Require Import Prelude Util Sds Ziplist ZiplistSpec Lzf Quicklist QuicklistNodes QuicklistSpec QuicklistEdit.

#[local] Open Scope list_scope.
#[local] Open Scope Z_scope.

(** * Iteration *)

(** All the values an iterator goes through. *)
Fixpoint iterate (htab : LZF_STATE) (garbage : Z -> bytes) (fuel : nat) (h : heap) (ql : quicklist) (it : option quicklistIter)
    : option (list zlval) :=
  match fuel with
  | O => None
  | S fuel =>
      '(h, it, entry, more) ← quicklistNext htab garbage h ql it;
      if (more : bool) then
        v ← value entry; rest ← iterate htab garbage fuel h ql it; Some (v :: rest)
      else Some []
  end.

Lemma list_pos_0 {A} (x : A) l : list_pos (x :: l) 0 = Some O.
Proof.
  unfold list_pos. change (0 <? 0) with false. change (0 <=? 0) with true. cbn [andb]. rewrite zlen_cons.
  by rewrite (proj2 (Z.ltb_lt _ _)) by (pose proof (zlen_nonneg l); lia).
Qed.

Lemma list_pos_last {A} (x : A) l : list_pos (l ++ [x]) (-1) = Some (length l).
Proof.
  unfold list_pos. change (-1 <? 0) with true. rewrite zlen_app, zlen_cons. change (zlen (@nil A)) with 0. pose proof (zlen_nonneg l).
  rewrite (proj2 (Z.leb_le _ _)), (proj2 (Z.ltb_lt _ _)) by lia. cbn [andb]. f_equal. unfold zlen. lia.
Qed.

Section with_memory.
Context (htab : LZF_STATE) (garbage : Z -> bytes).

Definition read_value (s : bytes) : zlval := get_val (val_of s).

(** Whether an iterator moves forward, and where it starts in a node. *)
Definition dir_start (dir : Z) : Z := if dir =? AL_START_HEAD then 0 else -1.
Definition dir_ok (dir : Z) : Prop := dir = AL_START_HEAD \/ dir = AL_START_TAIL.

(** The entry an iterator stands at. *)
Definition stands (l : list cell) (k : nat) (dir : Z) (it : quicklistIter) : Prop :=
  exists l1 a b ss l2 z es i, entry_at l k l1 a b ss l2 z es i /\
    current it = Some a /\ it_zi it = Some (zl_at es i) /\ direction it = dir.

(** The values still to come after the one number [k], and the number of the next one. *)
Definition to_come (dir : Z) (ss : list bytes) (k : nat) : list bytes := if dir =? AL_START_HEAD then drop (S k) ss else rev (take k ss).
Definition next_pos (dir : Z) (k : nat) : nat := if dir =? AL_START_HEAD then S k else (k - 1)%nat.

(** Entering a node, or running out of nodes. *)
Lemma enter_node h ql l1 l2 dir fuel : dir_ok dir ->
  (if dir =? AL_START_HEAD then holds h ql (l1 ++ l2) else holds h ql (l2 ++ l1)) ->
  let p := if dir =? AL_START_HEAD then firstp l2 None else lastp None l2 in
  let l := if dir =? AL_START_HEAD then l1 ++ l2 else l2 ++ l1 in
  match (if dir =? AL_START_HEAD then contents l2 else rev (contents l2)) with
  | [] => next_loop htab garbage (S fuel) h ql (QIter p None (dir_start dir) dir) = Some (h, QIter None None (dir_start dir) dir, initEntry, false)
  | s :: _ => exists it en, next_loop htab garbage (S fuel) h ql (QIter p None (dir_start dir) dir) = Some (h, it, en, true) /\
      value en = Some (read_value s) /\
      stands l (if dir =? AL_START_HEAD then length (contents l1) else (length (contents l2) - 1)%nat) dir it
  end.
Proof.
  intros Hdir Hh p l.
  set (lst := if dir =? AL_START_HEAD then l1 ++ l2 else l2 ++ l1) in *.
  assert (Hsplit : l2 = [] \/ exists m1 c m2 i s, lst = m1 ++ c :: m2 /\ p = Some (c_loc c) /\ (i < length (c_strs c))%nat /\
    list_pos (c_strs c) (dir_start dir) = Some i /\ c_strs c !! i = Some s /\ holds h ql (m1 ++ c :: m2) /\
    (if dir =? AL_START_HEAD then contents l2 else rev (contents l2)) !! O = Some s /\
    (if dir =? AL_START_HEAD then length (contents l1) else (length (contents l2) - 1)%nat) = (length (contents m1) + i)%nat).
  { unfold dir_start, p, lst in *. destruct (dir =? AL_START_HEAD).
    - destruct l2 as [|c l2]; [by left|right]. destruct (cell_at _ _ _ _ _ Hh) as (_ & _ & Hne).
      destruct (c_strs c) as [|s ss] eqn:Es; [done|]. exists l1, c, l2, O, s. rewrite Es, contents_cons, Es.
      split_and!; try done; (cbn; lia) || by apply list_pos_0.
    - destruct l2 as [|c l2 _] using rev_ind; [by left|right]. rewrite <- app_assoc in *. cbn [app] in *.
      destruct (cell_at _ _ _ _ _ Hh) as (_ & _ & Hne). destruct (c_strs c) as [|s ss _] eqn:Es using rev_ind; [done|].
      exists l2, c, l1, (length ss), s. rewrite contents_snoc, Es, rev_app_distr, rev_app_distr, !length_app, lastp_snoc.
      split_and!; try done; try (cbn; lia); [by apply list_pos_last|by rewrite lookup_app_r, Nat.sub_diag by lia..]. }
  destruct Hsplit as [->|(m1 & c & m2 & i & s & El & Ep & Hi & Hpos & Hs & Hh' & Hfirst & Hk)].
  { unfold p, lst in *. destruct (dir =? AL_START_HEAD); done. }
  destruct (if dir =? AL_START_HEAD then contents l2 else rev (contents l2)) as [|s' rest] eqn:Er; [done|]. injection Hfirst as ->.
  destruct c as [a b ss]. cbn [c_loc c_strs] in *. destruct (cell_entries _ _ _ _ _ _ _ Hh') as (z & es & Hz & Hes).
  destruct (cell_at _ _ _ _ _ Hh') as (Ha & Hok & _). cbn [c_loc c_body c_strs] in *.
  rewrite Ep. cbn [next_loop current it_zi it_offset direction]. rewrite (for_use_off _ _ _ _ Ha) by apply Hok. cbn [mbind option_bind].
  rewrite (get_zl_at _ _ _ _ _ _ _ _ (h_wf _ _ _ Hh')), Hz. cbn [mbind option_bind].
  assert (s32 (dir_start dir) = dir_start dir) as -> by (unfold dir_start; by destruct (dir =? AL_START_HEAD)).
  rewrite (zl_find_index z es _ (proj1 Hes)) by (unfold index_ok, srange, INT32_MIN, dir_start; destruct (dir =? AL_START_HEAD); lia).
  rewrite (proj2 Hes), list_pos_map, Hpos. cbn [fmap option_fmap option_map mbind option_bind].
  rewrite (get_zl_at _ _ _ _ _ _ _ _ (h_wf _ _ _ Hh')), Hz. cbn [mbind option_bind].
  rewrite (read_entry z es ss i s Hes Hs). cbn [mbind option_bind]. eexists _, _. split; [reflexivity|]. split; [done|].
  exists m1, a, b, ss, m2, z, es, i. split; [|done]. rewrite Hk. unfold l. fold lst. by constructor.
Qed.

Lemma entry_moves z es ss i : entries z es ss -> (i < length ss)%nat ->
  ziplistNext z (zl_at es i) = Some (if decide (S i < length es)%nat then Some (zl_at es (S i)) else None) /\
  ziplistPrev z (zl_at es i) = Some (match i with O => None | S j => Some (zl_at es j) end).
Proof.
  intros Hes Hi. rewrite <- (entries_length _ _ _ Hes) in Hi. destruct (lookup_lt_is_Some_2 _ _ Hi) as [e He].
  destruct Hes as [(c & -> & _ & Hc & _) _]. by apply neighbours with e.
Qed.

(** Within a node. *)
Lemma step_within h ql l k l1 a b ss l2 z es i dir off fuel s : holds h ql l -> entry_at l k l1 a b ss l2 z es i ->
  let i' := next_pos dir i in ss !! i' = Some s -> i' <> i -> dir_ok dir ->
  exists it en, next_loop htab garbage (S fuel) h ql (QIter (Some a) (Some (zl_at es i)) off dir) = Some (h, it, en, true) /\
    value en = Some (read_value s) /\ stands l (next_pos dir k) dir it.
Proof.
  intros Hh [-> -> Hi Hz Hes] i' Hs Hne Hdir. pose proof (entries_length _ _ _ Hes) as Hl.
  assert (Hi' : (i' < length es)%nat) by (rewrite Hl; by apply lookup_lt_Some in Hs).
  pose proof (entry_moves z es ss i Hes Hi) as Hn.
  cbn [next_loop current it_zi it_offset direction]. rewrite (get_zl_at _ _ _ _ _ _ _ _ (h_wf _ _ _ Hh)), Hz. cbn [mbind option_bind].
  assert (Hstep : exists off', (if dir =? AL_START_HEAD then p ← ziplistNext z (zl_at es i); Some (h, p, s64 (off + 1))
     else if dir =? AL_START_TAIL then p ← ziplistPrev z (zl_at es i); Some (h, p, s64 (off - 1)) else None) =
     Some (h, Some (zl_at es i'), off')).
  { unfold i', next_pos in *. destruct Hdir as [-> | ->]; cbn [Z.eqb AL_START_HEAD AL_START_TAIL] in *.
    - rewrite (proj1 Hn). cbn [mbind option_bind]. rewrite decide_True by (cbn in *; lia). by eexists.
    - rewrite (proj2 Hn). cbn [mbind option_bind]. destruct i as [|j]; [cbn in Hne; lia|]. cbn. rewrite Nat.sub_0_r. by eexists. }
  destruct Hstep as [off' ->]. cbn [mbind option_bind].
  rewrite (get_zl_at _ _ _ _ _ _ _ _ (h_wf _ _ _ Hh)), Hz. cbn [mbind option_bind].
  rewrite (read_entry z es ss i' s Hes Hs). cbn [mbind option_bind]. eexists _, _. split; [reflexivity|]. split; [done|].
  exists l1, a, b, ss, l2, z, es, i'. split; [|done]. constructor; try done; [|lia].
  unfold i', next_pos in *. destruct (dir =? AL_START_HEAD); lia.
Qed.

(** From the last value of a node in the direction. *)
Lemma step_across h ql l k l1 a b ss l2 z es i dir off fuel : holds h ql l -> entry_at l k l1 a b ss l2 z es i ->
  i = (if dir =? AL_START_HEAD then (length ss - 1)%nat else O) -> dir_ok dir ->
  next_loop htab garbage (S fuel) h ql (QIter (Some a) (Some (zl_at es i)) off dir) =
    next_loop htab garbage fuel h ql (QIter (if dir =? AL_START_HEAD then firstp l2 None else lastp None l1) None (dir_start dir) dir).
Proof.
  intros Hh [-> -> Hi Hz Hes] Hend Hdir. pose proof (entries_length _ _ _ Hes) as Hl.
  destruct (cell_at _ _ _ _ _ Hh) as (Ha & Hok & _). cbn [c_loc c_body c_strs] in *.
  pose proof (entry_moves z es ss i Hes Hi) as Hn.
  cbn [next_loop current it_zi it_offset direction]. rewrite (get_zl_at _ _ _ _ _ _ _ _ (h_wf _ _ _ Hh)), Hz. cbn [mbind option_bind].
  assert (Hstep : exists off', (if dir =? AL_START_HEAD then p ← ziplistNext z (zl_at es i); Some (h, p, s64 (off + 1))
     else if dir =? AL_START_TAIL then p ← ziplistPrev z (zl_at es i); Some (h, p, s64 (off - 1)) else None) =
     Some (h, None, off')).
  { destruct Hdir as [-> | ->]; cbn [Z.eqb AL_START_HEAD AL_START_TAIL] in *.
    - rewrite (proj1 Hn). cbn [mbind option_bind]. rewrite decide_False by (rewrite Hend, Hl; cbn; lia). by eexists.
    - rewrite (proj2 Hn). cbn [mbind option_bind]. rewrite Hend. by eexists. }
  destruct Hstep as [off' ->]. cbn [mbind option_bind].
  rewrite (quicklistCompress_off _ _ _ _ _ _ (wf_compress _ _ _ _ (h_wf _ _ _ Hh)) Ha) by apply (n_plain _ _ Hok).
  cbn [mbind option_bind]. rewrite Ha. cbn [mbind option_bind].
  change (next (link _ _ ?q)) with q. change (prev (link ?p _ _)) with p. unfold dir_start.
  by destruct Hdir as [-> | ->].
Qed.

(** One step of an iterator. *)
Lemma next_step h ql l k dir it fuel : holds h ql l -> stands l k dir it -> dir_ok dir ->
  match to_come dir (contents l) k with
  | [] => exists it', next_loop htab garbage (S (S fuel)) h ql it = Some (h, it', initEntry, false)
  | s :: _ => exists it' en, next_loop htab garbage (S (S fuel)) h ql it = Some (h, it', en, true) /\
      value en = Some (read_value s) /\ stands l (next_pos dir k) dir it'
  end.
Proof.
  intros Hh (l1 & a & b & ss & l2 & z & es & i & Hat & Hc & Hz & Hd) Hdir. destruct it as [p q off d]. cbn [current it_zi direction] in *. subst p q d.
  pose proof Hat as [-> -> Hi _ _].
  destruct (decide (i = if dir =? AL_START_HEAD then (length ss - 1)%nat else O)) as [Hend|Hmid].
  - rewrite (step_across h ql _ _ l1 a b ss l2 z es i dir off (S fuel) Hh Hat Hend Hdir).
    destruct Hdir as [-> | ->]; cbn [Z.eqb AL_START_HEAD AL_START_TAIL] in *.
    + pose proof (enter_node h ql (l1 ++ [Cell a b ss]) l2 AL_START_HEAD fuel (or_introl eq_refl)) as H. cbn zeta in H.
      change (AL_START_HEAD =? AL_START_HEAD) with true in *. cbv iota in H. rewrite <- app_cons_mid in H. specialize (H Hh).
      unfold to_come, next_pos. change (AL_START_HEAD =? AL_START_HEAD) with true. cbv iota.
      rewrite contents_mid. cbn [c_strs]. rewrite <- Nat.add_succ_r, drop_mid, drop_ge by lia. cbn [app].
      rewrite contents_snoc, length_app in H. cbn [c_strs] in H. destruct (contents l2) as [|s rest]; [by eexists|].
      destruct H as (it & en & E & Hv & Hs). exists it, en. split_and!; [done..|].
      by replace (length (contents l1) + S i)%nat with (length (contents l1) + length ss)%nat by lia.
    + pose proof (enter_node h ql (Cell a b ss :: l2) l1 AL_START_TAIL fuel (or_intror eq_refl)) as H. cbn zeta in H.
      change (AL_START_TAIL =? AL_START_HEAD) with false in *. cbv iota in H. specialize (H Hh).
      unfold to_come, next_pos. change (AL_START_TAIL =? AL_START_HEAD) with false. cbv iota.
      rewrite contents_mid. rewrite Hend, Nat.add_0_r, take_app_length.
      destruct (rev (contents l1)) as [|s rest] eqn:Er; [by eexists|]. destruct H as (it & en & E & Hv & Hs). by exists it, en.
  - assert (Hi' : exists s rest, ss !! next_pos dir i = Some s /\ next_pos dir i <> i /\ to_come dir (contents (l1 ++ Cell a b ss :: l2)) (length (contents l1) + i) = s :: rest).
    { rewrite contents_mid. cbn [c_strs]. destruct Hdir as [-> | ->]; unfold to_come, next_pos.
      - change (AL_START_HEAD =? AL_START_HEAD) with true in *. cbv iota in Hmid |- *.
        destruct (lookup_lt_is_Some_2 ss (S i)) as [s Hs]; [lia|]. exists s, (drop (S (S i)) ss ++ contents l2).
        split_and!; [done|lia|]. rewrite <- Nat.add_succ_r, drop_mid by lia. by rewrite (drop_S _ _ _ Hs).
      - change (AL_START_TAIL =? AL_START_HEAD) with false in *. cbv iota in Hmid |- *. destruct i as [|j]; [done|].
        destruct (lookup_lt_is_Some_2 ss j) as [s Hs]; [lia|]. exists s, (rev (take j ss) ++ rev (contents l1)).
        rewrite Nat.sub_succ, Nat.sub_0_r. split_and!; [done|lia|]. rewrite take_mid by lia. rewrite (take_S_r _ _ _ Hs).
        by rewrite !rev_app_distr. }
    destruct Hi' as (s & rest & Hs & Hne & ->).
    by apply (step_within h ql _ _ l1 a b ss l2 z es i dir off (S fuel) s Hh Hat).
Qed.

Lemma to_come_next dir ss k s rest : (k < length ss)%nat -> to_come dir ss k = s :: rest -> to_come dir ss (next_pos dir k) = rest.
Proof.
  intros Hk. unfold to_come, next_pos. destruct (dir =? AL_START_HEAD).
  - intros H. by rewrite <- Nat.add_1_r, <- drop_drop, H.
  - destruct k as [|k]; [done|]. intros H. cbn [Nat.sub]. rewrite Nat.sub_0_r.
    destruct (lookup_lt_is_Some_2 ss k) as [x E]; [lia|]. rewrite (take_S_r _ _ _ E), rev_app_distr in H. by injection H as _ H.
Qed.

Lemma stands_lt l k dir it : stands l k dir it -> (k < length (contents l))%nat /\ (1 <= length l)%nat.
Proof.
  intros (l1 & a & b & ss & l2 & z & es & i & [-> -> Hi _ _] & _). rewrite contents_mid, !length_app. cbn [c_strs length]. lia.
Qed.

Lemma iterate_from h ql l dir : holds h ql l -> dir_ok dir -> forall rest k it, stands l k dir it -> to_come dir (contents l) k = rest ->
  iterate htab garbage (S (length rest)) h ql (Some it) = Some (map read_value rest).
Proof.
  intros Hh Hdir rest. induction rest as [|s rest IH]; intros k it Hst Hr; pose proof (stands_lt _ _ _ _ Hst) as [Hk Hl];
    pose proof (wf_size _ _ _ _ (h_wf _ _ _ Hh)) as Hsz; pose proof (next_step h ql l k dir it (size h - 1) Hh Hst Hdir) as H;
    rewrite Hr in H; replace (S (size h - 1)) with (size h) in H by lia.
  - destruct H as [it' E]. cbn [iterate length]. unfold quicklistNext. rewrite E. done.
  - destruct H as (it' & en & E & Hv & Hst'). change (iterate htab garbage (S (length (s :: rest))) h ql (Some it)) with
      ('(h, it, entry, more) ← quicklistNext htab garbage h ql (Some it);
       if (more : bool) then v ← value entry; r ← iterate htab garbage (S (length rest)) h ql it; Some (v :: r) else Some []).
    unfold quicklistNext. rewrite E. cbn [mbind option_bind]. rewrite Hv. cbn [mbind option_bind].
    rewrite (IH _ _ Hst' (to_come_next _ _ _ _ _ Hk Hr)). done.
Qed.

Lemma iterate_all h ql l dir : holds h ql l -> dir_ok dir ->
  exists it, quicklistGetIterator ql dir = Some it /\
    iterate htab garbage (S (length (contents l))) h ql (Some it) =
      Some (map read_value (if dir =? AL_START_HEAD then contents l else rev (contents l))).
Proof.
  intros Hh Hdir. pose proof (wf_head _ _ _ _ (h_wf _ _ _ Hh)) as Ehd. pose proof (wf_tail _ _ _ _ (h_wf _ _ _ Hh)) as Etl.
  assert (He : exists it, quicklistGetIterator ql dir = Some it /\
    match (if dir =? AL_START_HEAD then contents l else rev (contents l)) with
    | [] => exists it', next_loop htab garbage (S (size h)) h ql it = Some (h, it', initEntry, false)
    | s :: rest => exists it' en k, next_loop htab garbage (S (size h)) h ql it = Some (h, it', en, true) /\
        value en = Some (read_value s) /\ stands l k dir it' /\ to_come dir (contents l) k = rest
    end).
  { unfold quicklistGetIterator. rewrite Ehd, Etl. destruct Hdir as [-> | ->].
    - change (AL_START_HEAD =? AL_START_HEAD) with true. cbv iota. eexists. split; [reflexivity|].
      pose proof (enter_node h ql [] l AL_START_HEAD (size h) (or_introl eq_refl) Hh) as H. cbn zeta in H.
      change (AL_START_HEAD =? AL_START_HEAD) with true in H. cbv iota in H. change (dir_start AL_START_HEAD) with 0 in H.
      destruct (contents l) as [|s rest] eqn:Ec; [by eexists|]. destruct H as (it & en & E & Hv & Hs).
      exists it, en, O. split_and!; try done.
    - change (AL_START_TAIL =? AL_START_HEAD) with false. change (AL_START_TAIL =? AL_START_TAIL) with true. cbv iota.
      eexists. split; [reflexivity|].
      pose proof (enter_node h ql [] l AL_START_TAIL (size h) (or_intror eq_refl)) as H. cbn zeta in H.
      change (AL_START_TAIL =? AL_START_HEAD) with false in H. cbv iota in H. rewrite app_nil_r in H. specialize (H Hh).
      change (dir_start AL_START_TAIL) with (-1) in H. destruct (rev (contents l)) as [|s rest] eqn:Ec; [by eexists|].
      destruct H as (it & en & E & Hv & Hs). exists it, en, (length (contents l) - 1)%nat. split_and!; try done.
      unfold to_come. change (AL_START_TAIL =? AL_START_HEAD) with false. cbv iota.
      rewrite <- (rev_involutive (contents l)), Ec. cbn [rev]. rewrite length_app, length_rev. cbn [length].
      rewrite Nat.add_sub, <- length_rev, take_app_length. apply rev_involutive. }
  destruct He as (it & Eit & He). exists it. split; [done|].
  assert (El : length (contents l) = length (if dir =? AL_START_HEAD then contents l else rev (contents l)))
    by (destruct (dir =? AL_START_HEAD); by rewrite ?length_rev).
  rewrite El. destruct (if dir =? AL_START_HEAD then contents l else rev (contents l)) as [|s rest].
  - destruct He as [it' E]. cbn [iterate length]. unfold quicklistNext. by rewrite E.
  - destruct He as (it' & en & k & E & Hv & Hst & Hr). change (iterate htab garbage (S (length (s :: rest))) h ql (Some it)) with
      ('(h, it, entry, more) ← quicklistNext htab garbage h ql (Some it);
       if (more : bool) then v ← value entry; r ← iterate htab garbage (S (length rest)) h ql it; Some (v :: r) else Some []).
    unfold quicklistNext. rewrite E. cbn [mbind option_bind]. rewrite Hv. cbn [mbind option_bind].
    by rewrite (iterate_from h ql l dir Hh Hdir rest k it' Hst Hr).
Qed.

(** * Releasing *)

Lemma release_nodes l : forall h p, NoDup (locs l) -> seg h p l None -> dom h = list_to_set (locs l) ->
  release_loop (length l) h (firstp l None) = Some ∅.
Proof.
  induction l as [|c l IH]; intros h p Hd Hs Hdom.
  - cbn. f_equal. by apply dom_empty_inv_L.
  - cbn [length firstp release_loop]. destruct Hs as [Ha Hs]. cbn [locs map] in Hd, Hdom. apply list.NoDup_cons in Hd as [Hn Hd].
    fold (locs l) in Hn, Hd, Hdom. cbn [mbind option_bind]. rewrite Ha. cbn [mbind option_bind]. change (next (link _ _ ?q)) with q.
    apply (IH _ (Some (c_loc c))); [done| |].
    + eapply node_seg_frame; [|exact Hs]. intros x Hx. apply lookup_delete_ne. intros <-. apply Hn. by apply list_elem_of_In.
    + rewrite dom_delete_L, Hdom. cbn [list_to_set]. set_solver.
Qed.

Lemma release_all h ql l : holds h ql l -> quicklistRelease h ql = Some ∅.
Proof.
  intros Hh. destruct (h_wf _ _ _ Hh) as [Hd Hs Hdom Hhd _ Hl _]. unfold quicklistRelease. rewrite Hl, Hhd, to_nat_zlen.
  eapply release_nodes; [done..|]. rewrite Hdom. apply union_empty_r_L.
Qed.

(** * Rotating *)

(** The value is read from a block that the push has moved. *)
Definition rotate_unsafe (h : heap) (ql : quicklist) (s : bytes) : Prop :=
  head ql = tail ql /\ _quicklistNodeAllowInsert h (head ql) (fill ql) (zlen s) = Some true /\
  exists c s', popped s = inl (c :: s').

Lemma take_drop_tail (s : bytes) (ss : list bytes) : let c := s :: ss ++ [s] in
  take (length (ss ++ [s])) c ++ drop (S (length (ss ++ [s]))) c = s :: ss.
Proof.
  cbn. rewrite length_app. cbn [length]. rewrite Nat.add_1_r. cbn [take]. rewrite take_app_length.
  rewrite drop_ge by (rewrite length_app; cbn; lia). by rewrite app_nil_r.
Qed.

(** The last entry after a push at the head: where it was, unless that push went to its own node. *)
Lemma last_after_push h ql l h1 ql1 c (r : bool) s l1 a b ss0 l2 z es i : holds h ql l -> contents l <> [] ->
  entry_at l (length (contents l) - 1) l1 a b ss0 l2 z es i -> tail ql = Some a ->
  holds h1 ql1 (c :: (if r then tl l else l)) -> contents (c :: (if r then tl l else l)) = s :: contents l ->
  exists a' z' p l1' b' ss' l2' es' i', tail ql1 = Some a' /\ get_zl h1 a' = Some z' /\
    (if len ql1 =? 1 then ziplistIndex z' (-1) else Some (Some (zl_at es i))) = Some (Some p) /\ p = zl_at es' i' /\
    entry_at (c :: (if r then tl l else l)) (length (contents l)) l1' a' b' ss' l2' z' es' i'.
Proof.
  intros Hh Hcne Hat Et Hh1 Hc1. assert (Hpos : (0 < length (contents l))%nat) by (destruct (contents l); [done|cbn; lia]).
  rewrite (wf_len _ _ _ _ (h_wf _ _ _ Hh1)). pose proof Hat as [El Ek Hi Hz Hes].
  assert (El2 : l2 = []).
  { rewrite (wf_tail _ _ _ _ (h_wf _ _ _ Hh)), El, lastp_app in Et. destruct l2 as [|c2 l2 _] using rev_ind; [done|].
    rewrite app_comm_cons, lastp_snoc in Et. pose proof (wf_dup _ _ _ _ (h_wf _ _ _ Hh)) as Hd. rewrite El in Hd.
    apply locs_split in Hd as (_ & _ & _ & Hn & _). destruct Hn. injection Et as Et. cbn [c_loc]. rewrite <- Et, node_locs_app, in_app_iff. right. by left. }
  subst l2. destruct (decide (r = true /\ l1 = [])) as [[-> ->]|Hmulti].
  - (* one node, before and after *)
    rewrite El in *. cbn [app tl] in *.
    destruct (end_entry h1 ql1 _ QUICKLIST_TAIL Hh1) as (m1 & a' & b' & ss' & m2 & z' & es' & i' & s1 & Hat' & _ & Et' & Ez' & Ei' & _).
    { rewrite Hc1. done. }
    change (QUICKLIST_TAIL =? QUICKLIST_HEAD) with false in *. cbv iota in *. rewrite Hc1 in Hat'. cbn [length] in Hat'.
    rewrite Nat.sub_succ, Nat.sub_0_r in Hat'. change (zlen [c] =? 1) with true. by exists a', z', (zl_at es' i'), m1, b', ss', m2, es', i'.
  - (* the last node is as it was *)
    assert (Hl' : exists m, c :: (if r then tl l else l) = c :: m ++ [Cell a b ss0] /\ zlen (c :: m ++ [Cell a b ss0]) <> 1 /\
      (length (contents (c :: m)) + i)%nat = length (contents l)).
    { assert (Hlc : length (contents (c :: (if r then tl l else l))) = S (length (contents l))) by (rewrite Hc1; done).
      assert (Hm : exists m, (if r then tl l else l) = m ++ [Cell a b ss0]).
      { rewrite El. destruct r; [|by exists l1]. destruct l1 as [|c1 l1]; [naive_solver|by exists l1]. }
      destruct Hm as [m Hm]. rewrite Hm in *. exists m. split; [done|]. split.
      - rewrite zlen_cons, zlen_app, zlen_cons. pose proof (zlen_nonneg m). pose proof (zlen_nonneg (@nil cell)). lia.
      - rewrite app_comm_cons, contents_snoc, length_app in Hlc. cbn [c_strs] in Hlc.
        rewrite El, contents_snoc, length_app in Ek. cbn [c_strs] in Ek. lia. }
    destruct Hl' as (m & Em & Hz1 & Hk). rewrite Em in *. rewrite (proj2 (Z.eqb_neq _ _) Hz1).
    exists a, z, (zl_at es i), (c :: m), b, ss0, [], es, i. split_and!; try done.
    + rewrite (wf_tail _ _ _ _ (h_wf _ _ _ Hh1)), app_comm_cons. apply lastp_snoc.
    + rewrite app_comm_cons in Hh1. by rewrite (get_zl_at _ _ _ _ _ _ _ _ (h_wf _ _ _ Hh1)), Hz.
Qed.

Lemma rotate_spec h ql l ss s : holds h ql l -> contents l = ss ++ [s] -> ss <> [] -> 11 + str_cap (s :: contents l) < 2 ^ 32 ->
  (rotate_unsafe h ql s -> quicklistRotate htab garbage h ql = None) /\
  (~ rotate_unsafe h ql s -> exists h' ql' l', quicklistRotate htab garbage h ql = Some (h', ql') /\ holds h' ql' l' /\ contents l' = s :: ss).
Proof.
  intros Hh Hc Hne Hcap.
  assert (Hcne : contents l <> []) by (rewrite Hc; by destruct ss).
  destruct (end_entry h ql l QUICKLIST_TAIL Hh Hcne) as (l1 & a & b & ss0 & l2 & z & es & i & s0 & Hat & Hs0 & Et & Ez & Ei & Eg).
  change (QUICKLIST_TAIL =? QUICKLIST_HEAD) with false in *. cbv iota in *.
  rewrite Hc, length_app, Nat.add_sub, lookup_app_r, Nat.sub_diag in Hs0 by (cbn; lia). injection Hs0 as <-.
  destruct (push_head htab garbage h ql l s Hh Hcap) as (r & h1 & ql1 & c & new & Er & Ep & Hh1 & Hc1). cbv zeta in *.
  assert (Hlen : 1 < ql_count ql).
  { rewrite (h_count _ _ _ Hh), Hc, zlen_app, zlen_cons. pose proof (zlen_pos_nonnil _ Hne). pose proof (zlen_nonneg (@nil bytes)). lia. }
  unfold quicklistRotate, rotate_unsafe. rewrite (proj2 (Z.leb_gt _ _) Hlen), Et. cbn [mbind option_bind]. rewrite Ez. cbn [mbind option_bind].
  rewrite Ei. cbn [mbind option_bind]. rewrite Eg. cbn [mbind option_bind]. rewrite value_string_val. cbn [mbind option_bind].
  rewrite Er. cbn [mbind option_bind]. unfold popped. set (bad := r && _ && _).
  assert (Hbad : bad = true <-> head ql = Some a /\ Some r = Some true /\ exists c s', (match get_val (val_of s) with ZStr s => inl s | ZInt v => inr v end : bytes + Z) = inl (c :: s')).
  { unfold bad. rewrite !andb_true_iff, bool_decide_eq_true. destruct (get_val (val_of s)) as [[|x xs]|v]; naive_solver. }
  split; [intros Hu; by rewrite (proj2 Hbad Hu)|]. intros Hu. destruct bad; [by destruct Hu; apply Hbad|].
  rewrite Ep. cbn [mbind option_bind].
  destruct (last_after_push h ql l h1 ql1 c r s l1 a b ss0 l2 z es i Hh Hcne Hat Et Hh1 Hc1)
    as (a' & z' & p & l1' & b' & ss' & l2' & es' & i' & -> & E2 & E3 & -> & Hat').
  cbn [mbind option_bind]. rewrite E2. cbn [mbind option_bind]. rewrite E3. cbn [mbind option_bind].
  destruct (del_at htab garbage h1 ql1 _ _ l1' a' b' ss' l2' z' es' i' Hh1 Hat') as (h2 & ql2 & gone & l' & -> & Hh2 & Hc2).
  cbn [mbind option_bind]. exists h2, ql2, l'. split_and!; [done..|]. rewrite Hc2, Hc1, Hc. apply take_drop_tail.
Qed.
End with_memory.

(** * Sequences of operations *)

Inductive ql_op :=
  | QPush (s : bytes) (where_ : Z)
  | QPop (where_ : Z)
  | QInsert (index : Z) (s : bytes) (after : bool)
  | QReplace (index : Z) (s : bytes)
  | QDelRange (start count : Z).

(** What a call returns to the caller: the element popped. *)
Abbreviation outcome := (option (bytes + Z)).

Definition ql_exec (htab : LZF_STATE) (garbage : Z -> bytes) (h : heap) (ql : quicklist) (op : ql_op)
    : option (heap * quicklist * outcome) :=
  match op with
  | QPush s w => '(h, ql) ← quicklistPush htab garbage h ql s w; Some (h, ql, None)
  | QPop w => quicklistPop htab garbage h ql w
  | QInsert index s after =>
      '(h, found, entry) ← quicklistIndex garbage h ql index;
      if (found : bool) then
        '(h, ql) ← (if after then quicklistInsertAfter htab garbage h ql entry s
                    else quicklistInsertBefore htab garbage h ql entry s);
        Some (h, ql, None)
      else Some (h, ql, None)
  | QReplace index s => '(h, _) ← quicklistReplaceAtIndex htab garbage h ql index s; Some (h, ql, None)
  | QDelRange start count => '(h, ql, _) ← quicklistDelRange htab garbage h ql start count; Some (h, ql, None)
  end.

Fixpoint ql_run (htab : LZF_STATE) (garbage : Z -> bytes) (h : heap) (ql : quicklist) (ops : list ql_op)
    : option (heap * quicklist * list outcome) :=
  match ops with
  | [] => Some (h, ql, [])
  | op :: ops =>
      '(h, ql, out) ← ql_exec htab garbage h ql op;
      '(h, ql, outs) ← ql_run htab garbage h ql ops;
      Some (h, ql, out :: outs)
  end.

(** The same on a list of strings. *)
Definition strs_op (ss : list bytes) (op : ql_op) : list bytes * outcome :=
  match op with
  | QPush s w => (if w =? QUICKLIST_HEAD then s :: ss else ss ++ [s], None)
  | QPop w =>
      let k := if w =? QUICKLIST_HEAD then O else (length ss - 1)%nat in
      (take k ss ++ drop (S k) ss, popped <$> ss !! k)
  | QInsert index s after =>
      (match list_pos ss index with Some k => ins (if after then S k else k) s ss | None => ss end, None)
  | QReplace index s =>
      (match list_pos ss index with Some k => take k ss ++ s :: drop (S k) ss | None => ss end, None)
  | QDelRange start count =>
      (if count <=? 0 then ss else
       match list_pos ss start with
       | Some k => take k ss ++ drop (k + Z.to_nat (range_extent (zlen ss) k count)) ss
       | None => ss
       end, None)
  end.

Fixpoint strs_run (ss : list bytes) (ops : list ql_op) : list bytes * list outcome :=
  match ops with
  | [] => (ss, [])
  | op :: ops => let '(ss, out) := strs_op ss op in let '(ss, outs) := strs_run ss ops in (ss, out :: outs)
  end.

Definition end_ok (w : Z) : Prop := w = QUICKLIST_HEAD \/ w = QUICKLIST_TAIL.

(** Two calls go wrong, depending on how the list is cut into nodes: inserting at an entry found
    from the tail when its node is full, which splits the node at a negative offset, and deleting a
    range that is shorter than the node it starts in but goes on into the next one. *)
Definition defective (garbage : Z -> bytes) (h : heap) (ql : quicklist) (op : ql_op) : bool :=
  match op with
  | QInsert index s _ =>
      match quicklistIndex garbage h ql index with
      | Some (_, true, e) =>
          (offset e <? 0) && match _quicklistNodeAllowInsert h (node e) (fill ql) (zlen s) with Some b => negb b | None => false end
      | _ => false
      end
  | QDelRange start n =>
      match quicklistIndex garbage h ql start with
      | Some (_, true, e) =>
          match deref h (node e) with
          | Some nd => let extent := Z.min n (ql_count ql - start) in
              (0 <? offset e) && (extent <? count nd) && (count nd <? offset e + extent)
          | None => false
          end
      | _ => false
      end
  | _ => false
  end.

Definition op_args_ok (op : ql_op) : Prop :=
  match op with
  | QPush _ w | QPop w => end_ok w
  | QInsert index _ _ | QReplace index _ => srange 64 index
  | QDelRange start n => srange 64 start /\ srange 64 n
  end.

(** The arguments are of their types, the strings stay below the 4 GB a ziplist can hold, and no
    call is [defective] in the state it is made in. *)
Fixpoint ops_ok (htab : LZF_STATE) (garbage : Z -> bytes) (h : heap) (ql : quicklist) (ops : list ql_op) (ss : list bytes) : Prop :=
  match ops with
  | [] => True
  | op :: ops =>
      op_args_ok op /\ 11 + str_cap (fst (strs_op ss op)) < 2 ^ 32 /\ defective garbage h ql op = false /\
      match ql_exec htab garbage h ql op with
      | Some (h, ql, _) => ops_ok htab garbage h ql ops (fst (strs_op ss op))
      | None => True
      end
  end.

(** The forms the list commands use are never [defective]: insertions at entries found from the
    head, ranges that start at the head or are counted from the tail. *)
Definition qop_ok (op : ql_op) : Prop :=
  match op with
  | QPush _ w | QPop w => end_ok w
  | QInsert index _ _ => 0 <= index < 2 ^ 63
  | QReplace index _ => srange 64 index
  | QDelRange start count => srange 64 start /\ srange 64 count /\ start <= 0
  end.

Fixpoint qops_ok (ops : list ql_op) (ss : list bytes) : Prop :=
  match ops with
  | [] => True
  | op :: ops => qop_ok op /\ 11 + str_cap (fst (strs_op ss op)) < 2 ^ 32 /\ qops_ok ops (fst (strs_op ss op))
  end.

Section with_memory.
Context (htab : LZF_STATE) (garbage : Z -> bytes).

Lemma new_holds f : holds ∅ (quicklistNew f 0) [].
Proof.
  constructor; try done.
  - constructor; try done. apply NoDup_nil_2.
  - unfold quicklistNew, quicklistSetOptions, quicklistSetCompressDepth, quicklistSetFill. cbn [fill with_compress with_fill].
    by apply swrap_range.
Qed.

Lemma exec_push h ql l s w : holds h ql l -> end_ok w -> 11 + str_cap (fst (strs_op (contents l) (QPush s w))) < 2 ^ 32 ->
  exists h' ql' l', ql_exec htab garbage h ql (QPush s w) = Some (h', ql', None) /\ holds h' ql' l' /\
    contents l' = fst (strs_op (contents l) (QPush s w)).
Proof.
  intros Hh Hw Hcap. cbn [ql_exec strs_op fst] in *. unfold quicklistPush. destruct Hw as [-> | ->].
  - destruct (push_head htab garbage h ql l s Hh Hcap) as (r & h' & ql' & c & new & _ & E & Hh' & Hc). cbv zeta in *.
    change (QUICKLIST_HEAD =? QUICKLIST_HEAD) with true. cbv iota. rewrite E. cbn [mbind option_bind]. eauto 10.
  - destruct (push_tail htab garbage h ql l s Hh Hcap) as (h' & ql' & l' & new & E & Hh' & Hc).
    change (QUICKLIST_TAIL =? QUICKLIST_HEAD) with false. change (QUICKLIST_TAIL =? QUICKLIST_TAIL) with true. cbv iota.
    rewrite E. cbn [mbind option_bind]. eauto 10.
Qed.

Lemma exec_pop h ql l w : holds h ql l -> end_ok w ->
  exists h' ql' l', ql_exec htab garbage h ql (QPop w) = Some (h', ql', snd (strs_op (contents l) (QPop w))) /\ holds h' ql' l' /\
    contents l' = fst (strs_op (contents l) (QPop w)).
Proof.
  intros Hh Hw. cbn [ql_exec strs_op fst snd]. destruct (decide (contents l = [])) as [E|Hne].
  - rewrite (pop_none htab garbage h ql l w Hh E). exists h, ql, l. rewrite E. destruct (w =? QUICKLIST_HEAD); by split_and!.
  - destruct (pop_some htab garbage h ql l w Hh Hne Hw) as (h' & ql' & l' & s & Hs & E & Hh' & Hc). rewrite Hs. cbn. eauto 10.
Qed.

Lemma exec_insert h ql l index s after : holds h ql l -> srange 64 index -> defective garbage h ql (QInsert index s after) = false ->
  11 + str_cap (fst (strs_op (contents l) (QInsert index s after))) < 2 ^ 32 ->
  exists h' ql' l', ql_exec htab garbage h ql (QInsert index s after) = Some (h', ql', None) /\ holds h' ql' l' /\
    contents l' = fst (strs_op (contents l) (QInsert index s after)).
Proof.
  intros Hh Hi Hdef Hcap. cbn [ql_exec strs_op fst defective] in *.
  destruct (list_pos (contents l) index) as [k|] eqn:Ep.
  - destruct (index_found garbage h ql l index k Hh Hi Ep) as (l1 & a & b & ss & l2 & z & es & i & s0 & Hat & _ & E).
    rewrite E in *. cbn [mbind option_bind offset node] in *.
    assert (Hins : exists h' ql' l', _quicklistInsert htab garbage h ql
        (QEntry (Some a) (Some (zl_at es i)) (Some (get_val (val_of s0))) (entry_offset index ss i)) s after = Some (h', ql') /\
      holds h' ql' l' /\ contents l' = ins (if after then S k else k) s (contents l)).
    { unfold entry_offset in *. destruct (Z.ltb_spec index 0).
      - pose proof (e_lt _ _ _ _ _ _ _ _ _ _ Hat). rewrite (proj2 (Z.ltb_lt _ 0)) in Hdef by (unfold zlen; lia). cbn [andb] in Hdef.
        eapply insert_room; try done; [unfold zlen; lia|]. intros E'. by rewrite E' in Hdef.
      - by eapply insert_entry. }
    destruct Hins as (h' & ql' & l' & E' & Hh' & Hc). exists h', ql', l'. split_and!; [|done..].
    unfold quicklistInsertAfter, quicklistInsertBefore. destruct after; rewrite E'; done.
  - rewrite (index_missing garbage h ql l index Hh Hi Ep). cbn [mbind option_bind]. eauto 10.
Qed.

Lemma exec_replace h ql l index s : holds h ql l -> srange 64 index -> 11 + str_cap (fst (strs_op (contents l) (QReplace index s))) < 2 ^ 32 ->
  exists h' ql' l', ql_exec htab garbage h ql (QReplace index s) = Some (h', ql', None) /\ holds h' ql' l' /\
    contents l' = fst (strs_op (contents l) (QReplace index s)).
Proof.
  intros Hh Hi Hcap. cbn [ql_exec strs_op fst] in *. destruct (list_pos (contents l) index) as [k|] eqn:Ep.
  - destruct (replace_at htab garbage h ql l index k s Hh Hi Ep Hcap) as (h' & l' & -> & Hh' & Hc). cbn [mbind option_bind]. eauto 10.
  - unfold quicklistReplaceAtIndex. rewrite (index_missing garbage h ql l index Hh Hi Ep). cbn [mbind option_bind]. eauto 10.
Qed.

Lemma exec_delrange h ql l start n : holds h ql l -> srange 64 start -> srange 64 n ->
  defective garbage h ql (QDelRange start n) = false ->
  exists h' ql' l', ql_exec htab garbage h ql (QDelRange start n) = Some (h', ql', None) /\ holds h' ql' l' /\
    contents l' = fst (strs_op (contents l) (QDelRange start n)).
Proof.
  intros Hh Hst Hn Hdef. cbn [ql_exec strs_op fst defective] in *. destruct (Z.leb_spec n 0) as [H0|H0].
  - unfold quicklistDelRange. rewrite (proj2 (Z.leb_le n 0)) by lia. cbn [mbind option_bind]. eauto 10.
  - unfold srange in Hn. destruct (list_pos (contents l) start) as [k|] eqn:Ep.
    + destruct (index_found garbage h ql l start k Hh Hst Ep) as (l1 & a & b & ss & l2 & z & es & i & s0 & [El Ek Hi _ _] & _ & E).
      assert (Hks : 0 <= start -> Z.of_nat k = start).
      { unfold list_pos in Ep. destruct (Z.ltb_spec start 0); [lia|]. destruct (_ && _); [|done]. injection Ep as <-. lia. }
      destruct (delrange_deletes htab garbage h ql l start n k Hh Hst ltac:(lia) Ep) as (h' & ql' & l' & -> & Hh' & Hc).
      { intros m1 c m2 Em Hk e. assert (Hj : exists j, k = (length (contents m1) + j)%nat /\ (j < length (c_strs c))%nat)
          by (exists (k - length (contents m1))%nat; lia). destruct Hj as (j & Ej & Hj). clear Hk.
        rewrite El in Em. destruct (split_unique _ _ _ _ _ _ _ _ Em (eq_trans (eq_sym Ek) Ej) Hi Hj) as (<- & <- & <- & <-).
        cbn [c_strs] in *. rewrite E in Hdef. cbn [node offset] in Hdef. rewrite El in Hh.
        destruct (cell_at _ _ _ _ _ Hh) as (Ha & Hok & _). cbn [c_loc c_body c_strs] in *.
        unfold deref in Hdef. cbn [mbind option_bind] in Hdef. rewrite Ha in Hdef. change (count (link _ b _)) with (count b) in Hdef.
        rewrite (n_count _ _ Hok), (h_count _ _ _ Hh) in Hdef. unfold e, entry_offset, range_extent in *. rewrite El.
        destruct (Z.ltb_spec start 0); [by left|]. right. rewrite <- Hks in Hdef by lia.
        rewrite !andb_false_iff, !Z.ltb_ge in Hdef. unfold zlen in *. lia. }
      cbn [mbind option_bind]. eauto 10.
    + unfold quicklistDelRange. rewrite (proj2 (Z.leb_gt n 0)) by lia.
      rewrite (index_missing garbage h ql l start Hh Hst Ep). cbn [mbind option_bind negb]. eauto 10.
Qed.

Lemma exec_spec h ql l op : holds h ql l -> op_args_ok op -> defective garbage h ql op = false ->
  11 + str_cap (fst (strs_op (contents l) op)) < 2 ^ 32 ->
  exists h' ql' l', ql_exec htab garbage h ql op = Some (h', ql', snd (strs_op (contents l) op)) /\ holds h' ql' l' /\
    contents l' = fst (strs_op (contents l) op).
Proof.
  intros Hh Hop Hdef Hcap. destruct op; cbn [op_args_ok] in Hop.
  - by apply exec_push.
  - by apply exec_pop.
  - by apply exec_insert.
  - by apply exec_replace.
  - apply exec_delrange; tauto.
Qed.

Lemma run_spec ops : forall h ql l, holds h ql l -> ops_ok htab garbage h ql ops (contents l) ->
  exists h' ql' l', ql_run htab garbage h ql ops = Some (h', ql', snd (strs_run (contents l) ops)) /\ holds h' ql' l' /\
    contents l' = fst (strs_run (contents l) ops).
Proof.
  induction ops as [|op ops IH]; intros h ql l Hh Hok; [by exists h, ql, l|]. destruct Hok as (Hop & Hcap & Hdef & Hok).
  destruct (exec_spec h ql l op Hh Hop Hdef Hcap) as (h1 & ql1 & l1 & E & Hh1 & Hc). cbn [ql_run strs_run]. rewrite E in *. cbn [mbind option_bind].
  destruct (strs_op (contents l) op) as [ss out]. cbn [fst snd] in *. rewrite <- Hc in Hok.
  destruct (IH h1 ql1 l1 Hh1 Hok) as (h2 & ql2 & l2 & -> & Hh2 & Hc2). cbn [mbind option_bind]. exists h2, ql2, l2.
  rewrite Hc in *. destruct (strs_run ss ops). by split_and!.
Qed.

(** The forms of the list commands are covered whatever the nodes are. *)
Lemma qop_fine h ql l op : holds h ql l -> qop_ok op -> op_args_ok op /\ defective garbage h ql op = false.
Proof.
  intros Hh. destruct op as [s w|w|index s after|index s|start n]; cbn [qop_ok op_args_ok defective]; try done.
  - intros Hi. assert (Hi' : srange 64 index) by (unfold srange; lia). split; [done|]. destruct (list_pos (contents l) index) as [k|] eqn:Ep.
    + destruct (index_found garbage h ql l index k Hh Hi' Ep) as (l1 & a & b & ss & l2 & z & es & i & s0 & _ & _ & ->). cbn [offset].
      unfold entry_offset. rewrite (proj2 (Z.ltb_ge index 0)), (proj2 (Z.ltb_ge _ 0)) by lia. done.
    + by rewrite (index_missing garbage h ql l index Hh Hi' Ep).
  - intros (Hs & Hn & Hle). split; [done|]. destruct (list_pos (contents l) start) as [k|] eqn:Ep.
    + destruct (index_found garbage h ql l start k Hh Hs Ep) as (l1 & a & b & ss & l2 & z & es & i & s0 & [_ Ek Hi _ _] & _ & ->).
      cbn [offset node]. destruct (deref h (Some a)); [|done]. rewrite (proj2 (Z.ltb_ge 0 _)); [done|].
      unfold entry_offset. destruct (Z.ltb_spec start 0); [unfold zlen; lia|].
      unfold list_pos in Ep. rewrite (proj2 (Z.ltb_ge start 0)) in Ep by lia. destruct (_ && _); [|done]. injection Ep as <-. lia.
    + by rewrite (index_missing garbage h ql l start Hh Hs Ep).
Qed.

Lemma qops_fine ops : forall h ql l, holds h ql l -> qops_ok ops (contents l) -> ops_ok htab garbage h ql ops (contents l).
Proof.
  induction ops as [|op ops IH]; intros h ql l Hh Hok; [done|]. destruct Hok as (Hop & Hcap & Hok).
  destruct (qop_fine h ql l op Hh Hop) as [Hargs Hdef]. cbn [ops_ok]. split_and!; [done..|].
  destruct (exec_spec h ql l op Hh Hargs Hdef Hcap) as (h1 & ql1 & l1 & E & Hh1 & Hc). rewrite E, <- Hc. apply IH; [done|]. by rewrite Hc.
Qed.
End with_memory.

(** * Compressed nodes *)

Lemma zsub_prefix (l k : bytes) n : n = zlen l -> zsub (l ++ k) 0 n = Some l.
Proof.
  intros ->. unfold zsub. rewrite zlen_app. pose proof (zlen_nonneg l). pose proof (zlen_nonneg k).
  replace (_ && _) with true by (symmetry; rewrite !andb_true_iff; split_and!; zb; lia).
  change (drop (Z.to_nat 0) ?x) with x. by rewrite to_nat_zlen, take_app_length.
Qed.

Lemma zsub_suffix (l k : bytes) m n : m = zlen l -> n = zlen k -> zsub (l ++ k) m n = Some k.
Proof.
  intros -> ->. unfold zsub. rewrite zlen_app. pose proof (zlen_nonneg l). pose proof (zlen_nonneg k).
  replace (_ && _) with true by (symmetry; rewrite !andb_true_iff; split_and!; zb; lia).
  by rewrite !to_nat_zlen, drop_app_length, firstn_all.
Qed.

(** What LZF returns, as bytes that decompress to the data in a block of its size. *)
Lemma compress_data data htab out dest : 2 <= zlen data < 2 ^ 32 -> htab_ok htab -> zlen dest = zlen data ->
  exists n out', lzf_compress data htab out = Some (n, out') /\
    (n = 0 \/ exists comp tail, out' = comp ++ tail /\ n = zlen comp /\ n <= zlen out /\ lzf_decompress comp dest = Some (zlen data, data)).
Proof.
  intros [Hd Hs] Hh Hl. destruct (lzf_compress_spec data Hs htab out Hd Hh) as (n & out' & E & Hlen & H).
  exists n, out'. split; [done|]. destruct H as [->|(toks & tail & -> & -> & Hok & Hexp)]; [by left|].
  destruct (decide (zlen (flat_map enc_tok toks) = 0)) as [E0|E0]; [by left|]. right. exists (flat_map enc_tok toks), tail. split; [done|]. split; [done|]. split; [zlia|].
  destruct (decompress_tokens toks dest) as (rest & E2 & Hr); [by intros Hnil; rewrite Hnil in E0|done|rewrite Hexp; lia|].
  rewrite Hexp in *. rewrite E2. rewrite zlen_app in Hr. by rewrite (zlen_0_nil rest ltac:(lia)), app_nil_r.
Qed.

(** * Properties *)

(** C5. Quicklists are lists of strings.  Starting from a new quicklist of any fill factor, without
    compression, every sequence of pushes and pops at both ends, insertions before and after an
    entry, replacements and deletions of ranges, of indexes counted from either end, runs to its
    end as long as no call is [defective] in its state and the strings stay below the 4 GB of a
    ziplist: nodes are created, filled, split, merged and dropped, the links and all counters stay
    right, the strings are those the same operations give on a list, what is popped is what the list
    gives, and releasing the quicklist frees every node.  A call is [defective] when it inserts at
    an entry found from the tail in a node that is full, or deletes a range that starts inside a
    node, is shorter than it and goes on into the next; insertions at indexes from the head and
    ranges that start at the head or are counted from the tail never are. *)
Theorem quicklist_refines_list htab garbage f ops :
  (qops_ok ops [] -> ops_ok htab garbage ∅ (quicklistNew f 0) ops []) /\
  (ops_ok htab garbage ∅ (quicklistNew f 0) ops [] ->
   exists h ql, ql_run htab garbage ∅ (quicklistNew f 0) ops = Some (h, ql, snd (strs_run [] ops)) /\
     quicklist_of h ql (fst (strs_run [] ops)) /\
     quicklistCount ql = zlen (fst (strs_run [] ops)) /\
     quicklistRelease h ql = Some ∅).
Proof.
  split; [by apply (qops_fine _ _ ops ∅ (quicklistNew f 0) []), new_holds|]. intros Hok.
  destruct (run_spec htab garbage ops ∅ (quicklistNew f 0) [] (new_holds f) Hok) as (h & ql & l & E & Hh & Hc).
  exists h, ql. split; [exact E|]. split; [by exists l|]. split; [|by apply (release_all h ql l)].
  unfold quicklistCount. by rewrite (h_count _ _ _ Hh), Hc.
Qed.

Definition no_memory (n : Z) : bytes := replicate (Z.to_nat n) 0.

(** Three values in a full node, an insertion that splits it, a merge, an insertion at an entry found
    from the tail, and deletions, one of a range in the middle. *)
Definition sample_ops : list ql_op :=
  [QPush [97] QUICKLIST_TAIL; QPush [98] QUICKLIST_TAIL; QPush [49; 50] QUICKLIST_TAIL; QPush [100] QUICKLIST_HEAD;
   QInsert 2 [120] true; QInsert 0 [121] false; QReplace (-1) [122]; QPop QUICKLIST_TAIL; QInsert (-1) [119] true; QDelRange 3 1;
   QDelRange (-2) 1; QPop QUICKLIST_HEAD].

Lemma sample_ops_ok : ops_ok (fun _ => 0) no_memory ∅ (quicklistNew 3 0) sample_ops [].
Proof.
  repeat (split; [cbn; unfold end_ok, srange; first [by left | by right | lia]|split; [by vm_compute|split; [by vm_compute|]]];
    match goal with |- match ?x with _ => _ end => let y := eval vm_compute in x in change x with y end; cbv iota).
  done.
Qed.

Lemma quicklist_refines_list_witness :
  exists h ql, ql_run (fun _ => 0) no_memory ∅ (quicklistNew 3 0) sample_ops =
      Some (h, ql, [None; None; None; None; None; None; None; Some (inl [122]); None; None; None; Some (inl [121])]) /\
    quicklist_of h ql [[100]; [97]; [119]] /\ quicklistRelease h ql = Some ∅.
Proof.
  destruct (quicklist_refines_list (fun _ => 0) no_memory 3 sample_ops) as [_ H].
  destruct (H sample_ops_ok) as (h & ql & E & Hq & _ & Hr).
  exists h, ql. split; [exact E|]. split; [exact Hq|exact Hr].
Defined.

(** The count and the strings, read from the head, after a sequence of calls. *)
Definition strings_after (f : Z) (ops : list ql_op) : option (Z * option (list zlval)) :=
  '(h, ql, _) ← ql_run (fun _ => 0) no_memory ∅ (quicklistNew f 0) ops;
  it ← quicklistGetIterator ql AL_START_HEAD;
  Some (quicklistCount ql, iterate (fun _ => 0) no_memory (S (Z.to_nat (quicklistCount ql))) h ql (Some it)).

(** Inserting at entries found from the tail of a full node: the value goes to the wrong end, or
    elements are lost while the count goes up. *)
Lemma insert_from_tail_wrong : let ops := [QPush [97] QUICKLIST_TAIL; QPush [98] QUICKLIST_TAIL; QPush [99] QUICKLIST_TAIL] in
  strings_after 3 (ops ++ [QInsert (-1) [120] true]) = Some (4, Some [ZStr [120]; ZStr [97]; ZStr [98]; ZStr [99]]) /\
  strings_after 3 (ops ++ [QInsert (-2) [120] true]) = Some (4, Some [ZStr [97]; ZStr [98]; ZStr [120]]) /\
  strings_after 3 (ops ++ [QInsert (-2) [120] false]) = Some (4, Some [ZStr [97]; ZStr [120]]).
Proof. split_and!; by vm_compute. Qed.

(** C21. Reading a quicklist that is not compressed and holds less than 4 GB.  Its length is the
    number of strings; an index, counted from either end, finds the string at that position and no other, or reports that there is none; an iterator
    in either direction goes through all strings in order, across the nodes, and then ends; and the
    value read, a string or an integer, is the string that was stored. *)
Theorem quicklist_reads_correct htab garbage h ql ss : quicklist_of h ql ss ->
  quicklistCount ql = zlen ss /\
  (forall idx, srange 64 idx ->
     match list_pos ss idx with
     | Some k => exists s entry, ss !! k = Some s /\ quicklistIndex garbage h ql idx = Some (h, true, entry) /\
                   value entry = Some (read_value s)
     | None => quicklistIndex garbage h ql idx = Some (h, false, initEntry)
     end) /\
  (forall dir, dir_ok dir -> exists it, quicklistGetIterator ql dir = Some it /\
     iterate htab garbage (S (length ss)) h ql (Some it) =
       Some (map read_value (if dir =? AL_START_HEAD then ss else rev ss))) /\
  (forall s, value_string (read_value s) = Some s).
Proof.
  intros (l & Hh & <-). split; [apply Hh|]. split; [|split; [intros dir Hdir; by apply iterate_all|apply value_string_val]].
  intros idx Hidx. destruct (list_pos (contents l) idx) as [k|] eqn:Ep; [|by eapply index_missing].
  destruct (index_found garbage h ql l idx k Hh Hidx Ep) as (l1 & a & b & ss & l2 & z & es & i & s & _ & Hs & E).
  eexists s, _. split; [done|]. split; [exact E|done].
Qed.

Lemma quicklist_reads_correct_witness :
  exists h ql, quicklist_of h ql [[100]; [55]; [120]] /\
    (exists s entry, [[100]; [55]; [120]] !! 1%nat = Some s /\ quicklistIndex no_memory h ql (-2) = Some (h, true, entry) /\
       value entry = Some (ZInt 7)) /\
    exists it, quicklistGetIterator ql AL_START_TAIL = Some it /\
      iterate (fun _ => 0) no_memory 4 h ql (Some it) = Some [ZStr [120]; ZInt 7; ZStr [100]].
Proof.
  set (ops := [QPush [100] QUICKLIST_TAIL; QPush [55] QUICKLIST_TAIL; QPush [120] QUICKLIST_TAIL]).
  destruct (run_spec (fun _ => 0) no_memory ops ∅ (quicklistNew 2 0) [] (new_holds 2)) as (h & ql & l & _ & Hh & Hc).
  { apply qops_fine; [apply new_holds|]. repeat (split; [by right|split; [by vm_compute|]]). done. }
  assert (Hq : quicklist_of h ql [[100]; [55]; [120]]) by (exists l; split; [exact Hh|exact Hc]).
  exists h, ql. destruct (quicklist_reads_correct (fun _ => 0) no_memory h ql _ Hq) as (_ & Hi & Hit & _).
  split; [exact Hq|]. split.
  - destruct (Hi (-2) ltac:(by vm_compute)) as (s & en & Hs & E & Hv). exists s, en. split; [exact Hs|]. split; [exact E|].
    vm_compute in Hs. injection Hs as <-. exact Hv.
  - destruct (Hit AL_START_TAIL ltac:(by right)) as (it & E & Hr). exists it. split; [exact E|exact Hr].
Defined.

(** C20. Deleting a range.  [quicklistDelRange] deletes the elements asked for, as far as they exist,
    when the range is counted from the tail, starts at the first element of a node, ends in the node
    it starts in, or is at least as long as that node.  In the remaining case, a range shorter than
    its first node that starts inside it and goes on into the next, only the elements of the first
    node go, but the counters are lowered by the length [n] of the whole range: the count of the
    node becomes its old number of elements less [n] and the count of the list its old length less
    [n], and both are smaller than the numbers of elements now there. *)
Theorem quicklist_delrange_correct htab garbage h ql l : holds h ql l ->
  (forall start n k, srange 64 start -> 0 < n < 2 ^ 63 -> list_pos (contents l) start = Some k ->
     (forall l1 c l2, l = l1 ++ c :: l2 -> (length (contents l1) <= k < length (contents l1) + length (c_strs c))%nat ->
        let i := Z.of_nat k - zlen (contents l1) in let e := range_extent (zlen (contents l)) k n in
        start < 0 \/ i = 0 \/ i + e <= zlen (c_strs c) \/ zlen (c_strs c) <= e) ->
     exists h' ql', quicklistDelRange htab garbage h ql start n = Some (h', ql', true) /\
       quicklist_of h' ql' (take k (contents l) ++ drop (k + Z.to_nat (range_extent (zlen (contents l)) k n)) (contents l))) /\
  (forall l1 a b ss l2 i n, l = l1 ++ Cell a b ss :: l2 -> (i < length ss)%nat -> 0 < n < zlen ss -> zlen ss < Z.of_nat i + n ->
     let k := (length (contents l1) + i)%nat in Z.of_nat k + n <= zlen (contents l) ->
     exists h' ql' b', quicklistDelRange htab garbage h ql (Z.of_nat k) n = Some (h', ql', true) /\
       wf ∅ h' ql' (l1 ++ Cell a b' (take i ss) :: l2) /\ block_ok b' (take i ss) /\
       count b' = zlen ss - n /\ ql_count ql' = zlen (contents l) - n /\
       count b' < zlen (take i ss) /\ ql_count ql' < zlen (contents (l1 ++ Cell a b' (take i ss) :: l2))).
Proof.
  intros Hh. split.
  - intros start n k Hst Hn Hp Hgood.
    destruct (delrange_deletes htab garbage h ql l start n k Hh Hst Hn Hp Hgood) as (h' & ql' & l' & E & Hh' & Hc).
    exists h', ql'. split; [exact E|]. by exists l'.
  - intros l1 a b ss l2 i n -> Hi Hn Hin k Hk.
    destruct (delrange_short htab garbage h ql l1 a b ss l2 i n Hh Hi Hn Hin Hk) as (h' & ql' & b' & E & Hw & Hb & Hcnt & Hq).
    exists h', ql', b'. split_and!; try done; rewrite ?Hcnt, ?Hq, ?contents_mid, ?zlen_app; cbn [c_strs];
      unfold zlen in *; rewrite length_take; lia.
Qed.

Lemma strings_block ss : 11 + str_cap ss < 2 ^ 32 -> exists z, ziplist_of z ss.
Proof.
  induction ss as [|s ss IH] using rev_ind; intros Hcap; [destruct new_rep as (z & _ & Hz); by exists z|].
  rewrite str_cap_app, str_cap_cons in Hcap. pose proof (zlen_nonneg s). change (str_cap []) with 0 in Hcap.
  destruct IH as [z Hz]; [lia|]. destruct (push_spec z ss s 1 Hz) as (z' & _ & Hz'); [|by exists z'].
  unfold list_op. change (1 =? ZIPLIST_HEAD) with false. cbv iota. rewrite str_cap_app, str_cap_cons. change (str_cap []) with 0. lia.
Qed.

(** Two nodes of three and two values; the last value of the first and the first of the second are deleted. *)
Lemma quicklist_delrange_correct_witness :
  exists h ql h' ql' b', quicklist_of h ql [[97]; [98]; [99]; [100]; [101]] /\
    quicklistDelRange (fun _ => 0) no_memory h ql 2 2 = Some (h', ql', true) /\
    block_ok b' [[97]; [98]] /\ count b' = 1 /\ ql_count ql' = 3.
Proof.
  destruct (strings_block [[97]; [98]; [99]]) as [za Ha]; [by vm_compute|]. destruct (strings_block [[100]; [101]]) as [zb Hb]; [by vm_compute|].
  set (ba := new_body za true 3). set (bb := new_body zb true 2).
  set (l := [Cell 1 ba [[97]; [98]; [99]]; Cell 2 bb [[100]; [101]]]).
  set (h := {[1%positive := link None ba (Some 2%positive); 2%positive := link (Some 1%positive) bb None]} : heap).
  set (ql := Quicklist (Some 1%positive) (Some 2%positive) 5 2 3 0).
  assert (Hh : holds h ql l).
  { constructor; [constructor| | | |]; try done.
    - apply (bool_decide_unpack _). by vm_compute.
    - apply Forall_cons_iff. split; [|apply Forall_cons_iff; split; [|done]]; (split; [|done]); (constructor; [done| |done|done]).
      + by exists za.
      + by exists zb. }
  destruct (quicklist_delrange_correct (fun _ => 0) no_memory h ql l Hh) as [_ Hshort].
  destruct (Hshort [] 1%positive ba _ [Cell 2 bb [[100]; [101]]] 2%nat 2 eq_refl) as (h' & ql' & b' & E & _ & Hblk & Hc & Hq & _);
    [cbn; lia|by vm_compute|by vm_compute|by vm_compute|].
  exists h, ql, h', ql', b'. split; [by exists l|]. split; [exact E|]. split; [exact Hblk|]. split; [exact Hc|exact Hq].
Defined.

(** C22. Compressing a node.  Whatever the uninitialised hash table holds, [__quicklistCompressNode]
    of a node either leaves it alone or replaces its ziplist by a block that is at least five bytes
    shorter, size field included, from which [__quicklistDecompressNode] restores exactly the ziplist
    that was there; the links, the size and the count of the node are those of before throughout. *)
Theorem quicklist_compress_roundtrip htab garbage h a n z : htab_ok htab -> (forall k, 0 <= k -> zlen (garbage k) = k) ->
  h !! a = Some n -> encoding n = QUICKLIST_NODE_ENCODING_RAW -> zl n = Some z -> sz n = zlen z -> zlen z < 2 ^ 32 ->
  exists h' c, __quicklistCompressNode htab garbage h a = Some (h', c) /\
    if (c : bool) then
      exists block, h' = <[a := with_recompress 0 (with_encoding QUICKLIST_NODE_ENCODING_LZF (with_zl block n))]> h /\
        zlen block + 5 <= zlen z /\
        __quicklistDecompressNode garbage h' a = Some (<[a := with_recompress 0 n]> h, true) /\
        quicklistDecompressNodeForUse garbage h' (Some a) = Some (<[a := with_recompress 1 n]> h)
    else h' = h.
Proof.
  intros Hh Hg Ha He Hz Hs Hl. unfold __quicklistCompressNode. rewrite Ha. cbn [mbind option_bind]. rewrite Hs.
  unfold MIN_COMPRESS_BYTES. destruct (Z.ltb_spec (zlen z) 48); [by exists h, false|]. rewrite Hz. cbn [mbind option_bind].
  rewrite zsub_all. cbn [mbind option_bind].
  destruct (compress_data z htab (garbage (zlen z)) (garbage (zlen z)) ltac:(lia) Hh) as (m & out & -> & Hm); [by apply Hg; lia|].
  cbn [mbind option_bind]. destruct (Z.eqb_spec m 0) as [->|Hm0]; cbn [orb]; [by exists h, false|].
  destruct Hm as [|(comp & tail & -> & Em & Hmo & Hd)]; [done|]. rewrite Hg in Hmo by lia. unfold MIN_COMPRESS_IMPROVE.
  destruct (Z.leb_spec (zlen z) (m + 8)); [by exists h, false|]. rewrite (zsub_prefix comp tail m Em). cbn [mbind option_bind].
  set (block := le_bytes 4 m ++ comp). assert (Hb4 : zlen (le_bytes 4 m) = 4) by (by rewrite zlen_le_bytes).
  pose proof (zlen_nonneg comp). eexists _, true. split; [reflexivity|]. exists block.
  split; [done|]. split; [unfold block; rewrite zlen_app; lia|].
  set (n' := with_recompress 0 _). set (h' := <[a := n']> h).
  assert (Hdec : __quicklistDecompressNode garbage h' a = Some (<[a := with_recompress 0 n]> h, true)).
  { unfold __quicklistDecompressNode, quicklistGetLzf, h'. rewrite !lookup_insert_eq. cbn [mbind option_bind].
    change (zl n') with (Some block). cbn [mbind option_bind]. unfold block.
    rewrite (zsub_prefix _ _ 4) by done. cbn [mbind option_bind]. rewrite le_value_bytes.
    change (8 * Z.of_nat 4) with 32. rewrite Z.mod_small by lia. rewrite (zsub_suffix _ _ 4 m) by done. cbn [mbind option_bind].
    change (sz n') with (sz n). rewrite Hs, Hd. cbn [mbind option_bind]. rewrite (proj2 (Z.eqb_neq (zlen z) 0)) by lia.
    rewrite insert_insert_eq. do 2 f_equal. f_equal. destruct n. cbn in *. by subst. }
  split; [exact Hdec|]. unfold quicklistDecompressNodeForUse, h'. rewrite lookup_insert_eq. cbn [mbind option_bind].
  change (encoding n' =? QUICKLIST_NODE_ENCODING_LZF) with true. cbv iota. fold h'. rewrite Hdec. cbn [mbind option_bind].
  unfold assign. cbn [mbind option_bind]. rewrite lookup_insert_eq. cbn [mbind option_bind]. by rewrite insert_insert_eq.
Qed.

(** A ziplist of one long string of equal characters. *)
Definition repetitive : bytes := replicate 60 97.

Lemma quicklist_compress_roundtrip_witness :
  exists z n block, ziplistNew ≫= (fun z0 => ziplistPush z0 repetitive ZIPLIST_TAIL) = Some z /\ n = new_body z true 1 /\
    __quicklistCompressNode (fun _ => 5) no_memory {[1%positive := n]} 1 =
      Some (<[1%positive := with_encoding QUICKLIST_NODE_ENCODING_LZF (with_zl block n)]> {[1%positive := n]}, true) /\
    __quicklistDecompressNode no_memory (<[1%positive := with_encoding QUICKLIST_NODE_ENCODING_LZF (with_zl block n)]> {[1%positive := n]}) 1 =
      Some (<[1%positive := n]> {[1%positive := n]}, true).
Proof.
  destruct (ziplistNew ≫= (fun z0 => ziplistPush z0 repetitive ZIPLIST_TAIL)) as [z|] eqn:E; [|vm_compute in E; discriminate].
  assert (Hl : zlen z = 73) by (vm_compute in E; injection E as <-; reflexivity).
  destruct (quicklist_compress_roundtrip (fun _ => 5) no_memory {[1%positive := new_body z true 1]} 1 (new_body z true 1) z) as (h' & c & Ec & H).
  - intros i. by split.
  - intros k Hk. unfold no_memory. rewrite zlen_replicate. lia.
  - reflexivity.
  - reflexivity.
  - reflexivity.
  - reflexivity.
  - rewrite Hl. reflexivity.
  - assert (Hc : c = true) by (vm_compute in E; injection E as <-; vm_compute in Ec; congruence). subst c.
    destruct H as (block & -> & _ & Hd & _). exists z, (new_body z true 1), block. split; [reflexivity|]. split; [reflexivity|]. split; [exact Ec|exact Hd].
Defined.

(** The order of [RPUSH], [LTRIM], [LSET] and [RPUSH] that loses a list: two values per node, depth 1. *)
Definition trim_ops : list ql_op :=
  [QPush repetitive QUICKLIST_TAIL; QPush repetitive QUICKLIST_TAIL; QPush [120] QUICKLIST_TAIL; QPush repetitive QUICKLIST_TAIL;
   QPush repetitive QUICKLIST_TAIL; QPush repetitive QUICKLIST_TAIL; QDelRange (-3) 3; QReplace (-1) repetitive].

(** A compressed tail, on one sequence of calls.  With compression at depth 1 the operations that
    are correct without compression are not.  Cutting a compressed interior node down to less than 48 bytes leaves it
    marked for compression, deleting the nodes after it makes it the tail, and replacing its last
    element compresses it; the tail, which must never be compressed, is then an LZF block, and the
    next push at the tail, which takes that block for a ziplist, reads outside it. *)
Theorem quicklist_compressed_tail : exists h ql n,
  ql_run (fun _ => 0) no_memory ∅ (quicklistNew 2 1) trim_ops = Some (h, ql, replicate 8 None) /\
  qops_ok trim_ops [] /\
  deref h (tail ql) = Some n /\ encoding n = QUICKLIST_NODE_ENCODING_LZF /\
  quicklistPushTail (fun _ => 0) no_memory h ql [97] = None.
Proof.
  destruct (ql_run (fun _ => 0) no_memory ∅ (quicklistNew 2 1) trim_ops) as [[[h ql] outs]|] eqn:E; [|vm_compute in E; discriminate].
  assert (Ho : outs = replicate 8 None /\ exists n, deref h (tail ql) = Some n /\ encoding n = QUICKLIST_NODE_ENCODING_LZF /\
    quicklistPushTail (fun _ => 0) no_memory h ql [97] = None).
  { vm_compute in E. injection E as <- <- <-. split; [done|]. eexists. split; [vm_compute; reflexivity|]. split; by vm_compute. }
  destruct Ho as [-> (n & Hn & He & Hp)]. exists h, ql, n.
  split; [reflexivity|]. clear E. split; [|exact (conj Hn (conj He Hp))]. clear Hn He Hp.
  repeat (split; [cbn; unfold end_ok, srange; first [by left | by right | lia | (split_and!; lia)]|split; [by vm_compute|]]). done.
Qed.
