(* ===== verification/Hll.v ===== *)
(** HyperLogLogs (hyperloglog.c): the registers of a cardinality estimator in an sds string.

    The string starts with a header of 16 bytes ([magic], [encoding], three bytes, the cached
    cardinality) and goes on with 16384 registers, either packed six bits each (dense) or
    run-length encoded with the opcodes ZERO, XZERO and VAL (sparse).  The string is the
    allocation of Sds, so that room, length field and terminator are those of the code; a pointer
    into it is an offset, and an access outside it is [None].  [int] and [long] variables wrap at
    their width.  The estimate computed from the histogram of the registers, in floating point at
    the end of [hllCount], is a parameter of the model, as is [server.hll_sparse_max_bytes].

    [robj] is a database value; the commands work on the values of a database without expiry and
    return the reply. *)

From Stdlib Require Import String.
From stdpp Require Import gmap.
From S2P Require Import Prelude Util Sds.
#[local] Open Scope list_scope.
#[local] Open Scope Z_scope.

Definition C_OK : Z := 0.
Definition C_ERR : Z := -1.

(** * The header *)

Definition HLL_P : Z := 14.
Definition HLL_Q : Z := 64 - HLL_P.
Definition HLL_REGISTERS : Z := Z.shiftl 1 HLL_P.
Definition HLL_P_MASK : Z := HLL_REGISTERS - 1.
Definition HLL_BITS : Z := 6.
Definition HLL_REGISTER_MAX : Z := Z.shiftl 1 HLL_BITS - 1.
Definition HLL_HDR_SIZE : Z := 16.
Definition HLL_DENSE_SIZE : Z := HLL_HDR_SIZE + (HLL_REGISTERS * HLL_BITS + 7) / 8.
Definition HLL_DENSE : Z := 0.
Definition HLL_SPARSE : Z := 1.
Definition HLL_MAX_ENCODING : Z := 1.

(** [p[i]] and an assignment [p[i] = f(p[i])] to a byte. *)
Definition rd (s : sds) (i : Z) : option Z := zget (sh s) (off s + i).
Definition upd (s : sds) (i : Z) (f : Z -> Z) : option sds := b ← rd s i; s_put s i [u8 (f b)].

(** Fields of [struct hllhdr]: [magic] at 0, [encoding] at 4, [card] at 8. *)
Definition hdr_encoding (s : sds) : option Z := rd s 4.
Definition set_encoding (s : sds) (e : Z) : option sds := s_put s 4 [e].
Definition HLL_INVALIDATE_CACHE (s : sds) : option sds := upd s 15 (fun b => Z.lor b (Z.shiftl 1 7)).
Definition HLL_VALID_CACHE (s : sds) : option bool := b ← rd s 15; Some (Z.land b (Z.shiftl 1 7) =? 0).

(** * Registers of the dense representation

    [regs] is the offset of the array [p] of the macros, [w] the width of the signed type in which
    [regnum*HLL_BITS] is computed: 32 for an [int] index, 64 for a [long]. *)

Definition HLL_DENSE_GET_REGISTER (w : Z) (s : sds) (regs regnum : Z) : option Z :=
  let _byte := Z.quot (swrap w (regnum * HLL_BITS)) 8 in
  let _fb := Z.land (swrap w (regnum * HLL_BITS)) 7 in
  let _fb8 := 8 - _fb in
  b0 ← rd s (regs + _byte);
  b1 ← rd s (regs + (_byte + 1));
  Some (Z.land (Z.lor (Z.shiftr b0 _fb) (u64 (Z.shiftl b1 _fb8))) HLL_REGISTER_MAX).

Definition HLL_DENSE_SET_REGISTER (w : Z) (s : sds) (regs regnum val : Z) : option sds :=
  let _byte := Z.quot (swrap w (regnum * HLL_BITS)) 8 in
  let _fb := Z.land (swrap w (regnum * HLL_BITS)) 7 in
  let _fb8 := 8 - _fb in
  let _v := val in
  s ← upd s (regs + _byte) (fun b => Z.land b (Z.lnot (Z.shiftl HLL_REGISTER_MAX _fb)));
  s ← upd s (regs + _byte) (fun b => Z.lor b (Z.shiftl _v _fb));
  s ← upd s (regs + (_byte + 1)) (fun b => Z.land b (Z.lnot (Z.shiftr HLL_REGISTER_MAX _fb8)));
  upd s (regs + (_byte + 1)) (fun b => Z.lor b (Z.shiftr _v _fb8)).

(** * Opcodes of the sparse representation *)

Definition HLL_SPARSE_XZERO_BIT : Z := 64.
Definition HLL_SPARSE_VAL_BIT : Z := 128.
Definition HLL_SPARSE_IS_ZERO (s : sds) (p : Z) : option bool := b ← rd s p; Some (Z.land b 192 =? 0).
Definition HLL_SPARSE_IS_XZERO (s : sds) (p : Z) : option bool :=
  b ← rd s p; Some (Z.land b 192 =? HLL_SPARSE_XZERO_BIT).
Definition HLL_SPARSE_IS_VAL (s : sds) (p : Z) : option bool :=
  b ← rd s p; Some (negb (Z.land b HLL_SPARSE_VAL_BIT =? 0)).
Definition HLL_SPARSE_ZERO_LEN (s : sds) (p : Z) : option Z := b ← rd s p; Some (Z.land b 63 + 1).
Definition HLL_SPARSE_XZERO_LEN (s : sds) (p : Z) : option Z :=
  b ← rd s p; b' ← rd s (p + 1); Some (Z.lor (Z.shiftl (Z.land b 63) 8) b' + 1).
Definition HLL_SPARSE_VAL_VALUE (s : sds) (p : Z) : option Z :=
  b ← rd s p; Some (Z.land (Z.shiftr b 2) 31 + 1).
Definition HLL_SPARSE_VAL_LEN (s : sds) (p : Z) : option Z := b ← rd s p; Some (Z.land b 3 + 1).
Definition HLL_SPARSE_VAL_MAX_VALUE : Z := 32.
Definition HLL_SPARSE_VAL_MAX_LEN : Z := 4.
Definition HLL_SPARSE_ZERO_MAX_LEN : Z := 64.
Definition HLL_SPARSE_XZERO_MAX_LEN : Z := 16384.
(** The bytes the three [_SET] macros store. *)
Definition HLL_SPARSE_VAL_SET (val len : Z) : bytes :=
  [u8 (Z.lor (Z.lor (Z.shiftl (val - 1) 2) (len - 1)) HLL_SPARSE_VAL_BIT)].
Definition HLL_SPARSE_ZERO_SET (len : Z) : bytes := [u8 (len - 1)].
Definition HLL_SPARSE_XZERO_SET (len : Z) : bytes :=
  let _l := len - 1 in [u8 (Z.lor (Z.shiftr _l 8) HLL_SPARSE_XZERO_BIT); u8 (Z.land _l 255)].

(** * Hashing an element *)

Definition murmur_m : Z := 14313749767032793493.
Definition murmur_r : Z := 47.

(** The body of the loop over words of eight bytes, then the [switch] on the bytes left. *)
Definition murmur_word (h k : Z) : Z :=
  let k := u64 (k * murmur_m) in
  let k := Z.lxor k (Z.shiftr k murmur_r) in
  let k := u64 (k * murmur_m) in
  let h := Z.lxor h k in
  u64 (h * murmur_m).

Fixpoint murmur_tail (h : Z) (shift : Z) (data : bytes) : Z :=
  match data with
  | [] => h
  | b :: data => Z.lxor (murmur_tail h (shift + 8) data) (Z.shiftl b shift)
  end.

Fixpoint murmur_loop (h : Z) (data : bytes) : Z :=
  match data with
  | b0 :: b1 :: b2 :: b3 :: b4 :: b5 :: b6 :: b7 :: data =>
      murmur_loop (murmur_word h (le_value [b0; b1; b2; b3; b4; b5; b6; b7])) data
  | [] => h
  | _ => u64 (murmur_tail h 0 data * murmur_m)
  end.

Definition MurmurHash64A (key : bytes) (seed : Z) : Z :=
  let h := Z.lxor seed (u64 (zlen key * murmur_m)) in
  let h := murmur_loop h key in
  let h := Z.lxor h (Z.shiftr h murmur_r) in
  let h := u64 (h * murmur_m) in
  Z.lxor h (Z.shiftr h murmur_r).

(** [while((hash & bit) == 0) { count++; bit <<= 1; }]. *)
Fixpoint pat_loop (fuel : nat) (hash bit count : Z) : option Z :=
  match fuel with
  | O => None
  | S fuel => if Z.land hash bit =? 0 then pat_loop fuel hash (u64 (Z.shiftl bit 1)) (count + 1) else Some count
  end.

(** The register and the length of the pattern of an element. *)
Definition hllPatLen (ele : bytes) : option (Z * Z) :=
  let hash := MurmurHash64A ele 2915580697 in
  let index := Z.land hash HLL_P_MASK in
  let hash := Z.shiftr hash HLL_P in
  let hash := Z.lor hash (Z.shiftl 1 HLL_Q) in
  count ← pat_loop 51 hash 1 1;
  Some (count, index).

(** * The dense representation *)

Definition hllDenseSet (s : sds) (registers index count : Z) : option (sds * Z) :=
  oldcount ← HLL_DENSE_GET_REGISTER 64 s registers index;
  if count >? oldcount then
    s ← HLL_DENSE_SET_REGISTER 64 s registers index count;
    Some (s, 1)
  else Some (s, 0).

Definition hllDenseAdd (s : sds) (registers : Z) (ele : bytes) : option (sds * Z) :=
  '(count, index) ← hllPatLen ele;
  hllDenseSet s registers index (u8 count).

(** [reghisto[r] += n]. *)
Definition hinc (reghisto : list Z) (r n : Z) : option (list Z) :=
  v ← zget reghisto r; zput reghisto r [s32 (v + n)].

Fixpoint hincs (reghisto : list Z) (rs : list Z) : option (list Z) :=
  match rs with
  | [] => Some reghisto
  | r :: rs => h ← hinc reghisto r 1; hincs h rs
  end.

(** The sixteen registers of twelve bytes. *)
Definition unpack16 (r : bytes) : option (list Z) :=
  match r with
  | [r0; r1; r2; r3; r4; r5; r6; r7; r8; r9; r10; r11] =>
      Some [Z.land r0 63;
            Z.land (Z.lor (Z.shiftr r0 6) (Z.shiftl r1 2)) 63;
            Z.land (Z.lor (Z.shiftr r1 4) (Z.shiftl r2 4)) 63;
            Z.land (Z.shiftr r2 2) 63;
            Z.land r3 63;
            Z.land (Z.lor (Z.shiftr r3 6) (Z.shiftl r4 2)) 63;
            Z.land (Z.lor (Z.shiftr r4 4) (Z.shiftl r5 4)) 63;
            Z.land (Z.shiftr r5 2) 63;
            Z.land r6 63;
            Z.land (Z.lor (Z.shiftr r6 6) (Z.shiftl r7 2)) 63;
            Z.land (Z.lor (Z.shiftr r7 4) (Z.shiftl r8 4)) 63;
            Z.land (Z.shiftr r8 2) 63;
            Z.land r9 63;
            Z.land (Z.lor (Z.shiftr r9 6) (Z.shiftl r10 2)) 63;
            Z.land (Z.lor (Z.shiftr r10 4) (Z.shiftl r11 4)) 63;
            Z.land (Z.shiftr r11 2) 63]
  | _ => None
  end.

(** The unrolled loop, [n] iterations left. *)
Fixpoint dense_histo_fast (n : nat) (s : sds) (r : Z) (reghisto : list Z) : option (list Z) :=
  match n with
  | O => Some reghisto
  | S n =>
      b ← s_sub s r 12;
      rs ← unpack16 b;
      h ← hincs reghisto rs;
      dense_histo_fast n s (r + 12) h
  end.

(** The loop of the general case, [n] registers left. *)
Fixpoint dense_histo_slow (n : nat) (s : sds) (registers j : Z) (reghisto : list Z) : option (list Z) :=
  match n with
  | O => Some reghisto
  | S n =>
      reg ← HLL_DENSE_GET_REGISTER 32 s registers j;
      h ← hinc reghisto reg 1;
      dense_histo_slow n s registers (j + 1) h
  end.

Definition hllDenseRegHisto (s : sds) (registers : Z) (reghisto : list Z) : option (list Z) :=
  if (HLL_REGISTERS =? 16384) && (HLL_BITS =? 6) then dense_histo_fast 1024 s registers reghisto
  else dense_histo_slow (Z.to_nat HLL_REGISTERS) s registers 0 reghisto.

(** * The sparse representation *)

(** [while(runlen--) { HLL_DENSE_SET_REGISTER(registers,idx,regval); idx++; }]. *)
Fixpoint set_run (n : nat) (d : sds) (idx regval : Z) : option (sds * Z) :=
  match n with
  | O => Some (d, idx)
  | S n =>
      d ← HLL_DENSE_SET_REGISTER 32 d HLL_HDR_SIZE idx regval;
      set_run n d (s32 (idx + 1)) regval
  end.

(** The loop over the opcodes of [s] up to offset [e], writing registers into [d]. *)
Fixpoint to_dense_loop (fuel : nat) (s : sds) (e : Z) (d : sds) (p idx : Z) : option (sds * Z) :=
  match fuel with
  | O => None
  | S fuel =>
      if p <? e then
        is_zero ← HLL_SPARSE_IS_ZERO s p;
        is_xzero ← HLL_SPARSE_IS_XZERO s p;
        if is_zero : bool then
          runlen ← HLL_SPARSE_ZERO_LEN s p;
          to_dense_loop fuel s e d (p + 1) (s32 (idx + runlen))
        else if is_xzero : bool then
          runlen ← HLL_SPARSE_XZERO_LEN s p;
          to_dense_loop fuel s e d (p + 2) (s32 (idx + runlen))
        else
          runlen ← HLL_SPARSE_VAL_LEN s p;
          regval ← HLL_SPARSE_VAL_VALUE s p;
          if s32 (runlen + idx) >? HLL_REGISTERS then Some (d, idx) else
          '(d, idx) ← set_run (Z.to_nat runlen) d idx regval;
          to_dense_loop fuel s e d (p + 1) idx
      else Some (d, idx)
  end.

(** The string of the object after the call, and the result. *)
Definition hllSparseToDense (o : sds) : option (sds * Z) :=
  enc ← hdr_encoding o;
  if enc =? HLL_DENSE then Some (o, C_OK) else
  e ← sdslen o;
  dense ← sdsnewlen None HLL_DENSE_SIZE;
  oldhdr ← s_sub o 0 HLL_HDR_SIZE;
  dense ← s_put dense 0 oldhdr;
  dense ← set_encoding dense HLL_DENSE;
  '(dense, idx) ← to_dense_loop (S (Z.to_nat e)) o e dense HLL_HDR_SIZE 0;
  if negb (idx =? HLL_REGISTERS) then Some (o, C_ERR) else Some (dense, C_OK).

(** Step 1 of [hllSparseSet]: the opcode that covers [index], as [(prev, p, first, span)]; [p] is
    not before [e] when there is none. *)
Fixpoint locate (fuel : nat) (s : sds) (e index : Z) (prev : option Z) (p first span : Z)
    : option (option Z * Z * Z * Z) :=
  match fuel with
  | O => None
  | S fuel =>
      if p <? e then
        is_zero ← HLL_SPARSE_IS_ZERO s p;
        is_val ← HLL_SPARSE_IS_VAL s p;
        '(span, oplen) ← (if is_zero : bool then l ← HLL_SPARSE_ZERO_LEN s p; Some (l, 1)
                          else if is_val : bool then l ← HLL_SPARSE_VAL_LEN s p; Some (l, 1)
                          else l ← HLL_SPARSE_XZERO_LEN s p; Some (l, 2));
        if index <=? first + span - 1 then Some (prev, p, first, span)
        else locate fuel s e index (Some p) (p + oplen) (first + span) span
      else Some (prev, p, first, span)
  end.

(** A run of [len] zeros in [seq]. *)
Definition zero_run (len : Z) : bytes :=
  if len >? HLL_SPARSE_ZERO_MAX_LEN then HLL_SPARSE_XZERO_SET len else HLL_SPARSE_ZERO_SET len.

(** The sequence that replaces an opcode for zeros, and one for a run of [curval]. *)
Definition split_zeros (first last index count : Z) : bytes :=
  (if negb (index =? first) then zero_run (index - first) else []) ++
  HLL_SPARSE_VAL_SET count 1 ++
  (if negb (index =? last) then zero_run (last - index) else []).

Definition split_val (first last index count curval : Z) : bytes :=
  (if negb (index =? first) then HLL_SPARSE_VAL_SET curval (index - first) else []) ++
  HLL_SPARSE_VAL_SET count 1 ++
  (if negb (index =? last) then HLL_SPARSE_VAL_SET curval (last - index) else []).

(** Step 4: the scan for adjacent VAL opcodes to merge; [scanlen] opcodes left. *)
Fixpoint merge_loop (scanlen : nat) (s : sds) (p e : Z) : option (sds * Z) :=
  match scanlen with
  | O => Some (s, e)
  | S scanlen =>
      if p <? e then
        is_xzero ← HLL_SPARSE_IS_XZERO s p;
        is_zero ← HLL_SPARSE_IS_ZERO s p;
        if is_xzero : bool then merge_loop scanlen s (p + 2) e
        else if is_zero : bool then merge_loop scanlen s (p + 1) e
        else
          next_val ← (if p + 1 <? e then HLL_SPARSE_IS_VAL s (p + 1) else Some false);
          if next_val : bool then
            v1 ← HLL_SPARSE_VAL_VALUE s p;
            v2 ← HLL_SPARSE_VAL_VALUE s (p + 1);
            l1 ← HLL_SPARSE_VAL_LEN s p;
            l2 ← HLL_SPARSE_VAL_LEN s (p + 1);
            if (v1 =? v2) && (l1 + l2 <=? HLL_SPARSE_VAL_MAX_LEN) then
              s ← s_put s (p + 1) (HLL_SPARSE_VAL_SET v1 (l1 + l2));
              b ← s_sub s (p + 1) (e - p);
              s ← s_put s p b;
              s ← sdsIncrLen s (-1);
              merge_loop scanlen s p (e - 1)
            else merge_loop scanlen s (p + 1) e
          else merge_loop scanlen s (p + 1) e
      else Some (s, e)
  end.

(** The label [updated]. *)
Definition sparse_updated (s : sds) (prev : option Z) (e : Z) : option (sds * Z) :=
  let p := match prev with Some p => p | None => HLL_HDR_SIZE end in
  '(s, _) ← merge_loop 5 s p e;
  s ← HLL_INVALIDATE_CACHE s;
  Some (s, 1).

(** The label [promote]; the last test is a [serverAssert]. *)
Definition sparse_promote (s : sds) (index count : Z) : option (sds * Z) :=
  '(s, r) ← hllSparseToDense s;
  if r =? C_ERR then Some (s, -1) else
  '(s, dense_retval) ← hllDenseSet s HLL_HDR_SIZE index count;
  _ ← assert_ (dense_retval =? 1);
  Some (s, dense_retval).

(** Step 3: [seq] replaces the [oldlen] bytes at [p]. *)
Definition sparse_replace (s : sds) (p e : Z) (next : option Z) (oldlen : Z) (seq : bytes) : option sds :=
  let seqlen := zlen seq in
  let deltalen := seqlen - oldlen in
  s ← match next with
      | Some next =>
          if negb (deltalen =? 0) then b ← s_sub s next (e - next); s_put s (next + deltalen) b else Some s
      | None => Some s
      end;
  s ← sdsIncrLen s deltalen;
  s_put s p seq.

Definition hllSparseSet (maxb : Z) (o : sds) (index count : Z) : option (sds * Z) :=
  if count >? HLL_SPARSE_VAL_MAX_VALUE then sparse_promote o index count else
  s ← sdsMakeRoomFor o 3;
  e ← sdslen s;
  '(prev, p, first, span) ← locate (S (Z.to_nat e)) s e index None HLL_HDR_SIZE 0 0;
  if (span =? 0) || (p >=? e) then Some (s, -1) else
  is_xzero ← HLL_SPARSE_IS_XZERO s p;
  is_zero ← HLL_SPARSE_IS_ZERO s p;
  let next := if is_xzero : bool then p + 2 else p + 1 in
  let next := if next >=? e then None else Some next in
  runlen ← (if is_zero : bool then HLL_SPARSE_ZERO_LEN s p
            else if is_xzero then HLL_SPARSE_XZERO_LEN s p else HLL_SPARSE_VAL_LEN s p);
  curval ← HLL_SPARSE_VAL_VALUE s p;
  let is_val := negb is_zero && negb is_xzero in
  if is_val && (curval >=? count) then Some (s, 0) else
  if (is_val || is_zero) && (runlen =? 1) then
    s ← s_put s p (HLL_SPARSE_VAL_SET count 1);
    sparse_updated s prev e
  else
    let last := s32 (first + span - 1) in
    let seq := if is_zero || is_xzero then split_zeros first last index count
               else split_val first last index count curval in
    let oldlen := if is_xzero then 2 else 1 in
    let deltalen := zlen seq - oldlen in
    if (deltalen >? 0) && (e + deltalen >? maxb) then sparse_promote s index count else
    s ← sparse_replace s p e next oldlen seq;
    sparse_updated s prev (e + deltalen).

Definition hllSparseAdd (maxb : Z) (o : sds) (ele : bytes) : option (sds * Z) :=
  '(count, index) ← hllPatLen ele;
  hllSparseSet maxb o index (u8 count).

(** [int idx]; the registers before the end are counted, [(reghisto, idx)] at the end. *)
Fixpoint sparse_histo_loop (fuel : nat) (s : sds) (p e idx : Z) (reghisto : list Z) : option (list Z * Z) :=
  match fuel with
  | O => None
  | S fuel =>
      if p <? e then
        is_zero ← HLL_SPARSE_IS_ZERO s p;
        is_xzero ← HLL_SPARSE_IS_XZERO s p;
        if is_zero : bool then
          runlen ← HLL_SPARSE_ZERO_LEN s p;
          h ← hinc reghisto 0 runlen;
          sparse_histo_loop fuel s (p + 1) e (s32 (idx + runlen)) h
        else if is_xzero : bool then
          runlen ← HLL_SPARSE_XZERO_LEN s p;
          h ← hinc reghisto 0 runlen;
          sparse_histo_loop fuel s (p + 2) e (s32 (idx + runlen)) h
        else
          runlen ← HLL_SPARSE_VAL_LEN s p;
          regval ← HLL_SPARSE_VAL_VALUE s p;
          h ← hinc reghisto regval runlen;
          sparse_histo_loop fuel s (p + 1) e (s32 (idx + runlen)) h
      else Some (reghisto, idx)
  end.

(** The histogram and whether [*invalid] is set. *)
Definition hllSparseRegHisto (s : sds) (sparse sparselen : Z) (reghisto : list Z) : option (list Z * bool) :=
  '(h, idx) ← sparse_histo_loop (S (Z.to_nat sparselen)) s sparse (sparse + sparselen) 0 reghisto;
  Some (h, negb (idx =? HLL_REGISTERS)).

(** * Counting and merging *)

(** [n] words of eight registers left. *)
Fixpoint raw_histo_loop (n : nat) (registers : list Z) (word : Z) (reghisto : list Z) : option (list Z) :=
  match n with
  | O => Some reghisto
  | S n =>
      b ← zsub registers word 8;
      h ← (if le_value b =? 0 then hinc reghisto 0 8 else hincs reghisto b);
      raw_histo_loop n registers (word + 8) h
  end.

Definition hllRawRegHisto (registers : list Z) (reghisto : list Z) : option (list Z) :=
  raw_histo_loop (Z.to_nat (HLL_REGISTERS / 8)) registers 0 reghisto.

(** What [hdr] points to: the string of a value, or the array of bytes of [HLL_RAW]. *)
Inductive hllsrc := InSds (s : sds) | InRaw (registers : list Z).

Definition reg_histogram (hdr : hllsrc) : option (list Z * bool) :=
  let reghisto := replicate 64 0 in
  match hdr with
  | InSds s =>
      enc ← hdr_encoding s;
      if enc =? HLL_DENSE then h ← hllDenseRegHisto s HLL_HDR_SIZE reghisto; Some (h, false)
      else if enc =? HLL_SPARSE then
        l ← sdslen s;
        hllSparseRegHisto s HLL_HDR_SIZE (l - HLL_HDR_SIZE) reghisto
      else None
  | InRaw registers => h ← hllRawRegHisto registers reghisto; Some (h, false)
  end.

(** [while(runlen--) { if (regval > max[i]) max[i] = regval; i++; }]. *)
Fixpoint merge_run (n : nat) (max : list Z) (i regval : Z) : option (list Z * Z) :=
  match n with
  | O => Some (max, i)
  | S n =>
      m ← zget max i;
      max ← (if regval >? m then zput max i [regval] else Some max);
      merge_run n max (s32 (i + 1)) regval
  end.

Fixpoint merge_dense (n : nat) (max : list Z) (s : sds) (i : Z) : option (list Z) :=
  match n with
  | O => Some max
  | S n =>
      val ← HLL_DENSE_GET_REGISTER 32 s HLL_HDR_SIZE i;
      m ← zget max i;
      max ← (if val >? m then zput max i [val] else Some max);
      merge_dense n max s (i + 1)
  end.

Fixpoint merge_sparse (fuel : nat) (max : list Z) (s : sds) (p e i : Z) : option (list Z * Z) :=
  match fuel with
  | O => None
  | S fuel =>
      if p <? e then
        is_zero ← HLL_SPARSE_IS_ZERO s p;
        is_xzero ← HLL_SPARSE_IS_XZERO s p;
        if is_zero : bool then
          runlen ← HLL_SPARSE_ZERO_LEN s p;
          merge_sparse fuel max s (p + 1) e (s32 (i + runlen))
        else if is_xzero : bool then
          runlen ← HLL_SPARSE_XZERO_LEN s p;
          merge_sparse fuel max s (p + 2) e (s32 (i + runlen))
        else
          runlen ← HLL_SPARSE_VAL_LEN s p;
          regval ← HLL_SPARSE_VAL_VALUE s p;
          if runlen + i >? HLL_REGISTERS then Some (max, i) else
          '(max, i) ← merge_run (Z.to_nat runlen) max i regval;
          merge_sparse fuel max s (p + 1) e i
      else Some (max, i)
  end.

Definition hllMerge (max : list Z) (hll : sds) : option (list Z * Z) :=
  enc ← hdr_encoding hll;
  if enc =? HLL_DENSE then max ← merge_dense (Z.to_nat HLL_REGISTERS) max hll 0; Some (max, C_OK)
  else
    e ← sdslen hll;
    '(max, i) ← merge_sparse (S (Z.to_nat e)) max hll HLL_HDR_SIZE e 0;
    if negb (i =? HLL_REGISTERS) then Some (max, C_ERR) else Some (max, C_OK).

(** * Objects *)

Definition OBJ_ENCODING_RAW : Z := 0.
Definition OBJ_ENCODING_EMBSTR : Z := 8.

(** A string held as bytes, with its encoding and reference count, a string held as an integer,
    or a value of another type. *)
Inductive robj := StrObj (encoding refcount : Z) (ptr : sds) | IntObj (refcount v : Z) | OtherObj.

(** [while(aux)]: XZERO opcodes until all registers are covered. *)
Fixpoint create_loop (fuel : nat) (s : sds) (p aux : Z) : option (sds * Z) :=
  match fuel with
  | O => None
  | S fuel =>
      if aux =? 0 then Some (s, p) else
      let xzero := if HLL_SPARSE_XZERO_MAX_LEN >? aux then aux else HLL_SPARSE_XZERO_MAX_LEN in
      s ← s_put s p (HLL_SPARSE_XZERO_SET xzero);
      create_loop fuel s (p + 2) (aux - xzero)
  end.

Definition createHLLObject : option sds :=
  let sparselen := HLL_HDR_SIZE +
    ((HLL_REGISTERS + (HLL_SPARSE_XZERO_MAX_LEN - 1)) / HLL_SPARSE_XZERO_MAX_LEN) * 2 in
  s ← sdsnewlen None sparselen;
  '(s, p) ← create_loop 2 s HLL_HDR_SIZE HLL_REGISTERS;
  _ ← assert_ (p =? sparselen);
  s ← s_put s 0 (str "HYLL");
  set_encoding s HLL_SPARSE.

(** Replies. *)
Inductive reply := RInt (v : Z) | ROk | RWrongType | RNotHll | RInvalid | RNoKey | RBytes (b : bytes)
  | RStatus (b : bytes) | RArray (l : list Z) | RError.

(** [None] for [C_OK], the error sent for [C_ERR]. *)
Definition isHLLObjectOrReply (o : robj) : option (option reply) :=
  match o with
  | OtherObj => Some (Some RWrongType)
  | IntObj _ _ => Some (Some RNotHll)
  | StrObj _ _ s =>
      n ← sdslen s;
      if n <? HLL_HDR_SIZE then Some (Some RNotHll) else
      m ← s_sub s 0 4;
      if negb (bool_decide (m = str "HYLL")) then Some (Some RNotHll) else
      enc ← hdr_encoding s;
      if enc >? HLL_MAX_ENCODING then Some (Some RNotHll) else
      if (enc =? HLL_DENSE) && negb (n =? HLL_DENSE_SIZE) then Some (Some RNotHll) else Some None
  end.

(** A database without expiry, [server.dirty], and the keys signalled as modified. *)
Record hdb := Hdb { kv : gmap bytes robj; dirty : Z; signalled : list bytes }.
Definition db_set (d : hdb) (key : bytes) (o : robj) : hdb := Hdb (<[key := o]> (kv d)) (dirty d) (signalled d).
Definition db_touch (d : hdb) (key : bytes) : hdb := Hdb (kv d) (dirty d + 1) (key :: signalled d).

(** The value after unsharing: a string of its own, with encoding raw, is stored under the key. *)
Definition dbUnshareStringValue (d : hdb) (key : bytes) (o : robj) : option (hdb * sds) :=
  match o with
  | StrObj encoding refcount s =>
      if negb (refcount =? 1) || negb (encoding =? OBJ_ENCODING_RAW) then
        n ← sdslen s;
        b ← s_sub s 0 n;
        s ← sdsnewlen (Some b) n;
        Some (db_set d key (StrObj OBJ_ENCODING_RAW 1 s), s)
      else Some (d, s)
  | _ => None
  end.

(** The commands change the string of the value in place: [store] is that value in the database. *)
Definition store (d : hdb) (key : bytes) (s : sds) : hdb := db_set d key (StrObj OBJ_ENCODING_RAW 1 s).

(** * Commands *)

Section Commands.
Context (maxb : Z) (hllEstimate : list Z -> Z).

(** The estimate as [uint64_t], and the flag. *)
Definition hllCount (hdr : hllsrc) : option (Z * bool) :=
  '(h, invalid) ← reg_histogram hdr; Some (u64 (hllEstimate h), invalid).

Definition hllAdd (o : sds) (ele : bytes) : option (sds * Z) :=
  enc ← hdr_encoding o;
  if enc =? HLL_DENSE then hllDenseAdd o HLL_HDR_SIZE ele
  else if enc =? HLL_SPARSE then hllSparseAdd maxb o ele
  else Some (o, -1).

(** The loop over the elements: the string, [updated], and whether an error ended it. *)
Fixpoint add_loop (o : sds) (els : list bytes) (updated : Z) : option (sds * Z * bool) :=
  match els with
  | [] => Some (o, updated, false)
  | ele :: els =>
      '(o, retval) ← hllAdd o ele;
      if retval =? -1 then Some (o, updated, true)
      else add_loop o els (if retval =? 1 then updated + 1 else updated)
  end.

Definition pfadd_elements (d : hdb) (key : bytes) (s : sds) (els : list bytes) (updated : Z) : option (hdb * reply) :=
  '(s, updated, failed) ← add_loop s els updated;
  if failed : bool then Some (store d key s, RInvalid) else
  if updated =? 0 then Some (store d key s, RInt 0) else
  s ← HLL_INVALIDATE_CACHE s;
  Some (db_touch (store d key s) key, RInt 1).

Definition pfaddCommand (d : hdb) (key : bytes) (els : list bytes) : option (hdb * reply) :=
  match kv d !! key with
  | None =>
      s ← createHLLObject;
      pfadd_elements (store d key s) key s els 1
  | Some o =>
      err ← isHLLObjectOrReply o;
      match err with
      | Some r => Some (d, r)
      | None => '(d, s) ← dbUnshareStringValue d key o; pfadd_elements d key s els 0
      end
  end.

(** Merging the values of the keys into [max]; [use_dense] of PFMERGE. *)
Fixpoint merge_keys (d : hdb) (keys : list bytes) (max : list Z) (use_dense : bool)
    : option (reply + list Z * bool) :=
  match keys with
  | [] => Some (inr (max, use_dense))
  | key :: keys =>
      match kv d !! key with
      | None => merge_keys d keys max use_dense
      | Some o =>
          err ← isHLLObjectOrReply o;
          match err, o with
          | Some r, _ => Some (inl r)
          | None, StrObj _ _ s =>
              enc ← hdr_encoding s;
              '(max, r) ← hllMerge max s;
              if r =? C_ERR then Some (inl RInvalid)
              else merge_keys d keys max (if enc =? HLL_DENSE then true else use_dense)
          | None, _ => None
          end
      end
  end.

Definition cached_card (s : sds) : option Z := b ← s_sub s 8 8; Some (le_value b).

Definition pfcountCommand (d : hdb) (keys : list bytes) : option (hdb * reply) :=
  match keys with
  | [key] =>
      match kv d !! key with
      | None => Some (d, RInt 0)
      | Some o =>
          err ← isHLLObjectOrReply o;
          match err with
          | Some r => Some (d, r)
          | None =>
              '(d, s) ← dbUnshareStringValue d key o;
              valid ← HLL_VALID_CACHE s;
              if valid : bool then card ← cached_card s; Some (d, RInt (s64 card)) else
              '(card, invalid) ← hllCount (InSds s);
              if invalid : bool then Some (d, RInvalid) else
              s ← s_put s 8 (le_bytes 8 card);
              Some (db_touch (store d key s) key, RInt (s64 card))
          end
      end
  | _ =>
      res ← merge_keys d keys (replicate (Z.to_nat HLL_REGISTERS) 0) false;
      match res with
      | inl r => Some (d, r)
      | inr (max, _) => '(card, _) ← hllCount (InRaw max); Some (d, RInt (s64 card))
      end
  end.

(** The loop that writes [max] into the registers of the destination, from register [j]. *)
Fixpoint write_max (max : list Z) (o : sds) (j : Z) : option sds :=
  match max with
  | [] => Some o
  | v :: max =>
      if v =? 0 then write_max max o (j + 1) else
      enc ← hdr_encoding o;
      '(o, _) ← (if enc =? HLL_DENSE then hllDenseSet o HLL_HDR_SIZE j v
                 else if enc =? HLL_SPARSE then hllSparseSet maxb o j v else Some (o, 0));
      write_max max o (j + 1)
  end.

Definition pfmergeCommand (d : hdb) (dst : bytes) (srcs : list bytes) : option (hdb * reply) :=
  res ← merge_keys d (dst :: srcs) (replicate (Z.to_nat HLL_REGISTERS) 0) false;
  match res with
  | inl r => Some (d, r)
  | inr (max, use_dense) =>
      '(d, s) ← match kv d !! dst with
                | None => s ← createHLLObject; Some (store d dst s, s)
                | Some o => dbUnshareStringValue d dst o
                end;
      '(s, r) ← (if use_dense : bool then hllSparseToDense s else Some (s, C_OK));
      if r =? C_ERR then Some (d, RInvalid) else
      s ← write_max max s 0;
      s ← HLL_INVALIDATE_CACHE s;
      Some (db_touch (store d dst s) dst, ROk)
  end.

(** ** PFDEBUG *)

Fixpoint getreg_loop (n : nat) (s : sds) (j : Z) : option (list Z) :=
  match n with
  | O => Some []
  | S n =>
      val ← HLL_DENSE_GET_REGISTER 32 s HLL_HDR_SIZE j;
      l ← getreg_loop n s (j + 1);
      Some (val :: l)
  end.

(** The opcodes printed one after the other. *)
Fixpoint decode_loop (fuel : nat) (s : sds) (p e : Z) (decoded : bytes) : option bytes :=
  match fuel with
  | O => None
  | S fuel =>
      if p <? e then
        is_zero ← HLL_SPARSE_IS_ZERO s p;
        is_xzero ← HLL_SPARSE_IS_XZERO s p;
        if is_zero : bool then
          runlen ← HLL_SPARSE_ZERO_LEN s p;
          decode_loop fuel s (p + 1) e (decoded ++ str "z:" ++ decimal runlen ++ str " ")
        else if is_xzero : bool then
          runlen ← HLL_SPARSE_XZERO_LEN s p;
          decode_loop fuel s (p + 2) e (decoded ++ str "Z:" ++ decimal runlen ++ str " ")
        else
          runlen ← HLL_SPARSE_VAL_LEN s p;
          regval ← HLL_SPARSE_VAL_VALUE s p;
          decode_loop fuel s (p + 1) e (decoded ++ str "v:" ++ decimal regval ++ str "," ++ decimal runlen ++ str " ")
      else Some decoded
  end.

Inductive pfdebug := GETREG | DECODE | ENCODING | TODENSE.

(** With the right number of arguments. *)
Definition pfdebugCommand (d : hdb) (cmd : pfdebug) (key : bytes) : option (hdb * reply) :=
  match kv d !! key with
  | None => Some (d, RNoKey)
  | Some o =>
      err ← isHLLObjectOrReply o;
      match err with
      | Some r => Some (d, r)
      | None =>
          '(d, s) ← dbUnshareStringValue d key o;
          enc ← hdr_encoding s;
          match cmd with
          | GETREG =>
              '(s, r) ← (if enc =? HLL_SPARSE then hllSparseToDense s else Some (s, C_OK));
              if r =? C_ERR then Some (d, RInvalid) else
              let d := store d key s in
              let d := if enc =? HLL_SPARSE then Hdb (kv d) (dirty d + 1) (signalled d) else d in
              l ← getreg_loop (Z.to_nat HLL_REGISTERS) s 0;
              Some (d, RArray l)
          | DECODE =>
              if negb (enc =? HLL_SPARSE) then Some (d, RError) else
              n ← sdslen s;
              decoded ← decode_loop (S (Z.to_nat n)) s HLL_HDR_SIZE n [];
              (* [sdstrim] with a space: the opcodes end with one and none starts with one. *)
              Some (d, RBytes (take (length decoded - 1) decoded))
          | ENCODING => Some (d, RStatus (if enc =? 0 then str "dense" else str "sparse"))
          | TODENSE =>
              if enc =? HLL_SPARSE then
                '(s, r) ← hllSparseToDense s;
                if r =? C_ERR then Some (d, RInvalid) else
                let d := store d key s in
                Some (Hdb (kv d) (dirty d + 1) (signalled d), RInt 1)
              else Some (d, RInt 0)
          end
      end
  end.

End Commands.
