(* ===== verification/HllDense.v ===== *)
(** The dense representation of HyperLogLogs: the packed bytes are the digits of one number.

    Read little-endian, the bytes are a number whose digits in base 64 are the registers
    ([packed]).  Reading a register extracts a digit, setting one changes a digit, and the
    unrolled histogram reads sixteen digits out of twelve bytes. *)

From stdpp Require Import gmap.
From S2P Require Import Prelude Util Sds Hll.
#[local] Open Scope list_scope.
#[local] Open Scope Z_scope.

(** * Digits in base 64 *)

Fixpoint b64 (regs : list Z) : Z := match regs with [] => 0 | r :: regs => r + 64 * b64 regs end.

Definition reg_ok (r : Z) : Prop := 0 <= r < 64.

Lemma pow64_succ n : 0 <= n -> 2 ^ (6 * (1 + n)) = 64 * 2 ^ (6 * n).
Proof. intros. change 64 with (2 ^ 6). rewrite <- Z.pow_add_r by lia. f_equal. lia. Qed.

Lemma b64_app a b : b64 (a ++ b) = b64 a + 2 ^ (6 * zlen a) * b64 b.
Proof.
  induction a as [|x a IH]; [change (zlen (@nil Z)) with 0; cbn [b64 app]; lia|].
  cbn [b64 app]. rewrite IH, zlen_cons. pose proof (zlen_nonneg a). rewrite pow64_succ; lia.
Qed.

Lemma b64_range regs : Forall reg_ok regs -> 0 <= b64 regs < 2 ^ (6 * zlen regs).
Proof.
  induction 1 as [|r regs Hr _ IH]; [done|]. cbn [b64]. rewrite zlen_cons. pose proof (zlen_nonneg regs).
  unfold reg_ok in Hr. rewrite pow64_succ; lia.
Qed.

(** The bytes [D] hold the registers [regs]. *)
Record packed (D : bytes) (regs : list Z) : Prop := mkPacked {
  pk_bytes : bytes_ok D;
  pk_regs : Forall reg_ok regs;
  pk_value : le_value D = b64 regs;
}.

Lemma div_mod_split B x y x' y' : 0 <= x < B -> 0 <= x' < B -> x + B * y = x' + B * y' -> x = x' /\ y = y'.
Proof. intros Hx Hx' E. assert (y = y') by nia. subst y'. lia. Qed.

(** Aligned parts of packed bytes hold the parts of the registers. *)
Lemma packed_app D E rs qs : 8 * zlen D = 6 * zlen rs ->
  packed (D ++ E) (rs ++ qs) <-> packed D rs /\ packed E qs.
Proof.
  intros Hl. split.
  - intros [Hb Hr Hv]. apply Forall_app in Hb as [Hb1 Hb2]. apply Forall_app in Hr as [Hr1 Hr2].
    rewrite le_value_app, b64_app, <- Hl in Hv.
    pose proof (le_value_range D Hb1). pose proof (b64_range rs Hr1) as Hq. rewrite <- Hl in Hq.
    destruct (div_mod_split _ _ _ _ _ H Hq Hv). done.
  - intros [[Hb1 Hr1 Hv1] [Hb2 Hr2 Hv2]]. split; [by apply Forall_app|by apply Forall_app|].
    by rewrite le_value_app, b64_app, Hl, Hv1, Hv2.
Qed.

(** * One register *)

(** What the two statements do to the first and to the second byte. *)
Definition fst_byte (fb v b : Z) : Z :=
  u8 (Z.lor (u8 (Z.land b (Z.lnot (Z.shiftl HLL_REGISTER_MAX fb)))) (Z.shiftl v fb)).
Definition snd_byte (fb v b : Z) : Z :=
  u8 (Z.lor (u8 (Z.land b (Z.lnot (Z.shiftr HLL_REGISTER_MAX (8 - fb))))) (Z.shiftr v (8 - fb))).

Definition fb_cases (fb : Z) : Prop := fb = 0 \/ fb = 2 \/ fb = 4 \/ fb = 6.

(** Case analysis on the bit offset, with the powers of two evaluated. *)
Ltac pows :=
  repeat match goal with
  | |- context [2 ^ ?e] => let v := eval vm_compute in (2 ^ e) in change (2 ^ e) with v
  | H : context [2 ^ ?e] |- _ => let v := eval vm_compute in (2 ^ e) in change (2 ^ e) with v in H
  end.
Ltac fcases H := destruct H as [->|[->|[->| ->]]]; pows.

Lemma byte2_forall (P : Z -> Z -> bool) :
  forallb (fun b => forallb (P b) (map Z.of_nat (seq 0 64))) (map Z.of_nat (seq 0 256)) = true ->
  forall b v, byte_ok b -> reg_ok v -> P b v = true.
Proof.
  intros H b v Hb Hv. unfold byte_ok, reg_ok in *.
  assert (Hin : forall n x, 0 <= x < Z.of_nat n -> In x (map Z.of_nat (seq 0 n))).
  { intros n x Hx. apply in_map_iff. exists (Z.to_nat x). split; [lia|]. apply in_seq. lia. }
  rewrite forallb_forall in H. specialize (H b (Hin 256%nat b ltac:(lia))).
  rewrite forallb_forall in H. apply H. apply Hin. lia.
Qed.

Definition window_value (fb b0 b1 v : Z) : bool :=
  (fst_byte fb v b0 =? b0 mod 2 ^ fb + (v * 2 ^ fb) mod 256 + b0 / 2 ^ (fb + 6) * 2 ^ (fb + 6)) &&
  (snd_byte fb v b1 =? v / 2 ^ (8 - fb) + b1 / 2 ^ Z.max 0 (fb - 2) * 2 ^ Z.max 0 (fb - 2)).

Lemma window_bytes fb b0 b1 v : fb_cases fb -> byte_ok b0 -> byte_ok b1 -> reg_ok v ->
  fst_byte fb v b0 = b0 mod 2 ^ fb + (v * 2 ^ fb) mod 256 + b0 / 2 ^ (fb + 6) * 2 ^ (fb + 6) /\
  snd_byte fb v b1 = v / 2 ^ (8 - fb) + b1 / 2 ^ Z.max 0 (fb - 2) * 2 ^ Z.max 0 (fb - 2).
Proof.
  intros Hfb H0 H1 Hv. rewrite <- !Z.eqb_eq. split.
  - revert b0 v H0 Hv. apply byte2_forall.
    fcases Hfb; vm_compute; reflexivity.
  - revert b1 v H1 Hv. apply byte2_forall.
    fcases Hfb; vm_compute; reflexivity.
Qed.

Lemma window_range fb b0 b1 v : byte_ok (fst_byte fb v b0) /\ byte_ok (snd_byte fb v b1).
Proof. split; apply uwrap_range; lia. Qed.

(** Setting changes the window of two bytes by the difference of the digits. *)
Lemma window_set fb b0 b1 r v : fb_cases fb -> byte_ok b0 -> byte_ok b1 -> reg_ok v ->
  r = (b0 + 256 * b1) / 2 ^ fb mod 64 ->
  fst_byte fb v b0 + 256 * snd_byte fb v b1 = b0 + 256 * b1 + 2 ^ fb * (v - r).
Proof.
  intros Hfb H0 H1 Hv ->. destruct (window_bytes fb b0 b1 v Hfb H0 H1 Hv) as [-> ->].
  unfold byte_ok, reg_ok in *. fcases Hfb; dlia.
Qed.

Lemma window_get fb b0 b1 : fb_cases fb -> byte_ok b0 -> byte_ok b1 ->
  Z.land (Z.lor (Z.shiftr b0 fb) (u64 (Z.shiftl b1 (8 - fb)))) HLL_REGISTER_MAX = (b0 + 256 * b1) / 2 ^ fb mod 64.
Proof.
  intros Hfb H0 H1. unfold byte_ok in *.
  assert (E : u64 (Z.shiftl b1 (8 - fb)) = Z.shiftl b1 (8 - fb)).
  { rewrite Z.shiftl_mul_pow2 by (fcases Hfb; lia). apply uwrap_small. unfold urange.
    fcases Hfb; lia. }
  rewrite E. change HLL_REGISTER_MAX with (Z.ones 6). rewrite Z.land_ones by lia. change (2 ^ 6) with 64.
  rewrite Z.shiftr_div_pow2 by (fcases Hfb; lia).
  rewrite lor_above.
  - fcases Hfb; dlia.
  - fcases Hfb; lia.
  - fcases Hfb; dlia.
Qed.

Lemma fb_range fb : fb_cases fb -> 0 <= fb <= 6.
Proof. intros H. fcases H; lia. Qed.

Lemma digit_window fb W L x r q : fb_cases fb -> 0 <= W < 65536 -> 0 <= x < 2 ^ fb -> reg_ok r ->
  W + 65536 * L = x + 2 ^ fb * (r + 64 * q) -> r = W / 2 ^ fb mod 64.
Proof. intros Hfb HW Hx Hr E. unfold reg_ok in Hr. fcases Hfb; dlia. Qed.

(** Register [i] lies in the two bytes from [6 * i / 8], at bit [6 * i mod 8]. *)
Section Register.
Context (A B P Q : list Z) (b0 b1 r fb : Z).
Context (Hpk : packed (A ++ b0 :: b1 :: B) (P ++ r :: Q)).
Context (Hfb : fb_cases fb) (Hpos : 6 * zlen P = 8 * zlen A + fb).
#[local] Set Default Proof Using "All".

Lemma reg_parts : bytes_ok A /\ byte_ok b0 /\ byte_ok b1 /\ bytes_ok B /\ Forall reg_ok P /\ reg_ok r /\ Forall reg_ok Q.
Proof.
  destruct Hpk as [Hb Hr _]. apply Forall_app in Hb as [HA Hb]. apply Forall_app in Hr as [HP Hr].
  inversion Hb as [|? ? H0 Hb']; subst. inversion Hb' as [|? ? H1 HB]; subst.
  inversion Hr as [|? ? Hr0 HQ]; subst. done.
Qed.

Lemma reg_digit : r = (b0 + 256 * b1) / 2 ^ fb mod 64.
Proof.
  destruct reg_parts as (HA & H0 & H1 & HB & HP & Hr & HQ). destruct Hpk as [_ _ Hv].
  rewrite le_value_app, b64_app in Hv. cbn [le_value b64] in Hv.
  pose proof (zlen_nonneg A). pose proof (zlen_nonneg P).
  pose proof (fb_range fb Hfb).
  pose proof (le_value_range A HA) as RA. pose proof (b64_range P HP) as RP.
  rewrite Hpos, Z.pow_add_r in Hv, RP by lia.
  set (K := 2 ^ (8 * zlen A)) in *. set (x := b64 P / K).
  assert (HK : 0 < K) by (apply Z.pow_pos_nonneg; lia).
  assert (HF : 0 < 2 ^ fb) by (apply Z.pow_pos_nonneg; lia).
  assert (Hx : 0 <= x < 2 ^ fb).
  { split; [apply Z.div_pos; lia|]. apply Z.div_lt_upper_bound; lia. }
  assert (EP : b64 P = (b64 P mod K) + K * x) by (pose proof (Z.div_mod (b64 P) K); unfold x; lia).
  rewrite EP in Hv.
  destruct (div_mod_split K (le_value A) (b0 + 256 * (b1 + 256 * le_value B))
    (b64 P mod K) (x + 2 ^ fb * (r + 64 * b64 Q))) as [_ E]; [lia|apply Z.mod_pos_bound; lia|lia|].
  unfold byte_ok in *. apply (digit_window fb _ (le_value B) x r (b64 Q)); (done || lia).
Qed.

Lemma reg_get : Z.land (Z.lor (Z.shiftr b0 fb) (u64 (Z.shiftl b1 (8 - fb)))) HLL_REGISTER_MAX = r.
Proof.
  destruct reg_parts as (_ & H0 & H1 & _). rewrite window_get by done. symmetry. apply reg_digit.
Qed.

Lemma reg_set v : reg_ok v -> packed (A ++ fst_byte fb v b0 :: snd_byte fb v b1 :: B) (P ++ v :: Q).
Proof.
  intros Hv. destruct reg_parts as (HA & H0 & H1 & HB & HP & Hr & HQ).
  destruct (window_range fb b0 b1 v). split.
  - apply Forall_app. split; [done|]. by apply List.Forall_cons; [|apply List.Forall_cons].
  - apply Forall_app. split; [done|]. by constructor.
  - pose proof (window_set fb b0 b1 r v Hfb H0 H1 Hv reg_digit) as E.
    destruct Hpk as [_ _ Hval]. rewrite !le_value_app, !b64_app in *. cbn [le_value b64] in *.
    pose proof (fb_range fb Hfb). pose proof (zlen_nonneg A).
    rewrite Hpos, Z.pow_add_r in * by lia. set (K := 2 ^ (8 * zlen A)) in *.
    replace (fst_byte fb v b0 + 256 * (snd_byte fb v b1 + 256 * le_value B))
      with (b0 + 256 * b1 + 2 ^ fb * (v - r) + 65536 * le_value B) by lia. nia.
Qed.

End Register.

(** * Operations on the string *)

Lemma reg_split {A} (l : list A) i : 0 <= i < zlen l ->
  exists P r Q, l = P ++ r :: Q /\ zlen P = i.
Proof.
  intros Hi. destruct (zsplit3 l i 1) as (P & M & Q & -> & HP & HM); [lia..|].
  destruct (zlen_1_inv M HM) as [r ->]. by exists P, r, Q.
Qed.

(** The bit offset and the two bytes of register [i]. *)
Lemma reg_position i (D : bytes) : 0 <= i -> 6 * i + 14 <= 8 * zlen D ->
  exists A b0 b1 B, D = A ++ b0 :: b1 :: B /\ zlen A = 6 * i / 8 /\
    fb_cases (Z.land (6 * i) 7) /\ 6 * i = 8 * zlen A + Z.land (6 * i) 7.
Proof.
  intros Hi HD. change 7 with (Z.ones 3). rewrite Z.land_ones by lia. change (2 ^ 3) with 8.
  destruct (zsplit3 D (6 * i / 8) 2) as (A & M & B & -> & HA & HM); [dlia|lia|dlia|].
  destruct M as [|b0 [|b1 [|? M]]]; rewrite ?zlen_cons, ?zlen_nil in HM; try lia;
    [|pose proof (zlen_nonneg M); lia].
  exists A, b0, b1, B. split; [done|]. rewrite HA. unfold fb_cases. dlia.
Qed.

Lemma lay_upd s t len A b B f i : lay s t len (A ++ b :: B) -> i = zlen A ->
  exists s', upd s i f = Some s' /\ lay s' t len (A ++ u8 (f b) :: B).
Proof.
  intros H ->. unfold upd, rd. rewrite (lay_get _ _ _ _ _ H) by apply zlen_nonneg.
  rewrite zget_app by done. cbn [mbind option_bind].
  apply (lay_put s t len A [b] B [u8 (f b)] (zlen A)); done.
Qed.

Lemma upd_upd s t len A b B f g i : lay s t len (A ++ b :: B) -> i = zlen A ->
  exists s1 s2, upd s i f = Some s1 /\ upd s1 i g = Some s2 /\ lay s2 t len (A ++ u8 (g (u8 (f b))) :: B).
Proof.
  intros H Hi. destruct (lay_upd s t len A b B f i H Hi) as (s1 & E1 & H1).
  destruct (lay_upd s1 t len A _ B g i H1 Hi) as (s2 & E2 & H2). eauto 6.
Qed.

Lemma u8_byte b : byte_ok b -> u8 b = b.
Proof. intros H. apply uwrap_small. done. Qed.

(** Offset and index width for which [regnum*HLL_BITS] does not wrap. *)
Lemma bits_small w i : 0 <= i < 16384 -> w = 32 \/ w = 64 -> swrap w (i * HLL_BITS) = 6 * i.
Proof.
  intros Hi Hw. unfold HLL_BITS. rewrite Z.mul_comm. apply swrap_small; [|lia].
  unfold srange. destruct Hw as [->| ->]; lia.
Qed.

Section Memory.
Context (t len : Z) (H X : bytes).
#[local] Set Default Proof Using "Type".

(** The string holds [D] after [H], which holds [regs]. *)
Definition dmem (s : sds) (regs : list Z) : Prop :=
  exists D, lay s t len (H ++ D ++ X) /\ packed D regs /\ 8 * zlen D = 6 * zlen regs + 8.

Lemma dense_get s regs w i r : dmem s regs -> w = 32 \/ w = 64 -> zlen regs <= 16384 -> zget regs i = Some r ->
  HLL_DENSE_GET_REGISTER w s (zlen H) i = Some r.
Proof.
  intros (D & HL & Hp & HD) Hw Hn Hg. pose proof (zget_range _ _ _ Hg) as Hi.
  destruct (reg_split regs i Hi) as (P & r' & Q & -> & HP). rewrite zget_app in Hg by done. simplify_eq.
  destruct (reg_position (zlen P) D) as (A & b0 & b1 & B & -> & HA & Hfb & Hpos); [apply zlen_nonneg|zlia|].
  unfold HLL_DENSE_GET_REGISTER. rewrite bits_small by (done || lia).
  rewrite Z.quot_div_nonneg, <- HA by lia. unfold rd. pose proof (zlen_nonneg A). pose proof (zlen_nonneg H).
  rewrite !(lay_get _ _ _ _ _ HL) by lia.
  replace (H ++ (A ++ b0 :: b1 :: B) ++ X) with ((H ++ A) ++ b0 :: b1 :: B ++ X) by (by rewrite <- !app_assoc).
  rewrite (zget_app (H ++ A) b0 _ (zlen H + zlen A)) by (by rewrite zlen_app).
  rewrite (zget_app_r (H ++ A)) by (rewrite zlen_app; lia).
  replace (zlen H + (zlen A + 1) - zlen (H ++ A)) with 1 by (rewrite zlen_app; lia). cbn [zget mbind option_bind].
  change (zget (b0 :: b1 :: B ++ X) 1) with (Some b1). cbn [mbind option_bind]. f_equal.
  by eapply (reg_get A B P Q).
Qed.

Lemma dense_set s regs w i v : dmem s regs -> w = 32 \/ w = 64 -> 0 <= i < zlen regs -> zlen regs <= 16384 ->
  reg_ok v -> exists s', HLL_DENSE_SET_REGISTER w s (zlen H) i v = Some s' /\ dmem s' (<[Z.to_nat i := v]> regs).
Proof.
  intros (D & HL & Hp & HD) Hw Hi Hn Hv. destruct (reg_split regs i Hi) as (P & r & Q & -> & HP). subst i.
  destruct (reg_position (zlen P) D) as (A & b0 & b1 & B & -> & HA & Hfb & Hpos); [apply zlen_nonneg|zlia|].
  unfold HLL_DENSE_SET_REGISTER. rewrite bits_small by (done || lia).
  rewrite Z.quot_div_nonneg, <- HA by lia. set (fb := Z.land (6 * zlen P) 7) in *.
  replace (H ++ (A ++ b0 :: b1 :: B) ++ X) with ((H ++ A) ++ b0 :: b1 :: B ++ X) in HL by (by rewrite <- !app_assoc).
  edestruct (upd_upd s t len (H ++ A) b0) as (s1 & s2 & -> & E2 & H2); [done|symmetry; apply zlen_app|].
  cbn [mbind option_bind]. rewrite E2. cbn [mbind option_bind].
  rewrite (cons_middle (u8 _)), app_assoc in H2.
  destruct (upd_upd s2 t len _ b1 (B ++ X) (fun b => Z.land b (Z.lnot (Z.shiftr HLL_REGISTER_MAX (8 - fb))))
    (fun b => Z.lor b (Z.shiftr v (8 - fb))) (zlen H + (zlen A + 1)) H2) as (s3 & s4 & -> & E4 & H4);
    [rewrite !zlen_app; change (zlen [_]) with 1; lia|].
  cbn [mbind option_bind]. rewrite E4. exists s4. split; [done|].
  exists (A ++ fst_byte fb v b0 :: snd_byte fb v b1 :: B). split_and!.
  - rewrite <- !app_assoc in *. exact H4.
  - rewrite to_nat_zlen, <- (Nat.add_0_r (length P)), insert_app_r. cbn.
    by apply (reg_set A B P Q b0 b1 r fb).
  - unfold zlen. rewrite length_insert. unfold zlen in HD. rewrite length_app in *. cbn [length] in *. lia.
Qed.

End Memory.

(** * Histograms *)

(** Number of registers with value [v], and the histogram of the registers: the reference. *)
Definition count_reg (v : Z) (regs : list Z) : Z := zlen (List.filter (Z.eqb v) regs).
Definition histogram (regs : list Z) : list Z := map (fun v => count_reg (Z.of_nat v) regs) (seq 0 64).

Lemma histogram_lookup regs i : (i < 64)%nat -> histogram regs !! i = Some (count_reg (Z.of_nat i) regs).
Proof.
  intros Hi. unfold histogram.
  assert (E : seq 0 64 !! i = Some i) by (apply lookup_seq; lia).
  by rewrite list_lookup_fmap, E.
Qed.

Lemma count_reg_app v a b : count_reg v (a ++ b) = count_reg v a + count_reg v b.
Proof. unfold count_reg. by rewrite List.filter_app, zlen_app. Qed.

Lemma count_reg_le v a : 0 <= count_reg v a <= zlen a.
Proof.
  unfold count_reg. split; [apply zlen_nonneg|]. induction a as [|x a IH]; [done|]. cbn [List.filter].
  rewrite zlen_cons. destruct (v =? x); rewrite ?zlen_cons; lia.
Qed.

Lemma count_reg_run v r n : count_reg v (replicate n r) = if v =? r then Z.of_nat n else 0.
Proof.
  unfold count_reg. induction n as [|n IH]; cbn; [by destruct (v =? r)|].
  destruct (Z.eqb_spec v r); cbn; rewrite ?zlen_cons, IH; lia.
Qed.

(** Adding a run of [n] registers [r]. *)
Lemma hinc_histogram regs r n : reg_ok r -> 0 <= n -> zlen regs + n < 2 ^ 31 ->
  hinc (histogram regs) r n = Some (histogram (regs ++ replicate (Z.to_nat n) r)).
Proof.
  intros Hr Hn Hl. unfold reg_ok in Hr. unfold hinc, zget. rewrite (proj2 (Z.leb_le 0 r)) by lia.
  rewrite histogram_lookup by lia. cbn [mbind option_bind]. rewrite Z2Nat.id by lia.
  pose proof (count_reg_le r regs). rewrite swrap_small by (unfold srange; lia).
  unfold zput. change (zlen [_]) with 1. change (zlen (histogram regs)) with 64.
  rewrite !(proj2 (Z.leb_le _ _)) by lia. cbn [andb]. f_equal.
  apply list_eq. intros i. destruct (decide (i < 64)%nat) as [Hi|Hi].
  - rewrite histogram_lookup by done. rewrite count_reg_app, count_reg_run.
    assert (Ht : length (take (Z.to_nat r) (histogram regs)) = Z.to_nat r).
    { rewrite length_take. change (length (histogram regs)) with 64%nat. lia. }
    destruct (Z.eqb_spec (Z.of_nat i) r) as [<-|Hne].
    + rewrite lookup_app_r by lia. rewrite Ht, Nat2Z.id, Nat.sub_diag. cbn. f_equal. lia.
    + destruct (decide (i < Z.to_nat r)%nat).
      * rewrite lookup_app_l by lia. rewrite lookup_take_lt by lia. rewrite histogram_lookup by done. f_equal. lia.
      * rewrite lookup_app_r by lia. rewrite Ht. rewrite lookup_app_r by (cbn; lia). rewrite lookup_drop.
        cbn [length].
        replace (Z.to_nat (r + 1) + (i - Z.to_nat r - 1))%nat with i by lia.
        rewrite histogram_lookup by done. f_equal. lia.
  - rewrite !lookup_ge_None_2; [done|change (64 <= i)%nat; lia|].
    rewrite !length_app, length_take, length_drop. change (length (histogram regs)) with 64%nat. cbn. lia.
Qed.

Lemma hincs_histogram rs : forall regs, Forall reg_ok rs -> zlen regs + zlen rs < 2 ^ 31 ->
  hincs (histogram regs) rs = Some (histogram (regs ++ rs)).
Proof.
  induction rs as [|r rs IH]; intros regs Hr Hl; [by rewrite app_nil_r|]. inversion Hr; subst.
  rewrite zlen_cons in Hl. pose proof (zlen_nonneg rs). cbn [hincs].
  rewrite hinc_histogram by (done || lia). cbn [mbind option_bind].
  rewrite IH; [|done|rewrite zlen_app; change (zlen (replicate _ _)) with 1; lia].
  by rewrite <- app_assoc.
Qed.

(** Three bytes are four registers. *)
Lemma packed3 a b c r0 r1 r2 r3 : packed [a; b; c] [r0; r1; r2; r3] ->
  Z.land a 63 = r0 /\ Z.land (Z.lor (Z.shiftr a 6) (Z.shiftl b 2)) 63 = r1 /\
  Z.land (Z.lor (Z.shiftr b 4) (Z.shiftl c 4)) 63 = r2 /\ Z.land (Z.shiftr c 2) 63 = r3.
Proof.
  intros [Hb Hr Hv]. repeat (apply List.Forall_cons_iff in Hb as [? Hb]).
  repeat (apply List.Forall_cons_iff in Hr as [? Hr]). cbn [le_value b64] in Hv. unfold byte_ok, reg_ok in *.
  change 63 with (Z.ones 6). rewrite !Z.land_ones by lia. rewrite !lor_above by (rewrite ?Z.shiftr_div_pow2 by lia; dlia || lia).
  rewrite !Z.shiftr_div_pow2 by lia. pows. split_and!; dlia.
Qed.

Lemma unpack16_spec D rs : packed D rs -> zlen D = 12 -> zlen rs = 16 -> unpack16 D = Some rs.
Proof.
  intros Hp HD Hr. unfold zlen in *.
  do 12 (destruct D as [|? D]; [discriminate HD|]). destruct D; [|cbn [length] in HD; lia].
  do 16 (destruct rs as [|? rs]; [discriminate Hr|]). destruct rs; [|cbn [length] in Hr; lia].
  do 3 (match type of Hp with packed (?a :: ?b :: ?c :: ?D) (?x :: ?y :: ?z :: ?w :: ?rs) =>
    apply (packed_app [a; b; c] D [x; y; z; w] rs) in Hp as [(? & ? & ? & ?)%packed3 Hp]; [|reflexivity] end).
  apply packed3 in Hp as (? & ? & ? & ?). unfold unpack16. congruence.
Qed.

Lemma dense_histo_fast_spec t len X n : forall s H D regs done, lay s t len (H ++ D ++ X) -> packed D regs ->
  zlen D = 12 * Z.of_nat n -> zlen regs = 16 * Z.of_nat n -> zlen done + zlen regs < 2 ^ 31 ->
  dense_histo_fast n s (zlen H) (histogram done) = Some (histogram (done ++ regs)).
Proof.
  induction n as [|n IH]; intros s H D regs dn HL Hp HD Hr Hlt.
  - rewrite (zlen_0_nil regs) by lia. by rewrite app_nil_r.
  - destruct (zsplit3 D 0 12) as (M0 & M & D' & -> & HM0 & HM); [lia..|]. apply zlen_0_nil in HM0 as ->.
    destruct (zsplit3 regs 0 16) as (R0 & R & regs' & -> & HR0 & HR); [lia..|]. apply zlen_0_nil in HR0 as ->.
    cbn [app] in *. rewrite zlen_app in *. apply packed_app in Hp as [Hp1 Hp2]; [|lia].
    rewrite <- app_assoc in HL. pose proof (lay_sub s t len H M (D' ++ X) HL) as Es. rewrite HM in Es.
    cbn [dense_histo_fast]. rewrite Es. cbn [mbind option_bind].
    rewrite (unpack16_spec M R) by done. cbn [mbind option_bind].
    pose proof (zlen_nonneg regs'). rewrite hincs_histogram by (apply Hp1 || lia). cbn [mbind option_bind].
    replace (zlen H + 12) with (zlen (H ++ M)) by zlia. rewrite app_assoc.
    apply (IH s (H ++ M) D'); [by rewrite <- app_assoc|done|lia|lia|rewrite zlen_app; lia].
Qed.

Lemma dense_histo_slow_spec t len H X s regs n : dmem t len H X s regs -> zlen regs <= 16384 ->
  Forall reg_ok regs -> forall done todo, regs = done ++ todo -> length todo = n ->
  dense_histo_slow n s (zlen H) (zlen done) (histogram done) = Some (histogram regs).
Proof.
  intros Hm Hl Hok. induction n as [|n IH]; intros dn todo E Hn.
  - destruct todo; [|done]. by rewrite E, app_nil_r.
  - destruct todo as [|r todo]; [done|]. cbn [dense_histo_slow].
    rewrite (dense_get t len H X s regs 32 (zlen dn) r); [|done|by left|done|subst; by apply zget_app].
    cbn [mbind option_bind].
    assert (reg_ok r) by (subst; apply Forall_app in Hok as [_ Hok]; by inversion Hok).
    pose proof (zlen_nonneg todo).
    rewrite hinc_histogram by (done || (subst; rewrite zlen_app, zlen_cons in Hl; lia)).
    cbn [mbind option_bind]. replace (zlen dn + 1) with (zlen (dn ++ [r])) by zlia.
    change (replicate (Z.to_nat 1) r) with [r].
    apply (IH (dn ++ [r]) todo); [by rewrite <- app_assoc|by injection Hn].
Qed.

Lemma raw_histo_spec n : forall A regs done, Forall reg_ok regs -> zlen regs = 8 * Z.of_nat n ->
  zlen done + zlen regs < 2 ^ 31 ->
  raw_histo_loop n (A ++ regs) (zlen A) (histogram done) = Some (histogram (done ++ regs)).
Proof.
  induction n as [|n IH]; intros A regs dn Hok Hr Hlt.
  - rewrite (zlen_0_nil regs) by lia. by rewrite !app_nil_r.
  - destruct (zsplit3 regs 0 8) as (R0 & R & regs' & -> & HR0 & HR); [lia..|]. apply zlen_0_nil in HR0 as ->.
    cbn [app] in *. rewrite zlen_app in *. apply Forall_app in Hok as [Ho1 Ho2]. pose proof (zlen_nonneg regs').
    cbn [raw_histo_loop]. rewrite zsub_app by done. cbn [mbind option_bind].
    assert (E : (if le_value R =? 0 then hinc (histogram dn) 0 8 else hincs (histogram dn) R) =
                Some (histogram (dn ++ R))).
    { destruct (Z.eqb_spec (le_value R) 0) as [E0|_]; [|apply hincs_histogram; [done|lia]].
      rewrite hinc_histogram by (unfold reg_ok; lia). do 3 f_equal.
      unfold zlen in HR. do 8 (destruct R as [|? R]; [discriminate HR|]). destruct R; [|cbn [length] in HR; lia].
      cbn [le_value] in E0. repeat (apply List.Forall_cons_iff in Ho1 as [? Ho1]). unfold reg_ok in *.
      change (replicate (Z.to_nat 8) 0) with [0; 0; 0; 0; 0; 0; 0; 0].
      repeat (f_equal; [lia|]). f_equal. lia. }
    rewrite E. cbn [mbind option_bind]. replace (zlen A + 8) with (zlen (A ++ R)) by zlia.
    rewrite (app_assoc A), (app_assoc dn). apply IH; [done|lia|rewrite zlen_app; lia].
Qed.
