(* ===== verification/HllSparse.v ===== *)
(** The sparse representation of HyperLogLogs: run-length encoding.

    [opc] are the opcodes, [enc] their bytes and [expand] the registers they stand for.  Every
    function that walks over opcodes is specified by the list of opcodes ([read_op] reads one). *)

From stdpp Require Import gmap.
From S2P Require Import Prelude Util Sds Hll HllDense.
#[local] Open Scope list_scope.
#[local] Open Scope Z_scope.

(** * Opcodes *)

Inductive opc := OZero (n : Z) | OXZero (n : Z) | OVal (v n : Z).

Definition opc_ok (o : opc) : Prop :=
  match o with
  | OZero n => 1 <= n <= 64
  | OXZero n => 1 <= n <= 16384
  | OVal v n => 1 <= v <= 32 /\ 1 <= n <= 4
  end.

Definition enc_op (o : opc) : bytes :=
  match o with
  | OZero n => [n - 1]
  | OXZero n => [64 + (n - 1) / 256; (n - 1) mod 256]
  | OVal v n => [128 + 4 * (v - 1) + (n - 1)]
  end.

Definition op_len (o : opc) : Z := match o with OZero n | OXZero n | OVal _ n => n end.
Definition op_val (o : opc) : Z := match o with OVal v _ => v | _ => 0 end.
Definition is_ozero (o : opc) : bool := match o with OZero _ => true | _ => false end.
Definition is_oxzero (o : opc) : bool := match o with OXZero _ => true | _ => false end.
Definition is_oval (o : opc) : bool := match o with OVal _ _ => true | _ => false end.

Definition enc (ops : list opc) : bytes := flat_map enc_op ops.
Definition run (o : opc) : list Z := replicate (Z.to_nat (op_len o)) (op_val o).
Definition expand (ops : list opc) : list Z := flat_map run ops.

Lemma enc_app a b : enc (a ++ b) = enc a ++ enc b.
Proof. apply flat_map_app. Qed.
Lemma expand_app a b : expand (a ++ b) = expand a ++ expand b.
Proof. apply flat_map_app. Qed.
Lemma enc_cons o ops : enc (o :: ops) = enc_op o ++ enc ops.
Proof. done. Qed.
Lemma expand_cons o ops : expand (o :: ops) = run o ++ expand ops.
Proof. done. Qed.

Lemma op_len_pos o : opc_ok o -> 1 <= op_len o <= 16384.
Proof. destruct o; cbn; lia. Qed.

Lemma op_val_ok o : opc_ok o -> reg_ok (op_val o).
Proof. unfold reg_ok. destruct o; cbn; lia. Qed.

Lemma zlen_run o : opc_ok o -> zlen (run o) = op_len o.
Proof. intros H%op_len_pos. unfold run. rewrite zlen_replicate. lia. Qed.

Lemma zlen_enc_op o : zlen (enc_op o) = if is_oxzero o then 2 else 1.
Proof. by destruct o. Qed.

Lemma enc_op_bytes o : opc_ok o -> bytes_ok (enc_op o).
Proof. destruct o; cbn; intros; repeat (apply List.Forall_cons; [unfold byte_ok; dlia|]); by apply List.Forall_nil. Qed.

Lemma enc_bytes ops : Forall opc_ok ops -> bytes_ok (enc ops).
Proof. induction 1; [by apply List.Forall_nil|]. apply Forall_app. by split; [apply enc_op_bytes|]. Qed.

Lemma expand_regs ops : Forall opc_ok ops -> Forall reg_ok (expand ops).
Proof.
  induction 1 as [|o ops Ho _ IH]; [by apply List.Forall_nil|]. apply Forall_app. split; [|done].
  unfold run. apply Forall_replicate. by apply op_val_ok.
Qed.

(** Opcodes take at most twice as many bytes as there are of them, and stand for a register each. *)
Lemma enc_sizes ops : Forall opc_ok ops -> zlen ops <= zlen (enc ops) <= 2 * zlen ops /\ zlen ops <= zlen (expand ops).
Proof.
  induction 1 as [|o ops Ho _ IH]; [done|]. rewrite enc_cons, expand_cons, !zlen_app, zlen_cons, zlen_run, zlen_enc_op by done.
  pose proof (op_len_pos o Ho). destruct (is_oxzero o); lia.
Qed.

(** ** The bytes the macros store *)

Lemma VAL_SET_enc v n : opc_ok (OVal v n) -> HLL_SPARSE_VAL_SET v n = enc_op (OVal v n).
Proof.
  intros [Hv Hn]. unfold HLL_SPARSE_VAL_SET, HLL_SPARSE_VAL_BIT. cbn [enc_op]. f_equal.
  assert (E : Z.lor (Z.lor (Z.shiftl (v - 1) 2) (n - 1)) 128 = 128 + 4 * (v - 1) + (n - 1)).
  { rewrite (Z.lor_comm _ (n - 1)), lor_above by (pows; lia). pows.
    pose proof (lor_above (n - 1 + (v - 1) * 4) 1 7) as E. change (Z.shiftl 1 7) with 128 in E. rewrite E by (pows; lia).
    pows. lia. }
  rewrite E. apply u8_byte. unfold byte_ok. lia.
Qed.

Lemma ZERO_SET_enc n : opc_ok (OZero n) -> HLL_SPARSE_ZERO_SET n = enc_op (OZero n).
Proof. intros Hn. cbn in Hn. unfold HLL_SPARSE_ZERO_SET. cbn [enc_op]. f_equal. apply u8_byte. unfold byte_ok. lia. Qed.

Lemma XZERO_SET_enc n : opc_ok (OXZero n) -> HLL_SPARSE_XZERO_SET n = enc_op (OXZero n).
Proof.
  intros Hn. cbn in Hn. unfold HLL_SPARSE_XZERO_SET, HLL_SPARSE_XZERO_BIT. cbn [enc_op].
  rewrite Z.shiftr_div_pow2 by lia. change 255 with (Z.ones 8). rewrite Z.land_ones by lia. pows.
  pose proof (lor_above ((n - 1) / 256) 1 6) as E. change (Z.shiftl 1 6) with 64 in E. rewrite E by (pows; dlia). pows.
  rewrite !u8_byte by (unfold byte_ok; dlia). f_equal. lia.
Qed.

Lemma zero_run_enc n : 1 <= n <= 16384 -> exists o, zero_run n = enc_op o /\ opc_ok o /\ run o = replicate (Z.to_nat n) 0.
Proof.
  intros Hn. unfold zero_run, HLL_SPARSE_ZERO_MAX_LEN. rewrite Z.gtb_ltb. destruct (Z.ltb_spec 64 n).
  - exists (OXZero n). split; [apply XZERO_SET_enc; cbn; lia|]. split; [cbn; lia|done].
  - exists (OZero n). split; [apply ZERO_SET_enc; cbn; lia|]. split; [cbn; lia|done].
Qed.

(** ** Reading an opcode *)

Lemma byte_bits b : byte_ok b ->
  Z.land b 192 = b / 64 * 64 /\ Z.land b 128 = b / 128 * 128 /\ Z.land b 63 = b mod 64 /\
  Z.land b 3 = b mod 4 /\ Z.land (Z.shiftr b 2) 31 = b / 4 mod 32.
Proof.
  intros H. rewrite <- !Z.eqb_eq. split_and!; revert b H; apply byte_forall; vm_compute; reflexivity.
Qed.

Section Read.
Context (s : sds) (t len : Z) (A B : bytes) (o : opc).
Context (HL : lay s t len (A ++ enc_op o ++ B)) (Ho : opc_ok o).
#[local] Set Default Proof Using "All".

Lemma rd_first b R : enc_op o = b :: R -> rd s (zlen A) = Some b.
Proof.
  intros E. unfold rd. rewrite (lay_get _ _ _ _ _ HL) by apply zlen_nonneg. rewrite E. by apply zget_app.
Qed.

Lemma read_op :
  HLL_SPARSE_IS_ZERO s (zlen A) = Some (is_ozero o) /\ HLL_SPARSE_IS_XZERO s (zlen A) = Some (is_oxzero o) /\
  HLL_SPARSE_IS_VAL s (zlen A) = Some (is_oval o) /\ is_Some (HLL_SPARSE_VAL_VALUE s (zlen A)) /\
  match o with
  | OZero n => HLL_SPARSE_ZERO_LEN s (zlen A) = Some n
  | OXZero n => HLL_SPARSE_XZERO_LEN s (zlen A) = Some n
  | OVal v n => HLL_SPARSE_VAL_LEN s (zlen A) = Some n /\ HLL_SPARSE_VAL_VALUE s (zlen A) = Some v
  end.
Proof.
  assert (exists b R, enc_op o = b :: R) as (b & R & E) by (destruct o; eauto).
  pose proof (rd_first b R E) as Er. pose proof (enc_op_bytes o Ho) as Hb. rewrite E in Hb. inversion Hb as [|? ? Hb0 _]; subst.
  destruct (byte_bits b Hb0) as (E1 & E2 & E3 & E4 & E5).
  unfold HLL_SPARSE_IS_ZERO, HLL_SPARSE_IS_XZERO, HLL_SPARSE_IS_VAL, HLL_SPARSE_VAL_VALUE, HLL_SPARSE_ZERO_LEN,
    HLL_SPARSE_XZERO_LEN, HLL_SPARSE_VAL_LEN, HLL_SPARSE_XZERO_BIT, HLL_SPARSE_VAL_BIT. rewrite Er.
  cbn [mbind option_bind]. rewrite E1, E2, E3, E4, E5.
  destruct o as [n|n|v n]; cbn in E, Ho; simplify_eq; cbn [is_ozero is_oxzero is_oval].
  - split_and!; [..|by eexists|f_equal; dlia];
      f_equal; first [apply Z.eqb_eq; dlia|apply Z.eqb_neq; dlia|apply negb_false_iff, Z.eqb_eq; dlia].
  - split_and!; [..|by eexists|];
      [f_equal; first [apply Z.eqb_eq; dlia|apply Z.eqb_neq; dlia|apply negb_false_iff, Z.eqb_eq; dlia]..|].
    unfold rd. rewrite (lay_get _ _ _ _ _ HL) by (pose proof (zlen_nonneg A); lia). rewrite zget_app_r by lia.
    replace (zlen A + 1 - zlen A) with 1 by lia. change (zget _ 1) with (Some ((n - 1) mod 256)). cbn [mbind option_bind].
    f_equal. rewrite Z.lor_comm, lor_above by dlia. pows. dlia.
  - split_and!; [..|by eexists|f_equal; dlia|f_equal; dlia];
      f_equal; first [apply Z.eqb_eq; dlia|apply Z.eqb_neq; dlia|apply negb_true_iff, Z.eqb_neq; dlia].
Qed.

End Read.

(** * Walking over the opcodes *)

(** Open the loop on the opcode at the front of the list. *)
Ltac read_front HL Ho :=
  rewrite enc_cons, <- app_assoc in HL;
  let Ez := fresh "Ez" in let Ex := fresh "Ex" in let Ev := fresh "Ev" in
  let Hs := fresh "Hs" in let Hlen := fresh "Hlen" in
  destruct (read_op _ _ _ _ _ _ HL Ho) as (Ez & Ex & Ev & Hs & Hlen);
  rewrite enc_cons, zlen_app in *;
  rewrite ?Ez, ?Ex, ?Ev; cbn [mbind option_bind];
  match type of HL with lay _ _ _ (?A ++ ?E ++ ?R) => rewrite (app_assoc A E R) in HL end.

Lemma front_lt (A : bytes) o ops : (zlen A <? zlen A + zlen (enc (o :: ops))) = true.
Proof.
  apply Z.ltb_lt. rewrite enc_cons, zlen_app, zlen_enc_op. pose proof (zlen_nonneg (enc ops)).
  destruct (is_oxzero o); lia.
Qed.

Lemma back_lt (A : bytes) : (zlen A <? zlen A + zlen (enc [])) = false.
Proof. apply Z.ltb_ge. change (zlen (enc [])) with 0. lia. Qed.

Lemma s32_small i : 0 <= i < 2 ^ 31 -> s32 i = i.
Proof. intros. apply swrap_small; unfold srange; lia. Qed.

Lemma expand_zeros o ops : op_val o = 0 -> replicate (length (expand (o :: ops))) 0 = run o ++ replicate (length (expand ops)) 0.
Proof.
  intros E. rewrite expand_cons, length_app, replicate_add. f_equal. unfold run. by rewrite length_replicate, E.
Qed.

Section ToDense.
Context (td ld : Z) (Hd Xd : bytes) (HHd : zlen Hd = HLL_HDR_SIZE).
#[local] Set Default Proof Using "All".

Lemma set_run_spec v n : reg_ok v -> forall d dn tail, dmem td ld Hd Xd d (dn ++ replicate n 0 ++ tail) ->
  zlen (dn ++ replicate n 0 ++ tail) <= 16384 ->
  exists d', set_run n d (zlen dn) v = Some (d', zlen dn + Z.of_nat n) /\ dmem td ld Hd Xd d' (dn ++ replicate n v ++ tail).
Proof.
  intros Hv. induction n as [|n IH]; intros d dn tail Hm Hl.
  - exists d. split; [|done]. cbn. do 2 f_equal. lia.
  - cbn [replicate app set_run] in *. rewrite !zlen_app, zlen_cons in Hl. pose proof (zlen_nonneg dn).
    pose proof (zlen_nonneg (replicate n 0)) as Hp1. pose proof (zlen_nonneg tail) as Hp2. rewrite zlen_app in Hl.
    rewrite <- HHd. destruct (dense_set td ld Hd Xd d _ 32 (zlen dn) v Hm) as (d1 & -> & H1); [by left| | |done|].
    { rewrite !zlen_app, zlen_cons, zlen_app. lia. }
    { rewrite !zlen_app, zlen_cons, zlen_app. lia. }
    cbn [mbind option_bind]. rewrite to_nat_zlen, <- (Nat.add_0_r (length dn)), insert_app_r in H1. cbn in H1.
    rewrite s32_small by lia. replace (zlen dn + 1) with (zlen (dn ++ [v])) by zlia.
    destruct (IH d1 (dn ++ [v]) tail) as (d' & E & H').
    { by rewrite <- app_assoc. }
    { rewrite <- app_assoc, !zlen_app. change (zlen [v]) with 1. lia. }
    exists d'. rewrite E. split; [do 2 f_equal; rewrite zlen_app; change (zlen [v]) with 1; lia|].
    by rewrite <- app_assoc in H'.
Qed.

Lemma to_dense_loop_spec s t len X ops : Forall opc_ok ops -> forall fuel A d dn rest,
  lay s t len (A ++ enc ops ++ X) -> (length ops < fuel)%nat ->
  dmem td ld Hd Xd d (dn ++ replicate (length (expand ops)) 0 ++ rest) ->
  zlen dn + zlen (expand ops) + zlen rest <= 16384 ->
  exists d', to_dense_loop fuel s (zlen A + zlen (enc ops)) d (zlen A) (zlen dn) =
    Some (d', zlen dn + zlen (expand ops)) /\ dmem td ld Hd Xd d' (dn ++ expand ops ++ rest).
Proof.
  induction 1 as [|o ops Ho Hops IH]; intros fuel A d dn rest HL Hf Hm Hl;
    (destruct fuel as [|fuel]; [cbn in Hf; lia|]); cbn [to_dense_loop].
  - rewrite back_lt. exists d. split; [|done]. change (zlen (expand [])) with 0. do 2 f_equal. lia.
  - rewrite front_lt. read_front HL Ho. rewrite expand_cons, zlen_app, zlen_run in * by done.
    pose proof (op_len_pos o Ho). pose proof (zlen_nonneg dn). pose proof (zlen_nonneg (expand ops)). pose proof (zlen_nonneg rest).
    assert (Hnext : forall d1, dmem td ld Hd Xd d1 (dn ++ run o ++ replicate (length (expand ops)) 0 ++ rest) ->
      exists d', to_dense_loop fuel s (zlen A + (zlen (enc_op o) + zlen (enc ops))) d1 (zlen A + zlen (enc_op o)) (zlen dn + op_len o) =
        Some (d', zlen dn + (op_len o + zlen (expand ops))) /\ dmem td ld Hd Xd d' (dn ++ (run o ++ expand ops) ++ rest)).
    { intros d1 Hm1. destruct (IH fuel (A ++ enc_op o) d1 (dn ++ run o) rest) as (d' & E & H'); [done|cbn in Hf; lia| | |].
      - by rewrite <- app_assoc.
      - rewrite zlen_app, zlen_run by done. lia.
      - rewrite !zlen_app, zlen_run, <- !Z.add_assoc in E by done. exists d'. split; [done|].
        by rewrite <- !app_assoc in *. }
    destruct o as [n|n|v n]; cbn [is_ozero is_oxzero op_len] in *.
    + rewrite Hlen. cbn [mbind option_bind]. rewrite s32_small by lia. apply Hnext.
      change (run (OZero n) ++ expand ops) with (expand (OZero n :: ops)) in Hm. rewrite expand_zeros in Hm by done.
      by rewrite <- app_assoc in Hm.
    + rewrite Hlen. cbn [mbind option_bind]. rewrite s32_small by lia. apply Hnext.
      change (run (OXZero n) ++ expand ops) with (expand (OXZero n :: ops)) in Hm. rewrite expand_zeros in Hm by done.
      by rewrite <- app_assoc in Hm.
    + destruct Hlen as [-> ->]. cbn [mbind option_bind]. rewrite s32_small by lia. rewrite Z.gtb_ltb.
      change HLL_REGISTERS with 16384. rewrite (proj2 (Z.ltb_ge _ _)) by lia.
      rewrite length_app, replicate_add, <- app_assoc in Hm. unfold run at 1 in Hm. rewrite length_replicate in Hm. cbn [op_len] in Hm.
      destruct (set_run_spec v (Z.to_nat n)) with (1 := op_val_ok _ Ho) (2 := Hm) as (d1 & E1 & Hm1).
      { rewrite !zlen_app, !zlen_replicate. unfold zlen in *. lia. }
      rewrite E1. cbn [mbind option_bind]. rewrite Z2Nat.id by lia. by apply Hnext.
Qed.

End ToDense.

Lemma sparse_histo_spec s t len X ops : Forall opc_ok ops -> forall fuel A dn,
  lay s t len (A ++ enc ops ++ X) -> (length ops < fuel)%nat -> zlen dn + zlen (expand ops) < 2 ^ 31 ->
  sparse_histo_loop fuel s (zlen A) (zlen A + zlen (enc ops)) (zlen dn) (histogram dn) =
    Some (histogram (dn ++ expand ops), zlen dn + zlen (expand ops)).
Proof.
  induction 1 as [|o ops Ho Hops IH]; intros fuel A dn HL Hf Hl;
    (destruct fuel as [|fuel]; [cbn in Hf; lia|]); cbn [sparse_histo_loop].
  - rewrite back_lt. change (expand []) with (@nil Z). rewrite app_nil_r. change (zlen (@nil Z)) with 0. do 2 f_equal. lia.
  - rewrite front_lt. read_front HL Ho. rewrite expand_cons, zlen_app, zlen_run in * by done.
    pose proof (op_len_pos o Ho). pose proof (zlen_nonneg dn). pose proof (zlen_nonneg (expand ops)).
    assert (Hnext : (h ← hinc (histogram dn) (op_val o) (op_len o);
      sparse_histo_loop fuel s (zlen A + zlen (enc_op o)) (zlen A + (zlen (enc_op o) + zlen (enc ops))) (s32 (zlen dn + op_len o)) h) =
      Some (histogram (dn ++ run o ++ expand ops), zlen dn + (op_len o + zlen (expand ops)))).
    { rewrite hinc_histogram by (lia || by apply op_val_ok). cbn [mbind option_bind]. rewrite s32_small by lia.
      specialize (IH fuel (A ++ enc_op o) (dn ++ run o) HL ltac:(cbn in Hf; lia)).
      rewrite !zlen_app, zlen_run, <- !app_assoc, <- !Z.add_assoc in IH by done. apply IH. lia. }
    destruct o as [n|n|v n]; cbn [is_ozero is_oxzero op_len op_val] in *;
      [rewrite Hlen|rewrite Hlen|destruct Hlen as [-> ->]]; cbn [mbind option_bind]; exact Hnext.
Qed.

(** ** Merging *)

Definition zmax_list (a b : list Z) : list Z := zip_with Z.max a b.

Lemma merge_run_spec v n : forall dn M tail, length M = n -> zlen (dn ++ M ++ tail) <= 16384 ->
  merge_run n (dn ++ M ++ tail) (zlen dn) v = Some (dn ++ zmax_list M (replicate n v) ++ tail, zlen dn + Z.of_nat n).
Proof.
  induction n as [|n IH]; intros dn M tail HM Hl.
  - destruct M; [|done]. cbn. do 2 f_equal. lia.
  - destruct M as [|m M]; [done|]. cbn [replicate app merge_run].
    rewrite !zlen_app, zlen_cons in Hl. pose proof (zlen_nonneg dn). pose proof (zlen_nonneg M). pose proof (zlen_nonneg tail).
    rewrite zget_app by done. cbn [mbind option_bind].
    assert (E : (if v >? m then zput (dn ++ m :: M ++ tail) (zlen dn) [v] else Some (dn ++ m :: M ++ tail)) =
      Some (dn ++ [Z.max m v] ++ M ++ tail)).
    { rewrite Z.gtb_ltb. destruct (Z.ltb_spec m v).
      - rewrite Z.max_r by lia. by apply (zput_app dn [m]).
      - by rewrite Z.max_l by lia. }
    rewrite E. cbn [mbind option_bind]. rewrite s32_small by lia. replace (zlen dn + 1) with (zlen (dn ++ [Z.max m v])) by zlia.
    rewrite app_assoc, IH by (naive_solver || (rewrite !zlen_app; change (zlen [_]) with 1; lia)).
    cbn [zmax_list zip_with]. rewrite <- app_assoc. do 2 f_equal. rewrite zlen_app. change (zlen [_]) with 1. lia.
Qed.

Lemma zmax_zero M : Forall reg_ok M -> zmax_list M (replicate (length M) 0) = M.
Proof. induction 1 as [|m M Hm _ IH]; [done|]. cbn. unfold zmax_list in IH. rewrite IH, Z.max_l by apply Hm. done. Qed.

Lemma zmax_app a a' b b' : length a = length b -> zmax_list (a ++ a') (b ++ b') = zmax_list a b ++ zmax_list a' b'.
Proof. apply zip_with_app. Qed.

Lemma merge_sparse_spec s t len X ops : Forall opc_ok ops -> forall fuel A dn M,
  lay s t len (A ++ enc ops ++ X) -> (length ops < fuel)%nat -> Forall reg_ok M -> zlen M = zlen (expand ops) ->
  zlen dn + zlen M <= 16384 ->
  merge_sparse fuel (dn ++ M) s (zlen A) (zlen A + zlen (enc ops)) (zlen dn) =
    Some (dn ++ zmax_list M (expand ops), zlen dn + zlen (expand ops)).
Proof.
  induction 1 as [|o ops Ho Hops IH]; intros fuel A dn M HL Hf HM HlM Hl;
    (destruct fuel as [|fuel]; [cbn in Hf; lia|]); cbn [merge_sparse].
  - rewrite back_lt. change (expand []) with (@nil Z) in *. apply zlen_0_nil in HlM as ->.
    change (zlen (@nil Z)) with 0. do 2 f_equal. lia.
  - rewrite front_lt. read_front HL Ho. rewrite expand_cons, zlen_app, zlen_run in * by done.
    pose proof (op_len_pos o Ho). pose proof (zlen_nonneg dn). pose proof (zlen_nonneg (expand ops)).
    destruct (zsplit3 M 0 (op_len o)) as (M0 & R & M' & -> & HM0 & HR); [lia..|]. apply zlen_0_nil in HM0 as ->.
    cbn [app] in *. apply Forall_app in HM as [HM1 HM2]. rewrite zlen_app in *.
    assert (Hlr : length R = length (run o)) by (pose proof (zlen_run o Ho); unfold zlen in *; lia).
    rewrite zmax_app by done.
    assert (Hnext : forall R', zlen R' = op_len o -> R' = zmax_list R (run o) ->
      merge_sparse fuel (dn ++ R' ++ M') s (zlen A + zlen (enc_op o)) (zlen A + (zlen (enc_op o) + zlen (enc ops))) (zlen dn + op_len o) =
      Some (dn ++ zmax_list R (run o) ++ zmax_list M' (expand ops), zlen dn + (op_len o + zlen (expand ops)))).
    { intros R' Hl' ->. specialize (IH fuel (A ++ enc_op o) (dn ++ zmax_list R (run o)) M' HL ltac:(cbn in Hf; lia) HM2 ltac:(lia)).
      rewrite !zlen_app, Hl', <- !app_assoc, <- !Z.add_assoc in IH. apply IH. lia. }
    assert (Hz : op_val o = 0 -> R = zmax_list R (run o)).
    { intros E. replace (run o) with (replicate (length R) 0); [by rewrite zmax_zero|].
      rewrite Hlr. unfold run. by rewrite length_replicate, E. }
    destruct o as [n|n|v n]; cbn [is_ozero is_oxzero op_len op_val] in *.
    + rewrite Hlen. cbn [mbind option_bind]. rewrite s32_small by lia. by apply Hnext; [|apply Hz].
    + rewrite Hlen. cbn [mbind option_bind]. rewrite s32_small by lia. by apply Hnext; [|apply Hz].
    + destruct Hlen as [-> ->]. cbn [mbind option_bind]. rewrite Z.gtb_ltb.
      change HLL_REGISTERS with 16384. rewrite (proj2 (Z.ltb_ge _ _)) by lia.
      rewrite merge_run_spec by (unfold zlen in HR; lia || (rewrite !zlen_app; lia)). cbn [mbind option_bind].
      rewrite Z2Nat.id by lia. apply Hnext; [|done].
      unfold zmax_list, zlen. rewrite length_zip_with, length_replicate. unfold zlen in HR. lia.
Qed.

(** ** Finding the opcode of a register *)

Lemma locate_spec s t len X ops : Forall opc_ok ops -> forall fuel A index prev first span,
  lay s t len (A ++ enc ops ++ X) -> (length ops < fuel)%nat -> first <= index < first + zlen (expand ops) ->
  exists pre o post prev', ops = pre ++ o :: post /\
    locate fuel s (zlen A + zlen (enc ops)) index prev (zlen A) first span =
      Some (prev', zlen A + zlen (enc pre), first + zlen (expand pre), op_len o) /\
    first + zlen (expand pre) <= index < first + zlen (expand pre) + op_len o /\
    ((pre = [] /\ prev' = prev) \/ exists pre0 o0, pre = pre0 ++ [o0] /\ prev' = Some (zlen A + zlen (enc pre0))).
Proof.
  induction 1 as [|o ops Ho Hops IH]; intros fuel A index prev first span HL Hf Hi.
  { change (zlen (expand [])) with 0 in Hi. lia. }
  destruct fuel as [|fuel]; [cbn in Hf; lia|]. cbn [locate]. rewrite front_lt.
  read_front HL Ho. rewrite expand_cons, zlen_app, zlen_run in Hi by done.
  pose proof (op_len_pos o Ho).
  assert (E : (if is_ozero o then l ← HLL_SPARSE_ZERO_LEN s (zlen A); Some (l, 1)
    else if is_oval o then l ← HLL_SPARSE_VAL_LEN s (zlen A); Some (l, 1)
    else l ← HLL_SPARSE_XZERO_LEN s (zlen A); Some (l, 2)) = Some (op_len o, zlen (enc_op o))).
  { destruct o; cbn [is_ozero is_oval]; [by rewrite Hlen|by rewrite Hlen|by rewrite (proj1 Hlen)]. }
  rewrite E. cbn [mbind option_bind]. destruct (Z.leb_spec index (first + op_len o - 1)).
  - exists [], o, ops, prev. change (zlen (enc [])) with 0. change (zlen (expand [])) with 0.
    split_and!; [done|do 4 f_equal; lia|lia|lia|by left].
  - destruct (IH fuel (A ++ enc_op o) index (Some (zlen A)) (first + op_len o) (op_len o) HL)
      as (pre & o' & post & prev' & -> & El & Hr & Hp); [cbn in Hf; lia|lia|].
    exists (o :: pre), o', post, prev'. split; [done|].
    rewrite enc_cons, expand_cons, !zlen_app, zlen_run in * by done. rewrite <- !Z.add_assoc in *.
    split_and!; [exact El|lia|lia|]. right. destruct Hp as [[-> ->]|(pre0 & o0 & -> & ->)].
    + exists [], o. split; [done|]. change (zlen (enc [])) with 0. f_equal. lia.
    + exists (o :: pre0), o0. split; [done|]. rewrite enc_cons, zlen_app. f_equal. lia.
Qed.
