(* ===== verification/HllSet.v ===== *)
(** Setting a register of a sparse HyperLogLog: splitting an opcode, merging its neighbours and
    promotion to the dense representation.

    [hll_content] says what bytes represent registers and a cached cardinality, [is_hll] that a
    string holds them; the main lemma is [hllSparseSet_spec]. *)

From Stdlib Require Import String.
From stdpp Require Import gmap.
From S2P Require Import Prelude Util Sds Hll HllDense HllSparse.
#[local] Open Scope list_scope.
#[local] Open Scope Z_scope.

(** * Editing the string in place *)

(** [sdsIncrLen] on a string with room: the length changes and the terminator moves. *)
Lemma incrlen_lay s t len body delta : lay s t len body -> t <> 0 -> - 2 ^ 31 < delta < 2 ^ 31 ->
  0 <= len + delta <= zlen body - 1 ->
  exists s1, lay s1 t (len + delta) body /\ sdsIncrLen s delta = s_put s1 (len + delta) [0].
Proof.
  intros H Hne Hd Hl. pose proof (lay_t _ _ _ _ H) as Ht. pose proof (lay_body _ _ _ _ H) as Hb.
  destruct (lay_flags _ _ _ _ H) as (f & Ef & Em & _).
  destruct (lay_setlen s t _ _ (len + delta) H) as (s1 & E1 & H1); [lia|done|]. exists s1. split; [done|].
  assert (E1' : set_hdr_len (sds_w t) s (len + delta) = Some s1).
  { rewrite <- E1. unfold sdssetlen. rewrite Ef. cbn [mbind option_bind]. rewrite Em. tcases Ht; done. }
  assert (Hi : forall cp cn, (0 <= delta -> cp delta = delta) -> (delta < 0 -> cn (- delta) = - delta) ->
    hdr_incrlen (sds_w t) cp cn s delta = Some (s1, len + delta)).
  { intros cp cn Hp Hn. unfold hdr_incrlen. destruct (lay_fields _ _ _ _ H Hne) as [El Ea]. rewrite Ea, El.
    cbn [mbind option_bind].
    assert (Ea' : assert_ ((delta >=? 0) && (zlen body - 1 - len >=? cp delta) || (delta <? 0) && (len >=? cn (- delta))) = Some tt).
    { unfold assert_. rewrite !Z.geb_leb. destruct (Z.leb_spec 0 delta).
      - rewrite Hp by lia. by rewrite (proj2 (Z.leb_le _ _)) by lia.
      - rewrite Hn by lia. rewrite (proj2 (Z.ltb_lt delta 0)) by lia. cbn [andb orb]. by rewrite (proj2 (Z.leb_le _ _)) by lia. }
    rewrite Ea'. cbn [mbind option_bind]. rewrite E1'. cbn [mbind option_bind].
    by rewrite (proj1 (lay_fields _ _ _ _ H1 Hne)). }
  assert (Hu : forall z, 0 <= z < 2 ^ 31 -> u32 z = z /\ u64 z = z) by (intros; split; apply uwrap_small; unfold urange; lia).
  assert (Hc : forall z, u32 z = uwrap 32 z /\ u64 z = uwrap 64 z) by done.
  unfold sdsIncrLen. rewrite Ef. cbn [mbind option_bind]. rewrite Em.
  tcases Ht; [done|..]; cbn [sds_w] in Hi; rewrite Hi by (intros; (done || apply Hu; lia)); reflexivity.
Qed.

(** A store somewhere behind [A]. *)
Lemma lay_store s t len A R b i : lay s t len (A ++ R) -> zlen A <= i -> i + zlen b <= zlen A + zlen R ->
  exists s' G Q, s_put s i b = Some s' /\ lay s' t len (A ++ G ++ b ++ Q) /\ zlen G = i - zlen A /\
    zlen G + zlen b + zlen Q = zlen R.
Proof.
  intros H Hi Hb. pose proof (zlen_nonneg b). destruct (zsplit3 R (i - zlen A) (zlen b)) as (G & M & Q & -> & HG & HM); [lia..|].
  rewrite app_assoc in H. destruct (lay_put s t len (A ++ G) M Q b i H) as (s' & E & H'); [zlia|done|].
  exists s', G, Q. rewrite <- app_assoc in H'. split_and!; [done|done|done|]. rewrite !zlen_app. lia.
Qed.

(** Replacing [old] by [seq] in the content, as step 3 of [hllSparseSet] does. *)
Lemma sparse_replace_spec s t A old post spare seq :
  lay s t (zlen A + zlen old + zlen post) (A ++ old ++ post ++ 0 :: spare) -> t <> 0 ->
  1 <= zlen old <= 2 -> 1 <= zlen seq <= 5 -> zlen seq - zlen old <= zlen spare ->
  exists s' spare',
    sparse_replace s (zlen A) (zlen A + zlen old + zlen post)
      (if zlen A + zlen old >=? zlen A + zlen old + zlen post then None else Some (zlen A + zlen old)) (zlen old) seq = Some s' /\
    lay s' t (zlen A + zlen seq + zlen post) (A ++ seq ++ post ++ 0 :: spare').
Proof.
  intros H Hne Hold Hseq Hroom. set (delta := zlen seq - zlen old) in *.
  pose proof (zlen_nonneg A) as PA. pose proof (zlen_nonneg post) as Pp. pose proof (zlen_nonneg spare) as Ps.
  assert (Hmove : exists s1 G R,
    match (if zlen A + zlen old >=? zlen A + zlen old + zlen post then None else Some (zlen A + zlen old)) with
    | Some next =>
        if negb (delta =? 0) then b ← s_sub s next (zlen A + zlen old + zlen post - next); s_put s (next + delta) b else Some s
    | None => Some s
    end = Some s1 /\ lay s1 t (zlen A + zlen old + zlen post) (A ++ G ++ post ++ R) /\ zlen G = zlen seq /\
    zlen R = 1 + zlen spare - delta).
  { rewrite Z.geb_leb. destruct (Z.leb_spec (zlen A + zlen old + zlen post) (zlen A + zlen old)).
    - assert (post = []) as -> by (apply zlen_0_nil; lia). cbn [app] in *.
      destruct (zsplit3 (old ++ 0 :: spare) 0 (zlen seq)) as (P & G & R & E & HP & HG); [lia..|unfold delta in *; zlia|].
      apply zlen_0_nil in HP as ->. cbn [app] in E. exists s, G, R. rewrite <- E. split_and!; [done|done|done|].
      apply (f_equal zlen) in E. rewrite !zlen_app, zlen_cons in E. unfold delta. lia.
    - destruct (Z.eqb_spec delta 0) as [Ed|Ed]; cbn [negb].
      + exists s, old, (0 :: spare). split_and!; [done|done|unfold delta in *; lia|rewrite zlen_cons; lia].
      + replace (zlen A + zlen old + zlen post - (zlen A + zlen old)) with (zlen post) by lia.
        rewrite app_assoc in H. pose proof (lay_sub s t _ (A ++ old) post (0 :: spare) H) as Es. rewrite zlen_app in Es.
        rewrite Es. cbn [mbind option_bind]. rewrite <- app_assoc in H.
        destruct (lay_store s t _ A (old ++ post ++ 0 :: spare) post (zlen A + zlen old + delta) H) as (s1 & G & Q & E & H1 & HG & HQ);
          [unfold delta; lia|unfold delta in *; zlia|].
        exists s1, G, Q. split_and!; [done|done|unfold delta in *; lia|].
        rewrite !zlen_app, zlen_cons in HQ. unfold delta in *. lia. }
  destruct Hmove as (s1 & G & R & E1 & H1 & HG & HR).
  unfold sparse_replace. fold delta. rewrite E1. cbn [mbind option_bind].
  assert (exists x R', R = x :: R') as (x & R' & ->).
  { destruct R as [|x R']; [|by exists x, R']. change (zlen (@nil Z)) with 0 in HR. lia. }
  destruct (incrlen_lay s1 t _ _ delta H1 Hne) as (s2 & H2 & ->); [unfold delta; lia| |].
  { rewrite !zlen_app, zlen_cons in *. pose proof (zlen_nonneg R'). unfold delta in *. lia. }
  replace (zlen A + zlen old + zlen post + delta) with (zlen A + zlen seq + zlen post) in * by (unfold delta; lia).
  replace (A ++ G ++ post ++ x :: R') with ((A ++ G ++ post) ++ [x] ++ R') in H2 by (by rewrite <- !app_assoc).
  destruct (lay_put s2 t _ (A ++ G ++ post) [x] R' [0] (zlen A + zlen seq + zlen post) H2) as (s3 & -> & H3);
    [rewrite !zlen_app; lia|done|].
  cbn [mbind option_bind].
  replace ((A ++ G ++ post) ++ [0] ++ R') with (A ++ G ++ post ++ 0 :: R') in H3 by (by rewrite <- !app_assoc).
  destruct (lay_put s3 t _ A G (post ++ 0 :: R') seq (zlen A) H3) as (s4 & -> & H4); [done|done|].
  by exists s4, R'.
Qed.

(** Equality of concatenations. *)
Ltac apps := repeat first [rewrite <- app_assoc | progress cbn [app]]; reflexivity.

(** One merge of two VAL opcodes. *)
Lemma merge_step s t A o1 o2 ops spare v l1 l2 : o1 = OVal v l1 -> o2 = OVal v l2 -> opc_ok o1 -> opc_ok o2 -> l1 + l2 <= 4 ->
  lay s t (zlen A + zlen (enc (o1 :: o2 :: ops))) (A ++ enc (o1 :: o2 :: ops) ++ 0 :: spare) -> t <> 0 ->
  exists s1 b s2 s3 spare', s_put s (zlen A + 1) (HLL_SPARSE_VAL_SET v (l1 + l2)) = Some s1 /\
    s_sub s1 (zlen A + 1) (zlen A + zlen (enc (o1 :: o2 :: ops)) - zlen A) = Some b /\
    s_put s1 (zlen A) b = Some s2 /\ sdsIncrLen s2 (-1) = Some s3 /\
    lay s3 t (zlen A + zlen (enc (OVal v (l1 + l2) :: ops))) (A ++ enc (OVal v (l1 + l2) :: ops) ++ 0 :: spare').
Proof.
  intros -> -> Ho1 Ho2 Hle H Hne. rewrite VAL_SET_enc by (cbn in *; lia).
  set (x1 := 128 + 4 * (v - 1) + (l1 - 1)). set (x2 := 128 + 4 * (v - 1) + (l2 - 1)).
  set (y := 128 + 4 * (v - 1) + (l1 + l2 - 1)). set (E := enc ops) in *.
  change (enc (OVal v l1 :: OVal v l2 :: ops)) with (x1 :: x2 :: E) in *.
  change (enc (OVal v (l1 + l2) :: ops)) with (y :: E). change (enc_op (OVal v (l1 + l2))) with [y].
  pose proof (zlen_nonneg A) as PA. pose proof (zlen_nonneg E) as PE.
  replace (A ++ (x1 :: x2 :: E) ++ 0 :: spare) with ((A ++ [x1]) ++ [x2] ++ E ++ 0 :: spare) in H by apps.
  destruct (lay_put s t _ (A ++ [x1]) [x2] (E ++ 0 :: spare) [y] (zlen A + 1) H) as (s1 & E1 & H1); [zlia|done|].
  exists s1, (y :: E ++ [0]).
  replace ((A ++ [x1]) ++ [y] ++ E ++ 0 :: spare) with ((A ++ [x1]) ++ (y :: E ++ [0]) ++ spare) in H1
    by apps.
  pose proof (lay_sub s1 t _ (A ++ [x1]) (y :: E ++ [0]) spare H1) as Es.
  assert (Hn : zlen (y :: E ++ [0]) = zlen A + zlen (x1 :: x2 :: E) - zlen A) by zlia.
  rewrite Hn, zlen_app in Es. change (zlen [x1]) with 1 in Es.
  replace ((A ++ [x1]) ++ (y :: E ++ [0]) ++ spare) with (A ++ (x1 :: y :: E) ++ 0 :: spare) in H1
    by apps.
  destruct (lay_put s1 t _ A (x1 :: y :: E) (0 :: spare) (y :: E ++ [0]) (zlen A) H1) as (s2 & E2 & H2); [done|zlia|].
  exists s2. destruct (incrlen_lay s2 t _ _ (-1) H2 Hne) as (s3 & H3 & E3); [lia|zlia|].
  replace (A ++ (y :: E ++ [0]) ++ 0 :: spare) with ((A ++ y :: E) ++ [0] ++ 0 :: spare) in H3
    by apps.
  destruct (lay_put s3 t _ (A ++ y :: E) [0] (0 :: spare) [0] (zlen A + zlen (x1 :: x2 :: E) + -1) H3) as (s4 & E4 & H4); [zlia|done|].
  exists s4, (0 :: spare). split_and!; [done|done|done|by rewrite E3|].
  replace (zlen A + zlen (y :: E)) with (zlen A + zlen (x1 :: x2 :: E) + -1) by zlia.
  by rewrite <- app_assoc in H4.
Qed.

Lemma merge_loop_spec t n : t <> 0 -> forall s A ops spare, Forall opc_ok ops ->
  lay s t (zlen A + zlen (enc ops)) (A ++ enc ops ++ 0 :: spare) ->
  exists s' ops' spare', merge_loop n s (zlen A) (zlen A + zlen (enc ops)) = Some (s', zlen A + zlen (enc ops')) /\
    Forall opc_ok ops' /\ expand ops' = expand ops /\
    lay s' t (zlen A + zlen (enc ops')) (A ++ enc ops' ++ 0 :: spare').
Proof.
  intros Hne. induction n as [|n IH]; intros s A ops spare Hok H.
  { exists s, ops, spare. done. }
  cbn [merge_loop]. destruct ops as [|o ops].
  { rewrite back_lt. exists s, [], spare. done. }
  rewrite front_lt. inversion Hok as [|? ? Ho Hok']; subst.
  (* moving on to the next opcode *)
  assert (Hskip : exists s' ops' spare', merge_loop n s (zlen A + zlen (enc_op o)) (zlen A + zlen (enc (o :: ops))) =
      Some (s', zlen A + zlen (enc ops')) /\ Forall opc_ok ops' /\ expand ops' = expand (o :: ops) /\
      lay s' t (zlen A + zlen (enc ops')) (A ++ enc ops' ++ 0 :: spare')).
  { destruct (IH s (A ++ enc_op o) ops spare Hok') as (s' & ops' & spare' & E & Hok1 & Ee & H1).
    { rewrite enc_cons, <- app_assoc in H. rewrite <- app_assoc, zlen_app. rewrite zlen_app in H. by rewrite <- Z.add_assoc. }
    exists s', (o :: ops'), spare'. rewrite !enc_cons, expand_cons, Ee, !zlen_app in *. rewrite <- !Z.add_assoc in *.
    split_and!; [done|by apply List.Forall_cons|done|]. by rewrite <- app_assoc in *. }
  pose proof H as HL. rewrite enc_cons, <- app_assoc in HL.
  destruct (read_op _ _ _ _ _ _ HL Ho) as (Ez & Ex & _ & _ & Hlen). rewrite Ez, Ex. cbn [mbind option_bind].
  destruct o as [k|k|v l1]; cbn [is_ozero is_oxzero]; [exact Hskip|exact Hskip|].
  destruct Hlen as [El1 Ev1]. change (zlen (enc_op (OVal v l1))) with 1 in Hskip.
  (* the opcode after it *)
  destruct ops as [|o2 ops].
  { change (zlen (enc [OVal v l1])) with 1 in *. rewrite Z.ltb_irrefl. cbn [mbind option_bind]. exact Hskip. }
  assert (Hlt : (zlen A + 1 <? zlen A + zlen (enc (OVal v l1 :: o2 :: ops))) = true).
  { apply Z.ltb_lt. rewrite !enc_cons, !zlen_app, !zlen_enc_op. pose proof (zlen_nonneg (enc ops)). cbn [is_oxzero].
    destruct (is_oxzero o2); lia. }
  rewrite Hlt. inversion Hok' as [|? ? Ho2 Hok2]; subst.
  assert (E2 : A ++ enc (OVal v l1 :: o2 :: ops) ++ 0 :: spare = (A ++ enc_op (OVal v l1)) ++ enc_op o2 ++ enc ops ++ 0 :: spare)
    by (rewrite !enc_cons; apps).
  pose proof H as HL2. rewrite E2 in HL2. clear E2.
  destruct (read_op _ _ _ _ _ _ HL2 Ho2) as (_ & _ & Ev & _ & Hlen2). rewrite zlen_app in Ev, Hlen2.
  change (zlen (enc_op (OVal v l1))) with 1 in *. rewrite Ev. cbn [mbind option_bind].
  destruct o2 as [k|k|v2 l2]; cbn [is_oval]; [exact Hskip|exact Hskip|].
  destruct Hlen2 as [El2 Ev2]. rewrite Ev1, Ev2, El1, El2. cbn [mbind option_bind].
  destruct (Z.eqb_spec v v2) as [<-|]; [|exact Hskip]. unfold HLL_SPARSE_VAL_MAX_LEN.
  destruct (Z.leb_spec (l1 + l2) 4) as [Hle|]; [|exact Hskip]. cbn [andb].
  edestruct (merge_step s t A (OVal v l1) (OVal v l2)) as (s1 & b & s2 & s3 & spare' & -> & E2 & E3 & E4 & H4); [done..|].
  cbn [mbind option_bind]. rewrite E2. cbn [mbind option_bind]. rewrite E3. cbn [mbind option_bind]. rewrite E4. cbn [mbind option_bind].
  replace (zlen A + zlen (enc (OVal v l1 :: OVal v l2 :: ops)) - 1) with (zlen A + zlen (enc (OVal v (l1 + l2) :: ops)))
    by (rewrite !enc_cons, !zlen_app, !zlen_enc_op; cbn [is_oxzero]; lia).
  destruct (IH s3 A (OVal v (l1 + l2) :: ops) spare') as (s' & ops' & sp & E & Hok1 & Ee & H1); [|done|].
  { apply List.Forall_cons; [cbn in *; lia|done]. }
  exists s', ops', sp. split_and!; [done|done| |done]. rewrite Ee, !expand_cons, app_assoc. f_equal.
  unfold run. cbn [op_len op_val]. rewrite <- replicate_add. f_equal. cbn in *. lia.
Qed.

(** * What bytes represent *)

Definition hll_hdr (e : Z) (nu card : bytes) : bytes := str "HYLL" ++ e :: nu ++ card.

Definition dense_content (c nu card : bytes) (regs : list Z) : Prop :=
  exists body, c = hll_hdr HLL_DENSE nu card ++ body /\ zlen body = 12288 /\ packed (body ++ [0]) regs.
Definition sparse_content (c nu card : bytes) (regs : list Z) : Prop :=
  exists ops, c = hll_hdr HLL_SPARSE nu card ++ enc ops /\ Forall opc_ok ops /\ expand ops = regs.

(** Three unused bytes, a cached cardinality and 16384 registers. *)
Record hll_parts (nu card : bytes) (regs : list Z) : Prop := mkParts {
  hp_nu : zlen nu = 3;
  hp_card : zlen card = 8;
  hp_bytes : bytes_ok card;
  hp_len : zlen regs = 16384;
  hp_regs : Forall reg_ok regs;
}.

Definition is_dense (s : sds) (card : bytes) (regs : list Z) : Prop :=
  exists c nu, is_sds s c /\ hll_parts nu card regs /\ dense_content c nu card regs.
Definition is_sparse (s : sds) (card : bytes) (regs : list Z) : Prop :=
  exists c nu, is_sds s c /\ hll_parts nu card regs /\ sparse_content c nu card regs.
(** The string [s] is a HyperLogLog with the cached cardinality [card] and the registers [regs]. *)
Definition is_hll (s : sds) (card : bytes) (regs : list Z) : Prop := is_dense s card regs \/ is_sparse s card regs.

Lemma zlen_hll_hdr e nu card regs : hll_parts nu card regs -> zlen (hll_hdr e nu card) = 16.
Proof. intros [Hn Hc _ _ _]. unfold hll_hdr. rewrite zlen_app, zlen_cons, zlen_app. change (zlen (str "HYLL")) with 4. lia. Qed.

Section Header.
Context (s : sds) (t len e : Z) (nu card R : bytes) (regs : list Z).
Context (H : lay s t len (hll_hdr e nu card ++ R)) (Hp : hll_parts nu card regs).
#[local] Set Default Proof Using "All".

Lemma encoding_spec : hdr_encoding s = Some e.
Proof.
  unfold hdr_encoding, rd. rewrite (lay_get _ _ _ _ _ H) by lia.
  replace (hll_hdr e nu card ++ R) with (str "HYLL" ++ e :: (nu ++ card) ++ R) by (unfold hll_hdr; apps).
  by apply zget_app.
Qed.

Lemma card_last : exists a b, card = a ++ [b] /\ zlen a = 7 /\ bytes_ok a /\ byte_ok b /\ le_value card = le_value a + 2 ^ 56 * b.
Proof.
  destruct Hp as [_ Hc Hb _ _]. destruct (zlen_snoc_inv card) as (a & b & -> & Ha); [lia|].
  apply Forall_app in Hb as [Hb1 Hb2]. inversion Hb2; subst. exists a, b. rewrite Hc in Ha.
  split_and!; [done|lia|done|done|]. rewrite le_value_app. replace (zlen a) with 7 by lia. cbn [le_value].
  change (8 * 7) with 56. lia.
Qed.

Lemma hdr_card_split a b : card = a ++ [b] -> hll_hdr e nu card ++ R = (str "HYLL" ++ e :: nu ++ a) ++ b :: R.
Proof. intros ->. unfold hll_hdr. apps. Qed.

Lemma card_pos a b : card = a ++ [b] -> zlen (str "HYLL" ++ e :: nu ++ a) = 15.
Proof.
  intros E. pose proof (hp_card _ _ _ Hp) as Hc. rewrite E, zlen_app in Hc. change (zlen [b]) with 1 in Hc.
  rewrite zlen_app, zlen_cons, zlen_app, (hp_nu _ _ _ Hp). change (zlen (str "HYLL")) with 4. lia.
Qed.

Lemma valid_cache_spec : HLL_VALID_CACHE s = Some (le_value card <? 2 ^ 63).
Proof.
  destruct card_last as (a & b & E & Ha & Hba & Hb & Ev). unfold HLL_VALID_CACHE, rd.
  rewrite (lay_get _ _ _ _ _ H) by lia. rewrite (hdr_card_split a b E), zget_app by (by rewrite (card_pos a b E)).
  cbn [mbind option_bind]. f_equal. change (Z.shiftl 1 7) with 128. rewrite (proj1 (proj2 (byte_bits b Hb))).
  pose proof (le_value_range a Hba) as Hr. rewrite Ha in Hr. change (2 ^ (8 * 7)) with (2 ^ 56) in Hr. unfold byte_ok in Hb. rewrite Ev.
  destruct (Z.ltb_spec (le_value a + 2 ^ 56 * b) (2 ^ 63)); [apply Z.eqb_eq|apply Z.eqb_neq]; dlia.
Qed.

Lemma invalidate_spec : exists s' card', HLL_INVALIDATE_CACHE s = Some s' /\ lay s' t len (hll_hdr e nu card' ++ R) /\
  hll_parts nu card' regs /\ 2 ^ 63 <= le_value card'.
Proof.
  destruct card_last as (a & b & E & Ha & Hba & Hb & Ev). pose proof (hdr_card_split a b E) as Es.
  pose proof H as H'. rewrite Es in H'. unfold HLL_INVALIDATE_CACHE.
  destruct (lay_upd s t len _ b R (fun b => Z.lor b (Z.shiftl 1 7)) 15 H') as (s' & E' & H1); [by rewrite (card_pos a b E)|].
  set (b' := u8 (Z.lor b (Z.shiftl 1 7))) in *.
  assert (Hb' : byte_ok b' /\ 128 <= b').
  { split; [apply uwrap_range; lia|]. unfold b'. clear - Hb. revert b Hb. intros b Hb.
    pose proof (byte_forall (fun b => 128 <=? u8 (Z.lor b (Z.shiftl 1 7))) eq_refl b Hb) as Q. by apply Z.leb_le. }
  exists s', (a ++ [b']). split_and!; [done| | |].
  - replace (hll_hdr e nu (a ++ [b']) ++ R) with ((str "HYLL" ++ e :: nu ++ a) ++ b' :: R) by (unfold hll_hdr; apps). done.
  - destruct Hp as [Hn Hc Hbc Hl Hr]. split; [done| | |done|done].
    + rewrite zlen_app, Ha. done.
    + apply Forall_app. split; [done|]. apply List.Forall_cons; [apply Hb'|done].
  - rewrite le_value_app, Ha. cbn [le_value]. pose proof (le_value_range a Hba). change (8 * 7) with 56. lia.
Qed.

End Header.

(** ** Dense strings as memory *)

Lemma dense_mem s c nu card regs : is_sds s c -> dense_content c nu card regs -> hll_parts nu card regs ->
  exists t X, dmem t HLL_DENSE_SIZE (hll_hdr HLL_DENSE nu card) X s regs.
Proof.
  intros (t & spare & HL) (body & -> & Hb & Hpk) Hp. exists t, spare, (body ++ [0]).
  rewrite zlen_app, (zlen_hll_hdr _ _ _ _ Hp), Hb in HL. split_and!; [|done|].
  - replace (hll_hdr HLL_DENSE nu card ++ (body ++ [0]) ++ spare) with ((hll_hdr HLL_DENSE nu card ++ body) ++ 0 :: spare) by apps.
    exact HL.
  - rewrite zlen_app, Hb, (hp_len _ _ _ Hp). done.
Qed.

Lemma mem_dense s t X nu card regs : dmem t HLL_DENSE_SIZE (hll_hdr HLL_DENSE nu card) X s regs -> hll_parts nu card regs ->
  is_dense s card regs.
Proof.
  intros (D & HL & Hpk & HD) Hp. pose proof (zlen_nonneg regs).
  destruct (zlen_snoc_inv D) as (body & z & -> & Hb); [lia|].
  rewrite zlen_app in HD, Hb. change (zlen [z]) with 1 in HD, Hb.
  assert (z = 0) as ->.
  { pose proof (pk_value _ _ Hpk) as Hv. pose proof (b64_range regs (pk_regs _ _ Hpk)) as Hr.
    pose proof (pk_bytes _ _ Hpk) as Hbs. apply Forall_app in Hbs as [Hb1 Hb2]. inversion Hb2 as [|? ? Hz _]; subst.
    pose proof (le_value_range body Hb1) as Hrb. rewrite le_value_app in Hv. cbn [le_value] in Hv.
    replace (6 * zlen regs) with (8 * zlen body) in Hr by lia. unfold byte_ok in Hz. rewrite <- Hv in Hr.
    set (K := 2 ^ (8 * zlen body)) in *. clearbody K. clear - Hr Hrb Hz. nia. }
  rewrite (hp_len _ _ _ Hp) in HD.
  exists (hll_hdr HLL_DENSE nu card ++ body), nu. split_and!; [|done|exists body; split_and!; [done|lia|done]].
  exists t, X. rewrite zlen_app, (zlen_hll_hdr _ _ _ _ Hp). replace (16 + zlen body) with HLL_DENSE_SIZE by (change HLL_DENSE_SIZE with 12304; lia).
  by replace ((hll_hdr HLL_DENSE nu card ++ body) ++ 0 :: X) with (hll_hdr HLL_DENSE nu card ++ (body ++ [0]) ++ X) by apps.
Qed.

(** The registers after an update. *)
Definition set_reg (regs : list Z) (index count : Z) : list Z := <[Z.to_nat index := count]> regs.

Lemma set_reg_parts nu card regs index count : hll_parts nu card regs -> reg_ok count -> hll_parts nu card (set_reg regs index count).
Proof.
  intros [Hn Hc Hb Hl Hr] Hok. split; [done|done|done| |].
  - unfold set_reg, zlen. rewrite length_insert. exact Hl.
  - unfold set_reg. by apply Forall_insert.
Qed.

Lemma set_reg_same regs index v : zget regs index = Some v -> set_reg regs index v = regs.
Proof. intros [_ E]%zget_Some. by apply list_insert_id. Qed.

(** ** Updating a dense string *)

Lemma hllDenseSet_spec s card regs index old count : is_dense s card regs -> zget regs index = Some old -> reg_ok count ->
  exists s', hllDenseSet s HLL_HDR_SIZE index count = Some (s', if old <? count then 1 else 0) /\
    is_dense s' card (set_reg regs index (Z.max old count)).
Proof.
  intros (c & nu & Hs & Hp & Hc) Hg Hok. destruct (dense_mem _ _ _ _ _ Hs Hc Hp) as (t & X & Hm).
  unfold hllDenseSet. change HLL_HDR_SIZE with 16. rewrite <- (zlen_hll_hdr HLL_DENSE _ _ _ Hp).
  pose proof (hp_len _ _ _ Hp) as Hl. rewrite (dense_get _ _ _ _ _ _ 64 index old Hm) by (done || lia || by right).
  cbn [mbind option_bind]. rewrite Z.gtb_ltb. destruct (Z.ltb_spec old count).
  - destruct (dense_set _ _ _ _ _ _ 64 index count Hm) as (s' & -> & Hm'); [by right|by eapply zget_range|lia|done|].
    cbn [mbind option_bind]. exists s'. split; [done|]. rewrite Z.max_r by lia.
    eapply mem_dense; [exact Hm'|]. by apply set_reg_parts.
  - exists s. split; [done|]. rewrite Z.max_l, set_reg_same by (done || lia). by exists c, nu.
Qed.

(** ** Conversion *)

Lemma le_value_zero_bytes n : le_value (replicate n 0) = 0.
Proof. induction n as [|n IH]; [done|]. cbn [replicate le_value]. lia. Qed.

Lemma b64_zeros n : b64 (replicate n 0) = 0.
Proof. induction n as [|n IH]; [done|]. cbn [replicate b64]. lia. Qed.

Lemma packed_zeros n m : packed (replicate n 0) (replicate m 0).
Proof.
  split; [apply Forall_replicate; unfold byte_ok; lia|apply Forall_replicate; unfold reg_ok; lia|].
  by rewrite le_value_zero_bytes, b64_zeros.
Qed.

(** [sdsnewlen(NULL, n)] is a string of zeros. *)
Lemma sdsnewlen_null n : sdsnewlen None n = sdsnewlen (Some (zeros n)) n -> 0 <= n < 2 ^ 31 ->
  exists s t spare, sdsnewlen None n = Some s /\ lay s t n (zeros n ++ 0 :: spare).
Proof.
  intros E Hn. rewrite E. destruct (sdsnewlen_spec (zeros n)) as (s & Es & t & spare & H); [rewrite zlen_zeros; lia|].
  rewrite zlen_zeros in * by lia. by exists s, t, spare.
Qed.

Lemma sparse_size ops : Forall opc_ok ops -> zlen (expand ops) = 16384 -> zlen (enc ops) <= 32768 /\ zlen ops <= zlen (enc ops).
Proof. intros Hok Hl. pose proof (enc_sizes ops Hok). lia. Qed.

Lemma fuel_enough ops k : Forall opc_ok ops -> 0 <= k -> (length ops < S (Z.to_nat (k + zlen (enc ops))))%nat.
Proof. intros Hok Hk. pose proof (enc_sizes ops Hok). unfold zlen in *. lia. Qed.

(** The new string before the walk over the opcodes: the old header and registers 0. *)
Lemma to_dense_start s c nu card body regs : is_sds s c -> c = hll_hdr HLL_SPARSE nu card ++ body -> hll_parts nu card regs ->
  exists d td spd, dmem td HLL_DENSE_SIZE (hll_hdr HLL_DENSE nu card) spd d (replicate (Z.to_nat 16384) 0) /\
    hllSparseToDense s = ('(dense, idx) ← to_dense_loop (S (Z.to_nat (zlen c))) s (zlen c) d HLL_HDR_SIZE 0;
      if negb (idx =? HLL_REGISTERS) then Some (s, C_ERR) else Some (dense, C_OK)).
Proof.
  intros (t & sp & HL) -> Hp. unfold hllSparseToDense.
  rewrite (lay_sdslen _ _ _ _ HL). rewrite <- app_assoc in HL. rewrite (encoding_spec _ _ _ _ _ _ _ _ HL Hp).
  cbn [mbind option_bind]. change (HLL_SPARSE =? HLL_DENSE) with false. cbv iota.
  pose proof (zlen_hll_hdr HLL_SPARSE _ _ _ Hp) as Hh.
  destruct (sdsnewlen_null HLL_DENSE_SIZE) as (d & td & spd & -> & Hd); [vm_compute; reflexivity|done|].
  cbn [mbind option_bind].
  pose proof (lay_sub s t _ [] _ _ HL) as Es. rewrite Hh in Es. change (zlen (@nil Z)) with 0 in Es.
  change HLL_HDR_SIZE with 16. rewrite Es. cbn [mbind option_bind].
  change (zeros HLL_DENSE_SIZE) with (zeros (16 + 12288)) in Hd. rewrite zeros_app, <- app_assoc in Hd by lia.
  destruct (lay_put d td _ [] (zeros 16) _ (hll_hdr HLL_SPARSE nu card) 0 Hd) as (d1 & -> & H1); [done|by rewrite Hh|].
  cbn [mbind option_bind app] in *. unfold set_encoding.
  destruct (lay_put d1 td HLL_DENSE_SIZE (str "HYLL") [HLL_SPARSE] ((nu ++ card) ++ zeros 12288 ++ 0 :: spd) [HLL_DENSE] 4) as (d2 & -> & H2);
    [|done|done|].
  { replace (str "HYLL" ++ [HLL_SPARSE] ++ (nu ++ card) ++ zeros 12288 ++ 0 :: spd)
      with (hll_hdr HLL_SPARSE nu card ++ zeros 12288 ++ 0 :: spd) by (unfold hll_hdr; apps). exact H1. }
  cbn [mbind option_bind]. exists d2, td, spd. split; [|done].
  exists (zeros 12289). split_and!; [|apply packed_zeros|done].
  change 12289 with (12288 + 1). rewrite zeros_app by lia.
  replace (hll_hdr HLL_DENSE nu card ++ (zeros 12288 ++ zeros 1) ++ spd)
    with (str "HYLL" ++ [HLL_DENSE] ++ (nu ++ card) ++ zeros 12288 ++ 0 :: spd) by (unfold hll_hdr; change (zeros 1) with [0]; apps).
  exact H2.
Qed.

Lemma hllSparseToDense_spec s card regs : is_hll s card regs ->
  exists s', hllSparseToDense s = Some (s', C_OK) /\ is_dense s' card regs.
Proof.
  intros [Hd|(c & nu & Hs & Hp & ops & Ec & Hok & He)].
  { destruct Hd as (c & nu & Hs & Hp & Hc). pose proof Hs as (t & sp & HL). pose proof Hc as (body & Eb & _).
    rewrite Eb, <- app_assoc in HL. unfold hllSparseToDense. rewrite (encoding_spec _ _ _ _ _ _ _ _ HL Hp). cbn [mbind option_bind].
    exists s. split; [done|]. by exists c, nu. }
  destruct (to_dense_start s c nu card _ regs Hs Ec Hp) as (d & td & spd & Hm & ->).
  destruct Hs as (t & sp & HL). rewrite Ec in HL |- *. rewrite <- app_assoc in HL.
  pose proof (hp_len _ _ _ Hp) as Hlen. pose proof (zlen_hll_hdr HLL_SPARSE _ _ _ Hp) as Hh. rewrite zlen_app, Hh in *.
  edestruct (to_dense_loop_spec td HLL_DENSE_SIZE (hll_hdr HLL_DENSE nu card) spd) with (A := hll_hdr HLL_SPARSE nu card) (ops := ops)
    (fuel := S (Z.to_nat (16 + zlen (enc ops)))) (dn := @nil Z) (rest := @nil Z) (d := d) as (d3 & E3 & H3);
    [by apply (zlen_hll_hdr _ _ _ _ Hp)|done|exact HL|by apply fuel_enough| | |].
  { cbn [app]. rewrite app_nil_r. by replace (length (expand ops)) with (Z.to_nat 16384) by (rewrite He; unfold zlen in Hlen; lia). }
  { rewrite He. change (zlen (@nil Z)) with 0. lia. }
  rewrite Hh in E3. change (zlen (@nil Z)) with 0 in E3. change HLL_HDR_SIZE with 16. rewrite E3. cbn [mbind option_bind].
  rewrite He, Hlen. change (negb (0 + 16384 =? HLL_REGISTERS)) with false. cbv iota.
  exists d3. split; [done|]. cbn [app] in H3. rewrite app_nil_r, He in H3. destruct Hp. by eapply mem_dense.
Qed.

Lemma promote_spec s card regs index old count : is_sparse s card regs -> zget regs index = Some old -> reg_ok count -> old < count ->
  exists s', sparse_promote s index count = Some (s', 1) /\ is_dense s' card (set_reg regs index (Z.max old count)).
Proof.
  intros Hs Hg Hok Hlt. unfold sparse_promote.
  destruct (hllSparseToDense_spec s card regs) as (d & -> & Hd); [by right|]. cbn [mbind option_bind].
  change (C_OK =? C_ERR) with false. cbv iota.
  destruct (hllDenseSet_spec d card regs index old count Hd Hg Hok) as (d' & -> & Hd'). cbn [mbind option_bind].
  rewrite (proj2 (Z.ltb_lt _ _)) by done. exists d'. done.
Qed.

(** ** Splitting an opcode *)

Lemma run_insert n (v : Z) k c : 0 <= k < n ->
  <[Z.to_nat k := c]> (replicate (Z.to_nat n) v) =
  replicate (Z.to_nat k) v ++ [c] ++ replicate (Z.to_nat (n - 1 - k)) v.
Proof.
  intros Hk. replace (Z.to_nat n) with (Z.to_nat k + S (Z.to_nat (n - 1 - k)))%nat by lia.
  rewrite replicate_add. rewrite insert_app_r_alt by (rewrite length_replicate; lia).
  by rewrite length_replicate, Nat.sub_diag.
Qed.

(** A run of [n] registers [v] with the bytes [b]. *)
Definition piece (b : bytes) (n v : Z) (mid : list opc) : Prop :=
  b = enc mid /\ Forall opc_ok mid /\ expand mid = replicate (Z.to_nat n) v.

Lemma piece_nil v : piece [] 0 v [].
Proof. done. Qed.

Lemma piece_op o : opc_ok o -> piece (enc_op o) (op_len o) (op_val o) [o].
Proof.
  intros Ho. unfold piece. rewrite enc_cons, expand_cons. change (enc []) with (@nil Z). change (expand []) with (@nil Z).
  rewrite !app_nil_r. split_and!; [done|by apply List.Forall_cons|done].
Qed.

Lemma piece_zeros n : 0 <= n <= 16384 ->
  exists mid, piece (if negb (n =? 0) then zero_run n else []) n 0 mid /\ zlen (enc mid) <= (if n >? 64 then 2 else 1).
Proof.
  intros Hn. rewrite Z.gtb_ltb. destruct (Z.eqb_spec n 0) as [->|]; cbn [negb].
  - by exists [].
  - unfold zero_run, HLL_SPARSE_ZERO_MAX_LEN. rewrite Z.gtb_ltb. destruct (Z.ltb_spec 64 n).
    + exists [OXZero n]. rewrite XZERO_SET_enc by (cbn; lia). split; [apply (piece_op (OXZero n)); cbn; lia|].
      done.
    + exists [OZero n]. rewrite ZERO_SET_enc by (cbn; lia). split; [apply (piece_op (OZero n)); cbn; lia|]. done.
Qed.

Lemma piece_val n v : 0 <= n <= 4 -> 1 <= v <= 32 ->
  exists mid, piece (if negb (n =? 0) then HLL_SPARSE_VAL_SET v n else []) n v mid /\ zlen (enc mid) <= 1.
Proof.
  intros Hn Hv. destruct (Z.eqb_spec n 0) as [->|]; cbn [negb].
  - by exists [].
  - exists [OVal v n]. rewrite VAL_SET_enc by (cbn; lia). split; [apply (piece_op (OVal v n)); cbn; lia|done].
Qed.

(** The sequence that replaces the opcode [o] when register [k] of its run becomes [count]. *)
Lemma split_spec o first k count : opc_ok o -> 0 <= k < op_len o -> 1 <= count <= 32 ->
  exists mid, (if is_oval o then split_val first (first + op_len o - 1) (first + k) count (op_val o)
               else split_zeros first (first + op_len o - 1) (first + k) count) = enc mid /\
    Forall opc_ok mid /\ expand mid = <[Z.to_nat k := count]> (run o) /\
    1 <= zlen (enc mid) <= 5 /\ zlen (enc mid) - zlen (enc_op o) <= 3.
Proof.
  intros Ho Hk Hc. pose proof (op_len_pos o Ho).
  assert (Hjoin : forall b1 m1 b2 m2, piece b1 k (op_val o) m1 -> piece b2 (op_len o - 1 - k) (op_val o) m2 ->
    b1 ++ HLL_SPARSE_VAL_SET count 1 ++ b2 = enc (m1 ++ OVal count 1 :: m2) /\ Forall opc_ok (m1 ++ OVal count 1 :: m2) /\
    expand (m1 ++ OVal count 1 :: m2) = <[Z.to_nat k := count]> (run o) /\
    zlen (enc (m1 ++ OVal count 1 :: m2)) = zlen (enc m1) + 1 + zlen (enc m2)).
  { intros b1 m1 b2 m2 (-> & Hok1 & E1) (-> & Hok2 & E2). unfold run. rewrite run_insert by lia.
    rewrite VAL_SET_enc by (cbn; lia). rewrite enc_app, enc_cons, expand_app, expand_cons, E1, E2.
    split_and!; [done|apply Forall_app; split; [done|]; apply List.Forall_cons; [cbn; lia|done]|done|].
    rewrite !zlen_app. change (zlen (enc_op (OVal count 1))) with 1. lia. }
  assert ((first + k =? first) = (k =? 0) /\ (first + k =? first + op_len o - 1) = (op_len o - 1 - k =? 0) /\
    first + k - first = k /\ first + op_len o - 1 - (first + k) = op_len o - 1 - k) as (E1 & E2 & E3 & E4).
  { split_and!; try lia; destruct (Z.eqb_spec k 0), (Z.eqb_spec (op_len o - 1 - k) 0);
      first [apply Z.eqb_eq; lia|apply Z.eqb_neq; lia]. }
  unfold split_val, split_zeros. rewrite E1, E2, E3, E4.
  rewrite zlen_enc_op. destruct o as [n|n|v n]; cbn [is_oval is_oxzero op_len op_val] in *.
  - destruct (piece_zeros k) as (m1 & P1 & L1); [cbn in Ho; lia|]. destruct (piece_zeros (n - 1 - k)) as (m2 & P2 & L2); [cbn in Ho; lia|].
    destruct (Hjoin _ _ _ _ P1 P2) as (Q1 & Q2 & Q3 & Q4). exists (m1 ++ OVal count 1 :: m2).
    pose proof (zlen_nonneg (enc m1)). pose proof (zlen_nonneg (enc m2)). cbn in Ho. rewrite Z.gtb_ltb in L1, L2.
    rewrite (proj2 (Z.ltb_ge 64 k)) in L1 by lia. rewrite (proj2 (Z.ltb_ge 64 (n - 1 - k))) in L2 by lia. split_and!; try done; lia.
  - destruct (piece_zeros k) as (m1 & P1 & L1); [cbn in Ho; lia|]. destruct (piece_zeros (n - 1 - k)) as (m2 & P2 & L2); [cbn in Ho; lia|].
    destruct (Hjoin _ _ _ _ P1 P2) as (Q1 & Q2 & Q3 & Q4). exists (m1 ++ OVal count 1 :: m2).
    pose proof (zlen_nonneg (enc m1)). pose proof (zlen_nonneg (enc m2)).
    destruct (k >? 64), (n - 1 - k >? 64); split_and!; try done; lia.
  - destruct Ho as [Hv Hn]. destruct (piece_val k v) as (m1 & P1 & L1); [lia|done|].
    destruct (piece_val (n - 1 - k) v) as (m2 & P2 & L2); [lia|done|].
    destruct (Hjoin _ _ _ _ P1 P2) as (Q1 & Q2 & Q3 & Q4). exists (m1 ++ OVal count 1 :: m2).
    pose proof (zlen_nonneg (enc m1)). pose proof (zlen_nonneg (enc m2)). split_and!; try done; lia.
Qed.

(** Replacing the run of one opcode replaces the registers it covers. *)
Lemma expand_set pre o post k count : opc_ok o -> 0 <= k < op_len o ->
  expand pre ++ <[Z.to_nat k := count]> (run o) ++ expand post = set_reg (expand (pre ++ o :: post)) (zlen (expand pre) + k) count.
Proof.
  intros Ho Hk. unfold set_reg. rewrite expand_app, expand_cons. pose proof (zlen_run o Ho) as Hr.
  replace (Z.to_nat (zlen (expand pre) + k)) with (length (expand pre) + Z.to_nat k)%nat by (unfold zlen; lia).
  rewrite insert_app_r, insert_app_l; [done|]. unfold zlen in Hr. lia.
Qed.

Lemma expand_get pre o post k : opc_ok o -> 0 <= k < op_len o ->
  zget (expand (pre ++ o :: post)) (zlen (expand pre) + k) = Some (op_val o).
Proof.
  intros Ho Hk. rewrite expand_app, expand_cons, zget_app_r by lia. rewrite zget_app_l by (rewrite zlen_run by done; lia).
  apply zget_Some. split; [lia|]. unfold run. apply lookup_replicate. split; [done|lia].
Qed.

(** ** The main lemma *)

(** The label [updated], on a string whose content is right. *)
Lemma updated_spec s t spare nu card regs pre post prev : t <> 0 -> hll_parts nu card regs ->
  Forall opc_ok (pre ++ post) -> expand (pre ++ post) = regs ->
  lay s t (16 + zlen (enc (pre ++ post))) (hll_hdr HLL_SPARSE nu card ++ enc (pre ++ post) ++ 0 :: spare) ->
  (pre = [] /\ prev = None) \/ (exists pre0 o0, pre = pre0 ++ [o0] /\ prev = Some (16 + zlen (enc pre0))) ->
  exists s' card', sparse_updated s prev (16 + zlen (enc (pre ++ post))) = Some (s', 1) /\ is_sparse s' card' regs.
Proof.
  intros Hne Hp Hok He HL Hprev. pose proof (zlen_hll_hdr HLL_SPARSE _ _ _ Hp) as Hh.
  assert (exists A ops1 ops2, pre ++ post = ops1 ++ ops2 /\ A = hll_hdr HLL_SPARSE nu card ++ enc ops1 /\
    match prev with Some p => p | None => HLL_HDR_SIZE end = zlen A) as (A & o1 & o2 & Eo & EA & Ep).
  { destruct Hprev as [[-> ->]|(pre0 & o0 & -> & ->)].
    - exists (hll_hdr HLL_SPARSE nu card), [], post. split_and!; [done|by rewrite app_nil_r|by rewrite Hh].
    - exists (hll_hdr HLL_SPARSE nu card ++ enc pre0), pre0, ([o0] ++ post). split_and!; [by rewrite app_assoc|done|].
      rewrite zlen_app. lia. }
  unfold sparse_updated. rewrite Ep. rewrite Eo in *. apply Forall_app in Hok as [Hok1 Hok2].
  assert (HA : 16 + zlen (enc (o1 ++ o2)) = zlen A + zlen (enc o2)) by (rewrite EA, enc_app, !zlen_app; lia).
  destruct (merge_loop_spec t 5 Hne s A o2 spare Hok2) as (s1 & o2' & sp' & E1 & Hok2' & Ee & H1).
  { rewrite <- HA, EA. rewrite enc_app, <- app_assoc in HL. by rewrite enc_app, <- app_assoc. }
  rewrite HA, E1. cbn [mbind option_bind]. subst A. rewrite <- app_assoc in H1.
  destruct (invalidate_spec _ _ _ _ _ _ _ _ H1 Hp) as (s2 & card' & -> & H2 & Hp2 & _). cbn [mbind option_bind].
  exists s2, card'. split; [done|]. exists (hll_hdr HLL_SPARSE nu card' ++ enc (o1 ++ o2')), nu. split_and!; [|done|].
  - exists t, sp'. rewrite enc_app. repeat rewrite <- app_assoc. rewrite !zlen_app in *.
    rewrite (zlen_hll_hdr HLL_SPARSE _ _ _ Hp2). rewrite Hh, <- Z.add_assoc in H2. exact H2.
  - exists (o1 ++ o2'). split_and!; [done|by apply Forall_app|]. by rewrite expand_app, Ee, <- expand_app.
Qed.

Section SparseSet.
Context (maxb : Z) (s : sds) (card : bytes) (regs : list Z) (index old count : Z).
Context (Hs : is_sparse s card regs) (Hg : zget regs index = Some old) (Hc : 1 <= count < 64).
#[local] Set Default Proof Using "All".

Definition set_outcome (out : option (sds * Z)) : Prop :=
  exists s' card', out = Some (s', if old <? count then 1 else 0) /\
    is_hll s' card' (set_reg regs index (Z.max old count)) /\ (count <= old -> card' = card).

Lemma sparse_old : 0 <= old <= 32.
Proof.
  destruct Hs as (c & nu & _ & Hp & ops & _ & Hok & <-). apply zget_Some in Hg as [_ Hl]. clear - Hok Hl.
  assert (Hf : Forall (fun x => 0 <= x <= 32) (expand ops)).
  { clear Hl. induction Hok as [|o ops Ho _ IH]; [by apply List.Forall_nil|]. apply Forall_app. split; [|done].
    unfold run. apply Forall_replicate. destruct o; cbn in *; lia. }
  by apply (Forall_lookup_1 _ _ _ _ Hf Hl).
Qed.

(** The string after [sdsMakeRoomFor]. *)
Lemma make_room : exists s1 t nu ops spare, sdsMakeRoomFor s 3 = Some s1 /\ t <> 0 /\ 3 <= zlen spare /\
  hll_parts nu card regs /\ Forall opc_ok ops /\ expand ops = regs /\ zlen (enc ops) <= 32768 /\
  lay s1 t (16 + zlen (enc ops)) (hll_hdr HLL_SPARSE nu card ++ enc ops ++ 0 :: spare) /\ is_sparse s1 card regs.
Proof.
  destruct Hs as (c & nu & (t & sp & HL) & Hp & ops & -> & Hok & He).
  pose proof (sparse_size ops Hok ltac:(rewrite He; apply Hp)) as [Hsz _].
  pose proof (zlen_hll_hdr HLL_SPARSE _ _ _ Hp) as Hh.
  destruct (makeroom_spec s t _ (0 :: sp) 3 HL) as (s1 & t1 & sp1 & E & H1 & H3 & Ht & H0); [lia|rewrite zlen_app; lia|].
  destruct sp1 as [|z spare]; [done|]. cbn in Ht. injection Ht as ->. rewrite zlen_cons in H3.
  exists s1, t1, nu, ops, spare. split_and!; [done|lia|lia|done|done|done|done| |].
  - rewrite zlen_app, Hh, <- app_assoc in H1. exact H1.
  - exists (hll_hdr HLL_SPARSE nu card ++ enc ops), nu. split_and!; [by exists t1, spare|done|by exists ops].
Qed.

(** At the opcode [o] that covers the register. *)
Section AtOpcode.
Context (s1 : sds) (t : Z) (nu spare : bytes) (pre post : list opc) (o : opc) (k : Z) (prev : option Z).
Context (Hne : t <> 0) (Hsp : 3 <= zlen spare) (Hp : hll_parts nu card regs).
Context (Hok : Forall opc_ok (pre ++ o :: post)) (He : expand (pre ++ o :: post) = regs).
Context (HL : lay s1 t (16 + zlen (enc (pre ++ o :: post))) (hll_hdr HLL_SPARSE nu card ++ enc (pre ++ o :: post) ++ 0 :: spare)).
Context (Hprev : (pre = [] /\ prev = None) \/ (exists pre0 o0, pre = pre0 ++ [o0] /\ prev = Some (16 + zlen (enc pre0)))).
Context (Hs1 : is_sparse s1 card regs) (Hk : 0 <= k < op_len o) (Hi : index = zlen (expand pre) + k).
Context (Hlt : old < count) (Hc32 : count <= 32).

Let A : bytes := hll_hdr HLL_SPARSE nu card ++ enc pre.

Lemma at_o : opc_ok o.
Proof. apply Forall_app in Hok as [_ H]. by inversion H. Qed.

Lemma at_A : zlen A = 16 + zlen (enc pre).
Proof. unfold A. by rewrite zlen_app, (zlen_hll_hdr _ _ _ _ Hp). Qed.

Lemma at_lay : lay s1 t (zlen A + zlen (enc_op o) + zlen (enc post)) (A ++ enc_op o ++ enc post ++ 0 :: spare).
Proof.
  rewrite at_A. unfold A. rewrite enc_app, enc_cons, !zlen_app in HL. rewrite !Z.add_assoc in HL.
  replace ((hll_hdr HLL_SPARSE nu card ++ enc pre) ++ enc_op o ++ enc post ++ 0 :: spare)
    with (hll_hdr HLL_SPARSE nu card ++ (enc pre ++ enc_op o ++ enc post) ++ 0 :: spare) by apps. exact HL.
Qed.

(** The string once [o] has become [mid]. *)
Lemma at_updated s2 mid spare2 e : Forall opc_ok mid -> expand mid = <[Z.to_nat k := count]> (run o) ->
  lay s2 t (zlen A + zlen (enc mid) + zlen (enc post)) (A ++ enc mid ++ enc post ++ 0 :: spare2) ->
  e = 16 + zlen (enc (pre ++ mid ++ post)) -> set_outcome (sparse_updated s2 prev e).
Proof.
  intros Hmid Em H2 ->. pose proof at_o as Ho. pose proof at_A as EA. apply Forall_app in Hok as [Hok1 Hok2]. inversion Hok2; subst.
  edestruct (updated_spec s2 t spare2 nu card (set_reg regs (zlen (expand pre) + k) count) pre (mid ++ post) prev)
    as (s' & card' & E & Hs'); [done|apply set_reg_parts; [done|unfold reg_ok; lia]| | | |exact Hprev|].
  { apply Forall_app. split; [done|]. by apply Forall_app. }
  { rewrite !expand_app, Em. rewrite <- He. by apply expand_set. }
  { rewrite EA in H2. unfold A in H2. rewrite !enc_app, !zlen_app. rewrite !Z.add_assoc.
    replace (hll_hdr HLL_SPARSE nu card ++ (enc pre ++ enc mid ++ enc post) ++ 0 :: spare2)
      with ((hll_hdr HLL_SPARSE nu card ++ enc pre) ++ enc mid ++ enc post ++ 0 :: spare2) by apps. exact H2. }
  exists s', card'. rewrite (proj2 (Z.ltb_lt _ _)) by done. rewrite Z.max_r by lia.
  split_and!; [exact E|rewrite Hi; by right|lia].
Qed.

(** Cases B and C: an opcode of length 1 becomes a VAL opcode. *)
Lemma at_single : op_len o = 1 -> is_oxzero o = false ->
  set_outcome (s2 ← s_put s1 (zlen A) (HLL_SPARSE_VAL_SET count 1); sparse_updated s2 prev (16 + zlen (enc (pre ++ o :: post)))).
Proof.
  intros H1 Hx. rewrite VAL_SET_enc by (cbn; lia). pose proof at_lay as H. pose proof (zlen_enc_op o) as Hz. rewrite Hx in Hz.
  destruct (lay_put s1 t _ A (enc_op o) (enc post ++ 0 :: spare) (enc_op (OVal count 1)) (zlen A) H) as (s2 & -> & H2); [done|by rewrite Hz|].
  cbn [mbind option_bind]. apply (at_updated s2 [OVal count 1] spare).
  - apply List.Forall_cons; [cbn; lia|done].
  - replace k with 0 by lia. unfold run. by rewrite H1.
  - change (enc [OVal count 1]) with (enc_op (OVal count 1)). rewrite Hz in H2. exact H2.
  - rewrite !enc_app, enc_cons, !zlen_app, Hz. done.
Qed.

(** Case D. *)
Lemma at_general : set_outcome (
  let last := s32 (zlen (expand pre) + op_len o - 1) in
  let seq := if is_oval o then split_val (zlen (expand pre)) last index count (op_val o)
             else split_zeros (zlen (expand pre)) last index count in
  let oldlen := zlen (enc_op o) in
  let e := 16 + zlen (enc (pre ++ o :: post)) in
  let next := if zlen A + zlen (enc_op o) >=? e then None else Some (zlen A + zlen (enc_op o)) in
  let deltalen := zlen seq - oldlen in
  if (deltalen >? 0) && (e + deltalen >? maxb) then sparse_promote s1 index count else
  s2 ← sparse_replace s1 (zlen A) e next oldlen seq;
  sparse_updated s2 prev (e + deltalen)).
Proof.
  cbv zeta. pose proof at_o as Ho. pose proof (op_len_pos o Ho).
  assert (Hr : zlen (expand pre) + op_len o <= 16384).
  { pose proof (hp_len _ _ _ Hp) as Hl. rewrite <- He, expand_app, expand_cons, !zlen_app, zlen_run in Hl by done.
    pose proof (zlen_nonneg (expand post)). lia. }
  pose proof (zlen_nonneg (expand pre)). rewrite s32_small by lia. rewrite Hi.
  destruct (split_spec o (zlen (expand pre)) k count Ho Hk) as (mid & -> & Hmid & Em & Hlen & Hd); [lia|].
  destruct (_ && _).
  - destruct (promote_spec s1 card regs index old count Hs1 Hg) as (s' & E & Hd'); [unfold reg_ok; lia|lia|].
    exists s', card. rewrite <- Hi, E, (proj2 (Z.ltb_lt _ _)) by done. split_and!; [done|by left|lia].
  - pose proof at_lay as Hlay. assert (Ee : 16 + zlen (enc (pre ++ o :: post)) = zlen A + zlen (enc_op o) + zlen (enc post)).
    { rewrite at_A, enc_app, enc_cons, !zlen_app. lia. }
    rewrite Ee. pose proof (zlen_enc_op o) as Hz.
    destruct (sparse_replace_spec s1 t A (enc_op o) (enc post) spare (enc mid) Hlay Hne) as (s2 & sp2 & -> & H2);
      [destruct (is_oxzero o); lia|lia|lia|].
    cbn [mbind option_bind]. apply (at_updated s2 mid sp2); [done|done|exact H2|].
    rewrite at_A, !enc_app, !zlen_app. lia.
Qed.

End AtOpcode.

Lemma hllSparseSet_spec : set_outcome (hllSparseSet maxb s index count).
Proof.
  unfold hllSparseSet, HLL_SPARSE_VAL_MAX_VALUE. rewrite Z.gtb_ltb. pose proof sparse_old as Hold.
  destruct (Z.ltb_spec 32 count) as [Hbig|Hsmall].
  { destruct (promote_spec s card regs index old count Hs Hg) as (s' & E & Hd'); [unfold reg_ok; lia|lia|].
    exists s', card. rewrite E, (proj2 (Z.ltb_lt _ _)) by lia. split_and!; [done|by left|lia]. }
  destruct make_room as (s1 & t & nu & ops & spare & -> & Hne & Hsp & Hp & Hok & He & Hsz & HL & Hs1).
  cbn [mbind option_bind]. rewrite (lay_sdslen _ _ _ _ HL). cbn [mbind option_bind].
  pose proof (zlen_hll_hdr HLL_SPARSE _ _ _ Hp) as Hh. pose proof (zget_range _ _ _ Hg) as Hir.
  change HLL_HDR_SIZE with 16.
  destruct (locate_spec s1 t (16 + zlen (enc ops)) (0 :: spare) ops Hok (S (Z.to_nat (16 + zlen (enc ops)))) (hll_hdr HLL_SPARSE nu card) index None 0 0 HL)
    as (pre & o & post & prev & -> & El & Hr & Hprev); [by apply fuel_enough|by rewrite He|].
  rewrite Hh in El, Hprev. rewrite El. cbn [mbind option_bind]. clear El.
  assert (Ho : opc_ok o) by (apply Forall_app in Hok as [_ H]; by inversion H). pose proof (op_len_pos o Ho) as Hol.
  pose proof (zlen_enc_op o) as Hz. pose proof (zlen_nonneg (enc post)) as Pp.
  assert (Ee : 16 + zlen (enc (pre ++ o :: post)) = 16 + zlen (enc pre) + zlen (enc_op o) + zlen (enc post)).
  { rewrite enc_app, enc_cons, !zlen_app. lia. }
  rewrite (proj2 (Z.eqb_neq (op_len o) 0)) by lia.
  rewrite (Z.geb_leb (16 + zlen (enc pre))), (proj2 (Z.leb_gt _ (16 + zlen (enc pre)))) by (destruct (is_oxzero o); lia).
  cbn [orb]. set (k := index - zlen (expand pre)). set (A := hll_hdr HLL_SPARSE nu card ++ enc pre).
  assert (EA : 16 + zlen (enc pre) = zlen A) by (unfold A; rewrite zlen_app; lia).
  assert (Eold : old = op_val o).
  { pose proof (expand_get pre o post k Ho ltac:(unfold k; lia)) as Eg. rewrite He in Eg.
    replace (zlen (expand pre) + k) with index in Eg by (unfold k; lia). congruence. }
  pose proof (at_single s1 t nu spare pre post o k prev Hne Hsp Hp Hok He HL Hprev Hs1) as Hsingle.
  pose proof (at_general s1 t nu spare pre post o k prev Hne Hsp Hp Hok He HL Hprev Hs1) as Hgen.
  cbv zeta in Hgen. fold A in Hsingle, Hgen. rewrite Ee, EA in Hsingle, Hgen |- *.
  assert (Hread : lay s1 t (16 + zlen (enc (pre ++ o :: post))) (A ++ enc_op o ++ enc post ++ 0 :: spare)).
  { unfold A. rewrite enc_app, enc_cons in HL |- *.
    by replace ((hll_hdr HLL_SPARSE nu card ++ enc pre) ++ enc_op o ++ enc post ++ 0 :: spare)
      with (hll_hdr HLL_SPARSE nu card ++ (enc pre ++ enc_op o ++ enc post) ++ 0 :: spare) by apps. }
  destruct (read_op _ _ _ _ _ _ Hread Ho) as (Ez & Ex & _ & [cv Ecv] & Hlen). rewrite Ez, Ex. cbn [mbind option_bind].
  specialize (Hsingle ltac:(unfold k; lia) ltac:(unfold k; lia)). specialize (Hgen ltac:(unfold k; lia) ltac:(unfold k; lia)).
  assert (Hsame : count <= old -> set_outcome (Some (s1, 0))).
  { intros Hle. exists s1, card. rewrite (proj2 (Z.ltb_ge _ _)), Z.max_l, set_reg_same by done. split_and!; [done|by right|done]. }
  rewrite Z.add_0_l. rewrite Z.geb_leb in Hgen. change HLL_HDR_SIZE with 16 in *.
  destruct o as [n|n|v n]; cbn [is_ozero is_oxzero is_oval op_len op_val negb orb andb] in *; rewrite Hz in *.
  - rewrite Hlen, Ecv. cbn [mbind option_bind]. rewrite !Z.geb_leb.
    destruct (Z.eqb_spec n 1); [apply Hsingle|apply Hgen]; (done || lia).
  - rewrite Hlen, Ecv. cbn [mbind option_bind]. rewrite !Z.geb_leb. apply Hgen; lia.
  - destruct Hlen as [-> ->]. cbn [mbind option_bind]. rewrite !Z.geb_leb. destruct (Z.leb_spec count v).
    + apply Hsame. lia.
    + destruct (Z.eqb_spec n 1); [apply Hsingle|apply Hgen]; (done || lia).
Qed.

End SparseSet.
