(* ===== verification/HllSpec.v ===== *)
(** HyperLogLogs: elements, histograms, merging, and the commands as operations on maps from keys
    to registers.

    The abstract value of a key is its list of 16384 registers.  Adding elements takes the maximum
    with the registers of the elements ([elem_regs]), merging the maximum of the keys. *)

From Stdlib Require Import String.
From stdpp Require Import gmap.
From S2P Require Import Prelude Util Sds Hll HllDense HllSparse HllSet.
#[local] Open Scope list_scope.
#[local] Open Scope Z_scope.

(** * The pattern of an element *)

Lemma pat_loop_spec hash n : Z.testbit hash 50 = true -> forall k, 0 <= k -> k + Z.of_nat n = 51 ->
  (0 < n)%nat ->
  exists c, pat_loop n hash (2 ^ k) (k + 1) = Some c /\ k + 1 <= c <= 51 /\ Z.testbit hash (c - 1) = true /\
    forall j, k <= j < c - 1 -> Z.testbit hash j = false.
Proof.
  intros H50. induction n as [|n IH]; intros k Hk Hn Hpos; [lia|]. cbn [pat_loop].
  assert (E : Z.land hash (2 ^ k) = if Z.testbit hash k then 2 ^ k else 0).
  { apply Z.bits_inj'. intros j Hj. rewrite Z.land_spec, Z.pow2_bits_eqb by lia.
    destruct (Z.eqb_spec k j) as [<-|Hne]; [destruct (Z.testbit hash k)|destruct (Z.testbit hash k), (Z.testbit hash j)];
      rewrite ?Z.pow2_bits_eqb, ?Z.bits_0, ?Z.eqb_refl by lia; cbn; try done; symmetry; by apply Z.eqb_neq. }
  rewrite E. destruct (Z.testbit hash k) eqn:Ek.
  - rewrite (proj2 (Z.eqb_neq (2 ^ k) 0)) by (pose proof (Z.pow_pos_nonneg 2 k); lia).
    exists (k + 1). split; [done|]. split; [lia|]. replace (k + 1 - 1) with k by lia. split; [done|lia].
  - change (0 =? 0) with true. cbv iota.
    assert (k <> 50) by congruence.
    assert (Eb : u64 (Z.shiftl (2 ^ k) 1) = 2 ^ (k + 1)).
    { rewrite Z.shiftl_mul_pow2, <- Z.pow_add_r by lia. apply uwrap_small. unfold urange.
      split; [apply Z.pow_nonneg; lia|]. apply Z.pow_lt_mono_r; lia. }
    rewrite Eb. destruct (IH (k + 1)) as (c & Ec & Hc & Ht & Hf); [lia|lia|lia|].
    exists c. split; [done|]. split; [lia|]. split; [done|]. intros j Hj. destruct (decide (j = k)) as [->|]; [done|].
    apply Hf. lia.
Qed.

Definition hash_of (ele : bytes) : Z := MurmurHash64A ele 2915580697.

Lemma hllPatLen_spec ele : exists count index, hllPatLen ele = Some (count, index) /\
  1 <= count <= 51 /\ 0 <= index < 16384 /\ index = hash_of ele mod 16384.
Proof.
  unfold hllPatLen. fold (hash_of ele). set (h := hash_of ele). change HLL_P_MASK with (Z.ones 14).
  rewrite Z.land_ones by lia. change (2 ^ 14) with 16384. change (Z.shiftl 1 HLL_Q) with (2 ^ 50).
  destruct (pat_loop_spec (Z.lor (Z.shiftr h HLL_P) (2 ^ 50)) 51) with (k := 0) as (c & E & Hc & _); [|lia|lia|lia|].
  { rewrite Z.lor_spec, (Z.pow2_bits_true 50), orb_true_r by lia. done. }
  change (2 ^ 0) with 1 in E. change (0 + 1) with 1 in E. rewrite E. cbn [mbind option_bind].
  exists c, (h mod 16384). split_and!; [done|lia|lia|apply Z.mod_pos_bound; lia|apply Z.mod_pos_bound; lia|done].
Qed.

(** Register and pattern length of an element. *)
Definition ele_count (ele : bytes) : Z := match hllPatLen ele with Some (c, _) => c | None => 0 end.
Definition ele_index (ele : bytes) : Z := match hllPatLen ele with Some (_, i) => i | None => 0 end.

Lemma hllPatLen_eq ele : hllPatLen ele = Some (ele_count ele, ele_index ele) /\
  1 <= ele_count ele <= 51 /\ 0 <= ele_index ele < 16384.
Proof.
  destruct (hllPatLen_spec ele) as (c & i & E & Hc & Hi & _). unfold ele_count, ele_index. by rewrite E.
Qed.

#[global] Opaque ele_count ele_index.

(** * Registers of a collection of elements *)

Definition max_count (i : Z) (els : list bytes) : Z :=
  fold_right (fun ele m => if ele_index ele =? i then Z.max (ele_count ele) m else m) 0 els.
Definition reg_ids : list Z := map Z.of_nat (seq 0 (Z.to_nat 16384)).
Definition elem_regs (els : list bytes) : list Z := map (fun i => max_count i els) reg_ids.
Definition no_regs : list Z := replicate (Z.to_nat 16384) 0.

Lemma ids_lookup n i : (i < n)%nat -> map Z.of_nat (seq 0 n) !! i = Some (Z.of_nat i).
Proof.
  intros Hi. rewrite list_lookup_fmap. assert (E : seq 0 n !! i = Some i) by (apply lookup_seq; lia). by rewrite E.
Qed.

Lemma reg_ids_lookup i : (i < Z.to_nat 16384)%nat -> reg_ids !! i = Some (Z.of_nat i).
Proof. apply ids_lookup. Qed.

Lemma length_reg_ids : length reg_ids = Z.to_nat 16384.
Proof. unfold reg_ids. by rewrite length_map, length_seq. Qed.

#[global] Opaque reg_ids.

Lemma elem_regs_lookup els i : (i < Z.to_nat 16384)%nat -> elem_regs els !! i = Some (max_count (Z.of_nat i) els).
Proof. intros Hi. unfold elem_regs. by rewrite list_lookup_fmap, reg_ids_lookup. Qed.

Lemma length_elem_regs els : length (elem_regs els) = Z.to_nat 16384.
Proof. unfold elem_regs. by rewrite length_map, length_reg_ids. Qed.

Lemma max_count_cons i e els :
  max_count i (e :: els) = if ele_index e =? i then Z.max (ele_count e) (max_count i els) else max_count i els.
Proof. done. Qed.

Lemma max_count_range i els : 0 <= max_count i els <= 51.
Proof.
  induction els as [|e els IH]; [cbn; lia|]. rewrite max_count_cons. destruct (hllPatLen_eq e) as (_ & Hc & _).
  destruct (ele_index e =? i); lia.
Qed.

Lemma max_count_app i a b : max_count i (a ++ b) = Z.max (max_count i a) (max_count i b).
Proof.
  induction a as [|e a IH]; [pose proof (max_count_range i b); cbn [app]; change (max_count i []) with 0; lia|].
  cbn [app]. rewrite !max_count_cons, IH. destruct (ele_index e =? i); lia.
Qed.

(** The maximum over the elements does not depend on order and multiplicity. *)
Lemma max_count_le i a b : (forall e, e ∈ a -> e ∈ b) -> max_count i a <= max_count i b.
Proof.
  induction a as [|e a IH]; intros Hsub; [pose proof (max_count_range i b); cbn [app]; change (max_count i []) with 0; lia|]. rewrite max_count_cons.
  pose proof (IH ltac:(intros; apply Hsub; by right)) as Ha. destruct (ele_index e =? i) eqn:Ei; [apply Z.eqb_eq in Ei|done].
  pose proof (Hsub e ltac:(left)) as He. apply list_elem_of_split in He as (b1 & b2 & ->).
  rewrite max_count_app, max_count_cons, (proj2 (Z.eqb_eq _ _) Ei) in *. lia.
Qed.

(** Equality of lists of registers, register by register. *)
Lemma regs_eq (a b : list Z) : length a = Z.to_nat 16384 -> length b = Z.to_nat 16384 ->
  (forall i x y, (i < Z.to_nat 16384)%nat -> a !! i = Some x -> b !! i = Some y -> x = y) -> a = b.
Proof.
  intros Ha Hb H. apply list_eq. intros i. destruct (decide (i < Z.to_nat 16384)%nat) as [Hi|Hi].
  - destruct (lookup_lt_is_Some_2 a i) as [x Ex]; [lia|]. destruct (lookup_lt_is_Some_2 b i) as [y Ey]; [lia|].
    rewrite Ex, Ey. f_equal. by eapply H.
  - by rewrite !lookup_ge_None_2 by lia.
Qed.

Lemma zmax_lookup a b i : zmax_list a b !! i = (x ← a !! i; y ← b !! i; Some (Z.max x y)).
Proof. unfold zmax_list. rewrite lookup_zip_with. by destruct (a !! i), (b !! i). Qed.

Lemma length_zmax a b : length a = length b -> length (zmax_list a b) = length a.
Proof. intros H. unfold zmax_list. rewrite length_zip_with. lia. Qed.

Lemma elem_regs_app a b : elem_regs (a ++ b) = zmax_list (elem_regs a) (elem_regs b).
Proof.
  apply regs_eq; [apply length_elem_regs|rewrite length_zmax; rewrite !length_elem_regs; done|].
  intros i x y Hi. rewrite zmax_lookup, !elem_regs_lookup by done. cbn. intros [= <-] [= <-]. apply max_count_app.
Qed.

Lemma elem_regs_same a b : (forall e, e ∈ a <-> e ∈ b) -> elem_regs a = elem_regs b.
Proof.
  intros H. apply regs_eq; [apply length_elem_regs|apply length_elem_regs|].
  intros i x y Hi. rewrite !elem_regs_lookup by done. intros [= <-] [= <-].
  apply Z.le_antisymm; apply max_count_le; intros e He; by apply H.
Qed.

Lemma elem_regs_nil : elem_regs [] = no_regs.
Proof.
  apply regs_eq; [apply length_elem_regs|apply length_replicate|].
  intros i x y Hi. rewrite elem_regs_lookup by done. unfold no_regs. rewrite lookup_replicate_2 by done. by intros [= <-] [= <-].
Qed.

(** A list of registers as far as the lengths and ranges go. *)
Definition regs_ok (regs : list Z) : Prop := length regs = Z.to_nat 16384 /\ Forall reg_ok regs.

Lemma parts_regs nu card regs : hll_parts nu card regs -> regs_ok regs.
Proof. intros [_ _ _ Hl Hr]. split; [unfold zlen in Hl; lia|done]. Qed.

Lemma is_hll_regs s card regs : is_hll s card regs -> regs_ok regs.
Proof. intros [(c & nu & _ & Hp & _)|(c & nu & _ & Hp & _)]; by eapply parts_regs. Qed.

Lemma elem_regs_ok els : regs_ok (elem_regs els).
Proof.
  split; [apply length_elem_regs|]. apply Forall_lookup_2. intros i x Hx. pose proof (lookup_lt_Some _ _ _ Hx) as Hi.
  rewrite length_elem_regs in Hi. rewrite elem_regs_lookup in Hx by done. injection Hx as <-.
  pose proof (max_count_range (Z.of_nat i) els). unfold reg_ok. lia.
Qed.

Lemma no_regs_ok : regs_ok no_regs.
Proof. split; [apply length_replicate|]. apply Forall_replicate. unfold reg_ok. lia. Qed.

Lemma zmax_ok a b : regs_ok a -> regs_ok b -> regs_ok (zmax_list a b).
Proof.
  intros [Ha Hra] [Hb Hrb]. split; [rewrite length_zmax; lia|].
  apply Forall_lookup_2. intros i x Hx. rewrite zmax_lookup in Hx.
  destruct (a !! i) as [u|] eqn:Eu; [|done]. destruct (b !! i) as [v|] eqn:Ev; [|done]. injection Hx as <-.
  pose proof (Forall_lookup_1 _ _ _ _ Hra Eu) as H1. pose proof (Forall_lookup_1 _ _ _ _ Hrb Ev) as H2.
  unfold reg_ok in *. lia.
Qed.

(** ** The maximum is a semilattice *)

Lemma zmax_assoc a b c : zmax_list a (zmax_list b c) = zmax_list (zmax_list a b) c.
Proof.
  unfold zmax_list. revert b c. induction a as [|x a IH]; intros [|y b] [|z c]; cbn; try done. by rewrite IH, Z.max_assoc.
Qed.

Lemma zmax_comm a b : zmax_list a b = zmax_list b a.
Proof. unfold zmax_list. revert b. induction a as [|x a IH]; intros [|y b]; cbn; try done. by rewrite IH, Z.max_comm. Qed.

Lemma zmax_idem a : zmax_list a a = a.
Proof. unfold zmax_list. induction a as [|x a IH]; cbn; [done|]. by rewrite IH, Z.max_id. Qed.

Lemma zmax_none a : regs_ok a -> zmax_list a no_regs = a.
Proof. intros [Hl Hr]. unfold no_regs. rewrite <- Hl. by apply zmax_zero. Qed.

Lemma zmax_none_l a : regs_ok a -> zmax_list no_regs a = a.
Proof. intros. rewrite zmax_comm. by apply zmax_none. Qed.

(** Setting the register of an element is the maximum with the registers of that element. *)
Lemma set_reg_elem regs e old : regs_ok regs -> zget regs (ele_index e) = Some old ->
  set_reg regs (ele_index e) (Z.max old (ele_count e)) = zmax_list regs (elem_regs [e]).
Proof.
  intros [Hl Hr] Hg. destruct (hllPatLen_eq e) as (_ & Hc & Hi). apply zget_Some in Hg as [_ Hg].
  apply regs_eq; [unfold set_reg; by rewrite length_insert|rewrite length_zmax; rewrite ?length_elem_regs; done|].
  intros i x y Hlt. rewrite zmax_lookup, elem_regs_lookup by done. unfold set_reg. rewrite max_count_cons. change (max_count (Z.of_nat i) []) with 0.
  destruct (decide (i = Z.to_nat (ele_index e))) as [->|Hne].
  - rewrite list_lookup_insert_eq by lia. rewrite Hg, Z2Nat.id, Z.eqb_refl by lia. cbn. intros [= <-] [= <-]. lia.
  - rewrite list_lookup_insert_ne by done. rewrite (proj2 (Z.eqb_neq _ _)) by lia. intros Ex. rewrite Ex. cbn. intros [= <-].
    pose proof (Forall_lookup_1 _ _ _ _ Hr Ex) as Hx. unfold reg_ok in Hx. lia.
Qed.

(** * Operations on strings *)

Lemma dense_encoding s card regs : is_dense s card regs -> hdr_encoding s = Some HLL_DENSE.
Proof.
  intros (c & nu & (t & sp & HL) & Hp & body & -> & _). rewrite <- app_assoc in HL. by apply (encoding_spec _ _ _ _ _ _ _ _ HL Hp).
Qed.

Lemma sparse_encoding s card regs : is_sparse s card regs -> hdr_encoding s = Some HLL_SPARSE.
Proof.
  intros (c & nu & (t & sp & HL) & Hp & ops & -> & _). rewrite <- app_assoc in HL. by apply (encoding_spec _ _ _ _ _ _ _ _ HL Hp).
Qed.

(** A HyperLogLog as memory: the header in front. *)
Lemma hll_memory s card regs : is_hll s card regs -> exists t len e nu R, lay s t len (hll_hdr e nu card ++ R) /\ hll_parts nu card regs /\
  hdr_encoding s = Some e /\
  (forall s' card', lay s' t len (hll_hdr e nu card' ++ R) -> hll_parts nu card' regs -> is_hll s' card' regs).
Proof.
  intros [Hd|Hd].
  - pose proof (dense_encoding _ _ _ Hd) as Ee. destruct Hd as (c & nu & (t & sp & HL) & Hp & body & -> & Hb & Hpk).
    rewrite <- app_assoc in HL. exists t, (zlen (hll_hdr HLL_DENSE nu card ++ body)), HLL_DENSE, nu, (body ++ 0 :: sp).
    split_and!; [done|done|done|]. intros s' card' HL' Hp'. left. exists (hll_hdr HLL_DENSE nu card' ++ body), nu.
    split_and!; [|done|by exists body]. exists t, sp. rewrite <- app_assoc.
    rewrite zlen_app, (zlen_hll_hdr _ _ _ _ Hp) in HL'. rewrite zlen_app, (zlen_hll_hdr _ _ _ _ Hp'). exact HL'.
  - pose proof (sparse_encoding _ _ _ Hd) as Ee. destruct Hd as (c & nu & (t & sp & HL) & Hp & ops & -> & Hok & He).
    rewrite <- app_assoc in HL. exists t, (zlen (hll_hdr HLL_SPARSE nu card ++ enc ops)), HLL_SPARSE, nu, (enc ops ++ 0 :: sp).
    split_and!; [done|done|done|]. intros s' card' HL' Hp'. right. exists (hll_hdr HLL_SPARSE nu card' ++ enc ops), nu.
    split_and!; [|done|by exists ops]. exists t, sp. rewrite <- app_assoc.
    rewrite zlen_app, (zlen_hll_hdr _ _ _ _ Hp) in HL'. rewrite zlen_app, (zlen_hll_hdr _ _ _ _ Hp'). exact HL'.
Qed.

Lemma hll_invalidate s card regs : is_hll s card regs ->
  exists s' card', HLL_INVALIDATE_CACHE s = Some s' /\ is_hll s' card' regs /\ 2 ^ 63 <= le_value card'.
Proof.
  intros H. destruct (hll_memory _ _ _ H) as (t & len & e & nu & R & HL & Hp & _ & Hback).
  destruct (invalidate_spec _ _ _ _ _ _ _ _ HL Hp) as (s' & card' & E & HL' & Hp' & Hc). exists s', card'. eauto.
Qed.

(** Both ways of setting a register. *)
Lemma set_any maxb s card regs i old v other : is_hll s card regs -> zget regs i = Some old -> 1 <= v < 64 ->
  exists s' card', (enc ← hdr_encoding s;
     (if enc =? HLL_DENSE then hllDenseSet s HLL_HDR_SIZE i v
      else if enc =? HLL_SPARSE then hllSparseSet maxb s i v else other)) = Some (s', if old <? v then 1 else 0) /\
   is_hll s' card' (set_reg regs i (Z.max old v)) /\ (v <= old -> card' = card).
Proof.
  intros [Hd|Hd] Hg Hv.
  - rewrite (dense_encoding _ _ _ Hd). cbn [mbind option_bind].
    destruct (hllDenseSet_spec s card regs i old v Hd Hg) as (s' & E & Hd'); [unfold reg_ok; lia|].
    exists s', card. split_and!; [exact E|by left|done].
  - rewrite (sparse_encoding _ _ _ Hd). cbn [mbind option_bind].
    destruct (hllSparseSet_spec maxb s card regs i old v Hd Hg Hv) as (s' & card' & E & H' & Hc).
    exists s', card'. split_and!; [exact E|done|done].
Qed.

Lemma hllAdd_spec maxb s card regs ele : is_hll s card regs ->
  exists s' card' r, hllAdd maxb s ele = Some (s', r) /\ is_hll s' card' (zmax_list regs (elem_regs [ele])) /\
    ((r = 0 /\ zmax_list regs (elem_regs [ele]) = regs /\ card' = card) \/ (r = 1 /\ zmax_list regs (elem_regs [ele]) <> regs)).
Proof.
  intros H. destruct (hllPatLen_eq ele) as (Ep & Hc & Hi). pose proof (is_hll_regs _ _ _ H) as Hr.
  destruct (zget_in_range regs (ele_index ele)) as [old Hg]; [unfold zlen; rewrite (proj1 Hr); lia|].
  destruct (set_any maxb s card regs _ old (ele_count ele) (Some (s, -1)) H Hg) as (s' & card' & E & H' & Hcard); [lia|].
  pose proof (set_reg_elem regs ele old Hr Hg) as Es. rewrite Es in H'.
  exists s', card', (if old <? ele_count ele then 1 else 0). split_and!; [|done|].
  - rewrite <- E. unfold hllAdd, hllDenseAdd, hllSparseAdd. rewrite Ep.
    destruct (hdr_encoding s) as [e|]; [|done]. cbn [mbind option_bind]. rewrite u8_byte by (unfold byte_ok; lia). done.
  - destruct (Z.ltb_spec old (ele_count ele)).
    + right. split; [done|]. rewrite <- Es. intros Heq. apply (f_equal (fun l => zget l (ele_index ele))) in Heq.
      rewrite Hg in Heq. unfold zget, set_reg in Heq. rewrite (proj2 (Z.leb_le _ _)) in Heq by lia.
      rewrite list_lookup_insert_eq in Heq by (rewrite (proj1 Hr); lia). injection Heq. lia.
    + left. split_and!; [done| |by apply Hcard]. rewrite <- Es, Z.max_l by lia. by apply set_reg_same.
Qed.

Lemma add_loop_spec maxb els : forall s card regs updated, is_hll s card regs -> 0 <= updated ->
  exists s' card' u', add_loop maxb s els updated = Some (s', u', false) /\
    is_hll s' card' (zmax_list regs (elem_regs els)) /\ updated <= u' /\
    (u' = updated <-> zmax_list regs (elem_regs els) = regs) /\ (u' = updated -> card' = card).
Proof.
  induction els as [|ele els IH]; intros s card regs updated H Hu.
  - exists s, card, updated. rewrite elem_regs_nil, (zmax_none regs) by by eapply is_hll_regs. done.
  - cbn [add_loop]. destruct (hllAdd_spec maxb s card regs ele H) as (s1 & card1 & r & E & H1 & Hr). rewrite E. cbn [mbind option_bind].
    change (ele :: els) with ([ele] ++ els). rewrite elem_regs_app, zmax_assoc.
    set (regs1 := zmax_list regs (elem_regs [ele])) in *.
    assert (Hmono : zmax_list regs1 (elem_regs els) = regs -> regs1 = regs).
    { intros Heq. assert (Hx : zmax_list regs regs1 = regs1) by (unfold regs1; by rewrite zmax_assoc, zmax_idem).
      assert (Hy : zmax_list regs1 regs = regs) by (rewrite <- Heq; by rewrite zmax_assoc, zmax_idem).
      by rewrite <- Hx, zmax_comm, Hy. }
    destruct Hr as [(-> & Heq & ->)|(-> & Hne)].
    + change (0 =? -1) with false. change (0 =? 1) with false. cbv iota. rewrite Heq in H1 |- *.
      by apply (IH s1 card regs updated).
    + change (1 =? -1) with false. change (1 =? 1) with true. cbv iota.
      destruct (IH s1 card1 regs1 (updated + 1) H1) as (s' & card' & u' & E' & H' & Hle & Hiff & Hc); [lia|].
      exists s', card', u'. split_and!; [done|done|lia| |lia]. split; [lia|]. intros Heq. by apply Hmono in Heq.
Qed.

(** The string of a new object. *)
Definition empty_hll : sds := Sds ([144] ++ hll_hdr HLL_SPARSE [0; 0; 0] (zeros 8) ++ [127; 255; 0]) 1.

Lemma empty_hll_sparse : is_sparse empty_hll (zeros 8) no_regs.
Proof.
  exists (hll_hdr HLL_SPARSE [0; 0; 0] (zeros 8) ++ enc [OXZero 16384]), [0; 0; 0]. split_and!.
  - exists 0, []. split; [vm_compute; reflexivity|done|lia|vm_compute; split; discriminate|vm_compute; done|done].
  - split; [done|done|apply Forall_replicate; unfold byte_ok; lia| |apply no_regs_ok].
    unfold zlen, no_regs. rewrite length_replicate. done.
  - exists [OXZero 16384]. split_and!; [done|apply List.Forall_cons; [cbn; lia|by apply List.Forall_nil]|].
    unfold expand, run, no_regs. cbn [flat_map op_len op_val]. by rewrite app_nil_r.
Qed.

Lemma createHLLObject_spec : exists s card, createHLLObject = Some s /\ is_hll s card no_regs.
Proof.
  exists empty_hll, (zeros 8). split; [vm_compute; reflexivity|]. right. apply empty_hll_sparse.
Qed.

(** ** Merging and counting *)

Lemma merge_dense_spec t len H X s regs n : dmem t len H X s regs -> zlen H = 16 -> zlen regs <= 16384 ->
  forall dn R dm M, regs = dn ++ R -> length R = n -> length M = n -> length dm = length dn ->
  merge_dense n (dm ++ M) s (zlen dn) = Some (dm ++ zmax_list M R).
Proof.
  intros Hm HH Hl. induction n as [|n IH]; intros dn R dm M E HR HM Hd.
  - destruct R, M; try done.
  - destruct R as [|r R]; [done|]. destruct M as [|m M]; [done|]. cbn [merge_dense].
    change HLL_HDR_SIZE with 16. rewrite <- HH.
    rewrite (dense_get t len H X s regs 32 (zlen dn) r) by (done || (by left) || (subst; by apply zget_app)).
    cbn [mbind option_bind]. assert (Hz : zlen dn = zlen dm) by (unfold zlen; lia).
    rewrite Hz, zget_app by done. cbn [mbind option_bind].
    assert (Es : (if r >? m then zput (dm ++ m :: M) (zlen dm) [r] else Some (dm ++ m :: M)) = Some (dm ++ [Z.max m r] ++ M)).
    { rewrite Z.gtb_ltb. destruct (Z.ltb_spec m r).
      - rewrite Z.max_r by lia. by apply (zput_app dm [m]).
      - by rewrite Z.max_l by lia. }
    rewrite Es. cbn [mbind option_bind]. rewrite <- Hz. replace (zlen dn + 1) with (zlen (dn ++ [r])) by zlia.
    rewrite app_assoc, (IH (dn ++ [r]) R) by (rewrite ?length_app; cbn in *; (lia || (by rewrite <- app_assoc))).
    cbn [zmax_list zip_with]. by rewrite <- app_assoc.
Qed.

#[local] Opaque merge_dense merge_sparse dense_histo_fast raw_histo_loop sparse_histo_loop.

Lemma nregs_eq : Z.to_nat HLL_REGISTERS = Z.to_nat 16384.
Proof. by f_equal. Qed.

Lemma nwords_eq : Z.to_nat (HLL_REGISTERS / 8) = Z.to_nat 2048.
Proof. by f_equal. Qed.

Lemma merge_dense_all t H X s regs M : dmem t HLL_DENSE_SIZE H X s regs -> zlen H = 16 -> zlen regs <= 16384 -> length regs = length M ->
  merge_dense (length M) M s 0 = Some (zmax_list M regs).
Proof.
  intros Hm HH Hl Hlen. pose proof (merge_dense_spec t _ H X s regs (length M) Hm HH Hl [] regs [] M) as E.
  cbn [app] in E. change (zlen (@nil Z)) with 0 in E. by apply E.
Qed.

Lemma hllMerge_dense M s card regs : is_dense s card regs -> regs_ok M -> hllMerge M s = Some (zmax_list M regs, C_OK).
Proof.
  intros Hd [HM HMr]. pose proof (dense_encoding _ _ _ Hd) as Ee.
  destruct Hd as (c & nu & Hs & Hp & Hc). destruct (dense_mem _ _ _ _ _ Hs Hc Hp) as (t & X & Hm).
  assert (E : merge_dense (Z.to_nat HLL_REGISTERS) M s 0 = Some (zmax_list M regs)).
  { rewrite nregs_eq, <- HM. apply (merge_dense_all t _ X s regs M Hm); [by apply (zlen_hll_hdr _ _ _ _ Hp)| |].
    - rewrite (hp_len _ _ _ Hp). lia.
    - rewrite HM. apply (parts_regs _ _ _ Hp). }
  unfold hllMerge. rewrite Ee. cbn [mbind option_bind]. unfold HLL_DENSE at 1 2. cbn [Z.eqb]. rewrite E. done.
Qed.

Lemma hllMerge_sparse M s card regs : is_sparse s card regs -> regs_ok M -> hllMerge M s = Some (zmax_list M regs, C_OK).
Proof.
  intros Hd [HM HMr]; unfold hllMerge.
  rewrite (sparse_encoding _ _ _ Hd). cbn [mbind option_bind]. change (HLL_SPARSE =? HLL_DENSE) with false. cbv iota.
  destruct Hd as (c & nu & (t & sp & HL) & Hp & ops & -> & Hok & He). rewrite (lay_sdslen _ _ _ _ HL). cbn [mbind option_bind].
  rewrite <- app_assoc in HL. pose proof (zlen_hll_hdr HLL_SPARSE _ _ _ Hp) as Hh. rewrite zlen_app, Hh in *.
  pose proof (hp_len _ _ _ Hp) as Hlen. pose proof (fuel_enough ops 16 Hok ltac:(lia)) as Hf.
  pose proof (merge_sparse_spec s t _ (0 :: sp) ops Hok _ _ [] M HL Hf HMr) as E.
  rewrite He, Hlen, Hh in E. change (zlen (@nil Z)) with 0 in E. cbn [app] in E. change HLL_HDR_SIZE with 16.
  rewrite E by (unfold zlen; rewrite HM; lia). cbn [mbind option_bind]. done.
Qed.

Lemma hllMerge_spec M s card regs : is_hll s card regs -> regs_ok M -> hllMerge M s = Some (zmax_list M regs, C_OK).
Proof. intros [Hd|Hd]; [by apply hllMerge_dense with (card := card)|by apply hllMerge_sparse with (card := card)]. Qed.

Lemma reg_histogram_sds s card regs : is_hll s card regs -> reg_histogram (InSds s) = Some (histogram regs, false).
Proof.
  intros Hd. change (replicate 64 0) with (histogram []). unfold reg_histogram. change (replicate 64 0) with (histogram []).
  destruct Hd as [Hd|Hd].
  - rewrite (dense_encoding _ _ _ Hd). cbn [mbind option_bind]. change (HLL_DENSE =? HLL_DENSE) with true. cbv iota.
    destruct Hd as (c & nu & (t & sp & HL) & Hp & body & -> & Hb & Hpk). rewrite <- app_assoc in HL.
    assert (Hpk' : packed body regs).
    { rewrite <- (app_nil_r regs) in Hpk. apply packed_app in Hpk as [Hpk _]; [done|]. rewrite Hb, (hp_len _ _ _ Hp). done. }
    unfold hllDenseRegHisto. change ((HLL_REGISTERS =? 16384) && (HLL_BITS =? 6)) with true. cbv iota.
    change HLL_HDR_SIZE with 16. rewrite <- (zlen_hll_hdr HLL_DENSE _ _ _ Hp).
    pose proof (hp_len _ _ _ Hp) as Hlen.
    rewrite (dense_histo_fast_spec t _ (0 :: sp) 1024 s _ body regs [] HL Hpk') by (change (zlen (@nil Z)) with 0; lia). done.
  - rewrite (sparse_encoding _ _ _ Hd). cbn [mbind option_bind]. change (HLL_SPARSE =? HLL_DENSE) with false.
    change (HLL_SPARSE =? HLL_SPARSE) with true. cbv iota.
    destruct Hd as (c & nu & (t & sp & HL) & Hp & ops & -> & Hok & He). rewrite (lay_sdslen _ _ _ _ HL). cbn [mbind option_bind].
    rewrite <- app_assoc in HL. pose proof (zlen_hll_hdr HLL_SPARSE _ _ _ Hp) as Hh. rewrite zlen_app, Hh in *.
    pose proof (hp_len _ _ _ Hp) as Hlen. unfold hllSparseRegHisto. change HLL_HDR_SIZE with 16.
    replace (16 + zlen (enc ops) - 16) with (zlen (enc ops)) by lia.
    pose proof (sparse_histo_spec s t _ (0 :: sp) ops Hok _ _ [] HL (fuel_enough ops 0 Hok ltac:(lia))) as E.
    rewrite He, Hlen, Hh in E. change (zlen (@nil Z)) with 0 in E. cbn [app] in E. rewrite !Z.add_0_l in E.
    rewrite E by lia. done.
Qed.

Lemma reg_histogram_raw regs : regs_ok regs -> reg_histogram (InRaw regs) = Some (histogram regs, false).
Proof.
  intros [Hl Hr]. unfold reg_histogram, hllRawRegHisto. change (replicate 64 0) with (histogram []).
  rewrite nwords_eq.
  pose proof (raw_histo_spec (Z.to_nat 2048) [] regs [] Hr) as E. change (zlen (@nil Z)) with 0 in E. cbn [app] in E.
  rewrite E by (unfold zlen; rewrite Hl; lia). done.
Qed.

(** ** The cached cardinality *)

Lemma hll_card s card regs : is_hll s card regs -> HLL_VALID_CACHE s = Some (le_value card <? 2 ^ 63) /\ cached_card s = Some (le_value card).
Proof.
  intros H. destruct (hll_memory _ _ _ H) as (t & len & e & nu & R & HL & Hp & _ & _).
  split; [by apply (valid_cache_spec _ _ _ _ _ _ _ _ HL Hp)|]. unfold cached_card.
  replace (hll_hdr e nu card ++ R) with ((str "HYLL" ++ e :: nu) ++ card ++ R) in HL by (unfold hll_hdr; apps).
  pose proof (lay_sub s t len _ _ _ HL) as E. rewrite (hp_card _ _ _ Hp) in E.
  rewrite zlen_app, zlen_cons, (hp_nu _ _ _ Hp) in E. change (zlen (str "HYLL") + (1 + 3)) with 8 in E. by rewrite E.
Qed.

Lemma hll_put_card s card regs v : is_hll s card regs ->
  exists s', s_put s 8 (le_bytes 8 v) = Some s' /\ is_hll s' (le_bytes 8 v) regs.
Proof.
  intros H. destruct (hll_memory _ _ _ H) as (t & len & e & nu & R & HL & Hp & _ & Hback).
  replace (hll_hdr e nu card ++ R) with ((str "HYLL" ++ e :: nu) ++ card ++ R) in HL by (unfold hll_hdr; apps).
  destruct (lay_put s t len _ _ _ (le_bytes 8 v) 8 HL) as (s' & E & HL').
  - by rewrite zlen_app, zlen_cons, (hp_nu _ _ _ Hp).
  - by rewrite zlen_le_bytes, (hp_card _ _ _ Hp).
  - exists s'. split; [done|]. apply Hback.
    + by replace (hll_hdr e nu (le_bytes 8 v) ++ R) with ((str "HYLL" ++ e :: nu) ++ le_bytes 8 v ++ R) by (unfold hll_hdr; apps).
    + destruct Hp as [? ? ? ? ?]. split; [done|by rewrite zlen_le_bytes|apply le_bytes_ok|done|done].
Qed.

(** ** Objects *)

Lemma hll_content_size s card regs : is_hll s card regs -> exists c, is_sds s c /\ 16 <= zlen c < 2 ^ 31 /\
  (forall s', is_sds s' c -> is_hll s' card regs) /\ (hdr_encoding s = Some HLL_DENSE -> zlen c = HLL_DENSE_SIZE).
Proof.
  intros [Hd|Hd].
  - destruct Hd as (c & nu & Hs & Hp & Hc). exists c. pose proof Hc as (body & E & Hb & _).
    assert (Hz : zlen c = HLL_DENSE_SIZE) by (rewrite E, zlen_app, (zlen_hll_hdr _ _ _ _ Hp), Hb; done).
    split_and!; [done|by rewrite Hz|by rewrite Hz| |done]. intros s' Hs'. left. by exists c, nu.
  - pose proof (sparse_encoding _ _ _ Hd) as Ee. destruct Hd as (c & nu & Hs & Hp & Hc). exists c. pose proof Hc as (ops & E & Hok & He).
    pose proof (sparse_size ops Hok ltac:(rewrite He; apply Hp)). pose proof (zlen_nonneg (enc ops)).
    assert (Hz : zlen c = 16 + zlen (enc ops)) by (by rewrite E, zlen_app, (zlen_hll_hdr _ _ _ _ Hp)).
    split_and!; [done|lia|lia| |by rewrite Ee]. intros s' Hs'. right. by exists c, nu.
Qed.

Lemma isHLL_spec enc rc s card regs : is_hll s card regs -> isHLLObjectOrReply (StrObj enc rc s) = Some None.
Proof.
  intros H. destruct (hll_content_size _ _ _ H) as (c & Hs & Hz & _ & Hd).
  destruct (hll_memory _ _ _ H) as (t & len & e & nu & R & HL & Hp & Ee & _).
  unfold isHLLObjectOrReply. rewrite (is_sds_len _ _ Hs). cbn [mbind option_bind].
  rewrite (proj2 (Z.ltb_ge _ _)) by (change HLL_HDR_SIZE with 16; lia).
  pose proof (lay_sub s t len [] (str "HYLL") ((e :: nu ++ card) ++ R)) as Esub. cbn [app] in Esub.
  change (zlen (@nil Z)) with 0 in Esub. change (zlen (str "HYLL")) with 4 in Esub.
  rewrite Esub by (unfold hll_hdr in HL; rewrite <- app_assoc in HL; exact HL). cbn [mbind option_bind].
  rewrite bool_decide_eq_true_2 by done. cbn [negb]. rewrite Ee. cbn [mbind option_bind].
  assert (e = 0 \/ e = 1) as [->| ->].
  { destruct H as [H|H]; [rewrite (dense_encoding _ _ _ H) in Ee|rewrite (sparse_encoding _ _ _ H) in Ee]; injection Ee as <-; [by left|by right]. }
  - rewrite Hd by done. reflexivity.
  - reflexivity.
Qed.

Lemma unshare_spec d key enc rc s card regs : kv d !! key = Some (StrObj enc rc s) -> is_hll s card regs ->
  exists d1 s1, dbUnshareStringValue d key (StrObj enc rc s) = Some (d1, s1) /\ is_hll s1 card regs /\
    kv d1 = <[key := StrObj OBJ_ENCODING_RAW 1 s1]> (kv d).
Proof.
  intros Hk H. unfold dbUnshareStringValue. destruct (negb (rc =? 1) || negb (enc =? OBJ_ENCODING_RAW)) eqn:Eb.
  - destruct (hll_content_size _ _ _ H) as (c & Hs & Hz & Hcopy & _). rewrite (is_sds_len _ _ Hs). cbn [mbind option_bind].
    rewrite (is_sds_bytes _ _ Hs). cbn [mbind option_bind].
    destruct (sdsnewlen_spec c) as (s1 & -> & Hs1); [lia|]. cbn [mbind option_bind]. eexists _, s1. split_and!; [done|by apply Hcopy|done].
  - apply orb_false_iff in Eb as [E1%negb_false_iff E2%negb_false_iff]. apply Z.eqb_eq in E1 as ->. apply Z.eqb_eq in E2 as ->.
    exists d, s. split_and!; [done|done|]. by rewrite insert_id.
Qed.

(** * The commands *)

Section Refinement.
Context (maxb : Z) (est : list Z -> Z).
#[local] Set Default Proof Using "Type".

Definition card_of (regs : list Z) : Z := u64 (est (histogram regs)).
(** A cached cardinality that is marked valid is the estimate for the registers. *)
Definition cache_ok (card : bytes) (regs : list Z) : Prop := 2 ^ 63 <= le_value card \/ le_value card = card_of regs.

Definition hll_obj (o : robj) (regs : list Z) : Prop :=
  exists enc rc s card, o = StrObj enc rc s /\ is_hll s card regs /\ cache_ok card regs.

(** The database holds HyperLogLogs only, with the registers of [m]. *)
Definition db_rel (d : hdb) (m : gmap bytes (list Z)) : Prop :=
  forall key, match kv d !! key, m !! key with
              | Some o, Some regs => hll_obj o regs
              | None, None => True
              | _, _ => False
              end.

Definition value (m : gmap bytes (list Z)) (key : bytes) : list Z := default no_regs (m !! key).
Definition union (m : gmap bytes (list Z)) (keys : list bytes) : list Z :=
  fold_left (fun acc key => zmax_list acc (value m key)) keys no_regs.

Inductive command := PFADD (key : bytes) (els : list bytes) | PFCOUNT (key : bytes) (keys : list bytes)
  | PFMERGE (dst : bytes) (srcs : list bytes).

Definition run_cmd (d : hdb) (c : command) : option (hdb * reply) :=
  match c with
  | PFADD key els => pfaddCommand maxb d key els
  | PFCOUNT key keys => pfcountCommand est d (key :: keys)
  | PFMERGE dst srcs => pfmergeCommand maxb d dst srcs
  end.

(** What the commands do to the registers, and their replies. *)
Definition spec_command (m : gmap bytes (list Z)) (c : command) : gmap bytes (list Z) * reply :=
  match c with
  | PFADD key els =>
      let regs := zmax_list (value m key) (elem_regs els) in
      (<[key := regs]> m,
       RInt (match m !! key with None => 1 | Some old => if decide (regs = old) then 0 else 1 end))
  | PFCOUNT key [] => (m, RInt (match m !! key with None => 0 | Some regs => s64 (card_of regs) end))
  | PFCOUNT key keys => (m, RInt (s64 (card_of (union m (key :: keys)))))
  | PFMERGE dst srcs => (<[dst := union m (dst :: srcs)]> m, ROk)
  end.

Lemma db_rel_some d m key o : db_rel d m -> kv d !! key = Some o -> exists enc rc s card regs,
  o = StrObj enc rc s /\ m !! key = Some regs /\ is_hll s card regs /\ cache_ok card regs.
Proof.
  intros H Hk. specialize (H key). rewrite Hk in H. destruct (m !! key) as [regs|]; [|done].
  destruct H as (enc & rc & s & card & -> & H & Hc). by exists enc, rc, s, card, regs.
Qed.

Lemma db_rel_none d m key : db_rel d m -> kv d !! key = None -> m !! key = None.
Proof. intros H Hk. specialize (H key). rewrite Hk in H. by destruct (m !! key). Qed.

Lemma db_rel_insert d m key enc rc s card regs kv' : db_rel d m -> is_hll s card regs -> cache_ok card regs ->
  kv' = <[key := StrObj enc rc s]> (kv d) -> forall dirty sig, db_rel (Hdb kv' dirty sig) (<[key := regs]> m).
Proof.
  intros H Hh Hc -> dirty sig k. cbn [kv]. destruct (decide (key = k)) as [<-|Hne].
  - rewrite !lookup_insert_eq. by exists enc, rc, s, card.
  - rewrite !lookup_insert_ne by done. apply H.
Qed.

Lemma value_ok d m key : db_rel d m -> regs_ok (value m key).
Proof.
  intros H. unfold value. specialize (H key). destruct (m !! key) as [regs|]; cbn; [|apply no_regs_ok].
  destruct (kv d !! key); [|done]. destruct H as (? & ? & ? & ? & _ & H & _). by eapply is_hll_regs.
Qed.

Lemma fold_union_ok d m keys : db_rel d m -> forall M, regs_ok M ->
  regs_ok (fold_left (fun acc key => zmax_list acc (value m key)) keys M).
Proof.
  intros H. induction keys as [|k keys IH]; intros M HM; [done|]. apply IH. apply zmax_ok; [done|by eapply value_ok].
Qed.

Lemma merge_keys_spec d m keys : db_rel d m -> forall M ud, regs_ok M ->
  exists ud', merge_keys d keys M ud = Some (inr (fold_left (fun acc key => zmax_list acc (value m key)) keys M, ud')).
Proof.
  intros H. induction keys as [|k keys IH]; intros M ud HM; [by exists ud|]. cbn [merge_keys fold_left].
  destruct (kv d !! k) as [o|] eqn:Ek.
  - destruct (db_rel_some _ _ _ _ H Ek) as (enc & rc & s & card & regs & -> & Em & Hs & _).
    rewrite (isHLL_spec _ _ _ _ _ Hs). cbn [mbind option_bind].
    destruct (hll_memory _ _ _ Hs) as (t & len & e & nu & R & _ & _ & -> & _). cbn [mbind option_bind].
    rewrite (hllMerge_spec _ _ _ _ Hs HM). cbn [mbind option_bind]. change (C_OK =? C_ERR) with false. cbv iota.
    unfold value at 2. rewrite Em. cbn [default]. apply IH. apply zmax_ok; [done|by eapply is_hll_regs].
  - unfold value at 2. rewrite (db_rel_none _ _ _ H Ek). cbn [default]. rewrite zmax_none by done. by apply IH.
Qed.

(** ** PFADD *)

Lemma pfadd_elements_spec d m key s card regs els updated kv0 : db_rel d m -> is_hll s card regs -> 0 <= updated ->
  (updated = 0 -> cache_ok card regs) -> kv0 = <[key := StrObj OBJ_ENCODING_RAW 1 s]> (kv d) -> forall dirty sig,
  exists d', pfadd_elements maxb (Hdb kv0 dirty sig) key s els updated =
    Some (d', RInt (if updated =? 0 then if decide (zmax_list regs (elem_regs els) = regs) then 0 else 1 else 1)) /\
    db_rel d' (<[key := zmax_list regs (elem_regs els)]> m).
Proof.
  intros H Hs Hu Hc -> dirty sig. unfold pfadd_elements.
  destruct (add_loop_spec maxb els s card regs updated Hs Hu) as (s1 & card1 & u & -> & H1 & Hle & Hiff & Hcard). cbn [mbind option_bind].
  destruct (Z.eqb_spec u 0) as [Eu|Eu].
  - assert (updated = 0) as -> by lia. rewrite decide_True by (by apply Hiff). eexists. split; [done|].
    unfold store, db_set. cbn [kv Hll.dirty signalled]. rewrite insert_insert_eq.
    eapply db_rel_insert; [exact H|exact H1| |done]. rewrite (Hcard Eu). rewrite (proj1 Hiff Eu). by apply Hc.
  - destruct (hll_invalidate _ _ _ H1) as (s2 & card2 & -> & H2 & Hbig). cbn [mbind option_bind].
    eexists. split.
    + do 2 f_equal. destruct (Z.eqb_spec updated 0) as [E0|]; [|done]. rewrite decide_False; [done|]. intros Heq. apply Eu. rewrite <- E0. by apply Hiff.
    + unfold db_touch, store, db_set. cbn [kv Hll.dirty signalled]. rewrite insert_insert_eq.
      eapply db_rel_insert; [exact H|exact H2|by left|done].
Qed.

Lemma pfadd_spec d m key els : db_rel d m ->
  exists d', pfaddCommand maxb d key els = Some (d', snd (spec_command m (PFADD key els))) /\
    db_rel d' (fst (spec_command m (PFADD key els))).
Proof.
  intros H. unfold pfaddCommand. cbn [spec_command fst snd]. destruct (kv d !! key) as [o|] eqn:Ek.
  - destruct (db_rel_some _ _ _ _ H Ek) as (enc & rc & s & card & regs & -> & Em & Hs & Hc).
    unfold value. rewrite Em. cbn [default]. rewrite (isHLL_spec _ _ _ _ _ Hs). cbn [mbind option_bind].
    destruct (unshare_spec _ _ _ _ _ _ _ Ek Hs) as ([kv1 di1 si1] & s1 & -> & Hs1 & Ekv). cbn [mbind option_bind kv] in *.
    apply (pfadd_elements_spec d m key s1 card regs els 0 kv1 H Hs1); [lia|done|done].
  - unfold value. rewrite (db_rel_none _ _ _ H Ek). cbn [default].
    destruct createHLLObject_spec as (s & card & -> & Hs). cbn [mbind option_bind]. unfold store at 1, db_set.
    apply (pfadd_elements_spec d m key s card no_regs els 1 _ H Hs); [lia|lia|done].
Qed.

(** ** PFMERGE *)

Lemma write_max_spec M : forall s card dn R, is_hll s card (dn ++ R) -> length R = length M -> Forall reg_ok M ->
  exists s' card', write_max maxb M s (zlen dn) = Some s' /\ is_hll s' card' (dn ++ zmax_list R M).
Proof.
  induction M as [|v M IH]; intros s card dn R Hs HR HM; destruct R as [|r R]; try done.
  { by exists s, card. }
  cbn [write_max]. inversion HM as [|? ? Hv HM']; subst. injection HR as HR.
  assert (Hr : reg_ok r).
  { destruct (is_hll_regs _ _ _ Hs) as [_ Hf]. apply Forall_app in Hf as [_ Hf]. by inversion Hf. }
  assert (Hnext : forall s1 card1, is_hll s1 card1 (dn ++ Z.max r v :: R) -> exists s' card',
    write_max maxb M s1 (zlen dn + 1) = Some s' /\ is_hll s' card' (dn ++ zmax_list (r :: R) (v :: M))).
  { intros s1 card1 H1. replace (zlen dn + 1) with (zlen (dn ++ [Z.max r v])) by zlia.
    destruct (IH s1 card1 (dn ++ [Z.max r v]) R) as (s' & card' & E & H'); [by rewrite <- app_assoc|done|done|].
    exists s', card'. split; [done|]. rewrite <- app_assoc in H'. done. }
  unfold reg_ok in Hr, Hv. destruct (Z.eqb_spec v 0) as [->|Hne].
  - apply (Hnext s card). by rewrite Z.max_l by lia.
  - destruct (set_any maxb s card (dn ++ r :: R) (zlen dn) r v (Some (s, 0)) Hs) as (s1 & card1 & E & H1 & _);
      [by apply zget_app|lia|].
    destruct (hdr_encoding s) as [e|]; [|done]. cbn [mbind option_bind] in *. rewrite E. cbn [mbind option_bind].
    apply (Hnext s1 card1). unfold set_reg in H1. rewrite to_nat_zlen in H1.
    rewrite <- (Nat.add_0_r (length dn)), insert_app_r in H1. exact H1.
Qed.

Lemma fold_union d m keys : db_rel d m -> forall M, regs_ok M ->
  fold_left (fun acc key => zmax_list acc (value m key)) keys M = zmax_list M (union m keys).
Proof.
  intros H. unfold union. induction keys as [|k keys IH]; intros M HM; cbn [fold_left].
  - by rewrite zmax_none.
  - pose proof (value_ok d m k H) as Hv. rewrite (IH (zmax_list M (value m k))) by by apply zmax_ok.
    rewrite (IH (zmax_list no_regs (value m k))) by (apply zmax_ok; [apply no_regs_ok|done]).
    by rewrite (zmax_none_l (value m k)), zmax_assoc.
Qed.

Lemma union_ok d m keys : db_rel d m -> regs_ok (union m keys).
Proof. intros H. apply (fold_union_ok d m keys H), no_regs_ok. Qed.

Lemma union_cons d m k keys : db_rel d m -> union m (k :: keys) = zmax_list (value m k) (union m keys).
Proof.
  intros H. unfold union at 1. cbn [fold_left]. pose proof (value_ok d m k H). rewrite zmax_none_l by done.
  by apply (fold_union d).
Qed.

Lemma merge_write_spec d m dst M s card regs ud kv0 : db_rel d m -> is_hll s card regs -> regs_ok M ->
  kv0 = <[dst := StrObj OBJ_ENCODING_RAW 1 s]> (kv d) -> forall dirty sig,
  exists d', ('(s, r) ← (if ud : bool then hllSparseToDense s else Some (s, C_OK));
      if r =? C_ERR then Some (Hdb kv0 dirty sig, RInvalid) else
      s ← write_max maxb M s 0;
      s ← HLL_INVALIDATE_CACHE s;
      Some (db_touch (store (Hdb kv0 dirty sig) dst s) dst, ROk)) = Some (d', ROk) /\
    db_rel d' (<[dst := zmax_list regs M]> m).
Proof.
  intros H Hs [HM HMr] -> dirty sig.
  assert (exists s1, (if ud then hllSparseToDense s else Some (s, C_OK)) = Some (s1, C_OK) /\ is_hll s1 card regs) as (s1 & -> & H1).
  { destruct ud; [|by exists s]. destruct (hllSparseToDense_spec _ _ _ Hs) as (s1 & E & H1). exists s1. split; [done|by left]. }
  cbn [mbind option_bind]. change (C_OK =? C_ERR) with false. cbv iota.
  destruct (write_max_spec M s1 card [] regs H1) as (s2 & card2 & E2 & H2); [rewrite HM; apply (is_hll_regs _ _ _ Hs)|done|].
  change (zlen (@nil Z)) with 0 in E2. rewrite E2. cbn [mbind option_bind app] in *.
  destruct (hll_invalidate _ _ _ H2) as (s3 & card3 & -> & H3 & Hbig). cbn [mbind option_bind].
  eexists. split; [done|]. unfold db_touch, store, db_set. cbn [kv Hll.dirty signalled]. rewrite insert_insert_eq.
  eapply db_rel_insert; [exact H|exact H3|by left|done].
Qed.

Lemma pfmerge_spec d m dst srcs : db_rel d m ->
  exists d', pfmergeCommand maxb d dst srcs = Some (d', ROk) /\ db_rel d' (<[dst := union m (dst :: srcs)]> m).
Proof.
  intros H. unfold pfmergeCommand. fold no_regs. rewrite nregs_eq.
  destruct (merge_keys_spec d m (dst :: srcs) H no_regs false no_regs_ok) as (ud & E). unfold no_regs in E at 1.
  rewrite E. cbn [mbind option_bind]. clear E.
  change (fold_left (fun acc key => zmax_list acc (value m key)) (dst :: srcs) no_regs) with (union m (dst :: srcs)).
  pose proof (union_ok d m (dst :: srcs) H) as HU.
  assert (Hid : zmax_list (value m dst) (union m (dst :: srcs)) = union m (dst :: srcs)).
  { by rewrite (union_cons d m dst srcs H), zmax_assoc, zmax_idem. }
  destruct (kv d !! dst) as [o|] eqn:Ek.
  - destruct (db_rel_some _ _ _ _ H Ek) as (enc & rc & s & card & regs & -> & Em & Hs & Hc).
    destruct (unshare_spec _ _ _ _ _ _ _ Ek Hs) as ([kv1 di1 si1] & s1 & -> & Hs1 & Ekv). cbn [mbind option_bind kv] in *.
    assert (Ev : value m dst = regs) by (unfold value; by rewrite Em). rewrite Ev in Hid.
    pose proof (merge_write_spec d m dst _ s1 card regs ud kv1 H Hs1 HU Ekv) as Q. rewrite Hid in Q. apply Q.
  - destruct createHLLObject_spec as (s & card & -> & Hs). cbn [mbind option_bind]. 
    change (store d dst s) with (Hdb (<[dst := StrObj OBJ_ENCODING_RAW 1 s]> (kv d)) (Hll.dirty d) (signalled d)).
    assert (Ev : value m dst = no_regs) by (unfold value; by rewrite (db_rel_none _ _ _ H Ek)). rewrite Ev in Hid.
    pose proof (merge_write_spec d m dst _ s card no_regs ud _ H Hs HU eq_refl) as Q. rewrite Hid in Q. apply Q.
Qed.

(** ** PFCOUNT *)

Lemma hllCount_sds s card regs : is_hll s card regs -> hllCount est (InSds s) = Some (card_of regs, false).
Proof. intros H. unfold hllCount. by rewrite (reg_histogram_sds _ _ _ H). Qed.

Lemma pfcount_one_spec d m key : db_rel d m ->
  exists d', pfcountCommand est d [key] = Some (d', RInt (match m !! key with None => 0 | Some regs => s64 (card_of regs) end)) /\ db_rel d' m.
Proof.
  intros H. unfold pfcountCommand. destruct (kv d !! key) as [o|] eqn:Ek.
  - destruct (db_rel_some _ _ _ _ H Ek) as (enc & rc & s & card & regs & -> & Em & Hs & Hc).
    rewrite (isHLL_spec _ _ _ _ _ Hs). cbn [mbind option_bind].
    destruct (unshare_spec _ _ _ _ _ _ _ Ek Hs) as ([kv1 di1 si1] & s1 & -> & Hs1 & Ekv). cbn [mbind option_bind kv] in *.
    destruct (hll_card _ _ _ Hs1) as [-> Ecard]. cbn [mbind option_bind]. rewrite Em.
    assert (Em' : <[key := regs]> m = m) by (by apply insert_id).
    destruct (Z.ltb_spec (le_value card) (2 ^ 63)).
    + rewrite Ecard. cbn [mbind option_bind]. destruct Hc as [Hc|Hc]; [lia|]. rewrite Hc. eexists. split; [done|].
      rewrite <- Em'. eapply db_rel_insert; [exact H|exact Hs1|by right|done].
    + rewrite (hllCount_sds _ _ _ Hs1). cbn [mbind option_bind].
      destruct (hll_put_card s1 card regs (card_of regs) Hs1) as (s2 & -> & H2). cbn [mbind option_bind].
      eexists. split; [done|]. rewrite <- Em'. unfold db_touch, store, db_set. cbn [kv Hll.dirty signalled]. subst kv1. rewrite insert_insert_eq.
      eapply db_rel_insert; [exact H|exact H2| |done]. right. rewrite le_value_bytes. unfold card_of, uwrap.
      change (8 * Z.of_nat 8) with 64. by rewrite Z.mod_mod.
  - rewrite (db_rel_none _ _ _ H Ek). by exists d.
Qed.

Lemma pfcount_many_spec d m k1 k2 keys : db_rel d m ->
  pfcountCommand est d (k1 :: k2 :: keys) = Some (d, RInt (s64 (card_of (union m (k1 :: k2 :: keys))))).
Proof.
  intros H. unfold pfcountCommand. fold no_regs. rewrite nregs_eq.
  destruct (merge_keys_spec d m (k1 :: k2 :: keys) H no_regs false no_regs_ok) as (ud & E). unfold no_regs in E at 1.
  rewrite E. cbn [mbind option_bind].
  change (fold_left (fun acc key => zmax_list acc (value m key)) (k1 :: k2 :: keys) no_regs) with (union m (k1 :: k2 :: keys)).
  unfold hllCount. rewrite (reg_histogram_raw _ (union_ok d m _ H)). done.
Qed.

Lemma command_spec d m c : db_rel d m ->
  exists d', run_cmd d c = Some (d', snd (spec_command m c)) /\ db_rel d' (fst (spec_command m c)).
Proof.
  intros H. destruct c as [key els|key keys|dst srcs].
  - by apply pfadd_spec.
  - destruct keys as [|k2 keys]; cbn [run_cmd spec_command fst snd].
    + by apply pfcount_one_spec.
    + exists d. split; [by apply pfcount_many_spec|done].
  - by apply pfmerge_spec.
Qed.

(** Sequences of commands. *)
Fixpoint run_cmds (d : hdb) (cs : list command) : option (hdb * list reply) :=
  match cs with
  | [] => Some (d, [])
  | c :: cs => '(d, r) ← run_cmd d c; '(d, rs) ← run_cmds d cs; Some (d, r :: rs)
  end.

Fixpoint spec_commands (m : gmap bytes (list Z)) (cs : list command) : gmap bytes (list Z) * list reply :=
  match cs with
  | [] => (m, [])
  | c :: cs => let '(m, r) := spec_command m c in let '(m, rs) := spec_commands m cs in (m, r :: rs)
  end.

Lemma commands_spec cs : forall d m, db_rel d m ->
  exists d', run_cmds d cs = Some (d', snd (spec_commands m cs)) /\ db_rel d' (fst (spec_commands m cs)).
Proof.
  induction cs as [|c cs IH]; intros d m H; [by exists d|]. cbn [run_cmds spec_commands].
  destruct (command_spec d m c H) as (d1 & -> & H1). cbn [mbind option_bind].
  destruct (spec_command m c) as [m1 r]. cbn [fst snd] in *.
  destruct (IH d1 m1 H1) as (d2 & -> & H2). cbn [mbind option_bind]. destruct (spec_commands m1 cs) as [m2 rs].
  by exists d2.
Qed.

End Refinement.
