(* ===== verification/HllRefine.v ===== *)
(** The theorems about HyperLogLogs, and what happens on strings that are not HyperLogLogs but pass
    the check of the commands. *)

From Stdlib Require Import String.
From stdpp Require Import gmap.
From S2P Require Import Prelude Util Sds Hll HllDense HllSparse HllSet HllSpec.
#[local] Open Scope list_scope.
#[local] Open Scope Z_scope.

(** * Strings of any content *)

Section AnyString.
Context (s : sds) (c : bytes) (Hs : is_sds s c) (Hc : bytes_ok c).
#[local] Set Default Proof Using "All".

Lemma any_byte i : 0 <= i <= zlen c -> exists b, rd s i = Some b /\ byte_ok b.
Proof.
  destruct Hs as (t & spare & HL). intros Hi. unfold rd. rewrite (lay_get _ _ _ _ _ HL) by lia.
  destruct (decide (i = zlen c)) as [->|Hne].
  - rewrite zget_app by done. exists 0. split; [done|]. unfold byte_ok. lia.
  - rewrite zget_app_l by lia. destruct (zget_in_range c i) as [b E]; [lia|]. exists b. split; [done|].
    apply zget_Some in E as [_ E]. by apply (Forall_lookup_1 _ _ _ _ Hc E).
Qed.

(** The macros on the byte at [p], and the lengths they can give. *)
Lemma any_opcode p : 0 <= p < zlen c ->
  exists z x, HLL_SPARSE_IS_ZERO s p = Some z /\ HLL_SPARSE_IS_XZERO s p = Some x /\
    (exists n, HLL_SPARSE_ZERO_LEN s p = Some n /\ 1 <= n <= 64) /\
    (exists n, HLL_SPARSE_XZERO_LEN s p = Some n /\ 1 <= n <= 16384) /\
    (exists n v, HLL_SPARSE_VAL_LEN s p = Some n /\ HLL_SPARSE_VAL_VALUE s p = Some v /\ 1 <= n <= 4 /\ 1 <= v <= 32).
Proof.
  intros Hp. destruct (any_byte p) as (b & Eb & Hb); [lia|]. destruct (any_byte (p + 1)) as (b' & Eb' & Hb'); [lia|].
  destruct (byte_bits b Hb) as (E1 & E2 & E3 & E4 & E5).
  unfold HLL_SPARSE_IS_ZERO, HLL_SPARSE_IS_XZERO, HLL_SPARSE_ZERO_LEN, HLL_SPARSE_XZERO_LEN, HLL_SPARSE_VAL_LEN, HLL_SPARSE_VAL_VALUE.
  rewrite Eb, Eb'. cbn [mbind option_bind]. rewrite E3, E4, E5. unfold byte_ok in *.
  eexists _, _. split_and!; [done|done|..].
  - eexists. split; [done|]. dlia.
  - eexists. split; [done|]. rewrite Z.lor_comm, lor_above by lia. pows. dlia.
  - eexists _, _. split_and!; [done|done|dlia|dlia|dlia|dlia].
Qed.

End AnyString.

(** ** Converting and merging any short string *)

Lemma set_run_any td ld Hd Xd v n : zlen Hd = 16 -> reg_ok v -> forall d regs idx, dmem td ld Hd Xd d regs -> zlen regs = 16384 ->
  0 <= idx -> idx + Z.of_nat n <= 16384 ->
  exists d' regs', set_run n d idx v = Some (d', idx + Z.of_nat n) /\ dmem td ld Hd Xd d' regs' /\ zlen regs' = 16384.
Proof.
  intros HH Hv. induction n as [|n IH]; intros d regs idx Hm Hl Hi Hn.
  - exists d, regs. split; [|done]. cbn. do 2 f_equal. lia.
  - cbn [set_run]. change HLL_HDR_SIZE with 16. rewrite <- HH.
    destruct (dense_set td ld Hd Xd d regs 32 idx v Hm) as (d1 & -> & H1); [by left|lia|lia|done|]. cbn [mbind option_bind].
    rewrite s32_small by lia. destruct (IH d1 _ (idx + 1) H1) as (d' & regs' & E & H' & Hl').
    { unfold zlen. rewrite length_insert. exact Hl. } { lia. } { lia. }
    exists d', regs'. rewrite E. split; [do 2 f_equal; lia|done].
Qed.

Lemma merge_run_any v n : forall M i, zlen M = 16384 -> 0 <= i -> i + Z.of_nat n <= 16384 ->
  exists M', merge_run n M i v = Some (M', i + Z.of_nat n) /\ zlen M' = 16384.
Proof.
  induction n as [|n IH]; intros M i HM Hi Hn.
  - exists M. split; [|done]. cbn. do 2 f_equal. lia.
  - cbn [merge_run]. destruct (zget_in_range M i) as [m ->]; [lia|]. cbn [mbind option_bind].
    assert (exists M1, (if v >? m then zput M i [v] else Some M) = Some M1 /\ zlen M1 = 16384) as (M1 & -> & H1).
    { destruct (v >? m); [|by exists M]. destruct (zput M i [v]) as [M1|] eqn:E.
      - exists M1. split; [done|]. by rewrite (zput_len _ _ _ _ E).
      - unfold zput in E. change (zlen [v]) with 1 in E. rewrite !(proj2 (Z.leb_le _ _)) in E by lia. done. }
    cbn [mbind option_bind]. rewrite s32_small by lia. destruct (IH M1 (i + 1) H1) as (M' & -> & H'); [lia|lia|].
    exists M'. split; [do 2 f_equal; lia|done].
Qed.

(** The walk stays below 8192 registers for a byte: an opcode of two bytes has at most 16384. *)
Lemma to_dense_any td ld Hd Xd s c fuel : is_sds s c -> bytes_ok c -> zlen c <= 2 ^ 18 -> zlen Hd = 16 -> forall d regs p idx,
  dmem td ld Hd Xd d regs -> zlen regs = 16384 -> 16 <= p -> 0 <= idx <= 8192 * (p - 16) -> p <= zlen c + 1 ->
  zlen c + 1 - p < Z.of_nat fuel ->
  exists d' idx' regs', to_dense_loop fuel s (zlen c) d p idx = Some (d', idx') /\ dmem td ld Hd Xd d' regs' /\ zlen regs' = 16384.
Proof.
  intros Hs Hc Hsz HH. induction fuel as [|fuel IH]; intros d regs p idx Hm Hl Hp Hi Hpe Hf.
  { lia. }
  cbn [to_dense_loop]. destruct (Z.ltb_spec p (zlen c)) as [Hlt|Hge]; [|by exists d, idx, regs].
  destruct (any_opcode s c Hs Hc p) as (z & x & -> & -> & (n1 & E1 & H1) & (n2 & E2 & H2) & (n3 & v & E3 & E4 & H3 & Hv)); [lia|].
  cbn [mbind option_bind]. destruct z; [|destruct x].
  - rewrite E1. cbn [mbind option_bind]. rewrite s32_small by lia. apply (IH d regs); (done || lia).
  - rewrite E2. cbn [mbind option_bind]. rewrite s32_small by lia. apply (IH d regs); (done || lia).
  - rewrite E3, E4. cbn [mbind option_bind]. rewrite s32_small by lia. change HLL_REGISTERS with 16384. rewrite Z.gtb_ltb.
    destruct (Z.ltb_spec 16384 (n3 + idx)); [by exists d, idx, regs|].
    destruct (set_run_any td ld Hd Xd v (Z.to_nat n3) HH) with (3 := Hl) (2 := Hm) (idx := idx) as (d1 & regs1 & -> & Hm1 & Hl1);
      [unfold reg_ok; lia|lia|lia|].
    cbn [mbind option_bind]. apply (IH d1 regs1); (done || lia).
Qed.

Lemma merge_sparse_any s c fuel : is_sds s c -> bytes_ok c -> zlen c <= 2 ^ 18 -> forall M p i,
  zlen M = 16384 -> 16 <= p -> 0 <= i <= 8192 * (p - 16) -> p <= zlen c + 1 -> zlen c + 1 - p < Z.of_nat fuel ->
  exists M' i', merge_sparse fuel M s p (zlen c) i = Some (M', i').
Proof.
  intros Hs Hc Hsz. induction fuel as [|fuel IH]; intros M p i HM Hp Hi Hpe Hf.
  { lia. }
  cbn [merge_sparse]. destruct (Z.ltb_spec p (zlen c)) as [Hlt|Hge]; [|by exists M, i].
  destruct (any_opcode s c Hs Hc p) as (z & x & -> & -> & (n1 & E1 & H1) & (n2 & E2 & H2) & (n3 & v & E3 & E4 & H3 & Hv)); [lia|].
  cbn [mbind option_bind]. destruct z; [|destruct x].
  - rewrite E1. cbn [mbind option_bind]. rewrite s32_small by lia. apply IH; (done || lia).
  - rewrite E2. cbn [mbind option_bind]. rewrite s32_small by lia. apply IH; (done || lia).
  - rewrite E3, E4. cbn [mbind option_bind]. change HLL_REGISTERS with 16384. rewrite Z.gtb_ltb.
    destruct (Z.ltb_spec 16384 (n3 + i)); [by exists M, i|].
    destruct (merge_run_any v (Z.to_nat n3) M i HM) as (M1 & -> & H1'); [lia|lia|].
    cbn [mbind option_bind]. apply IH; (done || lia).
Qed.

(** ** What the check of the commands accepts *)

Lemma sds_prefix s c i n : is_sds s c -> 0 <= i -> 0 <= n -> i + n <= zlen c ->
  s_sub s i n = zsub c i n.
Proof.
  intros (t & sp & HL) Hi Hn Hle. destruct (zsplit3 c i n Hi Hn Hle) as (A & M & B & -> & <- & <-).
  rewrite zsub_app by done. rewrite <- !app_assoc in HL. by apply (lay_sub s t (zlen (A ++ M ++ B)) A M (B ++ 0 :: sp)).
Qed.

(** An accepted sparse string is a header followed by anything. *)
Lemma accepted_shape e r s c : is_sds s c -> bytes_ok c -> isHLLObjectOrReply (StrObj e r s) = Some None ->
  hdr_encoding s = Some HLL_SPARSE ->
  exists nu card body, c = hll_hdr HLL_SPARSE nu card ++ body /\ hll_parts nu card no_regs.
Proof.
  intros Hs Hc Hacc He. unfold isHLLObjectOrReply in Hacc. rewrite (is_sds_len _ _ Hs) in Hacc. cbn [mbind option_bind] in Hacc.
  destruct (Z.ltb_spec (zlen c) HLL_HDR_SIZE) as [|Hsz]; [done|]. change HLL_HDR_SIZE with 16 in Hsz.
  rewrite (sds_prefix _ _ _ _ Hs) in Hacc by lia.
  destruct (zsplit3 c 0 4) as (P & m & c1 & -> & HP & Hm); [lia..|]. apply zlen_0_nil in HP as ->. cbn [app] in *.
  rewrite zsub_app0 in Hacc by done. cbn [mbind option_bind] in Hacc.
  destruct (bool_decide_reflect (m = str "HYLL")) as [->|]; [|done]. clear Hacc Hm.
  rewrite zlen_app in Hsz. change (zlen (str "HYLL")) with 4 in Hsz.
  destruct c1 as [|b c1]; [change (zlen (@nil Z)) with 0 in Hsz; lia|]. rewrite zlen_cons in Hsz.
  destruct Hs as (t & sp & HL). unfold hdr_encoding, rd in He. rewrite (lay_get _ _ _ _ _ HL) in He by lia.
  rewrite <- app_assoc in He. cbn [app] in He. rewrite (zget_app (str "HYLL")) in He by done. injection He as ->.
  destruct (zsplit3 c1 0 3) as (P & nu & c2 & -> & HP & Hnu); [lia..|]. apply zlen_0_nil in HP as ->. cbn [app] in *.
  rewrite zlen_app in Hsz.
  destruct (zsplit3 c2 0 8) as (P & card & body & -> & HP & Hcard); [lia..|]. apply zlen_0_nil in HP as ->. cbn [app] in *.
  exists nu, card, body. split; [unfold hll_hdr; apps|]. split; [done|done| |unfold zlen, no_regs; by rewrite length_replicate|apply no_regs_ok].
  apply Forall_app in Hc as [_ Hc]. apply List.Forall_cons_iff in Hc as [_ Hc]. apply Forall_app in Hc as [_ Hc].
  by apply Forall_app in Hc as [Hc _].
Qed.

(** ** Opcodes beyond the last register *)

Lemma s32_add a b : s32 (s32 a + b) = s32 (a + b).
Proof.
  unfold swrap. f_equal. replace ((a + 2 ^ (32 - 1)) mod 2 ^ 32 - 2 ^ (32 - 1) + b + 2 ^ (32 - 1))
    with ((a + 2 ^ (32 - 1)) mod 2 ^ 32 + b) by lia.
  rewrite Z.add_mod_idemp_l by lia. f_equal. lia.
Qed.

(** Opcodes for [n] times 16384 registers 0. *)
Definition xzeros (n : nat) : bytes := enc (replicate n (OXZero 16384)).

Lemma zlen_xzeros n : zlen (xzeros n) = 2 * Z.of_nat n.
Proof.
  induction n as [|n IH]; [done|]. unfold xzeros in *. cbn [replicate]. rewrite enc_cons, zlen_app, IH, zlen_enc_op. cbn [is_oxzero]. lia.
Qed.

Lemma xzeros_S n : xzeros (S n) = enc_op (OXZero 16384) ++ xzeros n.
Proof. done. Qed.

Lemma to_dense_xzeros s t len e d fuel X n : forall A idx, lay s t len (A ++ xzeros n ++ X) -> zlen A + 2 * Z.of_nat n <= e ->
  to_dense_loop (n + fuel) s e d (zlen A) (s32 idx) =
  to_dense_loop fuel s e d (zlen A + 2 * Z.of_nat n) (s32 (idx + 16384 * Z.of_nat n)).
Proof.
  induction n as [|n IH]; intros A idx HL He.
  - cbn [Nat.add]. f_equal; [lia|f_equal; lia].
  - cbn [Nat.add to_dense_loop]. rewrite (proj2 (Z.ltb_lt _ _)) by lia. rewrite xzeros_S, <- app_assoc in HL.
    destruct (read_op _ _ _ _ _ _ HL ltac:(cbn; lia)) as (Ez & Ex & _ & _ & El). rewrite Ez, Ex. cbn [mbind option_bind is_ozero is_oxzero].
    rewrite El. cbn [mbind option_bind]. rewrite s32_add. rewrite app_assoc in HL.
    replace (zlen A + 2) with (zlen (A ++ enc_op (OXZero 16384))) by (by rewrite zlen_app, zlen_enc_op).
    rewrite (IH _ _ HL) by (rewrite zlen_app, zlen_enc_op; cbn [is_oxzero]; lia).
    rewrite zlen_app, zlen_enc_op. cbn [is_oxzero]. f_equal; [lia|f_equal; lia].
Qed.

Lemma merge_xzeros s t len e M fuel X n : forall A i, lay s t len (A ++ xzeros n ++ X) -> zlen A + 2 * Z.of_nat n <= e ->
  merge_sparse (n + fuel) M s (zlen A) e (s32 i) =
  merge_sparse fuel M s (zlen A + 2 * Z.of_nat n) e (s32 (i + 16384 * Z.of_nat n)).
Proof.
  induction n as [|n IH]; intros A i HL He.
  - cbn [Nat.add]. f_equal; [lia|f_equal; lia].
  - cbn [Nat.add merge_sparse]. rewrite (proj2 (Z.ltb_lt _ _)) by lia. rewrite xzeros_S, <- app_assoc in HL.
    destruct (read_op _ _ _ _ _ _ HL ltac:(cbn; lia)) as (Ez & Ex & _ & _ & El). rewrite Ez, Ex. cbn [mbind option_bind is_ozero is_oxzero].
    rewrite El. cbn [mbind option_bind]. rewrite s32_add. rewrite app_assoc in HL.
    replace (zlen A + 2) with (zlen (A ++ enc_op (OXZero 16384))) by (by rewrite zlen_app, zlen_enc_op).
    rewrite (IH _ _ HL) by (rewrite zlen_app, zlen_enc_op; cbn [is_oxzero]; lia).
    rewrite zlen_app, zlen_enc_op. cbn [is_oxzero]. f_equal; [lia|f_equal; lia].
Qed.

(** With [n] = 262143, a string of 524303 bytes in which the register index wraps around to -16384. *)
Definition wrapping (n : nat) (nu card : bytes) : bytes :=
  hll_hdr HLL_SPARSE nu card ++ xzeros n ++ enc_op (OVal 1 1).

Lemma zlen_wrapping n nu card : Z.of_nat n = 262143 -> hll_parts nu card no_regs -> zlen (wrapping n nu card) = 524303.
Proof.
  intros Hn Hp. unfold wrapping. rewrite !zlen_app, (zlen_hll_hdr _ _ _ _ Hp), zlen_xzeros, zlen_enc_op. cbn [is_oxzero]. lia.
Qed.

Section Wrapping.
Context (n : nat) (Hn : Z.of_nat n = 262143).
Context (s : sds) (nu card : bytes) (Hs : is_sds s (wrapping n nu card)) (Hp : hll_parts nu card no_regs).
#[local] Set Default Proof Using "All".

Lemma wrapping_lay : exists t sp, lay s t (zlen (wrapping n nu card))
  (hll_hdr HLL_SPARSE nu card ++ xzeros n ++ enc_op (OVal 1 1) ++ 0 :: sp).
Proof.
  destruct Hs as (t & sp & HL). exists t, sp. unfold wrapping at 2 in HL. by rewrite <- !app_assoc in HL.
Qed.

Lemma wrapping_fuel : exists k, S (Z.to_nat (zlen (wrapping n nu card))) = (n + S (S k))%nat.
Proof. rewrite (zlen_wrapping n nu card Hn Hp). exists (Z.to_nat 524303 - n - 1)%nat. lia. Qed.

(** The VAL opcode at the end. *)
Lemma wrapping_val : exists t sp p, lay s t (zlen (wrapping n nu card)) (p ++ enc_op (OVal 1 1) ++ 0 :: sp) /\ zlen p = 524302.
Proof.
  destruct wrapping_lay as (t & sp & HL). rewrite app_assoc in HL. eexists t, sp, _. split; [exact HL|].
  rewrite zlen_app, (zlen_hll_hdr _ _ _ _ Hp), zlen_xzeros. lia.
Qed.

Lemma wrapping_accepted e r : isHLLObjectOrReply (StrObj e r s) = Some None.
Proof.
  pose proof (zlen_wrapping n nu card Hn Hp) as Hz. unfold isHLLObjectOrReply. rewrite (is_sds_len _ _ Hs), Hz. cbn [mbind option_bind].
  change (524303 <? HLL_HDR_SIZE) with false. cbv iota.
  rewrite (sds_prefix _ _ _ _ Hs) by lia. unfold wrapping, hll_hdr. rewrite <- app_assoc, zsub_app0 by done. cbn [mbind option_bind].
  rewrite bool_decide_eq_true_2 by done. cbn [negb]. destruct wrapping_lay as (t & sp & HL).
  rewrite (encoding_spec _ _ _ _ _ _ _ _ HL Hp). done.
Qed.

Lemma wrapping_to_dense : hllSparseToDense s = None.
Proof.
  destruct (to_dense_start s _ nu card _ no_regs Hs eq_refl Hp) as (d & td & spd & (D & Hd & _) & ->).
  destruct wrapping_lay as (t & sp & HL). destruct wrapping_val as (t' & sp' & p & HL' & Hzp).
  destruct wrapping_fuel as [k ->]. rewrite (zlen_wrapping n nu card Hn Hp) in *.
  pose proof (to_dense_xzeros s t _ 524303 d (S (S k)) _ _ _ 0 HL) as E. rewrite (zlen_hll_hdr _ _ _ _ Hp) in E.
  change HLL_HDR_SIZE with 16. change (s32 0) with 0 in E. rewrite E by lia. clear E. rewrite Hn.
  change (s32 (0 + 16384 * 262143)) with (-16384). change (16 + 2 * 262143) with 524302. rewrite <- Hzp.
  cbn [to_dense_loop]. rewrite (proj2 (Z.ltb_lt _ _)) by lia.
  destruct (read_op _ _ _ _ _ _ HL' ltac:(cbn; lia)) as (-> & -> & _ & _ & -> & ->). cbn [mbind option_bind is_ozero is_oxzero].
  change (s32 (1 + -16384) >? HLL_REGISTERS) with false. cbv iota. change (Z.to_nat 1) with 1%nat. cbn [set_run].
  assert (Hw : HLL_DENSE_SET_REGISTER 32 d HLL_HDR_SIZE (-16384) 1 = None); [|by rewrite Hw].
  unfold HLL_DENSE_SET_REGISTER. change (Z.quot (swrap 32 (-16384 * HLL_BITS)) 8) with (-12288).
  pose proof (lay_off _ _ _ _ Hd) as Ho. pose proof (lay_t _ _ _ _ Hd) as Ht.
  assert (off d <= 17) by (rewrite Ho; tcases Ht; done).
  assert (Hz : rd d (HLL_HDR_SIZE + -12288) = None).
  { unfold rd, zget. change HLL_HDR_SIZE with 16. by rewrite (proj2 (Z.leb_gt 0 (off d + (16 + -12288)))) by lia. }
  assert (Hu : forall f, upd d (HLL_HDR_SIZE + -12288) f = None) by (intros f; unfold upd; by rewrite Hz).
  by rewrite Hu.
Qed.

Lemma wrapping_merge M : zlen M = 16384 -> hllMerge M s = None.
Proof.
  intros HM. unfold hllMerge. destruct wrapping_lay as (t & sp & HL). destruct wrapping_val as (t' & sp' & p & HL' & Hzp).
  rewrite (encoding_spec _ _ _ _ _ _ _ _ HL Hp). cbn [mbind option_bind]. change (HLL_SPARSE =? HLL_DENSE) with false. cbv iota.
  rewrite (is_sds_len _ _ Hs). cbn [mbind option_bind].
  destruct wrapping_fuel as [k ->]. rewrite (zlen_wrapping n nu card Hn Hp) in *.
  pose proof (merge_xzeros s t _ 524303 M (S (S k)) _ _ _ 0 HL) as E. rewrite (zlen_hll_hdr _ _ _ _ Hp) in E.
  change HLL_HDR_SIZE with 16. change (s32 0) with 0 in E. rewrite E by lia. clear E. rewrite Hn.
  change (s32 (0 + 16384 * 262143)) with (-16384). change (16 + 2 * 262143) with 524302. rewrite <- Hzp.
  cbn [merge_sparse]. rewrite (proj2 (Z.ltb_lt _ _)) by lia.
  destruct (read_op _ _ _ _ _ _ HL' ltac:(cbn; lia)) as (-> & -> & _ & _ & -> & ->). cbn [mbind option_bind is_ozero is_oxzero].
  change (1 + -16384 >? HLL_REGISTERS) with false. cbv iota. change (Z.to_nat 1) with 1%nat. cbn [merge_run].
  change (zget M (-16384)) with (@None Z). done.
Qed.

End Wrapping.

(** ** Reading all registers *)

Lemma getreg_loop_spec t len H X s regs n : dmem t len H X s regs -> zlen H = 16 -> zlen regs <= 16384 ->
  forall dn R, regs = dn ++ R -> length R = n -> getreg_loop n s (zlen dn) = Some R.
Proof.
  intros Hm HH Hl. induction n as [|n IH]; intros dn R E HR.
  - by destruct R.
  - destruct R as [|r R]; [done|]. cbn [getreg_loop]. change HLL_HDR_SIZE with 16. rewrite <- HH.
    rewrite (dense_get t len H X s regs 32 (zlen dn) r) by (done || (by left) || (subst; by apply zget_app)).
    cbn [mbind option_bind]. replace (zlen dn + 1) with (zlen (dn ++ [r])) by zlia.
    rewrite (IH (dn ++ [r]) R) by (by rewrite <- ?app_assoc || by injection HR). done.
Qed.

Lemma getreg_all t len H X s regs n : dmem t len H X s regs -> zlen H = 16 -> zlen regs <= 16384 -> length regs = n ->
  getreg_loop n s 0 = Some regs.
Proof. intros Hm HH Hl Hn. by apply (getreg_loop_spec t len H X s regs n Hm HH Hl [] regs). Qed.

Lemma dense_getreg s card regs : is_dense s card regs -> getreg_loop (Z.to_nat HLL_REGISTERS) s 0 = Some regs.
Proof.
  intros (c & nu & Hs & Hp & Hc). destruct (dense_mem _ _ _ _ _ Hs Hc Hp) as (t & X & Hm). rewrite nregs_eq.
  apply (getreg_all t _ _ X s regs _ Hm); [by apply (zlen_hll_hdr _ _ _ _ Hp)|rewrite (hp_len _ _ _ Hp); lia|].
  apply (parts_regs _ _ _ Hp).
Qed.

(** The histograms of the three encodings are those of the registers, and the unrolled loop is the
    general one. *)
Lemma histograms_agree s card regs : is_hll s card regs ->
  reg_histogram (InSds s) = Some (histogram regs, false) /\ reg_histogram (InRaw regs) = Some (histogram regs, false) /\
  (is_dense s card regs -> dense_histo_slow (length regs) s 16 0 (histogram []) = Some (histogram regs)).
Proof.
  intros H. split_and!; [by eapply reg_histogram_sds|by apply reg_histogram_raw; eapply is_hll_regs|].
  intros (c & nu & Hs & Hp & Hc). destruct (dense_mem _ _ _ _ _ Hs Hc Hp) as (t & X & Hm).
  pose proof (dense_histo_slow_spec t _ _ X s regs (length regs) Hm ltac:(rewrite (hp_len _ _ _ Hp); lia) (hp_regs _ _ _ Hp)
    [] regs eq_refl eq_refl) as E.
  rewrite (zlen_hll_hdr _ _ _ _ Hp) in E. exact E.
Qed.

(** * Theorems *)

(** C6. The commands implement maps from keys to registers: from a database that holds only
    HyperLogLogs, in whatever encoding and with whatever cached cardinalities that are not stale,
    any sequence of PFADD, PFCOUNT and PFMERGE runs to its end without leaving a string or failing
    an assertion, for every limit on sparse strings and every estimator.  PFADD leaves under its
    key the maximum with the registers of the elements and answers 1 exactly when the key is new or
    a register grew, PFMERGE leaves the maximum over all its keys, and PFCOUNT answers the estimate
    for the histogram of the registers, cached or computed, of one key or of the union of several. *)
Theorem hll_commands_refine maxb est d m cs : db_rel est d m ->
  exists d', run_cmds maxb est d cs = Some (d', snd (spec_commands est m cs)) /\
    db_rel est d' (fst (spec_commands est m cs)).
Proof. apply commands_spec. Qed.

Lemma empty_db_rel est : db_rel est (Hdb ∅ 0 []) ∅.
Proof. intros key. cbn [kv]. by rewrite !lookup_empty. Qed.

Lemma hll_commands_refine_witness :
  let cs := [PFADD [107] [str "a"; str "b"]; PFADD [108] [str "c"]; PFMERGE [109] [[107]; [108]]; PFCOUNT [109] [];
             PFCOUNT [109] []; PFCOUNT [107] [[108]]] in
  exists d', run_cmds 3000 (fun h => nth 0 h 0) (Hdb ∅ 0 []) cs =
    Some (d', snd (spec_commands (fun h => nth 0 h 0) ∅ cs)) /\
    db_rel (fun h => nth 0 h 0) d' (fst (spec_commands (fun h => nth 0 h 0) ∅ cs)).
Proof. cbv zeta. apply (hll_commands_refine 3000 (fun h => nth 0 h 0)). apply empty_db_rel. Defined.

#[local] Opaque no_regs zmax_list elem_regs card_of.

(** C19. A HyperLogLog depends only on the set of elements: when two keys receive some elements by
    PFADD and are merged into a third by PFMERGE, the third key has the registers, and PFCOUNT the
    answer, of a key that receives all the elements at once, in any order and with any repetitions;
    PFCOUNT of the two keys together answers the same.  The registers are, for each index, the
    longest pattern among the elements that hash to it. *)
Theorem hll_union_of_sets maxb est d m a b c x els1 els2 els : db_rel est d m -> NoDup [a; b; c; x] ->
  m !! a = None -> m !! b = None -> m !! c = None -> m !! x = None ->
  (forall e, e ∈ els <-> e ∈ els1 \/ e ∈ els2) ->
  let v := RInt (s64 (card_of est (elem_regs els))) in
  exists d' m', run_cmds maxb est d
      [PFADD a els1; PFADD b els2; PFMERGE c [a; b]; PFADD x els; PFCOUNT c []; PFCOUNT x []; PFCOUNT a [b]] =
    Some (d', [RInt 1; RInt 1; ROk; RInt 1; v; v; v]) /\ db_rel est d' m' /\
    m' !! c = Some (elem_regs els) /\ m' !! x = Some (elem_regs els).
Proof.
  intros H Hnd Ha Hb Hc Hx Hels v.
  assert (a <> b /\ a <> c /\ a <> x /\ b <> c /\ b <> x /\ c <> x) as (Hab & Hac & Hax & Hbc & Hbx & Hcx).
  { clear - Hnd. rewrite !list.NoDup_cons, !not_elem_of_cons in Hnd. naive_solver. }
  assert (Hr : zmax_list (elem_regs els1) (elem_regs els2) = elem_regs els).
  { rewrite <- elem_regs_app. apply elem_regs_same. intros e. by rewrite elem_of_app, Hels. }
  assert (Hz : forall l, zmax_list no_regs (elem_regs l) = elem_regs l) by (intros l; apply zmax_none_l, elem_regs_ok).
  destruct (commands_spec maxb est
    [PFADD a els1; PFADD b els2; PFMERGE c [a; b]; PFADD x els; PFCOUNT c []; PFCOUNT x []; PFCOUNT a [b]] d m H) as (d' & E & Hrel).
  cbn [spec_commands spec_command fst snd union fold_left] in E, Hrel. unfold value, union in E, Hrel. cbn [fold_left] in E, Hrel. unfold value in E, Hrel.
  repeat first [rewrite lookup_insert_eq in E | rewrite lookup_insert_ne in E by done].
  repeat first [rewrite lookup_insert_eq in Hrel | rewrite lookup_insert_ne in Hrel by done].
  rewrite ?Ha, ?Hb, ?Hc, ?Hx in E, Hrel. cbn [default from_option id] in E, Hrel.
  rewrite (zmax_none no_regs no_regs_ok), !Hz, !Hr in E, Hrel.
  eexists d', _. split; [exact E|]. split; [exact Hrel|]. split; [|by rewrite lookup_insert_eq].
  by rewrite lookup_insert_ne, lookup_insert_eq.
Qed.

Lemma hll_union_of_sets_witness :
  exists d' m', run_cmds 3000 (fun h => nth 0 h 0) (Hdb ∅ 0 [])
      [PFADD [1] [str "a"; str "b"]; PFADD [2] [str "b"; str "c"]; PFMERGE [3] [[1]; [2]]; PFADD [4] [str "c"; str "b"; str "a"];
       PFCOUNT [3] []; PFCOUNT [4] []; PFCOUNT [1] [[2]]] =
    Some (d', [RInt 1; RInt 1; ROk; RInt 1;
               RInt (s64 (card_of (fun h => nth 0 h 0) (elem_regs [str "c"; str "b"; str "a"])));
               RInt (s64 (card_of (fun h => nth 0 h 0) (elem_regs [str "c"; str "b"; str "a"])));
               RInt (s64 (card_of (fun h => nth 0 h 0) (elem_regs [str "c"; str "b"; str "a"])))]) /\
    db_rel (fun h => nth 0 h 0) d' m' /\
    m' !! [3] = Some (elem_regs [str "c"; str "b"; str "a"]) /\ m' !! [4] = Some (elem_regs [str "c"; str "b"; str "a"]).
Proof.
  apply (hll_union_of_sets 3000 (fun h => nth 0 h 0) _ ∅); [apply empty_db_rel| |apply lookup_empty..|].
  - rewrite !list.NoDup_cons, !not_elem_of_cons. split_and!; (done || apply not_elem_of_nil || apply NoDup_nil_2).
  - intros e. rewrite !elem_of_cons. pose proof (not_elem_of_nil e). tauto.
Defined.

#[local] Transparent no_regs zmax_list elem_regs card_of.

(** C7. Setting a register of a sparse HyperLogLog, for any limit on its size: the opcode that
    covers the register is split, its neighbours are merged, or the string is promoted to the dense
    representation; the result is 1 exactly when the register grows, the registers read back by
    PFDEBUG GETREG are the old ones with the maximum at the index, and the call commutes with the
    conversion to the dense representation.  Nothing outside the string is touched. *)
Theorem hll_set_register maxb s card regs index old count :
  is_sparse s card regs -> zget regs index = Some old -> 1 <= count < 64 ->
  let regs' := set_reg regs index (Z.max old count) in let r := if old <? count then 1 else 0 in
  (exists s' s2 card', hllSparseSet maxb s index count = Some (s', r) /\ is_hll s' card' regs' /\
     hllSparseToDense s' = Some (s2, C_OK) /\ getreg_loop (Z.to_nat HLL_REGISTERS) s2 0 = Some regs') /\
  (exists s1 s2, hllSparseToDense s = Some (s1, C_OK) /\ hllDenseSet s1 HLL_HDR_SIZE index count = Some (s2, r) /\
     is_dense s2 card regs' /\ getreg_loop (Z.to_nat HLL_REGISTERS) s2 0 = Some regs').
Proof.
  intros Hs Hg Hc regs' r. split.
  - destruct (hllSparseSet_spec maxb s card regs index old count Hs Hg Hc) as (s' & card' & E & H' & _).
    destruct (hllSparseToDense_spec _ _ _ H') as (s2 & E2 & H2).
    exists s', s2, card'. split_and!; [exact E|exact H'|exact E2|by eapply dense_getreg].
  - destruct (hllSparseToDense_spec s card regs) as (s1 & E1 & H1); [by right|].
    destruct (hllDenseSet_spec s1 card regs index old count H1 Hg) as (s2 & E2 & H2); [unfold reg_ok; lia|].
    exists s1, s2. split_and!; [exact E1|exact E2|exact H2|by eapply dense_getreg].
Qed.

Lemma hll_set_register_witness :
  let regs' := set_reg no_regs 1000 (Z.max 0 5) in
  (exists s' s2 card', hllSparseSet 3000 empty_hll 1000 5 = Some (s', if 0 <? 5 then 1 else 0) /\ is_hll s' card' regs' /\
     hllSparseToDense s' = Some (s2, C_OK) /\ getreg_loop (Z.to_nat HLL_REGISTERS) s2 0 = Some regs') /\
  (exists s1 s2, hllSparseToDense empty_hll = Some (s1, C_OK) /\ hllDenseSet s1 HLL_HDR_SIZE 1000 5 = Some (s2, if 0 <? 5 then 1 else 0) /\
     is_dense s2 (zeros 8) regs' /\ getreg_loop (Z.to_nat HLL_REGISTERS) s2 0 = Some regs').
Proof.
  apply (hll_set_register 3000 empty_hll (zeros 8) no_regs 1000 0 5); [apply empty_hll_sparse| |lia].
  apply zget_Some. split; [lia|]. unfold no_regs. apply lookup_replicate_2. lia.
Defined.

(** C18. Strings that the commands accept as sparse HyperLogLogs without being any (a client can
    store them with SET).  Up to 2^18 bytes, whatever the opcodes say, the conversion to dense and
    the merge stay inside their arrays and answer success or an error.  But the register index is an
    [int] that only VAL opcodes test: in a string of 524303 bytes with 262143 opcodes for 16384
    zeros each it wraps around to -16384, and the VAL opcode after them makes PFCOUNT and PFMERGE
    access an array of the stack, and the conversion the heap, outside their bounds. *)
Theorem hll_corrupt_strings maxb est s c e r M n sw nu card d key ew rw k2 keys srcs :
  is_sds s c -> bytes_ok c -> zlen c <= 2 ^ 18 -> isHLLObjectOrReply (StrObj e r s) = Some None ->
  hdr_encoding s = Some HLL_SPARSE -> zlen M = 16384 ->
  Z.of_nat n = 262143 -> hll_parts nu card no_regs -> is_sds sw (wrapping n nu card) -> kv d !! key = Some (StrObj ew rw sw) ->
  ((exists s' res, hllSparseToDense s = Some (s', res) /\ (res = C_OK \/ res = C_ERR)) /\
   (exists M' res, hllMerge M s = Some (M', res) /\ (res = C_OK \/ res = C_ERR))) /\
  (zlen (wrapping n nu card) = 524303 /\ isHLLObjectOrReply (StrObj ew rw sw) = Some None /\ hllSparseToDense sw = None /\
   pfcountCommand est d (key :: k2 :: keys) = None /\ pfmergeCommand maxb d key srcs = None).
Proof.
  intros Hs Hc Hsz Hacc Henc HM Hn Hp Hsw Hk. split; [split|].
  - destruct (accepted_shape e r s c Hs Hc Hacc Henc) as (nu' & card' & body & Ec & Hp').
    destruct (to_dense_start s c nu' card' body no_regs Hs Ec Hp') as (d0 & td & spd & Hm & ->).
    destruct (to_dense_any td _ _ spd s c (S (Z.to_nat (zlen c))) Hs Hc Hsz (zlen_hll_hdr _ _ _ _ Hp') d0 _ 16 0 Hm)
      as (d' & idx & regs & E & _); [unfold zlen; by rewrite length_replicate|lia|lia|subst c; pose proof (zlen_nonneg body); rewrite zlen_app, (zlen_hll_hdr _ _ _ _ Hp'); lia|lia|].
    change HLL_HDR_SIZE with 16. rewrite E. cbn [mbind option_bind]. destruct (negb (idx =? HLL_REGISTERS)); eauto.
  - unfold hllMerge. rewrite Henc. cbn [mbind option_bind]. change (HLL_SPARSE =? HLL_DENSE) with false. cbv iota.
    rewrite (is_sds_len _ _ Hs). cbn [mbind option_bind].
    destruct (accepted_shape e r s c Hs Hc Hacc Henc) as (nu' & card' & body & Ec & Hp').
    destruct (merge_sparse_any s c (S (Z.to_nat (zlen c))) Hs Hc Hsz M 16 0 HM) as (M' & i & E);
      [lia|lia|subst c; pose proof (zlen_nonneg body); rewrite zlen_app, (zlen_hll_hdr _ _ _ _ Hp'); lia|lia|].
    change HLL_HDR_SIZE with 16. rewrite E. cbn [mbind option_bind]. destruct (negb (i =? HLL_REGISTERS)); eauto.
  - pose proof (wrapping_accepted n Hn sw nu card Hsw Hp) as Ha.
    destruct (wrapping_lay n Hn sw nu card Hsw Hp) as (t & sp & HL).
    assert (Hkeys : forall l ud, merge_keys d (key :: l) no_regs ud = None).
    { intros l ud. cbn [merge_keys]. rewrite Hk, Ha. cbn [mbind option_bind]. rewrite (encoding_spec _ _ _ _ _ _ _ _ HL Hp).
      cbn [mbind option_bind]. rewrite (wrapping_merge n Hn sw nu card Hsw Hp); [done|]. apply (hp_len _ _ _ Hp). }
    unfold no_regs in Hkeys. rewrite <- nregs_eq in Hkeys.
    split_and!; [by apply zlen_wrapping|apply Ha|by apply (wrapping_to_dense n Hn sw nu card)| |].
    + unfold pfcountCommand. by rewrite Hkeys.
    + unfold pfmergeCommand. by rewrite Hkeys.
Qed.

Lemma hll_corrupt_strings_witness : exists sw,
  let n := Z.to_nat 262143 in let d := Hdb {[ [107] := StrObj 0 1 sw ]} 0 [] in
  ((exists s' res, hllSparseToDense empty_hll = Some (s', res) /\ (res = C_OK \/ res = C_ERR)) /\
   (exists M' res, hllMerge no_regs empty_hll = Some (M', res) /\ (res = C_OK \/ res = C_ERR))) /\
  (zlen (wrapping n [0; 0; 0] (zeros 8)) = 524303 /\ isHLLObjectOrReply (StrObj 0 1 sw) = Some None /\ hllSparseToDense sw = None /\
   pfcountCommand (fun _ => 0) d [[107]; [108]] = None /\ pfmergeCommand 3000 d [107] [] = None).
Proof.
  assert (Hp : hll_parts [0; 0; 0] (zeros 8) no_regs).
  { destruct empty_hll_sparse as (c & nu & _ & [_ ? ? ? ?] & _). by split. }
  destruct (sdsnewlen_spec (wrapping (Z.to_nat 262143) [0; 0; 0] (zeros 8))) as (sw & _ & Hsw).
  { rewrite zlen_wrapping by (lia || exact Hp). lia. }
  exists sw. cbv zeta.
  apply (hll_corrupt_strings 3000 (fun _ => 0) empty_hll (hll_hdr HLL_SPARSE [0; 0; 0] (zeros 8) ++ [127; 255]) 0 1 no_regs
    (Z.to_nat 262143) sw [0; 0; 0] (zeros 8) _ [107] 0 1 [108] [] []).
  - exists 0, []. split; [vm_compute; reflexivity|done|lia|vm_compute; split; discriminate|vm_compute; done|done].
  - vm_compute. repeat (apply List.Forall_cons; [split; [discriminate|reflexivity]|]). apply List.Forall_nil.
  - vm_compute. discriminate.
  - vm_compute. reflexivity.
  - vm_compute. reflexivity.
  - apply (hp_len _ _ _ Hp).
  - lia.
  - exact Hp.
  - exact Hsw.
  - cbn [kv]. apply lookup_singleton_eq.
Defined.

(** A truncated XZERO opcode at the end of a string counts as two bytes when it is replaced: the
    last byte written takes the place of the terminator. *)
Example truncated_xzero :
  (s ← sdsnewlen (Some (hll_hdr HLL_SPARSE [0; 0; 0] (zeros 8) ++ [127])) 17;
   err ← isHLLObjectOrReply (StrObj 0 1 s);
   '(s', r) ← hllSparseSet 3000 s 0 1;
   n ← sdslen s';
   b ← rd s' n;
   Some (err, r, n, b)) = Some (None, 1, 18, 255).
Proof. vm_compute. reflexivity. Qed.
