(* ===== verification/Lessons.v ===== *)
(** The self-contained programs of the course lessons: the two sorting functions of
    lesson1.13, the summation of its debugging exercise, the mode string of the [ls -l] clone
    (lesson1.25), the recursive file count (lesson1.28) and the file copy (lesson1.22).

    Arrays are bounds checked and signed overflow is undefined: both are [None]. *)

From Stdlib Require Import Sorted String.
From stdpp Require Import list_tactics sorting.
From S2P Require Import Prelude Util.
#[local] Open Scope list_scope.
#[local] Open Scope Z_scope.

(** * lesson1.13: sorting *)

(** [int temp = array[i]; array[i] = array[j]; array[j] = temp;] when [array[i] > array[j]]. *)
Definition swap_if_greater (array : list Z) (i j : Z) : option (list Z) :=
  x ← zget array i;
  y ← zget array j;
  if x >? y then
    let temp := x in
    array ← zput array i [y];
    zput array j [temp]
  else Some array.

(** [for (int j = 0; j < len - 1 - i; j++)]; [n] iterations remain. *)
Fixpoint bubble_inner (n : nat) (array : list Z) (j : Z) : option (list Z) :=
  match n with
  | O => Some array
  | S n => array ← swap_if_greater array j (j + 1); bubble_inner n array (j + 1)
  end.

Fixpoint bubble_outer (n : nat) (array : list Z) (len i : Z) : option (list Z) :=
  match n with
  | O => Some array
  | S n =>
      array ← bubble_inner (Z.to_nat (len - 1 - i)) array 0;
      bubble_outer n array len (i + 1)
  end.

Definition bubbleSort (array : list Z) (len : Z) : option (list Z) :=
  bubble_outer (Z.to_nat (len - 1)) array len 0.

(** [for (int i = j + 1; i < len; i++)]. *)
Fixpoint select_inner (n : nat) (array : list Z) (j i : Z) : option (list Z) :=
  match n with
  | O => Some array
  | S n => array ← swap_if_greater array j i; select_inner n array j (i + 1)
  end.

Fixpoint select_outer (n : nat) (array : list Z) (len j : Z) : option (list Z) :=
  match n with
  | O => Some array
  | S n =>
      array ← select_inner (Z.to_nat (len - (j + 1))) array j (j + 1);
      select_outer n array len (j + 1)
  end.

Definition selectSort (array : list Z) (len : Z) : option (list Z) :=
  select_outer (Z.to_nat (len - 1)) array len 0.

Example bubble_ex : bubbleSort [12; 27; 55; 22; 67] 5 = Some [12; 22; 27; 55; 67].
Proof. reflexivity. Qed.
Example select_ex : selectSort [25; 47; 36; 80; 11] 5 = Some [11; 25; 36; 47; 80].
Proof. reflexivity. Qed.

(** [test]: [for (i = 0; i < a; ++i) num += i]; a sum that is not an [int] is [None]. *)
Fixpoint test_loop (n : nat) (num i : Z) : option Z :=
  match n with
  | O => Some num
  | S n => if num + i <=? INT32_MAX then test_loop n (num + i) (i + 1) else None
  end.

Definition test (a : Z) : option Z := test_loop (Z.to_nat a) 0 0.

(** * lesson1.25: the mode string of [ls -l] *)

Definition S_IFMT : Z := 0xF000.
Definition file_type (mode : Z) : Z :=
  match Z.land mode S_IFMT with
  | 0xA000 => 108   (* S_IFLNK 'l' *)
  | 0x4000 => 100   (* S_IFDIR 'd' *)
  | 0x8000 => 45    (* S_IFREG '-' *)
  | 0x6000 => 98    (* S_IFBLK 'b' *)
  | 0x2000 => 99    (* S_IFCHR 'c' *)
  | 0xC000 => 115   (* S_IFSOCK 's' *)
  | 0x1000 => 112   (* S_IFIFO 'p' *)
  | _ => 63         (* '?' *)
  end.

Definition perm_char (mode mask c : Z) : Z := if Z.land mode mask =? 0 then 45 else c.

(** The ten characters written into [perms]; the eleventh byte stays 0. *)
Definition ls_perms (mode : Z) : bytes :=
  [file_type mode;
   perm_char mode 256 114; perm_char mode 128 119; perm_char mode 64 120;
   perm_char mode 32 114; perm_char mode 16 119; perm_char mode 8 120;
   perm_char mode 4 114; perm_char mode 2 119; perm_char mode 1 120].

Example ls_ex : ls_perms 0x81B4 = str "-rw-rw-r--" /\ ls_perms 0x41ED = str "drwxr-xr-x".
Proof. by vm_compute. Qed.

(** * lesson1.28: counting regular files *)

(** A directory entry as [readdir] reports it; [None] for a directory that cannot be opened. *)
#[warnings="-register-all"] Inductive node := NReg | NDir (entries : option (list (bytes * node))) | NOther.

Definition newpath_size : Z := 256.

(** [Some None] is [exit(0)] after a failed [opendir]; [None] an overflow of [newpath]. *)
Fixpoint getFileNum (path : bytes) (dir : node) : option (option Z) :=
  match dir with
  | NReg | NOther | NDir None => Some None
  | NDir (Some entries) =>
      (fix loop (es : list (bytes * node)) (total : Z) : option (option Z) :=
         match es with
         | [] => Some (Some total)
         | (dname, ptr) :: es =>
             if bool_decide (dname = str ".") || bool_decide (dname = str "..") then loop es total
             else
               match ptr with
               | NDir _ =>
                   if zlen path + 1 + zlen dname <? newpath_size then
                     r ← getFileNum (path ++ [47] ++ dname) ptr;
                     match r with
                     | None => Some None
                     | Some k => loop es (total + k)
                     end
                   else None
               | NReg => loop es (total + 1)
               | NOther => loop es total
               end
         end) entries 0
  end.

(** * lesson1.22: copying a file *)

(** [write(destfd, buf, len)] at offset [pos]: overwrites and extends. *)
Definition file_write (file : bytes) (pos : Z) (b : bytes) : bytes :=
  take (Z.to_nat pos) file ++ b ++ drop (Z.to_nat (pos + zlen b)) file.

(** [while ((len = read(srcfd, buf, sizeof(buf))) > 0) write(destfd, buf, len);]: [reads] are the
    successive results of [read] (at most 1024 bytes each, the empty one is end of file or an
    error); a write to a regular file is complete.  The destination was opened with
    [O_WRONLY | O_CREAT], so it starts with its old contents. *)
Fixpoint copy_loop (reads : list bytes) (dest : bytes) (pos : Z) : option bytes :=
  match reads with
  | [] => None
  | buf :: reads =>
      if zlen buf >? 1024 then None
      else if zlen buf >? 0 then copy_loop reads (file_write dest pos buf) (pos + zlen buf)
      else Some dest
  end.

Definition copyfile (reads : list bytes) (dest : bytes) : option bytes := copy_loop reads dest 0.

(** * Sorting: lemmas *)

Lemma swap_if_greater_spec pre x mid y post :
  swap_if_greater (pre ++ x :: mid ++ y :: post) (zlen pre) (zlen pre + 1 + zlen mid) =
    Some (if x >? y then pre ++ y :: mid ++ x :: post else pre ++ x :: mid ++ y :: post).
Proof.
  unfold swap_if_greater. rewrite (zget_app pre x (mid ++ y :: post) (zlen pre) eq_refl). cbn [mbind option_bind].
  assert (E : zget (pre ++ x :: mid ++ y :: post) (zlen pre + 1 + zlen mid) = Some y).
  { replace (pre ++ x :: mid ++ y :: post) with ((pre ++ x :: mid) ++ y :: post) by (by rewrite <- app_assoc).
    apply zget_app. zlia. }
  rewrite E. cbn [mbind option_bind]. destruct (x >? y); [|done].
  rewrite zput1 by done. cbn [mbind option_bind].
  replace (pre ++ y :: mid ++ y :: post) with ((pre ++ y :: mid) ++ y :: post) by (by rewrite <- app_assoc).
  rewrite zput1 by zlia. by rewrite <- app_assoc.
Qed.

(** One pass of bubble sort over [x :: l]. *)
Fixpoint pass (x : Z) (l : list Z) : list Z :=
  match l with
  | [] => [x]
  | y :: l => if x >? y then y :: pass x l else x :: pass y l
  end.

Lemma bubble_inner_spec l : forall pre x post,
  bubble_inner (length l) (pre ++ x :: l ++ post) (zlen pre) = Some (pre ++ pass x l ++ post).
Proof.
  induction l as [|y l IH]; intros pre x post; [done|]. cbn [length bubble_inner pass].
  pose proof (swap_if_greater_spec pre x [] y (l ++ post)) as E. cbn [app] in E |- *.
  change (zlen (@nil Z)) with 0 in E. rewrite Z.add_0_r in E. rewrite E. cbn [mbind option_bind].
  replace (zlen pre + 1) with (zlen (pre ++ [if x >? y then y else x])) by zlia.
  destruct (x >? y); [specialize (IH (pre ++ [y]) x post)|specialize (IH (pre ++ [x]) y post)];
    rewrite <- !app_assoc in IH; cbn [app] in IH |- *; exact IH.
Qed.

Lemma pass_spec l : forall x, exists init m, pass x l = init ++ [m] /\ length init = length l /\
  init ++ [m] ≡ₚ x :: l /\ Forall (fun y => y <= m) init.
Proof.
  induction l as [|y l IH]; intros x; [by exists [], x|]. cbn [pass].
  destruct (x >? y) eqn:E; rewrite Z.gtb_ltb in E; zb.
  - destruct (IH x) as (init & m & -> & Hl & P & Hf). exists (y :: init), m.
    assert (x <= m).
    { assert (Hx : x ∈ init ++ [m]) by (rewrite P; by left). apply elem_of_app in Hx as [Hx|Hx%list_elem_of_singleton]; [|lia].
      rewrite list.Forall_forall in Hf. by apply Hf. }
    split; [done|]. split; [cbn; lia|]. split; [cbn; rewrite P; solve_Permutation|]. constructor; [lia|done].
  - destruct (IH y) as (init & m & -> & Hl & P & Hf). exists (x :: init), m.
    assert (y <= m).
    { assert (Hy : y ∈ init ++ [m]) by (rewrite P; by left). apply elem_of_app in Hy as [Hy|Hy%list_elem_of_singleton]; [|lia].
      rewrite list.Forall_forall in Hf. by apply Hf. }
    split; [done|]. split; [cbn; lia|]. split; [cbn; by rewrite P|]. constructor; [lia|done].
Qed.

(** The invariant of both outer loops: a sorted part that bounds the other. *)
Definition bounded (lo hi : list Z) : Prop := Forall (fun x => Forall (fun y => x <= y) hi) lo.

Lemma bubble_outer_spec n : forall front back len i,
  length front = S n -> StronglySorted Z.le back -> bounded front back ->
  len = zlen (front ++ back) -> i = zlen back ->
  exists out, bubble_outer n (front ++ back) len i = Some out /\ StronglySorted Z.le out /\ out ≡ₚ front ++ back.
Proof.
  induction n as [|n IH]; intros front back len i Hl Hs Hb -> ->.
  - destruct front as [|x [|]]; try done. eexists. split; [done|]. split; [|done].
    constructor; [done|]. by inversion Hb.
  - destruct front as [|x l]; [done|]. cbn [bubble_outer].
    replace (Z.to_nat (zlen ((x :: l) ++ back) - 1 - zlen back)) with (length l)
      by (rewrite zlen_app, zlen_cons; unfold zlen; lia).
    pose proof (bubble_inner_spec l [] x back) as E. cbn [app] in E. change (zlen []) with 0 in E.
    cbn [app]. rewrite E. cbn [mbind option_bind].
    destruct (pass_spec l x) as (init & m & -> & Hi & P & Hf).
    assert (Hb' : bounded (init ++ [m]) back).
    { unfold bounded in *. by rewrite P. }
    apply Forall_app in Hb' as [Hbi Hbm]. apply list.Forall_cons in Hbm as [Hbm _].
    destruct (IH init (m :: back) (zlen (x :: l ++ back)) (zlen back + 1)) as (out & Eo & Hso & Po).
    + cbn in Hl. lia.
    + by constructor.
    + apply list.Forall_forall. intros y Hy. constructor.
      * rewrite list.Forall_forall in Hf. by apply Hf.
      * unfold bounded in Hbi. rewrite list.Forall_forall in Hbi. by apply Hbi.
    + rewrite zlen_app, !zlen_cons, zlen_app. unfold zlen. rewrite Hi. lia.
    + rewrite zlen_cons. lia.
    + exists out. rewrite <- app_assoc. split; [exact Eo|]. split; [done|].
      rewrite Po. cbn [app]. change (x :: l ++ back) with ((x :: l) ++ back). rewrite <- P, <- app_assoc. done.
Qed.

Lemma sorted_snoc l x : StronglySorted Z.le l -> Forall (fun y => y <= x) l -> StronglySorted Z.le (l ++ [x]).
Proof.
  induction 1 as [|y l Hs IH Hf]; intros Hx; [by repeat constructor|].
  apply list.Forall_cons in Hx as [Hyx Hx]. cbn. constructor; [by apply IH|].
  apply Forall_app. split; [done|]. by repeat constructor.
Qed.

(** The inner loop of selection: the minimum comes to the front. *)
Fixpoint select_min (x : Z) (l : list Z) : Z * list Z :=
  match l with
  | [] => (x, [])
  | y :: l =>
      if x >? y then let '(m, r) := select_min y l in (m, x :: r)
      else let '(m, r) := select_min x l in (m, y :: r)
  end.

Lemma select_inner_spec l : forall pre x mid,
  select_inner (length l) (pre ++ x :: mid ++ l) (zlen pre) (zlen pre + 1 + zlen mid) =
    Some (pre ++ fst (select_min x l) :: mid ++ snd (select_min x l)).
Proof.
  induction l as [|y l IH]; intros pre x mid; [done|]. cbn [length select_inner select_min].
  rewrite swap_if_greater_spec. cbn [mbind option_bind]. destruct (x >? y).
  - specialize (IH pre y (mid ++ [x])). rewrite <- !app_assoc in IH. cbn [app] in IH.
    replace (zlen pre + 1 + zlen mid + 1) with (zlen pre + 1 + zlen (mid ++ [x])) by zlia.
    destruct (select_min y l) as [m r]. exact IH.
  - specialize (IH pre x (mid ++ [y])). rewrite <- !app_assoc in IH. cbn [app] in IH.
    replace (zlen pre + 1 + zlen mid + 1) with (zlen pre + 1 + zlen (mid ++ [y])) by zlia.
    destruct (select_min x l) as [m r]. exact IH.
Qed.

Lemma select_min_spec l : forall x, let '(m, r) := select_min x l in
  m :: r ≡ₚ x :: l /\ Forall (fun y => m <= y) r /\ m <= x.
Proof.
  induction l as [|y l IH]; intros x; [by split; [done|split; [constructor|lia]]|]. cbn [select_min].
  destruct (x >? y) eqn:E; rewrite Z.gtb_ltb in E; zb.
  - specialize (IH y). destruct (select_min y l) as [m r]. destruct IH as (P & Hf & Hm).
    split; [|split; [constructor; [lia|done]|lia]]. rewrite perm_swap, P. solve_Permutation.
  - specialize (IH x). destruct (select_min x l) as [m r]. destruct IH as (P & Hf & Hm).
    split; [|split; [constructor; [lia|done]|lia]]. rewrite perm_swap, P. solve_Permutation.
Qed.

Lemma select_outer_spec n : forall front back len j,
  length back = S n -> StronglySorted Z.le front -> bounded front back ->
  len = zlen (front ++ back) -> j = zlen front ->
  exists out, select_outer n (front ++ back) len j = Some out /\ StronglySorted Z.le out /\ out ≡ₚ front ++ back.
Proof.
  induction n as [|n IH]; intros front back len j Hl Hs Hb -> ->.
  - destruct back as [|x [|]]; try done. eexists. split; [done|]. split; [|done].
    apply sorted_snoc; [done|]. apply list.Forall_forall. intros y Hy. unfold bounded in Hb.
    rewrite list.Forall_forall in Hb. specialize (Hb y Hy). by inversion Hb.
  - destruct back as [|x l]; [done|]. cbn [select_outer].
    replace (Z.to_nat (zlen (front ++ x :: l) - (zlen front + 1))) with (length l)
      by (rewrite zlen_app, zlen_cons; unfold zlen; lia).
    pose proof (select_inner_spec l front x []) as E. cbn [app] in E. change (zlen []) with 0 in E.
    rewrite Z.add_0_r in E. rewrite E. cbn [mbind option_bind].
    pose proof (select_min_spec l x) as Hsm. destruct (select_min x l) as [m r]. cbn [fst snd].
    destruct Hsm as (P & Hf & Hm).
    assert (Hlr : length r = length l) by (apply Permutation_length in P; cbn in P; lia).
    assert (Hb' : bounded front (m :: r)).
    { unfold bounded in *. eapply list.Forall_impl; [exact Hb|]. intros y Hy. by rewrite P. }
    destruct (IH (front ++ [m]) r (zlen (front ++ x :: l)) (zlen front + 1)) as (out & Eo & Hso & Po).
    + cbn in Hl. lia.
    + apply sorted_snoc; [done|]. eapply list.Forall_impl; [exact Hb'|]. intros y Hy. by inversion Hy.
    + unfold bounded in *. apply Forall_app. split; [|by repeat constructor].
      eapply list.Forall_impl; [exact Hb'|]. intros y Hy. by inversion Hy.
    + rewrite !zlen_app, !zlen_cons. unfold zlen. rewrite Hlr. cbn. lia.
    + zlia.
    + exists out. rewrite <- app_assoc in Eo, Po. cbn [app] in Eo, Po. split; [exact Eo|]. split; [done|].
      rewrite Po. by rewrite P.
Qed.

(** * The other programs: lemmas *)

Lemma test_loop_spec n : forall num i, 0 <= num <= INT32_MAX -> 0 <= i ->
  test_loop n num i =
    let s := num + Z.of_nat n * i + Z.of_nat n * (Z.of_nat n - 1) / 2 in
    if s <=? INT32_MAX then Some s else None.
Proof.
  induction n as [|n IH]; intros num i Hn Hi; cbn [test_loop].
  { cbv zeta. change (Z.of_nat 0 * (Z.of_nat 0 - 1) / 2) with 0. rewrite Z.mul_0_l, !Z.add_0_r. by zdec. }
  assert (E : num + Z.of_nat (S n) * i + Z.of_nat (S n) * (Z.of_nat (S n) - 1) / 2 =
    num + i + Z.of_nat n * (i + 1) + Z.of_nat n * (Z.of_nat n - 1) / 2).
  { rewrite Nat2Z.inj_succ.
    replace (Z.succ (Z.of_nat n) * (Z.succ (Z.of_nat n) - 1)) with (Z.of_nat n * (Z.of_nat n - 1) + Z.of_nat n * 2) by lia.
    rewrite Z.div_add by lia. lia. }
  cbv zeta in *. rewrite E. assert (0 <= Z.of_nat n * (Z.of_nat n - 1) / 2) by (apply Z.div_pos; nia).
  destruct (Z.leb_spec (num + i) INT32_MAX).
  - rewrite IH by lia. done.
  - assert (0 <= Z.of_nat n * (i + 1)) by nia. by zdec.
Qed.

(** The permission bits of a mode, from the string. *)
Definition perms_bits (p : bytes) : Z :=
  foldl (fun acc c => 2 * acc + (if c =? 45 then 0 else 1)) 0 (drop 1 p).

Lemma perm_char_bit mode k c : 0 <= k -> c <> 45 ->
  (if perm_char mode (2 ^ k) c =? 45 then 0 else 1) = Z.b2z (Z.testbit mode k).
Proof.
  intros Hk Hc. unfold perm_char.
  assert (E : Z.land mode (2 ^ k) = 0 <-> Z.testbit mode k = false).
  { split; intros E.
    - pose proof (f_equal (fun z => Z.testbit z k) E) as Eb. cbv beta in Eb.
      by rewrite Z.land_spec, Z.pow2_bits_true, andb_true_r, Z.bits_0 in Eb by lia.
    - apply Z.bits_inj'. intros i Hi. rewrite Z.land_spec, Z.bits_0, Z.pow2_bits_eqb by lia.
      destruct (Z.eqb_spec k i) as [<-|]; [by rewrite E|apply andb_false_r]. }
  destruct (Z.eqb_spec (Z.land mode (2 ^ k)) 0) as [Ez|Ez].
  - by rewrite (proj1 E Ez).
  - destruct (Z.testbit mode k) eqn:Et; [by rewrite (proj2 (Z.eqb_neq c 45)) by done|].
    exfalso. by apply Ez, E.
Qed.

Lemma low_bits mode n : 0 <= n -> mode mod 2 ^ (n + 1) = mode mod 2 ^ n + 2 ^ n * Z.b2z (Z.testbit mode n).
Proof.
  intros Hn. rewrite Z.pow_add_r, Z.rem_mul_r by lia. rewrite Z.testbit_spec' by lia. done.
Qed.

Lemma perms_bits_spec mode : perms_bits (ls_perms mode) = mode mod 512.
Proof.
  unfold perms_bits, ls_perms. cbn [drop foldl].
  rewrite (perm_char_bit mode 8), (perm_char_bit mode 7), (perm_char_bit mode 6), (perm_char_bit mode 5),
    (perm_char_bit mode 4), (perm_char_bit mode 3), (perm_char_bit mode 2), (perm_char_bit mode 1),
    (perm_char_bit mode 0) by lia.
  assert (L0 : mode mod 2 = mode mod 1 + 1 * Z.b2z (Z.testbit mode 0)) by (apply (low_bits mode 0); lia).
  assert (L1 : mode mod 4 = mode mod 2 + 2 * Z.b2z (Z.testbit mode 1)) by (apply (low_bits mode 1); lia).
  assert (L2 : mode mod 8 = mode mod 4 + 4 * Z.b2z (Z.testbit mode 2)) by (apply (low_bits mode 2); lia).
  assert (L3 : mode mod 16 = mode mod 8 + 8 * Z.b2z (Z.testbit mode 3)) by (apply (low_bits mode 3); lia).
  assert (L4 : mode mod 32 = mode mod 16 + 16 * Z.b2z (Z.testbit mode 4)) by (apply (low_bits mode 4); lia).
  assert (L5 : mode mod 64 = mode mod 32 + 32 * Z.b2z (Z.testbit mode 5)) by (apply (low_bits mode 5); lia).
  assert (L6 : mode mod 128 = mode mod 64 + 64 * Z.b2z (Z.testbit mode 6)) by (apply (low_bits mode 6); lia).
  assert (L7 : mode mod 256 = mode mod 128 + 128 * Z.b2z (Z.testbit mode 7)) by (apply (low_bits mode 7); lia).
  assert (L8 : mode mod 512 = mode mod 256 + 256 * Z.b2z (Z.testbit mode 8)) by (apply (low_bits mode 8); lia).
  rewrite Z.mod_1_r in L0. lia.
Qed.

(** Regular files of a tree, not descending into the entries "." and "..". *)
Definition skipped (dname : bytes) : bool := bool_decide (dname = str ".") || bool_decide (dname = str "..").

Fixpoint regular_files (n : node) : Z :=
  match n with
  | NReg => 1
  | NOther | NDir None => 0
  | NDir (Some entries) =>
      (fix sum (es : list (bytes * node)) : Z :=
         match es with
         | [] => 0
         | (dname, ptr) :: es => (if skipped dname then 0 else regular_files ptr) + sum es
         end) entries
  end.

(** Every directory below can be opened and its path fits [newpath]. *)
Fixpoint tree_ok (path : bytes) (n : node) : bool :=
  match n with
  | NReg | NOther => true
  | NDir None => false
  | NDir (Some entries) =>
      (fix all (es : list (bytes * node)) : bool :=
         match es with
         | [] => true
         | (dname, ptr) :: es =>
             (skipped dname ||
              match ptr with
              | NDir _ => (zlen path + 1 + zlen dname <? newpath_size) && tree_ok (path ++ [47] ++ dname) ptr
              | NReg | NOther => true
              end) && all es
         end) entries
  end.

Section NodeInd.
Variable P : node -> Prop.
Hypothesis HReg : P NReg.
Hypothesis HOther : P NOther.
Hypothesis HNone : P (NDir None).
Hypothesis HSome : forall es, Forall (fun e => P (snd e)) es -> P (NDir (Some es)).
#[local] Set Default Proof Using "All".

Fixpoint node_induction (n : node) : P n :=
  match n with
  | NReg => HReg
  | NOther => HOther
  | NDir None => HNone
  | NDir (Some es) =>
      HSome es ((fix go (es : list (bytes * node)) : Forall (fun e => P (snd e)) es :=
                   match es with
                   | [] => Forall_nil_2 _
                   | e :: es => Forall_cons_2 _ _ _ (node_induction (snd e)) (go es)
                   end) es)
  end.
End NodeInd.

(** The loop over the entries counts what its recursive calls count. *)
Definition counted (n : node) : Prop :=
  match n with
  | NDir _ => forall path k, getFileNum path n = Some (Some k) <-> tree_ok path n = true /\ k = regular_files n
  | NReg | NOther => True
  end.

#[local] Ltac node_solve := split; [intros [? ->]|intros [? ->]]; (split; [done|lia]).

Lemma getFileNum_counted n : counted n.
Proof.
  induction n as [| | |es IH] using node_induction; try done; cbn [counted].
  { intros path k. cbn. naive_solver. }
  intros path k. cbn [getFileNum tree_ok regular_files].
  set (loop := fix loop (es : list (bytes * node)) (total : Z) := _).
  set (all := fix all (es : list (bytes * node)) : bool := _).
  set (sum := fix sum (es : list (bytes * node)) : Z := _).
  enough (G : forall total, loop es total = Some (Some k) <-> all es = true /\ k = total + sum es) by apply (G 0).
  induction IH as [|[dname ptr] es Hptr _ IHes]; intros total; cbn [loop all sum].
  { rewrite Z.add_0_r. naive_solver. }
  fold (skipped dname). cbn [snd] in Hptr. destruct (skipped dname); cbn [orb andb].
  { rewrite IHes. node_solve. }
  destruct ptr as [|sub|].
  - rewrite IHes. cbn. node_solve.
  - destruct (zlen path + 1 + zlen dname <? newpath_size); [|cbn; naive_solver]. cbn [andb].
    specialize (Hptr (path ++ [47] ++ dname)).
    destruct (getFileNum (path ++ [47] ++ dname) (NDir sub)) as [[m|]|]; cbn [mbind option_bind].
    + destruct (proj1 (Hptr m) eq_refl) as [-> ->]. rewrite IHes, andb_true_l. node_solve.
    + split; [done|]. intros [Hok _]. apply andb_true_iff in Hok as [Hok _].
      by specialize (proj2 (Hptr _) (conj Hok eq_refl)).
    + split; [done|]. intros [Hok _]. apply andb_true_iff in Hok as [Hok _].
      by specialize (proj2 (Hptr _) (conj Hok eq_refl)).
  - rewrite IHes. cbn. node_solve.
Qed.

Lemma copy_loop_spec chunks rest : forall out old pos,
  Forall (fun b => 0 < zlen b <= 1024) chunks -> pos = zlen out ->
  copy_loop (chunks ++ [] :: rest) (out ++ old) pos = Some (out ++ concat chunks ++ drop (length (concat chunks)) old).
Proof.
  induction chunks as [|b chunks IH]; intros out old pos Hc ->; [done|].
  apply list.Forall_cons in Hc as [Hb Hc]. cbn [app copy_loop concat].
  rewrite !Z.gtb_ltb. zdec. unfold file_write.
  replace (Z.to_nat (zlen out)) with (length out) by (unfold zlen; lia).
  replace (Z.to_nat (zlen out + zlen b)) with (length out + length b)%nat by (unfold zlen; lia).
  rewrite take_app_length, drop_app_add, app_assoc, IH; [|done|zlia].
  zdec. by rewrite drop_drop, length_app, <- !app_assoc.
Qed.

(** * Properties *)

(** [bubbleSort] and [selectSort], called with the length of the array, never index outside
    it and both leave the same array: the elements of the given one in ascending order. *)
Theorem lesson_sorts_sort array : exists out,
  bubbleSort array (zlen array) = Some out /\ selectSort array (zlen array) = Some out /\
  StronglySorted Z.le out /\ out ≡ₚ array.
Proof.
  destruct array as [|x l]; [by exists []; repeat split; constructor|]. unfold bubbleSort, selectSort.
  replace (Z.to_nat (zlen (x :: l) - 1)) with (length l) by (rewrite zlen_cons; unfold zlen; lia).
  destruct (bubble_outer_spec (length l) (x :: l) [] (zlen (x :: l)) 0) as (out & E & Hs & P);
    [done|constructor|by apply list.Forall_forall; intros; constructor|by rewrite app_nil_r|done|].
  destruct (select_outer_spec (length l) [] (x :: l) (zlen (x :: l)) 0) as (out' & E' & Hs' & P');
    [done|constructor|by constructor|done|done|].
  rewrite app_nil_r in E, P. exists out. split; [exact E|]. split; [|done].
  change (x :: l) with ([] ++ (x :: l)) at 1. rewrite E'. f_equal.
  apply (sorting.StronglySorted_unique Z.le); [done|done|]. by rewrite P', P.
Qed.

(** [test(a)] is the sum of the integers below [a] and overflows exactly from 65537 on. *)
Lemma test_sums a : test a =
  if a <=? 0 then Some 0 else if a <=? 65536 then Some (a * (a - 1) / 2) else None.
Proof.
  unfold test. destruct (Z.leb_spec a 0) as [Ha|Ha]; [by rewrite Z2Nat.nonpos|].
  rewrite test_loop_spec by (unfold INT32_MAX; lia). cbv zeta. rewrite Z2Nat.id by lia.
  rewrite Z.mul_0_r, !Z.add_0_l. unfold INT32_MAX. destruct (Z.leb_spec a 65536) as [Hb|Hb].
  - assert (a * (a - 1) / 2 <= 65536 * 65535 / 2) as Hs by (apply Z.div_le_mono; nia).
    change (65536 * 65535 / 2) with 2147450880 in Hs. by rewrite (proj2 (Z.leb_le _ _)) by lia.
  - assert (65537 * 65536 / 2 <= a * (a - 1) / 2) as Hs by (apply Z.div_le_mono; nia).
    change (65537 * 65536 / 2) with 2147516416 in Hs. by rewrite (proj2 (Z.leb_gt _ _)) by lia.
Qed.

(** The file type a letter stands for. *)
Definition type_code (c : Z) : Z :=
  if c =? 108 then 0xA000 else if c =? 100 then 0x4000 else if c =? 45 then 0x8000 else
  if c =? 98 then 0x6000 else if c =? 99 then 0x2000 else if c =? 115 then 0xC000 else 0x1000.

Lemma file_type_code m : file_type m <> 63 -> type_code (file_type m) = Z.land m S_IFMT.
Proof. unfold file_type. generalize (Z.land m S_IFMT). intros t. repeat case_match; done. Qed.

(** The mode string shows all nine permission bits and tells the seven file types apart. *)
Lemma ls_perms_faithful m m' :
  file_type m <> 63 -> ls_perms m = ls_perms m' ->
  m mod 512 = m' mod 512 /\ Z.land m S_IFMT = Z.land m' S_IFMT.
Proof.
  intros Hk E. split; [by rewrite <- !perms_bits_spec, E|].
  assert (Et : file_type m = file_type m') by (unfold ls_perms in E; congruence).
  rewrite <- (file_type_code m) by done. rewrite Et in Hk |- *. by apply file_type_code.
Qed.

(** Counting regular files returns a number exactly when every directory of the tree can be
    opened and its path fits the 256-byte buffer, and the number is that of the regular files. *)
Theorem getFileNum_counts path entries k :
  getFileNum path (NDir entries) = Some (Some k) <->
    tree_ok path (NDir entries) = true /\ k = regular_files (NDir entries).
Proof. exact (getFileNum_counted (NDir entries) path k). Qed.

(** Whatever chunks [read] returns, the copy holds the source followed by what the old
    destination had beyond that length: it equals the source exactly when the old destination
    was not longer. *)
Theorem copyfile_contents chunks rest old
    (Hc : Forall (fun b => 0 < zlen b <= 1024) chunks) :
  copyfile (chunks ++ [] :: rest) old = Some (concat chunks ++ drop (length (concat chunks)) old) /\
  (copyfile (chunks ++ [] :: rest) old = Some (concat chunks) <-> zlen old <= zlen (concat chunks)).
Proof.
  unfold copyfile. pose proof (copy_loop_spec chunks rest [] old 0 Hc eq_refl) as E. cbn [app] in E.
  rewrite E. split; [done|]. split.
  - intros [=E']. apply (f_equal length) in E'. rewrite length_app, length_drop in E'. unfold zlen. lia.
  - intros Hl. rewrite drop_ge, app_nil_r by (unfold zlen in Hl; lia). done.
Qed.

Lemma copyfile_contents_witness :
  copyfile [str "hello"; str "!"; []] (str "old contents") = Some (str "hello!ntents").
Proof.
  apply (copyfile_contents [str "hello"; str "!"] [] (str "old contents")). by repeat constructor.
Defined.
